(* ===== verification/_CoqProject ===== *)
-Q . S2P
Prelude.v
BoundedQueue.v
RemoteTaskQueue.v
IOBuf.v
IOBufHeap.v
IOBufOps.v
IOBufEquals.v
IOBufAppend.v
IOBufShare.v
IOBufRefine.v
IOBufCorrect.v
IOBufInput.v
VersionedRef.v
Hello.v
WriteQueue.v
WorkStealing.v
Dispatcher.v
Transport.v
Rpc.v
BlockPool.v
PoolAllocator.v
LargeBlock.v
SmallQueue.v
BthreadId.v
IdList.v
Butex.v
TimerThread.v
FlatMap.v
ResourcePool.v
Mutex.v
Sync.v
ThreadKey.v
BthreadKey.v
KeyPool.v
TaskGroup.v
Parking.v
