(* ===== verification/Prelude.v ===== *)
(** * light-rpc: a verification library

    light-rpc is an RPC framework over RDMA.  A server and its clients exchange
    frames over a pair of queue pairs; buffers are reference-counted chains of
    registered blocks; the program brings its own M:N threads (bthread) with
    their run queues and synchronisation.  This library translates the program's
    own logic into Rocq functions and step relations and proves what makes it
    correct.  File names below are relative to the repository root.

    ** The parts of the program and the files that model them

    - [Prelude]: machine integers with their wrap-around, byte order, the state
      and error monad [MS] of the sequential code, generic list lemmas, tactics
      and the hint database [lrpc].
    - [BoundedQueue] (src-bthread/butil/bounded_queue.h): the ring queue, over
      memory cells that are constructed or raw, with 32-bit positions.
    - [RemoteTaskQueue] (src-bthread/remote_task_queue.h): the locked queue of
      bthreads made by other threads, over [BoundedQueue].
    - [WorkStealing] (src-bthread/work_stealing_queue.h): the run queue of a
      worker, one step per access to shared memory, one owner and any number of
      thieves.
    - [IOBuf], [IOBufHeap], [IOBufOps], [IOBufEquals], [IOBufAppend],
      [IOBufShare] (inc/fast_iobuf.h, inc/fast_iobuf_inl.h,
      src-common/fast_iobuf.cc): blocks in a heap with reference counts, the
      small view of two references and the ring of the big view, the chain of
      blocks kept by a thread, and every operation on bytes, user data and other
      IOBufs.  [Allocator] and [AllocatorLaws] are the interface to the memory
      below.  [IOBufRefine] states the specification (byte strings) and proves
      the refinement, [IOBufCorrect] holds its claims, [IOBufInput] the zero-copy
      input stream.
    - [BlockPool] (src-common/fast_block_pool.cc): the pool of registered memory,
      its regions, buckets and thread caches.  [PoolAllocator] shows that it
      implements the interface [Allocator], so the theorems on IOBufs hold over
      the real pool.
    - [LargeBlock] (src-common/fast_large_block.cc, src-resource/fast_shared.cc):
      the cache of large registered regions.
    - [VersionedRef] (inc/versioned_ref_with_id.h): the versioned reference count
      that guards endpoints, one step per atomic access, any number of threads.
    - [Hello] (src-endpoint/fast_rdma_endpoint.cc): the handshake of two
      endpoints over a TCP socket.
    - [WriteQueue] (src-endpoint/fast_rdma_endpoint.cc, [StartWrite] to
      [ReleaseAllFailedWriteRequests]): the wait-free queue of write requests,
      one step per shared access.
    - [Transport] (src-endpoint/fast_rdma_endpoint.cc, [CutFromIOBufList],
      [SendImm], [PostRecv], [HandleCompletion]): the windows, the rings of send
      and receive buffers and the completions of the control queue pair.
    - [Dispatcher] (src-endpoint/message_dispatcher.cc): the cutting of frames
      out of the received bytes, over [IOBufRefine].
    - [Rpc] (src-endpoint/fast_channel.cc, src-endpoint/fast_server.cc): calls,
      requests, responses, failures and large transfers.
    - [SmallQueue] and [BthreadId] (src-bthread/id.cpp): lockable identifiers
      with versions and pending errors; one slot, any number of threads, one step
      per critical section or butex call.  [IdList]
      (src-bthread/list_of_abafree_id.h): the lists of identifiers to which an
      error can be issued.
    - [Butex] (src-bthread/butex.cpp, the interruption of task_group.cpp): the
      word with a queue of waiters under all blocking calls; any number of
      butexes, waiting bthreads and pthreads, wakers, timer callbacks and
      interrupting threads, one step per critical section or shared access.
    - [TimerThread] (src-bthread/timer_thread.cpp): buckets, the heap and the
      sleep of the thread that runs callbacks at their time; any number of
      scheduling, unscheduling and stopping threads.
    - [FlatMap] (src-bthread/butil/flat_map_inl.h, single_threaded_pool.h): the
      hash table with its first elements in the array, its iterators and the
      pool of its nodes.
    - [ResourcePool] (src-bthread/butil/resource_pool_inl.h, object_pool_inl.h):
      blocks of items, free lists of threads and the global list of chunks; one
      development for both pools, over the class [PoolItem] of item names.
    - [Mutex] (src-bthread/mutex.cpp, condition_variable.cpp): the mutex and the
      condition variable bound to it, with the requeueing of a broadcast.
    - [Sync] (src-bthread/semaphore.cpp, bthread_once.cpp, rwlock.cpp): one
      module each; the read-write lock is over the semaphore and the mutex.
    - [ThreadKey] (src-bthread/butil/thread_key.h, thread_key.cpp,
      thread_local.cpp): keys for data of threads, the class ThreadLocal over
      them, and the functions that are called when a thread exits.
    - [BthreadKey] (src-bthread/key.cpp): keys for data of bthreads, their
      two-level tables and the destruction of a table.  [KeyPool] (the same
      file): the pool that lends tables to bthreads, its lists of threads and the
      common list.
    - [TaskGroup] (src-bthread/task_group.cpp, task_group_inl.h, task_meta.h,
      stack_inl.h): bthreads and the workers that run them: start, the switch from
      one to the next and the stacks, sleep, interruption, end and reuse.
    - [Parking] (src-bthread/parking_lot.h, prime_offset.h, task_control.cpp): how
      workers search the queues of all groups, sleep and are woken.

    A call goes through [Rpc] (which makes the frame), [WriteQueue] (which
    orders the frames of all threads), [Transport] (which cuts them into
    messages), and on the other side [Dispatcher] (which finds the frames again)
    and [Rpc]; [IOBuf] carries the bytes, over [PoolAllocator] and [BlockPool];
    [VersionedRef] keeps the endpoint alive while a thread uses it.

    ** What the theorems show

    - Refinement of a specification: [iobuf_programs_refine] (IOBufs are byte
      strings), [iobuf_over_block_pool] (also over the real pool),
      [bounded_queue_refines], [wsq_linearizable], [process_new_message_refines].
    - Ordering and delivery: [write_queue_fifo], [stream_reassembly],
      [cut_from_iobuf_list_correct], [rpc_round_trip], [rpc_large_round_trip],
      [remote_queue_fifo].
    - Safety of memory and of concurrent use: [vref_safe], [write_queue_safe],
      [send_buffers_safe], [block_pool_safe], [iobuf_no_leak], [vref_no_leak],
      [wsq_exactly_once].
    - Progress: [write_queue_quiescent], [rpc_no_stuck_calls]; the sequential
      operations are total functions, and where they loop the theorems say that
      they return.
    - Errors: the refusals of the handshake, unknown services and methods, and
      the theorems that prove a defect of the code ([acquire_tls_block_all_full],
      [recv_credits_lost], [block_pool_drops_nodes] and the others of kind error).
    - Identifiers: [bthread_id_safe] (mutual exclusion),
      [bthread_id_no_lost_wakeup], [bthread_id_never_reused],
      [bthread_id_errors_fifo], [bthread_id_versions_bounded], [id_list_add],
      [id_list_bounded], and the defects [bthread_id_lost_wakeup] and
      [id_list_gc_drops].
    - Butexes: [butex_safe] (no use of a waiter that is gone, each suspended task
      resumed once), [butex_no_lost] and [butex_wake_n_wakes].
    - Timers: [timer_unschedule_exact], [timer_runs_once],
      [timer_never_oversleeps], [timer_earliest_first], [timer_stop_terminates].
    - Hash tables: [flat_map_refines] (finite maps), [flat_map_resumes].
    - Pools: [pool_refines] (an allocator), [resource_addresses],
      [pool_get_progress] and [object_pool_unique]; this is what the components
      that reuse slots rely on.
    - Synchronization: [mutex_exclusion], [mutex_no_lost_wakeup], [sem_exact],
      [once_exact], [rw_exclusion], [rw_no_deadlock]; [rw_timed_reader_blocks] and
      [rw_timed_writer_blocks] prove that a call of the read-write lock whose time
      is up leaves it blocked.
    - Specific data: [bthread_keys_refine] and [thread_key_refines] (ideal
      stores), [keytable_destroy], [keytable_pool_safe], [thread_local_owns],
      [thread_atexit_terminates]; the lemmas after them ([thread_exit_stale_data],
      [getspecific_after_delete], [delete_invalid_key], [borrow_after_destroy] and
      others) run the code into its defects.
    - Scheduler: [scheduler_safe] (each bthread that no full priority queue has
      dropped is in exactly one place), [bthread_lifecycle], [scheduler_typed] (a
      stack of the type asked for, of that type's factory), [usleep_full];
      [stale_sleep_check], [stale_sleep_lost] and [full_priority_queue_drops] run
      the code into its defects.
    - Workers: [no_lost_wakeup], [steal_round_complete] (the search of a lone
      worker leaves no bthread in any queue unless it finds one), [stop_wakes_all];
      [steal_wrap_loses] and [remote_after_stop] are defects.

    ** Conditions of the theorems

    Where the code keeps a promise only under a condition, the theorem states the
    condition and a lemma beside it runs the code into what happens without it.
    - A call makes the round trip of [rpc_round_trip] when its two frames are below
      [msg_threshold] and no length word is split by the receive path; larger ones
      are [rpc_large_round_trip] and [rpc_large_truncated].
    - [stream_reassembly] covers both branches of the receive path, the zero-copy
      one and the copy of short completions, when the copies find memory;
      [short_receive_lost] is the failing copy.
    - [pool_refines] asks for free chunks of at least one identifier;
      [zero_free_chunk] is the configuration [tc_stack_* <= 0].
    - [butex_safe] is about the waiter itself; the last access of a waker is the
      futex word of a pthread whose wait may be over ([futex_wake_after_return]).
    - [mutex_no_lost_wakeup] is about calls that do not give up with a wake-up
      already sent to them ([late_lock_loses_wakeup]).
    - [rw_exclusion] and [rw_no_deadlock] hold as long as no timed call runs out of
      time ([rw_timed_reader_blocks], [rw_timed_writer_blocks],
      [rw_timed_writers_wrap]).
    - [block_pool_safe] holds whatever the read of a deleted node gives, which is
      undefined behaviour in C++ (the field [freed] of [Ext] in [BlockPool]).

    ** Modelling decisions

    - Concurrency: the interleavings of steps, each one access to shared memory
      (or one critical section where the code holds a lock), in a sequentially
      consistent memory.  The fences of the code are what makes that adequate;
      weak memory itself is not modelled.
    - Integers keep their width: [u16], [u32], [u64] and [i32] write the
      wrap-around out.  Counters that cannot wrap in practice (the 64-bit
      positions of the run queue) carry a hypothesis that says so.
    - Fuel: a loop that is not structural takes a fuel argument computed by its
      caller from the data (the number of references, of bytes, of nodes).  Running out is a value of
      its own ([nofuel] or [None]), and the theorems show that it does not occur.
    - Undefined behaviour (a null dereference, a check that aborts) is a value of
      the model, too, so that its absence or presence is part of the theorems.
    - Code outside the repository (libibverbs, protobuf, libc) appears as outcomes or
      parameters of the definitions; what is assumed of it is a class of named
      laws ([SystemLaws], [AllocatorLaws], the hypotheses of [Rpc]'s
      environment), with instances that show they can hold.

    ** Not modelled

    Of the scheduler: tags, adding and removing workers (task_control.cpp), and the
    switch of stacks itself, which is assembly.  Logging, hashing, the
    thin wrappers of libibverbs in src-resource, the generated protobuf code,
    the life cycle of channel and server objects, and tests. *)
From Stdlib Require Export ZArith Lia List Bool.
From stdpp Require Export base tactics option list numbers gmap.

#[global] Open Scope Z_scope.

(** ** Machine integers

    A w-bit unsigned integer is a [Z] kept in [0 .. 2^w - 1]; the wrap-around
    of C++ arithmetic is written out with these functions.  A signed 32-bit
    value is read back with [i32]. *)

Definition u16 (x : Z) : Z := x mod 2 ^ 16.
Definition u32 (x : Z) : Z := x mod 2 ^ 32.
Definition u64 (x : Z) : Z := x mod 2 ^ 64.
Definition i32 (x : Z) : Z :=
  let y := x mod 2 ^ 32 in if y <? 2 ^ 31 then y else y - 2 ^ 32.

Definition is_u16 (x : Z) : Prop := 0 <= x < 2 ^ 16.
Definition is_u32 (x : Z) : Prop := 0 <= x < 2 ^ 32.
Definition is_u64 (x : Z) : Prop := 0 <= x < 2 ^ 64.

Create HintDb lrpc.

Lemma u16_small x : is_u16 x -> u16 x = x.
Proof. intros; apply Z.mod_small; assumption. Qed.
Lemma u32_small x : is_u32 x -> u32 x = x.
Proof. intros; apply Z.mod_small; assumption. Qed.
Lemma u64_small x : is_u64 x -> u64 x = x.
Proof. intros; apply Z.mod_small; assumption. Qed.
Lemma u16_range x : is_u16 (u16 x).
Proof. apply Z.mod_pos_bound; lia. Qed.
Lemma u32_range x : is_u32 (u32 x).
Proof. apply Z.mod_pos_bound; lia. Qed.
Lemma u64_range x : is_u64 (u64 x).
Proof. apply Z.mod_pos_bound; lia. Qed.
Lemma i32_small x : - 2 ^ 31 <= x < 2 ^ 31 -> i32 x = x.
Proof.
  intros H. unfold i32. destruct (Z.ltb_spec (x mod 2 ^ 32) (2 ^ 31));
    pose proof (Z.div_mod x (2 ^ 32)); pose proof (Z.mod_pos_bound x (2 ^ 32)); lia.
Qed.

#[export] Hint Resolve u16_range u32_range u64_range : lrpc.

(** ** Byte order

    The program runs on little-endian hosts: an integer stored through a
    pointer is its little-endian bytes, and [htons]/[htonl] swap bytes. *)

Fixpoint le_bytes (n : nat) (x : Z) : list Z :=
  match n with
  | O => []
  | S n' => x mod 256 :: le_bytes n' (x / 256)
  end.

Fixpoint le_value (bs : list Z) : Z :=
  match bs with
  | [] => 0
  | b :: bs' => b + 256 * le_value bs'
  end.

Definition htons (x : Z) : Z := (x mod 256) * 256 + (x / 256) mod 256.
Definition htonl (x : Z) : Z :=
  (x mod 256) * 2 ^ 24 + ((x / 256) mod 256) * 2 ^ 16
  + ((x / 2 ^ 16) mod 256) * 256 + (x / 2 ^ 24) mod 256.
(** [ntohs] takes a [uint16_t]: a wider argument is truncated first. *)
Definition ntohs (x : Z) : Z := htons (u16 x).
Definition ntohl (x : Z) : Z := htonl (u32 x).

Definition is_byte (b : Z) : Prop := 0 <= b < 256.

Lemma length_le_bytes n x : length (le_bytes n x) = n.
Proof. revert x; induction n; simpl; auto. Qed.

Lemma le_bytes_byte n x : Forall is_byte (le_bytes n x).
Proof.
  revert x; induction n; simpl; constructor; auto.
  apply Z.mod_pos_bound; lia.
Qed.

Lemma le_value_bytes n x : le_value (le_bytes n x) = x mod 256 ^ Z.of_nat n.
Proof.
  revert x; induction n as [|n IH]; intros x; cbn [le_bytes le_value].
  - by rewrite Z.mod_1_r.
  - rewrite IH, Nat2Z.inj_succ, Z.pow_succ_r by lia.
    rewrite Z.rem_mul_r by (try apply Z.pow_nonzero; lia). lia.
Qed.

Lemma le_bytes_value bs :
  Forall is_byte bs -> le_bytes (length bs) (le_value bs) = bs.
Proof.
  unfold is_byte. induction 1 as [|b bs Hb _ IH]; [done|]. cbn [le_bytes le_value length].
  rewrite (Z.mul_comm 256), Z_mod_plus_full, Z.mod_small by lia.
  rewrite Z.div_add, Z.div_small, Z.add_0_l by lia. by rewrite IH.
Qed.

Ltac zify_divmod := Z.div_mod_to_equations.

Lemma htons_range x : is_u16 (htons x).
Proof. unfold is_u16, htons. pose proof (Z.mod_pos_bound x 256); pose proof (Z.mod_pos_bound (x / 256) 256); lia. Qed.

Lemma htonl_range x : is_u32 (htonl x).
Proof.
  unfold is_u32, htonl.
  pose proof (Z.mod_pos_bound x 256); pose proof (Z.mod_pos_bound (x / 256) 256);
  pose proof (Z.mod_pos_bound (x / 2 ^ 16) 256); pose proof (Z.mod_pos_bound (x / 2 ^ 24) 256); lia.
Qed.

Lemma ntohs_htons x : is_u16 x -> ntohs (htons x) = x.
Proof.
  intros Hx. unfold ntohs. rewrite u16_small by apply htons_range.
  unfold htons, is_u16 in *. zify_divmod. lia.
Qed.

(** A 32-bit value by its four bytes, and what [htonl] does to them. *)
Definition of_digits (a b c d : Z) : Z := a + 256 * b + 65536 * c + 16777216 * d.

Lemma of_digits_div a b c d :
  is_byte a -> is_byte b -> is_byte c -> is_byte d ->
  of_digits a b c d mod 256 = a /\ (of_digits a b c d / 256) mod 256 = b /\
  (of_digits a b c d / 65536) mod 256 = c /\ (of_digits a b c d / 16777216) mod 256 = d.
Proof.
  unfold is_byte, of_digits. intros Ha Hb Hc Hd.
  repeat split.
  - symmetry; apply (Z.mod_unique_pos _ _ (b + 256 * c + 65536 * d)); lia.
  - rewrite <- (Z.div_unique_pos (a + 256 * b + 65536 * c + 16777216 * d) 256 (b + 256 * c + 65536 * d) a) by lia.
    symmetry; apply (Z.mod_unique_pos _ _ (c + 256 * d)); lia.
  - rewrite <- (Z.div_unique_pos (a + 256 * b + 65536 * c + 16777216 * d) 65536 (c + 256 * d) (a + 256 * b)) by lia.
    symmetry; apply (Z.mod_unique_pos _ _ d); lia.
  - rewrite <- (Z.div_unique_pos (a + 256 * b + 65536 * c + 16777216 * d) 16777216 d (a + 256 * b + 65536 * c)) by lia.
    apply Z.mod_small; lia.
Qed.

Lemma of_digits_ex x : is_u32 x ->
  exists a b c d, is_byte a /\ is_byte b /\ is_byte c /\ is_byte d /\ x = of_digits a b c d.
Proof.
  unfold is_u32, is_byte, of_digits. intros Hx.
  exists (x mod 256), ((x / 256) mod 256), ((x / 256 / 256) mod 256), (x / 256 / 256 / 256).
  pose proof (Z.mod_pos_bound x 256); pose proof (Z.mod_pos_bound (x / 256) 256);
  pose proof (Z.mod_pos_bound (x / 256 / 256) 256).
  pose proof (Z.div_mod x 256); pose proof (Z.div_mod (x / 256) 256);
  pose proof (Z.div_mod (x / 256 / 256) 256). lia.
Qed.

Lemma htonl_digits a b c d :
  is_byte a -> is_byte b -> is_byte c -> is_byte d ->
  htonl (of_digits a b c d) = of_digits d c b a.
Proof.
  intros Ha Hb Hc Hd. destruct (of_digits_div a b c d) as (E1 & E2 & E3 & E4); auto.
  unfold htonl. change (2 ^ 16) with 65536; change (2 ^ 24) with 16777216.
  rewrite E1, E2, E3, E4. unfold of_digits. lia.
Qed.

Lemma ntohl_htonl x : is_u32 x -> ntohl (htonl x) = x.
Proof.
  intros Hx. unfold ntohl. rewrite u32_small by apply htonl_range.
  destruct (of_digits_ex x Hx) as (a & b & c & d & Ha & Hb & Hc & Hd & ->).
  by rewrite !htonl_digits.
Qed.

Lemma htonl_ntohl x : is_u32 x -> htonl (ntohl x) = x.
Proof.
  intros Hx. unfold ntohl. rewrite u32_small by done.
  destruct (of_digits_ex x Hx) as (a & b & c & d & Ha & Hb & Hc & Hd & ->).
  by rewrite !htonl_digits.
Qed.

(** Truncating a network-order 32-bit value to 16 bits and swapping it yields
    the upper half of the original value, not the lower one. *)
Lemma ntohs_htonl x : is_u32 x -> ntohs (htonl x) = x / 2 ^ 16.
Proof.
  intros Hx. destruct (of_digits_ex x Hx) as (a & b & c & d & Ha & Hb & Hc & Hd & ->).
  rewrite htonl_digits by auto. unfold ntohs, u16, htons, of_digits, is_byte in *.
  change (2 ^ 16) with 65536.
  rewrite <- (Z.mod_unique_pos (d + 256 * c + 65536 * b + 16777216 * a) 65536 (b + 256 * a) (d + 256 * c)) by lia.
  rewrite <- (Z.mod_unique_pos (d + 256 * c) 256 c d) by lia.
  rewrite <- (Z.div_unique_pos (d + 256 * c) 256 c d) by lia.
  rewrite (Z.mod_small c) by lia.
  rewrite <- (Z.div_unique_pos (a + 256 * b + 65536 * c + 16777216 * d) 65536 (c + 256 * d) (a + 256 * b)); lia.
Qed.

(** Storing a value after [htonl] lays its bytes out most significant first. *)
Definition be32 (x : Z) : list Z := le_bytes 4 (htonl x).
Definition load32 (bs : list Z) : Z := le_value (take 4 bs).

Lemma load_be32 x rest : is_u32 x -> ntohl (load32 (be32 x ++ rest)) = x.
Proof.
  intros Hx. unfold load32, be32. rewrite take_app_length' by (by rewrite length_le_bytes).
  rewrite le_value_bytes. change (256 ^ Z.of_nat 4) with (2 ^ 32).
  rewrite Z.mod_small by apply htonl_range. by apply ntohl_htonl.
Qed.

#[export] Hint Resolve htons_range htonl_range le_bytes_byte : lrpc.

(** ** Effects

    Stateful, fallible code is a function from the state to an outcome:
    a result with the new state, the process aborted by [LOG(FATAL)] or a
    failed [CHECK], undefined behaviour (a null or dangling dereference, an
    access out of bounds), or a loop that ran out of the fuel of its model. *)

Inductive outcome (S A : Type) : Type :=
| Ok (a : A) (s : S)
| Abort
| Undef
| NoFuel.
Arguments Ok {S A} a s.
Arguments Abort {S A}.
Arguments Undef {S A}.
Arguments NoFuel {S A}.

Definition M (S A : Type) : Type := S -> outcome S A.

Definition ret {S A} (a : A) : M S A := fun s => Ok a s.
Definition bind {S A B} (m : M S A) (f : A -> M S B) : M S B := fun s =>
  match m s with
  | Ok a s' => f a s'
  | Abort => Abort
  | Undef => Undef
  | NoFuel => NoFuel
  end.

Declare Scope lrpc_scope.
Delimit Scope lrpc_scope with lrpc.
Notation "'let!' x := m 'in' k" := (bind m (fun x => k))
  (at level 10, x binder, m at level 100, k at level 200,
   format "'[v' 'let!'  x  :=  m  'in' '/' k ']'") : lrpc_scope.
#[global] Open Scope lrpc_scope.

Definition get {S} : M S S := fun s => Ok s s.
Definition modify {S} (f : S -> S) : M S unit := fun s => Ok tt (f s).
Definition abort {S A} : M S A := fun _ => Abort.
Definition undef {S A} : M S A := fun _ => Undef.
Definition nofuel {S A} : M S A := fun _ => NoFuel.
(** [CHECK(c)] aborts the process when [c] does not hold. *)
Definition check {S} (c : bool) : M S unit := if c then ret tt else abort.
(** An access that is undefined behaviour when there is nothing to access. *)
Definition deref {S A} (o : option A) : M S A :=
  match o with Some a => ret a | None => undef end.

Lemma bind_ok {S A B} (m : M S A) (f : A -> M S B) s a s' :
  m s = Ok a s' -> bind m f s = f a s'.
Proof. unfold bind. by intros ->. Qed.

Lemma deref_some {S A} (o : option A) (a : A) (s : S) :
  o = Some a -> deref o s = Ok a s.
Proof. by intros ->. Qed.

(** [exec H] runs the first action of a program with its known result. *)
Ltac exec H := rewrite (bind_ok _ _ _ _ _ H).
Ltac mstep := unfold bind, ret, get, modify, check, deref; simpl.

(** ** Slices of a byte list, by offset and length *)

Definition slice {A} (off len : Z) (l : list A) : list A :=
  take (Z.to_nat len) (drop (Z.to_nat off) l).

Definition zlen {A} (l : list A) : Z := Z.of_nat (length l).

Lemma zlen_nonneg {A} (l : list A) : 0 <= zlen l.
Proof. unfold zlen; lia. Qed.
Lemma zlen_app {A} (l k : list A) : zlen (l ++ k) = zlen l + zlen k.
Proof. unfold zlen. rewrite length_app. lia. Qed.
Lemma zlen_cons {A} (x : A) l : zlen (x :: l) = 1 + zlen l.
Proof. unfold zlen. simpl length. lia. Qed.
Lemma zlen_nil {A} : zlen (@nil A) = 0.
Proof. done. Qed.

Lemma zlen_snoc {A} (x : A) l : zlen (l ++ [x]) = zlen l + 1.
Proof. by rewrite zlen_app. Qed.

Lemma zlen_slice {A} off len (l : list A) :
  0 <= off -> 0 <= len -> off + len <= zlen l -> zlen (slice off len l) = len.
Proof. unfold zlen, slice. intros. rewrite length_take, length_drop. lia. Qed.

Lemma slice_0 {A} off (l : list A) : slice off 0 l = [].
Proof. done. Qed.

Lemma slice_app {A} off n m (l : list A) :
  0 <= off -> 0 <= n -> 0 <= m ->
  slice off n l ++ slice (off + n) m l = slice off (n + m) l.
Proof.
  intros. unfold slice.
  rewrite !Z2Nat.inj_add by lia. rewrite <- drop_drop.
  generalize (drop (Z.to_nat off) l); intros k.
  rewrite <- (take_drop (Z.to_nat n) (take (Z.to_nat n + Z.to_nat m) k)).
  rewrite take_take, Nat.min_l by lia. f_equal.
  rewrite skipn_firstn_comm. f_equal. lia.
Qed.

Lemma take_slice {A} off len n (l : list A) :
  0 <= n <= len -> take (Z.to_nat n) (slice off len l) = slice off n l.
Proof. intros. unfold slice. rewrite take_take. f_equal. lia. Qed.

Lemma drop_slice {A} off len n (l : list A) :
  0 <= off -> 0 <= n <= len ->
  drop (Z.to_nat n) (slice off len l) = slice (off + n) (len - n) l.
Proof.
  intros. unfold slice. rewrite skipn_firstn_comm, drop_drop.
  f_equal; [lia|]. f_equal. lia.
Qed.

(** ** Permutations of concatenations *)

Lemma perm_snoc {A} (x y : A) l k : x :: (l ++ [y]) ++ k ≡ₚ y :: x :: l ++ k.
Proof.
  rewrite <- (assoc (++)). simpl. rewrite <- (Permutation_middle l k y). apply Permutation_swap.
Qed.
Lemma perm_snoc_head {A} (y : A) l k : (l ++ [y]) ++ k ≡ₚ y :: l ++ k.
Proof. rewrite <- (assoc (++)). simpl. by rewrite <- Permutation_middle. Qed.

(** ** A 64-bit word made of two 32-bit halves *)

Lemma lor_word v x : 0 <= v -> is_u32 x -> Z.lor (Z.shiftl v 32) x = v * 2 ^ 32 + x.
Proof.
  unfold is_u32. intros Hv Hx. rewrite Z.shiftl_mul_pow2 by lia.
  assert (Z.land (v * 2 ^ 32) x = 0) as H0.
  { apply Z.bits_inj'. intros n Hn. rewrite Z.land_spec, Z.bits_0.
    destruct (Z.ltb_spec n 32) as [Hl|Hl]; [by rewrite Z.mul_pow2_bits_low by lia|].
    rewrite (Z.bits_above_log2 x n); [by rewrite andb_false_r|lia|].
    destruct (Z.eq_dec x 0) as [->|Hz]; [simpl; lia|].
    apply Z.log2_lt_pow2; [lia|]. eapply Z.lt_le_trans; [apply Hx|]. apply Z.pow_le_mono_r; lia. }
  rewrite <- (Z.lxor_lor _ _ H0). symmetry. by apply Z.add_nocarry_lxor.
Qed.
Lemma land_low w : Z.land w 0xFFFFFFFF = u32 w.
Proof. change 0xFFFFFFFF with (Z.ones 32). by rewrite Z.land_ones by lia. Qed.
Lemma word_low v x : is_u32 x -> u32 (v * 2 ^ 32 + x) = x.
Proof. intros Hx. unfold u32. rewrite Z.add_comm, Z_mod_plus_full. by apply Z.mod_small. Qed.

(** ** Sums over a list of which one element changes *)

Lemma sum_insert {A} (f : A -> nat) (l : list A) (i : nat) x y : l !! i = Some x ->
  (sum_list_with f (<[i := y]> l) + f x = sum_list_with f l + f y)%nat.
Proof.
  revert i. induction l as [|z l IH]; intros [|i] H; try done.
  - injection H as ->. cbn. lia.
  - change (f z + sum_list_with f (<[i := y]> l) + f x = f z + sum_list_with f l + f y)%nat. specialize (IH i H). lia.
Qed.
Lemma sum_lookup {A} (f : A -> nat) (l : list A) (i : nat) x : l !! i = Some x -> (f x <= sum_list_with f l)%nat.
Proof. intros H. apply list_elem_of_lookup_2 in H. by apply sum_list_with_in. Qed.
Lemma sum_two {A} (f : A -> nat) (l : list A) (i j : nat) x y : l !! i = Some x -> l !! j = Some y -> i <> j -> (f x + f y <= sum_list_with f l)%nat.
Proof.
  revert i j. induction l as [|z l IH]; intros [|i] [|j] Hi Hj Hne; cbn in *; try done.
  - injection Hi as ->. pose proof (sum_lookup f l j y Hj). lia.
  - injection Hj as ->. pose proof (sum_lookup f l i x Hi). lia.
  - specialize (IH i j Hi Hj ltac:(congruence)). lia.
Qed.
Lemma sum_pos {A} (f : A -> nat) (l : list A) : (0 < sum_list_with f l)%nat -> exists i x, l !! i = Some x /\ (0 < f x)%nat.
Proof.
  induction l as [|x l IH]; cbn; [lia|]. intros H. destruct (decide (0 < f x)%nat) as [Hx|Hx]; [by exists 0%nat, x|]. destruct IH as (i & y & Hi & Hy); [lia|]. by exists (Datatypes.S i), y.
Qed.
(** Occurrences in a list of numbers. *)
Definition b2n (b : bool) : nat := if b then 1 else 0.
Definition cocc (l : list nat) (k : nat) : nat := count_occ Nat.eq_dec l k.
Definition remove_k (k : nat) (l : list nat) : list nat := List.filter (fun v => negb (v =? k)%nat) l.
Lemma cocc_remove k u l : cocc (remove_k k l) u = if decide (u = k) then 0%nat else cocc l u.
Proof.
  unfold remove_k, cocc. induction l as [|v l IH]; cbn; [by destruct (decide (u = k))|]. destruct (Nat.eqb_spec v k) as [->|Hv]; cbn.
  - rewrite IH. destruct (decide (u = k)) as [->|]; [done|]. destruct (Nat.eq_dec k u); [congruence|done].
  - rewrite IH. destruct (Nat.eq_dec v u) as [->|]; destruct (decide (u = k)); congruence.
Qed.
Lemma cocc_cons w l v : cocc (w :: l) v = (b2n (w =? v)%nat + cocc l v)%nat.
Proof. unfold cocc. cbn. destruct (Nat.eq_dec w v) as [->|H]; [by rewrite Nat.eqb_refl|]. by destruct (Nat.eqb_spec w v). Qed.
Lemma cocc_app l k v : cocc (l ++ k) v = (cocc l v + cocc k v)%nat.
Proof. apply count_occ_app. Qed.
Lemma elem_cocc k l : k ∈ l <-> (0 < cocc l k)%nat.
Proof. rewrite list_elem_of_In. apply count_occ_In. Qed.
(** One list of a concatenation is replaced. *)
Lemma concat_insert {A B} (f : A -> list B) (l : list A) i x y : l !! i = Some x ->
  exists R, concat (map f l) ≡ₚ f x ++ R /\ concat (map f (<[i := y]> l)) ≡ₚ f y ++ R.
Proof.
  revert i. induction l as [|a l IH]; intros [|i] Hi; try done.
  - injection Hi as ->. by exists (concat (map f l)).
  - destruct (IH i Hi) as (R & E1 & E2). exists (f a ++ R). change (<[S i := y]> (a :: l)) with (a :: <[i := y]> l). cbn [map concat]. rewrite E1, E2. split; apply Permutation_app_swap_app.
Qed.

(** ** Ring positions *)

(** Masking with a power of two less one. *)
Lemma land_mask x k : 0 <= k -> Z.land x (2 ^ k - 1) = x mod 2 ^ k.
Proof.
  intros. replace (2 ^ k - 1) with (Z.ones k) by (rewrite Z.ones_equiv; lia).
  by apply Z.land_ones.
Qed.

(** Two positions of the ring less than [cap] apart fall in distinct slots. *)
Lemma ring_inj s a b cap :
  0 < cap -> 0 <= a < cap -> 0 <= b < cap -> (s + a) mod cap = (s + b) mod cap -> a = b.
Proof.
  intros Hc Ha Hb E.
  assert (((s + a) - (s + b)) mod cap = 0) as H.
  { rewrite Zminus_mod, E, Z.sub_diag. apply Z.mod_0_l. lia. }
  replace (s + a - (s + b)) with (a - b) in H by lia.
  apply Z.mod_divide in H as [k Hk]; [|lia].
  assert (k < 1) by nia. assert (-1 < k) by nia. assert (k = 0) as -> by lia. lia.
Qed.

(** ** Executions of a step relation *)

Inductive steps {S} (R : S -> S -> Prop) : S -> S -> Prop :=
| steps_refl s : steps R s s
| steps_trans s t u : steps R s t -> R t u -> steps R s u.
#[export] Hint Constructors steps : lrpc.

Lemma steps_invariant {S} (R : S -> S -> Prop) (I : S -> Prop) s t :
  (forall a b, I a -> R a b -> I b) -> I s -> steps R s t -> I t.
Proof. intros Hstep Hs. induction 1; eauto. Qed.

Lemma steps_app {S} (R : S -> S -> Prop) a b c :
  steps R a b -> steps R b c -> steps R a c.
Proof. intros Hab. induction 1; eauto with lrpc. Qed.

(** Arrays and vectors, by an index of machine width. *)
Definition at_ {A} (l : list A) (i : Z) : option A := l !! Z.to_nat i.
Lemma at_insert {A} (l : list A) i j x y : 0 <= i -> 0 <= j -> at_ l i = Some y -> at_ (<[Z.to_nat i := x]> l) j = if i =? j then Some x else at_ l j.
Proof.
  intros Hi Hj Hl. unfold at_ in *. destruct (Z.eqb_spec i j) as [->|Hne]; [apply list_lookup_insert_eq; by eapply lookup_lt_Some|by rewrite list_lookup_insert_ne by lia].
Qed.
