(* ===== verification/BoundedQueue.v ===== *)
(** * The bounded ring queue and the remote task queue

    [butil/bounded_queue.h] stores at most [_cap] items in a ring of raw
    memory; [remote_task_queue.h] wraps it for the scheduler.  A slot of the
    ring is [Some x] when an object lives there and [None] when it is raw
    memory.  The reference semantics is a list, top-most item first. *)
From S2P Require Import Prelude.
Local Open Scope Z_scope.

Module BQ.

(** ** Data *)
Inductive StorageOwnership := OWNS_STORAGE | NOT_OWN_STORAGE.

Record BoundedQueue (T : Type) := mkBQ {
  _count : Z;
  _cap : Z;
  _start : Z;
  _ownership : StorageOwnership;
  _items : option (list (option T))
}.
Arguments mkBQ {T}.
Arguments _count {T}.
Arguments _cap {T}.
Arguments _start {T}.
Arguments _ownership {T}.
Arguments _items {T}.

Section ops.
Context {T : Type}.
Implicit Types q : BoundedQueue T.
Implicit Types x : T.

Definition set_count (n : Z) q := mkBQ n (_cap q) (_start q) (_ownership q) (_items q).
Definition set_start (n : Z) q := mkBQ (_count q) (_cap q) n (_ownership q) (_items q).
Definition set_items (it : option (list (option T))) q : BoundedQueue T := mkBQ (_count q) (_cap q) (_start q) (_ownership q) it.

(** Construction over caller memory, over [malloc]ed memory, and empty. *)
Definition new_mem (mem : list (option T)) (memsize sizeofT : Z) (o : StorageOwnership) : BoundedQueue T :=
  mkBQ 0 (u32 (memsize / sizeofT)) 0 o (Some mem).
Definition new_cap (capacity : Z) (malloc_ok : bool) : BoundedQueue T :=
  mkBQ 0 (u32 capacity) 0 OWNS_STORAGE
    (if malloc_ok then Some (replicate (Z.to_nat capacity) None) else None).
Definition new_empty : BoundedQueue T := mkBQ 0 0 0 NOT_OWN_STORAGE None.

(** [_mod]: repeated subtraction on [uint32_t]; it does not return when
    [cap] is 0.  The fuel [off + 1] covers every other case. *)
Fixpoint _mod_loop (fuel : nat) (off cap : Z) : option Z :=
  match fuel with
  | O => None
  | S f => if cap <=? off then _mod_loop f (off - cap) cap else Some off
  end.
Definition _mod (off cap : Z) : M (BoundedQueue T) Z :=
  match _mod_loop (S (Z.to_nat (u32 off))) (u32 off) cap with
  | Some i => ret i
  | None => nofuel
  end.

(** Placement new, destructor and reads on the slot of index [i]. *)
Definition construct (i : Z) (x : T) : M (BoundedQueue T) unit := fun q =>
  match _items q with
  | Some it => if (0 <=? i) && (i <? zlen it)
               then Ok tt (set_items (Some (<[Z.to_nat i := Some x]> it)) q) else Undef
  | None => Undef
  end.
Definition load (i : Z) : M (BoundedQueue T) T := fun q =>
  match _items q ≫= (fun it => it !! Z.to_nat i) with
  | Some (Some x) => if 0 <=? i then Ok x q else Undef
  | _ => Undef
  end.
Definition destroy (i : Z) : M (BoundedQueue T) unit := fun q =>
  match _items q, load i q with
  | Some it, Ok _ _ => Ok tt (set_items (Some (<[Z.to_nat i := None]> it)) q)
  | _, _ => Undef
  end.

(** ** Operations *)
Definition push (item : T) : M (BoundedQueue T) bool :=
  let! q := get in
  if _count q <? _cap q then
    let! i := _mod (_start q + _count q) (_cap q) in
    let! _ := construct i item in
    let! _ := modify (set_count (_count q + 1)) in
    ret true
  else ret false.

Definition elim_push (item : T) : M (BoundedQueue T) unit :=
  let! q := get in
  if _count q <? _cap q then
    let! i := _mod (_start q + _count q) (_cap q) in
    let! _ := construct i item in
    modify (set_count (_count q + 1))
  else
    let! _ := load (_start q) in
    let! _ := construct (_start q) item in
    let! i := _mod (_start q + 1) (_cap q) in
    modify (set_start i).

(** The address returned by [T* push()] is the index of the new slot. *)
Definition push_default (dflt : T) : M (BoundedQueue T) (option Z) :=
  let! q := get in
  if _count q <? _cap q then
    let! i := _mod (_start q + _count q) (_cap q) in
    let! _ := modify (set_count (_count q + 1)) in
    let! _ := construct i dflt in
    ret (Some i)
  else ret None.

Definition push_top (item : T) : M (BoundedQueue T) bool :=
  let! q := get in
  if _count q <? _cap q then
    let s := if _start q =? 0 then u32 (_cap q - 1) else _start q - 1 in
    let! _ := modify (set_start s) in
    let! _ := modify (set_count (_count q + 1)) in
    let! _ := construct s item in
    ret true
  else ret false.

Definition push_top_default (dflt : T) : M (BoundedQueue T) (option Z) :=
  let! q := get in
  if _count q <? _cap q then
    let s := if _start q =? 0 then u32 (_cap q - 1) else _start q - 1 in
    let! _ := modify (set_start s) in
    let! _ := modify (set_count (_count q + 1)) in
    let! _ := construct s dflt in
    ret (Some s)
  else ret None.

Definition pop : M (BoundedQueue T) (option T) :=
  let! q := get in
  if negb (_count q =? 0) then
    let! _ := modify (set_count (_count q - 1)) in
    let! x := load (_start q) in
    let! _ := destroy (_start q) in
    let! i := _mod (_start q + 1) (_cap q) in
    let! _ := modify (set_start i) in
    ret (Some x)
  else ret None.

Definition pop_discard : M (BoundedQueue T) bool :=
  let! q := get in
  if negb (_count q =? 0) then
    let! _ := modify (set_count (_count q - 1)) in
    let! _ := destroy (_start q) in
    let! i := _mod (_start q + 1) (_cap q) in
    let! _ := modify (set_start i) in
    ret true
  else ret false.

Definition pop_bottom_discard : M (BoundedQueue T) bool :=
  let! q := get in
  if negb (_count q =? 0) then
    let c := _count q - 1 in
    let! _ := modify (set_count c) in
    let! i := _mod (_start q + c) (_cap q) in
    let! _ := destroy i in
    ret true
  else ret false.

Definition pop_bottom : M (BoundedQueue T) (option T) :=
  let! q := get in
  if negb (_count q =? 0) then
    let c := _count q - 1 in
    let! _ := modify (set_count c) in
    let! i := _mod (_start q + c) (_cap q) in
    let! x := load i in
    let! _ := destroy i in
    ret (Some x)
  else ret None.

Fixpoint clear_loop (n : nat) (i : Z) : M (BoundedQueue T) unit :=
  match n with
  | O => ret tt
  | S n' => let! q := get in
            let! j := _mod (_start q + i) (_cap q) in
            let! _ := destroy j in
            clear_loop n' (i + 1)
  end.
Definition clear : M (BoundedQueue T) unit :=
  let! q := get in
  let! _ := clear_loop (Z.to_nat (_count q)) 0 in
  let! _ := modify (set_count 0) in
  modify (set_start 0).

(** [~BoundedQueue]: destroy the items, then free owned storage. *)
Definition dtor : M (BoundedQueue T) unit :=
  let! _ := clear in
  modify (fun q => match _ownership q with
                   | OWNS_STORAGE => set_items None q
                   | NOT_OWN_STORAGE => q
                   end).

(** Reads through the returned pointer: [top(index)], [bottom(index)]. *)
Definition top (index : Z) : M (BoundedQueue T) (option T) :=
  let! q := get in
  if index <? _count q then
    let! i := _mod (_start q + index) (_cap q) in let! x := load i in ret (Some x)
  else ret None.
Definition bottom (index : Z) : M (BoundedQueue T) (option T) :=
  let! q := get in
  if index <? _count q then
    let! i := _mod (_start q + _count q - index - 1) (_cap q) in let! x := load i in ret (Some x)
  else ret None.

Definition empty q : bool := _count q =? 0.
Definition full q : bool := _cap q =? _count q.
Definition size q : Z := _count q.
Definition capacity q : Z := _cap q.
Definition max_capacity : Z := Z.shiftl 1 32 - 1.
Definition initialized q : bool := match _items q with Some _ => true | None => false end.
Definition swap (a b : BoundedQueue T) : BoundedQueue T * BoundedQueue T := (b, a).

End ops.

(** ** Refinement to a list

    [repr q l]: the ring [q] holds the items [l], top-most first. *)
Section refinement.
Context {T : Type}.
Implicit Types (q : BoundedQueue T) (l : list T).

Record repr q l : Prop := mk_repr {
  r_count : _count q = zlen l;
  r_le : zlen l <= _cap q;
  r_cap : 0 <= _cap q <= 2 ^ 31;
  r_start : 0 <= _start q /\ (_start q < _cap q \/ _start q = 0);
  r_items : match _items q with Some it => zlen it = _cap q | None => _cap q = 0 end;
  r_live : forall i x, l !! i = Some x ->
      exists it, _items q = Some it /\
        it !! Z.to_nat ((_start q + Z.of_nat i) mod _cap q) = Some (Some x)
}.

Lemma _mod_loop_spec fuel off cap :
  0 < cap -> 0 <= off -> (Z.to_nat off < fuel)%nat -> _mod_loop fuel off cap = Some (off mod cap).
Proof.
  revert off. induction fuel as [|f IH]; intros off Hc Ho Hf; [lia|]. simpl.
  destruct (Z.leb_spec cap off).
  - rewrite IH by lia. f_equal.
    rewrite <- (Z_mod_plus_full (off - cap) 1 cap). f_equal. lia.
  - f_equal. symmetry. apply Z.mod_small. lia.
Qed.

Lemma _mod_spec off cap q :
  0 < cap -> is_u32 off -> _mod off cap q = Ok (off mod cap) q.
Proof.
  intros. unfold _mod. rewrite u32_small by done.
  unfold is_u32 in *. rewrite _mod_loop_spec by lia. done.
Qed.

Lemma construct_ok i x it q :
  _items q = Some it -> 0 <= i < zlen it ->
  construct i x q = Ok tt (set_items (Some (<[Z.to_nat i := Some x]> it)) q).
Proof.
  intros E Hi. unfold construct. rewrite E.
  destruct (Z.leb_spec 0 i), (Z.ltb_spec i (zlen it)); simpl; try lia. done.
Qed.

Lemma load_ok i x it q :
  _items q = Some it -> 0 <= i -> it !! Z.to_nat i = Some (Some x) -> load i q = Ok x q.
Proof.
  intros E Hi Hx. unfold load. rewrite E. simpl. rewrite Hx.
  destruct (Z.leb_spec 0 i); [done|lia].
Qed.

Lemma destroy_ok i x it q :
  _items q = Some it -> 0 <= i -> it !! Z.to_nat i = Some (Some x) ->
  destroy i q = Ok tt (set_items (Some (<[Z.to_nat i := None]> it)) q).
Proof. intros E Hi Hx. unfold destroy. rewrite E, (load_ok _ x it) by done. done. Qed.

Lemma repr_items q l : repr q l -> 0 < _cap q ->
  exists it, _items q = Some it /\ zlen it = _cap q.
Proof. intros [] ?. destruct (_items q); eauto; lia. Qed.

(** The slot of logical position [i] and that position's object. *)
Lemma repr_slot q l i x it :
  repr q l -> _items q = Some it -> l !! i = Some x ->
  it !! Z.to_nat ((_start q + Z.of_nat i) mod _cap q) = Some (Some x).
Proof. intros R E Hi. destruct (r_live _ _ R i x Hi) as (it' & E' & H). congruence. Qed.

(** Writing the slot of a position outside [l] leaves every item in place. *)
Lemma slot_insert_ne q it (i j : nat) v :
  0 < _cap q -> Z.of_nat i < _cap q -> Z.of_nat j < _cap q -> i <> j ->
  (<[Z.to_nat ((_start q + Z.of_nat j) mod _cap q) := v]> it : list (option T))
    !! Z.to_nat ((_start q + Z.of_nat i) mod _cap q)
  = it !! Z.to_nat ((_start q + Z.of_nat i) mod _cap q).
Proof.
  intros Hc Hi Hj Hne. apply list_lookup_insert_ne. intros E. apply Hne.
  pose proof (Z.mod_pos_bound (_start q + Z.of_nat i) (_cap q) Hc).
  pose proof (Z.mod_pos_bound (_start q + Z.of_nat j) (_cap q) Hc).
  apply Z2Nat.inj in E; [|lia..]. symmetry in E. apply ring_inj in E; lia.
Qed.

(** Run an action whose result is given by a lemma, discharging bounds. *)
Local Ltac bounds := unfold is_u32 in *; lia.
Local Ltac tests :=
  repeat match goal with
  | |- context [Z.ltb ?a ?b] => destruct (Z.ltb_spec a b); try (exfalso; lia)
  | |- context [Z.eqb ?a ?b] => destruct (Z.eqb_spec a b); try (exfalso; lia)
  end; simpl.

Lemma push_spec q l x : repr q l -> zlen l < _cap q ->
  exists q', push x q = Ok true q' /\ repr q' (l ++ [x]) /\ _cap q' = _cap q.
Proof.
  intros R Hlt. pose proof (r_count _ _ R) as Hc. pose proof (zlen_nonneg l).
  pose proof (r_start _ _ R). pose proof (r_cap _ _ R).
  destruct (repr_items q l R) as (it & Eit & Hlen); [lia|].
  unfold push. mstep. tests.
  rewrite _mod_spec by bounds. mstep.
  rewrite (construct_ok _ _ it) by (try done; rewrite Hlen; apply Z.mod_pos_bound; lia).
  eexists; split; [reflexivity|]. split; [|done].
  constructor; simpl; rewrite ?zlen_app, ?zlen_cons, ?zlen_nil; try lia.
  - rewrite <- Hlen. unfold zlen. by rewrite length_insert.
  - intros i y Hi. eexists; split; [reflexivity|].
    rewrite Hc. apply lookup_app_Some in Hi as [Hi|[Hge Hi]].
    + pose proof (lookup_lt_Some _ _ _ Hi). unfold zlen in *.
      rewrite slot_insert_ne by lia. by apply (repr_slot q l).
    + apply list_lookup_singleton_Some in Hi as [Hi ->].
      replace (Z.of_nat i) with (zlen l) by (unfold zlen; lia).
      apply list_lookup_insert_eq.
      pose proof (Z.mod_pos_bound (_start q + zlen l) (_cap q)). unfold zlen in *. lia.
Qed.

Lemma push_full q l x : repr q l -> _cap q <= zlen l -> push x q = Ok false q.
Proof. intros R ?. pose proof (r_count _ _ R). unfold push. mstep. tests. done. Qed.

(** Reading position [i], and destroying the first or the last item. *)
Lemma load_pos q l i x : repr q l -> l !! i = Some x ->
  load ((_start q + Z.of_nat i) mod _cap q) q = Ok x q.
Proof.
  intros R Hi. destruct (r_live _ _ R i x Hi) as (it & Eit & Hx).
  apply (load_ok _ x it); try done. apply Z.mod_pos_bound.
  pose proof (r_le _ _ R). pose proof (lookup_lt_Some _ _ _ Hi). unfold zlen in *. lia.
Qed.

Lemma top_spec q l i : repr q l -> 0 <= i -> top i q = Ok (l !! Z.to_nat i) q.
Proof.
  intros R Hi. pose proof (r_count _ _ R) as Hc. pose proof (r_start _ _ R).
  pose proof (r_cap _ _ R). pose proof (r_le _ _ R). unfold top. mstep. tests.
  - rewrite _mod_spec by bounds. mstep.
    destruct (lookup_lt_is_Some_2 l (Z.to_nat i)) as [x Hx]; [unfold zlen in *; lia|].
    pose proof (load_pos q l _ x R Hx) as Hl. rewrite Z2Nat.id in Hl by lia. by rewrite Hl, Hx.
  - rewrite lookup_ge_None_2; [done|]. unfold zlen in *; lia.
Qed.

Lemma bottom_spec q l i : repr q l -> 0 <= i ->
  bottom i q = Ok (reverse l !! Z.to_nat i) q.
Proof.
  intros R Hi. pose proof (r_count _ _ R) as Hc. pose proof (r_start _ _ R).
  pose proof (r_cap _ _ R). pose proof (r_le _ _ R). unfold bottom. mstep. tests.
  - rewrite _mod_spec by bounds. mstep.
    destruct (lookup_lt_is_Some_2 l (length l - 1 - Z.to_nat i)) as [x Hx]; [unfold zlen in *; lia|].
    pose proof (load_pos q l _ x R Hx) as Hl.
    replace (_start q + _count q - i - 1) with (_start q + Z.of_nat (length l - 1 - Z.to_nat i))
      by (unfold zlen in *; lia).
    rewrite Hl. rewrite reverse_lookup by (unfold zlen in *; lia).
    replace (length l - S (Z.to_nat i))%nat with (length l - 1 - Z.to_nat i)%nat by lia. by rewrite Hx.
  - rewrite lookup_ge_None_2; [done|]. rewrite length_reverse. unfold zlen in *; lia.
Qed.

Lemma pop_spec q x l : repr q (x :: l) ->
  exists q', pop q = Ok (Some x) q' /\ repr q' l /\ _cap q' = _cap q.
Proof.
  intros R. pose proof (r_count _ _ R) as Hc. pose proof (r_start _ _ R).
  pose proof (r_cap _ _ R). pose proof (r_le _ _ R) as Hle.
  rewrite zlen_cons in *. pose proof (zlen_nonneg l).
  destruct (repr_items q _ R) as (it & Eit & Hlen); [lia|].
  pose proof (repr_slot q _ 0 x it R Eit eq_refl) as Hx.
  rewrite Z.add_0_r, Z.mod_small in Hx by lia.
  unfold pop. mstep. tests.
  rewrite (load_ok _ x it) by (try done; lia). mstep.
  rewrite (destroy_ok _ x it) by (try done; lia). mstep.
  rewrite _mod_spec by bounds. mstep.
  eexists; split; [reflexivity|]. split; [|done].
  constructor; simpl; try lia.
  - pose proof (Z.mod_pos_bound (_start q + 1) (_cap q)). lia.
  - rewrite <- Hlen. unfold zlen. by rewrite length_insert.
  - intros i y Hi. eexists; split; [reflexivity|].
    pose proof (lookup_lt_Some _ _ _ Hi). rewrite Zplus_mod_idemp_l.
    replace (_start q + 1 + Z.of_nat i) with (_start q + Z.of_nat (S i)) by lia.
    pose proof (slot_insert_ne q it (S i) 0 None) as Hne.
    rewrite Z.add_0_r, (Z.mod_small (_start q)) in Hne by lia.
    rewrite Hne by (unfold zlen in *; lia). by apply (repr_slot q (x :: l)).
Qed.

Lemma pop_bottom_spec q l x : repr q (l ++ [x]) ->
  exists q', pop_bottom q = Ok (Some x) q' /\ repr q' l /\ _cap q' = _cap q.
Proof.
  intros R. pose proof (r_count _ _ R) as Hc. pose proof (r_start _ _ R).
  pose proof (r_cap _ _ R). pose proof (r_le _ _ R) as Hle.
  rewrite zlen_app, zlen_cons, zlen_nil in *. pose proof (zlen_nonneg l).
  destruct (repr_items q _ R) as (it & Eit & Hlen); [lia|].
  pose proof (repr_slot q _ (length l) x it R Eit (list_lookup_middle _ _ _ _ eq_refl)) as Hx.
  unfold pop_bottom. mstep. tests.
  replace (_start q + (_count q - 1)) with (_start q + Z.of_nat (length l)) by (unfold zlen in *; lia).
  rewrite _mod_spec by (unfold zlen in *; bounds). mstep.
  pose proof (Z.mod_pos_bound (_start q + Z.of_nat (length l)) (_cap q)).
  rewrite (load_ok _ x it) by (try done; lia). mstep.
  rewrite (destroy_ok _ x it) by (try done; lia). mstep.
  eexists; split; [reflexivity|]. split; [|done].
  constructor; simpl; try lia.
  - rewrite <- Hlen. unfold zlen. by rewrite length_insert.
  - intros i y Hi. eexists; split; [reflexivity|].
    pose proof (lookup_lt_Some _ _ _ Hi).
    rewrite slot_insert_ne by (unfold zlen in *; lia).
    apply (repr_slot q (l ++ [x])); try done. by apply lookup_app_l_Some.
Qed.

Lemma push_top_spec q l x : repr q l -> zlen l < _cap q ->
  exists q', push_top x q = Ok true q' /\ repr q' (x :: l) /\ _cap q' = _cap q.
Proof.
  intros R Hlt. pose proof (r_count _ _ R) as Hc. pose proof (zlen_nonneg l).
  pose proof (r_start _ _ R). pose proof (r_cap _ _ R).
  destruct (repr_items q l R) as (it & Eit & Hlen); [lia|].
  unfold push_top. mstep. destruct (Z.ltb_spec (_count q) (_cap q)); [|lia].
  set (s := if _start q =? 0 then u32 (_cap q - 1) else _start q - 1).
  assert (0 <= s < _cap q /\ (s + 1) mod _cap q = _start q) as [Hs Hs1].
  { unfold s. destruct (Z.eqb_spec (_start q) 0) as [E|].
    - rewrite u32_small by bounds. split; [lia|].
      replace (_cap q - 1 + 1) with (1 * _cap q) by lia. rewrite Z_mod_mult. lia.
    - split; [lia|]. rewrite Z.mod_small; lia. }
  rewrite (construct_ok _ _ it) by (simpl; try done; lia).
  eexists; split; [reflexivity|]. split; [|done].
  constructor; simpl; rewrite ?zlen_cons; try lia.
  - rewrite <- Hlen. unfold zlen. by rewrite length_insert.
  - intros i y Hi. eexists; split; [reflexivity|]. destruct i as [|i]; simplify_eq/=.
    + rewrite Z.add_0_r, Z.mod_small by lia. apply list_lookup_insert_eq. unfold zlen in *; lia.
    + pose proof (lookup_lt_Some _ _ _ Hi).
      replace (s + Z.of_nat (S i)) with (s + 1 + Z.of_nat i) by lia.
      rewrite <- Zplus_mod_idemp_l, Hs1.
      rewrite list_lookup_insert_ne.
      * by apply (repr_slot q l).
      * intros E. pose proof (Z.mod_pos_bound (_start q + Z.of_nat i) (_cap q)).
        apply Z2Nat.inj in E; [|lia..].
        assert ((s + Z.of_nat (S i)) mod _cap q = (s + 0) mod _cap q) as E'.
        { replace (s + Z.of_nat (S i)) with (s + 1 + Z.of_nat i) by lia.
          rewrite <- Zplus_mod_idemp_l, Hs1, <- E, Z.add_0_r. symmetry; apply Z.mod_small; lia. }
        apply ring_inj in E'; unfold zlen in *; lia.
Qed.

Lemma push_top_full q l x : repr q l -> _cap q <= zlen l -> push_top x q = Ok false q.
Proof. intros R ?. pose proof (r_count _ _ R). unfold push_top. mstep. tests. done. Qed.

(** A full [elim_push] drops the top-most item and appends the new one. *)
Lemma elim_push_full q y l x : repr q (y :: l) -> zlen (y :: l) = _cap q ->
  exists q', elim_push x q = Ok tt q' /\ repr q' (l ++ [x]) /\ _cap q' = _cap q.
Proof.
  intros R Hfull. pose proof (r_count _ _ R) as Hc. pose proof (r_start _ _ R).
  pose proof (r_cap _ _ R). rewrite zlen_cons in *. pose proof (zlen_nonneg l).
  destruct (repr_items q _ R) as (it & Eit & Hlen); [lia|].
  pose proof (repr_slot q _ 0 y it R Eit eq_refl) as Hy.
  rewrite Z.add_0_r, Z.mod_small in Hy by lia.
  unfold elim_push. mstep. tests.
  rewrite (load_ok _ y it) by (try done; lia).
  rewrite (construct_ok _ _ it) by (try done; lia).
  rewrite _mod_spec by bounds.
  eexists; split; [reflexivity|]. split; [|done].
  constructor; simpl; rewrite ?zlen_app, ?zlen_cons, ?zlen_nil; try lia.
  - pose proof (Z.mod_pos_bound (_start q + 1) (_cap q)). lia.
  - rewrite <- Hlen. unfold zlen. by rewrite length_insert.
  - intros i z Hi. eexists; split; [reflexivity|]. rewrite Zplus_mod_idemp_l.
    replace (_start q + 1 + Z.of_nat i) with (_start q + Z.of_nat (S i)) by lia.
    apply lookup_app_Some in Hi as [Hi|[Hge Hi]].
    + pose proof (lookup_lt_Some _ _ _ Hi).
      pose proof (slot_insert_ne q it (S i) 0 (Some x)) as Hne.
      rewrite Z.add_0_r, (Z.mod_small (_start q)) in Hne by lia.
      rewrite Hne by (unfold zlen in *; lia). by apply (repr_slot q (y :: l)).
    + apply list_lookup_singleton_Some in Hi as [Hi ->].
      replace (_start q + Z.of_nat (S i)) with (_start q + 1 * _cap q) by (unfold zlen in *; lia).
      rewrite Z_mod_plus_full, Z.mod_small by lia. apply list_lookup_insert_eq. unfold zlen in *; lia.
Qed.

Lemma elim_push_spec q l x : repr q l -> zlen l < _cap q ->
  exists q', elim_push x q = Ok tt q' /\ repr q' (l ++ [x]) /\ _cap q' = _cap q.
Proof.
  intros R Hlt. destruct (push_spec q l x R Hlt) as (q' & E & R' & Hcap).
  exists q'. split; [|done]. revert E. unfold push, elim_push. mstep.
  pose proof (r_count _ _ R). tests.
  destruct (_mod _ _ _); [|done..]. destruct (construct _ _ _); [|done..]. by intros [= <-].
Qed.

Lemma clear_loop_spec n i q it :
  _items q = Some it -> zlen it = _cap q -> 0 <= i -> i + Z.of_nat n <= _cap q ->
  0 <= _start q < _cap q -> _cap q <= 2 ^ 31 ->
  (forall j, (j < n)%nat -> exists x,
     it !! Z.to_nat ((_start q + (i + Z.of_nat j)) mod _cap q) = Some (Some x)) ->
  exists it', clear_loop n i q = Ok tt (set_items (Some it') q) /\ zlen it' = _cap q.
Proof.
  revert i q it. induction n as [|n IH]; intros i q it Eit Hlen Hi Hn Hs Hcap Hlive.
  - exists it. split; [|done]. unfold clear_loop. mstep. destruct q; simpl in *. by subst.
  - cbn [clear_loop]. mstep. rewrite _mod_spec by bounds.
    destruct (Hlive 0%nat) as [x Hx]; [lia|]. rewrite Z.add_0_r in Hx.
    rewrite (destroy_ok _ x it) by (try done; apply Z.mod_pos_bound; lia).
    edestruct (IH (i + 1) (set_items (Some (<[Z.to_nat ((_start q + i) mod _cap q):=None]> it)) q))
      as (it' & E & Hl'); simpl; try reflexivity; try lia.
    { rewrite <- Hlen. unfold zlen. by rewrite length_insert. }
    { intros j Hj. destruct (Hlive (S j)) as [y Hy]; [lia|]. exists y.
      replace (i + 1 + Z.of_nat j) with (i + Z.of_nat (S j)) by lia.
      rewrite <- Hy. replace (i + Z.of_nat (S j)) with (Z.of_nat (Z.to_nat i + S j)) by lia.
      replace (_start q + i) with (_start q + Z.of_nat (Z.to_nat i)) by lia.
      apply slot_insert_ne; lia. }
    exists it'. split; [|done]. rewrite E. done.
Qed.

Lemma clear_spec q l : repr q l -> 0 < _cap q ->
  exists q', clear q = Ok tt q' /\ repr q' [] /\ _cap q' = _cap q.
Proof.
  intros R Hpos. pose proof (r_count _ _ R). pose proof (r_start _ _ R).
  pose proof (r_cap _ _ R). pose proof (r_le _ _ R). pose proof (zlen_nonneg l).
  destruct (repr_items q l R Hpos) as (it & Eit & Hlen).
  destruct (clear_loop_spec (Z.to_nat (_count q)) 0 q it) as (it' & E & Hl'); try done; try lia.
  { intros j Hj. destruct (lookup_lt_is_Some_2 l j) as [x Hx]; [unfold zlen in *; lia|].
    exists x. by apply (repr_slot q l). }
  unfold clear. mstep. rewrite E. eexists; split; [reflexivity|]. split; [|done].
  constructor; simpl; rewrite ?zlen_nil; try lia; try done.
Qed.

Lemma new_mem_repr (mem : list (option T)) memsize sizeofT o :
  0 <= memsize / sizeofT <= 2 ^ 31 -> zlen mem = memsize / sizeofT ->
  repr (new_mem mem memsize sizeofT o) [].
Proof.
  intros. assert (u32 (memsize / sizeofT) = memsize / sizeofT) as E by (apply u32_small; bounds).
  constructor; simpl; rewrite ?zlen_nil, ?E; try lia; try done.
Qed.

Lemma new_cap_repr capacity : 0 <= capacity <= 2 ^ 31 ->
  repr (@new_cap T capacity true) [].
Proof.
  intros. assert (u32 capacity = capacity) as E by (apply u32_small; bounds).
  constructor; simpl; rewrite ?zlen_nil, ?E; try lia; try done.
  unfold zlen. rewrite length_replicate. lia.
Qed.

(** *** Executions *)
Inductive qop := Push (x : T) | ElimPush (x : T) | PushTop (x : T) | Pop | PopBottom
               | Top (i : Z) | Bottom (i : Z) | Clear.
Inductive qres := RBool (b : bool) | ROpt (o : option T) | RUnit.

Definition exec_op (o : qop) : M (BoundedQueue T) qres :=
  match o with
  | Push x => let! b := push x in ret (RBool b)
  | ElimPush x => let! _ := elim_push x in ret RUnit
  | PushTop x => let! b := push_top x in ret (RBool b)
  | Pop => let! r := pop in ret (ROpt r)
  | PopBottom => let! r := pop_bottom in ret (ROpt r)
  | Top i => let! r := top i in ret (ROpt r)
  | Bottom i => let! r := bottom i in ret (ROpt r)
  | Clear => let! _ := clear in ret RUnit
  end.

(** What each operation does to the list of items of a queue of capacity [cap]. *)
Definition spec_op (cap : Z) (o : qop) (l : list T) : qres * list T :=
  match o with
  | Push x => if zlen l <? cap then (RBool true, l ++ [x]) else (RBool false, l)
  | ElimPush x => if zlen l <? cap then (RUnit, l ++ [x]) else (RUnit, tail l ++ [x])
  | PushTop x => if zlen l <? cap then (RBool true, x :: l) else (RBool false, l)
  | Pop => (ROpt (head l), tail l)
  | PopBottom => (ROpt (last l), removelast l)
  | Top i => (ROpt (l !! Z.to_nat i), l)
  | Bottom i => (ROpt (reverse l !! Z.to_nat i), l)
  | Clear => (RUnit, [])
  end.

Definition op_ok (o : qop) : Prop :=
  match o with Top i | Bottom i => 0 <= i | _ => True end.

Lemma op_refines q l o : repr q l -> 0 < _cap q -> op_ok o ->
  exists q', exec_op o q = Ok (spec_op (_cap q) o l).1 q'
    /\ repr q' (spec_op (_cap q) o l).2 /\ _cap q' = _cap q.
Proof.
  intros R Hpos Hok. pose proof (r_le _ _ R).
  destruct o as [x|x|x| | |i|i|]; simpl.
  - destruct (Z.ltb_spec (zlen l) (_cap q)).
    + destruct (push_spec q l x) as (q' & E & ?); try done. exists q'. by exec E.
    + exists q. by exec (push_full q l x R ltac:(lia)).
  - destruct (Z.ltb_spec (zlen l) (_cap q)).
    + destruct (elim_push_spec q l x) as (q' & E & ?); try done. exists q'. by exec E.
    + destruct l as [|y l]; [rewrite zlen_nil in *; lia|].
      destruct (elim_push_full q y l x) as (q' & E & ?); try done; [lia|]. exists q'. by exec E.
  - destruct (Z.ltb_spec (zlen l) (_cap q)).
    + destruct (push_top_spec q l x) as (q' & E & ?); try done. exists q'. by exec E.
    + exists q. by exec (push_top_full q l x R ltac:(lia)).
  - destruct l as [|y l].
    + exists q. split; [|done]. unfold pop. mstep. rewrite (r_count _ _ R). done.
    + destruct (pop_spec q y l R) as (q' & E & ?). exists q'. by exec E.
  - destruct l as [|y l _] using rev_ind.
    + exists q. split; [|done]. unfold pop_bottom. mstep. rewrite (r_count _ _ R). done.
    + rewrite last_snoc, removelast_last.
      destruct (pop_bottom_spec q l y R) as (q' & E & ?). exists q'. by exec E.
  - exists q. by exec (top_spec q l i R Hok).
  - exists q. by exec (bottom_spec q l i R Hok).
  - destruct (clear_spec q l R Hpos) as (q' & E & ?). exists q'. by exec E.
Qed.

Fixpoint exec_ops (os : list qop) : M (BoundedQueue T) (list qres) :=
  match os with
  | [] => ret []
  | o :: os' => let! r := exec_op o in let! rs := exec_ops os' in ret (r :: rs)
  end.
Fixpoint spec_ops (cap : Z) (os : list qop) (l : list T) : list qres * list T :=
  match os with
  | [] => ([], l)
  | o :: os' => let '(r, l1) := spec_op cap o l in
                let '(rs, l2) := spec_ops cap os' l1 in (r :: rs, l2)
  end.

End refinement.

(** The ring queue implements the bounded deque of its capacity: started
    from a fresh queue of capacity at most 2^31, every sequence of pushes at
    either end, evicting pushes, pops at either end, indexed reads and clears
    runs without undefined behaviour, returns exactly the results of the list
    semantics, and leaves the ring holding the list semantics' items. *)
Theorem bounded_queue_refines {T : Type} (capacity : Z) (os : list (@qop T)) :
  0 < capacity <= 2 ^ 31 -> Forall op_ok os ->
  exists q', exec_ops os (new_cap capacity true) = Ok (spec_ops capacity os []).1 q'
    /\ repr q' (spec_ops capacity os []).2.
Proof.
  intros Hc Hok.
  assert (forall q l, repr q l -> _cap q = capacity ->
    exists q', exec_ops os q = Ok (spec_ops capacity os l).1 q' /\ repr q' (spec_ops capacity os l).2) as H.
  { induction Hok as [|o os Ho _ IH]; intros q l R <-; simpl.
    - exists q. done.
    - destruct (op_refines q l o R) as (q1 & E1 & R1 & Hcap); [lia|done|].
      destruct (spec_op (_cap q) o l) as [r l1] eqn:Es; simpl in *.
      destruct (IH q1 l1 R1 Hcap) as (q2 & E2 & R2).
      destruct (spec_ops (_cap q) os l1) as [rs l2]; simpl in *.
      exists q2. exec E1. exec E2. done. }
  apply H; [apply new_cap_repr; lia|]. simpl. apply u32_small. unfold is_u32. lia.
Qed.

Lemma bounded_queue_refines_witness :
  exists q', exec_ops [Push 1; Push 2; PushTop 3; ElimPush 4; PopBottom; Top 0] (@new_cap Z 3 true)
    = Ok [RBool true; RBool true; RBool true; RUnit; ROpt (Some 4); ROpt (Some 1)] q'
    /\ repr q' [1; 2].
Proof.
  apply (bounded_queue_refines 3 [Push 1; Push 2; PushTop 3; ElimPush 4; PopBottom; Top 0]).
  - lia.
  - repeat constructor. simpl. lia.
Defined.

End BQ.
