(* ===== verification/RemoteTaskQueue.v ===== *)
(** * The remote task queue of a worker

    [remote_task_queue.h]: tasks submitted to a worker from threads that are
    not workers.  Every access to the ring is made under [_mutex]; only the
    emptiness test at the head of [pop] reads the ring's counter without it, so
    that test is modelled with the counter value the reader observed. *)
From S2P Require Import Prelude BoundedQueue.
Import BQ.
Local Open Scope Z_scope.

Module RTQ.

(** [bthread_t] is a 64-bit task identifier. *)
Definition bthread_t := Z.
Definition sizeof_bthread_t : Z := 8.

Record RemoteTaskQueue := mkRTQ { _tasks : BoundedQueue bthread_t; _mutex : bool }.

Definition new : RemoteTaskQueue := mkRTQ new_empty false.

Definition set_mutex (b : bool) (r : RemoteTaskQueue) := mkRTQ (_tasks r) b.

(** [init]: returns -1 when [malloc] fails; otherwise a queue over the fresh
    memory is swapped in.  [memsize] is a [size_t] product. *)
Definition init (cap : Z) (malloc_ok : bool) : M RemoteTaskQueue Z := fun r =>
  let memsize := u64 (sizeof_bthread_t * cap) in
  if malloc_ok then
    let q_mem := replicate (Z.to_nat (memsize / sizeof_bthread_t)) None in
    let '(tasks, _) := swap (_tasks r) (new_mem q_mem memsize sizeof_bthread_t OWNS_STORAGE) in
    Ok 0 (mkRTQ tasks (_mutex r))
  else Ok (-1) r.

(** Run a queue operation on the ring. *)
Definition on_tasks {A} (m : M (BoundedQueue bthread_t) A) : M RemoteTaskQueue A := fun r =>
  match m (_tasks r) with
  | Ok a q => Ok a (mkRTQ q (_mutex r))
  | Abort => Abort | Undef => Undef | NoFuel => NoFuel
  end.

Definition lock : M RemoteTaskQueue unit :=
  let! r := get in if _mutex r then nofuel else modify (set_mutex true).
Definition unlock : M RemoteTaskQueue unit := modify (set_mutex false).

(** [pop], with [observed] the value of the ring's [_count] that the
    unsynchronised [_tasks.empty()] read. *)
Definition pop (observed : Z) : M RemoteTaskQueue (option bthread_t) :=
  if observed =? 0 then ret None else
    let! _ := lock in
    let! result := on_tasks BQ.pop in
    let! _ := unlock in
    ret result.

Definition push_locked (task : bthread_t) : M RemoteTaskQueue bool := on_tasks (BQ.push task).

Definition push (task : bthread_t) : M RemoteTaskQueue bool :=
  let! _ := lock in
  let! res := push_locked task in
  let! _ := unlock in
  ret res.

Definition capacity (r : RemoteTaskQueue) : Z := BQ.capacity (_tasks r).

(** ** Correctness *)

(** Unlocked queue holding the tasks [l]. *)
Definition holds (r : RemoteTaskQueue) (l : list bthread_t) : Prop :=
  repr (_tasks r) l /\ _mutex r = false.

Lemma rtq_init_holds cap :
  0 <= cap <= 2 ^ 31 -> exists r, init cap true new = Ok 0 r /\ holds r [] /\ capacity r = cap.
Proof.
  intros Hc. unfold init.
  rewrite u64_small by (unfold is_u64, sizeof_bthread_t; lia).
  assert (sizeof_bthread_t * cap / sizeof_bthread_t = cap) as E.
  { unfold sizeof_bthread_t. rewrite Z.mul_comm. apply Z.div_mul. lia. }
  eexists; split; [reflexivity|]. split.
  - split; [|done]. apply new_mem_repr; rewrite E; [lia|].
    unfold zlen. rewrite length_replicate. lia.
  - unfold capacity, BQ.capacity. simpl. rewrite E. apply u32_small. unfold is_u32; lia.
Qed.

Lemma rtq_push_holds r l x : holds r l ->
  exists r' b, push x r = Ok b r' /\ holds r' (if b then l ++ [x] else l)
    /\ b = (zlen l <? _cap (_tasks r)) /\ _cap (_tasks r') = _cap (_tasks r).
Proof.
  intros [R Hm]. unfold push, push_locked, lock, unlock, on_tasks. mstep. rewrite Hm. simpl.
  destruct (Z.ltb_spec (zlen l) (_cap (_tasks r))).
  - destruct (push_spec _ l x R) as (q & E & R' & Hcap); [done|]. rewrite E.
    eexists _, true. unfold holds. split_and!; done.
  - rewrite (push_full _ l x R) by lia.
    eexists _, false. unfold holds. split_and!; done.
Qed.

Lemma rtq_pop_holds r l obs : holds r l ->
  exists r' o, pop obs r = Ok o r' /\ holds r' (match o with Some _ => tail l | None => l end)
    /\ (o = None \/ o = head l) /\ (obs <> 0 -> o = head l) /\ _cap (_tasks r') = _cap (_tasks r).
Proof.
  intros [R Hm]. unfold pop. destruct (Z.eqb_spec obs 0) as [->|Hne].
  { exists r, None. unfold holds. split_and!; try done. by left. }
  unfold lock, unlock, on_tasks. mstep. rewrite Hm. simpl.
  destruct l as [|y l].
  - unfold BQ.pop. mstep. rewrite (r_count _ _ R). simpl.
    eexists _, None. unfold holds. split_and!; try done; by left.
  - destruct (pop_spec _ y l R) as (q & E & R' & Hcap). rewrite E.
    eexists _, (Some y). unfold holds. split_and!; try done; by right.
Qed.

(** *** Executions: pushes, and pops with what each pop observed *)
Inductive rtq_op := RPush (x : bthread_t) | RPop (observed : Z).

Fixpoint rtq_run (os : list rtq_op) (pushed popped : list bthread_t)
  : M RemoteTaskQueue (list bthread_t * list bthread_t) :=
  match os with
  | [] => ret (pushed, popped)
  | RPush x :: os' => let! b := push x in rtq_run os' (if b then pushed ++ [x] else pushed) popped
  | RPop obs :: os' => let! o := pop obs in
      rtq_run os' pushed (match o with Some x => popped ++ [x] | None => popped end)
  end.

(** The remote task queue is first-in first-out and loses nothing: however
    pushes and pops follow each other and whatever stale counter values the
    unsynchronised emptiness tests observe, the tasks popped so far followed
    by the tasks still queued are exactly the accepted tasks in push order. *)
Theorem remote_queue_fifo (cap : Z) (os : list rtq_op) :
  0 <= cap <= 2 ^ 31 ->
  exists r0 r pushed popped left,
    init cap true new = Ok 0 r0 /\ rtq_run os [] [] r0 = Ok (pushed, popped) r /\
    holds r left /\ popped ++ left = pushed /\ zlen left <= cap.
Proof.
  intros Hc. destruct (rtq_init_holds cap Hc) as (r0 & E0 & H0 & Hcap).
  exists r0.
  assert (forall r l pu po, holds r l -> _cap (_tasks r) = cap -> po ++ l = pu ->
    exists r' pu' po' l', rtq_run os pu po r = Ok (pu', po') r' /\ holds r' l' /\
      po' ++ l' = pu' /\ zlen l' <= cap) as H.
  { induction os as [|[x|obs] os IH]; intros r l pu po Hr Hcp Hl; simpl.
    - exists r, pu, po, l. split_and!; try done.
      rewrite <- Hcp. apply (r_le _ _ (proj1 Hr)).
    - destruct (rtq_push_holds r l x Hr) as (r' & b & E & Hr' & _ & Hcp'). exec E.
      apply (IH r' (if b then l ++ [x] else l)); [done|congruence|].
      destruct b; [|done]. rewrite <- Hl. by rewrite (assoc (++)).
    - destruct (rtq_pop_holds r l obs Hr) as (r' & o & E & Hr' & Ho & _ & Hcp'). exec E.
      destruct o as [x|]; apply (IH r' _ _ _ Hr'); try congruence.
      destruct Ho as [Ho|Ho]; [done|]. destruct l as [|y l]; simplify_eq/=.
      by rewrite <- (assoc (++)). }
  destruct (H r0 [] [] [] H0 Hcap eq_refl) as (r & pu & po & l & ?). eauto 10.
Qed.

Lemma remote_queue_fifo_witness :
  exists r0 r pushed popped left,
    init 2 true new = Ok 0 r0 /\
    rtq_run [RPush 7; RPush 8; RPush 9; RPop 0; RPop 2; RPush 5] [] [] r0 = Ok (pushed, popped) r /\
    holds r left /\ popped ++ left = pushed /\ zlen left <= 2.
Proof. apply (remote_queue_fifo 2). lia. Defined.

End RTQ.
