(* ===== verification/IOBuf.v ===== *)
(** * IOBuf: the representation layer

    [inc/fast_iobuf.h], [inc/fast_iobuf_inl.h] and the reference-array part of
    [src-common/fast_iobuf.cc].  An IOBuf is a queue of block references: two
    inline references ([SmallView]) or a growable ring of them ([BigView]).
    Blocks are reference counted and live in a heap shared by every IOBuf; they
    come from the block pool, or from [malloc] for user data, both behind the
    interface [Allocator]. *)
From S2P Require Import Prelude.
Local Open Scope Z_scope.

(** ** The memory interface

    [P] is the state of the allocators.  [BlockAllocate] and [BlockDeallocate]
    are those of the block pool, [malloc] and [free] those of libc. *)
Class Allocator (P : Type) := {
  BlockAllocate : Z -> P -> option Z * P;
  BlockDeallocate : Z -> P -> P;
  malloc : Z -> P -> option Z * P;
  free : Z -> P -> P
}.

(** What IOBuf relies on: an address handed out is not null and is not one
    that is still in use, and giving one back only releases that one. *)
Class AllocatorLaws (P : Type) `{Allocator P} := {
  pool_live : P -> gset Z;
  sys_live : P -> gset Z;
  pool_alloc_fresh n p a p' : BlockAllocate n p = (Some a, p') ->
    a <> 0 /\ (a ∉ pool_live p ∪ sys_live p) /\
    pool_live p' = {[a]} ∪ pool_live p /\ sys_live p' = sys_live p;
  pool_alloc_none n p p' : BlockAllocate n p = (None, p') ->
    pool_live p' = pool_live p /\ sys_live p' = sys_live p;
  pool_free_live a p : a ∈ pool_live p ->
    pool_live (BlockDeallocate a p) = pool_live p ∖ {[a]} /\
    sys_live (BlockDeallocate a p) = sys_live p;
  malloc_fresh n p a p' : malloc n p = (Some a, p') ->
    a <> 0 /\ (a ∉ pool_live p ∪ sys_live p) /\
    sys_live p' = {[a]} ∪ sys_live p /\ pool_live p' = pool_live p;
  malloc_none n p p' : malloc n p = (None, p') ->
    pool_live p' = pool_live p /\ sys_live p' = sys_live p;
  free_live a p : a ∈ sys_live p ->
    sys_live (free a p) = sys_live p ∖ {[a]} /\ pool_live (free a p) = pool_live p
}.

(** ** Data *)

(** [IOBuf::Block].  [u] is the union of [portal_next] and [data_meta];
    [bytes] is the memory behind [data]; [deleter] is the function kept in the
    [UserDataExtension] of a user-data block. *)
Record Block := mkBlock {
  nshared : Z;
  flags : Z;
  abi_check : Z;
  b_size : Z;
  b_cap : Z;
  u : Z;
  data : Z;
  bytes : list Z;
  deleter : Z
}.

Definition IOBUF_BLOCK_FLAGS_USER_DATA : Z := 1.
Definition sizeof_Block : Z := 32.
Definition sizeof_UserDataExtension : Z := 32.
Definition NULL : Z := 0.

Record BlockRef := mkRef { r_offset : Z; r_length : Z; r_block : Z }.

Record BigView := mkBV {
  bv_start : Z;
  bv_refs : list BlockRef;
  bv_nref : Z;
  bv_cap_mask : Z;
  bv_nbytes : Z
}.

(** The union of the two views.  [magic] overlays [refs[0].offset], so the
    discriminant of a small view is the sign bit of that offset. *)
Inductive IOBuf := SV (refs0 refs1 : BlockRef) | BV (bv : BigView).

Record TLSData := mkTLS { block_head : Z; num_blocks : Z; registered : bool }.

Record St (P : Type) := mkSt {
  heap : gmap Z Block;
  tls : TLSData;
  pool : P;
  deleted : list (Z * Z)   (* calls of user-data deleters: deleter, data *)
}.
Arguments mkSt {P}.
Arguments heap {P}.
Arguments tls {P}.
Arguments pool {P}.
Arguments deleted {P}.

#[export] Instance BlockRef_eq_dec : EqDecision BlockRef.
Proof. solve_decision. Defined.

Definition DEFAULT_BLOCK_SIZE : Z := 8192.
Definition INITIAL_CAP : Z := 32.

Section code.
Context {P : Type} `{Allocator P}.
Abbreviation MS := (M (St P)).

(** ** Blocks *)
Definition set_heap (h : gmap Z Block) (s : St P) := mkSt h (tls s) (pool s) (deleted s).
Definition set_tls (t : TLSData) (s : St P) := mkSt (heap s) t (pool s) (deleted s).

Definition load_block (a : Z) : MS Block := let! s := get in deref (heap s !! a).
Definition store_block (a : Z) (b : Block) : MS unit :=
  modify (fun s => set_heap (<[a := b]> (heap s)) s).

Definition set_nshared (n : Z) (b : Block) :=
  mkBlock n (flags b) (abi_check b) (b_size b) (b_cap b) (u b) (data b) (bytes b) (deleter b).
Definition set_size (n : Z) (b : Block) :=
  mkBlock (nshared b) (flags b) (abi_check b) n (b_cap b) (u b) (data b) (bytes b) (deleter b).
Definition set_u (n : Z) (b : Block) :=
  mkBlock (nshared b) (flags b) (abi_check b) (b_size b) (b_cap b) n (data b) (bytes b) (deleter b).
Definition set_bytes (l : list Z) (b : Block) :=
  mkBlock (nshared b) (flags b) (abi_check b) (b_size b) (b_cap b) (u b) (data b) l (deleter b).

(** The constructor [Block(char* data_in, uint32_t data_size)]; the memory
    behind [data_in] is what it held before. *)
Definition new_block (data_in data_size : Z) (mem : list Z) : Block :=
  mkBlock 1 0 0 0 (u32 data_size) 0 data_in mem 0.

Definition full (b : Block) : bool := b_cap b <=? b_size b.
Definition left_space (b : Block) : Z := u32 (b_cap b - b_size b).
Definition is_user (b : Block) : bool := negb (Z.land (flags b) IOBUF_BLOCK_FLAGS_USER_DATA =? 0).

Definition inc_ref (a : Z) : MS unit :=
  let! b := load_block a in
  let! _ := check (abi_check b =? 0) in
  store_block a (set_nshared (nshared b + 1) b).

(** The last reference runs the deleter and frees the header of a user-data
    block, and returns any other block to the pool. *)
Definition dec_ref (a : Z) : MS unit :=
  let! b := load_block a in
  let! _ := check (abi_check b =? 0) in
  let! _ := store_block a (set_nshared (nshared b - 1) b) in
  if nshared b =? 1 then
    if is_user b then
      modify (fun s => mkSt (delete a (heap s)) (tls s) (free a (pool s))
                            (deleted s ++ [(deleter b, data b)]))
    else
      modify (fun s => mkSt (delete a (heap s)) (tls s) (BlockDeallocate a (pool s)) (deleted s))
  else ret tt.

Definition ref_count (a : Z) : MS Z := let! b := load_block a in ret (nshared b).

(** ** Views *)
Definition null_ref : BlockRef := mkRef 0 0 NULL.
Definition is_null (r : BlockRef) : bool := r_block r =? NULL.
Definition new_IOBuf : IOBuf := SV null_ref null_ref.

Definition _small (b : IOBuf) : bool :=
  match b with SV r0 _ => r_offset r0 <? 2 ^ 31 | BV _ => false end.

(** The members of the union selected by [_small()]; reading the member that
    is not active is undefined. *)
Definition as_view (b : IOBuf) : MS (BlockRef * BlockRef + BigView) :=
  match b with
  | SV r0 r1 => if _small b then ret (inl (r0, r1)) else undef
  | BV bv => ret (inr bv)
  end.

Definition capacity (bv : BigView) : Z := u32 (bv_cap_mask bv + 1).
Definition ring_index (bv : BigView) (i : Z) : Z := Z.land (u32 (bv_start bv + i)) (bv_cap_mask bv).
Definition bv_ref_at (bv : BigView) (i : Z) : MS BlockRef :=
  deref (bv_refs bv !! Z.to_nat (ring_index bv i)).

Definition acquire_blockref_array (cap : Z) : list BlockRef := replicate (Z.to_nat cap) null_ref.

Definition IOBuf_empty (b : IOBuf) : MS bool :=
  let! v := as_view b in
  match v with
  | inl (r0, _) => ret (is_null r0)
  | inr bv => ret (bv_nbytes bv =? 0)
  end.

Definition IOBuf_length (b : IOBuf) : MS Z :=
  let! v := as_view b in
  match v with
  | inl (r0, r1) => ret (u32 (r_length r0 + r_length r1))
  | inr bv => ret (bv_nbytes bv)
  end.

Definition nonnull (r : BlockRef) : Z := if is_null r then 0 else 1.

Definition _ref_num (b : IOBuf) : MS Z :=
  let! v := as_view b in
  match v with
  | inl (r0, r1) => ret (nonnull r0 + nonnull r1)
  | inr bv => ret (bv_nref bv)
  end.

Definition _front_ref (b : IOBuf) : MS BlockRef :=
  let! v := as_view b in
  match v with
  | inl (r0, _) => ret r0
  | inr bv => deref (bv_refs bv !! Z.to_nat (bv_start bv))
  end.

Definition _back_ref (b : IOBuf) : MS BlockRef :=
  let! v := as_view b in
  match v with
  | inl (r0, r1) => ret (if is_null r1 then r0 else r1)
  | inr bv => bv_ref_at bv (u32 (bv_nref bv - 1))
  end.

Definition _ref_at (b : IOBuf) (i : Z) : MS BlockRef :=
  let! v := as_view b in
  match v with
  | inl (r0, r1) => if i =? 0 then ret r0 else if i =? 1 then ret r1 else undef
  | inr bv => bv_ref_at bv i
  end.

Definition _pref_at (b : IOBuf) (i : Z) : MS (option BlockRef) :=
  let! v := as_view b in
  match v with
  | inl (r0, r1) =>
      if i <? nonnull r0 + nonnull r1 then let! r := _ref_at b i in ret (Some r) else ret None
  | inr bv => if i <? bv_nref bv then let! r := bv_ref_at bv i in ret (Some r) else ret None
  end.

(** Assignments through the references returned by [_front_ref] and
    [_back_ref], together with the [_bv.nbytes -= n] that follows them. *)
Definition write_front (b : IOBuf) (r : BlockRef) (n : Z) : MS IOBuf :=
  let! v := as_view b in
  match v with
  | inl (_, r1) => if _small (SV r r1) then ret (SV r r1) else undef
  | inr bv => ret (BV (mkBV (bv_start bv) (<[Z.to_nat (bv_start bv) := r]> (bv_refs bv))
                            (bv_nref bv) (bv_cap_mask bv) (bv_nbytes bv - n)))
  end.
Definition write_back (b : IOBuf) (r : BlockRef) (n : Z) : MS IOBuf :=
  let! v := as_view b in
  match v with
  | inl (r0, r1) => ret (if is_null r1 then SV r r1 else SV r0 r)
  | inr bv =>
      ret (BV (mkBV (bv_start bv)
        (<[Z.to_nat (ring_index bv (u32 (bv_nref bv - 1))) := r]> (bv_refs bv))
        (bv_nref bv) (bv_cap_mask bv) (bv_nbytes bv - n)))
  end.

(** ** Reference queue operations *)

(** [refs[k].offset + refs[k].length == r.offset] is [uint32_t] arithmetic. *)
Definition mergeable (q r : BlockRef) : bool :=
  (r_block q =? r_block r) && (u32 (r_offset q + r_length q) =? r_offset r).
Definition merge (q r : BlockRef) : BlockRef :=
  mkRef (r_offset q) (u32 (r_length q + r_length r)) (r_block q).

Definition ref_moved_or_shared (MOVE : bool) (r : BlockRef) : MS unit :=
  if MOVE then ret tt else inc_ref (r_block r).
Definition ref_merged (MOVE : bool) (r : BlockRef) : MS unit :=
  if MOVE then dec_ref (r_block r) else ret tt.

Definition _push_or_move_back_ref_to_smallview (MOVE : bool) (refs0 refs1 r : BlockRef) : MS IOBuf :=
  if is_null refs0 then
    let! _ := ref_moved_or_shared MOVE r in ret (SV r refs1)
  else if is_null refs1 then
    if mergeable refs0 r then
      let! _ := ref_merged MOVE r in ret (SV (merge refs0 r) refs1)
    else
      let! _ := ref_moved_or_shared MOVE r in ret (SV refs0 r)
  else if mergeable refs1 r then
    let! _ := ref_merged MOVE r in ret (SV refs0 (merge refs1 r))
  else
    (* Convert to BigView *)
    let new_refs := <[2%nat := r]> (<[1%nat := refs1]> (<[0%nat := refs0]>
                      (acquire_blockref_array INITIAL_CAP))) in
    let new_nbytes := u32 (r_length refs0 + r_length refs1 + r_length r) in
    let! _ := ref_moved_or_shared MOVE r in
    ret (BV (mkBV 0 new_refs 3 (INITIAL_CAP - 1) new_nbytes)).

Fixpoint copy_refs (n : nat) (i : Z) (bv : BigView) (new_refs : list BlockRef) : MS (list BlockRef) :=
  match n with
  | O => ret new_refs
  | S n' => let! r := bv_ref_at bv i in
            copy_refs n' (i + 1) bv (<[Z.to_nat i := r]> new_refs)
  end.

Definition _push_or_move_back_ref_to_bigview (MOVE : bool) (bv : BigView) (r : BlockRef) : MS IOBuf :=
  let back_i := ring_index bv (u32 (bv_nref bv - 1)) in
  let! back := bv_ref_at bv (u32 (bv_nref bv - 1)) in
  if mergeable back r then
    let! _ := ref_merged MOVE r in
    ret (BV (mkBV (bv_start bv) (<[Z.to_nat back_i := merge back r]> (bv_refs bv)) (bv_nref bv)
                  (bv_cap_mask bv) (u64 (bv_nbytes bv + r_length r))))
  else if negb (bv_nref bv =? capacity bv) then
    let! _ := ref_moved_or_shared MOVE r in
    ret (BV (mkBV (bv_start bv) (<[Z.to_nat (ring_index bv (bv_nref bv)) := r]> (bv_refs bv))
                  (u32 (bv_nref bv + 1)) (bv_cap_mask bv) (u64 (bv_nbytes bv + r_length r))))
  else
    (* resize *)
    let new_cap := u32 (capacity bv * 2) in
    let! copied := copy_refs (Z.to_nat (bv_nref bv)) 0 bv (acquire_blockref_array new_cap) in
    let new_refs := <[Z.to_nat (bv_nref bv) := r]> copied in
    let! _ := ref_moved_or_shared MOVE r in
    ret (BV (mkBV 0 new_refs (u32 (bv_nref bv + 1)) (u32 (new_cap - 1)) (u64 (bv_nbytes bv + r_length r)))).

Definition push_or_move_back_ref (MOVE : bool) (b : IOBuf) (r : BlockRef) : MS IOBuf :=
  let! v := as_view b in
  match v with
  | inl (r0, r1) => _push_or_move_back_ref_to_smallview MOVE r0 r1 r
  | inr bv => _push_or_move_back_ref_to_bigview MOVE bv r
  end.
Definition _push_back_ref : IOBuf -> BlockRef -> MS IOBuf := push_or_move_back_ref false.
Definition _move_back_ref : IOBuf -> BlockRef -> MS IOBuf := push_or_move_back_ref true.

(** The result is the return code and the IOBuf after the call. *)
Definition _pop_or_moveout_front_ref (MOVEOUT : bool) (b : IOBuf) : MS (Z * IOBuf) :=
  let! v := as_view b in
  match v with
  | inl (r0, r1) =>
      if negb (is_null r0) then
        let! _ := (if MOVEOUT then ret tt else dec_ref (r_block r0)) in
        ret (0, SV r1 null_ref)
      else ret (-1, b)
  | inr bv =>
      let start := bv_start bv in
      let! r := deref (bv_refs bv !! Z.to_nat start) in
      let! _ := (if MOVEOUT then ret tt else dec_ref (r_block r)) in
      let nref := bv_nref bv - 1 in
      if 2 <? nref then
        ret (0, BV (mkBV (Z.land (u32 (start + 1)) (bv_cap_mask bv)) (bv_refs bv) nref
                         (bv_cap_mask bv) (bv_nbytes bv - r_length r)))
      else
        let! a := deref (bv_refs bv !! Z.to_nat (Z.land (u32 (start + 1)) (bv_cap_mask bv))) in
        let! c := deref (bv_refs bv !! Z.to_nat (Z.land (u32 (start + 2)) (bv_cap_mask bv))) in
        ret (0, SV a c)
  end.
Definition _pop_front_ref : IOBuf -> MS (Z * IOBuf) := _pop_or_moveout_front_ref false.
Definition _moveout_front_ref : IOBuf -> MS (Z * IOBuf) := _pop_or_moveout_front_ref true.

Definition _pop_back_ref (b : IOBuf) : MS (Z * IOBuf) :=
  let! v := as_view b in
  match v with
  | inl (r0, r1) =>
      if negb (is_null r1) then
        let! _ := dec_ref (r_block r1) in ret (0, SV r0 null_ref)
      else if negb (is_null r0) then
        let! _ := dec_ref (r_block r0) in ret (0, SV null_ref r1)
      else ret (-1, b)
  | inr bv =>
      let start := bv_start bv in
      let! back := deref (bv_refs bv !! Z.to_nat (Z.land (u32 (start + bv_nref bv - 1)) (bv_cap_mask bv))) in
      let! _ := dec_ref (r_block back) in
      let nref := bv_nref bv - 1 in
      if 2 <? nref then
        ret (0, BV (mkBV start (bv_refs bv) nref (bv_cap_mask bv) (bv_nbytes bv - r_length back)))
      else
        let! a := deref (bv_refs bv !! Z.to_nat start) in
        let! c := deref (bv_refs bv !! Z.to_nat (Z.land (u32 (start + 1)) (bv_cap_mask bv))) in
        ret (0, SV a c)
  end.

End code.

(** ** The reference queue denoted by a view *)

Definition total (rs : list BlockRef) : Z := foldr (fun r n => r_length r + n) 0 rs.

(** A reference held by an IOBuf: a non-empty range that ends below 2^31. *)
Definition ref_wf (r : BlockRef) : Prop :=
  r_block r <> NULL /\ 0 <= r_offset r /\ 0 < r_length r /\ r_offset r + r_length r < 2 ^ 31.

Record bv_repr (bv : BigView) (rs : list BlockRef) (k : Z) : Prop := mk_bv_repr {
  bvr_k : 5 <= k <= 30;
  bvr_mask : bv_cap_mask bv = 2 ^ k - 1;
  bvr_len : zlen (bv_refs bv) = 2 ^ k;
  bvr_start : 0 <= bv_start bv < 2 ^ k;
  bvr_nref : bv_nref bv = zlen rs;
  bvr_le : 3 <= zlen rs <= 2 ^ k;
  bvr_nbytes : bv_nbytes bv = total rs;
  bvr_at : forall i r, rs !! i = Some r ->
    bv_refs bv !! Z.to_nat ((bv_start bv + Z.of_nat i) mod 2 ^ k) = Some r
}.

(** [view b rs]: the IOBuf [b] holds the references [rs], first byte first. *)
Definition view (b : IOBuf) (rs : list BlockRef) : Prop :=
  Forall ref_wf rs /\ total rs < 2 ^ 30 /\
  match b with
  | SV r0 r1 =>
      match rs with
      | [] => r0 = null_ref /\ r1 = null_ref
      | [a] => r0 = a /\ r1 = null_ref
      | [a; c] => r0 = a /\ r1 = c
      | _ => False
      end
  | BV bv => exists k, bv_repr bv rs k
  end.

Lemma total_app a b : total (a ++ b) = total a + total b.
Proof. unfold total. induction a; simpl; lia. Qed.
Lemma total_nonneg rs : Forall ref_wf rs -> 0 <= total rs.
Proof. unfold total. induction 1 as [|r rs [] _ IH]; simpl; lia. Qed.
Lemma total_len rs : Forall ref_wf rs -> zlen rs <= total rs.
Proof.
  unfold total. induction 1 as [|r rs [] _ IH]; [done|]. rewrite zlen_cons. simpl. lia.
Qed.
Lemma total_in r rs : Forall ref_wf rs -> r ∈ rs -> r_length r <= total rs.
Proof.
  intros Hf Hin. apply list_elem_of_split in Hin as (a & b & ->).
  apply Forall_app in Hf as [Ha Hb]. apply Forall_cons in Hb as [_ Hb].
  rewrite total_app. simpl. pose proof (total_nonneg _ Ha). pose proof (total_nonneg _ Hb). lia.
Qed.

(** *** Ring indices *)
Lemma pow_bounds k : 5 <= k <= 30 -> 32 <= 2 ^ k <= 2 ^ 30.
Proof.
  intros. change 32 with (2 ^ 5). split; apply Z.pow_le_mono_r; lia.
Qed.

Lemma ring_index_mod bv rs k i : bv_repr bv rs k -> 0 <= i < 2 ^ 31 ->
  ring_index bv i = (bv_start bv + i) mod 2 ^ k.
Proof.
  intros R Hi. pose proof (bvr_k _ _ _ R). pose proof (pow_bounds k ltac:(done)).
  pose proof (bvr_start _ _ _ R). unfold ring_index.
  rewrite (bvr_mask _ _ _ R), land_mask by lia. rewrite u32_small; [done|]. unfold is_u32. lia.
Qed.

Lemma capacity_pow bv rs k : bv_repr bv rs k -> capacity bv = 2 ^ k.
Proof.
  intros R. pose proof (pow_bounds k (bvr_k _ _ _ R)). unfold capacity.
  rewrite (bvr_mask _ _ _ R), u32_small; unfold is_u32; lia.
Qed.

(** The discriminant of a well-formed view. *)
Lemma view_small r0 r1 rs : view (SV r0 r1) rs -> _small (SV r0 r1) = true.
Proof.
  intros (Hf & Ht & Hv). simpl. apply Z.ltb_lt.
  destruct rs as [|a [|c [|]]]; try done; destruct Hv as [-> _]; simpl; try lia;
    apply Forall_cons in Hf as [(_ & _ & ? & ?) _]; lia.
Qed.

Section accessors.
Context {P : Type}.
Implicit Types s : St P.

Lemma as_view_small r0 r1 rs s : view (SV r0 r1) rs -> as_view (SV r0 r1) s = Ok (inl (r0, r1)) s.
Proof. intros H. unfold as_view. by rewrite (view_small _ _ _ H). Qed.

Lemma view_sv_inv r0 r1 rs : view (SV r0 r1) rs ->
  (rs = [] /\ r0 = null_ref /\ r1 = null_ref) \/
  (rs = [r0] /\ r1 = null_ref /\ is_null r0 = false) \/
  (rs = [r0; r1] /\ is_null r0 = false /\ is_null r1 = false).
Proof.
  intros (Hf & _ & Hv). unfold is_null.
  destruct rs as [|a [|c [|]]]; try done; destruct Hv as [-> ->]; [by left|right; left|right; right];
    repeat (apply Forall_cons in Hf as [(? & _) Hf]); split_and!; try done; by apply Z.eqb_neq.
Qed.

Lemma IOBuf_length_spec b rs s : view b rs -> IOBuf_length b s = Ok (total rs) s.
Proof.
  intros V. destruct b as [r0 r1|bv]; unfold IOBuf_length.
  - exec (as_view_small r0 r1 rs s V). unfold ret. f_equal.
    destruct V as (Hf & Ht & Hv). pose proof (total_nonneg _ Hf).
    rewrite u32_small.
    + destruct rs as [|a [|c [|]]]; try done; destruct Hv as [-> ->]; simpl; lia.
    + unfold is_u32. destruct rs as [|a [|c [|]]]; try done; destruct Hv as [-> ->]; simpl in *; lia.
  - destruct V as (_ & _ & k & R). mstep. by rewrite (bvr_nbytes _ _ _ R).
Qed.

Lemma IOBuf_empty_spec b rs s : view b rs ->
  IOBuf_empty b s = Ok (match rs with [] => true | _ => false end) s.
Proof.
  intros V. destruct b as [r0 r1|bv]; unfold IOBuf_empty.
  - exec (as_view_small r0 r1 rs s V). unfold ret. f_equal.
    destruct (view_sv_inv _ _ _ V) as [(-> & -> & ->)|[(-> & -> & E)|(-> & E & _)]]; done.
  - destruct V as (Hf & _ & k & R). mstep. f_equal.
    pose proof (total_len _ Hf). pose proof (bvr_le _ _ _ R). rewrite (bvr_nbytes _ _ _ R).
    destruct rs; [rewrite zlen_nil in *; lia|]. apply Z.eqb_neq. lia.
Qed.

Lemma _ref_num_spec b rs s : view b rs -> _ref_num b s = Ok (zlen rs) s.
Proof.
  intros V. destruct b as [r0 r1|bv]; unfold _ref_num.
  - exec (as_view_small r0 r1 rs s V). unfold ret, nonnull. f_equal.
    destruct (view_sv_inv _ _ _ V) as [(-> & -> & ->)|[(-> & -> & E)|(-> & E & E')]];
      rewrite ?E, ?E'; done.
  - destruct V as (_ & _ & k & R). mstep. by rewrite (bvr_nref _ _ _ R).
Qed.

Lemma bv_ref_at_spec bv rs k i r s : bv_repr bv rs k -> rs !! i = Some r ->
  bv_ref_at bv (Z.of_nat i) s = Ok r s.
Proof.
  intros R Hi. pose proof (lookup_lt_Some _ _ _ Hi). pose proof (bvr_le _ _ _ R).
  pose proof (pow_bounds k (bvr_k _ _ _ R)). unfold bv_ref_at.
  rewrite (ring_index_mod _ rs k) by (try done; unfold zlen in *; lia).
  apply deref_some. by apply (bvr_at _ _ _ R).
Qed.

Lemma _ref_at_spec b rs i r s : view b rs -> rs !! i = Some r ->
  _ref_at b (Z.of_nat i) s = Ok r s.
Proof.
  intros V Hi. destruct b as [r0 r1|bv]; unfold _ref_at.
  - exec (as_view_small r0 r1 rs s V).
    destruct (view_sv_inv _ _ _ V) as [(-> & -> & ->)|[(-> & -> & E)|(-> & E & E')]];
      destruct i as [|[|i]]; simplify_eq/=; try done; by destruct i.
  - destruct V as (_ & _ & k & R). mstep. by apply (bv_ref_at_spec _ rs k).
Qed.

Lemma _pref_at_spec b rs i s : view b rs -> 0 <= i -> _pref_at b i s = Ok (rs !! Z.to_nat i) s.
Proof.
  intros V Hi.
  assert (forall r, rs !! Z.to_nat i = Some r -> _ref_at b i s = Ok r s) as Hat.
  { intros r Hr. rewrite <- (Z2Nat.id i) by lia. by apply (_ref_at_spec b rs). }
  pose proof (_ref_num_spec b rs s V) as Hn. unfold _ref_num in Hn.
  assert (forall j, (i <? zlen rs) = j -> if j then is_Some (rs !! Z.to_nat i) else rs !! Z.to_nat i = None) as Hlk.
  { intros j <-. destruct (Z.ltb_spec i (zlen rs)); unfold zlen in *.
    - apply lookup_lt_is_Some_2. lia. - apply lookup_ge_None_2. lia. }
  destruct b as [r0 r1|bv]; unfold _pref_at.
  - pose proof (as_view_small r0 r1 rs s V) as Hv.
    rewrite (bind_ok _ _ _ _ _ Hv) in Hn. exec Hv. unfold ret in *.
    injection Hn as ->. specialize (Hlk _ eq_refl). destruct (i <? zlen rs).
    + destruct Hlk as [r Hr]. exec (Hat r Hr). by rewrite Hr.
    + by rewrite Hlk.
  - destruct V as (_ & _ & k & R). mstep. rewrite (bvr_nref _ _ _ R).
    specialize (Hlk _ eq_refl). destruct (i <? zlen rs).
    + destruct Hlk as [r Hr]. specialize (Hat r Hr). unfold _ref_at in Hat.
      unfold bind in Hat. simpl in Hat. unfold ret in Hat. rewrite Hat. by rewrite Hr.
    + by rewrite Hlk.
Qed.

Lemma _front_ref_spec b r rs s : view b (r :: rs) -> _front_ref b s = Ok r s.
Proof.
  intros V. destruct b as [r0 r1|bv]; unfold _front_ref.
  - exec (as_view_small r0 r1 _ s V). unfold ret. f_equal.
    destruct (view_sv_inv _ _ _ V) as [(? & -> & ->)|[(? & -> & E)|(? & E & _)]]; congruence.
  - destruct V as (_ & _ & k & R). mstep. pose proof (bvr_at _ _ _ R 0 r eq_refl) as E.
    rewrite Z.add_0_r, Z.mod_small in E by apply (bvr_start _ _ _ R). by rewrite E.
Qed.

Lemma _back_ref_spec b rs r s : view b (rs ++ [r]) -> _back_ref b s = Ok r s.
Proof.
  intros V. destruct b as [r0 r1|bv]; unfold _back_ref.
  - exec (as_view_small r0 r1 _ s V). unfold ret. f_equal.
    destruct (view_sv_inv _ _ _ V) as [(? & -> & ->)|[(E1 & -> & E)|(E1 & E & E')]].
    + by destruct rs.
    + rewrite <- (app_nil_l [r0]) in E1. apply app_inj_tail in E1 as [_ ->]. done.
    + rewrite E'. change [r0; r1] with ([r0] ++ [r1]) in E1. by apply app_inj_tail in E1 as [_ ->].
  - destruct V as (_ & _ & k & R). mstep. rewrite (bvr_nref _ _ _ R).
    pose proof (bvr_le _ _ _ R). pose proof (pow_bounds k (bvr_k _ _ _ R)).
    rewrite u32_small by (unfold is_u32; lia). rewrite zlen_app, zlen_cons, zlen_nil.
    replace (zlen rs + (1 + 0) - 1) with (Z.of_nat (List.length rs)) by (unfold zlen; lia).
    eapply bv_ref_at_spec; [done|]. by apply list_lookup_middle.
Qed.

End accessors.

(** ** Updates of the reference queue *)

Lemma bv_slot_ne bv rs k (i j : nat) (v : BlockRef) :
  bv_repr bv rs k -> Z.of_nat i < 2 ^ k -> Z.of_nat j < 2 ^ k -> i <> j ->
  <[Z.to_nat ((bv_start bv + Z.of_nat j) mod 2 ^ k) := v]> (bv_refs bv)
    !! Z.to_nat ((bv_start bv + Z.of_nat i) mod 2 ^ k)
  = bv_refs bv !! Z.to_nat ((bv_start bv + Z.of_nat i) mod 2 ^ k).
Proof.
  intros R Hi Hj Hne. pose proof (pow_bounds k (bvr_k _ _ _ R)).
  apply list_lookup_insert_ne. intros E. apply Hne.
  pose proof (Z.mod_pos_bound (bv_start bv + Z.of_nat i) (2 ^ k)).
  pose proof (Z.mod_pos_bound (bv_start bv + Z.of_nat j) (2 ^ k)).
  apply Z2Nat.inj in E; [|lia..]. symmetry in E. apply ring_inj in E; lia.
Qed.

Lemma bv_slot_eq bv rs k (i : nat) (v : BlockRef) : bv_repr bv rs k ->
  <[Z.to_nat ((bv_start bv + Z.of_nat i) mod 2 ^ k) := v]> (bv_refs bv)
    !! Z.to_nat ((bv_start bv + Z.of_nat i) mod 2 ^ k) = Some v.
Proof.
  intros R. pose proof (pow_bounds k (bvr_k _ _ _ R)). apply list_lookup_insert_eq.
  pose proof (Z.mod_pos_bound (bv_start bv + Z.of_nat i) (2 ^ k)).
  pose proof (bvr_len _ _ _ R). unfold zlen in *. lia.
Qed.

(** Overwriting the reference at position [i]. *)
Lemma bv_repr_set bv rs k i r n :
  bv_repr bv rs k -> (i < List.length rs)%nat -> n = total (<[i := r]> rs) ->
  bv_repr (mkBV (bv_start bv) (<[Z.to_nat ((bv_start bv + Z.of_nat i) mod 2 ^ k) := r]> (bv_refs bv))
                (bv_nref bv) (bv_cap_mask bv) n) (<[i := r]> rs) k.
Proof.
  intros R Hi ->. pose proof R as [].
  assert (zlen (<[i := r]> rs) = zlen rs) as Hz by (unfold zlen; by rewrite length_insert).
  constructor; simpl; rewrite ?Hz; try done.
  - rewrite <- bvr_len0. unfold zlen. by rewrite length_insert.
  - intros j r' Hj. destruct (decide (i = j)) as [<-|Hne].
    + rewrite list_lookup_insert_eq in Hj by done. simplify_eq. by eapply bv_slot_eq.
    + rewrite list_lookup_insert_ne in Hj by done.
      pose proof (lookup_lt_Some _ _ _ Hj). unfold zlen in *.
      rewrite (bv_slot_ne _ rs) by (try done; lia). by apply bvr_at0.
Qed.

Lemma bv_repr_snoc bv rs k r : bv_repr bv rs k -> zlen rs < 2 ^ k ->
  bv_repr (mkBV (bv_start bv) (<[Z.to_nat ((bv_start bv + zlen rs) mod 2 ^ k) := r]> (bv_refs bv))
                (bv_nref bv + 1) (bv_cap_mask bv) (bv_nbytes bv + r_length r)) (rs ++ [r]) k.
Proof.
  intros R Hlt. pose proof R as [].
  constructor; simpl; rewrite ?zlen_app, ?zlen_cons, ?zlen_nil, ?total_app; simpl; try done; try lia.
  - rewrite <- bvr_len0. unfold zlen. by rewrite length_insert.
  - intros j r' Hj. unfold zlen in *. apply lookup_app_Some in Hj as [Hj|[Hge Hj]].
    + pose proof (lookup_lt_Some _ _ _ Hj).
      rewrite (bv_slot_ne _ rs) by (try done; lia). by apply bvr_at0.
    + apply list_lookup_singleton_Some in Hj as [Hj ->].
      replace j with (List.length rs) by lia. by eapply bv_slot_eq.
Qed.

Section updates.
Context {P : Type} `{Allocator P}.
Implicit Types s : St P.

Lemma copy_refs_spec bv rs k s : bv_repr bv rs k -> forall done todo (new : list BlockRef),
  rs = done ++ todo -> zlen rs <= zlen new -> take (List.length done) new = done ->
  exists out, copy_refs (List.length todo) (zlen done) bv new s = Ok out s /\
    take (List.length rs) out = rs /\ zlen out = zlen new.
Proof.
  intros R d todo. revert d. induction todo as [|r todo IH]; intros d new Hrs Hlen Htake; simpl.
  - exists new. rewrite app_nil_r in Hrs. by subst.
  - exec (bv_ref_at_spec bv rs k (List.length d) r s R
            ltac:(rewrite Hrs; by apply list_lookup_middle)).
    subst rs. rewrite zlen_app, zlen_cons in Hlen.
    destruct (IH (d ++ [r]) (<[Z.to_nat (zlen d) := r]> new)) as (out & E & Ht & Hz).
    + by rewrite <- (assoc (++)).
    + rewrite zlen_app, zlen_cons. unfold zlen at 3. rewrite length_insert. unfold zlen in *. lia.
    + rewrite length_app. simpl. rewrite Nat.add_1_r.
      unfold zlen at 1. rewrite Nat2Z.id.
      assert (List.length d < List.length new)%nat by (unfold zlen in *; lia).
      rewrite (take_S_r _ _ r) by (apply list_lookup_insert_eq; lia).
      rewrite take_insert_ge by lia. by rewrite Htake.
    + exists out. rewrite zlen_app, zlen_cons, zlen_nil in E.
      replace (zlen d + 1) with (zlen d + (1 + 0)) by lia. rewrite E. split_and!; try done.
      rewrite Hz. unfold zlen. by rewrite length_insert.
Qed.

(** Pushing a reference merges it into the last one when it continues it. *)
Definition merges (rs : list BlockRef) (r : BlockRef) : bool :=
  match last rs with Some q => mergeable q r | None => false end.
Definition push_refs (rs : list BlockRef) (r : BlockRef) : list BlockRef :=
  match last rs with
  | Some q => if mergeable q r then removelast rs ++ [merge q r] else rs ++ [r]
  | None => rs ++ [r]
  end.

Lemma push_refs_snoc rs q r :
  push_refs (rs ++ [q]) r = if mergeable q r then rs ++ [merge q r] else rs ++ [q; r].
Proof.
  unfold push_refs. rewrite last_snoc, removelast_last.
  destruct (mergeable q r); [done|]. by rewrite <- (assoc (++)).
Qed.

Lemma merge_wf q r : ref_wf q -> ref_wf r -> mergeable q r = true ->
  merge q r = mkRef (r_offset q) (r_length q + r_length r) (r_block q) /\ ref_wf (merge q r).
Proof.
  unfold mergeable, ref_wf, merge. intros Hq Hr [->%Z.eqb_eq E%Z.eqb_eq]%andb_true_iff.
  rewrite u32_small in E by (unfold is_u32; lia).
  rewrite u32_small by (unfold is_u32; lia). simpl. split; [done|lia].
Qed.

Lemma push_refs_wf rs r : Forall ref_wf rs -> ref_wf r ->
  Forall ref_wf (push_refs rs r) /\ total (push_refs rs r) = total rs + r_length r.
Proof.
  intros Hf Hr. destruct rs as [|q rs _] using rev_ind.
  - simpl. split; [by apply Forall_singleton|lia].
  - apply Forall_app in Hf as [Hf Hq]. rewrite Forall_singleton in Hq. rewrite push_refs_snoc.
    destruct (mergeable q r) eqn:E.
    + destruct (merge_wf q r Hq Hr E) as [Em Hm]. split.
      * apply Forall_app. by rewrite Forall_singleton.
      * rewrite !total_app, Em. simpl. lia.
    + split.
      * apply Forall_app. split; [done|]. apply Forall_cons. by rewrite Forall_singleton.
      * rewrite !total_app. simpl. lia.
Qed.

(** The code shared by all the branches of a push. *)
Definition count_push (MOVE merged : bool) (r : BlockRef) : M (St P) unit :=
  if merged then ref_merged MOVE r else ref_moved_or_shared MOVE r.

Lemma push_small MOVE r0 r1 rs r s : view (SV r0 r1) rs -> ref_wf r ->
  total rs + r_length r < 2 ^ 30 ->
  exists b', view b' (push_refs rs r) /\
    _push_or_move_back_ref_to_smallview MOVE r0 r1 r s
    = (let! _ := count_push MOVE (merges rs r) r in ret b') s.
Proof.
  intros V Hr Ht. pose proof V as (Hf & _ & _).
  destruct (push_refs_wf rs r Hf Hr) as [Hf' Ht'].
  unfold _push_or_move_back_ref_to_smallview, count_push, merges.
  destruct (view_sv_inv _ _ _ V) as [(-> & -> & ->)|[(-> & -> & E)|(-> & E & E')]]; simpl.
  - unfold push_refs in *; simpl in *. exists (SV r null_ref). split; [|done]. split_and!; try done; simpl; lia.
  - rewrite E. unfold push_refs in *. simpl in *. destruct (mergeable r0 r) eqn:Em.
    + eexists; split; [|reflexivity]. split_and!; try done; simpl in *; lia.
    + eexists; split; [|reflexivity]. split_and!; try done; simpl in *; lia.
  - rewrite E, E'. unfold push_refs in *. simpl in *. destruct (mergeable r1 r) eqn:Em.
    + eexists; split; [|reflexivity]. split_and!; try done; simpl in *; lia.
    + eexists; split; [|reflexivity]. split_and!; [done|simpl in *; lia|]. exists 5.
      repeat (apply Forall_cons in Hf as [[] Hf]). destruct Hr.
      constructor; simpl; try done; try lia.
      * rewrite u32_small by (unfold is_u32; lia). lia.
      * intros i q Hi. rewrite Z.mod_small.
        -- rewrite Z.add_0_l, Nat2Z.id. destruct i as [|[|[|i]]]; simplify_eq/=; done.
        -- apply lookup_lt_Some in Hi. simpl in Hi. lia.
Qed.

(** The ring that replaces a full one: twice the slots, the references moved
    to its start, the new one after them. *)
Lemma bv_repr_grow bv rs k r out : bv_repr bv rs k -> k <= 29 ->
  take (List.length rs) out = rs -> zlen out = 2 ^ (k + 1) -> zlen rs = 2 ^ k ->
  bv_repr (mkBV 0 (<[List.length rs := r]> out) (bv_nref bv + 1) (2 ^ (k + 1) - 1)
                (bv_nbytes bv + r_length r)) (rs ++ [r]) (k + 1).
Proof.
  intros R Hk Hout Hz Hfull. pose proof (bvr_k _ _ _ R).
  assert (2 ^ (k + 1) = 2 ^ k * 2) as Hpow by (rewrite Z.pow_add_r; lia).
  pose proof (pow_bounds k (bvr_k _ _ _ R)).
  constructor; simpl; rewrite ?zlen_app, ?zlen_cons, ?zlen_nil, ?total_app; simpl; try lia.
  - unfold zlen in *. by rewrite length_insert.
  - by rewrite (bvr_nref _ _ _ R).
  - rewrite (bvr_nbytes _ _ _ R). lia.
  - intros i x Hi. pose proof (lookup_lt_Some _ _ _ Hi) as Hlt. rewrite length_app in Hlt. simpl in Hlt.
    unfold zlen in *. rewrite Z.mod_small, Z.add_0_l, Nat2Z.id by lia.
    apply lookup_app_Some in Hi as [Hi|[Hge Hi]].
    + pose proof (lookup_lt_Some _ _ _ Hi). rewrite list_lookup_insert_ne by lia.
      rewrite <- Hout in Hi. by rewrite lookup_take_lt in Hi by lia.
    + apply list_lookup_singleton_Some in Hi as [Hi ->].
      replace i with (List.length rs) by lia. apply list_lookup_insert_eq. lia.
Qed.

Lemma push_big MOVE bv rs k r s : bv_repr bv rs k -> Forall ref_wf rs -> ref_wf r ->
  total rs + r_length r < 2 ^ 30 ->
  exists b', view b' (push_refs rs r) /\
    _push_or_move_back_ref_to_bigview MOVE bv r s
    = (let! _ := count_push MOVE (merges rs r) r in ret b') s.
Proof.
  intros R Hf Hr Ht. destruct (push_refs_wf rs r Hf Hr) as [Hf' Ht'].
  pose proof (bvr_k _ _ _ R). pose proof (pow_bounds k (bvr_k _ _ _ R)).
  pose proof (total_len rs Hf). pose proof (bvr_le _ _ _ R). pose proof (bvr_nref _ _ _ R) as Hn.
  pose proof (bvr_nbytes _ _ _ R) as Hb.
  assert (0 < r_length r) by (by destruct Hr as (_ & _ & ? & _)).
  assert (u32 (bv_nref bv + 1) = bv_nref bv + 1) as Hn1 by (apply u32_small; unfold is_u32; lia).
  assert (u64 (bv_nbytes bv + r_length r) = bv_nbytes bv + r_length r) as Hb1
    by (apply u64_small; unfold is_u64; lia).
  destruct (last rs) as [q|] eqn:Hq; [|apply last_None in Hq as ->; rewrite zlen_nil in *; lia].
  pose proof Hq as Hi. rewrite last_lookup in Hi.
  assert (u32 (bv_nref bv - 1) = Z.of_nat (pred (List.length rs))) as Hlast
    by (rewrite u32_small; unfold is_u32, zlen in *; lia).
  unfold _push_or_move_back_ref_to_bigview, count_push, merges. rewrite Hlast.
  exec (bv_ref_at_spec bv rs k _ q s R Hi). unfold push_refs in *. rewrite Hq in *.
  rewrite Hb1, Hn1.
  destruct (mergeable q r) eqn:Em.
  { eexists; split; [|reflexivity]. split_and!; [done|lia|]. exists k.
    rewrite (ring_index_mod _ rs k) by (try done; unfold zlen in *; lia).
    apply last_Some in Hq as [rs' ->]. rewrite removelast_last in *. rewrite length_app in *. simpl in *.
    replace (pred (List.length rs' + 1)) with (List.length rs' + 0)%nat by lia.
    replace (rs' ++ [merge q r]) with (<[(List.length rs' + 0)%nat := merge q r]> (rs' ++ [q]))
      by (by rewrite insert_app_r).
    apply bv_repr_set; [done|rewrite length_app; simpl; lia|]. rewrite insert_app_r. simpl. lia. }
  rewrite (capacity_pow _ _ k R). destruct (Z.eqb_spec (bv_nref bv) (2 ^ k)) as [Hfull|Hroom]; simpl.
  - assert (k <= 29) by (destruct (Z.eq_dec k 30) as [->|]; lia).
    assert (2 ^ (k + 1) = 2 ^ k * 2) as Hpow by (rewrite Z.pow_add_r; lia).
    pose proof (pow_bounds (k + 1) ltac:(lia)).
    rewrite (u32_small (2 ^ k * 2)), <- Hpow, (u32_small (2 ^ (k + 1) - 1)) by (unfold is_u32; lia).
    destruct (copy_refs_spec bv rs k s R [] rs (acquire_blockref_array (2 ^ (k + 1))))
      as (out & E & Hout & Hzo); try done.
    { unfold acquire_blockref_array, zlen in *. rewrite length_replicate. lia. }
    replace (Z.to_nat (bv_nref bv)) with (List.length rs) by (unfold zlen in *; lia).
    exec E. eexists; split; [|reflexivity]. split_and!; [done|lia|]. exists (k + 1).
    apply bv_repr_grow; try done; [|lia].
    rewrite Hzo. unfold acquire_blockref_array, zlen. rewrite length_replicate. lia.
  - eexists; split; [|reflexivity]. split_and!; [done|lia|]. exists k.
    rewrite (ring_index_mod _ _ k), Hn by (try done; lia). rewrite <- Hn at 2.
    apply bv_repr_snoc; [done|]. lia.
Qed.

(** *** Popping *)
Lemma bv_next bv rs k j : bv_repr bv rs k -> 0 <= j < 2 ^ 31 ->
  Z.land (u32 (bv_start bv + j)) (bv_cap_mask bv) = (bv_start bv + j) mod 2 ^ k.
Proof. apply ring_index_mod. Qed.

Lemma bv_repr_tail bv r rs k : bv_repr bv (r :: rs) k -> 2 < zlen rs ->
  bv_repr (mkBV ((bv_start bv + 1) mod 2 ^ k) (bv_refs bv) (bv_nref bv - 1)
                (bv_cap_mask bv) (bv_nbytes bv - r_length r)) rs k.
Proof.
  intros R Hlt. pose proof R as []. rewrite zlen_cons in *.
  constructor; simpl; try done; try lia.
  - apply Z.mod_pos_bound. lia.
  - rewrite bvr_nbytes0. simpl. lia.
  - intros i q Hi. rewrite Zplus_mod_idemp_l.
    replace (bv_start bv + 1 + Z.of_nat i) with (bv_start bv + Z.of_nat (S i)) by lia.
    by apply bvr_at0.
Qed.

Lemma bv_repr_init bv r rs k : bv_repr bv (rs ++ [r]) k -> 2 < zlen rs ->
  bv_repr (mkBV (bv_start bv) (bv_refs bv) (bv_nref bv - 1)
                (bv_cap_mask bv) (bv_nbytes bv - r_length r)) rs k.
Proof.
  intros R Hlt. pose proof R as []. rewrite zlen_app, zlen_cons, zlen_nil, ?total_app in *.
  constructor; simpl in *; try done; try lia.
  intros i q Hi. apply bvr_at0. by apply lookup_app_l_Some.
Qed.

(** Falling back to the small view with two references left. *)
Lemma view_pair (a c : BlockRef) : Forall ref_wf [a; c] -> total [a; c] < 2 ^ 30 -> view (SV a c) [a; c].
Proof. by intros. Qed.

Lemma bv_at bv rs k i r : bv_repr bv rs k -> rs !! i = Some r ->
  bv_refs bv !! Z.to_nat (Z.land (u32 (bv_start bv + Z.of_nat i)) (bv_cap_mask bv)) = Some r.
Proof.
  intros R Hi. pose proof (lookup_lt_Some _ _ _ Hi). pose proof (bvr_le _ _ _ R).
  pose proof (pow_bounds k (bvr_k _ _ _ R)).
  rewrite (bv_next _ rs k) by (try done; unfold zlen in *; lia). by apply (bvr_at _ _ _ R).
Qed.

Lemma bv_first bv r rs k : bv_repr bv (r :: rs) k -> bv_refs bv !! Z.to_nat (bv_start bv) = Some r.
Proof.
  intros R. pose proof (bvr_at _ _ _ R 0 r eq_refl) as E.
  by rewrite Z.add_0_r, Z.mod_small in E by apply (bvr_start _ _ _ R).
Qed.

Lemma view_tail r rs : Forall ref_wf (r :: rs) -> total (r :: rs) < 2 ^ 30 ->
  Forall ref_wf rs /\ total rs < 2 ^ 30.
Proof.
  intros Hf Ht. apply Forall_cons in Hf as [(_ & _ & ? & _) Hf]. split; [done|]. simpl in Ht. lia.
Qed.

Lemma pop_front_view MOVEOUT b r rs s : view b (r :: rs) ->
  exists b', view b' rs /\ _pop_or_moveout_front_ref MOVEOUT b s
    = (let! _ := (if MOVEOUT then ret tt else dec_ref (r_block r)) in ret (0, b')) s.
Proof.
  intros V. pose proof V as (Hf & Ht & _). destruct (view_tail _ _ Hf Ht) as [Hf' Ht'].
  unfold _pop_or_moveout_front_ref. destruct b as [r0 r1|bv].
  - exec (as_view_small r0 r1 _ s V).
    destruct (view_sv_inv _ _ _ V) as [(? & -> & ->)|[(? & -> & E)|(? & E & E')]]; simplify_eq;
      rewrite E; eexists; (split; [|reflexivity]); done.
  - destruct V as (_ & _ & k & R). unfold as_view.
    rewrite (bind_ok _ _ s (inr bv) s) by done.
    rewrite (bind_ok _ _ s r s) by (apply deref_some; by eapply bv_first).
    pose proof (bvr_le _ _ _ R) as Hle. rewrite zlen_cons in Hle.
    pose proof (pow_bounds k (bvr_k _ _ _ R)).
    rewrite (bvr_nref _ _ _ R), zlen_cons. replace (1 + zlen rs - 1) with (zlen rs) by lia.
    destruct (Z.ltb_spec 2 (zlen rs)).
    + eexists; split; [|reflexivity]. split_and!; [done..|]. exists k.
      rewrite (bv_next _ _ k) by (try done; lia).
      replace (zlen rs) with (bv_nref bv - 1) by (rewrite (bvr_nref _ _ _ R), zlen_cons; lia).
      by apply bv_repr_tail.
    + destruct rs as [|a [|c [|? ?]]]; rewrite ?zlen_cons, ?zlen_nil in *; try lia.
      * exists (SV a c). split; [done|].
        pose proof (bv_at _ _ k 1 a R eq_refl) as Ea. pose proof (bv_at _ _ k 2 c R eq_refl) as Ec.
        change (Z.of_nat 1) with 1 in Ea. change (Z.of_nat 2) with 2 in Ec. rewrite Ea, Ec. done.
      * pose proof (zlen_nonneg l). lia.
Qed.

Lemma pop_back_view b r rs s : view b (rs ++ [r]) ->
  exists b', view b' rs /\ _pop_back_ref b s
    = (let! _ := dec_ref (r_block r) in ret (0, b')) s.
Proof.
  intros V. pose proof V as (Hf & Ht & _). rewrite total_app in Ht. simpl in Ht.
  apply Forall_app in Hf as [Hf' Hr]. rewrite Forall_singleton in Hr.
  assert (total rs < 2 ^ 30) by (destruct Hr as (_ & _ & ? & _); lia).
  unfold _pop_back_ref. destruct b as [r0 r1|bv].
  - exec (as_view_small r0 r1 _ s V).
    destruct (view_sv_inv _ _ _ V) as [(E1 & -> & ->)|[(E1 & -> & E)|(E1 & E & E')]].
    + by destruct rs.
    + rewrite <- (app_nil_l [r0]) in E1. apply app_inj_tail in E1 as [-> ->]. rewrite E. simpl.
      eexists; split; [|reflexivity]. done.
    + change [r0; r1] with ([r0] ++ [r1]) in E1. apply app_inj_tail in E1 as [-> ->].
      rewrite E'. simpl. eexists; split; [|reflexivity]. done.
  - destruct V as (_ & _ & k & R). unfold as_view.
    rewrite (bind_ok _ _ s (inr bv) s) by done.
    pose proof (bvr_le _ _ _ R) as Hle. pose proof (pow_bounds k (bvr_k _ _ _ R)).
    pose proof (bvr_nref _ _ _ R) as Hn. rewrite zlen_app, zlen_cons, zlen_nil in *.
    replace (bv_start bv + bv_nref bv - 1) with (bv_start bv + Z.of_nat (List.length rs))
      by (unfold zlen in *; lia).
    rewrite (bind_ok _ _ s r s)
      by (apply deref_some; eapply bv_at; [done|]; by apply list_lookup_middle).
    destruct (Z.ltb_spec 2 (bv_nref bv - 1)).
    + eexists; split; [|reflexivity]. split_and!; [done..|]. exists k. apply bv_repr_init; [done|lia].
    + destruct rs as [|a [|c [|? ?]]]; rewrite ?zlen_cons, ?zlen_nil in *; try lia.
      * exists (SV a c). split; [done|]. simpl in R.
        pose proof (bv_at _ _ k 1 c R eq_refl) as Ec. change (Z.of_nat 1) with 1 in Ec.
        rewrite (bv_first _ _ _ _ R), Ec. done.
      * pose proof (zlen_nonneg l). lia.
Qed.

(** *** Shrinking the first or the last reference in place *)
Lemma write_front_view b q r rs n s : view b (r :: rs) -> ref_wf q ->
  r_length q = r_length r - n -> 0 <= n ->
  exists b', write_front b q n s = Ok b' s /\ view b' (q :: rs).
Proof.
  intros V Hq Hl Hn. pose proof V as (Hf & Ht & _).
  assert (Forall ref_wf (q :: rs) /\ total (q :: rs) < 2 ^ 30) as [Hf' Ht'].
  { apply Forall_cons in Hf as [_ Hf]. split; [by apply Forall_cons|]. simpl in *. lia. }
  unfold write_front. destruct b as [r0 r1|bv].
  - exec (as_view_small r0 r1 _ s V).
    assert (_small (SV q r1) = true) as -> by (apply Z.ltb_lt; destruct Hq as (_ & ? & ? & ?); simpl; lia).
    eexists; split; [reflexivity|].
    destruct (view_sv_inv _ _ _ V) as [(? & -> & ->)|[(? & -> & E)|(? & E & E')]]; simplify_eq; done.
  - destruct V as (_ & _ & k & R). mstep. eexists; split; [reflexivity|]. split_and!; [done..|].
    exists k. pose proof (bv_repr_set bv (r :: rs) k 0 q (total (q :: rs)) R) as Hset.
    rewrite Z.add_0_r, Z.mod_small in Hset by apply (bvr_start _ _ _ R). simpl in Hset.
    replace (bv_nbytes bv - n) with (r_length q + total rs)
      by (rewrite (bvr_nbytes _ _ _ R); simpl; lia).
    apply Hset; [lia|done].
Qed.

Lemma write_back_view b q r rs n s : view b (rs ++ [r]) -> ref_wf q ->
  r_length q = r_length r - n -> 0 <= n ->
  exists b', write_back b q n s = Ok b' s /\ view b' (rs ++ [q]).
Proof.
  intros V Hq Hl Hn. pose proof V as (Hf & Ht & _).
  assert (Forall ref_wf (rs ++ [q]) /\ total (rs ++ [q]) < 2 ^ 30) as [Hf' Ht'].
  { apply Forall_app in Hf as [Hf _]. split; [apply Forall_app; by rewrite Forall_singleton|].
    rewrite total_app in *. simpl in *. lia. }
  unfold write_back. destruct b as [r0 r1|bv].
  - exec (as_view_small r0 r1 _ s V). eexists; split; [reflexivity|].
    destruct (view_sv_inv _ _ _ V) as [(E1 & -> & ->)|[(E1 & -> & E)|(E1 & E & E')]].
    + by destruct rs.
    + rewrite <- (app_nil_l [r0]) in E1. apply app_inj_tail in E1 as [-> ->]. done.
    + change [r0; r1] with ([r0] ++ [r1]) in E1. apply app_inj_tail in E1 as [-> ->]. by rewrite E'.
  - destruct V as (_ & _ & k & R). mstep. eexists; split; [reflexivity|]. split_and!; [done..|].
    exists k. pose proof (bv_repr_set bv (rs ++ [r]) k (List.length rs + 0) q (total (rs ++ [q])) R) as Hset.
    rewrite insert_app_r in Hset. simpl in Hset. rewrite Nat.add_0_r in Hset.
    pose proof (bvr_le _ _ _ R). pose proof (bvr_nref _ _ _ R). pose proof (pow_bounds k (bvr_k _ _ _ R)).
    rewrite zlen_app, zlen_cons, zlen_nil in *.
    replace (u32 (bv_nref bv - 1)) with (Z.of_nat (List.length rs))
      by (rewrite u32_small; unfold is_u32, zlen in *; lia).
    rewrite (ring_index_mod _ _ k) by (try done; unfold zlen in *; lia).
    replace (bv_nbytes bv - n) with (total (rs ++ [q]))
      by (rewrite (bvr_nbytes _ _ _ R), !total_app; simpl; lia).
    apply Hset; [rewrite length_app; simpl; lia|done].
Qed.

End updates.
