(* ===== verification/IOBufHeap.v ===== *)
(** * IOBuf: shared blocks and reference counts

    The invariant of the block heap relative to the list of every reference
    that exists in the program (those of all IOBufs, of the thread-local block
    chain and of streams): each block is counted exactly, so a block is in the
    heap if and only if something refers to it.  [inc_ref] and [dec_ref] are
    specified against this invariant; the operations of IOBuf build on them. *)
From S2P Require Import Prelude IOBuf.
Local Open Scope Z_scope.

(** Number of references to block [a] among [rs]. *)
Definition occ (a : Z) (rs : list BlockRef) : Z :=
  foldr (fun r n => (if r_block r =? a then 1 else 0) + n) 0 rs.

Lemma occ_app a rs qs : occ a (rs ++ qs) = occ a rs + occ a qs.
Proof. unfold occ. induction rs as [|r rs IH]; simpl; lia. Qed.
Lemma occ_nonneg a rs : 0 <= occ a rs.
Proof. unfold occ. induction rs as [|r rs IH]; simpl; [lia|]. destruct (_ =? _); lia. Qed.
Lemma occ_cons a r rs : occ a (r :: rs) = (if r_block r =? a then 1 else 0) + occ a rs.
Proof. done. Qed.
Lemma occ_in r rs : r ∈ rs -> 1 <= occ (r_block r) rs.
Proof.
  intros Hin. apply list_elem_of_split in Hin as (x & y & ->).
  rewrite occ_app, occ_cons, Z.eqb_refl. pose proof (occ_nonneg (r_block r) x).
  pose proof (occ_nonneg (r_block r) y). lia.
Qed.
#[export] Instance occ_perm a : Proper (Permutation ==> eq) (occ a).
Proof. induction 1; rewrite ?occ_cons; try lia; congruence. Qed.

Section heap.
Context {P : Type} `{AllocatorLaws P}.
Implicit Types (s : St P) (r : BlockRef) (rs F : list BlockRef).

Definition count_of s (a : Z) : Z :=
  match heap s !! a with Some b => nshared b | None => 0 end.

Definition block_ok s (a : Z) (b : Block) : Prop :=
  a <> NULL /\ 1 <= nshared b /\ abi_check b = 0 /\ 0 <= b_size b <= b_cap b /\ b_cap b < 2 ^ 31 /\
  zlen (bytes b) = b_cap b /\
  (if is_user b then a ∈ sys_live (pool s) else a ∈ pool_live (pool s)).

Definition ref_ok s r : Prop := exists b, heap s !! r_block r = Some b /\
  0 <= r_offset r /\ 0 <= r_length r /\ r_offset r + r_length r <= b_size b.

Record inv s rs : Prop := mk_inv {
  inv_count : forall a, count_of s a = occ a rs;
  inv_blocks : forall a b, heap s !! a = Some b -> block_ok s a b;
  inv_refs : Forall (ref_ok s) rs
}.

(** The bytes a reference denotes. *)
Definition ref_bytes s r : list Z :=
  match heap s !! r_block r with
  | Some b => slice (r_offset r) (r_length r) (bytes b)
  | None => []
  end.
Definition contents s rs : list Z := concat (map (ref_bytes s) rs).

(** What a step leaves alone for the holders of [rs]. *)
Definition meta s (a : Z) : option (Z * Z * Z) :=
  (fun b => (u b, flags b, b_cap b)) <$> heap s !! a.
Definition frame s s' rs : Prop :=
  tls s' = tls s /\
  Forall (fun r => ref_bytes s' r = ref_bytes s r /\ meta s' (r_block r) = meta s (r_block r)) rs.

#[export] Instance inv_perm s : Proper (Permutation ==> iff) (inv s).
Proof.
  intros rs qs Hp. split; intros [Hc Hb Hr]; constructor; try done.
  - intros a. by rewrite <- Hp.
  - by rewrite <- Hp.
  - intros a. by rewrite Hp.
  - by rewrite Hp.
Qed.

Lemma frame_refl s rs : frame s s rs.
Proof. split; [done|]. by apply Forall_true. Qed.
Lemma frame_trans s1 s2 s3 rs : frame s1 s2 rs -> frame s2 s3 rs -> frame s1 s3 rs.
Proof.
  intros [E1 F1] [E2 F2]. split; [congruence|].
  rewrite Forall_forall in *. intros r Hr.
  destruct (F1 r Hr), (F2 r Hr). split; congruence.
Qed.
Lemma frame_app s s' rs qs : frame s s' (rs ++ qs) <-> frame s s' rs /\ frame s s' qs.
Proof. unfold frame. rewrite Forall_app. tauto. Qed.
Lemma frame_sub s s' rs qs : qs ⊆ rs -> frame s s' rs -> frame s s' qs.
Proof. intros Hs [E F]. split; [done|]. rewrite Forall_forall in *. auto. Qed.

Lemma frame_contents s s' rs : frame s s' rs -> contents s' rs = contents s rs.
Proof.
  intros [_ F]. unfold contents. induction F as [|r rs [E _] _ IH]; simpl; [done|].
  by rewrite E, IH.
Qed.

Lemma contents_app s rs qs : contents s (rs ++ qs) = contents s rs ++ contents s qs.
Proof. unfold contents. by rewrite map_app, concat_app. Qed.
Lemma contents_cons s r rs : contents s (r :: rs) = ref_bytes s r ++ contents s rs.
Proof. done. Qed.
Lemma contents_nil s : contents s [] = [].
Proof. done. Qed.

Lemma inv_ref s rs r : inv s rs -> r ∈ rs -> ref_ok s r.
Proof. intros I Hin. pose proof (inv_refs _ _ I) as Hf. rewrite Forall_forall in Hf. auto. Qed.

Lemma zlen_ref_bytes s rs r : inv s rs -> r ∈ rs -> zlen (ref_bytes s r) = r_length r.
Proof.
  intros I Hin. destruct (inv_ref s rs r I Hin) as (b & E & ? & ? & ?).
  pose proof (inv_blocks _ _ I _ _ E) as (_ & _ & _ & ? & _ & Hz & _).
  unfold ref_bytes. rewrite E. apply zlen_slice; lia.
Qed.

Lemma zlen_contents s rs qs : inv s rs -> qs ⊆ rs -> zlen (contents s qs) = total qs.
Proof.
  intros I. induction qs as [|r qs IH]; intros Hs; [done|].
  rewrite contents_cons, zlen_app, (zlen_ref_bytes s rs r), IH; set_solver.
Qed.

(** *** Counting *)

Lemma heap_insert_frame s a b b' rs :
  heap s !! a = Some b -> bytes b' = bytes b -> u b' = u b -> flags b' = flags b -> b_cap b' = b_cap b ->
  frame s (set_heap (<[a := b']> (heap s)) s) rs.
Proof.
  intros E Hby Hu Hf Hc. split; [done|]. apply Forall_true. intros r.
  unfold ref_bytes, meta. simpl. destruct (decide (r_block r = a)) as [->|Hne].
  - rewrite lookup_insert_eq, E. simpl. by rewrite Hby, Hu, Hf, Hc.
  - by rewrite lookup_insert_ne.
Qed.

(** A change of one block that keeps its range and identity keeps every
    reference valid. *)
Lemma ref_ok_insert s a b b' r :
  heap s !! a = Some b -> b_size b <= b_size b' -> ref_ok s r ->
  ref_ok (set_heap (<[a := b']> (heap s)) s) r.
Proof.
  intros E Hle (c & Ec & Hq). unfold ref_ok. simpl.
  destruct (decide (r_block r = a)) as [Eq|Hne].
  - rewrite Eq in *. rewrite lookup_insert_eq. eexists; split; [done|]. simplify_eq. lia.
  - rewrite lookup_insert_ne by done. eauto.
Qed.

(** The invariant after block [a], held by [rs], is stored with a count [n]
    matching the references [qs]. *)
Lemma inv_insert s a b b' rs qs :
  inv s rs -> heap s !! a = Some b -> b_size b <= b_size b' ->
  block_ok s a b' ->
  (forall x, occ x qs = occ x rs + (if a =? x then nshared b' - nshared b else 0)) ->
  Forall (ref_ok (set_heap (<[a := b']> (heap s)) s)) qs ->
  inv (set_heap (<[a := b']> (heap s)) s) qs.
Proof.
  intros I E Hsz Hok Hocc Hrefs. constructor; [| |done].
  - intros x. rewrite Hocc, <- (inv_count _ _ I). unfold count_of. simpl.
    destruct (Z.eqb_spec a x) as [<-|Hne].
    + rewrite lookup_insert_eq, E. lia.
    + rewrite lookup_insert_ne by done. lia.
  - intros x c. simpl. destruct (decide (a = x)) as [<-|Hne].
    + rewrite lookup_insert_eq. by intros [= <-].
    + rewrite lookup_insert_ne by done. apply (inv_blocks _ _ I).
Qed.

Lemma inc_ref_spec s rs r : inv s rs -> ref_ok s r ->
  exists s', inc_ref (r_block r) s = Ok tt s' /\ inv s' (r :: rs) /\ frame s s' (r :: rs).
Proof.
  intros I Hr. pose proof Hr as (b & E & Hrb).
  pose proof (inv_blocks _ _ I _ _ E) as (Hnz & Hn & Habi & Hsz & Hcap & Hz & Hlive).
  unfold inc_ref, load_block, store_block. mstep. rewrite E. simpl. rewrite Habi. simpl.
  eexists; split; [reflexivity|]. split; [|by apply (heap_insert_frame s _ b)].
  apply (inv_insert s _ b _ rs); try done.
  - unfold block_ok, is_user in *. simpl. split_and!; try done; lia.
  - intros x. rewrite occ_cons. simpl. destruct (_ =? _); lia.
  - apply Forall_cons. split.
    + by apply (ref_ok_insert s _ b).
    + eapply Forall_impl; [apply (inv_refs _ _ I)|]. intros q. by apply (ref_ok_insert s _ b).
Qed.

(** Releasing the last reference removes the block and nothing else. *)
Lemma inv_delete s a b rs p' dl :
  (forall x, count_of s x = occ x rs + (if a =? x then 1 else 0)) ->
  (forall x c, heap s !! x = Some c -> block_ok s x c) -> Forall (ref_ok s) rs ->
  heap s !! a = Some b -> occ a rs = 0 ->
  (forall x c, x <> a -> block_ok s x c -> block_ok (mkSt (heap s) (tls s) p' dl) x c) ->
  inv (mkSt (delete a (heap s)) (tls s) p' dl) rs /\
  frame s (mkSt (delete a (heap s)) (tls s) p' dl) rs.
Proof.
  intros Hc Hb Hr E Hz Hlive.
  assert (forall r, r ∈ rs -> r_block r <> a) as Hne.
  { intros r Hin Heq. pose proof (occ_in r rs Hin). rewrite Heq in *. lia. }
  split; [constructor|split; [done|]].
  - intros x. pose proof (Hc x) as Hx. unfold count_of in *. simpl.
    destruct (Z.eqb_spec a x) as [Hax|Hn].
    + rewrite <- Hax, lookup_delete_eq. lia.
    + rewrite lookup_delete_ne by done. lia.
  - intros x c. simpl. rewrite lookup_delete_Some. intros [Hn Ec].
    apply (Hlive x c); auto.
  - rewrite Forall_forall in *. intros r Hin. destruct (Hr r Hin) as (c & Ec & Hq).
    exists c. simpl. rewrite lookup_delete_ne by (symmetry; by apply Hne). done.
  - rewrite Forall_forall. intros r Hin. unfold ref_bytes, meta. simpl.
    by rewrite lookup_delete_ne by (symmetry; by apply Hne).
Qed.

Lemma dec_ref_spec s rs r : inv s (r :: rs) ->
  exists s', dec_ref (r_block r) s = Ok tt s' /\ inv s' rs /\ frame s s' rs.
Proof.
  intros I. pose proof (inv_refs _ _ I) as Hrefs. apply Forall_cons in Hrefs as [(b & E & Hrb) Hrs].
  pose proof (inv_blocks _ _ I _ _ E) as (Hnz & Hn & Habi & Hsz & Hcap & Hz & Hlive).
  pose proof (inv_count _ _ I (r_block r)) as Hcnt. unfold count_of in Hcnt.
  rewrite E, occ_cons, Z.eqb_refl in Hcnt.
  unfold dec_ref, load_block, store_block. mstep. rewrite E. simpl. rewrite Habi. simpl.
  destruct (Z.eqb_spec (nshared b) 1) as [H1|H1].
  - destruct (is_user b) eqn:Hu.
    1: pose proof (free_live _ _ Hlive) as [Hl1 Hl2].
    2: pose proof (pool_free_live _ _ Hlive) as [Hl1 Hl2].
    all: eexists; split; [reflexivity|]; simpl; rewrite delete_insert_eq;
      apply (inv_delete s _ b); try done; try lia; try apply (inv_blocks _ _ I).
    1, 3: intros x; rewrite (inv_count _ _ I), occ_cons; lia.
    all: intros x c Hx (? & ? & ? & ? & ? & ? & Hl); split_and!; try done; try lia; simpl;
      rewrite Hl1, Hl2; destruct (is_user c); try done;
      apply elem_of_difference; (split; [done|]); by rewrite elem_of_singleton.
  - eexists; split; [reflexivity|]. split; [|by apply (heap_insert_frame s _ b)].
    apply (inv_insert s _ b _ (r :: rs)); try done.
    + unfold block_ok, is_user in *. simpl. split_and!; try done; lia.
    + intros x. rewrite occ_cons. simpl. destruct (_ =? _); lia.
    + eapply Forall_impl; [apply Hrs|]. intros q. by apply (ref_ok_insert s _ b).
Qed.

(** *** Sub-ranges of a reference *)
Definition drop_ref (n : Z) r : BlockRef := mkRef (r_offset r + n) (r_length r - n) (r_block r).
Definition take_ref (n : Z) r : BlockRef := mkRef (r_offset r) n (r_block r).

Lemma inv_replace s r q rs : inv s (r :: rs) -> r_block q = r_block r -> ref_ok s q -> inv s (q :: rs).
Proof.
  intros [Hc Hb Hr] E Hq. constructor; [|done|].
  - intros a. rewrite Hc, !occ_cons. by rewrite E.
  - apply Forall_cons in Hr as [_ Hr]. by apply Forall_cons.
Qed.

Lemma ref_ok_drop s r n : ref_ok s r -> 0 <= n <= r_length r -> ref_ok s (drop_ref n r).
Proof. intros (b & E & ?) ?. exists b. simpl. split; [done|lia]. Qed.
Lemma ref_ok_take s r n : ref_ok s r -> 0 <= n <= r_length r -> ref_ok s (take_ref n r).
Proof. intros (b & E & ?) ?. exists b. simpl. split; [done|lia]. Qed.
Lemma ref_bytes_drop s r n : ref_ok s r -> 0 <= n <= r_length r ->
  ref_bytes s (drop_ref n r) = drop (Z.to_nat n) (ref_bytes s r).
Proof.
  intros (b & E & ? & ? & ?) ?. unfold ref_bytes. simpl. rewrite E.
  by rewrite drop_slice by lia.
Qed.
Lemma ref_bytes_take s r n : ref_ok s r -> 0 <= n <= r_length r ->
  ref_bytes s (take_ref n r) = take (Z.to_nat n) (ref_bytes s r).
Proof.
  intros (b & E & ? & ? & ?) ?. unfold ref_bytes. simpl. rewrite E.
  by rewrite take_slice by lia.
Qed.
Lemma ref_bytes_merge s q r : ref_ok s q -> ref_ok s r -> r_block q = r_block r ->
  r_offset q + r_length q = r_offset r ->
  ref_bytes s (mkRef (r_offset q) (r_length q + r_length r) (r_block q)) = ref_bytes s q ++ ref_bytes s r.
Proof.
  intros (b & E & ? & ? & ?) (c & Ec & ? & ? & ?) Eb Eo. unfold ref_bytes. simpl.
  rewrite <- Eb in *. simplify_eq. rewrite E, <- Eo. by rewrite slice_app by lia.
Qed.
Lemma ref_wf_drop r n : ref_wf r -> 0 <= n < r_length r -> ref_wf (drop_ref n r).
Proof. unfold ref_wf. simpl. lia. Qed.
Lemma ref_wf_take r n : ref_wf r -> 0 < n <= r_length r -> ref_wf (take_ref n r).
Proof. unfold ref_wf. simpl. lia. Qed.

(** *** Pushing references *)
Lemma merges_inv rs r : Forall ref_wf rs -> ref_wf r -> merges rs r = true ->
  exists rs' q, rs = rs' ++ [q] /\ mergeable q r = true /\ r_block q = r_block r /\
    r_offset q + r_length q = r_offset r /\
    push_refs rs r = rs' ++ [mkRef (r_offset q) (r_length q + r_length r) (r_block q)].
Proof.
  intros Hf Hr. unfold merges. destruct (last rs) as [q|] eqn:Hq; [|done]. intros Hm.
  apply last_Some in Hq as [rs' ->]. apply Forall_app in Hf as [_ Hq]. rewrite Forall_singleton in Hq.
  exists rs', q. rewrite push_refs_snoc, Hm. destruct (merge_wf q r Hq Hr Hm) as [-> _].
  unfold mergeable in Hm. apply andb_true_iff in Hm as [->%Z.eqb_eq E%Z.eqb_eq].
  rewrite u32_small in E by (unfold is_u32, ref_wf in *; lia). done.
Qed.

Lemma push_merged s rs r F : Forall ref_wf rs -> ref_wf r -> inv s (rs ++ F) -> ref_ok s r ->
  merges rs r = true ->
  inv s (push_refs rs r ++ F) /\ contents s (push_refs rs r) = contents s rs ++ ref_bytes s r.
Proof.
  intros Hf Hr I Hor Hm. destruct (merges_inv rs r Hf Hr Hm) as (rs' & q & -> & _ & Eb & Eo & ->).
  pose proof (inv_ref s _ q I ltac:(set_solver)) as Hoq. split.
  - rewrite perm_snoc_head in *. apply (inv_replace s q); [done..|].
    destruct Hor as (b & E & ?), Hoq as (c & Ec & ?). exists c. simpl.
    rewrite Eb in *. simplify_eq. split; [done|]. lia.
  - rewrite !contents_app, !contents_cons, !contents_nil, !app_nil_r.
    rewrite (ref_bytes_merge s q r) by done. by rewrite (assoc (++)).
Qed.

Lemma push_unmerged rs r : merges rs r = false -> push_refs rs r = rs ++ [r].
Proof. unfold push_refs, merges. destruct (last rs) as [q|]; [by intros ->|done]. Qed.

Lemma push_view MOVE b rs r s : view b rs -> ref_wf r -> total rs + r_length r < 2 ^ 30 ->
  exists b', view b' (push_refs rs r) /\
    push_or_move_back_ref MOVE b r s = (let! _ := count_push MOVE (merges rs r) r in ret b') s.
Proof.
  intros V Hr Ht. unfold push_or_move_back_ref. destruct b as [r0 r1|bv].
  - exec (as_view_small r0 r1 rs s V). by apply push_small.
  - destruct V as (Hf & _ & k & R). unfold as_view. rewrite (bind_ok _ _ s (inr bv) s) by done.
    by apply (push_big _ _ _ k).
Qed.

(** Sharing a block: the pushed reference is counted. *)
Lemma push_back_ref_spec s b rs r F : view b rs -> inv s (rs ++ F) -> ref_ok s r -> ref_wf r ->
  total rs + r_length r < 2 ^ 30 ->
  exists b' s', _push_back_ref b r s = Ok b' s' /\ view b' (push_refs rs r) /\
    inv s' (push_refs rs r ++ F) /\ frame s s' (r :: rs ++ F) /\
    contents s' (push_refs rs r) = contents s rs ++ ref_bytes s r.
Proof.
  intros V I Hor Hr Ht. pose proof V as (Hf & _ & _).
  destruct (push_view false b rs r s V Hr Ht) as (b' & V' & E).
  unfold _push_back_ref. rewrite E. unfold count_push. destruct (merges rs r) eqn:Hm; simpl.
  - destruct (push_merged s rs r F Hf Hr I Hor Hm) as [I' Hc].
    exists b', s. split_and!; try done. apply frame_refl.
  - destruct (inc_ref_spec s (rs ++ F) r I Hor) as (s' & Ei & I' & Fr). exec Ei.
    exists b', s'. rewrite (push_unmerged rs r Hm) in *. split_and!; try done.
    + by rewrite perm_snoc_head.
    + rewrite contents_app, contents_cons, contents_nil, app_nil_r.
      pose proof Fr as [_ Fr']. apply Forall_cons in Fr' as [[-> _] _]. f_equal.
      apply frame_contents. eapply frame_sub; [|done]. set_solver.
Qed.

(** Moving a reference: its count is handed over, or released on a merge. *)
Lemma move_back_ref_spec s b rs r F : view b rs -> inv s (r :: rs ++ F) -> ref_wf r ->
  total rs + r_length r < 2 ^ 30 ->
  exists b' s', _move_back_ref b r s = Ok b' s' /\ view b' (push_refs rs r) /\
    inv s' (push_refs rs r ++ F) /\ frame s s' (rs ++ F) /\
    contents s' (push_refs rs r) = contents s rs ++ ref_bytes s r.
Proof.
  intros V I Hr Ht. pose proof V as (Hf & _ & _).
  pose proof (inv_ref s _ r I ltac:(by left)) as Hor.
  destruct (push_view true b rs r s V Hr Ht) as (b' & V' & E).
  unfold _move_back_ref. rewrite E. unfold count_push. destruct (merges rs r) eqn:Hm; simpl.
  - rewrite Permutation_middle in I.
    destruct (push_merged s rs r (r :: F) Hf Hr I Hor Hm) as [I' Hc].
    rewrite <- Permutation_middle in I'.
    destruct (dec_ref_spec s _ r I') as (s' & Ed & I2 & [Fr1 Fr2]%frame_app). exec Ed.
    exists b', s'. split_and!; try done; [|by rewrite (frame_contents _ _ _ Fr1)].
    apply frame_app. split; [|done].
    (* the references other than the merged one are untouched *)
    destruct (merges_inv rs r Hf Hr Hm) as (rs' & q & -> & _ & Eb & Eo & Ep).
    rewrite Ep in Fr1. apply frame_app in Fr1 as [Fr1 Fr3]. apply frame_app. split; [done|].
    destruct Fr3 as [Et Fr3]. rewrite Forall_singleton in Fr3. destruct Fr3 as [Eby Eme].
    split; [done|]. apply Forall_singleton. split; [|done].
    pose proof (inv_ref s _ q I ltac:(set_solver)) as Hoq.
    assert (ref_ok s' (mkRef (r_offset q) (r_length q + r_length r) (r_block q))) as Hok.
    { apply (inv_ref s' _ _ I2). rewrite Ep. set_solver. }
    assert (forall t, ref_ok t (mkRef (r_offset q) (r_length q + r_length r) (r_block q)) ->
      ref_bytes t q = take (Z.to_nat (r_length q))
        (ref_bytes t (mkRef (r_offset q) (r_length q + r_length r) (r_block q)))) as Htk.
    { intros t Ht'. rewrite <- ref_bytes_take; [by destruct q| done |].
      destruct Hoq as (? & _ & ? & ? & ?). destruct Hr as (_ & _ & ? & _). simpl. lia. }
    rewrite (Htk s'), (Htk s), Eby; try done.
    apply (inv_ref s _ _ I'). right. rewrite Ep. set_solver.
  - exists b', s. rewrite (push_unmerged rs r Hm) in *. split_and!; try done.
    + by rewrite perm_snoc_head.
    + apply frame_refl.
    + by rewrite contents_app, contents_cons, contents_nil, app_nil_r.
Qed.

End heap.
