(* ===== verification/IOBufOps.v ===== *)
(** * IOBuf: consuming and copying

    The operations of [src-common/fast_iobuf.cc] that remove, move or read
    bytes: [clear], [pop_front], [pop_back], [cutn] in its three forms,
    [copy_to], [cut1], [fetch1], [equals], copy construction and assignment.
    Every operation takes the IOBuf it is called on and returns the IOBuf after
    the call; arguments passed by pointer are distinct objects.  Each is proved
    against the byte string the references denote. *)
From S2P Require Import Prelude IOBuf IOBufHeap.
Local Open Scope Z_scope.

Section code.
Context {P : Type} `{Allocator P}.
Abbreviation MS := (M (St P)).

(** [memcpy] out of a block: reading past its memory is undefined. *)
Definition read_block (a off n : Z) : MS (list Z) :=
  let! b := load_block a in
  if (0 <=? off) && (0 <=? n) && (off + n <=? zlen (bytes b))
  then ret (slice off n (bytes b)) else undef.

Definition set_offset_length (r : BlockRef) (n : Z) : BlockRef :=
  mkRef (u32 (r_offset r + n)) (u32 (r_length r - n)) (r_block r).
Definition set_length (r : BlockRef) (n : Z) : BlockRef :=
  mkRef (r_offset r) (u32 (r_length r - n)) (r_block r).

Fixpoint dec_all (n : nat) (i : Z) (bv : BigView) : MS unit :=
  match n with
  | O => ret tt
  | S n' => let! r := bv_ref_at bv i in
            let! _ := dec_ref (r_block r) in
            dec_all n' (i + 1) bv
  end.

Definition clear (b : IOBuf) : MS IOBuf :=
  let! v := as_view b in
  match v with
  | inl (r0, r1) =>
      if negb (is_null r0) then
        let! _ := dec_ref (r_block r0) in
        if negb (is_null r1) then
          let! _ := dec_ref (r_block r1) in ret (SV null_ref null_ref)
        else ret (SV null_ref r1)
      else ret b
  | inr bv =>
      let! _ := dec_all (Z.to_nat (bv_nref bv)) 0 bv in ret new_IOBuf
  end.

(** The loops below consume at least one byte per turn, so [n + 1] turns are
    enough fuel. *)
Fixpoint pop_front_loop (fuel : nat) (b : IOBuf) (n saved_n : Z) : MS (Z * IOBuf) :=
  match fuel with
  | O => nofuel
  | S f =>
      if n =? 0 then ret (saved_n, b) else
      let! r := _front_ref b in
      if n <? r_length r then
        let! b' := write_front b (set_offset_length r n) n in ret (saved_n, b')
      else
        let! rb := _pop_front_ref b in
        pop_front_loop f (snd rb) (n - r_length r) saved_n
  end.
Definition pop_front (b : IOBuf) (n : Z) : MS (Z * IOBuf) :=
  let! len := IOBuf_length b in
  if len <=? n then let! b' := clear b in ret (len, b')
  else pop_front_loop (S (Z.to_nat n)) b n n.

Fixpoint pop_back_loop (fuel : nat) (b : IOBuf) (n saved_n : Z) : MS (Z * IOBuf) :=
  match fuel with
  | O => nofuel
  | S f =>
      if n =? 0 then ret (saved_n, b) else
      let! r := _back_ref b in
      if n <? r_length r then
        let! b' := write_back b (set_length r n) n in ret (saved_n, b')
      else
        let! rb := _pop_back_ref b in
        pop_back_loop f (snd rb) (n - r_length r) saved_n
  end.
Definition pop_back (b : IOBuf) (n : Z) : MS (Z * IOBuf) :=
  let! len := IOBuf_length b in
  if len <=? n then let! b' := clear b in ret (len, b')
  else pop_back_loop (S (Z.to_nat n)) b n n.

(** [cutn(IOBuf* out, n)]: the result is the count, this IOBuf and [out]. *)
Fixpoint cutn_loop (fuel : nat) (b out : IOBuf) (n saved_n : Z) : MS (Z * IOBuf * IOBuf) :=
  match fuel with
  | O => nofuel
  | S f =>
      if n =? 0 then ret (saved_n, b, out) else
      let! r := _front_ref b in
      if r_length r <=? n then
        let! out' := _move_back_ref out r in
        let! rb := _moveout_front_ref b in
        cutn_loop f (snd rb) out' (n - r_length r) saved_n
      else
        let! out' := _push_back_ref out (mkRef (r_offset r) (u32 n) (r_block r)) in
        let! b' := write_front b (set_offset_length r n) n in
        ret (saved_n, b', out')
  end.
Definition cutn (b out : IOBuf) (n : Z) : MS (Z * IOBuf * IOBuf) :=
  let! len := IOBuf_length b in
  let n := if len <? n then len else n in
  cutn_loop (S (Z.to_nat n)) b out n n.

(** [cutn(void* out, n)]: the bytes written to [out] are returned. *)
Fixpoint cutn_raw_loop (fuel : nat) (b : IOBuf) (n saved_n : Z) (out : list Z) : MS (Z * IOBuf * list Z) :=
  match fuel with
  | O => nofuel
  | S f =>
      if n =? 0 then ret (saved_n, b, out) else
      let! r := _front_ref b in
      if r_length r <=? n then
        let! bs := read_block (r_block r) (r_offset r) (r_length r) in
        let! rb := _pop_front_ref b in
        cutn_raw_loop f (snd rb) (n - r_length r) saved_n (out ++ bs)
      else
        let! bs := read_block (r_block r) (r_offset r) n in
        let! b' := write_front b (set_offset_length r n) n in
        ret (saved_n, b', out ++ bs)
  end.
Definition cutn_raw (b : IOBuf) (n : Z) : MS (Z * IOBuf * list Z) :=
  let! len := IOBuf_length b in
  let n := if len <? n then len else n in
  cutn_raw_loop (S (Z.to_nat n)) b n n [].

(** [cutn(std::string* out, n)] appends to the string. *)
Definition cutn_string (b : IOBuf) (out : list Z) (n : Z) : MS (Z * IOBuf * list Z) :=
  if n =? 0 then ret (0, b, out) else
  let! len := IOBuf_length b in
  let n := if len <? n then len else n in
  let! r := cutn_raw b n in
  ret (fst (fst r), snd (fst r), out ++ snd r).

(** [copy_to]: skip [pos] bytes, then copy. *)
Fixpoint copy_skip (fuel : nat) (b : IOBuf) (nref offset i : Z) : MS (Z * Z) :=
  match fuel with
  | O => nofuel
  | S f =>
      if negb (offset =? 0) && (i <? nref) then
        let! r := _ref_at b i in
        if offset <? r_length r then ret (offset, i)
        else copy_skip f b nref (offset - r_length r) (i + 1)
      else ret (offset, i)
  end.
Fixpoint copy_out (fuel : nat) (b : IOBuf) (nref offset i m : Z) (d : list Z) : MS (Z * list Z) :=
  match fuel with
  | O => nofuel
  | S f =>
      if negb (m =? 0) && (i <? nref) then
        let! r := _ref_at b i in
        let nc := Z.min m (u64 (r_length r - offset)) in
        let! bs := read_block (r_block r) (r_offset r + offset) nc in
        copy_out f b nref 0 (i + 1) (m - nc) (d ++ bs)
      else ret (m, d)
  end.
Definition copy_to (b : IOBuf) (n pos : Z) : MS (Z * list Z) :=
  let! nref := _ref_num b in
  let! oi := copy_skip (S (Z.to_nat nref)) b nref pos 0 in
  let! md := copy_out (S (Z.to_nat nref)) b nref (fst oi) (snd oi) n [] in
  ret (n - fst md, snd md).

Definition cut1 (b : IOBuf) : MS (option Z * IOBuf) :=
  let! e := IOBuf_empty b in
  if e then ret (None, b) else
  let! r := _front_ref b in
  let! c := read_block (r_block r) (r_offset r) 1 in
  let! c := deref (head c) in
  if 1 <? r_length r then
    let! b' := write_front b (set_offset_length r 1) 1 in ret (Some c, b')
  else
    let! rb := _pop_front_ref b in ret (Some c, snd rb).

(** [fetch1]: the address of the first byte, [NULL] when empty. *)
Definition fetch1 (b : IOBuf) : MS Z :=
  let! e := IOBuf_empty b in
  if negb e then
    let! r0 := _front_ref b in
    let! blk := load_block (r_block r0) in
    ret (data blk + r_offset r0)
  else ret NULL.

Definition swap (a b : IOBuf) : IOBuf * IOBuf := (b, a).

(** Copy construction shares every block. *)
Fixpoint share_refs (n : nat) (i : Z) (bv : BigView) (refs : list BlockRef) : MS (list BlockRef) :=
  match n with
  | O => ret refs
  | S n' => let! r := bv_ref_at bv i in
            let! _ := inc_ref (r_block r) in
            share_refs n' (i + 1) bv (<[Z.to_nat i := r]> refs)
  end.
Definition copy_IOBuf (rhs : IOBuf) : MS IOBuf :=
  let! v := as_view rhs in
  match v with
  | inl (r0, r1) =>
      let! _ := (if negb (is_null r0) then inc_ref (r_block r0) else ret tt) in
      let! _ := (if negb (is_null r1) then inc_ref (r_block r1) else ret tt) in
      ret (SV r0 r1)
  | inr bv =>
      let! refs := share_refs (Z.to_nat (bv_nref bv)) 0 bv (replicate (Z.to_nat (capacity bv)) null_ref) in
      ret (BV (mkBV 0 refs (bv_nref bv) (bv_cap_mask bv) (bv_nbytes bv)))
  end.

(** [operator=(const IOBuf&)] for distinct objects: the array of references is
    reused when both are big and of equal capacity. *)
Definition assign (b rhs : IOBuf) : MS IOBuf :=
  match b, rhs with
  | BV bv, BV rv =>
      if bv_cap_mask bv =? bv_cap_mask rv then
        let! _ := dec_all (Z.to_nat (bv_nref bv)) 0 bv in
        let! refs := share_refs (Z.to_nat (bv_nref rv)) 0 rv (bv_refs bv) in
        ret (BV (mkBV 0 refs (bv_nref rv) (bv_cap_mask bv) (bv_nbytes rv)))
      else let! _ := clear b in copy_IOBuf rhs
  | _, _ => let! _ := clear b in copy_IOBuf rhs
  end.

(** Move construction and assignment leave an empty IOBuf behind. *)
Definition move_IOBuf (rhs : IOBuf) : IOBuf * IOBuf := (rhs, new_IOBuf).
Definition assign_movable (b rhs : IOBuf) : MS (IOBuf * IOBuf) :=
  let! _ := clear b in ret (rhs, new_IOBuf).

End code.

(** ** Specifications

    [held s b rs F bs]: IOBuf [b] holds the references [rs] and denotes the
    bytes [bs]; [F] are all the other references that exist. *)
Section specs.
Context {P : Type} `{AllocatorLaws P}.
Implicit Types (s : St P) (b : IOBuf) (r : BlockRef) (rs F : list BlockRef) (bs : list Z).

Definition held s b rs F bs : Prop := view b rs /\ inv s (rs ++ F) /\ contents s rs = bs.

Lemma set_offset_length_drop r n : ref_wf r -> 0 <= n < r_length r -> set_offset_length r n = drop_ref n r.
Proof.
  unfold ref_wf, set_offset_length, drop_ref. intros. rewrite !u32_small by (unfold is_u32; lia). done.
Qed.
Lemma set_length_take r n : ref_wf r -> 0 <= n < r_length r -> set_length r n = take_ref (r_length r - n) r.
Proof.
  unfold ref_wf, set_length, take_ref. intros. rewrite !u32_small by (unfold is_u32; lia). done.
Qed.

Lemma read_block_spec s rs r n : inv s rs -> ref_ok s r -> 0 <= n <= r_length r ->
  read_block (r_block r) (r_offset r) n s = Ok (ref_bytes s (take_ref n r)) s.
Proof.
  intros I (b & E & ? & ? & ?) Hn. unfold read_block, load_block. mstep. rewrite E. simpl.
  pose proof (inv_blocks _ _ I _ _ E) as (_ & _ & _ & ? & _ & Hz & _).
  destruct (Z.leb_spec 0 (r_offset r)), (Z.leb_spec 0 n), (Z.leb_spec (r_offset r + n) (zlen (bytes b)));
    simpl; try lia. unfold ref_bytes. simpl. by rewrite E.
Qed.

Lemma view_total_pos b rs n : view b rs -> 0 < n <= total rs -> exists r rs', rs = r :: rs'.
Proof. intros _ Hn. destruct rs; [simpl in *; lia|eauto]. Qed.
Lemma view_ref_wf b r rs : view b (r :: rs) -> ref_wf r.
Proof. intros (Hf & _). by apply Forall_cons in Hf as [? _]. Qed.

(** Dropping or taking fewer bytes than the first reference denotes. *)
Lemma contents_drop_first s r rs F n : inv s ((r :: rs) ++ F) -> 0 <= n <= r_length r ->
  contents s (drop_ref n r :: rs) = drop (Z.to_nat n) (contents s (r :: rs)).
Proof.
  intros I Hn. pose proof (inv_ref s _ r I ltac:(by left)) as Hr.
  rewrite !contents_cons, ref_bytes_drop by done.
  pose proof (zlen_ref_bytes s _ r I ltac:(by left)) as Hz. unfold zlen in Hz.
  rewrite drop_app_le by lia. done.
Qed.
Lemma contents_take_first s r rs F n : inv s ((r :: rs) ++ F) -> 0 <= n <= r_length r ->
  ref_bytes s (take_ref n r) = take (Z.to_nat n) (contents s (r :: rs)).
Proof.
  intros I Hn. pose proof (inv_ref s _ r I ltac:(by left)) as Hr.
  rewrite contents_cons, ref_bytes_take by done.
  pose proof (zlen_ref_bytes s _ r I ltac:(by left)) as Hz. unfold zlen in Hz.
  rewrite take_app_le by lia. done.
Qed.
Lemma drop_first_ref s r rs F n : inv s ((r :: rs) ++ F) -> r_length r <= n ->
  drop (Z.to_nat n) (contents s (r :: rs)) = drop (Z.to_nat (n - r_length r)) (contents s rs).
Proof.
  intros I Hn. pose proof (zlen_ref_bytes s _ r I ltac:(by left)) as Hz. unfold zlen in Hz.
  rewrite contents_cons, drop_app_ge by lia. f_equal. lia.
Qed.
Lemma take_first_ref s r rs F n : inv s ((r :: rs) ++ F) -> r_length r <= n ->
  take (Z.to_nat n) (contents s (r :: rs)) = ref_bytes s r ++ take (Z.to_nat (n - r_length r)) (contents s rs).
Proof.
  intros I Hn. pose proof (zlen_ref_bytes s _ r I ltac:(by left)) as Hz. unfold zlen in Hz.
  rewrite contents_cons, take_app_ge by lia. do 2 f_equal. lia.
Qed.
Lemma take_ref_full r : take_ref (r_length r) r = r.
Proof. by destruct r. Qed.

(** *** One reference removed at the front *)
Lemma pop_front_ref_spec s b r rs F : view b (r :: rs) -> inv s ((r :: rs) ++ F) ->
  exists b' s', _pop_front_ref b s = Ok (0, b') s' /\ view b' rs /\ inv s' (rs ++ F) /\
    frame s s' (rs ++ F).
Proof.
  intros V I. destruct (pop_front_view false b r rs s V) as (b' & V' & E).
  destruct (dec_ref_spec s (rs ++ F) r I) as (s' & Ed & I' & Fr).
  exists b', s'. unfold _pop_front_ref. rewrite E. exec Ed. done.
Qed.
Lemma pop_back_ref_spec s b r rs F : view b (rs ++ [r]) -> inv s ((rs ++ [r]) ++ F) ->
  exists b' s', _pop_back_ref b s = Ok (0, b') s' /\ view b' rs /\ inv s' (rs ++ F) /\
    frame s s' (rs ++ F).
Proof.
  intros V I. destruct (pop_back_view b r rs s V) as (b' & V' & E).
  rewrite perm_snoc_head in I.
  destruct (dec_ref_spec s (rs ++ F) r I) as (s' & Ed & I' & Fr).
  exists b', s'. rewrite E. exec Ed. done.
Qed.
(** The first reference shortened by [n] bytes. *)
Lemma write_front_spec s b r rs F n : view b (r :: rs) -> inv s ((r :: rs) ++ F) -> 0 <= n < r_length r ->
  exists b', write_front b (set_offset_length r n) n s = Ok b' s /\ view b' (drop_ref n r :: rs) /\
    inv s ((drop_ref n r :: rs) ++ F) /\
    contents s (drop_ref n r :: rs) = drop (Z.to_nat n) (contents s (r :: rs)).
Proof.
  intros V I Hn. pose proof (view_ref_wf _ _ _ V) as Hr. rewrite set_offset_length_drop by done.
  destruct (write_front_view b (drop_ref n r) r rs n s V) as (b' & E & V'); try done.
  { by apply ref_wf_drop. }
  { lia. }
  exists b'. split_and!; try done.
  - apply (inv_replace s r); [done..|]. apply ref_ok_drop; [|lia]. apply (inv_ref s _ r I). by left.
  - apply (contents_drop_first s r rs F); [done|lia].
Qed.

Lemma pop_front_loop_spec fuel : forall s b rs F n saved_n,
  view b rs -> inv s (rs ++ F) -> 0 <= n <= total rs -> (Z.to_nat n < fuel)%nat ->
  exists b' rs' s', pop_front_loop fuel b n saved_n s = Ok (saved_n, b') s' /\
    held s' b' rs' F (drop (Z.to_nat n) (contents s rs)) /\ frame s s' F.
Proof.
  induction fuel as [|f IH]; intros s b rs F n saved_n V I Hn Hf; [lia|]. simpl.
  destruct (Z.eqb_spec n 0) as [->|Hnz].
  { exists b, rs, s. split_and!; try done. apply frame_refl. }
  destruct (view_total_pos b rs n V ltac:(lia)) as (r & rs' & ->).
  exec (_front_ref_spec b r rs' s V). destruct (Z.ltb_spec n (r_length r)).
  - destruct (write_front_spec s b r rs' F n V I ltac:(lia)) as (b' & E & V' & I' & Hc).
    exec E. exists b', (drop_ref n r :: rs'), s. split_and!; try done. apply frame_refl.
  - destruct (pop_front_ref_spec s b r rs' F V I) as (b1 & s1 & E & V1 & I1 & [Fr1 Fr2]%frame_app).
    exec E. simpl. pose proof (view_ref_wf _ _ _ V) as (_ & _ & Hl & _).
    destruct (IH s1 b1 rs' F (n - r_length r) saved_n) as (b2 & rs2 & s2 & E2 & Hh & Fr); try done.
    { simpl in Hn. lia. } { lia. }
    exists b2, rs2, s2. split_and!; try done.
    + rewrite (drop_first_ref s r rs' F n I) by lia. by rewrite <- (frame_contents _ _ _ Fr1).
    + by eapply frame_trans.
Qed.

(** *** clear *)
Lemma dec_all_spec bv rs k : bv_repr bv rs k -> forall todo d s F,
  rs = d ++ todo -> inv s (todo ++ F) ->
  exists s', dec_all (List.length todo) (zlen d) bv s = Ok tt s' /\ inv s' F /\ frame s s' F.
Proof.
  intros R todo. induction todo as [|r todo IH]; intros d s F Hrs I; simpl.
  - exists s. split_and!; try done. apply frame_refl.
  - exec (bv_ref_at_spec bv rs k (List.length d) r s R ltac:(rewrite Hrs; by apply list_lookup_middle)).
    destruct (dec_ref_spec s (todo ++ F) r I) as (s1 & E1 & I1 & [_ Fr1]%frame_app). exec E1.
    destruct (IH (d ++ [r]) s1 F) as (s2 & E2 & I2 & Fr2); try done.
    { by rewrite <- (assoc (++)). }
    rewrite zlen_app, zlen_cons, zlen_nil in E2. rewrite Z.add_0_r in E2.
    exists s2. split_and!; try done. by eapply frame_trans.
Qed.

Lemma iobuf_clear_spec s b rs F : view b rs -> inv s (rs ++ F) ->
  exists s', clear b s = Ok new_IOBuf s' /\ inv s' F /\ frame s s' F.
Proof.
  intros V I. unfold clear. destruct b as [r0 r1|bv].
  - exec (as_view_small r0 r1 rs s V).
    destruct (view_sv_inv _ _ _ V) as [(-> & -> & ->)|[(-> & -> & E)|(-> & E & E')]].
    + exists s. split_and!; try done. apply frame_refl.
    + rewrite E. simpl in *. destruct (dec_ref_spec s F r0 I) as (s1 & E1 & I1 & Fr1). exec E1.
      exists s1. done.
    + rewrite E, E'. simpl in *.
      destruct (dec_ref_spec s (r1 :: F) r0 I) as (s1 & E1 & I1 & Fr1). exec E1.
      destruct (dec_ref_spec s1 F r1 I1) as (s2 & E2 & I2 & Fr2). exec E2.
      exists s2. split_and!; try done. eapply frame_trans; [|done].
      eapply frame_sub; [|done]. set_solver.
  - destruct V as (_ & _ & k & R). unfold as_view. rewrite (bind_ok _ _ s (inr bv) s) by done.
    destruct (dec_all_spec bv rs k R rs [] s F eq_refl I) as (s1 & E1 & I1 & Fr1).
    rewrite (bvr_nref _ _ _ R). unfold zlen at 1. rewrite Nat2Z.id.
    change (zlen []) with 0 in E1. exec E1. exists s1. done.
Qed.

Lemma held_new s F : inv s F -> held s new_IOBuf [] F [].
Proof. intros I. split_and!; try done; simpl; lia. Qed.

Lemma held_length s b rs F bs : held s b rs F bs -> zlen bs = total rs.
Proof. intros (V & I & <-). apply (zlen_contents s (rs ++ F)); [done|]. set_solver. Qed.

Lemma pop_front_spec s b rs F bs n : held s b rs F bs -> 0 <= n ->
  exists b' rs' s', pop_front b n s = Ok (Z.min n (zlen bs), b') s' /\
    held s' b' rs' F (drop (Z.to_nat n) bs) /\ frame s s' F.
Proof.
  intros Hh Hn. pose proof (held_length _ _ _ _ _ Hh) as Hl. destruct Hh as (V & I & <-).
  unfold pop_front. exec (IOBuf_length_spec b rs s V). rewrite <- Hl.
  destruct (Z.leb_spec (zlen (contents s rs)) n).
  - destruct (iobuf_clear_spec s b rs F V I) as (s' & E & I' & Fr). exec E.
    exists new_IOBuf, [], s'. rewrite Z.min_r by lia. split_and!; try done.
    rewrite drop_ge by (unfold zlen in *; lia). by apply held_new.
  - rewrite Z.min_l by lia. apply pop_front_loop_spec; try done; lia.
Qed.

(** *** pop_back *)
Lemma contents_take_last s r rs F n : inv s ((rs ++ [r]) ++ F) -> 0 <= n <= r_length r ->
  contents s (rs ++ [take_ref (r_length r - n) r])
  = take (List.length (contents s (rs ++ [r])) - Z.to_nat n) (contents s (rs ++ [r])).
Proof.
  intros I Hn. pose proof (inv_ref s _ r I ltac:(set_solver)) as Hr.
  pose proof (zlen_ref_bytes s _ r I ltac:(set_solver)) as Hz. unfold zlen in Hz.
  rewrite !contents_app, !contents_cons, !contents_nil, !app_nil_r.
  rewrite ref_bytes_take by (try done; lia). rewrite length_app, take_app_ge by lia.
  do 2 f_equal. lia.
Qed.

Lemma pop_back_loop_spec fuel : forall s b rs F n saved_n,
  view b rs -> inv s (rs ++ F) -> 0 <= n <= total rs -> (Z.to_nat n < fuel)%nat ->
  exists b' rs' s', pop_back_loop fuel b n saved_n s = Ok (saved_n, b') s' /\
    held s' b' rs' F (take (List.length (contents s rs) - Z.to_nat n) (contents s rs)) /\ frame s s' F.
Proof.
  induction fuel as [|f IH]; intros s b rs F n saved_n V I Hn Hf; [lia|]. simpl.
  destruct (Z.eqb_spec n 0) as [->|Hnz].
  { exists b, rs, s. split; [done|]. split; [|apply frame_refl].
    unfold held. by rewrite Nat.sub_0_r, take_ge. }
  destruct rs as [|r rs' _] using rev_ind; [simpl in *; lia|].
  assert (ref_wf r) as Hwf.
  { destruct V as (Hfa & _). apply Forall_app in Hfa as [_ ?]. by rewrite <- Forall_singleton. }
  exec (_back_ref_spec b rs' r s V).
  pose proof (zlen_ref_bytes s _ r I ltac:(set_solver)) as Hz. unfold zlen in Hz.
  destruct (Z.ltb_spec n (r_length r)).
  - rewrite set_length_take by (try done; lia).
    destruct (write_back_view b (take_ref (r_length r - n) r) r rs' n s V) as (b' & E & V'); try done.
    { apply ref_wf_take; [done|lia]. } { lia. }
    exec E. eexists b', _, s. split; [done|]. split; [|apply frame_refl]. split; [done|]. split.
    + rewrite perm_snoc_head in *. apply (inv_replace s r); try done.
      apply ref_ok_take; [|lia]. apply (inv_ref s _ r I). by left.
    + apply (contents_take_last s r rs' F); [done|lia].
  - destruct (pop_back_ref_spec s b r rs' F V I) as (b1 & s1 & E & V1 & I1 & [Fr1 Fr2]%frame_app).
    exec E. simpl. pose proof Hwf as (_ & _ & Hl & _). rewrite total_app in Hn. simpl in Hn.
    destruct (IH s1 b1 rs' F (n - r_length r) saved_n) as (b2 & rs2 & s2 & E2 & Hh & Fr); try done; try lia.
    exists b2, rs2, s2. split; [done|]. split; [|by eapply frame_trans].
    rewrite (frame_contents _ _ _ Fr1) in Hh.
    rewrite contents_app, length_app, contents_cons, contents_nil, app_nil_r.
    rewrite take_app_le by lia.
    by replace (List.length (contents s rs') + List.length (ref_bytes s r) - Z.to_nat n)%nat
      with (List.length (contents s rs') - Z.to_nat (n - r_length r))%nat by lia.
Qed.

Lemma pop_back_spec s b rs F bs n : held s b rs F bs -> 0 <= n ->
  exists b' rs' s', pop_back b n s = Ok (Z.min n (zlen bs), b') s' /\
    held s' b' rs' F (take (List.length bs - Z.to_nat n) bs) /\ frame s s' F.
Proof.
  intros Hh Hn. pose proof (held_length _ _ _ _ _ Hh) as Hl. destruct Hh as (V & I & <-).
  unfold pop_back. exec (IOBuf_length_spec b rs s V). rewrite <- Hl.
  destruct (Z.leb_spec (zlen (contents s rs)) n).
  - destruct (iobuf_clear_spec s b rs F V I) as (s' & E & I' & Fr). exec E.
    exists new_IOBuf, [], s'. rewrite Z.min_r by lia. split_and!; try done.
    replace (_ - _)%nat with 0%nat by (unfold zlen in *; lia). by apply held_new.
  - rewrite Z.min_l by lia. apply pop_back_loop_spec; try done; lia.
Qed.

(** *** cutn into another IOBuf *)
Lemma moveout_front_spec s b r rs : view b (r :: rs) ->
  exists b', _moveout_front_ref b s = Ok (0, b') s /\ view b' rs.
Proof. intros V. destruct (pop_front_view true b r rs s V) as (b' & V' & E). exists b'. unfold _moveout_front_ref. by rewrite E. Qed.

Lemma cutn_loop_spec fuel : forall s b out rs qs F n saved_n,
  view b rs -> view out qs -> inv s (rs ++ qs ++ F) -> 0 <= n <= total rs ->
  total qs + n < 2 ^ 30 -> (Z.to_nat n < fuel)%nat ->
  exists b' out' rs' qs' s', cutn_loop fuel b out n saved_n s = Ok (saved_n, b', out') s' /\
    view b' rs' /\ view out' qs' /\ inv s' (rs' ++ qs' ++ F) /\ frame s s' F /\
    contents s' rs' = drop (Z.to_nat n) (contents s rs) /\
    contents s' qs' = contents s qs ++ take (Z.to_nat n) (contents s rs).
Proof.
  induction fuel as [|f IH]; intros s b out rs qs F n saved_n V Vo I Hn Hq Hf; [lia|]. simpl.
  destruct (Z.eqb_spec n 0) as [->|Hnz].
  { exists b, out, rs, qs, s. split_and!; try done; [apply frame_refl|]. by rewrite app_nil_r. }
  destruct (view_total_pos b rs n V ltac:(lia)) as (r & rs' & ->).
  pose proof (view_ref_wf _ _ _ V) as Hwf. pose proof Hwf as (_ & Ho & Hl & Hu).
  assert (r :: rs' ++ qs ++ F ≡ₚ r :: qs ++ rs' ++ F) as Hp.
  { by rewrite !(assoc (++)), (comm (++) rs' qs). }
  exec (_front_ref_spec b r rs' s V). destruct (Z.leb_spec (r_length r) n).
  - simpl in Hn. pose proof I as I0. simpl in I. rewrite Hp in I.
    destruct (move_back_ref_spec s out qs r (rs' ++ F) Vo I Hwf) as (o1 & s1 & E1 & Vo1 & I1 & Fr1 & Hc1); [lia|].
    exec E1. destruct (moveout_front_spec s1 b r rs' V) as (b1 & E2 & V1). exec E2. simpl.
    rewrite !frame_app in Fr1. destruct Fr1 as (_ & Frr & FrF).
    assert (Forall ref_wf qs) as Hfq by apply Vo.
    destruct (push_refs_wf qs r Hfq Hwf) as [_ Ht1].
    destruct (IH s1 b1 o1 rs' (push_refs qs r) F (n - r_length r) saved_n)
      as (b2 & o2 & rs2 & qs2 & s2 & E & V2 & Vo2 & I2 & Fr2 & Hc2 & Hd2); try done; try lia.
    { by rewrite !(assoc (++)), (comm (++) rs'), <- (assoc (++)). }
    exists b2, o2, rs2, qs2, s2. split_and!; try done.
    + by eapply frame_trans.
    + rewrite Hc2, (frame_contents _ _ _ Frr). by rewrite (drop_first_ref s r rs' (qs ++ F)) by done.
    + rewrite Hd2, Hc1, (frame_contents _ _ _ Frr).
      rewrite (take_first_ref s r rs' (qs ++ F)) by done. by rewrite (assoc (++)).
  - replace (mkRef (r_offset r) (u32 n) (r_block r)) with (take_ref n r)
      by (unfold take_ref; rewrite u32_small by (unfold is_u32; lia); done).
    pose proof (inv_ref s _ r I ltac:(by left)) as Hor.
    pose proof I as I0. simpl in I. rewrite Hp, Permutation_middle in I.
    destruct (push_back_ref_spec s out qs (take_ref n r) (r :: rs' ++ F) Vo I)
      as (o1 & s1 & E1 & Vo1 & I1 & [Fr0 Fr1]%(frame_app _ _ [_]) & Hc1).
    { apply ref_ok_take; [done|lia]. } { apply ref_wf_take; [done|lia]. } { simpl. lia. }
    exec E1. apply frame_app in Fr1 as [_ Fr1].
    change (r :: rs' ++ F) with ((r :: rs') ++ F) in *. apply frame_app in Fr1 as [Frr FrF].
    rewrite !(assoc (++)), (comm (++) _ (r :: rs')), <- (assoc (++)) in I1.
    destruct (write_front_spec s1 b r rs' _ n V I1 ltac:(lia)) as (b' & E & V' & I' & Hc'). exec E.
    exists b', o1, (drop_ref n r :: rs'), (push_refs qs (take_ref n r)), s1. split_and!; try done.
    + rewrite Hc'. by rewrite (frame_contents _ _ _ Frr).
    + rewrite Hc1. f_equal. apply (contents_take_first s r rs' (qs ++ F)); [done|lia].
Qed.

Lemma cutn_spec s b out rs qs F n : view b rs -> view out qs -> inv s (rs ++ qs ++ F) -> 0 <= n ->
  total qs + Z.min n (total rs) < 2 ^ 30 ->
  exists b' out' rs' qs' s', cutn b out n s = Ok (Z.min n (total rs), b', out') s' /\
    view b' rs' /\ view out' qs' /\ inv s' (rs' ++ qs' ++ F) /\ frame s s' F /\
    contents s' rs' = drop (Z.to_nat n) (contents s rs) /\
    contents s' qs' = contents s qs ++ take (Z.to_nat n) (contents s rs).
Proof.
  intros V Vo I Hn Ht. pose proof (total_nonneg rs ltac:(apply V)).
  pose proof (zlen_contents s (rs ++ qs ++ F) rs I ltac:(set_solver)) as Hz. unfold zlen in Hz.
  unfold cutn. exec (IOBuf_length_spec b rs s V).
  destruct (Z.ltb_spec (total rs) n).
  - rewrite Z.min_r in * by lia.
    destruct (cutn_loop_spec (S (Z.to_nat (total rs))) s b out rs qs F (total rs) (total rs))
      as (b' & o' & rs' & qs' & s' & E & ? & ? & ? & ? & Hc & Hd); try done; try lia.
    exists b', o', rs', qs', s'. split_and!; try done.
    + rewrite Hc, !drop_ge by lia. done.
    + rewrite Hd, !take_ge by lia. done.
  - rewrite Z.min_l in * by lia. apply cutn_loop_spec; try done; lia.
Qed.

(** *** cutn into raw memory *)
Lemma cutn_raw_loop_spec fuel : forall s b rs F n saved_n out,
  view b rs -> inv s (rs ++ F) -> 0 <= n <= total rs -> (Z.to_nat n < fuel)%nat ->
  exists b' rs' s', cutn_raw_loop fuel b n saved_n out s
      = Ok (saved_n, b', out ++ take (Z.to_nat n) (contents s rs)) s' /\
    held s' b' rs' F (drop (Z.to_nat n) (contents s rs)) /\ frame s s' F.
Proof.
  induction fuel as [|f IH]; intros s b rs F n saved_n out V I Hn Hf; [lia|]. simpl.
  destruct (Z.eqb_spec n 0) as [->|Hnz].
  { exists b, rs, s. rewrite app_nil_r. split_and!; try done. apply frame_refl. }
  destruct (view_total_pos b rs n V ltac:(lia)) as (r & rs' & ->).
  pose proof (view_ref_wf _ _ _ V) as (_ & _ & Hl & _).
  pose proof (inv_ref s _ r I ltac:(by left)) as Hor.
  exec (_front_ref_spec b r rs' s V). destruct (Z.leb_spec (r_length r) n).
  - exec (read_block_spec s _ r (r_length r) I Hor ltac:(lia)).
    destruct (pop_front_ref_spec s b r rs' F V I) as (b1 & s1 & E & V1 & I1 & [Fr1 Fr2]%frame_app).
    exec E. simpl in *.
    destruct (IH s1 b1 rs' F (n - r_length r) saved_n (out ++ ref_bytes s (take_ref (r_length r) r)))
      as (b2 & rs2 & s2 & E2 & Hh & Fr); try done; try lia.
    exists b2, rs2, s2. split_and!; try done; try by eapply frame_trans.
    + rewrite E2, take_ref_full, <- (assoc (++)), (frame_contents _ _ _ Fr1).
      by rewrite (take_first_ref s r rs' F) by done.
    + by rewrite (drop_first_ref s r rs' F), <- (frame_contents _ _ _ Fr1) by done.
  - exec (read_block_spec s _ r n I Hor ltac:(lia)).
    destruct (write_front_spec s b r rs' F n V I ltac:(lia)) as (b' & E & V' & I' & Hc). exec E.
    exists b', (drop_ref n r :: rs'), s. rewrite (contents_take_first s r rs' F) by (try done; lia).
    split_and!; try done. apply frame_refl.
Qed.

Lemma cutn_raw_spec s b rs F bs n : held s b rs F bs -> 0 <= n ->
  exists b' rs' s', cutn_raw b n s = Ok (Z.min n (zlen bs), b', take (Z.to_nat n) bs) s' /\
    held s' b' rs' F (drop (Z.to_nat n) bs) /\ frame s s' F.
Proof.
  intros Hh Hn. pose proof (held_length _ _ _ _ _ Hh) as Hl. destruct Hh as (V & I & <-).
  pose proof (total_nonneg rs ltac:(apply V)). unfold zlen in Hl.
  unfold cutn_raw. exec (IOBuf_length_spec b rs s V). unfold zlen. rewrite Hl.
  destruct (Z.ltb_spec (total rs) n).
  - destruct (cutn_raw_loop_spec (S (Z.to_nat (total rs))) s b rs F (total rs) (total rs) [])
      as (b' & rs' & s' & E & Hh & Fr); try done; try lia.
    rewrite Z.min_r by lia. exists b', rs', s'. rewrite E, !take_ge in * by lia.
    rewrite drop_ge in * by lia. split_and!; try done; by rewrite ?drop_ge by lia.
  - rewrite Z.min_l by lia.
    destruct (cutn_raw_loop_spec (S (Z.to_nat n)) s b rs F n n []) as (b' & rs' & s' & ?); try done; try lia.
    eauto.
Qed.

(** *** copy_to *)
Definition starts_within (off : Z) (todo : list BlockRef) : Prop :=
  match todo with [] => True | r :: _ => off < r_length r end.

Lemma copy_skip_spec s b rs F : view b rs -> inv s (rs ++ F) -> forall fuel todo d off,
  rs = d ++ todo -> 0 <= off -> (List.length todo < fuel)%nat ->
  exists off' d' todo', copy_skip fuel b (zlen rs) off (zlen d) s = Ok (off', zlen d') s /\
    rs = d' ++ todo' /\ 0 <= off' /\ starts_within off' todo' /\
    drop (Z.to_nat off) (contents s todo) = drop (Z.to_nat off') (contents s todo').
Proof.
  intros V I. induction fuel as [|f IH]; intros todo d off Hrs Ho Hf; [lia|]. simpl.
  destruct (Z.eqb_spec off 0) as [->|Hnz]; simpl.
  { exists 0, d, todo. split_and!; try done. destruct todo as [|r t]; simpl; [done|].
    destruct V as (Hfa & _). rewrite Hrs in Hfa. apply Forall_app in Hfa as [_ Hfa].
    by apply Forall_cons in Hfa as [(_ & _ & ? & _) _]. }
  destruct todo as [|r t].
  { rewrite Hrs, app_nil_r, Z.ltb_irrefl. exists off, d, []. rewrite app_nil_r. done. }
  assert (zlen d <? zlen rs = true) as ->.
  { apply Z.ltb_lt. rewrite Hrs, zlen_app, zlen_cons. pose proof (zlen_nonneg t). lia. }
  exec (_ref_at_spec b rs (List.length d) r s V ltac:(rewrite Hrs; by apply list_lookup_middle)).
  destruct (Z.ltb_spec off (r_length r)).
  { exists off, d, (r :: t). done. }
  destruct (IH t (d ++ [r]) (off - r_length r)) as (off' & d' & t' & E & ? & ? & ? & Hc).
  { by rewrite <- (assoc (++)). } { lia. } { simpl in Hf. lia. }
  rewrite zlen_snoc in E.
  exists off', d', t'. split_and!; try done. rewrite <- Hc.
  assert (inv s ((r :: t) ++ (d ++ F))) as I'.
  { rewrite Hrs, <- (assoc (++)), (assoc (++)), (comm (++) d (r :: t)), <- (assoc (++)) in I. done. }
  apply (drop_first_ref s r t _ off I'). lia.
Qed.

Lemma copy_out_spec s b rs F : view b rs -> inv s (rs ++ F) -> forall fuel todo d off m out,
  rs = d ++ todo -> 0 <= off -> starts_within off todo -> 0 <= m -> (List.length todo < fuel)%nat ->
  exists m', copy_out fuel b (zlen rs) off (zlen d) m out s
    = Ok (m', out ++ take (Z.to_nat m) (drop (Z.to_nat off) (contents s todo))) s /\
    m - m' = Z.min m (zlen (drop (Z.to_nat off) (contents s todo))).
Proof.
  intros V I. induction fuel as [|f IH]; intros todo d off m out Hrs Ho Hin Hm Hf; [lia|]. simpl.
  destruct (Z.eqb_spec m 0) as [->|Hnz]; simpl.
  { exists 0. rewrite app_nil_r. split; [done|]. pose proof (zlen_nonneg (drop (Z.to_nat off) (contents s todo))). lia. }
  destruct todo as [|r t].
  { rewrite Hrs, app_nil_r, Z.ltb_irrefl. exists m. rewrite contents_nil, drop_nil, take_nil, app_nil_r.
    split; [done|]. rewrite zlen_nil. lia. }
  assert (zlen d <? zlen rs = true) as ->.
  { apply Z.ltb_lt. rewrite Hrs, zlen_app, zlen_cons. pose proof (zlen_nonneg t). lia. }
  exec (_ref_at_spec b rs (List.length d) r s V ltac:(rewrite Hrs; by apply list_lookup_middle)).
  assert (inv s ((r :: t) ++ (d ++ F))) as I'.
  { rewrite Hrs, <- (assoc (++)), (assoc (++)), (comm (++) d (r :: t)), <- (assoc (++)) in I. done. }
  pose proof (inv_ref s _ r I' ltac:(by left)) as Hor. simpl in Hin.
  assert (ref_wf r) as (_ & ? & ? & ?).
  { destruct V as (Hfa & _). rewrite Hrs in Hfa. apply Forall_app in Hfa as [_ Hfa].
    by apply Forall_cons in Hfa as [? _]. }
  rewrite u64_small by (unfold is_u64; lia). set (nc := Z.min m (r_length r - off)).
  pose proof (ref_ok_drop s r off Hor ltac:(lia)) as Hod.
  exec (read_block_spec s _ (drop_ref off r) nc I' Hod ltac:(simpl; lia)).
  pose proof (zlen_ref_bytes s _ r I' ltac:(by left)) as Hz. unfold zlen in Hz.
  rewrite ref_bytes_take, ref_bytes_drop by (try done; simpl; lia).
  rewrite contents_cons, drop_app_le by lia.
  destruct (IH t (d ++ [r]) 0 (m - nc) (out ++ take (Z.to_nat nc) (drop (Z.to_nat off) (ref_bytes s r))))
    as (m' & E & Hm').
  { by rewrite <- (assoc (++)). } { lia. }
  { destruct t as [|r' t']; [done|]. simpl. destruct V as (Hfa & _). rewrite Hrs in Hfa.
    apply Forall_app in Hfa as [_ Hfa]. apply Forall_cons in Hfa as [_ Hfa].
    by apply Forall_cons in Hfa as [(_ & _ & ? & _) _]. }
  { lia. } { simpl in Hf. lia. }
  rewrite zlen_snoc in E.
  exists m'. rewrite E, <- (assoc (++)). unfold zlen in *. rewrite drop_0 in *. split.
  - do 2 f_equal. unfold nc. destruct (Z.min_spec m (r_length r - off)) as [[Hle ->]|[Hge ->]].
    + rewrite take_app_le by (rewrite length_drop; lia). rewrite Z.sub_diag. by rewrite app_nil_r.
    + rewrite take_app_ge by (rewrite length_drop; lia). rewrite take_ge by (rewrite length_drop; lia).
      f_equal. f_equal. f_equal. rewrite length_drop. lia.
  - rewrite length_app, length_drop. lia.
Qed.

Lemma copy_to_spec s b rs F bs n pos : held s b rs F bs -> 0 <= n -> 0 <= pos ->
  copy_to b n pos s
    = Ok (Z.min n (Z.max 0 (zlen bs - pos)), take (Z.to_nat n) (drop (Z.to_nat pos) bs)) s.
Proof.
  intros (V & I & <-) Hn Hp. unfold copy_to. exec (_ref_num_spec b rs s V).
  assert (List.length rs < S (Z.to_nat (zlen rs)))%nat by (unfold zlen; lia).
  destruct (copy_skip_spec s b rs F V I (S (Z.to_nat (zlen rs))) rs [] pos)
    as (off & d & t & E & Hrs & Ho & Hin & Hc); try done.
  change (zlen []) with 0 in E. exec E. simpl.
  destruct (copy_out_spec s b rs F V I (S (Z.to_nat (zlen rs))) t d off n []) as (m' & E2 & Hm'); try done.
  { rewrite Hrs, zlen_app. unfold zlen. lia. }
  simpl in E2. exec E2. simpl. rewrite Hm', <- Hc. unfold ret. do 3 f_equal.
  unfold zlen. rewrite length_drop. lia.
Qed.

(** *** cut1, fetch1 *)
Lemma cut1_spec s b rs F bs : held s b rs F bs ->
  exists b' rs' s', cut1 b s = Ok (head bs, b') s' /\ held s' b' rs' F (tail bs) /\ frame s s' F.
Proof.
  intros (V & I & <-). unfold cut1. exec (IOBuf_empty_spec b rs s V). destruct rs as [|r rs'].
  { exists b, [], s. split_and!; try done. apply frame_refl. }
  exec (_front_ref_spec b r rs' s V). pose proof (view_ref_wf _ _ _ V) as (_ & _ & Hl & _).
  pose proof (inv_ref s _ r I ltac:(by left)) as Hor.
  exec (read_block_spec s _ r 1 I Hor ltac:(lia)).
  rewrite (contents_take_first s r rs' F) by (try done; lia).
  pose proof (zlen_contents s _ (r :: rs') I ltac:(set_solver)) as Hz. simpl in Hz.
  pose proof (total_nonneg rs' ltac:(destruct V as (Hf & _); by apply Forall_cons in Hf as [_ ?])).
  destruct (contents s (r :: rs')) as [|c cs] eqn:Hc; [rewrite zlen_nil in Hz; lia|]. simpl.
  rewrite (bind_ok (deref (Some c)) _ s c s) by done.
  destruct (Z.ltb_spec 1 (r_length r)).
  - destruct (write_front_spec s b r rs' F 1 V I ltac:(lia)) as (b' & E & V' & I' & Hc'). exec E.
    exists b', (drop_ref 1 r :: rs'), s. split; [done|]. split; [|apply frame_refl]. split; [done|]. split; [done|].
    rewrite Hc in Hc'. done.
  - destruct (pop_front_ref_spec s b r rs' F V I) as (b' & s' & E & V' & I' & [Fr1 Fr2]%frame_app). exec E.
    exists b', rs', s'. split; [done|]. split; [|done]. split; [done|]. split; [done|]. rewrite (frame_contents _ _ _ Fr1).
    pose proof (drop_first_ref s r rs' F 1 I ltac:(lia)) as Hd. rewrite Hc in Hd. simpl in Hd.
    replace (1 - r_length r) with 0 in Hd by lia. done.
Qed.

(** *** Copying an IOBuf *)
Lemma share_refs_spec bv rs k : bv_repr bv rs k -> forall todo d s F (new : list BlockRef),
  rs = d ++ todo -> inv s (rs ++ F) -> zlen rs <= zlen new -> take (List.length d) new = d ->
  exists out s', share_refs (List.length todo) (zlen d) bv new s = Ok out s' /\
    take (List.length rs) out = rs /\ zlen out = zlen new /\
    inv s' (todo ++ rs ++ F) /\ frame s s' (rs ++ F).
Proof.
  intros R todo. induction todo as [|r todo IH]; intros d s F new Hrs I Hlen Htake; simpl.
  - exists new, s. rewrite app_nil_r in Hrs. subst d. split_and!; try done. apply frame_refl.
  - exec (bv_ref_at_spec bv rs k (List.length d) r s R ltac:(rewrite Hrs; by apply list_lookup_middle)).
    pose proof (inv_ref s _ r I ltac:(rewrite Hrs; set_solver)) as Hor.
    destruct (inc_ref_spec s (rs ++ F) r I Hor) as (s1 & E1 & I1 & Fr1). exec E1.
    assert (List.length d < List.length new)%nat.
    { rewrite Hrs, zlen_app, zlen_cons in Hlen. unfold zlen in *. lia. }
    rewrite Permutation_middle in I1.
    destruct (IH (d ++ [r]) s1 (r :: F) (<[Z.to_nat (zlen d) := r]> new))
      as (out & s2 & E2 & Ht & Hz & I2 & Fr2); try done.
    + by rewrite <- (assoc (++)).
    + unfold zlen at 2. by rewrite length_insert.
    + rewrite length_app, Nat.add_1_r. unfold zlen at 1. rewrite Nat2Z.id.
      rewrite (take_S_r _ _ r) by (by apply list_lookup_insert_eq).
      rewrite take_insert_ge by lia. by rewrite Htake.
    + rewrite zlen_snoc in E2. exists out, s2. split_and!; try done.
      * rewrite Hz. unfold zlen. by rewrite length_insert.
      * by rewrite <- (Permutation_middle rs F r), <- Permutation_middle in I2.
      * eapply frame_trans; [eapply frame_sub; [|apply Fr1]|eapply frame_sub; [|apply Fr2]]; set_solver.
Qed.

(** A ring filled from its start with the references [rs]. *)
Lemma bv_repr_fill rs k out n : 5 <= k <= 30 -> 3 <= zlen rs <= 2 ^ k -> zlen out = 2 ^ k ->
  take (List.length rs) out = rs -> n = total rs ->
  bv_repr (mkBV 0 out (zlen rs) (2 ^ k - 1) n) rs k.
Proof.
  intros Hk Hle Hz Ht ->. constructor; simpl; try done; try lia.
  intros i r Hi. pose proof (lookup_lt_Some _ _ _ Hi). unfold zlen in *.
  rewrite Z.mod_small, Z.add_0_l, Nat2Z.id by lia. rewrite <- Ht in Hi.
  by rewrite lookup_take_lt in Hi by lia.
Qed.

Lemma copy_IOBuf_spec s b rs F : view b rs -> inv s (rs ++ F) ->
  exists b' s', copy_IOBuf b s = Ok b' s' /\ view b' rs /\ inv s' (rs ++ rs ++ F) /\
    frame s s' (rs ++ F).
Proof.
  intros V I. unfold copy_IOBuf. destruct b as [r0 r1|bv].
  - exec (as_view_small r0 r1 rs s V). pose proof V as V'.
    destruct (view_sv_inv _ _ _ V) as [(-> & -> & ->)|[(-> & -> & E)|(-> & E & E')]].
    + exists (SV null_ref null_ref), s. split_and!; try done. apply frame_refl.
    + rewrite E. simpl in *. destruct (inc_ref_spec s (r0 :: F) r0 I) as (s1 & E1 & I1 & Fr1).
      { apply (inv_ref s _ _ I). by left. }
      exec E1. exists (SV r0 null_ref), s1. split_and!; try done. eapply frame_sub; [|done]. set_solver.
    + rewrite E, E'. simpl in *. destruct (inc_ref_spec s (r0 :: r1 :: F) r0 I) as (s1 & E1 & I1 & Fr1).
      { apply (inv_ref s _ _ I). by left. }
      exec E1. destruct (inc_ref_spec s1 (r0 :: r0 :: r1 :: F) r1 I1) as (s2 & E2 & I2 & Fr2).
      { apply (inv_ref s1 _ _ I1). set_solver. }
      exec E2. exists (SV r0 r1), s2. split_and!; try done.
      * by rewrite (perm_swap r1 r0 (r0 :: r1 :: F)).
      * eapply frame_trans; [eapply frame_sub; [|apply Fr1]|eapply frame_sub; [|apply Fr2]]; set_solver.
  - destruct V as (Hf & Ht & k & R). unfold as_view. rewrite (bind_ok _ _ s (inr bv) s) by done.
    rewrite (bvr_nref _ _ _ R), (capacity_pow _ _ k R).
    pose proof (bvr_le _ _ _ R). pose proof (bvr_k _ _ _ R). pose proof (pow_bounds k ltac:(done)).
    destruct (share_refs_spec bv rs k R rs [] s F (replicate (Z.to_nat (2 ^ k)) null_ref))
      as (out & s1 & E & Hout & Hz & I1 & Fr); try done.
    { unfold zlen in *. rewrite length_replicate. lia. }
    unfold zlen at 1. rewrite Nat2Z.id. change (zlen []) with 0 in E. exec E.
    eexists _, s1. split; [reflexivity|]. split; [|done]. split; [done|]. split; [done|]. exists k.
    rewrite (bvr_mask _ _ _ R). apply bv_repr_fill; try done.
    + rewrite Hz. unfold zlen. rewrite length_replicate. lia.
    + apply (bvr_nbytes _ _ _ R).
Qed.

(** Copy assignment: the old references are released, those of [rhs] shared. *)
Lemma assign_spec s b rhs rs qs F : view b rs -> view rhs qs -> inv s (rs ++ qs ++ F) ->
  exists b' s', assign b rhs s = Ok b' s' /\ view b' qs /\ inv s' (qs ++ qs ++ F) /\
    frame s s' (qs ++ F).
Proof.
  intros V Vr I.
  assert (exists b' s', (let! _ := clear b in copy_IOBuf rhs) s = Ok b' s' /\ view b' qs /\
    inv s' (qs ++ qs ++ F) /\ frame s s' (qs ++ F)) as Hslow.
  { destruct (iobuf_clear_spec s b rs (qs ++ F) V I) as (s1 & E1 & I1 & Fr1). exec E1.
    destruct (copy_IOBuf_spec s1 rhs qs F Vr I1) as (b2 & s2 & E2 & V2 & I2 & Fr2).
    exists b2, s2. split_and!; try done. by eapply frame_trans. }
  unfold assign. destruct b as [|bv]; [done|]. destruct rhs as [|rv]; [done|].
  destruct (Z.eqb_spec (bv_cap_mask bv) (bv_cap_mask rv)) as [Em|]; [|done].
  destruct V as (_ & _ & k & R). destruct Vr as (Hfq & Htq & j & Rr).
  assert (2 ^ j = 2 ^ k) as Ej by (rewrite (bvr_mask _ _ _ R), (bvr_mask _ _ _ Rr) in Em; lia).
  destruct (dec_all_spec bv rs k R rs [] s (qs ++ F) eq_refl I) as (s1 & E1 & I1 & Fr1).
  rewrite (bvr_nref _ _ _ R), (bvr_nref _ _ _ Rr). unfold zlen at 1 2. rewrite !Nat2Z.id.
  change (zlen []) with 0 in E1. exec E1.
  pose proof (bvr_le _ _ _ Rr) as Hle. pose proof (bvr_len _ _ _ R) as Hl.
  destruct (share_refs_spec rv qs j Rr qs [] s1 F (bv_refs bv)) as (out & s2 & E2 & Hout & Hz & I2 & Fr2);
    try done; try lia.
  change (zlen []) with 0 in E2. exec E2.
  eexists _, s2. split; [reflexivity|]. split; [|split; [done|by eapply frame_trans]].
  split; [done|]. split; [done|]. exists j. rewrite Em, (bvr_mask _ _ _ Rr).
  apply bv_repr_fill; try done; [apply (bvr_k _ _ _ Rr)|lia|apply (bvr_nbytes _ _ _ Rr)].
Qed.

End specs.
