(* ===== verification/IOBufEquals.v ===== *)
(** * IOBuf: comparison

    [IOBuf::equals] walks the two lists of references in lockstep, comparing
    the longest common chunk at each turn.  It decides equality of the bytes,
    whatever the two block layouts are. *)
From S2P Require Import Prelude IOBuf IOBufHeap IOBufOps.
Local Open Scope Z_scope.

Section code.
Context {P : Type} `{Allocator P}.
Abbreviation MS := (M (St P)).

(** The cursor [d, len] of each side is kept as a reference: block, offset of
    [d] in it, and the bytes left.  Each turn finishes at least one of the two
    current references, so the total number of references is enough fuel. *)
Definition cursor_advance (c : BlockRef) (n : Z) : BlockRef :=
  mkRef (r_offset c + n) (r_length c - n) (r_block c).

Fixpoint equals_loop (fuel : nat) (b other : IOBuf) (nref1 nref2 : Z)
    (c1 : BlockRef) (i : Z) (c2 : BlockRef) (j : Z) : MS bool :=
  match fuel with
  | O => nofuel
  | S f =>
      let cmplen := Z.min (r_length c1) (r_length c2) in
      let! bs1 := read_block (r_block c1) (r_offset c1) cmplen in
      let! bs2 := read_block (r_block c2) (r_offset c2) cmplen in
      if negb (bool_decide (bs1 = bs2)) then ret false else
      let c1' := cursor_advance c1 cmplen in
      let c2' := cursor_advance c2 cmplen in
      let next2 (c1 : BlockRef) (i : Z) : MS bool :=
        if r_length c2' =? 0 then
          if nref2 <=? j then ret true
          else let! r := _ref_at other j in equals_loop f b other nref1 nref2 c1 i r (j + 1)
        else equals_loop f b other nref1 nref2 c1 i c2' j in
      if r_length c1' =? 0 then
        if nref1 <=? i then ret true
        else let! r := _ref_at b i in next2 r (i + 1)
      else next2 c1' i
  end.

Definition equals (b other : IOBuf) : MS bool :=
  let! sz1 := IOBuf_length b in
  let! sz2 := IOBuf_length other in
  if negb (sz1 =? sz2) then ret false else
  if sz1 =? 0 then ret true else
  let! r1 := _ref_at b 0 in
  let! r2 := _ref_at other 0 in
  let! nref1 := _ref_num b in
  let! nref2 := _ref_num other in
  equals_loop (Z.to_nat (nref1 + nref2)) b other nref1 nref2 r1 1 r2 1.

End code.

Section specs.
Context {P : Type} `{AllocatorLaws P}.
Implicit Types (s : St P) (b : IOBuf) (rs qs G : list BlockRef).

(** The bytes still to compare on one side. *)
Lemma cursor_split s G c n : inv s G -> ref_ok s c -> 0 <= n <= r_length c ->
  ref_bytes s c = ref_bytes s (take_ref n c) ++ ref_bytes s (cursor_advance c n) /\
  zlen (ref_bytes s (take_ref n c)) = n /\ ref_ok s (cursor_advance c n).
Proof.
  intros I Hc Hn. change (cursor_advance c n) with (drop_ref n c). split_and!.
  - rewrite ref_bytes_take, ref_bytes_drop by done. symmetry; apply take_drop.
  - pose proof (ref_ok_take s c n Hc Hn) as (bl & E & ? & ? & ?).
    pose proof (inv_blocks _ _ I _ _ E) as (_ & _ & _ & ? & _ & Hz & _).
    unfold ref_bytes. rewrite E. simpl in *. apply zlen_slice; lia.
  - by apply ref_ok_drop.
Qed.

Lemma app_eq_len {A} (a b c d : list A) : zlen a = zlen b -> (a ++ c = b ++ d <-> a = b /\ c = d).
Proof.
  unfold zlen. intros Hl. split; [intros E; apply app_inj_1 in E; [done|lia]|by intros [-> ->]].
Qed.

Lemma zlen_ref s G c : inv s G -> ref_ok s c -> zlen (ref_bytes s c) = r_length c.
Proof.
  intros I Hc. pose proof Hc as (bl & E & ? & ? & ?).
  pose proof (inv_blocks _ _ I _ _ E) as (_ & _ & _ & ? & _ & Hz & _).
  unfold ref_bytes. rewrite E. apply zlen_slice; lia.
Qed.

(** One turn of the loop splits the comparison in two. *)
Lemma compare_split s G c1 t1 c2 t2 m : inv s G -> ref_ok s c1 -> ref_ok s c2 ->
  0 <= m <= r_length c1 -> m <= r_length c2 ->
  bool_decide (ref_bytes s c1 ++ contents s t1 = ref_bytes s c2 ++ contents s t2)
  = bool_decide (ref_bytes s (take_ref m c1) = ref_bytes s (take_ref m c2))
    && bool_decide (ref_bytes s (cursor_advance c1 m) ++ contents s t1
                    = ref_bytes s (cursor_advance c2 m) ++ contents s t2).
Proof.
  intros I H1 H2 ? ?. destruct (cursor_split s G c1 m I H1 ltac:(lia)) as (E1 & Hz1 & _).
  destruct (cursor_split s G c2 m I H2 ltac:(lia)) as (E2 & Hz2 & _).
  rewrite <- bool_decide_and. apply bool_decide_ext. rewrite E1, E2, <- !(assoc (++)).
  apply app_eq_len. congruence.
Qed.

(** The remaining bytes of one side: a cursor and the references ahead. *)
Definition ahead s (rs : list BlockRef) (c : BlockRef) (d t : list BlockRef) : Prop :=
  rs = d ++ t /\ ref_ok s c /\ 0 < r_length c.

Lemma ref_bytes_empty s G c : inv s G -> ref_ok s c -> r_length c = 0 -> ref_bytes s c = [].
Proof.
  intros I Hc Hz. pose proof (zlen_ref s G c I Hc). unfold zlen in *.
  apply length_zero_iff_nil. lia.
Qed.

Lemma ahead_next s b rs G r d t : view b rs -> inv s G -> rs ⊆ G -> rs = d ++ r :: t ->
  ahead s rs r (d ++ [r]) t.
Proof.
  intros (Hf & _) I Hs ->. split; [by rewrite <- (assoc (++))|]. split.
  - apply (inv_ref s G); [done|]. set_solver.
  - apply Forall_app in Hf as [_ Hf]. by apply Forall_cons in Hf as [(_ & _ & ? & _) _].
Qed.

Lemma equals_loop_spec s b other rs qs G : view b rs -> view other qs -> inv s G ->
  rs ⊆ G -> qs ⊆ G -> forall fuel c1 d1 t1 c2 d2 t2,
  ahead s rs c1 d1 t1 -> ahead s qs c2 d2 t2 ->
  zlen (ref_bytes s c1 ++ contents s t1) = zlen (ref_bytes s c2 ++ contents s t2) ->
  (List.length t1 + List.length t2 < fuel)%nat ->
  equals_loop fuel b other (zlen rs) (zlen qs) c1 (zlen d1) c2 (zlen d2) s
  = Ok (bool_decide (ref_bytes s c1 ++ contents s t1 = ref_bytes s c2 ++ contents s t2)) s.
Proof.
  intros V Vo I Hs1 Hs2. induction fuel as [|f IH];
    intros c1 d1 t1 c2 d2 t2 (E1 & Ho1 & Hl1) (E2 & Ho2 & Hl2) Hlen Hf; [lia|]. cbn [equals_loop].
  set (m := Z.min (r_length c1) (r_length c2)).
  exec (read_block_spec s G c1 m I Ho1 ltac:(lia)). exec (read_block_spec s G c2 m I Ho2 ltac:(lia)).
  rewrite (compare_split s G c1 t1 c2 t2 m) by (try done; lia).
  destruct (cursor_split s G c1 m I Ho1 ltac:(lia)) as (Eb1 & Hz1 & Hk1).
  destruct (cursor_split s G c2 m I Ho2 ltac:(lia)) as (Eb2 & Hz2 & Hk2).
  case_bool_decide; [|done]. cbn [negb andb].
  assert (zlen (ref_bytes s (cursor_advance c1 m) ++ contents s t1)
        = zlen (ref_bytes s (cursor_advance c2 m) ++ contents s t2)) as Hlen'.
  { rewrite Eb1, Eb2, !zlen_app, Hz1, Hz2 in Hlen. rewrite !zlen_app. lia. }
  clear Hlen Eb1 Eb2 Hz1 Hz2.
  (* the second half of the turn, once the first cursor is [c, d, t] *)
  assert (forall c d t, ahead s rs c d t -> (List.length t <= List.length t1)%nat ->
    (r_length (cursor_advance c2 m) = 0 \/ (List.length t < List.length t1)%nat) ->
    zlen (ref_bytes s c ++ contents s t) = zlen (ref_bytes s (cursor_advance c2 m) ++ contents s t2) ->
    (if r_length (cursor_advance c2 m) =? 0
     then if zlen qs <=? zlen d2 then ret true
          else let! r := _ref_at other (zlen d2) in
               equals_loop f b other (zlen rs) (zlen qs) c (zlen d) r (zlen d2 + 1)
     else equals_loop f b other (zlen rs) (zlen qs) c (zlen d) (cursor_advance c2 m) (zlen d2)) s
    = Ok (bool_decide (ref_bytes s c ++ contents s t = ref_bytes s (cursor_advance c2 m) ++ contents s t2)) s)
    as Hnext.
  { intros c d t Hah Hle Hdec Hz. destruct (Z.eqb_spec (r_length (cursor_advance c2 m)) 0) as [Hz0|Hnz].
    - rewrite (ref_bytes_empty s G _ I Hk2 Hz0) in *. destruct t2 as [|r t2].
      + rewrite app_nil_r in E2. rewrite E2, Z.leb_refl. rewrite contents_nil in *. simpl in *.
        destruct (ref_bytes s c ++ contents s t); [done|]. rewrite zlen_cons, zlen_nil in Hz.
        pose proof (zlen_nonneg l). lia.
      + assert (zlen qs <=? zlen d2 = false) as ->.
        { apply Z.leb_gt. rewrite E2, zlen_app, zlen_cons. pose proof (zlen_nonneg t2). lia. }
        exec (_ref_at_spec other qs (List.length d2) r s Vo ltac:(rewrite E2; by apply list_lookup_middle)).
        rewrite <- zlen_snoc with (x := r).
        apply (IH c d t r (d2 ++ [r]) t2); try done; [by apply (ahead_next s other qs G)|].
        simpl in Hf. lia.
    - apply (IH c d t (cursor_advance c2 m) d2 t2); try done; [|lia].
      split; [done|]. split; [done|]. simpl in *. lia. }
  destruct (Z.eqb_spec (r_length (cursor_advance c1 m)) 0) as [Hz1|Hnz1].
  - pose proof (ref_bytes_empty s G _ I Hk1 Hz1) as En. rewrite En in *. destruct t1 as [|r t1].
    + rewrite app_nil_r in E1. rewrite E1, Z.leb_refl. rewrite contents_nil in *. simpl in *.
      destruct (ref_bytes s (cursor_advance c2 m) ++ contents s t2); [done|].
      rewrite zlen_cons, zlen_nil in Hlen'. pose proof (zlen_nonneg l). lia.
    + assert (zlen rs <=? zlen d1 = false) as ->.
      { apply Z.leb_gt. rewrite E1, zlen_app, zlen_cons. pose proof (zlen_nonneg t1). lia. }
      exec (_ref_at_spec b rs (List.length d1) r s V ltac:(rewrite E1; by apply list_lookup_middle)).
      rewrite <- zlen_snoc with (x := r).
      apply (Hnext r (d1 ++ [r]) t1); [by apply (ahead_next s b rs G)|simpl; lia|simpl; lia|done].
  - apply (Hnext (cursor_advance c1 m) d1 t1); try done; [|left; simpl in *; lia].
    split; [done|]. split; [done|]. simpl in *. lia.
Qed.

Lemma equals_spec s b other rs qs G : view b rs -> view other qs -> inv s G ->
  rs ⊆ G -> qs ⊆ G ->
  equals b other s = Ok (bool_decide (contents s rs = contents s qs)) s.
Proof.
  intros V Vo I Hs1 Hs2. unfold equals.
  exec (IOBuf_length_spec b rs s V). exec (IOBuf_length_spec other qs s Vo).
  pose proof (zlen_contents s G rs I Hs1) as H1. pose proof (zlen_contents s G qs I Hs2) as H2.
  destruct (Z.eqb_spec (total rs) (total qs)) as [Et|Hne]; simpl; cycle 1.
  { rewrite bool_decide_eq_false_2; [done|]. intros E. rewrite E in H1. congruence. }
  destruct (Z.eqb_spec (total rs) 0) as [E0|Hn0].
  { unfold zlen in *. assert (contents s rs = []) as -> by (apply length_zero_iff_nil; lia).
    assert (contents s qs = []) as -> by (apply length_zero_iff_nil; lia). done. }
  destruct rs as [|r1 t1]; [done|]. destruct qs as [|r2 t2]; [done|].
  exec (_ref_at_spec b (r1 :: t1) 0 r1 s V eq_refl). exec (_ref_at_spec other (r2 :: t2) 0 r2 s Vo eq_refl).
  exec (_ref_num_spec b _ s V). exec (_ref_num_spec other _ s Vo).
  apply (equals_loop_spec s b other (r1 :: t1) (r2 :: t2) G V Vo I Hs1 Hs2 _ r1 [r1] t1 r2 [r2] t2).
  - by apply (ahead_next s b (r1 :: t1) G r1 [] t1).
  - by apply (ahead_next s other (r2 :: t2) G r2 [] t2).
  - rewrite <- !contents_cons. congruence.
  - rewrite !zlen_cons. unfold zlen. lia.
Qed.

End specs.
