(* ===== verification/IOBufAppend.v ===== *)
(** * IOBuf: thread-local blocks and appending

    The thread-local chain of partly filled blocks of [fast_iobuf.cc]
    ([share_tls_block], [release_tls_block], [acquire_tls_block],
    [clear_tls_block_chain], [create_block]) and the operations that add bytes:
    [push_back], [append] in its forms, [append_user_data_with_meta], [resize]. *)
From S2P Require Import Prelude IOBuf IOBufHeap IOBufOps.
Local Open Scope Z_scope.

Definition MAX_BLOCKS_PER_THREAD : Z := 8.

Section code.
Context {P : Type} `{Allocator P}.
Abbreviation MS := (M (St P)).

Definition get_tls : MS TLSData := let! s := get in ret (tls s).
Definition put_tls (t : TLSData) : MS unit := modify (set_tls t).
Definition set_pool (p : P) (s : St P) : St P := mkSt (heap s) (tls s) p (deleted s).

(** ** Blocks from the pool *)

(** The memory of a fresh block is unspecified until it is written; it is
    modelled as zeros. *)
Definition create_block (block_size : Z) : MS Z :=
  if 0xFFFFFFFF <? block_size then abort else
  let! s := get in
  match BlockAllocate block_size (pool s) with
  | (None, p) => let! _ := modify (set_pool p) in ret NULL
  | (Some mem, p) =>
      let! _ := modify (set_pool p) in
      let cap := u32 (block_size - sizeof_Block) in
      let! _ := store_block mem (new_block (mem + sizeof_Block) (block_size - sizeof_Block)
                                           (replicate (Z.to_nat cap) 0)) in
      ret mem
  end.

(** ** The thread-local chain *)

(** Drop the full blocks at the head of the chain.  [num_blocks] is the length
    of the chain, so it bounds the number of turns. *)
Fixpoint skip_full (fuel : nat) (a : Z) : MS Z :=
  if a =? NULL then ret NULL else
  let! b := load_block a in
  if full b then
    match fuel with
    | O => nofuel
    | S f =>
        let saved_next := u b in
        let! _ := dec_ref a in
        let! t := get_tls in
        let! _ := put_tls (mkTLS (block_head t) (u64 (num_blocks t - 1)) (registered t)) in
        skip_full f saved_next
    end
  else ret a.

Definition share_tls_block : MS Z :=
  let! t := get_tls in
  let b := block_head t in
  let! usable := (if b =? NULL then ret false else let! blk := load_block b in ret (negb (full blk))) in
  if usable : bool then ret b else
  let! new_block :=
    (if negb (b =? NULL) then skip_full (Z.to_nat (num_blocks t)) b
     else let! _ := (if registered t then ret tt
                     else put_tls (mkTLS (block_head t) (num_blocks t) true)) in ret NULL) in
  let! new_block :=
    (if new_block =? NULL then
       let! nb := create_block DEFAULT_BLOCK_SIZE in
       if negb (nb =? NULL) then
         let! t := get_tls in
         let! _ := put_tls (mkTLS (block_head t) (num_blocks t + 1) (registered t)) in ret nb
       else ret nb
     else ret new_block) in
  let! t := get_tls in
  let! _ := put_tls (mkTLS new_block (num_blocks t) (registered t)) in
  ret new_block.

Definition release_tls_block (b : Z) : MS unit :=
  if b =? NULL then ret tt else
  let! t := get_tls in
  let! blk := load_block b in
  if full blk then dec_ref b
  else if MAX_BLOCKS_PER_THREAD <=? num_blocks t then dec_ref b
  else
    let! _ := store_block b (set_u (block_head t) blk) in
    put_tls (mkTLS b (num_blocks t + 1) true).

(** The loop [while (b->full())] dereferences [b] again after moving to the
    next block, which may be [NULL]. *)
Fixpoint acquire_loop (fuel : nat) (b : Z) : MS Z :=
  let! blk := load_block b in
  if full blk then
    match fuel with
    | O => nofuel
    | S f =>
        let saved_next := u blk in
        let! _ := dec_ref b in
        let! t := get_tls in
        let! _ := put_tls (mkTLS saved_next (u64 (num_blocks t - 1)) (registered t)) in
        acquire_loop f saved_next
    end
  else ret b.

Definition acquire_tls_block : MS Z :=
  let! t := get_tls in
  let b := block_head t in
  if b =? NULL then create_block DEFAULT_BLOCK_SIZE else
  let! b := acquire_loop (Z.to_nat (num_blocks t)) b in
  if negb (b =? NULL) then
    let! blk := load_block b in
    let! t := get_tls in
    let! _ := put_tls (mkTLS (u blk) (u64 (num_blocks t - 1)) (registered t)) in
    let! _ := store_block b (set_u NULL blk) in
    ret b
  else ret b.

Fixpoint clear_chain (fuel : nat) (b : Z) : MS unit :=
  if b =? NULL then ret tt else
  match fuel with
  | O => nofuel
  | S f => let! blk := load_block b in
           let! _ := dec_ref b in
           clear_chain f (u blk)
  end.
Definition clear_tls_block_chain : MS unit :=
  let! t := get_tls in
  let! _ := put_tls (mkTLS NULL (num_blocks t) (registered t)) in
  let! _ := clear_chain (Z.to_nat (num_blocks t)) (block_head t) in
  let! t := get_tls in
  put_tls (mkTLS (block_head t) 0 (registered t)).

(** ** Appending *)

(** [memcpy] into a block. *)
Definition write_block (a off : Z) (bs : list Z) : MS unit :=
  let! b := load_block a in
  if (0 <=? off) && (off + zlen bs <=? zlen (bytes b))
  then store_block a (set_bytes (take (Z.to_nat off) (bytes b) ++ bs
                                 ++ drop (Z.to_nat (off + zlen bs)) (bytes b)) b)
  else undef.

Definition push_back (iob : IOBuf) (c : Z) : MS (Z * IOBuf) :=
  let! b := share_tls_block in
  if b =? NULL then ret (-1, iob) else
  let! blk := load_block b in
  let! _ := write_block b (b_size blk) [c] in
  let r := mkRef (b_size blk) 1 b in
  let! blk := load_block b in
  let! _ := store_block b (set_size (u32 (b_size blk + 1)) blk) in
  let! iob' := _push_back_ref iob r in
  ret (0, iob').

(** The common body of [append] and [resize]: [chunk total_nc nc] are the bytes
    copied for one block.  Each turn writes at least one byte, so [count] turns
    are enough fuel. *)
Fixpoint fill_loop (fuel : nat) (chunk : Z -> Z -> list Z) (iob : IOBuf) (total_nc count : Z)
  : MS (Z * IOBuf) :=
  if total_nc <? count then
    match fuel with
    | O => nofuel
    | S f =>
        let! b := share_tls_block in
        if b =? NULL then ret (-1, iob) else
        let! blk := load_block b in
        let nc := Z.min (count - total_nc) (left_space blk) in
        let! _ := write_block b (b_size blk) (chunk total_nc nc) in
        let r := mkRef (b_size blk) (u32 nc) b in
        let! iob' := _push_back_ref iob r in
        let! blk := load_block b in
        let! _ := store_block b (set_size (u32 (b_size blk + nc)) blk) in
        fill_loop f chunk iob' (total_nc + nc) count
    end
  else ret (0, iob).

(** [append(void const* data, size_t count)]; [None] is a null pointer. *)
Definition append (iob : IOBuf) (data : option (list Z)) : MS (Z * IOBuf) :=
  match data with
  | None => ret (-1, iob)
  | Some bs =>
      let count := zlen bs in
      if count =? 1 then let! c := deref (head bs) in push_back iob c
      else fill_loop (Z.to_nat count) (fun off n => slice off n bs) iob 0 count
  end.

(** [resize(n, c)]. *)
Definition resize (iob : IOBuf) (n c : Z) : MS (Z * IOBuf) :=
  let! saved_len := IOBuf_length iob in
  if n <? saved_len then
    let! r := pop_back iob (saved_len - n) in ret (0, snd r)
  else
    let count := n - saved_len in
    fill_loop (Z.to_nat count) (fun _ k => replicate (Z.to_nat k) c) iob 0 count.

(** [append(const IOBuf& other)] for a distinct [other]. *)
Fixpoint append_refs (n : nat) (i : Z) (iob other : IOBuf) : MS IOBuf :=
  match n with
  | O => ret iob
  | S n' => let! r := _ref_at other i in
            let! iob' := _push_back_ref iob r in
            append_refs n' (i + 1) iob' other
  end.
Definition append_IOBuf (iob other : IOBuf) : MS IOBuf :=
  let! nref := _ref_num other in append_refs (Z.to_nat nref) 0 iob other.

(** [append(const Movable&)]: returns this IOBuf and the emptied argument. *)
Fixpoint move_refs (n : nat) (i : Z) (iob other : IOBuf) : MS IOBuf :=
  match n with
  | O => ret iob
  | S n' => let! r := _ref_at other i in
            let! iob' := _move_back_ref iob r in
            move_refs n' (i + 1) iob' other
  end.
Definition append_movable (iob other : IOBuf) : MS (IOBuf * IOBuf) :=
  let! e := IOBuf_empty iob in
  if e then ret (swap iob other) else
  let! nref := _ref_num other in
  let! iob' := move_refs (Z.to_nat nref) 0 iob other in
  ret (iob', new_IOBuf).

(** [append_user_data_with_meta]: [mem] is the memory at [data].  A deleter is
    named by a number; no deleter ([NULL]) means libc's [free]. *)
Definition free_fn : Z := 1.
Definition append_user_data_with_meta (iob : IOBuf) (data : Z) (mem : list Z) (size : Z)
    (deleter : Z) (meta : Z) : MS (Z * IOBuf) :=
  if 0xFFFFFFFF - 100 <? size then abort else
  let deleter := if deleter =? NULL then free_fn else deleter in
  if size =? 0 then
    let! _ := modify (fun s => mkSt (heap s) (tls s) (pool s) (deleted s ++ [(deleter, data)])) in
    ret (0, iob)
  else
    let! s := get in
    match malloc (sizeof_Block + sizeof_UserDataExtension) (pool s) with
    | (None, p) => let! _ := modify (set_pool p) in ret (-1, iob)
    | (Some b, p) =>
        let! _ := modify (set_pool p) in
        let! _ := store_block b (mkBlock 1 IOBUF_BLOCK_FLAGS_USER_DATA 0 (u32 size) (u32 size)
                                         meta data mem deleter) in
        let! iob' := _move_back_ref iob (mkRef 0 (u32 size) b) in
        ret (0, iob')
    end.

End code.

(** ** The chain invariant *)
Section chain.
Context {P : Type} `{AllocatorLaws P}.
Implicit Types (s : St P) (rs F G : list BlockRef) (l : list Z).

(** The chain holds one counted reference, of no bytes, to each of its blocks. *)
Definition tls_ref (a : Z) : BlockRef := mkRef 0 0 a.
Definition tls_refs l : list BlockRef := map tls_ref l.

Fixpoint chain s (h : Z) l : Prop :=
  match l with
  | [] => h = NULL
  | a :: l' => h = a /\ exists b, heap s !! a = Some b /\ is_user b = false /\ chain s (u b) l'
  end.

(** The thread-local chain is the list [l] of at most
    [MAX_BLOCKS_PER_THREAD] blocks, and [F] are all the other references. *)
Definition tls_inv s F l : Prop :=
  chain s (block_head (tls s)) l /\ num_blocks (tls s) = zlen l /\
  zlen l <= MAX_BLOCKS_PER_THREAD /\ inv s (F ++ tls_refs l).

Definition same_bytes s s' rs : Prop := Forall (fun r => ref_bytes s' r = ref_bytes s r) rs.

Lemma same_bytes_trans s1 s2 s3 rs : same_bytes s1 s2 rs -> same_bytes s2 s3 rs -> same_bytes s1 s3 rs.
Proof.
  unfold same_bytes. rewrite !Forall_forall. intros H1' H2' r Hr. rewrite H2', H1'; done.
Qed.
Lemma same_bytes_refl s rs : same_bytes s s rs.
Proof. by apply Forall_true. Qed.
Lemma frame_same_bytes s s' rs : frame s s' rs -> same_bytes s s' rs.
Proof. intros [_ F]. eapply Forall_impl; [apply F|]. by intros r []. Qed.
Lemma same_bytes_contents s s' rs : same_bytes s s' rs -> contents s' rs = contents s rs.
Proof. unfold contents. induction 1 as [|r rs E _ IH]; simpl; [done|]. by rewrite E, IH. Qed.
Lemma same_bytes_app s s' rs qs : same_bytes s s' (rs ++ qs) <-> same_bytes s s' rs /\ same_bytes s s' qs.
Proof. apply Forall_app. Qed.

Lemma chain_frame s s' h l : frame s s' (tls_refs l) -> chain s h l -> chain s' h l.
Proof.
  intros [_ F]. revert h. induction l as [|a l IH]; intros h; simpl; [done|].
  apply Forall_cons in F as [[_ Hm] F]. intros [-> (b & E & Hu & Hc)]. split; [done|].
  unfold meta in Hm. simpl in Hm. rewrite E in Hm. simpl in Hm.
  destruct (heap s' !! a) as [b'|]; simplify_eq/=.
  exists b'. split; [done|]. unfold is_user in *. split; [congruence|]. rewrite H1. by apply IH.
Qed.

Lemma inv_set_tls s t G : inv s G <-> inv (set_tls t s) G.
Proof. split; intros []; by constructor. Qed.
Lemma chain_set_tls s t h l : chain (set_tls t s) h l <-> chain s h l.
Proof. revert h. induction l as [|a l IH]; intros h; simpl; [done|]. by setoid_rewrite IH. Qed.

Lemma chain_head_block s h a l : chain s h (a :: l) -> h = a /\ exists b, heap s !! a = Some b /\
  is_user b = false /\ chain s (u b) l.
Proof. done. Qed.

(** A fresh block is not one in use, and is counted once. *)
Lemma create_block_spec s G n : inv s G -> sizeof_Block <= n < 2 ^ 31 ->
  exists a s', create_block n s = Ok a s' /\ frame s s' G /\
    ((a = NULL /\ inv s' G) \/
     (a <> NULL /\ inv s' (tls_ref a :: G) /\
      heap s' !! a = Some (new_block (a + sizeof_Block) (n - sizeof_Block)
                             (replicate (Z.to_nat (n - sizeof_Block)) 0)))).
Proof.
  intros I Hn. unfold create_block. destruct (Z.ltb_spec 0xFFFFFFFF n); [lia|]. mstep.
  unfold sizeof_Block in *. rewrite u32_small by (unfold is_u32; lia).
  destruct (BlockAllocate n (pool s)) as [[a|] p] eqn:E.
  - destruct (pool_alloc_fresh _ _ _ _ E) as (Ha & Hfr & Hp & Hs).
    assert (heap s !! a = None) as Hnone.
    { destruct (heap s !! a) as [b|] eqn:Eb; [|done].
      pose proof (inv_blocks _ _ I _ _ Eb) as (_ & _ & _ & _ & _ & _ & Hl).
      destruct (is_user b); set_solver. }
    assert (forall r, r ∈ G -> r_block r <> a) as Hne.
    { intros r Hr Heq. destruct (inv_ref s G r I Hr) as (b & Eb & _). rewrite Heq in Eb. congruence. }
    eexists a, _. split; [reflexivity|]. split; [split; [done|]|right; split; [done|]; split].
    + rewrite Forall_forall. intros r Hr. unfold ref_bytes, meta. simpl.
      by rewrite lookup_insert_ne by (symmetry; by apply Hne).
    + constructor.
      * intros x. rewrite occ_cons. unfold count_of. simpl. rewrite <- (inv_count _ _ I). unfold count_of.
        destruct (Z.eqb_spec a x) as [<-|Hx].
        -- by rewrite lookup_insert_eq, Hnone.
        -- by rewrite lookup_insert_ne.
      * intros x b. simpl. destruct (decide (a = x)) as [<-|Hx].
        -- rewrite lookup_insert_eq. intros [= <-]. unfold block_ok, is_user. simpl.
           rewrite u32_small by (unfold is_u32; lia). rewrite Hp. unfold zlen. rewrite length_replicate.
           split_and!; try done; try lia. set_solver.
        -- rewrite lookup_insert_ne by done. intros Eb.
           pose proof (inv_blocks _ _ I _ _ Eb) as (? & ? & ? & ? & ? & ? & Hl).
           unfold block_ok. simpl. rewrite Hp, Hs. split_and!; try done; try lia.
           destruct (is_user b); set_solver.
      * apply Forall_cons. split.
        -- eexists. simpl. rewrite lookup_insert_eq. split; [done|]. simpl. lia.
        -- eapply Forall_impl; [apply (inv_refs _ _ I)|]. intros r (b & Eb & Hr).
           exists b. simpl. rewrite lookup_insert_ne by congruence. done.
    + simpl. by rewrite lookup_insert_eq.
  - destruct (pool_alloc_none _ _ _ E) as [Hp Hs].
    eexists NULL, _. split; [reflexivity|]. split; [split; [done|by apply Forall_true]|left].
    split; [done|]. destruct I as [Hc Hb Hr]. constructor; try done.
    intros a b Eb. unfold block_ok. simpl. rewrite Hp, Hs. by apply Hb.
Qed.

(** *** Taking the head of the chain *)

Lemma chain_head s h a l G : inv s G -> chain s h (a :: l) -> h = a /\ a <> NULL.
Proof. intros I [-> (b & E & _)]. split; [done|]. by destruct (inv_blocks _ _ I _ _ E). Qed.

Lemma skip_full_unfold fuel a : skip_full fuel a =
  if a =? NULL then ret NULL else
  let! b := load_block a in
  if full b then
    match fuel with
    | O => nofuel
    | S f =>
        let! _ := dec_ref a in
        let! t := get_tls in
        let! _ := put_tls (mkTLS (block_head t) (u64 (num_blocks t - 1)) (registered t)) in
        skip_full f (u b)
    end
  else ret a.
Proof. by destruct fuel. Qed.

Lemma num_blocks_pred a l : zlen (a :: l) <= MAX_BLOCKS_PER_THREAD -> u64 (zlen (a :: l) - 1) = zlen l.
Proof.
  unfold MAX_BLOCKS_PER_THREAD. rewrite zlen_cons. pose proof (zlen_nonneg l). intros.
  rewrite u64_small by (unfold is_u64; lia). lia.
Qed.

(** Releasing the first block of the chain. *)
Lemma chain_release s a b l G : inv s (G ++ tls_refs (a :: l)) -> heap s !! a = Some b ->
  chain s (u b) l ->
  exists s', dec_ref a s = Ok tt s' /\ inv s' (G ++ tls_refs l) /\ chain s' (u b) l /\
    frame s s' (G ++ tls_refs l).
Proof.
  intros I E Hc. simpl in I. rewrite <- Permutation_middle in I.
  destruct (dec_ref_spec s _ (tls_ref a) I) as (s' & Ed & I' & Fr). exists s'.
  split; [done|]. split; [done|]. split; [|done].
  apply frame_app in Fr as [_ Fr]. by apply (chain_frame s).
Qed.

Lemma skip_full_spec : forall l fuel s F h, chain s h l -> num_blocks (tls s) = zlen l ->
  zlen l <= MAX_BLOCKS_PER_THREAD -> (List.length l <= fuel)%nat -> inv s (F ++ tls_refs l) ->
  exists a s' l', skip_full fuel h s = Ok a s' /\ chain s' a l' /\ num_blocks (tls s') = zlen l' /\
    zlen l' <= zlen l /\ inv s' (F ++ tls_refs l') /\ same_bytes s s' F /\
    (forall b, heap s' !! a = Some b -> full b = false).
Proof.
  induction l as [|a l IH]; intros fuel s F h Hc Hn Hm Hf I; rewrite skip_full_unfold.
  - simpl in Hc. subst h. simpl. exists NULL, s, []. split; [done|]. split; [done|]. split; [done|].
    split; [lia|]. split; [done|]. split; [apply same_bytes_refl|].
    intros b Eb. by destruct (inv_blocks _ _ I _ _ Eb).
  - destruct (chain_head _ _ _ _ _ I Hc) as [-> Ha]. destruct Hc as [_ (b & E & Hu & Hc)].
    destruct (Z.eqb_spec a NULL); [done|].
    assert (load_block a s = Ok b s) as El by (unfold load_block; mstep; by rewrite E).
    exec El. destruct (full b) eqn:Hfull.
    + destruct fuel as [|f]; [simpl in Hf; lia|].
      destruct (chain_release s a b l F I E Hc) as (s1 & Ed & I1 & Hc1 & Fr1). exec Ed.
      unfold get_tls at 1, put_tls at 1. mstep. destruct Fr1 as [Ht Fr1]. rewrite Ht, Hn.
      rewrite num_blocks_pred by done.
      set (s2 := set_tls _ s1).
      destruct (IH f s2 F (u b)) as (x & s' & l' & E' & Hc' & Hn' & Hl' & I' & Sb & Hx).
      * by apply chain_set_tls.
      * done.
      * rewrite zlen_cons in Hm. lia.
      * simpl in Hf. lia.
      * by apply inv_set_tls.
      * exists x, s', l'. split; [done|]. split; [done|]. split; [done|].
        split; [rewrite zlen_cons; lia|]. split; [done|]. split; [|done].
        eapply same_bytes_trans; [|apply Sb].
        destruct (proj1 (frame_app s s1 F (tls_refs l)) (conj Ht Fr1)) as [Fr2 _].
        apply (frame_same_bytes _ _ _ Fr2).
    + exists a, s, (a :: l). split; [done|]. split; [simpl; eauto|]. split; [done|]. split; [lia|].
      split; [done|]. split; [apply same_bytes_refl|]. intros b' Eb. by simplify_eq.
Qed.

(** [share_tls_block] returns the head of the chain, which has room, or [NULL]
    when the pool has no memory. *)
Definition usable_head s (a : Z) l : Prop :=
  (a = NULL /\ l = []) \/
  (a <> NULL /\ exists b l', l = a :: l' /\ heap s !! a = Some b /\ is_user b = false /\ full b = false).

Lemma set_head_spec s F l a : chain s a l -> num_blocks (tls s) = zlen l ->
  zlen l <= MAX_BLOCKS_PER_THREAD -> inv s (F ++ tls_refs l) -> a <> NULL ->
  (forall b, heap s !! a = Some b -> full b = false) ->
  exists s', put_tls (mkTLS a (num_blocks (tls s)) (registered (tls s))) s = Ok tt s' /\
    tls_inv s' F l /\ same_bytes s s' F /\ usable_head s' a l.
Proof.
  intros Hc Hn Hl I Ha Hf. eexists. split; [reflexivity|]. unfold tls_inv.
  rewrite <- inv_set_tls, chain_set_tls. split; [done|]. split; [by apply Forall_true|].
  right. split; [done|]. destruct l as [|x l]; [done|]. destruct Hc as [-> (b & E & Hu & _)].
  exists b, l. split; [done|]. split; [done|]. split; [done|]. by apply Hf.
Qed.

Lemma create_head_spec s F : inv s (F ++ tls_refs []) -> num_blocks (tls s) = 0 ->
  exists a s' l', (let! new_block :=
      (let! nb := create_block DEFAULT_BLOCK_SIZE in
       if negb (nb =? NULL) then
         let! t := get_tls in
         let! _ := put_tls (mkTLS (block_head t) (num_blocks t + 1) (registered t)) in ret nb
       else ret nb) in
     let! t := get_tls in
     let! _ := put_tls (mkTLS new_block (num_blocks t) (registered t)) in
     ret new_block) s = Ok a s' /\ tls_inv s' F l' /\ same_bytes s s' F /\ usable_head s' a l'.
Proof.
  intros I Hn. simpl in I. rewrite app_nil_r in I.
  destruct (create_block_spec s F DEFAULT_BLOCK_SIZE I) as (a & s1 & Ec & Fr & Hcase).
  { unfold sizeof_Block, DEFAULT_BLOCK_SIZE. lia. }
  pose proof (frame_same_bytes _ _ _ Fr) as Sb. destruct Fr as [Ht _].
  unfold bind at 1 2. rewrite Ec. destruct Hcase as [[-> I1]|(Ha & I1 & E)].
  - rewrite Z.eqb_refl. unfold get_tls, put_tls. mstep. eexists NULL, _, []. split; [reflexivity|].
    unfold tls_inv. rewrite <- inv_set_tls. simpl. rewrite Ht, Hn, app_nil_r.
    split; [|split; [done|by left]]. split; [done|]. split; [done|]. split; [|done].
    unfold MAX_BLOCKS_PER_THREAD. rewrite zlen_nil. lia.
  - destruct (Z.eqb_spec a NULL); [done|]. unfold get_tls, put_tls. mstep.
    eexists a, _, [a]. split; [reflexivity|]. unfold tls_inv. rewrite <- !inv_set_tls. simpl.
    rewrite E, Ht, Hn. unfold MAX_BLOCKS_PER_THREAD. split; [|split; [done|right]].
    + split; [by eauto|]. split; [done|]. split; [done|]. by rewrite <- Permutation_cons_append.
    + split; [done|]. eexists _, []. split; [done|]. split; [done|]. done.
Qed.

Lemma share_tls_block_spec s F l : tls_inv s F l ->
  exists a s' l', share_tls_block s = Ok a s' /\ tls_inv s' F l' /\ same_bytes s s' F /\
    usable_head s' a l'.
Proof.
  intros T. pose proof T as (Hc & Hn & Hm & I). unfold share_tls_block, get_tls at 1. mstep.
  destruct l as [|x l].
  - simpl in Hc. rewrite Hc. simpl.
    destruct (registered (tls s)) eqn:Hr; mstep.
    + apply (create_head_spec s F I Hn).
    + destruct (create_head_spec (set_tls (mkTLS NULL (num_blocks (tls s)) true) s) F) as (a & s' & l' & E & R).
      * by apply inv_set_tls.
      * done.
      * exists a, s', l'. split; [exact E|]. exact R.
  - destruct (chain_head _ _ _ _ _ I Hc) as [Hx Ha]. rewrite Hx.
    destruct Hc as [_ (b & E & Hu & Hc)].
    destruct (Z.eqb_spec x NULL); [done|]. unfold load_block at 1. mstep. rewrite E. simpl.
    destruct (full b) eqn:Hfull; simpl.
    + rewrite Hn.
      destruct (skip_full_spec (x :: l) (Z.to_nat (zlen (x :: l))) s F x) as
        (a & s1 & l1 & E1 & Hc1 & Hn1 & Hl1 & I1 & Sb & Hroom); try done.
      { simpl. eauto. } { unfold zlen. lia. }
      simpl in E1. rewrite E1. destruct (Z.eqb_spec a NULL) as [->|Ha1].
      * destruct l1 as [|y l1]; [|by destruct (chain_head _ _ _ _ _ I1 Hc1) as [<- ?]].
        destruct (create_head_spec s1 F I1 Hn1) as (a & s' & l' & E2 & T2 & Sb2 & U2).
        exists a, s', l'. split; [exact E2|]. split; [done|]. split; [|done].
        by eapply same_bytes_trans.
      * destruct (set_head_spec s1 F l1 a) as (s' & E2 & T2 & Sb2 & U2); try done; [lia|].
        exists a, s', l1. unfold put_tls, modify in E2. simplify_eq. split; [reflexivity|].
        split; [done|]. split; [|done]. by eapply same_bytes_trans.
    + exists x, s, (x :: l). split; [done|]. split; [done|]. split; [apply same_bytes_refl|].
      right. split; [done|]. exists b, l. done.
Qed.

(** *** Writing behind the bytes of a block *)

Definition written (b : Block) (bs : list Z) : list Z :=
  take (Z.to_nat (b_size b)) (bytes b) ++ bs ++ drop (Z.to_nat (b_size b + zlen bs)) (bytes b).

Lemma zlen_written b bs : 0 <= b_size b -> b_size b + zlen bs <= zlen (bytes b) ->
  zlen (written b bs) = zlen (bytes b).
Proof.
  intros. pose proof (zlen_nonneg bs). unfold written. rewrite !zlen_app. unfold zlen in *.
  rewrite length_take, length_drop. lia.
Qed.
Lemma slice_written_old b bs off n : 0 <= off -> 0 <= n -> off + n <= b_size b <= zlen (bytes b) ->
  slice off n (written b bs) = slice off n (bytes b).
Proof.
  intros. unfold slice, written.
  rewrite drop_app_le by (rewrite length_take; unfold zlen in *; lia).
  rewrite take_app_le by (rewrite length_drop, length_take; unfold zlen in *; lia).
  rewrite skipn_firstn_comm, take_take. f_equal. lia.
Qed.
Lemma slice_written_new b bs : 0 <= b_size b <= zlen (bytes b) ->
  slice (b_size b) (zlen bs) (written b bs) = bs.
Proof.
  intros. unfold slice, written.
  rewrite drop_app_length' by (rewrite length_take; unfold zlen in *; lia).
  apply take_app_length'. unfold zlen. lia.
Qed.

Lemma write_block_spec s G a b bs : inv s G -> heap s !! a = Some b -> b_size b + zlen bs <= b_cap b ->
  write_block a (b_size b) bs s = Ok tt (set_heap (<[a := set_bytes (written b bs) b]> (heap s)) s).
Proof.
  intros I E Hle. pose proof (inv_blocks _ _ I _ _ E) as (_ & _ & _ & ? & _ & Hz & _).
  unfold write_block, load_block, store_block. mstep. rewrite E. simpl.
  destruct (Z.leb_spec 0 (b_size b)); [|lia].
  by destruct (Z.leb_spec (b_size b + zlen bs) (zlen (bytes b))); [|lia].
Qed.

Definition extended (b : Block) (bs : list Z) : Block :=
  set_size (b_size b + zlen bs) (set_bytes (written b bs) b).

(** The bytes behind [size] belong to nobody, so writing them disturbs no
    reference. *)
Lemma extend_block s G a b bs : inv s G -> heap s !! a = Some b -> b_size b + zlen bs <= b_cap b ->
  let s' := set_heap (<[a := extended b bs]> (heap s)) s in
  inv s' G /\ frame s s' G /\ ref_ok s' (mkRef (b_size b) (zlen bs) a) /\
  ref_bytes s' (mkRef (b_size b) (zlen bs) a) = bs.
Proof.
  intros I E Hle s'. pose proof (zlen_nonneg bs).
  pose proof (inv_blocks _ _ I _ _ E) as (? & ? & ? & ? & ? & Hz & Hl). split.
  { apply (inv_insert s a b _ G); try done.
    - simpl. lia.
    - unfold block_ok, is_user in *. simpl. rewrite zlen_written by lia. split_and!; try done; lia.
    - intros x. simpl. destruct (_ =? _); lia.
    - eapply Forall_impl; [apply (inv_refs _ _ I)|]. intros q. apply (ref_ok_insert s _ b); [done|].
      simpl. lia. }
  split; [split; [done|]|split].
  - apply Forall_forall. intros r Hr. destruct (inv_ref s G r I Hr) as (c & Ec & Hc).
    unfold ref_bytes, meta. simpl. destruct (decide (r_block r = a)) as [Eq|Hne].
    + rewrite Eq in *. rewrite lookup_insert_eq, E. simplify_eq. simpl. split; [|done].
      apply slice_written_old; lia.
    + by rewrite lookup_insert_ne.
  - exists (extended b bs). simpl. rewrite lookup_insert_eq. split; [done|]. simpl. lia.
  - unfold ref_bytes. simpl. rewrite lookup_insert_eq. simpl. apply slice_written_new. lia.
Qed.

Lemma tls_inv_frame s s' F F' l : tls_inv s F l -> frame s s' (tls_refs l) -> inv s' (F' ++ tls_refs l) ->
  tls_inv s' F' l.
Proof.
  intros (Hc & Hn & Hm & _) Fr I. pose proof Fr as [Ht _]. unfold tls_inv. rewrite Ht.
  split; [|done]. by apply (chain_frame s).
Qed.

(** The order of [append]: the bytes are copied, the reference is pushed, and
    only then the size of the block grows. *)
Lemma push_then_size s iob rs G a b bs : view iob rs -> inv s (rs ++ G) -> heap s !! a = Some b ->
  bs <> [] -> b_size b + zlen bs <= b_cap b -> total rs + zlen bs < 2 ^ 30 ->
  let r := mkRef (b_size b) (zlen bs) a in
  exists s1 iob' s2 b2, write_block a (b_size b) bs s = Ok tt s1 /\
    _push_back_ref iob r s1 = Ok iob' s2 /\ heap s2 !! a = Some b2 /\ b_size b2 = b_size b /\
    let s' := set_heap (<[a := set_size (b_size b + zlen bs) b2]> (heap s2)) s2 in
    view iob' (push_refs rs r) /\ inv s' (push_refs rs r ++ G) /\ frame s s' (rs ++ G) /\
    contents s' (push_refs rs r) = contents s rs ++ bs.
Proof.
  intros V I E Hne Hle Ht r. pose proof (inv_blocks _ _ I _ _ E) as (Hnz & Hn & Habi & Hsz & Hcap & Hz & Hl).
  assert (0 < zlen bs) as Hpos by (destruct bs; [done|rewrite zlen_cons; pose proof (zlen_nonneg bs); lia]).
  assert (ref_wf r) as Hr by (unfold ref_wf, r; simpl; lia).
  rewrite (write_block_spec s (rs ++ G) a b bs I E Hle).
  set (s1 := set_heap _ s). exists s1.
  destruct (push_view false iob rs r s1 V Hr Ht) as (iob' & V' & Ep). exists iob'.
  destruct (extend_block s (rs ++ G) a b bs I E Hle) as (Ie & Fe & Oe & Be).
  set (se := set_heap (<[a := extended b bs]> (heap s)) s) in *. fold r in Oe, Be.
  unfold _push_back_ref. rewrite Ep. pose proof V as (Hf & _ & _).
  pose proof (proj1 (proj1 (frame_app _ _ _ _) Fe)) as Fers.
  unfold count_push. destruct (merges rs r) eqn:Hm; simpl.
  - destruct (push_merged se rs r G Hf Hr Ie Oe Hm) as [I' Hc].
    exists s1, (set_bytes (written b bs) b). split; [done|]. split; [done|].
    split; [by apply lookup_insert_eq|]. split; [done|].
    assert (set_heap (<[a := set_size (b_size b + zlen bs) (set_bytes (written b bs) b)]> (heap s1)) s1 = se)
      as -> by (unfold set_heap, se, s1; simpl; by rewrite insert_insert_eq).
    split; [done|]. split; [done|]. split; [done|]. by rewrite Hc, Be, (frame_contents _ _ _ Fers).
  - destruct (inc_ref_spec se (rs ++ G) r Ie Oe) as (s' & Ei & I' & Fr').
    unfold inc_ref, load_block, store_block, s1, bind, get, deref, check, modify, ret in *. simpl in *.
    rewrite lookup_insert_eq in *. simpl in *. rewrite Habi in *. simpl in *.
    eexists _, _. split; [done|]. split; [done|]. simpl. split; [by rewrite lookup_insert_eq|].
    split; [done|].
    injection Ei as Es. unfold se, set_heap in Es. simpl in Es. rewrite insert_insert_eq in Es.
    unfold set_heap. simpl. rewrite !insert_insert_eq.
    unfold extended, set_nshared, set_size, set_bytes in *. simpl in *. rewrite Es.
    rewrite (push_unmerged rs r Hm) in *. split; [done|]. split; [by rewrite perm_snoc_head|].
    split; [eapply frame_trans; [exact Fe|]; eapply frame_sub; [|exact Fr']; set_solver|].
    rewrite contents_app, contents_cons, contents_nil, app_nil_r.
    pose proof Fr' as [_ Fr2]. apply Forall_cons in Fr2 as [[-> _] _]. rewrite Be. f_equal.
    rewrite <- (frame_contents _ _ _ Fers). apply frame_contents.
    eapply frame_sub; [|exact Fr']. set_solver.
Qed.

(** ** Appending

    [owns s b rs F l bs]: IOBuf [b] holds [rs] and denotes the bytes [bs], the
    thread-local chain is [l], and [F] are the other references. *)
Definition owns s (b : IOBuf) rs F l (bs : list Z) : Prop :=
  view b rs /\ tls_inv s (rs ++ F) l /\ contents s rs = bs.

Lemma owns_held s b rs F l bs : owns s b rs F l bs -> held s b rs (F ++ tls_refs l) bs.
Proof. intros (V & (_ & _ & _ & I) & Hc). split; [done|]. rewrite <- (assoc (++)) in I. done. Qed.
Lemma owns_length s b rs F l bs : owns s b rs F l bs -> zlen bs = total rs.
Proof. intros Ho. by eapply held_length, owns_held. Qed.

(** One block of bytes appended to the head of the chain. *)
Lemma append_block s b rs F l a blk l' bs chunk : owns s b rs F l bs -> l = a :: l' ->
  heap s !! a = Some blk -> chunk <> [] -> b_size blk + zlen chunk <= b_cap blk ->
  zlen bs + zlen chunk < 2 ^ 30 ->
  let r := mkRef (b_size blk) (zlen chunk) a in
  exists s1 b' s2 b2, write_block a (b_size blk) chunk s = Ok tt s1 /\
    _push_back_ref b r s1 = Ok b' s2 /\ heap s2 !! a = Some b2 /\ b_size b2 = b_size blk /\
    let s' := set_heap (<[a := set_size (b_size blk + zlen chunk) b2]> (heap s2)) s2 in
    owns s' b' (push_refs rs r) F l (bs ++ chunk) /\ same_bytes s s' F.
Proof.
  intros Ho Hl E Hne Hle Ht r. rewrite (owns_length _ _ _ _ _ _ Ho) in Ht.
  destruct Ho as (V & T & <-). pose proof T as (_ & _ & _ & I). rewrite <- (assoc (++)) in I.
  destruct (push_then_size s b rs (F ++ tls_refs l) a blk chunk V I E Hne Hle Ht)
    as (s1 & b' & s2 & b2 & E1 & E2 & E3 & E4 & V' & I' & Fr & Hc).
  exists s1, b', s2, b2. split; [done|]. split; [done|]. split; [done|]. split; [done|].
  apply frame_app in Fr as [_ Fr]. apply frame_app in Fr as [Fr1 Fr2].
  split; [|by apply frame_same_bytes]. split; [done|]. split; [|done].
  apply (tls_inv_frame s _ (rs ++ F)); [done|done|]. by rewrite <- (assoc (++)).
Qed.

Lemma left_space_spec s G a b : inv s G -> heap s !! a = Some b -> left_space b = b_cap b - b_size b.
Proof.
  intros I E. pose proof (inv_blocks _ _ I _ _ E) as (_ & _ & _ & ? & ? & _).
  unfold left_space. apply u32_small. unfold is_u32. lia.
Qed.
Lemma not_full b : full b = false -> b_size b < b_cap b.
Proof. unfold full. destruct (Z.leb_spec (b_cap b) (b_size b)); [done|lia]. Qed.

Lemma load_block_ok s a b : heap s !! a = Some b -> load_block a s = Ok b s.
Proof. intros E. unfold load_block. mstep. by rewrite E. Qed.

Lemma owns_share s b rs F l bs : owns s b rs F l bs ->
  exists a s' l', share_tls_block s = Ok a s' /\ owns s' b rs F l' bs /\ same_bytes s s' F /\
    usable_head s' a l'.
Proof.
  intros (V & T & <-). destruct (share_tls_block_spec s (rs ++ F) l T) as (a & s' & l' & E & T' & Sb & U).
  apply same_bytes_app in Sb as [Sb1 Sb2]. exists a, s', l'. split; [done|]. split; [|done].
  split; [done|]. split; [done|]. by apply same_bytes_contents.
Qed.

(** [append] and [resize] add the bytes [data], block by block.  When memory
    runs out a prefix has been added, and the result is -1. *)
Lemma fill_loop_spec data chunk : (forall off n, chunk off n = slice off n data \/ n < 0 \/ off < 0 \/ zlen data < off + n) ->
  forall fuel s b rs F l bs off, owns s b rs F l bs -> 0 <= off <= zlen data ->
  zlen bs + (zlen data - off) < 2 ^ 30 -> zlen data - off <= Z.of_nat fuel ->
  exists rc b' s' rs' l' k, fill_loop fuel chunk b off (zlen data) s = Ok (rc, b') s' /\
    owns s' b' rs' F l' (bs ++ slice off k data) /\ same_bytes s s' F /\
    ((rc = 0 /\ k = zlen data - off) \/ (rc = -1 /\ 0 <= k < zlen data - off)).
Proof.
  intros Hchunk. induction fuel as [|f IH]; intros s b rs F l bs off Ho Hoff Hb Hf; simpl;
    destruct (Z.ltb_spec off (zlen data)) as [Hlt|Hge]; try lia.
  1, 3: exists 0, b, s, rs, l, 0; rewrite slice_0, app_nil_r; split; [done|]; split; [done|];
        split; [apply same_bytes_refl|left; lia].
  destruct (owns_share s b rs F l bs Ho) as (a & s1 & l1 & E1 & Ho1 & Sb1 & U). exec E1.
  destruct U as [[-> ->]|(Ha & blk & l' & El & E & Hu & Hroom)].
  { exists (-1), b, s1, rs, [], 0. rewrite Z.eqb_refl, slice_0, app_nil_r. split; [done|].
    split; [done|]. split; [done|]. right. lia. }
  destruct (Z.eqb_spec a NULL); [done|]. exec (load_block_ok _ _ _ E).
  pose proof Ho1 as (_ & (_ & _ & _ & I1) & _). apply not_full in Hroom.
  rewrite (left_space_spec _ _ _ _ I1 E). set (nc := Z.min _ _).
  pose proof (inv_blocks _ _ I1 _ _ E) as (_ & _ & _ & Hsz & Hcap & _).
  assert (chunk off nc = slice off nc data) as -> by (destruct (Hchunk off nc) as [?|?]; [done|lia]).
  assert (zlen (slice off nc data) = nc) as Hnc by (apply zlen_slice; lia).
  rewrite (u32_small nc) by (unfold is_u32; lia).
  destruct (append_block s1 b rs F l1 a blk l' bs (slice off nc data)) as
    (s2 & b' & s3 & b3 & E2 & E3 & E4 & Hs3 & Ho2 & Sb2); try done.
  { intros Hnil. rewrite Hnil in Hnc. change (0 = nc) in Hnc. lia. } { lia. } { lia. }
  rewrite Hnc in E3, Ho2, Sb2. exec E2. exec E3. exec (load_block_ok _ _ _ E4).
  unfold store_block at 1. unfold bind at 1. unfold modify at 1. rewrite Hs3.
  rewrite (u32_small (_ + nc)) by (unfold is_u32; lia).
  destruct (IH _ _ _ _ _ _ (off + nc) Ho2) as (rc & bf & sf & rsf & lf & k & Ef & Hof & Sbf & Hrc).
  { lia. } { rewrite zlen_app. lia. } { lia. }
  exists rc, bf, sf, rsf, lf, (nc + k). split; [exact Ef|].
  assert (0 <= k) by lia. rewrite <- slice_app by lia. rewrite (assoc (++)).
  split; [done|]. split; [|lia].
  eapply same_bytes_trans; [exact Sb1|]. eapply same_bytes_trans; [exact Sb2|exact Sbf].
Qed.

Lemma push_back_byte_spec s b rs F l bs c : owns s b rs F l bs -> zlen bs + 1 < 2 ^ 30 ->
  exists rc b' s' rs' l' k, push_back b c s = Ok (rc, b') s' /\
    owns s' b' rs' F l' (bs ++ slice 0 k [c]) /\ same_bytes s s' F /\
    ((rc = 0 /\ k = 1) \/ (rc = -1 /\ k = 0)).
Proof.
  intros Ho Hb. unfold push_back.
  destruct (owns_share s b rs F l bs Ho) as (a & s1 & l1 & E1 & Ho1 & Sb1 & U). exec E1.
  destruct U as [[-> ->]|(Ha & blk & l' & El & E & Hu & Hroom)].
  { exists (-1), b, s1, rs, [], 0. rewrite Z.eqb_refl, slice_0, app_nil_r. split; [done|].
    split; [done|]. split; [done|]. by right. }
  destruct (Z.eqb_spec a NULL); [done|]. exec (load_block_ok _ _ _ E).
  pose proof Ho1 as (V & T1 & Hc1). pose proof T1 as (_ & _ & _ & I1). apply not_full in Hroom.
  pose proof (inv_blocks _ _ I1 _ _ E) as (_ & _ & _ & Hsz & Hcap & _).
  rewrite (bind_ok _ _ _ _ _ (write_block_spec _ _ _ _ [c] I1 E ltac:(rewrite zlen_cons, zlen_nil; lia))).
  assert (zlen [c] = 1) as H1 by done.
  destruct (extend_block s1 _ a blk [c] I1 E ltac:(lia)) as (I2 & F2 & O2 & B2).
  set (s2 := set_heap (<[a := extended blk [c]]> (heap s1)) s1) in *.
  unfold load_block at 1, store_block at 1. unfold bind at 1 2 3, get, deref. simpl.
  rewrite lookup_insert_eq. simpl. rewrite insert_insert_eq.
  rewrite (u32_small (_ + 1)) by (unfold is_u32; lia). change (set_heap _ (set_heap _ _)) with s2.
  rewrite <- (assoc (++)) in I2.
  rewrite (owns_length _ _ _ _ _ _ Ho1) in Hb.
  destruct (push_back_ref_spec s2 b rs (mkRef (b_size blk) 1 a) (F ++ tls_refs l1) V I2 O2) as
    (b' & s3 & E3 & V3 & I3 & F3 & C3); [unfold ref_wf; simpl; lia|done|].
  eexists 0, b', s3, _, l1, 1. split; [by exec E3|].
  apply frame_app in F2 as [[Fr1 Fr2]%frame_app Fr3].
  apply frame_app with (rs := [_]) (qs := rs ++ F ++ tls_refs l1) in F3 as [_ F3].
  apply frame_app in F3 as [G1 [G2 G3]%frame_app].
  split; [|split; [|by left]].
  - split; [exact V3|]. split.
    + apply (tls_inv_frame s1 _ (rs ++ F)); [done|by eapply frame_trans|]. by rewrite <- (assoc (++)).
    + rewrite C3, (frame_contents _ _ _ Fr1), Hc1. f_equal. exact B2.
  - eapply same_bytes_trans; [exact Sb1|]. eapply frame_same_bytes, frame_trans; [exact Fr2|exact G2].
Qed.

End chain.
