(* ===== verification/IOBufShare.v ===== *)
(** * IOBuf: specifications of the operations that add or share bytes

    [append] in its forms, [push_back], [resize], [append_user_data_with_meta]
    and copying, against the bytes the IOBufs denote, in the presence of the
    thread-local block chain; and the two directions of block hand-over between
    that chain and the streams ([release_tls_block], [acquire_tls_block]). *)
From S2P Require Import Prelude IOBuf IOBufHeap IOBufOps IOBufEquals IOBufAppend.
Local Open Scope Z_scope.

Section spec.
Context {P : Type} `{AllocatorLaws P}.
Implicit Types (s : St P) (b c : IOBuf) (rs qs F G : list BlockRef) (l : list Z).

(** An operation that does not touch the chain. *)
Lemma owns_step s s' b b' rs rs' F l bs bs' : owns s b rs F l bs ->
  held s' b' rs' (F ++ tls_refs l) bs' -> frame s s' (F ++ tls_refs l) ->
  owns s' b' rs' F l bs' /\ same_bytes s s' F.
Proof.
  intros (V & T & _) (V' & I' & Hc) [Fr1 Fr2]%frame_app. split; [|by apply frame_same_bytes].
  split; [done|]. split; [|done]. apply (tls_inv_frame s _ (rs ++ F)); [done..|]. by rewrite <- (assoc (++)).
Qed.

Lemma cutn_string_spec s b rs F bs out n : held s b rs F bs -> 0 <= n ->
  exists b' rs' s', cutn_string b out n s = Ok (Z.min n (zlen bs), b', out ++ take (Z.to_nat n) bs) s' /\
    held s' b' rs' F (drop (Z.to_nat n) bs) /\ frame s s' F.
Proof.
  intros Hh Hn. pose proof (zlen_nonneg bs). unfold cutn_string. destruct (Z.eqb_spec n 0) as [->|Hn0].
  - exists b, rs, s. rewrite Z.min_l by lia. rewrite app_nil_r. split; [done|]. split; [done|apply frame_refl].
  - pose proof Hh as (V & _ & _). exec (IOBuf_length_spec b rs s V). rewrite <- (held_length _ _ _ _ _ Hh).
    set (m := if zlen bs <? n then zlen bs else n).
    assert (m = Z.min n (zlen bs)) as Em by (unfold m; destruct (Z.ltb_spec (zlen bs) n); lia).
    destruct (cutn_raw_spec s b rs F bs m Hh ltac:(lia)) as (b' & rs' & s' & E & Hh' & Fr). exec E.
    assert (take (Z.to_nat m) bs = take (Z.to_nat n) bs /\ drop (Z.to_nat m) bs = drop (Z.to_nat n) bs) as [Et Ed].
    { destruct (decide (n <= zlen bs)); [by replace m with n by lia|].
      unfold zlen in *. rewrite !take_ge, !drop_ge by lia. done. }
    rewrite Et, Ed in *. exists b', rs', s'. simpl. split; [|done]. do 3 f_equal. lia.
Qed.

(** *** Appending bytes *)

Definition appended s b F l (bs data : list Z) (m : M (St P) (Z * IOBuf)) : Prop :=
  exists rc b' s' rs' l' k, m s = Ok (rc, b') s' /\
    owns s' b' rs' F l' (bs ++ take k data) /\ same_bytes s s' F /\
    ((rc = 0 /\ k = List.length data) \/ (rc = -1 /\ (k < List.length data)%nat)).

Lemma slice_from_0 {A} k (d : list A) : slice 0 k d = take (Z.to_nat k) d.
Proof. done. Qed.

Lemma appended_fill s b rs F l bs data chunk :
  (forall off n, chunk off n = slice off n data \/ n < 0 \/ off < 0 \/ zlen data < off + n) ->
  owns s b rs F l bs -> zlen bs + zlen data < 2 ^ 30 ->
  appended s b F l bs data (fill_loop (Z.to_nat (zlen data)) chunk b 0 (zlen data)).
Proof.
  intros Hc Ho Hb. pose proof (zlen_nonneg data).
  destruct (fill_loop_spec data chunk Hc (Z.to_nat (zlen data)) s b rs F l bs 0 Ho)
    as (rc & b' & s' & rs' & l' & k & E & Ho' & Sb & Hrc); try lia.
  exists rc, b', s', rs', l', (Z.to_nat k). rewrite slice_from_0 in Ho'.
  split; [done|]. split; [done|]. split; [done|]. unfold zlen in *. lia.
Qed.

Lemma appended_push_back s b rs F l bs x : owns s b rs F l bs -> zlen bs + 1 < 2 ^ 30 ->
  appended s b F l bs [x] (push_back b x).
Proof.
  intros Ho Hb. destruct (push_back_byte_spec s b rs F l bs x Ho Hb)
    as (rc & b' & s' & rs' & l' & k & E & Ho' & Sb & Hrc).
  exists rc, b', s', rs', l', (Z.to_nat k). rewrite slice_from_0 in Ho'.
  split; [done|]. split; [done|]. split; [done|]. simpl. lia.
Qed.

Lemma append_spec s b rs F l bs data : owns s b rs F l bs -> zlen bs + zlen data < 2 ^ 30 ->
  appended s b F l bs data (append b (Some data)).
Proof.
  intros Ho Hb. unfold append. destruct (Z.eqb_spec (zlen data) 1) as [H1|H1].
  - destruct data as [|x [|y data]]; [done| |rewrite !zlen_cons in H1; pose proof (zlen_nonneg data); lia].
    simpl. apply (appended_push_back s b rs F l bs x Ho). done.
  - apply (appended_fill _ _ rs); [|done..]. intros. by left.
Qed.

Lemma slice_replicate {A} off n k (x : A) : 0 <= off -> 0 <= n -> off + n <= k ->
  slice off n (replicate (Z.to_nat k) x) = replicate (Z.to_nat n) x.
Proof. intros. unfold slice. rewrite drop_replicate, take_replicate. f_equal. lia. Qed.

(** [resize] shortens, or appends copies of one byte. *)
Lemma resize_grow_spec s b rs F l bs n x : owns s b rs F l bs -> zlen bs <= n < 2 ^ 30 ->
  appended s b F l bs (replicate (Z.to_nat (n - zlen bs)) x) (resize b n x).
Proof.
  intros Ho Hn. unfold resize. pose proof Ho as (V & _ & _).
  assert (zlen (replicate (Z.to_nat (n - zlen bs)) x) = n - zlen bs) as Hl
    by (unfold zlen at 1; rewrite length_replicate; lia).
  unfold appended. setoid_rewrite (bind_ok _ _ _ _ _ (IOBuf_length_spec b rs s V)).
  rewrite <- (owns_length _ _ _ _ _ _ Ho). destruct (Z.ltb_spec n (zlen bs)); [lia|].
  set (data := replicate _ x) in *. rewrite <- Hl.
  apply (appended_fill s b rs F l bs data); [|done|lia]. intros off k.
  destruct (decide (0 <= k /\ 0 <= off /\ off + k <= n - zlen bs)) as [(?&?&?)|?]; [|right; lia].
  left. unfold data. by rewrite slice_replicate by lia.
Qed.

Lemma resize_shrink_spec s b rs F l bs n x : owns s b rs F l bs -> 0 <= n < zlen bs ->
  exists b' rs' s', resize b n x s = Ok (0, b') s' /\ owns s' b' rs' F l (take (Z.to_nat n) bs) /\
    same_bytes s s' F.
Proof.
  intros Ho Hn. unfold resize. pose proof Ho as (V & _ & _).
  exec (IOBuf_length_spec b rs s V). rewrite <- (owns_length _ _ _ _ _ _ Ho).
  destruct (Z.ltb_spec n (zlen bs)); [|lia].
  destruct (pop_back_spec s b rs _ bs (zlen bs - n) (owns_held _ _ _ _ _ _ Ho)) as (b' & rs' & s' & E & Hh & Fr); [lia|].
  exec E. exists b', rs', s'. split; [done|].
  replace (_ - _)%nat with (Z.to_nat n) in Hh by (unfold zlen in *; lia).
  by apply (owns_step s s' b b' rs rs' F l bs).
Qed.

(** *** Sharing the bytes of another IOBuf *)

Lemma append_refs_spec other qs s0 : view other qs ->
  forall todo d s b rs G, qs = d ++ todo -> view b rs -> inv s (rs ++ G) -> qs ⊆ G ->
  total rs + total todo < 2 ^ 30 -> frame s0 s G ->
  exists b' s' rs', append_refs (List.length todo) (zlen d) b other s = Ok b' s' /\ view b' rs' /\
    inv s' (rs' ++ G) /\ frame s0 s' G /\ contents s' rs' = contents s rs ++ contents s0 todo.
Proof.
  intros Vo. induction todo as [|q todo IH]; intros d s b rs G Hq V I Hsub Ht Fr; simpl.
  { exists b, s, rs. by rewrite contents_nil, app_nil_r. }
  assert (qs !! List.length d = Some q) as Hlk by (by rewrite Hq, list_lookup_middle).
  exec (_ref_at_spec other qs (List.length d) q s Vo Hlk).
  assert (q ∈ G) as Hin by (apply Hsub; rewrite Hq; set_solver).
  pose proof Vo as (Hwf & _ & _). rewrite Hq in Hwf. apply Forall_app in Hwf as [_ Hwf].
  apply Forall_cons in Hwf as [Hqw Hwf].
  pose proof (total_nonneg todo Hwf). simpl in Ht.
  destruct (push_back_ref_spec s b rs q G V I) as (b1 & s1 & E1 & V1 & I1 & F1 & C1);
    [apply (inv_ref s _ q I); set_solver|done|lia|].
  exec E1. replace (zlen d + 1) with (zlen (d ++ [q])) by apply zlen_snoc.
  assert (frame s s1 G) as F1' by (eapply frame_sub; [|exact F1]; set_solver).
  destruct (IH (d ++ [q]) s1 b1 (push_refs rs q) G) as (b' & s' & rs' & E & V' & I' & F' & C'); try done.
  - by rewrite <- (assoc (++)).
  - pose proof V as (Hwr & _ & _). destruct (push_refs_wf rs q Hwr Hqw) as [_ ->]; lia.
  - by eapply frame_trans.
  - exists b', s', rs'. split; [done|]. split; [done|]. split; [done|]. split; [done|].
    rewrite C', C1, contents_cons, <- (assoc (++)). do 2 f_equal.
    destruct Fr as [_ Fr]. rewrite Forall_forall in Fr. by apply Fr.
Qed.

Lemma move_refs_spec other qs s0 : view other qs ->
  forall todo d s b rs G, qs = d ++ todo -> view b rs -> inv s (rs ++ todo ++ G) ->
  total rs + total todo < 2 ^ 30 -> frame s0 s (todo ++ G) ->
  exists b' s' rs', move_refs (List.length todo) (zlen d) b other s = Ok b' s' /\ view b' rs' /\
    inv s' (rs' ++ G) /\ frame s0 s' G /\ contents s' rs' = contents s rs ++ contents s0 todo.
Proof.
  intros Vo. induction todo as [|q todo IH]; intros d s b rs G Hq V I Ht Fr; simpl.
  { exists b, s, rs. by rewrite contents_nil, app_nil_r. }
  assert (qs !! List.length d = Some q) as Hlk by (by rewrite Hq, list_lookup_middle).
  exec (_ref_at_spec other qs (List.length d) q s Vo Hlk).
  pose proof Vo as (Hwf & _ & _). rewrite Hq in Hwf. apply Forall_app in Hwf as [_ Hwf].
  apply Forall_cons in Hwf as [Hqw Hwf].
  pose proof (total_nonneg todo Hwf). simpl in Ht, I. rewrite <- Permutation_middle in I.
  destruct (move_back_ref_spec s b rs q (todo ++ G) V I Hqw) as (b1 & s1 & E1 & V1 & I1 & F1 & C1); [lia|].
  exec E1. replace (zlen d + 1) with (zlen (d ++ [q])) by apply zlen_snoc.
  apply frame_app in F1 as [_ F1]. apply frame_app with (rs := [q]) in Fr as [Fq Fr].
  destruct (IH (d ++ [q]) s1 b1 (push_refs rs q) G) as (b' & s' & rs' & E & V' & I' & F' & C'); try done.
  - by rewrite <- (assoc (++)).
  - pose proof V as (Hwr & _ & _). destruct (push_refs_wf rs q Hwr Hqw) as [_ ->]; lia.
  - by eapply frame_trans.
  - exists b', s', rs'. split; [done|]. split; [done|]. split; [done|]. split; [done|].
    rewrite C', C1, contents_cons, <- (assoc (++)). do 2 f_equal.
    destruct Fq as [_ Fq]. rewrite Forall_singleton in Fq. by apply Fq.
Qed.

(** Two IOBufs side by side. *)
Definition owns2 s b rs c qs F l (bs cs : list Z) : Prop :=
  view b rs /\ view c qs /\ tls_inv s (rs ++ qs ++ F) l /\ contents s rs = bs /\ contents s qs = cs.

Lemma tls_inv_perm s F F' l : F ≡ₚ F' -> tls_inv s F l -> tls_inv s F' l.
Proof. intros Hp (? & ? & ? & I). unfold tls_inv. split_and!; try done. by rewrite <- Hp. Qed.

Lemma owns2_inv s b rs c qs F l bs cs : owns2 s b rs c qs F l bs cs ->
  inv s (rs ++ qs ++ F ++ tls_refs l).
Proof. intros (_ & _ & (_ & _ & _ & I) & _). by rewrite <- !(assoc (++)) in I. Qed.

Lemma owns2_total s b rs c qs F l bs cs : owns2 s b rs c qs F l bs cs ->
  zlen bs = total rs /\ zlen cs = total qs.
Proof.
  intros Ho. pose proof (owns2_inv _ _ _ _ _ _ _ _ _ Ho) as I. destruct Ho as (_ & _ & _ & <- & <-).
  split; eapply zlen_contents; try done; set_solver.
Qed.

Lemma owns2_step s s' b b' c c' rs rs' qs qs' F l bs cs bs' cs' : owns2 s b rs c qs F l bs cs ->
  view b' rs' -> view c' qs' -> inv s' (rs' ++ qs' ++ F ++ tls_refs l) ->
  contents s' rs' = bs' -> contents s' qs' = cs' -> frame s s' (F ++ tls_refs l) ->
  owns2 s' b' rs' c' qs' F l bs' cs' /\ same_bytes s s' F.
Proof.
  intros (V & V2 & T & _) V' V2' I' Hc1 Hc2 [Fr1 Fr2]%frame_app. split; [|by apply frame_same_bytes].
  split; [done|]. split; [done|]. split; [|done].
  apply (tls_inv_frame s _ (rs ++ qs ++ F)); [done..|]. by rewrite <- !(assoc (++)).
Qed.

Lemma append_IOBuf_spec s b rs c qs F l bs cs : owns2 s b rs c qs F l bs cs ->
  zlen bs + zlen cs < 2 ^ 30 ->
  exists b' s' rs', append_IOBuf b c s = Ok b' s' /\ owns2 s' b' rs' c qs F l (bs ++ cs) cs /\
    same_bytes s s' F.
Proof.
  intros Ho Ht. pose proof (owns2_total _ _ _ _ _ _ _ _ _ Ho) as [H1 H2].
  pose proof (owns2_inv _ _ _ _ _ _ _ _ _ Ho) as I. pose proof Ho as (V & V2 & _ & <- & <-).
  unfold append_IOBuf. exec (_ref_num_spec c qs s V2).
  destruct (append_refs_spec c qs s V2 qs [] s b rs (qs ++ F ++ tls_refs l)) as
    (b' & s' & rs' & E & V' & I' & Fr & Hc); try done; [set_solver|lia|apply frame_refl|].
  exists b', s', rs'. unfold zlen at 1. rewrite Nat2Z.id. split; [exact E|].
  apply frame_app in Fr as [Fr1 Fr2].
  eapply owns2_step; try done. by apply frame_contents.
Qed.

Lemma append_movable_spec s b rs c qs F l bs cs : owns2 s b rs c qs F l bs cs ->
  zlen bs + zlen cs < 2 ^ 30 ->
  exists b' c' s' rs' qs', append_movable b c s = Ok (b', c') s' /\
    owns2 s' b' rs' c' qs' F l (bs ++ cs) [] /\ same_bytes s s' F.
Proof.
  intros Ho Ht. pose proof (owns2_total _ _ _ _ _ _ _ _ _ Ho) as [H1 H2].
  pose proof (owns2_inv _ _ _ _ _ _ _ _ _ Ho) as I. pose proof Ho as (V & V2 & _ & Hb & Hc).
  unfold append_movable. exec (IOBuf_empty_spec b rs s V).
  destruct rs as [|r rs]; simpl.
  - exists c, b, s, qs, []. split; [done|].
    rewrite contents_nil in Hb. subst bs. eapply owns2_step; try done. apply frame_refl.
  - exec (_ref_num_spec c qs s V2).
    destruct (move_refs_spec c qs s V2 qs [] s b (r :: rs) (F ++ tls_refs l)) as
      (b' & s' & rs' & E & V' & I' & Fr & Hcc); try done; [lia|apply frame_refl|].
    unfold zlen at 1. rewrite Nat2Z.id. change (zlen []) with 0 in E. exec E.
    exists b', new_IOBuf, s', rs', []. split; [done|]. rewrite Hb, Hc in Hcc.
    eapply owns2_step; try done.
Qed.

(** [assign] makes the left side an equal copy that shares every block. *)
Lemma assign_owns s b rs c qs F l bs cs : owns2 s b rs c qs F l bs cs ->
  exists b' s', assign b c s = Ok b' s' /\ owns2 s' b' qs c qs F l cs cs /\ same_bytes s s' F.
Proof.
  intros Ho. pose proof (owns2_inv _ _ _ _ _ _ _ _ _ Ho) as I. pose proof Ho as (V & V2 & _ & Hb & Hc).
  destruct (assign_spec s b c rs qs (F ++ tls_refs l) V V2 I) as (b' & s' & E & V' & I' & Fr).
  exists b', s'. split; [done|]. apply frame_app in Fr as [Fr1 Fr2].
  pose proof (frame_contents _ _ _ Fr1). eapply owns2_step; try done; congruence.
Qed.

Lemma cutn_owns s b rs c qs F l bs cs n : owns2 s b rs c qs F l bs cs -> 0 <= n ->
  zlen cs + Z.min n (zlen bs) < 2 ^ 30 ->
  exists b' c' s' rs' qs', cutn b c n s = Ok (Z.min n (zlen bs), b', c') s' /\
    owns2 s' b' rs' c' qs' F l (drop (Z.to_nat n) bs) (cs ++ take (Z.to_nat n) bs) /\ same_bytes s s' F.
Proof.
  intros Ho Hn Ht. pose proof (owns2_total _ _ _ _ _ _ _ _ _ Ho) as [H1 H2].
  pose proof (owns2_inv _ _ _ _ _ _ _ _ _ Ho) as I. pose proof Ho as (V & V2 & _ & <- & <-).
  rewrite H1, H2 in *.
  destruct (cutn_spec s b c rs qs (F ++ tls_refs l) n V V2 I Hn Ht)
    as (b' & c' & rs' & qs' & s' & E & V' & V2' & I' & Fr & C1 & C2).
  exists b', c', s', rs', qs'. split; [done|]. by eapply owns2_step.
Qed.

Lemma owns2_sym s b rs c qs F l bs cs : owns2 s b rs c qs F l bs cs -> owns2 s c qs b rs F l cs bs.
Proof.
  intros (V & V2 & T & Hb & Hc). split; [done|]. split; [done|]. split; [|done].
  eapply tls_inv_perm; [|exact T]. rewrite !(assoc (++)). by rewrite (Permutation_app_comm rs qs).
Qed.

Lemma assign_movable_spec s b rs c qs F l bs cs : owns2 s b rs c qs F l bs cs ->
  exists s', assign_movable b c s = Ok (c, new_IOBuf) s' /\ owns2 s' c qs new_IOBuf [] F l cs [] /\
    same_bytes s s' F.
Proof.
  intros Ho. pose proof (owns2_inv _ _ _ _ _ _ _ _ _ Ho) as I. pose proof Ho as (V & V2 & _ & Hb & Hc).
  destruct (iobuf_clear_spec s b rs _ V I) as (s' & E & I' & Fr). exists s'.
  unfold assign_movable. exec E. split; [done|]. apply frame_app in Fr as [Fr1 Fr2].
  eapply owns2_step; try done. by rewrite (frame_contents _ _ _ Fr1).
Qed.

Lemma equals_owns s b rs c qs F l bs cs : owns2 s b rs c qs F l bs cs ->
  equals b c s = Ok (bool_decide (bs = cs)) s.
Proof.
  intros Ho. pose proof (owns2_inv _ _ _ _ _ _ _ _ _ Ho) as I. destruct Ho as (V & V2 & _ & <- & <-).
  apply (equals_spec s b c rs qs _ V V2 I); set_solver.
Qed.

(** *** User data *)

(** A block made by [malloc], counted once. *)
Lemma malloc_block_spec s G n a p size x mem dl d : inv s G -> malloc n (pool s) = (Some a, p) ->
  zlen mem = size -> 0 < size < 2 ^ 31 ->
  let s' := set_heap (<[a := mkBlock 1 IOBUF_BLOCK_FLAGS_USER_DATA 0 size size x d mem dl]> (heap s))
                     (set_pool p s) in
  inv s' (mkRef 0 size a :: G) /\ frame s s' G /\ ref_bytes s' (mkRef 0 size a) = mem.
Proof.
  intros I E Hm Hs s'. destruct (malloc_fresh _ _ _ _ E) as (Ha & Hfr & Hp & Hpl).
  assert (heap s !! a = None) as Hnone.
  { destruct (heap s !! a) as [b|] eqn:Eb; [|done].
    pose proof (inv_blocks _ _ I _ _ Eb) as (_ & _ & _ & _ & _ & _ & Hl).
    destruct (is_user b); set_solver. }
  assert (forall r, r ∈ G -> r_block r <> a) as Hne.
  { intros r Hr Heq. destruct (inv_ref s G r I Hr) as (b & Eb & _). rewrite Heq in Eb. congruence. }
  split; [constructor|split; [split; [done|]|]].
  - intros y. rewrite occ_cons, <- (inv_count _ _ I). unfold count_of. simpl.
    destruct (Z.eqb_spec a y) as [<-|Hy].
    + by rewrite lookup_insert_eq, Hnone.
    + by rewrite lookup_insert_ne.
  - intros y b. simpl. destruct (decide (a = y)) as [<-|Hy].
    + rewrite lookup_insert_eq. intros [= <-]. unfold block_ok, is_user. simpl. rewrite Hp.
      split_and!; try done; try lia. set_solver.
    + rewrite lookup_insert_ne by done. intros Eb.
      pose proof (inv_blocks _ _ I _ _ Eb) as (? & ? & ? & ? & ? & ? & Hl).
      unfold block_ok. simpl. rewrite Hp, Hpl. split_and!; try done; try lia.
      destruct (is_user b); set_solver.
  - apply Forall_cons. split.
    + eexists. simpl. rewrite lookup_insert_eq. split; [done|]. simpl. lia.
    + eapply Forall_impl; [apply (inv_refs _ _ I)|]. intros r (b & Eb & Hr).
      exists b. simpl. rewrite lookup_insert_ne by congruence. done.
  - apply Forall_forall. intros r Hr. unfold ref_bytes, meta. simpl.
    by rewrite lookup_insert_ne by (symmetry; by apply Hne).
  - unfold ref_bytes. simpl. rewrite lookup_insert_eq. unfold slice. simpl bytes. rewrite drop_0.
    rewrite take_ge; [done|]. unfold zlen in Hm. lia.
Qed.

Lemma inv_pool s G p : inv s G -> pool_live p = pool_live (pool s) -> sys_live p = sys_live (pool s) ->
  inv (set_pool p s) G.
Proof.
  intros [Hc Hb Hr] E1 E2. constructor; try done. intros a b Eb.
  pose proof (Hb a b Eb) as (? & ? & ? & ? & ? & ? & ?). unfold block_ok. simpl.
  rewrite E1, E2. split_and!; try done; lia.
Qed.

Lemma user_data_spec s b rs F l bs d mem dl x : owns s b rs F l bs -> 0 < zlen mem ->
  zlen bs + zlen mem < 2 ^ 30 ->
  exists rc b' s' rs', append_user_data_with_meta b d mem (zlen mem) dl x s = Ok (rc, b') s' /\
    same_bytes s s' F /\
    ((rc = 0 /\ owns s' b' rs' F l (bs ++ mem)) \/ (rc = -1 /\ b' = b /\ owns s' b rs F l bs)).
Proof.
  intros Ho Hm Hb. pose proof (owns_length _ _ _ _ _ _ Ho) as Hl. pose proof (zlen_nonneg bs).
  pose proof (owns_held _ _ _ _ _ _ Ho) as (V & I & Hc).
  unfold append_user_data_with_meta.
  destruct (Z.ltb_spec (0xFFFFFFFF - 100) (zlen mem)); [lia|].
  destruct (Z.eqb_spec (zlen mem) 0); [lia|]. mstep.
  rewrite (u32_small (zlen mem)) by (unfold is_u32; lia).
  destruct (malloc _ (pool s)) as [[a|] p] eqn:Em.
  - edestruct (malloc_block_spec s (rs ++ F ++ tls_refs l) _ a p (zlen mem) x mem
      (if dl =? NULL then free_fn else dl) d I Em eq_refl) as (I1 & F1 & B1); [lia|].
    set (s1 := set_heap _ _) in I1, F1, B1.
    assert (ref_wf (mkRef 0 (zlen mem) a)) as Hw.
    { unfold ref_wf. pose proof (inv_ref _ _ _ I1 ltac:(by left)) as (bb & Eb & _).
      pose proof (inv_blocks _ _ I1 _ _ Eb) as (? & _). split; [done|]. simpl. lia. }
    destruct (move_back_ref_spec s1 b rs (mkRef 0 (zlen mem) a) (F ++ tls_refs l) V I1 Hw)
      as (b' & s' & E' & V' & I' & F' & C'); [simpl; lia|].
    unfold store_block, bind, modify. change (set_heap _ _) with s1. rewrite E'.
    eexists 0, b', s', _. split; [done|]. apply frame_app in F1 as [F1 F2].
    apply frame_app in F' as [_ F3].
    destruct (owns_step s s' b b' rs (push_refs rs (mkRef 0 (zlen mem) a)) F l bs (bs ++ mem) Ho) as [Ho' Sb].
    + split; [done|]. split; [done|]. rewrite C', B1, (frame_contents _ _ _ F1). by rewrite Hc.
    + by eapply frame_trans.
    + split; [done|]. left. split; [done|]. exact Ho'.
  - destruct (malloc_none _ _ _ Em) as [Hp Hs].
    exists (-1), b, (set_pool p s), rs. split; [done|].
    destruct (owns_step s (set_pool p s) b b rs rs F l bs bs Ho) as [Ho' Sb].
    + split; [done|]. split; [by apply inv_pool|done].
    + split; [done|]. by apply Forall_true.
    + auto.
Qed.

(** ** Handing blocks to and from the chain *)

(** Changing the link of a block that is not in the chain. *)
Lemma set_u_spec s G a (b : Block) x l h : inv s G -> heap s !! a = Some b -> a ∉ l -> chain s h l ->
  let s' := set_heap (<[a := set_u x b]> (heap s)) s in
  inv s' G /\ same_bytes s s' G /\ chain s' h l.
Proof.
  intros I E Hn Hc s'. pose proof (inv_blocks _ _ I _ _ E) as (? & ? & ? & ? & ? & ? & ?). split; [|split].
  - apply (inv_insert s a b _ G); try done.
    + intros y. simpl. destruct (_ =? _); lia.
    + eapply Forall_impl; [apply (inv_refs _ _ I)|]. intros q. by apply (ref_ok_insert s _ b).
  - apply Forall_true. intros r. unfold ref_bytes, s'. simpl.
    destruct (decide (r_block r = a)) as [->|?]; [by rewrite lookup_insert_eq, E|].
    by rewrite lookup_insert_ne.
  - revert h Hc Hn. clear -s' E. induction l as [|y l IH]; intros h Hc Hn; [done|].
    destruct Hc as [-> (c & Ec & Hu & Hc)]. split; [done|]. exists c. unfold s'. simpl.
    rewrite lookup_insert_ne by set_solver. split; [done|]. split; [done|]. apply IH; set_solver.
Qed.

(** A block that is given back is kept when it has room and the chain is not
    at its bound, and released otherwise. *)
Lemma release_tls_block_spec s F l a (b : Block) : tls_inv s (tls_ref a :: F) l -> heap s !! a = Some b ->
  is_user b = false -> a ∉ l ->
  exists s' l', release_tls_block a s = Ok tt s' /\ tls_inv s' F l' /\ same_bytes s s' F /\
    l' = (if full b || (MAX_BLOCKS_PER_THREAD <=? zlen l) then l else a :: l).
Proof.
  intros T E Hu Hn. pose proof T as (Hc & Hnb & Hm & I). unfold release_tls_block.
  pose proof (inv_blocks _ _ I _ _ E) as (Ha & _). destruct (Z.eqb_spec a NULL); [done|].
  unfold get_tls at 1. mstep. rewrite (load_block_ok _ _ _ E).
  assert (exists s' l', dec_ref a s = Ok tt s' /\ tls_inv s' F l' /\ same_bytes s s' F /\ l' = l) as Hd.
  { simpl in I. destruct (dec_ref_spec s _ (tls_ref a) I) as (s' & Ed & I' & [F1 F2]%frame_app).
    exists s', l. split; [done|]. split; [|split; [by apply frame_same_bytes|done]].
    by apply (tls_inv_frame s _ (tls_ref a :: F)). }
  destruct (full b) eqn:Hf; simpl; [done|]. rewrite Hnb.
  destruct (Z.leb_spec MAX_BLOCKS_PER_THREAD (zlen l)); [done|].
  destruct (set_u_spec s _ a b (block_head (tls s)) l _ I E Hn Hc) as (I1 & Sb & Hc1).
  unfold store_block, put_tls. mstep. eexists _, (a :: l). split; [reflexivity|].
  split; [|split; [|done]].
  - unfold tls_inv. rewrite <- inv_set_tls, chain_set_tls. simpl. rewrite zlen_cons.
    split; [|split; [lia|split; [lia|]]].
    + split; [done|]. exists (set_u (block_head (tls s)) b). rewrite lookup_insert_eq. done.
    + simpl in I1. by rewrite <- Permutation_middle.
  - apply same_bytes_app with (rs := [tls_ref a]) (qs := F ++ tls_refs l) in Sb as [_ Sb].
    by apply same_bytes_app in Sb as [Sb _].
Qed.

Lemma acquire_loop_unfold fuel (b : Z) : acquire_loop fuel b =
  let! blk := load_block b in
  if full blk then
    match fuel with
    | O => nofuel
    | S f =>
        let! _ := dec_ref b in
        let! t := get_tls in
        let! _ := put_tls (mkTLS (u blk) (u64 (num_blocks t - 1)) (registered t)) in
        acquire_loop f (u blk)
    end
  else ret b.
Proof. by destruct fuel. Qed.

Lemma chain_det s G h l l' : inv s G -> chain s h l -> chain s h l' -> l = l'.
Proof.
  intros I. revert h l'. induction l as [|a l IH]; intros h l' Hc Hc'.
  - simpl in Hc. subst h. destruct l' as [|a' l']; [done|]. by destruct (chain_head _ _ _ _ _ I Hc') as [<- ?].
  - destruct l' as [|a' l'].
    + destruct (chain_head _ _ _ _ _ I Hc) as [-> ?]. done.
    + destruct Hc as [-> (b & E & _ & Hc)], Hc' as [<- (b' & E' & _ & Hc')]. simplify_eq.
      f_equal. by eapply IH.
Qed.
Lemma chain_suffix s h l1 a l2 : chain s h (l1 ++ a :: l2) -> chain s a (a :: l2).
Proof.
  revert h. induction l1 as [|x l1 IH]; intros h; simpl.
  - intros [-> ?]. done.
  - intros [_ (b & _ & _ & Hc)]. by apply (IH (u b)).
Qed.
(** The chain has no cycle. *)
Lemma chain_not_in s G h a l : inv s G -> chain s h (a :: l) -> a ∉ l.
Proof.
  intros I Hc Hin. apply list_elem_of_split in Hin as (l1 & l2 & ->).
  destruct (chain_head _ _ _ _ _ I Hc) as [-> _].
  pose proof (chain_suffix s a (a :: l1) a l2 Hc) as Hc2.
  pose proof (chain_det s G a _ _ I Hc Hc2) as E. apply (f_equal List.length) in E.
  simpl in E. rewrite length_app in E. simpl in E. lia.
Qed.

Lemma dec_ref_other s s' a x : dec_ref a s = Ok tt s' -> x <> a -> heap s' !! x = heap s !! x.
Proof.
  unfold dec_ref, load_block, store_block. mstep. intros E Hx.
  destruct (heap s !! a) as [b|]; [|done]. simpl in E.
  destruct (abi_check b =? 0); [|done]. simpl in E.
  destruct (nshared b =? 1); simpl in E; [destruct (is_user b)|]; simplify_eq/=;
    by rewrite ?lookup_delete_ne, lookup_insert_ne by done.
Qed.

Definition has_room s (a : Z) : Prop := exists b : Block, heap s !! a = Some b /\ full b = false.

Lemma released_room s s' a (b : Block) : heap s !! a = Some b -> full b = false ->
  release_tls_block a s = Ok tt s' -> num_blocks (tls s) < MAX_BLOCKS_PER_THREAD -> a <> NULL ->
  has_room s' a.
Proof.
  intros E Hf Er Hn Ha. unfold release_tls_block in Er. destruct (Z.eqb_spec a NULL); [done|].
  unfold get_tls, put_tls, store_block in Er. revert Er. mstep. rewrite (load_block_ok _ _ _ E), Hf.
  destruct (Z.leb_spec MAX_BLOCKS_PER_THREAD (num_blocks (tls s))); [lia|].
  intros [= <-]. exists (set_u (block_head (tls s)) b). simpl. by rewrite lookup_insert_eq.
Qed.

(** Dropping a full first block of the chain. *)
Lemma drop_full s F a (b : Block) l : tls_inv s F (a :: l) -> heap s !! a = Some b -> full b = true ->
  exists s1 s', dec_ref a s = Ok tt s1 /\
   s' = set_tls (mkTLS (u b) (u64 (num_blocks (tls s1) - 1)) (registered (tls s1))) s1 /\
   tls_inv s' F l /\ same_bytes s s' F /\ (forall x, x ∈ a :: l -> has_room s x <-> x ∈ l /\ has_room s' x).
Proof.
  intros (Hc & Hn & Hm & I) E Hf. destruct (chain_head _ _ _ _ _ I Hc) as [Hh Ha].
  pose proof (chain_not_in _ _ _ _ _ I Hc) as Hni. destruct Hc as [_ (b' & E' & Hu & Hc)].
  assert (b' = b) as -> by congruence.
  destruct (chain_release s a b l F I E Hc) as (s1 & Ed & I1 & Hc1 & Fr). pose proof Fr as [Ht _].
  apply frame_app in Fr as [Fr _]. eexists s1, _. split; [done|]. split; [done|]. rewrite Ht, Hn, num_blocks_pred by done.
  split; [|split].
  - unfold tls_inv. rewrite <- inv_set_tls, chain_set_tls. simpl. rewrite zlen_cons in Hm.
    split; [done|]. split; [done|]. split; [lia|done].
  - apply (frame_same_bytes s s1 F) in Fr. done.
  - intros x Hx. unfold has_room. simpl. apply elem_of_cons in Hx as [->|Hx].
    + split; [intros (? & ? & ?); congruence|]. intros [? _]. done.
    + rewrite (dec_ref_other _ _ _ _ Ed) by (intros ->; done). tauto.
Qed.

Lemma acquire_loop_spec : forall l fuel s F, tls_inv s F l -> (List.length l <= fuel)%nat ->
  (Exists (has_room s) l -> exists a (b : Block) s' l', acquire_loop fuel (block_head (tls s)) s = Ok a s' /\
     tls_inv s' F (a :: l') /\ same_bytes s s' F /\ heap s' !! a = Some b /\ full b = false) /\
  (~ Exists (has_room s) l -> acquire_loop fuel (block_head (tls s)) s = Undef).
Proof.
  induction l as [|a l IH]; intros fuel s F T Hf; rewrite acquire_loop_unfold; pose proof T as (Hc & _ & _ & I).
  - split; [by intros ?%Exists_nil|]. intros _. simpl in Hc. rewrite Hc. unfold load_block. mstep.
    destruct (heap s !! NULL) as [b|] eqn:E; [|done]. by destruct (inv_blocks _ _ I _ _ E).
  - destruct (chain_head _ _ _ _ _ I Hc) as [Hh Ha]. rewrite Hh.
    pose proof Hc as [_ (b & E & _)]. setoid_rewrite (bind_ok _ _ _ _ _ (load_block_ok _ _ _ E)).
    destruct (full b) eqn:Hfull.
    + destruct fuel as [|f]; [simpl in Hf; lia|].
      destruct (drop_full s F a b l T E Hfull) as (s1 & s2 & Ed & E2 & T2 & Sb & Hroom).
      setoid_rewrite (bind_ok _ _ _ _ _ Ed). unfold get_tls, put_tls. mstep. rewrite <- E2.
      destruct (IH f s2 F T2 ltac:(simpl in Hf; lia)) as [IH1 IH2].
      replace (u b) with (block_head (tls s2)) by (by rewrite E2).
      split; intros Hx.
      * destruct IH1 as (x & bx & s' & l' & ? & ? & Sb' & ?).
        { apply Exists_exists in Hx as (y & Hy & Hr). apply Hroom in Hr as [Hy' Hr]; [|done].
          apply Exists_exists. eauto. }
        exists x, bx, s', l'. split; [done|]. split; [done|]. split; [by eapply same_bytes_trans|done].
      * apply IH2. intros Hy. apply Hx. apply Exists_exists in Hy as (y & Hy & Hr).
        apply Exists_exists. exists y. split; [by right|]. apply Hroom; [by right|done].
    + split.
      * intros _. exists a, b, s, l. split; [done|]. split; [done|]. split; [apply same_bytes_refl|done].
      * intros Hx. destruct Hx. apply Exists_cons_hd. by exists b.
Qed.

(** [acquire_tls_block] takes a block with room out of the chain. *)
Lemma acquire_tls_block_spec s F l : tls_inv s F l -> Exists (has_room s) l ->
  exists a s' l', acquire_tls_block s = Ok a s' /\ tls_inv s' (tls_ref a :: F) l' /\ same_bytes s s' F /\
    has_room s' a /\ a ∉ l'.
Proof.
  intros T Hr. pose proof T as (Hc & Hn & Hm & I). unfold acquire_tls_block, get_tls at 1. mstep.
  destruct l as [|x l]; [by apply Exists_nil in Hr|].
  destruct (chain_head _ _ _ _ _ I Hc) as [Hh Ha].
  destruct (Z.eqb_spec (block_head (tls s)) NULL); [congruence|]. rewrite Hn.
  destruct (acquire_loop_spec (x :: l) (Z.to_nat (zlen (x :: l))) s F T) as [Hok _]; [unfold zlen; lia|].
  destruct (Hok Hr) as (a & b & s1 & l' & E & T1 & Sb & Eb & Hf). rewrite E.
  pose proof T1 as (Hc1 & Hn1 & Hm1 & I1). destruct (chain_head _ _ _ _ _ I1 Hc1) as [Hh1 Ha1].
  pose proof (chain_not_in _ _ _ _ _ I1 Hc1) as Hni.
  destruct (Z.eqb_spec a NULL); [done|]. simpl. rewrite (load_block_ok _ _ _ Eb).
  unfold get_tls, put_tls, store_block. mstep. rewrite Hn1, num_blocks_pred by done.
  destruct Hc1 as [_ (b' & E' & Hu & Hc1)]. assert (b' = b) as -> by congruence.
  destruct (set_u_spec s1 _ a b NULL l' _ I1 Eb Hni Hc1) as (I2 & Sb2 & Hc2).
  eexists a, _, l'. split; [reflexivity|]. split; [|split; [|split; [|done]]].
  - unfold tls_inv. simpl. split; [|split; [done|split; [rewrite zlen_cons in Hm1; lia|]]].
    + by apply (chain_set_tls _ (mkTLS (u b) (zlen l') (registered (tls s1)))) in Hc2.
    + apply (inv_set_tls _ (mkTLS (u b) (zlen l') (registered (tls s1)))) in I2.
      simpl in I2. by rewrite <- Permutation_middle in I2.
  - eapply same_bytes_trans; [exact Sb|]. by apply same_bytes_app in Sb2 as [Sb2 _].
  - exists (set_u NULL b). simpl. rewrite lookup_insert_eq. done.
Qed.

(** *** The end of a thread *)

Lemma clear_chain_unfold fuel (b : Z) : clear_chain fuel b =
  if b =? NULL then ret tt else
  match fuel with
  | O => nofuel
  | S f => let! blk := load_block b in let! _ := dec_ref b in clear_chain f (u blk)
  end.
Proof. by destruct fuel. Qed.

Lemma clear_chain_spec : forall l fuel s F h, chain s h l -> inv s (F ++ tls_refs l) ->
  (List.length l <= fuel)%nat ->
  exists s', clear_chain fuel h s = Ok tt s' /\ inv s' F /\ frame s s' F.
Proof.
  induction l as [|a l IH]; intros fuel s F h Hc I Hf; rewrite clear_chain_unfold.
  - simpl in Hc, I. rewrite app_nil_r in I. subst h. exists s. split; [done|]. split; [done|apply frame_refl].
  - destruct (chain_head _ _ _ _ _ I Hc) as [-> Ha]. destruct Hc as [_ (b & E & Hu & Hc)].
    destruct (Z.eqb_spec a NULL); [done|]. destruct fuel as [|f]; [simpl in Hf; lia|].
    exec (load_block_ok _ _ _ E).
    destruct (chain_release s a b l F I E Hc) as (s1 & Ed & I1 & Hc1 & [F1 _]%frame_app). exec Ed.
    destruct (IH f s1 F (u b) Hc1 I1) as (s' & E' & I' & F'); [simpl in Hf; lia|].
    exists s'. split; [done|]. split; [done|]. by eapply frame_trans.
Qed.

Lemma clear_tls_block_chain_spec s F l : tls_inv s F l ->
  exists s', clear_tls_block_chain s = Ok tt s' /\ tls_inv s' F [] /\ same_bytes s s' F.
Proof.
  intros (Hc & Hn & Hm & I). unfold clear_tls_block_chain, get_tls, put_tls. mstep.
  set (s0 := set_tls (mkTLS NULL (num_blocks (tls s)) (registered (tls s))) s).
  destruct (clear_chain_spec l (Z.to_nat (num_blocks (tls s))) s0 F (block_head (tls s))) as (s' & E & I' & Fr).
  - by apply chain_set_tls.
  - by apply inv_set_tls.
  - rewrite Hn. unfold zlen. lia.
  - rewrite E. eexists. split; [reflexivity|]. pose proof Fr as [Ht _]. split.
    + unfold tls_inv. rewrite <- inv_set_tls. simpl. rewrite Ht, app_nil_r. done.
    + apply frame_same_bytes in Fr. done.
Qed.

End spec.
