(* ===== verification/IOBufRefine.v ===== *)
(** * IOBuf: programs over several IOBufs refine byte strings

    The contract of the class: any sequence of operations on a family of
    IOBufs, which share blocks behind the scenes, behaves as the same sequence
    on plain byte strings.  No run reaches a failed check, a bad access or an
    unbounded loop, and when nothing refers to a block any more the block is
    gone. *)
From S2P Require Import Prelude IOBuf IOBufHeap IOBufOps IOBufEquals IOBufAppend IOBufShare.
Local Open Scope Z_scope.

(** ** Programs *)

Inductive op :=
| Append (i : nat) (data : option (list Z))
| PushBack (i : nat) (c : Z)
| Resize (i : nat) (n c : Z)
| AppendUserData (i : nat) (d : Z) (mem : list Z) (dl meta : Z)
| AppendBuf (i j : nat)
| AppendMovable (i j : nat)
| PopFront (i : nat) (n : Z)
| PopBack (i : nat) (n : Z)
| Cutn (i j : nat) (n : Z)
| CutnRaw (i : nat) (n : Z)
| CutnString (i : nat) (out : list Z) (n : Z)
| Cut1 (i : nat)
| CopyTo (i : nat) (n pos : Z)
| Clear (i : nat)
| Assign (i j : nat)
| AssignMovable (i j : nat)
| Swap (i j : nat)
| Equals (i j : nat)
| Length (i : nat)
| Empty (i : nat)
| ThreadExit.

Inductive res :=
| RUnit
| RInt (z : Z)
| RBool (b : bool)
| RByte (c : option Z)
| RBytes (n : Z) (bs : list Z).

Section programs.
Context {P : Type} `{Allocator P}.
Abbreviation MS := (M (St P)).
Implicit Types bufs : list IOBuf.

Definition with1 bufs (i : nat) (f : IOBuf -> MS (res * IOBuf)) : MS (res * list IOBuf) :=
  let! b := deref (bufs !! i) in
  let! x := f b in
  ret (fst x, <[i := snd x]> bufs).
Definition with2 bufs (i j : nat) (f : IOBuf -> IOBuf -> MS (res * (IOBuf * IOBuf))) : MS (res * list IOBuf) :=
  let! b := deref (bufs !! i) in
  let! c := deref (bufs !! j) in
  let! x := f b c in
  ret (fst x, <[j := snd (snd x)]> (<[i := fst (snd x)]> bufs)).

Definition int_res (m : MS (Z * IOBuf)) : MS (res * IOBuf) := let! x := m in ret (RInt (fst x), snd x).
Definition bytes_res (m : MS (Z * IOBuf * list Z)) : MS (res * IOBuf) :=
  let! x := m in ret (RBytes (fst (fst x)) (snd x), snd (fst x)).

Definition run (o : op) (bufs : list IOBuf) : MS (res * list IOBuf) :=
  match o with
  | Append i data => with1 bufs i (fun b => int_res (append b data))
  | PushBack i c => with1 bufs i (fun b => int_res (push_back b c))
  | Resize i n c => with1 bufs i (fun b => int_res (resize b n c))
  | AppendUserData i d mem dl m =>
      with1 bufs i (fun b => int_res (append_user_data_with_meta b d mem (zlen mem) dl m))
  | AppendBuf i j => with2 bufs i j (fun b c => let! b' := append_IOBuf b c in ret (RUnit, (b', c)))
  | AppendMovable i j => with2 bufs i j (fun b c => let! x := append_movable b c in ret (RUnit, x))
  | PopFront i n => with1 bufs i (fun b => int_res (pop_front b n))
  | PopBack i n => with1 bufs i (fun b => int_res (pop_back b n))
  | Cutn i j n => with2 bufs i j (fun b c => let! x := cutn b c n in
                    ret (RInt (fst (fst x)), (snd (fst x), snd x)))
  | CutnRaw i n => with1 bufs i (fun b => bytes_res (cutn_raw b n))
  | CutnString i out n => with1 bufs i (fun b => bytes_res (cutn_string b out n))
  | Cut1 i => with1 bufs i (fun b => let! x := cut1 b in ret (RByte (fst x), snd x))
  | CopyTo i n pos => with1 bufs i (fun b => let! x := copy_to b n pos in ret (RBytes (fst x) (snd x), b))
  | Clear i => with1 bufs i (fun b => let! b' := clear b in ret (RUnit, b'))
  | Assign i j => with2 bufs i j (fun b c => let! b' := assign b c in ret (RUnit, (b', c)))
  | AssignMovable i j => with2 bufs i j (fun b c => let! x := assign_movable b c in ret (RUnit, x))
  | Swap i j => with2 bufs i j (fun b c => ret (RUnit, swap b c))
  | Equals i j => with2 bufs i j (fun b c => let! e := equals b c in ret (RBool e, (b, c)))
  | Length i => with1 bufs i (fun b => let! n := IOBuf_length b in ret (RInt n, b))
  | Empty i => with1 bufs i (fun b => let! e := IOBuf_empty b in ret (RBool e, b))
  | ThreadExit => let! _ := clear_tls_block_chain in ret (RUnit, bufs)
  end.

Fixpoint run_all (ops : list op) (bufs : list IOBuf) : MS (list res * list IOBuf) :=
  match ops with
  | [] => ret ([], bufs)
  | o :: ops' =>
      let! x := run o bufs in
      let! y := run_all ops' (snd x) in
      ret (fst x :: fst y, snd y)
  end.
End programs.

(** ** The specification: byte strings *)

(** Appending [data] succeeds, or runs out of memory after a prefix. *)
Definition appends (bs data : list Z) (r : res) (bs' : list Z) : Prop :=
  exists rc k, r = RInt rc /\ bs' = bs ++ take k data /\
    ((rc = 0 /\ k = length data) \/ (rc = -1 /\ (k < length data)%nat)).

Definition spec1 (o : op) (bs : list Z) (r : res) (bs' : list Z) : Prop :=
  match o with
  | Append _ None => r = RInt (-1) /\ bs' = bs
  | Append _ (Some data) => appends bs data r bs'
  | PushBack _ c => appends bs [c] r bs'
  | Resize _ n c =>
      if n <? zlen bs then r = RInt 0 /\ bs' = take (Z.to_nat n) bs
      else appends bs (replicate (Z.to_nat (n - zlen bs)) c) r bs'
  | AppendUserData _ _ mem _ _ =>
      (r = RInt 0 /\ bs' = bs ++ mem) \/ (r = RInt (-1) /\ bs' = bs)
  | PopFront _ n => r = RInt (Z.min n (zlen bs)) /\ bs' = drop (Z.to_nat n) bs
  | PopBack _ n => r = RInt (Z.min n (zlen bs)) /\ bs' = take (length bs - Z.to_nat n) bs
  | CutnRaw _ n =>
      r = RBytes (Z.min n (zlen bs)) (take (Z.to_nat n) bs) /\ bs' = drop (Z.to_nat n) bs
  | CutnString _ out n =>
      r = RBytes (Z.min n (zlen bs)) (out ++ take (Z.to_nat n) bs) /\ bs' = drop (Z.to_nat n) bs
  | Cut1 _ => r = RByte (head bs) /\ bs' = tail bs
  | CopyTo _ n pos =>
      r = RBytes (Z.min n (Z.max 0 (zlen bs - pos))) (take (Z.to_nat n) (drop (Z.to_nat pos) bs)) /\ bs' = bs
  | Clear _ => r = RUnit /\ bs' = []
  | Length _ => r = RInt (zlen bs) /\ bs' = bs
  | Empty _ => r = RBool (bool_decide (bs = [])) /\ bs' = bs
  | _ => False
  end.

Definition spec2 (o : op) (bs cs : list Z) (r : res) (bs' cs' : list Z) : Prop :=
  match o with
  | AppendBuf _ _ => r = RUnit /\ bs' = bs ++ cs /\ cs' = cs
  | AppendMovable _ _ => r = RUnit /\ bs' = bs ++ cs /\ cs' = []
  | Cutn _ _ n => r = RInt (Z.min n (zlen bs)) /\ bs' = drop (Z.to_nat n) bs /\
                  cs' = cs ++ take (Z.to_nat n) bs
  | Assign _ _ => r = RUnit /\ bs' = cs /\ cs' = cs
  | AssignMovable _ _ => r = RUnit /\ bs' = cs /\ cs' = []
  | Swap _ _ => r = RUnit /\ bs' = cs /\ cs' = bs
  | Equals _ _ => r = RBool (bool_decide (bs = cs)) /\ bs' = bs /\ cs' = cs
  | _ => False
  end.

Definition operands (o : op) : list nat :=
  match o with
  | Append i _ | PushBack i _ | Resize i _ _ | AppendUserData i _ _ _ _ | PopFront i _ | PopBack i _
  | CutnRaw i _ | CutnString i _ _ | Cut1 i | CopyTo i _ _ | Clear i | Length i | Empty i => [i]
  | AppendBuf i j | AppendMovable i j | Cutn i j _ | Assign i j | AssignMovable i j | Swap i j
  | Equals i j => [i; j]
  | ThreadExit => []
  end.

Definition spec_step (o : op) (abs : list (list Z)) (r : res) (abs' : list (list Z)) : Prop :=
  match operands o with
  | [i] => exists bs bs', abs !! i = Some bs /\ spec1 o bs r bs' /\ abs' = <[i := bs']> abs
  | [i; j] => exists bs cs bs' cs', abs !! i = Some bs /\ abs !! j = Some cs /\
      spec2 o bs cs r bs' cs' /\ abs' = <[j := cs']> (<[i := bs']> abs)
  | _ => r = RUnit /\ abs' = abs
  end.

Inductive spec_all : list op -> list (list Z) -> list res -> list (list Z) -> Prop :=
| spec_nil abs : spec_all [] abs [] abs
| spec_cons o ops abs r abs1 rs abs2 :
    spec_step o abs r abs1 -> spec_all ops abs1 rs abs2 -> spec_all (o :: ops) abs (r :: rs) abs2.

(** What a call may be given: operands in range and distinct, counts of type
    [size_t], and contents below one gigabyte. *)
Definition bounded (o : op) (abs : list (list Z)) : Prop :=
  let len i := zlen (default [] (abs !! i)) in
  match o with
  | Append i (Some data) => len i + zlen data < 2 ^ 30
  | PushBack i _ => len i + 1 < 2 ^ 30
  | Resize _ n _ => 0 <= n < 2 ^ 30
  | AppendUserData i _ mem _ _ => 0 < zlen mem /\ len i + zlen mem < 2 ^ 30
  | AppendBuf i j | AppendMovable i j => len i + len j < 2 ^ 30
  | PopFront _ n | PopBack _ n | CutnRaw _ n | CutnString _ _ n => 0 <= n
  | Cutn i j n => 0 <= n /\ len j + Z.min n (len i) < 2 ^ 30
  | CopyTo _ n pos => 0 <= n /\ 0 <= pos
  | _ => True
  end.
Definition valid (o : op) (abs : list (list Z)) : Prop :=
  Forall (fun i => is_Some (abs !! i)) (operands o) /\ NoDup (operands o) /\ bounded o abs.

(** A program all of whose calls are valid whatever its calls return. *)
Fixpoint safe (ops : list op) (abs : list (list Z)) : Prop :=
  match ops with
  | [] => True
  | o :: ops' => valid o abs /\ forall r abs', spec_step o abs r abs' -> safe ops' abs'
  end.

(** ** The refinement *)
Section refine.
Context {P : Type} `{AllocatorLaws P}.
Implicit Types (s : St P) (b c : IOBuf) (bufs : list IOBuf) (rs qs F G : list BlockRef) (l : list Z).

(** [bufs] denote [abs]; [F] are references held elsewhere. *)
Definition family s bufs (abs : list (list Z)) F : Prop := exists rss l,
  Forall2 view bufs rss /\ tls_inv s (concat rss ++ F) l /\ abs = map (contents s) rss.

Lemma concat_focus rss (i : nat) rs : rss !! i = Some rs -> concat rss ≡ₚ rs ++ concat (<[i := []]> rss).
Proof.
  revert i. induction rss as [|x rss IH]; intros [|i] E; simplify_eq/=; [done|].
  rewrite (IH _ E) at 1. rewrite !(assoc (++)). by rewrite (Permutation_app_comm x).
Qed.

Lemma same_bytes_map s s' (rss : list (list BlockRef)) : same_bytes s s' (concat rss) ->
  map (contents s') rss = map (contents s) rss.
Proof.
  induction rss as [|x rss IH]; simpl; [done|]. intros [S1 S2]%same_bytes_app.
  by rewrite (same_bytes_contents _ _ _ S1), (IH S2).
Qed.
Lemma same_bytes_perm s s' rs qs : rs ≡ₚ qs -> same_bytes s s' rs -> same_bytes s s' qs.
Proof. unfold same_bytes. by intros ->. Qed.

Lemma family_focus s bufs abs F i b : family s bufs abs F -> bufs !! i = Some b ->
  exists rs G l bs, abs !! i = Some bs /\ owns s b rs G l bs /\
    forall s' b' rs' l' bs', owns s' b' rs' G l' bs' -> same_bytes s s' G ->
      family s' (<[i := b']> bufs) (<[i := bs']> abs) F /\ same_bytes s s' F.
Proof.
  intros (rss & l & Hv & T & ->) Hb.
  destruct (Forall2_lookup_l _ _ _ _ _ Hv Hb) as (rs & Hr & V).
  exists rs, (concat (<[i := []]> rss) ++ F), l, (contents s rs).
  split; [by rewrite list_lookup_fmap, Hr|]. split.
  { split; [done|]. split; [|done]. eapply tls_inv_perm; [|exact T].
    by rewrite (concat_focus rss i rs Hr), (assoc (++)). }
  intros s' b' rs' l' bs' (V' & T' & <-) [S1 S2]%same_bytes_app. split; [|done].
  exists (<[i := rs']> rss), l'. split; [by apply Forall2_insert|]. split.
  - eapply tls_inv_perm; [|exact T']. rewrite (concat_focus (<[i := rs']> rss) i rs').
    + by rewrite list_insert_insert_eq, (assoc (++)).
    + apply list_lookup_insert_eq. by eapply lookup_lt_Some.
  - pose proof (same_bytes_map _ _ _ S1) as Hm. change (map ?f ?l) with (f <$> l) in *.
    rewrite !list_fmap_insert in Hm. rewrite list_fmap_insert.
    apply (f_equal (insert i (contents s' rs'))) in Hm. by rewrite !list_insert_insert_eq in Hm.
Qed.

Lemma family_focus2 s bufs abs F i j b c : family s bufs abs F -> i <> j ->
  bufs !! i = Some b -> bufs !! j = Some c ->
  exists rs qs G l bs cs, abs !! i = Some bs /\ abs !! j = Some cs /\ owns2 s b rs c qs G l bs cs /\
    forall s' b' c' rs' qs' l' bs' cs', owns2 s' b' rs' c' qs' G l' bs' cs' -> same_bytes s s' G ->
      family s' (<[j := c']> (<[i := b']> bufs)) (<[j := cs']> (<[i := bs']> abs)) F /\ same_bytes s s' F.
Proof.
  intros (rss & l & Hv & T & ->) Hij Hb Hc.
  destruct (Forall2_lookup_l _ _ _ _ _ Hv Hb) as (rs & Hr & V).
  destruct (Forall2_lookup_l _ _ _ _ _ Hv Hc) as (qs & Hq & V2).
  pose proof (lookup_lt_Some _ _ _ Hr) as Hli. pose proof (lookup_lt_Some _ _ _ Hq) as Hlj.
  set (X := <[j := []]> (<[i := []]> rss)).
  assert (forall rs' qs', concat (<[j := qs']> (<[i := rs']> rss)) ≡ₚ rs' ++ qs' ++ concat X) as Hcat.
  { intros rs' qs'. rewrite (concat_focus _ i rs').
    - rewrite (concat_focus (<[i := []]> _) j qs').
      + do 2 f_equiv. rewrite !(list_insert_insert_ne _ i j) by done.
        by rewrite !list_insert_insert_eq.
      + rewrite list_lookup_insert_ne by done. apply list_lookup_insert_eq. by rewrite length_insert.
    - rewrite list_lookup_insert_ne by done. by apply list_lookup_insert_eq. }
  exists rs, qs, (concat X ++ F), l, (contents s rs), (contents s qs).
  split; [by rewrite list_lookup_fmap, Hr|]. split; [by rewrite list_lookup_fmap, Hq|]. split.
  { split; [done|]. split; [done|]. split; [|done]. eapply tls_inv_perm; [|exact T].
    specialize (Hcat rs qs). rewrite (list_insert_id _ i) in Hcat by done.
    rewrite (list_insert_id _ j) in Hcat by done. by rewrite Hcat, !(assoc (++)). }
  intros s' b' c' rs' qs' l' bs' cs' (V' & V2' & T' & <- & <-) [S1 S2]%same_bytes_app. split; [|done].
  exists (<[j := qs']> (<[i := rs']> rss)), l'. split; [apply Forall2_insert; [by apply Forall2_insert|done]|]. split.
  - eapply tls_inv_perm; [|exact T']. by rewrite Hcat, !(assoc (++)).
  - pose proof (same_bytes_map _ _ _ S1) as Hm. change (map ?f ?l) with (f <$> l) in *. unfold X in Hm.
    rewrite !list_fmap_insert in Hm. rewrite !list_fmap_insert.
    apply (f_equal (insert i (contents s' rs'))) in Hm. apply (f_equal (insert j (contents s' qs'))) in Hm.
    rewrite !(list_insert_insert_ne _ i j) in Hm by done. by rewrite !list_insert_insert_eq in Hm.
Qed.

(** One operand. *)
Lemma step1 s bufs abs F o i (f : IOBuf -> M (St P) (res * IOBuf)) : family s bufs abs F -> operands o = [i] ->
  valid o abs ->
  (forall b rs G l bs, owns s b rs G l bs -> bounded o (<[i := bs]> abs) -> abs !! i = Some bs ->
     exists r b' s' rs' l' bs', f b s = Ok (r, b') s' /\ spec1 o bs r bs' /\ owns s' b' rs' G l' bs' /\
       same_bytes s s' G) ->
  exists r bufs' s' abs', with1 bufs i f s = Ok (r, bufs') s' /\ spec_step o abs r abs' /\
    family s' bufs' abs' F /\ same_bytes s s' F.
Proof.
  intros Hfam Ho (Hin & _ & Hbd) Hf. rewrite Ho in Hin. apply Forall_singleton in Hin as [bs Hbs].
  assert (exists b, bufs !! i = Some b) as [b Hb].
  { destruct Hfam as (rss & l & Hv & _ & ->). apply lookup_lt_is_Some. rewrite (Forall2_length _ _ _ Hv).
    apply lookup_lt_Some in Hbs. by rewrite length_map in Hbs. }
  destruct (family_focus s bufs abs F i b Hfam Hb) as (rs & G & l & bs0 & Hbs0 & Hown & Hback). simplify_eq.
  destruct (Hf b rs G l bs Hown) as (r & b' & s' & rs' & l' & bs' & E & Hs & Hown' & Sb); [|done|].
  { by rewrite list_insert_id. }
  destruct (Hback s' b' rs' l' bs' Hown' Sb) as [Hfam' Sb'].
  exists r, (<[i := b']> bufs), s', (<[i := bs']> abs). unfold with1. rewrite Hb.
  unfold deref at 1. unfold bind at 1, ret at 1. exec E. split; [done|].
  split; [|done]. unfold spec_step. rewrite Ho. eauto.
Qed.

Lemma step2 s bufs abs F o i j (f : IOBuf -> IOBuf -> M (St P) (res * (IOBuf * IOBuf))) :
  family s bufs abs F -> operands o = [i; j] -> valid o abs ->
  (forall b c rs qs G l bs cs, owns2 s b rs c qs G l bs cs -> abs !! i = Some bs -> abs !! j = Some cs ->
     exists r b' c' s' rs' qs' l' bs' cs', f b c s = Ok (r, (b', c')) s' /\ spec2 o bs cs r bs' cs' /\
       owns2 s' b' rs' c' qs' G l' bs' cs' /\ same_bytes s s' G) ->
  exists r bufs' s' abs', with2 bufs i j f s = Ok (r, bufs') s' /\ spec_step o abs r abs' /\
    family s' bufs' abs' F /\ same_bytes s s' F.
Proof.
  intros Hfam Ho (Hin & Hnd & _) Hf. rewrite Ho in *.
  apply Forall_cons in Hin as [[bs Hbs] [cs Hcs]%Forall_singleton].
  assert (i <> j) as Hij by (apply NoDup_cons in Hnd as [Hnd _]; set_solver).
  assert (forall k x, abs !! k = Some x -> exists b, bufs !! k = Some b) as Hex.
  { intros k x Hk. destruct Hfam as (rss & l & Hv & _ & ->). apply lookup_lt_is_Some.
    rewrite (Forall2_length _ _ _ Hv). apply lookup_lt_Some in Hk. by rewrite length_map in Hk. }
  destruct (Hex _ _ Hbs) as [b Hb], (Hex _ _ Hcs) as [c Hc].
  destruct (family_focus2 s bufs abs F i j b c Hfam Hij Hb Hc)
    as (rs & qs & G & l & bs0 & cs0 & Hbs0 & Hcs0 & Hown & Hback). simplify_eq.
  destruct (Hf b c rs qs G l bs cs Hown Hbs Hcs)
    as (r & b' & c' & s' & rs' & qs' & l' & bs' & cs' & E & Hs & Hown' & Sb).
  destruct (Hback s' b' c' rs' qs' l' bs' cs' Hown' Sb) as [Hfam' Sb'].
  eexists r, _, s', _. unfold with2. rewrite Hb, Hc.
  unfold deref at 1 2. unfold bind at 1 2, ret at 1 2. exec E. split; [done|].
  split; [|done]. unfold spec_step. rewrite Ho. by eauto 10.
Qed.

Lemma clear_owns s b rs G l bs : owns s b rs G l bs ->
  exists s', clear b s = Ok new_IOBuf s' /\ owns s' new_IOBuf [] G l [] /\ same_bytes s s' G.
Proof.
  intros Ho. pose proof (owns_held _ _ _ _ _ _ Ho) as (V & I & _).
  destruct (iobuf_clear_spec s b rs _ V I) as (s' & E & I' & Fr). exists s'. split; [done|].
  apply (owns_step s s' b new_IOBuf rs [] G l bs); [done| |done]. by apply held_new.
Qed.

Lemma owns_empty s b rs G l bs : owns s b rs G l bs -> bs = [] <-> rs = [].
Proof.
  intros Ho. pose proof (owns_length _ _ _ _ _ _ Ho) as Hl. destruct Ho as ((Hwf & _) & _ & Hc).
  split; [|by intros ->]. intros ->. destruct rs as [|r rs]; [done|].
  pose proof (total_len _ Hwf) as Ht. rewrite <- Hl, zlen_cons in Ht. pose proof (zlen_nonneg rs).
  change (zlen []) with 0 in Ht. lia.
Qed.

Lemma appended_step s b F l bs data m : appended s b F l bs data m ->
  exists r b' s' rs' l' bs', int_res m s = Ok (r, b') s' /\ appends bs data r bs' /\
    owns s' b' rs' F l' bs' /\ same_bytes s s' F.
Proof.
  intros (rc & b' & s' & rs' & l' & k & E & Ho & Sb & Hrc).
  exists (RInt rc), b', s', rs', l', (bs ++ take k data). unfold int_res. exec E.
  split; [done|]. split; [|done]. unfold appends. eauto.
Qed.

(** The operations that add bytes to one IOBuf. *)
Lemma run_grow s bufs abs F o : family s bufs abs F -> valid o abs ->
  match o with Append _ _ | PushBack _ _ | Resize _ _ _ | AppendUserData _ _ _ _ _ => True | _ => False end ->
  exists r bufs' s' abs', run o bufs s = Ok (r, bufs') s' /\ spec_step o abs r abs' /\
    family s' bufs' abs' F /\ same_bytes s s' F.
Proof.
  intros Hf Hv Ho. destruct o; try done; simpl run; eapply (step1 _ _ abs); try done;
    intros b rs G l bs Hown Hb Hlk; simpl in Hb; rewrite ?list_lookup_insert_eq in Hb
      by (by eapply lookup_lt_Some); simpl in Hb.
  - destruct data as [data|]; simpl in *.
    + rewrite ?list_lookup_insert_eq in Hb by (by eapply lookup_lt_Some).
      by eapply appended_step, append_spec.
    + exists (RInt (-1)), b, s, rs, l, bs. split; [done|]. split; [done|]. split; [done|apply same_bytes_refl].
  - by eapply appended_step, appended_push_back.
  - simpl. destruct (Z.ltb_spec n (zlen bs)).
    + destruct (resize_shrink_spec s b rs G l bs n c Hown) as (b' & rs' & s' & E & Ho' & Sb); [lia|].
      exists (RInt 0), b', s', rs', l, (take (Z.to_nat n) bs). unfold int_res. exec E. done.
    + eapply appended_step, resize_grow_spec; [done|lia].
  - destruct Hb as [Hm Hb].
    destruct (user_data_spec s b rs G l bs d mem dl meta Hown Hm Hb) as (rc & b' & s' & rs' & E & Sb & Hc).
    unfold int_res. destruct Hc as [[-> Ho']|(-> & -> & Ho')].
    + exists (RInt 0), b', s', rs', l, (bs ++ mem). exec E. split; [done|]. split; [|done]. by left.
    + exists (RInt (-1)), b, s', rs, l, bs. exec E. split; [done|]. split; [|done]. by right.
Qed.

(** The operations that only read or remove bytes of one IOBuf. *)
Lemma run_shrink s bufs abs F o : family s bufs abs F -> valid o abs ->
  match o with PopFront _ _ | PopBack _ _ | CutnRaw _ _ | CutnString _ _ _ | Cut1 _ | CopyTo _ _ _
  | Clear _ | Length _ | Empty _ => True | _ => False end ->
  exists r bufs' s' abs', run o bufs s = Ok (r, bufs') s' /\ spec_step o abs r abs' /\
    family s' bufs' abs' F /\ same_bytes s s' F.
Proof.
  intros Hf Hv Ho. destruct o; try done; simpl run; eapply (step1 _ _ abs); try done;
    intros b rs G l bs Hown Hb Hlk; simpl in Hb;
    pose proof (owns_held _ _ _ _ _ _ Hown) as Hh; pose proof Hown as (V & _ & _).
  - destruct (pop_front_spec s b rs _ bs n Hh Hb) as (b' & rs' & s' & E & Hh' & Fr).
    eexists _, b', s', rs', l, _. unfold int_res. exec E. split; [done|]. split; [done|]. by eapply owns_step.
  - destruct (pop_back_spec s b rs _ bs n Hh Hb) as (b' & rs' & s' & E & Hh' & Fr).
    eexists _, b', s', rs', l, _. unfold int_res. exec E. split; [done|]. split; [done|]. by eapply owns_step.
  - destruct (cutn_raw_spec s b rs _ bs n Hh Hb) as (b' & rs' & s' & E & Hh' & Fr).
    eexists _, b', s', rs', l, _. unfold bytes_res. exec E. split; [done|]. split; [done|]. by eapply owns_step.
  - destruct (cutn_string_spec s b rs _ bs out n Hh Hb) as (b' & rs' & s' & E & Hh' & Fr).
    eexists _, b', s', rs', l, _. unfold bytes_res. exec E. split; [done|]. split; [done|]. by eapply owns_step.
  - destruct (cut1_spec s b rs _ bs Hh) as (b' & rs' & s' & E & Hh' & Fr).
    eexists _, b', s', rs', l, _. exec E. split; [done|]. split; [done|]. by eapply owns_step.
  - destruct Hb as [Hn Hp]. exec (copy_to_spec s b rs _ bs n pos Hh Hn Hp).
    eexists _, b, s, rs, l, bs. split; [done|]. split; [done|]. split; [done|apply same_bytes_refl].
  - destruct (clear_owns s b rs G l bs Hown) as (s' & E & Ho' & Sb).
    eexists _, _, s', [], l, []. exec E. split; [done|]. done.
  - exec (IOBuf_length_spec b rs s V). rewrite <- (owns_length _ _ _ _ _ _ Hown).
    eexists _, b, s, rs, l, bs. split; [done|]. split; [done|]. split; [done|apply same_bytes_refl].
  - exec (IOBuf_empty_spec b rs s V).
    eexists _, b, s, rs, l, bs. split; [done|]. split; [|split; [done|apply same_bytes_refl]].
    split; [|done]. f_equal. rewrite (bool_decide_ext _ _ (owns_empty _ _ _ _ _ _ Hown)). by destruct rs.
Qed.

(** The operations on two IOBufs. *)
Lemma run_pair s bufs abs F o : family s bufs abs F -> valid o abs ->
  match o with AppendBuf _ _ | AppendMovable _ _ | Cutn _ _ _ | Assign _ _ | AssignMovable _ _ | Swap _ _
  | Equals _ _ => True | _ => False end ->
  exists r bufs' s' abs', run o bufs s = Ok (r, bufs') s' /\ spec_step o abs r abs' /\
    family s' bufs' abs' F /\ same_bytes s s' F.
Proof.
  intros Hf Hv Ho. pose proof Hv as (_ & _ & Hb).
  destruct o; try done; simpl run; eapply (step2 _ _ abs); try done;
    intros b c rs qs G l bs cs Hown Hlb Hlc; simpl in Hb; rewrite ?Hlb, ?Hlc in Hb; simpl in Hb.
  - destruct (append_IOBuf_spec _ _ _ _ _ _ _ _ _ Hown Hb) as (b' & s' & rs' & E & Ho' & Sb).
    eexists _, b', c, s', rs', qs, l, _, _. exec E. split; [done|]. split; [done|]. done.
  - destruct (append_movable_spec _ _ _ _ _ _ _ _ _ Hown Hb) as (b' & c' & s' & rs' & qs' & E & Ho' & Sb).
    eexists _, b', c', s', rs', qs', l, _, _. exec E. split; [done|]. split; [done|]. done.
  - destruct Hb as [Hn Hb].
    destruct (cutn_owns _ _ _ _ _ _ _ _ _ n Hown Hn Hb) as (b' & c' & s' & rs' & qs' & E & Ho' & Sb).
    eexists _, b', c', s', rs', qs', l, _, _. exec E. split; [done|]. split; [done|]. done.
  - destruct (assign_owns _ _ _ _ _ _ _ _ _ Hown) as (b' & s' & E & Ho' & Sb).
    eexists _, b', c, s', qs, qs, l, _, _. exec E. split; [done|]. split; [done|]. done.
  - destruct (assign_movable_spec _ _ _ _ _ _ _ _ _ Hown) as (s' & E & Ho' & Sb).
    eexists _, c, new_IOBuf, s', qs, [], l, _, _. exec E. split; [done|]. split; [done|]. done.
  - eexists _, c, b, s, qs, rs, l, cs, bs. split; [done|]. split; [done|].
    split; [by apply owns2_sym|apply same_bytes_refl].
  - exec (equals_owns _ _ _ _ _ _ _ _ _ Hown).
    eexists _, b, c, s, rs, qs, l, bs, cs. split; [done|]. split; [done|]. split; [done|apply same_bytes_refl].
Qed.

Lemma run_thread_exit s bufs abs F : family s bufs abs F ->
  exists s', run ThreadExit bufs s = Ok (RUnit, bufs) s' /\ family s' bufs abs F /\ same_bytes s s' F /\
    block_head (tls s') = NULL /\ num_blocks (tls s') = 0.
Proof.
  intros (rss & l & Hv & T & ->).
  destruct (clear_tls_block_chain_spec s _ l T) as (s' & E & T' & [S1 S2]%same_bytes_app).
  exists s'. simpl. exec E. split; [done|]. split; [|split; [done|]].
  - exists rss, []. split; [done|]. split; [done|]. symmetry. by apply same_bytes_map.
  - by destruct T' as (? & ? & _).
Qed.

Lemma run_refines s bufs abs F o : family s bufs abs F -> valid o abs ->
  exists r bufs' s' abs', run o bufs s = Ok (r, bufs') s' /\ spec_step o abs r abs' /\
    family s' bufs' abs' F /\ same_bytes s s' F.
Proof.
  intros Hf Hv. destruct o;
    try (by apply run_grow); try (by apply run_shrink); try (by apply run_pair).
  destruct (run_thread_exit s bufs abs F Hf) as (s' & E & Hf' & Sb & _).
  exists RUnit, bufs, s', abs. split; [done|]. split; [done|]. done.
Qed.

Lemma run_all_refines ops : forall s bufs abs F, family s bufs abs F -> safe ops abs ->
  exists results bufs' s' abs', run_all ops bufs s = Ok (results, bufs') s' /\ spec_all ops abs results abs' /\
    family s' bufs' abs' F /\ same_bytes s s' F.
Proof.
  induction ops as [|o ops IH]; intros s bufs abs F Hf Hs; simpl.
  - exists [], bufs, s, abs. split; [done|]. split; [constructor|]. split; [done|apply same_bytes_refl].
  - destruct Hs as [Hv Hs].
    destruct (run_refines s bufs abs F o Hf Hv) as (r & bufs1 & s1 & abs1 & E & Hst & Hf1 & Sb). exec E.
    destruct (IH s1 bufs1 abs1 F Hf1 (Hs _ _ Hst)) as (rs & bufs2 & s2 & abs2 & E2 & Hst2 & Hf2 & Sb2). exec E2.
    exists (r :: rs), bufs2, s2, abs2. split; [done|]. split; [by econstructor|].
    split; [done|]. by eapply same_bytes_trans.
Qed.

(** ** Nothing leaks *)

Definition clear_everything (n : nat) : list op := map Clear (seq 0 n) ++ [ThreadExit].

Lemma contents_nil_inv s G rs : inv s G -> rs ⊆ G -> Forall ref_wf rs -> contents s rs = [] -> rs = [].
Proof.
  intros I Hs Hw Hc. pose proof (zlen_contents s G rs I Hs) as Hz. rewrite Hc in Hz.
  pose proof (total_len rs Hw). destruct rs as [|r rs]; [done|].
  rewrite <- Hz, zlen_cons in *. pose proof (zlen_nonneg rs). change (zlen []) with 0 in *. lia.
Qed.

Lemma family_empty_heap s bufs abs : family s bufs abs [] -> Forall (eq []) abs ->
  block_head (tls s) = NULL -> heap s = ∅.
Proof.
  intros (rss & l & Hv & T & ->) He Hh. pose proof T as (Hc & _ & _ & I).
  assert (l = []) as ->.
  { destruct l as [|a l]; [done|]. destruct (chain_head _ _ _ _ _ I Hc). congruence. }
  simpl in I. rewrite !app_nil_r in I.
  assert (concat rss = []) as Hn.
  { rewrite Forall_fmap, Forall_forall in He.
    destruct (concat rss) as [|r q] eqn:Eq; [done|]. rewrite <- Eq in I.
    assert (r ∈ concat rss) as Hr by (rewrite Eq; by left).
    apply list_elem_of_In, in_concat in Hr as (rs & Hrs%list_elem_of_In & Hr%list_elem_of_In).
    pose proof (He rs Hrs) as Hz. apply list_elem_of_lookup in Hrs as Hk. destruct Hk as [k Hk].
    destruct (Forall2_lookup_r _ _ _ _ _ Hv Hk) as (b & _ & (Hwf & _)).
    rewrite (contents_nil_inv s (concat rss) rs) in Hr; try done; [by apply not_elem_of_nil in Hr|].
    intros x Hx. apply list_elem_of_In, in_concat. exists rs. by rewrite <- !list_elem_of_In. }
  rewrite Hn in I. apply map_empty. intros a.
  destruct (heap s !! a) as [b|] eqn:E; [|done]. pose proof (inv_count _ _ I a) as Hca.
  unfold count_of in Hca. rewrite E in Hca. pose proof (inv_blocks _ _ I _ _ E) as (_ & Hns & _).
  simpl in Hca. lia.
Qed.

Lemma run_clear_everything k : forall i s bufs abs, family s bufs abs [] -> (i + k = List.length abs)%nat ->
  (forall j, (j < i)%nat -> abs !! j = Some []) ->
  exists results bufs' s', run_all (map Clear (seq i k) ++ [ThreadExit]) bufs s = Ok (results, bufs') s' /\
    heap s' = ∅.
Proof.
  induction k as [|k IH]; intros i s bufs abs Hf Hlen Hlow; simpl.
  - destruct (run_thread_exit s bufs abs [] Hf) as (s' & E & Hf' & _ & Hh & _).
    unfold run in E. exec E. eexists _, _, s'. split; [done|]. apply (family_empty_heap s' bufs abs); [done| |done].
    apply Forall_lookup. intros j x Hj. rewrite Hlow in Hj by (apply lookup_lt_Some in Hj; lia). congruence.
  - assert (valid (Clear i) abs) as Hv.
    { split; [|split; [|done]]; simpl.
      - apply Forall_singleton. apply lookup_lt_is_Some. lia.
      - apply NoDup_singleton. }
    destruct (run_refines s bufs abs [] (Clear i) Hf Hv) as (r & bufs1 & s1 & abs1 & E & Hst & Hf1 & _).
    unfold run in E. exec E. destruct Hst as (bs & bs' & Hi & [_ ->] & ->).
    destruct (IH (S i) s1 bufs1 _ Hf1) as (results & bufs' & s' & E' & Hheap).
    + rewrite length_insert. lia.
    + intros j Hj. destruct (decide (i = j)) as [<-|Hne].
      * apply list_lookup_insert_eq. by eapply lookup_lt_Some.
      * rewrite list_lookup_insert_ne by done. apply Hlow. lia.
    + exec E'. eexists _, _, s'. done.
Qed.

Lemma family_length s bufs abs F : family s bufs abs F -> List.length bufs = List.length abs.
Proof. intros (rss & l & Hv & _ & ->). by rewrite length_map, (Forall2_length _ _ _ Hv). Qed.

End refine.
