(* ===== verification/IOBufCorrect.v ===== *)
(** * IOBuf: the theorems

    The statements about IOBuf for its users, over any allocator that meets
    the interface, each with a run on a small concrete allocator. *)
From S2P Require Import Prelude IOBuf IOBufHeap IOBufOps IOBufEquals IOBufAppend IOBufShare IOBufRefine.
Local Open Scope Z_scope.

(** ** A small allocator

    It hands out unused addresses while fewer than [budget] blocks are live. *)
Record Simple := mkSimple { s_pool : gset Z; s_sys : gset Z; budget : nat }.

Definition unused (p : Simple) : Z := fresh ({[0]} ∪ s_pool p ∪ s_sys p).

#[export] Instance Simple_Allocator : Allocator Simple := {
  BlockAllocate _ p :=
    if decide (size (s_pool p) < budget p)%nat
    then (Some (unused p), mkSimple ({[unused p]} ∪ s_pool p) (s_sys p) (budget p)) else (None, p);
  BlockDeallocate a p := mkSimple (s_pool p ∖ {[a]}) (s_sys p) (budget p);
  malloc _ p :=
    if decide (size (s_sys p) < budget p)%nat
    then (Some (unused p), mkSimple (s_pool p) ({[unused p]} ∪ s_sys p) (budget p)) else (None, p);
  free a p := mkSimple (s_pool p) (s_sys p ∖ {[a]}) (budget p)
}.

Lemma unused_fresh p : unused p <> 0 /\ (unused p ∉ s_pool p ∪ s_sys p).
Proof.
  unfold unused. pose proof (is_fresh ({[0]} ∪ s_pool p ∪ s_sys p)) as Hf. set_solver.
Qed.

#[export] Program Instance Simple_Laws : AllocatorLaws Simple := {
  pool_live := s_pool; sys_live := s_sys
}.
Next Obligation. intros n p a p'. simpl. case_decide; intros; simplify_eq/=. pose proof (unused_fresh p). tauto. Qed.
Next Obligation. intros n p p'. simpl. case_decide; intros; by simplify_eq/=. Qed.
Next Obligation. done. Qed.
Next Obligation. intros n p a p'. simpl. case_decide; intros; simplify_eq/=. pose proof (unused_fresh p). tauto. Qed.
Next Obligation. intros n p p'. simpl. case_decide; intros; by simplify_eq/=. Qed.
Next Obligation. done. Qed.

Section init.
Context {P : Type} `{AllocatorLaws P}.

(** The state at the start of a thread. *)
Definition init_state (p : P) : St P := mkSt ∅ (mkTLS NULL 0 false) p [].

Lemma tls_inv_init p : tls_inv (init_state p) [] [].
Proof.
  split; [done|]. split; [done|]. split; [done|]. constructor; [|done|constructor].
  intros a. unfold count_of. simpl. by rewrite lookup_empty.
Qed.
Lemma view_new : view new_IOBuf [].
Proof. by split. Qed.
Lemma family_init p n : family (init_state p) (replicate n new_IOBuf) (replicate n []) [].
Proof.
  exists (replicate n []), []. split; [|split].
  - induction n; constructor; [apply view_new|done].
  - replace (concat (replicate n [])) with (@nil BlockRef) by (by induction n). apply tls_inv_init.
  - change (map ?f ?l) with (f <$> l). by rewrite fmap_replicate.
Qed.
End init.

Section claims.
Context {P : Type} `{AllocatorLaws P}.
Implicit Types (s : St P) (bufs : list IOBuf) (F : list BlockRef).

(** C1: every program of IOBuf calls whose arguments are in range runs to its
    end, without a failed check, a bad memory access or an endless loop, and
    its results and final contents are those of the same program on plain byte
    strings; the bytes of references held elsewhere do not change. *)
Theorem iobuf_programs_refine s bufs abs F ops : family s bufs abs F -> safe ops abs ->
  exists results bufs' s' abs', run_all ops bufs s = Ok (results, bufs') s' /\
    spec_all ops abs results abs' /\ family s' bufs' abs' F /\ same_bytes s s' F.
Proof. apply run_all_refines. Qed.

(** when every IOBuf has been cleared and the thread has released its
    blocks, no block is left: each one went back to the allocator it came from. *)
Theorem iobuf_no_leak s bufs abs : family s bufs abs [] ->
  exists results bufs' s', run_all (clear_everything (length bufs)) bufs s = Ok (results, bufs') s' /\
    heap s' = ∅.
Proof.
  intros Hf. unfold clear_everything. eapply (run_clear_everything _ 0); [done| |lia].
  rewrite (family_length _ _ _ _ Hf). lia.
Qed.

(** [share_tls_block] hands out a block with room at the head of the
    thread's chain, or [NULL] when the pool has no memory; the chain stays
    acyclic, exactly counted and within [MAX_BLOCKS_PER_THREAD] blocks. *)
Theorem share_tls_block_correct s F l : tls_inv s F l ->
  exists a s' l', share_tls_block s = Ok a s' /\ tls_inv s' F l' /\ same_bytes s s' F /\
    ((a = NULL /\ l' = []) \/ (has_room s' a /\ head l' = Some a)).
Proof.
  intros T. destruct (share_tls_block_spec s F l T) as (a & s' & l' & E & T' & Sb & U).
  exists a, s', l'. split; [done|]. split; [done|]. split; [done|].
  destruct U as [?|(_ & b & l2 & -> & Eb & _ & Hf)]; [by left|right]. split; [by exists b|done].
Qed.

(** A block given back with [release_tls_block] and taken again with
    [acquire_tls_block] keeps the chain exact: the block comes back with room,
    out of the chain, still counted once for its holder. *)
Theorem release_acquire_block s F l a (b : Block) : tls_inv s (tls_ref a :: F) l ->
  heap s !! a = Some b -> is_user b = false -> full b = false -> a ∉ l -> zlen l < MAX_BLOCKS_PER_THREAD ->
  exists s1 a' s' l', release_tls_block a s = Ok tt s1 /\ tls_inv s1 F (a :: l) /\
    acquire_tls_block s1 = Ok a' s' /\ tls_inv s' (tls_ref a' :: F) l' /\ same_bytes s s' F /\
    has_room s' a' /\ a' ∉ l'.
Proof.
  intros T E Hu Hf Hn Hl.
  destruct (release_tls_block_spec s F l a b T E Hu Hn) as (s1 & l1 & E1 & T1 & Sb1 & Hl1).
  rewrite Hf in Hl1. destruct (Z.leb_spec MAX_BLOCKS_PER_THREAD (zlen l)); [lia|]. simpl in Hl1. subst l1.
  destruct (acquire_tls_block_spec s1 F (a :: l) T1) as (a' & s' & l' & E2 & T2 & Sb2 & Hr & Hn2).
  - apply Exists_cons_hd. destruct T as (_ & Hnb & _ & I).
    apply (released_room s s1 a b E Hf E1); [lia|]. by destruct (inv_blocks _ _ I _ _ E).
  - exists s1, a', s', l'. do 4 (split; [done|]). split; [by eapply same_bytes_trans|done].
Qed.

(** [acquire_tls_block] follows the link of the last block and reads
    through a null pointer when every block of a non-empty chain is full. *)
Theorem acquire_tls_block_all_full s F l : tls_inv s F l -> l <> [] -> Forall (fun a => ~ has_room s a) l ->
  acquire_tls_block s = Undef.
Proof.
  intros T Hne Hall. pose proof T as (Hc & Hn & _ & I). unfold acquire_tls_block, get_tls at 1. mstep.
  destruct l as [|x l]; [done|]. destruct (chain_head _ _ _ _ _ I Hc) as [Hh Ha].
  destruct (Z.eqb_spec (block_head (tls s)) NULL); [congruence|]. rewrite Hn.
  destruct (acquire_loop_spec (x :: l) (Z.to_nat (zlen (x :: l))) s F T) as [_ Hu]; [unfold zlen; lia|].
  rewrite Hu; [done|]. rewrite Exists_exists. intros (a & Hin & Hr). rewrite Forall_forall in Hall. by eapply Hall.
Qed.

End claims.

(** ** Concrete runs *)

(** A thread that holds one block of four bytes, [n] of them used. *)
Definition small_block (n : Z) : Block := mkBlock 1 0 0 n 4 NULL 33 [7; 7; 7; 7] NULL.
Definition one_block (n head num : Z) : St Simple :=
  mkSt {[1 := small_block n]} (mkTLS head num true) (mkSimple {[1]} ∅ 4) [].

Lemma one_block_inv n head num : 0 <= n <= 4 -> inv (one_block n head num) [tls_ref 1].
Proof.
  intros Hn. constructor.
  - intros a. unfold count_of. rewrite occ_cons. change (r_block (tls_ref 1)) with 1. simpl heap.
    destruct (Z.eqb_spec 1 a) as [<-|Ha]; [by rewrite lookup_singleton_eq|by rewrite lookup_singleton_ne].
  - intros a b Hb. simpl in Hb. apply lookup_singleton_Some in Hb as [<- <-].
    split; [done|]. unfold is_user. simpl. split_and!; try done; lia.
  - apply Forall_singleton. exists (small_block n). split; [by apply lookup_singleton_eq|]. simpl. lia.
Qed.

Lemma one_block_chain n : 0 <= n <= 4 -> tls_inv (one_block n 1 1) [] [1].
Proof.
  intros Hn. split; [|split; [done|split; [done|]]].
  - simpl. split; [done|]. exists (small_block n). by rewrite lookup_singleton_eq.
  - by apply one_block_inv.
Qed.

Definition demo_ops : list op := [Append 0 (Some [1; 2; 3]); Cutn 0 1 2; Equals 0 1].

Lemma demo_safe : safe demo_ops [[]; []].
Proof.
  split.
  { split; [repeat constructor; by eexists|]. split; [apply NoDup_singleton|done]. }
  intros r abs (bs & bs' & [= <-] & (rc & k & _ & -> & _) & ->). split.
  { split; [repeat constructor; by eexists|]. split; [apply NoDup_cons; split; [set_solver|apply NoDup_singleton]|].
    simpl. split; [lia|]. change (zlen []) with 0. lia. }
  intros r2 abs2 (bs & cs & bs' & cs' & _ & _ & _ & ->). split; [|done].
  split; [repeat constructor; by eexists|]. split; [apply NoDup_cons; split; [set_solver|apply NoDup_singleton]|done].
Qed.

Lemma iobuf_programs_refine_witness : exists results bufs' s' abs',
  run_all demo_ops [new_IOBuf; new_IOBuf] (init_state (mkSimple ∅ ∅ 4)) = Ok (results, bufs') s' /\
  spec_all demo_ops [[]; []] results abs' /\ family s' bufs' abs' [] /\
  same_bytes (init_state (mkSimple ∅ ∅ 4)) s' [].
Proof.
  apply (iobuf_programs_refine (init_state (mkSimple ∅ ∅ 4)) [new_IOBuf; new_IOBuf] [[]; []] [] demo_ops).
  - apply (family_init (mkSimple ∅ ∅ 4) 2).
  - apply demo_safe.
Defined.

Lemma iobuf_no_leak_witness : exists results bufs' s',
  run_all (clear_everything 2) [new_IOBuf; new_IOBuf] (init_state (mkSimple ∅ ∅ 4)) = Ok (results, bufs') s' /\
  heap s' = ∅.
Proof.
  apply (iobuf_no_leak (init_state (mkSimple ∅ ∅ 4)) [new_IOBuf; new_IOBuf] [[]; []]).
  apply (family_init (mkSimple ∅ ∅ 4) 2).
Defined.

Lemma share_tls_block_correct_witness : exists a s' l',
  share_tls_block (one_block 4 1 1) = Ok a s' /\ tls_inv s' [] l' /\ same_bytes (one_block 4 1 1) s' [] /\
  ((a = NULL /\ l' = []) \/ (has_room s' a /\ head l' = Some a)).
Proof. apply (share_tls_block_correct (one_block 4 1 1) [] [1]). apply one_block_chain. lia. Defined.

Lemma release_acquire_block_witness : exists s1 a' s' l',
  release_tls_block 1 (one_block 2 NULL 0) = Ok tt s1 /\ tls_inv s1 [] [1] /\
  acquire_tls_block s1 = Ok a' s' /\ tls_inv s' [tls_ref a'] l' /\ same_bytes (one_block 2 NULL 0) s' [] /\
  has_room s' a' /\ a' ∉ l'.
Proof.
  apply (release_acquire_block (one_block 2 NULL 0) [] [] 1 (small_block 2)); try done.
  - split; [done|]. split; [done|]. split; [done|]. apply one_block_inv. lia.
  - apply not_elem_of_nil.
Defined.

Lemma acquire_tls_block_all_full_witness : acquire_tls_block (one_block 4 1 1) = Undef.
Proof.
  apply (acquire_tls_block_all_full (one_block 4 1 1) [] [1]); [apply one_block_chain; lia|done|].
  apply Forall_singleton. intros (b & Eb & Hf). change (Some (small_block 4) = Some b) in Eb. by injection Eb as <-.
Defined.
