(* ===== verification/IOBufInput.v ===== *)
(** * IOBufAsZeroCopyInputStream

    Reading an IOBuf chunk by chunk without copying ([Next], [BackUp], [Skip],
    [ByteCount] of [fast_iobuf.cc]), over the references the IOBuf holds. *)
From S2P Require Import Prelude IOBuf IOBufHeap IOBufOps IOBufAppend IOBufCorrect.
Local Open Scope Z_scope.

(** [_buf] is the argument [b] of each operation; a chunk handed out is a
    block with the offset and size of the bytes in it. *)
Record InStream := mkIn { _ref_index : Z; _add_offset : Z; in_byte_count : Z }.
Record Chunk := mkChunk { c_block : Z; c_offset : Z; c_size : Z }.

Section code.
Context {P : Type} `{Allocator P}.
Abbreviation MS := (M (St P)).

Definition new_InStream : InStream := mkIn 0 0 0.

Definition in_Next (b : IOBuf) (st : InStream) : MS (option Chunk * InStream) :=
  let! cur_ref := _pref_at b (_ref_index st) in
  match cur_ref with
  | None => ret (None, st)
  | Some r =>
      let! _ := load_block (r_block r) in
      let size := i32 (r_length r - _add_offset st) in
      ret (Some (mkChunk (r_block r) (r_offset r + _add_offset st) size),
           mkIn (_ref_index st + 1) 0 (in_byte_count st + u32 (r_length r - _add_offset st)))
  end.

Definition in_BackUp (b : IOBuf) (st : InStream) (count : Z) : MS InStream :=
  if 0 <? _ref_index st then
    let i := _ref_index st - 1 in
    let! p := _pref_at b i in
    let! cur_ref := deref p in
    if (_add_offset st =? 0) && (u32 count <=? r_length cur_ref) then abort else
    ret (mkIn i (i32 (r_length cur_ref - count)) (in_byte_count st - count))
  else abort.

Fixpoint skip_loop (fuel : nat) (b : IOBuf) (st : InStream) (cur_ref : option BlockRef) (count : Z)
  : MS (bool * InStream) :=
  match cur_ref with
  | None => ret (false, st)
  | Some r =>
      let left_bytes := i32 (r_length r - _add_offset st) in
      if count <? left_bytes then
        ret (true, mkIn (_ref_index st) (_add_offset st + count) (in_byte_count st + count))
      else
        match fuel with
        | O => nofuel
        | S f =>
            let! next := _pref_at b (_ref_index st + 1) in
            skip_loop f b (mkIn (_ref_index st + 1) 0 (in_byte_count st + left_bytes)) next (count - left_bytes)
        end
  end.
(** Each turn but the last passes one reference, so their number is enough fuel. *)
Definition in_Skip (b : IOBuf) (st : InStream) (count : Z) : MS (bool * InStream) :=
  let! n := _ref_num b in
  let! cur_ref := _pref_at b (_ref_index st) in
  skip_loop (Z.to_nat n) b st cur_ref count.

Definition in_ByteCount (st : InStream) : Z := in_byte_count st.

(** A reader that calls [Next] to the end and keeps what it sees. *)
Fixpoint read_all (fuel : nat) (b : IOBuf) (st : InStream) : MS (list Z * InStream) :=
  let! x := in_Next b st in
  match fst x with
  | None => ret ([], snd x)
  | Some c =>
      match fuel with
      | O => nofuel
      | S f => let! bs := read_block (c_block c) (c_offset c) (c_size c) in
               let! y := read_all f b (snd x) in
               ret (bs ++ fst y, snd y)
      end
  end.
End code.

Section spec.
Context {P : Type} `{AllocatorLaws P}.
Implicit Types (s : St P) (b : IOBuf) (rs F : list BlockRef) (st : InStream).

(** The stream stands inside reference [_ref_index], before its byte
    [_add_offset]; [pos] bytes lie behind. *)
Record at_pos rs st (pos : Z) : Prop := mk_at {
  at_index : 0 <= _ref_index st <= zlen rs;
  at_offset : 0 <= _add_offset st /\
    match rs !! Z.to_nat (_ref_index st) with
    | Some r => _add_offset st < r_length r
    | None => _add_offset st = 0
    end;
  at_count : in_byte_count st = pos;
  at_total : pos = total (take (Z.to_nat (_ref_index st)) rs) + _add_offset st
}.

Lemma at_start rs : Forall ref_wf rs -> at_pos rs new_InStream 0.
Proof.
  intros Hw. constructor; simpl; try done.
  - pose proof (zlen_nonneg rs). lia.
  - split; [lia|]. destruct rs as [|r rs]; simpl; [done|]. apply Forall_cons in Hw as [(_ & _ & ? & _) _]. done.
Qed.

Lemma total_take_S rs i r : rs !! i = Some r -> total (take (S i) rs) = total (take i rs) + r_length r.
Proof. intros E. rewrite (take_S_r _ _ _ E), total_app. simpl. lia. Qed.

(** Moving to the next reference. *)
Lemma at_next rs st pos r : Forall ref_wf rs -> at_pos rs st pos -> rs !! Z.to_nat (_ref_index st) = Some r ->
  at_pos rs (mkIn (_ref_index st + 1) 0 (in_byte_count st + (r_length r - _add_offset st)))
    (pos + (r_length r - _add_offset st)).
Proof.
  intros Hw [Hi Ho Hc Ht] E. pose proof (lookup_lt_Some _ _ _ E) as Hlt.
  constructor; simpl.
  - unfold zlen in *. lia.
  - split; [lia|]. destruct (rs !! Z.to_nat (_ref_index st + 1)) as [q|] eqn:Eq; [|done].
    rewrite Forall_forall in Hw. apply list_elem_of_lookup_2 in Eq. by destruct (Hw q Eq) as (_ & _ & ? & _).
  - lia.
  - replace (Z.to_nat (_ref_index st + 1)) with (S (Z.to_nat (_ref_index st))) by lia.
    rewrite (total_take_S _ _ _ E). lia.
Qed.

Lemma at_end rs st pos : at_pos rs st pos -> rs !! Z.to_nat (_ref_index st) = None -> pos = total rs.
Proof.
  intros [Hi Ho Hc Ht] E. rewrite E in Ho. apply lookup_ge_None in E. rewrite take_ge in Ht by lia. lia.
Qed.

Lemma at_ref_wf rs i (r : BlockRef) : Forall ref_wf rs -> rs !! i = Some r -> ref_wf r.
Proof. rewrite Forall_forall. intros Hw E. apply Hw. by eapply list_elem_of_lookup_2. Qed.

Lemma in_Next_spec s b rs F bs st pos : held s b rs F bs -> at_pos rs st pos ->
  (pos = zlen bs /\ in_Next b st s = Ok (None, st) s) \/
  (exists c st', in_Next b st s = Ok (Some c, st') s /\ 0 < c_size c /\ at_pos rs st' (pos + c_size c) /\
     _add_offset st' = 0 /\ c_size c <= zlen bs - pos /\
     read_block (c_block c) (c_offset c) (c_size c) s = Ok (slice pos (c_size c) bs) s /\
     exists r, rs !! Z.to_nat (_ref_index st) = Some r /\ _ref_index st' = _ref_index st + 1 /\
       c_size c <= r_length r).
Proof.
  intros Hh Ha. pose proof (held_length _ _ _ _ _ Hh) as Hl. pose proof Hh as (V & I & Hc).
  pose proof V as (Hw & _ & _). unfold in_Next.
  pose proof Ha as [Hi Ho Hcnt Ht].
  exec (_pref_at_spec b rs (_ref_index st) s V ltac:(lia)).
  destruct (rs !! Z.to_nat (_ref_index st)) as [r|] eqn:E.
  - right. destruct Ho as [Ho1 Ho2]. pose proof (at_ref_wf _ _ _ Hw E) as (Hnz & Hro & Hrl & Hrs).
    pose proof (list_elem_of_lookup_2 _ _ _ E) as Hin.
    pose proof (inv_ref s _ r I ltac:(set_solver)) as Hok. pose proof Hok as (blk & Eb & _).
    unfold load_block. mstep. rewrite Eb. rewrite i32_small, u32_small by (unfold is_u32; lia).
    eexists _, _. split; [reflexivity|]. simpl. split; [lia|]. split; [|split; [done|]].
    + by apply at_next.
    + pose proof (total_take_S _ _ _ E) as HtS.
      assert (total (take (S (Z.to_nat (_ref_index st))) rs) + total (drop (S (Z.to_nat (_ref_index st))) rs) = total rs) as Hsum
        by (rewrite <- total_app, take_drop; done).
      pose proof (total_nonneg (drop (S (Z.to_nat (_ref_index st))) rs) ltac:(by apply Forall_drop)) as Hdn.
      split; [lia|]. split; [|exists r; split; [done|]; split; [done|lia]].
      pose proof (read_block_spec s _ (drop_ref (_add_offset st) r) (r_length r - _add_offset st) I) as Hread.
      simpl in Hread. rewrite Hread; [|by apply ref_ok_drop; try lia|lia]. f_equal.
      rewrite ref_bytes_take by (try apply ref_ok_drop; try done; simpl; lia).
      rewrite ref_bytes_drop by (try done; lia).
      rewrite <- Hc. rewrite <- (take_drop_middle rs _ r E). unfold slice.
      rewrite contents_app, contents_cons.
      assert (zlen (contents s (take (Z.to_nat (_ref_index st)) rs)) = total (take (Z.to_nat (_ref_index st)) rs)) as Hz.
      { apply (zlen_contents s (rs ++ F)); [done|]. intros x Hx. apply elem_of_app. left.
        by apply (subseteq_take _ _ _ Hx). }
      unfold zlen in Hz.
      rewrite drop_app_ge by lia.
      pose proof (zlen_ref_bytes s _ r I ltac:(set_solver)) as Hzr. unfold zlen in Hzr.
      rewrite drop_app_le by lia. rewrite take_app_le by (rewrite length_drop; lia).
      f_equal. f_equal. lia.
  - left. split; [|done]. rewrite Hl. by eapply at_end.
Qed.

Lemma read_all_spec s b rs F bs : held s b rs F bs -> forall fuel st pos, at_pos rs st pos ->
  zlen rs - _ref_index st <= Z.of_nat fuel ->
  exists st', read_all fuel b st s = Ok (drop (Z.to_nat pos) bs, st') s /\ at_pos rs st' (zlen bs).
Proof.
  intros Hh. induction fuel as [|f IH]; intros st pos Ha Hf; simpl;
    destruct (in_Next_spec s b rs F bs st pos Hh Ha) as
      [(-> & E)|(c & st' & E & Hc & Ha' & _ & Hle & Hr & (r & Er & Ei & _))]; exec E; simpl.
  1, 3: exists st; rewrite drop_ge by (unfold zlen; lia); done.
  - apply lookup_lt_Some in Er. unfold zlen in *. lia.
  - exec Hr. destruct (IH st' _ Ha' ltac:(lia)) as (st2 & E2 & Ha2). exec E2.
    exists st2. split; [|done]. simpl. do 2 f_equal.
    pose proof (at_total _ _ _ Ha) as Hp. pose proof (at_offset _ _ _ Ha) as [? _].
    pose proof Hh as ((Hw & _) & _).
    pose proof (total_nonneg (take (Z.to_nat (_ref_index st)) rs) ltac:(by apply Forall_take)).
    unfold slice. rewrite Z2Nat.inj_add by lia. rewrite <- drop_drop. apply take_drop.
Qed.

Lemma skip_loop_spec s b rs F bs : held s b rs F bs -> forall fuel st pos count, at_pos rs st pos ->
  0 <= count < 2 ^ 31 -> zlen rs - _ref_index st <= Z.of_nat fuel ->
  exists st', skip_loop fuel b st (rs !! Z.to_nat (_ref_index st)) count s
      = Ok (pos + count <? zlen bs, st') s /\ at_pos rs st' (Z.min (pos + count) (zlen bs)).
Proof.
  intros Hh. pose proof (held_length _ _ _ _ _ Hh) as Hl. pose proof Hh as (V & _ & _).
  pose proof V as (Hw & _ & _).
  assert (forall st pos r, at_pos rs st pos -> rs !! Z.to_nat (_ref_index st) = Some r ->
    pos + (r_length r - _add_offset st) <= zlen bs) as Hfit.
  { intros st pos r Ha E. pose proof (at_total _ _ _ Ha). pose proof (total_take_S _ _ _ E) as HtS.
    rewrite <- (take_drop (S (Z.to_nat (_ref_index st))) rs), total_app in Hl.
    pose proof (total_nonneg (drop (S (Z.to_nat (_ref_index st))) rs) ltac:(by apply Forall_drop)). lia. }
  induction fuel as [|f IH]; intros st pos count Ha Hc Hf; simpl;
    (destruct (rs !! Z.to_nat (_ref_index st)) as [r|] eqn:E; simpl;
     [|exists st; pose proof (at_end _ _ _ Ha E); destruct (Z.ltb_spec (pos + count) (zlen bs)); [lia|];
       rewrite Z.min_r by lia; split; [done|]; by replace (zlen bs) with pos by lia]);
    pose proof Ha as [Hi Ho Hcnt Ht]; rewrite E in Ho;
    pose proof (at_ref_wf _ _ _ Hw E) as (_ & ? & ? & ?); pose proof (Hfit _ _ _ Ha E);
    rewrite i32_small by lia; destruct (Z.ltb_spec count (r_length r - _add_offset st)) as [Hlt|Hge].
  1, 3: eexists; (split; [destruct (Z.ltb_spec (pos + count) (zlen bs)); [reflexivity|lia]|]);
        rewrite Z.min_l by lia; constructor; simpl; rewrite ?E; try done; lia.
  - apply lookup_lt_Some in E. unfold zlen in *. lia.
  - exec (_pref_at_spec b rs (_ref_index st + 1) s V ltac:(lia)).
    pose proof (at_next rs st pos r Hw Ha E) as Ha'. simpl in Ha'.
    destruct (IH _ _ (count - (r_length r - _add_offset st)) Ha') as (st' & E' & Ha2); [lia|simpl; lia|].
    exists st'. simpl in E'. rewrite E'. split; [do 2 f_equal; f_equal; lia|].
    by replace (pos + count) with (pos + (r_length r - _add_offset st) + (count - (r_length r - _add_offset st))) by lia.
Qed.

(** Reading an IOBuf through the stream yields exactly its bytes, in order,
    and [ByteCount] is then its length. *)
Theorem input_stream_reads_all s b rs F bs : held s b rs F bs ->
  exists st, read_all (length rs) b new_InStream s = Ok (bs, st) s /\ in_ByteCount st = zlen bs.
Proof.
  intros Hh. pose proof Hh as ((Hw & _) & _).
  destruct (read_all_spec s b rs F bs Hh (length rs) new_InStream 0 (at_start rs Hw)) as (st & E & Ha).
  { simpl. unfold zlen. lia. }
  exists st. split; [exact E|]. apply (at_count _ _ _ Ha).
Qed.

(** [Skip] moves forward by the count or to the end, whichever comes first,
    and says whether bytes are left. *)
Theorem input_stream_skip s b rs F bs st pos count : held s b rs F bs -> at_pos rs st pos ->
  0 <= count < 2 ^ 31 ->
  exists st', in_Skip b st count s = Ok (pos + count <? zlen bs, st') s /\
    at_pos rs st' (Z.min (pos + count) (zlen bs)).
Proof.
  intros Hh Ha Hc. pose proof Hh as (V & _ & _). unfold in_Skip. exec (_ref_num_spec b rs s V).
  pose proof (at_index _ _ _ Ha). exec (_pref_at_spec b rs (_ref_index st) s V ltac:(lia)).
  eapply skip_loop_spec; try done. unfold zlen in *. lia.
Qed.

(** giving back bytes of the chunk that [Next] has just returned, the one
    use protobuf makes of [BackUp], ends the process: the condition of its
    [LOG_IF(FATAL, ...)] is the valid case instead of its negation. *)
Theorem input_stream_backup_aborts s b rs F bs st pos c st' count : held s b rs F bs -> at_pos rs st pos ->
  in_Next b st s = Ok (Some c, st') s -> 0 <= count <= c_size c ->
  in_BackUp b st' count s = Abort.
Proof.
  intros Hh Ha En Hc. pose proof Hh as (V & _ & _). pose proof V as (Hw & _ & _).
  destruct (in_Next_spec s b rs F bs st pos Hh Ha) as
    [(_ & E)|(c2 & st2 & E & _ & _ & Hz & _ & _ & (r & Er & Ei & Hcr))]; [congruence|].
  rewrite E in En. injection En as -> ->. pose proof (at_index _ _ _ Ha).
  unfold in_BackUp. rewrite Ei. destruct (Z.ltb_spec 0 (_ref_index st + 1)); [|lia].
  replace (_ref_index st + 1 - 1) with (_ref_index st) by lia.
  exec (_pref_at_spec b rs (_ref_index st) s V ltac:(lia)). rewrite Er. mstep.
  pose proof (at_ref_wf _ _ _ Hw Er) as (_ & ? & ? & ?).
  rewrite Hz, u32_small by (unfold is_u32; lia). simpl.
  by destruct (Z.leb_spec count (r_length r)); [|lia].
Qed.

End spec.

(** ** A concrete run: an IOBuf over the first three bytes of one block *)
Definition three_bytes : IOBuf := SV (mkRef 0 3 1) null_ref.

Lemma three_bytes_held : held (one_block 3 NULL 0) three_bytes [mkRef 0 3 1] [] [7; 7; 7].
Proof.
  assert (Forall ref_wf [mkRef 0 3 1]) as Hw by (by apply Forall_singleton).
  split; [split; [done|]; split; [simpl; lia|done]|]. split; [|reflexivity]. simpl.
  apply (inv_replace _ (tls_ref 1)); [by apply one_block_inv|done|].
  exists (small_block 3). split; [reflexivity|]. simpl. lia.
Qed.
Lemma three_bytes_start : at_pos [mkRef 0 3 1] new_InStream 0.
Proof. by apply at_start, Forall_singleton. Qed.

Lemma input_stream_reads_all_witness : exists st,
  read_all 1 three_bytes new_InStream (one_block 3 NULL 0) = Ok ([7; 7; 7], st) (one_block 3 NULL 0) /\
  in_ByteCount st = zlen [7; 7; 7].
Proof. apply (input_stream_reads_all (one_block 3 NULL 0) three_bytes [mkRef 0 3 1] []). apply three_bytes_held. Defined.

Lemma input_stream_skip_witness : exists st',
  in_Skip three_bytes new_InStream 2 (one_block 3 NULL 0) = Ok (0 + 2 <? zlen [7; 7; 7], st') (one_block 3 NULL 0) /\
  at_pos [mkRef 0 3 1] st' (Z.min (0 + 2) (zlen [7; 7; 7])).
Proof.
  apply (input_stream_skip (one_block 3 NULL 0) three_bytes [mkRef 0 3 1] []);
    [apply three_bytes_held|apply three_bytes_start|lia].
Defined.

Lemma input_stream_backup_aborts_witness :
  in_BackUp three_bytes (mkIn 1 0 3) 2 (one_block 3 NULL 0) = Abort.
Proof.
  apply (input_stream_backup_aborts (one_block 3 NULL 0) three_bytes [mkRef 0 3 1] [] [7; 7; 7] new_InStream 0
           (mkChunk 1 0 3)); [apply three_bytes_held|apply three_bytes_start|reflexivity|simpl; lia].
Defined.
