(* ===== verification/VersionedRef.v ===== *)
(** * VersionedRefWithId

    [inc/versioned_ref_with_id.h]: an object in a pool slot, found by an
    identifier that holds a version, and counted by a word that holds a version
    and a reference count.  The threads are modelled one atomic operation at a
    time: [step_thread] runs a thread to its next access of the shared words,
    and [step] interleaves any number of threads. *)
From S2P Require Import Prelude.
Local Open Scope Z_scope.

Module VRef.

(** ** Words and identifiers *)

Definition INVALID_VREF_ID : Z := 2 ^ 64 - 1.

Definition MakeVRefId (version slot : Z) : Z := Z.lor (Z.shiftl version 32) slot.
Definition SlotOfVRefId (vref_id : Z) : Z := Z.land vref_id 0xFFFFFFFF.
Definition VersionOfVRefId (vref_id : Z) : Z := u32 (Z.shiftr vref_id 32).

Definition VersionOfVRef (vref : Z) : Z := u32 (Z.shiftr vref 32).
Definition NRefOfVRef (vref : Z) : Z := i32 (Z.land vref 0xFFFFFFFF).
Definition MakeVRef (version nref : Z) : Z := Z.lor (Z.shiftl version 32) (u32 nref).

(** A word by its two halves. *)
Lemma word_version v x : is_u32 v -> is_u32 x -> VersionOfVRef (v * 2 ^ 32 + x) = v.
Proof.
  unfold is_u32. intros Hv Hx. unfold VersionOfVRef. rewrite Z.shiftr_div_pow2 by lia.
  rewrite Z.div_add_l, Z.div_small, Z.add_0_r by lia. apply u32_small. done.
Qed.
Lemma word_nref v n : 0 <= n < 2 ^ 31 -> NRefOfVRef (v * 2 ^ 32 + n) = n.
Proof.
  intros Hn. unfold NRefOfVRef. rewrite land_low, word_low by (unfold is_u32; lia). apply i32_small. lia.
Qed.
Lemma MakeVRef_word v n : is_u32 v -> 0 <= n < 2 ^ 31 -> MakeVRef v n = v * 2 ^ 32 + n.
Proof.
  unfold is_u32. intros Hv Hn. unfold MakeVRef. rewrite u32_small by (unfold is_u32; lia).
  apply lor_word; [lia|]. unfold is_u32. lia.
Qed.

(** ** The shared object *)

Inductive AdditionalRefStatus := ADDITIONAL_REF_USING | ADDITIONAL_REF_REVIVING | ADDITIONAL_REF_RECYCLED.

#[export] Instance status_eq_dec : EqDecision AdditionalRefStatus.
Proof. solve_decision. Defined.

(** [in_pool] says that the slot is in the free list of the resource pool.
    The last two fields are not in the code: whether [_versioned_ref] counts
    the additional reference on behalf of the object itself, and how many
    identifiers [Create] has published for this slot. *)
Record Slot := mkSlot {
  _versioned_ref : Z;
  _this_id : Z;
  _additional_ref_status : AdditionalRefStatus;
  in_pool : bool;
  extra : bool;
  issued : Z
}.

Definition set_vref (w : Z) (s : Slot) := mkSlot w (_this_id s) (_additional_ref_status s) (in_pool s) (extra s) (issued s).
Definition set_id (i : Z) (s : Slot) := mkSlot (_versioned_ref s) i (_additional_ref_status s) (in_pool s) (extra s) (issued s).
Definition set_status (a : AdditionalRefStatus) (s : Slot) := mkSlot (_versioned_ref s) (_this_id s) a (in_pool s) (extra s) (issued s).
Definition set_pool (b : bool) (s : Slot) := mkSlot (_versioned_ref s) (_this_id s) (_additional_ref_status s) b (extra s) (issued s).
Definition set_extra (b : bool) (s : Slot) := mkSlot (_versioned_ref s) (_this_id s) (_additional_ref_status s) (in_pool s) b (issued s).
Definition issue (s : Slot) := mkSlot (_versioned_ref s) (_this_id s) (_additional_ref_status s) (in_pool s) (extra s) (issued s + 1).

(** The constructor. *)
Definition new_Slot : Slot := mkSlot 0 0 ADDITIONAL_REF_USING true false 0.

(** ** Threads

    A thread holds [k] smart pointers to the object and stands before its next
    atomic operation. *)
Inductive PC :=
| Hold (k : nat)
| CrAdd (k : nat)
| CrId (version : Z) (k : nat)
| CrStatus (k : nat)
| CrCall (k : nat)
| AddrSub (ver1 : Z) (k : nat)
| AddrCas (ver2 expected_vref : Z) (k : nat)
| SFCas (id_ver vref : Z) (k : nat)
| RelCas (k : nat)
| DerefSub (id : Z) (k : nat)
| DerefCas (id expected_vref : Z) (k : nat)
| Recycle (k : nat)
| RevStatus (at_least_nref id_ver vref : Z) (k : nat)
| RevCas (at_least_nref id_ver vref : Z) (k : nat)
| RevAbandon (nref : Z) (k : nat)
| RevDone (k : nat)
| Fatal.

(** What a thread does next: the operation it starts, or [Go ok] to go on with
    the one it is in, [ok] being the result of [OnCreated] or whether a weak
    compare-and-swap does not fail spuriously. *)
Inductive choice :=
| DoCreate
| DoAddress (id : Z) (failed_as_well : bool)
| DoReAddress
| DoDereference
| DoSetFailed
| DoRelease
| DoRevive (at_least_nref : Z)
| Go (ok : bool).

Section thread.
Variable slot : Z.

Definition Create_step (s : Slot) (p : PC) (ok : bool) : option (Slot * PC) :=
  match p with
  | CrAdd k => let w := _versioned_ref s in
      Some (set_extra true (set_vref (u64 (w + 1)) s), CrId (VersionOfVRef w) k)
  | CrId v k => Some (set_id (MakeVRefId v slot) s, CrStatus k)
  | CrStatus k => Some (set_status ADDITIONAL_REF_USING s, CrCall k)
  | CrCall k => if ok then Some (issue s, Hold k)
                else Some (issue s, SFCas (VersionOfVRefId (_this_id s)) (_versioned_ref s) k)
  | _ => None
  end.

(** [AddressImpl], up to the first atomic operation and after it. *)
Definition AddressImpl (s : Slot) (id : Z) (failed_as_well : bool) (k : nat) : Slot * PC :=
  let vref1 := _versioned_ref s in
  let s' := set_vref (u64 (vref1 + 1)) s in
  let ver1 := VersionOfVRef vref1 in
  if ver1 =? VersionOfVRefId id then (s', Hold (S k))
  else if failed_as_well && (ver1 =? u32 (VersionOfVRefId id + 1)) then (s', Hold (S k))
  else (s', AddrSub ver1 k).

Definition AddressImpl_sub (s : Slot) (ver1 : Z) (k : nat) : Slot * PC :=
  let vref2 := _versioned_ref s in
  let s' := set_vref (u64 (vref2 - 1)) s in
  let nref := NRefOfVRef vref2 in
  if 1 <? nref then (s', Hold k)
  else if nref =? 1 then
    let ver2 := VersionOfVRef vref2 in
    if negb (Z.land ver2 1 =? 0) then
      if (ver1 =? ver2) || (u32 (ver1 + 1) =? ver2) then (s', AddrCas ver2 (u64 (vref2 - 1)) k)
      else (s', Fatal)
    else (s', Hold k)
  else (s', Fatal).

Definition AddressImpl_cas (s : Slot) (ver2 expected_vref : Z) (k : nat) : Slot * PC :=
  if _versioned_ref s =? expected_vref
  then (set_vref (MakeVRef (u32 (ver2 + 1)) 0) s, Recycle k)
  else (s, Hold k).

Definition SetFailedImpl_step (s : Slot) (id_ver vref : Z) (k : nat) : Slot * PC :=
  if negb (VersionOfVRef vref =? id_ver) then (s, Hold k)
  else if _versioned_ref s =? vref
  then (set_vref (MakeVRef (u32 (id_ver + 1)) (NRefOfVRef vref)) s, RelCas k)
  else (s, SFCas id_ver (_versioned_ref s) k).

Definition ReleaseAdditionalReference_step (s : Slot) (k : nat) : Slot * PC :=
  match _additional_ref_status s with
  | ADDITIONAL_REF_USING =>
      (set_extra false (set_status ADDITIONAL_REF_RECYCLED s), DerefSub (_this_id s) k)
  | ADDITIONAL_REF_REVIVING => (s, RelCas k)
  | ADDITIONAL_REF_RECYCLED => (s, Hold k)
  end.

Definition Dereference_sub (s : Slot) (id : Z) (k : nat) : Slot * PC :=
  let vref := _versioned_ref s in
  let s' := set_vref (u64 (vref - 1)) s in
  let nref := NRefOfVRef vref in
  if 1 <? nref then (s', Hold k)
  else if nref =? 1 then
    let ver := VersionOfVRef vref in
    let id_ver := VersionOfVRefId id in
    if (ver =? id_ver) || (ver =? u32 (id_ver + 1)) then (s', DerefCas id (u64 (vref - 1)) k)
    else (s', Fatal)
  else (s', Fatal).

Definition Dereference_cas (s : Slot) (id expected_vref : Z) (k : nat) : Slot * PC :=
  if _versioned_ref s =? expected_vref
  then (set_vref (MakeVRef (u32 (VersionOfVRefId id + 2)) 0) s, Recycle k)
  else (s, Hold k).

Definition Revive_step (s : Slot) (at_least_nref id_ver vref : Z) (k : nat) (ok : bool) : Slot * PC :=
  if negb (u32 (id_ver + 1) =? VersionOfVRef vref) then (s, Fatal) else
  let nref := NRefOfVRef vref in
  if nref <? at_least_nref then (set_status ADDITIONAL_REF_RECYCLED s, RevAbandon nref k)
  else if ok && (_versioned_ref s =? vref)
  then (set_extra true (set_vref (MakeVRef id_ver (nref + 1)) s), RevDone k)
  else (s, RevCas at_least_nref id_ver (_versioned_ref s) k).

Definition step_thread (s : Slot) (p : PC) (c : choice) : option (Slot * PC) :=
  match c, p with
  | DoCreate, Hold k => if in_pool s then Some (set_pool false s, CrAdd k) else None
  | DoAddress id fw, Hold k => Some (AddressImpl s id fw k)
  | DoReAddress, Hold (S k) => Some (set_vref (u64 (_versioned_ref s + 1)) s, Hold (S (S k)))
  | DoDereference, Hold (S k) => Some (s, DerefSub (_this_id s) k)
  | DoSetFailed, Hold (S k) => Some (s, SFCas (VersionOfVRefId (_this_id s)) (_versioned_ref s) (S k))
  | DoRelease, Hold (S k) => Some (s, RelCas (S k))
  | DoRevive al, Hold (S k) =>
      Some (s, RevStatus al (VersionOfVRefId (_this_id s)) (_versioned_ref s) (S k))
  | Go ok, CrAdd _ | Go ok, CrId _ _ | Go ok, CrStatus _ | Go ok, CrCall _ => Create_step s p ok
  | Go _, AddrSub ver1 k => Some (AddressImpl_sub s ver1 k)
  | Go _, AddrCas ver2 e k => Some (AddressImpl_cas s ver2 e k)
  | Go _, SFCas id_ver vref k => Some (SetFailedImpl_step s id_ver vref k)
  | Go _, RelCas k => Some (ReleaseAdditionalReference_step s k)
  | Go _, DerefSub id k => Some (Dereference_sub s id k)
  | Go _, DerefCas id e k => Some (Dereference_cas s id e k)
  | Go _, Recycle k => Some (set_pool true s, Hold k)
  | Go _, RevStatus al iv v k => Some (set_status ADDITIONAL_REF_REVIVING s, RevCas al iv v k)
  | Go ok, RevCas al iv v k => Some (Revive_step s al iv v k ok)
  | Go _, RevAbandon nref k => if nref =? 1 then Some (s, Hold k) else Some (s, Fatal)
  | Go _, RevDone k => Some (set_status ADDITIONAL_REF_USING s, Hold k)
  | _, _ => None
  end.

End thread.

Definition Failed (s : Slot) : bool := negb (VersionOfVRef (_versioned_ref s) =? VersionOfVRefId (_this_id s)).
Definition nref (s : Slot) : Z := NRefOfVRef (_versioned_ref s).

(** ** Interleavings *)

(** References counted for a thread, and the smart pointers among them. *)
Definition held (p : PC) : nat :=
  match p with
  | Hold k | CrAdd k | CrId _ k | CrStatus k | CrCall k | AddrSub _ k | AddrCas _ _ k | SFCas _ _ k
  | RelCas k | DerefSub _ k | DerefCas _ _ k | Recycle k | RevStatus _ _ _ k | RevCas _ _ _ k
  | RevAbandon _ k | RevDone k => k
  | Fatal => 0%nat
  end.
Definition strong (p : PC) : Z :=
  match p with DerefSub _ k => Z.of_nat k + 1 | _ => Z.of_nat (held p) end.
Definition weight (p : PC) : Z := strong p + match p with AddrSub _ _ => 1 | _ => 0 end.

Definition cnt (f : PC -> Z) (ps : list PC) : Z := foldr (fun p n => f p + n) 0 ps.

Definition is_rev (p : PC) : Z :=
  match p with RevStatus _ _ _ _ | RevCas _ _ _ _ | RevDone _ => 1 | _ => 0 end.

(** The rules of use.  Only published identifiers are addressed; the additional
    reference is given up through [SetFailed] only; [Revive] is called by one
    holder at a time, on a failed object whose additional reference is gone,
    with [at_least_nref] at most 2. *)
Definition allowed (s : Slot) (ps : list PC) (c : choice) : Prop :=
  match c with
  | DoAddress id _ => exists j, VersionOfVRefId id = 2 * j /\ 0 <= j < issued s
  | DoRelease => False
  | DoRevive al => al <= 2 /\ _additional_ref_status s = ADDITIONAL_REF_RECYCLED /\ Failed s = true /\
      cnt is_rev ps = 0
  | _ => True
  end.

(** The counters do not overflow: less than 2^31 references at a time and
    2^31 objects in one slot. *)
Definition fits (s : Slot) (ps : list PC) : Prop :=
  cnt weight ps + 1 < 2 ^ 31 /\ issued s < 2 ^ 31 - 1.

Inductive step (slot : Z) : Slot * list PC -> Slot * list PC -> Prop :=
| thread_step s s' l1 p p' l2 c :
    allowed s (l1 ++ p :: l2) c -> step_thread slot s p c = Some (s', p') ->
    fits s' (l1 ++ p' :: l2) -> step slot (s, l1 ++ p :: l2) (s', l1 ++ p' :: l2).

(** ** The invariant *)

Lemma cnt_mid f l1 p l2 : cnt f (l1 ++ p :: l2) = f p + cnt f (l1 ++ l2).
Proof. induction l1 as [|q l1 IH]; simpl; [done|]. lia. Qed.
Lemma cnt_nonneg f ps : (forall p, 0 <= f p) -> 0 <= cnt f ps.
Proof. intros Hf. induction ps as [|p ps IH]; simpl; [lia|]. specialize (Hf p). lia. Qed.
Lemma cnt_zero f ps : (forall p, 0 <= f p) -> cnt f ps = 0 -> Forall (fun p => f p = 0) ps.
Proof.
  intros Hf. induction ps as [|p ps IH]; simpl; [constructor|]. intros E.
  pose proof (cnt_nonneg f ps Hf). pose proof (Hf p). constructor; [lia|]. apply IH. lia.
Qed.
Lemma cnt_add f g h ps : (forall p, h p = f p + g p) -> cnt h ps = cnt f ps + cnt g ps.
Proof. intros E. induction ps as [|p ps IH]; simpl; [done|]. rewrite E. lia. Qed.

Definition is_addr (p : PC) : Z := match p with AddrSub _ _ => 1 | _ => 0 end.
Definition is_rel (p : PC) : Z := match p with RelCas _ => 1 | _ => 0 end.
Definition is_rec (p : PC) : Z := match p with Recycle _ => 1 | _ => 0 end.
(** A [Create] that has not yet counted its reference, and one that has. *)
Definition is_cr1 (p : PC) : Z := match p with CrAdd _ => 1 | _ => 0 end.
Definition is_cr2 (p : PC) : Z := match p with CrId _ _ | CrStatus _ | CrCall _ => 1 | _ => 0 end.
(** A [Revive] before its first store, in its loop, and past its success. *)
Definition is_revs (p : PC) : Z := match p with RevStatus _ _ _ _ => 1 | _ => 0 end.
Definition is_revc (p : PC) : Z := match p with RevCas _ _ _ _ => 1 | _ => 0 end.
Definition is_revd (p : PC) : Z := match p with RevDone _ => 1 | _ => 0 end.

Definition b2z (b : bool) : Z := if b then 1 else 0.
Definition sz (a : AdditionalRefStatus) : Z :=
  match a with ADDITIONAL_REF_USING => 0 | ADDITIONAL_REF_REVIVING => 1 | ADDITIONAL_REF_RECYCLED => 2 end.

(** The numbers of threads in each part of the code. *)
Record Census := mkCensus {
  n_strong : Z; n_addr : Z; n_rel : Z; n_rec : Z; n_cr1 : Z; n_cr2 : Z;
  n_revs : Z; n_revc : Z; n_revd : Z
}.
Definition census (ps : list PC) : Census :=
  mkCensus (cnt strong ps) (cnt is_addr ps) (cnt is_rel ps) (cnt is_rec ps) (cnt is_cr1 ps) (cnt is_cr2 ps)
           (cnt is_revs ps) (cnt is_revc ps) (cnt is_revd ps).

(** The slot is in the pool, on its way there, or being made an object; or it
    holds an object. *)
Definition dead (s : Slot) (c : Census) : Z := b2z (in_pool s) + n_rec c + n_cr1 c + n_cr2 c.

(** The word is version [v] with count [n]; [iv] is the version of [_this_id]. *)
Record is_dead (s : Slot) (c : Census) (v : Z) : Prop := mk_dead {
  d_phase : dead s c = 1;
  d_version : v = 2 * issued s;
  d_strong : n_strong c = 0;
  d_rel : n_rel c = 0;
  d_rev : n_revs c = 0 /\ n_revc c = 0 /\ n_revd c = 0;
  d_extra : b2z (extra s) = n_cr2 c
}.
Record is_alive (s : Slot) (c : Census) (v iv : Z) : Prop := mk_alive {
  a_phase : dead s c = 0;
  a_issued : 1 <= issued s;
  a_id : iv = 2 * (issued s - 1);
  a_version : v = iv /\ b2z (extra s) = 1 /\ n_rel c = 0 \/ v = iv + 1 /\ b2z (extra s) = n_rel c;
  a_rev : n_revs c = 0 /\ n_revc c = 0 \/ n_revs c + n_revc c = 1 /\ n_revd c = 0 /\ v = iv + 1;
  a_status :
    sz (_additional_ref_status s) = 0 /\ b2z (extra s) = 1 /\ n_revs c = 0 /\ n_revc c = 0 /\ n_revd c = 0 \/
    sz (_additional_ref_status s) = 1 /\ n_revs c = 0 /\ n_revc c + n_revd c = 1 /\ b2z (extra s) = n_revd c \/
    sz (_additional_ref_status s) = 2 /\ b2z (extra s) = 0 /\ n_revc c = 0 /\ n_revd c = 0
}.
Record counts (s : Slot) (c : Census) (v n iv : Z) : Prop := mk_counts {
  c_n : n = n_strong c + n_addr c + b2z (extra s);
  c_n_small : n < 2 ^ 31;
  c_issued : 0 <= issued s < 2 ^ 31 - 1;
  c_phase : is_dead s c v \/ is_alive s c v iv
}.

(** What a thread knows in each part of the code. *)
Definition revives (s : Slot) (al iv w : Z) (k : nat) : Prop :=
  al <= 2 /\ iv = VersionOfVRefId (_this_id s) /\ (1 <= k)%nat /\
  exists m, w = (iv + 1) * 2 ^ 32 + m /\ 1 <= m < 2 ^ 31.
Definition pc_ok (s : Slot) (v : Z) (p : PC) : Prop :=
  match p with
  | AddrSub ver1 _ => v / 2 = ver1 / 2 /\ 0 <= ver1
  | AddrCas ver2 e _ => Z.odd ver2 = true /\ 0 <= ver2 < 2 ^ 32 /\ e = ver2 * 2 ^ 32
  | SFCas iv _ _ => exists j, iv = 2 * j /\ 0 <= j < issued s
  | DerefSub id _ => id = _this_id s
  | DerefCas id e _ => exists j, VersionOfVRefId id = 2 * j /\ 0 <= j < issued s /\
      e = (VersionOfVRefId id + 1) * 2 ^ 32
  | CrId ver _ => ver = 2 * issued s
  | CrStatus _ => VersionOfVRefId (_this_id s) = 2 * issued s
  | CrCall _ => VersionOfVRefId (_this_id s) = 2 * issued s /\ _additional_ref_status s = ADDITIONAL_REF_USING
  | RevStatus al iv w k | RevCas al iv w k => revives s al iv w k
  | RevDone k => (1 <= k)%nat
  | RevAbandon n _ => n = 1
  | Fatal => False
  | _ => True
  end.

(** A thread that will recycle the slot if the word stays [w]. *)
Definition will_recycle (w : Z) (p : PC) : Prop :=
  match p with AddrCas _ e _ | DerefCas _ e _ => e = w | _ => False end.

Record inv_at (s : Slot) (ps : list PC) (v n : Z) : Prop := mk_inv_at {
  i_word : _versioned_ref s = v * 2 ^ 32 + n;
  i_v : 0 <= v;
  i_counts : counts s (census ps) v n (VersionOfVRefId (_this_id s));
  i_pcs : Forall (pc_ok s v) ps;
  i_leak : dead s (census ps) = 0 -> n = 0 -> Exists (will_recycle (_versioned_ref s)) ps
}.
Definition inv (st : Slot * list PC) : Prop := exists v n, inv_at (fst st) (snd st) v n.

(** *** One thread moves *)

Lemma census_mid l1 p l2 : census (l1 ++ p :: l2) =
  let c := census (l1 ++ l2) in
  mkCensus (strong p + n_strong c) (is_addr p + n_addr c) (is_rel p + n_rel c) (is_rec p + n_rec c)
           (is_cr1 p + n_cr1 c) (is_cr2 p + n_cr2 c) (is_revs p + n_revs c) (is_revc p + n_revc c)
           (is_revd p + n_revd c).
Proof. unfold census. by rewrite !cnt_mid. Qed.

Lemma census_nonneg ps : let c := census ps in
  0 <= n_strong c /\ 0 <= n_addr c /\ 0 <= n_rel c /\ 0 <= n_rec c /\ 0 <= n_cr1 c /\ 0 <= n_cr2 c /\
  0 <= n_revs c /\ 0 <= n_revc c /\ 0 <= n_revd c.
Proof. simpl. repeat split; apply cnt_nonneg; intros []; simpl; unfold strong; simpl; lia. Qed.

Lemma weight_census ps : cnt weight ps = n_strong (census ps) + n_addr (census ps).
Proof. apply cnt_add. by intros []. Qed.

Lemma counts_v s c v n iv : counts s c v n iv -> v < 2 ^ 32 - 2.
Proof. intros [_ _ Hi [[]|[]]]; lia. Qed.
Lemma counts_n s ps v n iv : counts s (census ps) v n iv -> 0 <= n < 2 ^ 31.
Proof.
  intros [Hn Hs _ _]. pose proof (census_nonneg ps) as Hc. simpl in Hc.
  split; [|done]. rewrite Hn. unfold b2z. destruct (extra s); simpl; lia.
Qed.

(** What other threads know survives a step that keeps the version pair, or
    that happens when no such thread is there. *)
Lemma pc_stable s s' v v' q : pc_ok s v q -> (v / 2 = v' / 2 \/ is_addr q = 0) -> issued s <= issued s' ->
  (is_cr2 q = 0 \/ (issued s' = issued s /\ _this_id s' = _this_id s /\
                    _additional_ref_status s' = _additional_ref_status s)) ->
  (_this_id s' = _this_id s \/ strong q = 0) -> pc_ok s' v' q.
Proof.
  unfold strong. destruct q; simpl; try done; intros Hq H1 H2 H3 H4.
  - destruct H3 as [?|(-> & _)]; [lia|done].
  - destruct H3 as [?|(-> & -> & _)]; [lia|done].
  - destruct H3 as [?|(-> & -> & ->)]; [lia|done].
  - destruct H1; lia.
  - destruct Hq as (j & ? & ?). exists j. lia.
  - destruct H4 as [->|?]; [done|lia].
  - destruct Hq as (j & ? & ? & ?). exists j. split; [done|]. split; [lia|done].
  - unfold revives in *. destruct H4 as [->|?]; [done|]. lia.
  - unfold revives in *. destruct H4 as [->|?]; [done|]. lia.
Qed.

Lemma others_stable s s' v v' ps : Forall (pc_ok s v) ps -> (v / 2 = v' / 2 \/ n_addr (census ps) = 0) ->
  issued s <= issued s' ->
  (n_cr2 (census ps) = 0 \/ (issued s' = issued s /\ _this_id s' = _this_id s /\
                    _additional_ref_status s' = _additional_ref_status s)) ->
  (_this_id s' = _this_id s \/ n_strong (census ps) = 0) -> Forall (pc_ok s' v') ps.
Proof.
  intros Hf H1 H2 H3 H4. rewrite Forall_forall in *. intros q Hq. apply (pc_stable s s' v v' q (Hf q Hq)).
  - destruct H1 as [?|Hz]; [by left|right]. apply cnt_zero in Hz; [|by intros []].
    rewrite Forall_forall in Hz. by apply Hz.
  - done.
  - destruct H3 as [Hz|?]; [left|by right]. apply cnt_zero in Hz; [|by intros []].
    rewrite Forall_forall in Hz. by apply Hz.
  - destruct H4 as [?|Hz]; [by left|right]. apply cnt_zero in Hz; [|intros []; unfold strong; simpl; lia].
    rewrite Forall_forall in Hz. by apply Hz.
Qed.

Lemma Exists_mid {A} (Q : A -> Prop) l1 p l2 : Exists Q (l1 ++ p :: l2) <-> Q p \/ Exists Q (l1 ++ l2).
Proof. rewrite !Exists_app, Exists_cons. tauto. Qed.
Lemma Forall_mid {A} (Q : A -> Prop) l1 p l2 : Forall Q (l1 ++ p :: l2) <-> Q p /\ Forall Q (l1 ++ l2).
Proof. rewrite !Forall_app, Forall_cons. tauto. Qed.

(** A step of one thread, the others staying where they are. *)
Lemma inv_update s l1 p l2 v n s' p' v' n' : inv_at s (l1 ++ p :: l2) v n ->
  _versioned_ref s' = v' * 2 ^ 32 + n' -> 0 <= v' ->
  counts s' (census (l1 ++ p' :: l2)) v' n' (VersionOfVRefId (_this_id s')) ->
  pc_ok s' v' p' ->
  (v / 2 = v' / 2 \/ n_addr (census (l1 ++ l2)) = 0) -> issued s <= issued s' ->
  (n_cr2 (census (l1 ++ l2)) = 0 \/ (issued s' = issued s /\ _this_id s' = _this_id s /\
                    _additional_ref_status s' = _additional_ref_status s)) ->
  (_this_id s' = _this_id s \/ n_strong (census (l1 ++ l2)) = 0) ->
  (dead s' (census (l1 ++ p' :: l2)) = 0 -> n' = 0 -> will_recycle (_versioned_ref s') p' \/
     (_versioned_ref s' = _versioned_ref s /\ dead s (census (l1 ++ p :: l2)) = 0 /\
      ~ will_recycle (_versioned_ref s) p)) ->
  inv (s', l1 ++ p' :: l2).
Proof.
  intros [Hw Hv Hc Hp Hl] Hw' Hv' Hc' Hp' H1 H2 H3 H4 Hl'. exists v', n'. constructor; simpl; try done.
  - apply Forall_mid in Hp as [_ Hp]. apply Forall_mid. split; [done|]. by apply (others_stable s s' v).
  - intros Hd Hn. apply Exists_mid. destruct (Hl' Hd Hn) as [?|(E & Hd0 & Hnot)]; [by left|right].
    rewrite E in *. pose proof (counts_n _ _ _ _ _ Hc). assert (n = 0) as Hn0 by lia. specialize (Hl Hd0 Hn0). apply Exists_mid in Hl as [?|?]; done.
Qed.

(** Arithmetic of the counts. *)
Lemma b2z_range b : 0 <= b2z b <= 1.
Proof. destruct b; simpl; lia. Qed.
Lemma sz_range a : 0 <= sz a <= 2.
Proof. destruct a; simpl; lia. Qed.

Ltac flat := unfold dead in *; cbn in *.
Ltac open_counts H := destruct H as [? ? ? [[]|[]]]; flat.
Ltac close := flat; repeat split; flat; try lia.
(** The slot is dead, or it holds an object, after the step. *)
Ltac now_dead := constructor; [close|close|close|left; constructor; close].
Ltac now_alive := constructor; [close|close|close|right; constructor; close].

(** Reading the word. *)
Lemma inv_reads s ps v n : inv_at s ps v n ->
  VersionOfVRef (_versioned_ref s) = v /\ NRefOfVRef (_versioned_ref s) = n /\ 0 <= v < 2 ^ 32 - 2 /\
  0 <= n < 2 ^ 31.
Proof.
  intros [Hw Hv Hc _ _]. pose proof (counts_v _ _ _ _ _ Hc). pose proof (counts_n _ _ _ _ _ Hc). rewrite Hw.
  rewrite word_version, word_nref by (unfold is_u32; lia). lia.
Qed.
Lemma inv_add s ps v n : inv_at s ps v n -> u64 (_versioned_ref s + 1) = v * 2 ^ 32 + (n + 1).
Proof.
  intros H. destruct (inv_reads _ _ _ _ H) as (_ & _ & ? & ?). destruct H as [Hw _ _ _ _].
  rewrite Hw, u64_small by (unfold is_u64; lia). lia.
Qed.
Lemma inv_sub s ps v n : inv_at s ps v n -> 1 <= n -> u64 (_versioned_ref s - 1) = v * 2 ^ 32 + (n - 1).
Proof.
  intros H ?. destruct (inv_reads _ _ _ _ H) as (_ & _ & ? & ?). destruct H as [Hw _ _ _ _].
  rewrite Hw, u64_small by (unfold is_u64; lia). lia.
Qed.

Lemma rev_strong s v ps : Forall (pc_ok s v) ps ->
  n_revs (census ps) + n_revc (census ps) + n_revd (census ps) <= n_strong (census ps).
Proof.
  induction 1 as [|p ps Hp _ IH]; simpl in *; [lia|].
  destruct p; simpl in *; unfold strong, revives in *; simpl; lia.
Qed.
Lemma rev_count ps : cnt is_rev ps = n_revs (census ps) + n_revc (census ps) + n_revd (census ps).
Proof. induction ps as [|p ps IH]; simpl in *; [done|]. destruct p; simpl; lia. Qed.

(** The facts at hand when thread [p] moves. *)
Record moving (s : Slot) (p : PC) (c : Census) (v n : Z) : Prop := mk_moving {
  m_ver : VersionOfVRef (_versioned_ref s) = v;
  m_nref : NRefOfVRef (_versioned_ref s) = n;
  m_word : _versioned_ref s = v * 2 ^ 32 + n;
  m_v : 0 <= v < 2 ^ 32 - 2;
  m_n : 0 <= n < 2 ^ 31;
  m_ok : pc_ok s v p;
  m_counts : counts s (mkCensus (strong p + n_strong c) (is_addr p + n_addr c) (is_rel p + n_rel c)
    (is_rec p + n_rec c) (is_cr1 p + n_cr1 c) (is_cr2 p + n_cr2 c) (is_revs p + n_revs c)
    (is_revc p + n_revc c) (is_revd p + n_revd c)) v n (VersionOfVRefId (_this_id s));
  m_rev : is_revs p + n_revs c + (is_revc p + n_revc c) + (is_revd p + n_revd c) <= strong p + n_strong c;
  m_nonneg : 0 <= n_strong c /\ 0 <= n_addr c /\ 0 <= n_rel c /\ 0 <= n_rec c /\ 0 <= n_cr1 c /\
    0 <= n_cr2 c /\ 0 <= n_revs c /\ 0 <= n_revc c /\ 0 <= n_revd c;
  m_bits : 0 <= b2z (extra s) <= 1 /\ 0 <= b2z (in_pool s) <= 1 /\ 0 <= sz (_additional_ref_status s) <= 2
}.
Lemma inv_moving s l1 p l2 v n : inv_at s (l1 ++ p :: l2) v n -> moving s p (census (l1 ++ l2)) v n.
Proof.
  intros I. destruct (inv_reads _ _ _ _ I) as (? & ? & ? & ?).
  pose proof (i_pcs _ _ _ _ I) as Hp. pose proof (rev_strong _ _ _ Hp) as Hr. apply Forall_mid in Hp as [Hp _].
  pose proof (i_counts _ _ _ _ I) as Hc. rewrite census_mid in Hc, Hr.
  constructor; try done; [apply I|apply census_nonneg|].
  pose proof (b2z_range (extra s)). pose proof (b2z_range (in_pool s)). pose proof (sz_range (_additional_ref_status s)). lia.
Qed.

Lemma fits_bounds s l1 p l2 : fits s (l1 ++ p :: l2) ->
  strong p + n_strong (census (l1 ++ l2)) + (is_addr p + n_addr (census (l1 ++ l2))) + 1 < 2 ^ 31 /\
  issued s < 2 ^ 31 - 1.
Proof. intros [Hw Hi]. rewrite weight_census, census_mid in Hw. done. Qed.

(** Open the facts of a moving thread, in the case of a free slot and in that
    of an object. *)
Ltac start I :=
  let J := fresh in
  pose proof (inv_moving _ _ _ _ _ _ I) as J;
  destruct J as [Hver Hnref Hword Hvr Hnr Hok Hc Hrev Hnn Hbits]; open_counts Hc.
Ltac bound H := apply fits_bounds in H; flat.
(** Close a step, in the same order as [inv_update]. *)
Ltac moved I v' n' :=
  apply (inv_update _ _ _ _ _ _ _ _ v' n' I); simpl; try rewrite census_mid; try lia; try done;
  try (by left); try (by right); try (left; lia); try (right; lia).

Section steps.
Variable slot : Z.
Hypothesis slot_u32 : is_u32 slot.
Variables (s s' : Slot) (l1 l2 : list PC) (p' : PC) (v n : Z).

Lemma step_create k : inv_at s (l1 ++ Hold k :: l2) v n ->
  step_thread slot s (Hold k) DoCreate = Some (s', p') -> inv (s', l1 ++ p' :: l2).
Proof.
  intros I E. simpl in E. destruct (in_pool s) eqn:Hin; [|done]. injection E as <- <-.
  start I; rewrite ?Hin in *; cbn in *; try lia. moved I v n; flat; try lia. now_dead.
Qed.

Lemma version_of_id ver : is_u32 ver -> VersionOfVRefId (MakeVRefId ver slot) = ver.
Proof.
  intros Hv. unfold MakeVRefId. unfold is_u32 in *. rewrite lor_word by (unfold is_u32; lia).
  by apply word_version.
Qed.

Lemma step_creating p ok : is_cr1 p + is_cr2 p = 1 -> inv_at s (l1 ++ p :: l2) v n ->
  Create_step slot s p ok = Some (s', p') -> fits s' (l1 ++ p' :: l2) -> inv (s', l1 ++ p' :: l2).
Proof.
  intros Hcr I E Hf. destruct p as [|k|ver k|k|k| | | | | | | | | | | |]; try done; simpl in E;
    [..|destruct ok]; simplify_eq; bound Hf.
  - start I; [|lia]. rewrite (inv_add _ _ _ _ I). moved I v (n + 1); flat; try lia. now_dead.
  - start I; [|lia]. assert (VersionOfVRefId (MakeVRefId ver slot) = ver) as Hid.
    { apply version_of_id. unfold is_u32. lia. }
    moved I v n; flat; try lia. now_dead.
  - start I; [|lia]. moved I v n; flat; try lia. now_dead.
  - start I; [|lia]. destruct Hok as [Hid Hst]. apply (f_equal sz) in Hst. simpl in Hst. moved I v n; flat; try lia. now_alive.
  - start I; [|lia]. destruct Hok as [Hid Hst]. apply (f_equal sz) in Hst. simpl in Hst.
    moved I v n; flat; try lia; [now_alive|]. exists (issued s). simpl. lia.
Qed.

Lemma step_address k id fw : inv_at s (l1 ++ Hold k :: l2) v n ->
  allowed s (l1 ++ Hold k :: l2) (DoAddress id fw) -> AddressImpl s id fw k = (s', p') ->
  fits s' (l1 ++ p' :: l2) -> inv (s', l1 ++ p' :: l2).
Proof.
  intros I (j & Hj & Hlt) E Hf. pose proof (inv_add _ _ _ _ I) as Hadd. unfold AddressImpl in E.
  destruct (inv_reads _ _ _ _ I) as (Hv & _ & ? & _). rewrite Hv, Hadd, Hj in E.
  destruct (Z.eqb_spec v (2 * j)) as [Heq|Hne].
  - injection E as <- <-. bound Hf. start I; [lia|]. moved I v (n + 1); flat; try lia. now_alive.
  - rewrite u32_small in E by (pose proof (i_counts _ _ _ _ I) as []; unfold is_u32; lia).
    destruct (fw && (v =? 2 * j + 1)) eqn:Hfw; injection E as <- <-; bound Hf.
    + apply andb_true_iff in Hfw as [_ Hfw%Z.eqb_eq]. start I; [lia|].
      moved I v (n + 1); flat; try lia. now_alive.
    + start I; moved I v (n + 1); flat; try lia; [now_dead|now_alive].
Qed.

Lemma step_address_sub ver1 k : inv_at s (l1 ++ AddrSub ver1 k :: l2) v n ->
  AddressImpl_sub s ver1 k = (s', p') -> inv (s', l1 ++ p' :: l2).
Proof.
  intros I E. unfold AddressImpl_sub in E. destruct (inv_reads _ _ _ _ I) as (Hv & Hn & ? & ?). rewrite Hv, Hn in E.
  assert (1 <= n) as Hn1 by (start I; lia). rewrite (inv_sub _ _ _ _ I Hn1) in E.
  destruct (Z.ltb_spec 1 n).
  { injection E as <- <-. start I; moved I v (n - 1); flat; try lia; [now_dead|now_alive]. }
  destruct (Z.eqb_spec n 1) as [->|]; [|lia].
  change (Z.land v 1) with (Z.land v (Z.ones 1)) in E.
  rewrite Z.land_ones in E by lia. change (2 ^ 1) with 2 in E.
  destruct (Z.eqb_spec (v mod 2) 0) as [Hev|Hod]; simpl in E.
  - injection E as <- <-. start I; [|destruct a_version0; [lia|]; zify_divmod; lia]. moved I v 0; flat; try lia. now_dead.
  - assert (v mod 2 = 1) as Hod1 by (pose proof (Z.mod_pos_bound v 2); lia).
    assert (v / 2 = ver1 / 2 /\ 0 <= ver1) as [Hpair Hp0] by (start I; lia).
    destruct (ver1 =? v) eqn:E1; [|destruct (u32 (ver1 + 1) =? v) eqn:E2]; simpl in E; injection E as <- <-.
    1, 2: assert (Z.odd v = true) by (rewrite Zodd_mod; apply Z.eqb_eq; lia);
          (start I; [zify_divmod; lia|]); moved I v 0; flat; try lia; [now_alive|].
    1, 2: split; [done|lia].
    exfalso. apply Z.eqb_neq in E1, E2. zify_divmod. rewrite u32_small in E2 by (unfold is_u32; lia). lia.
Qed.

(** A move inside a thread that leaves the shared object alone. *)
Lemma inv_same p q : inv_at s (l1 ++ p :: l2) v n -> strong q = strong p -> is_addr q = is_addr p ->
  is_rel q = is_rel p -> is_rec q = is_rec p -> is_cr1 q = is_cr1 p -> is_cr2 q = is_cr2 p ->
  is_revs q = is_revs p -> is_revc q = is_revc p -> is_revd q = is_revd p ->
  pc_ok s v q -> ~ will_recycle (_versioned_ref s) p -> inv (s, l1 ++ q :: l2).
Proof.
  intros I E1 E2 E3 E4 E5 E6 E7 E8 E9 Hok Hnot.
  assert (census (l1 ++ q :: l2) = census (l1 ++ p :: l2)) as Ec.
  { rewrite !census_mid. simpl. by rewrite E1, E2, E3, E4, E5, E6, E7, E8, E9. }
  apply (inv_update _ _ _ _ _ _ _ _ v n I); rewrite ?Ec; try done; try apply I; try (by left); try (by right).
Qed.

(** Recycling: the word becomes the next free version. *)
Lemma recycled p k ver : inv_at s (l1 ++ p :: l2) v n -> held p = k -> strong p = Z.of_nat k -> is_addr p = 0 ->
  _versioned_ref s = ver * 2 ^ 32 -> Z.odd ver = true -> 0 <= ver < 2 ^ 32 ->
  is_rel p = 0 -> is_rec p = 0 -> is_cr1 p = 0 -> is_cr2 p = 0 -> is_revs p = 0 -> is_revc p = 0 -> is_revd p = 0 ->
  ver = VersionOfVRefId (_this_id s) + 1 /\
  inv (set_vref (MakeVRef (u32 (ver + 1)) 0) s, l1 ++ Recycle k :: l2).
Proof.
  intros I Hk Hs Ha Hw Hod Hv Hp1 Hp2 Hp3 Hp4 Hp5 Hp6 Hp7.
  assert (v = ver /\ n = 0) as [-> ->].
  { destruct (inv_reads _ _ _ _ I) as (_ & _ & ? & ?). pose proof (i_word _ _ _ _ I). lia. }
  assert (ver mod 2 = 1) as Hm by (rewrite Zodd_mod in Hod; by apply Z.eqb_eq in Hod).
  start I; [rewrite d_version0, Z.mul_comm, Z_mod_mult in Hm; lia|].
  rewrite Hs in *. split; [destruct a_version0; [zify_divmod; lia|lia]|].
  rewrite u32_small by (unfold is_u32; lia).
  rewrite MakeVRef_word by (unfold is_u32; lia). moved I (ver + 1) 0; flat; try lia. now_dead.
Qed.

Lemma step_address_cas ver2 e k : inv_at s (l1 ++ AddrCas ver2 e k :: l2) v n ->
  AddressImpl_cas s ver2 e k = (s', p') -> inv (s', l1 ++ p' :: l2).
Proof.
  intros I E. unfold AddressImpl_cas in E.
  pose proof (i_pcs _ _ _ _ I) as Hp. apply Forall_mid in Hp as [(Hod & Hv2 & ->) _].
  destruct (Z.eqb_spec (_versioned_ref s) (ver2 * 2 ^ 32)) as [Hw|Hne]; injection E as <- <-.
  - by apply (recycled _ k ver2 I); unfold strong; simpl; try done; try lia.
  - apply (inv_same (AddrCas ver2 (ver2 * 2 ^ 32) k) _ I); try done. simpl. congruence.
Qed.

Lemma step_set_failed iv w k : inv_at s (l1 ++ SFCas iv w k :: l2) v n ->
  SetFailedImpl_step s iv w k = (s', p') -> inv (s', l1 ++ p' :: l2).
Proof.
  intros I E. unfold SetFailedImpl_step in E.
  pose proof (i_pcs _ _ _ _ I) as Hp. apply Forall_mid in Hp as [(j & Hj & Hlt) _].
  destruct (Z.eqb_spec (VersionOfVRef w) iv) as [Hiv|?]; simpl in E;
    [|injection E as <- <-; by apply (inv_same (SFCas iv w k) _ I); simpl; tauto].
  destruct (Z.eqb_spec (_versioned_ref s) w) as [<-|?]; simpl in E; injection E as <- <-;
    [|apply (inv_same (SFCas iv w k) _ I); simpl; try done; try tauto; by exists j].
  destruct (inv_reads _ _ _ _ I) as (Hv & Hn & ? & ?). rewrite Hn. rewrite Hv in Hiv. subst iv.
  rewrite u32_small, MakeVRef_word by (unfold is_u32; lia).
  start I; [lia|]. moved I (v + 1) n; flat; try lia; [now_alive|]. left. zify_divmod. lia.
Qed.

Lemma step_release k : inv_at s (l1 ++ RelCas k :: l2) v n ->
  ReleaseAdditionalReference_step s k = (s', p') -> inv (s', l1 ++ p' :: l2).
Proof.
  intros I E. unfold ReleaseAdditionalReference_step in E.
  destruct (_additional_ref_status s) eqn:Hst; apply (f_equal sz) in Hst; simpl in Hst; injection E as <- <-.
  - start I; [lia|]. moved I v n; flat; try lia. now_alive.
  - by apply (inv_same (RelCas k) _ I); simpl; tauto.
  - start I; lia.
Qed.

Lemma step_deref_sub id k : inv_at s (l1 ++ DerefSub id k :: l2) v n ->
  Dereference_sub s id k = (s', p') -> inv (s', l1 ++ p' :: l2).
Proof.
  intros I E. unfold Dereference_sub in E. destruct (inv_reads _ _ _ _ I) as (Hv & Hn & ? & ?). rewrite Hv, Hn in E.
  assert (1 <= n) as Hn1 by (start I; lia). rewrite (inv_sub _ _ _ _ I Hn1) in E.
  destruct (Z.ltb_spec 1 n).
  { injection E as <- <-. start I; [lia|]. moved I v (n - 1); flat; try lia. now_alive. }
  destruct (Z.eqb_spec n 1) as [->|]; [|lia].
  start I; [lia|]. assert (v = VersionOfVRefId (_this_id s) + 1) as Hv1 by lia. subst id.
  rewrite u32_small in E by (unfold is_u32; lia).
  destruct (Z.eqb_spec v (VersionOfVRefId (_this_id s))); [lia|].
  destruct (Z.eqb_spec v (VersionOfVRefId (_this_id s) + 1)); [|lia]. simpl in E. injection E as <- <-.
  moved I v 0; flat; try lia; [now_alive|]. exists (issued s - 1). simpl. lia.
Qed.

Lemma step_deref_cas id e k : inv_at s (l1 ++ DerefCas id e k :: l2) v n ->
  Dereference_cas s id e k = (s', p') -> inv (s', l1 ++ p' :: l2).
Proof.
  intros I E. unfold Dereference_cas in E.
  pose proof (i_pcs _ _ _ _ I) as Hp. apply Forall_mid in Hp as [(j & Hj & Hlt & ->) _].
  pose proof (c_issued _ _ _ _ _ (i_counts _ _ _ _ I)).
  destruct (Z.eqb_spec (_versioned_ref s) ((VersionOfVRefId id + 1) * 2 ^ 32)) as [Hw|Hne]; injection E as <- <-.
  - replace (VersionOfVRefId id + 2) with (VersionOfVRefId id + 1 + 1) by lia.
    assert (Z.odd (VersionOfVRefId id + 1) = true) as Hod.
    { rewrite Hj. replace (2 * j + 1) with (1 + 2 * j) by lia. by rewrite Z.odd_add_mul_2. }
    assert (0 <= VersionOfVRefId id + 1 < 2 ^ 32) as Hr by lia.
    by apply (recycled (DerefCas id ((VersionOfVRefId id + 1) * 2 ^ 32) k) k (VersionOfVRefId id + 1) I); try done;
      unfold strong; simpl; lia.
  - apply (inv_same (DerefCas id ((VersionOfVRefId id + 1) * 2 ^ 32) k) _ I); try done. simpl. congruence.
Qed.

Lemma step_recycle k : inv_at s (l1 ++ Recycle k :: l2) v n -> inv (set_pool true s, l1 ++ Hold k :: l2).
Proof. intros I. start I; [|lia]. moved I v n; flat; try lia. now_dead. Qed.

(** A holder starts an operation. *)
Lemma step_hold k c : inv_at s (l1 ++ Hold (S k) :: l2) v n ->
  allowed s (l1 ++ Hold (S k) :: l2) c -> (c = DoReAddress \/ c = DoDereference \/ c = DoSetFailed \/ exists al, c = DoRevive al) ->
  step_thread slot s (Hold (S k)) c = Some (s', p') -> fits s' (l1 ++ p' :: l2) -> inv (s', l1 ++ p' :: l2).
Proof.
  intros I Hal [->|[->|[->|[al ->]]]] E Hf; simpl in E; injection E as <- <-; bound Hf.
  - rewrite (inv_add _ _ _ _ I). start I; [lia|]. moved I v (n + 1); flat; try lia. now_alive.
  - start I; [lia|]. moved I v n; flat; try lia. now_alive.
  - start I; [lia|]. moved I v n; flat; try lia; [now_alive|]. exists (issued s - 1). lia.
  - destruct Hal as (Hal & Hst & Hfail & Hrv). rewrite rev_count, census_mid in Hrv. unfold Failed in Hfail.
    apply (f_equal sz) in Hst. simpl in Hst. apply negb_true_iff, Z.eqb_neq in Hfail.
    start I; [lia|]. assert (v = VersionOfVRefId (_this_id s) + 1) as Hv1 by lia.
    moved I v n; flat; try lia; [now_alive|].
    split; [done|]. split; [done|]. split; [lia|]. exists n. split; [|lia]. by rewrite <- Hv1.
Qed.

Lemma step_reviving p ok : is_revs p + is_revc p + is_revd p = 1 -> inv_at s (l1 ++ p :: l2) v n ->
  step_thread slot s p (Go ok) = Some (s', p') -> fits s' (l1 ++ p' :: l2) -> inv (s', l1 ++ p' :: l2).
Proof.
  intros Hrv I E Hf. destruct p as [| | | | | | | | | | | |al iv w k|al iv w k| |k|]; try done; simpl in E.
  - injection E as <- <-. start I; [lia|]. moved I v n; flat; try lia. now_alive.
  - injection E as E. pose proof (i_pcs _ _ _ _ I) as Hp. apply Forall_mid in Hp as [(Hal & Hiv & Hk & m & -> & Hm) _].
    assert (0 <= iv < 2 ^ 32 - 2) as Hivr by (start I; lia).
    unfold Revive_step in E. rewrite word_version, word_nref, u32_small, Z.eqb_refl in E by (unfold is_u32; lia). simpl in E.
    destruct (Z.ltb_spec m al).
    + injection E as <- <-. start I; [lia|]. moved I v n; flat; try lia. now_alive.
    + destruct (ok && (_versioned_ref s =? (iv + 1) * 2 ^ 32 + m)) eqn:Hcas; injection E as <- <-; bound Hf.
      * apply andb_true_iff in Hcas as [_ Hcas%Z.eqb_eq].
        assert (v = iv + 1 /\ n = m) as [Hv1 ->].
        { destruct (inv_reads _ _ _ _ I) as (_ & _ & ? & ?). pose proof (i_word _ _ _ _ I). lia. }
        assert (m + 1 < 2 ^ 31) by (start I; lia).
        rewrite MakeVRef_word by (unfold is_u32; lia).
        start I; [lia|]. moved I iv (m + 1); flat; try lia; [now_alive|]. left. zify_divmod. lia.
      * apply (inv_same (RevCas al iv ((iv + 1) * 2 ^ 32 + m) k) _ I); simpl; try done; try tauto.
        split; [done|]. split; [done|]. split; [done|]. exists n.
        start I; [lia|]. split; [|lia]. rewrite Hword. f_equal. lia.
  - injection E as <- <-. start I; [lia|]. moved I v n; flat; try lia. now_alive.
Qed.

Lemma step_inv p c : inv_at s (l1 ++ p :: l2) v n -> allowed s (l1 ++ p :: l2) c ->
  step_thread slot s p c = Some (s', p') -> fits s' (l1 ++ p' :: l2) -> inv (s', l1 ++ p' :: l2).
Proof.
  intros I Hal E Hf. destruct c; [destruct p; try done| | | | | | |].
  - by apply (step_create k).
  - destruct p; try done. simpl in E. injection E as E. by eapply step_address.
  - destruct p as [[|k]| | | | | | | | | | | | | | | |]; try done. eapply step_hold; eauto.
  - destruct p as [[|k]| | | | | | | | | | | | | | | |]; try done. eapply step_hold; eauto.
  - destruct p as [[|k]| | | | | | | | | | | | | | | |]; try done. eapply step_hold; eauto.
  - done.
  - destruct p as [[|k]| | | | | | | | | | | | | | | |]; try done. eapply step_hold; eauto.
  - destruct p; try done.
    + refine (step_creating _ ok _ I E Hf); done.
    + refine (step_creating _ ok _ I E Hf); done.
    + refine (step_creating _ ok _ I E Hf); done.
    + refine (step_creating _ ok _ I E Hf); done.
    + injection E as E. by eapply step_address_sub.
    + injection E as E. by eapply step_address_cas.
    + injection E as E. by eapply step_set_failed.
    + injection E as E. by eapply step_release.
    + injection E as E. by eapply step_deref_sub.
    + injection E as E. by eapply step_deref_cas.
    + injection E as <- <-. by eapply step_recycle.
    + refine (step_reviving _ ok _ I E Hf); done.
    + refine (step_reviving _ ok _ I E Hf); done.
    + pose proof (i_pcs _ _ _ _ I) as Hp. apply Forall_mid in Hp as [Hn _]. simpl in E, Hn. rewrite Hn in E.
      simpl in E. injection E as <- <-. by apply (inv_same (RevAbandon nref0 k) _ I); simpl; tauto.
    + refine (step_reviving _ ok _ I E Hf); done.
Qed.

End steps.

(** ** Reachable states *)

Definition start_state (threads : nat) : Slot * list PC := (new_Slot, replicate threads (Hold 0)).
Definition reachable (slot : Z) (threads : nat) (st : Slot * list PC) : Prop :=
  steps (step slot) (start_state threads) st.

Lemma census_idle m : census (replicate m (Hold 0)) = mkCensus 0 0 0 0 0 0 0 0 0.
Proof. induction m as [|m IH]; [done|].
  change (replicate (S m) (Hold 0)) with ([] ++ Hold 0 :: replicate m (Hold 0)).
  rewrite census_mid. simpl app. by rewrite IH.
Qed.

Lemma inv_start m : inv (start_state m).
Proof.
  exists 0, 0. constructor; simpl; try done.
  - rewrite census_idle. constructor; try done. left. constructor; done.
  - apply Forall_replicate. done.
  - rewrite census_idle. done.
Qed.

Lemma inv_reachable slot m st : is_u32 slot -> reachable slot m st -> inv st.
Proof.
  intros Hs. apply steps_invariant; [|apply inv_start].
  intros a b (v & n & I) Hst. destruct Hst as [s s' l1 p p' l2 c Hal E Hf]. by apply (step_inv slot Hs s s' l1 l2 p' v n p c).
Qed.

(** A schedule: which thread moves, and how. *)
Fixpoint run (slot : Z) (sched : list (nat * choice)) (st : Slot * list PC) : option (Slot * list PC) :=
  match sched with
  | [] => Some st
  | (i, c) :: sched' =>
      match snd st !! i with
      | None => None
      | Some p =>
          match step_thread slot (fst st) p c with
          | None => None
          | Some (s', p') => run slot sched' (s', <[i := p']> (snd st))
          end
      end
  end.

(** ** The theorems *)

Lemma idle_census ps : Forall (eq (Hold 0)) ps -> census ps = mkCensus 0 0 0 0 0 0 0 0 0.
Proof.
  induction 1 as [|p ps <- _ IH]; [done|].
  change (Hold 0 :: ps) with ([] ++ Hold 0 :: ps). rewrite census_mid. simpl app. by rewrite IH.
Qed.

Lemma holder_alive s ps v n p : inv_at s ps v n -> p ∈ ps -> (1 <= held p)%nat -> dead s (census ps) = 0.
Proof.
  intros I Hin Hk. apply list_elem_of_split in Hin as (l1 & l2 & ->).
  pose proof (i_counts _ _ _ _ I) as [_ _ _ [D|A]]; [|apply A]. pose proof (d_strong _ _ _ D) as Hs.
  pose proof (census_nonneg (l1 ++ l2)) as Hnn. rewrite census_mid in Hs.
  assert (1 <= strong p) by (destruct p; simpl in *; lia). simpl in Hs, Hnn. lia.
Qed.

(** C4: under any interleaving of any number of threads, no check of the class
    fires, a slot is never recycled or reused while a smart pointer to its
    object exists, and it is never in the free list twice: it is in the pool,
    or being recycled, or being made an object by at most one thread. *)
Theorem vref_safe slot threads s ps : is_u32 slot -> reachable slot threads (s, ps) ->
  Fatal ∉ ps /\
  (forall p, p ∈ ps -> (1 <= held p)%nat ->
     in_pool s = false /\ forall q, q ∈ ps -> is_rec q = 0 /\ is_cr1 q = 0 /\ is_cr2 q = 0) /\
  b2z (in_pool s) + cnt is_rec ps + cnt is_cr1 ps + cnt is_cr2 ps <= 1.
Proof.
  intros Hs Hr. destruct (inv_reachable _ _ _ Hs Hr) as (v & n & I). simpl in I. split; [|split].
  - intros Hin. pose proof (i_pcs _ _ _ _ I) as Hp. rewrite Forall_forall in Hp. apply (Hp _ Hin).
  - intros p Hin Hk. pose proof (holder_alive _ _ _ _ _ I Hin Hk) as Hd. unfold dead in Hd. simpl in Hd.
    pose proof (census_nonneg ps) as Hnn. simpl in Hnn. pose proof (b2z_range (in_pool s)).
    split; [destruct (in_pool s); [simpl in *; lia|done]|].
    intros q Hq. apply list_elem_of_split in Hq as (l1 & l2 & ->). rewrite !cnt_mid in Hd.
    pose proof (census_nonneg (l1 ++ l2)) as Hn2. simpl in Hn2.
    assert (0 <= is_rec q /\ 0 <= is_cr1 q /\ 0 <= is_cr2 q) by (destruct q; simpl; lia). lia.
  - pose proof (i_counts _ _ _ _ I) as [_ _ _ [D|A]]; [pose proof (d_phase _ _ _ D) as Hd|pose proof (a_phase _ _ _ _ A) as Hd];
      unfold dead in Hd; simpl in Hd; lia.
Qed.

(** no slot is lost: when every thread is out of the class and no smart
    pointer is left, the slot is back in the pool, or its object has not been
    failed and the additional reference is the only one. *)
Theorem vref_no_leak slot threads s ps : is_u32 slot -> reachable slot threads (s, ps) ->
  Forall (eq (Hold 0)) ps -> in_pool s = true \/ (Failed s = false /\ nref s = 1).
Proof.
  intros Hs Hr Hidle. destruct (inv_reachable _ _ _ Hs Hr) as (v & n & I). simpl in I.
  pose proof (idle_census ps Hidle) as Ec. destruct (inv_reads _ _ _ _ I) as (Hv & Hn & _ & _).
  destruct (in_pool s) eqn:Hin; [by left|right].
  assert (dead s (census ps) = 0) as Hd by (rewrite Ec; unfold dead; simpl; by rewrite Hin).
  pose proof (i_leak _ _ _ _ I Hd) as Hl.
  pose proof (i_counts _ _ _ _ I) as [Hc _ _ [D|A]]; [pose proof (d_phase _ _ _ D); lia|].
  rewrite Ec in Hc. simpl in Hc. pose proof (b2z_range (extra s)).
  assert (n <> 0) as Hn0.
  { intros ->. destruct (Exists_exists (will_recycle (_versioned_ref s)) ps) as [Hex _].
    destruct (Hex (Hl eq_refl)) as (p & Hp & Hw). rewrite Forall_forall in Hidle. rewrite <- (Hidle p Hp) in Hw. done. }
  unfold nref. split; [|lia]. unfold Failed. rewrite Hv. apply negb_false_iff, Z.eqb_eq.
  pose proof (a_version _ _ _ _ A) as Hver. rewrite Ec in Hver. simpl in Hver. lia.
Qed.

(** [Address] by a published identifier succeeds exactly when the slot
    holds the object of that identifier and the object has not been failed. *)
Theorem vref_address_exact slot threads s ps id k : is_u32 slot -> reachable slot threads (s, ps) ->
  allowed s ps (DoAddress id false) ->
  snd (AddressImpl s id false k) = Hold (S k) <->
  dead s (census ps) = 0 /\ VersionOfVRefId (_this_id s) = VersionOfVRefId id /\ Failed s = false.
Proof.
  intros Hs Hr (j & Hj & Hlt). destruct (inv_reachable _ _ _ Hs Hr) as (v & n & I). simpl in I.
  destruct (inv_reads _ _ _ _ I) as (Hv & _ & _ & _). unfold AddressImpl, Failed. rewrite Hv, Hj. simpl.
  pose proof (i_counts _ _ _ _ I) as [_ _ _ [D|A]].
  - pose proof (d_version _ _ _ D). pose proof (d_phase _ _ _ D).
    destruct (Z.eqb_spec v (2 * j)); [lia|]. simpl. split; [done|lia].
  - pose proof (a_id _ _ _ _ A). pose proof (a_version _ _ _ _ A). pose proof (a_phase _ _ _ _ A).
    destruct (Z.eqb_spec v (2 * j)) as [Heq|Hne]; simpl.
    + split; [|done]. intros _. split; [done|]. split; [lia|]. apply negb_false_iff, Z.eqb_eq. lia.
    + split; [done|]. intros (_ & Hid & Hf). apply negb_false_iff, Z.eqb_eq in Hf. lia.
Qed.

(** The word and the identifier split into the halves they were made of. *)
Theorem vref_words_roundtrip version count slot : is_u32 version -> - 2 ^ 31 <= count < 2 ^ 31 -> is_u32 slot ->
  VersionOfVRef (MakeVRef version count) = version /\ NRefOfVRef (MakeVRef version count) = count /\
  VersionOfVRefId (MakeVRefId version slot) = version /\ SlotOfVRefId (MakeVRefId version slot) = slot.
Proof.
  intros Hv Hn Hs. pose proof (u32_range count) as Hu.
  assert (MakeVRef version count = version * 2 ^ 32 + u32 count) as -> by
    (apply lor_word; [unfold is_u32 in Hv; lia|done]).
  split; [by apply word_version|]. split.
  { unfold NRefOfVRef. rewrite land_low, word_low by done. unfold i32, u32. rewrite Zmod_mod.
    fold (i32 count). by apply i32_small. }
  split; [by apply version_of_id|]. unfold SlotOfVRefId, MakeVRefId.
  rewrite lor_word by (unfold is_u32 in Hv; lia || done). by rewrite land_low, word_low.
Qed.

(** giving up the additional reference without failing the object can lose
    the slot.  A thread addressing a stale identifier holds a transient count
    while the last holder leaves; it then takes the even version of the live
    object for that of a free slot and does not recycle it. *)
Theorem release_without_fail_leaks : exists sched s,
  run 5 sched (new_Slot, [Hold 0; Hold 0]) = Some (s, [Hold 0; Hold 0]) /\
  in_pool s = false /\ nref s = 0 /\ Failed s = false.
Proof.
  exists ([(0, DoCreate); (0, Go true); (0, Go true); (0, Go true); (0, Go true);
           (* the first object: addressed, failed and recycled *)
           (0, DoAddress (MakeVRefId 0 5) false); (0, DoSetFailed); (0, Go true); (0, Go true); (0, Go true);
           (0, DoDereference); (0, Go true); (0, Go true); (0, Go true);
           (* the second object, on version 2 *)
           (0, DoCreate); (0, Go true); (0, Go true); (0, Go true); (0, Go true);
           (0, DoAddress (MakeVRefId 2 5) false); (0, DoRelease); (0, Go true); (0, Go true);
           (* a stale address, the last dereference in between *)
           (1, DoAddress (MakeVRefId 0 5) false); (0, DoDereference); (0, Go true); (1, Go true)]%nat).
  eexists. split; [vm_compute; reflexivity|]. vm_compute. done.
Qed.

(** ** Concrete runs *)

Lemma run_cons slot m s ps s' p p' (i : nat) c : reachable slot m (s, ps) -> ps !! i = Some p ->
  allowed s ps c -> step_thread slot s p c = Some (s', p') -> fits s' (<[i := p']> ps) ->
  reachable slot m (s', <[i := p']> ps).
Proof.
  intros Hr Hi Ha E Hf. pose proof (lookup_lt_Some _ _ _ Hi) as Hlt.
  rewrite (insert_take_drop ps i p' Hlt) in *. rewrite <- (take_drop_middle ps i p Hi) in Ha, Hr.
  eapply steps_trans; [exact Hr|]. by eapply thread_step.
Qed.

(** A thread has created an object and addresses it. *)
Definition demo_created : Slot := mkSlot 1 5 ADDITIONAL_REF_USING false true 1.
Definition demo_slot : Slot := mkSlot 2 5 ADDITIONAL_REF_USING false true 1.
Lemma demo_idle : reachable 5 2 (demo_created, [Hold 0; Hold 0]).
Proof.
  assert (reachable 5 2 (new_Slot, [Hold 0; Hold 0])) as H0 by apply steps_refl.
  pose proof (run_cons _ _ _ _ _ _ _ 0 DoCreate H0 eq_refl I eq_refl ltac:(done)) as H1.
  pose proof (run_cons _ _ _ _ _ _ _ 0 (Go true) H1 eq_refl I eq_refl ltac:(done)) as H2.
  pose proof (run_cons _ _ _ _ _ _ _ 0 (Go true) H2 eq_refl I eq_refl ltac:(done)) as H3.
  pose proof (run_cons _ _ _ _ _ _ _ 0 (Go true) H3 eq_refl I eq_refl ltac:(done)) as H4.
  exact (run_cons _ _ _ _ _ _ _ 0 (Go true) H4 eq_refl I eq_refl ltac:(done)).
Qed.

Lemma demo_reachable : reachable 5 2 (demo_slot, [Hold 1; Hold 0]).
Proof.
  assert (allowed demo_created [Hold 0; Hold 0] (DoAddress 5 false)) as Ha by (exists 0; done).
  exact (run_cons _ _ _ _ _ _ _ 0 (DoAddress 5 false) demo_idle eq_refl Ha eq_refl ltac:(done)).
Qed.

Lemma vref_safe_witness :
  Fatal ∉ [Hold 1; Hold 0] /\
  (forall p, p ∈ [Hold 1; Hold 0] -> (1 <= held p)%nat ->
     in_pool demo_slot = false /\ forall q, q ∈ [Hold 1; Hold 0] -> is_rec q = 0 /\ is_cr1 q = 0 /\ is_cr2 q = 0) /\
  b2z (in_pool demo_slot) + cnt is_rec [Hold 1; Hold 0] + cnt is_cr1 [Hold 1; Hold 0] + cnt is_cr2 [Hold 1; Hold 0] <= 1.
Proof. apply (vref_safe 5 2 demo_slot [Hold 1; Hold 0]); [done|apply demo_reachable]. Defined.

Lemma vref_no_leak_witness :
  in_pool demo_created = true \/ (Failed demo_created = false /\ nref demo_created = 1).
Proof.
  apply (vref_no_leak 5 2 demo_created [Hold 0; Hold 0]); [done|apply demo_idle|by repeat constructor].
Defined.

Lemma vref_address_exact_witness :
  snd (AddressImpl demo_slot 5 false 0) = Hold 1 <->
  dead demo_slot (census [Hold 1; Hold 0]) = 0 /\ VersionOfVRefId (_this_id demo_slot) = VersionOfVRefId 5 /\
  Failed demo_slot = false.
Proof.
  apply (vref_address_exact 5 2 demo_slot [Hold 1; Hold 0] 5 0); [done|apply demo_reachable|by exists 0].
Defined.

Lemma vref_words_roundtrip_witness :
  VersionOfVRef (MakeVRef 7 (-1)) = 7 /\ NRefOfVRef (MakeVRef 7 (-1)) = -1 /\
  VersionOfVRefId (MakeVRefId 7 5) = 7 /\ SlotOfVRefId (MakeVRefId 7 5) = 5.
Proof. apply (vref_words_roundtrip 7 (-1) 5); done. Defined.

End VRef.
