(* ===== verification/Hello.v ===== *)
(** * The handshake

    [HelloMessage] of [inc/fast_rdma_endpoint.h], its wire form and the check
    of a received one ([fast_rdma_endpoint.cc]), and the two sides of the
    handshake that agree on the flow-control windows. *)
From S2P Require Import Prelude.
Local Open Scope Z_scope.

Module Hello.

(** ** The message *)

Definition kMsgLen : Z := 44.
Definition kHelloVer : Z := 1.
Definition kImplVer : Z := 1.
Definition MAGIC : list Z := [82; 68; 77; 65].   (* RDMA *)

Record HelloMessage := mkHello {
  magic : list Z;
  msg_len : Z;
  hello_ver : Z;
  impl_ver : Z;
  block_size : Z;
  sq_size : Z;
  rq_size : Z;
  lid : Z;
  gid : list Z;
  qp_num : Z;
  data_qp_num : Z
}.

(** A 16-bit or 32-bit store after [htons] or [htonl]. *)
Definition put16 (x : Z) : list Z := le_bytes 2 (htons x).
Definition put32 (x : Z) : list Z := le_bytes 4 (htonl x).
#[global] Arguments put16 : simpl never.
#[global] Arguments put32 : simpl never.
(** The matching loads at byte offset [off]. *)
Definition get16 (off : Z) (buf : list Z) : Z := ntohs (le_value (slice off 2 buf)).
Definition get32 (off : Z) (buf : list Z) : Z := ntohl (le_value (slice off 4 buf)).

Definition Serialize (m : HelloMessage) : list Z :=
  magic m ++ put16 (msg_len m) ++ put16 (hello_ver m) ++ put16 (impl_ver m) ++ put32 (block_size m)
  ++ put16 (sq_size m) ++ put16 (rq_size m) ++ put16 (lid m) ++ gid m
  ++ put32 (qp_num m) ++ put32 (data_qp_num m).

Definition Deserialize (buf : list Z) : HelloMessage :=
  mkHello (slice 0 4 buf) (get16 4 buf) (get16 6 buf) (get16 8 buf) (get32 10 buf)
          (get16 14 buf) (get16 16 buf) (get16 18 buf) (slice 20 16 buf) (get32 36 buf) (get32 40 buf).

Definition kMinQpSize : Z := 16.
Definition kMinBlockSize : Z := 1024.
Definition HelloNegotiationValid (m : HelloMessage) : bool :=
  (hello_ver m =? kHelloVer) && negb (impl_ver m =? 0) && (kMinBlockSize <=? block_size m) &&
  (kMinQpSize <=? sq_size m) && (kMinQpSize <=? rq_size m).

(** The types of the fields. *)
Record wf (m : HelloMessage) : Prop := mk_wf {
  wf_magic : length (magic m) = 4%nat;
  wf_msg_len : is_u16 (msg_len m);
  wf_hello_ver : is_u16 (hello_ver m);
  wf_impl_ver : is_u16 (impl_ver m);
  wf_block_size : is_u32 (block_size m);
  wf_sq_size : is_u16 (sq_size m);
  wf_rq_size : is_u16 (rq_size m);
  wf_lid : is_u16 (lid m);
  wf_gid : length (gid m) = 16%nat;
  wf_qp_num : is_u32 (qp_num m);
  wf_data_qp_num : is_u32 (data_qp_num m)
}.

(** *** Round trips *)

Lemma slice_skip {A} off n (a b : list A) : 0 <= zlen a <= off -> slice off n (a ++ b) = slice (off - zlen a) n b.
Proof.
  intros H. unfold slice. rewrite drop_app_ge by (unfold zlen in *; lia). f_equal. f_equal. unfold zlen. lia.
Qed.
Lemma slice_here {A} n (a b : list A) : zlen a = n -> slice 0 n (a ++ b) = a.
Proof. intros H. unfold slice. simpl. apply take_app_length'. unfold zlen in H. lia. Qed.

Lemma zlen_put16 x : zlen (put16 x) = 2.
Proof. unfold zlen, put16. by rewrite length_le_bytes. Qed.
Lemma zlen_put32 x : zlen (put32 x) = 4.
Proof. unfold zlen, put32. by rewrite length_le_bytes. Qed.

Lemma get_put16 x b : is_u16 x -> ntohs (le_value (slice 0 2 (put16 x ++ b))) = x.
Proof.
  intros Hx. rewrite slice_here by apply zlen_put16. unfold put16. rewrite le_value_bytes.
  change (256 ^ Z.of_nat 2) with (2 ^ 16). rewrite Z.mod_small by apply htons_range. by apply ntohs_htons.
Qed.
Lemma get_put32 x b : is_u32 x -> ntohl (le_value (slice 0 4 (put32 x ++ b))) = x.
Proof.
  intros Hx. rewrite slice_here by apply zlen_put32. unfold put32. rewrite le_value_bytes.
  change (256 ^ Z.of_nat 4) with (2 ^ 32). rewrite Z.mod_small by apply htonl_range. by apply ntohl_htonl.
Qed.

Create HintDb hello.
#[local] Hint Rewrite @zlen_put16 @zlen_put32 @zlen_app : hello.

Lemma zlen_Serialize m : length (magic m) = 4%nat -> length (gid m) = 16%nat -> zlen (Serialize m) = kMsgLen.
Proof.
  intros Hm Hg. unfold Serialize. autorewrite with hello. unfold zlen. rewrite Hm, Hg. done.
Qed.

Lemma deserialize_serialize m : wf m -> Deserialize (Serialize m) = m.
Proof.
  intros [Hm ? ? ? ? ? ? ? Hg ? ?]. unfold Deserialize.
  assert (zlen (magic m) = 4) as Zm by (unfold zlen; lia). assert (zlen (gid m) = 16) as Zg by (unfold zlen; lia).
  destruct m as [mg ml hv iv bs sq rq li gi qp dq]; unfold Serialize.
  cbn [magic msg_len hello_ver impl_ver block_size sq_size rq_size lid gid qp_num data_qp_num] in *.
  f_equal; unfold get16, get32;
    repeat (rewrite slice_skip by (rewrite ?zlen_put16, ?zlen_put32, ?Zm, ?Zg; lia);
            rewrite ?zlen_put16, ?zlen_put32, ?Zm, ?Zg; lazymatch goal with |- context [slice (?a - ?b) _ _] => let c := eval vm_compute in (a - b) in change (a - b) with c end).
  all: try (by apply get_put16); try (by apply get_put32); try (by apply slice_here).
Qed.

(** ** Reading and writing the socket

    A call of [read] or [send] is an event: the bytes it transferred, or the
    error it set.  [Failed()] is checked before every call. *)
Inductive io_event :=
| Moved (n : Z)           (* bytes transferred; 0 is end of file for [read] *)
| IoError (errno : Z)
| EndpointFailed (errno : Z).

Definition EINTR : Z := 4.
Definition EAGAIN : Z := 11.
Definition EPROTO : Z := 71.
Definition ECONNRESET : Z := 104.

Inductive io_result (A : Type) := IoOk (a : A) | IoFail (errno : Z) | IoPending.
Arguments IoOk {A} a.
Arguments IoFail {A} errno.
Arguments IoPending {A}.

(** [ReadFromFd]: [stream] is what the peer sends.  The result is [IoPending]
    when the events end before [len] bytes have come. *)
Fixpoint ReadFromFd (evs : list io_event) (stream buf : list Z) (len : Z) : io_result (list Z) :=
  if zlen buf <? len then
    match evs with
    | [] => IoPending
    | EndpointFailed e :: _ => IoFail e
    | Moved n :: evs' =>
        if n =? 0 then IoFail ECONNRESET
        else ReadFromFd evs' (drop (Z.to_nat n) stream) (buf ++ take (Z.to_nat n) stream) len
    | IoError e :: evs' =>
        if (e =? EINTR) || (e =? EAGAIN) then ReadFromFd evs' stream buf len else IoFail e
    end
  else IoOk buf.

(** What the kernel may return: at most the bytes asked for, all of them sent. *)
Fixpoint reads_ok (evs : list io_event) (stream : list Z) (want : Z) : Prop :=
  match evs with
  | [] => True
  | Moved n :: evs' => 0 <= n <= want /\ n <= zlen stream /\
                       (n < want -> reads_ok evs' (drop (Z.to_nat n) stream) (want - n))
  | _ :: evs' => reads_ok evs' stream want
  end.

(** [WriteToFd]: [sent] collects the bytes handed to the kernel.  A [send] that
    returns 0 leaves [errno] as it was. *)
Definition retried (e : Z) : bool := (e =? EINTR) || (e =? EAGAIN).
Fixpoint WriteToFd (evs : list io_event) (data : list Z) (written : Z) (sent : list Z) (errno : Z)
  : io_result (list Z) :=
  if written <? zlen data then
    match evs with
    | [] => IoPending
    | EndpointFailed e :: _ => IoFail e
    | Moved n :: evs' =>
        if 0 <? n then WriteToFd evs' data (written + n) (sent ++ slice written n data) errno
        else if retried errno then WriteToFd evs' data written sent errno else IoFail errno
    | IoError e :: evs' => if retried e then WriteToFd evs' data written sent e else IoFail e
    end
  else IoOk sent.
Fixpoint writes_ok (evs : list io_event) (want : Z) : Prop :=
  match evs with
  | [] => True
  | Moved n :: evs' => 0 <= n <= want /\ writes_ok evs' (want - n)
  | _ :: evs' => writes_ok evs' want
  end.

Lemma ReadFromFd_prefix evs : forall stream buf len out, zlen buf <= len ->
  reads_ok evs stream (len - zlen buf) -> ReadFromFd evs stream buf len = IoOk out ->
  out = buf ++ take (Z.to_nat (len - zlen buf)) stream /\ zlen out = len.
Proof.
  induction evs as [|ev evs IH]; intros stream buf len out Hb Hok E; simpl in E;
    destruct (Z.ltb_spec (zlen buf) len) as [Hlt|Hge].
  1: done.
  1, 3: injection E as <-; replace (len - zlen buf) with 0 by lia; rewrite app_nil_r; split; [done|lia].
  destruct ev as [n|e|e]; [| |done].
  - destruct Hok as (Hn & Hs & Hrest). destruct (Z.eqb_spec n 0); [done|].
    assert (zlen (buf ++ take (Z.to_nat n) stream) = zlen buf + n) as Hz
      by (rewrite zlen_app; unfold zlen in *; rewrite length_take; lia).
    destruct (Z.eq_dec n (len - zlen buf)) as [->|Hne].
    + assert (out = buf ++ take (Z.to_nat (len - zlen buf)) stream) as ->; [|split; [done|lia]].
      destruct evs; simpl in E; destruct (Z.ltb_spec (zlen (buf ++ take (Z.to_nat (len - zlen buf)) stream)) len);
        try lia; by injection E as <-.
    + assert (reads_ok evs (drop (Z.to_nat n) stream) (len - zlen (buf ++ take (Z.to_nat n) stream))) as Hr.
      { rewrite Hz. replace (len - (zlen buf + n)) with (len - zlen buf - n) by lia. apply Hrest. lia. }
      destruct (IH _ (buf ++ take (Z.to_nat n) stream) len out ltac:(rewrite Hz; lia) Hr E) as [-> Hl].
      split; [|done]. rewrite <- (assoc (++)). f_equal. rewrite Hz.
      replace (Z.to_nat (len - zlen buf)) with (Z.to_nat n + Z.to_nat (len - (zlen buf + n)))%nat by lia.
      by rewrite take_take_drop.
  - simpl in Hok. destruct (_ || _); [|done]. by apply IH.
Qed.

Lemma WriteToFd_all evs : forall data written sent errno out, 0 <= written <= zlen data ->
  writes_ok evs (zlen data - written) -> sent = take (Z.to_nat written) data ->
  WriteToFd evs data written sent errno = IoOk out -> out = data.
Proof.
  induction evs as [|ev evs IH]; intros data written sent errno out Hw Hok -> E; simpl in E;
    destruct (Z.ltb_spec written (zlen data)) as [Hlt|Hge].
  1: done.
  1, 3: injection E as <-; apply take_ge; unfold zlen in *; lia.
  destruct ev as [n|e|e]; [| |done].
  - destruct Hok as (Hn & Hrest). destruct (Z.ltb_spec 0 n).
    + eapply (IH data (written + n)); [lia| | |exact E].
      * by replace (zlen data - (written + n)) with (zlen data - written - n) by lia.
      * unfold slice. rewrite Z2Nat.inj_add by lia. by rewrite take_take_drop.
    + destruct (retried errno); [|done]. replace n with 0 in Hrest by lia. rewrite Z.sub_0_r in Hrest.
      eapply IH; [| |done|exact E]; done.
  - simpl in Hok. destruct (retried e); [|done]. eapply IH; [| |done|exact E]; done.
Qed.

(** ** The two sides *)

Definition RESERVED_WR_NUM : Z := 3.

(** The negotiated parameters and the windows of an endpoint. *)
Record Params := mkParams {
  sq_size_ : Z;
  rq_size_ : Z;
  remote_recv_block_size_ : Z;
  local_window_capacity_ : Z;
  remote_window_capacity_ : Z;
  sq_window_size_ : Z;
  remote_rq_window_size_ : Z;
  sq_imm_window_size_ : Z;
  new_rq_wrs_ : Z
}.

(** [OnCreated] *)
Definition fresh_params : Params := mkParams 128 128 0 0 0 0 0 RESERVED_WR_NUM 0.

(** What the process knows about its device. *)
Record Device := mkDevice { g_rdma_recv_block_size : Z; g_lid : Z; g_gid : list Z }.

Definition local_hello (g : Device) (p : Params) (qps : Z * Z) : HelloMessage :=
  mkHello MAGIC kMsgLen kHelloVer kImplVer (g_rdma_recv_block_size g) (sq_size_ p) (rq_size_ p)
          (g_lid g) (g_gid g) (fst qps) (snd qps).

Definition negotiate (remote : HelloMessage) (p : Params) : Params :=
  let local_cap := Z.min (sq_size_ p) (rq_size remote) - RESERVED_WR_NUM in
  let remote_cap := Z.min (rq_size_ p) (sq_size remote) - RESERVED_WR_NUM in
  mkParams (sq_size_ p) (rq_size_ p) (block_size remote) local_cap remote_cap local_cap local_cap
           RESERVED_WR_NUM (new_rq_wrs_ p).

(** The outcomes of the calls a side makes: the queue pairs it allocates, its
    I/O, and bringing up the two queue pairs.  [inl] is the error. *)
Record HsEnv := mkEnv {
  e_alloc : Z + Z * Z;
  e_write : Z + unit;
  e_read : Z + list Z;
  e_bring_up : Z + unit;
  e_bring_up_data : Z + unit;
  e_ack : Z + unit
}.

(** [BringUpQp] posts [rq_size_] receives between INIT and RTR. *)
Definition BringUpQp (env : HsEnv) (p : Params) : Z + Params :=
  match e_bring_up env with
  | inl e => inl e
  | inr _ => inr (mkParams (sq_size_ p) (rq_size_ p) (remote_recv_block_size_ p) (local_window_capacity_ p)
                   (remote_window_capacity_ p) (sq_window_size_ p) (remote_rq_window_size_ p)
                   (sq_imm_window_size_ p) (new_rq_wrs_ p + rq_size_ p))
  end.

Definition acceptable (m : HelloMessage) : bool := bool_decide (magic m = MAGIC) && HelloNegotiationValid m.

(** A side returns its result, its parameters and the hello it sent. *)
Definition HsResult : Type := (Z + unit) * Params * option (list Z).

Definition ProcessHandshakeAtClient (g : Device) (env : HsEnv) (p : Params) : HsResult :=
  match e_alloc env with
  | inl e => (inl e, p, None)
  | inr qps =>
    let data := Serialize (local_hello g p qps) in
    match e_write env with
    | inl e => (inl e, p, None)
    | inr _ =>
      match e_read env with
      | inl e => (inl e, p, Some data)
      | inr buf =>
        let remote := Deserialize buf in
        if negb (bool_decide (magic remote = MAGIC)) then (inl EPROTO, p, Some data)
        else if negb (HelloNegotiationValid remote) then (inl EPROTO, p, Some data)
        else
          let p1 := negotiate remote p in
          match BringUpQp env p1 with
          | inl e => (inl e, p1, Some data)
          | inr p2 =>
            match e_bring_up_data env with
            | inl e => (inl e, p2, Some data)
            | inr _ => match e_ack env with
                       | inl e => (inl e, p2, Some data)
                       | inr _ => (inr tt, p2, Some data)
                       end
            end
          end
      end
    end
  end.

Definition ProcessHandshakeAtServer (g : Device) (env : HsEnv) (p : Params) : HsResult :=
  match e_read env with
  | inl e => (inl e, p, None)
  | inr buf =>
    let remote := Deserialize buf in
    if negb (bool_decide (magic remote = MAGIC)) then (inl EPROTO, p, None)
    else if negb (HelloNegotiationValid remote) then (inl EPROTO, p, None)
    else
      let p1 := negotiate remote p in
      match e_alloc env with
      | inl e => (inl e, p1, None)
      | inr qps =>
        match BringUpQp env p1 with
        | inl e => (inl e, p1, None)
        | inr p2 =>
          match e_bring_up_data env with
          | inl e => (inl e, p2, None)
          | inr _ =>
            match e_write env with
            | inl e => (inl e, p2, None)
            | inr _ =>
              let data := Serialize (local_hello g p2 qps) in
              match e_ack env with
              | inl e => (inl e, p2, Some data)
              | inr _ => (inr tt, p2, Some data)
              end
            end
          end
        end
      end
  end.

(** *** What they agree on *)

(** Sizes a side may announce. *)
Record announces (g : Device) (p : Params) : Prop := mk_announces {
  an_block : kMinBlockSize <= g_rdma_recv_block_size g < 2 ^ 32;
  an_lid : is_u16 (g_lid g);
  an_gid : length (g_gid g) = 16%nat;
  an_sq : kMinQpSize <= sq_size_ p < 2 ^ 16;
  an_rq : kMinQpSize <= rq_size_ p < 2 ^ 16
}.

Lemma local_hello_wf g p qps : announces g p -> is_u32 (fst qps) -> is_u32 (snd qps) ->
  wf (local_hello g p qps) /\ acceptable (local_hello g p qps) = true.
Proof.
  intros [? ? ? ? ?] ? ?. split.
  - constructor; simpl; try done; unfold is_u16, is_u32, kMinQpSize, kMinBlockSize in *; lia.
  - unfold acceptable, HelloNegotiationValid. simpl.
    destruct (Z.leb_spec kMinBlockSize (g_rdma_recv_block_size g)); [|lia].
    destruct (Z.leb_spec kMinQpSize (sq_size_ p)); [|lia].
    destruct (Z.leb_spec kMinQpSize (rq_size_ p)); [|lia]. done.
Qed.

Lemma accept_split m : acceptable m = true -> bool_decide (magic m = MAGIC) = true /\ HelloNegotiationValid m = true.
Proof. unfold acceptable. intros [? ?]%andb_true_iff. done. Qed.

Definition all_ok (env : HsEnv) : Prop :=
  e_write env = inr tt /\ e_bring_up env = inr tt /\ e_bring_up_data env = inr tt /\ e_ack env = inr tt.

(** serializing a hello gives 44 bytes, and reading them back gives the
    same message. *)
Theorem hello_roundtrip m : wf m -> zlen (Serialize m) = kMsgLen /\ Deserialize (Serialize m) = m.
Proof. intros H. split; [apply zlen_Serialize; apply H|by apply deserialize_serialize]. Qed.

(** C37: when two endpoints shake hands and nothing fails, both succeed, each
    side's send window is the other side's receive allowance, it is at least 13
    and it leaves the reserved work requests free on both queues. *)
Theorem handshake_agrees gc gs pc ps envc envs qc qs :
  announces gc pc -> announces gs ps ->
  is_u32 (fst qc) -> is_u32 (snd qc) -> is_u32 (fst qs) -> is_u32 (snd qs) ->
  all_ok envc -> all_ok envs -> e_alloc envc = inr qc -> e_alloc envs = inr qs ->
  e_read envs = inr (Serialize (local_hello gc pc qc)) ->
  e_read envc = inr (Serialize (local_hello gs ps qs)) ->
  exists pc' ps',
    ProcessHandshakeAtClient gc envc pc = (inr tt, pc', Some (Serialize (local_hello gc pc qc))) /\
    ProcessHandshakeAtServer gs envs ps = (inr tt, ps', Some (Serialize (local_hello gs ps qs))) /\
    local_window_capacity_ pc' = remote_window_capacity_ ps' /\
    remote_window_capacity_ pc' = local_window_capacity_ ps' /\
    13 <= local_window_capacity_ pc' <= Z.min (sq_size_ pc) (rq_size_ ps) - RESERVED_WR_NUM /\
    13 <= local_window_capacity_ ps' <= Z.min (sq_size_ ps) (rq_size_ pc) - RESERVED_WR_NUM /\
    sq_window_size_ pc' = local_window_capacity_ pc' /\ remote_rq_window_size_ pc' = local_window_capacity_ pc'.
Proof.
  intros Ac As H1 H2 H3 H4 (Wc & Bc & Dc & Kc) (Ws & Bs & Ds & Ks) Lc Ls Rs Rc.
  destruct (local_hello_wf gc pc qc Ac H1 H2) as [Wfc [Mc Vc]%accept_split].
  destruct (local_hello_wf gs ps qs As H3 H4) as [Wfs [Ms Vs]%accept_split].
  unfold ProcessHandshakeAtClient, ProcessHandshakeAtServer, BringUpQp.
  rewrite Lc, Wc, Rc, Bc, Dc, Kc, Ls, Ws, Rs, Bs, Ds, Ks.
  rewrite !deserialize_serialize by done. rewrite Mc, Vc, Ms, Vs. cbn [negb].
  destruct Ac, As. unfold kMinQpSize, RESERVED_WR_NUM in *.
  eexists _, _. split; [reflexivity|]. split; [reflexivity|]. simpl. unfold RESERVED_WR_NUM. lia.
Qed.

(** A hello with another magic, another protocol version, the TCP fallback
    mark or sizes below the minimum is refused with EPROTO on both sides and
    leaves the parameters as they were. *)
Theorem handshake_rejects g env p buf qps : e_read env = inr buf -> e_alloc env = inr qps -> e_write env = inr tt ->
  acceptable (Deserialize buf) = false ->
  (exists sent, ProcessHandshakeAtClient g env p = (inl EPROTO, p, sent)) /\
  ProcessHandshakeAtServer g env p = (inl EPROTO, p, None).
Proof.
  intros R L W A. unfold ProcessHandshakeAtClient, ProcessHandshakeAtServer. rewrite R, L, W.
  unfold acceptable in A. destruct (bool_decide (magic (Deserialize buf) = MAGIC)); simpl in *; [|by eauto].
  rewrite A. simpl. eauto.
Qed.

(** [ReadFromFd] that succeeds has read exactly the next [len] bytes of the
    stream, however the kernel cut them, and [WriteToFd] that succeeds has sent
    all the data in order. *)
Theorem fd_transfer_exact evs stream len data evs' errno out :
  0 <= len -> reads_ok evs stream len -> writes_ok evs' (zlen data) ->
  (ReadFromFd evs stream [] len = IoOk out -> out = take (Z.to_nat len) stream /\ zlen out = len) /\
  (WriteToFd evs' data 0 [] errno = IoOk out -> out = data).
Proof.
  intros Hl Hr Hw. split.
  - intros E. change (zlen []) with 0 in *.
    destruct (ReadFromFd_prefix evs stream [] len out Hl) as [-> ?]; [by rewrite Z.sub_0_r|done|].
    by rewrite Z.sub_0_r in *.
  - intros E. eapply WriteToFd_all; [| |done|exact E]; [pose proof (zlen_nonneg data); lia|by rewrite Z.sub_0_r].
Qed.

(** ** Concrete runs *)
Definition demo_dev : Device := mkDevice 8160 7 (replicate 16 1).
Definition demo_hello : HelloMessage := local_hello demo_dev fresh_params (100, 101).
Definition demo_env (buf : list Z) (qps : Z * Z) : HsEnv :=
  mkEnv (inr qps) (inr tt) (inr buf) (inr tt) (inr tt) (inr tt).

Lemma demo_announces : announces demo_dev fresh_params.
Proof. by constructor. Qed.

Lemma hello_roundtrip_witness :
  zlen (Serialize demo_hello) = kMsgLen /\ Deserialize (Serialize demo_hello) = demo_hello.
Proof. apply (hello_roundtrip demo_hello). by constructor. Defined.

Lemma handshake_agrees_witness :
  let envc := demo_env (Serialize (local_hello demo_dev fresh_params (200, 201))) (100, 101) in
  let envs := demo_env (Serialize (local_hello demo_dev fresh_params (100, 101))) (200, 201) in
  exists pc' ps',
    ProcessHandshakeAtClient demo_dev envc fresh_params
      = (inr tt, pc', Some (Serialize (local_hello demo_dev fresh_params (100, 101)))) /\
    ProcessHandshakeAtServer demo_dev envs fresh_params
      = (inr tt, ps', Some (Serialize (local_hello demo_dev fresh_params (200, 201)))) /\
    local_window_capacity_ pc' = remote_window_capacity_ ps' /\
    remote_window_capacity_ pc' = local_window_capacity_ ps' /\
    13 <= local_window_capacity_ pc' <= Z.min 128 128 - RESERVED_WR_NUM /\
    13 <= local_window_capacity_ ps' <= Z.min 128 128 - RESERVED_WR_NUM /\
    sq_window_size_ pc' = local_window_capacity_ pc' /\ remote_rq_window_size_ pc' = local_window_capacity_ pc'.
Proof.
  intros envc envs.
  apply (handshake_agrees demo_dev demo_dev fresh_params fresh_params envc envs (100, 101) (200, 201));
    try apply demo_announces; done.
Defined.

Lemma handshake_rejects_witness :
  (exists sent, ProcessHandshakeAtClient demo_dev (demo_env (replicate 44 0) (1, 2)) fresh_params
                  = (inl EPROTO, fresh_params, sent)) /\
  ProcessHandshakeAtServer demo_dev (demo_env (replicate 44 0) (1, 2)) fresh_params = (inl EPROTO, fresh_params, None).
Proof.
  apply (handshake_rejects demo_dev (demo_env (replicate 44 0) (1, 2)) fresh_params (replicate 44 0) (1, 2)); done.
Defined.

Lemma fd_transfer_exact_witness :
  (ReadFromFd [Moved 2; IoError EAGAIN; Moved 1] [5; 6; 7; 8] [] 3 = IoOk [5; 6; 7] ->
     [5; 6; 7] = take 3 [5; 6; 7; 8] /\ zlen [5; 6; 7] = 3) /\
  (WriteToFd [Moved 1; Moved 2] [5; 6; 7] 0 [] 0 = IoOk [5; 6; 7] -> [5; 6; 7] = [5; 6; 7]).
Proof.
  apply (fd_transfer_exact [Moved 2; IoError EAGAIN; Moved 1] [5; 6; 7; 8] 3 [5; 6; 7] [Moved 1; Moved 2] 0 [5; 6; 7]).
  - lia.
  - simpl. split; [lia|]. split; [done|]. intros _. split; [lia|]. split; [done|]. lia.
  - simpl. change (zlen [5; 6; 7]) with 3. lia.
Defined.

End Hello.
