(* ===== verification/WriteQueue.v ===== *)
(** * The write queue of an endpoint

    [StartWrite], [StartKeepWrite], [KeepWrite], [DoWrite], [IsWriteComplete],
    [FailWrite], [FailPendingWrite] and [ReleaseAllFailedWriteRequests] of
    [fast_rdma_endpoint.cc].  Any number of threads publish requests by an
    exchange of [_write_head]; the one that finds it empty becomes the writer
    and also writes what the others publish meanwhile.  Before the handshake
    the first request is parked in [_pending_keepwrite_req] until the handshake
    thread takes it.  Threads move one access of a shared word at a time, in any
    order; what only the writer touches (the requests it has linked, the
    transport) is part of the step before or after. *)
From S2P Require Import Prelude.
Local Open Scope Z_scope.

Module WQ.

(** ** State *)

Inductive link := UNCONNECTED | Null | To (n : nat).
#[export] Instance link_eq_dec : EqDecision link.
Proof. solve_decision. Defined.

(** [nexts] and [datas] are the fields of the requests taken from the object
    pool and not returned; [failed] is [Failed()] (the version of the endpoint).
    The last three fields are not in the code: the requests in the order of
    their exchange, the bytes handed to the transport, and the bytes of all
    requests in the order of their exchange. *)
Record Q := mkQ {
  _write_head : option nat;
  _pending_keepwrite_req : option nat;
  _handshake_ok : bool;
  _stop : bool;
  failed : bool;
  nexts : gmap nat link;
  datas : gmap nat (list Z);
  live : list nat;
  written : list Z;
  offered : list Z
}.

(** [OnCreated]. *)
Definition new_Q : Q := mkQ None None false false false ∅ ∅ [] [] [].

Definition set_head h q :=
  mkQ h (_pending_keepwrite_req q) (_handshake_ok q) (_stop q) (failed q) (nexts q) (datas q) (live q) (written q) (offered q).
Definition set_pending r q :=
  mkQ (_write_head q) r (_handshake_ok q) (_stop q) (failed q) (nexts q) (datas q) (live q) (written q) (offered q).
Definition set_handshake_ok q :=
  mkQ (_write_head q) (_pending_keepwrite_req q) true (_stop q) (failed q) (nexts q) (datas q) (live q) (written q) (offered q).
Definition set_stop q :=
  mkQ (_write_head q) (_pending_keepwrite_req q) (_handshake_ok q) true (failed q) (nexts q) (datas q) (live q) (written q) (offered q).
Definition set_failed q :=
  mkQ (_write_head q) (_pending_keepwrite_req q) (_handshake_ok q) (_stop q) true (nexts q) (datas q) (live q) (written q) (offered q).
Definition set_next (n : nat) (l : link) q :=
  mkQ (_write_head q) (_pending_keepwrite_req q) (_handshake_ok q) (_stop q) (failed q) (<[n := l]> (nexts q)) (datas q)
      (live q) (written q) (offered q).
Definition set_datas ds q :=
  mkQ (_write_head q) (_pending_keepwrite_req q) (_handshake_ok q) (_stop q) (failed q) (nexts q) ds (live q) (written q) (offered q).
Definition send (bs : list Z) q :=
  mkQ (_write_head q) (_pending_keepwrite_req q) (_handshake_ok q) (_stop q) (failed q) (nexts q) (datas q) (live q)
      (written q ++ bs) (offered q).

Definition data_of (q : Q) (n : nat) : list Z := default [] (datas q !! n).

(** [ReturnSuccessfulWriteRequest] and [ReturnFailedWriteRequest]. *)
Definition return_request (n : nat) (q : Q) : Q :=
  mkQ (_write_head q) (_pending_keepwrite_req q) (_handshake_ok q) (_stop q) (failed q) (delete n (nexts q)) (delete n (datas q))
      (filter (fun m => m <> n) (live q)) (written q) (offered q).

(** ** Threads *)

(** What the owner of the write right does next: in [StartWrite] read the
    error, read [_handshake_ok], park the request, or cut its data; in
    [KeepWrite] read [_stop] at the top of the loop, write, or read [_stop]
    after waiting; in [FailWrite] call [SetFailed] or return the requests. *)
Inductive stage := Err | Hand | Park | Cut | Loop | Turn | Wait | Failing | Drain.
#[export] Instance stage_eq_dec : EqDecision stage.
Proof. solve_decision. Defined.
(** Which loop calls [IsWriteComplete]. *)
Inductive mode := MStart | MKeep | MFail.

Inductive PC :=
| Idle
| Link (r prev : nat)                  (* publish [r->next = prev] *)
| First (r : nat)                      (* store [r->next = nullptr] *)
| Own (s : stage) (req : nat) (cur_tail : option nat)
| Cas (m : mode) (req tail : nat)      (* the compare-and-swap of [IsWriteComplete] *)
| Rev (m : mode) (req old_head p : nat) (tail : option nat) (new_head : nat)
| Fatal.                               (* a failed [CHECK] or a wild pointer *)

(** Follow [next] to the end of the list. *)
Fixpoint chain_from (fuel : nat) (nx : gmap nat link) (n : nat) : option (list nat) :=
  match fuel with
  | O => None
  | S f =>
      match nx !! n with
      | Some Null => Some [n]
      | Some (To m) => (fun c => n :: c) <$> chain_from f nx m
      | _ => None
      end
  end.

(** The effect of [CutFromIOBufList] on the requests: [k] bytes leave the front
    of the list of buffers. *)
Fixpoint cut_front (k : nat) (ns : list nat) (ds : gmap nat (list Z)) : gmap nat (list Z) * list Z :=
  match ns with
  | [] => (ds, [])
  | n :: ns' =>
      let d := default [] (ds !! n) in
      let x := cut_front (k - length d) ns' (<[n := drop k d]> ds) in
      (fst x, take k d ++ snd x)
  end.

Definition DATA_LIST_MAX : nat := 256.
Definition DoWrite (k : nat) (chain : list nat) (q : Q) : Q :=
  let x := cut_front k (take DATA_LIST_MAX chain) (datas q) in
  send (snd x) (set_datas (fst x) q).

(** Return the first request if it is written and not the last one. *)
Definition skip_written (chain : list nat) (q : Q) : Q * list nat :=
  match chain with
  | n :: ((_ :: _) as rest) => match data_of q n with [] => (return_request n q, rest) | _ => (q, chain) end
  | _ => (q, chain)
  end.

(** Return the requests at the front that are written, except the last one. *)
Fixpoint release_written (chain : list nat) (q : Q) : Q * nat :=
  match chain with
  | [] => (q, 0%nat)
  | n :: chain' =>
      match chain', data_of q n with
      | _ :: _, [] => release_written chain' (return_request n q)
      | _, _ => (q, n)
      end
  end.

(** Return all the requests but the last one, and clear that one. *)
Fixpoint release_failed (chain : list nat) (q : Q) : Q * nat :=
  match chain with
  | [] => (q, 0%nat)
  | n :: chain' =>
      match chain' with
      | [] => (set_datas (<[n := []]> (datas q)) q, n)
      | _ :: _ => release_failed chain' (return_request n q)
      end
  end.

(** The scheduler's choice: a call by an idle thread ([DoStartWrite] with the
    request [r] the object pool returned; [HandshakeDone] and [FailPending] for
    the handshake thread; [OtherSetFailed] and [OnFailedStop] for any other
    cause of failure), or the next step of a thread, [k] being the number of
    bytes the transport takes; [GoError] is a step in which the transport (after
    [k] bytes) or the creation of the [KeepWrite] thread fails. *)
Inductive choice :=
| DoStartWrite (r : nat) (data : list Z)
| HandshakeDone | HandshakeResume | FailPending | OtherSetFailed | OnFailedStop
| Go (k : nat) | GoError (k : nat).

(** The exchange of [StartWrite].  Its first test of the error can pass before
    the endpoint fails, so the exchange is possible at any time. *)
Definition StartWrite (q : Q) (r : nat) (d : list Z) : Q * PC :=
  let q' := mkQ (Some r) (_pending_keepwrite_req q) (_handshake_ok q) (_stop q) (failed q)
                (<[r := UNCONNECTED]> (nexts q)) (<[r := d]> (datas q))
                (live q ++ [r]) (written q) (offered q ++ d) in
  match _write_head q with
  | Some prev => (q', Link r prev)
  | None => (q', First r)
  end.

(** The loop that called [IsWriteComplete] goes on. *)
Definition not_complete (m : mode) (req new_tail : nat) : PC :=
  match m with
  | MStart => Own Loop req None
  | MKeep => Own Loop req (Some new_tail)
  | MFail => Own Drain req None
  end.

Definition IsWriteComplete_cas (q : Q) (m : mode) (req old_head : nat) : Q * PC :=
  if bool_decide (nexts q !! old_head = Some Null) then
    let more := negb (bool_decide (data_of q old_head = [])) || negb (bool_decide (req = old_head)) in
    if bool_decide (_write_head q = Some old_head) then
      if more then (q, not_complete m req old_head)
      else (return_request req (set_head None q), Idle)
    else
      match _write_head q with
      | Some new_head => (q, Rev m req old_head new_head None new_head)
      | None => (q, Fatal)
      end
  else (q, Fatal).

Definition of_tail (t : option nat) : link := match t with Some n => To n | None => Null end.
Definition IsWriteComplete_reverse (q : Q) (m : mode) (req old_head p : nat) (tail : option nat)
    (new_head : nat) : Q * PC :=
  match nexts q !! p with
  | Some UNCONNECTED => (q, Rev m req old_head p tail new_head)   (* sched_yield *)
  | Some (To saved) =>
      let q' := set_next p (of_tail tail) q in
      if bool_decide (saved = old_head)
      then (set_next old_head (To p) q', not_complete m req new_head)
      else (q', Rev m req old_head saved (Some p) new_head)
  | _ => (q, Fatal)
  end.

Definition chain_of (q : Q) (req : nat) : option (list nat) :=
  chain_from (S (size (nexts q))) (nexts q) req.

(** One turn of [KeepWrite] after the test of [_stop], up to its call of
    [IsWriteComplete] or the test of [_stop] after waiting. *)
Definition KeepWrite_turn (q : Q) (req : nat) (cur_tail : option nat) (k : nat) : Q * PC :=
  match chain_of q req with
  | None => (q, Fatal)
  | Some chain =>
      let x := skip_written chain q in
      let q1 := DoWrite k (snd x) (fst x) in
      let y := release_written (snd x) q1 in
      let t := match cur_tail with Some t => t | None => List.last chain 0%nat end in
      if bool_decide (written q1 = written q) then (fst y, Own Wait (snd y) (Some t))
      else (fst y, Cas MKeep (snd y) t)
  end.

(** A turn in which the transport fails after [k] bytes. *)
Definition KeepWrite_error (q : Q) (req : nat) (k : nat) : Q * PC :=
  match chain_of q req with
  | None => (q, Fatal)
  | Some chain =>
      let x := skip_written chain q in
      (DoWrite k (snd x) (fst x), Own Failing (hd 0%nat (snd x)) None)
  end.

(** One round of [ReleaseAllFailedWriteRequests] up to [IsWriteComplete]. *)
Definition ReleaseAllFailedWriteRequests (q : Q) (req : nat) : Q * PC :=
  match chain_of q req with
  | None => (q, Fatal)
  | Some chain => let x := release_failed chain q in (fst x, Cas MFail (snd x) (snd x))
  end.

(** A step of the thread that has the write right. *)
Definition own_step (q : Q) (s : stage) (req : nat) (t : option nat) (k : nat) : Q * PC :=
  match s with
  | Err => (q, Own (if failed q then Failing else Hand) req None)
  | Hand => (q, Own (if _handshake_ok q then Cut else Park) req None)
  | Park => (set_pending (Some req) q, Idle)
  | Cut => (DoWrite k [req] q, Cas MStart req req)
  | Loop => (q, if _stop q then Own Failing req None else Own Turn req t)
  | Turn => KeepWrite_turn q req t k
  | Wait => (q, if _stop q then Own Failing req None
                else match t with Some t' => Cas MKeep req t' | None => Fatal end)
  | Failing => (set_failed q, Own Drain req None)
  | Drain => ReleaseAllFailedWriteRequests q req
  end.

Definition step_thread (q : Q) (p : PC) (c : choice) : option (Q * PC) :=
  match c, p with
  | DoStartWrite r d, Idle => match nexts q !! r with None => Some (StartWrite q r d) | Some _ => None end
  | HandshakeDone, Idle => Some (set_handshake_ok q, Idle)
  | HandshakeResume, Idle =>
      Some (set_pending None q, match _pending_keepwrite_req q with Some r => Own Loop r None | None => Idle end)
  | FailPending, Idle =>
      Some (set_pending None q, match _pending_keepwrite_req q with Some r => Own Failing r None | None => Idle end)
  | OtherSetFailed, Idle => Some (set_failed q, Idle)
  | OnFailedStop, Idle => if failed q then Some (set_stop q, Idle) else None
  | Go _, Link r prev => Some (set_next r (To prev) q, Idle)
  | Go _, First r => Some (set_next r Null q, Own Err r None)
  | Go k, Own s req t => Some (own_step q s req t k)
  | GoError k, Own Cut req _ => Some (DoWrite k [req] q, Own Failing req None)
  | GoError _, Own Loop req _ => Some (q, Own Failing req None)
  | GoError k, Own Turn req _ => Some (KeepWrite_error q req k)
  | Go _, Cas m req t => Some (IsWriteComplete_cas q m req t)
  | Go _, Rev m req o p t n => Some (IsWriteComplete_reverse q m req o p t n)
  | _, _ => None
  end.

Inductive step : Q * list PC -> Q * list PC -> Prop :=
| thread_step q q' l1 p p' l2 c :
    step_thread q p c = Some (q', p') -> step (q, l1 ++ p :: l2) (q', l1 ++ p' :: l2).

(** ** The invariant *)

(** The links about to be stored, and the activities that own the write right:
    a thread, or the parked request. *)
Definition pub (p : PC) : option (nat * nat) := match p with Link r prev => Some (r, prev) | _ => None end.
Definition pubs (ps : list PC) : list (nat * nat) := omap pub ps.
Definition writer (p : PC) : option PC := match p with Idle | Link _ _ => None | _ => Some p end.
Definition actors (q : Q) (ps : list PC) : list PC :=
  (match _pending_keepwrite_req q with Some r => [Own Loop r None] | None => [] end) ++ omap writer ps.

(** [n] was published right after [prev]: its link is stored, or about to be. *)
Definition follows (q : Q) (L : list (nat * nat)) (prev n : nat) : Prop :=
  nexts q !! n = Some (To prev) \/ (nexts q !! n = Some UNCONNECTED /\ (n, prev) ∈ L).
Fixpoint pending (q : Q) (L : list (nat * nat)) (prev : nat) (N : list nat) : Prop :=
  match N with [] => True | n :: N' => follows q L prev n /\ pending q L n N' end.

(** [W] is linked in order and ends with [Null]. *)
Fixpoint chained (nx : gmap nat link) (W : list nat) : Prop :=
  match W with
  | [] => False
  | a :: W' => match W' with [] => nx !! a = Some Null | b :: _ => nx !! a = Some (To b) /\ chained nx W' end
  end.

(** The requests the writer has linked, in order, and those published since. *)
Definition known (q : Q) (L : list (nat * nat)) (req : nat) (W N : list nat) : Prop :=
  live q = W ++ N /\ head W = Some req /\ chained (nexts q) W /\ pending q L (List.last W 0%nat) N.

Definition single (m : mode) (W : list nat) : Prop := m = MKeep \/ length W = 1%nat.
Definition starting (s : stage) : bool := match s with Err | Hand | Park | Cut => true | _ => false end.

Definition writer_ok (q : Q) (L : list (nat * nat)) (w : PC) : Prop :=
  match w with
  | First r => exists N, live q = r :: N /\ nexts q !! r = Some UNCONNECTED /\ (r ∉ (L.*1)) /\ pending q L r N
  | Own s req t => exists W N, known q L req W N /\ (starting s = true -> length W = 1%nat) /\
      (s = Drain -> failed q = true) /\ (s = Wait -> is_Some t) /\ (forall x, t = Some x -> List.last W 0%nat = x)
  | Cas m req t => exists W N, known q L req W N /\ List.last W 0%nat = t /\ single m W /\
      (m = MFail -> failed q = true)
  | Rev m req o p t h => exists W A B N, live q = W ++ (A ++ [p]) ++ B ++ N /\ head W = Some req /\
      chained (nexts q) W /\ List.last W 0%nat = o /\ single m W /\ (m = MFail -> failed q = true) /\
      pending q L o (A ++ [p]) /\ (B = [] \/ chained (nexts q) B) /\ head B = t /\
      List.last (p :: B) 0%nat = h /\ pending q L h N
  | _ => False
  end.

(** The writer still has all the bytes that are not written. *)
Definition keeps (w : PC) : bool :=
  match w with
  | Own s _ _ => match s with Err | Failing | Drain => false | _ => true end
  | Cas m _ _ | Rev m _ _ _ _ _ => match m with MFail => false | _ => true end
  | _ => false
  end.
Definition bytes (q : Q) : Prop := written q ++ concat (map (data_of q) (live q)) = offered q.

Record base (q : Q) (L : list (nat * nat)) : Prop := mk_base {
  b_nodup : NoDup (live q);
  b_dom : forall n, n ∈ live q <-> is_Some (nexts q !! n);
  b_data : forall n, n ∈ live q <-> is_Some (datas q !! n);
  b_pubs : NoDup (L.*1);
  b_pub : forall r prev, (r, prev) ∈ L -> nexts q !! r = Some UNCONNECTED;
  b_head : _write_head q = last (live q);
  b_prefix : exists rest, offered q = written q ++ rest;
  b_stop : _stop q = true -> failed q = true
}.
Definition one_writer (q : Q) (L : list (nat * nat)) (acts : list PC) : Prop :=
  match acts with
  | [] => live q = [] /\ (failed q = false -> bytes q)
  | [w] => writer_ok q L w /\ (failed q = false \/ keeps w = true -> bytes q)
  | _ => False
  end.
Definition core (q : Q) (L : list (nat * nat)) (acts : list PC) : Prop := base q L /\ one_writer q L acts.
Definition inv (q : Q) (ps : list PC) : Prop := core q (pubs ps) (actors q ps).

(** *** Lists *)

Lemma last_cons_List {A} (x d e : A) l : List.last (x :: l) d = List.last (x :: l) e.
Proof. revert x. induction l as [|y l IH]; intros x; [done|]. apply IH. Qed.
Lemma last_List {A} (l : list A) d : l <> [] -> last l = Some (List.last l d).
Proof.
  induction l as [|a [|b l] IH]; intros Hne; [done|done|].
  change (last (b :: l) = Some (List.last (b :: l) d)). by apply IH.
Qed.
Lemma List_last_app {A} (l1 l2 : list A) d : l2 <> [] -> List.last (l1 ++ l2) d = List.last l2 d.
Proof.
  intros Hne. destruct (exists_last Hne) as (l & a & ->). by rewrite app_assoc, !List.last_last.
Qed.
Lemma List_last_in {A} (l : list A) d : l <> [] -> List.last l d ∈ l.
Proof. intros Hne. destruct (exists_last Hne) as (l' & a & ->). rewrite List.last_last. set_solver. Qed.

(** *** Links under changes elsewhere *)

Lemma pending_frame q q' L L' prev N : (forall n, n ∈ N -> nexts q' !! n = nexts q !! n) ->
  (forall n x, n ∈ N -> (n, x) ∈ L -> (n, x) ∈ L') ->
  pending q L prev N -> pending q' L' prev N.
Proof.
  revert prev. induction N as [|n N IH]; intros prev Hn Hl; simpl; [done|].
  intros [Hf Hp]. split.
  - unfold follows in *. rewrite Hn by (by left). destruct Hf as [?|[? ?]]; [by left|right].
    split; [done|]. apply Hl; [by left|done].
  - apply IH; [intros; apply Hn; by right|intros; apply Hl; [by right|done]|done].
Qed.
Lemma chained_frame nx nx' W : (forall n, n ∈ W -> nx' !! n = nx !! n) -> chained nx W -> chained nx' W.
Proof.
  induction W as [|a [|b W] IH]; intros Hn; [done| |].
  - simpl. by rewrite Hn by (by left).
  - intros [E Hc]. split; [by rewrite Hn by (by left)|]. apply IH; [|done]. intros; apply Hn; by right.
Qed.
Lemma pending_app q L prev N M :
  pending q L prev (N ++ M) <-> pending q L prev N /\ pending q L (List.last (prev :: N) 0%nat) M.
Proof.
  revert prev. induction N as [|x N IH]; intros prev; [simpl; tauto|].
  change ((x :: N) ++ M) with (x :: (N ++ M)). cbn [pending]. rewrite IH.
  change (List.last (prev :: x :: N) 0%nat) with (List.last (x :: N) 0%nat). tauto.
Qed.
Lemma chained_ne nx W : chained nx W -> W <> [].
Proof. by destruct W. Qed.
Lemma chained_last nx W : chained nx W -> nx !! List.last W 0%nat = Some Null.
Proof. induction W as [|a [|b W] IH]; [done|done|]. intros [_ Hc]. by apply IH. Qed.
Lemma chained_connected nx W n : chained nx W -> n ∈ W -> nx !! n <> Some UNCONNECTED.
Proof.
  induction W as [|a [|b W] IH]; [done| |].
  - intros E Hn. apply list_elem_of_singleton in Hn as ->. simpl in E. congruence.
  - intros [E Hc] Hn. apply elem_of_cons in Hn as [->|Hn]; [congruence|]. by apply IH.
Qed.
(** Linking the list [B] at the end of [W]. *)
Lemma chained_link nx W B b : chained nx W -> NoDup (W ++ b :: B) -> chained nx (b :: B) ->
  chained (<[List.last W 0%nat := To b]> nx) (W ++ b :: B).
Proof.
  induction W as [|a [|a' W] IH]; intros HW Hnd HB; [done| |].
  - assert (a ∉ b :: B) as Ha by (by apply NoDup_cons in Hnd as [? _]).
    change (([a]) ++ b :: B) with (a :: b :: B). split; [by apply lookup_insert_eq|].
    apply (chained_frame nx); [|done]. intros n Hn. simpl. apply lookup_insert_ne. by intros ->.
  - destruct HW as [E HW]. assert (a ∉ (a' :: W) ++ b :: B) as Ha by (by apply NoDup_cons in Hnd as [? _]).
    change (List.last (a :: a' :: W) 0%nat) with (List.last (a' :: W) 0%nat).
    split; [|apply (IH HW); [by apply NoDup_cons in Hnd as [_ ?]|done]].
    rewrite lookup_insert_ne; [done|]. intros Ea. apply Ha. rewrite <- Ea.
    apply elem_of_app. left. by apply List_last_in.
Qed.

(** *** The operations of the writer *)

Lemma chain_from_chained nx W r f : chained nx W -> head W = Some r -> (length W <= f)%nat -> chain_from f nx r = Some W.
Proof.
  revert r f. induction W as [|a [|b W] IH]; intros r f Hc E Hf; [done| |]; injection E as <-; destruct f as [|f]; try (simpl in Hf; lia).
  - simpl in *. by rewrite Hc.
  - destruct Hc as [E Hc]. cbn [chain_from]. rewrite E, (IH b f Hc eq_refl) by (simpl in *; lia). done.
Qed.
Lemma chain_of_known q L req W N : base q L -> known q L req W N -> chain_of q req = Some W.
Proof.
  intros B (El & Eh & Hc & _). apply chain_from_chained; [done|done|].
  pose proof (b_nodup _ _ B) as Hnd. rewrite El in Hnd. apply NoDup_app in Hnd as (Hnd & _ & _).
  rewrite <- (size_list_to_set (C := gset nat)) by exact Hnd. rewrite <- size_dom.
  transitivity (size (dom (nexts q))); [|lia]. apply subseteq_size. intros n Hn.
  apply elem_of_list_to_set in Hn. apply elem_of_dom, (b_dom _ _ B). rewrite El. set_solver.
Qed.

(** A change of [datas] and [written] only. *)
Definition same_shape (q q' : Q) : Prop :=
  _write_head q' = _write_head q /\ _pending_keepwrite_req q' = _pending_keepwrite_req q /\
  nexts q' = nexts q /\ live q' = live q /\ failed q' = failed q /\ _stop q' = _stop q /\ offered q' = offered q /\
  (forall n, is_Some (datas q' !! n) <-> is_Some (datas q !! n)).

Lemma base_shape q q' L : same_shape q q' -> (exists rest, offered q = written q' ++ rest) -> base q L -> base q' L.
Proof.
  intros (E1 & _ & E2 & E3 & E4 & E5 & E6 & Hd) Hp B. destruct B. split; rewrite ?E1, ?E2, ?E3, ?E4, ?E5, ?E6; try done.
  intros n. rewrite Hd. done.
Qed.
Lemma known_shape q q' L req W N : nexts q' = nexts q -> live q' = live q -> known q L req W N -> known q' L req W N.
Proof.
  intros E2 E3 (E & Eh & Hc & Hp). split; [by rewrite E3|]. split; [done|]. rewrite E2. split; [done|].
  eapply pending_frame; [| |exact Hp]; [intros; by rewrite E2|done].
Qed.

Lemma cut_front_spec ns : forall k ds, NoDup ns -> (forall n, n ∈ ns -> is_Some (ds !! n)) ->
  let x := cut_front k ns ds in
  (forall n, n ∉ ns -> fst x !! n = ds !! n) /\
  (forall n, is_Some (fst x !! n) <-> is_Some (ds !! n)) /\
  snd x ++ concat (map (fun n => default [] (fst x !! n)) ns) = concat (map (fun n => default [] (ds !! n)) ns).
Proof.
  induction ns as [|a ns IH]; intros k ds Hnd Hin; [done|].
  apply NoDup_cons in Hnd as [Ha Hnd]. cbn [cut_front fst snd].
  set (d := default [] (ds !! a)). set (x := cut_front (k - length d) ns (<[a := drop k d]> ds)).
  destruct (IH (k - length d)%nat (<[a := drop k d]> ds) Hnd) as (Hf & Hs & Hb).
  { intros n Hn. destruct (decide (n = a)) as [->|]; [done|]. rewrite lookup_insert_ne by done. apply Hin. by right. }
  fold x in Hf, Hs, Hb. split; [|split].
  - intros n Hn. rewrite Hf by set_solver. apply lookup_insert_ne. set_solver.
  - intros n. rewrite Hs. destruct (decide (n = a)) as [->|]; [|by rewrite lookup_insert_ne].
    rewrite lookup_insert_eq. split; [intros _; apply Hin; by left|done].
  - cbn [map concat]. rewrite (Hf a Ha), lookup_insert_eq. cbn [default from_option id].
    assert (map (fun n => default [] (<[a := drop k d]> ds !! n)) ns = map (fun n => default [] (ds !! n)) ns) as E.
    { apply map_ext_in. intros n Hn. rewrite lookup_insert_ne; [done|]. intros ->. apply Ha. by apply list_elem_of_In. }
    rewrite E in Hb. fold d. rewrite <- Hb. rewrite !app_assoc. f_equal.
    destruct (decide (length d <= k)%nat) as [Hk|Hk].
    + rewrite (drop_ge d k), app_nil_r by done. rewrite (take_ge d k) by done. done.
    + assert (snd x = []) as ->.
      { subst x. replace (k - length d)%nat with 0%nat by lia. generalize (<[a := drop k d]> ds).
        clear. induction ns as [|b ns IHn]; intros ds; [done|]. simpl. apply IHn. }
      by rewrite !app_nil_r, take_drop.
Qed.

Lemma bytes_split q W N : live q = W ++ N ->
  bytes q <-> written q ++ concat (map (data_of q) W) ++ concat (map (data_of q) N) = offered q.
Proof. unfold bytes. intros ->. by rewrite map_app, concat_app. Qed.

Lemma DoWrite_shape q L k ns rest : base q L -> live q = ns ++ rest ->
  same_shape q (DoWrite k ns q) /\ (bytes q -> bytes (DoWrite k ns q)) /\
  (exists bs, written (DoWrite k ns q) = written q ++ bs) .
Proof.
  intros B El. set (ms := take DATA_LIST_MAX ns).
  assert (live q = ms ++ (drop DATA_LIST_MAX ns ++ rest)) as El2 by (unfold ms; by rewrite app_assoc, take_drop).
  pose proof (b_nodup _ _ B) as Hnd. rewrite El2 in Hnd. apply NoDup_app in Hnd as (Hnd & Hdis & _).
  destruct (cut_front_spec ms k (datas q) Hnd) as (Hf & Hs & Hb).
  { intros n Hn. apply (b_data _ _ B). rewrite El2. set_solver. }
  split; [done|]. split; [|by eexists].
  intros Hby. apply (bytes_split _ _ _ El2) in Hby. apply (bytes_split (DoWrite k ns q) ms _ El2).
  etrans; [|exact Hby]. unfold DoWrite. fold ms. cbn [written offered send set_datas]. rewrite <- app_assoc. f_equal.
  rewrite app_assoc. f_equal; [exact Hb|]. f_equal. apply map_ext_in. intros n Hn. unfold data_of. cbn [datas].
  rewrite Hf; [done|]. intros Hin. apply (Hdis n Hin). by apply list_elem_of_In.
Qed.

(** Returning the first request to the pool. *)
Lemma filter_head (n : nat) (l : list nat) : NoDup (n :: l) -> filter (fun m => m <> n) (n :: l) = l.
Proof.
  intros Hnd. apply NoDup_cons in Hnd as [Hn _]. rewrite filter_cons_False by tauto.
  induction l as [|x l IH]; [done|]. apply not_elem_of_cons in Hn as [Hx Hl].
  by rewrite filter_cons_True, IH.
Qed.
Lemma base_pop q L n l h : base q L -> live q = n :: l -> h = last l ->
  nexts q !! n <> Some UNCONNECTED -> base (return_request n (set_head h q)) L.
Proof.
  intros B El Eh Hn. pose proof (b_nodup _ _ B) as Hnd. rewrite El in Hnd. destruct B as [_ Hdom Hdata Hpn Hpub _ Hpre Hst].
  assert (live (return_request n (set_head h q)) = l) as El' by (cbn; rewrite El; by apply filter_head).
  assert (forall m, m ∈ l <-> m ∈ live q /\ m <> n) as Hin.
  { intros m. rewrite El, elem_of_cons. apply NoDup_cons in Hnd as [? _]. split; [|naive_solver].
    intros Hm. split; [by right|]. by intros ->. }
  split; rewrite ?El'; cbn; try done.
  - by apply NoDup_cons in Hnd as [_ ?].
  - intros m. rewrite Hin, Hdom. destruct (decide (m = n)) as [->|].
    + rewrite lookup_delete_eq. split; [tauto|]. intros [? ?]; done.
    + rewrite lookup_delete_ne by done. tauto.
  - intros m. rewrite Hin, Hdata. destruct (decide (m = n)) as [->|].
    + rewrite lookup_delete_eq. split; [tauto|]. intros [? ?]; done.
    + rewrite lookup_delete_ne by done. tauto.
  - intros r prev Hr. specialize (Hpub _ _ Hr). rewrite lookup_delete_ne; [done|]. by intros <-.
Qed.
Lemma bytes_pop q L n l : base q L -> live q = n :: l -> data_of q n = [] -> bytes q -> bytes (return_request n q).
Proof.
  intros B El Ed. pose proof (b_nodup _ _ B) as Hnd. rewrite El in Hnd. unfold bytes.
  assert (live (return_request n q) = l) as -> by (cbn; rewrite El; by apply filter_head).
  rewrite El. cbn [map concat written offered return_request]. rewrite Ed. cbn [app]. intros <-. f_equal. f_equal.
  apply map_ext_in. intros m Hm. unfold data_of. cbn. rewrite lookup_delete_ne; [done|]. intros ->.
  apply NoDup_cons in Hnd as [Hn _]. apply Hn. by apply list_elem_of_In.
Qed.
Lemma known_pop q L n m W N : base q L -> known q L n (n :: m :: W) N ->
  base (return_request n q) L /\ known (return_request n q) L m (m :: W) N.
Proof.
  intros B (El & _ & [En Hc] & Hp). pose proof (b_nodup _ _ B) as Hnd. rewrite El in Hnd.
  assert (live (return_request n q) = (m :: W) ++ N) as El' by (cbn; rewrite El; by apply filter_head).
  cbn [app] in Hnd. apply NoDup_cons in Hnd as [Hn _].
  split.
  - replace q with (set_head (_write_head q) q) by (by destruct q).
    eapply base_pop; [done|exact El| |congruence]. rewrite (b_head _ _ B), El. done.
  - split; [done|]. split; [done|]. split.
    + eapply chained_frame; [|exact Hc]. intros x Hx. cbn. rewrite lookup_delete_ne; [done|]. set_solver.
    + eapply pending_frame; [| |exact Hp]; [|done]. intros x Hx. cbn. rewrite lookup_delete_ne; [done|]. set_solver.
Qed.

(** *** Steps of the writer *)

(** What a change by the writer of the requests it knows leaves alone. *)
Definition same_rest (q q' : Q) : Prop :=
  failed q' = failed q /\ _pending_keepwrite_req q' = _pending_keepwrite_req q /\ written q' = written q.

Lemma release_written_spec L N W : forall q req, base q L -> known q L req W N ->
  let x := release_written W q in
  exists W', base (fst x) L /\ known (fst x) L (snd x) W' N /\ List.last W' 0%nat = List.last W 0%nat /\
    (bytes q -> bytes (fst x)) /\ same_rest q (fst x).
Proof.
  induction W as [|n [|m W] IH]; intros q req B HK; [by destruct HK as (_ & ? & _)| |];
    (assert (req = n) as -> by (destruct HK as (_ & E & _); by injection E)).
  - exists [n]. done.
  - cbn [release_written]. destruct (data_of q n) as [|z d] eqn:Ed; [|by exists (n :: m :: W)].
    destruct (known_pop _ _ _ _ _ _ B HK) as [B' HK'].
    destruct (IH _ m B' HK') as (W' & ? & ? & ? & Hby & ?). exists W'. split_and!; try done.
    intros Hbq. apply Hby. eapply bytes_pop; [done|apply HK|done|done].
Qed.

Lemma release_failed_spec L N W : forall q req, base q L -> known q L req W N ->
  let x := release_failed W q in
  base (fst x) L /\ known (fst x) L (snd x) [snd x] N /\ snd x = List.last W 0%nat /\ same_rest q (fst x).
Proof.
  induction W as [|n [|m W] IH]; intros q req B HK; [by destruct HK as (_ & ? & _)| |];
    (assert (req = n) as -> by (destruct HK as (_ & E & _); by injection E)).
  - cbn [release_failed fst snd]. split; [|split; [by apply (known_shape q)|done]].
    apply (base_shape q); [|by destruct B|done]. split_and!; try done.
    intros x. cbn. destruct (decide (x = n)) as [->|]; [|by rewrite lookup_insert_ne].
    rewrite lookup_insert_eq. split; [intros _|done]. apply (b_data _ _ B). destruct HK as (-> & _). set_solver.
  - destruct (known_pop _ _ _ _ _ _ B HK) as [B' HK']. by apply (IH _ m B' HK').
Qed.

Lemma skip_written_spec q L req W N : base q L -> known q L req W N ->
  let x := skip_written W q in
  base (fst x) L /\ known (fst x) L (hd 0%nat (snd x)) (snd x) N /\
  List.last (snd x) 0%nat = List.last W 0%nat /\ (bytes q -> bytes (fst x)) /\ same_rest q (fst x).
Proof.
  intros B HK. destruct W as [|n W]; [by destruct HK as (_ & ? & _)|].
  assert (req = n) as -> by (destruct HK as (_ & E & _); by injection E).
  destruct W as [|m W]; [done|]. cbn [skip_written]. destruct (data_of q n) as [|z d] eqn:Ed; [|done].
  destruct (known_pop _ _ _ _ _ _ B HK) as [B' HK']. split_and!; try done.
  intros Hbq. eapply bytes_pop; [done|apply HK|done|done].
Qed.

(** Writing from the requests the writer knows. *)
Lemma DoWrite_spec q L req W N k : base q L -> known q L req W N -> bytes q ->
  base (DoWrite k W q) L /\ known (DoWrite k W q) L req W N /\ bytes (DoWrite k W q) /\
  failed (DoWrite k W q) = failed q.
Proof.
  intros B HK Hby. destruct (DoWrite_shape q L k W N B) as (Hsh & Hb & _); [apply HK|].
  split_and!; [|eapply known_shape; [| |exact HK]; apply Hsh|by apply Hb|done].
  eapply base_shape; [exact Hsh| |done]. exists (concat (map (data_of (DoWrite k W q)) (live (DoWrite k W q)))).
  symmetry. exact (Hb Hby).
Qed.

(** A step of the writer from [q] to the state and program point of [x]. *)
Definition moved (q : Q) (L : list (nat * nat)) (x : Q * PC) : Prop :=
  core (fst x) L (omap writer [snd x]) /\ _pending_keepwrite_req (fst x) = _pending_keepwrite_req q /\ pub (snd x) = None.

Lemma KeepWrite_turn_core q L req t k : core q L [Own Turn req t] -> moved q L (KeepWrite_turn q req t k).
Proof.
  intros [B [(W & N & HK & _ & _ & _ & Ht) Hby]]. unfold KeepWrite_turn.
  rewrite (chain_of_known _ _ _ _ _ B HK). specialize (Hby (or_intror eq_refl)).
  destruct (skip_written_spec _ _ _ _ _ B HK) as (B1 & HK1 & Hl1 & Hb1 & _ & Hp1 & _).
  destruct (DoWrite_spec _ _ _ _ _ k B1 HK1 (Hb1 Hby)) as (B2 & HK2 & Hby2 & _).
  destruct (release_written_spec _ _ _ _ _ B2 HK2) as (W' & B3 & HK3 & Hl3 & Hb3 & _ & Hp3 & _).
  assert (List.last W' 0%nat = match t with Some t => t | None => List.last W 0%nat end) as Hl.
  { rewrite Hl3, Hl1. destruct t as [x|]; [by apply Ht|done]. }
  unfold moved. case_bool_decide; cbn [fst snd]; (split; [|split; [by etrans; [exact Hp3|exact Hp1]|done]]); (split; [done|]);
    (split; [|intros _; by apply Hb3]); exists W', N.
  - split_and!; try done. intros x [= <-]. done.
  - split_and!; try done. by left.
Qed.
Lemma KeepWrite_error_core q L req t k : core q L [Own Turn req t] -> moved q L (KeepWrite_error q req k).
Proof.
  intros [B [(W & N & HK & _ & _ & _ & Ht) Hby]]. unfold KeepWrite_error.
  rewrite (chain_of_known _ _ _ _ _ B HK). specialize (Hby (or_intror eq_refl)).
  destruct (skip_written_spec _ _ _ _ _ B HK) as (B1 & HK1 & Hl1 & Hb1 & _ & Hp1 & _).
  destruct (DoWrite_spec _ _ _ _ _ k B1 HK1 (Hb1 Hby)) as (B2 & HK2 & Hby2 & _).
  split; [|split; [exact Hp1|done]]. split; [done|]. split; [|done]. by exists (snd (skip_written W q)), N.
Qed.
Lemma release_all_core q L req t : core q L [Own Drain req t] -> moved q L (ReleaseAllFailedWriteRequests q req).
Proof.
  intros [B [(W & N & HK & _ & Hf & _) _]]. unfold ReleaseAllFailedWriteRequests.
  rewrite (chain_of_known _ _ _ _ _ B HK).
  destruct (release_failed_spec _ _ _ _ _ B HK) as (B1 & HK1 & Hl1 & Hff & Hp1 & _).
  assert (failed (release_failed W q).1 = true) as Hf1 by (rewrite Hff; by apply Hf).
  split; [|split; [exact Hp1|done]]. split; [done|]. split; [|intros [E|E]; [cbn in E; congruence|done]].
  eexists [_], N. split_and!; [exact HK1|done|by right|done].
Qed.
Lemma cut_core q L req t k : core q L [Own Cut req t] ->
  moved q L (DoWrite k [req] q, Cas MStart req req) /\ moved q L (DoWrite k [req] q, Own Failing req None).
Proof.
  intros [B [(W & N & HK & Hs & _) Hby]]. specialize (Hby (or_intror eq_refl)). specialize (Hs eq_refl).
  destruct W as [|a [|? ?]]; try done.
  assert (req = a) as -> by (destruct HK as (_ & E & _); by injection E).
  destruct (DoWrite_spec _ _ _ _ _ k B HK Hby) as (B2 & HK2 & Hby2 & _).
  split; (split; [|done]); (split; [done|]); (split; [|done]); exists [a], N; split_and!; try done. by right.
Qed.

Lemma not_complete_core q L m req W N h : base q L -> known q L req W N -> List.last W 0%nat = h ->
  (m = MFail -> failed q = true) -> (failed q = false \/ keeps (Cas m req h) = true -> bytes q) ->
  core q L [not_complete m req h].
Proof.
  intros B HK Hl Hf Hby. split; [done|]. destruct m; (split; [exists W, N; split_and!; try done|]); try exact Hby.
  - intros x [= <-]. done.
  - intros _. by apply Hf.
Qed.

Lemma head_last_one (W : list nat) x : NoDup W -> head W = Some x -> List.last W 0%nat = x -> W = [x].
Proof.
  intros Hnd Eh El. destruct W as [|a [|b W]]; try done; injection Eh as <-; [done|].
  apply NoDup_cons in Hnd as [Hn _]. exfalso. apply Hn. rewrite <- El.
  change (List.last (a :: b :: W) 0%nat) with (List.last (b :: W) 0%nat). by apply List_last_in.
Qed.

Lemma cas_core q L m req t : core q L [Cas m req t] ->
  moved q L (IsWriteComplete_cas q m req t).
Proof.
  intros [B [(W & N & HK & Hl & Hs & Hf) Hby]]. pose proof HK as (El & Eh & Hc & Hp).
  pose proof (b_nodup _ _ B) as Hnd. rewrite El in Hnd.
  unfold IsWriteComplete_cas. rewrite bool_decide_true by (subst t; by apply chained_last).
  rewrite (b_head _ _ B), El. destruct (decide (N = [])) as [->|HN].
  - rewrite app_nil_r in *. rewrite (bool_decide_true (last W = _)) by (rewrite <- Hl; apply last_List; by eapply chained_ne).
    destruct (negb _ || _) eqn:Em.
    + split; [|by destruct m]. destruct m; apply (not_complete_core q L _ _ W []); done.
    + apply orb_false_iff in Em as [Ed Er]. apply negb_false_iff, bool_decide_eq_true in Ed.
      apply negb_false_iff, bool_decide_eq_true in Er. subst t.
      pose proof (head_last_one _ _ Hnd Eh (eq_sym Er)) as EW. rewrite <- Er in Ed. rewrite EW in El.
      split; [|done]. split; [apply (base_pop q L req [] None); try done|].
      { rewrite Er. rewrite (chained_last _ _ Hc). done. }
      split; [cbn; rewrite El; apply filter_head, NoDup_singleton|].
      intros Hff. apply (bytes_pop q L req []); [done|done|done|]. apply Hby. by left.
  - destruct (exists_last HN) as (A & h & ->).
    rewrite bool_decide_false.
    2:{ rewrite app_assoc, last_snoc. intros [= ->]. apply NoDup_app in Hnd as (_ & Hd & _). apply (Hd t); [|set_solver].
        rewrite <- Hl. apply List_last_in. by eapply chained_ne. }
    rewrite app_assoc, last_snoc. split; [|done]. split; [done|]. split; [|exact Hby].
    exists W, A, [], []. rewrite Hl in Hp. split_and!; try done; [cbn; by rewrite El, app_nil_r|by left].
Qed.

Lemma base_set_next q L n l : base q L -> n ∈ live q -> nexts q !! n <> Some UNCONNECTED -> base (set_next n l q) L.
Proof.
  intros B Hn Hu. destruct B as [Hnd Hdom Hdata Hpn Hpub Hh Hpre Hst]. split; cbn; try done.
  - intros x. rewrite Hdom. destruct (decide (x = n)) as [->|]; [|by rewrite lookup_insert_ne].
    rewrite lookup_insert_eq. split; [done|]. intros _. by apply Hdom.
  - intros r prev Hr. rewrite lookup_insert_ne; [by eapply Hpub|]. intros ->. by apply Hu, (Hpub _ prev).
Qed.
(** *** Reversing the published list *)

Lemma chained_insert_out nx W n l : n ∉ W -> chained nx W -> chained (<[n := l]> nx) W.
Proof. intros Hn. apply chained_frame. intros x Hx. apply lookup_insert_ne. by intros ->. Qed.
Lemma pending_insert_out q L prev N n l : n ∉ N -> pending q L prev N -> pending (set_next n l q) L prev N.
Proof. intros Hn. apply pending_frame; [|done]. intros x Hx. cbn. apply lookup_insert_ne. by intros ->. Qed.
Lemma chained_cons nx p B : p ∉ B -> B = [] \/ chained nx B -> chained (<[p := of_tail (head B)]> nx) (p :: B).
Proof.
  intros Hp HB. destruct B as [|b B]; [by apply lookup_insert_eq|].
  split; [by apply lookup_insert_eq|]. destruct HB as [|HB]; [done|]. by apply chained_insert_out.
Qed.

(** The state of the reversal: [W] linked, [A ++ [p]] to reverse, [B] reversed,
    [N] published since. *)
Record reversing q L m req o p t h W A B N : Prop := mk_rev {
  r_live : live q = W ++ (A ++ [p]) ++ B ++ N;
  r_req : head W = Some req;
  r_W : chained (nexts q) W;
  r_o : List.last W 0%nat = o;
  r_m : single m W;
  r_f : m = MFail -> failed q = true;
  r_A : pending q L o (A ++ [p]);
  r_B : B = [] \/ chained (nexts q) B;
  r_t : head B = t;
  r_h : List.last (p :: B) 0%nat = h;
  r_N : pending q L h N
}.

Lemma reverse_last q L m req o p t h W B N : base q L -> reversing q L m req o p t h W [] B N ->
  nexts q !! p <> Some UNCONNECTED ->
  let q' := set_next o (To p) (set_next p (of_tail t) q) in
  base q' L /\ known q' L req (W ++ p :: B) N /\ List.last (W ++ p :: B) 0%nat = h.
Proof.
  intros Ba [Hlv Hrq HW Ho _ _ _ HB Ht Hh HN] Hu. cbn [app] in Hlv.
  pose proof (b_nodup _ _ Ba) as Hnd. rewrite Hlv in Hnd.
  assert (W <> []) as HWn by (by eapply chained_ne).
  assert (o ∈ W) as HoW by (subst o; by apply List_last_in).
  assert (p ∉ W /\ p ∉ B /\ p ∉ N /\ o ∉ N /\ o <> p) as (HpW & HpB & HpN & HoN & Hop).
  { apply NoDup_app in Hnd as (_ & Hd & Hr). apply NoDup_cons in Hr as [Hr _]. set_solver. }
  assert (NoDup (W ++ p :: B)) as Hnd2.
  { change (W ++ p :: B ++ N) with (W ++ (p :: B) ++ N) in Hnd. rewrite app_assoc in Hnd. by apply NoDup_app in Hnd as (? & _ & _). }
  assert (List.last (W ++ p :: B) 0%nat = h) as Hlast by (by rewrite List_last_app).
  split; [|split; [|done]].
  - apply base_set_next; [apply base_set_next; [done| |done]| |].
    + rewrite Hlv. set_solver.
    + cbn. rewrite Hlv. set_solver.
    + cbn. rewrite lookup_insert_ne by done. subst o. by rewrite (chained_last _ _ HW).
  - split; [cbn; by rewrite Hlv, <- app_assoc|]. split; [by destruct W|]. split.
    + cbn. subst o t. apply chained_link; [by apply chained_insert_out|done|by apply chained_cons].
    + rewrite Hlast. by apply pending_insert_out; [|apply pending_insert_out].
Qed.
Lemma reverse_more q L m req o p t h W A s B N : base q L -> reversing q L m req o p t h W (A ++ [s]) B N ->
  nexts q !! p <> Some UNCONNECTED ->
  let q' := set_next p (of_tail t) q in
  base q' L /\ reversing q' L m req o s (Some p) h W A (p :: B) N.
Proof.
  intros Ba [Hlv Hrq HW Ho Hm Hf HA HB Ht Hh HN] Hu.
  pose proof (b_nodup _ _ Ba) as Hnd. rewrite Hlv in Hnd.
  assert (p ∉ W /\ p ∉ A ++ [s] /\ p ∉ B /\ p ∉ N) as (HpW & HpA & HpB & HpN).
  { apply NoDup_app in Hnd as (_ & Hd & Hr). apply NoDup_app in Hr as (Hr & Hd2 & _).
    apply NoDup_app in Hr as (_ & Hd3 & _). set_solver. }
  apply pending_app in HA as [HA _].
  split; [apply base_set_next; [done| |done]; rewrite Hlv; set_solver|].
  split; try done.
  - cbn. rewrite Hlv, <- !app_assoc. done.
  - by apply chained_insert_out.
  - by apply pending_insert_out.
  - right. cbn. subst t. by apply chained_cons.
  - by apply pending_insert_out.
Qed.

Lemma rev_reversing q L m req o p t h : writer_ok q L (Rev m req o p t h) <->
  exists W A B N, reversing q L m req o p t h W A B N.
Proof.
  split; intros (W & A & B & N & H); exists W, A, B, N; [destruct H as (?&?&?&?&?&?&?&?&?&?&?); by split|by destruct H].
Qed.

Lemma reverse_core q L m req o p t h : core q L [Rev m req o p t h] ->
  moved q L (IsWriteComplete_reverse q m req o p t h).
Proof.
  intros [Ba [HR Hby]]. pose proof HR as HR0. apply rev_reversing in HR as (W & A & B & N & HR).
  pose proof (r_A _ _ _ _ _ _ _ _ _ _ _ _ HR) as HA. apply pending_app in HA as [_ [Hfo _]].
  unfold IsWriteComplete_reverse. destruct Hfo as [E|[E _]]; rewrite E; [|done].
  assert (nexts q !! p <> Some UNCONNECTED) as Hu by congruence.
  destruct (decide (A = [])) as [->|HAn].
  - rewrite bool_decide_true by done. destruct (reverse_last _ _ _ _ _ _ _ _ _ _ _ Ba HR Hu) as (B' & HK & Hl).
    split; [|by destruct m]. destruct m; eapply not_complete_core; try done; exact (r_f _ _ _ _ _ _ _ _ _ _ _ _ HR).
  - destruct (exists_last HAn) as (A' & s & ->).
    replace (List.last (o :: A' ++ [s]) 0%nat) with s in * by (by rewrite (List.last_last (o :: A') s)).
    rewrite bool_decide_false.
    2:{ pose proof (b_nodup _ _ Ba) as Hnd. rewrite (r_live _ _ _ _ _ _ _ _ _ _ _ _ HR) in Hnd. intros ->.
        apply NoDup_app in Hnd as (_ & Hd & _). apply (Hd o); [|set_solver].
        rewrite <- (r_o _ _ _ _ _ _ _ _ _ _ _ _ HR). eapply List_last_in, chained_ne, HR. }
    destruct (reverse_more _ _ _ _ _ _ _ _ _ _ _ _ _ Ba HR Hu) as (B' & HR').
    split; [|done]. split; [done|]. split; [|exact Hby]. apply rev_reversing. eauto.
Qed.

(** *** A step of the writer *)

Lemma writer_ok_flags q q' L w : nexts q' = nexts q -> live q' = live q -> (failed q = true -> failed q' = true) ->
  writer_ok q L w -> writer_ok q' L w.
Proof.
  intros En El Hf. assert (forall prev N, pending q L prev N -> pending q' L prev N) as HP.
  { intros prev N. apply pending_frame; [intros; by rewrite En|done]. }
  destruct w; cbn [writer_ok]; unfold known; rewrite ?En, ?El; try done.
  - intros (N & ? & ? & ? & ?). exists N. auto.
  - intros (W & N & (? & ? & ? & ?) & ? & ? & ? & ?). exists W, N. split_and!; auto.
  - intros (W & N & (? & ? & ? & ?) & ? & ? & ?). exists W, N. split_and!; auto.
  - intros (W & A & B & N & ? & ? & ? & ? & ? & ? & ? & ? & ? & ? & ?). exists W, A, B, N. split_and!; auto.
Qed.
Lemma core_flags q q' L acts : nexts q' = nexts q -> live q' = live q -> datas q' = datas q ->
  _write_head q' = _write_head q -> written q' = written q -> offered q' = offered q ->
  (failed q = true -> failed q' = true) -> (_stop q' = true -> failed q' = true) ->
  core q L acts -> core q' L acts.
Proof.
  intros En El Ed Eh Ew Eo Hf Hs [B HO].
  assert (bytes q -> bytes q') as Hby by (unfold bytes, data_of; by rewrite Ew, Ed, El, Eo).
  assert (failed q' = false -> failed q = false) as Hf' by (destruct (failed q); [intros E; by rewrite Hf in E|done]).
  split; [destruct B; split; by rewrite ?En, ?El, ?Ed, ?Eh, ?Ew, ?Eo|].
  destruct acts as [|w [|? ?]]; [| |done]; destruct HO as [HO Hb].
  - split; [by rewrite El|auto].
  - split; [by apply (writer_ok_flags q)|]. intros [|]; auto.
Qed.

(** *** All steps *)

Lemma own_goto q L s s' req t t' : core q L [Own s req t] -> (starting s' = true -> starting s = true) ->
  s' <> Drain -> s' <> Wait -> (t' = t \/ t' = None) -> (keeps (Own s' req t') = true -> keeps (Own s req t) = true \/ failed q = false) ->
  core q L [Own s' req t'].
Proof.
  intros [B [(W & N & HK & Hs & _ & _ & Ht) Hby]] Hst Hd Hw Et Hk. split; [done|]. split.
  - exists W, N. split_and!; auto; try done. intros x Ex. apply Ht. destruct Et; congruence.
  - intros [H|H]; [by apply Hby; left|]. destruct (Hk H); apply Hby; auto.
Qed.

Lemma first_core q L r : core q L [First r] -> core (set_next r Null q) L [Own Err r None].
Proof.
  intros [B [(N & El & Eu & HL & Hp) Hby]]. pose proof (b_nodup _ _ B) as Hnd. rewrite El in Hnd. apply NoDup_cons in Hnd as [HrN _].
  split.
  - destruct B as [Hnd Hdom Hdata Hpn Hpub Hh Hpre Hst]. split; cbn; try done.
    + intros x. rewrite Hdom. destruct (decide (x = r)) as [->|]; [|by rewrite lookup_insert_ne].
      by rewrite lookup_insert_eq, Eu.
    + intros x prev Hx. rewrite lookup_insert_ne; [by eapply Hpub|]. intros ->. apply HL.
      apply list_elem_of_fmap. by exists (x, prev).
  - split; [|intros [?|?]; [apply Hby; by left|done]]. exists [r], N. split_and!; try done. split_and!; try done.
    + cbn. apply lookup_insert_eq.
    + by apply pending_insert_out.
Qed.

Lemma own_step_core q L s req t k : s <> Park -> core q L [Own s req t] -> moved q L (own_step q s req t k).
Proof.
  intros Hs HC. assert (forall s' t', core q L [Own s' req t'] -> moved q L (q, Own s' req t')) as Hm by done.
  destruct s; cbn [own_step]; try done.
  - destruct (failed q) eqn:Ef; apply Hm; eapply own_goto; try done; auto.
  - destruct (_handshake_ok q); apply Hm; eapply own_goto; try done; auto.
  - by eapply cut_core.
  - destruct (_stop q); apply Hm; eapply own_goto; try done; auto.
  - by apply KeepWrite_turn_core.
  - destruct (_stop q); [apply Hm; eapply own_goto; try done; auto|].
    destruct HC as [B [(W & N & HK & _ & _ & Hw & Ht) Hby]]. destruct (Hw eq_refl) as [x ->].
    split; [|done]. split; [done|]. split; [|exact Hby]. exists W, N. split_and!; auto; try done. by left.
  - split; [|done]. destruct HC as [B [(W & N & HK & _ & _ & _ & Ht) Hby]].
    split; [by destruct B|]. split; [|intros [?|?]; done]. exists W, N. split_and!; try done. by apply (known_shape q).
  - by eapply release_all_core.
Qed.

Lemma writer_step q L p c q' p' : writer p = Some p -> _pending_keepwrite_req q = None -> core q L [p] ->
  step_thread q p c = Some (q', p') -> core q' L (actors q' [p']) /\ pub p' = None.
Proof.
  intros Hw Hpn HC Hstep.
  assert (forall x, moved q L x -> Some x = Some (q', p') -> core q' L (actors q' [p']) /\ pub p' = None) as Hdone.
  { intros x (H1 & H2 & H3) [= ->]. unfold actors. cbn [fst snd] in *. by rewrite H2, Hpn. }
  destruct p as [| |r|s req t|m req t|m req o p t h|]; try done; destruct c as [| | | | | |k|k]; try done; cbn [step_thread] in Hstep.
  - revert Hstep. apply Hdone. by split; [apply first_core|].
  - destruct (decide (s = Park)) as [->|Hs]; [|by eapply Hdone; [apply own_step_core|]].
    injection Hstep as <- <-. split; [|done]. apply (core_flags q); try done; [apply HC|]. eapply own_goto; try done; auto.
  - destruct s; try done; revert Hstep; apply Hdone.
    + by eapply cut_core.
    + split; [|done]. eapply own_goto; try done; auto.
    + by eapply KeepWrite_error_core.
  - by eapply Hdone; [apply cas_core|].
  - by eapply Hdone; [apply reverse_core|].
Qed.

(** *** Steps of the other threads *)

Definition publish (r : nat) (d : list Z) (q : Q) : Q := fst (StartWrite q r d).

Lemma publish_state q r d : publish r d q =
  mkQ (Some r) (_pending_keepwrite_req q) (_handshake_ok q) (_stop q) (failed q)
      (<[r := UNCONNECTED]> (nexts q)) (<[r := d]> (datas q)) (live q ++ [r]) (written q) (offered q ++ d).
Proof. unfold publish, StartWrite. by destruct (_write_head q). Qed.

Lemma publish_bytes q L r d : base q L -> nexts q !! r = None -> bytes q -> bytes (publish r d q).
Proof.
  intros B Hr. rewrite publish_state. unfold bytes, data_of. cbn. intros <-.
  rewrite map_app, concat_app, <- app_assoc. f_equal. cbn [map concat]. rewrite lookup_insert_eq, app_nil_r. f_equal.
  f_equal. apply map_ext_in. intros n Hn. rewrite lookup_insert_ne; [done|]. intros <-.
  apply list_elem_of_In, (b_dom _ _ B) in Hn. rewrite Hr in Hn. by destruct Hn.
Qed.
Lemma publish_base q L r d L' : base q L -> nexts q !! r = None -> (L' = L \/ exists prev, L' = (r, prev) :: L) ->
  base (publish r d q) L'.
Proof.
  intros B Hr HL. rewrite publish_state. destruct B as [Hnd Hdom Hdata Hpn Hpub Hh [rest Hpre] Hst].
  assert (r ∉ live q) as Hrl by (rewrite Hdom, Hr; by intros [? ?]).
  assert (forall prev, (r, prev) ∉ L) as HrL by (intros prev Hin; specialize (Hpub _ _ Hin); congruence).
  split; cbn.
  - apply NoDup_app. split_and!; [done| |apply NoDup_singleton]. set_solver.
  - intros n. rewrite elem_of_app, Hdom, list_elem_of_singleton. destruct (decide (n = r)) as [->|].
    + rewrite lookup_insert_eq. naive_solver.
    + rewrite lookup_insert_ne by done. naive_solver.
  - intros n. rewrite elem_of_app, Hdata, list_elem_of_singleton. destruct (decide (n = r)) as [->|].
    + rewrite lookup_insert_eq. naive_solver.
    + rewrite lookup_insert_ne by done. naive_solver.
  - destruct HL as [->|[prev ->]]; [done|]. cbn. apply NoDup_cons. split; [|done].
    intros Hin. apply list_elem_of_fmap in Hin as ([r' x] & E & Hin). cbn in E. subst r'. by eapply HrL.
  - intros n x Hn. destruct (decide (n = r)) as [->|]; [by apply lookup_insert_eq|]. rewrite lookup_insert_ne by done.
    apply (Hpub _ x). destruct HL as [->|[prev ->]]; [done|]. set_solver.
  - by rewrite last_snoc.
  - exists (rest ++ d). by rewrite Hpre, app_assoc.
  - done.
Qed.

Lemma publish_frame q L r d x p0 N : r ∉ N -> pending q L p0 N -> pending (publish r d q) (x :: L) p0 N.
Proof.
  intros Hr. rewrite publish_state. apply pending_frame; [|set_solver]. intros n Hn. cbn. apply lookup_insert_ne. set_solver.
Qed.
Lemma publish_chained q r d W : r ∉ W -> chained (nexts q) W -> chained (nexts (publish r d q)) W.
Proof. rewrite publish_state. apply chained_insert_out. Qed.
(** The new request follows the last one, which is in the known list or after it. *)
Lemma publish_pending q L r d prev V p0 N : live q = V ++ N -> List.last V 0%nat = p0 -> V <> [] ->
  last (live q) = Some prev -> r ∉ N -> pending q L p0 N -> pending (publish r d q) ((r, prev) :: L) p0 (N ++ [r]).
Proof.
  intros El Hp0 HV Hl Hr Hp. apply pending_app. split; [by apply publish_frame|].
  split; [|done]. right. rewrite publish_state. cbn [nexts]. rewrite lookup_insert_eq. split; [done|].
  assert (List.last (p0 :: N) 0%nat = prev) as ->; [|set_solver].
  rewrite El in Hl. destruct (exists_last HV) as (V' & a & ->). rewrite List.last_last in Hp0. subst p0.
  rewrite <- app_assoc in Hl. change ([a] ++ N) with (a :: N) in Hl.
  rewrite last_app, (last_List (a :: N) 0%nat) in Hl by done. by injection Hl.
Qed.
Lemma publish_known q L r d prev req W N : r ∉ live q -> last (live q) = Some prev -> known q L req W N ->
  known (publish r d q) ((r, prev) :: L) req W (N ++ [r]).
Proof.
  intros Hr Hl (E & Eh & Hc & Hp). pose proof Hr as Hr'. rewrite E in Hr'.
  split; [rewrite publish_state; cbn; by rewrite E, app_assoc|]. split; [done|].
  split; [apply publish_chained; [set_solver|done]|].
  apply (publish_pending q L r d prev W); try done; [by eapply chained_ne|set_solver].
Qed.
Lemma publish_writer q L r d prev w : r ∉ live q -> last (live q) = Some prev ->
  writer_ok q L w -> writer_ok (publish r d q) ((r, prev) :: L) w.
Proof.
  intros Hrl Hl.
  assert (live (publish r d q) = live q ++ [r]) as El by (by rewrite publish_state).
  assert (failed (publish r d q) = failed q) as Ef by (by rewrite publish_state).
  destruct w as [| |r0|s req t|m req t|m req o p t h|]; cbn [writer_ok]; try done.
  - intros (N & E & Eu & HL & Hp). exists (N ++ [r]). rewrite El. pose proof Hrl as Hr'. rewrite E in Hr'. split_and!.
    + by rewrite E.
    + rewrite publish_state. cbn. rewrite lookup_insert_ne by set_solver. done.
    + cbn. set_solver.
    + apply (publish_pending q L r d prev [r0]); try done. set_solver.
  - intros (W & N & HK & H). exists W, (N ++ [r]). rewrite Ef. split; [by apply publish_known|done].
  - intros (W & N & HK & H). exists W, (N ++ [r]). rewrite Ef. split; [by apply publish_known|done].
  - intros (W & A & B & N & E & Eh & Hc & Ho & Hm & Hf & HA & HB & Ht & Hh & HN).
    pose proof Hrl as Hr'. rewrite E in Hr'.
    exists W, A, B, (N ++ [r]). rewrite Ef. split_and!; try done.
    + by rewrite El, E, <- !app_assoc.
    + apply publish_chained; [set_solver|done].
    + apply publish_frame; [set_solver|done].
    + destruct HB as [->|HB]; [by left|right]. apply publish_chained; [set_solver|done].
    + apply (publish_pending q L r d prev (W ++ A ++ p :: B)); try done; [| |by destruct W; destruct A|set_solver].
      * by rewrite E, <- !app_assoc.
      * rewrite app_assoc, List_last_app by done. done.
Qed.

(** The link of a published request is stored. *)
Lemma link_frame q L r prev p0 N : nexts q !! r = Some UNCONNECTED -> r ∉ (L.*1) ->
  pending q ((r, prev) :: L) p0 N -> pending (set_next r (To prev) q) L p0 N.
Proof.
  intros Hu HL. revert p0. induction N as [|n N IH]; intros p0; [done|]. intros [Hf Hp]. split; [|by apply IH].
  unfold follows in *. cbn [nexts set_next]. destruct (decide (n = r)) as [->|Hn].
  - left. rewrite lookup_insert_eq. destruct Hf as [Hf|[_ Hf]]; [congruence|].
    apply elem_of_cons in Hf as [[= ->]|Hf]; [done|]. exfalso. apply HL, list_elem_of_fmap. by exists (r, p0).
  - rewrite lookup_insert_ne by done. destruct Hf as [Hf|[Hf Hi]]; [by left|right]. split; [done|].
    apply elem_of_cons in Hi as [[= -> ->]|Hi]; done.
Qed.
Lemma link_chained q r l W : nexts q !! r = Some UNCONNECTED -> chained (nexts q) W -> chained (nexts (set_next r l q)) W.
Proof. intros Hu Hc. apply chained_insert_out; [|done]. intros Hr. by apply (chained_connected _ _ _ Hc Hr). Qed.
Lemma link_core q L r prev acts : core q ((r, prev) :: L) acts -> core (set_next r (To prev) q) L acts.
Proof.
  intros [B HO]. assert (nexts q !! r = Some UNCONNECTED) as Hu by (eapply (b_pub _ _ B); by left).
  pose proof (b_pubs _ _ B) as HL. apply NoDup_cons in HL as [HL HLn].
  split.
  - destruct B as [Hnd Hdom Hdata _ Hpub Hh Hpre Hst]. split; cbn; try done.
    + intros x. rewrite Hdom. destruct (decide (x = r)) as [->|]; [|by rewrite lookup_insert_ne].
      by rewrite lookup_insert_eq, Hu.
    + intros x y Hx. rewrite lookup_insert_ne; [eapply Hpub; by right|]. intros ->. apply HL, list_elem_of_fmap. by exists (x, y).
  - destruct acts as [|w [|? ?]]; [done| |done]. destruct HO as [HO Hby]. split; [|exact Hby].
    destruct w as [| |r0|s req t|m req t|m req o p t h|]; cbn [writer_ok] in *; try done.
    + destruct HO as (N & E & Eu & Hr & Hp). exists N. cbn in Hr. apply not_elem_of_cons in Hr as [Hne Hr].
      split_and!; [done| |done|by apply link_frame]. cbn. by rewrite lookup_insert_ne.
    + destruct HO as (W & N & (E & Eh & Hc & Hp) & H). exists W, N.
      split; [|done]. split_and!; [done|done|by apply link_chained|by apply link_frame].
    + destruct HO as (W & N & (E & Eh & Hc & Hp) & H). exists W, N.
      split; [|done]. split_and!; [done|done|by apply link_chained|by apply link_frame].
    + destruct HO as (W & A & B' & N & E & Eh & Hc & Ho & Hm & Hf & HA & HB & Ht & Hh & HN).
      exists W, A, B', N. split_and!; try done; [by apply link_chained|by apply link_frame| |by apply link_frame].
      destruct HB as [->|HB]; [by left|right]. by apply link_chained.
Qed.

(** *** Preservation *)

Lemma writer_live q L w : writer_ok q L w -> live q <> [].
Proof.
  destruct w; cbn; try done.
  - by intros (N & -> & _).
  - intros (W & N & (-> & E & _) & _). by destruct W.
  - intros (W & N & (-> & E & _) & _). by destruct W.
  - intros (W & A & B & N & -> & E & _). by destruct W.
Qed.
Lemma publish_core q L acts r d : core q L acts -> nexts q !! r = None ->
  let x := StartWrite q r d in
  core (fst x) (option_list (pub (snd x)) ++ L) (acts ++ omap writer [snd x]).
Proof.
  intros [B HO] Hr x. change (fst x) with (publish r d q). subst x.
  assert (r ∉ live q) as Hrl by (rewrite (b_dom _ _ B), Hr; by intros [? ?]).
  pose proof (b_head _ _ B) as Hh. unfold StartWrite. destruct (_write_head q) as [prev|]; cbn [snd fst pub option_list omap].
  - destruct acts as [|w [|? ?]]; [destruct HO as [E _]; by rewrite E in Hh| |done]. cbn. destruct HO as [HO Hby].
    split; [apply (publish_base q L); eauto|].
    split; [by apply publish_writer|]. rewrite publish_state at 1. cbn. intros H. apply (publish_bytes q L); auto.
  - symmetry in Hh. apply last_None in Hh.
    destruct acts as [|w [|? ?]]; [|destruct HO as [HO _]; by apply writer_live in HO|done].
    split; [apply (publish_base q L); auto|]. destruct HO as [El Hby]. cbn. split.
    + exists []. rewrite publish_state. cbn. rewrite El, lookup_insert_eq. split_and!; try done.
      intros Hin. apply list_elem_of_fmap in Hin as ([x y] & -> & Hin). apply (b_pub _ _ B) in Hin. cbn in Hr. congruence.
    + intros [H|H]; [|done]. apply (publish_bytes q L); [done|done|]. apply Hby. by rewrite publish_state in H.
Qed.

Lemma writer_ok_sub q L L' w : (forall x, x ∈ L <-> x ∈ L') -> writer_ok q L w -> writer_ok q L' w.
Proof.
  intros HL. assert (forall p0 N, pending q L p0 N -> pending q L' p0 N) as HP.
  { intros p0 N. apply pending_frame; [done|]. intros n x _. apply HL. }
  destruct w as [| |r0|s req t|m req t|m req o p t h|]; cbn [writer_ok]; try done.
  - intros (N & E & Eu & Hr & Hp). exists N. split_and!; auto. intros Hin. apply Hr.
    apply list_elem_of_fmap in Hin as (x & -> & Hin). apply list_elem_of_fmap. exists x. split; [done|]. by apply HL.
  - intros (W & N & (E & Eh & Hc & Hp) & H). exists W, N. split; [|done]. split_and!; auto.
  - intros (W & N & (E & Eh & Hc & Hp) & H). exists W, N. split; [|done]. split_and!; auto.
  - intros (W & A & B' & N & E & Eh & Hc & Ho & Hm & Hf & HA & HB & Ht & Hh & HN). exists W, A, B', N. split_and!; auto.
Qed.
Lemma core_perm q L L' acts acts' : L ≡ₚ L' -> acts ≡ₚ acts' -> core q L acts -> core q L' acts'.
Proof.
  intros HL HA [B HO]. assert (forall x, x ∈ L <-> x ∈ L') as Hx by (intros; by rewrite HL).
  split.
  - destruct B as [H1 H2 H3 Hpn Hpub H4 H5 H6]. split; try done.
    + by rewrite <- HL.
    + intros r prev Hr. eapply Hpub, Hx, Hr.
  - destruct acts as [|w [|? ?]]; [|destruct HO as [HO Hby]|done].
    + by apply Permutation_nil in HA as ->.
    + apply Permutation_singleton_l in HA as <-. split; [by apply (writer_ok_sub q L)|done].
Qed.
(** The invariant with one thread in front. *)
Lemma inv_mid q l1 p l2 : inv q (l1 ++ p :: l2) <->
  core q (option_list (pub p) ++ pubs (l1 ++ l2)) (actors q [p] ++ omap writer (l1 ++ l2)).
Proof.
  assert (pubs (l1 ++ p :: l2) ≡ₚ option_list (pub p) ++ pubs (l1 ++ l2)) as E1.
  { unfold pubs. rewrite !omap_app. cbn. destruct (pub p); cbn; [|done]. by rewrite Permutation_middle. }
  assert (actors q (l1 ++ p :: l2) ≡ₚ actors q [p] ++ omap writer (l1 ++ l2)) as E2.
  { unfold actors. rewrite <- app_assoc. apply Permutation_app_head. rewrite !omap_app. cbn.
    destruct (writer p); cbn; [|done]. by rewrite Permutation_middle. }
  unfold inv. split; by apply core_perm.
Qed.

(** A step of a thread that does not own the write right. *)
Lemma other_step q L R p c q' p' : p = Idle \/ (exists r prev, p = Link r prev) ->
  core q (option_list (pub p) ++ L) (actors q [p] ++ R) -> step_thread q p c = Some (q', p') ->
  core q' (option_list (pub p') ++ L) (actors q' [p'] ++ R).
Proof.
  intros [->|(r & prev & ->)] HC; destruct c as [r' d| | | | | |k|k]; cbn [step_thread]; try done.
  - destruct (nexts q !! r') eqn:Hr; [done|]. intros [= E]. pose proof (publish_core _ _ _ r' d HC Hr) as HC'.
    assert (_pending_keepwrite_req q' = _pending_keepwrite_req q) as Ep.
    { change q' with (q', p').1. rewrite <- E. change (_pending_keepwrite_req (publish r' d q) = _pending_keepwrite_req q).
      by rewrite publish_state. }
    rewrite E in HC'. cbn [fst snd pub option_list app] in HC'. eapply core_perm; [| |exact HC']; [done|].
    unfold actors. rewrite Ep. cbn [omap list_omap writer]. rewrite app_nil_r, <- !app_assoc. apply Permutation_app_head.
    apply Permutation_app_comm.
  - intros [= <- <-]. apply (core_flags q); try done; apply HC.
  - intros [= <- <-]. unfold actors in *. cbn in HC |- *. destruct (_pending_keepwrite_req q) as [r|]; cbn in HC |- *;
      (apply (core_flags q); try done; apply HC).
  - intros [= <- <-]. unfold actors in *. cbn in HC |- *. destruct (_pending_keepwrite_req q) as [r|]; cbn in HC |- *.
    + destruct R as [|? ?]; [|by destruct HC as [_ ?]]. apply (core_flags q); try done; [apply HC|]. eapply own_goto; try done; auto.
    + apply (core_flags q); try done; apply HC.
  - intros [= <- <-]. by apply (core_flags q).
  - destruct (failed q) eqn:Ef; [|done]. intros [= <- <-]. by apply (core_flags q).
  - intros [= <- <-]. by apply link_core in HC.
Qed.

Lemma inv_step q ps q' ps' : inv q ps -> step (q, ps) (q', ps') -> inv q' ps'.
Proof.
  intros HI Hs. inversion Hs as [? ? l1 p p' l2 c Hstep]; subst. apply inv_mid in HI. apply inv_mid.
  destruct (writer p) as [w|] eqn:Ew.
  - assert (w = p /\ pub p = None) as [-> Ep] by (by destruct p; try done; injection Ew).
    unfold actors in HI. cbn [omap list_omap] in HI. rewrite Ew, Ep in HI.
    destruct (_pending_keepwrite_req q) as [r|] eqn:Epd; [by destruct HI as [_ ?]|].
    destruct (omap writer (l1 ++ l2)) as [|? ?] eqn:Ew2; [|by destruct HI as [_ ?]]. cbn in HI.
    destruct (writer_step _ _ _ _ _ _ Ew Epd HI Hstep) as [HC' ->]. rewrite app_nil_r. exact HC'.
  - eapply other_step; [|exact HI|exact Hstep]. destruct p; try done; [by left|right; eauto].
Qed.

Lemma wq_inv_start n : inv new_Q (replicate n Idle).
Proof.
  assert (pubs (replicate n Idle) = []) as E1 by (by induction n as [|n IH]; [|exact IH]).
  assert (omap writer (replicate n Idle) = []) as E2 by (clear; by induction n as [|n IH]; [|exact IH]).
  unfold inv, actors. rewrite E1, E2. split; [|by split]. split; cbn; try done; try apply NoDup_nil_2; try (by intros ? ? ?%elem_of_nil).
  - intros x. split; [set_solver|by intros [? ?]].
  - intros x. split; [set_solver|by intros [? ?]].
  - by exists [].
Qed.

(** The states of [n] threads over a new endpoint. *)
Definition reachable (n : nat) (x : Q * list PC) : Prop := rtc step (new_Q, replicate n Idle) x.
Lemma reachable_inv n q ps : reachable n (q, ps) -> inv q ps.
Proof.
  intros H. remember (q, ps) as x eqn:E. assert (inv x.1 x.2) as HI; [|by subst x].
  clear E. unfold reachable in H. apply (rtc_ind_r (R := step) (fun x => inv x.1 x.2) (new_Q, replicate n Idle)); [apply wq_inv_start| |exact H].
  intros [q1 ps1] [q2 ps2] _ Hs HI. by eapply inv_step.
Qed.

(** ** Theorems *)

Lemma actor_writer_ok q ps p : inv q ps -> p ∈ ps -> writer p = Some p -> actors q ps = [p] /\ writer_ok q (pubs ps) p.
Proof.
  intros [_ HO] Hp Hw. assert (p ∈ actors q ps) as Hin.
  { unfold actors. apply elem_of_app. right. apply list_elem_of_omap. by exists p. }
  destruct (actors q ps) as [|w [|? ?]]; [by apply elem_of_nil in Hin| |done].
  apply list_elem_of_singleton in Hin as ->. by destruct HO.
Qed.
Lemma elem_of_pubs r prev ps : (r, prev) ∈ pubs ps -> Link r prev ∈ ps.
Proof. unfold pubs. rewrite list_elem_of_omap. intros (p & Hp & E). destruct p; try done. by injection E as -> ->. Qed.

(** The scheduler as a function, for concrete runs. *)
Fixpoint run (sched : list (nat * choice)) (x : Q * list PC) : option (Q * list PC) :=
  match sched with
  | [] => Some x
  | (i, c) :: sched' =>
      match snd x !! i with
      | Some p => match step_thread (fst x) p c with Some (q', p') => run sched' (q', <[i := p']> (snd x)) | None => None end
      | None => None
      end
  end.
Lemma run_steps sched x y : run sched x = Some y -> rtc step x y.
Proof.
  revert x. induction sched as [|[i c] sched IH]; intros [q ps]; cbn; [by intros [= ->]|].
  destruct (ps !! i) as [p|] eqn:Ei; [|done]. destruct (step_thread q p c) as [[q' p']|] eqn:Es; [|done].
  intros H. eapply rtc_l; [|by apply IH]. apply list_elem_of_split_length in Ei as (l1 & l2 & -> & ->).
  rewrite insert_app_r_alt, Nat.sub_diag by lia. cbn. by eapply thread_step.
Qed.

(** C30: However the threads interleave, no [CHECK] of the write queue fails and
    no request is used before it is linked or after it is returned to the pool,
    at most one activity (a thread or the parked request) owns the write right,
    and a writer that waits for a request to be linked waits for a thread that
    is about to link it. *)
Theorem write_queue_safe n q ps : reachable n (q, ps) ->
  Fatal ∉ ps /\ (length (actors q ps) <= 1)%nat /\
  (forall m req o p t h, Rev m req o p t h ∈ ps -> nexts q !! p = Some UNCONNECTED -> exists prev, Link p prev ∈ ps).
Proof.
  intros HR. apply reachable_inv in HR. split_and!.
  - intros HF. by destruct (actor_writer_ok _ _ _ HR HF) as [_ ?].
  - destruct HR as [_ HO]. destruct (actors q ps) as [|? [|? ?]]; cbn; try done; lia.
  - intros m req o p t h Hin Hu. destruct (actor_writer_ok _ _ _ HR Hin eq_refl) as [_ Hok].
    apply rev_reversing in Hok as (W & A & B & N & HV). pose proof (r_A _ _ _ _ _ _ _ _ _ _ _ _ HV) as HA.
    apply pending_app in HA as [_ [[E|[_ E]] _]]; [congruence|]. eexists. by apply elem_of_pubs.
Qed.

(** C2: The bytes handed to the transport are, at any time and in any
    interleaving, a prefix of the bytes of all requests in the order in which
    they were published; while the endpoint has not failed, the requests in the
    queue hold exactly the rest. *)
Theorem write_queue_fifo n q ps : reachable n (q, ps) ->
  (exists rest, offered q = written q ++ rest) /\
  (failed q = false -> written q ++ concat (map (data_of q) (live q)) = offered q).
Proof.
  intros HR. apply reachable_inv in HR as [B HO]. split; [apply B|]. intros Hf.
  destruct (actors q ps) as [|? [|? ?]]; [|destruct HO as [_ HO]; apply HO; by left|done]. by apply HO.
Qed.

(** C31: When every thread has returned and no request is parked, the queue is
    empty ([_write_head] is null, as [BeforeRecycled] checks), every request has
    been returned to the pool, also after a failure, and if the endpoint has
    not failed every published byte has been handed to the transport. *)
Theorem write_queue_quiescent n q ps : reachable n (q, ps) -> Forall (eq Idle) ps -> _pending_keepwrite_req q = None ->
  _write_head q = None /\ nexts q = ∅ /\ datas q = ∅ /\ (failed q = false -> written q = offered q).
Proof.
  intros HR Hid Hp. apply reachable_inv in HR as [B HO]. unfold actors in HO. rewrite Hp in HO.
  assert (omap writer ps = []) as E by (clear -Hid; by induction Hid as [|x l <- Hl IH]; [|exact IH]).
  rewrite E in HO. destruct HO as [El Hby]. split_and!.
  - by rewrite (b_head _ _ B), El.
  - apply map_empty. intros n'. apply eq_None_not_Some. rewrite <- (b_dom _ _ B), El. apply not_elem_of_nil.
  - apply map_empty. intros n'. apply eq_None_not_Some. rewrite <- (b_data _ _ B), El. apply not_elem_of_nil.
  - intros Hf. specialize (Hby Hf). unfold bytes in Hby. rewrite El in Hby. cbn in Hby. by rewrite app_nil_r in Hby.
Qed.

(** Two threads: the first parks its request, the handshake thread resumes it,
    the second publishes while it is being written. *)
Definition demo_sched : list (nat * choice) :=
  [(0%nat, DoStartWrite 7 [1; 2; 3]); (0%nat, Go 0); (0%nat, Go 0); (0%nat, Go 0); (0%nat, Go 0);
   (0%nat, HandshakeDone); (0%nat, HandshakeResume); (1%nat, DoStartWrite 8 [4]); (0%nat, Go 0); (0%nat, Go 2); (0%nat, Go 0)].
Definition demo_finish : list (nat * choice) :=
  [(1%nat, Go 0); (0%nat, Go 0); (0%nat, Go 0); (0%nat, Go 2); (0%nat, Go 0)].

Lemma write_queue_safe_witness : exists q, run demo_sched (new_Q, [Idle; Idle]) = Some (q, [Rev MKeep 7 7 8 None 8; Link 8 7]) /\
  exists prev, Link 8 prev ∈ [Rev MKeep 7 7 8 None 8; Link 8 7].
Proof.
  eexists. split; [vm_compute; reflexivity|].
  eapply (write_queue_safe 2 _ [Rev MKeep 7 7 8 None 8; Link 8 7]); [eapply (run_steps demo_sched); vm_compute; reflexivity|by left|vm_compute; reflexivity].
Defined.

Lemma write_queue_fifo_witness : exists q ps, run demo_sched (new_Q, [Idle; Idle]) = Some (q, ps) /\ written q = [1; 2] /\
  exists rest, offered q = written q ++ rest.
Proof.
  eexists _, _. split; [vm_compute; reflexivity|]. split; [vm_compute; reflexivity|].
  eapply (write_queue_fifo 2). eapply (run_steps demo_sched). vm_compute. reflexivity.
Defined.

Lemma write_queue_quiescent_witness : exists q, run (demo_sched ++ demo_finish) (new_Q, [Idle; Idle]) = Some (q, [Idle; Idle]) /\
  offered q = [1; 2; 3; 4] /\ _write_head q = None.
Proof.
  eexists. split; [vm_compute; reflexivity|]. split; [vm_compute; reflexivity|].
  eapply (write_queue_quiescent 2 _ [Idle; Idle]); [eapply (run_steps (demo_sched ++ demo_finish)); vm_compute; reflexivity|by repeat constructor|vm_compute; reflexivity].
Defined.

End WQ.
