(* ===== verification/WorkStealing.v ===== *)
(** * The work-stealing queue

    [WorkStealingQueue] of [src-bthread/work_stealing_queue.h]: the run queue of
    a worker.  Its owner pushes and pops at the bottom while any number of
    thieves steal at the top.  Every access of [_bottom], [_top] and [_buffer]
    is a step of its own, and the steps of all threads interleave in any order
    (as the fences of [pop] and [steal] make them do). *)
From S2P Require Import Prelude.
Local Open Scope Z_scope.

Module WSQ.

(** ** State *)

Record WorkStealingQueue := mkWSQ { _bottom : Z; _capacity : Z; _buffer : list Z; _top : Z }.

Definition new_WSQ : WorkStealingQueue := mkWSQ 1 0 [] 1.

(** [init]; [mem] is whether [new] returns memory. *)
Definition init (q : WorkStealingQueue) (capacity : Z) (mem : bool) : WorkStealingQueue * Z :=
  if negb (_capacity q =? 0) then (q, -1)
  else if capacity =? 0 then (q, -1)
  else if negb (Z.land capacity (u64 (capacity - 1)) =? 0) then (q, -1)
  else if negb mem then (q, -1)
  else (mkWSQ (_bottom q) capacity (replicate (Z.to_nat capacity) 0) (_top q), 0).

Definition set_bottom b q := mkWSQ b (_capacity q) (_buffer q) (_top q).
Definition set_top t q := mkWSQ (_bottom q) (_capacity q) (_buffer q) t.

Definition slot (q : WorkStealingQueue) (i : Z) : nat := Z.to_nat (Z.land i (u64 (_capacity q - 1))).
(** An access of the buffer; [None] is out of range. *)
Definition load (q : WorkStealingQueue) (i : Z) : option Z := _buffer q !! slot q i.
Definition store (q : WorkStealingQueue) (i x : Z) : option WorkStealingQueue :=
  if decide (slot q i < length (_buffer q))%nat
  then Some (mkWSQ (_bottom q) (_capacity q) (<[slot q i := x]> (_buffer q)) (_top q)) else None.

(** ** Threads *)

(** What a call has done to the queue, at the step where it does it. *)
Inductive event :=
| Silent
| Pushed (x : Z) | PushFull
| Popped (x : Z) | PopEmpty
| Stolen (x : Z) | StealMiss.

Inductive owner :=
| OIdle
| PushWrite (b x : Z)
| PushStore (b x : Z)
| PopStore (b : Z)
| PopTop (b : Z)
| PopCas (b t v : Z)
| PopRestore (b : Z)
| OFatal.

Inductive call := CPush (x : Z) | CPop.

Definition owner_step (q : WorkStealingQueue) (o : owner) (c : call) : WorkStealingQueue * owner * event :=
  match o with
  | OIdle =>
      let b := _bottom q in
      let t := _top q in
      match c with
      | CPush x => if u64 (t + _capacity q) <=? b then (q, OIdle, PushFull) else (q, PushWrite b x, Silent)
      | CPop => if b <=? t then (q, OIdle, PopEmpty) else (q, PopStore b, Silent)
      end
  | PushWrite b x => match store q b x with Some q' => (q', PushStore b x, Silent) | None => (q, OFatal, Silent) end
  | PushStore b x => (set_bottom (u64 (b + 1)) q, OIdle, Pushed x)
  | PopStore b => (set_bottom (u64 (b - 1)) q, PopTop b, Silent)
  | PopTop b =>
      let newb := u64 (b - 1) in
      let t := _top q in
      if newb <? t then (q, PopRestore b, PopEmpty)
      else match load q newb with
           | None => (q, OFatal, Silent)
           | Some v => if negb (t =? newb) then (q, OIdle, Popped v) else (q, PopCas b t v, Silent)
           end
  | PopCas b t v =>
      if _top q =? t then (set_top (u64 (t + 1)) q, PopRestore b, Popped v) else (q, PopRestore b, PopEmpty)
  | PopRestore b => (set_bottom b q, OIdle, Silent)
  | OFatal => (q, OFatal, Silent)
  end.

Inductive thief :=
| TIdle
| TFirst (t : Z)
| TLoop (t : Z)
| TRead (t : Z)
| TCas (t v : Z)
| TFatal.

Definition steal_step (q : WorkStealingQueue) (p : thief) : WorkStealingQueue * thief * event :=
  match p with
  | TIdle => (q, TFirst (_top q), Silent)
  | TFirst t => if _bottom q <=? t then (q, TIdle, StealMiss) else (q, TLoop t, Silent)
  | TLoop t => if _bottom q <=? t then (q, TIdle, StealMiss) else (q, TRead t, Silent)
  | TRead t => match load q t with Some v => (q, TCas t v, Silent) | None => (q, TFatal, Silent) end
  | TCas t v => if _top q =? t then (set_top (u64 (t + 1)) q, TIdle, Stolen v) else (q, TLoop (_top q), Silent)
  | TFatal => (q, TFatal, Silent)
  end.

(** The counters never come near 2^64 (one push per nanosecond would take five
    centuries). *)
Definition fits (q : WorkStealingQueue) : Prop := _bottom q + _capacity q + 1 < 2 ^ 64.

Definition state : Type := WorkStealingQueue * owner * list thief.
Inductive step : state -> event -> state -> Prop :=
| step_owner q o ts c q' o' e : fits q -> owner_step q o c = (q', o', e) -> step (q, o, ts) e (q', o', ts)
| step_thief q o l1 p l2 q' p' e : fits q -> steal_step q p = (q', p', e) ->
    step (q, o, l1 ++ p :: l2) e (q', o, l1 ++ p' :: l2).
Inductive runs : state -> list event -> state -> Prop :=
| runs_nil s : runs s [] s
| runs_snoc s es s' e s'' : runs s es s' -> step s' e s'' -> runs s (es ++ [e]) s''.

(** [volatile_size] and [capacity]. *)
Definition volatile_size (q : WorkStealingQueue) : Z :=
  if _bottom q <=? _top q then 0 else u64 (_bottom q - _top q).

(** ** Specification: a double-ended queue *)

Definition spec_step (cap : Z) (d : list Z) (e : event) : option (list Z) :=
  match e with
  | Silent => Some d
  | Pushed x => if zlen d <? cap then Some (d ++ [x]) else None
  | PushFull => if zlen d =? cap then Some d else None
  | Popped x => if bool_decide (last d = Some x) then Some (removelast d) else None
  | PopEmpty => match d with [] => Some [] | _ => None end
  | Stolen x => match d with y :: d' => if x =? y then Some d' else None | [] => None end
  | StealMiss => if zlen d <=? 1 then Some d else None
  end.
Fixpoint spec_run (cap : Z) (d : list Z) (es : list event) : option (list Z) :=
  match es with
  | [] => Some d
  | e :: es' => match spec_step cap d e with Some d' => spec_run cap d' es' | None => None end
  end.

(** ** The invariant *)

(** The end of the stored items: an owner that has lowered [_bottom] and not
    yet decided still has the item above it. *)
Definition limit (q : WorkStealingQueue) (o : owner) : Z :=
  match o with PopTop b | PopCas b _ _ | PopRestore b => b | _ => _bottom q end.
Definition items (q : WorkStealingQueue) (t e : Z) : list Z :=
  map (fun i => default 0 (load q i)) (seqZ t (e - t)).
Definition contents (s : state) : list Z := items (fst (fst s)) (_top (fst (fst s))) (limit (fst (fst s)) (snd (fst s))).

Definition owner_ok (q : WorkStealingQueue) (o : owner) : Prop :=
  let T := _top q in let B := _bottom q in let C := _capacity q in
  match o with
  | OIdle => T <= B <= T + C
  | PushWrite b x => b = B /\ T <= B < T + C
  | PushStore b x => b = B /\ T <= B < T + C /\ load q b = Some x
  | PopStore b => b = B /\ T <= B <= T + C
  | PopTop b => B = b - 1 /\ T <= b <= T + C
  | PopCas b t v => B = b - 1 /\ t = b - 1 /\ ((T = t /\ load q t = Some v) \/ T = b)
  | PopRestore b => B = b - 1 /\ T = b
  | OFatal => False
  end.
Definition thief_ok (q : WorkStealingQueue) (o : owner) (p : thief) : Prop :=
  match p with
  | TIdle => True
  | TFirst t | TLoop t => 1 <= t <= _top q
  | TRead t => 1 <= t <= _top q /\ (t = _top q -> t < limit q o)
  | TCas t v => 1 <= t <= _top q /\ (t = _top q -> t < limit q o /\ load q t = Some v)
  | TFatal => False
  end.
Record sized (q : WorkStealingQueue) (k : Z) : Prop := mk_sized {
  z_k : 0 <= k;
  z_cap : _capacity q = 2 ^ k;
  z_buf : zlen (_buffer q) = _capacity q;
  z_top : 1 <= _top q
}.
Record inv (k : Z) (s : state) : Prop := mk_inv {
  i_sized : sized (fst (fst s)) k;
  i_owner : owner_ok (fst (fst s)) (snd (fst s));
  i_thieves : Forall (thief_ok (fst (fst s)) (snd (fst s))) (snd s)
}.

(** ** The ring *)

Lemma slot_mod q k i : sized q k -> _capacity q < 2 ^ 64 -> Z.of_nat (slot q i) = i mod _capacity q.
Proof.
  intros [Hk Hc _ _] H. unfold slot. rewrite u64_small by (unfold is_u64; lia).
  rewrite Hc, land_mask by done. rewrite Z2Nat.id; [done|]. apply Z.mod_pos_bound. lia.
Qed.
Lemma load_some q k i : sized q k -> _capacity q < 2 ^ 64 -> is_Some (load q i).
Proof.
  intros S H. apply lookup_lt_is_Some. pose proof (slot_mod q k i S H) as E. destruct S as [Hk Hc Hb _].
  unfold zlen in Hb. pose proof (Z.mod_pos_bound i (_capacity q)). lia.
Qed.
Lemma store_some q k i x : sized q k -> _capacity q < 2 ^ 64 -> exists q', store q i x = Some q' /\
  sized q' k /\ _top q' = _top q /\ _bottom q' = _bottom q /\ _capacity q' = _capacity q /\ load q' i = Some x /\
  (forall j, 0 < Z.abs (j - i) < _capacity q -> load q' j = load q j).
Proof.
  intros S H. pose proof (load_some q k i S H) as Hl. apply lookup_lt_is_Some in Hl.
  unfold store. rewrite decide_True by done. eexists. split; [done|].
  assert (forall j, slot (mkWSQ (_bottom q) (_capacity q) (<[slot q i := x]> (_buffer q)) (_top q)) j = slot q j) as Es by done.
  split_and!; try done.
  - destruct S as [Hk Hc Hb Ht]. split; try done. cbn. unfold zlen in *. by rewrite length_insert.
  - unfold load. rewrite Es. cbn. by apply list_lookup_insert_eq.
  - intros j Hj. unfold load. rewrite Es. cbn. apply list_lookup_insert_ne. intros E.
    apply (f_equal Z.of_nat) in E. rewrite !(slot_mod q k _ S H) in E.
    assert (0 < _capacity q) by lia.
    destruct (Z.le_gt_cases i j).
    + assert (0 = j - i); [|lia]. apply (ring_inj i _ _ (_capacity q)); try lia.
      replace (i + (j - i)) with j by lia. by rewrite Z.add_0_r.
    + assert (0 = i - j); [|lia]. apply (ring_inj j _ _ (_capacity q)); try lia.
      replace (j + (i - j)) with i by lia. by rewrite Z.add_0_r.
Qed.

(** ** Items *)

Lemma items_nil q t e : e <= t -> items q t e = [].
Proof. intros H. unfold items. replace (seqZ t (e - t)) with (@nil Z); [done|]. by rewrite seqZ_nil by lia. Qed.
Lemma items_snoc q t e : t <= e -> items q t (e + 1) = items q t e ++ [default 0 (load q e)].
Proof.
  intros H. unfold items. replace (e + 1 - t) with (e - t + 1) by lia. rewrite seqZ_app, map_app by lia.
  replace (t + (e - t)) with e by lia. done.
Qed.
Lemma items_cons q t e : t < e -> items q t e = default 0 (load q t) :: items q (t + 1) e.
Proof.
  intros H. unfold items. rewrite seqZ_cons by lia. cbn [map]. f_equal. f_equal. f_equal; lia.
Qed.
Lemma zlen_items q t e : t <= e -> zlen (items q t e) = e - t.
Proof. intros H. unfold zlen, items. rewrite length_map, length_seqZ. lia. Qed.
Lemma items_frame q q' t e : (forall i, t <= i < e -> load q' i = load q i) -> items q' t e = items q t e.
Proof.
  intros H. unfold items. apply map_ext_in. intros i Hi. apply list_elem_of_In, elem_of_seqZ in Hi. rewrite H; [done|lia].
Qed.

(** ** Preservation *)

(** What a thief relies on is not touched by a step that only moves [_top] up
    and keeps the item at the top while there is one. *)
Lemma thief_frame q o q' o' p : thief_ok q o p -> _top q <= _top q' ->
  (_top q' = _top q -> _top q < limit q o -> _top q < limit q' o' /\ load q' (_top q) = load q (_top q)) ->
  thief_ok q' o' p.
Proof.
  destruct p as [|t|t|t|t v|]; cbn; try done; [lia|lia| |].
  - intros [Ht Hl] Hle Hf. split; [lia|]. intros ->. assert (_top q' = _top q) as E by lia.
    rewrite E in *. apply Hf; auto.
  - intros [Ht Hl] Hle Hf. split; [lia|]. intros ->. assert (_top q' = _top q) as E by lia.
    rewrite E in *. destruct (Hl eq_refl) as [Hlt Hv]. destruct (Hf eq_refl Hlt) as [? ->]. done.
Qed.
Lemma thieves_frame q o q' o' ts : Forall (thief_ok q o) ts -> _top q <= _top q' ->
  (_top q' = _top q -> _top q < limit q o -> _top q < limit q' o' /\ load q' (_top q) = load q (_top q)) ->
  Forall (thief_ok q' o') ts.
Proof. intros H Hle Hf. eapply Forall_impl; [exact H|]. intros p Hp. by eapply thief_frame. Qed.

Lemma cap_pos q k : sized q k -> 1 <= _capacity q.
Proof. intros [Hk -> _ _]. assert (0 < 2 ^ k) by (by apply Z.pow_pos_nonneg). lia. Qed.

(** A step takes the double-ended queue of the contents along. *)
Definition simulates (k cap : Z) (s : state) (e : event) (s' : state) : Prop :=
  inv k s' /\ _capacity (fst (fst s')) = cap /\ spec_step cap (contents s) e = Some (contents s').

Lemma same_queue k q o o' ts : inv k (q, o, ts) -> owner_ok q o' -> limit q o' = limit q o ->
  simulates k (_capacity q) (q, o, ts) Silent (q, o', ts).
Proof.
  intros [Hz Ho Ht] Ho' El. split_and!; try done.
  - split; [done|done|]. apply (thieves_frame q o q o'); [done|cbn; lia|]. by rewrite El.
  - cbn. unfold contents. cbn. by rewrite El.
Qed.

Lemma push_steps k q o ts c q' o' e : inv k (q, o, ts) -> fits q -> owner_step q o c = (q', o', e) ->
  (match o with OIdle => exists x, c = CPush x | PushWrite _ _ | PushStore _ _ => True | _ => False end) ->
  simulates k (_capacity q) (q, o, ts) e (q', o', ts).
Proof.
  intros HI HF Hs Ho. pose proof HI as [Hz Hok Hth]. cbn [fst snd] in *. pose proof (cap_pos _ _ Hz) as Hc. unfold fits in HF.
  pose proof (z_top _ _ Hz) as H1.
  destruct o as [|b x|b x|b|b|b t v|b|]; try done.
  - destruct Ho as [x ->]. cbn in Hs, Hok. rewrite u64_small in Hs by (unfold is_u64; lia).
    destruct (Z.leb_spec (_top q + _capacity q) (_bottom q)); injection Hs as <- <- <-.
    + split_and!; try done. cbn. unfold contents. cbn. rewrite zlen_items by lia.
      by rewrite (proj2 (Z.eqb_eq _ _)) by lia.
    + apply same_queue; [done|cbn; lia|done].
  - cbn in Hs, Hok. destruct Hok as [-> Hr].
    destruct (store_some q k (_bottom q) x Hz) as (q1 & E & Hz1 & Et & Eb & Ec & El & Hfr); [lia|].
    rewrite E in Hs. injection Hs as <- <- <-.
    assert (items q1 (_top q) (_bottom q) = items q (_top q) (_bottom q)) as Ei.
    { apply items_frame. intros i Hi. apply Hfr. lia. }
    split_and!; try done.
    + split; [done|cbn; rewrite Et, Eb, Ec; split_and!; done || lia|]. cbn.
      apply (thieves_frame q (PushWrite (_bottom q) x)); [done|lia|]. cbn. intros _ Hlt. rewrite Eb. split; [done|].
      apply Hfr. lia.
    + cbn. unfold contents. cbn. by rewrite Et, Eb, Ei.
  - cbn in Hs, Hok. destruct Hok as (-> & Hr & Hl). injection Hs as <- <- <-. rewrite u64_small by (unfold is_u64; lia).
    assert (forall i, load (set_bottom (_bottom q + 1) q) i = load q i) as El by done.
    split_and!; try done.
    + split; [by destruct Hz|cbn; lia|]. cbn.
      apply (thieves_frame q (PushStore (_bottom q) x)); [done|cbn; lia|]. cbn. intros _ Hlt. split; [lia|done].
    + unfold contents. cbn. rewrite zlen_items by lia. rewrite (proj2 (Z.ltb_lt _ _)) by lia.
      rewrite (items_frame q (set_bottom _ _)) by done. rewrite items_snoc by lia. by rewrite Hl.
Qed.

Lemma pop_steps k q o ts c q' o' e : inv k (q, o, ts) -> fits q -> owner_step q o c = (q', o', e) ->
  (match o with OIdle => c = CPop | PopStore _ | PopTop _ => True | _ => False end) ->
  simulates k (_capacity q) (q, o, ts) e (q', o', ts).
Proof.
  intros HI HF Hs Ho. pose proof HI as [Hz Hok Hth]. cbn [fst snd] in *. pose proof (cap_pos _ _ Hz) as Hc. unfold fits in HF.
  pose proof (z_top _ _ Hz) as H1.
  destruct o as [|b x|b x|b|b|b t v|b|]; try done.
  - subst c. cbn in Hs, Hok. destruct (Z.leb_spec (_bottom q) (_top q)); injection Hs as <- <- <-.
    + split_and!; try done. cbn. unfold contents. cbn. by rewrite items_nil by lia.
    + apply same_queue; [done|cbn; lia|done].
  - cbn in Hs, Hok. destruct Hok as [-> Hr]. injection Hs as <- <- <-. rewrite u64_small by (unfold is_u64; lia).
    split_and!; try done.
    + split; [by destruct Hz|cbn; lia|]. cbn.
      apply (thieves_frame q (PopStore (_bottom q))); [done|cbn; lia|done].
  - cbn in Hs, Hok. destruct Hok as [Eb Hr]. rewrite u64_small in Hs by (unfold is_u64; lia).
    destruct (Z.ltb_spec (b - 1) (_top q)).
    + injection Hs as <- <- <-. split_and!; try done.
      * split; [done|cbn; lia|]. by apply (thieves_frame q (PopTop b)); [|cbn; lia|].
      * cbn. unfold contents. cbn. by rewrite items_nil by lia.
    + destruct (load_some q k (b - 1) Hz) as [v Ev]; [lia|]. rewrite Ev in Hs.
      destruct (Z.eqb_spec (_top q) (b - 1)) as [E|E]; cbn in Hs; injection Hs as <- <- <-.
      * apply same_queue; [done| |done]. cbn. split_and!; [done|done|]. left. split; [done|]. by rewrite E.
      * split_and!; try done.
        -- split; [done|cbn; lia|]. apply (thieves_frame q (PopTop b)); [done|cbn; lia|]. cbn. intros _ Hlt. split; [lia|done].
        -- assert (items q (_top q) b = items q (_top q) (b - 1) ++ [v]) as Ei.
           { replace b with (b - 1 + 1) at 1 by lia. rewrite items_snoc by lia. by rewrite Ev. }
           unfold contents. cbn. rewrite Eb, Ei, last_snoc, bool_decide_true by done. by rewrite removelast_last.
Qed.

Lemma finish_steps k q o ts c q' o' e : inv k (q, o, ts) -> fits q -> owner_step q o c = (q', o', e) ->
  (match o with PopCas _ _ _ | PopRestore _ => True | _ => False end) ->
  simulates k (_capacity q) (q, o, ts) e (q', o', ts).
Proof.
  intros HI HF Hs Ho. pose proof HI as [Hz Hok Hth]. cbn [fst snd] in *. pose proof (cap_pos _ _ Hz) as Hc. unfold fits in HF.
  pose proof (z_top _ _ Hz) as H1.
  destruct o as [|b x|b x|b|b|b t v|b|]; try done.
  - cbn in Hs, Hok. destruct Hok as (Eb & Et & Hor). destruct (Z.eqb_spec (_top q) t) as [E|E]; injection Hs as <- <- <-.
    + destruct Hor as [[_ Hv]|?]; [|lia]. rewrite u64_small by (unfold is_u64; lia). split_and!; try done.
      * split; [destruct Hz; split; cbn; done || lia|cbn; lia|].
        apply (thieves_frame q (PopCas b t v)); [done|cbn; lia|]. cbn. lia.
      * cbn. unfold contents. cbn. rewrite (items_nil _ (t + 1)) by lia.
        rewrite E. replace b with (t + 1) by lia. rewrite items_snoc, items_nil by lia. rewrite Hv. cbn.
        by rewrite bool_decide_true.
    + destruct Hor as [[? _]|ET]; [done|]. split_and!; try done.
      cbn. unfold contents. cbn. by rewrite items_nil by lia.
  - cbn in Hs, Hok. destruct Hok as (Eb & Et). injection Hs as <- <- <-. split_and!; try done.
    + split; [by destruct Hz|cbn; lia|]. by apply (thieves_frame q (PopRestore b)); [|cbn; lia|].
Qed.

Lemma owner_step_ok k q o ts c q' o' e : inv k (q, o, ts) -> fits q -> owner_step q o c = (q', o', e) ->
  simulates k (_capacity q) (q, o, ts) e (q', o', ts).
Proof.
  intros HI HF Hs. destruct o; try (by eapply push_steps); try (by eapply pop_steps); try (by eapply finish_steps).
  - destruct c; [eapply push_steps; eauto|by eapply pop_steps].
  - by destruct HI as [_ ? _].
Qed.

Lemma thief_step_ok k q o l1 p l2 q' p' e : inv k (q, o, l1 ++ p :: l2) -> fits q -> steal_step q p = (q', p', e) ->
  simulates k (_capacity q) (q, o, l1 ++ p :: l2) e (q', o, l1 ++ p' :: l2).
Proof.
  intros HI HF Hs. pose proof HI as [Hz Hok Hth]. cbn [fst snd] in *. pose proof (cap_pos _ _ Hz) as Hc. unfold fits in HF.
  pose proof (z_top _ _ Hz) as H1. pose proof Hth as Hth'. apply Forall_app in Hth' as [H2 H3]. apply Forall_cons in H3 as [Hp H3].
  assert (_bottom q <= limit q o <= _bottom q + 1 /\ _top q <= limit q o <= _bottom q + 1) as Hlim
    by (destruct o; cbn in Hok |- *; lia).
  assert (forall p1, thief_ok q o p1 -> simulates k (_capacity q) (q, o, l1 ++ p :: l2) Silent (q, o, l1 ++ p1 :: l2)) as Hsame.
  { intros p1 Hp1. split_and!; try done. split; [done|done|]. cbn. apply Forall_app. split; [done|]. by apply Forall_cons. }
  assert (forall t, _bottom q <= t -> t <= _top q -> simulates k (_capacity q) (q, o, l1 ++ p :: l2) StealMiss (q, o, l1 ++ TIdle :: l2)) as Hmiss.
  { intros t Hb Ht. destruct (Hsame TIdle I) as (? & ? & E). split_and!; try done.
    cbn [spec_step]. rewrite (proj2 (Z.leb_le _ _)); [done|]. unfold contents. cbn. rewrite zlen_items by lia. lia. }
  destruct p as [|t|t|t|t v|]; cbn in Hs, Hp; try done.
  - injection Hs as <- <- <-. apply Hsame. cbn. lia.
  - destruct (Z.leb_spec (_bottom q) t); injection Hs as <- <- <-; [apply (Hmiss t); lia|by apply Hsame].
  - destruct (Z.leb_spec (_bottom q) t); injection Hs as <- <- <-; [apply (Hmiss t); lia|apply Hsame]. cbn. lia.
  - destruct (load_some q k t Hz) as [v Ev]; [lia|]. rewrite Ev in Hs. injection Hs as <- <- <-. apply Hsame. cbn.
    destruct Hp as [? Hp]. split; [done|]. intros E. by split; [apply Hp|].
  - destruct Hp as [Hr Hp]. destruct (Z.eqb_spec (_top q) t) as [E|E]; injection Hs as <- <- <-; [|apply Hsame; cbn; lia].
    destruct (Hp (eq_sym E)) as [Hlt Hv]. rewrite u64_small by (unfold is_u64; lia).
    assert (limit (set_top (t + 1) q) o = limit q o) as El by (by destruct o).
    assert (Forall (thief_ok (set_top (t + 1) q) o) (l1 ++ l2)) as HA.
    { apply (thieves_frame q o); [by apply Forall_app|cbn; lia|]. cbn. lia. }
    apply Forall_app in HA as [HA1 HA2]. split_and!; try done.
    + split; [destruct Hz; split; cbn; done || lia| |cbn; apply Forall_app; split; [done|by apply Forall_cons]].
      destruct o; cbn in Hok, Hlt |- *; try lia; destruct Hok as (? & ? & Hok); split_and!; try lia. exact Hok.
    + unfold contents. cbn [fst snd]. rewrite El, E. rewrite (items_cons q t) by done. rewrite Hv. cbn. by rewrite Z.eqb_refl.
Qed.

Lemma step_ok k s e s' : inv k s -> step s e s' -> simulates k (_capacity (fst (fst s))) s e s'.
Proof. intros HI Hs. destruct Hs; [by eapply owner_step_ok|by eapply thief_step_ok]. Qed.

(** ** Theorems *)

Lemma pow2_test c : 0 < c -> Z.land c (c - 1) = 0 -> exists k, 0 <= k /\ c = 2 ^ k.
Proof.
  intros Hc H. exists (Z.log2 c). split; [apply Z.log2_nonneg|].
  destruct (Z.log2_spec c Hc) as [Hlo Hhi]. destruct (Z.eq_dec c (2 ^ Z.log2 c)) as [|Hne]; [done|].
  assert (Z.log2 (c - 1) = Z.log2 c) as E.
  { apply Z.log2_unique; [apply Z.log2_nonneg|]. lia. }
  assert (0 < c - 1) by (pose proof (Z.pow_pos_nonneg 2 (Z.log2 c)); pose proof (Z.log2_nonneg c); lia).
  assert (Z.testbit (Z.land c (c - 1)) (Z.log2 c) = true) as Hb.
  { rewrite Z.land_spec, Z.bit_log2 by lia. rewrite <- E, Z.bit_log2 by lia. done. }
  by rewrite H, Z.bits_0 in Hb.
Qed.
Lemma init_ok cap mem q0 n : is_u64 cap -> init new_WSQ cap mem = (q0, 0) ->
  exists k, inv k (q0, OIdle, replicate n TIdle) /\ _capacity q0 = cap /\ contents (q0, OIdle, replicate n TIdle) = [].
Proof.
  intros Hc. unfold init. cbn. destruct (Z.eqb_spec cap 0); [done|]. destruct (Z.eqb_spec (Z.land cap (u64 (cap - 1))) 0) as [E|]; [|done].
  destruct mem; [|done]. intros [= <-]. rewrite u64_small in E by (unfold is_u64 in *; lia).
  destruct (pow2_test cap) as (k & Hk & Ek); [unfold is_u64 in *; lia|done|]. exists k. split_and!; try done.
  split; cbn.
  - split; cbn; try done. unfold zlen. rewrite length_replicate. unfold is_u64 in *. lia.
  - unfold is_u64 in *. lia.
  - apply Forall_replicate. done.
Qed.
Lemma spec_run_app cap d es es' : spec_run cap d (es ++ es') = spec_run cap d es ≫= fun d' => spec_run cap d' es'.
Proof. revert d. induction es as [|e es IH]; intros d; [done|]. cbn. destruct (spec_step cap d e); [apply IH|done]. Qed.
Lemma runs_ok k s es s' : inv k s -> runs s es s' ->
  inv k s' /\ _capacity (fst (fst s')) = _capacity (fst (fst s)) /\ spec_run (_capacity (fst (fst s))) (contents s) es = Some (contents s').
Proof.
  intros HI HR. induction HR as [s|s es s1 e s2 HR IH Hs]; [done|]. destruct (IH HI) as (HI1 & Ec & E).
  destruct (step_ok k _ _ _ HI1 Hs) as (HI2 & Ec2 & E2). split_and!; [done|congruence|].
  rewrite spec_run_app, E. cbn. rewrite Ec in E2. by rewrite E2.
Qed.

(** The tasks put into and taken out of the queue. *)
Definition pushes (es : list event) : list Z := omap (fun e => match e with Pushed x => Some x | _ => None end) es.
Definition takes (es : list event) : list Z := omap (fun e => match e with Popped x | Stolen x => Some x | _ => None end) es.
Lemma spec_run_tasks cap es : forall d d', spec_run cap d es = Some d' -> d ++ pushes es ≡ₚ takes es ++ d'.
Proof.
  induction es as [|e es IH]; intros d d'; cbn; [intros [= ->]; by rewrite app_nil_r|].
  destruct (spec_step cap d e) as [d1|] eqn:E; [|done]. intros H%IH.
  destruct e as [|x| |x| |x|]; cbn in E |- *.
  - injection E as <-. done.
  - destruct (zlen d <? cap); [|done]. injection E as <-. rewrite <- H, <- app_assoc. done.
  - destruct (zlen d =? cap); [|done]. injection E as <-. done.
  - case_bool_decide as El; [|done]. injection E as <-. apply last_Some in El as [d2 ->]. rewrite removelast_last in H.
    change (x :: takes es ++ d') with ([x] ++ (takes es ++ d')). rewrite <- H, (Permutation_app_comm d2), <- app_assoc. done.
  - destruct d; [|done]. injection E as <-. done.
  - destruct d as [|y d]; [done|]. destruct (Z.eqb_spec x y) as [->|]; [|done]. injection E as <-. cbn. by rewrite H.
  - destruct (zlen d <=? 1); [|done]. injection E as <-. done.
Qed.

(** C28: The work-stealing queue is linearizable: however the owner and any
    number of thieves interleave, the calls behave as if each took effect at one
    step on a double-ended queue of the capacity: a push succeeds exactly when
    it is not full, a pop takes the newest task and fails exactly when it is
    empty, a steal takes the oldest task and fails only when at most one task is
    left; and the buffer is never accessed out of range. *)
Theorem wsq_linearizable n cap mem q0 es q o ts : is_u64 cap -> init new_WSQ cap mem = (q0, 0) ->
  runs (q0, OIdle, replicate n TIdle) es (q, o, ts) ->
  spec_run cap [] es = Some (contents (q, o, ts)) /\ o <> OFatal /\ TFatal ∉ ts.
Proof.
  intros Hc Hi HR. destruct (init_ok cap mem q0 n Hc Hi) as (k & HI & Ec & E0).
  destruct (runs_ok k _ _ _ HI HR) as ([_ Ho Ht] & _ & E). cbn [fst snd] in *. rewrite Ec, E0 in E. split_and!; [done|by intros ->|].
  intros Hin. by eapply Forall_forall in Ht; [|exact Hin].
Qed.

(** No task is lost or taken twice: the tasks pushed so far are exactly the
    tasks popped or stolen and the tasks in the queue. *)
Theorem wsq_exactly_once n cap mem q0 es q o ts : is_u64 cap -> init new_WSQ cap mem = (q0, 0) ->
  runs (q0, OIdle, replicate n TIdle) es (q, o, ts) ->
  pushes es ≡ₚ takes es ++ contents (q, o, ts).
Proof.
  intros Hc Hi HR. destruct (init_ok cap mem q0 n Hc Hi) as (k & HI & Ec & E0).
  destruct (runs_ok k _ _ _ HI HR) as (_ & _ & E). rewrite E0 in E. by apply spec_run_tasks in E.
Qed.

(** Concrete runs: thread [0] is the owner, thread [i+1] is thief [i]. *)
Inductive move := MOwner (c : call) | MThief (i : nat).
Definition move_step (s : state) (m : move) : option (state * event) :=
  let '(q, o, ts) := s in
  match m with
  | MOwner c => let '(q', o', e) := owner_step q o c in Some ((q', o', ts), e)
  | MThief i => match ts !! i with
                | Some p => let '(q', p', e) := steal_step q p in Some ((q', o, <[i := p']> ts), e)
                | None => None
                end
  end.
Fixpoint play (ms : list move) (s : state) (es : list event) : option (state * list event) :=
  match ms with
  | [] => Some (s, es)
  | m :: ms' => if bool_decide (fits (fst (fst s))) then
                  match move_step s m with Some (s', e) => play ms' s' (es ++ [e]) | None => None end
                else None
  end.
Lemma play_runs ms : forall s0 s es s' es', runs s0 es s -> play ms s es = Some (s', es') -> runs s0 es' s'.
Proof.
  induction ms as [|m ms IH]; intros s0 s es s' es' HR; cbn; [by intros [= <- <-]|].
  case_bool_decide as HF; [|done]. destruct (move_step s m) as [[s1 e]|] eqn:E; [|done].
  apply IH. eapply runs_snoc; [exact HR|]. destruct s as [[q o] ts]. cbn in HF, E. destruct m as [c|i].
  - destruct (owner_step q o c) as [[q' o'] e'] eqn:Es. injection E as <- <-. by econstructor.
  - destruct (ts !! i) as [p|] eqn:Ei; [|done]. destruct (steal_step q p) as [[q' p'] e'] eqn:Es. injection E as <- <-.
    apply list_elem_of_split_length in Ei as (l1 & l2 & -> & ->). rewrite insert_app_r_alt, Nat.sub_diag by lia. cbn.
    by constructor.
Qed.

(** Two tasks; a thief and the owner race for the last one, and the thief wins. *)
Definition demo_moves : list move :=
  [MOwner (CPush 7); MOwner (CPush 7); MOwner (CPush 7); MOwner (CPush 9); MOwner (CPush 9); MOwner (CPush 9);
   MThief 0; MThief 0; MThief 0; MThief 0; MThief 0;
   MThief 0; MThief 0; MThief 0; MThief 0; MOwner CPop; MOwner CPop; MOwner CPop; MThief 0; MOwner CPop].
Definition demo_queue : WorkStealingQueue := fst (init new_WSQ 4 true).
Definition demo_end : state * list event := default ((new_WSQ, OFatal, []), []) (play demo_moves (demo_queue, OIdle, [TIdle]) []).

Lemma wsq_linearizable_witness : last (snd demo_end) = Some PopEmpty /\ spec_run 4 [] (snd demo_end) = Some [].
Proof.
  split; [vm_compute; reflexivity|].
  refine (proj1 (wsq_linearizable 1 4 true demo_queue (snd demo_end) (fst (fst (fst demo_end))) (snd (fst (fst demo_end))) (snd (fst demo_end)) _ _ _)).
  - unfold is_u64. lia.
  - vm_compute. reflexivity.
  - eapply (play_runs demo_moves); [apply runs_nil|]. vm_compute. reflexivity.
Defined.
Lemma wsq_exactly_once_witness : takes (snd demo_end) = [7; 9] /\ pushes (snd demo_end) ≡ₚ takes (snd demo_end) ++ [].
Proof.
  split; [vm_compute; reflexivity|].
  refine (wsq_exactly_once 1 4 true demo_queue (snd demo_end) (fst (fst (fst demo_end))) (snd (fst (fst demo_end))) (snd (fst demo_end)) _ _ _).
  - unfold is_u64. lia.
  - vm_compute. reflexivity.
  - eapply (play_runs demo_moves); [apply runs_nil|]. vm_compute. reflexivity.
Defined.

End WSQ.
