(* ===== verification/Dispatcher.v ===== *)
(** * The message dispatcher

    [MessageDispatcher] of [message_dispatcher.cc]: it cuts the complete frames
    off the front of the receive buffer and hands each one to a handler thread.
    It is modelled on the IOBuf of this library, so that its theorems follow
    from the contract of [cutn], [copy_to], [length] and the destructor. *)
From S2P Require Import Prelude IOBuf IOBufHeap IOBufOps IOBufEquals IOBufAppend IOBufShare IOBufRefine IOBufCorrect IOBufInput.
Local Open Scope Z_scope.

Definition kFrameHeaderBytes : Z := 12.
Definition disp_EPROTO : Z := 71.

(** What happens to a complete frame: the endpoint has failed with an error,
    the handler thread cannot be started, or the thread gets the frame. *)
Inductive verdict := Dispatched | EndpointFailed (errno : Z) | NoThread (errno : Z).

(** The result of [ProcessNewMessage]: a count, or -1 with [errno]. *)
Inductive processed := Count (n : Z) | Error (errno : Z).

Section code.
Context {P : Type} `{Allocator P}.
Abbreviation MS := (M (St P)).

Definition CutInputMessage (read_buf frame : IOBuf) : MS (Z * IOBuf * IOBuf) :=
  let! len := IOBuf_length read_buf in
  if len <? 4 then ret (0, read_buf, frame) else
  let! x := copy_to read_buf 4 0 in
  let total_len := ntohl (load32 (snd x)) in
  if total_len <? kFrameHeaderBytes then ret (-1, read_buf, frame) else
  if len <? total_len then ret (0, read_buf, frame) else
  let! y := cutn read_buf frame total_len in
  ret (1, snd (fst y), snd y).

(** The loop of [ProcessNewMessage]; [out] are the frames handed to threads so
    far, [env i] is what happens to the [i]-th frame. *)
Fixpoint process_loop (fuel : nat) (env : nat -> verdict) (read_buf : IOBuf) (out : list IOBuf)
    : MS (processed * IOBuf * list IOBuf) :=
  match fuel with
  | O => nofuel
  | S f =>
      let! x := CutInputMessage read_buf new_IOBuf in
      let rc := fst (fst x) in
      let read_buf := snd (fst x) in
      let frame := snd x in
      if rc <? 0 then let! _ := clear frame in ret (Error disp_EPROTO, read_buf, out) else
      if rc =? 0 then let! _ := clear frame in ret (Count (zlen out), read_buf, out) else
      match env (length out) with
      | EndpointFailed e | NoThread e => let! _ := clear frame in ret (Error e, read_buf, out)
      | Dispatched => process_loop f env read_buf (out ++ [frame])
      end
  end.

(** [handler] tells whether [SetHandler] has installed a handler. *)
Definition ProcessNewMessage (handler : bool) (env : nat -> verdict) (read_buf : IOBuf)
    : MS (processed * IOBuf * list IOBuf) :=
  if negb handler then ret (Count 0, read_buf, []) else
  let! len := IOBuf_length read_buf in
  process_loop (S (Z.to_nat len)) env read_buf [].
End code.

(** ** The specification: frames of a byte stream *)

Inductive parse := Incomplete | Malformed | Frame (frame rest : list Z).

Definition next_frame (bs : list Z) : parse :=
  if zlen bs <? 4 then Incomplete else
  let n := ntohl (load32 bs) in
  if n <? kFrameHeaderBytes then Malformed else
  if zlen bs <? n then Incomplete else
  Frame (take (Z.to_nat n) bs) (drop (Z.to_nat n) bs).

(** The frames handed out, the bytes left, and the result. *)
Fixpoint split_frames (fuel : nat) (env : nat -> verdict) (i : nat) (bs : list Z)
    : list (list Z) * list Z * processed :=
  match fuel with
  | O => ([], bs, Count (Z.of_nat i))
  | S f =>
      match next_frame bs with
      | Incomplete => ([], bs, Count (Z.of_nat i))
      | Malformed => ([], bs, Error disp_EPROTO)
      | Frame fr rest =>
          match env i with
          | EndpointFailed e | NoThread e => ([], rest, Error e)
          | Dispatched => let x := split_frames f env (S i) rest in (fr :: fst (fst x), snd (fst x), snd x)
          end
      end
  end.
Definition split_stream (env : nat -> verdict) (bs : list Z) := split_frames (S (length bs)) env 0 bs.

(** A well-formed frame begins with its own length. *)
Definition is_frame (f : list Z) : Prop := kFrameHeaderBytes <= zlen f < 2 ^ 32 /\ take 4 f = be32 (zlen f).

Lemma next_frame_shrinks bs f rest : next_frame bs = Frame f rest ->
  bs = f ++ rest /\ kFrameHeaderBytes <= zlen f /\ (length rest < length bs)%nat.
Proof.
  unfold next_frame. destruct (Z.ltb_spec (zlen bs) 4); [done|].
  destruct (Z.ltb_spec (ntohl (load32 bs)) kFrameHeaderBytes) as [|Hk]; [done|].
  destruct (Z.ltb_spec (zlen bs) (ntohl (load32 bs))) as [|Hl]; [done|]. intros [= <- <-].
  unfold kFrameHeaderBytes, zlen in *. rewrite take_drop, length_take, length_drop. split; [done|]. lia.
Qed.

Lemma next_frame_complete f rest : is_frame f -> next_frame (f ++ rest) = Frame f rest.
Proof.
  intros [Hl Hh]. unfold kFrameHeaderBytes in Hl. unfold next_frame.
  assert (ntohl (load32 (f ++ rest)) = zlen f) as ->.
  { unfold load32. rewrite take_app_le by (unfold zlen in *; lia). rewrite Hh.
    pose proof (load_be32 (zlen f) []) as E. rewrite app_nil_r in E. unfold load32 in E.
    rewrite (take_ge (be32 (zlen f))) in E by (unfold be32; by rewrite length_le_bytes). apply E. unfold is_u32. lia. }
  rewrite zlen_app. pose proof (zlen_nonneg rest).
  destruct (Z.ltb_spec (zlen f + zlen rest) 4); [lia|].
  destruct (Z.ltb_spec (zlen f) kFrameHeaderBytes); [unfold kFrameHeaderBytes in *; lia|].
  destruct (Z.ltb_spec (zlen f + zlen rest) (zlen f)); [lia|].
  unfold zlen. rewrite Nat2Z.id, take_app_length, drop_app_length. done.
Qed.

(** More fuel than bytes changes nothing. *)
Lemma split_frames_fuel env f1 f2 : forall i bs, (length bs < f1)%nat -> (length bs < f2)%nat ->
  split_frames f1 env i bs = split_frames f2 env i bs.
Proof.
  revert f2. induction f1 as [|f1 IH]; intros f2 i bs H1 H2; [lia|]. destruct f2 as [|f2]; [lia|]. cbn [split_frames].
  destruct (next_frame bs) as [| |fr rest] eqn:E; try done. apply next_frame_shrinks in E as (_ & _ & Hs).
  destruct (env i); try done. rewrite (IH f2) by lia. done.
Qed.

(** ** The code refines the specification *)

Section refine.
Context {P : Type} `{AllocatorLaws P}.
Implicit Types (s : St P) (b : IOBuf) (F : list BlockRef).

(** An empty IOBuf beside another, and the second of two alone. *)
Lemma owns_with_new s b rs F l bs : owns s b rs F l bs -> owns2 s b rs new_IOBuf [] F l bs [].
Proof. intros (V & T & Hc). split; [done|]. split; [apply view_new|]. done. Qed.
Lemma owns2_first s b rs c qs F l bs cs : owns2 s b rs c qs F l bs cs -> owns s b rs (qs ++ F) l bs.
Proof. intros (V & _ & T & Hb & _). done. Qed.

(** The destructor of the second of two IOBufs. *)
Lemma drop_second s b rs c qs F l bs cs : owns2 s b rs c qs F l bs cs ->
  exists s', clear c s = Ok new_IOBuf s' /\ owns s' b rs F l bs /\ same_bytes s s' F.
Proof.
  intros Ho. pose proof (owns2_first _ _ _ _ _ _ _ _ _ (owns2_sym _ _ _ _ _ _ _ _ _ Ho)) as Hc.
  destruct (clear_owns _ _ _ _ _ _ Hc) as (s' & E & (_ & T & _) & Sb). apply same_bytes_app in Sb as [Sb1 Sb2].
  exists s'. split; [done|]. split; [|done]. destruct Ho as (V & _ & _ & <- & _). split; [done|]. split; [done|].
  by apply same_bytes_contents.
Qed.

Lemma cut_input_spec s b rs F l bs : owns s b rs F l bs ->
  match next_frame bs with
  | Incomplete => CutInputMessage b new_IOBuf s = Ok (0, b, new_IOBuf) s
  | Malformed => CutInputMessage b new_IOBuf s = Ok (-1, b, new_IOBuf) s
  | Frame f rest => exists b' c' s' rs' qs', CutInputMessage b new_IOBuf s = Ok (1, b', c') s' /\
      owns2 s' b' rs' c' qs' F l rest f /\ same_bytes s s' F
  end.
Proof.
  intros Ho. pose proof (owns_held _ _ _ _ _ _ Ho) as Hh. pose proof (owns_length _ _ _ _ _ _ Ho) as Hlen.
  pose proof Ho as (V & _ & _). unfold next_frame, CutInputMessage. exec (IOBuf_length_spec b rs s V). rewrite <- Hlen.
  destruct (Z.ltb_spec (zlen bs) 4) as [|H4]; [done|].
  exec (copy_to_spec s b rs _ bs 4 0 Hh ltac:(lia) ltac:(lia)). cbn [snd].
  change (drop (Z.to_nat 0) bs) with bs. change (Z.to_nat 4) with 4%nat.
  replace (load32 (take 4 bs)) with (load32 bs) by (unfold load32; by rewrite take_take).
  destruct (Z.ltb_spec (ntohl (load32 bs)) kFrameHeaderBytes) as [|Hk]; [done|].
  destruct (Z.ltb_spec (zlen bs) (ntohl (load32 bs))) as [|Hl]; [done|].
  assert (zlen bs < 2 ^ 30) as Hb by (rewrite Hlen; apply V).
  destruct (cutn_owns s b rs new_IOBuf [] F l bs [] (ntohl (load32 bs)) (owns_with_new _ _ _ _ _ _ Ho))
    as (b' & c' & s' & rs' & qs' & E & Ho2 & Sb); [unfold kFrameHeaderBytes in *; lia|change (zlen []) with 0; lia|].
  exec E. exists b', c', s', rs', qs'. done.
Qed.

Lemma process_loop_spec env fuel : forall s b rs F l bs out, owns s b rs F l bs -> (length bs < fuel)%nat ->
  exists b' rs' s' frames R, process_loop fuel env b out s
      = Ok (snd (split_frames fuel env (length out) bs), b', out ++ frames) s' /\
    owns s' b' rs' (concat R ++ F) l (snd (fst (split_frames fuel env (length out) bs))) /\
    Forall2 view frames R /\ map (contents s') R = fst (fst (split_frames fuel env (length out) bs)) /\ same_bytes s s' F.
Proof.
  induction fuel as [|f IH]; intros s b rs F l bs out Ho Hf; [lia|].
  pose proof (cut_input_spec _ _ _ _ _ _ Ho) as Hcut. cbn [process_loop split_frames].
  destruct (next_frame bs) as [| |fr rest] eqn:En.
  - destruct (drop_second _ _ _ _ _ _ _ _ _ (owns_with_new _ _ _ _ _ _ Ho)) as (s' & E & Ho' & Sb).
    exists b, rs, s', [], []. rewrite app_nil_r. exec Hcut. cbn. exec E. done.
  - destruct (drop_second _ _ _ _ _ _ _ _ _ (owns_with_new _ _ _ _ _ _ Ho)) as (s' & E & Ho' & Sb).
    exists b, rs, s', [], []. rewrite app_nil_r. exec Hcut. cbn. exec E. done.
  - destruct Hcut as (b1 & c1 & s1 & rs1 & qs1 & Ec & Ho1 & Sb1). apply next_frame_shrinks in En as (_ & _ & Hs).
    assert (forall e, exists b' rs' s' frames R,
       (let! _ := clear c1 in ret (Error e, b1, out)) s1 = Ok (Error e, b', out ++ frames) s' /\
       owns s' b' rs' (concat R ++ F) l rest /\ Forall2 view frames R /\ map (contents s') R = [] /\ same_bytes s s' F) as Hstop.
    { intros e. destruct (drop_second _ _ _ _ _ _ _ _ _ Ho1) as (s' & E & Ho' & Sb).
      exists b1, rs1, s', [], []. rewrite app_nil_r. exec E. split_and!; try done. by eapply same_bytes_trans. }
    destruct (env (length out)) as [|e|e] eqn:Ee.
    + destruct (IH s1 b1 rs1 (qs1 ++ F) l rest (out ++ [c1])) as (b' & rs' & s' & frames & R & E & Ho' & HV & HR & Sb);
        [by eapply owns2_first|lia|].
      rewrite length_app, Nat.add_1_r in *. exists b', rs', s', (c1 :: frames), (qs1 :: R).
      exec Ec. cbn [fst snd]. change (1 <? 0) with false. change (1 =? 0) with false. cbn iota. rewrite E.
      apply same_bytes_app in Sb as [SbQ SbF]. split; [by rewrite <- app_assoc|]. split; [|split; [|split]].
      * destruct Ho' as (V & T & Hc). split; [done|]. split; [|done]. eapply tls_inv_perm; [|exact T]. cbn.
        rewrite !(assoc (++)). apply Permutation_app_tail. rewrite <- !(assoc (++)). apply Permutation_app_head, Permutation_app_comm.
      * constructor; [apply Ho1|done].
      * cbn. rewrite HR. f_equal. rewrite (same_bytes_contents _ _ _ SbQ). apply Ho1.
      * by eapply same_bytes_trans.
    + destruct (Hstop e) as (b' & rs' & s' & frames & R & E & Hrest). exists b', rs', s', frames, R.
      exec Ec. cbn [fst snd]. change (1 <? 0) with false. change (1 =? 0) with false. cbn iota. by rewrite E.
    + destruct (Hstop e) as (b' & rs' & s' & frames & R & E & Hrest). exists b', rs', s', frames, R.
      exec Ec. cbn [fst snd]. change (1 <? 0) with false. change (1 =? 0) with false. cbn iota. by rewrite E.
Qed.

Lemma process_spec env s b rs F l bs : owns s b rs F l bs ->
  exists b' rs' s' frames R, ProcessNewMessage true env b s = Ok (snd (split_stream env bs), b', frames) s' /\
    owns s' b' rs' (concat R ++ F) l (snd (fst (split_stream env bs))) /\
    Forall2 view frames R /\ map (contents s') R = fst (fst (split_stream env bs)) /\ same_bytes s s' F.
Proof.
  intros Ho. pose proof (owns_length _ _ _ _ _ _ Ho) as Hlen. pose proof Ho as (V & _ & _).
  destruct (process_loop_spec env (S (length bs)) s b rs F l bs [] Ho) as (b' & rs' & s' & frames & R & E & Hr); [lia|].
  exists b', rs', s', frames, R. split; [|exact Hr]. unfold ProcessNewMessage. cbn. exec (IOBuf_length_spec b rs s V).
  rewrite <- Hlen. unfold zlen. rewrite Nat2Z.id. exact E.
Qed.

(** [ProcessNewMessage] runs to its end on any contents of the receive
    buffer and hands out exactly the frames that the specification splits off:
    complete frames in order, up to the first incomplete or malformed one, the
    endpoint's failure or a thread that cannot be started; the other bytes stay
    in the buffer. *)
Theorem process_new_message_refines env s b rs F l bs : owns s b rs F l bs ->
  exists b' rs' s' frames R, ProcessNewMessage true env b s = Ok (snd (split_stream env bs), b', frames) s' /\
    owns s' b' rs' (concat R ++ F) l (snd (fst (split_stream env bs))) /\
    Forall2 view frames R /\ map (contents s') R = fst (fst (split_stream env bs)) /\ same_bytes s s' F.
Proof. apply process_spec. Qed.

End refine.

(** ** A stream that arrives in pieces *)

Definition always : nat -> verdict := fun _ => Dispatched.

(** The receive path of the endpoint: [HandleCompletion] adds the bytes of a receive
    buffer to [read_buf_], by reference or, when there are few, by copying them, and after
    each batch of completions [PollCq] runs the dispatcher.  [rbuf] is the IOBuf of the
    buffer, [rbuf_data] what the card has written there. *)
Definition g_rdma_zerocopy_min_size : Z := 512.
Record Completion := mkCompletion { rbuf : IOBuf; rbuf_data : list Z; byte_len : Z }.
Section receive_code.
Context {P : Type} `{Allocator P}.
(** The code does not look at the result of [append]; it is returned here. *)
Definition receive_one (c : Completion) (read_buf : IOBuf) : M (St P) (bool * IOBuf) :=
  if 0 <? byte_len c then
    if byte_len c <? g_rdma_zerocopy_min_size then
      if zlen (rbuf_data c) <? byte_len c then undef else
      let! x := append read_buf (Some (take (Z.to_nat (byte_len c)) (rbuf_data c))) in ret (fst x =? 0, snd x)
    else let! x := cutn (rbuf c) read_buf (byte_len c) in ret (true, snd x)
  else ret (true, read_buf).
Fixpoint receive_batch (cs : list Completion) (ok : bool) (read_buf : IOBuf) : M (St P) (bool * IOBuf) :=
  match cs with
  | [] => ret (ok, read_buf)
  | c :: cs' => let! x := receive_one c read_buf in receive_batch cs' (ok && fst x) (snd x)
  end.
Fixpoint receive (batches : list (list Completion)) (ok : bool) (read_buf : IOBuf) (out : list IOBuf) : M (St P) (bool * IOBuf * list IOBuf) :=
  match batches with
  | [] => ret (ok, read_buf, out)
  | cs :: batches' =>
      let! x := receive_batch cs ok read_buf in
      let! y := ProcessNewMessage true always (snd x) in
      receive batches' (fst x) (snd (fst y)) (out ++ snd y)
  end.
End receive_code.

Fixpoint feed (rest : list Z) (chunks : list (list Z)) : list (list Z) * list Z :=
  match chunks with
  | [] => ([], rest)
  | c :: chunks' =>
      let x := split_stream always (rest ++ c) in
      let y := feed (snd (fst x)) chunks' in
      (fst (fst x) ++ fst y, snd y)
  end.

(** A proper prefix of a frame waits for the rest. *)
Lemma next_frame_partial p r : is_frame (p ++ r) -> r <> [] -> next_frame p = Incomplete.
Proof.
  intros [Hl Hh] Hr. unfold next_frame, kFrameHeaderBytes in *. destruct (Z.ltb_spec (zlen p) 4) as [|H4]; [done|].
  assert (ntohl (load32 p) = zlen (p ++ r)) as ->.
  { unfold load32. rewrite <- (take_app_le p r) by (unfold zlen in *; lia). rewrite Hh.
    pose proof (load_be32 (zlen (p ++ r)) []) as E. rewrite app_nil_r in E. unfold load32 in E.
    rewrite (take_ge (be32 _)) in E by (unfold be32; by rewrite length_le_bytes). apply E. unfold is_u32. lia. }
  destruct (Z.ltb_spec (zlen (p ++ r)) 12); [lia|]. rewrite zlen_app.
  assert (0 < zlen r) by (destruct r; [done|]; rewrite zlen_cons; pose proof (zlen_nonneg r); lia).
  by rewrite (proj2 (Z.ltb_lt _ _)) by lia.
Qed.
Lemma split_frames_prefix fs : forall p fuel i, Forall is_frame fs -> next_frame p = Incomplete ->
  (length (concat fs ++ p) < fuel)%nat ->
  fst (split_frames fuel always i (concat fs ++ p)) = (fs, p).
Proof.
  induction fs as [|f fs IH]; intros p fuel i Hfs Hp Hf; (destruct fuel as [|fuel]; [lia|]); cbn [split_frames].
  - cbn. by rewrite Hp.
  - apply Forall_cons in Hfs as [Hf1 Hfs]. cbn [concat] in *. rewrite <- app_assoc in Hf |- *. rewrite next_frame_complete by done.
    cbn. assert (12 <= length f)%nat by (destruct Hf1; unfold kFrameHeaderBytes, zlen in *; lia).
    rewrite length_app in Hf. by rewrite (IH p fuel (S i)) by (done || lia).
Qed.
(** A prefix of a stream of frames ends inside a frame. *)
Lemma prefix_frames fs : forall q tl, Forall is_frame fs -> concat fs = q ++ tl ->
  exists fs1 fs2 p, fs = fs1 ++ fs2 /\ q = concat fs1 ++ p /\ concat fs2 = p ++ tl /\ next_frame p = Incomplete.
Proof.
  induction fs as [|f fs IH]; intros q tl Hfs E.
  - exists [], [], []. cbn in E. symmetry in E. apply app_eq_nil in E as [-> ->]. done.
  - apply Forall_cons in Hfs as [Hf1 Hfs]. cbn in E. destruct (decide (length q < length f)%nat) as [Hlt|Hge].
    + assert (exists r, f = q ++ r /\ r <> []) as (r & -> & Hr).
      { exists (drop (length q) f). assert (take (length q) f = q) as Et.
        { rewrite <- (take_app_le f (concat fs)) by lia. by rewrite E, take_app_length. }
        split; [rewrite <- Et at 1; by rewrite take_drop|]. intros Hn. apply (f_equal length) in Hn. rewrite length_drop in Hn. cbn in Hn. lia. }
      exists [], ((q ++ r) :: fs), q. split_and!; try done. by eapply next_frame_partial.
    + assert (q = f ++ drop (length f) q) as Eq.
      { rewrite <- (take_drop (length f) q) at 1. f_equal. rewrite <- (take_app_le q tl) by lia. by rewrite <- E, take_app_length. }
      destruct (IH (drop (length f) q) tl Hfs) as (fs1 & fs2 & p & -> & Ep & E2 & Hp).
      { rewrite Eq, <- app_assoc in E. by apply app_inv_head in E. }
      exists (f :: fs1), fs2, p. split_and!; try done. cbn. by rewrite <- app_assoc, <- Ep.
Qed.
Lemma feed_frames chunks : forall rest fs, Forall is_frame fs -> rest ++ concat chunks = concat fs -> next_frame rest = Incomplete ->
  feed rest chunks = (fs, []).
Proof.
  induction chunks as [|c chunks IH]; intros rest fs Hfs E Hr; cbn [feed].
  - cbn in E. rewrite app_nil_r in E. subst rest. destruct fs as [|f fs]; [done|].
    apply Forall_cons in Hfs as [Hf _]. cbn in Hr. by rewrite next_frame_complete in Hr.
  - cbn [concat] in E. rewrite app_assoc in E.
    destruct (prefix_frames fs (rest ++ c) (concat chunks) Hfs) as (fs1 & fs2 & p & -> & Eq & E2 & Hp); [done|].
    apply Forall_app in Hfs as [H1 H2]. unfold split_stream. rewrite Eq.
    rewrite (split_frames_prefix fs1 p _ 0 H1 Hp) by lia. cbn [fst snd].
    by rewrite (IH p fs2 H2 (eq_sym E2) Hp).
Qed.

Lemma perm_regroup {A} (a b c d f : list A) : a ++ b ++ c ++ d ++ f ≡ₚ (c ++ a) ++ (d ++ b) ++ f.
Proof.
  rewrite (Permutation_app_comm c a), (Permutation_app_comm d b), <- !(assoc (++)). apply Permutation_app_head.
  rewrite !(assoc (++)). do 2 apply Permutation_app_tail. apply Permutation_app_comm.
Qed.

Lemma split_shorter fuel : forall i bs, (length (snd (fst (split_frames fuel always i bs))) <= length bs)%nat.
Proof.
  induction fuel as [|fuel IH]; intros i bs; cbn [split_frames]; [done|].
  destruct (next_frame bs) as [| |fr rest] eqn:E; try done. apply next_frame_shrinks in E as (_ & _ & Hs). cbn.
  specialize (IH (S i) rest). lia.
Qed.

Section receive.
Context {P : Type} `{AllocatorLaws P}.
Implicit Types (s : St P) (b : IOBuf) (F : list BlockRef).

(** The bytes that a batch is to bring. *)
Definition taken (c : Completion) : list Z := take (Z.to_nat (byte_len c)) (rbuf_data c).
Definition batch_bytes (cs : list Completion) : list Z := concat (map taken cs).
Definition wf_completion (c : Completion) : Prop := 0 <= byte_len c <= zlen (rbuf_data c).
(** [R] are the references of the buffer, which hold what the card has written. *)
Definition buffer_of s (c : Completion) (R : list BlockRef) : Prop := view (rbuf c) R /\ contents s R = rbuf_data c.

Lemma same_bytes_list s s' (R : list (list BlockRef)) F : same_bytes s s' (concat R ++ F) -> map (contents s') R = map (contents s) R.
Proof.
  induction R as [|r R IH]; [done|]. cbn. rewrite <- app_assoc. intros [H1 H2]%same_bytes_app.
  by rewrite (IH H2), (same_bytes_contents _ _ _ H1).
Qed.
Lemma same_bytes_buffers s s' cs (Rc : list (list BlockRef)) F : same_bytes s s' (concat Rc ++ F) -> Forall2 (buffer_of s) cs Rc -> Forall2 (buffer_of s') cs Rc.
Proof.
  intros Hs HB. induction HB as [|c R cs Rc [HV HC] HB IH]; [constructor|]. cbn in Hs. rewrite <- app_assoc in Hs. apply same_bytes_app in Hs as [S1 S2].
  constructor; [|by apply IH]. split; [done|]. by rewrite (same_bytes_contents _ _ _ S1).
Qed.
Lemma owns_perm s b rs F F' l bs : F ≡ₚ F' -> owns s b rs F l bs -> owns s b rs F' l bs.
Proof. intros HP (V & T & Hc). split; [done|]. split; [|done]. eapply tls_inv_perm; [|exact T]. by apply Permutation_app_head. Qed.

Lemma receive_one_spec s b rs c R F l bs : owns s b rs (R ++ F) l bs -> buffer_of s c R -> wf_completion c -> zlen bs + zlen (rbuf_data c) < 2 ^ 30 ->
  exists ok b' rs' s' R' l' chunk, receive_one c b s = Ok (ok, b') s' /\ owns s' b' rs' (R' ++ F) l' (bs ++ chunk) /\ same_bytes s s' F /\
    (ok = true -> chunk = taken c) /\ (length chunk <= length (taken c))%nat.
Proof.
  intros Ho [HV HC] [Hn0 Hn] Hsz. unfold receive_one, taken. destruct (Z.ltb_spec 0 (byte_len c)) as [Hp|Hp].
  2:{ assert (byte_len c = 0) as -> by lia. exists true, b, rs, s, R, l, []. rewrite app_nil_r. split_and!; try done. apply same_bytes_refl. }
  destruct (Z.ltb_spec (byte_len c) g_rdma_zerocopy_min_size) as [Hz|Hz].
  - destruct (Z.ltb_spec (zlen (rbuf_data c)) (byte_len c)) as [|_]; [lia|]. set (d := take (Z.to_nat (byte_len c)) (rbuf_data c)).
    assert (zlen d <= zlen (rbuf_data c)) as Hd by (unfold d, zlen; rewrite length_take; lia).
    destruct (append_spec s b rs (R ++ F) l bs d Ho ltac:(lia)) as (rc & b' & s' & rs' & l' & k & E & Ho' & Sb & Hrc). apply same_bytes_app in Sb as [_ Sb].
    exec E. exists (rc =? 0), b', rs', s', R, l', (take k d). cbn [fst snd]. split; [done|]. split; [done|]. split; [done|]. split; [|rewrite length_take; lia].
    intros Hrc0%Z.eqb_eq. destruct Hrc as [[_ ->]|[-> _]]; [by rewrite take_ge|done].
  - assert (owns2 s (rbuf c) R b rs F l (contents s R) bs) as Ho2.
    { destruct Ho as (V & T & Hc). split_and!; try done. eapply tls_inv_perm; [|exact T].
      apply Permutation_app_swap_app. }
    destruct (cutn_owns _ _ _ _ _ _ _ _ _ (byte_len c) Ho2 Hn0) as (c' & b1 & s1 & qs1 & rs1 & E1 & Ho1 & Sb1); [rewrite HC; lia|].
    apply owns2_sym in Ho1. pose proof (owns2_first _ _ _ _ _ _ _ _ _ Ho1) as Hb1. exec E1.
    exists true, b1, rs1, s1, qs1, l, (take (Z.to_nat (byte_len c)) (contents s R)). cbn [fst snd]. rewrite HC in *. by split_and!.
Qed.
Lemma receive_batch_spec cs : forall s b rs Rc F l bs ok, owns s b rs (concat Rc ++ F) l bs -> Forall2 (buffer_of s) cs Rc ->
  Forall wf_completion cs -> zlen bs + zlen (concat (map rbuf_data cs)) < 2 ^ 30 ->
  exists ok' b' rs' s' Rc' l' chunk, receive_batch cs ok b s = Ok (ok', b') s' /\ owns s' b' rs' (concat Rc' ++ F) l' (bs ++ chunk) /\ same_bytes s s' F /\
    (ok' = true -> ok = true /\ chunk = batch_bytes cs) /\ (length chunk <= length (concat (map rbuf_data cs)))%nat.
Proof.
  induction cs as [|c cs IH]; intros s b rs Rc F l bs ok Ho HB Hwf Hsz.
  - apply Forall2_nil_inv_l in HB as ->. exists ok, b, rs, s, [], l, []. rewrite app_nil_r. split_and!; try done. apply same_bytes_refl.
  - apply Forall2_cons_inv_l in HB as (R & Rc2 & HB1 & HB & ->). apply Forall_cons in Hwf as [Hw Hwf]. cbn [concat map] in *. rewrite zlen_app in Hsz.
    pose proof (zlen_nonneg (concat (map rbuf_data cs))). rewrite <- app_assoc in Ho.
    destruct (receive_one_spec s b rs c R (concat Rc2 ++ F) l bs Ho HB1 Hw ltac:(lia)) as (ok1 & b1 & rs1 & s1 & R1 & l1 & ch1 & E1 & Ho1 & Sb1 & Hok1 & Hl1).
    assert (zlen ch1 <= zlen (rbuf_data c)) as Hl1' by (unfold taken in Hl1; rewrite length_take in Hl1; unfold zlen; lia).
    destruct (IH s1 b1 rs1 Rc2 (R1 ++ F) l1 (bs ++ ch1) (ok && ok1)) as (ok2 & b2 & rs2 & s2 & Rc' & l2 & ch2 & E2 & Ho2 & Sb2 & Hok2 & Hl2).
    { eapply owns_perm; [|exact Ho1]. apply Permutation_app_swap_app. }
    { by eapply same_bytes_buffers. }
    { done. }
    { rewrite zlen_app. lia. }
    apply same_bytes_app in Sb2 as [_ Sb2]. exists ok2, b2, rs2, s2, (R1 :: Rc'), l2, (ch1 ++ ch2). cbn [receive_batch]. exec E1. cbn [fst snd]. split; [done|].
    split; [rewrite app_assoc; eapply owns_perm; [|exact Ho2]; cbn; rewrite <- app_assoc; apply Permutation_app_swap_app|].
    split; [eapply same_bytes_trans; [apply same_bytes_app in Sb1; apply Sb1|done]|]. split.
    + intros Hk. destruct (Hok2 Hk) as [[-> Hk1]%andb_prop ->]. rewrite Hok1 by done. done.
    + rewrite !length_app. unfold zlen in Hl1'. lia.
Qed.
Lemma receive_spec bts : forall s b rs Rc F l rest out ok, owns s b rs (concat Rc ++ F) l rest ->
  Forall2 (buffer_of s) (concat bts) Rc -> Forall wf_completion (concat bts) -> zlen rest + zlen (concat (map rbuf_data (concat bts))) < 2 ^ 30 ->
  exists ok' b' rs' s' frames R Rc' l' chunks, receive bts ok b out s = Ok (ok', b', out ++ frames) s' /\
    owns s' b' rs' (concat R ++ concat Rc' ++ F) l' (snd (feed rest chunks)) /\
    Forall2 view frames R /\ map (contents s') R = fst (feed rest chunks) /\ same_bytes s s' F /\
    (ok' = true -> ok = true /\ chunks = map batch_bytes bts).
Proof.
  induction bts as [|cs bts IH]; intros s b rs Rc F l rest out ok Ho HB Hwf Hsz.
  - apply Forall2_nil_inv_l in HB as ->. exists ok, b, rs, s, [], [], [], l, []. rewrite app_nil_r. split_and!; try done. apply same_bytes_refl.
  - cbn [concat] in *. apply Forall2_app_inv_l in HB as (Rc1 & Rc2 & HB1 & HB2 & ->). apply Forall_app in Hwf as [Hw1 Hw2]. rewrite map_app, concat_app, zlen_app in Hsz. pose proof (zlen_nonneg (concat (map rbuf_data (concat bts)))).
    rewrite concat_app, <- app_assoc in Ho. destruct (receive_batch_spec cs s b rs Rc1 (concat Rc2 ++ F) l rest ok Ho HB1 Hw1 ltac:(lia)) as (ok1 & b1 & rs1 & s1 & Rc1' & l1 & ch & E1 & Ho1 & Sb1 & Hok1 & Hl1).
    destruct (process_spec always _ _ _ _ _ _ Ho1) as (b2 & rs2 & s2 & fr & R1 & E2 & Ho2 & HV2 & HR2 & Sb2). pose proof Sb2 as [_ Sb2']%same_bytes_app.
    set (rest1 := snd (fst (split_stream always (rest ++ ch)))) in *.
    assert (zlen rest1 <= zlen rest + zlen ch) as Hr1.
    { pose proof (split_shorter (S (length (rest ++ ch))) 0 (rest ++ ch)) as Hs. fold (split_stream always (rest ++ ch)) in Hs. fold rest1 in Hs. rewrite length_app in Hs. unfold zlen. lia. }
    assert (zlen ch <= zlen (concat (map rbuf_data cs))) as Hch by (unfold zlen; lia).
    destruct (IH s2 b2 rs2 Rc2 (concat R1 ++ concat Rc1' ++ F) l1 rest1 (out ++ fr) ok1) as (ok2 & b' & rs' & s' & frames & R & Rc' & l' & chunks & E & Ho' & HV' & HR' & Sb' & Hok2); try done; [| |lia|].
    { eapply owns_perm; [|exact Ho2]. etrans; [apply Permutation_app_head, Permutation_app_swap_app|apply Permutation_app_swap_app]. }
    { eapply same_bytes_buffers; [exact Sb2'|]. by eapply same_bytes_buffers. }
    pose proof Sb' as [SbR [SbC SbF]%same_bytes_app]%same_bytes_app.
    exists ok2, b', rs', s', (fr ++ frames), (R1 ++ R), (Rc1' ++ Rc'), l', (ch :: chunks). cbn [receive]. exec E1. cbn [fst snd]. exec E2. cbn [fst snd].
    rewrite E, <- app_assoc. split; [done|]. cbn [feed]. fold rest1. cbn [fst snd]. split; [|split; [by apply Forall2_app|split; [|split]]].
    + eapply owns_perm; [|exact Ho']. rewrite !concat_app. apply perm_regroup.
    + rewrite map_app. f_equal; [|done]. etrans; [|exact HR2]. apply (same_bytes_list _ _ _ []). by rewrite app_nil_r.
    + eapply same_bytes_trans; [apply same_bytes_app in Sb1; apply Sb1|]. eapply same_bytes_trans; [apply same_bytes_app in Sb2'; apply Sb2'|done].
    + intros Hk. destruct (Hok2 Hk) as [Hk1 ->]. destruct (Hok1 Hk1) as [-> ->]. done.
Qed.

(** C29: The receive path always runs to its end, and as long as no copy of a short
    message has failed for want of memory, a stream of frames that arrives in pieces cut
    anywhere, header words included, is reassembled: however it is divided over
    completions (empty, short ones that are copied, long ones that are taken over by
    reference) and these over batches, the dispatcher hands out exactly the frames that
    were sent, in order and unchanged, and nothing is left in the receive buffer.  (A copy
    that fails is not noticed by the code.) *)
Theorem stream_reassembly bts s b rs Rc F l fs : owns s b rs (concat Rc ++ F) l [] ->
  Forall2 (buffer_of s) (concat bts) Rc -> Forall wf_completion (concat bts) -> zlen (concat (map rbuf_data (concat bts))) < 2 ^ 30 ->
  Forall is_frame fs -> concat (map batch_bytes bts) = concat fs ->
  exists ok b' rs' s' frames R Rc' l' rest, receive bts true b [] s = Ok (ok, b', frames) s' /\
    owns s' b' rs' (concat R ++ concat Rc' ++ F) l' rest /\ Forall2 view frames R /\ same_bytes s s' F /\
    (ok = true -> map (contents s') R = fs /\ rest = []).
Proof.
  intros Ho HB Hwf Hsz Hfs E.
  destruct (receive_spec bts s b rs Rc F l [] [] true Ho HB Hwf) as (ok & b' & rs' & s' & frames & R & Rc' & l' & chunks & Er & Ho' & HV' & HR & Sb & Hok);
    [change (zlen []) with 0; lia|].
  exists ok, b', rs', s', frames, R, Rc', l', (snd (feed [] chunks)). split; [done|]. split; [done|]. split; [done|]. split; [done|].
  intros Hk. destruct (Hok Hk) as [_ ->]. rewrite HR, (feed_frames (map batch_bytes bts) [] fs Hfs E eq_refl). done.
Qed.

End receive.

(** ** Concrete runs *)

(** A frame of twelve bytes in one block. *)
Definition demo_frame : list Z := [0; 0; 0; 12; 0; 0; 0; 3; 0; 0; 0; 9].
Definition demo_state : St Simple :=
  mkSt {[1 := mkBlock 1 0 0 12 12 NULL 44 demo_frame NULL]} (mkTLS NULL 0 true) (mkSimple {[1]} ∅ 4) [].
Definition demo_buf : IOBuf := SV (mkRef 0 12 1) null_ref.

Lemma demo_inv : inv demo_state [mkRef 0 12 1].
Proof.
  constructor.
  - intros a. unfold count_of. rewrite occ_cons. cbn [heap demo_state r_block].
    destruct (Z.eqb_spec 1 a) as [<-|Ha]; [by rewrite lookup_singleton_eq|by rewrite lookup_singleton_ne].
  - intros a blk Hb. cbn [heap demo_state] in Hb. apply lookup_singleton_Some in Hb as [<- <-].
    split; [done|]. unfold is_user. simpl. split_and!; try done; lia.
  - apply Forall_singleton. eexists. split; [by apply lookup_singleton_eq|]. simpl. lia.
Qed.
Lemma demo_view : view demo_buf [mkRef 0 12 1].
Proof. split; [by apply Forall_singleton|]. split; [simpl; lia|done]. Qed.
Lemma demo_owns : owns demo_state demo_buf [mkRef 0 12 1] [] [] demo_frame.
Proof. split; [apply demo_view|]. split; [|reflexivity]. split; [done|]. split; [done|]. split; [done|]. apply demo_inv. Qed.

Lemma process_new_message_refines_witness : exists b' rs' s' frames R,
  ProcessNewMessage true always demo_buf demo_state = Ok (Count 1, b', frames) s' /\
  owns s' b' rs' (concat R ++ []) [] [] /\ Forall2 view frames R /\ map (contents s') R = [demo_frame] /\
  same_bytes demo_state s' [].
Proof. apply (process_new_message_refines always demo_state demo_buf [mkRef 0 12 1] [] [] demo_frame). apply demo_owns. Defined.

(** Twelve bytes are copied; the frame is handed out from the block of the thread. *)
Lemma stream_reassembly_witness : exists b' s' frames R, receive [[mkCompletion demo_buf demo_frame 12]] true new_IOBuf [] demo_state = Ok (true, b', frames) s' /\
  Forall2 view frames R /\ map (contents s') R = [demo_frame].
Proof.
  destruct (stream_reassembly [[mkCompletion demo_buf demo_frame 12]] demo_state new_IOBuf [] [[mkRef 0 12 1]] [] [] [demo_frame]) as (ok & b' & rs' & s' & frames & R & Rc' & l' & rest & E & _ & HV & _ & Hok).
  - split; [apply view_new|]. split; [|reflexivity]. split; [done|]. split; [done|]. split; [done|]. apply demo_inv.
  - constructor; [split; [apply demo_view|reflexivity]|constructor].
  - constructor; [|constructor]. unfold wf_completion, zlen. cbn. lia.
  - unfold zlen. simpl. lia.
  - apply Forall_singleton. split; [unfold kFrameHeaderBytes, zlen; simpl; lia|reflexivity].
  - reflexivity.
  - assert (match receive [[mkCompletion demo_buf demo_frame 12]] true new_IOBuf [] demo_state with Ok x _ => fst (fst x) | _ => false end = true) as Hk by (vm_compute; reflexivity).
    rewrite E in Hk. cbn in Hk. subst ok. exists b', s', frames, R. split; [exact E|]. split; [exact HV|]. by apply Hok.
Defined.
(** The same bytes while no block can be had: they are lost, and nobody is told. *)
Lemma short_receive_lost : exists b' s', receive [[mkCompletion demo_buf demo_frame 12]] true new_IOBuf [] (mkSt (heap demo_state) (tls demo_state) (mkSimple {[1]} ∅ 0) []) = Ok (false, b', []) s'.
Proof. vm_compute. by eexists _, _. Qed.
