(* ===== verification/Transport.v ===== *)
(** * Sending and flow control of an endpoint

    [CutFromIOBufList], [RdmaIOBuf::cut_into_sglist_and_iobuf], [SendAck],
    [SendImm], [IsWritable], [PostRecv] and [HandleCompletion] of
    [fast_rdma_endpoint.cc].  An IOBuf is the list of its references here, each
    an address with the bytes it denotes: what the network card reads depends on
    how the bytes are divided. *)
From S2P Require Import Prelude.
Local Open Scope Z_scope.

Module Tr.

(** ** Data *)

Record Seg := mkSeg { s_addr : Z; s_data : list Z }.
Abbreviation Buf := (list Seg).
Definition bytes_of (b : Buf) : list Z := concat (map s_data b).
Definition seg_take (n : Z) (g : Seg) : Seg := mkSeg (s_addr g) (take (Z.to_nat n) (s_data g)).
Definition seg_drop (n : Z) (g : Seg) : Seg := mkSeg (s_addr g + n) (drop (Z.to_nat n) (s_data g)).

Record Sge := mkSge { sg_addr : Z; sg_length : Z; sg_lkey : Z }.

(** A work request; an immediate-only send has no elements and [wr_id] 0. *)
Record WR := mkWR { sg_list : list Sge; imm_data : Z; solicited : bool; signaled : bool; wr_id : Z }.

(** The device, the negotiated parameters and the block pool's key of an
    address (0 when it is not registered memory). *)
Record Cfg := mkCfg {
  g_rdma_max_sge : Z;
  remote_recv_block_size_ : Z;
  local_window_capacity_ : Z;
  remote_window_capacity_ : Z;
  GetRegionId : Z -> Z
}.

(** The fields of the endpoint; [wakeups] counts [WakeForWritable], [posted]
    are the work requests given to the control queue pair. *)
Record EP := mkEP {
  sq_window_size_ : Z;
  remote_rq_window_size_ : Z;
  sq_imm_window_size_ : Z;
  new_rq_wrs_ : Z;
  unsolicited_ : Z;
  accumulated_ack_ : Z;
  sq_unsignaled_ : Z;
  sq_current_ : Z;
  sq_sent_ : Z;
  sbuf_ : list Buf;
  rq_received_ : Z;
  rbuf_size : Z;
  wakeups : Z;
  posted : list WR
}.

Definition set_windows sq rq e := mkEP sq rq (sq_imm_window_size_ e) (new_rq_wrs_ e) (unsolicited_ e) (accumulated_ack_ e)
  (sq_unsignaled_ e) (sq_current_ e) (sq_sent_ e) (sbuf_ e) (rq_received_ e) (rbuf_size e) (wakeups e) (posted e).
Definition set_imm_window w e := mkEP (sq_window_size_ e) (remote_rq_window_size_ e) w (new_rq_wrs_ e) (unsolicited_ e)
  (accumulated_ack_ e) (sq_unsignaled_ e) (sq_current_ e) (sq_sent_ e) (sbuf_ e) (rq_received_ e) (rbuf_size e) (wakeups e) (posted e).
Definition set_new_rq_wrs n e := mkEP (sq_window_size_ e) (remote_rq_window_size_ e) (sq_imm_window_size_ e) n (unsolicited_ e)
  (accumulated_ack_ e) (sq_unsignaled_ e) (sq_current_ e) (sq_sent_ e) (sbuf_ e) (rq_received_ e) (rbuf_size e) (wakeups e) (posted e).
Definition set_signals un acc sig e := mkEP (sq_window_size_ e) (remote_rq_window_size_ e) (sq_imm_window_size_ e) (new_rq_wrs_ e)
  un acc sig (sq_current_ e) (sq_sent_ e) (sbuf_ e) (rq_received_ e) (rbuf_size e) (wakeups e) (posted e).
Definition set_ring cur sent sb e := mkEP (sq_window_size_ e) (remote_rq_window_size_ e) (sq_imm_window_size_ e) (new_rq_wrs_ e)
  (unsolicited_ e) (accumulated_ack_ e) (sq_unsignaled_ e) cur sent sb (rq_received_ e) (rbuf_size e) (wakeups e) (posted e).
Definition set_received r e := mkEP (sq_window_size_ e) (remote_rq_window_size_ e) (sq_imm_window_size_ e) (new_rq_wrs_ e)
  (unsolicited_ e) (accumulated_ack_ e) (sq_unsignaled_ e) (sq_current_ e) (sq_sent_ e) (sbuf_ e) r (rbuf_size e) (wakeups e) (posted e).
Definition post (w : WR) e := mkEP (sq_window_size_ e) (remote_rq_window_size_ e) (sq_imm_window_size_ e) (new_rq_wrs_ e)
  (unsolicited_ e) (accumulated_ack_ e) (sq_unsignaled_ e) (sq_current_ e) (sq_sent_ e) (sbuf_ e) (rq_received_ e) (rbuf_size e)
  (wakeups e) (posted e ++ [w]).
Definition WakeForWritable e := mkEP (sq_window_size_ e) (remote_rq_window_size_ e) (sq_imm_window_size_ e) (new_rq_wrs_ e)
  (unsolicited_ e) (accumulated_ack_ e) (sq_unsignaled_ e) (sq_current_ e) (sq_sent_ e) (sbuf_ e) (rq_received_ e) (rbuf_size e)
  (wakeups e + 1) (posted e).

Definition IsWritable (e : EP) : bool := (0 <? sq_window_size_ e) && (0 <? remote_rq_window_size_ e).

(** ** Cutting a message *)

(** [cut_into_sglist_and_iobuf]: the loop over the references at the front of
    the buffer.  The result is [None] for -1 (memory that is not registered);
    what has been moved stays moved. *)
Record Cut := mkCut { c_len : option Z; c_sges : list Sge; c_to : Buf; c_from : Buf }.
Fixpoint cut_into_sglist_and_iobuf (cfg : Cfg) (from : Buf) (sglist : list Sge) (to : Buf) (max_len len : Z) : Cut :=
  match from with
  | [] => mkCut (Some len) sglist to []
  | r :: from' =>
      if g_rdma_max_sge cfg <=? zlen sglist then mkCut (Some len) sglist to from else
      if max_len <=? len then mkCut (Some len) sglist to from else
      let lkey := GetRegionId cfg (s_addr r) in
      if lkey =? 0 then mkCut None sglist to from else
      let n := if max_len <? len + zlen (s_data r) then max_len - len else zlen (s_data r) in
      let sglist := sglist ++ [mkSge (s_addr r) n lkey] in
      if n <? zlen (s_data r)
      then mkCut (Some (len + n)) sglist (to ++ [seg_take n r]) (seg_drop n r :: from')
      else cut_into_sglist_and_iobuf cfg from' sglist (to ++ [r]) max_len (len + n)
  end.

(** The inner loop of [CutFromIOBufList]: fill one message from the buffers
    that begin at [from[current]]. *)
Record Gathered := mkG { g_ok : bool; g_sges : list Sge; g_to : Buf; g_from : list Buf; g_len : Z }.
Fixpoint gather (cfg : Cfg) (bufs : list Buf) (sglist : list Sge) (to : Buf) (this_len : Z) : Gathered :=
  match bufs with
  | [] => mkG true sglist to [] this_len
  | b :: bufs' =>
      if negb ((zlen sglist <? g_rdma_max_sge cfg) && (this_len <? remote_recv_block_size_ cfg))
      then mkG true sglist to bufs this_len else
      match b with
      | [] => gather cfg bufs' sglist to this_len
      | _ =>
          let c := cut_into_sglist_and_iobuf cfg b sglist to (remote_recv_block_size_ cfg - this_len) 0 in
          match c_len c with
          | None => mkG false (c_sges c) (c_to c) (c_from c :: bufs') this_len
          | Some len =>
              let this_len := this_len + len in
              if negb ((zlen (c_sges c) <? g_rdma_max_sge cfg) && (this_len <? remote_recv_block_size_ cfg))
              then mkG true (c_sges c) (c_to c) (c_from c :: bufs') this_len
              else gather cfg bufs' (c_sges c) (c_to c) this_len
          end
      end
  end.

(** The flags and the immediate of a message: the receive credits it carries,
    whether it is solicited and whether its completion is signaled. *)
Definition fill_wr (cfg : Cfg) (rq_wnd sq_wnd : Z) (last_buf : bool) (sges : list Sge) (e : EP) : WR * EP :=
  let imm := u32 (new_rq_wrs_ e) in
  let e := set_new_rq_wrs 0 e in
  let sol := (rq_wnd =? 1) || (sq_wnd =? 1) || last_buf
             || (local_window_capacity_ cfg ÷ 4 <? unsolicited_ e)
             || (remote_window_capacity_ cfg ÷ 4 <? accumulated_ack_ e) in
  let un := if sol then 0 else unsolicited_ e + 1 in
  let acc := if sol then 0 else accumulated_ack_ e + imm in
  let n := sq_unsignaled_ e + 1 in
  let sig := local_window_capacity_ cfg ÷ 4 <=? n in
  (mkWR sges (htonl imm) sol sig (if sig then n else 0), set_signals un acc (if sig then 0 else n) e).

Definition slot_of (e : EP) (i : Z) : Buf := default [] (sbuf_ e !! Z.to_nat i).
Definition put_slot (i : Z) (b : Buf) (e : EP) : EP :=
  set_ring (sq_current_ e) (sq_sent_ e) (<[Z.to_nat i := b]> (sbuf_ e)) e.

(** One turn of the outer loop after the test of the windows, up to the
    accounting: gather, post, advance the ring.  [ok] is whether
    [ibv_post_send] succeeds. *)
Inductive turn := Sent (w : WR) (e : EP) (bufs : list Buf) (len : Z) | Nothing (bufs : list Buf) | Broken (e : EP) (bufs : list Buf).
Definition send_message (cfg : Cfg) (ok : bool) (rq_wnd sq_wnd : Z) (bufs : list Buf) (e : EP) : turn :=
  let g := gather cfg bufs [] (slot_of e (sq_current_ e)) 0 in
  let e1 := put_slot (sq_current_ e) (g_to g) e in
  if negb (g_ok g) then Broken e1 (g_from g) else
  if g_len g =? 0 then Nothing (g_from g) else
  let x := fill_wr cfg rq_wnd sq_wnd (zlen (g_from g) <=? 1) (g_sges g) e1 in
  if negb ok then Broken (snd x) (g_from g) else
  let cur := sq_current_ e + 1 in
  Sent (fst x) (set_ring (if cur =? zlen (sbuf_ e) then 0 else cur) (sq_sent_ e) (sbuf_ (snd x)) (post (fst x) (snd x)))
       (g_from g) (g_len g).

(** The windows are lowered after the message has been posted. *)
Definition lower_windows (e : EP) : EP := set_windows (sq_window_size_ e - 1) (remote_rq_window_size_ e - 1) e.

Inductive write_result := Wrote (n : Z) | Again | Failed.

(** [CutFromIOBufList]; [oks] are the results of [ibv_post_send]. *)
Fixpoint cut_loop (cfg : Cfg) (fuel : nat) (oks : list bool) (rq_wnd sq_wnd total_len : Z) (bufs : list Buf) (e : EP)
    : option (write_result * EP * list Buf) :=
  match fuel with
  | O => None
  | S f =>
      match bufs with
      | [] => Some (Wrote total_len, e, [])
      | _ =>
          if (rq_wnd =? 0) || (sq_wnd =? 0)
          then Some ((if 0 <? total_len then Wrote total_len else Again), e, bufs)
          else match send_message cfg (hd true oks) rq_wnd sq_wnd bufs e with
               | Broken e' bufs' => Some (Failed, e', bufs')
               | Nothing bufs' => cut_loop cfg f (tl oks) rq_wnd sq_wnd total_len bufs' e
               | Sent _ e' bufs' len =>
                   let e'' := lower_windows e' in
                   cut_loop cfg f (tl oks) (u32 (remote_rq_window_size_ e'')) (u32 (sq_window_size_ e'')) (total_len + len) bufs' e''
               end
      end
  end.
Definition CutFromIOBufList (cfg : Cfg) (failed : bool) (oks : list bool) (bufs : list Buf) (e : EP)
    : option (write_result * EP * list Buf) :=
  if failed then Some (Failed, e, bufs) else
  cut_loop cfg (S (S (length (concat (map bytes_of bufs))))) oks (u32 (remote_rq_window_size_ e)) (u32 (sq_window_size_ e)) 0 bufs e.

(** ** Credits and completions *)

Definition SendImm (ok : bool) (imm : Z) (e : EP) : Z * EP :=
  if imm =? 0 then (0, e) else
  if negb ok then (-1, e) else
  (0, set_imm_window (sq_imm_window_size_ e - 1) (post (mkWR [] (htonl imm) true true 0) e)).

Definition SendAck (cfg : Cfg) (ok : bool) (num : Z) (e : EP) : Z * EP :=
  let prev := new_rq_wrs_ e in
  let e := set_new_rq_wrs (i32 (prev + num)) e in
  if (remote_window_capacity_ cfg ÷ 2 <? i32 (prev + num)) && (0 <? sq_imm_window_size_ e)
  then SendImm ok (u32 (new_rq_wrs_ e)) (set_new_rq_wrs 0 e)
  else (0, e).

(** [PostRecv(num, zerocopy)]; [oks] tells for each buffer whether its block
    could be made and posted. *)
Fixpoint post_recv_loop (oks : list bool) (num : nat) (e : EP) : bool * EP :=
  match num with
  | O => (true, e)
  | S n =>
      if hd true oks then
        let r := rq_received_ e + 1 in
        post_recv_loop (tl oks) n (set_received (if r =? rbuf_size e then 0 else r) e)
      else (false, e)
  end.
Definition PostRecv (oks : list bool) (num : Z) (e : EP) : Z * EP :=
  let x := post_recv_loop oks (Z.to_nat num) e in
  if fst x then (0, set_new_rq_wrs (i32 (new_rq_wrs_ (snd x) + num)) (snd x)) else (-1, snd x).

Inductive opcode := IBV_WC_SEND | IBV_WC_RECV | IBV_WC_OTHER.
Record WC := mkWC { wc_opcode : opcode; wc_wr_id : Z; wc_byte_len : Z; wc_with_imm : bool; wc_imm_data : Z }.

(** Release the ring slots of a signaled batch. *)
Fixpoint release_slots (n : nat) (e : EP) : EP :=
  match n with
  | O => e
  | S n' =>
      if sq_sent_ e <? zlen (sbuf_ e) then
        let s := sq_sent_ e + 1 in
        release_slots n' (set_ring (sq_current_ e) (if s =? zlen (sbuf_ e) then 0 else s) (<[Z.to_nat (sq_sent_ e) := []]> (sbuf_ e)) e)
      else release_slots n' e
  end.

Definition HandleCompletion (cfg : Cfg) (recv_ok send_ok : bool) (wc : WC) (e : EP) : Z * EP :=
  match wc_opcode wc with
  | IBV_WC_SEND =>
      if wc_wr_id wc =? 0 then
        (0, snd (SendAck cfg send_ok 0 (set_imm_window (sq_imm_window_size_ e + 1) e)))
      else
        let e := release_slots (Z.to_nat (wc_wr_id wc)) e in
        let e := set_windows (sq_window_size_ e + wc_wr_id wc) (remote_rq_window_size_ e) e in
        (0, if local_window_capacity_ cfg ÷ 8 <=? remote_rq_window_size_ e then WakeForWritable e else e)
  | IBV_WC_RECV =>
      let e :=
        if wc_with_imm wc && (0 <? wc_imm_data wc) then
          let acks := ntohs (wc_imm_data wc) in
          let wnd_thresh := local_window_capacity_ cfg ÷ 8 in
          let old := u32 (remote_rq_window_size_ e) in
          let e := set_windows (sq_window_size_ e) (i32 (remote_rq_window_size_ e + acks)) e in
          if (0 <? sq_window_size_ e) && ((wnd_thresh <=? old) || (wnd_thresh <=? acks)) then WakeForWritable e else e
        else e in
      let x := PostRecv [recv_ok] 1 e in
      if fst x <? 0 then (-1, snd x) else
      let e := if 0 <? wc_byte_len wc then snd (SendAck cfg send_ok 1 (snd x)) else snd x in
      (wc_byte_len wc, e)
  | IBV_WC_OTHER => (-1, e)
  end.

(** ** What a message holds *)

Definition sge_of (cfg : Cfg) (g : Seg) : Sge := mkSge (s_addr g) (zlen (s_data g)) (GetRegionId cfg (s_addr g)).
Definition wf_buf (b : Buf) : Prop := Forall (fun g => s_data g <> []) b.
Definition all_bytes (bufs : list Buf) : list Z := concat (map bytes_of bufs).
Record wf_cfg (cfg : Cfg) : Prop := mk_wf_cfg {
  w_sge : 0 < g_rdma_max_sge cfg;
  w_block : 0 < remote_recv_block_size_ cfg
}.

Lemma bytes_app b c : bytes_of (b ++ c) = bytes_of b ++ bytes_of c.
Proof. unfold bytes_of. by rewrite map_app, concat_app. Qed.
Lemma zlen_take_le {A} n (l : list A) : 0 <= n <= zlen l -> zlen (take (Z.to_nat n) l) = n.
Proof. unfold zlen. intros H. rewrite length_take. lia. Qed.
Lemma zlen_pos {A} (l : list A) : l <> [] -> 0 < zlen l.
Proof. destruct l; [done|]. intros _. rewrite zlen_cons. pose proof (zlen_nonneg l). lia. Qed.
Lemma zlen_map {A B} (f : A -> B) l : zlen (map f l) = zlen l.
Proof. unfold zlen. by rewrite length_map. Qed.

(** [T] are the references moved by a cut. *)
Lemma cut_spec cfg from : forall sglist to max_len len, wf_buf from -> 0 <= len <= max_len ->
  let c := cut_into_sglist_and_iobuf cfg from sglist to max_len len in
  exists T, c_to c = to ++ T /\ c_sges c = sglist ++ map (sge_of cfg) T /\ wf_buf T /\ wf_buf (c_from c) /\
    bytes_of from = bytes_of T ++ bytes_of (c_from c) /\
    (zlen sglist <= g_rdma_max_sge cfg -> zlen (c_sges c) <= g_rdma_max_sge cfg) /\
    match c_len c with
    | Some len' => len' = len + zlen (bytes_of T) /\ len' <= max_len /\
        (c_from c = [] \/ g_rdma_max_sge cfg <= zlen (c_sges c) \/ max_len <= len')
    | None => exists g, g ∈ c_from c /\ GetRegionId cfg (s_addr g) = 0
    end.
Proof.
  induction from as [|r from IH]; intros sglist to max_len len Hwf Hlen; cbn [cut_into_sglist_and_iobuf].
  - exists []. cbn. rewrite !app_nil_r, zlen_nil. split_and!; try done; try lia; try (by constructor).
  - apply Forall_cons in Hwf as [Hr Hwf].
    assert (forall o, match o with Some len' => len' = len /\ (g_rdma_max_sge cfg <= zlen sglist \/ max_len <= len)
                      | None => GetRegionId cfg (s_addr r) = 0 end ->
       exists T, to = to ++ T /\ sglist = sglist ++ map (sge_of cfg) T /\ wf_buf T /\ wf_buf (r :: from) /\
       bytes_of (r :: from) = bytes_of T ++ bytes_of (r :: from) /\ (zlen sglist <= g_rdma_max_sge cfg -> zlen sglist <= g_rdma_max_sge cfg) /\
       match o with Some len' => len' = len + zlen (bytes_of T) /\ len' <= max_len /\ (r :: from = [] \/ g_rdma_max_sge cfg <= zlen sglist \/ max_len <= len')
       | None => exists g, g ∈ r :: from /\ GetRegionId cfg (s_addr g) = 0 end) as Hstop.
    { intros o Ho. exists []. cbn. rewrite !app_nil_r. split_and!; try done; try (by constructor).
      destruct o as [l|]; [|exists r; split; [by left|done]]. destruct Ho as [-> ?]. rewrite zlen_nil.
      split_and!; [lia|lia|tauto]. }
    destruct (Z.leb_spec (g_rdma_max_sge cfg) (zlen sglist)) as [|Hs]; [by apply (Hstop (Some len)); auto|].
    destruct (Z.leb_spec max_len len) as [|Hm]; [by apply (Hstop (Some len)); auto|].
    destruct (Z.eqb_spec (GetRegionId cfg (s_addr r)) 0) as [|Hk]; [by apply (Hstop None)|]. clear Hstop.
    pose proof (zlen_pos _ Hr) as Hp. set (n := if max_len <? len + zlen (s_data r) then max_len - len else zlen (s_data r)).
    assert (0 < n <= zlen (s_data r) /\ len + n <= max_len) as [Hn Hn2] by (unfold n; destruct (Z.ltb_spec max_len (len + zlen (s_data r))); lia).
    destruct (Z.ltb_spec n (zlen (s_data r))) as [Hlt|Hge].
    + assert (n = max_len - len) as En by (unfold n in *; destruct (Z.ltb_spec max_len (len + zlen (s_data r))); lia).
      exists [seg_take n r]. cbn [c_to c_sges c_from c_len]. split_and!; try done.
      * cbn. unfold sge_of. cbn. by rewrite zlen_take_le by lia.
      * constructor; [|constructor]. cbn. intros E. apply (f_equal zlen) in E. rewrite zlen_take_le in E by lia. change (zlen []) with 0 in E. lia.
      * constructor; [|done]. cbn. intros E. apply (f_equal length) in E. rewrite length_drop in E. unfold zlen in *. cbn in E. lia.
      * unfold bytes_of. cbn. by rewrite app_nil_r, (assoc (++)), take_drop.
      * intros _. rewrite zlen_app. cbn. change (zlen [_]) with 1. lia.
      * unfold bytes_of. cbn. rewrite app_nil_r, zlen_take_le by lia. done.
      * cbn. right. right. lia.
    + assert (n = zlen (s_data r)) as En by lia. clearbody n. subst n.
      destruct (IH (sglist ++ [mkSge (s_addr r) (zlen (s_data r)) (GetRegionId cfg (s_addr r))]) (to ++ [r]) max_len (len + zlen (s_data r)) Hwf)
        as (T & E1 & E2 & HT & Hw & Eb & Hmax & Hl); [lia|].
      exists (r :: T). rewrite E1, E2, <- !app_assoc. split_and!; try done.
      * by constructor.
      * change (bytes_of (r :: from)) with (s_data r ++ bytes_of from). rewrite Eb. by rewrite app_assoc.
      * intros _. rewrite E2, <- app_assoc in Hmax. apply Hmax. rewrite zlen_app. change (zlen [_]) with 1. lia.
      * rewrite E2, <- app_assoc in Hl. destruct (c_len _); [|done]. destruct Hl as (-> & ? & ?). split_and!; try done.
        change (bytes_of (r :: T)) with (s_data r ++ bytes_of T). rewrite zlen_app. lia.
Qed.

Lemma gather_spec cfg bufs : forall sglist to this_len, wf_cfg cfg -> Forall wf_buf bufs ->
  0 <= this_len <= remote_recv_block_size_ cfg -> zlen sglist <= g_rdma_max_sge cfg ->
  let g := gather cfg bufs sglist to this_len in
  exists T, g_to g = to ++ T /\ g_sges g = sglist ++ map (sge_of cfg) T /\ wf_buf T /\ Forall wf_buf (g_from g) /\
    all_bytes bufs = bytes_of T ++ all_bytes (g_from g) /\ zlen (g_sges g) <= g_rdma_max_sge cfg /\
    if g_ok g then g_len g = this_len + zlen (bytes_of T) /\ g_len g <= remote_recv_block_size_ cfg /\
      (g_from g = [] \/ g_rdma_max_sge cfg <= zlen (g_sges g) \/ remote_recv_block_size_ cfg <= g_len g)
    else exists b s, b ∈ g_from g /\ s ∈ b /\ GetRegionId cfg (s_addr s) = 0.
Proof.
  induction bufs as [|b bufs IH]; intros sglist to this_len Hc Hwf Hlen Hs; cbn [gather].
  - exists []. cbn. rewrite !app_nil_r, zlen_nil. split_and!; try done; try lia; try (by constructor).
  - apply Forall_cons in Hwf as [Hb Hwf].
    destruct (Z.ltb_spec (zlen sglist) (g_rdma_max_sge cfg)) as [Hs1|Hs1]; cbn [andb negb].
    2:{ exists []. cbn. rewrite !app_nil_r, zlen_nil. split_and!; try done; try lia; try (by constructor); try tauto. }
    destruct (Z.ltb_spec this_len (remote_recv_block_size_ cfg)) as [Hl1|Hl1]; cbn [andb negb].
    2:{ exists []. cbn. rewrite !app_nil_r, zlen_nil. split_and!; try done; try lia; try (by constructor); try tauto. }
    destruct b as [|r b]; [by apply IH|]. set (bb := r :: b) in *.
    destruct (cut_spec cfg bb sglist to (remote_recv_block_size_ cfg - this_len) 0 Hb) as (T & E1 & E2 & HT & Hw & Eb & Hmax & Hl); [lia|].
    set (c := cut_into_sglist_and_iobuf cfg bb sglist to (remote_recv_block_size_ cfg - this_len) 0) in *. clearbody c.
    assert (all_bytes (bb :: bufs) = bytes_of T ++ all_bytes (c_from c :: bufs)) as Eall.
    { unfold all_bytes. cbn [map concat]. by rewrite Eb, app_assoc. }
    destruct (c_len c) as [len|].
    + destruct Hl as (Elen & Hle & Hfull). rewrite Z.add_0_l in Elen.
      destruct (negb _) eqn:Econd.
      * exists T. cbn. split_and!; try done; [by constructor|auto|lia|lia|]. right.
        apply negb_true_iff, andb_false_iff in Econd as [E|E]; [left|right]; [by apply Z.ltb_ge in E|by apply Z.ltb_ge in E].
      * apply negb_false_iff, andb_true_iff in Econd as [Ea Ebk]. apply Z.ltb_lt in Ea, Ebk.
        assert (c_from c = []) as Ef by (destruct Hfull as [|[|]]; [done|lia|lia]).
        destruct (IH (c_sges c) (c_to c) (this_len + len) Hc Hwf) as (T2 & F1 & F2 & F0 & F3 & F4 & F5 & F6); [pose proof (zlen_nonneg (bytes_of T)); lia|lia|].
        set (g2 := gather cfg bufs (c_sges c) (c_to c) (this_len + len)) in *. clearbody g2.
        exists (T ++ T2). rewrite F1, F2, E1, E2, <- !app_assoc, <- map_app. split_and!; try done; [by apply Forall_app| | |].
        -- rewrite bytes_app, <- app_assoc, <- F4. etrans; [exact Eall|]. by rewrite Ef.
        -- rewrite F2, E2, <- app_assoc, <- map_app in F5. done.
        -- rewrite F2, E2, <- app_assoc, <- map_app in F6. destruct (g_ok _); [|done].
           destruct F6 as (-> & ? & ?). split_and!; try done. rewrite bytes_app, zlen_app. lia.
    + destruct Hl as (g & Hg & Hk). exists T. cbn. split_and!; try done; [by constructor|auto|].
      exists (c_from c), g. split_and!; try done. by left.
Qed.

(** ** Writing *)

(** A work request that sends the references [T]. *)
Definition carries (cfg : Cfg) (w : WR) (T : Buf) : Prop :=
  sg_list w = map (sge_of cfg) T /\ 0 < zlen (bytes_of T) <= remote_recv_block_size_ cfg /\ zlen (sg_list w) <= g_rdma_max_sge cfg.
Definition unregistered (cfg : Cfg) (bufs : list Buf) : Prop := exists b s, b ∈ bufs /\ s ∈ b /\ GetRegionId cfg (s_addr s) = 0.

Lemma wf_bytes_nil bufs : Forall wf_buf bufs -> all_bytes bufs = [] -> Forall (eq []) bufs.
Proof.
  induction 1 as [|b bufs Hb _ IH]; [done|]. unfold all_bytes. cbn. intros E. apply app_eq_nil in E as [E1 E2].
  constructor; [|by apply IH]. destruct Hb as [|g b Hg _]; [done|]. cbn in E1. apply app_eq_nil in E1 as [E1 _]. done.
Qed.

Lemma send_message_spec cfg ok rq sq bufs e : wf_cfg cfg -> Forall wf_buf bufs ->
  match send_message cfg ok rq sq bufs e with
  | Broken e' bufs' => ok = false \/ unregistered cfg bufs'
  | Nothing bufs' => bufs' = [] /\ all_bytes bufs = []
  | Sent w e' bufs' len => ok = true /\ exists T, carries cfg w T /\ all_bytes bufs = bytes_of T ++ all_bytes bufs' /\ len = zlen (bytes_of T) /\
      sq_window_size_ e' = sq_window_size_ e /\ remote_rq_window_size_ e' = remote_rq_window_size_ e /\
      posted e' = posted e ++ [w] /\ Forall wf_buf bufs'
  end.
Proof.
  intros Hc Hwf. unfold send_message.
  destruct (gather_spec cfg bufs [] (slot_of e (sq_current_ e)) 0 Hc Hwf) as (T & E1 & E2 & HT & E3 & E4 & E5 & E6);
    [destruct Hc; lia|rewrite zlen_nil; destruct Hc; lia|].
  set (g := gather cfg bufs [] (slot_of e (sq_current_ e)) 0) in *. clearbody g.
  destruct (g_ok g); cbn [negb]; [|by right]. destruct E6 as (El & Hb & Hfull). rewrite Z.add_0_l in El.
  destruct (Z.eqb_spec (g_len g) 0) as [Ez|Hnz].
  - assert (bytes_of T = []) as ET by (apply nil_length_inv; unfold zlen in El; lia).
    assert (T = []) as -> by (destruct HT as [|s T Hs _]; [done|]; cbn in ET; by apply app_eq_nil in ET as [? _]).
    cbn in E2. rewrite E2, zlen_nil in Hfull. destruct Hc. destruct Hfull as [Hf|[|]]; [|lia|lia]. rewrite Hf in *. done.
  - destruct ok; cbn [negb]; [|by left]. split; [done|]. exists T. pose proof (zlen_nonneg (bytes_of T)).
    split_and!; try done. split_and!; cbn; try done; lia.
Qed.

(** *** The whole write *)

(** What [CutFromIOBufList] has done when it returns. *)
Definition write_spec (cfg : Cfg) (oks : list bool) (total : Z) (bufs : list Buf) (e : EP) (r : write_result) (e' : EP) (bufs' : list Buf) : Prop :=
  match r with
  | Wrote n => exists ws Ts, Forall2 (carries cfg) ws Ts /\ posted e' = posted e ++ ws /\
      all_bytes bufs = concat (map bytes_of Ts) ++ all_bytes bufs' /\ n = total + zlen (concat (map bytes_of Ts)) /\
      sq_window_size_ e' = sq_window_size_ e - zlen Ts /\ remote_rq_window_size_ e' = remote_rq_window_size_ e - zlen Ts /\
      0 <= sq_window_size_ e' /\ 0 <= remote_rq_window_size_ e' /\
      (all_bytes bufs' = [] \/ sq_window_size_ e' = 0 \/ remote_rq_window_size_ e' = 0)
  | Again => total = 0 /\ e' = e /\ bufs' = bufs /\ (sq_window_size_ e = 0 \/ remote_rq_window_size_ e = 0)
  | Failed => false ∈ oks \/ unregistered cfg bufs'
  end.

Lemma hd_false oks : hd true oks = false -> false ∈ oks.
Proof. destruct oks as [|[] oks]; try done. intros _. by left. Qed.
Lemma tl_in {A} (x : A) l : x ∈ tl l -> x ∈ l.
Proof. destruct l; [done|]. by right. Qed.

Lemma cut_loop_spec cfg fuel : forall oks total bufs e, wf_cfg cfg -> Forall wf_buf bufs -> 0 <= total ->
  0 <= sq_window_size_ e < 2 ^ 31 -> 0 <= remote_rq_window_size_ e < 2 ^ 31 ->
  (length (all_bytes bufs) + (match bufs with [] => 0 | _ => 1 end) < fuel)%nat ->
  exists r e' bufs', cut_loop cfg fuel oks (u32 (remote_rq_window_size_ e)) (u32 (sq_window_size_ e)) total bufs e = Some (r, e', bufs') /\
    write_spec cfg oks total bufs e r e' bufs'.
Proof.
  induction fuel as [|f IH]; intros oks total bufs e Hc Hwf Ht Hsq Hrq Hf; [lia|]. cbn [cut_loop].
  rewrite !u32_small by (unfold is_u32; lia).
  assert (forall n, n = total -> all_bytes bufs = [] \/ sq_window_size_ e = 0 \/ remote_rq_window_size_ e = 0 -> write_spec cfg oks total bufs e (Wrote n) e bufs) as Hnow.
  { intros n -> Hw. exists [], []. cbn. rewrite app_nil_r. unfold zlen. split_and!; try done; cbn; lia. }
  destruct bufs as [|b bufs]; [eexists _, _, _; split; [done|apply Hnow; [done|by left]]|]. set (bs := b :: bufs) in *.
  destruct (Z.eqb_spec (remote_rq_window_size_ e) 0) as [Ez|Hr0]; cbn [orb].
  { eexists _, _, _. split; [done|]. destruct (Z.ltb_spec 0 total); [by apply Hnow; auto|]. split_and!; try done; [lia|by right]. }
  destruct (Z.eqb_spec (sq_window_size_ e) 0) as [Ez|Hs0]; cbn [orb].
  { eexists _, _, _. split; [done|]. destruct (Z.ltb_spec 0 total); [by apply Hnow; auto|]. split_and!; try done; [lia|by left]. }
  pose proof (send_message_spec cfg (hd true oks) (remote_rq_window_size_ e) (sq_window_size_ e) bs e Hc Hwf) as HS.
  destruct (send_message _ _ _ _ _ _) as [w e1 bufs1 len|bufs1|e1 bufs1].
  - destruct HS as (_ & T & Hca & Eb & -> & Esq & Erq & Ep & Hwf1). pose proof Hca as (_ & Hlen & _).
    destruct (IH (tl oks) (total + zlen (bytes_of T)) bufs1 (lower_windows e1) Hc Hwf1) as (r & e' & bufs' & E & HW);
      [lia|cbn; lia|cbn; lia| |].
    { rewrite Eb, length_app in Hf. unfold zlen in Hlen. cbn in Hf. destruct bufs1; lia. }
    exists r, e', bufs'. split; [exact E|]. destruct r as [n| |].
    + destruct HW as (ws & Ts & HF & E1 & E2 & E3 & E4 & E5 & E6). cbn in E1, E4, E5.
      exists (w :: ws), (T :: Ts). split; [by constructor|]. cbn [map concat]. rewrite zlen_cons, zlen_app.
      split_and!; try tauto; try lia.
      * rewrite E1, Ep, <- app_assoc. done.
      * rewrite Eb, E2, app_assoc. done.
    + destruct HW as (HW & _). lia.
    + destruct HW as [HW|HW]; [left; by apply tl_in|by right].
  - destruct HS as [-> E0]. destruct (IH (tl oks) total [] e Hc) as (r & e' & bufs' & E & HW); try done; [cbn in Hf |- *; lia|].
    rewrite !u32_small in E by (unfold is_u32; lia). exists r, e', bufs'. split; [exact E|].
    destruct r as [n| |].
    + destruct HW as (ws & Ts & HF & E1 & E2 & HW). exists ws, Ts. rewrite E0. split_and!; try done; tauto.
    + destruct HW as (_ & _ & _ & HW). lia.
    + destruct HW as [HW|HW]; [left; by apply tl_in|by right].
  - eexists _, _, _. split; [done|]. destruct HS as [HS|HS]; [left; by apply hd_false|by right].
Qed.

(** C33: [CutFromIOBufList] always returns.  The bytes it removes from the
    buffers are, in order, the bytes of the messages it posts, and it returns
    their number; no message is empty, larger than a receive buffer of the peer
    or has more elements than the device takes; every message lowers both windows by one and none
    goes below zero; it stops early only when a window is exhausted, reports
    EAGAIN only when that leaves nothing sent, and fails only when the device or
    unregistered memory makes it. *)
Theorem cut_from_iobuf_list_correct cfg oks bufs e : wf_cfg cfg -> Forall wf_buf bufs ->
  0 <= sq_window_size_ e < 2 ^ 31 -> 0 <= remote_rq_window_size_ e < 2 ^ 31 ->
  exists r e' bufs', CutFromIOBufList cfg false oks bufs e = Some (r, e', bufs') /\ write_spec cfg oks 0 bufs e r e' bufs'.
Proof.
  intros Hc Hwf Hsq Hrq. unfold CutFromIOBufList. fold (all_bytes bufs).
  apply (cut_loop_spec cfg _ oks 0 bufs e); try done. destruct bufs; lia.
Qed.

(** ** The writer, the poller and the device together

    The writer runs [CutFromIOBufList] while the poller handles completions.
    [outstanding] are the messages given to the device whose completion has not
    been handled, [batches] the sizes of their signaled batches (a completion
    reports the oldest batch), [acks] the outstanding immediate-only sends. *)
Inductive writer :=
| WIdle
| WLoop (rq_wnd sq_wnd : Z) (bufs : list Buf)
| WPosted (bufs : list Buf)     (* before the windows are lowered *)
| WDead.                        (* a write has failed: the endpoint is closed *)
Record TS := mkTS { t_ep : EP; t_w : writer; outstanding : list (list Sge); batches : list Z; acks : Z }.

Definition new_acks (e e' : EP) : Z := zlen (posted e') - zlen (posted e).

Inductive tstep (cfg : Cfg) : TS -> TS -> Prop :=
| t_start e out bt ak bufs : Forall wf_buf bufs ->
    tstep cfg (mkTS e WIdle out bt ak) (mkTS e (WLoop (u32 (remote_rq_window_size_ e)) (u32 (sq_window_size_ e)) bufs) out bt ak)
| t_send e rq sq bufs out bt ak w e' bufs' len : rq <> 0 -> sq <> 0 -> send_message cfg true rq sq bufs e = Sent w e' bufs' len ->
    tstep cfg (mkTS e (WLoop rq sq bufs) out bt ak)
              (mkTS e' (WPosted bufs') (out ++ [sg_list w]) (if signaled w then bt ++ [wr_id w] else bt) ak)
| t_lower e bufs out bt ak :
    tstep cfg (mkTS e (WPosted bufs) out bt ak)
              (mkTS (lower_windows e) (WLoop (u32 (remote_rq_window_size_ (lower_windows e))) (u32 (sq_window_size_ (lower_windows e))) bufs) out bt ak)
| t_return e rq sq bufs out bt ak : tstep cfg (mkTS e (WLoop rq sq bufs) out bt ak) (mkTS e WIdle out bt ak)
| t_broken e ok rq sq bufs out bt ak e' bufs' : rq <> 0 -> sq <> 0 -> send_message cfg ok rq sq bufs e = Broken e' bufs' ->
    tstep cfg (mkTS e (WLoop rq sq bufs) out bt ak) (mkTS e' WDead out bt ak)
| t_complete e w out n bt ak r s e' rc : HandleCompletion cfg r s (mkWC IBV_WC_SEND n 0 false 0) e = (rc, e') ->
    tstep cfg (mkTS e w out (n :: bt) ak) (mkTS e' w (drop (Z.to_nat n) out) bt ak)
| t_ack_done e w out bt ak r s e' rc : 0 < ak -> HandleCompletion cfg r s (mkWC IBV_WC_SEND 0 0 false 0) e = (rc, e') ->
    tstep cfg (mkTS e w out bt ak) (mkTS e' w out bt (ak - 1 + new_acks e e'))
| t_recv e w out bt ak r s len wi imm e' rc : HandleCompletion cfg r s (mkWC IBV_WC_RECV 0 len wi imm) e = (rc, e') ->
    tstep cfg (mkTS e w out bt ak) (mkTS e' w out bt (ak + new_acks e e')).

(** The endpoint after the handshake: [slots] is [sq_size_ - RESERVED_WR_NUM]. *)
Definition ready (cfg : Cfg) (slots : nat) (rbufs : Z) : EP :=
  mkEP (local_window_capacity_ cfg) (local_window_capacity_ cfg) 3 0 0 0 0 0 0 (replicate slots []) 0 rbufs 0 [].
Definition tstart (cfg : Cfg) (slots : nat) (rbufs : Z) : TS := mkTS (ready cfg slots rbufs) WIdle [] [] 0.

(** *** The ring of send buffers *)

Definition nslots (e : EP) : Z := zlen (sbuf_ e).
Definition pos (e : EP) (i : Z) : Z := (sq_sent_ e + i) mod nslots e.
Record ring (cfg : Cfg) (e : EP) (out : list (list Sge)) (clean : bool) : Prop := mk_ring {
  r_slots : 0 < nslots e;
  r_sent : 0 <= sq_sent_ e < nslots e;
  r_cur : sq_current_ e = pos e (zlen out);
  r_held : forall i m, out !! i = Some m -> map (sge_of cfg) (slot_of e (pos e (Z.of_nat i))) = m;
  r_free : clean = true -> forall i, zlen out <= i < nslots e -> slot_of e (pos e i) = []
}.

Lemma pos_range e i : 0 < nslots e -> 0 <= pos e i < nslots e.
Proof. intros. apply Z.mod_pos_bound. lia. Qed.
Lemma pos_inj e i j : 0 < nslots e -> 0 <= i < nslots e -> 0 <= j < nslots e -> pos e i = pos e j -> i = j.
Proof. intros. by apply (ring_inj (sq_sent_ e) i j (nslots e)). Qed.
Lemma wrap_mod s n : 0 <= s < n -> (if s + 1 =? n then 0 else s + 1) = (s + 1) mod n.
Proof.
  intros H. destruct (Z.eqb_spec (s + 1) n) as [->|]; [rewrite Z.mod_same; lia|]. rewrite Z.mod_small; lia.
Qed.
Lemma slot_put e i j b : 0 <= i < nslots e -> 0 <= j -> slot_of (put_slot i b e) j = if i =? j then b else slot_of e j.
Proof.
  intros Hi Hj. unfold slot_of, put_slot. cbn. destruct (Z.eqb_spec i j) as [->|Hne].
  - by rewrite list_lookup_insert_eq by (unfold nslots, zlen in *; lia).
  - by rewrite list_lookup_insert_ne by lia.
Qed.
Lemma slot_same e e' i : sbuf_ e' = sbuf_ e -> slot_of e' i = slot_of e i.
Proof. unfold slot_of. by intros ->. Qed.
Lemma ring_same cfg e e' out c : sbuf_ e' = sbuf_ e -> sq_sent_ e' = sq_sent_ e -> sq_current_ e' = sq_current_ e ->
  ring cfg e out c -> ring cfg e' out c.
Proof.
  intros E1 E2 E3 [A B C D F]. assert (nslots e' = nslots e) as En by (unfold nslots; by rewrite E1).
  assert (forall i, pos e' i = pos e i) as Ep by (intros; unfold pos; by rewrite E2, En).
  split; rewrite ?En, ?E2, ?E3, ?Ep; try done.
  - intros i m. rewrite Ep, (slot_same e e') by done. apply D.
  - intros Hc i. rewrite Ep, (slot_same e e') by done. by apply F.
Qed.

(** Releasing the slots of the [n] oldest messages. *)
Lemma release_one cfg e out c m : ring cfg e (m :: out) c -> zlen (m :: out) <= nslots e ->
  let s := sq_sent_ e + 1 in
  let e' := set_ring (sq_current_ e) (if s =? nslots e then 0 else s) (<[Z.to_nat (sq_sent_ e) := []]> (sbuf_ e)) e in
  ring cfg e' out c /\ nslots e' = nslots e.
Proof.
  intros [A B C D F] Hle. cbn zeta. rewrite wrap_mod by done.
  set (e' := set_ring (sq_current_ e) ((sq_sent_ e + 1) mod nslots e) (<[Z.to_nat (sq_sent_ e) := []]> (sbuf_ e)) e).
  assert (nslots e' = nslots e) as En by (unfold nslots, zlen; cbn; by rewrite length_insert).
  assert (forall i, 0 <= i -> pos e' i = pos e (i + 1)) as Ep.
  { intros i Hi. unfold pos. rewrite En. cbn. rewrite Zplus_mod_idemp_l. f_equal. lia. }
  assert (pos e 0 = sq_sent_ e) as E0 by (unfold pos; rewrite Z.add_0_r; by apply Z.mod_small).
  assert (forall p, 0 <= p -> slot_of e' p = if sq_sent_ e =? p then [] else slot_of e p) as Es.
  { intros p Hp. rewrite <- (slot_put e (sq_sent_ e) p []) by done. by apply slot_same. }
  rewrite zlen_cons in *. pose proof (zlen_nonneg out).
  split; [|done]. split.
  - lia.
  - rewrite En. cbn. apply Z.mod_pos_bound. lia.
  - rewrite Ep, Z.add_comm by lia. exact C.
  - intros i x Hx. rewrite Ep by lia. pose proof (lookup_lt_Some _ _ _ Hx). unfold zlen in *.
    rewrite Es by (apply pos_range; lia). destruct (Z.eqb_spec (sq_sent_ e) (pos e (Z.of_nat i + 1))) as [E|_].
    + rewrite <- E0 in E. apply pos_inj in E; lia.
    + specialize (D (S i) x Hx). by rewrite Nat2Z.inj_succ, <- Z.add_1_r in D.
  - intros Hc i Hi. rewrite En in Hi. rewrite Ep by lia. rewrite Es by (apply pos_range; lia).
    destruct (Z.eqb_spec (sq_sent_ e) (pos e (i + 1))) as [|Hne]; [done|].
    destruct (Z.eq_dec (i + 1) (nslots e)) as [E|]; [|apply F; [done|lia]].
    exfalso. apply Hne. unfold pos. rewrite E. rewrite <- (Z.mul_1_l (nslots e)) at 1. rewrite Z_mod_plus_full. by rewrite Z.mod_small.
Qed.
Lemma release_slots_ring cfg n : forall e out c, ring cfg e out c -> (n <= length out)%nat -> zlen out <= nslots e ->
  ring cfg (release_slots n e) (drop n out) c /\ nslots (release_slots n e) = nslots e.
Proof.
  induction n as [|n IH]; intros e out c HR Hn Hle; [done|]. destruct out as [|m out]; [cbn in Hn; lia|].
  cbn [release_slots drop]. rewrite (proj2 (Z.ltb_lt _ _)) by apply (r_sent _ _ _ _ HR).
  destruct (release_one cfg e out c m HR Hle) as [HR' En].
  rewrite <- En. apply IH; [done|cbn in Hn; lia|]. rewrite En. rewrite zlen_cons in Hle. lia.
Qed.
Lemma release_slots_fields n : forall e, let e' := release_slots n e in
  sq_window_size_ e' = sq_window_size_ e /\ remote_rq_window_size_ e' = remote_rq_window_size_ e /\ sq_imm_window_size_ e' = sq_imm_window_size_ e /\
  sq_unsignaled_ e' = sq_unsignaled_ e /\ posted e' = posted e.
Proof. induction n as [|n IH]; intros e; cbn; [done|]. destruct (_ <? _); [|apply IH]. exact (IH (set_ring _ _ _ e)). Qed.

(** *** Sending into the ring *)

Lemma pos_next e i : 0 < nslots e -> 0 <= i -> (if pos e i + 1 =? nslots e then 0 else pos e i + 1) = pos e (i + 1).
Proof.
  intros Hn Hi. rewrite wrap_mod by (by apply pos_range). unfold pos. rewrite Zplus_mod_idemp_l. f_equal. lia.
Qed.
(** Filling the slot at the head of the ring. *)
Lemma ring_put cfg e out T : ring cfg e out true -> zlen out < nslots e ->
  let e' := put_slot (sq_current_ e) T e in
  ring cfg e' out false /\ nslots e' = nslots e /\
  ring cfg (set_ring (pos e (zlen out + 1)) (sq_sent_ e) (sbuf_ e') e') (out ++ [map (sge_of cfg) T]) true.
Proof.
  intros [A B C D F] Hlt e'. pose proof (zlen_nonneg out).
  assert (nslots e' = nslots e) as En by (unfold nslots, zlen; cbn; by rewrite length_insert).
  assert (forall i, 0 <= i < nslots e -> slot_of e' (pos e i) = if decide (i = zlen out) then T else slot_of e (pos e i)) as Es.
  { intros i Hi. unfold e'. rewrite slot_put; [|rewrite C; by apply pos_range|by apply pos_range]. rewrite C.
    destruct (Z.eqb_spec (pos e (zlen out)) (pos e i)) as [E|Hne].
    - apply pos_inj in E; [|lia|lia|lia]. by rewrite decide_True.
    - rewrite decide_False; [done|]. by intros ->. }
  assert (forall i, pos e' i = pos e i) as Ep by (intros; unfold pos; by rewrite En).
  split; [|split; [done|]].
  - split; [by rewrite En|by rewrite En|by rewrite Ep| |done].
    intros i m Hm. pose proof (lookup_lt_Some _ _ _ Hm). rewrite Ep, Es, decide_False by (unfold zlen in *; lia). by apply D.
  - set (e2 := set_ring _ _ _ _). assert (nslots e2 = nslots e) as En2 by exact En.
    assert (forall i, pos e2 i = pos e i) as Ep2 by (intros; unfold pos; by rewrite En2).
    assert (forall i, slot_of e2 i = slot_of e' i) as Es2 by (intros; by apply slot_same).
    assert (zlen (out ++ [map (sge_of cfg) T]) = zlen out + 1) as Ez by (by rewrite zlen_app).
    split; rewrite ?En2, ?Ep2, ?Ez; try done.
    + intros i m Hm. rewrite Ep2, Es2. apply lookup_app_Some in Hm as [Hm|[Hge Hm]].
      * pose proof (lookup_lt_Some _ _ _ Hm). rewrite Es, decide_False by (unfold zlen in *; lia). by apply D.
      * apply list_lookup_singleton_Some in Hm as [Hi <-]. rewrite Es, decide_True by (unfold zlen in *; lia). done.
    + intros _ i Hi. rewrite Ep2, Es2, Es, decide_False by lia. apply F; [done|lia].
Qed.

Lemma send_ring cfg rq sq bufs e out w e' bufs' len : wf_cfg cfg -> Forall wf_buf bufs -> ring cfg e out true -> zlen out < nslots e ->
  send_message cfg true rq sq bufs e = Sent w e' bufs' len ->
  ring cfg e' (out ++ [sg_list w]) true /\ nslots e' = nslots e /\ sq_window_size_ e' = sq_window_size_ e /\
  sq_imm_window_size_ e' = sq_imm_window_size_ e /\ Forall wf_buf bufs' /\
  (if signaled w then wr_id w = sq_unsignaled_ e + 1 /\ sq_unsignaled_ e' = 0 else sq_unsignaled_ e' = sq_unsignaled_ e + 1).
Proof.
  intros Hc Hwf HR Hlt. pose proof (zlen_nonneg out). unfold send_message.
  destruct (gather_spec cfg bufs [] (slot_of e (sq_current_ e)) 0 Hc Hwf) as (T & E1 & E2 & HT & E3 & E4 & E5 & E6);
    [destruct Hc; lia|rewrite zlen_nil; destruct Hc; lia|].
  rewrite (r_cur _ _ _ _ HR) in E1 at 2. rewrite (r_free _ _ _ _ HR eq_refl) in E1 by lia. cbn [app] in E1, E2.
  set (g := gather cfg bufs [] (slot_of e (sq_current_ e)) 0) in *. clearbody g.
  destruct (g_ok g); cbn [negb]; [|done]. destruct (g_len g =? 0); [done|]. cbn [negb]. intros [= <- <- <- <-].
  destruct (ring_put cfg e out (g_to g) HR Hlt) as (_ & En & HR2). cbn [fst snd sg_list signaled wr_id].
  split; [|split_and!; try done; [by destruct (_ <=? _)]].
  replace (g_sges g) with (map (sge_of cfg) (g_to g)) by congruence.
  eapply ring_same; [| | |exact HR2]; try done.
  cbn. rewrite (r_cur _ _ _ _ HR). apply pos_next; [apply (r_slots _ _ _ _ HR)|lia].
Qed.
Lemma broken_ring cfg ok rq sq bufs e out e' bufs' : ring cfg e out true -> zlen out < nslots e ->
  send_message cfg ok rq sq bufs e = Broken e' bufs' ->
  ring cfg e' out false /\ nslots e' = nslots e /\ sq_window_size_ e' = sq_window_size_ e /\ sq_imm_window_size_ e' = sq_imm_window_size_ e.
Proof.
  intros HR Hlt. unfold send_message. set (g := gather cfg bufs [] _ 0).
  destruct (ring_put cfg e out (g_to g) HR Hlt) as (HR1 & En & _).
  destruct (g_ok g); cbn [negb]; [|by intros [= <- _]]. destruct (g_len g =? 0); [done|].
  destruct ok; cbn [negb]; [done|]. intros [= <- _]. split_and!; try done. by eapply ring_same; [| | |exact HR1].
Qed.

(** *** Completions *)

(** A change that leaves the ring, the send window and the batches alone. *)
Record aside (e e' : EP) : Prop := mk_aside {
  a_sbuf : sbuf_ e' = sbuf_ e;
  a_sent : sq_sent_ e' = sq_sent_ e;
  a_cur : sq_current_ e' = sq_current_ e;
  a_win : sq_window_size_ e' = sq_window_size_ e;
  a_uns : sq_unsignaled_ e' = sq_unsignaled_ e
}.
Lemma aside_trans e1 e2 e3 : aside e1 e2 -> aside e2 e3 -> aside e1 e3.
Proof. intros [] []. split; congruence. Qed.
Lemma aside_ring cfg e e' out c : aside e e' -> ring cfg e out c -> ring cfg e' out c.
Proof. intros []. by apply ring_same. Qed.

Lemma SendAck_aside cfg ok num e : let e' := snd (SendAck cfg ok num e) in
  aside e e' /\ sq_imm_window_size_ e' = sq_imm_window_size_ e - new_acks e e' /\ 0 <= new_acks e e' /\
  (0 < new_acks e e' -> 0 < sq_imm_window_size_ e /\ new_acks e e' = 1).
Proof.
  assert (forall e1, posted e1 = posted e -> new_acks e e1 = 0) as H0 by (intros e1 E; unfold new_acks; rewrite E; lia).
  unfold SendAck. destruct (_ && _) eqn:E; [|cbn; rewrite H0 by done; split; [done|lia]].
  apply andb_true_iff in E as [_ E]. apply Z.ltb_lt in E. cbn in E. unfold SendImm.
  destruct (_ =? 0); [cbn; rewrite H0 by done; split; [done|lia]|].
  destruct ok; cbn [negb snd]; [|cbn; rewrite H0 by done; split; [done|lia]].
  unfold new_acks. cbn. rewrite zlen_app. change (zlen [_]) with 1. split; [done|lia].
Qed.
Lemma PostRecv_aside oks num e : aside e (snd (PostRecv oks num e)) /\ sq_imm_window_size_ (snd (PostRecv oks num e)) = sq_imm_window_size_ e /\
  posted (snd (PostRecv oks num e)) = posted e.
Proof.
  unfold PostRecv. assert (forall n oks e, let x := snd (post_recv_loop oks n e) in aside e x /\ sq_imm_window_size_ x = sq_imm_window_size_ e /\ posted x = posted e) as H.
  { clear. induction n as [|n IH]; intros oks e; cbn; [done|]. destruct (hd true oks); [|done].
    destruct (IH (tl oks) (set_received (if rq_received_ e + 1 =? rbuf_size e then 0 else rq_received_ e + 1) e)) as ([] & ? & ?). done. }
  destruct (H (Z.to_nat num) oks e) as ([] & E2 & E3). destruct (fst _); cbn; done.
Qed.
Lemma recv_aside cfg r s len wi imm e : let e' := snd (HandleCompletion cfg r s (mkWC IBV_WC_RECV 0 len wi imm) e) in
  aside e e' /\ sq_imm_window_size_ e' = sq_imm_window_size_ e - new_acks e e' /\ 0 <= new_acks e e' /\
  (0 < new_acks e e' -> 0 < sq_imm_window_size_ e /\ new_acks e e' = 1).
Proof.
  unfold HandleCompletion. cbn [wc_opcode wc_with_imm wc_imm_data wc_byte_len].
  match goal with |- context [PostRecv [r] 1 ?x] => set (e1 := x) end.
  assert (aside e e1 /\ sq_imm_window_size_ e1 = sq_imm_window_size_ e /\ posted e1 = posted e) as (A1 & I1 & P1).
  { unfold e1. destruct (_ && _); [|done]. destruct (_ && _); done. }
  clearbody e1. destruct (PostRecv_aside [r] 1 e1) as (A2 & I2 & P2). set (e2 := snd (PostRecv [r] 1 e1)) in *.
  assert (new_acks e e2 = 0) as N2 by (unfold new_acks; rewrite P2, P1; lia).
  destruct (fst _ <? 0); cbn [snd]; [rewrite N2; split; [by eapply aside_trans|lia]|].
  destruct (0 <? len); [|rewrite N2; split; [by eapply aside_trans|lia]].
  destruct (SendAck_aside cfg s 1 e2) as (A3 & I3 & P3 & Q3).
  assert (new_acks e (SendAck cfg s 1 e2).2 = new_acks e2 (SendAck cfg s 1 e2).2) as -> by (unfold new_acks; rewrite P2, P1; lia).
  rewrite I3, I2, I1 in *. split; [by eapply aside_trans; [eapply aside_trans|]|done].
Qed.

(** *** The invariant *)

Definition total_of (bt : list Z) : Z := foldr Z.add 0 bt.
Definition alive (w : writer) : bool := match w with WDead => false | _ => true end.
Definition unpaid (w : writer) : Z := match w with WPosted _ => 1 | _ => 0 end.
Definition local_ok (e : EP) (w : writer) : Prop :=
  match w with
  | WLoop _ sq bufs => 0 <= sq <= sq_window_size_ e /\ Forall wf_buf bufs
  | WPosted bufs => Forall wf_buf bufs
  | _ => True
  end.
Record tinv (cfg : Cfg) (n : Z) (s : TS) : Prop := mk_tinv {
  v_ring : ring cfg (t_ep s) (outstanding s) (alive (t_w s));
  v_slots : nslots (t_ep s) = n;
  v_win : sq_window_size_ (t_ep s) + zlen (outstanding s) = local_window_capacity_ cfg + unpaid (t_w s);
  v_out : zlen (outstanding s) <= local_window_capacity_ cfg;
  v_bat : exists d, 0 <= d /\ total_of (batches s) + d = zlen (outstanding s) /\ (alive (t_w s) = true -> d = sq_unsignaled_ (t_ep s));
  v_one : Forall (fun b => 1 <= b) (batches s);
  v_acks : acks s + sq_imm_window_size_ (t_ep s) = 3 /\ 0 <= acks s /\ 0 <= sq_imm_window_size_ (t_ep s);
  v_local : local_ok (t_ep s) (t_w s)
}.

Lemma total_snoc bt n : total_of (bt ++ [n]) = total_of bt + n.
Proof. unfold total_of. induction bt as [|b bt IH]; cbn [app foldr]; lia. Qed.
Lemma batches_nonneg bt : Forall (fun b => 1 <= b) bt -> 0 <= total_of bt.
Proof. unfold total_of. induction 1 as [|b bt Hb _ IH]; cbn [foldr]; lia. Qed.

(** A step of the poller that sends at most one acknowledgement. *)
Lemma aside_inv cfg n e w out bt ak e' k : tinv cfg n (mkTS e w out bt ak) -> aside e e' -> 
  sq_imm_window_size_ e' = sq_imm_window_size_ e + k - new_acks e e' -> 0 <= new_acks e e' -> 0 <= k <= ak ->
  (0 < new_acks e e' -> 0 < sq_imm_window_size_ e + k /\ new_acks e e' = 1) ->
  tinv cfg n (mkTS e' w out bt (ak - k + new_acks e e')).
Proof.
  intros [V1 V2 V3 V4 V5 V6 V7 V8] A EI Hn Hk Hone. cbn in *. pose proof A as [A1 A2 A3 A4 A5]. split; cbn.
  - by apply (aside_ring cfg e).
  - unfold nslots in *. by rewrite A1.
  - by rewrite A4.
  - done.
  - by rewrite A5.
  - done.
  - lia.
  - destruct w; cbn in *; try done. by rewrite A4.
Qed.

Lemma complete_inv cfg n e w out b bt ak r s : tinv cfg n (mkTS e w out (b :: bt) ak) -> local_window_capacity_ cfg <= n ->
  tinv cfg n (mkTS (snd (HandleCompletion cfg r s (mkWC IBV_WC_SEND b 0 false 0) e)) w (drop (Z.to_nat b) out) bt ak).
Proof.
  intros [V1 V2 V3 V4 (d & Hd & Ed & Ea) V6 V7 V8] Hcap. cbn [t_ep t_w outstanding batches acks] in *. apply Forall_cons in V6 as [Hb V6].
  pose proof (batches_nonneg _ V6). cbn [total_of foldr] in Ed. fold (total_of bt) in Ed.
  assert (Z.to_nat b <= length out)%nat as Hlen by (unfold zlen in *; lia).
  destruct (release_slots_ring cfg (Z.to_nat b) e out _ V1 Hlen) as [HR En]; [lia|].
  destruct (release_slots_fields (Z.to_nat b) e) as (F1 & F2 & F3 & F4 & F5).
  unfold HandleCompletion. cbn [wc_opcode wc_wr_id]. destruct (Z.eqb_spec b 0); [lia|]. cbn [snd].
  set (e1 := release_slots (Z.to_nat b) e) in *. clearbody e1.
  match goal with |- tinv _ _ (mkTS ?x _ _ _ _) => assert (x = set_windows (sq_window_size_ e1 + b) (remote_rq_window_size_ e1) e1 \/
     x = WakeForWritable (set_windows (sq_window_size_ e1 + b) (remote_rq_window_size_ e1) e1)) as HX by (destruct (_ <=? _); auto); set (e2 := x) in * end.
  clearbody e2. assert (sbuf_ e2 = sbuf_ e1 /\ sq_sent_ e2 = sq_sent_ e1 /\ sq_current_ e2 = sq_current_ e1 /\
     sq_window_size_ e2 = sq_window_size_ e1 + b /\ sq_unsignaled_ e2 = sq_unsignaled_ e1 /\ sq_imm_window_size_ e2 = sq_imm_window_size_ e1)
     as (G1 & G2 & G3 & G4 & G5 & G6) by (by destruct HX as [-> | ->]). clear HX.
  assert (zlen (drop (Z.to_nat b) out) = zlen out - b) as Ez by (unfold zlen in *; rewrite length_drop; lia).
  split; cbn [t_ep t_w outstanding batches acks].
  - by apply (ring_same cfg e1).
  - unfold nslots in *. by rewrite G1, En.
  - lia.
  - lia.
  - exists d. split_and!; [done|lia|]. intros Hal. rewrite G5, F4. by apply Ea.
  - done.
  - by rewrite G6, F3.
  - destruct w; cbn in *; try done. destruct V8. split; [lia|done].
Qed.

Lemma send_inv cfg n rq sq bufs e out bt ak w e' bufs' len : wf_cfg cfg -> local_window_capacity_ cfg <= n ->
  tinv cfg n (mkTS e (WLoop rq sq bufs) out bt ak) -> sq <> 0 -> send_message cfg true rq sq bufs e = Sent w e' bufs' len ->
  tinv cfg n (mkTS e' (WPosted bufs') (out ++ [sg_list w]) (if signaled w then bt ++ [wr_id w] else bt) ak).
Proof.
  intros Hc Hcap [V1 V2 V3 V4 (d & Hd & Ed & Ea) V6 V7 V8] Hsq Hs. cbn [t_ep t_w outstanding batches acks alive unpaid] in *. destruct V8 as [V8 V9].
  specialize (Ea eq_refl). subst d.
  destruct (send_ring cfg rq sq bufs e out w e' bufs' len Hc V9 V1) as (HR & En & F1 & F2 & F3 & F4); [lia|done|].
  assert (zlen (out ++ [sg_list w]) = zlen out + 1) as Ez by (by rewrite zlen_app).
  split; cbn [t_ep t_w outstanding batches acks alive unpaid]; rewrite ?Ez; try done; try lia.
  - exists (sq_unsignaled_ e'). destruct (signaled w); [destruct F4 as [-> ->]; rewrite total_snoc|rewrite F4]; (split; [lia|split; [lia|done]]).
  - destruct (signaled w); [|done]. apply Forall_app. split; [done|]. apply Forall_singleton. destruct F4. lia.
Qed.

Lemma tstep_inv cfg n s s' : wf_cfg cfg -> 0 <= local_window_capacity_ cfg < 2 ^ 31 -> local_window_capacity_ cfg <= n ->
  tinv cfg n s -> tstep cfg s s' -> tinv cfg n s'.
Proof.
  intros Hc Hcap Hn HI Hs. destruct Hs.
  - destruct HI as [V1 V2 V3 V4 V5 V6 V7 V8]. cbn in *. split; cbn; try done. pose proof (zlen_nonneg out).
    rewrite u32_small by (unfold is_u32; lia). split; [lia|done].
  - by eapply send_inv.
  - destruct HI as [V1 V2 V3 V4 V5 V6 V7 V8]. cbn in *. split; cbn; try done; [|lia|].
    + by apply (ring_same cfg e).
    + rewrite u32_small by (unfold is_u32; pose proof (zlen_nonneg out); lia). split; [lia|done].
  - destruct HI as [V1 V2 V3 V4 V5 V6 V7 V8]. cbn in *. by split.
  - destruct HI as [V1 V2 V3 V4 (d & Hd & Ed & _) V6 V7 [V8 V9]]. cbn in *.
    destruct (broken_ring cfg ok rq sq bufs e out e' bufs' V1) as (HR & En & F1 & F2); [lia|done|].
    split; cbn; try done; try lia. by exists d.
  - pose proof (complete_inv cfg n e w out n0 bt ak r s HI Hn) as HC. match goal with E : HandleCompletion _ _ _ _ _ = _ |- _ => by rewrite E in HC end.
  - match goal with E : HandleCompletion _ _ _ _ _ = _ |- _ => assert (e' = snd (HandleCompletion cfg r s (mkWC IBV_WC_SEND 0 0 false 0) e)) as Ee by (by rewrite E) end.
    destruct (SendAck_aside cfg s 0 (set_imm_window (sq_imm_window_size_ e + 1) e)) as (A & B & C & D). cbn in Ee. rewrite <- Ee in A, B, C, D.
    change (new_acks (set_imm_window (sq_imm_window_size_ e + 1) e) e') with (new_acks e e') in *. cbn in B, D.
    apply (aside_inv cfg n e w out bt ak e' 1); [done|by destruct A|exact B|exact C|lia|exact D].
  - match goal with E : HandleCompletion _ _ _ _ _ = _ |- _ => assert (e' = snd (HandleCompletion cfg r s (mkWC IBV_WC_RECV 0 len wi imm) e)) as Ee by (by rewrite E) end.
    destruct (recv_aside cfg r s len wi imm e) as (A & B & C & D). rewrite <- Ee in A, B, C, D.
    replace (ak + new_acks e e') with (ak - 0 + new_acks e e') by lia.
    apply (aside_inv cfg n e w out bt ak e' 0); [done|done|lia|done| |intros H1; specialize (D H1); lia].
    destruct HI as [_ _ _ _ _ _ V7 _]. cbn in V7. lia.
Qed.

Lemma tstart_inv cfg slots rbufs : 0 < Z.of_nat slots -> 0 <= local_window_capacity_ cfg -> tinv cfg (Z.of_nat slots) (tstart cfg slots rbufs).
Proof.
  intros Hs Hc. assert (nslots (ready cfg slots rbufs) = Z.of_nat slots) as En by (unfold nslots, zlen; cbn; by rewrite length_replicate).
  split; cbn; try done; try lia.
  - split; cbn; rewrite ?En; try done; try lia.
    intros _ i _. unfold slot_of. cbn. destruct (replicate slots [] !! _) as [b|] eqn:E; [|done]. by apply lookup_replicate in E as [-> _].
  - exists 0. done.
Qed.

(** ** Theorems *)

(** C34: While the writer sends and the poller handles completions in any
    interleaving, the buffer of every message that the device may still read is
    in its ring slot, unchanged, and the messages and acknowledgements given to
    the device never exceed the window and the reserved entries, so that they fit
    a send queue of [local_window_capacity_ + RESERVED_WR_NUM] entries. *)
Theorem send_buffers_safe cfg slots rbufs s : wf_cfg cfg -> 0 < local_window_capacity_ cfg < 2 ^ 31 ->
  local_window_capacity_ cfg <= Z.of_nat slots -> rtc (tstep cfg) (tstart cfg slots rbufs) s ->
  (forall i m, outstanding s !! i = Some m -> exists b, sbuf_ (t_ep s) !! Z.to_nat (pos (t_ep s) (Z.of_nat i)) = Some b /\ map (sge_of cfg) b = m) /\
  zlen (outstanding s) + acks s <= local_window_capacity_ cfg + 3.
Proof.
  intros Hc Hcap Hn HR. assert (tinv cfg (Z.of_nat slots) s) as [V1 V2 V3 V4 V5 V6 V7 V8].
  { apply (rtc_ind_r (R := tstep cfg) (tinv cfg (Z.of_nat slots)) (tstart cfg slots rbufs)); [apply tstart_inv; lia| |exact HR].
    intros a b _ Hab HI. eapply tstep_inv; try done; lia. }
  split; [|lia]. intros i m Hm. pose proof (pos_range (t_ep s) (Z.of_nat i) (r_slots _ _ _ _ V1)).
  destruct (lookup_lt_is_Some_2 (sbuf_ (t_ep s)) (Z.to_nat (pos (t_ep s) (Z.of_nat i)))) as [b Eb]; [unfold nslots, zlen in *; lia|].
  exists b. split; [done|]. rewrite <- (r_held _ _ _ _ V1 i m Hm). unfold slot_of. by rewrite Eb.
Qed.

(** Receive credits do not come back: the peer sends a credit count in
    network byte order with [htonl], and [HandleCompletion] reads it with
    [ntohs], which keeps the wrong half.  Every count below 65536 is taken for
    zero and leaves the remote window as it was, so an endpoint can send
    [local_window_capacity_] messages and then never again. *)
Theorem recv_credits_lost cfg r s len imm e : 0 <= imm < 65536 -> 0 <= remote_rq_window_size_ e < 2 ^ 31 ->
  remote_rq_window_size_ (snd (HandleCompletion cfg r s (mkWC IBV_WC_RECV 0 len true (htonl imm)) e)) = remote_rq_window_size_ e.
Proof.
  intros Hi Hr. unfold HandleCompletion. cbn [wc_opcode wc_with_imm wc_imm_data wc_byte_len].
  assert (ntohs (htonl imm) = 0) as -> by (rewrite ntohs_htonl by (unfold is_u32; lia); apply Z.div_small; lia).
  rewrite Z.add_0_r, i32_small by lia.
  match goal with |- context [PostRecv [r] 1 ?x] => set (e1 := x) end.
  assert (remote_rq_window_size_ e1 = remote_rq_window_size_ e) as E1 by (unfold e1; destruct (_ && _); [destruct (_ && _)|]; done).
  clearbody e1. rewrite <- E1. clear.
  assert (remote_rq_window_size_ (snd (PostRecv [r] 1 e1)) = remote_rq_window_size_ e1) as E2 by (unfold PostRecv; cbn; destruct r; done).
  destruct (fst _ <? 0); cbn [snd]; [done|]. destruct (0 <? len); [|done]. rewrite <- E2. unfold SendAck.
  destruct (_ && _); [|done]. unfold SendImm. destruct (_ =? 0); [done|]. by destruct s.
Qed.

(** Every data message that is received hands out two credits for the one
    receive buffer that is posted again: [PostRecv] counts it and the
    [SendAck(1)] after it counts it once more. *)
Theorem recv_credits_doubled cfg s len e : 0 < len -> 0 <= new_rq_wrs_ e -> new_rq_wrs_ e + 2 <= remote_window_capacity_ cfg ÷ 2 < 2 ^ 31 ->
  new_rq_wrs_ (snd (HandleCompletion cfg true s (mkWC IBV_WC_RECV 0 len false 0) e)) = new_rq_wrs_ e + 2.
Proof.
  intros Hl H0 Hc. unfold HandleCompletion. cbn [wc_opcode wc_with_imm wc_imm_data wc_byte_len andb].
  assert (PostRecv [true] 1 e = (0, set_new_rq_wrs (i32 (new_rq_wrs_ e + 1)) (set_received (if rq_received_ e + 1 =? rbuf_size e then 0 else rq_received_ e + 1) e)))
    as -> by reflexivity.
  rewrite (i32_small (new_rq_wrs_ e + 1)) by lia. cbn [fst snd]. change (0 <? 0) with false. cbn iota.
  rewrite (proj2 (Z.ltb_lt 0 len)) by done. unfold SendAck. cbn [new_rq_wrs_ set_new_rq_wrs set_received snd].
  rewrite i32_small by lia. destruct (Z.ltb_spec (remote_window_capacity_ cfg ÷ 2) (new_rq_wrs_ e + 1 + 1)); [lia|]. cbn [andb].
  change (new_rq_wrs_ e + 1 + 1 = new_rq_wrs_ e + 2). lia.
Qed.

(** Concrete runs: three slots, a device that takes two elements. *)
Definition demo_cfg : Cfg := mkCfg 2 1024 3 3 (fun a => if a <? 100 then 7 else 0).
Definition demo_bufs : list Buf := [[mkSeg 10 [1; 2]; mkSeg 20 [3]]; [mkSeg 30 [4; 5]]].
Lemma demo_cfg_wf : wf_cfg demo_cfg.
Proof. by split. Qed.
Lemma demo_bufs_wf : Forall wf_buf demo_bufs.
Proof. repeat constructor; done. Qed.

Lemma cut_from_iobuf_list_correct_witness : exists r e' bufs',
  CutFromIOBufList demo_cfg false [] demo_bufs (ready demo_cfg 3 4) = Some (r, e', bufs') /\ r = Wrote 5 /\
  write_spec demo_cfg [] 0 demo_bufs (ready demo_cfg 3 4) r e' bufs'.
Proof.
  destruct (cut_from_iobuf_list_correct demo_cfg [] demo_bufs (ready demo_cfg 3 4) demo_cfg_wf demo_bufs_wf) as (r & e' & bufs' & E & HW);
    [cbn; lia|cbn; lia|].
  exists r, e', bufs'. split; [done|]. split; [|done]. vm_compute in E. by injection E as <- _ _.
Defined.

Lemma send_buffers_safe_witness : exists s w, rtc (tstep demo_cfg) (tstart demo_cfg 3 4) s /\ outstanding s = [sg_list w] /\
  zlen (outstanding s) + acks s <= 6.
Proof.
  destruct (send_message demo_cfg true 3 3 demo_bufs (ready demo_cfg 3 4)) as [w e bufs len| |] eqn:E; [|vm_compute in E; discriminate E|vm_compute in E; discriminate E].
  assert (rtc (tstep demo_cfg) (tstart demo_cfg 3 4) (mkTS e (WPosted bufs) ([] ++ [sg_list w]) (if signaled w then [] ++ [wr_id w] else []) 0)) as HR.
  { eapply rtc_l; [apply (t_start demo_cfg (ready demo_cfg 3 4) [] [] 0 demo_bufs demo_bufs_wf)|].
    eapply rtc_l; [|apply rtc_refl]. eapply (t_send demo_cfg (ready demo_cfg 3 4) 3 3 demo_bufs); [done|done|exact E]. }
  exists (mkTS e (WPosted bufs) ([] ++ [sg_list w]) (if signaled w then [] ++ [wr_id w] else []) 0), w. split; [exact HR|]. split; [done|].
  apply (send_buffers_safe demo_cfg 3 4 _ demo_cfg_wf); [cbn; lia|cbn; lia|exact HR].
Defined.

Lemma recv_credits_lost_witness :
  remote_rq_window_size_ (snd (HandleCompletion demo_cfg true true (mkWC IBV_WC_RECV 0 0 true (htonl 5)) (ready demo_cfg 3 4))) = 3.
Proof. apply (recv_credits_lost demo_cfg true true 0 5 (ready demo_cfg 3 4)); cbn; lia. Defined.

Definition wide_cfg : Cfg := mkCfg 2 1024 125 125 (fun _ => 7).
Lemma recv_credits_doubled_witness :
  new_rq_wrs_ (snd (HandleCompletion wide_cfg true true (mkWC IBV_WC_RECV 0 10 false 0) (ready wide_cfg 125 128))) = 2.
Proof. apply (recv_credits_doubled wide_cfg true 10 (ready wide_cfg 125 128)); [lia|cbn; lia|]. change (remote_window_capacity_ wide_cfg ÷ 2) with 62. cbn. lia. Defined.

End Tr.
