(* ===== verification/Rpc.v ===== *)
(** * Remote calls: the channel and the server

    [CallMethod], [OnProcessResponse], [RegisterPending], [WaitForLargeWritable]
    and [OnEndpointFailed] of [fast_channel.cc], [OnProcessRequest],
    [SendErrorResponse], [WaitForLargeWritable] and [ReturnRPCResponse] of
    [fast_server.cc], and of [fast_rdma_endpoint.cc] what they use to move large
    frames by RDMA writes: the store of frames, [CutSegFromIOBuf],
    [PostLargeWriteRecv] and the completions of the data queue pair.  Protobuf is
    a parameter: its serializer and parsers, and the services' method tables.

    A received frame is the list of its segments (the references of its IOBuf):
    the handlers read a header word through the pointer to the first byte, which
    is the word only if the first segment holds all four bytes of it.
    [StartWrite] is modelled in the file [WriteQueue]; here it only appends the
    frame to the ones sent. *)
From stdpp Require Import strings.
From S2P Require Import Prelude.
Local Open Scope Z_scope.

Module Rpc.

(** ** Constants *)

Inductive MessageType := MSG_NORMAL | MSG_NOTIFY | MSG_AUTHORITY | MSG_NORMAL_RESPONSE.
Definition msg_code (t : MessageType) : Z :=
  match t with MSG_NORMAL => 0 | MSG_NOTIFY => 1 | MSG_AUTHORITY => 2 | MSG_NORMAL_RESPONSE => 3 end.
Definition ERR_SUCCESS : Z := 0.
Definition ERR_UNKNOWN_SERVICE : Z := 1.
Definition ERR_UNKNOWN_METHOD : Z := 2.
Definition ERR_BAD_REQUEST : Z := 3.
Definition ERR_BAD_RESPONSE : Z := 4.
Definition ERR_INTERNAL : Z := 5.
Definition kNotifyFrameBytes : Z := 16.
Definition kAuthFrameBytes : Z := 24.
Definition msg_threshold : Z := 2 * 1024 * 1024.
Definition kMaxLargeTransfers : Z := 8.
Definition MAX_SGE : nat := 32.

(** ** Received frames *)

Abbreviation Frame := (list (list Z)).
Definition frame_len (f : Frame) : Z := zlen (concat f).

(** [ntohl] of the word that the pointer [fetch1()] refers to.  An empty frame
    gives a null pointer; a short first segment is read past its end. *)
Definition fetch32 (f : Frame) : option Z :=
  match f with
  | [] => None
  | g :: _ => if (4 <=? length g)%nat then Some (ntohl (load32 g)) else None
  end.
Fixpoint pop_front (n : nat) (f : Frame) : Frame :=
  match f with
  | [] => []
  | g :: f' => if (n =? 0)%nat then f else if (length g <=? n)%nat then pop_front (n - length g) f' else drop n g :: f'
  end.
(** [cutn(&out, n)]: the bytes cut off, and the frame left. *)
Definition cut_bytes (n : Z) (f : Frame) : list Z * Frame := (take (Z.to_nat n) (concat f), pop_front (Z.to_nat n) f).

(** The first [k] words can be read. *)
Fixpoint whole (k : nat) (f : Frame) : Prop :=
  match k with O => True | S k' => is_Some (fetch32 f) /\ whole k' (pop_front 4 f) end.

(** ** The endpoint as the handlers see it *)

(** [sent] are the frames given to [StartWrite] in order, [rdma_writes] the
    payloads written to the peer's memory: key, address, immediate, bytes. *)
Record Ep := mkEp {
  ep_failed : bool;
  sent : list (list Z);
  pending_large_frames_ : gmap Z Frame;
  pending_large_map_ : gmap Z Z;
  large_recvs : list Z;
  rdma_writes : list (Z * Z * Z * list Z);
  active_large_transfers_ : Z
}.
Definition new_Ep : Ep := mkEp false [] ∅ ∅ [] [] 0.
(** [StartWrite] refuses when the endpoint has failed or memory is short ([ok]). *)
Definition StartWrite (ok : bool) (f : list Z) (e : Ep) : bool * Ep :=
  if ep_failed e || negb ok then (false, e) else
  (true, mkEp (ep_failed e) (sent e ++ [f]) (pending_large_frames_ e) (pending_large_map_ e) (large_recvs e) (rdma_writes e) (active_large_transfers_ e)).
Definition SetFailed (e : Ep) : Ep :=
  mkEp true (sent e) (pending_large_frames_ e) (pending_large_map_ e) (large_recvs e) (rdma_writes e) (active_large_transfers_ e).
Definition set_frames m (e : Ep) : Ep :=
  mkEp (ep_failed e) (sent e) m (pending_large_map_ e) (large_recvs e) (rdma_writes e) (active_large_transfers_ e).
Definition set_large_map m (e : Ep) : Ep :=
  mkEp (ep_failed e) (sent e) (pending_large_frames_ e) m (large_recvs e) (rdma_writes e) (active_large_transfers_ e).
Definition set_active n (e : Ep) : Ep :=
  mkEp (ep_failed e) (sent e) (pending_large_frames_ e) (pending_large_map_ e) (large_recvs e) (rdma_writes e) n.
Definition StoreLargeFrame (rpc_id : Z) (f : Frame) (e : Ep) : Ep := set_frames (<[rpc_id := f]> (pending_large_frames_ e)) e.
Definition GetLargeFrame (rpc_id : Z) (e : Ep) : option Frame := pending_large_frames_ e !! rpc_id.
Definition ReleaseLargeFrame (rpc_id : Z) (e : Ep) : Ep := set_frames (delete rpc_id (pending_large_frames_ e)) e.
Definition CanStartLargeTransfer (e : Ep) : bool := active_large_transfers_ e <? kMaxLargeTransfers.
Definition StartLargeTransfer (e : Ep) : Ep := set_active (active_large_transfers_ e + 1) e.
Definition OnLargeTransferComplete (e : Ep) : Ep := set_active (active_large_transfers_ e - 1) e.
Definition PostLargeWriteRecv (ok : bool) (rkey : Z) (e : Ep) : Ep := if ep_failed e || negb ok then e else
  mkEp (ep_failed e) (sent e) (pending_large_frames_ e) (pending_large_map_ e) (large_recvs e ++ [rkey]) (rdma_writes e) (active_large_transfers_ e).

(** [CutSegFromIOBuf]: at most [MAX_SGE] segments are put into the request;
    [registered] tells whether a segment is in registered memory, [ok] whether
    the device takes the request. *)
Definition CutSegFromIOBuf (registered : list Z -> bool) (ok : bool) (f : Frame) (rkey addr imm : Z) (e : Ep) : Z * Ep :=
  if ep_failed e then (-1, e) else
  let segs := take MAX_SGE f in
  if negb (forallb registered segs) then (-1, e) else
  if negb ok then (-1, e) else
  (zlen (concat segs), mkEp (ep_failed e) (sent e) (pending_large_frames_ e) (pending_large_map_ e) (large_recvs e)
     (rdma_writes e ++ [(rkey, addr, imm, concat segs)]) (active_large_transfers_ e)).

(** A completion of the data queue pair: the frame that the peer has written
    to the block with the key [rkey], to be appended to [read_buf_]. *)
Definition on_data_recv (rkey : Z) (written : list Z) (e : Ep) : option Frame * Ep :=
  match pending_large_map_ e !! rkey with
  | Some _ => (Some [written], set_large_map (delete rkey (pending_large_map_ e)) e)
  | None => (None, e)
  end.
(** The completion of a large write. *)
Definition on_data_send (rpc_id : Z) (e : Ep) : Ep := OnLargeTransferComplete (ReleaseLargeFrame rpc_id e).

(** What the device and the allocator answer during one handler: to posting a
    receive, to [StartWrite] and to posting a large write. *)
Record Env := mkEnv { recv_ok : bool; write_ok : bool; send_ok : bool }.

(** ** Frames *)

Definition header (total_len : Z) (t : MessageType) (rpc_id : Z) : list Z := be32 total_len ++ be32 (msg_code t) ++ be32 rpc_id.
Definition request_frame (rpc_id : Z) (meta payload attachment : list Z) : list Z :=
  header (u32 (16 + zlen meta + zlen payload + zlen attachment)) MSG_NORMAL rpc_id ++ be32 (u32 (zlen meta)) ++ meta ++ payload ++ attachment.
Definition notify_frame (rpc_id total_len : Z) : list Z := header kNotifyFrameBytes MSG_NOTIFY rpc_id ++ be32 total_len.
Definition auth_frame (rpc_id rkey addr : Z) : list Z :=
  header kAuthFrameBytes MSG_AUTHORITY rpc_id ++ be32 rkey ++ be32 (u32 (Z.shiftr addr 32)) ++ be32 (Z.land addr 0xFFFFFFFF).
Definition response_frame (rpc_id error_code : Z) (payload attachment : list Z) : list Z :=
  header (u32 (20 + zlen payload + zlen attachment)) MSG_NORMAL_RESPONSE rpc_id ++ be32 error_code ++ be32 (u32 (zlen attachment)) ++ payload ++ attachment.
Definition error_frame (rpc_id error_code : Z) : list Z := header 20 MSG_NORMAL_RESPONSE rpc_id ++ be32 error_code ++ be32 0.

Record Meta := mkMeta { m_rpc_id : Z; m_service : string; m_method : string; m_attachment_size : Z }.

Section rpc.
(** Protobuf and the services. *)
Context (Msg : Type) (serialize : Msg -> list Z) (serialize_meta : Meta -> list Z) (parse_meta : list Z -> option Meta).
Context (parse_request : string -> string -> list Z -> option Msg) (parse_response : list Z -> option Msg).
Context (methods : gmap string (gset string)).
(** [LargeBlockAlloc]: the key and the address of a registered block. *)
Context (LargeBlockAlloc : Z -> option (Z * Z)) (registered : list Z -> bool).
(** How the IOBuf of a frame divides its bytes into segments. *)
Context (segment : list Z -> Frame).

(** ** The client *)

Record PendingRequest := mkPending {
  p_done : bool; p_transport_error : Z; p_timed_out : bool; p_error_code : Z; p_response : option Msg; p_attachment : list Z
}.
Definition new_pending : PendingRequest := mkPending false 0 false 0 None [].

Record Channel := mkChannel {
  endpoint_ : Ep;
  closed_ : bool;
  rpc_id_ : Z;
  request_attachment_ : list Z;
  response_attachment_ : list Z;
  connection_error_ : Z;
  pending_map_ : gmap Z PendingRequest
}.
Definition set_ep e c := mkChannel e (closed_ c) (rpc_id_ c) (request_attachment_ c) (response_attachment_ c) (connection_error_ c) (pending_map_ c).
Definition set_map m c := mkChannel (endpoint_ c) (closed_ c) (rpc_id_ c) (request_attachment_ c) (response_attachment_ c) (connection_error_ c) m.
Definition set_pending id p c := set_map (<[id := p]> (pending_map_ c)) c.

(** [OnEndpointFailed]: every call that is not done ends with the error. *)
Definition fail_pending (error : Z) (p : PendingRequest) : PendingRequest :=
  if p_done p then p else mkPending true error (p_timed_out p) (p_error_code p) (p_response p) (p_attachment p).
Definition OnEndpointFailed (error : Z) (c : Channel) : Channel :=
  let err := if connection_error_ c =? 0 then error else connection_error_ c in
  mkChannel (endpoint_ c) true (rpc_id_ c) (request_attachment_ c) (response_attachment_ c) err
            (fail_pending err <$> pending_map_ c).
(** [endpoint_->SetFailed(error)]: only the call that fails the endpoint runs
    the failure handler. *)
Definition channel_SetFailed (error : Z) (c : Channel) : Channel :=
  if ep_failed (endpoint_ c) then c else OnEndpointFailed error (set_ep (SetFailed (endpoint_ c)) c).

Definition RegisterPending (id : Z) (c : Channel) : bool * Channel :=
  if negb (connection_error_ c =? 0) then (false, c) else (true, set_pending id new_pending c).

(** [None]: all [kMaxLargeTransfers] turns are taken and the caller waits. *)
Definition WaitForLargeWritable (c : Channel) : option (bool * Channel) :=
  if closed_ c then Some (false, c) else
  if CanStartLargeTransfer (endpoint_ c) then Some (true, set_ep (StartLargeTransfer (endpoint_ c)) c) else None.

(** What [CallMethod] tells the controller. *)
Inductive call_result :=
| Done (response : option Msg)                     (* no error *)
| ChannelClosed | ConnectionFailed | StartWriteFailed | RpcTimeout
| TransportError (errno : Z)
| ServerUnknownService | ServerUnknownMethod | ServerBadRequest | ClientBadResponse | ServerInternal | UnknownError.
(** Where a call is: it has returned, waits for a turn to send the large frame,
    or waits for the response. *)
Inductive call_state :=
| Returned (r : call_result)
| WaitLarge (id total_len : Z) (frame : list Z)
| WaitResponse (id : Z).

(** [CallMethod] up to its first wait.  [addressed] is whether [Address] finds
    the endpoint alive, [ok] whether [StartWrite] finds memory. *)
Definition CallMethod_start (addressed ok : bool) (service method : string) (request : Msg) (c : Channel) : call_state * Channel :=
  if negb addressed then (Returned ChannelClosed, c) else
  let id := rpc_id_ c in
  let attachment := request_attachment_ c in
  let meta := serialize_meta (mkMeta id service method (u32 (zlen attachment))) in
  let payload := serialize request in
  let total_len := u32 (16 + zlen meta + zlen payload + zlen attachment) in
  let frame := request_frame id meta payload attachment in
  let c := mkChannel (endpoint_ c) (closed_ c) (u32 (id + 1)) [] (response_attachment_ c) (connection_error_ c) (pending_map_ c) in
  let x := RegisterPending id c in
  let c := snd x in
  if negb (fst x) then (Returned (TransportError (connection_error_ c)), c) else
  if msg_threshold <=? total_len then (WaitLarge id total_len frame, c) else
  let y := StartWrite ok frame (endpoint_ c) in
  if fst y then (WaitResponse id, set_ep (snd y) c)
  else (Returned StartWriteFailed, set_map (delete id (pending_map_ c)) c).

(** The large path, when the wait for a turn ends; [errno] is the error of a
    failed [StartWrite]. *)
Definition CallMethod_large (ok : bool) (errno id total_len : Z) (frame : list Z) (c : Channel) : option (call_state * Channel) :=
  x ← WaitForLargeWritable c;
  let c := snd x in
  if negb (fst x) then Some (Returned ConnectionFailed, set_map (delete id (pending_map_ c)) c) else
  let y := StartWrite ok (notify_frame id total_len) (StoreLargeFrame id (segment frame) (endpoint_ c)) in
  let c := set_ep (snd y) c in
  Some (WaitResponse id, if fst y then c else channel_SetFailed errno c).

(** The end of [CallMethod], once the call is done or the minute is over
    ([timeout]); [None] while it still waits. *)
Definition CallMethod_finish (id : Z) (timeout : bool) (c : Channel) : option (call_result * Channel) :=
  p ← pending_map_ c !! id;
  let c' := set_map (delete id (pending_map_ c)) c in
  if negb (p_done p) then (if timeout then Some (RpcTimeout, c') else None) else
  if negb (p_transport_error p =? 0) then Some (TransportError (p_transport_error p), c') else
  if negb (p_error_code p =? ERR_SUCCESS) then
    Some ((if p_error_code p =? ERR_UNKNOWN_SERVICE then ServerUnknownService else
           if p_error_code p =? ERR_UNKNOWN_METHOD then ServerUnknownMethod else
           if p_error_code p =? ERR_BAD_REQUEST then ServerBadRequest else
           if p_error_code p =? ERR_BAD_RESPONSE then ClientBadResponse else
           if p_error_code p =? ERR_INTERNAL then ServerInternal else UnknownError), c')
  else Some (Done (p_response p),
             mkChannel (endpoint_ c') (closed_ c') (rpc_id_ c') (request_attachment_ c') (p_attachment p) (connection_error_ c') (pending_map_ c')).

(** The part of both handlers for [MSG_NOTIFY] and [MSG_AUTHORITY]. *)
Definition on_notify (env : Env) (f : Frame) (rpc_id : Z) (e : Ep) : option (Z * Ep) :=
  data_total_len ← fetch32 f;
  match LargeBlockAlloc data_total_len with
  | None => Some (-1, e)
  | Some (rkey, addr) =>
      let e := snd (StartWrite (write_ok env) (auth_frame rpc_id rkey addr) (PostLargeWriteRecv (recv_ok env) rkey e)) in
      Some (0, set_large_map (<[rkey := addr]> (pending_large_map_ e)) e)
  end.
Definition on_authority (env : Env) (f : Frame) (rpc_id : Z) (e : Ep) : option (Z * Ep) :=
  rkey ← fetch32 f;
  let f := pop_front 4 f in
  hi ← fetch32 f;
  let f := pop_front 4 f in
  lo ← fetch32 f;
  let remote_addr := Z.lor (Z.shiftl hi 32) lo in
  match GetLargeFrame rpc_id e with
  | None => Some (-1, e)
  | Some large =>
      let x := CutSegFromIOBuf registered (send_ok env) large rkey remote_addr rkey e in
      if fst x <? 0 then Some (-1, OnLargeTransferComplete (ReleaseLargeFrame rpc_id (snd x))) else Some (0, snd x)
  end.

(** [OnProcessResponse]; [None] is a read through a null pointer or past the
    end of a segment. *)
Definition OnProcessResponse (env : Env) (f : Frame) (c : Channel) : option (Z * Channel) :=
  let f := pop_front 4 f in
  msg_type ← fetch32 f;
  let f := pop_front 4 f in
  rpc_id ← fetch32 f;
  let f := pop_front 4 f in
  if msg_type =? msg_code MSG_NOTIFY then x ← on_notify env f rpc_id (endpoint_ c); Some (fst x, set_ep (snd x) c) else
  if msg_type =? msg_code MSG_AUTHORITY then x ← on_authority env f rpc_id (endpoint_ c); Some (fst x, set_ep (snd x) c) else
  error_code ← fetch32 f;
  let f := pop_front 4 f in
  attachment_size ← fetch32 f;
  let f := pop_front 4 f in
  match pending_map_ c !! rpc_id with
  | None => Some (-1, c)
  | Some p =>
      if p_done p then Some (0, c) else
      let finish code resp att := set_pending rpc_id (mkPending true (p_transport_error p) (p_timed_out p) code resp att) c in
      if frame_len f <? attachment_size then Some (-1, finish ERR_BAD_RESPONSE (p_response p) (p_attachment p)) else
      let payload_len := frame_len f - attachment_size in
      if negb (error_code =? ERR_SUCCESS) then Some (-1, finish error_code (p_response p) (p_attachment p)) else
      let x := cut_bytes payload_len f in
      match parse_response (fst x) with
      | None => Some (-1, finish ERR_BAD_RESPONSE (p_response p) (p_attachment p))
      | Some m => Some (0, finish (p_error_code p) (Some m)
                             (if 0 <? attachment_size then p_attachment p ++ concat (snd x) else p_attachment p))
      end
  end.

(** ** The server *)

(** A call handed to a service: the call id, service, method, request and
    attachment. *)
Record Call := mkCall { call_id : Z; call_service : string; call_method : string; call_request : Msg; call_attachment : list Z }.

Definition SendErrorResponse (env : Env) (rpc_id code : Z) (e : Ep) : Ep := snd (StartWrite (write_ok env) (error_frame rpc_id code) e).

Definition OnProcessRequest (owner : bool) (env : Env) (f : Frame) (e : Ep) : option (Z * Ep * option Call) :=
  if negb owner then Some (-1, e, None) else
  if ep_failed e then Some (-1, e, None) else
  total_len ← fetch32 f;
  let f := pop_front 4 f in
  msg_type ← fetch32 f;
  let f := pop_front 4 f in
  rpc_id ← fetch32 f;
  let f := pop_front 4 f in
  if msg_type =? msg_code MSG_NOTIFY then x ← on_notify env f rpc_id e; Some (fst x, snd x, None) else
  if msg_type =? msg_code MSG_AUTHORITY then x ← on_authority env f rpc_id e; Some (fst x, snd x, None) else
  meta_len ← fetch32 f;
  let f := pop_front 4 f in
  let x := cut_bytes meta_len f in
  let f := snd x in
  match parse_meta (fst x) with
  | None => Some (-1, e, None)
  | Some meta =>
      let attachment_size := m_attachment_size meta in
      let header_size := u32 (16 + meta_len) in
      if (total_len <? header_size) || (total_len - header_size <? attachment_size)
      then Some (-1, SendErrorResponse env rpc_id ERR_BAD_REQUEST e, None) else
      let payload_len := total_len - header_size - attachment_size in
      match methods !! m_service meta with
      | None => Some (-1, SendErrorResponse env rpc_id ERR_UNKNOWN_SERVICE e, None)
      | Some ms =>
          if bool_decide (m_method meta ∈ ms) then
            let y := cut_bytes payload_len f in
            match parse_request (m_service meta) (m_method meta) (fst y) with
            | None => Some (-1, SendErrorResponse env rpc_id ERR_BAD_REQUEST e, None)
            | Some req => Some (0, e, Some (mkCall rpc_id (m_service meta) (m_method meta) req
                                             (if 0 <? attachment_size then concat (snd y) else [])))
            end
          else Some (-1, SendErrorResponse env rpc_id ERR_UNKNOWN_METHOD e, None)
      end
  end.

(** [ReturnRPCResponse] up to its wait: the second component, with the length of
    the frame, is set when the response waits for a turn to be written. *)
Definition ReturnRPCResponse (env : Env) (rpc_id error_code : Z) (response : option Msg) (attachment : list Z) (e : Ep) : Ep * option Z :=
  if ep_failed e then (e, None) else
  let payload := match response with Some m => serialize m | None => [] end in
  let total_len := u32 (20 + zlen payload + zlen attachment) in
  let frame := response_frame rpc_id error_code payload attachment in
  if msg_threshold <=? total_len then (StoreLargeFrame rpc_id (segment frame) e, Some total_len)
  else (snd (StartWrite (write_ok env) frame e), None).
(** The rest, when [WaitForLargeWritable(ep)] returns; [None] while it waits. *)
Definition server_WaitForLargeWritable (closed : bool) (e : Ep) : option (bool * Ep) :=
  if closed || ep_failed e then Some (false, e) else
  if CanStartLargeTransfer e then Some (true, StartLargeTransfer e) else None.
Definition ReturnRPCResponse_large (env : Env) (closed : bool) (rpc_id total_len : Z) (e : Ep) : option Ep :=
  match server_WaitForLargeWritable closed e with
  | None => None
  | Some (false, e) => Some e
  | Some (true, e) => Some (snd (StartWrite (write_ok env) (notify_frame rpc_id total_len) e))
  end.

(** ** Reading frames *)

Lemma pop_front_bytes f : forall n, concat (pop_front n f) = drop n (concat f).
Proof.
  induction f as [|g f IH]; intros n; cbn; [by rewrite drop_nil|].
  destruct (Nat.eqb_spec n 0) as [->|]; [done|]. destruct (Nat.leb_spec (length g) n).
  - rewrite IH, drop_app_ge by done. done.
  - cbn. by rewrite drop_app_le by lia.
Qed.
Lemma length_be32 x : length (be32 x) = 4%nat.
Proof. apply length_le_bytes. Qed.
Lemma fetch_be32 f x rest : is_Some (fetch32 f) -> concat f = be32 x ++ rest -> is_u32 x ->
  fetch32 f = Some x /\ concat (pop_front 4 f) = rest.
Proof.
  intros Hs E Hx. split; [|by rewrite pop_front_bytes, E, drop_app_length' by done].
  destruct f as [|g f]; [by destruct Hs|]. cbn [fetch32 concat] in *. destruct (Nat.leb_spec 4 (length g)) as [H4|]; [|by destruct Hs].
  f_equal. rewrite <- (load_be32 x rest Hx), <- E. f_equal. unfold load32. by rewrite take_app_le.
Qed.

Lemma take_zlen_app (a b : list Z) : take (Z.to_nat (zlen a)) (a ++ b) = a.
Proof. unfold zlen. by rewrite Nat2Z.id, take_app_length. Qed.
Lemma drop_zlen_app (a b : list Z) : drop (Z.to_nat (zlen a)) (a ++ b) = b.
Proof. unfold zlen. by rewrite Nat2Z.id, drop_app_length. Qed.
Lemma whole_cons k x f rest : whole (S k) f -> concat f = be32 x ++ rest -> is_u32 x ->
  fetch32 f = Some x /\ concat (pop_front 4 f) = rest /\ whole k (pop_front 4 f).
Proof. intros [Hs Hw] E Hx. destruct (fetch_be32 f x rest Hs E Hx). done. Qed.

(** Read the next word of the frame [f]. *)
Ltac next_word H E f :=
  let Hf := fresh "Hf" in let E' := fresh "E" in let H' := fresh "Hw" in
  destruct (whole_cons _ _ f _ H E) as (Hf & E' & H'); [|rewrite Hf; cbn [mbind option_bind]; clear H E; rename H' into H; rename E' into E].

Lemma msg_code_u32 t : is_u32 (msg_code t).
Proof. unfold is_u32. destruct t; cbn; lia. Qed.
Hint Resolve msg_code_u32 : core.
Lemma u32_is_u32 x : is_u32 (u32 x).
Proof. apply u32_range. Qed.

(** The request frame of a call, read back by the server. *)
Lemma request_read owner env e f id meta payload att m req : owner = true -> ep_failed e = false ->
  is_u32 id -> 16 + zlen meta + zlen payload + zlen att < 2 ^ 32 -> concat f = request_frame id meta payload att -> whole 4 f ->
  parse_meta meta = Some m -> m_attachment_size m = zlen att ->
  match methods !! m_service m with
  | Some ms => if bool_decide (m_method m ∈ ms)
               then parse_request (m_service m) (m_method m) payload = Some req ->
                    OnProcessRequest owner env f e = Some (0, e, Some (mkCall id (m_service m) (m_method m) req att))
               else OnProcessRequest owner env f e = Some (-1, SendErrorResponse env id ERR_UNKNOWN_METHOD e, None)
  | None => OnProcessRequest owner env f e = Some (-1, SendErrorResponse env id ERR_UNKNOWN_SERVICE e, None)
  end.
Proof.
  intros -> He Hid Hlen Hf Hw Hm Ha. pose proof (zlen_nonneg meta). pose proof (zlen_nonneg payload). pose proof (zlen_nonneg att).
  unfold OnProcessRequest. rewrite He. cbn [negb]. unfold request_frame, header in Hf. rewrite !u32_small in Hf by (unfold is_u32; lia).
  rewrite <- !app_assoc in Hf.
  next_word Hw Hf f; [unfold is_u32; lia|]. next_word Hw Hf (pop_front 4 f); [done|]. next_word Hw Hf (pop_front 4 (pop_front 4 f)); [done|].
  change (msg_code MSG_NORMAL =? msg_code MSG_NOTIFY) with false. change (msg_code MSG_NORMAL =? msg_code MSG_AUTHORITY) with false. cbn iota.
  next_word Hw Hf (pop_front 4 (pop_front 4 (pop_front 4 f))); [unfold is_u32; lia|].
  set (f4 := pop_front 4 (pop_front 4 (pop_front 4 (pop_front 4 f)))) in *. clearbody f4.
  unfold cut_bytes. cbn [fst snd]. rewrite Hf, take_zlen_app, Hm.
  rewrite (u32_small (16 + zlen meta)) by (unfold is_u32; lia). rewrite Ha.
  destruct (Z.ltb_spec (16 + zlen meta + zlen payload + zlen att) (16 + zlen meta)); [lia|].
  destruct (Z.ltb_spec (16 + zlen meta + zlen payload + zlen att - (16 + zlen meta)) (zlen att)); [lia|]. cbn [orb].
  destruct (methods !! m_service m) as [ms|]; [|done]. case_bool_decide as Hms; [|done]. intros Hr.
  replace (16 + zlen meta + zlen payload + zlen att - (16 + zlen meta) - zlen att) with (zlen payload) by lia.
  rewrite pop_front_bytes, Hf, drop_zlen_app, take_zlen_app, Hr.
  f_equal. f_equal. f_equal. f_equal. destruct (Z.ltb_spec 0 (zlen att)) as [|Hz].
  - by rewrite !pop_front_bytes, Hf, !drop_zlen_app.
  - destruct att; [done|]. rewrite zlen_cons in Hz. pose proof (zlen_nonneg att). lia.
Qed.

(** The response frame of a call, read back by the client. *)
Lemma response_read env c f id code payload att p : is_u32 id -> is_u32 code -> 20 + zlen payload + zlen att < 2 ^ 32 ->
  concat f = response_frame id code payload att -> whole 5 f -> pending_map_ c !! id = Some p -> p_done p = false ->
  OnProcessResponse env f c =
    if code =? ERR_SUCCESS then
      match parse_response payload with
      | Some m => Some (0, set_pending id (mkPending true (p_transport_error p) (p_timed_out p) (p_error_code p) (Some m) (p_attachment p ++ att)) c)
      | None => Some (-1, set_pending id (mkPending true (p_transport_error p) (p_timed_out p) ERR_BAD_RESPONSE (p_response p) (p_attachment p)) c)
      end
    else Some (-1, set_pending id (mkPending true (p_transport_error p) (p_timed_out p) code (p_response p) (p_attachment p)) c).
Proof.
  intros Hid Hcode Hlen Hf Hw Hp Hd. pose proof (zlen_nonneg payload). pose proof (zlen_nonneg att).
  unfold OnProcessResponse. unfold response_frame, header in Hf. rewrite !u32_small in Hf by (unfold is_u32; lia).
  rewrite <- !app_assoc in Hf.
  destruct (whole_cons _ _ f _ Hw Hf) as (_ & E1 & Hw1); [unfold is_u32; lia|]. clear Hf Hw.
  next_word Hw1 E1 (pop_front 4 f); [done|]. next_word Hw1 E1 (pop_front 4 (pop_front 4 f)); [done|].
  change (msg_code MSG_NORMAL_RESPONSE =? msg_code MSG_NOTIFY) with false. change (msg_code MSG_NORMAL_RESPONSE =? msg_code MSG_AUTHORITY) with false. cbn iota.
  next_word Hw1 E1 (pop_front 4 (pop_front 4 (pop_front 4 f))); [done|].
  next_word Hw1 E1 (pop_front 4 (pop_front 4 (pop_front 4 (pop_front 4 f)))); [unfold is_u32; lia|].
  set (f5 := pop_front 4 (pop_front 4 (pop_front 4 (pop_front 4 (pop_front 4 f))))) in *. clearbody f5.
  rewrite Hp, Hd. unfold frame_len. rewrite E1, zlen_app.
  destruct (Z.ltb_spec (zlen payload + zlen att) (zlen att)); [lia|].
  destruct (code =? ERR_SUCCESS); cbn [negb]; [|done]. unfold cut_bytes. cbn [fst snd]. rewrite E1.
  replace (zlen payload + zlen att - zlen att) with (zlen payload) by lia.
  rewrite take_zlen_app. destruct (parse_response payload); [|done].
  f_equal. f_equal. f_equal. f_equal. destruct (Z.ltb_spec 0 (zlen att)) as [|Hz].
  - by rewrite pop_front_bytes, E1, drop_zlen_app.
  - destruct att; [by rewrite app_nil_r|]. rewrite zlen_cons in Hz. pose proof (zlen_nonneg att). lia.
Qed.

(** ** Theorems *)

Definition call_meta (c : Channel) (service method : string) : Meta := mkMeta (rpc_id_ c) service method (u32 (zlen (request_attachment_ c))).
Definition call_frame (c : Channel) (service method : string) (request : Msg) : list Z :=
  request_frame (rpc_id_ c) (serialize_meta (call_meta c service method)) (serialize request) (request_attachment_ c).
Definition call_size (c : Channel) (service method : string) (request : Msg) : Z :=
  16 + zlen (serialize_meta (call_meta c service method)) + zlen (serialize request) + zlen (request_attachment_ c).

Lemma call_size_nonneg c service method request : 0 <= call_size c service method request.
Proof.
  unfold call_size. pose proof (zlen_nonneg (serialize_meta (call_meta c service method))). pose proof (zlen_nonneg (serialize request)).
  pose proof (zlen_nonneg (request_attachment_ c)). lia.
Qed.

(** The channel after [CallMethod] has registered the call. *)
Definition registered_call (c : Channel) : Channel :=
  mkChannel (endpoint_ c) (closed_ c) (u32 (rpc_id_ c + 1)) [] (response_attachment_ c) (connection_error_ c)
            (<[rpc_id_ c := new_pending]> (pending_map_ c)).

(** A call on a working channel: the request has been sent and is pending. *)
Lemma call_sent c service method request : connection_error_ c = 0 -> ep_failed (endpoint_ c) = false ->
  call_size c service method request < msg_threshold ->
  exists c1, CallMethod_start true true service method request c = (WaitResponse (rpc_id_ c), c1) /\
    sent (endpoint_ c1) = sent (endpoint_ c) ++ [call_frame c service method request] /\
    pending_map_ c1 = <[rpc_id_ c := new_pending]> (pending_map_ c).
Proof.
  intros Hc He Hs. unfold CallMethod_start, RegisterPending. cbn [negb connection_error_]. rewrite Hc. cbn [negb fst snd Z.eqb].
  fold (call_meta c service method). fold (call_size c service method request).
  pose proof (call_size_nonneg c service method request).
  rewrite u32_small by (unfold is_u32, msg_threshold in *; lia). destruct (Z.leb_spec msg_threshold (call_size c service method request)); [lia|].
  unfold StartWrite. cbn [endpoint_ set_map set_pending]. rewrite He. cbn. eexists. split; [done|]. done.
Qed.

(** A large call waits for its turn. *)
Lemma call_large_waits c ok service method request : connection_error_ c = 0 ->
  msg_threshold <= call_size c service method request < 2 ^ 32 ->
  CallMethod_start true ok service method request c =
    (WaitLarge (rpc_id_ c) (call_size c service method request) (call_frame c service method request), registered_call c).
Proof.
  intros Hc Hs. unfold CallMethod_start, RegisterPending. cbn [negb connection_error_]. rewrite Hc. cbn [negb fst snd Z.eqb].
  fold (call_meta c service method). fold (call_size c service method request).
  rewrite u32_small by (unfold is_u32, msg_threshold in *; lia). destruct (Z.leb_spec msg_threshold (call_size c service method request)); [|lia].
  f_equal. unfold registered_call, set_pending, set_map. cbn. by rewrite Hc.
Qed.

(** The server reads the request of a call to a method that it has. *)
Lemma request_served env c service method request ms e f : is_u32 (rpc_id_ c) -> ep_failed e = false ->
  call_size c service method request < 2 ^ 32 ->
  parse_meta (serialize_meta (call_meta c service method)) = Some (call_meta c service method) ->
  methods !! service = Some ms -> method ∈ ms -> parse_request service method (serialize request) = Some request ->
  concat f = call_frame c service method request -> whole 4 f ->
  OnProcessRequest true env f e = Some (0, e, Some (mkCall (rpc_id_ c) service method request (request_attachment_ c))).
Proof.
  intros Hid He Hs Hm Hms Hmeth Hreq Hf Hw. unfold call_size in Hs.
  pose proof (zlen_nonneg (serialize_meta (call_meta c service method))). pose proof (zlen_nonneg (serialize request)).
  pose proof (zlen_nonneg (request_attachment_ c)).
  pose proof (request_read true env e f (rpc_id_ c) (serialize_meta (call_meta c service method)) (serialize request) (request_attachment_ c)
    (call_meta c service method) request eq_refl He Hid ltac:(lia) Hf Hw Hm) as HR.
  cbn [m_attachment_size m_service m_method call_meta] in HR. rewrite u32_small in HR by (unfold is_u32; lia).
  specialize (HR eq_refl). rewrite Hms, bool_decide_true in HR by done. by apply HR.
Qed.

(** The client completes a pending call with the response that it reads. *)
Lemma response_served env c f id response ratt : is_u32 id -> 20 + zlen (serialize response) + zlen ratt < 2 ^ 32 ->
  parse_response (serialize response) = Some response ->
  pending_map_ c !! id = Some new_pending -> concat f = response_frame id ERR_SUCCESS (serialize response) ratt -> whole 5 f ->
  exists c2 c3, OnProcessResponse env f c = Some (0, c2) /\ CallMethod_finish id false c2 = Some (Done (Some response), c3) /\
    response_attachment_ c3 = ratt /\ pending_map_ c3 = delete id (pending_map_ c).
Proof.
  intros Hid Hs Hresp Hp Hf Hw.
  rewrite (response_read env c f id ERR_SUCCESS (serialize response) ratt new_pending Hid); [|unfold is_u32, ERR_SUCCESS; lia|done..].
  change (ERR_SUCCESS =? ERR_SUCCESS) with true. cbn iota. rewrite Hresp. eexists _, _. split; [done|].
  unfold CallMethod_finish. cbn [pending_map_ set_pending set_map]. rewrite lookup_insert_eq. cbn. split; [done|]. split; [done|].
  by rewrite delete_insert_eq.
Qed.

(** C3: A small call, one whose request and response frames are both shorter than
    [msg_threshold] (2 MB), makes the round trip: the frame that [CallMethod] sends,
    however it is divided on arrival as long as none of its first header words is split
    between blocks, makes the server call exactly that method with exactly that request
    and attachment; the frame that [ReturnRPCResponse] sends back completes the call with
    exactly that response and attachment, and the call leaves nothing behind.  (A larger
    frame goes another way; [rpc_large_truncated] shows one that does not arrive whole.) *)
Theorem rpc_round_trip env c service method request ms e response ratt : write_ok env = true ->
  connection_error_ c = 0 -> ep_failed (endpoint_ c) = false -> is_u32 (rpc_id_ c) -> ep_failed e = false ->
  call_size c service method request < msg_threshold -> 20 + zlen (serialize response) + zlen ratt < msg_threshold ->
  parse_meta (serialize_meta (call_meta c service method)) = Some (call_meta c service method) ->
  methods !! service = Some ms -> method ∈ ms -> parse_request service method (serialize request) = Some request ->
  parse_response (serialize response) = Some response ->
  exists c1 e1 fr gr, CallMethod_start true true service method request c = (WaitResponse (rpc_id_ c), c1) /\
    sent (endpoint_ c1) = sent (endpoint_ c) ++ [fr] /\
    (forall f, concat f = fr -> whole 4 f ->
       OnProcessRequest true env f e = Some (0, e, Some (mkCall (rpc_id_ c) service method request (request_attachment_ c)))) /\
    ReturnRPCResponse env (rpc_id_ c) ERR_SUCCESS (Some response) ratt e = (e1, None) /\ sent e1 = sent e ++ [gr] /\
    (forall g, concat g = gr -> whole 5 g -> exists c2 c3, OnProcessResponse env g c1 = Some (0, c2) /\
       CallMethod_finish (rpc_id_ c) false c2 = Some (Done (Some response), c3) /\ response_attachment_ c3 = ratt /\
       pending_map_ c3 = delete (rpc_id_ c) (pending_map_ c)).
Proof.
  intros Henv Hc He Hid He2 Hs Hs2 Hm Hms Hmeth Hreq Hresp.
  destruct (call_sent c service method request Hc He Hs) as (c1 & E1 & E2 & E3). pose proof (zlen_nonneg (serialize response)). pose proof (zlen_nonneg ratt).
  unfold msg_threshold in *.
  eexists c1, _, (call_frame c service method request), (response_frame (rpc_id_ c) ERR_SUCCESS (serialize response) ratt).
  split; [done|]. split; [done|]. split; [|split; [|split]].
  - intros f Hf Hw. by apply (request_served env c service method request ms e f); [..|lia| | | | | |].
  - unfold ReturnRPCResponse. rewrite He2, u32_small by (unfold is_u32; lia). unfold msg_threshold.
    destruct (Z.leb_spec (2 * 1024 * 1024) (20 + zlen (serialize response) + zlen ratt)); [lia|]. done.
  - unfold StartWrite. by rewrite He2, Henv.
  - intros g Hg Hw. destruct (response_served env c1 g (rpc_id_ c) response ratt) as (c2 & c3 & Ea & Eb & Ec & Ed); try done; [lia|by rewrite E3, lookup_insert_eq|].
    exists c2, c3. split; [done|]. split; [done|]. split; [done|]. by rewrite Ed, E3, delete_insert_eq.
Qed.

(** C38: A request for a service or a method that the server does not have is
    answered with the error frame for it, and the caller is told exactly that. *)
Theorem rpc_unknown_target env c service method request e : write_ok env = true ->
  connection_error_ c = 0 -> ep_failed (endpoint_ c) = false -> is_u32 (rpc_id_ c) -> ep_failed e = false ->
  call_size c service method request < msg_threshold ->
  parse_meta (serialize_meta (call_meta c service method)) = Some (call_meta c service method) ->
  (match methods !! service with Some ms => (method ∉ ms) | None => True end) ->
  exists c1 fr e1 gr, CallMethod_start true true service method request c = (WaitResponse (rpc_id_ c), c1) /\
    sent (endpoint_ c1) = sent (endpoint_ c) ++ [fr] /\
    (forall f, concat f = fr -> whole 4 f -> OnProcessRequest true env f e = Some (-1, e1, None)) /\ sent e1 = sent e ++ [gr] /\
    (forall g, concat g = gr -> whole 5 g -> exists c2 c3, OnProcessResponse env g c1 = Some (-1, c2) /\
       CallMethod_finish (rpc_id_ c) false c2 = Some ((match methods !! service with Some _ => ServerUnknownMethod | None => ServerUnknownService end), c3)).
Proof.
  intros Henv Hc He Hid He2 Hs Hm Hms.
  destruct (call_sent c service method request Hc He Hs) as (c1 & E1 & E2 & E3).
  pose proof (zlen_nonneg (serialize_meta (call_meta c service method))). pose proof (zlen_nonneg (serialize request)).
  pose proof (zlen_nonneg (request_attachment_ c)). unfold call_size, msg_threshold in *.
  set (code := match methods !! service with Some _ => ERR_UNKNOWN_METHOD | None => ERR_UNKNOWN_SERVICE end).
  exists c1, (call_frame c service method request), (SendErrorResponse env (rpc_id_ c) code e), (error_frame (rpc_id_ c) code).
  split; [done|]. split; [done|]. split; [|split].
  - intros f Hf Hw.
    pose proof (request_read true env e f (rpc_id_ c) (serialize_meta (call_meta c service method)) (serialize request) (request_attachment_ c)
      (call_meta c service method) request eq_refl He2 Hid ltac:(lia) Hf Hw Hm) as HR.
    cbn [m_attachment_size m_service m_method call_meta] in HR. rewrite u32_small in HR by (unfold is_u32; lia).
    specialize (HR eq_refl). unfold code. destruct (methods !! service) as [ms|]; [|exact HR]. by rewrite bool_decide_false in HR.
  - unfold SendErrorResponse, StartWrite. by rewrite He2, Henv.
  - intros g Hg Hw. rewrite (response_read env c1 g (rpc_id_ c) code [] [] new_pending Hid);
      [|unfold is_u32, code, ERR_UNKNOWN_METHOD, ERR_UNKNOWN_SERVICE; destruct (methods !! service); lia|by rewrite zlen_nil|done|done
       |by rewrite E3, lookup_insert_eq|done].
    unfold code. destruct (methods !! service); cbn; eexists _, _; (split; [done|]); unfold CallMethod_finish; cbn; by rewrite lookup_insert_eq.
Qed.

(** *** Large frames *)

Lemma addr_join addr : is_u64 addr -> Z.lor (Z.shiftl (u32 (Z.shiftr addr 32)) 32) (Z.land addr 0xFFFFFFFF) = addr.
Proof.
  intros Ha. unfold is_u64 in Ha. rewrite u32_small.
  2:{ unfold is_u32. rewrite Z.shiftr_div_pow2 by lia. zify_divmod. lia. }
  change 0xFFFFFFFF with (Z.ones 32). rewrite <- Z.ldiff_ones_r by lia. apply Z.lor_ldiff_and.
Qed.

(** The endpoint after a notification: a block is set aside for the frame, and
    its key and address are sent. *)
Definition notified (id rkey addr : Z) (e : Ep) : Ep :=
  mkEp (ep_failed e) (sent e ++ [auth_frame id rkey addr]) (pending_large_frames_ e) (<[rkey := addr]> (pending_large_map_ e))
       (large_recvs e ++ [rkey]) (rdma_writes e) (active_large_transfers_ e).
Lemma notify_handled f id total e rkey addr : ep_failed e = false ->
  is_u32 total -> concat f = be32 total -> is_Some (fetch32 f) -> LargeBlockAlloc total = Some (rkey, addr) ->
  on_notify (mkEnv true true true) f id e = Some (0, notified id rkey addr e).
Proof.
  intros He Ht Hf Hs Ha. rewrite <- (app_nil_r (be32 total)) in Hf. destruct (fetch_be32 f total [] Hs Hf Ht) as [Hft _].
  unfold on_notify. rewrite Hft. cbn [mbind option_bind]. rewrite Ha. unfold StartWrite, PostLargeWriteRecv. rewrite He. cbn [orb negb ep_failed recv_ok write_ok].
  unfold notified. by rewrite He.
Qed.

(** Both handlers on an authorization: the stored frame is written to the block,
    up to its first [MAX_SGE] segments. *)
Lemma authority_handled env f id rkey addr e large : send_ok env = true -> ep_failed e = false -> is_u32 rkey -> is_u64 addr ->
  concat f = be32 rkey ++ be32 (u32 (Z.shiftr addr 32)) ++ be32 (Z.land addr 0xFFFFFFFF) -> whole 3 f ->
  GetLargeFrame id e = Some large -> forallb registered (take MAX_SGE large) = true ->
  exists e1, on_authority env f id e = Some (0, e1) /\ rdma_writes e1 = rdma_writes e ++ [(rkey, addr, rkey, concat (take MAX_SGE large))] /\
    pending_large_frames_ e1 = pending_large_frames_ e /\ active_large_transfers_ e1 = active_large_transfers_ e.
Proof.
  intros Hs He Hk Ha Hf Hw Hg Hreg. unfold on_authority.
  assert (is_u32 (Z.land addr 0xFFFFFFFF)). { change 0xFFFFFFFF with (2 ^ 32 - 1). rewrite land_mask by lia. apply u32_range. }
  next_word Hw Hf f; [done|]. next_word Hw Hf (pop_front 4 f); [apply u32_range|].
  rewrite <- (app_nil_r (be32 (Z.land addr _))) in Hf. next_word Hw Hf (pop_front 4 (pop_front 4 f)); [done|].
  rewrite Hg, (addr_join _ Ha). unfold CutSegFromIOBuf. rewrite He, Hreg, Hs. cbn [negb fst snd].
  destruct (Z.ltb_spec (zlen (concat (take MAX_SGE large))) 0) as [Hz|_]; [pose proof (zlen_nonneg (concat (take MAX_SGE large))); lia|].
  eexists. split; [done|]. done.
Qed.

(** The caller's side of a large call: the notification is sent and the frame
    stored; the authorization of the peer makes it write the frame. *)
Lemma large_call_written env c service method request rkey addr : send_ok env = true ->
  connection_error_ c = 0 -> ep_failed (endpoint_ c) = false -> closed_ c = false -> CanStartLargeTransfer (endpoint_ c) = true ->
  is_u32 (rpc_id_ c) -> is_u32 rkey -> is_u64 addr -> msg_threshold <= call_size c service method request < 2 ^ 32 ->
  let id := rpc_id_ c in let size := call_size c service method request in
  let segs := segment (call_frame c service method request) in
  forallb registered (take MAX_SGE segs) = true ->
  exists c1 c2, CallMethod_start true true service method request c = (WaitLarge id size (call_frame c service method request), c1) /\
    CallMethod_large true 0 id size (call_frame c service method request) c1 = Some (WaitResponse id, c2) /\
    sent (endpoint_ c2) = sent (endpoint_ c) ++ [notify_frame id size] /\ pending_map_ c2 = <[id := new_pending]> (pending_map_ c) /\
    forall g, concat g = auth_frame id rkey addr -> whole 6 g -> exists c3, OnProcessResponse env g c2 = Some (0, c3) /\
      rdma_writes (endpoint_ c3) = rdma_writes (endpoint_ c) ++ [(rkey, addr, rkey, concat (take MAX_SGE segs))] /\ pending_map_ c3 = pending_map_ c2 /\
      pending_large_frames_ (on_data_send id (endpoint_ c3)) = delete id (pending_large_frames_ (endpoint_ c)) /\
      active_large_transfers_ (on_data_send id (endpoint_ c3)) = active_large_transfers_ (endpoint_ c).
Proof.
  intros Hsend Hc He Hcl Hcan Hid Hk Ha Hs id size segs Hreg.
  eexists (registered_call c), _. split; [by apply call_large_waits|]. unfold CallMethod_large, WaitForLargeWritable.
  cbn [closed_ registered_call endpoint_]. rewrite Hcl, Hcan. cbn [mbind option_bind fst snd negb]. unfold StartWrite.
  cbn [endpoint_ set_ep ep_failed StoreLargeFrame set_frames StartLargeTransfer set_active registered_call]. rewrite He. cbn [orb negb fst snd].
  split; [done|]. split; [done|]. split; [done|]. intros g Hg Hw. unfold OnProcessResponse.
  unfold auth_frame, header in Hg. rewrite <- !app_assoc in Hg.
  destruct (whole_cons _ _ g _ Hw Hg) as (_ & E1 & Hw1); [unfold is_u32, kAuthFrameBytes; lia|]. clear Hg Hw.
  next_word Hw1 E1 (pop_front 4 g); [done|]. next_word Hw1 E1 (pop_front 4 (pop_front 4 g)); [done|].
  change (msg_code MSG_AUTHORITY =? msg_code MSG_NOTIFY) with false. change (msg_code MSG_AUTHORITY =? msg_code MSG_AUTHORITY) with true. cbn iota.
  match goal with |- context [on_authority env ?f ?i ?e] =>
    destruct (authority_handled env f i rkey addr e segs) as (e1 & Ea & Eb & Ec & Ed); try done end.
  { unfold GetLargeFrame. cbn. by rewrite lookup_insert_eq. }
  rewrite Ea. cbn [mbind option_bind fst snd]. eexists. split; [done|]. split; [exact Eb|]. split; [done|].
  cbn [on_data_send endpoint_ set_ep]. split; [cbn; rewrite Ec; cbn; apply delete_insert_eq|cbn; rewrite Ed; cbn; lia].
Qed.

(** A call with a large frame is served as a small one is: the client
    announces the frame, the server answers with the key and the address of a
    block, the client writes the frame there, and the completion at the server
    gives the frame back, for which it calls the method with the request and the
    attachment.  The frame and the turn are released when the write completes.
    The frame has to consist of at most [MAX_SGE] segments. *)
Theorem rpc_large_round_trip env c service method request ms e rkey addr : env = mkEnv true true true ->
  connection_error_ c = 0 -> ep_failed (endpoint_ c) = false -> closed_ c = false -> CanStartLargeTransfer (endpoint_ c) = true ->
  is_u32 (rpc_id_ c) -> ep_failed e = false -> msg_threshold <= call_size c service method request < 2 ^ 32 ->
  parse_meta (serialize_meta (call_meta c service method)) = Some (call_meta c service method) ->
  methods !! service = Some ms -> method ∈ ms -> parse_request service method (serialize request) = Some request ->
  LargeBlockAlloc (call_size c service method request) = Some (rkey, addr) -> is_u32 rkey -> is_u64 addr ->
  pending_large_map_ e !! rkey = None ->
  let fr := call_frame c service method request in
  concat (segment fr) = fr -> (length (segment fr) <= MAX_SGE)%nat -> forallb registered (segment fr) = true ->
  exists c1 c2 n e1 a, CallMethod_start true true service method request c = (WaitLarge (rpc_id_ c) (call_size c service method request) fr, c1) /\
    CallMethod_large true 0 (rpc_id_ c) (call_size c service method request) fr c1 = Some (WaitResponse (rpc_id_ c), c2) /\
    sent (endpoint_ c2) = sent (endpoint_ c) ++ [n] /\
    (forall f, concat f = n -> whole 4 f -> OnProcessRequest true env f e = Some (0, e1, None)) /\ sent e1 = sent e ++ [a] /\
    (forall g, concat g = a -> whole 6 g -> exists c3, OnProcessResponse env g c2 = Some (0, c3) /\
       rdma_writes (endpoint_ c3) = rdma_writes (endpoint_ c) ++ [(rkey, addr, rkey, fr)] /\
       pending_large_frames_ (on_data_send (rpc_id_ c) (endpoint_ c3)) = delete (rpc_id_ c) (pending_large_frames_ (endpoint_ c)) /\
       active_large_transfers_ (on_data_send (rpc_id_ c) (endpoint_ c3)) = active_large_transfers_ (endpoint_ c)) /\
    exists e2, on_data_recv rkey fr e1 = (Some [fr], e2) /\ pending_large_map_ e2 = pending_large_map_ e /\
      OnProcessRequest true env [fr] e2 = Some (0, e2, Some (mkCall (rpc_id_ c) service method request (request_attachment_ c))).
Proof.
  intros Henv Hc He Hcl Hcan Hid He2 Hs Hm Hms Hmeth Hreq Hal Hk Ha Hfree fr Hseg Hnum Hreg.
  assert (take MAX_SGE (segment fr) = segment fr) as Htake by (apply take_ge; lia).
  destruct (large_call_written env c service method request rkey addr) as (c1 & c2 & E1 & E2 & E3 & _ & E4); try done; try (by subst env); [by fold fr; rewrite Htake|].
  set (size := call_size c service method request) in *.
  assert (is_u32 size) as Hsz by (unfold is_u32, msg_threshold in *; lia).
  exists c1, c2, (notify_frame (rpc_id_ c) size), (notified (rpc_id_ c) rkey addr e), (auth_frame (rpc_id_ c) rkey addr).
  split; [done|]. split; [done|]. split; [done|]. split; [|split; [done|split]].
  - intros f Hf Hw. unfold OnProcessRequest. rewrite He2. cbn [negb]. unfold notify_frame, header in Hf. rewrite <- !app_assoc in Hf.
    next_word Hw Hf f; [unfold is_u32, kNotifyFrameBytes; lia|]. next_word Hw Hf (pop_front 4 f); [done|].
    next_word Hw Hf (pop_front 4 (pop_front 4 f)); [done|]. change (msg_code MSG_NOTIFY =? msg_code MSG_NOTIFY) with true. cbn iota.
    destruct Hw as [Hw _]. rewrite Henv, (notify_handled _ _ size e rkey addr) by done. done.
  - intros g Hg Hw. destruct (E4 g Hg Hw) as (c3 & F1 & F2 & _ & F3 & F4). exists c3. fold fr in F2. rewrite Htake, Hseg in F2. done.
  - unfold on_data_recv. cbn [notified pending_large_map_]. rewrite lookup_insert_eq. eexists. split; [done|]. split; [cbn; by apply delete_insert_id|].
    apply (request_served env c service method request ms); try done; try lia; try (by cbn; rewrite app_nil_r).
Qed.

(** A large frame of more than [MAX_SGE] segments is cut off: the handler
    reports success, but what it writes to the peer is only the first 32
    segments, fewer bytes than the frame announces, so the peer never has the
    whole message. *)
Theorem rpc_large_truncated env c service method request rkey addr : send_ok env = true ->
  connection_error_ c = 0 -> ep_failed (endpoint_ c) = false -> closed_ c = false -> CanStartLargeTransfer (endpoint_ c) = true ->
  is_u32 (rpc_id_ c) -> is_u32 rkey -> is_u64 addr -> msg_threshold <= call_size c service method request < 2 ^ 32 ->
  let fr := call_frame c service method request in
  concat (segment fr) = fr -> (MAX_SGE < length (segment fr))%nat -> Forall (fun g => g <> []) (segment fr) -> forallb registered (segment fr) = true ->
  exists c1 c2, CallMethod_start true true service method request c = (WaitLarge (rpc_id_ c) (call_size c service method request) fr, c1) /\
    CallMethod_large true 0 (rpc_id_ c) (call_size c service method request) fr c1 = Some (WaitResponse (rpc_id_ c), c2) /\
    forall g, concat g = auth_frame (rpc_id_ c) rkey addr -> whole 6 g -> exists c3 w, OnProcessResponse env g c2 = Some (0, c3) /\
      rdma_writes (endpoint_ c3) = rdma_writes (endpoint_ c) ++ [(rkey, addr, rkey, w)] /\ zlen w < zlen fr.
Proof.
  intros Hsend Hc He Hcl Hcan Hid Hk Ha Hs fr Hseg Hnum Hne Hreg.
  destruct (large_call_written env c service method request rkey addr) as (c1 & c2 & E1 & E2 & _ & _ & E4); try done.
  { fold fr. rewrite <- (take_drop MAX_SGE (segment fr)), forallb_app in Hreg. by apply andb_true_iff in Hreg as [? _]. }
  exists c1, c2. split; [done|]. split; [done|]. intros g Hg Hw. destruct (E4 g Hg Hw) as (c3 & F1 & F2 & _).
  exists c3, (concat (take MAX_SGE (segment fr))). split; [done|]. split; [done|].
  rewrite <- Hseg at 2. rewrite <- (take_drop MAX_SGE (segment fr)) at 2. rewrite concat_app, zlen_app.
  destruct (drop MAX_SGE (segment fr)) as [|s l] eqn:Ed; [apply (f_equal length) in Ed; rewrite length_drop in Ed; cbn [length] in Ed; lia|].
  assert (s <> []) as Hns. { rewrite <- (take_drop MAX_SGE (segment fr)), Ed in Hne. by apply Forall_app in Hne as [_ [? _]%Forall_cons]. }
  cbn [concat]. rewrite zlen_app. destruct s; [done|]. rewrite zlen_cons. pose proof (zlen_nonneg s). pose proof (zlen_nonneg (concat l)). lia.
Qed.

(** *** Failure of the connection *)

(** The calls and events of a channel; the counter of calls does not wrap. *)
Inductive chan_step : Channel -> Channel -> Prop :=
| cs_call ad ok service method request c s c' : rpc_id_ c + 1 < 2 ^ 32 ->
    CallMethod_start ad ok service method request c = (s, c') -> chan_step c c'
| cs_large ok err id total frame c s c' : err <> 0 -> CallMethod_large ok err id total frame c = Some (s, c') -> chan_step c c'
| cs_finish id timeout c r c' : CallMethod_finish id timeout c = Some (r, c') -> chan_step c c'
| cs_response env f c r c' : OnProcessResponse env f c = Some (r, c') -> chan_step c c'
| cs_sent id c : chan_step c (set_ep (on_data_send id (endpoint_ c)) c)
| cs_set_failed c : chan_step c (set_ep (SetFailed (endpoint_ c)) c)
| cs_handler err c : err <> 0 -> chan_step c (OnEndpointFailed err c).

Record chan_inv (c : Channel) : Prop := mk_chan_inv {
  ci_ids : forall id p, pending_map_ c !! id = Some p -> id < rpc_id_ c;
  ci_done : connection_error_ c <> 0 -> forall id p, pending_map_ c !! id = Some p -> p_done p = true;
  ci_closed : connection_error_ c <> 0 -> closed_ c = true;
  ci_id : 0 <= rpc_id_ c < 2 ^ 32
}.

Definition new_channel : Channel := mkChannel new_Ep false 1 [] [] 0 ∅.

(** What a step does to the table of calls, in the terms of the invariant: it
    leaves the table, removes a call, adds the next one, completes one, or fails
    all of them. *)
Inductive table_step (c c' : Channel) : Prop :=
| ts_same : pending_map_ c' = pending_map_ c -> connection_error_ c' = connection_error_ c -> closed_ c' = closed_ c ->
    rpc_id_ c <= rpc_id_ c' < 2 ^ 32 -> table_step c c'
| ts_remove id : pending_map_ c' = delete id (pending_map_ c) -> connection_error_ c' = connection_error_ c -> closed_ c' = closed_ c ->
    rpc_id_ c <= rpc_id_ c' < 2 ^ 32 -> table_step c c'
| ts_add : connection_error_ c = 0 -> pending_map_ c' = <[rpc_id_ c := new_pending]> (pending_map_ c) -> connection_error_ c' = 0 ->
    rpc_id_ c' = rpc_id_ c + 1 -> rpc_id_ c + 1 < 2 ^ 32 -> table_step c c'
| ts_done id p p' : pending_map_ c !! id = Some p -> p_done p = false -> p_done p' = true ->
    pending_map_ c' = <[id := p']> (pending_map_ c) -> connection_error_ c' = connection_error_ c -> closed_ c' = closed_ c ->
    rpc_id_ c' = rpc_id_ c -> table_step c c'
| ts_fail err : pending_map_ c' = fail_pending err <$> pending_map_ c -> closed_ c' = true -> rpc_id_ c' = rpc_id_ c -> table_step c c'.

Lemma start_table ad ok service method request c s c' : chan_inv c -> rpc_id_ c + 1 < 2 ^ 32 ->
  CallMethod_start ad ok service method request c = (s, c') -> table_step c c'.
Proof.
  intros [I1 I2 I3 I4] Hid H. unfold CallMethod_start, RegisterPending in H.
  destruct ad; cbn [negb] in H; [|injection H as <- <-; apply ts_same; auto; lia].
  cbn [connection_error_] in H. destruct (Z.eqb_spec (connection_error_ c) 0) as [E|E]; cbn [negb fst snd] in H.
  - rewrite (u32_small (rpc_id_ c + 1)) in H by (unfold is_u32; lia). destruct (_ <=? _); [injection H as <- <-; apply ts_add; cbn; auto|].
    set (y := StartWrite ok _ _) in *. destruct y as [[] e1]; cbn in H; injection H as <- <-; [apply ts_add; cbn; auto|].
    apply ts_same; cbn; [|auto..|lia]. apply delete_insert_id. destruct (pending_map_ c !! rpc_id_ c) eqn:Hl; [|done]. specialize (I1 _ _ Hl). lia.
  - injection H as <- <-. apply ts_same; cbn; auto. rewrite u32_small by (unfold is_u32; lia). lia.
Qed.

Lemma large_table ok err id total frame c s c' : chan_inv c -> CallMethod_large ok err id total frame c = Some (s, c') -> table_step c c'.
Proof.
  intros [I1 I2 I3 I4] H. unfold CallMethod_large, WaitForLargeWritable in H.
  destruct (closed_ c) eqn:Ecl; cbn in H; [injection H as <- <-; eapply ts_remove; cbn; auto; lia|].
  destruct (CanStartLargeTransfer _); cbn in H; [|done]. set (y := StartWrite ok _ _) in *. destruct y as [[] e1]; cbn in H; injection H as <- <-;
    [apply ts_same; cbn; auto; lia|]. unfold channel_SetFailed. cbn. destruct (ep_failed e1); [apply ts_same; cbn; auto; lia|]. by eapply ts_fail.
Qed.

Lemma response_table env f c r c' : chan_inv c -> OnProcessResponse env f c = Some (r, c') -> table_step c c'.
Proof.
  intros [I1 I2 I3 I4] H. unfold OnProcessResponse in H.
  repeat (match type of H with
          | (?x ≫= _) = Some _ => let E := fresh "E" in destruct x as [?|] eqn:E; [cbn [mbind option_bind] in H|discriminate H]
          | (if ?b then _ else _) = Some _ => let E := fresh "E" in destruct b eqn:E
          | match ?x with Some _ => _ | None => _ end = Some _ => let E := fresh "E" in destruct x as [?|] eqn:E
          | Some _ = Some _ => injection H as <- <-
          end); try (apply ts_same; cbn; auto; lia); (eapply ts_done; [eassumption|eassumption| |reflexivity..]; reflexivity).
Qed.

Lemma finish_table id timeout c r c' : chan_inv c -> CallMethod_finish id timeout c = Some (r, c') ->
  pending_map_ c' = delete id (pending_map_ c) /\ table_step c c'.
Proof.
  intros [I1 I2 I3 I4] H. unfold CallMethod_finish in H. destruct (pending_map_ c !! id) as [p|]; [|done]. cbn [mbind option_bind] in H.
  destruct (p_done p); [|destruct timeout; [|done]]; cbn [negb] in H;
    repeat (match type of H with (if ?b then _ else _) = Some _ => destruct b end);
    injection H as <- <-; (split; [done|]); eapply ts_remove; cbn; auto; lia.
Qed.

Lemma chan_table c c' : chan_inv c -> chan_step c c' -> table_step c c'.
Proof.
  intros I Hs. destruct Hs; eauto using start_table, large_table, response_table; destruct I.
  - by eapply finish_table.
  - apply ts_same; cbn; auto; lia.
  - apply ts_same; cbn; auto; lia.
  - by eapply ts_fail.
Qed.

Lemma fail_pending_done err p : p_done (fail_pending err p) = true.
Proof. unfold fail_pending. by destruct (p_done p) eqn:E. Qed.

Lemma chan_step_inv c c' : chan_inv c -> chan_step c c' -> chan_inv c'.
Proof.
  intros I Hs. pose proof (chan_table _ _ I Hs) as Ht. destruct I as [I1 I2 I3 I4].
  destruct Ht as [Em Ec Ecl Ei|id Em Ec Ecl Ei|Hc Em Ec Ei Ef|id p p' Hp Hd Hd' Em Ec Ecl Ei|err Em Ecl Ei]; split; rewrite ?Em, ?Ec, ?Ecl; try done; try lia.
  - intros i q Hq. specialize (I1 _ _ Hq). lia.
  - intros i q Hq. apply lookup_delete_Some in Hq as [_ Hq]. specialize (I1 _ _ Hq). lia.
  - intros He i q Hq. apply lookup_delete_Some in Hq as [_ Hq]. by eapply I2.
  - intros i q Hq. destruct (decide (i = rpc_id_ c)) as [->|]; [lia|]. rewrite lookup_insert_ne in Hq by done. specialize (I1 _ _ Hq). lia.
  - intros i q Hq. rewrite Ei. destruct (decide (i = id)) as [->|]; [by eapply I1|]. rewrite lookup_insert_ne in Hq by done. by eapply I1.
  - intros He i q Hq. destruct (decide (i = id)) as [->|]; [|rewrite lookup_insert_ne in Hq by done; by eapply I2].
    rewrite lookup_insert_eq in Hq. by injection Hq as <-.
  - intros i q Hq. rewrite Ei. rewrite lookup_fmap in Hq. destruct (pending_map_ c !! i) eqn:El; [|done]. by eapply I1.
  - intros _ i q Hq. rewrite lookup_fmap in Hq. destruct (pending_map_ c !! i) eqn:El; [|done]. injection Hq as <-. apply fail_pending_done.
Qed.
Lemma chan_inv_reach c : rtc chan_step new_channel c -> chan_inv c.
Proof.
  intros HR. apply (rtc_ind_r (R := chan_step) chan_inv new_channel); [split; cbn; try done; lia| |exact HR].
  intros a b _ Hab Ha. by eapply chan_step_inv.
Qed.

(** C32: When the connection has failed no call waits for something that cannot
    come: a pending call is done and returns, a call that waits for a turn to
    send a large frame returns, and a new call is refused with the error. *)
Theorem rpc_no_stuck_calls c ad ok err service method request total frame : rtc chan_step new_channel c -> connection_error_ c <> 0 ->
  (forall id p, pending_map_ c !! id = Some p -> exists r c', CallMethod_finish id false c = Some (r, c')) /\
  (forall id, exists c', CallMethod_large ok err id total frame c = Some (Returned ConnectionFailed, c')) /\
  (exists r c', CallMethod_start ad ok service method request c = (Returned r, c') /\ (r = ChannelClosed \/ r = TransportError (connection_error_ c)) /\
     pending_map_ c' = pending_map_ c).
Proof.
  intros HR Hc. destruct (chan_inv_reach c HR) as [I1 I2 I3 I4]. split; [|split].
  - intros id p Hp. pose proof (I2 Hc _ _ Hp) as Hd. unfold CallMethod_finish. rewrite Hp. cbn [mbind option_bind]. rewrite Hd. cbn [negb].
    destruct (negb _); [eauto|]. destruct (negb _); eauto.
  - intros id. unfold CallMethod_large, WaitForLargeWritable. rewrite (I3 Hc). cbn. eauto.
  - unfold CallMethod_start, RegisterPending. destruct ad; cbn [negb connection_error_]; [|eauto 6].
    destruct (Z.eqb_spec (connection_error_ c) 0); [done|]. cbn. eauto 8.
Qed.

(** The first outcome of a call wins: once it is done, by its response, a
    failure or a bad frame, no later response or failure changes it; it stays as
    it is until the caller takes it. *)
Theorem rpc_first_outcome_wins c c' id p : rtc chan_step new_channel c -> pending_map_ c !! id = Some p -> p_done p = true ->
  chan_step c c' -> pending_map_ c' !! id = Some p \/ pending_map_ c' = delete id (pending_map_ c).
Proof.
  intros HR Hp Hd Hs. pose proof (chan_inv_reach c HR) as I.
  destruct (chan_table _ _ I Hs) as [Em _ _ _|i Em _ _ _|Hc Em _ _ _|i q q' Hq Hdq _ Em _ _ _|err Em _ _]; destruct I as [I1 I2 I3 I4]; rewrite ?Em; auto.
  - destruct (decide (i = id)) as [->|]; [by right|left]. by rewrite lookup_delete_ne.
  - left. specialize (I1 _ _ Hp). by rewrite lookup_insert_ne by lia.
  - left. destruct (decide (i = id)) as [->|]; [congruence|]. by rewrite lookup_insert_ne.
  - left. rewrite lookup_fmap, Hp. cbn. unfold fail_pending. by rewrite Hd.
Qed.

(** A frame that ends after its header is passed to the handlers by the
    dispatcher, which accepts every length from [kFrameHeaderBytes] on; both
    handlers then read the next word through the null pointer of an empty buffer,
    for every type of message. *)
Theorem rpc_short_frame_undefined env c e (f : Frame) total t id : concat f = be32 total ++ be32 t ++ be32 id -> whole 3 f ->
  is_u32 total -> is_u32 t -> is_u32 id -> ep_failed e = false ->
  OnProcessRequest true env f e = None /\ OnProcessResponse env f c = None.
Proof.
  intros Hf Hw Hto Ht Hid He. rewrite <- (app_nil_r (be32 id)) in Hf.
  destruct (whole_cons _ _ f _ Hw Hf Hto) as (F1 & E1 & W1). destruct (whole_cons _ _ _ _ W1 E1 Ht) as (F2 & E2 & W2).
  destruct (whole_cons _ _ _ _ W2 E2 Hid) as (F3 & E3 & _). set (f3 := pop_front 4 (pop_front 4 (pop_front 4 f))) in *.
  assert (fetch32 f3 = None) as F4.
  { destruct f3 as [|g f']; [done|]. cbn in *. apply app_nil in E3 as [-> _]. done. }
  unfold OnProcessRequest, OnProcessResponse, on_notify, on_authority. rewrite He, F1. cbn [negb mbind option_bind]. rewrite F2. cbn [mbind option_bind].
  rewrite F3. cbn [mbind option_bind]. fold f3. rewrite F4. cbn [mbind option_bind]. by destruct (t =? msg_code MSG_NOTIFY), (t =? msg_code MSG_AUTHORITY).
Qed.

End rpc.

(** *** Concrete inputs *)

(** Messages are byte strings; the meta data is the attachment size and the two
    names, each after its length. *)
Definition ex_string (s : string) : list Z := map (fun a => Z.of_N (Ascii.N_of_ascii a)) (String.list_ascii_of_string s).
Definition ex_name (bs : list Z) : string := String.string_of_list_ascii (map (fun b => Ascii.ascii_of_N (Z.to_N b)) bs).
Definition ex_meta (m : Meta) : list Z :=
  [m_rpc_id m; m_attachment_size m; zlen (ex_string (m_service m))] ++ ex_string (m_service m) ++ ex_string (m_method m).
Definition ex_parse_meta (bs : list Z) : option Meta :=
  match bs with
  | i :: a :: n :: r => Some (mkMeta i (ex_name (take (Z.to_nat n) r)) (ex_name (drop (Z.to_nat n) r)) a)
  | _ => None
  end.
Definition ex_parse (bs : list Z) : option (list Z) := Some bs.
Definition ex_request (service method : string) (bs : list Z) : option (list Z) := Some bs.
Definition ex_methods : gmap string (gset string) := {["Echo"%string := {["Call"%string]}]}.
Definition ex_alloc (n : Z) : option (Z * Z) := Some (77, 0x1234567890).
Definition ex_registered (g : list Z) : bool := true.
Definition ex_segment (b : list Z) : Frame := [b].
Definition ex_chan : Channel (list Z) := mkChannel _ new_Ep false 1 [7; 8] [] 0 ∅.

Lemma rpc_round_trip_witness : exists c1 e1 fr gr,
  CallMethod_start (list Z) id ex_meta true true "Echo" "Call" [1; 2; 3] ex_chan = (WaitResponse _ 1, c1) /\
  sent (endpoint_ _ c1) = [fr] /\ fr = call_frame _ id ex_meta ex_chan "Echo" "Call" [1; 2; 3] /\
  ReturnRPCResponse (list Z) id ex_segment (mkEnv true true true) 1 ERR_SUCCESS (Some [9]) [5] new_Ep = (e1, None) /\ sent e1 = [gr] /\
  gr = response_frame 1 0 [9] [5].
Proof.
  destruct (rpc_round_trip (list Z) id ex_meta ex_parse_meta ex_request ex_parse ex_methods ex_alloc ex_registered ex_segment
    (mkEnv true true true) ex_chan "Echo" "Call" [1; 2; 3] {["Call"%string]} new_Ep [9] [5]) as (c1 & e1 & fr & gr & H1 & H2 & _ & H3 & H4 & _);
    try done; try (by vm_compute); try (unfold is_u32; cbn; lia); try set_solver.
  exists c1, e1, fr, gr. split; [exact H1|]. split; [exact H2|]. split; [|split; [exact H3|split; [exact H4|]]].
  - assert (sent (endpoint_ _ c1) = [call_frame _ id ex_meta ex_chan "Echo" "Call" [1; 2; 3]]) as E; [|rewrite E in H2; by injection H2 as <-].
    apply (f_equal snd) in H1. cbn [snd] in H1. rewrite <- H1. reflexivity.
  - apply (f_equal fst) in H3. cbn [fst] in H3. rewrite <- H3 in H4. injection H4 as <-. reflexivity.
Defined.

Lemma rpc_unknown_target_witness : exists c1 fr e1 gr,
  CallMethod_start (list Z) id ex_meta true true "Echo" "Cancel" [1] ex_chan = (WaitResponse _ 1, c1) /\ sent (endpoint_ _ c1) = [fr] /\
  OnProcessRequest (list Z) ex_parse_meta ex_request ex_methods ex_alloc ex_registered true (mkEnv true true true)
    [call_frame _ id ex_meta ex_chan "Echo" "Cancel" [1]] new_Ep = Some (-1, e1, None) /\ sent e1 = [gr].
Proof.
  destruct (rpc_unknown_target (list Z) id ex_meta ex_parse_meta ex_request ex_parse ex_methods ex_alloc ex_registered
    (mkEnv true true true) ex_chan "Echo" "Cancel" [1] new_Ep) as (c1 & fr & e1 & gr & H1 & H2 & H3 & H4 & _);
    try done; try (by vm_compute); try (unfold is_u32; cbn; lia).
  exists c1, fr, e1, gr. split; [exact H1|]. split; [exact H2|]. split; [|exact H4]. apply H3; [|done].
  apply (f_equal snd) in H1. cbn [snd] in H1. rewrite <- H1 in H2. injection H2 as <-. reflexivity.
Defined.

(** A request of 2 MB, all zero. *)
Definition ex_big : list Z := replicate (Z.to_nat msg_threshold) 0.
Lemma ex_big_size : call_size (list Z) id ex_meta ex_chan "Echo" "Call" ex_big = 2097181.
Proof. unfold call_size, ex_big, id. unfold zlen at 2. rewrite length_replicate, Z2Nat.id by done. reflexivity. Qed.
Lemma ex_big_len : length ex_big = Z.to_nat msg_threshold.
Proof. apply length_replicate. Qed.
#[local] Opaque ex_big.

Lemma rpc_large_round_trip_witness : exists c1 c2 n,
  CallMethod_start (list Z) id ex_meta true true "Echo" "Call" ex_big ex_chan =
    (WaitLarge _ 1 2097181 (call_frame _ id ex_meta ex_chan "Echo" "Call" ex_big), c1) /\
  CallMethod_large (list Z) ex_segment true 0 1 2097181 (call_frame _ id ex_meta ex_chan "Echo" "Call" ex_big) c1 = Some (WaitResponse _ 1, c2) /\
  sent (endpoint_ _ c2) = [n].
Proof.
  destruct (rpc_large_round_trip (list Z) id ex_meta ex_parse_meta ex_request ex_parse ex_methods ex_alloc ex_registered ex_segment
    (mkEnv true true true) ex_chan "Echo" "Call" ex_big {["Call"%string]} new_Ep 77 0x1234567890) as (c1 & c2 & n & e1 & a & H1 & H2 & H3 & _);
    [reflexivity|reflexivity|reflexivity|reflexivity|reflexivity|unfold is_u32; cbn; lia|reflexivity|rewrite ex_big_size; unfold msg_threshold; lia
    |reflexivity|reflexivity|set_solver|reflexivity|reflexivity|unfold is_u32; lia|unfold is_u64; lia|reflexivity|apply app_nil_r|unfold MAX_SGE; cbn [length ex_segment]; lia|reflexivity|].
  rewrite ex_big_size in H1, H2. exists c1, c2, n. split; [exact H1|]. split; [exact H2|exact H3].
Defined.

(** A division into segments of one byte. *)
Lemma ex_bytes (l : list Z) : concat (map (fun b => [b]) l) = l /\ Forall (fun g : list Z => g <> []) (map (fun b => [b]) l) /\
  forallb ex_registered (map (fun b => [b]) l) = true.
Proof. induction l as [|b l (IH1 & IH2 & IH3)]; cbn; [done|]. split; [by f_equal|]. split; [by constructor|done]. Qed.
(** The same request cut into single bytes. *)
Lemma rpc_large_truncated_witness : exists c1 c2,
  CallMethod_start (list Z) id ex_meta true true "Echo" "Call" ex_big ex_chan =
    (WaitLarge _ 1 2097181 (call_frame _ id ex_meta ex_chan "Echo" "Call" ex_big), c1) /\
  CallMethod_large (list Z) (map (fun b => [b])) true 0 1 2097181 (call_frame _ id ex_meta ex_chan "Echo" "Call" ex_big) c1 = Some (WaitResponse _ 1, c2).
Proof.
  destruct (rpc_large_truncated (list Z) id ex_meta ex_parse ex_alloc ex_registered (map (fun b => [b]))
    (mkEnv true true true) ex_chan "Echo" "Call" ex_big 77 0x1234567890) as (c1 & c2 & H1 & H2 & _);
    [reflexivity|reflexivity|reflexivity|reflexivity|reflexivity|unfold is_u32; cbn; lia|unfold is_u32; lia|unfold is_u64; lia
    |rewrite ex_big_size; unfold msg_threshold; lia|apply ex_bytes| |apply ex_bytes|apply ex_bytes|].
  - rewrite length_map. unfold call_frame, request_frame. rewrite !length_app. unfold header. rewrite !length_app, !length_be32. unfold MAX_SGE, id.
    rewrite ex_big_len. unfold msg_threshold. lia.
  - rewrite ex_big_size in H1, H2. exists c1, c2. split; [exact H1|exact H2].
Defined.

Definition ex_failed : Channel (list Z) :=
  OnEndpointFailed _ 104 (snd (CallMethod_start (list Z) id ex_meta true true "Echo" "Call" [1] (new_channel _))).
Lemma ex_failed_reach : rtc (chan_step (list Z) id ex_meta ex_parse ex_alloc ex_registered ex_segment) (new_channel _) ex_failed.
Proof.
  eapply rtc_l; [|apply rtc_once, cs_handler; lia]. eapply (cs_call _ _ _ _ _ _ _ true true "Echo" "Call" [1]); [cbn; lia|]. apply surjective_pairing.
Qed.

Lemma rpc_no_stuck_calls_witness : connection_error_ _ ex_failed = 104 /\
  exists c', CallMethod_large (list Z) ex_segment true 5 9 0 [] ex_failed = Some (Returned _ (ConnectionFailed _), c').
Proof.
  split; [reflexivity|].
  destruct (rpc_no_stuck_calls (list Z) id ex_meta ex_parse ex_alloc ex_registered ex_segment ex_failed true true 5 "Echo" "Call" [1] 0 []) as (_ & H & _);
    [exact ex_failed_reach|done|exact (H 9)].
Defined.

Lemma rpc_first_outcome_wins_witness : exists p, pending_map_ _ ex_failed !! 1 = Some p /\ p_transport_error _ p = 104 /\
  pending_map_ _ (OnEndpointFailed _ 32 ex_failed) !! 1 = Some p.
Proof.
  eexists. split; [reflexivity|]. split; [reflexivity|].
  edestruct (rpc_first_outcome_wins (list Z) id ex_meta ex_parse ex_alloc ex_registered ex_segment ex_failed (OnEndpointFailed _ 32 ex_failed) 1) as [H|H];
    [exact ex_failed_reach|reflexivity|reflexivity|by apply cs_handler|exact H|].
  apply (f_equal (fun m : gmap Z _ => m !! 1)) in H. rewrite lookup_delete_eq in H. discriminate H.
Defined.

Lemma rpc_short_frame_undefined_witness :
  OnProcessRequest (list Z) ex_parse_meta ex_request ex_methods ex_alloc ex_registered true (mkEnv true true true) [be32 12 ++ be32 0 ++ be32 5] new_Ep = None.
Proof.
  apply (rpc_short_frame_undefined (list Z) ex_parse_meta ex_request ex_parse ex_methods ex_alloc ex_registered
    (mkEnv true true true) ex_chan new_Ep [be32 12 ++ be32 0 ++ be32 5] 12 0 5); try done; unfold is_u32; lia.
Defined.

End Rpc.
