(* ===== verification/BlockPool.v ===== *)
(** * The block pool

    [fast_block_pool.cc]: registered memory regions divided into four buckets of
    idle nodes per block type, with a cache of idle blocks per thread.  A node is
    a run of free memory, a linked list of nodes is a list; the buckets
    [idle_list[t][i]] are the list element [4 * t + i].  Each operation is one
    step, since it holds the lock of the bucket that it changes.  [posix_memalign]
    and [ibv_reg_mr] are outcomes given to the operations, [std::rand] an
    argument.  [AllocBlockFrom] reads a node that it has just deleted; what it reads
    is an argument too ([freed]), and reaches only [idle_size], which no code reads. *)
From stdpp Require Import sorting.
From S2P Require Import Prelude.
Local Open Scope Z_scope.

Module BP.

Definition RDMA_INITIAL_REGION_SIZE : Z := 1024.
Definition RDMA_MEMPOOL_BUCKETS : nat := 4.
Definition RDMA_MEMPOOL_MAX_REGIONS : nat := 16.
Definition RDMA_MEMPOOL_TLS_CACHE_NUM : nat := 128.
Definition BLOCK_SIZE_COUNT : nat := 3.
Definition BYTES_IN_MB : Z := 1048576.
Definition g_block_size : list Z := [8192; 65536; 2 * BYTES_IN_MB].
Definition GetBlockSize (t : nat) : Z := nth t g_block_size 0.
Arguments GetBlockSize : simpl never.

Record IdleNode := mkNode { start : Z; len : Z }.
Record Region := mkRegion { r_start : Z; r_size : Z; block_type : nat; lkey : Z }.
(** The thread-local variables of a thread. *)
Record Tls := mkTls { tls_idle_list : list IdleNode; tls_idle_num : nat; tls_inited : bool }.
Definition new_Tls : Tls := mkTls [] 0 false.
(** [g_regions] are the first [g_region_num] regions. *)
Record Pool := mkPool {
  g_pd : bool;
  g_regions : list Region;
  idle_list : list (list IdleNode);
  expansion_list : list (list IdleNode);
  tls : list Tls;
  idle_size : list Z;
  expansion_size : list Z
}.
Definition bucket (t i : nat) : nat := (RDMA_MEMPOOL_BUCKETS * t + i)%nat.
Definition set_idle k l p := mkPool (g_pd p) (g_regions p) (<[k := l]> (idle_list p)) (expansion_list p) (tls p) (idle_size p) (expansion_size p).
Definition set_expansion k l p := mkPool (g_pd p) (g_regions p) (idle_list p) (<[k := l]> (expansion_list p)) (tls p) (idle_size p) (expansion_size p).
Definition set_tls d x p := mkPool (g_pd p) (g_regions p) (idle_list p) (expansion_list p) (<[d := x]> (tls p)) (idle_size p) (expansion_size p).
Definition add_region r p := mkPool (g_pd p) (g_regions p ++ [r]) (idle_list p) (expansion_list p) (tls p) (idle_size p) (expansion_size p).

(** [idle_size] and [expansion_size], which are size_t. *)
Definition count_idle k (d : Z) p := mkPool (g_pd p) (g_regions p) (idle_list p) (expansion_list p) (tls p) (alter (fun n => u64 (n + d)) k (idle_size p)) (expansion_size p).
Definition count_expansion k (d : Z) p := mkPool (g_pd p) (g_regions p) (idle_list p) (expansion_list p) (tls p) (idle_size p) (alter (fun n => u64 (n + d)) k (expansion_size p)).
Definition move_count k p := let e := default 0 (expansion_size p !! k) in count_expansion k (- e) (count_idle k e p).

(** What is outside the program: [posix_memalign] and the key given by [ibv_reg_mr] (0
    for a failure) when the pool grows, and what the memory of a deleted node reads. *)
Record Ext := mkExt { memalign : option Z; reg_key : Z; freed : Z }.

(** ** Operations *)

Fixpoint GetRegion_loop (rs : list Region) (addr : Z) : option Region :=
  match rs with
  | [] => None
  | r :: rs' =>
      if r_start r =? 0 then None else
      if (r_start r <=? addr) && (addr <? r_start r + r_size r) then Some r else GetRegion_loop rs' addr
  end.
Definition GetRegion (p : Pool) (buf : Z) : option Region := if buf =? 0 then None else GetRegion_loop (g_regions p) buf.
Definition GetRegionId (p : Pool) (buf : Z) : Z := match GetRegion p buf with Some r => lkey r | None => 0 end.

(** The nodes of a new region, one to the front of each expansion list. *)
Fixpoint spread (base quarter : Z) (t : nat) (ixs : list nat) : M Pool unit :=
  match ixs with
  | [] => ret tt
  | i :: ixs' =>
      let! p := get in
      let! l := deref (expansion_list p !! bucket t i) in
      let! _ := modify (fun p => set_expansion (bucket t i) (mkNode (base + Z.of_nat i * quarter) quarter :: l) (count_expansion (bucket t i) quarter p)) in
      spread base quarter t ixs'
  end.
Definition ExtendBlockPoolImpl (base region_size : Z) (t : nat) (id : Z) : M Pool (option Z) :=
  let! p := get in
  if (length (g_regions p) =? RDMA_MEMPOOL_MAX_REGIONS)%nat then ret None else
  if id =? 0 then ret None else
  let! _ := modify (add_region (mkRegion base region_size t id)) in
  let! _ := spread base (region_size / Z.of_nat RDMA_MEMPOOL_BUCKETS) t (seq 0 RDMA_MEMPOOL_BUCKETS) in
  ret (Some base).
Definition region_bytes (region_size : Z) (t : nat) : Z :=
  region_size * BYTES_IN_MB / GetBlockSize t / Z.of_nat RDMA_MEMPOOL_BUCKETS * (GetBlockSize t * Z.of_nat RDMA_MEMPOOL_BUCKETS).
Definition ExtendBlockPool (region_size : Z) (t : nat) (x : Ext) : M Pool (option Z) :=
  if region_size <? 1 then ret None else
  match memalign x with
  | None => ret None
  | Some base => ExtendBlockPoolImpl base (region_bytes region_size t) t (reg_key x)
  end.

(** [InitBlockPool], for the threads that exist. *)
Definition InitBlockPool (x : Ext) : M Pool bool :=
  let! p := get in
  if negb (g_pd p) then ret false else
  if (0 <? length (g_regions p))%nat then ret false else
  let empty := replicate (BLOCK_SIZE_COUNT * RDMA_MEMPOOL_BUCKETS) [] in
  let zeros := replicate (BLOCK_SIZE_COUNT * RDMA_MEMPOOL_BUCKETS) 0 in
  let! _ := modify (fun p => mkPool (g_pd p) (g_regions p) empty empty (tls p) zeros zeros) in
  let! base := ExtendBlockPool RDMA_INITIAL_REGION_SIZE 0 x in
  ret (match base with Some _ => true | None => false end).

Definition MoveExpansionList2EmptyIdleList (t i : nat) : M Pool unit :=
  let! p := get in
  let! l := deref (idle_list p !! bucket t i) in
  let! _ := check (match l with [] => true | _ => false end) in
  let! e := deref (expansion_list p !! bucket t i) in
  modify (fun p => set_expansion (bucket t i) [] (set_idle (bucket t i) e (move_count (bucket t i) p))).

(** The nodes that [AllocBlockFrom] moves to the thread: single blocks at the
    front of the bucket, until the thread has [num] = 64 of them. *)
Fixpoint tls_scan (num : nat) (l : list IdleNode) : list IdleNode * list IdleNode * nat :=
  match l with
  | [] => ([], [], num)
  | n :: l' =>
      if (RDMA_MEMPOOL_TLS_CACHE_NUM / 2 <=? num)%nat || (GetBlockSize 0 <? len n) then ([], l, num)
      else let x := tls_scan (S num) l' in (n :: fst (fst x), snd (fst x), snd x)
  end.
(** The end of [AllocBlockFrom] for the default blocks.  When nothing is moved,
    the node at the front of the bucket is the last node of the loop, and its
    [next] is cut. *)
Definition refill_tls (d i : nat) : M Pool unit :=
  let! p := get in
  let! l := deref (idle_list p !! bucket 0 i) in
  let! c := deref (tls p !! d) in
  let x := tls_scan (tls_idle_num c) l in
  if (snd x =? 0)%nat then
    modify (fun p => set_idle (bucket 0 i) (take 1 l) (set_tls d (mkTls [] 0 (tls_inited c)) p))
  else
    match fst (fst x) with
    | [] => undef      (* the cache and the bucket would share their nodes *)
    | moved => modify (fun p => set_idle (bucket 0 i) (snd (fst x)) (set_tls d (mkTls moved (snd x) (tls_inited c)) p))
    end.

(** Make sure that the bucket has a node; [false] when the pool cannot grow. *)
Definition fill_bucket (t i : nat) (x : Ext) : M Pool bool :=
  let! p := get in
  let! l := deref (idle_list p !! bucket t i) in
  match l with
  | _ :: _ => ret true
  | [] =>
      let! e := deref (expansion_list p !! bucket t i) in
      match e with
      | _ :: _ => let! _ := MoveExpansionList2EmptyIdleList t i in ret true
      | [] =>
          let! base := ExtendBlockPool RDMA_INITIAL_REGION_SIZE t x in
          match base with
          | None => ret false
          | Some _ => let! _ := MoveExpansionList2EmptyIdleList t i in ret true
          end
      end
  end.

(** [AllocBlockFrom] on the thread [d], with [i] the bucket that [std::rand]
    chooses. *)
Definition AllocBlockFrom (d t i : nat) (x : Ext) : M Pool (option Z) :=
  let! p := get in
  let! c := deref (tls p !! d) in
  match (if (t =? 0)%nat then tls_idle_list c else []) with
  | n :: l =>
      let! _ := modify (set_tls d (mkTls l (tls_idle_num c - 1) (tls_inited c))) in
      ret (Some (start n))
  | [] =>
      let! filled := fill_bucket t i x in
      if negb filled then ret None else
      let! p := get in
      let! l := deref (idle_list p !! bucket t i) in
      match l with
      | [] => abort
      | n :: l' =>
          let! _ := modify (set_idle (bucket t i)
            (if GetBlockSize t <? len n then mkNode (start n + GetBlockSize t) (len n - GetBlockSize t) :: l' else l')) in
          let! _ := modify (count_idle (bucket t i) (- (if GetBlockSize t <? len n then len n - GetBlockSize t else freed x))) in
          let! _ := if (t =? 0)%nat then refill_tls d i else ret tt in
          ret (Some (start n))
      end
  end.

Definition type_for (n : Z) : nat := if n <=? GetBlockSize 0 then 0 else if n <=? GetBlockSize 1 then 1 else 2.
Definition BlockAllocate (d : nat) (n : Z) (i : nat) (x : Ext) : M Pool (option Z) :=
  if n =? 0 then ret None else
  if GetBlockSize (BLOCK_SIZE_COUNT - 1) <? n then ret None else
  AllocBlockFrom d (type_for n) i x.

Definition bucket_of (r : Region) (buf : Z) : nat := Z.to_nat ((buf - r_start r) * Z.of_nat RDMA_MEMPOOL_BUCKETS / r_size r).
(** Take the first [k] nodes off the cache. *)
Fixpoint cut_nodes (k : nat) (l : list IdleNode) : option (list IdleNode * list IdleNode) :=
  match k, l with
  | O, _ => Some ([], l)
  | S k', [] => None
  | S k', n :: l' => x ← cut_nodes k' l'; Some (n :: fst x, snd x)
  end.
Definition sum_len (l : list IdleNode) : Z := foldr (fun n a => len n + a) 0 l.
(** [BlockDeallocate]; [false] is [ERANGE]. *)
Definition BlockDeallocate (d : nat) (buf : Z) : M Pool bool :=
  if buf =? 0 then ret true else
  let! p := get in
  match GetRegion p buf with
  | None => ret false
  | Some r =>
      let t := block_type r in
      let node := mkNode buf (GetBlockSize t) in
      let! c := deref (tls p !! d) in
      if (t =? 0)%nat && (tls_idle_num c <? RDMA_MEMPOOL_TLS_CACHE_NUM)%nat then
        let! _ := modify (set_tls d (mkTls (node :: tls_idle_list c) (S (tls_idle_num c)) true)) in
        ret true
      else
        let k := bucket t (bucket_of r buf) in
        let! l := deref (idle_list p !! k) in
        if (t =? 0)%nat then
          let cnt := (RDMA_MEMPOOL_TLS_CACHE_NUM / 2)%nat in
          let! x := deref (cut_nodes cnt (tls_idle_list c)) in
          let! _ := modify (fun p => set_tls d (mkTls (snd x) (tls_idle_num c - cnt) (tls_inited c)) (set_idle k (fst x ++ node :: l) (count_idle k (sum_len (fst x)) p))) in
          ret true
        else
          let! _ := modify (fun p => set_idle k (node :: l) (count_idle k (len node) p)) in
          ret true
  end.

(** [RecycleAll]: the cached blocks of a thread go back to their buckets; the
    loop takes them off the cache, which only this thread sees. *)
Fixpoint recycle (l : list IdleNode) : M Pool unit :=
  match l with
  | [] => ret tt
  | n :: l' =>
      let! p := get in
      let! _ := match GetRegion p (start n) with
                | None => ret tt
                | Some r =>
                    let k := bucket 0 (bucket_of r (start n)) in
                    let! b := deref (idle_list p !! k) in
                    modify (set_idle k (n :: b))
                end in
      recycle l'
  end.
Definition RecycleAll (d : nat) : M Pool unit :=
  let! p := get in
  let! c := deref (tls p !! d) in
  let! _ := modify (set_tls d (mkTls [] 0 (tls_inited c))) in
  recycle (tls_idle_list c).
(** The end of a thread: its callback runs if it has been registered, and its
    thread-local variables are gone. *)
Definition thread_exit (d : nat) : M Pool unit :=
  let! p := get in
  let! c := deref (tls p !! d) in
  let! _ := if tls_inited c then RecycleAll d else ret tt in
  modify (set_tls d new_Tls).

(** ** Blocks

    A block is its type and its address.  A node of a bucket of type [t] stands
    for the blocks of type [t] that it covers, a region for all of its blocks. *)

Abbreviation block := (nat * Z)%type.
Definition node_blocks (t : nat) (n : IdleNode) : list block :=
  (fun j => (t, start n + Z.of_nat j * GetBlockSize t)) <$> seq 0 (Z.to_nat (len n / GetBlockSize t)).
Definition bucket_blocks (k : nat) (l : list IdleNode) : list block := concat (node_blocks (k / RDMA_MEMPOOL_BUCKETS) <$> l).
Definition cache_blocks (c : Tls) : list block := concat (node_blocks 0 <$> tls_idle_list c).
Definition free_blocks (p : Pool) : list block :=
  concat (imap bucket_blocks (idle_list p)) ++ concat (imap bucket_blocks (expansion_list p)) ++ concat (cache_blocks <$> tls p).
Definition region_blocks (r : Region) : list block := node_blocks (block_type r) (mkNode (r_start r) (r_size r)).
Definition all_blocks (p : Pool) : list block := concat (region_blocks <$> g_regions p).

Definition node_ok (t : nat) (n : IdleNode) : Prop := exists k, (1 <= k)%nat /\ len n = Z.of_nat k * GetBlockSize t.
Definition tls_ok (c : Tls) : Prop := tls_idle_num c = length (tls_idle_list c) /\ Forall (fun n => len n = GetBlockSize 0) (tls_idle_list c).
Definition apart (r r' : Region) : Prop := r_start r + r_size r <= r_start r' \/ r_start r' + r_size r' <= r_start r.
Record region_ok (r : Region) : Prop := mk_region_ok {
  ro_start : 0 < r_start r; ro_end : r_start r + r_size r < 2 ^ 64; ro_type : (block_type r < BLOCK_SIZE_COUNT)%nat; ro_key : lkey r <> 0;
  ro_size : exists k, (1 <= k)%nat /\ r_size r = Z.of_nat (RDMA_MEMPOOL_BUCKETS * k) * GetBlockSize (block_type r)
}.
Record shape (p : Pool) : Prop := mk_shape {
  sh_idle : length (idle_list p) = 12%nat;
  sh_expansion : length (expansion_list p) = 12%nat;
  sh_idle_ok : forall k l, idle_list p !! k = Some l -> Forall (node_ok (k / RDMA_MEMPOOL_BUCKETS)) l;
  sh_expansion_ok : forall k l, expansion_list p !! k = Some l -> Forall (node_ok (k / RDMA_MEMPOOL_BUCKETS)) l;
  sh_tls : Forall tls_ok (tls p);
  sh_regions : Forall region_ok (g_regions p);
  sh_apart : StronglySorted apart (g_regions p)
}.
(** [live] are the blocks in use. *)
Record pool_inv (p : Pool) (live : list block) : Prop := mk_pool_inv {
  pi_shape : shape p;
  pi_blocks : free_blocks p ++ live ⊆+ all_blocks p
}.

Lemma bsize_pos t : (t < BLOCK_SIZE_COUNT)%nat -> 0 < GetBlockSize t.
Proof. unfold BLOCK_SIZE_COUNT. intros H. unfold GetBlockSize. destruct t as [|[|[|t]]]; cbn; unfold BYTES_IN_MB; lia. Qed.
Lemma node_blocks_n t a k : (t < BLOCK_SIZE_COUNT)%nat ->
  node_blocks t (mkNode a (Z.of_nat k * GetBlockSize t)) = (fun j => (t, a + Z.of_nat j * GetBlockSize t)) <$> seq 0 k.
Proof. intros Ht. pose proof (bsize_pos t Ht). unfold node_blocks. cbn [len start]. by rewrite Z.div_mul, Nat2Z.id by lia. Qed.
Lemma node_blocks_split t a k1 k2 : (t < BLOCK_SIZE_COUNT)%nat ->
  node_blocks t (mkNode a (Z.of_nat (k1 + k2) * GetBlockSize t)) =
  node_blocks t (mkNode a (Z.of_nat k1 * GetBlockSize t)) ++ node_blocks t (mkNode (a + Z.of_nat k1 * GetBlockSize t) (Z.of_nat k2 * GetBlockSize t)).
Proof.
  intros Ht. rewrite !node_blocks_n by done. rewrite seq_app, fmap_app. f_equal. cbn [Nat.add].
  replace (seq k1 k2) with (Nat.add k1 <$> seq 0 k2) by (rewrite fmap_add_seq; f_equal; lia). rewrite <- list_fmap_compose.
  apply list_fmap_ext. intros i j _. cbn [compose]. f_equal. lia.
Qed.
Lemma node_blocks_one t a : (t < BLOCK_SIZE_COUNT)%nat -> node_blocks t (mkNode a (GetBlockSize t)) = [(t, a)].
Proof.
  intros Ht. replace (GetBlockSize t) with (Z.of_nat 1 * GetBlockSize t) by lia. rewrite node_blocks_n by done. cbn [seq fmap list_fmap]. f_equal. f_equal. lia.
Qed.
Lemma node_blocks_in t n s a : (t < BLOCK_SIZE_COUNT)%nat -> node_ok t n -> (s, a) ∈ node_blocks t n ->
  s = t /\ start n <= a /\ a + GetBlockSize t <= start n + len n /\ (GetBlockSize t | a - start n).
Proof.
  intros Ht (k & Hk & E) Hin. pose proof (bsize_pos t Ht). destruct n as [b l]. cbn in *. subst l. rewrite node_blocks_n in Hin by done.
  apply list_elem_of_fmap in Hin as (j & [= -> ->] & Hj). apply elem_of_seq in Hj. split; [done|].
  split; [nia|]. split; [nia|]. exists (Z.of_nat j). lia.
Qed.

(** Replacing one element of a list of lists changes only its part. *)
Lemma concat_imap_insert {A B} (f : nat -> A -> list B) (L : list A) k l : L !! k = Some l ->
  exists R, concat (imap f L) ≡ₚ f k l ++ R /\ forall l', concat (imap f (<[k := l']> L)) ≡ₚ f k l' ++ R.
Proof.
  revert f k. induction L as [|x L IH]; intros f k H; [done|]. destruct k as [|k]; cbn in *.
  - injection H as ->. exists (concat (imap (f ∘ S) L)). rewrite imap_cons || cbn. split; [done|]. intros l'. done.
  - destruct (IH (f ∘ S) k H) as (R & E1 & E2). exists (f 0%nat x ++ R). split.
    + rewrite E1. cbn. by rewrite !(assoc_L (++)), (comm (++) (f 0%nat x)).
    + intros l'. rewrite E2. cbn. by rewrite !(assoc_L (++)), (comm (++) (f 0%nat x)).
Qed.
Lemma concat_fmap_insert {A B} (f : A -> list B) (L : list A) k l : L !! k = Some l ->
  exists R, concat (f <$> L) ≡ₚ f l ++ R /\ forall l', concat (f <$> <[k := l']> L) ≡ₚ f l' ++ R.
Proof.
  intros H. destruct (concat_imap_insert (const f) L k l H) as (R & E1 & E2).
  exists R. rewrite imap_const in E1. split; [done|]. intros l'. specialize (E2 l'). by rewrite imap_const in E2.
Qed.

Lemma free_idle p k l : idle_list p !! k = Some l ->
  exists R, free_blocks p ≡ₚ bucket_blocks k l ++ R /\ forall l', free_blocks (set_idle k l' p) ≡ₚ bucket_blocks k l' ++ R.
Proof.
  intros H. destruct (concat_imap_insert bucket_blocks _ k l H) as (R & E1 & E2). eexists. unfold free_blocks. cbn.
  split; [by rewrite E1, <- (assoc_L (++))|]. intros l'. by rewrite E2, <- (assoc_L (++)).
Qed.
Lemma free_expansion p k l : expansion_list p !! k = Some l ->
  exists R, free_blocks p ≡ₚ bucket_blocks k l ++ R /\ forall l', free_blocks (set_expansion k l' p) ≡ₚ bucket_blocks k l' ++ R.
Proof.
  intros H. destruct (concat_imap_insert bucket_blocks _ k l H) as (R & E1 & E2).
  exists (concat (imap bucket_blocks (idle_list p)) ++ R ++ concat (cache_blocks <$> tls p)). unfold free_blocks. cbn.
  split; [|intros l'; rewrite E2]; [rewrite E1|]; solve_Permutation.
Qed.
Lemma free_tls p d c : tls p !! d = Some c ->
  exists R, free_blocks p ≡ₚ cache_blocks c ++ R /\ forall c', free_blocks (set_tls d c' p) ≡ₚ cache_blocks c' ++ R.
Proof.
  intros H. destruct (concat_fmap_insert cache_blocks _ d c H) as (R & E1 & E2).
  exists (concat (imap bucket_blocks (idle_list p)) ++ concat (imap bucket_blocks (expansion_list p)) ++ R). unfold free_blocks. cbn.
  split; [|intros l'; rewrite E2]; [rewrite E1|]; solve_Permutation.
Qed.

(** ** Regions *)

Lemma region_node r : region_ok r -> node_ok (block_type r) (mkNode (r_start r) (r_size r)).
Proof. intros []. destruct ro_size0 as (k & Hk & E). exists (RDMA_MEMPOOL_BUCKETS * k)%nat. unfold RDMA_MEMPOOL_BUCKETS. split; [lia|exact E]. Qed.
Lemma region_blocks_in r t a : region_ok r -> (t, a) ∈ region_blocks r ->
  t = block_type r /\ r_start r <= a /\ a + GetBlockSize t <= r_start r + r_size r /\ (GetBlockSize t | a - r_start r).
Proof.
  intros Hr Hin. pose proof (node_blocks_in _ _ _ _ (ro_type r Hr) (region_node r Hr) Hin) as (-> & H1 & H2 & H3). done.
Qed.
Lemma all_blocks_in p t a : shape p -> (t, a) ∈ all_blocks p -> exists r, r ∈ g_regions p /\ (t, a) ∈ region_blocks r.
Proof.
  intros _ Hin. unfold all_blocks in Hin. apply list_elem_of_In, in_concat in Hin as (l & Hl & Ha).
  apply list_elem_of_In, list_elem_of_fmap in Hl as (r & -> & Hr). exists r. split; [done|by apply list_elem_of_In].
Qed.
Lemma shape_type p t a : shape p -> (t, a) ∈ all_blocks p -> (t < BLOCK_SIZE_COUNT)%nat /\ 0 < a /\ 0 < GetBlockSize t.
Proof.
  intros Hs Hin. destruct (all_blocks_in p t a Hs Hin) as (r & Hr & Hb). pose proof (proj1 (Forall_forall _ _) (sh_regions p Hs) r Hr) as Ho.
  destruct (region_blocks_in r t a Ho Hb) as (-> & H1 & _). destruct Ho. split; [done|]. split; [lia|]. by apply bsize_pos.
Qed.
Lemma node_blocks_nodup t n : (t < BLOCK_SIZE_COUNT)%nat -> NoDup (node_blocks t n).
Proof.
  intros Ht. pose proof (bsize_pos t Ht). apply NoDup_fmap_2; [|apply NoDup_seq]. intros i j [= E]. nia.
Qed.
Lemma regions_nodup rs : Forall region_ok rs -> StronglySorted apart rs -> NoDup (concat (region_blocks <$> rs)).
Proof.
  induction rs as [|r rs IH]; intros Ho Ha; [constructor|]. apply Forall_cons in Ho as [Hr Ho]. apply StronglySorted_cons in Ha as [Hap Ha].
  cbn. apply NoDup_app. split; [apply node_blocks_nodup, Hr|]. split; [|by apply IH].
  intros [t a] H1 H2. apply list_elem_of_In, in_concat in H2 as (l & Hl & H2). apply list_elem_of_In, list_elem_of_fmap in Hl as (r' & -> & Hr').
  apply list_elem_of_In in H2. pose proof (proj1 (Forall_forall _ _) Ho r' Hr') as Ho'. pose proof (proj1 (Forall_forall _ _) Hap r' Hr') as Hap'.
  destruct (region_blocks_in r t a Hr H1) as (-> & B1 & B2 & _). destruct (region_blocks_in r' _ a Ho' H2) as (_ & B3 & B4 & _).
  pose proof (bsize_pos _ (ro_type r Hr)). destruct Hap'; lia.
Qed.
Lemma all_blocks_nodup p : shape p -> NoDup (all_blocks p).
Proof. intros []. by apply regions_nodup. Qed.

Lemma GetRegion_loop_in rs r a : Forall region_ok rs -> StronglySorted apart rs -> r ∈ rs -> r_start r <= a < r_start r + r_size r ->
  GetRegion_loop rs a = Some r.
Proof.
  induction rs as [|r0 rs IH]; intros Ho Ha Hin Hra; [by apply not_elem_of_nil in Hin|].
  apply Forall_cons in Ho as [Hr Ho]. apply StronglySorted_cons in Ha as [Hap Ha]. cbn. pose proof (ro_start r0 Hr). destruct (Z.eqb_spec (r_start r0) 0); [lia|].
  apply elem_of_cons in Hin as [->|Hin].
  - destruct (Z.leb_spec (r_start r0) a); [|lia]. destruct (Z.ltb_spec a (r_start r0 + r_size r0)); [done|lia].
  - pose proof (proj1 (Forall_forall _ _) Hap r Hin) as Hap'.
    destruct (Z.leb_spec (r_start r0) a), (Z.ltb_spec a (r_start r0 + r_size r0)); cbn [andb]; try (by apply IH). destruct Hap'; lia.
Qed.
(** The region of a block. *)
Lemma GetRegion_block p t a : shape p -> (t, a) ∈ all_blocks p ->
  exists r, GetRegion p a = Some r /\ region_ok r /\ block_type r = t /\ r_start r <= a /\ a + GetBlockSize t <= r_start r + r_size r.
Proof.
  intros Hs Hin. destruct (shape_type p t a Hs Hin) as (_ & Ha & Hb). destruct (all_blocks_in p t a Hs Hin) as (r & Hr & Hrb).
  pose proof (proj1 (Forall_forall _ _) (sh_regions p Hs) r Hr) as Ho. destruct (region_blocks_in r t a Ho Hrb) as (-> & H1 & H2 & _).
  exists r. split; [|done]. unfold GetRegion. destruct (Z.eqb_spec a 0); [lia|]. apply GetRegion_loop_in; [apply Hs|apply Hs|done|lia].
Qed.
(** Every byte of a block has the key of the block's region. *)
Lemma GetRegionId_block p t a o : shape p -> (t, a) ∈ all_blocks p -> 0 <= o < GetBlockSize t ->
  GetRegionId p (a + o) = GetRegionId p a /\ GetRegionId p a <> 0.
Proof.
  intros Hs Hb Ho. destruct (GetRegion_block p t a Hs Hb) as (r & Hr & Hro & _ & H1 & H2). destruct (shape_type p t a Hs Hb) as (_ & Ha & _).
  unfold GetRegionId. rewrite Hr. split; [|apply Hro]. unfold GetRegion in *. destruct (Z.eqb_spec a 0); [done|]. destruct (Z.eqb_spec (a + o) 0); [lia|].
  assert (r ∈ g_regions p) as Hrin. { clear -Hr. induction (g_regions p) as [|r0 rs IH]; [done|]. cbn in Hr. destruct (_ =? 0); [done|].
    destruct (_ && _); [injection Hr as ->; by left|right; by apply IH]. }
  rewrite (GetRegion_loop_in (g_regions p) r (a + o)); [done|apply Hs|apply Hs|done|lia].
Qed.
Lemma bucket_of_lt r a : region_ok r -> r_start r <= a < r_start r + r_size r -> (bucket_of r a < RDMA_MEMPOOL_BUCKETS)%nat.
Proof.
  intros Ho Ha. unfold bucket_of, RDMA_MEMPOOL_BUCKETS. assert (0 <= (a - r_start r) * Z.of_nat 4 / r_size r < 4); [|lia].
  split; [apply Z.div_pos; lia|]. apply Z.div_lt_upper_bound; lia.
Qed.

Lemma submseteq_NoDup {A} (l k : list A) : l ⊆+ k -> NoDup k -> NoDup l.
Proof. intros H Hk. apply submseteq_Permutation in H as [k' E]. rewrite E in Hk. by apply NoDup_app in Hk as [? _]. Qed.

(** ** Keeping the shape *)

Lemma shape_idle k l p : shape p -> Forall (node_ok (k / RDMA_MEMPOOL_BUCKETS)) l -> shape (set_idle k l p).
Proof.
  intros [] Hl. split; cbn; try done; [by rewrite length_insert|]. intros k' l' Hk. apply list_lookup_insert_Some in Hk as [(-> & -> & _)|[_ Hk]]; [done|by apply sh_idle_ok0].
Qed.
Lemma shape_expansion k l p : shape p -> Forall (node_ok (k / RDMA_MEMPOOL_BUCKETS)) l -> shape (set_expansion k l p).
Proof.
  intros [] Hl. split; cbn; try done; [by rewrite length_insert|]. intros k' l' Hk. apply list_lookup_insert_Some in Hk as [(-> & -> & _)|[_ Hk]]; [done|by apply sh_expansion_ok0].
Qed.
Lemma shape_tls d c p : shape p -> tls_ok c -> shape (set_tls d c p).
Proof. intros [] Hc. split; cbn; try done. by apply Forall_insert. Qed.
Lemma shape_count k d p : shape p -> shape (count_idle k d p).
Proof. by intros []. Qed.
Lemma shape_count_expansion k d p : shape p -> shape (count_expansion k d p).
Proof. by intros []. Qed.
Lemma bucket_type t i : (i < RDMA_MEMPOOL_BUCKETS)%nat -> (bucket t i / RDMA_MEMPOOL_BUCKETS)%nat = t.
Proof. unfold bucket, RDMA_MEMPOOL_BUCKETS. intros H. rewrite Nat.mul_comm, Nat.div_add_l by lia. rewrite Nat.div_small by lia. lia. Qed.
Lemma bucket_lt t i : (t < BLOCK_SIZE_COUNT)%nat -> (i < RDMA_MEMPOOL_BUCKETS)%nat -> (bucket t i < 12)%nat.
Proof. unfold bucket, RDMA_MEMPOOL_BUCKETS, BLOCK_SIZE_COUNT. lia. Qed.
Lemma idle_bucket p t i : shape p -> (t < BLOCK_SIZE_COUNT)%nat -> (i < RDMA_MEMPOOL_BUCKETS)%nat ->
  exists l, idle_list p !! bucket t i = Some l /\ Forall (node_ok t) l.
Proof.
  intros Hs Ht Hi. destruct (lookup_lt_is_Some_2 (idle_list p) (bucket t i)) as [l Hl]; [rewrite (sh_idle p Hs); by apply bucket_lt|].
  exists l. split; [done|]. pose proof (sh_idle_ok p Hs _ _ Hl) as H. by rewrite bucket_type in H.
Qed.
Lemma expansion_bucket p t i : shape p -> (t < BLOCK_SIZE_COUNT)%nat -> (i < RDMA_MEMPOOL_BUCKETS)%nat ->
  exists l, expansion_list p !! bucket t i = Some l /\ Forall (node_ok t) l.
Proof.
  intros Hs Ht Hi. destruct (lookup_lt_is_Some_2 (expansion_list p) (bucket t i)) as [l Hl]; [rewrite (sh_expansion p Hs); by apply bucket_lt|].
  exists l. split; [done|]. pose proof (sh_expansion_ok p Hs _ _ Hl) as H. by rewrite bucket_type in H.
Qed.
Lemma bucket_blocks_cons t i n l : (i < RDMA_MEMPOOL_BUCKETS)%nat -> bucket_blocks (bucket t i) (n :: l) = node_blocks t n ++ bucket_blocks (bucket t i) l.
Proof. intros H. unfold bucket_blocks. rewrite fmap_cons. cbn [concat]. by rewrite bucket_type. Qed.
Lemma bucket_blocks_app k l1 l2 : bucket_blocks k (l1 ++ l2) = bucket_blocks k l1 ++ bucket_blocks k l2.
Proof. unfold bucket_blocks. by rewrite fmap_app, concat_app. Qed.
Lemma bucket_blocks_cache i l : (i < RDMA_MEMPOOL_BUCKETS)%nat -> bucket_blocks (bucket 0 i) l = concat (node_blocks 0 <$> l).
Proof. intros H. unfold bucket_blocks. by rewrite bucket_type. Qed.

(** A change that keeps the regions keeps the invariant when it has no more
    free and used blocks than before. *)
Lemma pool_inv_sub p p' live live' : pool_inv p live -> shape p' -> g_regions p' = g_regions p ->
  free_blocks p' ++ live' ⊆+ free_blocks p ++ live -> pool_inv p' live'.
Proof. intros [Hs Hb] Hs' Hr Hf. split; [done|]. unfold all_blocks. rewrite Hr. by etrans. Qed.

(** ** Growing the pool *)

(** The system gives memory that is not in use. *)
Definition ext_ok (x : Ext) (p : Pool) : Prop := forall base, memalign x = Some base ->
  0 < base /\ base + 2 ^ 30 < 2 ^ 64 /\ Forall (fun r => r_start r + r_size r <= base \/ base + 2 ^ 30 <= r_start r) (g_regions p).

Lemma region_bytes_1G t : (t < BLOCK_SIZE_COUNT)%nat -> region_bytes RDMA_INITIAL_REGION_SIZE t = 2 ^ 30.
Proof. unfold BLOCK_SIZE_COUNT. intros H. destruct t as [|[|[|t]]]; [reflexivity..|lia]. Qed.
Lemma quarter_blocks t : (t < BLOCK_SIZE_COUNT)%nat -> exists k, (1 <= k)%nat /\ 2 ^ 28 = Z.of_nat k * GetBlockSize t.
Proof.
  unfold BLOCK_SIZE_COUNT. intros H. exists (Z.to_nat (2 ^ 28 / GetBlockSize t)).
  destruct t as [|[|[|t]]]; [| | |lia]; unfold GetBlockSize; cbn [nth g_block_size]; unfold BYTES_IN_MB; rewrite Z2Nat.id by (apply Z.div_pos; lia); split; try reflexivity;
    apply Nat2Z.inj_le; rewrite Z2Nat.id by (apply Z.div_pos; lia); by vm_compute.
Qed.

Lemma spread_spec base q t ixs : forall p, shape p -> (t < BLOCK_SIZE_COUNT)%nat -> (exists k, (1 <= k)%nat /\ q = Z.of_nat k * GetBlockSize t) ->
  Forall (fun i => (i < RDMA_MEMPOOL_BUCKETS)%nat) ixs ->
  exists p', spread base q t ixs p = Ok tt p' /\ shape p' /\ g_regions p' = g_regions p /\ tls p' = tls p /\ idle_list p' = idle_list p /\
    free_blocks p' ≡ₚ concat ((fun i => node_blocks t (mkNode (base + Z.of_nat i * q) q)) <$> ixs) ++ free_blocks p /\
    (forall k, (exists n l, expansion_list p !! k = Some (n :: l)) \/ (exists i, i ∈ ixs /\ k = bucket t i) -> exists n l, expansion_list p' !! k = Some (n :: l)).
Proof.
  induction ixs as [|i ixs IH]; intros p Hs Ht Hq Hi; cbn [spread].
  - exists p. split_and!; try done. intros k [H|(i & Hin & _)]; [done|by apply not_elem_of_nil in Hin].
  - apply Forall_cons in Hi as [Hi His]. destruct (expansion_bucket p t i Hs Ht Hi) as (l & Hl & Hok).
    set (n := mkNode (base + Z.of_nat i * q) q). unfold bind, get, modify. rewrite (deref_some _ l) by done.
    destruct (IH (set_expansion (bucket t i) (n :: l) (count_expansion (bucket t i) q p))) as (p' & E & Hs' & Er & Et & Ei & Ef & Ee); try done.
    { apply shape_expansion; [by apply shape_count_expansion|]. rewrite bucket_type by done. by constructor. }
    exists p'. split_and!; try done.
    + destruct (free_expansion (count_expansion (bucket t i) q p) _ l Hl) as (R & F1 & F2). change (free_blocks (count_expansion (bucket t i) q p)) with (free_blocks p) in F1. rewrite Ef, F2, F1, bucket_blocks_cons, fmap_cons by done. cbn [concat]. fold n. solve_Permutation.
    + intros k Hk. apply Ee. cbn [expansion_list set_expansion].
      destruct (decide (k = bucket t i)) as [->|Hne].
      * left. exists n, l. apply list_lookup_insert_eq. by eapply lookup_lt_Some.
      * rewrite list_lookup_insert_ne by done. destruct Hk as [Hk|(j & Hj & ->)]; [by left|]. right.
        apply elem_of_cons in Hj as [->|Hj]; [done|]. by exists j.
Qed.

Lemma extend_spec p live t x : pool_inv p live -> (t < BLOCK_SIZE_COUNT)%nat -> ext_ok x p ->
  exists o p', ExtendBlockPool RDMA_INITIAL_REGION_SIZE t x p = Ok o p' /\ pool_inv p' live /\ tls p' = tls p /\ idle_list p' = idle_list p /\
    (o = None -> p' = p) /\ (o <> None -> forall i, (i < RDMA_MEMPOOL_BUCKETS)%nat -> exists n l, expansion_list p' !! bucket t i = Some (n :: l)).
Proof.
  intros [Hs Hb] Ht Hx. unfold ExtendBlockPool. change (RDMA_INITIAL_REGION_SIZE <? 1) with false. cbn iota.
  assert (forall o : option Z, o = None -> exists o' p', (Ok o p : outcome Pool (option Z)) = Ok o' p' /\ pool_inv p' live /\ tls p' = tls p /\ idle_list p' = idle_list p /\
    (o' = None -> p' = p) /\ (o' <> None -> forall i, (i < RDMA_MEMPOOL_BUCKETS)%nat -> exists n l, expansion_list p' !! bucket t i = Some (n :: l))) as Hno.
  { intros o ->. exists None, p. split_and!; done. }
  destruct (memalign x) as [base|] eqn:Em; [|by apply Hno]. destruct (Hx base Em) as (Hb0 & Hb1 & Hap).
  unfold ExtendBlockPoolImpl, bind at 1, get. destruct (Nat.eqb_spec (length (g_regions p)) RDMA_MEMPOOL_MAX_REGIONS); [by apply Hno|].
  destruct (Z.eqb_spec (reg_key x) 0); [by apply Hno|]. rewrite region_bytes_1G by done. clear Hno.
  set (r := mkRegion base (2 ^ 30) t (reg_key x)). destruct (quarter_blocks t Ht) as (k & Hk & Eq).
  assert (region_ok r) as Hr. { split; cbn; try done; try lia. exists k. split; [done|]. change (2 ^ 30 = Z.of_nat (RDMA_MEMPOOL_BUCKETS * k) * GetBlockSize t). rewrite Nat2Z.inj_mul, <- Z.mul_assoc, <- Eq. reflexivity. }
  assert (shape (add_region r p)) as Hs1.
  { destruct Hs. split; cbn; try done; [by apply Forall_app; split; [|constructor]|]. apply StronglySorted_app. split; [|split; [done|repeat constructor]].
    intros r1 r2 H1 ->%list_elem_of_singleton. rewrite Forall_forall in Hap. specialize (Hap r1 H1). unfold apart. cbn. lia. }
  change (2 ^ 30 / Z.of_nat RDMA_MEMPOOL_BUCKETS) with (2 ^ 28).
  destruct (spread_spec base (2 ^ 28) t (seq 0 RDMA_MEMPOOL_BUCKETS) (add_region r p) Hs1 Ht) as (p' & E & Hs' & Er & Et & Ei & Ef & Ee); [by exists k|by repeat constructor|].
  unfold bind, modify. rewrite E. exists (Some base), p'. split_and!; try done.
  - split; [done|]. unfold all_blocks. rewrite Er, Ef. cbn [add_region g_regions]. rewrite fmap_app, concat_app. cbn [concat fmap list_fmap]. rewrite app_nil_r.
    assert (concat ((fun i => node_blocks t (mkNode (base + Z.of_nat i * 2 ^ 28) (2 ^ 28))) <$> seq 0 RDMA_MEMPOOL_BUCKETS) = region_blocks r) as ->.
    { cbn [seq RDMA_MEMPOOL_BUCKETS fmap list_fmap concat]. unfold region_blocks, r. cbn [block_type r_start r_size].
      replace (2 ^ 30) with (Z.of_nat (k + (k + (k + k))) * GetBlockSize t) by (rewrite !Nat2Z.inj_add, !Z.mul_add_distr_r, <- Eq; reflexivity). rewrite Eq, !node_blocks_split, app_nil_r by done.
      f_equal; [f_equal; f_equal; lia|]. f_equal; [f_equal; f_equal; lia|]. f_equal; f_equal; f_equal; lia. }
    change (free_blocks (add_region r p)) with (free_blocks p). rewrite <- (assoc_L (++)), (comm (++) (region_blocks r)).
    by apply submseteq_app.
  - intros _ i Hi. apply Ee. right. exists i. split; [|done]. apply elem_of_seq. lia.
Qed.

(** The expansion list becomes the bucket. *)
Lemma move_spec p live t i e n l : pool_inv p live -> (t < BLOCK_SIZE_COUNT)%nat -> (i < RDMA_MEMPOOL_BUCKETS)%nat ->
  idle_list p !! bucket t i = Some [] -> expansion_list p !! bucket t i = Some e -> e = n :: l ->
  exists p', MoveExpansionList2EmptyIdleList t i p = Ok tt p' /\ pool_inv p' live /\ tls p' = tls p /\ g_regions p' = g_regions p /\
    idle_list p' !! bucket t i = Some (n :: l).
Proof.
  intros Hp Ht Hi Hl He Ee. pose proof (pi_shape _ _ Hp) as Hs. unfold MoveExpansionList2EmptyIdleList, bind, get, modify.
  rewrite (deref_some _ []) by done. cbn [check ret]. rewrite (deref_some _ e) by done. eexists. split; [done|].
  assert (Forall (node_ok (bucket t i / RDMA_MEMPOOL_BUCKETS)) e) as Hok by (by eapply sh_expansion_ok).
  split; [|split; [done|split; [done|]]].
  - apply (pool_inv_sub p _ live live Hp); [apply shape_expansion; [|by apply Forall_nil_2]; apply shape_idle; [|done]; by apply shape_count_expansion, shape_count| done|].
    set (q := move_count (bucket t i) p). destruct (free_expansion (set_idle (bucket t i) e q) _ e He) as (R & F1 & F2). rewrite F2. destruct (free_idle q _ [] Hl) as (R' & G1 & G2). change (free_blocks q) with (free_blocks p) in G1.
    rewrite G1. specialize (G2 e). rewrite F1 in G2. apply Permutation_app_inv_l in G2. rewrite G2. done.
  - cbn. rewrite list_lookup_insert_eq by (by eapply lookup_lt_Some). by rewrite Ee.
Qed.

Lemma fill_bucket_spec p live t i x : pool_inv p live -> (t < BLOCK_SIZE_COUNT)%nat -> (i < RDMA_MEMPOOL_BUCKETS)%nat -> ext_ok x p ->
  exists b p', fill_bucket t i x p = Ok b p' /\ pool_inv p' live /\ tls p' = tls p /\
    (if b then exists n l, idle_list p' !! bucket t i = Some (n :: l) else p' = p).
Proof.
  intros Hp Ht Hi Hx. pose proof (pi_shape _ _ Hp) as Hs. destruct (idle_bucket p t i Hs Ht Hi) as (l & Hl & Hok).
  unfold fill_bucket, bind at 1 2, get. rewrite (deref_some _ l) by done. destruct l as [|n l]; [|exists true, p; split_and!; eauto].
  destruct (expansion_bucket p t i Hs Ht Hi) as (e & He & _). unfold bind at 1. rewrite (deref_some _ e) by done. destruct e as [|n e].
  - destruct (extend_spec p live t x Hp Ht Hx) as (o & p1 & E1 & Hp1 & Et & Ei & Hn & Hsome). exec E1. destruct o as [base|].
    + destruct (Hsome ltac:(done) i Hi) as (n & l & Hl1).
      destruct (move_spec p1 live t i (n :: l) n l Hp1 Ht Hi) as (p2 & E2 & Hp2 & Et2 & _ & Hl2); [by rewrite Ei|done|done|].
      exec E2. exists true, p2. split_and!; eauto. congruence.
    + exists false, p1. split_and!; auto.
  - destruct (move_spec p live t i (n :: e) n e Hp Ht Hi Hl He eq_refl) as (p2 & E2 & Hp2 & Et2 & _ & Hl2).
    exec E2. exists true, p2. split_and!; eauto.
Qed.

(** ** Allocation *)

Lemma tls_scan_spec l : forall num, Forall (node_ok 0) l -> let x := tls_scan num l in
  l = fst (fst x) ++ snd (fst x) /\ Forall (fun n => len n = GetBlockSize 0) (fst (fst x)) /\ snd x = (num + length (fst (fst x)))%nat.
Proof.
  induction l as [|n l IH]; intros num Hl; cbn [tls_scan]; [by cbn; auto|]. apply Forall_cons in Hl as [Hn Hl].
  destruct (_ <=? num)%nat; cbn [orb fst snd length app]; [auto|]. destruct (Z.ltb_spec (GetBlockSize 0) (len n)) as [|Hle]; cbn [fst snd length app]; [auto|].
  destruct (IH (S num) Hl) as (E1 & E2 & E3). split_and!; [by f_equal| |lia]. constructor; [|done].
  destruct Hn as (k & Hk & E). pose proof (bsize_pos 0 ltac:(unfold BLOCK_SIZE_COUNT; lia)). nia.
Qed.

(** The cache of a thread is filled from the bucket; blocks can get lost. *)
Lemma refill_spec p live d i c : pool_inv p live -> (i < RDMA_MEMPOOL_BUCKETS)%nat -> tls p !! d = Some c -> tls_idle_list c = [] ->
  exists p', refill_tls d i p = Ok tt p' /\ pool_inv p' live /\ length (tls p') = length (tls p).
Proof.
  intros Hp Hi Hc Hcn. pose proof (pi_shape _ _ Hp) as Hs. assert (0 < BLOCK_SIZE_COUNT)%nat as H0 by (unfold BLOCK_SIZE_COUNT; lia).
  destruct (idle_bucket p 0 i Hs H0 Hi) as (l & Hl & Hok). pose proof (proj1 (Forall_lookup _ _) (sh_tls p Hs) d c Hc) as [Hcnum _].
  unfold refill_tls, bind, get, modify. rewrite (deref_some _ l), (deref_some _ c) by done.
  assert (tls_idle_num c = 0%nat) as Hn0 by (by rewrite Hcnum, Hcn). rewrite Hn0.
  destruct (tls_scan_spec l 0 Hok) as (E1 & E2 & E3). destruct (tls_scan 0 l) as [[mv rest] num]. cbn [fst snd Nat.add] in *.
  destruct (free_tls p d c Hc) as (R & F1 & F2).
  assert (forall cc l', tls_ok cc -> Forall (node_ok 0) l' -> cache_blocks cc ++ bucket_blocks (bucket 0 i) l' ⊆+ bucket_blocks (bucket 0 i) l ->
    pool_inv (set_idle (bucket 0 i) l' (set_tls d cc p)) live) as Hgoal.
  { intros cc l' Hcc Hl' Hsub. apply (pool_inv_sub p _ live live Hp); [|done|].
    - apply shape_idle; [by apply shape_tls|by rewrite bucket_type].
    - destruct (free_idle (set_tls d cc p) _ l Hl) as (Q & G1 & G2). rewrite G2. rewrite F2 in G1. apply submseteq_app; [|done].
      rewrite F1. assert (cache_blocks c = []) as -> by (unfold cache_blocks; by rewrite Hcn). cbn [app].
      apply (submseteq_app_inv_l _ _ (cache_blocks cc)). rewrite G1, (assoc_L (++)). by apply submseteq_app. }
  destruct (Nat.eqb_spec num 0) as [Hz|Hnz].
  - eexists. split; [done|]. split; [|cbn; by rewrite length_insert]. apply Hgoal.
    + split; [done|constructor].
    + by apply Forall_take.
    + cbn [cache_blocks tls_idle_list fmap list_fmap concat app]. rewrite <- (take_drop 1 l) at 2. rewrite bucket_blocks_app. apply submseteq_inserts_r. done.
  - destruct mv as [|m mv]; [cbn in E3; lia|]. eexists. split; [done|]. split; [|cbn; by rewrite length_insert]. apply Hgoal.
    + split; [exact E3|exact E2].
    + rewrite E1 in Hok. by apply Forall_app in Hok as [_ ?].
    + rewrite E1, bucket_blocks_app, (bucket_blocks_cache i (m :: mv)) by done. done.
Qed.

Lemma alloc_from_spec p live d t i x c : pool_inv p live -> (t < BLOCK_SIZE_COUNT)%nat -> (i < RDMA_MEMPOOL_BUCKETS)%nat -> ext_ok x p ->
  tls p !! d = Some c -> exists o p', AllocBlockFrom d t i x p = Ok o p' /\ length (tls p') = length (tls p) /\
    match o with Some a => pool_inv p' ((t, a) :: live) | None => p' = p end.
Proof.
  intros Hp Ht Hi Hx Hc. pose proof (pi_shape _ _ Hp) as Hs. unfold AllocBlockFrom, bind at 1 2, get. rewrite (deref_some _ c) by done.
  pose proof (proj1 (Forall_lookup _ _) (sh_tls p Hs) d c Hc) as [Hcnum Hclen].
  destruct (if (t =? 0)%nat then tls_idle_list c else []) as [|n l] eqn:El.
  - destruct (fill_bucket_spec p live t i x Hp Ht Hi Hx) as (b & p1 & E1 & Hp1 & Et1 & Hb). exec E1. destruct b; cbn [negb].
    2:{ subst p1. exists None, p. split_and!; done. }
    destruct Hb as (n & l & Hl1). unfold bind at 1 2, get. rewrite (deref_some _ (n :: l)) by done. unfold bind at 1 2, modify.
    set (dz := - (if GetBlockSize t <? len n then _ else _)). pose proof (sh_idle_ok p1 (pi_shape _ _ Hp1) _ _ Hl1) as Hok. rewrite bucket_type in Hok by done. apply Forall_cons in Hok as [Hn Hok].
    set (l' := if GetBlockSize t <? len n then mkNode (start n + GetBlockSize t) (len n - GetBlockSize t) :: l else l).
    assert (Forall (node_ok t) l' /\ bucket_blocks (bucket t i) (n :: l) = (t, start n) :: bucket_blocks (bucket t i) l') as [Hok' Hbl].
    { destruct Hn as (k & Hk & En). pose proof (bsize_pos t Ht). destruct n as [a ln]. cbn [start len] in *. unfold l'. rewrite bucket_blocks_cons by done.
      destruct (Z.ltb_spec (GetBlockSize t) ln) as [Hlt|Hge].
      - assert (2 <= k)%nat as Hk2 by nia. split; [constructor; [|done]; exists (k - 1)%nat; split; [lia|cbn; nia]|].
        rewrite bucket_blocks_cons by done. rewrite app_comm_cons. f_equal. rewrite En. replace k with (1 + (k - 1))%nat at 1 by lia.
        rewrite node_blocks_split by done. replace (Z.of_nat 1 * GetBlockSize t) with (GetBlockSize t) by lia. rewrite node_blocks_one by done. cbn [app]. f_equal. f_equal. f_equal. nia.
      - assert (k = 1%nat) as -> by nia. split; [done|]. rewrite En. replace (Z.of_nat 1 * GetBlockSize t) with (GetBlockSize t) by lia. by rewrite node_blocks_one. }
    assert (pool_inv (count_idle (bucket t i) dz (set_idle (bucket t i) l' p1)) ((t, start n) :: live)) as Hp2.
    { apply (pool_inv_sub p1 _ live _ Hp1); [apply shape_count, shape_idle; [apply Hp1|by rewrite bucket_type]|done|].
      change (free_blocks (count_idle (bucket t i) dz ?q)) with (free_blocks q). destruct (free_idle p1 _ _ Hl1) as (R & F1 & F2). rewrite F1, F2, Hbl. apply Permutation_submseteq. solve_Permutation. }
    destruct (Nat.eqb_spec t 0) as [->|Hne].
    + destruct (refill_spec _ _ d i c Hp2 Hi) as (p3 & E3 & Hp3 & Hlen); [by cbn; rewrite Et1|done|]. exec E3. exists (Some (start n)), p3.
      split_and!; try done. rewrite Hlen. cbn. by rewrite Et1.
    + unfold bind at 1, ret. eexists (Some (start n)), _. split; [done|]. split; [cbn; by rewrite Et1|done].
  - destruct (Nat.eqb_spec t 0) as [->|]; [|done]. unfold bind, modify. eexists (Some (start n)), _. split; [done|].
    split; [cbn; by rewrite length_insert|]. rewrite El in Hclen, Hcnum. apply Forall_cons in Hclen as [Hn Hl].
    apply (pool_inv_sub p _ live _ Hp); [|done|].
    + apply shape_tls; [done|]. split; [cbn in *; lia|exact Hl].
    + destruct (free_tls p d c Hc) as (R & F1 & F2). rewrite F1, F2. unfold cache_blocks at 2. rewrite El, fmap_cons. cbn [concat].
      destruct n as [a ln]. cbn [len start] in *. subst ln. rewrite node_blocks_one by done. unfold cache_blocks. cbn [tls_idle_list app]. apply Permutation_submseteq. solve_Permutation.
Qed.

Lemma type_for_spec n : 0 < n <= GetBlockSize (BLOCK_SIZE_COUNT - 1) -> (type_for n < BLOCK_SIZE_COUNT)%nat /\ n <= GetBlockSize (type_for n).
Proof.
  intros Hn. unfold type_for, BLOCK_SIZE_COUNT in *. cbn [Nat.sub] in Hn. destruct (Z.leb_spec n (GetBlockSize 0)); [lia|].
  destruct (Z.leb_spec n (GetBlockSize 1)); lia.
Qed.

(** ** Deallocation *)

Lemma cut_nodes_spec k l : (k <= length l)%nat -> cut_nodes k l = Some (take k l, drop k l).
Proof.
  revert l. induction k as [|k IH]; intros l Hl; [by destruct l|]. destruct l as [|n l]; [cbn in Hl; lia|]. cbn in *. rewrite IH by lia. done.
Qed.

Lemma dealloc_spec p live live' d c t a : pool_inv p live -> live ≡ₚ (t, a) :: live' -> tls p !! d = Some c ->
  exists p', BlockDeallocate d a p = Ok true p' /\ pool_inv p' live' /\ length (tls p') = length (tls p).
Proof.
  intros Hp Hlive Hc. pose proof (pi_shape _ _ Hp) as Hs. pose proof (proj1 (Forall_lookup _ _) (sh_tls p Hs) d c Hc) as [Hcnum Hclen].
  assert ((t, a) ∈ all_blocks p) as Hin.
  { eapply elem_of_submseteq; [|apply Hp]. apply elem_of_app. right. rewrite Hlive. by left. }
  destruct (GetRegion_block p t a Hs Hin) as (r & Hr & Ho & <- & Hra & Hrb). destruct (shape_type p _ a Hs Hin) as (Ht & Ha & Hbs).
  unfold BlockDeallocate. destruct (Z.eqb_spec a 0); [lia|]. unfold bind at 1, get. rewrite Hr. unfold bind at 1. rewrite (deref_some _ c) by done.
  set (node := mkNode a (GetBlockSize (block_type r))).
  assert (node_ok (block_type r) node) as Hnode by (exists 1%nat; cbn; split; lia).
  destruct ((block_type r =? 0)%nat && _) eqn:Etls.
  - apply andb_true_iff in Etls as [E0%Nat.eqb_eq _]. unfold bind, modify. eexists. split; [done|]. split; [|cbn; by rewrite length_insert].
    apply (pool_inv_sub p _ live _ Hp); [|done|].
    + apply shape_tls; [done|]. split; [cbn; by rewrite Hcnum|]. constructor; [by cbn; rewrite E0|done].
    + destruct (free_tls p d c Hc) as (R & F1 & F2). rewrite F1, F2, Hlive. unfold cache_blocks. cbn [tls_idle_list]. rewrite fmap_cons. cbn [concat].
      unfold node. rewrite E0, node_blocks_one by lia. cbn [app]. apply Permutation_submseteq. solve_Permutation.
  - set (i := bucket_of r a). assert (i < RDMA_MEMPOOL_BUCKETS)%nat as Hi by (apply bucket_of_lt; [done|lia]).
    destruct (idle_bucket p (block_type r) i Hs Ht Hi) as (l & Hl & Hok). unfold bind at 1. rewrite (deref_some _ l) by done.
    destruct (free_idle p _ l Hl) as (R & F1 & F2).
    destruct (Nat.eqb_spec (block_type r) 0) as [E0|Hne]; cbn [andb] in Etls.
    + apply Nat.ltb_ge in Etls. rewrite E0 in *. unfold RDMA_MEMPOOL_TLS_CACHE_NUM in *. change (128 / 2)%nat with 64%nat.
      unfold bind at 1. rewrite (deref_some _ (take 64 (tls_idle_list c), drop 64 (tls_idle_list c))) by (apply cut_nodes_spec; lia).
      unfold bind, modify. cbn [fst snd]. eexists. split; [done|]. split; [|cbn; by rewrite length_insert].
      apply (pool_inv_sub p _ live _ Hp); [|done|].
      * apply shape_tls; [apply shape_idle; [by apply shape_count|]|].
        -- rewrite bucket_type by done. apply Forall_app. split; [|by constructor]. apply Forall_take. eapply Forall_impl; [exact Hclen|].
           intros m Hm. exists 1%nat. cbn in Hm. rewrite Hm. split; lia.
        -- split; [cbn; rewrite length_drop; lia|]. cbn. by apply Forall_drop.
      * set (p1 := count_idle (bucket 0 i) (sum_len (take 64 (tls_idle_list c))) p). destruct (free_tls (set_idle (bucket 0 i) (take 64 (tls_idle_list c) ++ node :: l) p1) d c Hc) as (Q & G1 & G2). rewrite G2. clear G2.
        change (free_blocks (set_idle (bucket 0 i) ?x p1)) with (free_blocks (set_idle (bucket 0 i) x p)) in G1. rewrite F2, bucket_blocks_app, (bucket_blocks_cache i (take 64 _)), bucket_blocks_cons in G1 by done.
        rewrite F1, Hlive. unfold cache_blocks in G1 at 1. rewrite <- (take_drop 64 (tls_idle_list c)) in G1 at 2. rewrite fmap_app, concat_app, <- !(assoc_L (++)) in G1.
        apply Permutation_app_inv_l in G1. unfold cache_blocks at 1. cbn [tls_idle_list]. rewrite <- G1. unfold node. rewrite ?E0, node_blocks_one by done.
        apply Permutation_submseteq. cbn [app]. solve_Permutation.
    + unfold bind, modify. eexists. split; [done|]. split; [|done]. apply (pool_inv_sub p _ live _ Hp); [|done|].
      * apply shape_idle; [by apply shape_count|]. rewrite bucket_type by done. by constructor.
      * change (free_blocks (set_idle (bucket (block_type r) i) (node :: l) (count_idle ?k ?d p))) with (free_blocks (set_idle (bucket (block_type r) i) (node :: l) p)). rewrite F1, F2, Hlive, bucket_blocks_cons by done. unfold node. rewrite node_blocks_one by done. cbn [app]. apply Permutation_submseteq. solve_Permutation.
Qed.

Lemma recycle_spec l : forall p live live', pool_inv p live -> live ≡ₚ concat (node_blocks 0 <$> l) ++ live' ->
  Forall (fun n => len n = GetBlockSize 0) l ->
  exists p', recycle l p = Ok tt p' /\ pool_inv p' live' /\ tls p' = tls p /\ g_regions p' = g_regions p.
Proof.
  assert (0 < BLOCK_SIZE_COUNT)%nat as H0 by (unfold BLOCK_SIZE_COUNT; lia).
  induction l as [|n l IH]; intros p live live' Hp Hlive Hl; cbn [recycle].
  - exists p. split_and!; try done. destruct Hp. split; [done|]. cbn in Hlive. by rewrite <- Hlive.
  - apply Forall_cons in Hl as [Hn Hl]. pose proof (pi_shape _ _ Hp) as Hs. rewrite fmap_cons in Hlive. cbn [concat] in Hlive.
    assert (node_blocks 0 n = [(0%nat, start n)]) as En. { destruct n as [a ln]. cbn in Hn. subst ln. by apply node_blocks_one. }
    rewrite En in Hlive. cbn [app] in Hlive.
    assert ((0%nat, start n) ∈ all_blocks p) as Hin.
    { eapply elem_of_submseteq; [|apply Hp]. apply elem_of_app. right. rewrite Hlive. by left. }
    destruct (GetRegion_block p _ _ Hs Hin) as (r & Hr & Ho & Et & Hra & Hrb). pose proof (bsize_pos 0 H0).
    unfold bind at 1 2, get. rewrite Hr. set (i := bucket_of r (start n)). assert (i < RDMA_MEMPOOL_BUCKETS)%nat as Hi by (apply bucket_of_lt; [done|lia]).
    destruct (idle_bucket p 0 i Hs H0 Hi) as (b & Hb & Hok). unfold bind at 1. rewrite (deref_some _ b) by done. unfold modify.
    edestruct (IH (set_idle (bucket 0 i) (n :: b) p) (concat (node_blocks 0 <$> l) ++ live') live') as (p' & E & H1 & H2 & H3); [|done|done|exists p'; done].
    apply (pool_inv_sub p _ live _ Hp); [|done|].
    + apply shape_idle; [done|]. rewrite bucket_type by done. constructor; [|done]. exists 1%nat. split; lia.
    + destruct (free_idle p _ b Hb) as (R & F1 & F2). rewrite F1, F2, Hlive, bucket_blocks_cons, En by done. cbn [app]. apply Permutation_submseteq. solve_Permutation.
Qed.

Lemma exit_spec p live d c : pool_inv p live -> tls p !! d = Some c ->
  exists p', thread_exit d p = Ok tt p' /\ pool_inv p' live /\ length (tls p') = length (tls p).
Proof.
  intros Hp Hc. pose proof (pi_shape _ _ Hp) as Hs. pose proof (proj1 (Forall_lookup _ _) (sh_tls p Hs) d c Hc) as [Hcnum Hclen].
  destruct (free_tls p d c Hc) as (R & F1 & F2).
  assert (tls_ok new_Tls) as Hnew by (split; [done|constructor]).
  unfold thread_exit, bind at 1 2, get. rewrite (deref_some _ c) by done. destruct (tls_inited c) eqn:Ei.
  - unfold bind at 1, RecycleAll, bind at 1 2, get. rewrite (deref_some _ c) by done. unfold bind at 1, modify at 1. set (c0 := mkTls [] 0 (tls_inited c)).
    assert (tls_ok c0) as Hc0 by (split; [done|constructor]).
    destruct (recycle_spec (tls_idle_list c) (set_tls d c0 p) (cache_blocks c ++ live) live) as (p1 & E1 & Hp1 & Et1 & _); try done.
    { apply (pool_inv_sub p _ live _ Hp); [by apply shape_tls|done|]. rewrite F1, F2. cbn [cache_blocks tls_idle_list c0 fmap list_fmap concat app].
      apply Permutation_submseteq. solve_Permutation. }
    rewrite E1. unfold modify. eexists. split; [done|]. split; [|cbn; rewrite length_insert, Et1; cbn; by rewrite length_insert].
    assert (tls p1 !! d = Some c0) as Hc1 by (rewrite Et1; cbn; apply list_lookup_insert_eq; by eapply lookup_lt_Some).
    destruct (free_tls p1 d c0 Hc1) as (R1 & G1 & G2). apply (pool_inv_sub p1 _ live _ Hp1); [by apply shape_tls; [apply Hp1|]|done|]. by rewrite G1, G2.
  - unfold bind, ret, modify. eexists. split; [done|]. split; [|cbn; by rewrite length_insert].
    apply (pool_inv_sub p _ live _ Hp); [by apply shape_tls|done|]. rewrite F1, F2. cbn [cache_blocks new_Tls tls_idle_list fmap list_fmap concat app].
    apply submseteq_app; [|done]. by apply submseteq_inserts_l.
Qed.

(** ** Runs *)

(** Before [InitBlockPool], with the protection domain set. *)
Definition fresh_pool (threads : nat) : Pool := mkPool true [] [] [] (replicate threads new_Tls) [] [].

Lemma empty_buckets k l : @replicate (list IdleNode) 12 [] !! k = Some l -> l = [].
Proof. intros H. by apply lookup_replicate in H as [? _]. Qed.
Lemma fresh_caches n : concat (cache_blocks <$> replicate n new_Tls) = [].
Proof. induction n as [|n IH]; [done|]. cbn [replicate fmap list_fmap concat]. by rewrite IH. Qed.
Lemma init_spec threads x : ext_ok x (fresh_pool threads) ->
  exists b p, InitBlockPool x (fresh_pool threads) = Ok b p /\ pool_inv p [] /\ length (tls p) = threads.
Proof.
  intros Hx. set (p0 := mkPool true [] (replicate 12 []) (replicate 12 []) (replicate threads new_Tls) (replicate 12 0) (replicate 12 0)).
  assert (pool_inv p0 []) as Hp.
  { split; [split; cbn; try done|].
    - intros k l Hk. apply (empty_buckets k l) in Hk as ->. constructor.
    - intros k l Hk. apply (empty_buckets k l) in Hk as ->. constructor.
    - apply Forall_replicate. split; [done|constructor].
    - constructor.
    - unfold free_blocks, all_blocks. cbn. by rewrite fresh_caches. }
  destruct (extend_spec p0 [] 0 x Hp ltac:(unfold BLOCK_SIZE_COUNT; lia) Hx) as (o & p' & E & Hp' & Et & _).
  exists (match o with Some _ => true | None => false end), p'. split; [|split; [done|rewrite Et; cbn; apply length_replicate]].
  unfold InitBlockPool, bind, get, modify. cbn [negb g_pd fresh_pool g_regions length Nat.ltb Nat.leb]. fold p0.
  change (mkPool true [] (replicate (BLOCK_SIZE_COUNT * RDMA_MEMPOOL_BUCKETS) []) (replicate (BLOCK_SIZE_COUNT * RDMA_MEMPOOL_BUCKETS) []) (tls (fresh_pool threads)) (replicate (BLOCK_SIZE_COUNT * RDMA_MEMPOOL_BUCKETS) 0) (replicate (BLOCK_SIZE_COUNT * RDMA_MEMPOOL_BUCKETS) 0)) with p0.
  by rewrite E.
Qed.

(** The pool and the blocks in use.  A thread allocates, gives a block back that
    is in use (from whichever thread), or ends. *)
Inductive pool_step : Pool * list block -> Pool * list block -> Prop :=
| ps_alloc d n i x p live o p' : 0 < n -> (i < RDMA_MEMPOOL_BUCKETS)%nat -> ext_ok x p -> BlockAllocate d n i x p = Ok o p' ->
    pool_step (p, live) (p', match o with Some a => (type_for n, a) :: live | None => live end)
| ps_free d t a p live live' b p' : live ≡ₚ (t, a) :: live' -> BlockDeallocate d a p = Ok b p' -> pool_step (p, live) (p', live')
| ps_exit d p live p' : thread_exit d p = Ok tt p' -> pool_step (p, live) (p', live).

Lemma alloc_spec p live d n i x c : pool_inv p live -> 0 < n -> (i < RDMA_MEMPOOL_BUCKETS)%nat -> ext_ok x p -> tls p !! d = Some c ->
  exists o p', BlockAllocate d n i x p = Ok o p' /\ length (tls p') = length (tls p) /\
    match o with Some a => pool_inv p' ((type_for n, a) :: live) /\ n <= GetBlockSize (type_for n) | None => p' = p end.
Proof.
  intros Hp Hn Hi Hx Hc. unfold BlockAllocate. destruct (Z.eqb_spec n 0); [lia|].
  destruct (Z.ltb_spec (GetBlockSize (BLOCK_SIZE_COUNT - 1)) n); [by exists None, p|].
  destruct (type_for_spec n ltac:(lia)) as [Ht Hf]. destruct (alloc_from_spec p live d _ i x c Hp Ht Hi Hx Hc) as (o & p' & E & Hl & Ho).
  exists o, p'. split; [done|]. split; [done|]. by destruct o.
Qed.
Lemma out_of_threads {A B} (l : list A) d (f : A -> M Pool B) p r p' : bind (deref (l !! d)) f p = Ok r p' -> exists c, l !! d = Some c.
Proof. unfold bind, deref, undef. destruct (l !! d) as [c|]; [by exists c|done]. Qed.

Lemma pool_step_inv s s' : pool_inv (fst s) (snd s) -> pool_step s s' -> pool_inv (fst s') (snd s') /\ length (tls (fst s')) = length (tls (fst s)).
Proof.
  intros Hp Hst. destruct Hst as [d n i x p live o p' Hn Hi Hx E|d t a p live live' b p' Hl E|d p live p' E]; cbn [fst snd] in *.
  - destruct (tls p !! d) as [c|] eqn:Hc.
    + destruct (alloc_spec p live d n i x c Hp Hn Hi Hx Hc) as (o' & p1 & E1 & Hlen & H). rewrite E in E1. injection E1 as <- <-. split; [|done].
      destruct o; [apply H|by subst].
    + unfold BlockAllocate in E. destruct (n =? 0); [by injection E as <- <-|]. destruct (_ <? n); [by injection E as <- <-|].
      unfold AllocBlockFrom, bind at 1, get in E. apply out_of_threads in E as [c E]. congruence.
  - destruct (tls p !! d) as [c|] eqn:Hc.
    + destruct (dealloc_spec p live live' d c t a Hp Hl Hc) as (p1 & E1 & H1 & H2). rewrite E in E1. by injection E1 as _ <-.
    + unfold BlockDeallocate in E. pose proof (pi_shape _ _ Hp) as Hs.
      assert ((t, a) ∈ all_blocks p) as Hin. { eapply elem_of_submseteq; [|apply Hp]. apply elem_of_app. right. rewrite Hl. by left. }
      destruct (shape_type p t a Hs Hin) as (_ & Ha & _). destruct (Z.eqb_spec a 0); [lia|]. destruct (GetRegion_block p t a Hs Hin) as (r & Hr & _).
      unfold bind at 1, get in E. rewrite Hr in E. apply out_of_threads in E as [c E]. congruence.
  - unfold thread_exit, bind at 1, get in E. destruct (out_of_threads _ _ _ _ _ _ E) as [c Hc].
    destruct (exit_spec p live d c Hp Hc) as (p1 & E1 & H1 & H2). change (thread_exit d p = Ok tt p') in E. rewrite E in E1. by injection E1 as <-.
Qed.
Lemma pool_run_inv threads x b p0 p live : ext_ok x (fresh_pool threads) -> InitBlockPool x (fresh_pool threads) = Ok b p0 ->
  steps pool_step (p0, []) (p, live) -> pool_inv p live /\ length (tls p) = threads.
Proof.
  intros Hx E Hst. destruct (init_spec threads x Hx) as (b' & p0' & E' & H1 & H2). rewrite E in E'. injection E' as <- <-.
  apply (steps_invariant pool_step (fun s => pool_inv (fst s) (snd s) /\ length (tls (fst s)) = threads) (p0, []) (p, live)); [|done|done].
  intros s s' [Ha Hb] Hs. destruct (pool_step_inv s s' Ha Hs). split; [done|lia].
Qed.

Lemma apart_in rs r r' : StronglySorted apart rs -> r ∈ rs -> r' ∈ rs -> r = r' \/ apart r r'.
Proof.
  induction rs as [|r0 rs IH]; intros Ha H1 H2; [by apply not_elem_of_nil in H1|]. apply StronglySorted_cons in Ha as [Hf Ha]. rewrite Forall_forall in Hf.
  apply elem_of_cons in H1 as [->|H1]; apply elem_of_cons in H2 as [->|H2]; auto. right. specialize (Hf _ H1). unfold apart in *. lia.
Qed.
Lemma blocks_disjoint p t a t' a' : shape p -> (t, a) ∈ all_blocks p -> (t', a') ∈ all_blocks p -> (t, a) <> (t', a') ->
  a + GetBlockSize t <= a' \/ a' + GetBlockSize t' <= a.
Proof.
  intros Hs H1 H2 Hne. destruct (all_blocks_in p t a Hs H1) as (r & Hr & Hb). destruct (all_blocks_in p t' a' Hs H2) as (r' & Hr' & Hb').
  pose proof (proj1 (Forall_forall _ _) (sh_regions p Hs) r Hr) as Ho. pose proof (proj1 (Forall_forall _ _) (sh_regions p Hs) r' Hr') as Ho'.
  destruct (region_blocks_in r t a Ho Hb) as (-> & A1 & A2 & [k Ak]). destruct (region_blocks_in r' t' a' Ho' Hb') as (-> & B1 & B2 & [k' Bk]).
  pose proof (bsize_pos _ (ro_type r Ho)). destruct (apart_in _ r r' (sh_apart p Hs) Hr Hr') as [<-|Hap]; [|unfold apart in Hap; lia].
  assert (k <> k') by (intros ->; apply Hne; f_equal; lia). assert (k + 1 <= k' \/ k' + 1 <= k) as [?|?] by lia; [left|right]; nia.
Qed.

(** ** Theorems *)

(** C36: The block pool is safe for any sequence of allocations, deallocations
    and ends of threads: blocks in use are pairwise disjoint in memory and disjoint from the
    free ones, each lies in one registered region, so that [GetRegionId] gives the key for
    every byte of it, it is at least as large as was asked for, and no operation aborts.
    All of this holds whatever the one reading of freed memory in [AllocBlockFrom]
    gives ([freed], which [ext_ok] leaves open); that reading is undefined behaviour. *)
Theorem block_pool_safe threads x0 b p0 p live : ext_ok x0 (fresh_pool threads) -> InitBlockPool x0 (fresh_pool threads) = Ok b p0 ->
  steps pool_step (p0, []) (p, live) ->
  (forall i j t a t' a', live !! i = Some (t, a) -> live !! j = Some (t', a') -> i <> j -> a + GetBlockSize t <= a' \/ a' + GetBlockSize t' <= a) /\
  (forall t a t' a', (t, a) ∈ live -> (t', a') ∈ free_blocks p -> a + GetBlockSize t <= a' \/ a' + GetBlockSize t' <= a) /\
  (forall t a o, (t, a) ∈ live -> 0 <= o < GetBlockSize t -> 0 < a /\ GetRegionId p (a + o) = GetRegionId p a /\ GetRegionId p a <> 0) /\
  (forall d n i x, (d < threads)%nat -> 0 < n -> (i < RDMA_MEMPOOL_BUCKETS)%nat -> ext_ok x p ->
     exists o p', BlockAllocate d n i x p = Ok o p' /\ (forall a, o = Some a -> n <= GetBlockSize (type_for n) /\ (a ∉ live.*2))) /\
  (forall d t a, (d < threads)%nat -> (t, a) ∈ live -> exists p', BlockDeallocate d a p = Ok true p') /\
  (forall d, (d < threads)%nat -> exists p', thread_exit d p = Ok tt p').
Proof.
  intros Hx E Hst. destruct (pool_run_inv threads x0 b p0 p live Hx E Hst) as [Hp Hlen]. pose proof (pi_shape _ _ Hp) as Hs.
  assert (forall q l t a, pool_inv q l -> (t, a) ∈ l -> (t, a) ∈ all_blocks q) as Hin.
  { intros q l t a Hq Hl. eapply elem_of_submseteq; [|apply Hq]. apply elem_of_app. by right. }
  assert (forall d, (d < threads)%nat -> exists c, tls p !! d = Some c) as Hc. { intros d Hd. apply lookup_lt_is_Some_2. lia. }
  assert (forall q l i j t a t' a', pool_inv q l -> l !! i = Some (t, a) -> l !! j = Some (t', a') -> i <> j ->
    a + GetBlockSize t <= a' \/ a' + GetBlockSize t' <= a) as Hdis.
  { intros q l i j t a t' a' Hq Hi Hj Hij. apply (blocks_disjoint q); [apply Hq|eapply Hin; [done|by eapply list_elem_of_lookup_2]..|].
    intros Heq. rewrite <- Heq in Hj. apply Hij. eapply NoDup_lookup; [|exact Hi|exact Hj].
    apply (NoDup_app (free_blocks q)). apply (submseteq_NoDup _ (all_blocks q)); [apply Hq|]. by apply all_blocks_nodup, Hq. }
  split; [by intros; eapply Hdis|]. split; [|split; [|split; [|split]]].
  { intros t a t' a' Hl Hf. pose proof (submseteq_NoDup _ _ (pi_blocks _ _ Hp) (all_blocks_nodup p Hs)) as Hnd. apply NoDup_app in Hnd as (_ & Hnd & _).
    apply (blocks_disjoint p); [done|by eapply Hin| |intros Heq; rewrite Heq in Hl; by apply (Hnd (t', a'))]. eapply elem_of_submseteq; [|apply Hp]. apply elem_of_app. by left. }
  - intros t a o Hl Ho. pose proof (Hin _ _ _ _ Hp Hl) as Hb. destruct (shape_type p t a Hs Hb) as (_ & Ha & _). split; [done|]. by apply (GetRegionId_block p t a o).
  - intros d n i x Hd Hn Hi Hxp. destruct (Hc d Hd) as [c Hcd]. destruct (alloc_spec p live d n i x c Hp Hn Hi Hxp Hcd) as (o & p' & Ea & _ & Ho).
    exists o, p'. split; [done|]. intros a ->. destruct Ho as [Hp' Hf]. split; [done|]. intros Ha. apply list_elem_of_fmap in Ha as ([t' a'] & -> & Hl).
    apply list_elem_of_lookup in Hl as [j Hj]. pose proof (Hdis p' _ 0%nat (S j) _ _ _ _ Hp' eq_refl Hj ltac:(done)) as Hd'. cbn [snd] in Hd'.
    pose proof (shape_type p' t' a' (pi_shape _ _ Hp') (Hin _ _ _ _ Hp' ltac:(right; by eapply list_elem_of_lookup_2))). lia.
  - intros d t a Hd Hl. destruct (Hc d Hd) as [c Hcd]. apply elem_of_Permutation in Hl as [live' Hl].
    destruct (dealloc_spec p live live' d c t a Hp Hl Hcd) as (p' & E' & _). by exists p'.
  - intros d Hd. destruct (Hc d Hd) as [c Hcd]. destruct (exit_spec p live d c Hp Hcd) as (p' & E' & _). by exists p'.
Qed.

(** The nodes that an allocation from a bucket finds. *)
Definition nodes_of (p : Pool) (t i : nat) : list IdleNode :=
  match default [] (idle_list p !! bucket t i) with [] => default [] (expansion_list p !! bucket t i) | l => l end.

(** The pool loses memory: when a thread with an empty cache takes a default
    block from a bucket whose first node has more than two blocks left, all other
    nodes of the bucket are cut off, and their blocks are neither free nor in use
    afterwards. *)
Theorem block_pool_drops_nodes threads x0 b p0 p live d i x c n l : ext_ok x0 (fresh_pool threads) -> InitBlockPool x0 (fresh_pool threads) = Ok b p0 ->
  steps pool_step (p0, []) (p, live) -> (i < RDMA_MEMPOOL_BUCKETS)%nat -> tls p !! d = Some c -> tls_idle_list c = [] ->
  nodes_of p 0 i = n :: l -> 2 * GetBlockSize 0 < len n ->
  exists p', AllocBlockFrom d 0 i x p = Ok (Some (start n)) p' /\ all_blocks p' = all_blocks p /\
    free_blocks p ≡ₚ (0%nat, start n) :: free_blocks p' ++ concat (node_blocks 0 <$> l).
Proof.
  intros Hx E Hst Hi Hc Hcl Hn Hlen. destruct (pool_run_inv threads x0 b p0 p live Hx E Hst) as [Hp _]. pose proof (pi_shape _ _ Hp) as Hs.
  assert (0 < BLOCK_SIZE_COUNT)%nat as H0 by (unfold BLOCK_SIZE_COUNT; lia). pose proof (bsize_pos 0 H0) as Hb0.
  pose proof (proj1 (Forall_lookup _ _) (sh_tls p Hs) d c Hc) as [Hcnum _]. rewrite Hcl in Hcnum.
  destruct (idle_bucket p 0 i Hs H0 Hi) as (l0 & Hl0 & Hok0). destruct (expansion_bucket p 0 i Hs H0 Hi) as (e0 & He0 & Hoke).
  unfold nodes_of in Hn. rewrite Hl0, He0 in Hn. cbn [default] in Hn.
  assert (exists p1, fill_bucket 0 i x p = Ok true p1 /\ idle_list p1 !! bucket 0 i = Some (n :: l) /\ tls p1 = tls p /\ g_regions p1 = g_regions p /\
    free_blocks p1 ≡ₚ free_blocks p /\ node_ok 0 n) as (p1 & Ef & Hl1 & Et1 & Er1 & Efb & Hnok).
  { unfold fill_bucket, bind at 1 2, get. rewrite (deref_some _ l0) by done. destruct l0 as [|n0 l0]; cbn in Hn.
    - subst e0. unfold bind at 1. rewrite (deref_some _ (n :: l)) by done. apply Forall_cons in Hoke as [Hnok _].
      unfold MoveExpansionList2EmptyIdleList, bind, get, modify. rewrite (deref_some _ []) by done. cbn [check ret]. rewrite (deref_some _ (n :: l)) by done.
      eexists. split; [done|]. split; [cbn; apply list_lookup_insert_eq; by eapply lookup_lt_Some|]. split; [done|]. split; [done|]. split; [|done].
      set (q := move_count (bucket 0 i) p). destruct (free_expansion (set_idle (bucket 0 i) (n :: l) q) _ (n :: l) He0) as (R & F1 & F2). rewrite F2. destruct (free_idle q _ [] Hl0) as (R' & G1 & G2). change (free_blocks q) with (free_blocks p) in G1.
      rewrite G1. specialize (G2 (n :: l)). rewrite F1 in G2. apply Permutation_app_inv_l in G2. by rewrite G2.
    - injection Hn as -> ->. apply Forall_cons in Hok0 as [Hnok _]. exists p. split_and!; done. }
  unfold AllocBlockFrom, bind at 1 2, get. rewrite (deref_some _ c) by done. cbn [Nat.eqb]. rewrite Hcl. exec Ef. cbn [negb].
  unfold bind at 1 2, get. rewrite (deref_some _ (n :: l)) by done. unfold bind at 1 2, modify. destruct (Z.ltb_spec (GetBlockSize 0) (len n)); [|lia].
  set (n' := mkNode (start n + GetBlockSize 0) (len n - GetBlockSize 0)). set (p2 := count_idle (bucket 0 i) (- (len n - GetBlockSize 0)) (set_idle (bucket 0 i) (n' :: l) p1)).
  assert (refill_tls d i p2 = Ok tt (set_idle (bucket 0 i) [n'] (set_tls d (mkTls [] 0 (tls_inited c)) p2))) as Er.
  { unfold refill_tls, bind, get, modify. rewrite (deref_some _ (n' :: l)) by (cbn; apply list_lookup_insert_eq; by eapply lookup_lt_Some).
    rewrite (deref_some _ c) by (cbn; by rewrite Et1). rewrite Hcnum. cbn [length tls_scan]. change (RDMA_MEMPOOL_TLS_CACHE_NUM / 2 <=? 0)%nat with false.
    destruct (Z.ltb_spec (GetBlockSize 0) (len n')); [|cbn in *; lia]. cbn [orb fst snd]. done. }
  exec Er. eexists. split; [done|]. split; [unfold all_blocks; cbn; by rewrite Er1|].
  rewrite <- Efb. destruct (free_idle p1 _ _ Hl1) as (R & F1 & F2).
  assert (tls p2 !! d = Some c) as Hc2 by (cbn; by rewrite Et1).
  destruct (free_tls p2 d c Hc2) as (Q & G1 & G2). specialize (G2 (mkTls [] 0 (tls_inited c))).
  assert (cache_blocks c = []) as Hcb by (unfold cache_blocks; by rewrite Hcl). rewrite Hcb in G1. change (cache_blocks (mkTls [] 0 (tls_inited c))) with (@nil block) in G2.
  cbn [app] in G1, G2. rewrite <- G1 in G2. change (free_blocks p2) with (free_blocks (set_idle (bucket 0 i) (n' :: l) p1)) in G2. rewrite F2 in G2.
  destruct (free_idle (set_tls d (mkTls [] 0 (tls_inited c)) p2) (bucket 0 i) (n' :: l)) as (T & K1 & K2); [cbn; apply list_lookup_insert_eq; by eapply lookup_lt_Some|].
  rewrite K2, F1. rewrite G2 in K1. apply Permutation_app_inv_l in K1. rewrite !bucket_blocks_cache by done. rewrite <- K1. rewrite !fmap_cons. cbn [concat fmap list_fmap].
  destruct Hnok as (k & Hk & En). assert (node_blocks 0 n = (0%nat, start n) :: node_blocks 0 n') as ->.
  { destruct n as [a ln]. cbn [start len] in *. unfold n'. rewrite En. replace k with (1 + (k - 1))%nat at 1 by nia. rewrite node_blocks_split by done.
    replace (Z.of_nat 1 * GetBlockSize 0) with (GetBlockSize 0) by lia. rewrite node_blocks_one by done. cbn [app]. f_equal. f_equal. f_equal. nia. }
  cbn [app]. constructor. rewrite app_nil_r. solve_Permutation.
Qed.

(** ** Concrete runs *)

Definition no_ext : Ext := mkExt None 0 7.
Lemma no_ext_ok p : ext_ok no_ext p.
Proof. by intros base. Qed.
Definition first_ext : Ext := mkExt (Some (2 ^ 30)) 5 0.
Definition second_ext : Ext := mkExt (Some (2 ^ 32)) 6 9.
Lemma first_ext_ok : ext_ok first_ext (fresh_pool 1).
Proof. intros base [= <-]. split_and!; [lia|lia|constructor]. Qed.

Definition first_region : Region := mkRegion (2 ^ 30) (2 ^ 30) 0 5.
Definition quarter (base : Z) (i : Z) : IdleNode := mkNode (base + i * 2 ^ 28) (2 ^ 28).
Definition G4 : list Z := replicate 4 (2 ^ 28).
(** The pool of one region whose bucket 0 holds the nodes [l]; the other buckets
    have not been used. *)
Definition stage (l : list IdleNode) (c : Tls) (z e : list Z) : Pool :=
  mkPool true [first_region] (l :: replicate 11 [])
    ([] :: [quarter (2 ^ 30) 1] :: [quarter (2 ^ 30) 2] :: [quarter (2 ^ 30) 3] :: replicate 8 []) [c] z e.
Definition init_pool : Pool :=
  mkPool true [first_region] (replicate 12 [])
    ([quarter (2 ^ 30) 0] :: [quarter (2 ^ 30) 1] :: [quarter (2 ^ 30) 2] :: [quarter (2 ^ 30) 3] :: replicate 8 []) [new_Tls] (replicate 12 0) (G4 ++ replicate 8 0).
Lemma init_pool_ok : InitBlockPool first_ext (fresh_pool 1) = Ok true init_pool.
Proof. reflexivity. Qed.

Definition rest (k : Z) : IdleNode := mkNode (2 ^ 30 + k * 8192) (2 ^ 28 - k * 8192).
Lemma stage_step k x z e : 1 <= k < 32766 -> exists z', BlockAllocate 0 8192 0 x (stage [rest k] new_Tls z e) = Ok (Some (2 ^ 30 + k * 8192)) (stage [rest (k + 1)] new_Tls z' e).
Proof.
  intros Hk. unfold BlockAllocate. change (8192 =? 0) with false. change (GetBlockSize (BLOCK_SIZE_COUNT - 1) <? 8192) with false. change (type_for 8192) with 0%nat. cbn iota.
  unfold AllocBlockFrom, fill_bucket, bind at 1 2 3 4 5 6 7 8, get. cbn -[rest alter]. destruct (Z.ltb_spec (GetBlockSize 0) (len (rest k))) as [_|H]; [|change (GetBlockSize 0) with 8192 in H; cbn in H; lia].
  unfold bind, refill_tls, get. cbn -[rest alter].
  unfold bind. cbn -[rest alter]. destruct (Z.ltb_spec (GetBlockSize 0) (len (rest k) - GetBlockSize 0)) as [_|H]; [|change (GetBlockSize 0) with 8192 in H; cbn in H; lia].
  cbn -[rest alter]. unfold modify, stage, set_idle, set_tls, count_idle. cbn -[rest alter]. eexists. unfold ret. f_equal. f_equal. f_equal. f_equal. unfold rest. change (GetBlockSize 0) with 8192. cbn. f_equal; lia.
Qed.
Lemma alloc_step s p live i x a p' : steps pool_step s (p, live) -> (i < RDMA_MEMPOOL_BUCKETS)%nat -> ext_ok x p ->
  BlockAllocate 0 8192 i x p = Ok (Some a) p' -> steps pool_step s (p', (0%nat, a) :: live).
Proof. intros Hst Hi Hx E. eapply steps_trans; [exact Hst|]. exact (ps_alloc 0 8192 i x p live (Some a) p' ltac:(lia) Hi Hx E). Qed.
(** A step whose effect on the counters does not matter. *)
Definition but_sizes (p : Pool) := (g_pd p, g_regions p, idle_list p, expansion_list p, tls p).
Lemma step_but_sizes i x p o q : match BlockAllocate 0 8192 i x p with Ok o' p' => Some (o', but_sizes p') | _ => None end = Some (o, but_sizes q) ->
  exists z e, BlockAllocate 0 8192 i x p = Ok o (mkPool (g_pd q) (g_regions q) (idle_list q) (expansion_list q) (tls q) z e).
Proof. destruct (BlockAllocate 0 8192 i x p) as [o' p'| | |]; [|done..]. unfold but_sizes. intros [= -> <- <- <- <- <-]. exists (idle_size p'), (expansion_size p'). by destruct p'. Qed.
Lemma stage_run (k : nat) : Z.of_nat k <= 32765 -> exists live z e, steps pool_step (init_pool, []) (stage [rest (1 + Z.of_nat k)] new_Tls z e, live).
Proof.
  assert (0 < RDMA_MEMPOOL_BUCKETS)%nat as Hi by (unfold RDMA_MEMPOOL_BUCKETS; lia).
  induction k as [|k IH]; intros Hk.
  - destruct (step_but_sizes 0 no_ext init_pool (Some (2 ^ 30)) (stage [rest 1] new_Tls [] [])) as (z & e & E); [vm_compute; reflexivity|]. eexists _, z, e. exact (alloc_step _ init_pool [] 0 no_ext _ _ (steps_refl _ _) Hi (no_ext_ok _) E).
  - destruct IH as (live & z & e & Hst); [lia|]. destruct (stage_step (1 + Z.of_nat k) no_ext z e ltac:(lia)) as [z' E]. eexists _, z', e. eapply (alloc_step _ _ _ 0 no_ext _ _ Hst Hi (no_ext_ok _)).
    rewrite E. f_equal. f_equal. f_equal. f_equal. lia.
Qed.
(** All blocks of bucket 0 are taken; the next allocation from it grows the pool
    by a second region, of which every other bucket gets a node. *)
Definition grown (z e : list Z) : Pool :=
  mkPool true [first_region; mkRegion (2 ^ 32) (2 ^ 30) 0 6] ([mkNode (2 ^ 32 + 8192) (2 ^ 28 - 8192)] :: replicate 11 [])
    ([] :: [quarter (2 ^ 32) 1; quarter (2 ^ 30) 1] :: [quarter (2 ^ 32) 2; quarter (2 ^ 30) 2] :: [quarter (2 ^ 32) 3; quarter (2 ^ 30) 3] :: replicate 8 []) [new_Tls] z e.
Lemma last_steps z e : exists z1 e1 z2 e2 z3 e3, BlockAllocate 0 8192 0 no_ext (stage [rest 32766] new_Tls z e) = Ok (Some (2 ^ 30 + 32766 * 8192)) (stage [] (mkTls [rest 32767] 1 false) z1 e1) /\
  BlockAllocate 0 8192 0 no_ext (stage [] (mkTls [rest 32767] 1 false) z1 e1) = Ok (Some (2 ^ 30 + 32767 * 8192)) (stage [] new_Tls z2 e2) /\
  BlockAllocate 0 8192 0 second_ext (stage [] new_Tls z2 e2) = Ok (Some (2 ^ 32)) (grown z3 e3).
Proof.
  destruct (step_but_sizes 0 no_ext (stage [rest 32766] new_Tls z e) (Some (2 ^ 30 + 32766 * 8192)) (stage [] (mkTls [rest 32767] 1 false) [] [])) as (z1 & e1 & E1); [vm_compute; reflexivity|].
  destruct (step_but_sizes 0 no_ext (stage [] (mkTls [rest 32767] 1 false) z1 e1) (Some (2 ^ 30 + 32767 * 8192)) (stage [] new_Tls [] [])) as (z2 & e2 & E2); [vm_compute; reflexivity|].
  destruct (step_but_sizes 0 second_ext (stage [] new_Tls z2 e2) (Some (2 ^ 32)) (grown [] [])) as (z3 & e3 & E3); [vm_compute; reflexivity|]. by exists z1, e1, z2, e2, z3, e3.
Qed.
Lemma grown_steps : exists live z e, steps pool_step (init_pool, []) (grown z e, live).
Proof.
  assert (0 < RDMA_MEMPOOL_BUCKETS)%nat as Hi by (unfold RDMA_MEMPOOL_BUCKETS; lia).
  destruct (stage_run (Z.to_nat 32765)) as (live & z & e & Hst); [rewrite Z2Nat.id; lia|]. rewrite Z2Nat.id in Hst by lia. destruct (last_steps z e) as (z1 & e1 & z2 & e2 & z3 & e3 & E1 & E2 & E3). eexists _, z3, e3.
  refine (alloc_step _ _ _ 0 second_ext _ _ (alloc_step _ _ _ 0 no_ext _ _ (alloc_step _ _ _ 0 no_ext _ _ Hst Hi (no_ext_ok _) E1) Hi (no_ext_ok _) E2) Hi _ E3).
  intros base [= <-]. split_and!; [lia|lia|]. repeat constructor. cbn. lia.
Qed.

Definition first_alloc : Pool := match BlockAllocate 0 8192 0 no_ext init_pool with Ok _ p => p | _ => init_pool end.
Lemma block_pool_safe_witness : exists p', BlockDeallocate 0 (2 ^ 30) first_alloc = Ok true p' /\
  GetRegionId first_alloc (2 ^ 30 + 8191) = 5.
Proof.
  destruct (block_pool_safe 1 first_ext true init_pool first_alloc [(0%nat, 2 ^ 30)] first_ext_ok init_pool_ok) as (_ & _ & H1 & _ & H2 & _).
  - apply (alloc_step _ init_pool [] 0 no_ext (2 ^ 30)); [constructor|unfold RDMA_MEMPOOL_BUCKETS; lia|apply no_ext_ok|reflexivity].
  - destruct (H2 0%nat 0%nat (2 ^ 30)) as (p' & E); [lia|by left|]. exists p'. split; [exact E|].
    destruct (H1 0%nat (2 ^ 30) 8191) as (_ & E1 & _); [by left|by vm_compute|]. rewrite E1. reflexivity.
Defined.

(** The first allocation from bucket 1 loses the 32768 blocks, 256 MB, of its
    second node. *)
Lemma block_pool_drops_nodes_witness : exists z e p', AllocBlockFrom 0 0 1 no_ext (grown z e) = Ok (Some (2 ^ 32 + 2 ^ 28)) p' /\
  free_blocks (grown z e) ≡ₚ (0%nat, 2 ^ 32 + 2 ^ 28) :: free_blocks p' ++ concat (node_blocks 0 <$> [mkNode (2 ^ 30 + 2 ^ 28) (2 ^ 28)]).
Proof.
  destruct grown_steps as (live & z & e & Hst). exists z, e.
  destruct (block_pool_drops_nodes 1 first_ext true init_pool (grown z e) live 0 1 no_ext new_Tls
    (mkNode (2 ^ 32 + 2 ^ 28) (2 ^ 28)) [mkNode (2 ^ 30 + 2 ^ 28) (2 ^ 28)] first_ext_ok init_pool_ok Hst) as (p' & E & _ & Hf);
    [unfold RDMA_MEMPOOL_BUCKETS; lia|reflexivity|reflexivity|reflexivity|reflexivity|].
  exists p'. split; [exact E|]. exact Hf.
Defined.
End BP.
