(* ===== verification/PoolAllocator.v ===== *)
(** * IOBuf over the block pool

    The block pool of the file [BlockPool], together with libc's [malloc],
    implements the memory interface [Allocator] that the IOBuf development
    assumes.  A state is a pool of one thread with the blocks in use, the
    addresses given out by [malloc], and the fact that they are consistent.

    Parameters are the system calls: [next_ext] (what [posix_memalign] and
    [ibv_reg_mr] give), [rand] and [libc] (what [malloc] gives).  They are assumed
    to give memory that is not in use. *)
From S2P Require Import Prelude IOBuf IOBufHeap IOBufOps IOBufEquals IOBufAppend IOBufShare IOBufRefine IOBufCorrect BlockPool.
Local Open Scope Z_scope.

(** ** The regions during an operation *)

Definition keeps {A} (m : M BP.Pool A) : Prop := forall p a p', m p = Ok a p' -> BP.g_regions p' = BP.g_regions p.
(** At most one region is added, at the address given by [x]. *)
Definition grows {A} (x : BP.Ext) (m : M BP.Pool A) : Prop := forall p a p', m p = Ok a p' ->
  BP.g_regions p' = BP.g_regions p \/ exists base t key, BP.memalign x = Some base /\
    BP.g_regions p' = BP.g_regions p ++ [BP.mkRegion base (BP.region_bytes BP.RDMA_INITIAL_REGION_SIZE t) t key].

Lemma keeps_ret {A} (a : A) : keeps (ret a).
Proof. by intros p a' p' [= <- <-]. Qed.
Lemma keeps_get : keeps get.
Proof. by intros p a' p' [= <- <-]. Qed.
Lemma keeps_deref {A} (o : option A) : keeps (deref o).
Proof. intros p a' p'. by destruct o as [a|]; [intros [= <- <-]|]. Qed.
Lemma keeps_check c : keeps (check c).
Proof. intros p a' p'. by destruct c; [intros [= <- <-]|]. Qed.
Lemma keeps_abort {A} : keeps (@abort BP.Pool A).
Proof. by intros p a' p'. Qed.
Lemma keeps_undef {A} : keeps (@undef BP.Pool A).
Proof. by intros p a' p'. Qed.
Lemma keeps_modify f : (forall p, BP.g_regions (f p) = BP.g_regions p) -> keeps (modify f).
Proof. intros H p a p' [= <- <-]. apply H. Qed.
Lemma keeps_bind {A B} (m : M BP.Pool A) (f : A -> M BP.Pool B) : keeps m -> (forall a, keeps (f a)) -> keeps (let! x := m in f x).
Proof. intros Hm Hf p b p' E. unfold bind in E. destruct (m p) as [a p1| | |] eqn:E1; try done. rewrite (Hf a p1 b p' E). by eapply Hm. Qed.
Create HintDb regions.
#[export] Hint Resolve keeps_ret keeps_get keeps_deref keeps_check keeps_abort keeps_undef keeps_modify keeps_bind : regions.

Lemma grows_keeps {A} x (m : M BP.Pool A) : keeps m -> grows x m.
Proof. intros H p a p' E. left. by eapply H. Qed.
Lemma grows_bind_l {A B} x (m : M BP.Pool A) (f : A -> M BP.Pool B) : grows x m -> (forall a, keeps (f a)) -> grows x (let! y := m in f y).
Proof. intros Hm Hf p b p' E. unfold bind in E. destruct (m p) as [a p1| | |] eqn:E1; try done. rewrite (Hf a p1 b p' E). by eapply Hm. Qed.
Lemma grows_bind_r {A B} x (m : M BP.Pool A) (f : A -> M BP.Pool B) : keeps m -> (forall a, grows x (f a)) -> grows x (let! y := m in f y).
Proof. intros Hm Hf p b p' E. unfold bind in E. destruct (m p) as [a p1| | |] eqn:E1; try done. rewrite <- (Hm p a p1 E1). by eapply Hf. Qed.

(** Run through the code of an operation. *)
Ltac keeps_code := repeat first
  [ apply keeps_bind; [|intros] | apply keeps_modify; reflexivity | solve [eauto 2 with regions] | case_match ].
Ltac grows_code := repeat first
  [ apply grows_bind_r; [solve [keeps_code]|intros] | apply grows_keeps; solve [keeps_code] | case_match ].

Lemma spread_keeps base q t ixs : keeps (BP.spread base q t ixs).
Proof. induction ixs as [|i ixs IH]; cbn [BP.spread]; keeps_code; done. Qed.
Lemma extend_grows t x : grows x (BP.ExtendBlockPool BP.RDMA_INITIAL_REGION_SIZE t x).
Proof.
  unfold BP.ExtendBlockPool. case_match; [apply grows_keeps, keeps_ret|]. destruct (BP.memalign x) as [base|] eqn:Em; [|apply grows_keeps, keeps_ret].
  unfold BP.ExtendBlockPoolImpl. apply grows_bind_r; [apply keeps_get|]. intros p0. case_match; [apply grows_keeps, keeps_ret|]. case_match; [apply grows_keeps, keeps_ret|].
  apply grows_bind_l; [|intros; apply keeps_bind; [apply spread_keeps|intros; apply keeps_ret]].
  intros p a p' [= <- <-]. right. by exists base, t, (BP.reg_key x).
Qed.
Lemma move_keeps t i : keeps (BP.MoveExpansionList2EmptyIdleList t i).
Proof. unfold BP.MoveExpansionList2EmptyIdleList. keeps_code. Qed.
Lemma refill_keeps d i : keeps (BP.refill_tls d i).
Proof. unfold BP.refill_tls. keeps_code. Qed.
#[export] Hint Resolve move_keeps refill_keeps : regions.
Lemma fill_grows t i x : grows x (BP.fill_bucket t i x).
Proof. unfold BP.fill_bucket. grows_code. apply grows_bind_l; [apply extend_grows|]. intros. keeps_code. Qed.
Lemma allocate_grows d n i x : grows x (BP.BlockAllocate d n i x).
Proof.
  unfold BP.BlockAllocate, BP.AllocBlockFrom. grows_code; (apply grows_bind_l; [apply fill_grows|]; intros; keeps_code).
Qed.
Lemma deallocate_keeps d a : keeps (BP.BlockDeallocate d a).
Proof. unfold BP.BlockDeallocate. keeps_code. Qed.

(** ** The state *)

Definition outside (p : BP.Pool) (a : Z) : Prop := Forall (fun r => ~ (BP.r_start r <= a < BP.r_start r + BP.r_size r)) (BP.g_regions p).
Record pa_good (p : BP.Pool) (live : list (nat * Z)) (sys : gset Z) : Prop := mk_pa_good {
  pg_inv : BP.pool_inv p live;
  pg_thread : (0 < length (BP.tls p))%nat;
  pg_sys : forall a, a ∈ sys -> outside p a
}.
Record PA := mkPA { pa_pool : BP.Pool; pa_live : list (nat * Z); pa_sys : gset Z; pa_ok : pa_good pa_pool pa_live pa_sys }.

(** The system calls. *)
Class System := {
  next_ext : BP.Pool -> gset Z -> BP.Ext;
  rand : BP.Pool -> nat;
  libc : Z -> BP.Pool -> gset Z -> option Z
}.
Class SystemLaws `{System} := {
  next_ext_ok p sys : BP.ext_ok (next_ext p sys) p;
  next_ext_sys p sys base a : BP.memalign (next_ext p sys) = Some base -> a ∈ sys -> ~ (base <= a < base + 2 ^ 30);
  rand_lt p : (rand p < BP.RDMA_MEMPOOL_BUCKETS)%nat;
  libc_ok n p sys a : libc n p sys = Some a -> a <> 0 /\ (a ∉ sys) /\ outside p a
}.

Section allocator.
Context `{SystemLaws}.

Lemma allocate_ok n p live sys : pa_good p live sys ->
  exists o p', BP.BlockAllocate 0 n (rand p) (next_ext p sys) p = Ok o p' /\
    match o with Some a => pa_good p' ((BP.type_for n, a) :: live) sys | None => p' = p end.
Proof.
  intros [Hi Ht Hs]. destruct (lookup_lt_is_Some_2 (BP.tls p) 0 Ht) as [c Hc].
  assert (BP.type_for n < BP.BLOCK_SIZE_COUNT)%nat as Htf by (unfold BP.type_for, BP.BLOCK_SIZE_COUNT; repeat case_match; lia).
  assert (exists o p', BP.BlockAllocate 0 n (rand p) (next_ext p sys) p = Ok o p' /\ length (BP.tls p') = length (BP.tls p) /\
    match o with Some a => BP.pool_inv p' ((BP.type_for n, a) :: live) | None => p' = p end) as (o & p' & E & Hl & Ho).
  { unfold BP.BlockAllocate. case_match; [by exists None, p|]. case_match; [by exists None, p|].
    apply (BP.alloc_from_spec p live 0 _ _ _ c Hi Htf (rand_lt p) (next_ext_ok p sys) Hc). }
  exists o, p'. split; [done|]. destruct o as [a|]; [|done]. split; [done|lia|]. intros s Hsys. unfold outside.
  destruct (allocate_grows _ _ _ _ _ _ _ E) as [Er|(base & t & key & Em & Er)]; rewrite Er; [by apply Hs|].
  apply Forall_app. split; [by apply Hs|]. constructor; [|constructor].
  pose proof (BP.sh_regions p' (BP.pi_shape _ _ Ho)) as Hro. rewrite Er in Hro. apply Forall_app in Hro as [_ Hro]. apply Forall_cons in Hro as [Hro _].
  pose proof (BP.ro_type _ Hro) as Htt. cbn [BP.block_type] in Htt. cbn. rewrite BP.region_bytes_1G by done. by apply (next_ext_sys p sys base s Em Hsys).
Qed.

Lemma allocate_some n p live sys a p' : pa_good p live sys -> BP.BlockAllocate 0 n (rand p) (next_ext p sys) p = Ok (Some a) p' ->
  pa_good p' ((BP.type_for n, a) :: live) sys.
Proof. intros Hg E. destruct (allocate_ok n p live sys Hg) as (o & p1 & E1 & Ho). rewrite E in E1. by injection E1 as <- <-. Qed.
Lemma live_in p live sys t a : pa_good p live sys -> (t, a) ∈ live -> (t, a) ∈ BP.all_blocks p.
Proof. intros [[_ Hb] _ _] Hl. eapply elem_of_submseteq; [|exact Hb]. apply elem_of_app. by right. Qed.

(** The entry of [a] in the list of blocks in use, if there is one. *)
Fixpoint take_live (a : Z) (live : list (nat * Z)) : option (nat * list (nat * Z)) :=
  match live with
  | [] => None
  | x :: live' => if snd x =? a then Some (fst x, live') else y ← take_live a live'; Some (fst y, x :: snd y)
  end.
Lemma take_live_some a live t live' : take_live a live = Some (t, live') -> live ≡ₚ (t, a) :: live'.
Proof.
  revert live'. induction live as [|[s b] live IH]; intros live'; cbn; [done|]. destruct (Z.eqb_spec b a) as [->|]; [by intros [= <- <-]|].
  destruct (take_live a live) as [[t1 l1]|]; cbn; [|done]. intros [= <- <-]. rewrite (IH l1 eq_refl). constructor.
Qed.
Lemma take_live_none a live : take_live a live = None -> a ∉ live.*2.
Proof.
  induction live as [|[s b] live IH]; cbn; [intros _; apply not_elem_of_nil|]. destruct (Z.eqb_spec b a); [done|].
  destruct (take_live a live); cbn; [done|]. intros _. rewrite not_elem_of_cons. split; [done|by apply IH].
Qed.
Lemma deallocate_ok a p live sys t live' : pa_good p live sys -> take_live a live = Some (t, live') ->
  exists p', BP.BlockDeallocate 0 a p = Ok true p' /\ pa_good p' live' sys.
Proof.
  intros [Hi Ht Hs] E. apply take_live_some in E. destruct (lookup_lt_is_Some_2 (BP.tls p) 0 Ht) as [c Hc].
  destruct (BP.dealloc_spec p live live' 0 c t a Hi E Hc) as (p' & Ed & Hi' & Hl). exists p'. split; [done|].
  split; [done|lia|]. intros s Hsys. unfold outside. rewrite (deallocate_keeps _ _ _ _ _ Ed). by apply Hs.
Qed.
Lemma deallocate_true a p live sys t live' b p' : pa_good p live sys -> take_live a live = Some (t, live') -> BP.BlockDeallocate 0 a p = Ok b p' ->
  pa_good p' live' sys.
Proof. intros Hg E Ed. destruct (deallocate_ok a p live sys t live' Hg E) as (p1 & E1 & Ho). rewrite Ed in E1. by injection E1 as _ <-. Qed.
Lemma malloc_good n p live sys a : pa_good p live sys -> libc n p sys = Some a -> pa_good p live ({[a]} ∪ sys).
Proof.
  intros [Hi Ht Hs] E. destruct (libc_ok n p sys a E) as (_ & _ & Ho). split; [done|done|]. intros b [->%elem_of_singleton|Hb]%elem_of_union; [done|by apply Hs].
Qed.
Lemma free_good p live sys a : pa_good p live sys -> pa_good p live (sys ∖ {[a]}).
Proof. intros [Hi Ht Hs]. split; [done|done|]. intros b Hb. apply Hs. set_solver. Qed.

(** The operations on states.  An address that is not in use is not given back:
    what the code does with one is outside the interface. *)
Definition run_allocate (n : Z) (s : PA) : outcome BP.Pool (option Z) :=
  BP.BlockAllocate 0 n (rand (pa_pool s)) (next_ext (pa_pool s) (pa_sys s)) (pa_pool s).
Definition allocate_result n (s : PA) (r : outcome BP.Pool (option Z)) : run_allocate n s = r -> option Z * PA :=
  match r with
  | Ok (Some a) p' => fun E => (Some a, mkPA p' ((BP.type_for n, a) :: pa_live s) (pa_sys s) (allocate_some n _ _ _ a p' (pa_ok s) E))
  | _ => fun _ => (None, s)
  end.
Definition pa_allocate (n : Z) (s : PA) : option Z * PA := allocate_result n s _ eq_refl.
Definition deallocate_result (a : Z) (s : PA) (t : nat) (live' : list (nat * Z)) (El : take_live a (pa_live s) = Some (t, live'))
    (r : outcome BP.Pool bool) : BP.BlockDeallocate 0 a (pa_pool s) = r -> PA :=
  match r with
  | Ok b p' => fun Ed => mkPA p' live' (pa_sys s) (deallocate_true a _ _ _ t live' b p' (pa_ok s) El Ed)
  | _ => fun _ => s
  end.
Definition deallocate_found (a : Z) (s : PA) (o : option (nat * list (nat * Z))) : take_live a (pa_live s) = o -> PA :=
  match o with
  | Some (t, live') => fun El => deallocate_result a s t live' El _ eq_refl
  | None => fun _ => s
  end.
Definition pa_deallocate (a : Z) (s : PA) : PA := deallocate_found a s _ eq_refl.
Definition malloc_result (n : Z) (s : PA) (o : option Z) : libc n (pa_pool s) (pa_sys s) = o -> option Z * PA :=
  match o with
  | Some a => fun E => (Some a, mkPA (pa_pool s) (pa_live s) ({[a]} ∪ pa_sys s) (malloc_good n _ _ _ a (pa_ok s) E))
  | None => fun _ => (None, s)
  end.
Definition pa_malloc (n : Z) (s : PA) : option Z * PA := malloc_result n s _ eq_refl.
Definition pa_free (a : Z) (s : PA) : PA := mkPA (pa_pool s) (pa_live s) (pa_sys s ∖ {[a]}) (free_good _ _ _ a (pa_ok s)).

#[export] Instance PA_Allocator : Allocator PA := {
  BlockAllocate := pa_allocate; BlockDeallocate := pa_deallocate; malloc := pa_malloc; free := pa_free
}.

(** Addresses of blocks in use are different from each other and from those of
    [malloc]. *)
Lemma live_addresses p live sys : pa_good p live sys -> NoDup (live.*2) /\ (forall a, a ∈ live.*2 -> a <> 0 /\ (a ∉ sys)).
Proof.
  intros Hg. pose proof (pg_inv _ _ _ Hg) as Hi. pose proof (BP.pi_shape _ _ Hi) as Hsh. split.
  - assert (NoDup live) as Hnd.
    { apply (NoDup_app (BP.free_blocks p)). apply (BP.submseteq_NoDup _ (BP.all_blocks p)); [apply Hi|by apply BP.all_blocks_nodup]. }
    apply NoDup_fmap_2_strong; [|done]. intros [t a] [t' a'] H1 H2 E. cbn in E. subst a'.
    destruct (decide (t = t')) as [->|Hne]; [done|].
    pose proof (BP.blocks_disjoint p t a t' a Hsh (live_in _ _ _ _ _ Hg H1) (live_in _ _ _ _ _ Hg H2) ltac:(congruence)).
    pose proof (BP.shape_type p _ _ Hsh (live_in _ _ _ _ _ Hg H1)). pose proof (BP.shape_type p _ _ Hsh (live_in _ _ _ _ _ Hg H2)). lia.
  - intros a ([t a'] & -> & Hl)%list_elem_of_fmap. cbn. pose proof (live_in _ _ _ _ _ Hg Hl) as Hb. destruct (BP.shape_type p t a' Hsh Hb) as (_ & Ha & Hbs).
    split; [lia|]. intros Hs. pose proof (pg_sys _ _ _ Hg a' Hs) as Ho. destruct (BP.all_blocks_in p t a' Hsh Hb) as (r & Hr & Hrb).
    unfold outside in Ho. rewrite Forall_forall in Ho. apply (Ho r Hr). pose proof (proj1 (Forall_forall _ _) (BP.sh_regions p Hsh) r Hr) as Hro.
    destruct (BP.region_blocks_in r t a' Hro Hrb) as (_ & ? & ? & _). lia.
Qed.

Definition pa_pool_live (s : PA) : gset Z := list_to_set ((pa_live s).*2).

Lemma allocate_result_spec n s r E : match allocate_result n s r E with
  | (Some a, s') => pa_live s' = (BP.type_for n, a) :: pa_live s /\ pa_sys s' = pa_sys s
  | (None, s') => s' = s
  end.
Proof. by destruct r as [[a|] p'| | |]. Qed.
Lemma deallocate_found_spec a s o E : match o with
  | Some (t, live') => pa_live (deallocate_found a s o E) = live' /\ pa_sys (deallocate_found a s o E) = pa_sys s
  | None => True
  end.
Proof.
  destruct o as [[t live']|]; [|done]. cbn. destruct (deallocate_ok a _ _ _ t live' (pa_ok s) E) as (p' & Ed & _).
  assert (forall r Er, (exists b q, r = Ok b q) -> pa_live (deallocate_result a s t live' E r Er) = live' /\ pa_sys (deallocate_result a s t live' E r Er) = pa_sys s) as Hr.
  { intros r Er (b & q & ->). done. }
  apply Hr. eauto.
Qed.
Lemma malloc_result_spec n s o E : match malloc_result n s o E with
  | (Some a, s') => libc n (pa_pool s) (pa_sys s) = Some a /\ pa_live s' = pa_live s /\ pa_sys s' = {[a]} ∪ pa_sys s
  | (None, s') => s' = s
  end.
Proof. by destruct o. Qed.

#[export] Program Instance PA_Laws : AllocatorLaws PA := { pool_live := pa_pool_live; sys_live := pa_sys }.
Next Obligation.
  intros n s a s' E. cbn in E. pose proof (allocate_result_spec n s _ eq_refl) as Hr. fold (pa_allocate n s) in Hr. rewrite E in Hr. destruct Hr as [Hl Hs].
  destruct (live_addresses _ _ _ (pa_ok s')) as [Hnd Ha]. rewrite Hl, Hs in *. cbn in Hnd, Ha. apply NoDup_cons in Hnd as [Hnin _]. destruct (Ha a ltac:(by left)) as [Ha0 Has].
  split; [done|]. split; [|split; [|done]]; unfold pa_pool_live; rewrite ?Hl; cbn; [|done]. rewrite elem_of_union, elem_of_list_to_set. tauto.
Qed.
Next Obligation.
  intros n s s' E. cbn in E. pose proof (allocate_result_spec n s _ eq_refl) as Hr. fold (pa_allocate n s) in Hr. rewrite E in Hr. by subst.
Qed.
Next Obligation.
  intros a s Hin. cbn. unfold pa_pool_live in *. rewrite elem_of_list_to_set in Hin. destruct (take_live a (pa_live s)) as [[t live']|] eqn:El; [|by apply take_live_none in El].
  pose proof (deallocate_found_spec a s _ eq_refl) as Hd. fold (pa_deallocate a s) in Hd. rewrite El in Hd. destruct Hd as [Hl Hs]. rewrite Hl, Hs. split; [|done].
  destruct (live_addresses _ _ _ (pa_ok s)) as [Hnd _]. apply take_live_some in El. rewrite El in Hnd. cbn in Hnd. apply NoDup_cons in Hnd as [Hnin _].
  apply set_eq. intros b. rewrite elem_of_difference, !elem_of_list_to_set, elem_of_singleton, El. cbn. rewrite elem_of_cons. split; [|tauto]. intros Hb. split; [by right|]. by intros ->.
Qed.
Next Obligation.
  intros n s a s' E. cbn in E. pose proof (malloc_result_spec n s _ eq_refl) as Hr. fold (pa_malloc n s) in Hr. rewrite E in Hr. destruct Hr as (Hm & Hl & Hs).
  destruct (libc_ok _ _ _ _ Hm) as (Ha0 & Has & Ho). split; [done|]. unfold pa_pool_live. rewrite Hl, Hs. split; [|done]. rewrite elem_of_union, elem_of_list_to_set. intros [Hin|?]; [|done].
  apply list_elem_of_fmap in Hin as ([t a'] & -> & Hin). cbn in *. pose proof (live_in _ _ _ _ _ (pa_ok s) Hin) as Hb.
  pose proof (BP.pi_shape _ _ (pg_inv _ _ _ (pa_ok s))) as Hsh. destruct (BP.all_blocks_in _ t a' Hsh Hb) as (r & Hr & Hrb). unfold outside in Ho. rewrite Forall_forall in Ho. apply (Ho r Hr).
  pose proof (proj1 (Forall_forall _ _) (BP.sh_regions _ Hsh) r Hr) as Hro. destruct (BP.region_blocks_in r t a' Hro Hrb) as (-> & ? & ? & _). pose proof (BP.bsize_pos _ (BP.ro_type r Hro)). lia.
Qed.
Next Obligation.
  intros n s s' E. cbn in E. pose proof (malloc_result_spec n s _ eq_refl) as Hr. fold (pa_malloc n s) in Hr. rewrite E in Hr. by subst.
Qed.
Next Obligation. done. Qed.

(** ** IOBuf programs on the block pool *)

(** C35: Every program of IOBuf calls in range runs to its end over the real block
    pool and behaves as the same program on byte strings; and every byte of every
    pool block that a buffer refers to lies in registered memory, so that
    [GetRegionId] gives the network card a key for it. *)
Theorem iobuf_over_block_pool (p : PA) n ops : safe ops (replicate n []) ->
  exists results bufs' s' abs', run_all ops (replicate n new_IOBuf) (init_state p) = Ok (results, bufs') s' /\
    spec_all ops (replicate n []) results abs' /\ family s' bufs' abs' [] /\
    (forall a b o, heap s' !! a = Some b -> is_user b = false -> 0 <= o < DEFAULT_BLOCK_SIZE -> BP.GetRegionId (pa_pool (pool s')) (a + o) <> 0).
Proof.
  intros Hs. destruct (run_all_refines ops (init_state p) (replicate n new_IOBuf) (replicate n []) []) as (results & bufs' & s' & abs' & E & Hsp & Hf & _); [apply family_init|done|].
  exists results, bufs', s', abs'. split; [done|]. split; [done|]. split; [done|]. intros a b o Hb Hu Ho.
  destruct Hf as (rss & l & _ & (_ & _ & _ & [_ Hblk _]) & _). destruct (Hblk a b Hb) as (_ & _ & _ & _ & _ & _ & Hlive). rewrite Hu in Hlive.
  apply elem_of_list_to_set, list_elem_of_fmap in Hlive as ([t a'] & -> & Hin). cbn [snd].
  pose proof (live_in _ _ _ _ _ (pa_ok (pool s')) Hin) as Hall. pose proof (BP.pi_shape _ _ (pg_inv _ _ _ (pa_ok (pool s')))) as Hsh.
  destruct (BP.shape_type _ _ _ Hsh Hall) as (Ht & _). unfold BP.BLOCK_SIZE_COUNT in Ht.
  assert (DEFAULT_BLOCK_SIZE <= BP.GetBlockSize t) by (destruct t as [|[|[|t]]]; [by vm_compute..|lia]).
  destruct (BP.GetRegionId_block (pa_pool (pool s')) t a' o Hsh Hall) as [-> Hk]; [lia|done].
Qed.
End allocator.

(** *** A system with one region *)

#[export] Instance one_region : System := { next_ext _ _ := BP.no_ext; rand _ := 0%nat; libc _ _ _ := None }.
#[export] Program Instance one_region_laws : SystemLaws.
Next Obligation. intros. apply BP.no_ext_ok. Qed.
Next Obligation. done. Qed.
Next Obligation. intros. cbn. unfold BP.RDMA_MEMPOOL_BUCKETS. lia. Qed.
Next Obligation. done. Qed.

Lemma demo_good : pa_good BP.init_pool [] ∅.
Proof.
  destruct (BP.pool_run_inv 1 BP.first_ext true BP.init_pool BP.init_pool [] BP.first_ext_ok BP.init_pool_ok) as [Hi Hl]; [constructor|].
  split; [done|lia|]. intros a Ha. set_solver.
Qed.
Definition demo_PA : PA := mkPA BP.init_pool [] ∅ demo_good.

Lemma iobuf_over_block_pool_witness : exists results bufs' s' abs',
  run_all demo_ops (replicate 2 new_IOBuf) (init_state demo_PA) = Ok (results, bufs') s' /\
  spec_all demo_ops (replicate 2 []) results abs' /\ family s' bufs' abs' [].
Proof.
  destruct (iobuf_over_block_pool demo_PA 2 demo_ops demo_safe) as (r & b & s' & abs' & H1 & H2 & H3 & _). exists r, b, s', abs'. done.
Defined.
