(* ===== verification/LargeBlock.v ===== *)
(** * The caches of large blocks

    [fast_large_block.cc] keeps, per thread, up to eight registered blocks that
    have been given back, in ascending order of their sizes.  The classes
    [SharedResource] and [UniqueResource] ([fast_shared.cc], [fast_unique.cc])
    have a cache of their own, with the same way of giving blocks back and
    another search.  [posix_memalign] with [ibv_reg_mr], and [ibv_dereg_mr], are
    outcomes given to the operations; the linked list is a list. *)
From stdpp Require Import sorting.
From S2P Require Import Prelude.
Local Open Scope Z_scope.

Module LB.

Definition kMaxCachedLargeBlocks : nat := 8.

(** A registered memory region, and a node of the cache. *)
Record Mr := mkMr { mr_addr : Z; mr_length : Z; mr_rkey : Z }.
Record LargeBlockNode := mkNode { size : Z; mr : Mr }.
#[export] Instance Mr_eq_dec : EqDecision Mr.
Proof. solve_decision. Defined.
#[export] Instance Node_eq_dec : EqDecision LargeBlockNode.
Proof. solve_decision. Defined.

(** The thread-local variables; [released] are the regions deregistered and
    freed so far. *)
Record Cache := mkCache {
  tls_large_block_list : list LargeBlockNode;
  tls_large_block_num : nat;
  tls_large_inited : bool;
  released : list Mr
}.
Definition new_Cache : Cache := mkCache [] 0 false [].

(** ** Operations *)

Fixpoint LargeBlockFindBestFit (l : list LargeBlockNode) (req : Z) : option LargeBlockNode :=
  match l with
  | [] => None
  | n :: l' => if size n <? req then LargeBlockFindBestFit l' req else Some n
  end.
(** The search of [LargeBlockAlloc]: the nodes before the first that is large
    enough, that node, and the nodes after it. *)
Fixpoint find_cut (l : list LargeBlockNode) (req : Z) : option (list LargeBlockNode * LargeBlockNode * list LargeBlockNode) :=
  match l with
  | [] => None
  | n :: l' => if size n <? req then x ← find_cut l' req; Some (n :: fst (fst x), snd (fst x), snd x) else Some ([], n, l')
  end.
(** [fresh]: what allocation and registration give. *)
Definition LargeBlockAlloc (req : Z) (fresh : option Mr) (c : Cache) : option Mr * Cache :=
  match find_cut (tls_large_block_list c) req with
  | Some (before, n, after) => (Some (mr n), mkCache (before ++ after) (tls_large_block_num c - 1) true (released c))
  | None => (fresh, mkCache (tls_large_block_list c) (tls_large_block_num c) true (released c))
  end.

(** The insertion loop past the head: behind every node that is not larger. *)
Fixpoint insert_after (n : LargeBlockNode) (l : list LargeBlockNode) : list LargeBlockNode :=
  match l with
  | m :: l' => if size m <=? size n then m :: insert_after n l' else n :: l
  | [] => [n]
  end.
Definition LargeBlockInsertSorted (l : list LargeBlockNode) (n : LargeBlockNode) : list LargeBlockNode :=
  match l with
  | [] => [n]
  | m :: l' => if size n <? size m then n :: l else m :: insert_after n l'
  end.
(** The list without its last node, and that node; none for a list of less than
    two nodes. *)
Fixpoint LargeBlockPopLast (l : list LargeBlockNode) : option (list LargeBlockNode * LargeBlockNode) :=
  match l with
  | [] | [_] => None
  | [m; n] => Some ([m], n)
  | m :: l' => x ← LargeBlockPopLast l'; Some (m :: fst x, snd x)
  end.
(** [dereg_ok] is whether [ibv_dereg_mr] succeeds; a [CHECK] aborts otherwise. *)
Definition ReturnLargeBlock (o : option Mr) (dereg_ok : bool) : M Cache unit :=
  match o with
  | None => ret tt
  | Some r =>
      let! c := get in
      let l := LargeBlockInsertSorted (tls_large_block_list c) (mkNode (mr_length r) r) in
      let num := S (tls_large_block_num c) in
      if (kMaxCachedLargeBlocks <? num)%nat then
        let! x := deref (LargeBlockPopLast l) in
        let! _ := check dereg_ok in
        modify (fun c => mkCache (fst x) (num - 1) true (mr (snd x) :: released c))
      else modify (fun c => mkCache l num true (released c))
  end.
Fixpoint recycle (l : list LargeBlockNode) (dereg_oks : list bool) : M Cache unit :=
  match l with
  | [] => modify (fun c => mkCache [] 0 (tls_large_inited c) (released c))
  | n :: l' =>
      let! _ := check (hd true dereg_oks) in
      let! _ := modify (fun c => mkCache l' (tls_large_block_num c) (tls_large_inited c) (mr n :: released c)) in
      recycle l' (tl dereg_oks)
  end.
Definition RecycleTLSLargeBlocks (dereg_oks : list bool) : M Cache unit := let! c := get in recycle (tls_large_block_list c) dereg_oks.

(** ** The search of [SharedResource] and [UniqueResource]

    It walks the whole list and remembers the node before the best one; [k] is
    the position of [cur], [best] that of the best node, so that [best_prev] is
    null when [best] is 0. *)
Fixpoint best_scan (l : list LargeBlockNode) (req : Z) (k : nat) (best : option nat) (best_diff : Z) : option nat :=
  match l with
  | [] => best
  | n :: l' =>
      if (req <=? size n) && (size n - req <? best_diff)
      then best_scan l' req (S k) (Some k) (size n - req)
      else best_scan l' req (S k) best best_diff
  end.
Definition SIZE_MAX : Z := 2 ^ 64 - 1.
Definition Resource_LargeBlockAlloc (req : Z) (fresh : option Mr) (c : Cache) : option Mr * Cache :=
  let l := tls_large_block_list c in
  match best_scan l req 0 None SIZE_MAX with
  | Some (S i) =>     (* best_prev is the node at position i *)
      match l !! S i with
      | Some hit =>
          let l' := if (i =? 0)%nat then drop (S (S i)) l       (* best_prev == tls_large_block_list *)
                    else take (S i) l ++ drop (S (S i)) l in
          (Some (mr hit), mkCache l' (tls_large_block_num c - 1) true (released c))
      | None => (fresh, c)
      end
  | _ => (fresh, mkCache l (tls_large_block_num c) true (released c))
  end.

(** ** The order of the cache *)

Definition sized (n m : LargeBlockNode) : Prop := size n <= size m.
Record cache_inv (c : Cache) : Prop := mk_cache_inv {
  ci_sorted : StronglySorted sized (tls_large_block_list c);
  ci_num : tls_large_block_num c = length (tls_large_block_list c);
  ci_max : (length (tls_large_block_list c) <= kMaxCachedLargeBlocks)%nat;
  ci_size : Forall (fun n => size n = mr_length (mr n)) (tls_large_block_list c)
}.

Lemma find_cut_spec l req : match find_cut l req with
  | Some (before, n, after) => l = before ++ n :: after /\ Forall (fun m => size m < req) before /\ req <= size n
  | None => Forall (fun m => size m < req) l
  end.
Proof.
  induction l as [|n l IH]; cbn [find_cut]; [constructor|]. destruct (Z.ltb_spec (size n) req) as [Hlt|Hge]; [|done].
  destruct (find_cut l req) as [[[b m] a]|]; cbn; [|by constructor]. destruct IH as (-> & Hb & Hm). split; [done|]. split; [by constructor|done].
Qed.
Lemma find_cut_find l req : LargeBlockFindBestFit l req = (fun x => snd (fst x)) <$> find_cut l req.
Proof.
  induction l as [|n l IH]; [done|]. cbn. destruct (size n <? req); [|done]. rewrite IH. by destruct (find_cut l req) as [[[b m] a]|].
Qed.

Lemma insert_after_spec n l : StronglySorted sized l ->
  insert_after n l ≡ₚ n :: l /\ StronglySorted sized (insert_after n l).
Proof.
  intros Hs. induction l as [|m l IH]; cbn; [split; [done|repeat constructor]|]. apply StronglySorted_cons in Hs as [Hm Hs].
  destruct (Z.leb_spec (size m) (size n)) as [Hle|Hgt].
  - destruct (IH Hs) as [Hp Hss]. split; [rewrite Hp; constructor|]. apply StronglySorted_cons. split; [|done]. rewrite Hp. by constructor.
  - split; [done|]. apply StronglySorted_cons. split; [|by apply StronglySorted_cons]. constructor; [unfold sized; lia|].
    eapply Forall_impl; [exact Hm|]. unfold sized. intros x Hx. lia.
Qed.
Lemma insert_sorted_spec n l : StronglySorted sized l -> LargeBlockInsertSorted l n ≡ₚ n :: l /\ StronglySorted sized (LargeBlockInsertSorted l n).
Proof.
  intros Hs. destruct l as [|m l]; cbn; [split; [done|repeat constructor]|]. destruct (Z.ltb_spec (size n) (size m)) as [Hlt|Hge].
  - apply StronglySorted_cons in Hs as [Hm Hs]. split; [done|]. apply StronglySorted_cons. split; [|by apply StronglySorted_cons]. constructor; [unfold sized; lia|].
    eapply Forall_impl; [exact Hm|]. unfold sized. intros x Hx. lia.
  - pose proof (insert_after_spec n (m :: l) Hs) as Hi. cbn in Hi. destruct (Z.leb_spec (size m) (size n)); [done|lia].
Qed.
Lemma pop_last_spec l : (2 <= length l)%nat -> exists l' n, LargeBlockPopLast l = Some (l', n) /\ l = l' ++ [n].
Proof.
  induction l as [|m l IH]; intros Hl; [cbn in Hl; lia|]. destruct l as [|n l]; [cbn in Hl; lia|]. destruct l as [|q l]; [by exists [m], n|].
  destruct IH as (l' & x & E & Hx); [cbn; lia|]. exists (m :: l'), x. cbn [LargeBlockPopLast] in *. rewrite E. cbn. split; [done|]. by rewrite Hx.
Qed.

(** ** The reference: the smallest node that is large enough *)

Fixpoint best_fit (req : Z) (l : list LargeBlockNode) : option LargeBlockNode :=
  match l with
  | [] => None
  | n :: l' =>
      match best_fit req l' with
      | Some m => if (req <=? size n) && (size n <=? size m) then Some n else Some m
      | None => if req <=? size n then Some n else None
      end
  end.
Lemma best_fit_spec req l : match best_fit req l with
  | Some n => n ∈ l /\ req <= size n /\ (forall m, m ∈ l -> req <= size m -> size n <= size m)
  | None => forall m, m ∈ l -> size m < req
  end.
Proof.
  induction l as [|n l IH]; cbn; [by intros m Hm%not_elem_of_nil|]. destruct (best_fit req l) as [b|].
  - destruct IH as (Hb & Hr & Hmin). destruct (Z.leb_spec req (size n)), (Z.leb_spec (size n) (size b)); cbn [andb].
    + split; [by left|]. split; [done|]. intros m [->|Hm]%elem_of_cons Hq; [lia|]. specialize (Hmin m Hm Hq). lia.
    + split; [by right|]. split; [done|]. intros m [->|Hm]%elem_of_cons Hq; [lia|by apply Hmin].
    + split; [by right|]. split; [done|]. intros m [->|Hm]%elem_of_cons Hq; [lia|by apply Hmin].
    + split; [by right|]. split; [done|]. intros m [->|Hm]%elem_of_cons Hq; [lia|by apply Hmin].
  - destruct (Z.leb_spec req (size n)).
    + split; [by left|]. split; [done|]. intros m [->|Hm]%elem_of_cons Hq; [lia|]. specialize (IH m Hm). lia.
    + intros m [->|Hm]%elem_of_cons; [lia|by apply IH].
Qed.
(** On an ascending list the first fit is the best fit. *)
Lemma first_fit_best_fit req l : StronglySorted sized l -> LargeBlockFindBestFit l req = best_fit req l.
Proof.
  induction l as [|n l IH]; intros Hs; [done|]. apply StronglySorted_cons in Hs as [Hn Hs]. cbn. pose proof (best_fit_spec req l) as Hb. rewrite (IH Hs).
  destruct (Z.ltb_spec (size n) req), (Z.leb_spec req (size n)); try lia; destruct (best_fit req l) as [b|]; cbn; try done.
  destruct Hb as (Hb & _). rewrite Forall_forall in Hn. specialize (Hn b Hb). unfold sized in Hn. by destruct (Z.leb_spec (size n) (size b)); [|lia].
Qed.

(** ** Runs *)

Inductive lb_step : Cache -> Cache -> Prop :=
| lb_alloc req fresh c o c' : LargeBlockAlloc req fresh c = (o, c') -> lb_step c c'
| lb_return r ok c c' : ReturnLargeBlock r ok c = Ok tt c' -> lb_step c c'
| lb_recycle oks c c' : RecycleTLSLargeBlocks oks c = Ok tt c' -> lb_step c c'.

Lemma cut_sorted before n after : StronglySorted sized (before ++ n :: after) -> StronglySorted sized (before ++ after).
Proof.
  rewrite !StronglySorted_app, StronglySorted_cons. intros (H1 & H2 & _ & H3). split; [|done]. intros x y Hx Hy. apply H1; [done|]. by right.
Qed.
Lemma alloc_inv req fresh c o c' : cache_inv c -> LargeBlockAlloc req fresh c = (o, c') -> cache_inv c'.
Proof.
  intros [Hs Hn Hm Hz] E. unfold LargeBlockAlloc in E. pose proof (find_cut_spec (tls_large_block_list c) req) as Hf.
  destruct (find_cut _ req) as [[[b n] a]|]; injection E as <- <-; [|by split].
  destruct Hf as (Hl & _). rewrite Hl in *. rewrite length_app in *. cbn [length] in *. apply Forall_app in Hz as [Hz1 [_ Hz2]%Forall_cons].
  split; cbn; [by eapply cut_sorted|rewrite length_app; lia|rewrite length_app; lia|by apply Forall_app].
Qed.
(** Giving a region back: it is cached; when there are already eight, the
    largest one is released. *)
Lemma return_inv r c : cache_inv c -> exists c', ReturnLargeBlock (Some r) true c = Ok tt c' /\ cache_inv c' /\
  map mr (tls_large_block_list c') ++ released c' ≡ₚ r :: map mr (tls_large_block_list c) ++ released c /\
  (if (length (tls_large_block_list c) <? kMaxCachedLargeBlocks)%nat then released c' = released c
   else exists n, released c' = mr n :: released c /\ Forall (fun m => size m <= size n) (tls_large_block_list c')).
Proof.
  intros [Hs Hn Hm Hz]. unfold ReturnLargeBlock, bind at 1, get. set (n := mkNode (mr_length r) r).
  destruct (insert_sorted_spec n (tls_large_block_list c) Hs) as [Hp Hss]. set (l := LargeBlockInsertSorted _ n) in *.
  assert (length l = S (length (tls_large_block_list c))) as Hlen by (by rewrite Hp).
  assert (Forall (fun m => size m = mr_length (mr m)) l) as Hzl by (rewrite Hp; by constructor). rewrite Hn.
  assert (map mr l ≡ₚ r :: map mr (tls_large_block_list c)) as Hmr by (exact (Permutation_map mr Hp)).
  destruct (Nat.ltb_spec kMaxCachedLargeBlocks (S (length (tls_large_block_list c)))) as [Hgt|Hle].
  - destruct (pop_last_spec l) as (l' & x & E & Hx); [unfold kMaxCachedLargeBlocks in *; lia|]. unfold bind. rewrite (deref_some _ (l', x)) by done. cbn [check ret].
    unfold modify. eexists. split; [done|]. rewrite Hx in *. rewrite length_app in Hlen. cbn in Hlen. apply StronglySorted_app in Hss as (H1 & H2 & _). apply Forall_app in Hzl as [Hz1 _].
    destruct (Nat.ltb_spec (length (tls_large_block_list c)) kMaxCachedLargeBlocks); [lia|].
    split; [split; cbn; [done|lia|lia|done]|]. cbn. rewrite map_app in Hmr. cbn in Hmr. split.
    + rewrite app_comm_cons, <- Hmr, <- app_assoc. done.
    + exists x. split; [done|]. apply Forall_forall. intros m Hin. apply H1; [done|by left].
  - unfold modify. eexists. split; [done|]. split; [split; cbn; [done|lia|lia|done]|]. cbn [tls_large_block_list released].
    destruct (Nat.ltb_spec (length (tls_large_block_list c)) kMaxCachedLargeBlocks); [|lia]. split; [|done]. by rewrite Hmr.
Qed.
Lemma recycle_inv oks : forall l c c', recycle l oks c = Ok tt c' -> tls_large_block_list c' = [] /\ tls_large_block_num c' = 0%nat.
Proof.
  intros l. revert oks. induction l as [|n l IH]; intros oks c c'; cbn [recycle]; [by intros [= <-]|]. unfold bind. destruct (check (hd true oks) c) as [[] c1| | |]; try done.
  cbn [modify]. apply IH.
Qed.
Lemma lb_step_inv c c' : cache_inv c -> lb_step c c' -> cache_inv c'.
Proof.
  intros Hc Hs. destruct Hs as [req fresh c o c' E|r ok c c' E|oks c c' E].
  - by eapply alloc_inv.
  - destruct r as [r|]; [|by injection E as <-]. destruct (return_inv r c Hc) as (c1 & E1 & Hc1 & _).
    destruct ok; [rewrite E in E1; by injection E1 as <-|]. unfold ReturnLargeBlock, bind, get in *. destruct (_ <? _)%nat.
    + destruct (deref _ c) as [x c2| | |]; try done.
    + rewrite E in E1. by injection E1 as <-.
  - apply recycle_inv in E as [E1 E2]. split; rewrite ?E1, ?E2; cbn; [constructor|done|unfold kMaxCachedLargeBlocks; lia|constructor].
Qed.
Lemma lb_reach c : steps lb_step new_Cache c -> cache_inv c.
Proof.
  apply (steps_invariant lb_step cache_inv); [by intros; eapply lb_step_inv|]. split; cbn; [constructor|done|unfold kMaxCachedLargeBlocks; lia|constructor].
Qed.

(** C40: The cache of large blocks gives the best fit: in every reachable state
    the cache is sorted by size, holds at most eight regions and its counter is
    their number; [LargeBlockAlloc] takes from the cache exactly the smallest region that is
    large enough, and asks the system for a new one only when no cached region
    is; a region given back is cached or, when eight others are, the largest is
    released; no region is lost, and the code does not fail. *)
Theorem large_block_best_fit c req fresh r : steps lb_step new_Cache c ->
  (StronglySorted sized (tls_large_block_list c) /\ tls_large_block_num c = length (tls_large_block_list c) /\
   (length (tls_large_block_list c) <= kMaxCachedLargeBlocks)%nat) /\
  (exists o c', LargeBlockAlloc req fresh c = (o, c') /\
     match best_fit req (tls_large_block_list c) with
     | Some n => o = Some (mr n) /\ req <= mr_length (mr n) /\ tls_large_block_list c ≡ₚ n :: tls_large_block_list c'
     | None => o = fresh /\ tls_large_block_list c' = tls_large_block_list c
     end) /\
  (exists c', ReturnLargeBlock (Some r) true c = Ok tt c' /\ (length (tls_large_block_list c') <= kMaxCachedLargeBlocks)%nat /\
     map mr (tls_large_block_list c') ++ released c' ≡ₚ r :: map mr (tls_large_block_list c) ++ released c /\
     (released c' = released c \/ exists n, released c' = mr n :: released c /\ Forall (fun m => size m <= size n) (tls_large_block_list c'))).
Proof.
  intros Hst. pose proof (lb_reach c Hst) as Hc. split; [by destruct Hc|]. split.
  - unfold LargeBlockAlloc. rewrite <- first_fit_best_fit, find_cut_find by apply Hc. pose proof (find_cut_spec (tls_large_block_list c) req) as Hf.
    destruct (find_cut _ req) as [[[b n] a]|]; cbn; eexists _, _; (split; [done|]); [|done]. destruct Hf as (Hl & _ & Hr). split; [done|].
    pose proof (ci_size c Hc) as Hz. rewrite Hl in Hz |- *. apply Forall_app in Hz as [_ [Hz _]%Forall_cons]. split; [by rewrite <- Hz|]. cbn. by rewrite Permutation_middle.
  - destruct (return_inv r c Hc) as (c' & E & Hc' & Hp & Hrel). exists c'. split; [done|]. split; [apply Hc'|]. split; [done|]. destruct (_ <? _)%nat; auto.
Qed.

Definition ex_mr (n : Z) : Mr := mkMr (4096 * n) n n.
Lemma large_block_best_fit_witness : exists c', LargeBlockAlloc 2 None (mkCache [mkNode 1 (ex_mr 1); mkNode 3 (ex_mr 3)] 2 true []) = (Some (ex_mr 3), c').
Proof.
  destruct (large_block_best_fit (mkCache [mkNode 1 (ex_mr 1); mkNode 3 (ex_mr 3)] 2 true []) 2 None (ex_mr 1)) as (_ & (o & c' & E & H) & _).
  - apply (steps_trans _ _ (mkCache [mkNode 3 (ex_mr 3)] 1 true [])); [|apply (lb_return (Some (ex_mr 1)) true); reflexivity].
    apply (steps_trans _ _ new_Cache); [constructor|apply (lb_return (Some (ex_mr 3)) true); reflexivity].
  - cbn in H. destruct H as (-> & _). exists c'. exact E.
Defined.

Lemma best_scan_none l req k b d : (forall n, n ∈ l -> (size n < req) \/ d <= size n - req) -> best_scan l req k b d = b.
Proof.
  revert k. induction l as [|n l IH]; intros k H; [done|]. cbn. specialize (H n) as Hn.
  destruct (Z.leb_spec req (size n)), (Z.ltb_spec (size n - req) d); cbn [andb]; try (apply IH; intros; apply H; by right).
  destruct Hn as [?|?]; [by left|lia|lia].
Qed.

(** The search of [SharedResource] and [UniqueResource] does not find the
    first node of the cache, even when it is the best fit, and when the best fit
    is the second node it takes the first one off the list with it: that region
    is then neither cached nor released, and the count is one too many. *)
Theorem resource_cache_loses_head c req fresh n0 n1 l : cache_inv c -> tls_large_block_list c = n0 :: n1 :: l ->
  Forall (fun n => size n - req < SIZE_MAX) (tls_large_block_list c) ->
  (req <= size n0 -> exists c', Resource_LargeBlockAlloc req fresh c = (fresh, c') /\ tls_large_block_list c' = tls_large_block_list c) /\
  (size n0 < req <= size n1 -> exists c', Resource_LargeBlockAlloc req fresh c = (Some (mr n1), c') /\
     tls_large_block_list c' = l /\ released c' = released c /\ tls_large_block_num c' = S (length l)).
Proof.
  intros [Hs Hn _ _] Hl Hmax. unfold Resource_LargeBlockAlloc. rewrite Hl in *. apply StronglySorted_cons in Hs as [H0 Hs].
  apply StronglySorted_cons in Hs as [H1 _]. apply Forall_cons in Hmax as [M0 Hmax]. apply Forall_cons in Hmax as [M1 _]. rewrite Forall_forall in H0, H1. split.
  - intros Hr. cbn [best_scan]. destruct (Z.leb_spec req (size n0)); [|lia]. destruct (Z.ltb_spec (size n0 - req) SIZE_MAX); [|lia]. cbn [andb].
    change (if (req <=? size n1) && (size n1 - req <? size n0 - req) then best_scan l req 2 (Some 1%nat) (size n1 - req) else best_scan l req 2 (Some 0%nat) (size n0 - req))
      with (best_scan (n1 :: l) req 1 (Some 0%nat) (size n0 - req)).
    rewrite best_scan_none; [eexists; done|]. intros m Hm. specialize (H0 m Hm). unfold sized in H0. lia.
  - intros Hr. cbn [best_scan]. destruct (Z.leb_spec req (size n0)); [lia|]. cbn [andb].
    destruct (Z.leb_spec req (size n1)); [|lia]. destruct (Z.ltb_spec (size n1 - req) SIZE_MAX); [|lia]. cbn [andb].
    rewrite best_scan_none; [|intros m Hm; specialize (H1 m Hm); unfold sized in H1; lia]. cbn. eexists. split; [done|]. cbn. rewrite Hn. cbn. done.
Qed.
Lemma resource_cache_loses_head_witness : exists c', Resource_LargeBlockAlloc 3 None (mkCache [mkNode 1 (ex_mr 1); mkNode 3 (ex_mr 3)] 2 true []) = (Some (ex_mr 3), c') /\
  tls_large_block_list c' = [] /\ released c' = [] /\ tls_large_block_num c' = 1%nat.
Proof.
  apply (resource_cache_loses_head (mkCache [mkNode 1 (ex_mr 1); mkNode 3 (ex_mr 3)] 2 true []) 3 None (mkNode 1 (ex_mr 1)) (mkNode 3 (ex_mr 3)) []).
  - split; cbn; [|done|unfold kMaxCachedLargeBlocks; lia|by repeat constructor]. repeat constructor. unfold sized. cbn. lia.
  - reflexivity.
  - repeat constructor; cbn; unfold SIZE_MAX; lia.
  - cbn. lia.
Defined.

End LB.
