(* ===== verification/SmallQueue.v ===== *)
(** * The small queue (src/src-bthread/id.cpp, [SmallQueue])

    A ring of [N] elements inside the object, with a deque on the heap for the
    rest; the deque is made when it is first needed. *)
From S2P Require Import Prelude.

Module SQ.
Section SmallQueue.
Context {T : Type} (N : nat).

Record SmallQueue := mkSmallQueue {
  _begin : nat;
  _size : nat;
  _c : list T;              (* T _c[N] *)
  _full : option (list T)   (* std::deque<T>* *) }.

Definition new_SmallQueue (zero : T) : SmallQueue := mkSmallQueue 0 0 (replicate N zero) None.
Definition deque (q : SmallQueue) : list T := default [] (_full q).

Definition push (val : T) (q : SmallQueue) : SmallQueue :=
  match _full q with
  | Some (x :: l) => mkSmallQueue (_begin q) (_size q) (_c q) (Some ((x :: l) ++ [val]))
  | _ =>
      if (_size q <? N)%nat then
        let tail := (_begin q + _size q)%nat in
        let tail := if (N <=? tail)%nat then (tail - N)%nat else tail in
        mkSmallQueue (_begin q) (S (_size q)) (<[tail := val]> (_c q)) (_full q)
      else mkSmallQueue (_begin q) (_size q) (_c q) (Some (deque q ++ [val]))
  end.

Definition pop (q : SmallQueue) : option (T * SmallQueue) :=
  if (0 <? _size q)%nat then
    match _c q !! _begin q with
    | Some val =>
        let b := S (_begin q) in
        Some (val, mkSmallQueue (if (N <=? b)%nat then (b - N)%nat else b) (_size q - 1) (_c q) (_full q))
    | None => None
    end
  else match _full q with
       | Some (val :: l) => Some (val, mkSmallQueue (_begin q) (_size q) (_c q) (Some l))
       | _ => None
       end.

Definition empty (q : SmallQueue) : bool :=
  (_size q =? 0)%nat && match _full q with Some (_ :: _) => false | _ => true end.
Definition size (q : SmallQueue) : nat := (_size q + length (deque q))%nat.
Definition clear (q : SmallQueue) : SmallQueue :=
  mkSmallQueue 0 0 (_c q) (match _full q with Some _ => Some [] | None => None end).

(** ** The queue as a list *)

Record queue_inv (q : SmallQueue) : Prop := {
  qi_len : length (_c q) = N;
  qi_begin : (_begin q < N)%nat;
  qi_size : (_size q <= N)%nat }.

(** The elements of the ring in order: the array rotated to its first element. *)
Definition ring (q : SmallQueue) : list T := take (_size q) (drop (_begin q) (_c q) ++ take (_begin q) (_c q)).
Definition contents (q : SmallQueue) : list T := ring q ++ deque q.

Lemma length_ring q : queue_inv q -> length (ring q) = _size q.
Proof. intros [A B C]. unfold ring. rewrite length_take, length_app, length_drop, length_take. lia. Qed.

Lemma ring_lookup q i : queue_inv q -> (i < _size q)%nat ->
  ring q !! i = _c q !! (if (N <=? _begin q + i)%nat then (_begin q + i - N)%nat else (_begin q + i)%nat).
Proof.
  intros [A B C] Hi. unfold ring. rewrite lookup_take_lt by lia. destruct (Nat.leb_spec N (_begin q + i)).
  - rewrite lookup_app_r by (rewrite length_drop; lia). rewrite length_drop, lookup_take_lt by lia. f_equal. lia.
  - rewrite lookup_app_l by (rewrite length_drop; lia). by rewrite lookup_drop.
Qed.

Lemma new_inv zero : (0 < N)%nat -> queue_inv (new_SmallQueue zero) /\ contents (new_SmallQueue zero) = [].
Proof. intros. split; [split; cbn; [apply length_replicate|lia|lia]|done]. Qed.

Lemma push_inv val q : queue_inv q -> queue_inv (push val q).
Proof.
  intros [A B C]. unfold push. destruct (_full q) as [[|x l]|]; try (by split); destruct (Nat.ltb_spec (_size q) N); split; cbn; rewrite ?length_insert; try done; lia.
Qed.
Lemma push_ring val q : queue_inv q -> (_size q < N)%nat ->
  let tail := if (N <=? _begin q + _size q)%nat then (_begin q + _size q - N)%nat else (_begin q + _size q)%nat in
  ring (mkSmallQueue (_begin q) (S (_size q)) (<[tail := val]> (_c q)) (_full q)) = ring q ++ [val].
Proof.
  intros HI Hs tail. assert (queue_inv (mkSmallQueue (_begin q) (S (_size q)) (<[tail := val]> (_c q)) (_full q))) as HI'.
  { destruct HI as [A B C]. split; cbn; rewrite ?length_insert; lia. }
  apply list_eq. intros i. destruct (decide (i < S (_size q))%nat) as [Hi|Hi].
  - rewrite ring_lookup by done. cbn [_begin _c]. destruct HI as [A B C]. destruct (decide (i = _size q)) as [->|Hne].
    + fold tail. rewrite list_lookup_insert_eq by (subst tail; case_match; rewrite ?Nat.leb_le, ?Nat.leb_gt in *; lia).
      rewrite lookup_app_r; rewrite (length_ring q) by (by split); [|lia]. by rewrite Nat.sub_diag.
    + rewrite list_lookup_insert_ne by (subst tail; repeat case_match; rewrite ?Nat.leb_le, ?Nat.leb_gt in *; lia).
      rewrite lookup_app_l by (rewrite (length_ring q) by (by split); lia). rewrite ring_lookup by (by split) || lia. done.
  - rewrite !lookup_ge_None_2; [done|rewrite length_app, (length_ring q) by done; cbn; lia|rewrite length_ring by done; cbn; lia].
Qed.

Lemma push_contents val q : queue_inv q -> contents (push val q) = contents q ++ [val].
Proof.
  intros HI. unfold push, contents. destruct (_full q) as [[|x l]|] eqn:Ef; cbn [ring deque _full default].
  - destruct (Nat.ltb_spec (_size q) N); cbn zeta; [rewrite <- Ef, push_ring by done|]; unfold deque; cbn; rewrite Ef; cbn; by rewrite ?app_nil_r.
  - unfold deque; rewrite Ef. cbn. by rewrite <- app_assoc.
  - destruct (Nat.ltb_spec (_size q) N); cbn zeta; [rewrite <- Ef, push_ring by done|]; unfold deque; cbn; rewrite Ef; cbn; by rewrite ?app_nil_r.
Qed.

Lemma sq_pop_spec q : queue_inv q ->
  match pop q with
  | Some (val, q') => queue_inv q' /\ contents q = val :: contents q'
  | None => contents q = []
  end.
Proof.
  intros HI. pose proof HI as [A B C]. unfold pop. destruct (Nat.ltb_spec 0 (_size q)) as [Hs|Hs].
  - pose proof (ring_lookup q 0 HI Hs) as E0. rewrite Nat.add_0_r in E0. destruct (Nat.leb_spec N (_begin q)); [lia|].
    destruct (lookup_lt_is_Some_2 (_c q) (_begin q)) as [val Hv]; [lia|]. rewrite Hv in *.
    set (q' := mkSmallQueue _ _ _ _). assert (queue_inv q') as HI' by (split; cbn; repeat case_match; rewrite ?Nat.leb_le, ?Nat.leb_gt in *; lia).
    split; [done|]. unfold contents. change (deque q') with (deque q). rewrite app_comm_cons. f_equal.
    apply list_eq. intros [|i]; [done|]. cbn [lookup list_lookup]. destruct (decide (S i < _size q)%nat) as [Hi|Hi].
    + rewrite !ring_lookup by (done || (cbn; lia)). cbn [_begin _c q']. f_equal. repeat case_match; rewrite ?Nat.leb_le, ?Nat.leb_gt in *; lia.
    + rewrite (lookup_ge_None_2 (ring q)) by (rewrite (length_ring q) by done; lia). symmetry. apply lookup_ge_None_2. rewrite (length_ring q') by done. cbn. lia.
  - assert (_size q = 0)%nat as Ez by lia. destruct (_full q) as [[|val l]|] eqn:Ef; unfold contents, ring, deque; rewrite Ez, ?Ef; try done.
    split; [split; cbn; lia|done].
Qed.

Lemma empty_spec q : queue_inv q -> empty q = bool_decide (contents q = []).
Proof.
  intros HI. unfold empty, contents, deque. pose proof (length_ring q HI) as Hl. destruct (Nat.eqb_spec (_size q) 0) as [E|E].
  - rewrite E in Hl. apply length_zero_iff_nil in Hl as ->. by destruct (_full q) as [[|]|].
  - symmetry. apply bool_decide_eq_false_2. destruct (ring q); [cbn in Hl; lia|done].
Qed.
Lemma size_spec q : queue_inv q -> size q = length (contents q).
Proof. intros HI. unfold size, contents. by rewrite length_app, length_ring. Qed.
Lemma sq_clear_spec q : queue_inv q -> queue_inv (clear q) /\ contents (clear q) = [].
Proof. intros [A B C]. split; [split; cbn; [done|lia|lia]|]. unfold contents, ring, deque. cbn. by destruct (_full q). Qed.

End SmallQueue.
Arguments SmallQueue : clear implicits.
End SQ.
