(* ===== verification/BthreadId.v ===== *)
(** * Lockable identifiers (src/src-bthread/id.cpp)

    A [bthread_id_t] names a slot of a pool and a version.  The slot is a lock
    with data, a queue of pending errors and a range of valid versions; it is
    reused with higher versions after it is destroyed.  The model is one slot
    and any number of threads.  A step is one critical section under the slot's
    mutex, one call of a butex function, or the return of the slot to the pool.
    [butex_wait] compares and falls asleep in one step, [butex_wake] wakes one
    sleeper and [butex_wake_except(butex, 0)] and [butex_wake_all] wake all. *)
From S2P Require Import Prelude SmallQueue.

Module Bid.

Definition ID_MAX_RANGE : Z := 1024.
Definition EPERM : Z := 1.
Definition ENOMEM : Z := 12.
Definition EBUSY : Z := 16.
Definition EINVAL : Z := 22.

(** Identifiers. *)
Definition make_id (version slot : Z) : Z := Z.lor (u64 (Z.shiftl slot 32)) version.
Definition get_slot (id : Z) : Z := Z.shiftr id 32.
Definition get_version (id : Z) : Z := u32 (Z.land id 0xFFFFFFFF).

Record PendingError := mkPendingError { pe_id : Z; error_code : Z; error_text : list Z; location : Z }.
Definition no_error : PendingError := mkPendingError 0 0 [] 0.

Record Id := mkId {
  first_ver : Z;
  locked_ver : Z;
  data : Z;
  on_error : option Z;
  on_error2 : option Z;
  lock_location : Z;
  butex : Z;
  join_butex : Z;
  pending_q : SQ.SmallQueue PendingError }.
Abbreviation N := 2%nat.

(** [Id()]: the versions are set by the first [create]. *)
Definition new_Id : Id := mkId 0 0 0 None None 0 0 0 (SQ.new_SmallQueue N no_error).

Definition has_version (m : Id) (id_ver : Z) : bool := (first_ver m <=? id_ver) && (id_ver <? locked_ver m).
Definition contended_ver (m : Id) : Z := u32 (locked_ver m + 1).
Definition unlockable_ver (m : Id) : Z := u32 (locked_ver m + 2).
Definition last_ver (m : Id) : Z := unlockable_ver m.
Definition end_ver (m : Id) : Z := u32 (last_ver m + 1).
(** [id_exists_with_true_negatives], what [IdList] takes for existence. *)
Definition id_exists (m : Id) (id_ver : Z) : bool := (first_ver m <=? id_ver) && (id_ver <=? last_ver m).

Definition set_butex (b : Z) (m : Id) : Id :=
  mkId (first_ver m) (locked_ver m) (data m) (on_error m) (on_error2 m) (lock_location m) b (join_butex m) (pending_q m).
Definition set_location (l : Z) (m : Id) : Id :=
  mkId (first_ver m) (locked_ver m) (data m) (on_error m) (on_error2 m) l (butex m) (join_butex m) (pending_q m).
Definition set_pending (q : SQ.SmallQueue PendingError) (m : Id) : Id :=
  mkId (first_ver m) (locked_ver m) (data m) (on_error m) (on_error2 m) (lock_location m) (butex m) (join_butex m) q.
Definition set_locked_ver (v : Z) (m : Id) : Id :=
  mkId (first_ver m) v (data m) (on_error m) (on_error2 m) (lock_location m) (butex m) (join_butex m) (pending_q m).

(** ** The critical sections *)

(** [id_create_ranged_impl] after [get_resource]; [id_create_impl] is the case
    of range 1.  [None]: the [CHECK] failed. *)
Definition id_create_ranged_impl (dat : Z) (onerr onerr2 : option Z) (range : Z) (m : Id) : option Id :=
  if negb (SQ.empty (pending_q m)) then None else
  let b := if (butex m =? 0) || (u32 (butex m + ID_MAX_RANGE + 2) <? butex m) then 1 else butex m in
  Some (mkId b (u32 (b + range)) dat onerr onerr2 (lock_location m) b b (pending_q m)).
Definition id_create_impl (dat : Z) (onerr onerr2 : option Z) (m : Id) : option Id :=
  id_create_ranged_impl dat onerr onerr2 1 m.

(** The handler that is used when none is given. *)
Definition default_bthread_id_on_error : Z := -1.
Definition default_bthread_id_on_error2 : Z := -2.
Definition bthread_id_create (dat : Z) (onerr : option Z) : Id -> option Id :=
  id_create_impl dat (Some (default default_bthread_id_on_error onerr)) None.
Definition bthread_id_create_ranged (dat : Z) (onerr : option Z) (range : Z) : Id -> option Id :=
  id_create_ranged_impl dat (Some (default default_bthread_id_on_error onerr)) None range.
Definition bthread_id_create2 (dat : Z) (onerr2 : option Z) : Id -> option Id :=
  id_create_impl dat None (Some (default default_bthread_id_on_error2 onerr2)).
Definition bthread_id_create2_ranged (dat : Z) (onerr2 : option Z) (range : Z) : Id -> option Id :=
  id_create_ranged_impl dat None (Some (default default_bthread_id_on_error2 onerr2)) range.

Inductive locking := Locked (m : Id) | MustWait (m : Id) (expected_ver : Z) | NotLocked (rc : Z) | Crash.

(** One turn of the loop of [bthread_id_lock_and_reset_range_verbose]. *)
Definition lock_and_reset_range (id_ver range loc : Z) (ever_contended : bool) (m : Id) : locking :=
  if has_version m id_ver then
    if butex m =? first_ver m then
      let m := set_location loc m in
      if (range <? 0) || (ID_MAX_RANGE <? range) then Crash else
      let m := if (range =? 0) || (u32 (range + first_ver m) <=? locked_ver m) then m
               else set_locked_ver (u32 (first_ver m + range)) m in
      Locked (set_butex (if ever_contended then contended_ver m else locked_ver m) m)
    else if negb (butex m =? unlockable_ver m) then
      let m := set_butex (contended_ver m) m in MustWait m (butex m)
    else NotLocked EPERM
  else NotLocked EINVAL.

Definition bthread_id_trylock (id_ver : Z) (m : Id) : Z * Id :=
  if negb (has_version m id_ver) then (EINVAL, m)
  else if negb (butex m =? first_ver m) then (EBUSY, m)
  else (0, set_butex (locked_ver m) m).

(** What happens after the critical section of [unlock]. *)
Inductive unlocking := Unlocked (m : Id) (contended : bool) | RunHandler (m : Id) (e : PendingError) | UnlockCrash.
Definition bthread_id_unlock (id_ver : Z) (m : Id) : unlocking :=
  if negb (has_version m id_ver) then UnlockCrash
  else if butex m =? first_ver m then UnlockCrash
  else match SQ.pop N (pending_q m) with
       | Some (front, q) => RunHandler (set_location (location front) (set_pending q m)) front
       | None => Unlocked (set_butex (first_ver m) m) (butex m =? contended_ver m)
       end.

Definition bthread_id_about_to_destroy (id_ver : Z) (m : Id) : option (Z * Id * bool) :=
  if negb (has_version m id_ver) then Some (EINVAL, m, false)
  else if butex m =? first_ver m then None
  else Some (0, set_butex (unlockable_ver m) m, butex m =? contended_ver m).

Definition bthread_id_unlock_and_destroy (id_ver : Z) (m : Id) : option Id :=
  if negb (has_version m id_ver) then None
  else if butex m =? first_ver m then None
  else let next_ver := end_ver m in
       Some (mkId next_ver next_ver (data m) (on_error m) (on_error2 m) (lock_location m) next_ver next_ver (SQ.clear (pending_q m))).

Definition bthread_id_cancel (id_ver : Z) (m : Id) : Z * Id :=
  if negb (has_version m id_ver) then (EINVAL, m)
  else if negb (butex m =? first_ver m) then (EPERM, m)
  else let b := end_ver m in
       (0, mkId b b (data m) (on_error m) (on_error2 m) (lock_location m) b (join_butex m) (pending_q m)).

Inductive erring := ErrInvalid | ErrRun (m : Id) | ErrQueued (m : Id).
Definition bthread_id_error2 (e : PendingError) (id_ver : Z) (m : Id) : erring :=
  if negb (has_version m id_ver) then ErrInvalid
  else if butex m =? first_ver m then ErrRun (set_location (location e) (set_butex (locked_ver m) m))
  else ErrQueued (set_pending (SQ.push N e (pending_q m)) m).

(** ** Threads

    [Own v] has locked the identifier of version [v] or runs its error handler;
    the contract of the interface is that such a thread unlocks or destroys the
    identifier, and that only such a thread does. *)
Inductive PC :=
| Idle (rc : Z)
| LockCs (v range loc : Z) (ever_contended : bool)
| LockWait (v range loc expected_ver : Z)
| LockSleep (v range loc : Z)
| Own (v : Z)
| WakeOne                      (* unlock, before butex_wake *)
| WakeAllOwn (v : Z)           (* about_to_destroy, before butex_wake_except *)
| Destroy1                     (* unlock_and_destroy, before butex_wake_except *)
| Destroy2                     (* before butex_wake_all(join_butex) *)
| Giving                       (* before return_resource *)
| JoinCs (v : Z)
| JoinWait (v expected_ver : Z)
| JoinSleep (v : Z)
| Fatal.

Inductive call :=
| Create (dat : Z) (onerr onerr2 : option Z) (range : Z)
| Lock (v range loc : Z)
| Trylock (v : Z)
| Error (v code : Z) (text : list Z) (loc : Z)
| Join (v : Z)
| Cancel (v : Z)
| Unlock
| AboutToDestroy
| UnlockAndDestroy
| Go                           (* the next step of the call under way *)
| Wake (sleeper : nat)         (* the sleeper that [butex_wake] takes *)
| Interrupt.                   (* a sleeping wait returns EINTR *)

(** The slot, whether it is in the pool, and the errors that were accepted and
    handled since it was created (for the theorems). *)
Record St := mkSt { meta : Id; pooled : bool; accepted : list PendingError; handled : list PendingError }.
Definition set_meta (m : Id) (s : St) : St := mkSt m (pooled s) (accepted s) (handled s).

Definition is_sleeping (p : PC) : bool := match p with LockSleep _ _ _ => true | _ => false end.
Definition wake_lock (p : PC) : PC := match p with LockSleep v r l => LockCs v r l true | _ => p end.
Definition wake_join (p : PC) : PC := match p with JoinSleep v => JoinCs v | _ => p end.

Definition lock_step (s : St) (v range loc : Z) (ever : bool) : St * PC :=
  match lock_and_reset_range v range loc ever (meta s) with
  | Locked m => (set_meta m s, Own v)
  | MustWait m e => (set_meta m s, LockWait v range loc e)
  | NotLocked rc => (s, Idle rc)
  | Crash => (s, Fatal)
  end.

(** A call by a thread outside of any other, or its next step: the new state
    and program counter, where only the own one changes. *)
Definition local_step (s : St) (p : PC) (c : call) : option (St * PC) :=
  match p, c with
  | Idle _, Create dat oe oe2 range =>
      if pooled s && ((1 <=? range) && (range <=? ID_MAX_RANGE)) then
        match id_create_ranged_impl dat oe oe2 range (meta s) with
        | Some m => Some (mkSt m false [] [], Idle 0)
        | None => Some (s, Fatal)
        end
      else None
  | Idle _, Lock v range loc => if (0 <=? range) && (range <=? ID_MAX_RANGE) then Some (s, LockCs v range loc false) else None
  | Idle _, Trylock v =>
      let x := bthread_id_trylock v (meta s) in
      Some (set_meta (snd x) s, if fst x =? 0 then Own v else Idle (fst x))
  | Idle _, Error v code text loc =>
      let e := mkPendingError v code text loc in
      match bthread_id_error2 e v (meta s) with
      | ErrInvalid => Some (s, Idle EINVAL)
      | ErrRun m => Some (mkSt m (pooled s) (accepted s ++ [e]) (handled s ++ [e]), Own v)
      | ErrQueued m => Some (mkSt m (pooled s) (accepted s ++ [e]) (handled s), Idle 0)
      end
  | Own w, Error v code text loc =>
      let e := mkPendingError v code text loc in
      match bthread_id_error2 e v (meta s) with
      | ErrInvalid => Some (s, Own w)
      | ErrRun m => Some (s, Fatal)
      | ErrQueued m => Some (mkSt m (pooled s) (accepted s ++ [e]) (handled s), Own w)
      end
  | Idle _, Join v => Some (s, JoinCs v)
  | Idle _, Cancel v =>
      let x := bthread_id_cancel v (meta s) in
      Some (set_meta (snd x) s, if fst x =? 0 then Giving else Idle (fst x))
  | Own v, Unlock =>
      match bthread_id_unlock v (meta s) with
      | Unlocked m contended => Some (set_meta m s, if contended then WakeOne else Idle 0)
      | RunHandler m e => Some (mkSt m (pooled s) (accepted s) (handled s ++ [e]), Own (pe_id e))
      | UnlockCrash => Some (s, Fatal)
      end
  | Own v, AboutToDestroy =>
      match bthread_id_about_to_destroy v (meta s) with
      | None => Some (s, Fatal)
      | Some (rc, m, contended) => Some (set_meta m s, if contended then WakeAllOwn v else Own v)
      end
  | Own v, UnlockAndDestroy =>
      match bthread_id_unlock_and_destroy v (meta s) with
      | Some m => Some (set_meta m s, Destroy1)
      | None => Some (s, Fatal)
      end
  | LockCs v range loc ever, Go => Some (lock_step s v range loc ever)
  | LockWait v range loc e, Go =>
      Some (s, if butex (meta s) =? e then LockSleep v range loc else LockCs v range loc true)
  | LockSleep v range loc, Interrupt => Some (s, LockCs v range loc true)
  | JoinCs v, Go =>
      Some (s, if has_version (meta s) v then JoinWait v (join_butex (meta s)) else Idle 0)
  | JoinWait v e, Go => Some (s, if join_butex (meta s) =? e then JoinSleep v else JoinCs v)
  | JoinSleep v, Interrupt => Some (s, JoinCs v)
  | Giving, Go => Some (mkSt (meta s) true (accepted s) (handled s), Idle 0)
  | _, _ => None
  end.

(** A step of thread [i]; the wakeups change other threads. *)
Definition step_thread (s : St) (ps : list PC) (i : nat) (c : call) : option (St * list PC) :=
  p ← ps !! i;
  match p, c with
  | WakeOne, Wake j =>
      match ps !! j with
      | Some (LockSleep v range loc) => Some (s, <[i := Idle 0]> (<[j := LockCs v range loc true]> ps))
      | _ => None
      end
  | WakeOne, Go => if existsb is_sleeping ps then None else Some (s, <[i := Idle 0]> ps)
  | WakeAllOwn v, Go => Some (s, <[i := Own v]> (map wake_lock ps))
  | Destroy1, Go => Some (s, <[i := Destroy2]> (map wake_lock ps))
  | Destroy2, Go => Some (s, <[i := Giving]> (map wake_join ps))
  | _, _ => x ← local_step s p c; Some (fst x, <[i := snd x]> ps)
  end.

Definition init : St := mkSt new_Id true [] [].
Inductive step : St * list PC -> St * list PC -> Prop :=
| step_intro s ps i c s' ps' : step_thread s ps i c = Some (s', ps') -> step (s, ps) (s', ps').
Definition reachable (n : nat) : St * list PC -> Prop := steps step (init, replicate n (Idle 0)).

Fixpoint run (sched : list (nat * call)) (x : St * list PC) : option (St * list PC) :=
  match sched with
  | [] => Some x
  | (i, c) :: rest => y ← step_thread (fst x) (snd x) i c; run rest y
  end.


(** ** Invariants *)

Definition alive (m : Id) : bool := first_ver m <? locked_ver m.
Definition held (m : Id) : bool := alive m && negb (butex m =? first_ver m).
Definition contents (m : Id) : list PendingError := SQ.contents (pending_q m).

Record ok_state (s : St) : Prop := {
  os_q : SQ.queue_inv N (pending_q (meta s));
  os_butex : is_u32 (butex (meta s));
  os_alive : alive (meta s) = true -> let m := meta s in
    (1 <= first_ver m /\ locked_ver m <= first_ver m + ID_MAX_RANGE /\ first_ver m + ID_MAX_RANGE + 2 < 2 ^ 32) /\
    butex m ∈ [first_ver m; locked_ver m; locked_ver m + 1; locked_ver m + 2] /\ pooled s = false /\
    accepted s = handled s ++ contents m /\ (butex m = first_ver m -> contents m = []) /\
    Forall (fun e => has_version m (pe_id e) = true) (contents m);
  os_dead : alive (meta s) = false -> let m := meta s in
    locked_ver m = first_ver m /\ butex m = first_ver m /\ contents m = [] }.

Definition owning (p : PC) : nat := match p with Own _ | WakeAllOwn _ => 1 | _ => 0 end.
Definition closing (p : PC) : nat := match p with Destroy1 | Destroy2 | Giving => 1 | _ => 0 end.
Definition pc_ok (s : St) (p : PC) : Prop :=
  match p with
  | Own v | WakeAllOwn v => has_version (meta s) v = true
  | LockCs _ range _ _ | LockWait _ range _ _ | LockSleep _ range _ => 0 <= range <= ID_MAX_RANGE
  | Fatal => False
  | _ => True
  end.
Definition owners (s : St) : nat := if held (meta s) then 1 else 0.
Definition closers (s : St) : nat := if alive (meta s) || pooled s then 0 else 1.

Record inv (s : St) (ps : list PC) : Prop := {
  i_state : ok_state s;
  i_own : sum_list_with owning ps = owners s;
  i_close : sum_list_with closing ps = closers s;
  i_pcs : Forall (pc_ok s) ps }.

Lemma has_version_spec m v : has_version m v = true <-> first_ver m <= v < locked_ver m.
Proof. unfold has_version. rewrite andb_true_iff, Z.leb_le, Z.ltb_lt. done. Qed.
Lemma has_version_alive m v : has_version m v = true -> alive m = true.
Proof. rewrite has_version_spec. unfold alive. rewrite Z.ltb_lt. lia. Qed.
Lemma held_spec m : held m = true <-> alive m = true /\ butex m <> first_ver m.
Proof. unfold held. rewrite andb_true_iff, negb_true_iff, Z.eqb_neq. done. Qed.

(** One thread changes, and with it the slot. *)
Lemma id_inv_update s ps i p s' p' : inv s ps -> ps !! i = Some p -> ok_state s' -> pc_ok s' p' ->
  (owners s' + owning p = owners s + owning p')%nat -> (closers s' + closing p = closers s + closing p')%nat ->
  (forall v, has_version (meta s) v = true -> has_version (meta s') v = true) \/ owners s = owning p ->
  inv s' (<[i := p']> ps).
Proof.
  intros [HS HO HC HP] Hi HS' Hp' EO EC Hv. pose proof (sum_insert owning ps i p p' Hi). pose proof (sum_insert closing ps i p p' Hi).
  split; [done|lia|lia|]. apply Forall_lookup_2. intros j q Hj. destruct (decide (j = i)) as [->|Hne].
  { rewrite list_lookup_insert_eq in Hj by (by eapply lookup_lt_Some). by injection Hj as <-. }
  rewrite list_lookup_insert_ne in Hj by done. pose proof (Forall_lookup_1 _ _ _ _ HP Hj) as Hq.
  destruct Hv as [Hv|Hv]; [destruct q; cbn in *; auto|]. pose proof (sum_two owning ps i j p q Hi Hj ltac:(done)).
  destruct q; cbn in *; try done; lia.
Qed.

(** ** The operations keep the invariant *)

Lemma alive_lt m : alive m = true <-> first_ver m < locked_ver m.
Proof. apply Z.ltb_lt. Qed.

Lemma alive_versions s : ok_state s -> alive (meta s) = true -> let m := meta s in
  contended_ver m = locked_ver m + 1 /\ unlockable_ver m = locked_ver m + 2 /\ end_ver m = u32 (locked_ver m + 3) /\
  1 <= first_ver m < locked_ver m /\ locked_ver m <= first_ver m + ID_MAX_RANGE /\ first_ver m + ID_MAX_RANGE + 2 < 2 ^ 32.
Proof.
  intros HS Ha m. destruct (os_alive _ HS Ha) as ((H1 & H2 & H3) & _). fold m in H1, H2, H3. apply alive_lt in Ha. fold m in Ha. unfold ID_MAX_RANGE in *.
  assert (unlockable_ver m = locked_ver m + 2) as Eu by (apply u32_small; unfold is_u32; lia).
  split_and!; try done; try lia; [apply u32_small; unfold is_u32; lia|]. unfold end_ver, last_ver. rewrite Eu. f_equal. lia.
Qed.

(** A slot that stays alive. *)
Lemma ok_alive s s' : ok_state s -> alive (meta s) = true -> let m := meta s in let m' := meta s' in
  first_ver m' = first_ver m -> locked_ver m <= locked_ver m' <= first_ver m + ID_MAX_RANGE ->
  butex m' ∈ [first_ver m; locked_ver m'; locked_ver m' + 1; locked_ver m' + 2] -> pooled s' = false ->
  SQ.queue_inv N (pending_q m') -> accepted s' = handled s' ++ contents m' -> (butex m' = first_ver m -> contents m' = []) ->
  Forall (fun e => has_version m (pe_id e) = true) (contents m') ->
  ok_state s' /\ alive m' = true /\ forall v, has_version m v = true -> has_version m' v = true.
Proof.
  intros HS Ha m m' Ef El Eb Hp Hq He Hz HF. destruct (alive_versions s HS Ha) as (_ & _ & _ & H1 & H2 & H3). fold m in H1, H2, H3.
  assert (forall v, has_version m v = true -> has_version m' v = true) as Hv by (intros v; rewrite !has_version_spec, Ef; lia).
  assert (alive m' = true) as Ha' by (apply alive_lt; lia). split_and!; [|done|done]. split; fold m'.
  - done.
  - rewrite !elem_of_cons in Eb. unfold is_u32, ID_MAX_RANGE in *. destruct Eb as [->|[->|[->|[->|Eb]]]]; try lia. by apply elem_of_nil in Eb.
  - intros _. cbn zeta. fold m'. rewrite Ef. split_and!; try done; try lia. eapply Forall_impl; [exact HF|]. intros e. apply Hv.
  - by rewrite Ha'.
Qed.

Lemma in_first (a : Z) l : a ∈ a :: l.
Proof. by left. Qed.
Create HintDb bid.
#[local] Hint Extern 4 (_ ∈ _ :: _) => rewrite !elem_of_cons; tauto : bid.

Lemma set_meta_alive s m' : ok_state s -> alive (meta s) = true ->
  first_ver m' = first_ver (meta s) -> locked_ver (meta s) <= locked_ver m' <= first_ver (meta s) + ID_MAX_RANGE ->
  butex m' ∈ [first_ver (meta s); locked_ver m'; locked_ver m' + 1; locked_ver m' + 2] -> pending_q m' = pending_q (meta s) ->
  (butex m' = first_ver (meta s) -> contents (meta s) = []) ->
  ok_state (set_meta m' s) /\ alive m' = true /\ forall v, has_version (meta s) v = true -> has_version m' v = true.
Proof.
  intros HS Ha Ef El Eb Eq Hz. pose proof (os_alive _ HS Ha) as (_ & _ & Hp & He & _ & HF).
  apply (ok_alive s (set_meta m' s) HS Ha); try done; cbn [set_meta meta accepted handled]; unfold contents in *; rewrite ?Eq; try done. apply HS.
Qed.

Lemma owners_alive s : alive (meta s) = true -> owners s = if butex (meta s) =? first_ver (meta s) then 0%nat else 1%nat.
Proof. intros H. unfold owners, held. rewrite H. by destruct (_ =? _). Qed.
Lemma closers_alive s : alive (meta s) = true -> closers s = 0%nat.
Proof. intros H. unfold closers. by rewrite H. Qed.

Lemma lock_inv s ps i v range loc ever : inv s ps -> ps !! i = Some (LockCs v range loc ever) -> 0 <= range <= ID_MAX_RANGE ->
  inv (fst (lock_step s v range loc ever)) (<[i := snd (lock_step s v range loc ever)]> ps).
Proof.
  intros HI Hi Hr. pose proof (i_state _ _ HI) as HS. unfold lock_step, lock_and_reset_range. destruct (has_version (meta s) v) eqn:Hv.
  2: { eapply id_inv_update; eauto; done. }
  pose proof (has_version_alive _ _ Hv) as Ha. destruct (alive_versions s HS Ha) as (Ec & Eu & Ee & H1 & H2 & H3). pose proof (os_alive _ HS Ha) as (_ & Hb & _ & _ & Hz & _).
  destruct (Z.eqb_spec (butex (meta s)) (first_ver (meta s))) as [Ef|Ef].
  - destruct (Z.ltb_spec range 0); [lia|]. destruct (Z.ltb_spec ID_MAX_RANGE range); [lia|]. cbn [orb].
    set (m0 := set_location loc (meta s)). cbn zeta. set (m1 := if (range =? 0) || (u32 (range + first_ver m0) <=? locked_ver m0) then m0 else set_locked_ver (u32 (first_ver m0 + range)) m0). assert (first_ver m1 = first_ver (meta s) /\ pending_q m1 = pending_q (meta s) /\
      locked_ver (meta s) <= locked_ver m1 <= first_ver (meta s) + ID_MAX_RANGE) as (F1 & F2 & F3).
    { subst m1 m0. unfold ID_MAX_RANGE in *. cbn [set_location first_ver locked_ver]. rewrite !u32_small by (unfold is_u32; lia).
      destruct (Z.eqb_spec range 0); [cbn; split_and!; lia || done|]. destruct (Z.leb_spec (range + first_ver (meta s)) (locked_ver (meta s))); cbn; split_and!; try done; lia. }
    assert (contended_ver m1 = locked_ver m1 + 1) as E1 by (unfold contended_ver, ID_MAX_RANGE in *; apply u32_small; unfold is_u32; lia). clearbody m1.
    destruct (set_meta_alive s (set_butex (if ever then contended_ver m1 else locked_ver m1) m1) HS Ha) as (HS' & Ha' & Hv'); cbn [set_butex first_ver locked_ver butex pending_q]; try done.
    { rewrite E1. destruct ever; auto with bid. } { intros _. by apply Hz. }
    cbn [fst snd]. apply (id_inv_update s ps i _ _ _ HI Hi HS'); cbn [pc_ok set_meta meta]; [by apply Hv'| |by rewrite !closers_alive by done|by left].
    rewrite !owners_alive by done. cbn [set_meta meta set_butex butex first_ver owning]. rewrite Ef, Z.eqb_refl, F1.
    destruct (Z.eqb_spec (if ever then contended_ver m1 else locked_ver m1) (first_ver (meta s))); [destruct ever; lia|done].
  - destruct (Z.eqb_spec (butex (meta s)) (unlockable_ver (meta s))); cbn [negb]; [eapply id_inv_update; eauto; done|].
    destruct (set_meta_alive s (set_butex (contended_ver (meta s)) (meta s)) HS Ha) as (HS' & Ha' & Hv'); cbn [set_butex first_ver locked_ver butex pending_q]; try done.
    { rewrite Ec. auto with bid. } { intros; lia. }
    cbn [fst snd]. apply (id_inv_update s ps i _ _ _ HI Hi HS'); cbn [pc_ok]; [done| |by rewrite !closers_alive by done|by left].
    rewrite !owners_alive by done. cbn [set_meta meta set_butex butex first_ver owning].
    destruct (Z.eqb_spec (contended_ver (meta s)) (first_ver (meta s))); [lia|]. by destruct (Z.eqb_spec (butex (meta s)) (first_ver (meta s))).
Qed.

Lemma butex_cases s : ok_state s -> alive (meta s) = true -> butex (meta s) <> first_ver (meta s) ->
  butex (meta s) = locked_ver (meta s) \/ butex (meta s) = contended_ver (meta s) \/ butex (meta s) = unlockable_ver (meta s).
Proof.
  intros HS Ha Hne. destruct (alive_versions s HS Ha) as (-> & -> & _). pose proof (os_alive _ HS Ha) as (_ & Hb & _).
  rewrite !elem_of_cons in Hb. destruct Hb as [?|[?|[?|[?|Hb]]]]; try tauto. by apply elem_of_nil in Hb.
Qed.

(** A thread that owns the identifier finds it held. *)
Lemma owner_held s ps i p v : inv s ps -> ps !! i = Some p -> owning p = 1%nat -> pc_ok s p ->
  match p with Own w | WakeAllOwn w => w = v | _ => False end ->
  has_version (meta s) v = true /\ alive (meta s) = true /\ butex (meta s) <> first_ver (meta s).
Proof.
  intros HI Hi Ho Hp Hw. pose proof (sum_lookup owning ps i p Hi) as Hs. rewrite (i_own _ _ HI), Ho in Hs. unfold owners in Hs.
  destruct (held (meta s)) eqn:Eh; [|lia]. apply held_spec in Eh. split; [|done]. destruct p; cbn in *; try done; by subst.
Qed.
Lemma own_held s ps i v : inv s ps -> ps !! i = Some (Own v) ->
  has_version (meta s) v = true /\ alive (meta s) = true /\ butex (meta s) <> first_ver (meta s).
Proof. intros HI Hi. eapply owner_held; try done. by apply (Forall_lookup_1 _ _ _ _ (i_pcs _ _ HI) Hi). Qed.

Lemma owners_held s : alive (meta s) = true -> butex (meta s) <> first_ver (meta s) -> owners s = 1%nat.
Proof. intros Ha Hb. rewrite owners_alive by done. by destruct (Z.eqb_spec (butex (meta s)) (first_ver (meta s))). Qed.
Lemma owners_free s : butex (meta s) = first_ver (meta s) -> owners s = 0%nat.
Proof. intros Hb. unfold owners, held. rewrite Hb, Z.eqb_refl. by destruct (alive _). Qed.

Lemma trylock_inv s ps i rc v : inv s ps -> ps !! i = Some (Idle rc) -> let x := bthread_id_trylock v (meta s) in
  inv (set_meta (snd x) s) (<[i := if fst x =? 0 then Own v else Idle (fst x)]> ps).
Proof.
  intros HI Hi x. subst x. pose proof (i_state _ _ HI) as HS. unfold bthread_id_trylock. destruct (has_version (meta s) v) eqn:Hv; cbn [negb].
  2: { destruct s. eapply id_inv_update; eauto; done. }
  pose proof (has_version_alive _ _ Hv) as Ha. destruct (alive_versions s HS Ha) as (Ec & Eu & Ee & H1 & H2 & H3). pose proof (os_alive _ HS Ha) as (_ & Hb & _ & _ & Hz & _).
  destruct (Z.eqb_spec (butex (meta s)) (first_ver (meta s))) as [Ef|Ef]; cbn [negb].
  2: { destruct s. eapply id_inv_update; eauto; done. }
  destruct (set_meta_alive s (set_butex (locked_ver (meta s)) (meta s)) HS Ha) as (HS' & Ha' & Hv'); cbn [set_butex first_ver locked_ver butex pending_q]; try done.
  { auto with bid. } { intros; lia. }
  cbn [fst snd]. apply (id_inv_update s ps i _ _ _ HI Hi HS'); cbn [pc_ok]; [by apply Hv'| |by rewrite !closers_alive by done|by left].
  rewrite (owners_free s) by done. rewrite owners_held; [done|done|]. cbn. lia.
Qed.

Lemma error_idle_inv s ps i rc v code text loc s' p' : inv s ps -> ps !! i = Some (Idle rc) ->
  local_step s (Idle rc) (Error v code text loc) = Some (s', p') -> inv s' (<[i := p']> ps).
Proof.
  intros HI Hi. pose proof (i_state _ _ HI) as HS. cbn. unfold bthread_id_error2. destruct (has_version (meta s) v) eqn:Hv; cbn [negb].
  2: { intros [= <- <-]. eapply id_inv_update; eauto; done. }
  pose proof (has_version_alive _ _ Hv) as Ha. destruct (alive_versions s HS Ha) as (Ec & Eu & Ee & H1 & H2 & H3). pose proof (os_alive _ HS Ha) as (_ & Hb & Hpl & He & Hz & HF).
  set (e := mkPendingError v code text loc). destruct (Z.eqb_spec (butex (meta s)) (first_ver (meta s))) as [Ef|Ef]; intros [= <- <-].
  - set (s' := mkSt _ _ _ _). destruct (ok_alive s s' HS Ha) as (HS' & Ha' & Hv'); cbn [s' meta set_location set_butex first_ver locked_ver butex pending_q pooled accepted handled]; try done; try apply HS.
    { auto with bid. } { unfold contents in *. cbn. rewrite He, Hz by done. by rewrite !app_nil_r. } { intros; lia. }
    apply (id_inv_update s ps i _ _ _ HI Hi HS'); cbn [pc_ok]; [by apply Hv'| |by rewrite !closers_alive by done|by left].
    rewrite (owners_free s) by done. rewrite owners_held; [done|done|]. cbn. lia.
  - set (s' := mkSt _ _ _ _). pose proof (SQ.push_contents N e _ (os_q _ HS)) as EP.
    destruct (ok_alive s s' HS Ha) as (HS' & Ha' & Hv'); cbn [s' meta set_pending first_ver locked_ver butex pending_q pooled accepted handled]; try done.
    { by apply SQ.push_inv, HS. } { unfold contents in *. cbn. by rewrite He, EP, app_assoc. } { unfold contents. cbn. rewrite EP. apply Forall_app. split; [done|]. by constructor. }
    apply (id_inv_update s ps i _ _ _ HI Hi HS'); cbn [pc_ok]; [done| |by rewrite !closers_alive by done|by left].
    by rewrite !owners_held.
Qed.

Lemma error_own_inv s ps i w v code text loc s' p' : inv s ps -> ps !! i = Some (Own w) ->
  local_step s (Own w) (Error v code text loc) = Some (s', p') -> inv s' (<[i := p']> ps).
Proof.
  intros HI Hi. pose proof (i_state _ _ HI) as HS. destruct (own_held _ _ _ _ HI Hi) as (Hw & Ha & Hne). cbn. unfold bthread_id_error2.
  destruct (has_version (meta s) v) eqn:Hv; cbn [negb].
  2: { intros [= <- <-]. eapply id_inv_update; eauto. }
  pose proof (os_alive _ HS Ha) as (_ & Hb & Hpl & He & Hz & HF). set (e := mkPendingError v code text loc).
  destruct (Z.eqb_spec (butex (meta s)) (first_ver (meta s))) as [Ef|Ef]; [done|]. intros [= <- <-].
  destruct (alive_versions s HS Ha) as (Ec & Eu & Ee & H1 & H2 & H3). set (s' := mkSt _ _ _ _). pose proof (SQ.push_contents N e _ (os_q _ HS)) as EP.
  destruct (ok_alive s s' HS Ha) as (HS' & Ha' & Hv'); cbn [s' meta set_pending first_ver locked_ver butex pending_q pooled accepted handled]; try done.
  { by apply SQ.push_inv, HS. } { unfold contents in *. cbn. by rewrite He, EP, app_assoc. } { unfold contents. cbn. rewrite EP. apply Forall_app. split; [done|]. by constructor. }
  apply (id_inv_update s ps i _ _ _ HI Hi HS'); cbn [pc_ok]; [by apply Hv'| |by rewrite !closers_alive by done|by left].
  by rewrite !owners_held.
Qed.

Lemma unlock_inv s ps i v s' p' : inv s ps -> ps !! i = Some (Own v) -> local_step s (Own v) Unlock = Some (s', p') -> inv s' (<[i := p']> ps).
Proof.
  intros HI Hi. pose proof (i_state _ _ HI) as HS. destruct (own_held _ _ _ _ HI Hi) as (Hv & Ha & Hne).
  destruct (alive_versions s HS Ha) as (Ec & Eu & Ee & H1 & H2 & H3). pose proof (os_alive _ HS Ha) as (_ & Hb & Hpl & He & Hz & HF).
  cbn. unfold bthread_id_unlock. rewrite Hv. cbn [negb]. destruct (Z.eqb_spec (butex (meta s)) (first_ver (meta s))) as [Ef|_]; [done|].
  pose proof (SQ.sq_pop_spec N _ (os_q _ HS)) as Hpop. destruct (SQ.pop N (pending_q (meta s))) as [[front q]|]; intros [= <- <-].
  - destruct Hpop as [Hq Eq]. unfold contents in HF, He. rewrite Eq in HF, He. apply Forall_cons in HF as [Hf HF].
    set (s' := mkSt _ _ _ _). destruct (ok_alive s s' HS Ha) as (HS' & Ha' & Hv'); cbn [s' meta set_location set_pending first_ver locked_ver butex pending_q pooled accepted handled]; try done.
    { unfold contents. cbn. by rewrite He, <- app_assoc. }
    apply (id_inv_update s ps i _ _ _ HI Hi HS'); cbn [pc_ok]; [by apply Hv'| |by rewrite !closers_alive by done|by left]. by rewrite !owners_held.
  - destruct (set_meta_alive s (set_butex (first_ver (meta s)) (meta s)) HS Ha) as (HS' & Ha' & Hv'); cbn [set_butex first_ver locked_ver butex pending_q]; try done; [by left|].
    apply (id_inv_update s ps i _ _ _ HI Hi HS'); cbn [pc_ok]; [by destruct (_ =? _)| |by rewrite !closers_alive by done; destruct (_ =? _)|by left].
    rewrite (owners_held s), owners_free by done. by destruct (_ =? _).
Qed.

Lemma about_to_destroy_inv s ps i v s' p' : inv s ps -> ps !! i = Some (Own v) ->
  local_step s (Own v) AboutToDestroy = Some (s', p') -> inv s' (<[i := p']> ps).
Proof.
  intros HI Hi. pose proof (i_state _ _ HI) as HS. destruct (own_held _ _ _ _ HI Hi) as (Hv & Ha & Hne).
  destruct (alive_versions s HS Ha) as (Ec & Eu & Ee & H1 & H2 & H3).
  cbn. unfold bthread_id_about_to_destroy. rewrite Hv. cbn [negb]. destruct (Z.eqb_spec (butex (meta s)) (first_ver (meta s))) as [Ef|_]; [done|]. intros [= <- <-].
  destruct (set_meta_alive s (set_butex (unlockable_ver (meta s)) (meta s)) HS Ha) as (HS' & Ha' & Hv'); cbn [set_butex first_ver locked_ver butex pending_q]; try done.
  { rewrite Eu. auto with bid. } { intros; lia. }
  apply (id_inv_update s ps i _ _ _ HI Hi HS'); [destruct (_ =? _); by apply Hv'| |rewrite !closers_alive by done; by destruct (_ =? _)|by left].
  rewrite (owners_held s), owners_held by (done || (cbn; lia)). by destruct (_ =? _).
Qed.

(** A slot that has been destroyed. *)
Lemma ok_dead s m : first_ver m = locked_ver m -> butex m = first_ver m -> is_u32 (butex m) -> SQ.queue_inv N (pending_q m) -> contents m = [] ->
  ok_state (set_meta m s) /\ alive m = false.
Proof.
  intros E1 E2 E3 E4 E5. assert (alive m = false) as Ha by (unfold alive; apply Z.ltb_ge; lia). split; [|done].
  split; cbn [set_meta meta]; [done|done|by rewrite Ha|done].
Qed.

Lemma destroy_inv s ps i v s' p' : inv s ps -> ps !! i = Some (Own v) ->
  local_step s (Own v) UnlockAndDestroy = Some (s', p') -> inv s' (<[i := p']> ps).
Proof.
  intros HI Hi. pose proof (i_state _ _ HI) as HS. destruct (own_held _ _ _ _ HI Hi) as (Hv & Ha & Hne). pose proof (os_alive _ HS Ha) as (_ & _ & Hpl & _).
  cbn. unfold bthread_id_unlock_and_destroy. rewrite Hv. cbn [negb]. destruct (Z.eqb_spec (butex (meta s)) (first_ver (meta s))) as [Ef|_]; [done|]. intros [= <- <-].
  set (m' := mkId _ _ _ _ _ _ _ _ _). destruct (SQ.sq_clear_spec N _ (os_q _ HS)) as [Hq Ez].
  destruct (ok_dead s m') as [HS' Ha']; try done; [apply u32_range|].
  apply (id_inv_update s ps i _ _ _ HI Hi HS'); [done| |cbn|right; cbn]; rewrite ?(owners_held s) by done; [by rewrite owners_free| |done].
  rewrite (closers_alive s) by done. unfold closers. cbn [set_meta meta pooled]. by rewrite Ha', Hpl.
Qed.

Lemma cancel_inv s ps i rc v : inv s ps -> ps !! i = Some (Idle rc) -> let x := bthread_id_cancel v (meta s) in
  inv (set_meta (snd x) s) (<[i := if fst x =? 0 then Giving else Idle (fst x)]> ps).
Proof.
  intros HI Hi x. subst x. pose proof (i_state _ _ HI) as HS. unfold bthread_id_cancel. destruct (has_version (meta s) v) eqn:Hv; cbn [negb].
  2: { destruct s. eapply id_inv_update; eauto; done. }
  pose proof (has_version_alive _ _ Hv) as Ha. pose proof (os_alive _ HS Ha) as (_ & _ & Hpl & _ & Hz & _).
  destruct (Z.eqb_spec (butex (meta s)) (first_ver (meta s))) as [Ef|Ef]; cbn [negb].
  2: { destruct s. eapply id_inv_update; eauto; done. }
  cbn [fst snd]. set (m' := mkId _ _ _ _ _ _ _ _ _). destruct (ok_dead s m') as [HS' Ha']; try done; [apply u32_range|apply HS|by apply Hz|].
  apply (id_inv_update s ps i _ _ _ HI Hi HS'); [done| |cbn|right; cbn]; rewrite ?(owners_free s) by done; [by rewrite owners_free| |done].
  rewrite (closers_alive s) by done. unfold closers. cbn [set_meta meta pooled]. by rewrite Ha', Hpl.
Qed.

Lemma create_inv s ps i rc dat oe oe2 range s' p' : inv s ps -> ps !! i = Some (Idle rc) ->
  local_step s (Idle rc) (Create dat oe oe2 range) = Some (s', p') -> inv s' (<[i := p']> ps).
Proof.
  intros HI Hi. pose proof (i_state _ _ HI) as HS. cbn. destruct (pooled s) eqn:Hpl; [|done]. cbn [andb].
  destruct (Z.leb_spec 1 range) as [Hr1|]; [|done]. destruct (Z.leb_spec range ID_MAX_RANGE) as [Hr2|]; [|done]. cbn [andb].
  assert (alive (meta s) = false) as Ha by (destruct (alive (meta s)) eqn:Ha; [|done]; pose proof (os_alive _ HS Ha) as (_ & _ & ? & _); congruence).
  pose proof (os_dead _ HS Ha) as (El & Eb & Ec). unfold id_create_ranged_impl. rewrite (SQ.empty_spec N) by apply HS.
  unfold contents in Ec. rewrite Ec. cbn [bool_decide negb]. rewrite bool_decide_eq_true_2 by done. cbn [negb]. intros [= <- <-].
  set (b := if _ || _ then 1 else butex (meta s)). assert (1 <= b /\ b + ID_MAX_RANGE + 2 < 2 ^ 32) as [Hb1 Hb2].
  { pose proof (os_butex _ HS) as Hu. unfold is_u32, ID_MAX_RANGE in *. subst b. destruct (Z.eqb_spec (butex (meta s)) 0); cbn [orb]; [lia|].
    destruct (Z.ltb_spec (u32 (butex (meta s) + 1024 + 2)) (butex (meta s))) as [Hlt|Hge]; [lia|].
    destruct (decide (butex (meta s) + 1024 + 2 < 2 ^ 32)) as [?|Hge2]; [lia|].
    assert (u32 (butex (meta s) + 1024 + 2) = butex (meta s) + 1024 + 2 - 2 ^ 32); [|lia]. symmetry. apply (Z.mod_unique_pos _ _ 1); lia. }
  clearbody b. unfold ID_MAX_RANGE in *. rewrite (u32_small (b + range)) by (unfold is_u32; lia).
  set (s' := mkSt _ _ _ _). assert (alive (meta s') = true) as Ha' by (apply alive_lt; cbn; lia).
  assert (ok_state s') as HS'.
  { split; cbn [s' meta]; [apply HS|cbn; unfold is_u32; lia| |intros Hd; change (alive (meta s') = false) in Hd; congruence].
    intros _. cbn [first_ver locked_ver butex]. unfold contents. cbn [pending_q accepted handled pooled s']. rewrite Ec. unfold ID_MAX_RANGE. split_and!; try done; try lia. by left. }
  apply (id_inv_update s ps i _ _ _ HI Hi HS'); [done| | |right; by apply owners_free].
  - rewrite (owners_free s), (owners_free s') by done. done.
  - rewrite (closers_alive s') by done. unfold closers. by rewrite Hpl, orb_true_r.
Qed.

(** Waking threads up. *)
Definition harmless (s : St) (f : PC -> PC) : Prop :=
  forall p, owning (f p) = owning p /\ closing (f p) = closing p /\ (pc_ok s p -> pc_ok s (f p)).
Lemma wake_lock_harmless s : harmless s wake_lock.
Proof. by intros []. Qed.
Lemma wake_join_harmless s : harmless s wake_join.
Proof. by intros []. Qed.
#[local] Hint Resolve wake_lock_harmless wake_join_harmless : bid.

Lemma inv_map s f ps : harmless s f -> inv s ps -> inv s (map f ps).
Proof.
  intros Hf [HS HO HC HP]. assert (forall g, (forall p, g (f p) = g p) -> sum_list_with g (map f ps) = sum_list_with g ps) as Hs.
  { intros g Hg. clear -Hg. induction ps as [|p ps IH]; [done|]. cbn. by rewrite Hg, IH. }
  split; [done|by rewrite Hs by apply Hf|by rewrite Hs by apply Hf|]. apply Forall_map. eapply Forall_impl; [exact HP|]. intros p. apply Hf.
Qed.

Lemma local_inv s ps i p c s' p' : inv s ps -> ps !! i = Some p -> local_step s p c = Some (s', p') -> inv s' (<[i := p']> ps).
Proof.
  intros HI Hi. pose proof (Forall_lookup_1 _ _ _ _ (i_pcs _ _ HI) Hi) as Hp. pose proof (i_state _ _ HI) as HS.
  destruct p; try done; destruct c; try done.
  - by eapply create_inv.
  - cbn. destruct (Z.leb_spec 0 range); [|done]. destruct (Z.leb_spec range ID_MAX_RANGE); [|done]. intros [= <- <-]. eapply id_inv_update; eauto; done.
  - intros [= <- <-]. by eapply trylock_inv.
  - by eapply error_idle_inv.
  - intros [= <- <-]. eapply id_inv_update; eauto; done.
  - intros [= <- <-]. by eapply cancel_inv.
  - intros [= E]. pose proof (lock_inv s ps i v range loc ever_contended HI Hi Hp) as L. by rewrite E in L.
  - intros [= <- <-]. eapply id_inv_update; eauto; by destruct (_ =? _).
  - intros [= <- <-]. eapply id_inv_update; eauto; done.
  - by eapply error_own_inv.
  - by eapply unlock_inv.
  - by eapply about_to_destroy_inv.
  - by eapply destroy_inv.
  - intros [= <- <-]. pose proof (sum_lookup closing ps i _ Hi) as Hc. rewrite (i_close _ _ HI) in Hc. cbn in Hc. unfold closers in Hc.
    destruct (alive (meta s)) eqn:Ha; cbn [orb] in Hc; [lia|]. destruct (pooled s) eqn:Hpl; cbn in Hc; [lia|].
    assert (ok_state (mkSt (meta s) true (accepted s) (handled s))) as HS' by (destruct HS as [A B C D]; split; cbn [meta]; [done|done|by rewrite Ha|done]).
    eapply id_inv_update; eauto; cbn. unfold closers. cbn [meta pooled]. by rewrite Ha, Hpl.
  - intros [= <- <-]. eapply id_inv_update; eauto; by destruct (has_version _ _).
  - intros [= <- <-]. eapply id_inv_update; eauto; by destruct (_ =? _).
  - intros [= <- <-]. eapply id_inv_update; eauto; done.
Qed.

Lemma inv_wait s ps i p p' : inv s ps -> ps !! i = Some p -> pc_ok s p' -> owning p' = owning p -> closing p' = closing p -> inv s (<[i := p']> ps).
Proof. intros HI Hi Hp E1 E2. eapply id_inv_update; eauto using i_state; lia. Qed.

(** The kinds of steps. *)
Inductive step_kind (s : St) (ps : list PC) (i : nat) (c : call) : PC -> St -> list PC -> Prop :=
| k_local p s' p' : local_step s p c = Some (s', p') -> step_kind s ps i c p s' (<[i := p']> ps)
| k_wake j v range loc : ps !! j = Some (LockSleep v range loc) ->
    step_kind s ps i c WakeOne s (<[i := Idle 0]> (<[j := LockCs v range loc true]> ps))
| k_nobody : existsb is_sleeping ps = false -> step_kind s ps i c WakeOne s (<[i := Idle 0]> ps)
| k_about v : step_kind s ps i c (WakeAllOwn v) s (<[i := Own v]> (map wake_lock ps))
| k_destroy1 : step_kind s ps i c Destroy1 s (<[i := Destroy2]> (map wake_lock ps))
| k_destroy2 : step_kind s ps i c Destroy2 s (<[i := Giving]> (map wake_join ps)).

Lemma step_cases s ps i c s' ps' : step_thread s ps i c = Some (s', ps') -> exists p, ps !! i = Some p /\ step_kind s ps i c p s' ps'.
Proof.
  unfold step_thread. destruct (ps !! i) as [p|] eqn:Hi; [|done]. cbn. intros H. exists p. split; [done|].
  assert (local_step s p c ≫= (fun x => Some (fst x, <[i := snd x]> ps)) = Some (s', ps') -> step_kind s ps i c p s' ps') as Hl.
  { destruct (local_step s p c) as [[s1 p1]|] eqn:E; [|done]. intros [= <- <-]. by apply k_local. }
  destruct p; auto; destruct c; auto.
  - destruct (existsb is_sleeping ps) eqn:E; [done|]. injection H as <- <-. by apply k_nobody.
  - destruct (ps !! sleeper) as [[]|] eqn:E; try done. injection H as <- <-. by apply k_wake.
  - injection H as <- <-. apply k_about.
  - injection H as <- <-. apply k_destroy1.
  - injection H as <- <-. apply k_destroy2.
Qed.

Lemma id_step_inv s ps i c s' ps' : inv s ps -> step_thread s ps i c = Some (s', ps') -> inv s' ps'.
Proof.
  intros HI (p & Hi & K)%step_cases. pose proof (Forall_lookup_1 _ _ _ _ (i_pcs _ _ HI) Hi) as Hp.
  assert (forall f : PC -> PC, map f ps !! i = Some (f p)) as Hm by (intros f; change (map f ps) with (f <$> ps); by rewrite list_lookup_fmap, Hi).
  destruct K as [p s' p' E|j v range loc E|E|v| |].
  - by eapply local_inv.
  - pose proof (Forall_lookup_1 _ _ _ _ (i_pcs _ _ HI) E) as Hq. assert (j <> i) by congruence.
    eapply (inv_wait _ _ _ WakeOne); [eapply inv_wait; eauto|by rewrite list_lookup_insert_ne|done..].
  - by eapply inv_wait.
  - eapply inv_wait; [apply inv_map; eauto with bid|apply Hm|done..].
  - eapply inv_wait; [apply inv_map; eauto with bid|apply Hm|done..].
  - eapply inv_wait; [apply inv_map; eauto with bid|apply Hm|done..].
Qed.

Lemma init_inv n : inv init (replicate n (Idle 0)).
Proof.
  assert (forall f, f (Idle 0) = 0%nat -> sum_list_with f (replicate n (Idle 0)) = 0%nat) as Hz by (intros f Hf; induction n as [|n IH]; cbn; [done|]; by rewrite Hf, IH).
  split; [|by rewrite Hz|by rewrite Hz|by apply Forall_replicate].
  split; cbn; [by apply SQ.new_inv; lia|unfold is_u32; lia|done|done].
Qed.

Lemma id_reachable_inv n s ps : reachable n (s, ps) -> inv s ps.
Proof.
  intros H. apply (steps_invariant step (fun x => inv (fst x) (snd x)) _ _) in H; [done| |apply init_inv].
  intros a b HI Hs. destruct Hs as [s1 ps1 i c s2 ps2 Hs]. by eapply id_step_inv.
Qed.

(** ** No wakeup is lost

    The steps of a program that uses the identifier with care: the versions stay
    below 2^31, no call resets the range, an identifier that is about to be
    destroyed is destroyed, and only an identifier on which nobody waits is
    cancelled. *)
Definition waiting (p : PC) : bool :=
  match p with LockWait _ _ _ _ | LockSleep _ _ _ | JoinWait _ _ | JoinSleep _ => true | _ => false end.
Definition careful (s : St) (ps : list PC) (c : call) : Prop :=
  butex (meta s) < 2 ^ 31 /\
  match c with
  | Lock _ range _ => range = 0
  | Unlock => butex (meta s) <> unlockable_ver (meta s)
  | Cancel _ => Forall (fun p => waiting p = false) ps
  | _ => True
  end.
Inductive careful_step : St * list PC -> St * list PC -> Prop :=
| careful_intro s ps i c s' ps' : careful s ps c -> step_thread s ps i c = Some (s', ps') -> careful_step (s, ps) (s', ps').

(** What a waiting thread relies on. *)
Definition wait_ok (m : Id) (ps : list PC) (p : PC) : Prop :=
  match p with
  | LockCs _ range _ _ => range = 0
  | LockWait v range _ e => range = 0 /\ (has_version m v = true /\ e = contended_ver m \/ e < first_ver m)
  | LockSleep v range _ => range = 0 /\ (has_version m v = true \/ Destroy1 ∈ ps)
  | JoinWait v e => has_version m v = true /\ e = join_butex m \/ e < join_butex m
  | JoinSleep v => has_version m v = true \/ Destroy1 ∈ ps \/ Destroy2 ∈ ps
  | _ => True
  end.
(** A thread that is going to wake a sleeper. *)
Definition token (m : Id) (p : PC) : bool :=
  match p with WakeOne | Destroy1 => true | LockCs v _ _ true => has_version m v | _ => false end.
Definition covered (m : Id) (ps : list PC) : Prop :=
  butex m = contended_ver m \/ butex m = unlockable_ver m \/ exists p, p ∈ ps /\ token m p = true.

Record winv (s : St) (ps : list PC) : Prop := {
  w_join : join_butex (meta s) <= first_ver (meta s) /\ (alive (meta s) = true -> join_butex (meta s) = first_ver (meta s));
  w_wait : forall p, p ∈ ps -> wait_ok (meta s) ps p;
  w_cover : forall v range loc, LockSleep v range loc ∈ ps -> covered (meta s) ps }.

Lemma elem_insert (q p p' : PC) (ps : list PC) (i : nat) : ps !! i = Some p -> q ∈ <[i := p']> ps -> q = p' \/ q ∈ ps.
Proof.
  intros Hi Hq. apply list_elem_of_lookup in Hq as [j Hj]. destruct (decide (j = i)) as [->|Hne].
  - rewrite list_lookup_insert_eq in Hj by (by eapply lookup_lt_Some). left. congruence.
  - rewrite list_lookup_insert_ne in Hj by done. right. by apply list_elem_of_lookup_2 in Hj.
Qed.
Lemma elem_new (p p' : PC) (ps : list PC) (i : nat) : ps !! i = Some p -> p' ∈ <[i := p']> ps.
Proof. intros Hi. apply (list_elem_of_lookup_2 _ i), list_lookup_insert_eq. by eapply lookup_lt_Some. Qed.
Lemma elem_keep (q p p' : PC) (ps : list PC) (i : nat) : ps !! i = Some p -> q ∈ ps -> q <> p -> q ∈ <[i := p']> ps.
Proof.
  intros Hi Hq Hne. apply list_elem_of_lookup in Hq as [j Hj]. apply (list_elem_of_lookup_2 _ j). rewrite list_lookup_insert_ne; [done|]. intros ->. congruence.
Qed.

(** A thread that is not about to wake others changes, and the range of the slot
    stays. *)
Lemma winv_same s ps i p s' p' : winv s ps -> ps !! i = Some p ->
  let m := meta s in let m' := meta s' in
  first_ver m' = first_ver m -> locked_ver m' = locked_ver m -> join_butex m' = join_butex m ->
  p <> Destroy1 -> p <> Destroy2 -> wait_ok m (<[i := p']> ps) p' ->
  (covered m ps -> (exists v range loc, LockSleep v range loc ∈ <[i := p']> ps) -> covered m' (<[i := p']> ps)) ->
  (forall v range loc, p' = LockSleep v range loc -> covered m ps) -> winv s' (<[i := p']> ps).
Proof.
  intros [WJ WW WC] Hi m m' Ef El Ej N1 N2 Hp' HC Hs.
  assert (forall v, has_version m' v = has_version m v) as Hv by (intros v; unfold has_version; by rewrite Ef, El).
  assert (contended_ver m' = contended_ver m) as Ec by (unfold contended_ver; by rewrite El).
  assert (alive m' = alive m) as Ea by (unfold alive; by rewrite Ef, El).
  split; fold m'; [by rewrite Ej, Ef, Ea| |].
  - intros q Hq. assert (wait_ok m (<[i := p']> ps) q) as W.
    { destruct (elem_insert _ _ _ _ _ Hi Hq) as [->|Hq0]; [done|]. specialize (WW q Hq0). fold m in WW.
      destruct q; cbn in *; try done; [destruct WW as [? [?|?]]; split; eauto using elem_keep|destruct WW as [?|[?|?]]; eauto using elem_keep]. }
    destruct q; cbn in *; rewrite ?Hv, ?Ec, ?Ef, ?Ej; done.
  - intros v range loc Hq. destruct (elem_insert _ _ _ _ _ Hi Hq) as [E|Hq0]; apply HC; eauto.
Qed.

Lemma covered_keep m ps i p m' p' : ps !! i = Some p -> covered m ps -> first_ver m' = first_ver m -> locked_ver m' = locked_ver m ->
  (butex m' = butex m \/ butex m <> contended_ver m /\ butex m <> unlockable_ver m) -> token m p = false -> covered m' (<[i := p']> ps).
Proof.
  intros Hi HC Ef El Eb Ht. unfold covered, contended_ver, unlockable_ver in *. rewrite El.
  destruct HC as [HC|[HC|(q & Hq & Hqt)]]; [destruct Eb as [->|[? ?]]; tauto..|]. right. right. exists q. split; [|by rewrite <- Hqt; destruct q; cbn; unfold has_version; rewrite ?Ef, ?El].
  eapply elem_keep; eauto. intros ->. congruence.
Qed.

(** Most steps of a single thread leave the range and the lock word alone. *)
Lemma winv_plain s ps i p p' : winv s ps -> ps !! i = Some p -> p <> Destroy1 -> p <> Destroy2 -> token (meta s) p = false ->
  wait_ok (meta s) (<[i := p']> ps) p' -> (forall v range loc, p' = LockSleep v range loc -> covered (meta s) ps) -> winv s (<[i := p']> ps).
Proof. intros HW Hi N1 N2 Ht Hp' Hs. eapply winv_same; eauto. intros HC _. eapply covered_keep; eauto. Qed.

Lemma lock_winv s ps i v loc ever : inv s ps -> winv s ps -> ps !! i = Some (LockCs v 0 loc ever) ->
  winv (fst (lock_step s v 0 loc ever)) (<[i := snd (lock_step s v 0 loc ever)]> ps).
Proof.
  intros HI HW Hi. pose proof (i_state _ _ HI) as HS. unfold lock_step, lock_and_reset_range. destruct (has_version (meta s) v) eqn:Hv.
  2: { cbn [fst snd]. eapply winv_plain; eauto; try done. cbn. rewrite Hv. by destruct ever. }
  pose proof (has_version_alive _ _ Hv) as Ha. destruct (alive_versions s HS Ha) as (Ec & Eu & Ee & H1 & H2 & H3).
  destruct (Z.eqb_spec (butex (meta s)) (first_ver (meta s))) as [Ef|Ef].
  - cbn [Z.ltb Z.compare orb ID_MAX_RANGE Z.eqb fst snd]. eapply winv_same; eauto; try done. cbn [set_meta meta]. intros HC _. destruct ever; [by left|].
    eapply covered_keep; eauto; try done. right. split; lia.
  - destruct (Z.eqb_spec (butex (meta s)) (unlockable_ver (meta s))) as [Ek|Ek]; cbn [negb fst snd].
    + eapply winv_same; eauto; try done. intros _ _. right. by left.
    + eapply winv_same; eauto; try done; [cbn; split; [done|]; left; done|]. intros _ _. by left.
Qed.

(** A slot whose versions all become old. *)
Lemma winv_closed s ps i p s' p' : inv s ps -> winv s ps -> ps !! i = Some p -> alive (meta s) = true ->
  let m' := meta s' in locked_ver (meta s) + 1 < first_ver m' -> alive m' = false -> join_butex m' <= first_ver m' ->
  p <> Destroy1 -> p <> Destroy2 -> waiting p' = false -> wait_ok m' (<[i := p']> ps) p' ->
  (p' = Destroy1 /\ join_butex (meta s) < join_butex m') \/ Forall (fun p => waiting p = false) ps -> winv s' (<[i := p']> ps).
Proof.
  intros HI [WJ WW WC] Hi Ha m' El Ha' Hj N1 N2 Hp' Hw' Hk. destruct (alive_versions s (i_state _ _ HI) Ha) as (Ec & _ & _ & H1 & _). specialize (proj2 WJ Ha) as Ej.
  split; fold m'; [by rewrite Ha'| |].
  - intros q Hq. destruct (elem_insert _ _ _ _ _ Hi Hq) as [->|Hq0]; [done|]. destruct Hk as [[-> Hjj]|Hk].
    + pose proof (elem_new p Destroy1 ps i Hi) as HD. specialize (WW q Hq0). destruct q; cbn in *; try tauto.
      * destruct WW as [? WW]. split; [done|]. right. destruct WW as [[? ->]|?]; lia.
      * right. destruct WW as [[? ->]|?]; lia.
    + rewrite Forall_forall in Hk. specialize (Hk q Hq0). specialize (WW q Hq0). by destruct q.
  - intros v range loc Hq. destruct (elem_insert _ _ _ _ _ Hi Hq) as [<-|Hq0]; [done|]. destruct Hk as [[-> _]|Hk].
    + right. right. exists Destroy1. split; [by eapply elem_new|done].
    + rewrite Forall_forall in Hk. by specialize (Hk _ Hq0).
Qed.

Lemma create_winv s ps i rc dat oe oe2 range s' p' : inv s ps -> winv s ps -> ps !! i = Some (Idle rc) -> butex (meta s) < 2 ^ 31 ->
  local_step s (Idle rc) (Create dat oe oe2 range) = Some (s', p') -> winv s' (<[i := p']> ps).
Proof.
  intros HI [WJ WW WC] Hi Hfit Hst. pose proof (create_inv _ _ _ _ _ _ _ _ _ _ HI Hi Hst) as HI'. pose proof (i_state _ _ HI) as HS. revert Hst. cbn. destruct (pooled s) eqn:Hpl; [|done]. cbn [andb].
  destruct (Z.leb_spec 1 range) as [Hr1|]; [|done]. destruct (Z.leb_spec range ID_MAX_RANGE) as [Hr2|]; [|done]. cbn [andb].
  assert (alive (meta s) = false) as Ha by (destruct (alive (meta s)) eqn:Ha; [|done]; pose proof (os_alive _ HS Ha) as (_ & _ & ? & _); congruence).
  pose proof (os_dead _ HS Ha) as (El & Eb & Ec). unfold id_create_ranged_impl. destruct (SQ.empty (pending_q (meta s))); cbn [negb]; intros [= <- <-].
  2: { destruct HI' as [_ _ _ HP]. rewrite Forall_forall in HP. exfalso. exact (HP Fatal (elem_new _ _ _ _ Hi)). }
  set (b := if _ || _ then 1 else butex (meta s)). assert (butex (meta s) <= b) as Hb.
  { pose proof (os_butex _ HS) as Hu. unfold is_u32, ID_MAX_RANGE in *. subst b. destruct (Z.eqb_spec (butex (meta s)) 0); cbn [orb]; [lia|].
    rewrite u32_small by (unfold is_u32; lia). destruct (Z.ltb_spec (butex (meta s) + 1024 + 2) (butex (meta s))); lia. }
  clearbody b. assert (forall v, has_version (meta s) v = false) as Hnv by (intros v; unfold has_version; rewrite El; destruct (Z.leb_spec (first_ver (meta s)) v), (Z.ltb_spec v (first_ver (meta s))); done || lia).
  assert ((Destroy1 ∉ ps) /\ (Destroy2 ∉ ps)) as [N1 N2].
  { pose proof (i_close _ _ HI) as Hc. unfold closers in Hc. rewrite Hpl, orb_true_r in Hc. split; intros Hin; pose proof (sum_list_with_in _ closing ps Hin) as Hle; cbn in Hle; lia. }
  split; cbn [meta join_butex first_ver]; [done| |].
  - intros q Hq. destruct (elem_insert _ _ _ _ _ Hi Hq) as [->|Hq0]; [done|]. specialize (WW q Hq0). destruct q; cbn in *; try done; rewrite ?Hnv in WW.
    + destruct WW as [? [[? _]|?]]; [done|]. split; [done|]. right. lia.
    + destruct WW as [_ [?|?]]; done.
    + destruct WW as [[? _]|?]; [done|]. right. lia.
    + destruct WW as [?|[?|?]]; done.
  - intros v r l Hq. destruct (elem_insert _ _ _ _ _ Hi Hq) as [?|Hq0]; [done|]. specialize (WW _ Hq0). cbn in WW. rewrite Hnv in WW. destruct WW as [_ [?|?]]; done.
Qed.

Lemma end_ver_fits s : ok_state s -> alive (meta s) = true -> butex (meta s) < 2 ^ 31 -> end_ver (meta s) = locked_ver (meta s) + 3.
Proof.
  intros HS Ha Hf. destruct (alive_versions s HS Ha) as (_ & _ & -> & H1 & H2 & H3). pose proof (os_alive _ HS Ha) as (_ & Hb & _). unfold ID_MAX_RANGE in *.
  apply u32_small. unfold is_u32. rewrite !elem_of_cons in Hb. destruct Hb as [?|[?|[?|[?|Hb]]]]; try lia. by apply elem_of_nil in Hb.
Qed.

Lemma unlock_winv s ps i v s' p' : inv s ps -> winv s ps -> ps !! i = Some (Own v) -> butex (meta s) <> unlockable_ver (meta s) ->
  local_step s (Own v) Unlock = Some (s', p') -> winv s' (<[i := p']> ps).
Proof.
  intros HI HW Hi Hu. pose proof (i_state _ _ HI) as HS. destruct (own_held _ _ _ _ HI Hi) as (Hv & Ha & Hne). destruct (alive_versions s HS Ha) as (Ec & Eu & _ & H1 & _).
  cbn. unfold bthread_id_unlock. rewrite Hv. cbn [negb]. destruct (Z.eqb_spec (butex (meta s)) (first_ver (meta s))) as [Ef|_]; [done|].
  destruct (SQ.pop N (pending_q (meta s))) as [[front q]|]; intros [= <- <-].
  - eapply winv_same; eauto; try done. intros HC _. eapply covered_keep; eauto.
  - destruct (Z.eqb_spec (butex (meta s)) (contended_ver (meta s))) as [Ek|Ek].
    + eapply winv_same; eauto; try done. intros _ _. right. right. exists WakeOne. split; [by eapply elem_new|done].
    + eapply winv_same; eauto; try done. intros HC _. eapply covered_keep; eauto.
Qed.

Lemma local_winv s ps i p c s' p' : inv s ps -> winv s ps -> careful s ps c -> ps !! i = Some p -> local_step s p c = Some (s', p') ->
  winv s' (<[i := p']> ps).
Proof.
  intros HI HW [Hfit Hc] Hi. pose proof (i_state _ _ HI) as HS. pose proof (w_wait _ _ HW p ltac:(by eapply list_elem_of_lookup_2)) as Hw.
  destruct p; try done; destruct c; try done.
  - by eapply create_winv.
  - cbn. destruct (_ && _); [|done]. intros [= <- <-]. by eapply winv_plain.
  - intros [= <- <-]. unfold bthread_id_trylock. destruct (has_version (meta s) v) eqn:Hv; cbn [negb fst snd]; [|destruct s; by eapply winv_plain].
    destruct (Z.eqb_spec (butex (meta s)) (first_ver (meta s))) as [Ef|Ef]; cbn [negb fst snd]; [|destruct s; by eapply winv_plain].
    pose proof (has_version_alive _ _ Hv) as Ha. destruct (alive_versions s HS Ha) as (Ec & Eu & _ & H1 & _).
    eapply winv_same; eauto; try done. intros HC _. eapply covered_keep; eauto. right. lia.
  - cbn. unfold bthread_id_error2. destruct (has_version (meta s) v) eqn:Hv; cbn [negb]; [|intros [= <- <-]; by eapply winv_plain].
    pose proof (has_version_alive _ _ Hv) as Ha. destruct (alive_versions s HS Ha) as (Ec & Eu & _ & H1 & _).
    destruct (Z.eqb_spec (butex (meta s)) (first_ver (meta s))) as [Ef|Ef]; intros [= <- <-]; eapply winv_same; eauto; try done; intros HC _; eapply covered_keep; eauto; right; lia.
  - intros [= <- <-]. by eapply winv_plain.
  - intros [= <- <-]. unfold bthread_id_cancel. destruct (has_version (meta s) v) eqn:Hv; cbn [negb fst snd]; [|destruct s; by eapply winv_plain].
    destruct (Z.eqb_spec (butex (meta s)) (first_ver (meta s))) as [Ef|Ef]; cbn [negb fst snd]; [|destruct s; by eapply winv_plain].
    pose proof (has_version_alive _ _ Hv) as Ha. destruct (alive_versions s HS Ha) as (_ & _ & _ & H1 & _). pose proof (end_ver_fits s HS Ha Hfit) as Ee. pose proof (w_join _ _ HW) as [WJ _].
    eapply winv_closed; eauto; cbn [meta set_meta first_ver join_butex locked_ver]; try done; try lia. by unfold alive; apply Z.ltb_irrefl.
  - cbn in Hw. subst range. intros [= E]. pose proof (lock_winv s ps i v loc ever_contended HI HW Hi) as L. by rewrite E in L.
  - intros [= <- <-]. destruct Hw as [-> Hw]. destruct (Z.eqb_spec (butex (meta s)) expected_ver) as [Eb|Eb]; [|by eapply winv_plain].
    assert (has_version (meta s) v = true /\ butex (meta s) = contended_ver (meta s)) as [Hv Eb'].
    { destruct Hw as [[? ->]|Hlt]; [done|]. exfalso. destruct (alive (meta s)) eqn:Ha.
      - destruct (alive_versions s HS Ha) as (Ec & Eu & _ & H1 & _). destruct (decide (butex (meta s) = first_ver (meta s))); [lia|]. destruct (butex_cases s HS Ha) as [?|[?|?]]; [done|lia..].
      - pose proof (os_dead _ HS Ha) as (_ & ? & _). lia. }
    eapply winv_plain; eauto; try done; [cbn; auto|]. intros. by left.
  - intros [= <- <-]. destruct Hw as [-> Hw]. by eapply winv_plain.
  - cbn. unfold bthread_id_error2. destruct (has_version (meta s) v0) eqn:Hv; cbn [negb]; [|intros [= <- <-]; by eapply winv_plain].
    destruct (own_held _ _ _ _ HI Hi) as (_ & Ha & Hne). destruct (Z.eqb_spec (butex (meta s)) (first_ver (meta s))) as [Ef|Ef]; [done|]; intros [= <- <-].
    eapply winv_same; eauto; try done. intros HC _. eapply covered_keep; eauto.
  - by eapply unlock_winv.
  - cbn. destruct (own_held _ _ _ _ HI Hi) as (Hv & Ha & Hne). unfold bthread_id_about_to_destroy. rewrite Hv. cbn [negb].
    destruct (Z.eqb_spec (butex (meta s)) (first_ver (meta s))) as [Ef|_]; [done|]. intros [= <- <-].
    eapply winv_same; eauto; try done; try (by destruct (_ =? _)). intros _ _. right. left. done.
  - cbn. destruct (own_held _ _ _ _ HI Hi) as (Hv & Ha & Hne). unfold bthread_id_unlock_and_destroy. rewrite Hv. cbn [negb].
    destruct (Z.eqb_spec (butex (meta s)) (first_ver (meta s))) as [Ef|_]; [done|]. intros [= <- <-].
    destruct (alive_versions s HS Ha) as (_ & _ & _ & H1 & _). pose proof (end_ver_fits s HS Ha Hfit) as Ee. pose proof (w_join _ _ HW) as [WJ _].
    eapply winv_closed; eauto; cbn [meta set_meta first_ver join_butex locked_ver]; try done; try lia; [by unfold alive; apply Z.ltb_irrefl|]. left. split; [done|lia].
  - intros [= <- <-]. eapply winv_same; eauto; try done. intros HC _. eapply covered_keep; eauto.
  - intros [= <- <-]. eapply winv_plain; eauto; try done; [|by destruct (has_version _ _)]. destruct (has_version (meta s) v) eqn:Hv; [|done]. cbn. auto.
  - intros [= <- <-]. eapply winv_plain; eauto; try done; [|by destruct (_ =? _)]. destruct (Z.eqb_spec (join_butex (meta s)) expected_ver) as [Ej|Ej]; [|done].
    cbn in *. destruct Hw as [[? _]|?]; [by left|lia].
  - intros [= <- <-]. by eapply winv_plain.
Qed.

Lemma elem_map (f : PC -> PC) q ps : q ∈ map f ps -> exists p, q = f p /\ p ∈ ps.
Proof. intros H. apply list_elem_of_In, in_map_iff in H as (p & <- & H). exists p. split; [done|]. by apply list_elem_of_In. Qed.
Lemma elem_map_2 (f : PC -> PC) p ps : p ∈ ps -> f p ∈ map f ps.
Proof. intros H. apply list_elem_of_In, in_map. by apply list_elem_of_In. Qed.
Lemma nobody_sleeps ps v range loc : existsb is_sleeping ps = false -> LockSleep v range loc ∉ ps.
Proof. intros H Hin. apply not_true_iff_false in H. apply H, existsb_exists. eexists. split; [by apply list_elem_of_In|done]. Qed.
Lemma wake_lock_sleeper v range loc ps : LockSleep v range loc ∉ map wake_lock ps.
Proof. intros H. apply elem_map in H as (p & E & _). by destruct p. Qed.
Lemma wake_join_sleeper v ps : JoinSleep v ∉ map wake_join ps.
Proof. intros H. apply elem_map in H as (p & E & _). by destruct p. Qed.

Lemma winv_wake_lock s ps : winv s ps -> winv s (map wake_lock ps).
Proof.
  intros [WJ WW WC]. split; [done| |intros v r l H; by apply wake_lock_sleeper in H].
  intros q Hq. apply elem_map in Hq as (p & -> & Hp). specialize (WW p Hp). pose proof (elem_map_2 wake_lock Destroy1 ps) as H1. pose proof (elem_map_2 wake_lock Destroy2 ps) as H2.
  destruct p; cbn in *; try done; tauto.
Qed.

Lemma step_winv s ps i c s' ps' : inv s ps -> winv s ps -> careful s ps c -> step_thread s ps i c = Some (s', ps') -> winv s' ps'.
Proof.
  intros HI HW Hc (p & Hi & K)%step_cases.
  assert (forall f : PC -> PC, map f ps !! i = Some (f p)) as Hm by (intros f; change (map f ps) with (f <$> ps); by rewrite list_lookup_fmap, Hi).
  destruct K as [p s' p' E|j v range loc E|E|v| |].
  - by eapply local_winv.
  - pose proof (w_wait _ _ HW _ ltac:(by eapply list_elem_of_lookup_2)) as [-> Hv].
    assert (winv s (<[j := LockCs v 0 loc true]> ps)) as HW1 by (by eapply winv_plain). assert (j <> i) by congruence.
    assert (<[j := LockCs v 0 loc true]> ps !! i = Some WakeOne) as Hi1 by (by rewrite list_lookup_insert_ne).
    eapply winv_same; eauto; try done. intros _ _. right. right. destruct Hv as [Hv|Hd].
    + exists (LockCs v 0 loc true). split; [|done]. eapply elem_keep; [done| |done]. by eapply elem_new.
    + exists Destroy1. split; [|done]. eapply elem_keep; [done| |done]. by eapply elem_keep.
  - eapply winv_same; eauto; try done. intros _ (v & r & l & Hin). exfalso. destruct (elem_insert _ _ _ _ _ Hi Hin) as [?|Hin']; [done|]. by eapply nobody_sleeps in Hin'.
  - eapply winv_plain; [by apply winv_wake_lock|apply Hm|done..].
  - destruct (winv_wake_lock _ _ HW) as [WJ WW WC]. specialize (Hm wake_lock). split; [done| |].
    + intros q Hq. pose proof (elem_new _ Destroy2 _ _ Hm) as HD. destruct (elem_insert _ _ _ _ _ Hm Hq) as [->|Hq0]; [done|]. specialize (WW q Hq0).
      destruct q; cbn in *; try done; try tauto. by apply wake_lock_sleeper in Hq0.
    + intros v r l Hq. destruct (elem_insert _ _ _ _ _ Hm Hq) as [?|Hq0]; [done|]. by apply wake_lock_sleeper in Hq0.
  - destruct HW as [WJ WW WC]. specialize (Hm wake_join). split; [done| |].
    + intros q Hq. destruct (elem_insert _ _ _ _ _ Hm Hq) as [->|Hq0]; [done|]. pose proof Hq0 as Hq1. apply elem_map in Hq1 as (p & -> & Hp). specialize (WW p Hp).
      destruct p; cbn in *; try done. destruct WW as [-> [?|HD]]; [tauto|]. split; [done|]. right. eapply elem_keep; [exact Hm| |done]. by apply (elem_map_2 wake_join Destroy1).
    + intros v r l Hq. destruct (elem_insert _ _ _ _ _ Hm Hq) as [?|Hq0]; [done|]. apply elem_map in Hq0 as (p & Ep & Hp). destruct p; try done. injection Ep as -> -> ->. specialize (WC _ _ _ Hp).
      destruct WC as [?|[?|(q & Hq1 & Ht)]]; [by left|right; by left|]. right. right. exists (wake_join q). split; [|by destruct q].
      eapply elem_keep; [exact Hm|by apply elem_map_2|]. intros Eq. by destruct q.
Qed.

Definition careful_reachable (n : nat) : St * list PC -> Prop := steps careful_step (init, replicate n (Idle 0)).

Lemma careful_reachable_inv n s ps : careful_reachable n (s, ps) -> inv s ps /\ winv s ps.
Proof.
  intros H. apply (steps_invariant careful_step (fun x => inv (fst x) (snd x) /\ winv (fst x) (snd x)) _ _) in H; [done| |].
  - intros a b [HI HW] Hs. destruct Hs as [s1 ps1 i c s2 ps2 Hc Hs]. split; [by eapply id_step_inv|by eapply step_winv].
  - split; [apply init_inv|]. assert (forall p, p ∈ replicate n (Idle 0) -> p = Idle 0) as Hall by (intros p Hp; by apply elem_of_replicate in Hp as [-> _]).
    split; cbn; [done| |]; [intros p Hp|intros v r l Hp]; by apply Hall in Hp; subst.
Qed.

Lemma owner_exists ps : sum_list_with owning ps = 1%nat -> exists p, p ∈ ps /\ owning p = 1%nat.
Proof.
  induction ps as [|p ps IH]; cbn; [done|]. intros H. destruct (owning p) as [|[|k]] eqn:E; [|by exists p; split; [left|]|lia].
  destruct (IH H) as (q & Hq & Eq). exists q. split; [by right|done].
Qed.
Lemma id_halves v slot : 0 < v < 2 ^ 32 -> is_u32 slot ->
  make_id v slot <> 0 /\ get_version (make_id v slot) = v /\ get_slot (make_id v slot) = slot.
Proof.
  intros Hv Hs. unfold is_u32 in *. assert (make_id v slot = slot * 2 ^ 32 + v) as E.
  { unfold make_id, u64. rewrite Z.mod_small by (rewrite Z.shiftl_mul_pow2; lia). apply lor_word; [lia|]. unfold is_u32. lia. }
  rewrite E. unfold get_version, get_slot. split_and!; [lia| |].
  - rewrite land_low, word_low by (unfold is_u32; lia). apply u32_small. unfold is_u32. lia.
  - rewrite Z.shiftr_div_pow2 by lia. rewrite Z.add_comm, Z.div_add, Z.div_small by lia. lia.
Qed.

Definition carefulb (s : St) (ps : list PC) (c : call) : bool :=
  (butex (meta s) <? 2 ^ 31) &&
  match c with
  | Lock _ range _ => range =? 0
  | Unlock => negb (butex (meta s) =? unlockable_ver (meta s))
  | Cancel _ => forallb (fun p => negb (waiting p)) ps
  | _ => true
  end.
Lemma carefulb_spec s ps c : carefulb s ps c = true -> careful s ps c.
Proof.
  unfold carefulb, careful. rewrite andb_true_iff, Z.ltb_lt. intros [? H]. split; [done|]. destruct c; try done.
  - by apply Z.eqb_eq.
  - rewrite forallb_forall in H. apply Forall_forall. intros p Hp. apply list_elem_of_In in Hp. by apply negb_true_iff, H.
  - by apply negb_true_iff, Z.eqb_neq in H.
Qed.
(** Runs in which every step passes a test. *)
Fixpoint run_if (ok : St -> list PC -> call -> bool) (sched : list (nat * call)) (x : St * list PC) : option (St * list PC) :=
  match sched with
  | [] => Some x
  | (i, c) :: rest => if ok (fst x) (snd x) c then y ← step_thread (fst x) (snd x) i c; run_if ok rest y else None
  end.
Lemma run_if_steps ok (R : St * list PC -> St * list PC -> Prop) sched x y :
  (forall s ps i c s' ps', ok s ps c = true -> step_thread s ps i c = Some (s', ps') -> R (s, ps) (s', ps')) ->
  run_if ok sched x = Some y -> steps R x y.
Proof.
  intros HR. revert x. induction sched as [|[i c] sched IH]; intros [s ps] H; [injection H as <-; constructor|]. cbn in H. destruct (ok s ps c) eqn:Ec; [|done].
  destruct (step_thread s ps i c) as [[s' ps']|] eqn:E; [|done]. cbn in H. eapply steps_app; [eapply steps_trans; [constructor|]|by apply IH]. eauto.
Qed.
Lemma run_careful_steps sched x y : run_if carefulb sched x = Some y -> steps careful_step x y.
Proof. apply run_if_steps. intros. econstructor; [by apply carefulb_spec|done]. Qed.
Lemma id_run_steps sched x y : run sched x = Some y -> steps step x y.
Proof.
  intros H. apply (run_if_steps (fun _ _ _ => true) step sched); [intros; by econstructor|]. rewrite <- H. clear H. revert x.
  induction sched as [|[i c] sched IH]; intros x; [done|]. cbn. destruct (step_thread _ _ _ _) as [y0|]; [apply IH|done].
Qed.

(** ** Theorems *)

Definition threads (n : nat) : list PC := replicate n (Idle 0).
(** Thread 0 creates and locks the identifier, thread 1 falls asleep, thread 2
    issues two errors and joins. *)
Definition demo : list (nat * call) :=
  [(0, Create 7 None None 1); (0, Lock 1 0 0); (0, Go); (1, Lock 1 0 0); (1, Go); (1, Go);
   (2, Error 1 100 [] 0); (2, Error 1 101 [] 0); (2, Join 1); (2, Go); (2, Go)]%nat.

(** C15: The identifier is a lock: in any interleaving no check of the code
    fails, at most one thread owns the identifier (between [lock] and [unlock],
    or in its error handler), an owner's version is valid and the lock word says
    that it is locked, and when the word says so some thread is the owner. *)
Theorem bthread_id_safe n s ps : reachable n (s, ps) ->
  Fatal ∉ ps /\
  (forall i j p q, ps !! i = Some p -> ps !! j = Some q -> owning p = 1%nat -> owning q = 1%nat -> i = j) /\
  (forall v, Own v ∈ ps -> has_version (meta s) v = true /\ butex (meta s) <> first_ver (meta s)) /\
  (alive (meta s) = true -> butex (meta s) <> first_ver (meta s) -> exists p, p ∈ ps /\ owning p = 1%nat).
Proof.
  intros HI%id_reachable_inv. pose proof (i_pcs _ _ HI) as HP. rewrite Forall_forall in HP. split_and!.
  - intros HF. by apply (HP Fatal).
  - intros i j p q Hi Hj Hp Hq. destruct (decide (i = j)) as [?|Hne]; [done|]. pose proof (sum_two owning ps i j p q Hi Hj Hne) as Hs.
    rewrite (i_own _ _ HI) in Hs. unfold owners in Hs. destruct (held _); lia.
  - intros v Hin. apply list_elem_of_lookup in Hin as [i Hi]. by destruct (own_held _ _ _ _ HI Hi) as (? & _ & ?).
  - intros Ha Hb. pose proof (i_own _ _ HI) as Ho. rewrite owners_held in Ho by done. by apply owner_exists.
Qed.
Lemma bthread_id_safe_witness : exists s ps, run demo (init, threads 3) = Some (s, ps) /\ has_version (meta s) 1 = true.
Proof.
  eexists _, _. split; [vm_compute; reflexivity|].
  apply (bthread_id_safe 3 _ [Own 1; LockSleep 1 0 0; JoinSleep 1]); [apply (id_run_steps demo); vm_compute; reflexivity|by left].
Defined.

(** Errors are handled in the order in which they are accepted: those not
    yet handled are exactly the queue, and when the identifier is unlocked every
    error has been handled. *)
Theorem bthread_id_errors_fifo n s ps : reachable n (s, ps) -> alive (meta s) = true ->
  accepted s = handled s ++ SQ.contents (pending_q (meta s)) /\
  (butex (meta s) = first_ver (meta s) -> handled s = accepted s).
Proof.
  intros HI%id_reachable_inv Ha. pose proof (os_alive _ (i_state _ _ HI) Ha) as (_ & _ & _ & He & Hz & _). split; [done|].
  intros Hb. by rewrite He, Hz, app_nil_r.
Qed.
Lemma bthread_id_errors_fifo_witness : exists s ps, run (demo ++ [(0%nat, Unlock)]) (init, threads 3) = Some (s, ps) /\
  handled s = [mkPendingError 1 100 [] 0] /\ accepted s = handled s ++ SQ.contents (pending_q (meta s)).
Proof.
  eexists _, _. split; [vm_compute; reflexivity|]. split; [vm_compute; reflexivity|].
  eapply (bthread_id_errors_fifo 3); [apply (id_run_steps (demo ++ [(0%nat, Unlock)])); vm_compute; reflexivity|vm_compute; reflexivity].
Defined.

(** The versions of a slot that is in use are ordered 32-bit numbers, the
    guard of [create] and the limit on ranges keep them from wrapping around, and
    an identifier made of one of them is not zero and gives back its slot and its
    version. *)
Theorem bthread_id_versions_bounded n s ps : reachable n (s, ps) -> alive (meta s) = true ->
  (0 < first_ver (meta s) < locked_ver (meta s) /\ locked_ver (meta s) < contended_ver (meta s) < unlockable_ver (meta s) /\
   unlockable_ver (meta s) < 2 ^ 32 /\ locked_ver (meta s) - first_ver (meta s) <= ID_MAX_RANGE) /\
  forall v slot, has_version (meta s) v = true -> is_u32 slot ->
    make_id v slot <> 0 /\ get_version (make_id v slot) = v /\ get_slot (make_id v slot) = slot.
Proof.
  intros HI%id_reachable_inv Ha. destruct (alive_versions s (i_state _ _ HI) Ha) as (-> & -> & _ & H1 & H2 & H3). unfold ID_MAX_RANGE in *. split; [lia|].
  intros v slot Hv Hs. apply has_version_spec in Hv. apply id_halves; [unfold is_u32; lia|done].
Qed.
Lemma bthread_id_versions_bounded_witness : exists s ps, run demo (init, threads 3) = Some (s, ps) /\ get_version (make_id 1 5) = 1.
Proof.
  eexists _, _. split; [vm_compute; reflexivity|].
  eapply (bthread_id_versions_bounded 3); [apply (id_run_steps demo); vm_compute; reflexivity|vm_compute; reflexivity|vm_compute; reflexivity|unfold is_u32; lia].
Defined.

Definition resting (p : PC) : bool := match p with Idle _ | Own _ | LockSleep _ _ _ | JoinSleep _ => true | _ => false end.

(** C16: No wakeup is lost in a program that uses the identifier with care
    ([careful]): when every thread is outside of the functions or asleep, a
    thread that sleeps in [lock] sleeps on a valid identifier that some thread
    owns, and a thread that sleeps in [join] waits for a valid identifier. *)
Theorem bthread_id_no_lost_wakeup n s ps : careful_reachable n (s, ps) -> Forall (fun p => resting p = true) ps ->
  (forall v range loc, LockSleep v range loc ∈ ps -> has_version (meta s) v = true /\ exists w, Own w ∈ ps) /\
  (forall v, JoinSleep v ∈ ps -> has_version (meta s) v = true).
Proof.
  intros [HI HW]%careful_reachable_inv Hr. rewrite Forall_forall in Hr. split.
  - intros v range loc Hin. pose proof (w_wait _ _ HW _ Hin) as [_ [Hv|HD]]; [|by specialize (Hr _ HD)]. split; [done|].
    pose proof (has_version_alive _ _ Hv) as Ha. destruct (alive_versions s (i_state _ _ HI) Ha) as (Ec & Eu & _ & H1 & _).
    assert (butex (meta s) <> first_ver (meta s)) as Hb.
    { destruct (w_cover _ _ HW _ _ _ Hin) as [E|[E|(p & Hp & Ht)]]; [lia..|]. specialize (Hr p Hp). by destruct p. }
    destruct (owner_exists ps) as (p & Hp & Eo); [rewrite (i_own _ _ HI); by apply owners_held|]. specialize (Hr p Hp). destruct p; try done. by eexists.
  - intros v Hin. pose proof (w_wait _ _ HW _ Hin) as [Hv|[HD|HD]]; [done|by specialize (Hr _ HD)..].
Qed.
Lemma bthread_id_no_lost_wakeup_witness : exists s, run_if carefulb demo (init, threads 3) = Some (s, [Own 1; LockSleep 1 0 0; JoinSleep 1]) /\
  has_version (meta s) 1 = true.
Proof.
  eexists. split; [vm_compute; reflexivity|].
  eapply (bthread_id_no_lost_wakeup 3 _ [Own 1; LockSleep 1 0 0; JoinSleep 1]); [apply (run_careful_steps demo); vm_compute; reflexivity|by repeat constructor|].
  right. right. by left.
Defined.

(** Resetting the range: the contended version that thread 1 is about to wait
    for becomes the locked version of thread 2, which therefore wakes nobody. *)
Definition reset_sched : list (nat * call) :=
  [(0, Create 0 None None 1); (0, Lock 1 0 0); (0, Go); (1, Lock 1 0 0); (1, Go); (0, Unlock); (0, Go);
   (2, Lock 1 2 0); (2, Go); (1, Go); (2, Unlock)]%nat.
(** Taking back the announcement: of the two sleepers the one that was woken
    gives up, and the lock word no longer says that there is another. *)
Definition about_sched : list (nat * call) :=
  [(0, Create 0 None None 1); (0, Lock 1 0 0); (0, Go); (1, Lock 1 0 0); (1, Go); (1, Go); (2, Lock 1 0 0); (2, Go); (2, Go);
   (0, Unlock); (0, Wake 2); (3, Trylock 1); (3, AboutToDestroy); (2, Go); (3, Unlock)]%nat.

(** Without that care a wakeup is lost.  After [lock_and_reset_range] by
    another thread, or after [about_to_destroy] followed by [unlock] (which the
    documentation allows), a thread sleeps in [lock] although the identifier is
    valid and unlocked and every other thread has returned. *)
Theorem bthread_id_lost_wakeup :
  (exists s, run reset_sched (init, threads 3) = Some (s, [Idle 0; LockSleep 1 0 0; Idle 0]) /\
     has_version (meta s) 1 = true /\ butex (meta s) = first_ver (meta s)) /\
  (exists s, run about_sched (init, threads 4) = Some (s, [Idle 0; LockSleep 1 0 0; Idle EPERM; Idle 0]) /\
     has_version (meta s) 1 = true /\ butex (meta s) = first_ver (meta s)).
Proof. split; eexists; (split; [vm_compute; reflexivity|]); split; vm_compute; reflexivity. Qed.

(** ** Identifiers are not reused *)

Definition old (m : Id) (v : Z) : Prop := v < first_ver m.
Lemma local_versions s ps i p c s' p' v : inv s ps -> ps !! i = Some p -> butex (meta s) < 2 ^ 31 -> local_step s p c = Some (s', p') ->
  (old (meta s) v -> old (meta s') v) /\ (has_version (meta s) v = true -> has_version (meta s') v = true \/ old (meta s') v).
Proof.
  intros HI Hi Hfit Hst. pose proof (i_state _ _ HI) as HS. unfold old.
  assert (forall s1, first_ver (meta s1) = first_ver (meta s) -> locked_ver (meta s) <= locked_ver (meta s1) ->
    (v < first_ver (meta s) -> v < first_ver (meta s1)) /\ (has_version (meta s) v = true -> has_version (meta s1) v = true \/ v < first_ver (meta s1))) as Same.
  { intros s1 E1 E2. rewrite !has_version_spec, E1. split; [done|]. intros ?. left. lia. }
  assert (forall w m', has_version (meta s) w = true -> first_ver m' = end_ver (meta s) ->
    (v < first_ver (meta s) -> v < first_ver m') /\ (has_version (meta s) v = true -> has_version m' v = true \/ v < first_ver m')) as Closed.
  { intros w m' Hw E1. pose proof (has_version_alive _ _ Hw) as Ha. pose proof (end_ver_fits s HS Ha Hfit). destruct (alive_versions s HS Ha) as (_ & _ & _ & H1 & _).
    rewrite !has_version_spec. split; [lia|]. intros ?. right. lia. }
  destruct p; try done; destruct c; try done; cbn in Hst; unfold lock_step, lock_and_reset_range, bthread_id_trylock, bthread_id_error2, bthread_id_cancel,
    bthread_id_unlock, bthread_id_about_to_destroy, bthread_id_unlock_and_destroy in Hst.
  - destruct (pooled s && _) eqn:Hpl; [|done]. apply andb_true_iff in Hpl as [Hpl _]. unfold id_create_ranged_impl in Hst. destruct (negb _); [injection Hst as <- <-; by apply Same|]. injection Hst as <- <-.
    assert (alive (meta s) = false) as Ha by (destruct (alive (meta s)) eqn:Ha; [|done]; pose proof (os_alive _ HS Ha) as (_ & _ & ? & _); congruence).
    pose proof (os_dead _ HS Ha) as (El & Eb & _). pose proof (os_butex _ HS) as Hu. unfold is_u32, ID_MAX_RANGE in *. cbn [meta first_ver]. rewrite has_version_spec. split; [|lia].
    destruct (Z.eqb_spec (butex (meta s)) 0); cbn [orb]; [lia|]. rewrite u32_small by (unfold is_u32; lia). destruct (Z.ltb_spec (butex (meta s) + 1024 + 2) (butex (meta s))); lia.
  - destruct (_ && _); [|done]. injection Hst as <- <-. by apply Same.
  - injection Hst as <- <-. repeat case_match; by apply Same.
  - repeat case_match; simplify_eq; by apply Same.
  - injection Hst as <- <-. by apply Same.
  - injection Hst as <- <-. destruct (has_version (meta s) v0) eqn:Hw; cbn [negb]; [|by apply Same]. destruct (negb _); [by apply Same|]. by apply (Closed v0).
  - destruct (has_version (meta s) v0) eqn:Hw; [|injection Hst as <- <-; by apply Same]. pose proof (has_version_alive _ _ Hw) as Ha. destruct (alive_versions s HS Ha) as (_ & _ & _ & H1 & H2 & H3).
    unfold ID_MAX_RANGE in *. destruct (_ =? first_ver _); [|destruct (negb _); injection Hst as <- <-; by apply Same].
    destruct (Z.ltb_spec range 0); cbn [orb] in Hst; [injection Hst as <- <-; by apply Same|]. destruct (Z.ltb_spec 1024 range); [injection Hst as <- <-; by apply Same|].
    cbn [set_location first_ver locked_ver] in Hst. rewrite !u32_small in Hst by (unfold is_u32; lia). destruct (Z.leb_spec (range + first_ver (meta s)) (locked_ver (meta s)));
      destruct (range =? 0); injection Hst as <- <-; apply Same; cbn; done || lia.
  - injection Hst as <- <-. by apply Same.
  - injection Hst as <- <-. by apply Same.
  - repeat case_match; simplify_eq; by apply Same.
  - repeat case_match; simplify_eq; by apply Same.
  - repeat case_match; simplify_eq; by apply Same.
  - destruct (has_version (meta s) v0) eqn:Hw; cbn [negb] in Hst; [|injection Hst as <- <-; by apply Same]. destruct (_ =? _); injection Hst as <- <-; [by apply Same|]. by apply (Closed v0).
  - injection Hst as <- <-. by apply Same.
  - injection Hst as <- <-. by apply Same.
  - injection Hst as <- <-. by apply Same.
  - injection Hst as <- <-. by apply Same.
Qed.

(** The steps while the versions of the slot have not come near the end of their
    32 bits. *)
Inductive fit_step : St * list PC -> St * list PC -> Prop :=
| fit_intro s ps i c s' ps' : butex (meta s) < 2 ^ 31 -> step_thread s ps i c = Some (s', ps') -> fit_step (s, ps) (s', ps').

Lemma run_fit_steps sched x y : run_if (fun s _ _ => butex (meta s) <? 2 ^ 31) sched x = Some y -> steps fit_step x y.
Proof. apply run_if_steps. intros s ps i c s' ps' H%Z.ltb_lt ?. by econstructor. Qed.

Lemma fit_versions v x y : inv (fst x) (snd x) -> steps fit_step x y -> inv (fst y) (snd y) /\
  (old (meta (fst x)) v -> old (meta (fst y)) v) /\
  (has_version (meta (fst x)) v = true -> has_version (meta (fst y)) v = true \/ old (meta (fst y)) v).
Proof.
  intros HI. induction 1 as [x|x y z _ IH Hs]; [tauto|]. destruct (IH HI) as (HI2 & H1 & H2). destruct Hs as [s ps i c s' ps' Hf Hs]. cbn [fst snd] in *.
  split; [by eapply id_step_inv|]. apply step_cases in Hs as (p & Hi & K). destruct K as [p s' p' E| | | | |]; try tauto.
  destruct (local_versions _ _ _ _ _ _ _ v HI2 Hi Hf E). tauto.
Qed.

(** An identifier that has been destroyed or cancelled never names anything
    again: once a valid version is not valid any more, it stays so in every later
    state of the slot, however often the slot is reused (until the 32-bit
    versions run out). *)
Theorem bthread_id_never_reused n s ps s1 ps1 s2 ps2 v : reachable n (s, ps) -> has_version (meta s) v = true ->
  steps fit_step (s, ps) (s1, ps1) -> has_version (meta s1) v = false ->
  steps fit_step (s1, ps1) (s2, ps2) -> has_version (meta s2) v = false.
Proof.
  intros HI%id_reachable_inv Hv S1 Hn S2. destruct (fit_versions v (s, ps) (s1, ps1) HI S1) as (HI1 & _ & H1). destruct (H1 Hv) as [?|Ho]; [cbn in *; congruence|].
  destruct (fit_versions v (s1, ps1) (s2, ps2) HI1 S2) as (_ & H2 & _). specialize (H2 Ho). unfold old in H2. cbn in H2. apply not_true_iff_false. rewrite has_version_spec. lia.
Qed.
Definition reuse1 : list (nat * call) := [(0, Create 7 None None 1); (0, Trylock 1)]%nat.
Definition reuse2 : list (nat * call) := [(0, UnlockAndDestroy)]%nat.
Definition reuse3 : list (nat * call) := [(0, Go); (0, Go); (0, Go); (0, Create 8 None None 1)]%nat.
Lemma bthread_id_never_reused_witness : exists s, run (reuse1 ++ reuse2 ++ reuse3) (init, threads 1) = Some (s, threads 1) /\
  has_version (meta s) 5 = true /\ has_version (meta s) 1 = false.
Proof.
  eexists. split; [vm_compute; reflexivity|]. split; [vm_compute; reflexivity|].
  eapply (bthread_id_never_reused 1 _ _ _ _ _ _ 1).
  - eapply (id_run_steps reuse1). vm_compute. reflexivity.
  - vm_compute. reflexivity.
  - eapply (run_fit_steps reuse2). vm_compute. reflexivity.
  - vm_compute. reflexivity.
  - eapply (run_fit_steps reuse3). vm_compute. reflexivity.
Defined.

End Bid.
