(* ===== verification/IdList.v ===== *)
(** * Lists of identifiers (src/src-bthread/list_of_abafree_id.h)

    [ListOfABAFreeId] stores identifiers that become invalid on their own: an
    entry that is empty or whose identifier does not exist any more is free.  The
    list is a chain of blocks of 63 entries with a cursor that goes round.  The
    chain is a list of blocks, the head block first, and a pointer to an entry is
    the place of its block in the chain with the index in it.  [exists_] is
    [IdTraits::exists] at the time of the call; the results of
    [new (std::nothrow)] are a list of booleans. *)
From S2P Require Import Prelude.

Module IL.

Create HintDb idlist.

Definition BLOCK_SIZE : nat := 63.
Definition MAX_ENTRIES : Z := 100000.
Definition INIT_GC_SIZE : Z := 4096.
Definition ID_INIT : Z := 0.
Definition ENOMEM : Z := 12.
Definition EAGAIN : Z := 11.

Record IdList := mkIdList {
  blocks : list (list Z);
  _cur_block : nat;
  _cur_index : nat;
  _nblock : Z;
  _next_gc_size : Z }.

Definition empty_block : list Z := replicate BLOCK_SIZE ID_INIT.
Definition new_IdList : IdList := mkIdList [empty_block] 0 0 1 INIT_GC_SIZE.

Definition pos : Type := nat * nat.
Definition cursor (l : IdList) : pos := (_cur_block l, _cur_index l).
Definition entry (l : IdList) (p : pos) : Z := default ID_INIT (blocks l !! fst p ≫= (.!! snd p)).
Definition set_blocks (bs : list (list Z)) (l : IdList) : IdList :=
  mkIdList bs (_cur_block l) (_cur_index l) (_nblock l) (_next_gc_size l).
Definition put (p : pos) (id : Z) (l : IdList) : IdList :=
  set_blocks (alter (<[snd p := id]>) (fst p) (blocks l)) l.

Definition forward_index (l : IdList) : IdList :=
  if (BLOCK_SIZE <=? S (_cur_index l))%nat
  then mkIdList (blocks l) (if (S (_cur_block l) <? length (blocks l))%nat then S (_cur_block l) else 0%nat) 0
                (_nblock l) (_next_gc_size l)
  else mkIdList (blocks l) (_cur_block l) (S (_cur_index l)) (_nblock l) (_next_gc_size l).

Section Exists.
Variable exists_ : Z -> bool.

Definition used (x : Z) : bool := negb (x =? ID_INIT) && exists_ x.

(** The scan of [add] over at most [n] positions: the list with the identifier
    in a free position, or the positions seen. *)
Fixpoint scan (n : nat) (id : Z) (saved_pos : list pos) (l : IdList) : IdList + list pos * IdList :=
  match n with
  | O => inr (saved_pos, l)
  | S n' =>
      let p := cursor l in
      let l' := forward_index l in
      if used (entry l p) then scan n' id (saved_pos ++ [p]) l' else inl (put p id l')
  end.

(** [for_each]: the identifiers given to the callback. *)
Definition for_each_ids (l : IdList) : list Z := List.filter used (concat (blocks l)).

(** The chain built by [gc]: the finished blocks and the current one. *)
Record TempIdBlock := mkTemp { t_done : list (list Z); t_block : list Z; t_index : nat; t_nblock : Z }.

Definition add_to_temp_list (mem : list bool) (id : Z) (t : TempIdBlock) : bool * TempIdBlock * list bool :=
  let blk := <[t_index t := id]> (t_block t) in
  if (S (t_index t) =? BLOCK_SIZE)%nat then
    if hd true mem then (true, mkTemp (t_done t ++ [blk]) empty_block 0 (u32 (t_nblock t + 1)), tl mem)
    else (false, mkTemp (t_done t) blk 0 (u32 (t_nblock t + 1)), tl mem)
  else (true, mkTemp (t_done t) blk (S (t_index t)) (t_nblock t), mem).

Fixpoint copy_ids (mem : list bool) (ids : list Z) (t : TempIdBlock) : option TempIdBlock :=
  match ids with
  | [] => Some t
  | id :: ids' =>
      let x := add_to_temp_list mem id t in
      if fst (fst x) then
        let y := add_to_temp_list (snd x) ID_INIT (snd (fst x)) in
        if fst (fst y) then copy_ids (snd y) ids' (snd (fst y)) else None
      else None
  end.

Definition gc (mem : list bool) (l : IdList) : Z * IdList :=
  if hd true mem then
    match copy_ids (tl mem) (for_each_ids l) (mkTemp [] empty_block 0 1) with
    | None => (ENOMEM, l)
    | Some t => (0, mkIdList (empty_block :: t_done t ++ [t_block t]) (S (length (t_done t))) (t_index t)
                             (u32 (t_nblock t + 1)) (_next_gc_size l))
    end
  else (ENOMEM, l).

Definition raise_gc_size (before_gc_blocks : Z) (l : IdList) : IdList :=
  let next := _next_gc_size l in
  if u32 (before_gc_blocks - _nblock l) * Z.of_nat BLOCK_SIZE <? u32 (next - Z.shiftr next 2) then
    let next := u32 (Z.shiftl next 1) in
    mkIdList (blocks l) (_cur_block l) (_cur_index l) (_nblock l)
             (if MAX_ENTRIES <=? next then MAX_ENTRIES - Z.of_nat BLOCK_SIZE * 2 else next)
  else l.

(** A pointer into a block behind the cursor's block, after a block has been
    inserted there. *)
Definition move_pos (b : nat) (p : pos) : pos := (if (b <? fst p)%nat then S (fst p) else fst p, snd p).

Definition insert_block (l : IdList) : IdList :=
  let b := _cur_block l in
  let i := _cur_index l in
  let cur := default [] (blocks l !! b) in
  let new_block := replicate i ID_INIT ++ drop i cur in
  mkIdList (take b (blocks l) ++ (take i cur ++ replicate (BLOCK_SIZE - i) ID_INIT) :: new_block :: drop (S b) (blocks l))
           b i (u32 (_nblock l + 1)) (_next_gc_size l).

Definition scatter (id : Z) (s1 s2 s3 : pos) (l : IdList) : IdList :=
  let l := put (cursor l) (entry l s2) l in
  let l := put s2 (entry l s1) l in
  let l := put s1 ID_INIT l in
  let l := forward_index (forward_index l) in
  let l := put (cursor l) (entry l s3) l in
  let l := put s3 ID_INIT l in
  let l := forward_index l in
  let l := put (cursor l) id l in
  forward_index l.

Definition add (mem : list bool) (id : Z) (l : IdList) : Z * IdList :=
  match scan 4 id [] l with
  | inl l' => (0, l')
  | inr (saved_pos, l') =>
      if MAX_ENTRIES <? _nblock l' * Z.of_nat BLOCK_SIZE then (EAGAIN, l')
      else if _next_gc_size l' <? _nblock l' * Z.of_nat BLOCK_SIZE then
        let x := gc mem l' in (fst x, raise_gc_size (_nblock l') (snd x))
      else if hd true mem then
        let s := map (move_pos (_cur_block l')) saved_pos in
        (0, scatter id (nth 1 s (0, 0)%nat) (nth 2 s (0, 0)%nat) (nth 3 s (0, 0)%nat) (insert_block l'))
      else (ENOMEM, l')
  end.

Definition get_sizes (l : IdList) (n : nat) : list Z :=
  match n with O => [] | _ => [_nblock l * Z.of_nat BLOCK_SIZE] end.

End Exists.

(** [apply] with a function that may change the state [S] of the program and the
    entry it is called with; whether an identifier exists depends on the state. *)
Section Apply.
Context {S : Type} (exists_at : S -> Z -> bool) (fn : Z -> S -> S * Z).

Fixpoint apply_block (ids : list Z) (s : S) : S * list Z :=
  match ids with
  | [] => (s, [])
  | x :: ids' =>
      let y := if used (exists_at s) x then fn x s else (s, x) in
      let z := apply_block ids' (fst y) in
      (fst z, snd y :: snd z)
  end.
Fixpoint apply_blocks (bs : list (list Z)) (s : S) : S * list (list Z) :=
  match bs with
  | [] => (s, [])
  | b :: bs' =>
      let y := apply_block b s in
      let z := apply_blocks bs' (fst y) in
      (fst z, snd y :: snd z)
  end.
Definition apply (l : IdList) (s : S) : S * IdList :=
  let z := apply_blocks (blocks l) s in (fst z, set_blocks (snd z) l).
End Apply.

(** [IdResetter] (src/src-bthread/id.cpp): the error is issued to the identifier
    and the entry is cleared. *)
Definition IdResetter {S} (error : Z -> S -> S) (id : Z) (s : S) : S * Z := (error id s, ID_INIT).

(** [bthread_id_list_t]: a pointer to the list, made on demand. *)
Definition bthread_id_list_init : option IdList := None.
Definition bthread_id_list_add (exists_ : Z -> bool) (mem : list bool) (id : Z) (impl : option IdList) : Z * option IdList :=
  match impl with
  | Some l => let x := add exists_ mem id l in (fst x, Some (snd x))
  | None => if hd true mem then let x := add exists_ (tl mem) id new_IdList in (fst x, Some (snd x)) else (ENOMEM, None)
  end.
Definition bthread_id_list_swap (impl1 impl2 : option IdList) : option IdList * option IdList := (impl2, impl1).
Definition bthread_id_list_reset2 {S} (exists_at : S -> Z -> bool) (error : Z -> S -> S) (impl : option IdList) (s : S) : S * option IdList :=
  match impl with
  | Some l => let x := apply exists_at (IdResetter error) l s in (fst x, Some (snd x))
  | None => (s, None)
  end.
(** [bthread_id_list_reset2_pthreadsafe] and [_bthreadsafe]: the list is taken
    out under the mutex and reset outside of it. *)
Definition bthread_id_list_reset2_safe {S} (exists_at : S -> Z -> bool) (error : Z -> S -> S) (impl : option IdList) (s : S) : S * option IdList :=
  match impl with
  | None => (s, None)
  | Some _ => let (impl, tmplist) := bthread_id_list_swap impl bthread_id_list_init in
              (fst (bthread_id_list_reset2 exists_at error tmplist s), impl)
  end.

(** ** The chain as one array *)

Definition flat (l : IdList) : list Z := concat (blocks l).
Definition index (p : pos) : nat := (BLOCK_SIZE * fst p + snd p)%nat.

Lemma length_concat_blocks (bs : list (list Z)) : Forall (fun b => length b = BLOCK_SIZE) bs ->
  length (concat bs) = (BLOCK_SIZE * length bs)%nat.
Proof. induction 1 as [|b bs Hb _ IH]; [by rewrite Nat.mul_0_r|]. cbn [concat length]. rewrite length_app, Hb, IH. lia. Qed.

Lemma concat_lookup (bs : list (list Z)) b i : Forall (fun b => length b = BLOCK_SIZE) bs -> (i < BLOCK_SIZE)%nat ->
  concat bs !! (BLOCK_SIZE * b + i)%nat = bs !! b ≫= (.!! i).
Proof.
  intros Hbs Hi. revert b. induction Hbs as [|x bs Hx _ IH]; intros b; [by destruct b|]. cbn [concat]. destruct b as [|b].
  - rewrite Nat.mul_0_r, Nat.add_0_l, lookup_app_l by lia. done.
  - rewrite lookup_app_r, Hx by lia. replace (BLOCK_SIZE * S b + i - BLOCK_SIZE)%nat with (BLOCK_SIZE * b + i)%nat by lia. apply IH.
Qed.

Lemma concat_alter (bs : list (list Z)) b i x : Forall (fun b => length b = BLOCK_SIZE) bs -> (i < BLOCK_SIZE)%nat ->
  (b < length bs)%nat -> concat (alter (<[i := x]>) b bs) = <[(BLOCK_SIZE * b + i)%nat := x]> (concat bs).
Proof.
  intros Hbs Hi. revert b. induction Hbs as [|y bs Hy _ IH]; intros b Hb; [cbn in Hb; lia|]. destruct b as [|b]; cbn [concat alter list_alter].
  - by rewrite Nat.mul_0_r, Nat.add_0_l, insert_app_l by lia.
  - rewrite insert_app_r_alt by lia. rewrite Hy. replace (BLOCK_SIZE * S b + i - BLOCK_SIZE)%nat with (BLOCK_SIZE * b + i)%nat by lia. cbn [length] in Hb. by rewrite <- IH by lia.
Qed.

(** The invariant: whole blocks, a cursor inside, an exact count of blocks and
    a threshold in its range. *)
Record list_inv (l : IdList) : Prop := {
  li_blocks : Forall (fun b => length b = BLOCK_SIZE) (blocks l);
  li_cur : (_cur_block l < length (blocks l))%nat;
  li_index : (_cur_index l < BLOCK_SIZE)%nat;
  li_nblock : _nblock l = zlen (blocks l);
  li_max : _nblock l * Z.of_nat BLOCK_SIZE <= 2 * MAX_ENTRIES + 2 * Z.of_nat BLOCK_SIZE;
  li_gc : INIT_GC_SIZE <= _next_gc_size l < MAX_ENTRIES }.

Definition inside (l : IdList) (p : pos) : Prop := (fst p < length (blocks l))%nat /\ (snd p < BLOCK_SIZE)%nat.

Lemma length_flat l : list_inv l -> length (flat l) = (BLOCK_SIZE * length (blocks l))%nat.
Proof. intros H. apply length_concat_blocks, H. Qed.
Lemma index_inside l p : inside l p -> (index p < BLOCK_SIZE * length (blocks l))%nat.
Proof. intros [H1 H2]. unfold index. nia. Qed.
Lemma entry_flat l p : list_inv l -> inside l p -> flat l !! index p = Some (entry l p).
Proof.
  intros HI Hp. pose proof (index_inside l p Hp). rewrite <- (length_flat l HI) in H. apply lookup_lt_is_Some_2 in H as [x Hx].
  rewrite Hx. unfold entry, flat, index in *. rewrite concat_lookup in Hx; [|apply HI|apply Hp]. by rewrite Hx.
Qed.
Lemma put_flat l p x : list_inv l -> inside l p -> flat (put p x l) = <[index p := x]> (flat l).
Proof. intros HI [Hp Hi]. apply concat_alter; [apply HI|done|done]. Qed.
Lemma put_inv l p x : list_inv l -> list_inv (put p x l).
Proof.
  intros [A B C D E F]. split; cbn; try done; [|by rewrite length_alter|by unfold zlen in *; rewrite length_alter].
  apply Forall_alter; [done|]. intros b _ Hb. by rewrite length_insert.
Qed.
Lemma cursor_inside l : list_inv l -> inside l (cursor l).
Proof. intros H. split; apply H. Qed.
Lemma inside_put l p q x : inside l p -> inside (put q x l) p.
Proof. intros [H1 H2]. split; [cbn; by rewrite length_alter|done]. Qed.

Lemma forward_index_inv l : list_inv l -> list_inv (forward_index l).
Proof.
  intros [A B C D E F]. unfold forward_index. destruct (Nat.leb_spec BLOCK_SIZE (S (_cur_index l))); split; cbn [blocks _cur_block _cur_index _nblock _next_gc_size]; try done.
  - destruct (Nat.ltb_spec (S (_cur_block l)) (length (blocks l))); lia.
  - unfold BLOCK_SIZE. lia.
Qed.
Lemma forward_index_flat l : flat (forward_index l) = flat l.
Proof. unfold forward_index. by destruct (_ <=? _)%nat. Qed.
Lemma forward_index_blocks l : blocks (forward_index l) = blocks l.
Proof. unfold forward_index. by destruct (_ <=? _)%nat. Qed.
Lemma forward_index_nblock l : _nblock (forward_index l) = _nblock l.
Proof. unfold forward_index. by destruct (_ <=? _)%nat. Qed.
Lemma forward_index_gc l : _next_gc_size (forward_index l) = _next_gc_size l.
Proof. unfold forward_index. by destruct (_ <=? _)%nat. Qed.
Lemma forward_index_next l : list_inv l -> index (cursor (forward_index l)) =
  if (S (index (cursor l)) <? length (flat l))%nat then S (index (cursor l)) else 0%nat.
Proof.
  intros HI. rewrite (length_flat l HI). destruct HI as [A B C D E F]. unfold forward_index, cursor, index. cbn [fst snd].
  pose proof (Nat.mul_le_mono_l (S (_cur_block l)) (length (blocks l)) BLOCK_SIZE ltac:(lia)) as Hb.
  destruct (Nat.leb_spec BLOCK_SIZE (S (_cur_index l))); cbn [_cur_block _cur_index fst snd].
  - destruct (Nat.ltb_spec (S (_cur_block l)) (length (blocks l))) as [Hn|Hn].
    + pose proof (Nat.mul_le_mono_l (S (S (_cur_block l))) (length (blocks l)) BLOCK_SIZE ltac:(lia)).
      destruct (Nat.ltb_spec (S (BLOCK_SIZE * _cur_block l + _cur_index l)) (BLOCK_SIZE * length (blocks l))); lia.
    + assert (length (blocks l) = S (_cur_block l)) as -> by lia.
      destruct (Nat.ltb_spec (S (BLOCK_SIZE * _cur_block l + _cur_index l)) (BLOCK_SIZE * S (_cur_block l))); lia.
  - destruct (Nat.ltb_spec (S (BLOCK_SIZE * _cur_block l + _cur_index l)) (BLOCK_SIZE * length (blocks l))); lia.
Qed.

(** ** Overwriting and exchanging entries of an array *)

Lemma insert_replace (F : list Z) p x : F !! p = Some x -> exists R, F ≡ₚ x :: R /\ forall y, <[p := y]> F ≡ₚ y :: R.
Proof.
  intros Hp. exists (take p F ++ drop (S p) F). split.
  - rewrite <- (take_drop_middle _ _ _ Hp) at 1. by rewrite Permutation_middle.
  - intros y. rewrite insert_take_drop by (by eapply lookup_lt_Some). by rewrite Permutation_middle.
Qed.

Lemma insert_exchange (F : list Z) p q x y : p <> q -> F !! p = Some x -> F !! q = Some y ->
  <[p := y]> (<[q := x]> F) ≡ₚ F.
Proof.
  intros Hne Hp Hq. destruct (insert_replace F q y Hq) as (R & E1 & E2).
  destruct (insert_replace (<[q := x]> F) p x) as (R' & E3 & E4); [by rewrite list_lookup_insert_ne|].
  rewrite E4, E1. f_equiv. rewrite E2 in E3. by apply Permutation_cons_inv in E3.
Qed.

Section Used.
Variable exists_ : Z -> bool.
Abbreviation used := (used exists_).
Abbreviation usedl := (List.filter used).

#[local] Instance usedl_proper : Proper (Permutation ==> Permutation) usedl.
Proof.
  induction 1 as [|x l k _ IH|x y l|l k m _ IH1 _ IH2]; cbn; [done| | |by etrans].
  - destruct (used x); [by f_equiv|done].
  - destruct (used x), (used y); try done. constructor.
Qed.

Lemma used_init : used ID_INIT = false.
Proof. done. Qed.
Lemma usedl_zeros n : usedl (replicate n ID_INIT) = [].
Proof. by induction n. Qed.

Lemma usedl_insert F p x id : F !! p = Some x -> used x = false -> used id = true ->
  usedl (<[p := id]> F) ≡ₚ id :: usedl F.
Proof. intros Hp Hx Hid. destruct (insert_replace F p x Hp) as (R & E1 & E2). rewrite (E2 id), E1. cbn. by rewrite Hx, Hid. Qed.

(** The four identifiers spread over the gap at [k], and the new one behind. *)
Lemma scatter_flat F k p1 p2 p3 x1 x2 x3 id :
  F !! k = Some ID_INIT -> F !! S (S k) = Some ID_INIT -> F !! S (S (S k)) = Some ID_INIT ->
  F !! p1 = Some x1 -> F !! p2 = Some x2 -> F !! p3 = Some x3 ->
  p1 <> p2 -> p1 <> p3 -> p2 <> p3 ->
  p1 ∉ [k; S (S k); S (S (S k))] -> p2 ∉ [k; S (S k); S (S (S k))] -> p3 ∉ [k; S (S k); S (S (S k))] -> used id = true ->
  usedl (<[S (S (S k)) := id]> (<[p3 := ID_INIT]> (<[S (S k) := x3]> (<[p1 := ID_INIT]> (<[p2 := x1]> (<[k := x2]> F))))))
  ≡ₚ id :: usedl F.
Proof.
  rewrite !not_elem_of_cons. intros H0 H2 H3 E1 E2 E3 N12 N13 N23 (? & ? & ? & _) (? & ? & ? & _) (? & ? & ? & _) Hid.
  rewrite (usedl_insert _ _ ID_INIT) by (try done; rewrite !list_lookup_insert_ne by (congruence || lia); done).
  f_equiv. rewrite (insert_exchange _ p3 (S (S k)) x3 ID_INIT) by (try congruence; rewrite !list_lookup_insert_ne by (congruence || lia); done).
  assert (<[p2 := x1]> (<[k := x2]> F) = <[p2 := x1]> (<[p2 := ID_INIT]> (<[k := x2]> F))) as -> by (by rewrite list_insert_insert_eq).
  rewrite (insert_exchange _ p1 p2 x1 ID_INIT); [|congruence| |].
  - by rewrite (insert_exchange F p2 k x2 ID_INIT) by congruence.
  - rewrite !list_lookup_insert_ne by congruence. done.
  - rewrite list_lookup_insert_eq; [done|]. rewrite length_insert. by eapply lookup_lt_Some.
Qed.

Lemma scan_inl n id s l l' : list_inv l -> scan exists_ n id s l = inl l' ->
  list_inv l' /\ exists p x, flat l !! p = Some x /\ used x = false /\ flat l' = <[p := id]> (flat l).
Proof.
  revert s l. induction n as [|n IH]; intros s l HI H; [done|]. cbn in H. destruct (used (entry l (cursor l))) eqn:Eu.
  - destruct (IH _ _ (forward_index_inv _ HI) H) as (HI' & p & x & E). rewrite forward_index_flat in E. split; [done|]. by exists p, x.
  - injection H as <-. pose proof (forward_index_inv _ HI) as HF. split; [by apply put_inv|].
    assert (inside (forward_index l) (cursor l)) as Hin by (destruct (cursor_inside l HI); split; [by rewrite forward_index_blocks|done]).
    exists (index (cursor l)), (entry l (cursor l)). split_and!; [by apply entry_flat, cursor_inside|done|].
    by rewrite put_flat, forward_index_flat.
Qed.

Lemma scan_inr id l s l' : scan exists_ 4 id [] l = inr (s, l') ->
  let f := forward_index in s = [cursor l; cursor (f l); cursor (f (f l)); cursor (f (f (f l)))] /\ l' = f (f (f (f l))) /\
  used (entry l (cursor l)) = true.
Proof. cbn. do 4 (destruct (IL.used _ _); [|done]). by intros [= <- <-]. Qed.

Lemma insert_block_flat l : list_inv l ->
  flat (insert_block l) = take (index (cursor l)) (flat l) ++ replicate BLOCK_SIZE ID_INIT ++ drop (index (cursor l)) (flat l).
Proof.
  intros HI. pose proof (cursor_inside l HI) as [Hb Hi]. cbn [cursor fst snd] in *. destruct (lookup_lt_is_Some_2 _ _ Hb) as [cur Hc].
  pose proof (Forall_lookup_1 _ _ _ _ (li_blocks _ HI) Hc) as Hl. cbn in Hl.
  assert (flat l = concat (take (_cur_block l) (blocks l)) ++ cur ++ concat (drop (S (_cur_block l)) (blocks l))) as E.
  { unfold flat. rewrite <- (take_drop_middle _ _ _ Hc) at 1. by rewrite concat_app. }
  assert (length (concat (take (_cur_block l) (blocks l))) = (BLOCK_SIZE * _cur_block l)%nat) as El.
  { rewrite length_concat_blocks by apply Forall_take, HI. rewrite length_take. f_equal. lia. }
  rewrite E. unfold index, flat, insert_block. cbn [blocks cursor fst snd]. rewrite Hc. cbn [default]. rewrite concat_app. cbn [concat].
  rewrite take_app_ge, drop_app_ge, El by lia. replace (BLOCK_SIZE * _cur_block l + _cur_index l - BLOCK_SIZE * _cur_block l)%nat with (_cur_index l) by lia.
  rewrite take_app_le, drop_app_le by lia. rewrite <- !app_assoc. do 2 f_equal.
  replace (replicate BLOCK_SIZE ID_INIT) with (replicate (BLOCK_SIZE - _cur_index l) ID_INIT ++ replicate (_cur_index l) ID_INIT).
  - by rewrite <- !app_assoc.
  - rewrite <- replicate_add. f_equal. lia.
Qed.

Lemma insert_block_inv l : list_inv l -> _nblock l * Z.of_nat BLOCK_SIZE <= _next_gc_size l -> list_inv (insert_block l).
Proof.
  intros HI Hn. pose proof (cursor_inside l HI) as [Hb Hi]. cbn [cursor fst snd] in *. destruct (lookup_lt_is_Some_2 _ _ Hb) as [cur Hc].
  pose proof (Forall_lookup_1 _ _ _ _ (li_blocks _ HI) Hc) as Hl. cbn in Hl. destruct HI as [A B C D E F].
  unfold MAX_ENTRIES, BLOCK_SIZE, INIT_GC_SIZE, is_u32, zlen in *. assert (_nblock l + 1 < 2 ^ 32) by lia. unfold insert_block. rewrite Hc. cbn [default]. split; cbn -[length]; try done.
  - apply Forall_app. split; [by apply Forall_take|]. repeat constructor; [..|by apply Forall_drop].
    + rewrite length_app, length_take, length_replicate. unfold BLOCK_SIZE. lia.
    + rewrite length_app, length_drop, length_replicate. unfold BLOCK_SIZE. lia.
  - rewrite length_app, length_take. cbn [length]. rewrite length_drop. lia.
  - rewrite u32_small by (unfold is_u32; lia). unfold zlen. rewrite length_app, length_take. cbn [length]. rewrite length_drop. lia.
  - rewrite u32_small by (unfold is_u32; lia). unfold MAX_ENTRIES, BLOCK_SIZE. lia.
Qed.

(** Where a pointer goes when a block is inserted behind the cursor. *)
Lemma move_pos_spec l p : list_inv l -> inside l p -> (index p < index (cursor l) \/ index (cursor l) + 4 <= index p)%nat ->
  inside (insert_block l) (move_pos (_cur_block l) p) /\
  (index (move_pos (_cur_block l) p) < index (cursor l) \/ index (cursor l) + 4 <= index (move_pos (_cur_block l) p))%nat.
Proof.
  intros HI [Hp Hq] Hw. pose proof (cursor_inside l HI) as [Hb Hi]. unfold move_pos, inside, index in *. cbn [cursor fst snd] in *.
  assert (length (blocks (insert_block l)) = S (length (blocks l))) as El.
  { unfold insert_block. cbn -[length]. rewrite length_app, length_take. cbn [length]. rewrite length_drop. lia. }
  rewrite El. destruct (Nat.ltb_spec (_cur_block l) (fst p)); cbn [fst snd]; split_and!; try lia. right.
  pose proof (Nat.mul_le_mono_l (S (S (_cur_block l))) (S (fst p)) BLOCK_SIZE ltac:(lia)). unfold BLOCK_SIZE in *. lia.
Qed.
Lemma move_pos_inj l p q : inside l p -> inside l q -> index p <> index q ->
  index (move_pos (_cur_block l) p) <> index (move_pos (_cur_block l) q).
Proof.
  intros [Hp Hq] [Hp' Hq'] Hne. unfold move_pos, index in *. cbn [fst snd] in *. unfold BLOCK_SIZE in *.
  destruct (Nat.ltb_spec (_cur_block l) (fst p)), (Nat.ltb_spec (_cur_block l) (fst q)); cbn [fst snd]; lia.
Qed.

Lemma entry_put_ne l p q x : list_inv l -> inside l p -> inside l q -> index p <> index q -> entry (put q x l) p = entry l p.
Proof.
  intros HI Hp Hq Hne. pose proof (entry_flat _ _ (put_inv _ q x HI) (inside_put _ _ q x Hp)) as E.
  rewrite put_flat, list_lookup_insert_ne, entry_flat in E by done. by injection E.
Qed.
Lemma entry_forward l p : entry (forward_index l) p = entry l p.
Proof. unfold entry. by rewrite forward_index_blocks. Qed.
Lemma inside_forward l p : inside l p -> inside (forward_index l) p.
Proof. unfold inside. by rewrite forward_index_blocks. Qed.
Lemma cursor_put p x l : cursor (put p x l) = cursor l.
Proof. done. Qed.
Lemma cursor_forward l : list_inv l -> (S (index (cursor l)) < length (flat l))%nat ->
  index (cursor (forward_index l)) = S (index (cursor l)).
Proof. intros HI H. rewrite forward_index_next by done. by destruct (Nat.ltb_spec (S (index (cursor l))) (length (flat l))); [|lia]. Qed.
Lemma length_put p x l : list_inv l -> inside l p -> length (flat (put p x l)) = length (flat l).
Proof. intros. by rewrite put_flat, length_insert. Qed.

#[local] Hint Resolve put_inv forward_index_inv inside_put inside_forward cursor_inside : idlist.

Lemma scatter_spec id s1 s2 s3 l : list_inv l -> inside l s1 -> inside l s2 -> inside l s3 ->
  let k := index (cursor l) in
  (k + 4 < length (flat l))%nat -> index s1 <> index s2 -> index s1 <> index s3 -> index s2 <> index s3 ->
  index s1 ∉ [k; S (S k); S (S (S k))] -> index s2 ∉ [k; S (S k); S (S (S k))] -> index s3 ∉ [k; S (S k); S (S (S k))] ->
  list_inv (scatter id s1 s2 s3 l) /\ flat (scatter id s1 s2 s3 l) =
  <[S (S (S k)) := id]> (<[index s3 := ID_INIT]> (<[S (S k) := entry l s3]> (<[index s1 := ID_INIT]> (<[index s2 := entry l s1]> (<[k := entry l s2]> (flat l)))))).
Proof.
  intros HI H1 H2 H3 k Hk N12 N13 N23. rewrite !not_elem_of_cons. intros (? & ? & ? & _) (? & ? & ? & _) (? & ? & ? & _). unfold scatter.
  set (l1 := put (cursor l) _ l). assert (list_inv l1) as I1 by (unfold l1; auto with idlist).
  assert (entry l1 s1 = entry l s1) as -> by (apply entry_put_ne; [done..|auto with idlist|done]).
  set (l2 := put s2 _ l1). assert (list_inv l2) as I2 by (unfold l2; auto with idlist).
  set (l3 := put s1 _ l2). assert (list_inv l3) as I3 by (unfold l3; auto with idlist).
  assert (inside l1 s1 /\ inside l1 s2 /\ inside l1 s3) as (J1 & J2 & J3) by (unfold l1; auto with idlist).
  assert (inside l2 s1 /\ inside l2 s3) as (J4 & J5) by (unfold l2; auto with idlist).
  assert (inside l3 s3) as J6 by (unfold l3; auto with idlist).
  assert (flat l3 = <[index s1 := ID_INIT]> (<[index s2 := entry l s1]> (<[k := entry l s2]> (flat l)))) as F3.
  { unfold l3. rewrite put_flat by done. unfold l2. rewrite put_flat by done. unfold l1. by rewrite put_flat by auto with idlist. }
  assert (entry l3 s3 = entry l s3) as E3.
  { unfold l3. rewrite entry_put_ne by congruence. unfold l2. rewrite entry_put_ne by congruence. unfold l1. apply entry_put_ne; [done..|auto with idlist|done]. }
  assert (length (flat l3) = length (flat l)) as Len by (rewrite F3; by rewrite !length_insert).
  set (l4 := forward_index (forward_index l3)). assert (list_inv l4) as I4 by (unfold l4; auto with idlist).
  assert (index (cursor l4) = S (S k)) as K4.
  { assert (index (cursor (forward_index l3)) = S k) as E by (apply cursor_forward; [done|rewrite Len; change (S k < length (flat l))%nat; lia]).
    unfold l4. rewrite cursor_forward; [by rewrite E|auto with idlist|]. rewrite E, forward_index_flat, Len. lia. }
  assert (flat l4 = flat l3) as F4 by (unfold l4; by rewrite !forward_index_flat).
  assert (entry l4 s3 = entry l s3) as -> by (unfold l4; by rewrite !entry_forward).
  assert (inside l4 s3) as J7 by (unfold l4; auto with idlist).
  set (l5 := put (cursor l4) _ l4). assert (list_inv l5) as I5 by (unfold l5; auto with idlist).
  assert (inside l5 s3) as J8 by (unfold l5; auto with idlist).
  set (l6 := put s3 _ l5). assert (list_inv l6) as I6 by (unfold l6; auto with idlist).
  assert (flat l6 = <[index s3 := ID_INIT]> (<[S (S k) := entry l s3]> (flat l3))) as F6.
  { unfold l6. rewrite put_flat by done. unfold l5. rewrite put_flat, K4, F4 by auto with idlist. done. }
  set (l7 := forward_index l6). assert (list_inv l7) as I7 by (unfold l7; auto with idlist).
  assert (index (cursor l7) = S (S (S k))) as K7.
  { unfold l7. rewrite cursor_forward; [by rewrite <- K4|done|]. rewrite F6, !length_insert, Len. change (cursor l6) with (cursor l4). lia. }
  split; [auto with idlist|]. rewrite forward_index_flat, put_flat by auto with idlist. rewrite K7. unfold l7. by rewrite forward_index_flat, F6, F3.
Qed.

(** Four positions forward, the positions passed lie outside the four entries
    behind the cursor. *)
Lemma passed l : list_inv l -> let f := forward_index in let k := index (cursor (f (f (f (f l))))) in
  let p1 := index (cursor (f l)) in let p2 := index (cursor (f (f l))) in let p3 := index (cursor (f (f (f l)))) in
  (p1 <> p2 /\ p1 <> p3 /\ p2 <> p3) /\ ((p1 < k \/ k + 4 <= p1) /\ (p2 < k \/ k + 4 <= p2) /\ (p3 < k \/ k + 4 <= p3))%nat.
Proof.
  intros HI f k p1 p2 p3. subst f k p1 p2 p3. rewrite !forward_index_next by auto 10 with idlist. rewrite !forward_index_flat.
  rewrite (length_flat l HI). pose proof (index_inside _ _ (cursor_inside l HI)) as Hk. pose proof (li_cur _ HI). unfold BLOCK_SIZE in *.
  set (N := (63 * length (blocks l))%nat) in *. set (a := index (cursor l)) in *. assert (63 <= N)%nat by (unfold N; lia). clearbody N a. repeat (case_match; rewrite ?Nat.ltb_lt, ?Nat.ltb_ge in *); lia.
Qed.

Lemma not_near a k : (a < k \/ k + 4 <= a)%nat -> a ∉ [k; S (S k); S (S (S k))].
Proof. rewrite !not_elem_of_cons. intros H. split_and!; [lia..|apply not_elem_of_nil]. Qed.

Lemma crowd_spec id l s l' : list_inv l -> scan exists_ 4 id [] l = inr (s, l') ->
  _nblock l' * Z.of_nat BLOCK_SIZE <= _next_gc_size l' ->
  let s' := map (move_pos (_cur_block l')) s in
  let r := scatter id (nth 1 s' (0, 0)%nat) (nth 2 s' (0, 0)%nat) (nth 3 s' (0, 0)%nat) (insert_block l') in
  list_inv r /\ (used id = true -> usedl (flat r) ≡ₚ id :: usedl (flat l)).
Proof.
  intros HI Hs Hn. apply scan_inr in Hs as (-> & -> & _). set (l' := forward_index (forward_index (forward_index (forward_index l)))) in *.
  assert (list_inv l') as HI' by (unfold l'; auto 10 with idlist). cbn [map nth]. destruct (passed l HI) as ((N12 & N13 & N23) & W1 & W2 & W3). fold l' in W1, W2, W3.
  assert (inside l' (cursor (forward_index l)) /\ inside l' (cursor (forward_index (forward_index l))) /\ inside l' (cursor (forward_index (forward_index (forward_index l))))) as (J1 & J2 & J3)
    by (unfold l'; split_and!; auto 10 with idlist).
  destruct (move_pos_spec l' _ HI' J1 W1) as [A1 B1]. destruct (move_pos_spec l' _ HI' J2 W2) as [A2 B2]. destruct (move_pos_spec l' _ HI' J3 W3) as [A3 B3].
  pose proof (insert_block_inv l' HI' Hn) as HB. pose proof (insert_block_flat l' HI') as EF. change (cursor (insert_block l')) with (cursor l') in *.
  pose proof (index_inside _ _ (cursor_inside l' HI')) as Hk. rewrite <- (length_flat l' HI') in Hk.
  assert (forall j, (j < BLOCK_SIZE)%nat -> flat (insert_block l') !! (index (cursor l') + j)%nat = Some ID_INIT) as Hz.
  { intros j Hj. rewrite EF, lookup_app_r; rewrite length_take; [|lia]. rewrite lookup_app_l by (rewrite length_replicate; lia). apply lookup_replicate_2. lia. }
  destruct (scatter_spec id _ _ _ (insert_block l') HB A1 A2 A3) as [IR ER]; try by apply move_pos_inj.
  - change (cursor (insert_block l')) with (cursor l'). rewrite EF, !length_app, length_take, length_drop, length_replicate. unfold BLOCK_SIZE. lia.
  - by apply not_near.
  - by apply not_near.
  - by apply not_near.
  - split; [done|]. intros Hid. change (cursor (insert_block l')) with (cursor l') in ER. rewrite ER, scatter_flat; try done; try (by apply entry_flat); try (by apply move_pos_inj); try (by apply not_near).
    + f_equiv. rewrite EF, !List.filter_app, usedl_zeros, app_nil_l, <- List.filter_app, take_drop. unfold l'. by rewrite !forward_index_flat.
    + rewrite <- (Nat.add_0_r (index _)). apply Hz. unfold BLOCK_SIZE. lia.
    + replace (S (S (index (cursor l')))) with (index (cursor l') + 2)%nat by lia. apply Hz. unfold BLOCK_SIZE. lia.
    + replace (S (S (S (index (cursor l'))))) with (index (cursor l') + 3)%nat by lia. apply Hz. unfold BLOCK_SIZE. lia.
Qed.

(** ** Rebuilding the chain *)

Definition t_flat (t : TempIdBlock) : list Z := concat (t_done t) ++ take (t_index t) (t_block t).
Record temp_inv (t : TempIdBlock) : Prop := {
  ti_done : Forall (fun b => length b = BLOCK_SIZE) (t_done t);
  ti_block : t_block t = take (t_index t) (t_block t) ++ replicate (BLOCK_SIZE - t_index t) ID_INIT;
  ti_len : length (t_block t) = BLOCK_SIZE;
  ti_index : (t_index t < BLOCK_SIZE)%nat;
  ti_nblock : t_nblock t = zlen (t_done t) + 1 }.

Lemma length_t_flat t : temp_inv t -> length (t_flat t) = (BLOCK_SIZE * length (t_done t) + t_index t)%nat.
Proof. intros [A B C D E]. unfold t_flat. rewrite length_app, length_concat_blocks, length_take, C by done. lia. Qed.

Lemma add_to_temp_spec mem id t : temp_inv t -> zlen (t_flat t) < 2 ^ 20 -> let x := add_to_temp_list mem id t in fst (fst x) = true ->
  temp_inv (snd (fst x)) /\ t_flat (snd (fst x)) = t_flat t ++ [id].
Proof.
  intros HI Hz x Hx. unfold zlen in Hz. rewrite (length_t_flat t HI) in Hz. destruct HI as [A B C D E]. subst x. unfold add_to_temp_list in *.
  assert (<[t_index t := id]> (t_block t) = take (t_index t) (t_block t) ++ id :: replicate (BLOCK_SIZE - S (t_index t)) ID_INIT) as Ei.
  { rewrite B at 1. rewrite insert_app_r_alt by (rewrite length_take; lia). rewrite length_take, C, Nat.min_l, Nat.sub_diag by lia.
    replace (BLOCK_SIZE - t_index t)%nat with (S (BLOCK_SIZE - S (t_index t))) by lia. done. }
  destruct (Nat.eqb_spec (S (t_index t)) BLOCK_SIZE) as [Es|Es]; [destruct (hd true mem); [|done]|]; cbn [fst snd].
  - assert (length (<[t_index t := id]> (t_block t)) = BLOCK_SIZE) as El by (by rewrite length_insert). split; [split; cbn [t_done t_block t_index t_nblock]|].
    + apply Forall_app. by repeat constructor.
    + done.
    + apply length_replicate.
    + lia.
    + rewrite u32_small by (unfold is_u32, zlen, BLOCK_SIZE in *; lia). rewrite zlen_snoc. lia.
    + unfold t_flat. cbn [t_done t_block t_index]. rewrite concat_app. cbn [concat]. rewrite Ei, Es, Nat.sub_diag. cbn [replicate take]. by rewrite !app_nil_r, app_assoc.
  - split; [split; cbn [t_done t_block t_index t_nblock]; try done|].
    + rewrite Ei. rewrite take_app_ge by (rewrite length_take; lia). rewrite length_take, C, Nat.min_l by lia. replace (S (t_index t) - t_index t)%nat with 1%nat by lia. cbn [take].
      by rewrite <- app_assoc.
    + by rewrite length_insert.
    + lia.
    + unfold t_flat. cbn [t_done t_block t_index]. rewrite Ei, take_app_ge by (rewrite length_take; lia). rewrite length_take, C, Nat.min_l by lia.
      replace (S (t_index t) - t_index t)%nat with 1%nat by lia. cbn [take]. by rewrite take_0, app_assoc.
Qed.

Lemma copy_ids_spec mem ids t t' : temp_inv t -> zlen (t_flat t) + 2 * zlen ids < 2 ^ 20 -> copy_ids mem ids t = Some t' ->
  temp_inv t' /\ length (t_flat t') = (length (t_flat t) + 2 * length ids)%nat /\ usedl (t_flat t') = usedl (t_flat t) ++ usedl ids.
Proof.
  revert mem t. induction ids as [|id ids IH]; intros mem t HI Hz H; cbn in H.
  { injection H as <-. split_and!; [done|cbn; lia|by rewrite app_nil_r]. }
  rewrite zlen_cons in Hz. pose proof (zlen_nonneg ids).
  destruct (fst (fst (add_to_temp_list mem id t))) eqn:E1; [|done]. destruct (add_to_temp_spec mem id t HI ltac:(lia) E1) as [HI1 F1].
  set (t1 := snd (fst (add_to_temp_list mem id t))) in *. set (m1 := snd (add_to_temp_list mem id t)) in *.
  assert (zlen (t_flat t1) = zlen (t_flat t) + 1) as L1 by (rewrite F1; apply zlen_snoc).
  destruct (fst (fst (add_to_temp_list m1 ID_INIT t1))) eqn:E2; [|done]. destruct (add_to_temp_spec m1 ID_INIT t1 HI1 ltac:(lia) E2) as [HI2 F2].
  set (t2 := snd (fst (add_to_temp_list m1 ID_INIT t1))) in *.
  assert (zlen (t_flat t2) = zlen (t_flat t1) + 1) as L2 by (rewrite F2; apply zlen_snoc).
  destruct (IH _ _ HI2 ltac:(lia) H) as (HI' & EL & EU). split_and!; [done| |].
  - rewrite EL. unfold zlen in *. cbn [length]. lia.
  - rewrite EU, F2, F1, !List.filter_app. cbn [List.filter]. rewrite used_init, app_nil_r. destruct (used id); [by rewrite <- app_assoc|by rewrite app_nil_r].
Qed.

Lemma usedl_idemp l : usedl (usedl l) = usedl l.
Proof. induction l as [|x l IH]; cbn; [done|]. destruct (used x) eqn:E; cbn; rewrite ?E, ?IH; done. Qed.
Lemma length_usedl l : (length (usedl l) <= length l)%nat.
Proof. apply List.filter_length_le. Qed.

Lemma gc_spec mem l : list_inv l -> _nblock l * Z.of_nat BLOCK_SIZE <= MAX_ENTRIES ->
  let x := gc exists_ mem l in list_inv (snd x) /\ usedl (flat (snd x)) = usedl (flat l) /\ _next_gc_size (snd x) = _next_gc_size l /\
  (fst x = 0 \/ fst x = ENOMEM /\ snd x = l).
Proof.
  intros HI Hm x. subst x. unfold gc. destruct (hd true mem); [|split_and!; [done..|by right]].
  destruct (copy_ids _ _ _) as [t|] eqn:E; [|split_and!; [done..|by right]].
  pose proof (length_flat l HI) as EL. pose proof (length_usedl (flat l)) as Hle. pose proof HI as [A B C D _ F].
  assert (zlen (for_each_ids exists_ l) <= MAX_ENTRIES) as Hz by (unfold for_each_ids, zlen in *; fold (flat l); lia).
  apply copy_ids_spec in E as (HT & ET & EU).
  - pose proof (length_t_flat t HT) as E2. destruct HT as [A' B' C' D' E']. cbn [fst snd].
    assert (length (t_flat t) <= 2 * Z.to_nat MAX_ENTRIES)%nat as Hle2 by (rewrite ET; unfold zlen in Hz; change (length (t_flat (mkTemp [] empty_block 0 1))) with 0%nat; lia).
    assert (u32 (t_nblock t + 1) = zlen (t_done t) + 2) as En by (rewrite E', u32_small; [lia|unfold is_u32, zlen, BLOCK_SIZE, MAX_ENTRIES in *; lia]).
    split_and!; [|cbn|done|by left].
    + split; cbn [blocks _cur_block _cur_index _nblock _next_gc_size].
      * constructor; [apply length_replicate|]. apply Forall_app. by repeat constructor.
      * cbn [length]. rewrite length_app. cbn [length]. lia.
      * done.
      * rewrite En. rewrite zlen_cons, zlen_snoc. lia.
      * rewrite En. unfold zlen, BLOCK_SIZE, MAX_ENTRIES in *. lia.
      * done.
    + unfold flat. cbn [blocks concat]. rewrite concat_app. cbn [concat]. rewrite app_nil_r, B', app_assoc with (l := concat (t_done t)), !List.filter_app.
      fold (t_flat t). rewrite <- List.filter_app. change (concat (t_done t) ++ take (t_index t) (t_block t)) with (t_flat t). rewrite EU, !usedl_zeros, app_nil_r. unfold for_each_ids. cbn. apply usedl_idemp.
  - split; cbn; [done|done|done|unfold BLOCK_SIZE; lia|done].
  - change (zlen (t_flat (mkTemp [] empty_block 0 1))) with 0. unfold MAX_ENTRIES in Hz. lia.
Qed.

Lemma raise_gc_size_inv n l : list_inv l -> list_inv (raise_gc_size n l) /\ flat (raise_gc_size n l) = flat l.
Proof.
  intros [A B C D E F]. unfold raise_gc_size. destruct (_ <? _); [|split; [by split|done]]. split; [|done].
  assert (u32 (Z.shiftl (_next_gc_size l) 1) = 2 * _next_gc_size l) as ->.
  { rewrite Z.shiftl_mul_pow2, u32_small by lia || (unfold is_u32, MAX_ENTRIES, INIT_GC_SIZE in *; lia). lia. }
  split; cbn [blocks _cur_block _cur_index _nblock _next_gc_size]; try done. unfold MAX_ENTRIES, INIT_GC_SIZE, BLOCK_SIZE in *.
  destruct (Z.leb_spec 100000 (2 * _next_gc_size l)); lia.
Qed.

Lemma scan_kept id l s l' : list_inv l -> scan exists_ 4 id [] l = inr (s, l') ->
  list_inv l' /\ flat l' = flat l /\ _nblock l' = _nblock l /\ _next_gc_size l' = _next_gc_size l.
Proof.
  intros HI H. apply scan_inr in H as (_ & -> & _). split_and!; [auto 10 with idlist|by rewrite !forward_index_flat|by rewrite !forward_index_nblock|by rewrite !forward_index_gc].
Qed.

(** Every outcome of [add]. *)
Lemma add_outcomes mem id l : list_inv l -> used id = true -> let x := add exists_ mem id l in list_inv (snd x) /\
  (fst x = 0 /\ usedl (flat (snd x)) ≡ₚ id :: usedl (flat l) \/
   usedl (flat (snd x)) = usedl (flat l) /\
   (fst x = EAGAIN /\ MAX_ENTRIES < _nblock l * Z.of_nat BLOCK_SIZE \/
    fst x = ENOMEM /\ (hd true mem = false \/ _next_gc_size l < _nblock l * Z.of_nat BLOCK_SIZE) \/
    fst x = 0 /\ _next_gc_size l < _nblock l * Z.of_nat BLOCK_SIZE)).
Proof.
  intros HI Hid x. subst x. unfold add. destruct (scan exists_ 4 id [] l) as [l'|[s l']] eqn:Es.
  - apply scan_inl in Es as (HI' & p & y & Ep & Ey & EF); [|done]. cbn [fst snd]. split; [done|]. left. split; [done|]. rewrite EF. by eapply usedl_insert.
  - destruct (scan_kept _ _ _ _ HI Es) as (HI' & EF & EN & EG). rewrite <- EN, <- EG, <- EF.
    destruct (Z.ltb_spec MAX_ENTRIES (_nblock l' * Z.of_nat BLOCK_SIZE)) as [Hm|Hm]; cbn [fst snd]; [split; [done|]; right; tauto|].
    destruct (Z.ltb_spec (_next_gc_size l') (_nblock l' * Z.of_nat BLOCK_SIZE)) as [Hg|Hg].
    + destruct (gc_spec mem l' HI' Hm) as (HI2 & EU & _ & Hrc). destruct (gc exists_ mem l') as [rc l2]. cbn [fst snd] in *.
      destruct (raise_gc_size_inv (_nblock l') l2 HI2) as [HI3 ->]. split; [done|]. right. rewrite EU. destruct Hrc as [?|[? _]]; tauto.
    + destruct (hd true mem) eqn:Eh; cbn [fst snd].
      * destruct (crowd_spec id l s l' HI Es Hg) as [HR HP]. split; [exact HR|]. left. rewrite EF. auto.
      * split; [done|]. right. split; [done|]. tauto.
Qed.

End Used.

(** [add] puts the identifier into the list and keeps all others, whatever
    entries it moves: as long as the chain is below its threshold for collection
    and there is memory, it succeeds and the valid identifiers are those from
    before and the new one, as often as before.  A call that fails changes
    nothing that is stored, and the chain stays well formed in every case. *)
Theorem id_list_add exists_ mem id l : list_inv l -> used exists_ id = true ->
  let (rc, l') := add exists_ mem id l in list_inv l' /\
  (_nblock l * Z.of_nat BLOCK_SIZE <= _next_gc_size l -> hd true mem = true ->
     rc = 0 /\ for_each_ids exists_ l' ≡ₚ id :: for_each_ids exists_ l) /\
  (rc <> 0 -> (rc = EAGAIN \/ rc = ENOMEM) /\ for_each_ids exists_ l' = for_each_ids exists_ l).
Proof.
  intros HI Hid. pose proof (add_outcomes exists_ mem id l HI Hid) as H. destruct (add exists_ mem id l) as [rc l']. cbn [fst snd] in H.
  destruct H as [HI' H]. unfold for_each_ids. fold (flat l) (flat l'). split_and!; [done|..].
  - intros Hg Hm. pose proof (li_gc _ HI). destruct H as [H|[_ [[_ H]|[[_ [H|H]]|[_ H]]]]]; [done|lia|congruence|lia..].
  - intros Hrc. destruct H as [[H _]|[E [[H _]|[[H _]|[H _]]]]]; tauto.
Qed.
Lemma id_list_add_witness : for_each_ids (fun _ => true) (snd (add (fun _ => true) [] 5 new_IdList)) ≡ₚ [5].
Proof.
  pose proof (id_list_add (fun _ => true) [] 5 new_IdList) as H. destruct (add (fun _ => true) [] 5 new_IdList) as [rc l'].
  destruct H as (_ & H & _); [|reflexivity|].
  - split; cbn; [by repeat constructor|lia|unfold BLOCK_SIZE; lia|done|unfold MAX_ENTRIES; lia|unfold INIT_GC_SIZE, MAX_ENTRIES; lia].
  - apply H; [unfold BLOCK_SIZE; cbn; unfold INIT_GC_SIZE; lia|reflexivity].
Defined.

(** ** Collection *)

Lemma copy_ids_succeeds ids t : exists t', copy_ids [] ids t = Some t'.
Proof.
  revert t. induction ids as [|id ids IH]; intros t; [by eexists|]. cbn.
  assert (forall x t, fst (fst (add_to_temp_list [] x t)) = true /\ snd (add_to_temp_list [] x t) = []) as Hok
    by (intros x u; unfold add_to_temp_list; by destruct (_ =? _)%nat).
  destruct (Hok id t) as [-> ->]. destruct (Hok ID_INIT (snd (fst (add_to_temp_list [] id t)))) as [-> ->]. apply IH.
Qed.

Lemma gc_size exists_ l t : list_inv l -> _nblock l * Z.of_nat BLOCK_SIZE <= MAX_ENTRIES ->
  copy_ids [] (for_each_ids exists_ l) (mkTemp [] empty_block 0 1) = Some t ->
  t_nblock t = (2 * zlen (for_each_ids exists_ l)) / Z.of_nat BLOCK_SIZE + 1.
Proof.
  intros HI Hm E. pose proof (length_usedl exists_ (flat l)) as Hle. pose proof (length_flat l HI) as EL. destruct HI as [A B C D _ F].
  assert (zlen (for_each_ids exists_ l) <= MAX_ENTRIES) as Hz by (unfold for_each_ids, zlen in *; fold (flat l); lia).
  apply (copy_ids_spec exists_) in E as (HT & ET & _).
  - rewrite (length_t_flat t HT) in ET. rewrite (ti_nblock _ HT). pose proof (ti_index _ HT). change (length (t_flat (mkTemp [] empty_block 0 1))) with 0%nat in ET.
    f_equal. unfold zlen. apply (Z.div_unique_pos _ _ _ (Z.of_nat (t_index t))); lia.
  - split; cbn; [done|done|done|unfold BLOCK_SIZE; lia|done].
  - change (zlen (t_flat (mkTemp [] empty_block 0 1))) with 0. unfold MAX_ENTRIES in Hz. lia.
Qed.

Definition nth_forward (n : nat) (l : IdList) : IdList := Nat.iter n forward_index l.

(** When the chain is above its threshold and the next four entries are
    taken, [add] collects the stale entries and returns success without adding
    the identifier.  If nothing was stale the chain has grown, the difference of
    the block counts wraps around in 32 bits, and the collection counts as a
    success: the threshold is not raised. *)
Theorem id_list_gc_drops exists_ id l : list_inv l ->
  _next_gc_size l < _nblock l * Z.of_nat BLOCK_SIZE <= MAX_ENTRIES ->
  (forall n, (n < 4)%nat -> used exists_ (entry l (cursor (nth_forward n l))) = true) ->
  let (rc, l') := add exists_ [] id l in
  rc = 0 /\ for_each_ids exists_ l' = for_each_ids exists_ l /\
  (for_each_ids exists_ l = concat (blocks l) -> _nblock l < _nblock l' /\ _next_gc_size l' = _next_gc_size l).
Proof.
  intros HI Hg H4. assert (exists s l', scan exists_ 4 id [] l = inr (s, l')) as (s & l' & Es).
  { pose proof (H4 0%nat ltac:(lia)) as E0. pose proof (H4 1%nat ltac:(lia)) as E1. pose proof (H4 2%nat ltac:(lia)) as E2. pose proof (H4 3%nat ltac:(lia)) as E3.
    unfold nth_forward in E0, E1, E2, E3. cbn [Nat.iter nat_rect] in E0, E1, E2, E3. cbn [scan]. rewrite !entry_forward, E0, E1, E2, E3. eauto. }
  destruct (scan_kept _ _ _ _ _ HI Es) as (HI' & EF & EN & EG). unfold add. rewrite Es, EN, EG.
  destruct (Z.ltb_spec MAX_ENTRIES (_nblock l * Z.of_nat BLOCK_SIZE)); [lia|].
  destruct (Z.ltb_spec (_next_gc_size l) (_nblock l * Z.of_nat BLOCK_SIZE)); [|lia].
  pose proof (gc_spec exists_ [] l' HI' ltac:(rewrite EN; lia)) as (HI2 & EU & EG2 & _). unfold gc in *. cbn [hd tl] in *.
  destruct (copy_ids_succeeds (for_each_ids exists_ l') (mkTemp [] empty_block 0 1)) as [t Et]. rewrite Et in *. cbn [fst snd] in *.
  pose proof (gc_size exists_ l' t HI' ltac:(rewrite EN; lia) Et) as Hsz. set (l2 := mkIdList _ _ _ _ _) in *.
  split; [done|]. unfold for_each_ids in *. fold (flat l) (flat l') in *. destruct (raise_gc_size_inv (_nblock l) l2 HI2) as [_ ER].
  fold (flat (raise_gc_size (_nblock l) l2)). rewrite ER, EU, EF. split; [done|]. intros Eall.
  assert (t_nblock t = 2 * _nblock l + 1) as En.
  { rewrite Hsz, EF, Eall. unfold zlen. rewrite (length_flat l HI), (li_nblock _ HI). unfold zlen. f_equal. rewrite Nat2Z.inj_mul, Z.mul_shuffle3, Z.mul_comm. by apply Z.div_mul. }
  unfold raise_gc_size. cbn [_nblock _next_gc_size l2]. pose proof (li_gc _ HI). pose proof (zlen_nonneg (blocks l)) as Hnn. rewrite <- (li_nblock _ HI) in Hnn.
  unfold MAX_ENTRIES, INIT_GC_SIZE, BLOCK_SIZE in *. rewrite En, EG. rewrite (u32_small (2 * _nblock l + 1 + 1)) by (unfold is_u32; lia).
  assert (u32 (_nblock l - (2 * _nblock l + 1 + 1)) = 2 ^ 32 - (_nblock l + 2)) as ->.
  { unfold u32. symmetry. apply (Z.mod_unique_pos _ _ (-1)); lia. }
  destruct (Z.ltb_spec ((2 ^ 32 - (_nblock l + 2)) * Z.of_nat 63) (u32 (_next_gc_size l - Z.shiftr (_next_gc_size l) 2))) as [Hlt|_]; [|split; [cbn [_nblock l2]; rewrite En, u32_small by (unfold is_u32; lia); lia|exact EG2 || (cbn [_next_gc_size l2]; lia)]].
  pose proof (u32_range (_next_gc_size l - Z.shiftr (_next_gc_size l) 2)) as Hr. unfold is_u32 in Hr. lia.
Qed.

Definition full_list : IdList := mkIdList (replicate 66 (replicate BLOCK_SIZE 1)) 0 0 66 INIT_GC_SIZE.
Lemma id_list_gc_drops_witness : used (fun _ => true) 2 = true /\
  for_each_ids (fun _ => true) (snd (add (fun _ => true) [] 2 full_list)) = for_each_ids (fun _ => true) full_list.
Proof.
  split; [reflexivity|]. pose proof (id_list_gc_drops (fun _ => true) 2 full_list) as H. destruct (add (fun _ => true) [] 2 full_list) as [rc l'].
  apply H.
  - split; cbn [full_list blocks _cur_block _cur_index _nblock _next_gc_size];
      [by apply Forall_replicate|rewrite length_replicate; lia|unfold BLOCK_SIZE; lia|unfold zlen; by rewrite length_replicate|unfold MAX_ENTRIES, BLOCK_SIZE; lia|unfold MAX_ENTRIES, INIT_GC_SIZE; lia].
  - cbn [full_list _next_gc_size _nblock]. unfold INIT_GC_SIZE, BLOCK_SIZE, MAX_ENTRIES. lia.
  - intros n Hn. do 4 (destruct n as [|n]; [reflexivity|]). lia.
Defined.

(** ** Lists that the program can reach *)

Inductive reach : IdList -> Prop :=
| reach_new : reach new_IdList
| reach_add exists_ mem id l : reach l -> reach (snd (add exists_ mem id l))
| reach_apply S (exists_at : S -> Z -> bool) fn s l : reach l -> reach (snd (apply exists_at fn l s)).

Lemma apply_block_length {S} (exists_at : S -> Z -> bool) fn ids s : length (snd (apply_block exists_at fn ids s)) = length ids.
Proof. revert s. induction ids as [|x ids IH]; intros s; [done|]. cbn. by rewrite IH. Qed.
Lemma apply_blocks_shape {S} (exists_at : S -> Z -> bool) fn bs s :
  length (snd (apply_blocks exists_at fn bs s)) = length bs /\
  (Forall (fun b => length b = BLOCK_SIZE) bs -> Forall (fun b => length b = BLOCK_SIZE) (snd (apply_blocks exists_at fn bs s))).
Proof.
  revert s. induction bs as [|b bs IH]; intros s; [done|]. cbn [apply_blocks snd length]. destruct (IH (fst (apply_block exists_at fn b s))) as [-> HF]. split; [done|].
  intros [Hb Hbs]%Forall_cons. constructor; [by rewrite apply_block_length|by apply HF].
Qed.
Lemma apply_inv {S} (exists_at : S -> Z -> bool) fn s l : list_inv l -> list_inv (snd (apply exists_at fn l s)).
Proof.
  intros [A B C D E F]. destruct (apply_blocks_shape exists_at fn (blocks l) s) as [H1 H2].
  split; cbn [apply snd set_blocks blocks _cur_block _cur_index _nblock _next_gc_size]; try done; [by apply H2|by rewrite H1|unfold zlen in *; by rewrite H1].
Qed.

Lemma add_inv exists_ mem id l : list_inv l -> list_inv (snd (add exists_ mem id l)).
Proof.
  intros HI. unfold add. destruct (scan exists_ 4 id [] l) as [l'|[s l']] eqn:Es; [by eapply scan_inl in Es as [? _]|].
  destruct (scan_kept _ _ _ _ _ HI Es) as (HI' & _). destruct (Z.ltb_spec MAX_ENTRIES (_nblock l' * Z.of_nat BLOCK_SIZE)); [done|].
  destruct (Z.ltb_spec (_next_gc_size l') (_nblock l' * Z.of_nat BLOCK_SIZE)) as [Hg|Hg].
  - apply raise_gc_size_inv. apply (gc_spec exists_); [done|lia].
  - destruct (hd true mem); [|done]. apply (crowd_spec exists_ id l s l' HI Es Hg).
Qed.

Lemma reach_inv l : reach l -> list_inv l.
Proof.
  induction 1; [|by apply add_inv|by apply apply_inv].
  split; cbn; [by repeat constructor|lia|unfold BLOCK_SIZE; lia|done|unfold MAX_ENTRIES; lia|unfold INIT_GC_SIZE, MAX_ENTRIES; lia].
Qed.

(** However a list is used, its chain stays bounded: it has at most twice
    [MAX_ENTRIES] entries and two blocks, so that the 32-bit counters never
    wrap, the threshold for collection stays below [MAX_ENTRIES], and the cursor
    stays inside the chain. *)
Theorem id_list_bounded l n : reach l -> (0 < n)%nat ->
  exists entries, get_sizes l n = [entries] /\ entries = zlen (concat (blocks l)) /\
  entries <= 2 * MAX_ENTRIES + 2 * Z.of_nat BLOCK_SIZE /\ is_u32 (_nblock l) /\
  INIT_GC_SIZE <= _next_gc_size l < MAX_ENTRIES /\ (index (cursor l) < length (concat (blocks l)))%nat.
Proof.
  intros HR Hn. apply reach_inv in HR as HI. destruct n as [|n]; [lia|]. exists (_nblock l * Z.of_nat BLOCK_SIZE). pose proof (length_flat l HI) as EL. unfold flat in EL.
  pose proof (index_inside _ _ (cursor_inside l HI)). destruct HI as [A B C D E F].
  split_and!; [done| |done|..|lia|lia|lia]; unfold is_u32, zlen, MAX_ENTRIES, BLOCK_SIZE in *; lia.
Qed.
Lemma id_list_bounded_witness : exists entries, get_sizes (snd (add (fun _ => true) [] 5 new_IdList)) 1 = [entries] /\ entries <= 200126.
Proof.
  destruct (id_list_bounded (snd (add (fun _ => true) [] 5 new_IdList)) 1) as (e & He & _ & Hm & _); [apply reach_add, reach_new|lia|].
  exists e. split; [exact He|]. unfold MAX_ENTRIES, BLOCK_SIZE in Hm. lia.
Defined.

(** ** Issuing an error to all identifiers of a list *)

Section Reset.
Context {S : Type} (exists_at : S -> Z -> bool) (error : Z -> S -> S).
(** An identifier that has gone does not come back. *)
Hypothesis gone : forall x y s, exists_at s y = false -> exists_at (error x s) y = false.

Abbreviation run_block := (apply_block exists_at (IdResetter error)).

Lemma apply_block_app ids1 ids2 s : run_block (ids1 ++ ids2) s =
  (fst (run_block ids2 (fst (run_block ids1 s))), snd (run_block ids1 s) ++ snd (run_block ids2 (fst (run_block ids1 s)))).
Proof. revert s. induction ids1 as [|x ids IH]; intros s; cbn; [by destruct (run_block ids2 s)|]. by rewrite IH. Qed.
Lemma apply_blocks_concat bs s : fst (apply_blocks exists_at (IdResetter error) bs s) = fst (run_block (concat bs) s) /\
  concat (snd (apply_blocks exists_at (IdResetter error) bs s)) = snd (run_block (concat bs) s).
Proof.
  revert s. induction bs as [|b bs IH]; intros s; [done|]. cbn [apply_blocks concat]. rewrite apply_block_app. cbn [fst snd concat].
  destruct (IH (fst (run_block b s))) as [-> ->]. done.
Qed.

Lemma filter_sublist_mono (f g : Z -> bool) l : (forall y, f y = true -> g y = true) -> List.filter f l `sublist_of` List.filter g l.
Proof.
  intros H. induction l as [|y l IH]; cbn; [done|]. specialize (H y). destruct (f y), (g y); [by constructor|by discriminate H|by constructor|exact IH].
Qed.

Definition errors (called : list Z) (s : S) : S := foldl (fun s x => error x s) s called.
Lemma errors_gone called y s : exists_at s y = false -> exists_at (errors called s) y = false.
Proof. revert s. induction called as [|x c IH]; intros s H; [done|]. apply IH, gone, H. Qed.

Lemma reset_block ids s : exists called, fst (run_block ids s) = errors called s /\
  called `sublist_of` List.filter (used (exists_at s)) ids /\
  (forall x, x ∈ List.filter (used (exists_at s)) ids -> x ∈ called \/ exists_at (errors called s) x = false) /\
  List.filter (used (exists_at (errors called s))) (snd (run_block ids s)) = [].
Proof.
  revert s. induction ids as [|x ids IH]; intros s.
  { exists []. cbn. split_and!; [done|constructor| |done]. intros y Hy. by apply elem_of_nil in Hy. }
  cbn [apply_block fst snd]. destruct (used (exists_at s) x) eqn:Eu.
  - destruct (IH (error x s)) as (called & E1 & E2 & E3 & E4). exists (x :: called). cbn [IdResetter fst snd List.filter]. rewrite Eu.
    split_and!; [done| | |exact E4].
    + constructor. etrans; [exact E2|]. apply filter_sublist_mono. intros y Hy. unfold used in *. destruct (negb (y =? ID_INIT)); [|done]. cbn in *.
      destruct (exists_at s y) eqn:Es; [done|]. by rewrite (gone x) in Hy.
    + intros y [->|Hy]%elem_of_cons; [left; by left|]. cbn [errors foldl]. fold (errors called (error x s)).
      destruct (exists_at (error x s) y) eqn:Ey.
      * destruct (E3 y) as [?|?]; [|left; by right|by right]. apply list_elem_of_In, List.filter_In. apply list_elem_of_In, List.filter_In in Hy as [Hy Hu]. split; [done|].
        unfold used in *. rewrite Ey. by destruct (negb (y =? ID_INIT)).
      * right. by apply errors_gone.
  - destruct (IH s) as (called & E1 & E2 & E3 & E4). exists called. cbn [fst snd List.filter]. rewrite Eu. split_and!; [done|done|done|].
    assert (used (exists_at (errors called s)) x = false) as ->; [|exact E4]. unfold used in *. destruct (negb (x =? ID_INIT)); [|done]. cbn in *. by apply errors_gone.
Qed.

(** Resetting a list issues the error to its valid identifiers in the order
    of the list, at most once per entry, leaves out only those that an earlier
    error has already destroyed, and leaves no valid identifier in the list.  The
    variant that takes the list out first issues the same errors. *)
Theorem id_list_reset l s : let x := bthread_id_list_reset2 exists_at error (Some l) s in let s' := fst x in
  (exists l', snd x = Some l' /\ for_each_ids (exists_at s') l' = []) /\
  fst (bthread_id_list_reset2_safe exists_at error (Some l) s) = s' /\
  exists called, s' = errors called s /\ called `sublist_of` for_each_ids (exists_at s) l /\
  forall x, x ∈ for_each_ids (exists_at s) l -> x ∈ called \/ exists_at s' x = false.
Proof.
  unfold bthread_id_list_reset2_safe, bthread_id_list_swap, bthread_id_list_reset2, apply, for_each_ids. cbn [fst snd]. destruct (apply_blocks_concat (blocks l) s) as [-> E].
  destruct (reset_block (concat (blocks l)) s) as (called & -> & E2 & E3 & E4). split; [|split; [done|by exists called]].
  eexists. split; [done|]. cbn [blocks set_blocks]. by rewrite E.
Qed.
End Reset.

(** A state that records the errors and destroys the identifiers they go to. *)
Lemma id_list_reset_witness : let s' := fst (bthread_id_list_reset2 (fun s x => negb (bool_decide (x ∈ s))) (fun x s => s ++ [x])
    (Some (snd (add (fun _ => true) [] 5 new_IdList))) []) in exists called, s' = foldl (fun s x => s ++ [x]) [] called.
Proof.
  pose proof (id_list_reset (fun s x => negb (bool_decide (x ∈ s))) (fun x s => s ++ [x])) as H.
  specialize (H ltac:(intros x y s; rewrite !negb_false_iff, !bool_decide_eq_true; intros; apply elem_of_app; by left)).
  destruct (H (snd (add (fun _ => true) [] 5 new_IdList)) []) as (_ & _ & c & Hc & _). by exists c.
Defined.

End IL.
