(* ===== verification/Butex.v ===== *)
(** * Butexes (src/src-bthread/butex.cpp)

    A butex is a word with a queue of waiters, the primitive under every
    synchronisation of bthreads and pthreads.  A waiter is an object on the stack
    of the thread that waits: it is put into the queue of a butex under that
    butex's lock, and a waker, the timer thread, an interrupting thread or (for
    a pthread) the waiter itself takes it out again.  The model has any number of
    butexes, of tasks that wait and of agents (wakers, timer callbacks,
    interrupting threads).  A step is one critical section or one access to
    shared state.  [fault] records an access to a waiter whose call has returned,
    and the resumption of a task that is not suspended in that wait. *)
From S2P Require Import Prelude.

Module Bx.

Definition EINTR : Z := 4.
Definition EWOULDBLOCK : Z := 11.
Definition ETIMEDOUT : Z := 110.

Inductive WaiterState :=
| WAITER_STATE_NONE
| WAITER_STATE_READY
| WAITER_STATE_TIMEDOUT
| WAITER_STATE_UNMATCHEDVALUE
| WAITER_STATE_INTERRUPTED.

(** [sleep_id]: none, or the state of the timer task it names. *)
Inductive sleep := NoSleep | Scheduled | Running | Finished.

(** [ButexBthreadWaiter] and [ButexPthreadWaiter]. *)
Record Waiter := mkWaiter {
  w_task : nat;
  is_pthread : bool;           (* tid == 0 *)
  initial_butex : nat;
  expected_value : Z;
  abstime : bool;              (* abstime != NULL *)
  prepend : bool;
  container : option nat;
  waiter_state : WaiterState;
  sleep_id : sleep;
  sig : bool;                  (* PTHREAD_SIGNALLED *)
  gone : bool }.               (* the call has returned *)

Record Butex := mkButex { value : Z; waiters : list nat; stuck : bool (* waiter_lock is never released *) }.

(** Where a task is in [butex_wait]. *)
Inductive TPC :=
| TIdle (rc : Z)               (* outside, with the last result: 0 or errno *)
| TPrep (w : nat)              (* before the critical section that queues *)
| TSleep (w : nat)             (* suspended, or in futex_wait *)
| TReady (w : nat)             (* made runnable: stop the timer *)
| PLoad (w : nat)              (* a pthread that timed out: erase_from_butex *)
| PLock (w : nat) (b : nat)
| PCheck (w : nat) (erased : bool)
| TSpin (w : nat) (rc : Z)     (* take current_waiter back *)
| TEnd (w : nat) (rc : Z).
Record Task := mkTask { pc : TPC; interrupted : bool; current_waiter : option nat }.

(** The work of a waker after its critical section. *)
Inductive act := Unsleep (w : nat) | Ready (w : nat) | Signal (w : nat) | FutexWake (w : nat).
Inductive eraser := ByTimer | ByInterrupt (t : nat).
Inductive APC :=
| AIdle
| AWake (l : list act)
| ALoad (e : eraser) (w : nat)
| ALock (e : eraser) (w : nat) (b : nat)
| AReady (e : eraser) (w : nat)
| AFutex (e : eraser) (w : nat)
| AEnd (e : eraser) (w : nat).

Record S := mkS { bs : list Butex; ws : list Waiter; ts : list Task; ags : list APC; fault : bool }.

Definition set_bs (l : list Butex) (s : S) : S := mkS l (ws s) (ts s) (ags s) (fault s).
Definition set_ws (l : list Waiter) (s : S) : S := mkS (bs s) l (ts s) (ags s) (fault s).
Definition set_ts (l : list Task) (s : S) : S := mkS (bs s) (ws s) l (ags s) (fault s).
Definition set_ags (l : list APC) (s : S) : S := mkS (bs s) (ws s) (ts s) l (fault s).
Definition set_fault (s : S) : S := mkS (bs s) (ws s) (ts s) (ags s) true.

Definition set_container (c : option nat) (x : Waiter) : Waiter :=
  mkWaiter (w_task x) (is_pthread x) (initial_butex x) (expected_value x) (abstime x) (prepend x) c (waiter_state x) (sleep_id x) (sig x) (gone x).
Definition set_state (st : WaiterState) (x : Waiter) : Waiter :=
  mkWaiter (w_task x) (is_pthread x) (initial_butex x) (expected_value x) (abstime x) (prepend x) (container x) st (sleep_id x) (sig x) (gone x).
Definition set_sleep (i : sleep) (x : Waiter) : Waiter :=
  mkWaiter (w_task x) (is_pthread x) (initial_butex x) (expected_value x) (abstime x) (prepend x) (container x) (waiter_state x) i (sig x) (gone x).
Definition set_sig (x : Waiter) : Waiter :=
  mkWaiter (w_task x) (is_pthread x) (initial_butex x) (expected_value x) (abstime x) (prepend x) (container x) (waiter_state x) (sleep_id x) true (gone x).
Definition no_abstime (x : Waiter) : Waiter :=
  mkWaiter (w_task x) (is_pthread x) (initial_butex x) (expected_value x) false (prepend x) (container x) (waiter_state x) (sleep_id x) (sig x) (gone x).
Definition set_gone (x : Waiter) : Waiter :=
  mkWaiter (w_task x) (is_pthread x) (initial_butex x) (expected_value x) (abstime x) (prepend x) (container x) (waiter_state x) (sleep_id x) (sig x) true.

Definition upd_w (w : nat) (f : Waiter -> Waiter) (s : S) : S :=
  match ws s !! w with Some x => set_ws (<[w := f x]> (ws s)) s | None => s end.
Definition upd_all (l : list nat) (f : Waiter -> Waiter) (s : S) : S := foldr (fun w s => upd_w w f s) s l.
Definition upd_b (b : nat) (f : list nat -> list nat) (s : S) : S :=
  match bs s !! b with Some x => set_bs (<[b := mkButex (value x) (f (waiters x)) (stuck x)]> (bs s)) s | None => s end.
Definition set_pc (t : nat) (p : TPC) (s : S) : S :=
  match ts s !! t with Some x => set_ts (<[t := mkTask p (interrupted x) (current_waiter x)]> (ts s)) s | None => s end.
Definition set_agent (i : nat) (p : APC) (s : S) : S := set_ags (<[i := p]> (ags s)) s.
Definition remove_w (w : nat) (l : list nat) : list nat := List.filter (fun v => negb (v =? w)%nat) l.

(** An access to a waiter. *)
Definition touch (w : nat) (s : S) : S :=
  match ws s !! w with Some x => if gone x then set_fault s else s | None => set_fault s end.

(** [ready_to_run] of the task of a waiter. *)
Definition ready_to_run (w : nat) (s : S) : S :=
  let s := touch w s in
  match ws s !! w with
  | Some x =>
      match ts s !! w_task x with
      | Some T => match pc T with
                  | TSleep v => if (v =? w)%nat then set_pc (w_task x) (TReady w) s else set_fault s
                  | _ => set_fault s
                  end
      | None => set_fault s
      end
  | None => s
  end.
(** [wakeup_pthread] up to futex_wake_private, which is a step of its own ([FutexWake],
    [AFutex]): it gives the kernel the address of [sig] and does not touch the waiter,
    which may be gone by then.  A futex_wait may return 0 without it, so that
    [FutexReturns] does not wait for it. *)
Definition wakeup_pthread (w : nat) (s : S) : S := upd_w w set_sig (touch w s).
(** What a waker or eraser does to the waiter that it has taken out. *)
Definition wakeup (w : nat) (s : S) : S :=
  match ws s !! w with
  | Some x => if is_pthread x then wakeup_pthread w s else ready_to_run w s
  | None => set_fault s
  end.
(** [unsleep_if_necessary]: whether it succeeded. *)
Definition unsleep (x : Waiter) : bool * Waiter :=
  match sleep_id x with
  | NoSleep => (true, x)
  | Running => (false, x)
  | Scheduled | Finished => (true, set_sleep NoSleep x)
  end.

Definition signals (pth : list nat) : list act := concat (map (fun w => [Signal w; FutexWake w]) pth).
(** The work of [butex_wake_n]: pthreads in order, then the bthreads but the
    first from the last one on, and the first bthread in the end. *)
Definition wake_acts (s : S) (taken : list nat) : list act :=
  let pth := List.filter (fun w => default false (is_pthread <$> ws s !! w)) taken in
  let bth := List.filter (fun w => negb (default false (is_pthread <$> ws s !! w))) taken in
  signals pth ++
  match bth with
  | [] => []
  | next :: rest => Unsleep next :: concat (map (fun w => [Unsleep w; Ready w]) (rev rest)) ++ [Ready next]
  end.
(** [butex_wake_except]: all bthreads from the last one on. *)
Definition wake_except_acts (s : S) (taken : list nat) : list act :=
  let pth := List.filter (fun w => default false (is_pthread <$> ws s !! w)) taken in
  let bth := List.filter (fun w => negb (default false (is_pthread <$> ws s !! w))) taken in
  signals pth ++ concat (map (fun w => [Unsleep w; Ready w]) (rev bth)).

(** ** Tasks: [butex_wait], [wait_for_butex], [butex_wait_from_pthread], [wait_pthread] *)

Inductive tcall :=
| Wait (b : nat) (expected : Z) (timed expired pre pthread : bool)
| Go (timer_runs : bool)       (* the next step; whether the timer thread still takes tasks *)
| FutexReturns (fell_asleep : bool)
| FutexTimeout.

Definition enqueue (w : nat) (pre : bool) (l : list nat) : list nat := if pre then w :: l else l ++ [w].

Definition queued (s : S) (w b : nat) (x : Waiter) : S := upd_w w (set_container (Some b)) (upd_b b (enqueue w (prepend x)) s).
(** The critical section of [wait_for_butex], after the context switch.  When
    the timer thread has stopped, [erase_from_butex_and_wakeup] locks
    [waiter_lock] again, which is held. *)
Definition wait_for_butex (s : S) (t : nat) (T : Task) (w : nat) (x : Waiter) (timer_runs : bool) : option S :=
  B ← bs s !! initial_butex x;
  if stuck B then None else
  let b := initial_butex x in
  if negb (value B =? expected_value x) then Some (set_pc t (TReady w) (upd_w w (set_state WAITER_STATE_UNMATCHEDVALUE) s))
  else if interrupted T then Some (set_pc t (TReady w) s)
  else if negb (abstime x) then Some (set_pc t (TSleep w) (queued s w b x))
  else if timer_runs then Some (set_pc t (TSleep w) (upd_w w (set_sleep Scheduled) (queued s w b x)))
  else Some (set_pc t (TSleep w) (match bs (queued s w b x) !! b with
                                  | Some B' => set_bs (<[b := mkButex (value B') (waiters B') true]> (bs (queued s w b x))) (queued s w b x)
                                  | None => queued s w b x
                                  end)).
(** The critical section of [butex_wait_from_pthread]. *)
Definition butex_wait_from_pthread (s : S) (t : nat) (T : Task) (w : nat) (x : Waiter) : option S :=
  B ← bs s !! initial_butex x;
  if stuck B then None
  else if negb (value B =? expected_value x) then Some (set_pc t (TSpin w EWOULDBLOCK) s)
  else if interrupted T then Some (set_ts (<[t := mkTask (TSpin w EINTR) false (current_waiter T)]> (ts s)) s)
  else Some (set_pc t (TSleep w) (queued s w (initial_butex x) x)).

(** The result of [butex_wait]. *)
Definition wait_result (x : Waiter) (was_interrupted : bool) (rc : Z) : Z :=
  if is_pthread x then if was_interrupted && (rc =? 0) then EINTR else rc
  else match waiter_state x with
       | WAITER_STATE_TIMEDOUT => ETIMEDOUT
       | WAITER_STATE_UNMATCHEDVALUE => EWOULDBLOCK
       | _ => if was_interrupted then EINTR else 0
       end.

(** [butex_wait] up to the critical section. *)
Definition butex_wait (s : S) (t : nat) (T : Task) (b : nat) (e : Z) (timed expired pre pthread : bool) : option S :=
  B ← bs s !! b;
  if negb (value B =? e) then Some (set_pc t (TIdle EWOULDBLOCK) s)
  else if timed && expired && negb pthread then Some (set_pc t (TIdle ETIMEDOUT) s)
  else
    let w := length (ws s) in
    let x := mkWaiter t pthread b e timed pre None WAITER_STATE_READY NoSleep false false in
    Some (set_ts (<[t := mkTask (TPrep w) (interrupted T) (Some w)]> (ts s)) (set_ws (ws s ++ [x]) s)).

(** [wait_pthread]: the futex returned, or timed out; then the waiter erases
    itself ([erase_from_butex]) unless somebody else has taken it out. *)
Definition futex_returned (s : S) (t w : nat) (x : Waiter) (fell_asleep : bool) : option S :=
  if is_pthread x && sig x then Some (set_pc t (TSpin w (if fell_asleep then 0 else EWOULDBLOCK)) s) else None.
Definition futex_timed_out (s : S) (t w : nat) (x : Waiter) : option S :=
  if is_pthread x && abstime x then Some (set_pc t (PLoad w) s) else None.
Definition self_erase_load (s : S) (t w : nat) (x : Waiter) : option S :=
  Some (set_pc t (match container x with Some b => PLock w b | None => PCheck w false end) s).
Definition self_erase_lock (s : S) (t w b : nat) (x : Waiter) : option S :=
  B ← bs s !! b;
  if stuck B then None
  else if bool_decide (container x = Some b)
       then Some (set_pc t (PCheck w true) (upd_w w (set_container None) (upd_b b (remove_w w) s)))
       else Some (set_pc t (PLoad w) s).
Definition after_self_erase (s : S) (t w : nat) (x : Waiter) (erased : bool) : option S :=
  Some (if erased || sig x then set_pc t (TSpin w ETIMEDOUT) s else set_pc t (TSleep w) (upd_w w no_abstime s)).

(** The end of [butex_wait]: the loop that stops the timer, the loop that takes
    [current_waiter] back, and the return. *)
Definition stop_timer (s : S) (t w : nat) (x : Waiter) : option S :=
  let u := unsleep x in
  Some (if fst u then set_pc t (TSpin w 0) (upd_w w (fun _ => snd u) s) else s).
Definition take_current_waiter (s : S) (t : nat) (T : Task) (w : nat) (rc : Z) : option S :=
  match current_waiter T with
  | None => Some s
  | Some _ => Some (set_ts (<[t := mkTask (TEnd w rc) (interrupted T) None]> (ts s)) s)
  end.
Definition wait_return (s : S) (t : nat) (T : Task) (w : nat) (x : Waiter) (rc : Z) : option S :=
  Some (set_ts (<[t := mkTask (TIdle (wait_result x (interrupted T) rc)) false (current_waiter T)]> (ts s)) (upd_w w set_gone s)).

Definition task_step (s : S) (t : nat) (c : tcall) : option S :=
  T ← ts s !! t;
  match pc T, c with
  | TIdle _, Wait b e timed expired pre pthread => butex_wait s t T b e timed expired pre pthread
  | TPrep w, Go tr => x ← ws s !! w; if is_pthread x then butex_wait_from_pthread s t T w x else wait_for_butex s t T w x tr
  | TSleep w, FutexReturns fell_asleep => x ← ws s !! w; futex_returned s t w x fell_asleep
  | TSleep w, FutexTimeout => x ← ws s !! w; futex_timed_out s t w x
  | PLoad w, Go _ => x ← ws s !! w; self_erase_load s t w x
  | PLock w b, Go _ => x ← ws s !! w; self_erase_lock s t w b x
  | PCheck w erased, Go _ => x ← ws s !! w; after_self_erase s t w x erased
  | TReady w, Go _ => x ← ws s !! w; stop_timer s t w x
  | TSpin w rc, Go _ => take_current_waiter s t T w rc
  | TEnd w rc, Go _ => x ← ws s !! w; wait_return s t T w x rc
  | _, _ => None
  end.

(** ** Agents *)

Inductive acall :=
| Wake (b : nat)
| WakeN (b n : nat)
| WakeExcept (b : nat) (excluded : option nat)
| Requeue (b m : nat)
| FireTimer (w : nat)
| Interrupt (t : nat)
| AGo.

Definition take_out (i : nat) (b : nat) (taken left_ : list nat) (acts : list act) (s : S) : S :=
  set_agent i (AWake acts) (upd_all taken (set_container None) (upd_b b (fun _ => left_) s)).

Definition is_excluded (s : S) (excluded : option nat) (w : nat) : bool :=
  match ws s !! w, excluded with
  | Some x, Some t => negb (is_pthread x) && (w_task x =? t)%nat
  | _, _ => false
  end.

Definition butex_wake (s : S) (i b : nat) : option S :=
  B ← bs s !! b;
  if stuck B then None
  else Some match waiters B with [] => s | front :: rest => take_out i b [front] rest (wake_acts s [front]) s end.
(** [butex_wake_all] is [butex_wake_n] with 0. *)
Definition butex_wake_n (s : S) (i b n : nat) : option S :=
  B ← bs s !! b;
  if stuck B then None
  else let k := if (n =? 0)%nat then length (waiters B) else n in
       Some (take_out i b (take k (waiters B)) (drop k (waiters B)) (wake_acts s (take k (waiters B))) s).
Definition butex_wake_except (s : S) (i b : nat) (excluded : option nat) : option S :=
  B ← bs s !! b;
  if stuck B then None
  else let out := List.filter (fun w => negb (is_excluded s excluded w)) (waiters B) in
       Some (take_out i b out (option_list (last (List.filter (is_excluded s excluded) (waiters B)))) (wake_except_acts s out) s).
Definition butex_requeue (s : S) (i b m : nat) : option S :=
  B ← bs s !! b; M ← bs s !! m;
  if stuck B || stuck M || (b =? m)%nat then None
  else Some match waiters B with
            | [] => s
            | front :: rest =>
                upd_all rest (set_container (Some m)) (upd_b m (fun l => l ++ rest) (take_out i b [front] [] (wake_acts s [front]) s))
            end.
(** The timer thread runs [erase_from_butex_and_wakeup]. *)
Definition fire_timer (s : S) (i w : nat) : option S :=
  x ← ws s !! w;
  match sleep_id x with
  | Scheduled => Some (set_agent i (ALoad ByTimer w) (upd_w w (set_sleep Running) s))
  | _ => None
  end.
(** [interrupt_and_consume_waiters] of task_group.cpp. *)
Definition interrupt_and_consume_waiters (s : S) (i t : nat) : option S :=
  T ← ts s !! t;
  let s := set_ts (<[t := mkTask (pc T) true None]> (ts s)) s in
  Some match current_waiter T with
       | Some w => set_agent i (ALoad (ByInterrupt t) w) s
       | None => s
       end.
Definition wake_step (s : S) (i : nat) (c : acall) : option S :=
  match c with
  | Wake b => butex_wake s i b
  | WakeN b n => butex_wake_n s i b n
  | WakeExcept b excluded => butex_wake_except s i b excluded
  | Requeue b m => butex_requeue s i b m
  | FireTimer w => fire_timer s i w
  | Interrupt t => interrupt_and_consume_waiters s i t
  | AGo => None
  end.

(** [erase_from_butex] by the timer or by an interrupting thread. *)
Definition erased_state (e : eraser) : WaiterState :=
  match e with ByTimer => WAITER_STATE_TIMEDOUT | ByInterrupt _ => WAITER_STATE_INTERRUPTED end.

Definition erase_from_butex (s : S) (i : nat) (p : APC) : option S :=
  match p with
  | ALoad e w =>
      x ← ws s !! w;
      Some (set_agent i (match container x with Some b => ALock e w b | None => AEnd e w end) (touch w s))
  | ALock e w b =>
      x ← ws s !! w; B ← bs s !! b;
      if stuck B then None
      else if bool_decide (container x = Some b)
           then Some (set_agent i (AReady e w) (upd_w w (fun x => set_container None (if is_pthread x then x else set_state (erased_state e) x))
                        (upd_b b (remove_w w) (touch w s))))
           else Some (set_agent i (ALoad e w) (touch w s))
  | AReady e w => Some (set_agent i (match ws s !! w with Some x => if is_pthread x then AFutex e w else AEnd e w | None => AEnd e w end) (wakeup w s))
  | AFutex e w => Some (set_agent i (AEnd e w) s)
  | _ => None
  end.
(** [set_butex_waiter] of task_group.cpp. *)
Definition set_butex_waiter (s : S) (i t w : nat) : option S :=
  T ← ts s !! t;
  Some (set_agent i AIdle (set_ts (<[t := mkTask (pc T) (interrupted T) (Some w)]> (ts s)) s)).
(** One of the waiters that a waker has taken out. *)
Definition do_act (s : S) (i : nat) (a : act) (l : list act) : S :=
  set_agent i (AWake l)
    match a with
    | Unsleep w => upd_w w (fun x => snd (unsleep x)) (touch w s)
    | Ready w => ready_to_run w s
    | Signal w => wakeup_pthread w s
    | FutexWake w => s
    end.
Definition agent_go (s : S) (i : nat) (p : APC) : option S :=
  match p with
  | AIdle => None
  | AWake [] => Some (set_agent i AIdle s)
  | AWake (a :: l) => Some (do_act s i a l)
  | AEnd ByTimer w => Some (set_agent i AIdle (upd_w w (set_sleep Finished) s))
  | AEnd (ByInterrupt t) w => set_butex_waiter s i t w
  | _ => erase_from_butex s i p
  end.

Definition agent_step (s : S) (i : nat) (c : acall) : option S :=
  p ← ags s !! i;
  match p, c with
  | AIdle, _ => wake_step s i c
  | _, AGo => agent_go s i p
  | _, _ => None
  end.

Inductive step : S -> S -> Prop :=
| step_task s t c s' : task_step s t c = Some s' -> step s s'
| step_agent s i c s' : agent_step s i c = Some s' -> step s s'
| step_value s b B v : bs s !! b = Some B -> step s (set_bs (<[b := mkButex v (waiters B) (stuck B)]> (bs s)) s).

Definition init (nb nt na : nat) : S :=
  mkS (replicate nb (mkButex 0 [] false)) [] (replicate nt (mkTask (TIdle 0) false None)) (replicate na AIdle) false.
Definition reachable (nb nt na : nat) : S -> Prop := steps step (init nb nt na).

Inductive call := CT (t : nat) (c : tcall) | CA (i : nat) (c : acall) | CV (b : nat) (v : Z).
Definition do_call (s : S) (c : call) : option S :=
  match c with
  | CT t c => task_step s t c
  | CA i c => agent_step s i c
  | CV b v => B ← bs s !! b; Some (set_bs (<[b := mkButex v (waiters B) (stuck B)]> (bs s)) s)
  end.
Fixpoint run (l : list call) (s : S) : option S :=
  match l with [] => Some s | c :: l' => s' ← do_call s c; run l' s' end.

(** ** The state by its waiters, tasks and butexes *)

Definition no_waiter : Waiter := mkWaiter 0 false 0 0 false false None WAITER_STATE_NONE NoSleep false true.
Definition no_task : Task := mkTask (TIdle 0) false None.
Definition W (s : S) (w : nat) : Waiter := default no_waiter (ws s !! w).
Definition T (s : S) (t : nat) : Task := default no_task (ts s !! t).
Definition queue (s : S) (b : nat) : list nat := default [] (waiters <$> bs s !! b).
Definition cnt (s : S) (b w : nat) : nat := count_occ Nat.eq_dec (queue s b) w.

(** The waiter of a task. *)
Definition pcw (p : TPC) : option nat :=
  match p with
  | TIdle _ => None
  | TPrep w | TSleep w | TReady w | PLoad w | PLock w _ | PCheck w _ | TSpin w _ | TEnd w _ => Some w
  end.
(** The task still waits to be woken. *)
Definition waits (p : TPC) (w : nat) : bool :=
  match p with TSleep v | PLoad v | PLock v _ | PCheck v false => (v =? w)%nat | _ => false end.
Definition before_end (p : TPC) : bool := match p with TIdle _ | TEnd _ _ => false | _ => true end.

Definition is_some {A} (o : option A) : bool := match o with Some _ => true | None => false end.
Definition wakes (w : nat) (a : act) : nat := match a with Ready v | Signal v => b2n (v =? w)%nat | Unsleep _ | FutexWake _ => 0 end.
(** The right to wake a waiter. *)
Definition aright (w : nat) (p : APC) : nat :=
  match p with AWake l => sum_list_with (wakes w) l | AReady _ v => b2n (v =? w)%nat | _ => 0 end.
Definition erasing (p : APC) : option (eraser * nat) :=
  match p with ALoad e w | ALock e w _ | AReady e w | AFutex e w | AEnd e w => Some (e, w) | _ => None end.
Definition atimer (w : nat) (p : APC) : nat := match erasing p with Some (ByTimer, v) => b2n (v =? w)%nat | _ => 0 end.
Definition aintr (t : nat) (p : APC) : nat := match erasing p with Some (ByInterrupt u, _) => b2n (u =? t)%nat | _ => 0 end.
Definition rights (s : S) (w : nat) : nat := sum_list_with (aright w) (ags s).
Definition timers (s : S) (w : nat) : nat := sum_list_with (atimer w) (ags s).
Definition intrs (s : S) (t : nat) : nat := sum_list_with (aintr t) (ags s).

Definition expect (s : S) (w : nat) : nat := b2n (waits (pc (T s (w_task (W s w)))) w && negb (sig (W s w))).

Fixpoint acts_ok (k : nat -> bool) (l : list act) : Prop :=
  match l with
  | [] => True
  | Unsleep w :: l' => Ready w ∈ l' /\ acts_ok k l'
  | Ready w :: l' => k w = false /\ acts_ok k l'
  | Signal w :: l' => k w = true /\ acts_ok k l'
  | FutexWake w :: l' => True /\ acts_ok k l'
  end.
Definition agent_ok (s : S) (p : APC) : Prop :=
  match p with
  | AWake l => acts_ok (fun w => is_pthread (W s w)) l
  | _ => match erasing p with Some (ByInterrupt t, w) => pcw (pc (T s t)) = Some w | _ => True end
  end.
Definition pc_ok (x : Waiter) (p : TPC) : Prop :=
  match p with
  | TPrep _ => container x = None /\ sleep_id x = NoSleep /\ sig x = false
  | TReady _ => is_pthread x = false
  | PLoad _ | PLock _ _ | PCheck _ _ => is_pthread x = true
  | _ => True
  end.
Definition timed (x : Waiter) : bool := match sleep_id x with Scheduled | Running => true | _ => false end.
Definition is_running (x : Waiter) : bool := match sleep_id x with Running => true | _ => false end.

Record inv (s : S) : Prop := {
  v_fault : fault s = false;
  v_cnt : forall b w, cnt s b w = b2n (bool_decide (container (W s w) = Some b));
  v_right : forall w, (rights s w + b2n (is_some (container (W s w))) = expect s w)%nat;
  v_pc : forall t w, pcw (pc (T s t)) = Some w -> w_task (W s w) = t /\ gone (W s w) = false /\ pc_ok (W s w) (pc (T s t));
  v_gone : forall w, gone (W s w) = false -> pcw (pc (T s (w_task (W s w)))) = Some w;
  v_sig : forall w, is_pthread (W s w) = false -> sig (W s w) = false;
  v_timer : forall w, timers s w = b2n (is_running (W s w)) /\
    (timed (W s w) = true -> is_pthread (W s w) = false /\ (pc (T s (w_task (W s w))) = TSleep w \/ pc (T s (w_task (W s w))) = TReady w));
  v_intr : forall t, (intrs s t + b2n (is_some (current_waiter (T s t))) = b2n (before_end (pc (T s t))))%nat /\
    (forall w, current_waiter (T s t) = Some w -> pcw (pc (T s t)) = Some w);
  v_agents : forall i p, ags s !! i = Some p -> agent_ok s p }.

(** Looking at a state after an update. *)
Lemma W_lookup s w x : ws s !! w = Some x -> W s w = x.
Proof. intros H. unfold W. by rewrite H. Qed.
Lemma T_lookup s t x : ts s !! t = Some x -> T s t = x.
Proof. intros H. unfold T. by rewrite H. Qed.
Lemma queue_lookup s b x : bs s !! b = Some x -> queue s b = waiters x.
Proof. intros H. unfold queue. by rewrite H. Qed.
Lemma not_gone s w : gone (W s w) = false -> exists x, ws s !! w = Some x /\ W s w = x.
Proof. unfold W. destruct (ws s !! w) as [x|] eqn:E; [|done]. cbn. eauto. Qed.
Lemma W_upd s w f x v : ws s !! w = Some x -> W (upd_w w f s) v = if decide (v = w) then f x else W s v.
Proof.
  intros H. unfold upd_w. rewrite H. unfold W, set_ws. cbn [ws]. destruct (decide (v = w)) as [->|Hne].
  - rewrite list_lookup_insert_eq; [done|]. by eapply lookup_lt_Some.
  - by rewrite list_lookup_insert_ne.
Qed.
Lemma T_set s t p x u : ts s !! t = Some x -> T (set_pc t p s) u = if decide (u = t) then mkTask p (interrupted x) (current_waiter x) else T s u.
Proof.
  intros H. unfold set_pc. rewrite H. unfold T, set_ts. cbn [ts]. destruct (decide (u = t)) as [->|Hne].
  - rewrite list_lookup_insert_eq; [done|]. by eapply lookup_lt_Some.
  - by rewrite list_lookup_insert_ne.
Qed.
Lemma T_set_ts s t x y u : ts s !! t = Some x -> T (set_ts (<[t := y]> (ts s)) s) u = if decide (u = t) then y else T s u.
Proof.
  intros H. unfold T, set_ts. cbn [ts]. destruct (decide (u = t)) as [->|Hne].
  - rewrite list_lookup_insert_eq; [done|]. by eapply lookup_lt_Some.
  - by rewrite list_lookup_insert_ne.
Qed.
Lemma queue_upd s b f x c : bs s !! b = Some x -> queue (upd_b b f s) c = if decide (c = b) then f (waiters x) else queue s c.
Proof.
  intros H. unfold upd_b. rewrite H. unfold queue, set_bs. cbn [bs]. destruct (decide (c = b)) as [->|Hne].
  - rewrite list_lookup_insert_eq; [done|]. by eapply lookup_lt_Some.
  - by rewrite list_lookup_insert_ne.
Qed.

Lemma expect_pos s w : inv s -> (0 < rights s w)%nat -> waits (pc (T s (w_task (W s w)))) w = true /\ sig (W s w) = false /\ container (W s w) = None /\ rights s w = 1%nat.
Proof.
  intros HI H. pose proof (v_right _ HI w) as HR. unfold expect in HR. destruct (waits _ w), (sig (W s w)), (container (W s w)); cbn in HR; try lia. split_and!; try done. lia.
Qed.
Lemma waits_pcw p w : waits p w = true -> pcw p = Some w.
Proof. destruct p as [| |v|v|v|v b|v []| |]; cbn; try done; intros H; apply Nat.eqb_eq in H; by subst. Qed.

(** A step that concerns one task and its waiter. *)
Lemma inv_focus s s' t w :
  inv s -> pcw (pc (T s t)) = Some w -> fault s' = false ->
  (forall u, u <> t -> T s' u = T s u) -> (forall v, v <> w -> W s' v = W s v) ->
  (forall b v, v <> w -> cnt s' b v = cnt s b v) -> (forall v, v <> w -> rights s' v = rights s v) ->
  (forall v, v <> w -> timers s' v = timers s v) -> (forall u, u <> t -> intrs s' u = intrs s u) ->
  pcw (pc (T s' t)) = Some w -> w_task (W s' w) = t -> gone (W s' w) = false -> is_pthread (W s' w) = is_pthread (W s w) ->
  pc_ok (W s' w) (pc (T s' t)) ->
  (forall b, cnt s' b w = b2n (bool_decide (container (W s' w) = Some b))) ->
  (rights s' w + b2n (is_some (container (W s' w))) = b2n (waits (pc (T s' t)) w && negb (sig (W s' w))))%nat ->
  (is_pthread (W s' w) = false -> sig (W s' w) = false) ->
  timers s' w = b2n (is_running (W s' w)) ->
  (timed (W s' w) = true -> is_pthread (W s' w) = false /\ (pc (T s' t) = TSleep w \/ pc (T s' t) = TReady w)) ->
  (intrs s' t + b2n (is_some (current_waiter (T s' t))) = b2n (before_end (pc (T s' t))))%nat ->
  (forall v, current_waiter (T s' t) = Some v -> v = w) ->
  (forall i p, ags s' !! i = Some p -> ags s !! i = Some p \/ agent_ok s' p) -> inv s'.
Proof.
  intros HI Ht HF HT HW HC HR HM HN P1 P2 P3 P4 P5 P6 P7 P8 P9 P10 P11 P12 HA.
  destruct (v_pc _ HI t w Ht) as (Et & Eg & _).
  assert (forall v, v <> w -> w_task (W s v) = t -> gone (W s v) = true) as Hother.
  { intros v Hv Hvt. destruct (gone (W s v)) eqn:E; [done|]. pose proof (v_gone _ HI v E) as H. rewrite Hvt, Ht in H. congruence. }
  assert (forall v, v <> w -> waits (pc (T s' (w_task (W s v)))) v = waits (pc (T s (w_task (W s v)))) v) as Hwaits.
  { intros v Hv. destruct (decide (w_task (W s v) = t)) as [E|E]; [|by rewrite HT]. rewrite E.
    destruct (waits (pc (T s' t)) v) eqn:E1; [apply waits_pcw in E1; congruence|]. destruct (waits (pc (T s t)) v) eqn:E2; [apply waits_pcw in E2; congruence|done]. }
  split; [done|..].
  - intros b v. destruct (decide (v = w)) as [->|Hv]; [apply P6|]. rewrite HC, HW by done. apply HI.
  - intros v. unfold expect. destruct (decide (v = w)) as [->|Hv]; [by rewrite P2, P7|]. rewrite HR, HW, Hwaits by done. apply HI.
  - intros u v Hv. destruct (decide (u = t)) as [->|Hu].
    + assert (v = w) as -> by congruence. done.
    + rewrite HT in * by done. destruct (v_pc _ HI u v Hv) as (E1 & E2 & E3). assert (v <> w) by congruence. by rewrite HW.
  - intros v Hg. destruct (decide (v = w)) as [->|Hv]; [by rewrite P2|]. rewrite HW in * by done. pose proof (v_gone _ HI v Hg) as H.
    destruct (decide (w_task (W s v) = t)) as [E|E]; [by rewrite (Hother v Hv E) in Hg|]. by rewrite HT.
  - intros v. destruct (decide (v = w)) as [->|Hv]; [done|]. rewrite HW by done. apply HI.
  - intros v. destruct (decide (v = w)) as [->|Hv]; [by rewrite P2|]. rewrite HM, HW by done. destruct (v_timer _ HI v) as [E1 E2]. split; [done|].
    intros Hti. destruct (E2 Hti) as [E3 E4]. split; [done|]. destruct (decide (w_task (W s v) = t)) as [E|E]; [|by rewrite HT].
    rewrite E in E4. destruct E4 as [E4|E4]; rewrite E4 in Ht; cbn in Ht; congruence.
  - intros u. destruct (decide (u = t)) as [->|Hu]; [|rewrite HN, HT by done; apply HI]. split; [done|]. intros v Hv. rewrite P1. f_equal. symmetry. by apply P12.
  - intros i p Hp. destruct (HA i p Hp) as [H|H]; [|done]. apply (v_agents _ HI) in H.
    assert (forall v, is_pthread (W s' v) = is_pthread (W s v)) as Hk by (intros v; destruct (decide (v = w)) as [->|Hv]; [done|by rewrite HW]).
    assert (forall u, pcw (pc (T s' u)) = pcw (pc (T s u))) as Hp' by (intros u; destruct (decide (u = t)) as [->|Hu]; [congruence|by rewrite HT]).
    destruct p as [|l|e v|e v b|e v|e v|e v]; cbn in *; try done; [|destruct e; by rewrite ?Hp'..].
    clear -H Hk. induction l as [|[v|v|v|v] l IH]; cbn in *; try done; rewrite ?Hk; tauto.
Qed.

(** A step that leaves the waiters alone. *)
Lemma inv_ext s s' : inv s -> fault s' = false -> (forall v, W s' v = W s v) -> (forall b v, cnt s' b v = cnt s b v) -> ags s' = ags s ->
  (forall u, current_waiter (T s' u) = current_waiter (T s u) /\
     (pc (T s' u) = pc (T s u) \/ pcw (pc (T s' u)) = None /\ pcw (pc (T s u)) = None)) -> inv s'.
Proof.
  intros HI HF HW HC HA HT.
  assert (forall u, pcw (pc (T s' u)) = pcw (pc (T s u))) as Hp by (intros u; destruct (HT u) as [_ [->|[-> ->]]]; done).
  assert (forall u v, waits (pc (T s' u)) v = waits (pc (T s u)) v) as Hw.
  { intros u v. destruct (HT u) as [_ [->|[E1 E2]]]; [done|]. destruct (waits (pc (T s' u)) v) eqn:E; [apply waits_pcw in E; congruence|].
    destruct (waits (pc (T s u)) v) eqn:E'; [apply waits_pcw in E'; congruence|done]. }
  assert (forall u, pcw (pc (T s' u)) <> None -> pc (T s' u) = pc (T s u)) as He by (intros u Hu; destruct (HT u) as [_ [->|[E1 E2]]]; done).
  split; [done|..].
  - intros b v. rewrite HC, HW. apply HI.
  - intros v. unfold expect, rights. rewrite HA, HW, Hw. apply HI.
  - intros u v Hv. rewrite He, HW by congruence. rewrite Hp in Hv. by apply HI.
  - intros v Hg. rewrite HW in *. rewrite Hp. by apply HI.
  - intros v. rewrite HW. apply HI.
  - intros v. unfold timers. rewrite HA, HW. destruct (v_timer _ HI v) as [E1 E2]. split; [done|]. intros Ht. destruct (E2 Ht) as [E3 E4]. split; [done|].
    destruct (HT (w_task (W s v))) as [_ [->|[_ E]]]; [done|]. destruct E4 as [E4|E4]; rewrite E4 in E; done.
  - intros u. unfold intrs. rewrite HA. destruct (HT u) as [-> Hu]. destruct (v_intr _ HI u) as [E1 E2]. rewrite Hp. split; [|done]. fold (intrs s u). rewrite E1. f_equal.
    destruct Hu as [->|[E3 E4]]; [done|]. destruct (pc (T s' u)), (pc (T s u)); done.
  - intros i p. rewrite HA. intros H%(v_agents _ HI). destruct p as [|l|e v|e v b|e v|e v|e v]; cbn in *; try done; [|destruct e; by rewrite ?Hp..].
    clear -H HW. induction l as [|[v|v|v|v] l IH]; cbn in *; try done; rewrite ?HW; tauto.
Qed.

(** Updates of one part leave the others alone. *)
Lemma ws_set_pc t p s : ws (set_pc t p s) = ws s. Proof. unfold set_pc. by destruct (ts s !! t). Qed.
Lemma bs_set_pc t p s : bs (set_pc t p s) = bs s. Proof. unfold set_pc. by destruct (ts s !! t). Qed.
Lemma ags_set_pc t p s : ags (set_pc t p s) = ags s. Proof. unfold set_pc. by destruct (ts s !! t). Qed.
Lemma fault_set_pc t p s : fault (set_pc t p s) = fault s. Proof. unfold set_pc. by destruct (ts s !! t). Qed.
Lemma ts_upd_w w f s : ts (upd_w w f s) = ts s. Proof. unfold upd_w. by destruct (ws s !! w). Qed.
Lemma bs_upd_w w f s : bs (upd_w w f s) = bs s. Proof. unfold upd_w. by destruct (ws s !! w). Qed.
Lemma ags_upd_w w f s : ags (upd_w w f s) = ags s. Proof. unfold upd_w. by destruct (ws s !! w). Qed.
Lemma fault_upd_w w f s : fault (upd_w w f s) = fault s. Proof. unfold upd_w. by destruct (ws s !! w). Qed.
Lemma ts_upd_b b f s : ts (upd_b b f s) = ts s. Proof. unfold upd_b. by destruct (bs s !! b). Qed.
Lemma ws_upd_b b f s : ws (upd_b b f s) = ws s. Proof. unfold upd_b. by destruct (bs s !! b). Qed.
Lemma ags_upd_b b f s : ags (upd_b b f s) = ags s. Proof. unfold upd_b. by destruct (bs s !! b). Qed.
Lemma fault_upd_b b f s : fault (upd_b b f s) = fault s. Proof. unfold upd_b. by destruct (bs s !! b). Qed.
Lemma ts_upd_all l f s : ts (upd_all l f s) = ts s. Proof. induction l; cbn; [done|]. by rewrite ts_upd_w. Qed.
Lemma bs_upd_all l f s : bs (upd_all l f s) = bs s. Proof. induction l; cbn; [done|]. by rewrite bs_upd_w. Qed.
Lemma ags_upd_all l f s : ags (upd_all l f s) = ags s. Proof. induction l; cbn; [done|]. by rewrite ags_upd_w. Qed.
Lemma fault_upd_all l f s : fault (upd_all l f s) = fault s. Proof. induction l; cbn; [done|]. by rewrite fault_upd_w. Qed.
Create Rewrite HintDb bx.
#[local] Hint Rewrite ws_set_pc bs_set_pc ags_set_pc fault_set_pc ts_upd_w bs_upd_w ags_upd_w fault_upd_w
  ts_upd_b ws_upd_b ags_upd_b fault_upd_b ts_upd_all bs_upd_all ags_upd_all fault_upd_all : bx.

Lemma T_of s s' u : ts s' = ts s -> T s' u = T s u. Proof. unfold T. by intros ->. Qed.
Lemma W_of s s' u : ws s' = ws s -> W s' u = W s u. Proof. unfold W. by intros ->. Qed.
Lemma cnt_of s s' b u : bs s' = bs s -> cnt s' b u = cnt s b u. Proof. unfold cnt, queue. by intros ->. Qed.
Lemma rights_of s s' u : ags s' = ags s -> rights s' u = rights s u. Proof. unfold rights. by intros ->. Qed.
Lemma timers_of s s' u : ags s' = ags s -> timers s' u = timers s u. Proof. unfold timers. by intros ->. Qed.
Lemma intrs_of s s' u : ags s' = ags s -> intrs s' u = intrs s u. Proof. unfold intrs. by intros ->. Qed.

(** A task takes a step that changes its program counter and its waiter. *)
Lemma inv_own s t X w x f p' : inv s -> ts s !! t = Some X -> ws s !! w = Some x -> pcw (pc X) = Some w -> pcw p' = Some w ->
  before_end p' = before_end (pc X) -> w_task (f x) = w_task x -> gone (f x) = gone x -> is_pthread (f x) = is_pthread x -> pc_ok (f x) p' ->
  container (f x) = container x -> sig (f x) = sig x -> waits p' w && negb (sig x) = waits (pc X) w && negb (sig x) ->
  is_running (f x) = is_running x -> (timed (f x) = true -> timed x = true /\ (p' = TSleep w \/ p' = TReady w)) ->
  inv (set_pc t p' (upd_w w f s)).
Proof.
  intros HI Ht Hw E1 E2 E3 E4 E5 E6 E7 E8 E9 E10 E11 E12. pose proof (T_lookup _ _ _ Ht) as ET. pose proof (W_lookup _ _ _ Hw) as EW.
  assert (pcw (pc (T s t)) = Some w) as E1' by (by rewrite ET). destruct (v_pc _ HI t w E1') as (F1 & F2 & _). rewrite EW in F1, F2.
  assert (ts (upd_w w f s) !! t = Some X) as Ht' by (by autorewrite with bx).
  assert (forall u, T (set_pc t p' (upd_w w f s)) u = if decide (u = t) then mkTask p' (interrupted X) (current_waiter X) else T s u) as HT.
  { intros u. rewrite (T_set _ _ _ _ _ Ht'). destruct (decide (u = t)); [done|]. apply T_of. by autorewrite with bx. }
  assert (forall v, W (set_pc t p' (upd_w w f s)) v = if decide (v = w) then f x else W s v) as HW.
  { intros v. rewrite (W_of (upd_w w f s)) by (by autorewrite with bx). by apply W_upd. }
  apply (inv_focus s _ t w); try done.
  - autorewrite with bx. apply HI.
  - intros u Hu. rewrite HT. by destruct (decide (u = t)).
  - intros v Hv. rewrite HW. by destruct (decide (v = w)).
  - intros b v _. apply cnt_of. by autorewrite with bx.
  - intros v _. apply rights_of. by autorewrite with bx.
  - intros v _. apply timers_of. by autorewrite with bx.
  - intros v _. apply intrs_of. by autorewrite with bx.
  - rewrite HT, decide_True by done. done.
  - rewrite HW, decide_True by done. congruence.
  - rewrite HW, decide_True by done. congruence.
  - rewrite HW, decide_True, EW by done. done.
  - rewrite HW, HT, !decide_True by done. done.
  - intros b. rewrite (cnt_of s) by (by autorewrite with bx). rewrite HW, decide_True, E8, <- EW by done. apply HI.
  - rewrite (rights_of s) by (by autorewrite with bx). rewrite HW, HT, !decide_True, E8, E9 by done. cbn [pc]. rewrite E10. pose proof (v_right _ HI w) as H. unfold expect in H.
    rewrite EW, F1, ET in H. done.
  - rewrite HW, decide_True, E6, E9, <- EW by done. apply HI.
  - rewrite (timers_of s) by (by autorewrite with bx). rewrite HW, decide_True, E11, <- EW by done. apply HI.
  - rewrite HW, HT, !decide_True by done. cbn [pc]. intros H. destruct (E12 H) as [H1 H2]. split; [|done]. rewrite E6. destruct (v_timer _ HI w) as [_ H3]. rewrite EW in H3. by apply H3.
  - rewrite (intrs_of s) by (by autorewrite with bx). rewrite HT, decide_True by done. cbn [pc current_waiter]. destruct (v_intr _ HI t) as [H _]. rewrite ET in H. by rewrite E3.
  - rewrite HT, decide_True by done. cbn [current_waiter]. intros v Hv. destruct (v_intr _ HI t) as [_ H]. rewrite ET in H. apply H in Hv. congruence.
  - intros i p. autorewrite with bx. by left.
Qed.
Lemma upd_w_id w s x : ws s !! w = Some x -> upd_w w (fun y => y) s = s.
Proof. intros H. unfold upd_w. rewrite H, list_insert_id by done. by destruct s. Qed.
(** The same when only the program counter changes. *)
Lemma inv_pc s t X w x p' : inv s -> ts s !! t = Some X -> ws s !! w = Some x -> pcw (pc X) = Some w -> pcw p' = Some w ->
  before_end p' = before_end (pc X) -> pc_ok x p' -> waits p' w && negb (sig x) = waits (pc X) w && negb (sig x) ->
  (timed x = true -> p' = TSleep w \/ p' = TReady w) -> inv (set_pc t p' s).
Proof. intros HI Ht Hw. rewrite <- (upd_w_id w s x Hw). intros. apply (inv_own s t X w x (fun y => y) p'); auto. Qed.

Lemma upd_w_comp w f g s : upd_w w f (upd_w w g s) = upd_w w (fun x => f (g x)) s.
Proof.
  unfold upd_w. destruct (ws s !! w) as [x|] eqn:E; [|by rewrite E]. cbn [ws set_ws].
  rewrite list_lookup_insert_eq by (by eapply lookup_lt_Some). unfold set_ws. cbn. by rewrite list_insert_insert_eq.
Qed.
Lemma count_enqueue w v pre l : count_occ Nat.eq_dec (enqueue w pre l) v = (count_occ Nat.eq_dec l v + b2n (w =? v)%nat)%nat.
Proof.
  unfold enqueue. destruct pre; [cbn|rewrite count_occ_app; cbn]; destruct (Nat.eq_dec w v), (Nat.eqb_spec w v); try done; cbn; lia.
Qed.
Lemma cnt_upd s b B f c v : bs s !! b = Some B -> cnt (upd_b b f s) c v = if decide (c = b) then count_occ Nat.eq_dec (f (waiters B)) v else cnt s c v.
Proof. intros H. unfold cnt. rewrite (queue_upd _ _ _ _ _ H). by destruct (decide (c = b)). Qed.
Lemma cnt_bs s b B v : bs s !! b = Some B -> cnt s b v = count_occ Nat.eq_dec (waiters B) v.
Proof. intros H. unfold cnt. by rewrite (queue_lookup _ _ _ H). Qed.

(** The waiter goes into the queue and its task to sleep. *)
Lemma inv_enqueue s t X w x b B pre g : inv s -> ts s !! t = Some X -> ws s !! w = Some x -> pc X = TPrep w -> bs s !! b = Some B ->
  (g = (fun y => y) \/ is_pthread x = false /\ g = set_sleep Scheduled) ->
  inv (set_pc t (TSleep w) (upd_w w g (upd_w w (set_container (Some b)) (upd_b b (enqueue w pre) s)))).
Proof.
  intros HI Ht Hw Ep Hb Hg. pose proof (T_lookup _ _ _ Ht) as ET. pose proof (W_lookup _ _ _ Hw) as EW. rewrite upd_w_comp. set (f := fun y => g (set_container (Some b) y)). set (s0 := upd_b b (enqueue w pre) s).
  assert (pcw (pc (T s t)) = Some w) as E1 by (by rewrite ET, Ep). destruct (v_pc _ HI t w E1) as (F1 & F2 & F3). rewrite EW in F1, F2, F3. rewrite ET, Ep in F3. destruct F3 as (F3 & F4 & F5).
  assert (container (f x) = Some b /\ w_task (f x) = t /\ gone (f x) = false /\ is_pthread (f x) = is_pthread x /\ sig (f x) = false /\ is_running (f x) = false) as (G1 & G2 & G3 & G4 & G5 & G6)
    by (unfold f; destruct Hg as [->|[_ ->]]; cbn; unfold is_running; cbn; rewrite ?F4; done).
  assert (rights s w = 0%nat) as HR by (pose proof (v_right _ HI w) as H; unfold expect in H; rewrite EW, F1, ET, Ep in H; cbn in H; lia).
  assert (ts (upd_w w f s0) !! t = Some X) as Ht' by (unfold s0; by autorewrite with bx). assert (ws s0 !! w = Some x) as Hw' by (unfold s0; by autorewrite with bx).
  assert (forall u, T (set_pc t (TSleep w) (upd_w w f s0)) u = if decide (u = t) then mkTask (TSleep w) (interrupted X) (current_waiter X) else T s u) as HT.
  { intros u. rewrite (T_set _ _ _ _ _ Ht'). destruct (decide (u = t)); [done|]. apply T_of. unfold s0. by autorewrite with bx. }
  assert (forall v, W (set_pc t (TSleep w) (upd_w w f s0)) v = if decide (v = w) then f x else W s v) as HW.
  { intros v. rewrite (W_of (upd_w w f s0)) by (by autorewrite with bx). rewrite (W_upd _ _ _ _ _ Hw'). destruct (decide (v = w)); [done|]. apply W_of. unfold s0. by autorewrite with bx. }
  assert (forall c v, cnt (set_pc t (TSleep w) (upd_w w f s0)) c v = (cnt s c v + if decide (c = b) then b2n (w =? v)%nat else 0)%nat) as HC.
  { intros c v. rewrite (cnt_of s0) by (by autorewrite with bx). unfold s0. rewrite (cnt_upd _ _ _ _ _ _ Hb). destruct (decide (c = b)) as [->|]; [|lia]. by rewrite count_enqueue, (cnt_bs _ _ _ _ Hb). }
  apply (inv_focus s _ t w); try done.
  - unfold s0. autorewrite with bx. apply HI.
  - intros u Hu. rewrite HT. by destruct (decide (u = t)).
  - intros v Hv. rewrite HW. by destruct (decide (v = w)).
  - intros c v Hv. rewrite HC. destruct (decide (c = b)), (Nat.eqb_spec w v); cbn; try lia; congruence.
  - intros v _. apply rights_of. unfold s0. by autorewrite with bx.
  - intros v _. apply timers_of. unfold s0. by autorewrite with bx.
  - intros v _. apply intrs_of. unfold s0. by autorewrite with bx.
  - rewrite HT, decide_True by done. done.
  - rewrite HW, decide_True by done. done.
  - rewrite HW, decide_True by done. done.
  - rewrite HW, decide_True, EW by done. done.
  - rewrite HT, decide_True by done. done.
  - intros c. rewrite HC, HW. destruct (decide (w = w)) as [_|?]; [|done]. rewrite G1, Nat.eqb_refl. rewrite (v_cnt _ HI), EW, F3, (bool_decide_eq_false_2 (None = Some c)) by done.
    destruct (decide (c = b)) as [->|]; [by rewrite (bool_decide_eq_true_2 (Some b = Some b))|by rewrite (bool_decide_eq_false_2 (Some b = Some c)) by congruence].
  - rewrite (rights_of s) by (unfold s0; by autorewrite with bx). rewrite HW, HT, !decide_True, G1, G5, HR by done. cbn. by rewrite Nat.eqb_refl.
  - by rewrite HW, decide_True by done.
  - rewrite (timers_of s) by (unfold s0; by autorewrite with bx). rewrite HW, decide_True, G6 by done. destruct (v_timer _ HI w) as [-> _]. rewrite EW. unfold is_running. by rewrite F4.
  - rewrite HW, HT, !decide_True, G4 by done. cbn [pc]. intros Hti. split; [|by left]. destruct Hg as [->|[? ->]]; [|done]. exfalso. unfold f, timed in Hti. cbn in Hti. by rewrite F4 in Hti.
  - rewrite (intrs_of s) by (unfold s0; by autorewrite with bx). rewrite HT, decide_True by done. cbn [pc current_waiter]. destruct (v_intr _ HI t) as [H _]. rewrite ET, Ep in H. done.
  - rewrite HT, decide_True by done. cbn [current_waiter]. intros v Hv. destruct (v_intr _ HI t) as [_ H]. rewrite ET, Ep in H. apply H in Hv. cbn in Hv. congruence.
  - intros i p. unfold s0. autorewrite with bx. by left.
Qed.

Lemma set_stuck_inv s t p b : inv (set_pc t p s) ->
  inv (set_pc t p (match bs s !! b with Some B' => set_bs (<[b := mkButex (value B') (waiters B') true]> (bs s)) s | None => s end)).
Proof.
  intros HI. destruct (bs s !! b) as [B|] eqn:Hb; [|done]. assert (forall q, set_pc t p (set_bs q s) = set_bs q (set_pc t p s)) as E by (intros q; unfold set_pc; cbn; by destruct (ts s !! t)).
  rewrite E. eapply inv_ext; eauto; try apply HI; try done.
  - intros c v. unfold cnt, queue. cbn [bs set_bs]. autorewrite with bx. destruct (decide (c = b)) as [->|Hne]; [rewrite list_lookup_insert_eq, Hb by (by eapply lookup_lt_Some); done|by rewrite list_lookup_insert_ne].
Qed.

Lemma prep_own s t X w x : inv s -> ts s !! t = Some X -> ws s !! w = Some x -> pc X = TPrep w -> container x = None /\ sleep_id x = NoSleep /\ sig x = false.
Proof.
  intros HI Ht Hw Ep. pose proof (T_lookup _ _ _ Ht) as ET. pose proof (W_lookup _ _ _ Hw) as EW.
  destruct (v_pc _ HI t w ltac:(by rewrite ET, Ep)) as (_ & _ & F3). by rewrite ET, Ep, EW in F3.
Qed.
Lemma queued_inv s t X w x B : inv s -> ts s !! t = Some X -> ws s !! w = Some x -> pc X = TPrep w -> bs s !! initial_butex x = Some B ->
  inv (set_pc t (TSleep w) (queued s w (initial_butex x) x)).
Proof.
  intros HI Ht Hw Ep Hb. pose proof (inv_enqueue s t X w x _ B (prepend x) (fun y => y) HI Ht Hw Ep Hb (or_introl eq_refl)) as H. rewrite upd_w_comp in H. exact H.
Qed.
Lemma wait_for_butex_inv s t X w x tr s' : inv s -> ts s !! t = Some X -> ws s !! w = Some x -> pc X = TPrep w -> is_pthread x = false -> wait_for_butex s t X w x tr = Some s' -> inv s'.
Proof.
  intros HI Ht Hw Ep Ek. destruct (prep_own s t X w x HI Ht Hw Ep) as (F3 & F4 & F5).
  unfold wait_for_butex. destruct (bs s !! initial_butex x) as [B|] eqn:Hb; [|done]. cbn [mbind option_bind]. destruct (stuck B); [done|].
  destruct (negb (value B =? expected_value x)); [intros [= <-]|destruct (interrupted X) eqn:Ei; [intros [= <-]|]].
  - eapply inv_own; eauto; rewrite ?Ep; try done; unfold timed; cbn; rewrite ?F4; done.
  - eapply inv_pc; eauto; rewrite ?Ep; done.
  - destruct (negb (abstime x)); [intros [= <-]|destruct tr; intros [= <-]].
    + by eapply queued_inv.
    + by eapply inv_enqueue; eauto.
    + by eapply set_stuck_inv, queued_inv.
Qed.
Lemma wait_from_pthread_inv s t X w x s' : inv s -> ts s !! t = Some X -> ws s !! w = Some x -> pc X = TPrep w -> butex_wait_from_pthread s t X w x = Some s' -> inv s'.
Proof.
  intros HI Ht Hw Ep. destruct (prep_own s t X w x HI Ht Hw Ep) as (F3 & F4 & F5).
  unfold butex_wait_from_pthread. destruct (bs s !! initial_butex x) as [B|] eqn:Hb; [|done]. cbn [mbind option_bind]. destruct (stuck B); [done|].
  destruct (negb (value B =? expected_value x)); [intros [= <-]|destruct (interrupted X) eqn:Ei; intros [= <-]; [|by eapply queued_inv]].
  - eapply inv_pc; eauto; rewrite ?Ep; try done; unfold timed; cbn; rewrite ?F4; done.
  - apply (inv_ext (set_pc t (TSpin w EINTR) s)); try done; [eapply inv_pc; eauto; rewrite ?Ep; try done; unfold timed; rewrite F4; done|..].
    + apply HI.
    + intros v. apply W_of. by autorewrite with bx.
    + intros c v. apply cnt_of. by autorewrite with bx.
    + by autorewrite with bx.
    + intros u. rewrite (T_set_ts _ _ _ _ _ Ht), (T_set _ _ _ _ _ Ht). destruct (decide (u = t)); (split; [done|by left]).
Qed.

Lemma count_remove w v l : count_occ Nat.eq_dec (remove_w w l) v = if decide (v = w) then 0%nat else count_occ Nat.eq_dec l v.
Proof.
  unfold remove_w. induction l as [|u l IH]; cbn; [by destruct (decide (v = w))|]. destruct (Nat.eqb_spec u w) as [->|Hu]; cbn.
  - rewrite IH. destruct (decide (v = w)) as [->|Hv]; [done|]. destruct (Nat.eq_dec w v); [congruence|done].
  - rewrite IH. destruct (Nat.eq_dec u v) as [->|]; destruct (decide (v = w)); congruence.
Qed.

(** A waiter found in a queue: its task waits, nobody has the right to wake it. *)
Lemma queued_facts s w b : inv s -> container (W s w) = Some b -> rights s w = 0%nat /\ waits (pc (T s (w_task (W s w)))) w = true /\ sig (W s w) = false.
Proof.
  intros HI Hc. pose proof (v_right _ HI w) as H. unfold expect in H. rewrite Hc in H. destruct (waits _ w), (sig (W s w)); cbn in H; lia.
Qed.
Lemma not_intr s t i p : inv s -> intrs s t = 0%nat -> ags s !! i = Some p -> forall w, erasing p <> Some (ByInterrupt t, w).
Proof.
  intros HI H0 Hp w E. pose proof (sum_lookup (aintr t) (ags s) i p Hp) as H. unfold intrs in H0. unfold aintr in H at 1. rewrite E, Nat.eqb_refl in H. cbn in H. lia.
Qed.

(** A call of [butex_wait] starts. *)
Lemma inv_new s t X x : inv s -> ts s !! t = Some X -> pcw (pc X) = None -> w_task x = t -> container x = None -> sleep_id x = NoSleep -> sig x = false -> gone x = false ->
  inv (set_ts (<[t := mkTask (TPrep (length (ws s))) (interrupted X) (Some (length (ws s)))]> (ts s)) (set_ws (ws s ++ [x]) s)).
Proof.
  intros HI Ht Ep F1 F2 F3 F4 F5. set (w := length (ws s)). pose proof (T_lookup _ _ _ Ht) as ET. set (s' := set_ts _ _).
  assert (forall u, T s' u = if decide (u = t) then mkTask (TPrep w) (interrupted X) (Some w) else T s u) as HT by (intros u; apply (T_set_ts (set_ws (ws s ++ [x]) s) _ _ _ _ Ht)).
  assert (W s w = no_waiter) as Ew by (unfold W; by rewrite lookup_ge_None_2 by (unfold w; lia)).
  assert (forall v, W s' v = if decide (v = w) then x else W s v) as HW.
  { intros v. unfold W. cbn [s' set_ts set_ws ws]. destruct (decide (v = w)) as [->|Hv]; [unfold w; by rewrite lookup_app_r, Nat.sub_diag by lia|].
    destruct (decide (v < w)%nat); [by rewrite lookup_app_l by (unfold w in *; lia)|]. rewrite !lookup_ge_None_2; [done|unfold w in *; lia|rewrite length_app; cbn; unfold w in *; lia]. }
  pose proof (v_right _ HI w) as HR. unfold expect in HR. rewrite Ew in HR. cbn [w_task no_waiter container is_some sig negb b2n] in HR. rewrite andb_true_r in HR.
  assert (forall u, pcw (pc (T s u)) <> Some w) as Hfresh by (intros u Hu; destruct (v_pc _ HI u w Hu) as (_ & Hg & _); by rewrite Ew in Hg).
  assert (waits (pc (T s 0)) w = false) as Hw0 by (destruct (waits _ w) eqn:E; [by apply waits_pcw, Hfresh in E|done]). rewrite Hw0 in HR. cbn in HR.
  destruct (v_intr _ HI t) as [HN _]. assert (before_end (pc X) = false) as Hbe by (by destruct (pc X)). rewrite ET, Hbe in HN. cbn in HN.
  assert (intrs s t = 0%nat) as HN0 by lia. assert (forall v, v <> w -> waits (pc (T s' (w_task (W s v)))) v = waits (pc (T s (w_task (W s v)))) v) as Hwaits.
  { intros v Hv. rewrite HT. destruct (decide (w_task (W s v) = t)) as [->|]; [|done]. rewrite ET. cbn. destruct (waits (pc X) v) eqn:E; [apply waits_pcw in E; congruence|done]. }
  split.
  - apply HI.
  - intros b v. rewrite (cnt_of s) by done. rewrite HW. destruct (decide (v = w)) as [->|]; [|apply HI]. rewrite F2. rewrite (v_cnt _ HI), Ew. done.
  - intros v. unfold expect. rewrite (rights_of s) by done. rewrite HW. destruct (decide (v = w)) as [->|Hv]; [|rewrite Hwaits by done; apply HI].
    rewrite F1, F2, HT, decide_True by done. cbn. lia.
  - intros u v Hv. rewrite HT in Hv |- *. rewrite HW. destruct (decide (u = t)) as [->|Hu].
    + cbn in Hv. injection Hv as <-. rewrite decide_True by done. done.
    + assert (v <> w) by (intros ->; by apply (Hfresh u)). rewrite decide_False by done. by apply HI.
  - intros v Hg. rewrite HW in *. destruct (decide (v = w)) as [->|Hv]; [rewrite F1, HT, decide_True by done; done|]. pose proof (v_gone _ HI v Hg) as H. rewrite HT.
    destruct (decide (w_task (W s v) = t)) as [E|]; [|done]. rewrite E, ET in H. congruence.
  - intros v. rewrite HW. destruct (decide (v = w)); [done|apply HI].
  - intros v. rewrite (timers_of s) by done. rewrite HW. destruct (decide (v = w)) as [->|Hv].
    + destruct (v_timer _ HI w) as [-> _]. unfold timed, is_running. rewrite Ew, F3. done.
    + destruct (v_timer _ HI v) as [E1 E2]. split; [done|]. intros Hti. destruct (E2 Hti) as [E3 E4]. split; [done|]. rewrite HT. destruct (decide (w_task (W s v) = t)) as [E|]; [|done].
      rewrite E, ET in E4. destruct E4 as [E4|E4]; rewrite E4 in Ep; done.
  - intros u. rewrite (intrs_of s) by done. rewrite HT. destruct (decide (u = t)) as [->|]; [|apply HI]. rewrite HN0. cbn. split; [done|]. congruence.
  - intros i p Hp. pose proof (v_agents _ HI i p Hp) as H.
    assert (forall u v, erasing p = Some (ByInterrupt u, v) -> pcw (pc (T s u)) = Some v -> pcw (pc (T s' u)) = Some v) as He.
    { intros u v E Hu. rewrite HT. destruct (decide (u = t)) as [->|]; [|done]. by apply (not_intr s t i p HI HN0 Hp) in E. }
    destruct p as [|l|e v|e v b|e v|e v|e v]; cbn in *; try done; [|destruct e; auto..].
    assert (sum_list_with (wakes w) l = 0%nat) as H0 by (pose proof (sum_lookup (aright w) (ags s) i _ Hp) as H0; unfold rights in HR; cbn in H0; lia).
    clear -H H0 HW. induction l as [|[v|v|v|v] l IH]; cbn in *; try done; try (split; [apply H|]; apply IH; [apply H|lia]; fail);
      (destruct (Nat.eqb_spec v w) as [->|Hv]; cbn in H0; [lia|]); rewrite HW, decide_False by done; (split; [apply H|]); apply IH; [apply H|lia|apply H|lia].
Qed.

(** A call of [butex_wait] returns. *)
Lemma inv_return s t X w x rc r : inv s -> ts s !! t = Some X -> ws s !! w = Some x -> pc X = TEnd w rc ->
  inv (set_ts (<[t := mkTask (TIdle r) false (current_waiter X)]> (ts s)) (upd_w w set_gone s)).
Proof.
  intros HI Ht Hw Ep. pose proof (T_lookup _ _ _ Ht) as ET. pose proof (W_lookup _ _ _ Hw) as EW. set (s' := set_ts _ _).
  assert (forall u, T s' u = if decide (u = t) then mkTask (TIdle r) false (current_waiter X) else T s u) as HT.
  { intros u. unfold s'. rewrite <- (ts_upd_w w set_gone s). rewrite (T_set_ts _ _ X) by (by autorewrite with bx). destruct (decide (u = t)); [done|]. apply T_of. by autorewrite with bx. }
  assert (forall v, W s' v = if decide (v = w) then set_gone x else W s v) as HW by (intros v; rewrite (W_of (upd_w w set_gone s)) by done; by apply W_upd).
  assert (ags s' = ags s) as EA by (unfold s'; cbn; by autorewrite with bx).
  assert (pcw (pc (T s t)) = Some w) as E1 by (by rewrite ET, Ep). destruct (v_pc _ HI t w E1) as (F1 & F2 & _). rewrite EW in F1, F2.
  destruct (v_intr _ HI t) as [HN _]. rewrite ET, Ep in HN. cbn in HN. assert (intrs s t = 0%nat) as HN0 by lia.
  assert (forall v, waits (pc (T s' (w_task (W s v)))) v = waits (pc (T s (w_task (W s v)))) v) as Hwaits.
  { intros v. rewrite HT. destruct (decide (w_task (W s v) = t)) as [->|]; [|done]. by rewrite ET, Ep. }
  assert (forall v, v <> w -> gone (W s v) = false -> w_task (W s v) <> t) as Hother.
  { intros v Hv Hg E. pose proof (v_gone _ HI v Hg) as H. rewrite E, E1 in H. congruence. }
  split.
  - unfold s'. cbn. autorewrite with bx. apply HI.
  - intros b v. rewrite (cnt_of s) by (unfold s'; cbn; by autorewrite with bx). rewrite HW. destruct (decide (v = w)) as [->|]; [|apply HI]. cbn. rewrite <- EW. apply HI.
  - intros v. unfold expect. rewrite (rights_of s) by done. rewrite HW. destruct (decide (v = w)) as [->|Hv]; [|rewrite Hwaits; apply HI].
    cbn [set_gone w_task container sig]. rewrite <- EW, Hwaits. apply HI.
  - intros u v Hv. rewrite HT in Hv |- *. destruct (decide (u = t)) as [->|Hu]; [done|]. destruct (v_pc _ HI u v Hv) as (G1 & G2 & G3). rewrite HW.
    destruct (decide (v = w)) as [->|]; [|done]. rewrite EW in G1. congruence.
  - intros v Hg. rewrite HW in *. destruct (decide (v = w)) as [->|Hv]; [done|]. rewrite HT, decide_False by (by apply Hother). by apply HI.
  - intros v. rewrite HW. destruct (decide (v = w)) as [->|]; [|apply HI]. cbn. rewrite <- EW. apply HI.
  - intros v. rewrite (timers_of s) by done. destruct (v_timer _ HI v) as [E2 E3]. rewrite HW. destruct (decide (v = w)) as [->|Hv].
    + rewrite EW in *. unfold timed, is_running in *. cbn. split; [done|]. intros Hti. destruct (E3 Hti) as [_ E4]. rewrite F1, ET, Ep in E4. by destruct E4.
    + split; [done|]. intros Hti. destruct (E3 Hti) as [E4 E5]. split; [done|]. rewrite HT. destruct (decide (w_task (W s v) = t)) as [E|]; [|done].
      rewrite E, ET, Ep in E5. by destruct E5.
  - intros u. rewrite (intrs_of s) by done. rewrite HT. destruct (decide (u = t)) as [->|]; [|apply HI]. cbn. split; [lia|]. destruct (current_waiter X); cbn in HN; [lia|done].
  - intros i p. rewrite EA. intros Hp. pose proof (v_agents _ HI i p Hp) as H.
    assert (forall u v, erasing p = Some (ByInterrupt u, v) -> pcw (pc (T s u)) = Some v -> pcw (pc (T s' u)) = Some v) as He.
    { intros u v E Hu. rewrite HT. destruct (decide (u = t)) as [->|]; [|done]. by apply (not_intr s t i p HI HN0 Hp) in E. }
    assert (forall v, is_pthread (W s' v) = is_pthread (W s v)) as Hk by (intros v; rewrite HW; destruct (decide (v = w)) as [->|]; [by rewrite EW|done]).
    destruct p as [|l|e v|e v b|e v|e v|e v]; cbn in *; try done; [|destruct e; auto..].
    clear -H Hk. induction l as [|[v|v|v|v] l IH]; cbn in *; try done; rewrite ?Hk; tauto.
Qed.

(** A waiter leaves its queue. *)
Lemma erase_cnt s s' b B w : inv s -> bs s !! b = Some B -> bs s' = bs (upd_b b (remove_w w) s) -> container (W s w) = Some b ->
  (forall c v, v <> w -> cnt s' c v = cnt s c v) /\ forall c, cnt s' c w = 0%nat.
Proof.
  intros HI Hb E Hc. assert (forall c v, cnt s' c v = if decide (c = b) then if decide (v = w) then 0%nat else cnt s c v else cnt s c v) as HC.
  { intros c v. rewrite (cnt_of (upd_b b (remove_w w) s)) by done. rewrite (cnt_upd _ _ _ _ _ _ Hb). destruct (decide (c = b)) as [->|]; [|done]. by rewrite count_remove, (cnt_bs _ _ _ _ Hb). }
  split.
  - intros c v Hv. rewrite HC. destruct (decide (c = b)); [by rewrite decide_False|done].
  - intros c. rewrite HC. destruct (decide (c = b)) as [->|Hne]; [by rewrite decide_True|]. rewrite (v_cnt _ HI), Hc, bool_decide_eq_false_2; [done|congruence].
Qed.

(** The pthread that timed out takes its own waiter out. *)
Lemma perase_inv s t X w x b B : inv s -> ts s !! t = Some X -> ws s !! w = Some x -> pc X = PLock w b -> bs s !! b = Some B -> container x = Some b ->
  inv (set_pc t (PCheck w true) (upd_w w (set_container None) (upd_b b (remove_w w) s))).
Proof.
  intros HI Ht Hw Ep Hb Hc. pose proof (T_lookup _ _ _ Ht) as ET. pose proof (W_lookup _ _ _ Hw) as EW. set (s' := set_pc _ _ _).
  assert (pcw (pc (T s t)) = Some w) as E1 by (by rewrite ET, Ep). destruct (v_pc _ HI t w E1) as (F1 & F2 & F3). rewrite EW in F1, F2, F3. rewrite ET, Ep in F3. cbn in F3.
  assert (forall u, T s' u = if decide (u = t) then mkTask (PCheck w true) (interrupted X) (current_waiter X) else T s u) as HT.
  { intros u. unfold s'. rewrite (T_set _ _ _ X) by (by autorewrite with bx). destruct (decide (u = t)); [done|]. apply T_of. by autorewrite with bx. }
  assert (forall v, W s' v = if decide (v = w) then set_container None x else W s v) as HW.
  { intros v. unfold s'. rewrite (W_of (upd_w w (set_container None) (upd_b b (remove_w w) s))) by (by autorewrite with bx). rewrite (W_upd _ _ _ x) by (by autorewrite with bx). destruct (decide (v = w)); [done|]. apply W_of. by autorewrite with bx. }
  assert (ags s' = ags s) as EA by (unfold s'; by autorewrite with bx). rewrite <- EW in Hc.
  destruct (erase_cnt s s' b B w HI Hb ltac:(unfold s'; by autorewrite with bx) Hc) as [HC1 HC2]. destruct (queued_facts s w b HI Hc) as (HR & _ & Hs). rewrite EW in Hs.
  apply (inv_focus s _ t w); try done.
  - unfold s'. autorewrite with bx. apply HI.
  - intros u Hu. rewrite HT. by destruct (decide (u = t)).
  - intros v Hv. rewrite HW. by destruct (decide (v = w)).
  - intros v _. by apply rights_of.
  - intros v _. by apply timers_of.
  - intros v _. by apply intrs_of.
  - by rewrite HT, decide_True by done.
  - by rewrite HW, decide_True by done.
  - by rewrite HW, decide_True by done.
  - by rewrite HW, decide_True, EW by done.
  - by rewrite HW, HT, !decide_True by done.
  - intros c. rewrite HC2, HW, decide_True by done. by rewrite bool_decide_eq_false_2.
  - rewrite (rights_of s) by done. rewrite HW, HT, !decide_True, HR by done. done.
  - rewrite HW, decide_True by done. cbn. congruence.
  - rewrite (timers_of s) by done. rewrite HW, decide_True by done. destruct (v_timer _ HI w) as [-> _]. by rewrite EW.
  - rewrite HW, decide_True by done. cbn. intros Hti. destruct (v_timer _ HI w) as [_ H]. rewrite EW in H. destruct (H Hti) as [H1 _]. congruence.
  - rewrite (intrs_of s) by done. rewrite HT, decide_True by done. cbn. destruct (v_intr _ HI t) as [H _]. by rewrite ET, Ep in H.
  - rewrite HT, decide_True by done. cbn. intros v Hv. destruct (v_intr _ HI t) as [_ H]. rewrite ET, Ep in H. apply H in Hv. cbn in Hv. congruence.
  - intros i p. rewrite EA. by left.
Qed.

(** The task takes its waiter back from the interrupting threads. *)
Lemma spin_inv s t X w x rc v : inv s -> ts s !! t = Some X -> ws s !! w = Some x -> pc X = TSpin w rc -> current_waiter X = Some v ->
  inv (set_ts (<[t := mkTask (TEnd w rc) (interrupted X) None]> (ts s)) s).
Proof.
  intros HI Ht Hw Ep Hv. pose proof (T_lookup _ _ _ Ht) as ET. pose proof (W_lookup _ _ _ Hw) as EW. set (s' := set_ts _ _).
  assert (pcw (pc (T s t)) = Some w) as E1 by (by rewrite ET, Ep). destruct (v_pc _ HI t w E1) as (F1 & F2 & F3).
  assert (forall u, T s' u = if decide (u = t) then mkTask (TEnd w rc) (interrupted X) None else T s u) as HT by (intros u; by apply (T_set_ts _ _ X)).
  destruct (v_intr _ HI t) as [HN _]. rewrite ET, Ep, Hv in HN. cbn in HN. pose proof (v_right _ HI w) as HR. unfold expect in HR. rewrite F1, ET, Ep in HR.
  apply (inv_focus s s' t w); try done.
  - apply HI.
  - intros u Hu. rewrite HT. by destruct (decide (u = t)).
  - by rewrite HT, decide_True by done.
  - by rewrite HT, decide_True by done.
  - intros c. apply HI.
  - rewrite HT, decide_True by done. exact HR.
  - apply HI.
  - apply HI.
  - intros Hti. destruct (v_timer _ HI w) as [_ H]. destruct (H Hti) as [_ H1]. rewrite F1, ET, Ep in H1. by destruct H1.
  - rewrite HT, decide_True, (intrs_of s) by done. cbn [pc current_waiter is_some b2n before_end]. lia.
  - by rewrite HT, decide_True by done.
  - by left.
Qed.

Lemma task_inv s t c s' : inv s -> task_step s t c = Some s' -> inv s'.
Proof.
  intros HI. unfold task_step. destruct (ts s !! t) as [X|] eqn:Ht; [|done]. cbn. pose proof (T_lookup _ _ _ Ht) as ET.
  assert (forall w, pcw (pc X) = Some w -> exists x, ws s !! w = Some x /\ w_task x = t /\ gone x = false /\ pc_ok x (pc X) /\
    (waits (pc X) w && negb (sig x) = bool_decide (0 < rights s w + b2n (is_some (container x)))%nat) /\
    (timed x = true -> is_pthread x = false /\ (pc X = TSleep w \/ pc X = TReady w))) as Hown.
  { intros w E. rewrite <- ET in E. destruct (v_pc _ HI t w E) as (F1 & F2 & F3). destruct (not_gone s w F2) as (x & Hx & EW). exists x. rewrite EW in *. rewrite ET in *.
    split_and!; try done; [|intros H; destruct (v_timer _ HI w) as [_ Hti]; rewrite EW, F1, ET in Hti; by apply Hti].
    pose proof (v_right _ HI w) as HR. unfold expect in HR. rewrite EW, F1, ET in HR. destruct (waits (pc X) w && negb (sig x)); cbn in HR; symmetry; [apply bool_decide_eq_true_2|apply bool_decide_eq_false_2]; lia. }
  destruct (pc X) as [r|w|w|w|w|w b|w er|w rc|w rc] eqn:Ep; destruct c as [b0 e ti ex pre pth|tr|fa|]; try done;
    unfold butex_wait, futex_returned, futex_timed_out, self_erase_load, self_erase_lock, after_self_erase, stop_timer, take_current_waiter, wait_return.
  - destruct (bs s !! b0) as [B|] eqn:Hb; [|done]. cbn. assert (forall rc, inv (set_pc t (TIdle rc) s)) as Hidle.
    { intros rc. apply (inv_ext s); try done; autorewrite with bx; try apply HI; try done; [intros v; apply W_of; by autorewrite with bx|intros c v; apply cnt_of; by autorewrite with bx|].
      intros u. rewrite (T_set _ _ _ _ _ Ht). destruct (decide (u = t)) as [->|]; [|by split; [|left]]. rewrite ET, Ep. split; [done|by right]. }
    destruct (negb (value B =? e)); [by intros [= <-]|]. destruct (ti && ex && negb pth); [by intros [= <-]|]. intros [= <-]. apply inv_new; try done. by rewrite Ep.
  - destruct (Hown w eq_refl) as (x & Hx & _). rewrite Hx. cbn. destruct (is_pthread x) eqn:Ek; [by apply wait_from_pthread_inv|by apply wait_for_butex_inv].
  - destruct (Hown w eq_refl) as (x & Hx & _ & _ & _ & _ & H5). rewrite Hx. cbn. destruct (is_pthread x) eqn:Ek, (sig x) eqn:Es; try done. intros [= <-].
    eapply inv_pc; eauto; rewrite ?Ep; try done; [by rewrite Es, !andb_false_r|]. intros Hti. by destruct (H5 Hti).
  - destruct (Hown w eq_refl) as (x & Hx & _ & _ & _ & _ & H5). rewrite Hx. cbn. destruct (is_pthread x) eqn:Ek, (abstime x) eqn:Es; try done. intros [= <-].
    eapply inv_pc; eauto; rewrite ?Ep; try done. intros Hti. by destruct (H5 Hti).
  - destruct (Hown w eq_refl) as (x & Hx & _ & _ & _ & _ & H5). rewrite Hx. cbn. intros [= <-]. pose proof (inv_own s t X w x (fun _ => snd (unsleep x)) (TSpin w 0) HI Ht Hx) as Ho. rewrite Ep in Ho.
    destruct (unsleep x) as [ok x'] eqn:Eu. cbn [fst snd] in *. destruct ok; [|done]. unfold unsleep in Eu. destruct (sleep_id x) eqn:Esl; try discriminate; injection Eu as <-;
      apply Ho; try done; unfold is_running, timed; cbn; rewrite ?Esl; done.
  - destruct (Hown w eq_refl) as (x & Hx & _ & _ & H3 & _ & H5). rewrite Hx. cbn. intros [= <-]. cbn in H3.
    destruct (container x) as [b|] eqn:Ec; eapply inv_pc; eauto; rewrite ?Ep; try done; intros Hti; destruct (H5 Hti); congruence.
  - destruct (Hown w eq_refl) as (x & Hx & _ & _ & H3 & _ & H5). rewrite Hx. cbn. destruct (bs s !! b) as [B|] eqn:Hb; [|done]. cbn. destruct (stuck B); [done|]. cbn in H3.
    destruct (bool_decide_reflect (container x = Some b)) as [Hc|Hc]; intros [= <-]; [by eapply perase_inv|]. eapply inv_pc; eauto; rewrite ?Ep; try done. intros Hti. destruct (H5 Hti). congruence.
  - destruct (Hown w eq_refl) as (x & Hx & _ & _ & H3 & _ & H5). rewrite Hx. cbn. cbn in H3. intros [= <-].
    assert (timed x = true -> False) as Hnt by (intros Hti; destruct (H5 Hti); congruence). destruct (er || sig x) eqn:Ee.
    + eapply inv_pc; eauto; rewrite ?Ep; try done. cbn. apply orb_true_iff in Ee as [->| ->]; [done|by rewrite !andb_false_r].
    + apply orb_false_iff in Ee as [-> Es]. eapply inv_own; eauto; rewrite ?Ep; done.
  - destruct (Hown w eq_refl) as (x & Hx & _). destruct (current_waiter X) as [v|] eqn:Ec; intros [= <-]; [|done]. by eapply spin_inv.
  - destruct (Hown w eq_refl) as (x & Hx & _). rewrite Hx. cbn. intros [= <-]. by eapply inv_return.
Qed.

(** ** The steps of agents *)

Lemma agent_sum (f : nat -> APC -> nat) s i p p' v : ags s !! i = Some p ->
  (sum_list_with (f v) (<[i := p']> (ags s)) + f v p = sum_list_with (f v) (ags s) + f v p')%nat.
Proof. apply sum_insert. Qed.

Lemma inv_agent s s0 i p p' t w x x' X' :
  inv s -> ags s !! i = Some p -> ags s0 = ags s -> fault s0 = false -> pcw (pc (T s t)) = Some w -> W s w = x ->
  (forall u, T s0 u = if decide (u = t) then X' else T s u) -> (forall v, W s0 v = if decide (v = w) then x' else W s v) ->
  (forall b v, v <> w -> cnt s0 b v = cnt s b v) -> (forall b, cnt s0 b w = b2n (bool_decide (container x' = Some b))) ->
  (forall v, v <> w -> aright v p' = aright v p /\ atimer v p' = atimer v p) -> (forall u, u <> t -> aintr u p' = aintr u p) ->
  pcw (pc X') = Some w -> w_task x' = t -> gone x' = false -> is_pthread x' = is_pthread x -> pc_ok x' (pc X') ->
  (rights s w + aright w p' + b2n (is_some (container x')) = aright w p + b2n (waits (pc X') w && negb (sig x')))%nat ->
  (is_pthread x' = false -> sig x' = false) ->
  (timers s w + atimer w p' = atimer w p + b2n (is_running x'))%nat ->
  (timed x' = true -> is_pthread x' = false /\ (pc X' = TSleep w \/ pc X' = TReady w)) ->
  (intrs s t + aintr t p' + b2n (is_some (current_waiter X')) = aintr t p + b2n (before_end (pc X')))%nat ->
  (forall v, current_waiter X' = Some v -> v = w) -> agent_ok (set_agent i p' s0) p' -> inv (set_agent i p' s0).
Proof.
  intros HI Hi EA HF Ht EW HT HW HC1 HC2 HA1 HA2 P1 P2 P3 P4 P5 P6 P7 P8 P9 P10 P11 HK.
  assert (T (set_agent i p' s0) t = X') as HTt by (rewrite (T_of s0) by done; by rewrite HT, decide_True).
  assert (W (set_agent i p' s0) w = x') as HWw by (rewrite (W_of s0) by done; by rewrite HW, decide_True).
  assert (forall v, rights (set_agent i p' s0) v + aright v p = rights s v + aright v p')%nat as HR by (intros v; unfold rights, set_agent; cbn; rewrite EA; by apply agent_sum).
  assert (forall v, timers (set_agent i p' s0) v + atimer v p = timers s v + atimer v p')%nat as HM by (intros v; unfold timers, set_agent; cbn; rewrite EA; by apply agent_sum).
  assert (forall u, intrs (set_agent i p' s0) u + aintr u p = intrs s u + aintr u p')%nat as HN by (intros u; unfold intrs, set_agent; cbn; rewrite EA; by apply agent_sum).
  apply (inv_focus s _ t w); try done; rewrite ?HTt, ?HWw, ?EW; try done.
  - intros u Hu. rewrite (T_of s0) by done. by rewrite HT, decide_False.
  - intros v Hv. rewrite (W_of s0) by done. by rewrite HW, decide_False.
  - intros v Hv. specialize (HR v). destruct (HA1 v Hv). lia.
  - intros v Hv. specialize (HM v). destruct (HA1 v Hv). lia.
  - intros u Hu. specialize (HN u). specialize (HA2 u Hu). lia.
  - specialize (HR w). lia.
  - specialize (HM w). lia.
  - specialize (HN t). lia.
  - intros j q Hq. cbn in Hq. rewrite EA in Hq. destruct (decide (j = i)) as [->|Hj].
    + rewrite list_lookup_insert_eq in Hq by (by eapply lookup_lt_Some). right. by injection Hq as <-.
    + rewrite list_lookup_insert_ne in Hq by done. by left.
Qed.

(** An agent moves on without touching anything. *)
Lemma inv_move s i p p' : inv s -> ags s !! i = Some p -> (forall v, aright v p' = aright v p) -> erasing p' = erasing p -> agent_ok s p' -> inv (set_agent i p' s).
Proof.
  intros HI Hi HA HE HK. assert (forall v, rights (set_agent i p' s) v = rights s v) as HR by (intros v; unfold rights; cbn; pose proof (agent_sum aright s i p p' v Hi); rewrite HA in *; lia).
  assert (forall v, timers (set_agent i p' s) v = timers s v) as HM by (intros v; unfold timers; cbn; pose proof (agent_sum atimer s i p p' v Hi) as H; unfold atimer in *; rewrite HE in *; lia).
  assert (forall v, intrs (set_agent i p' s) v = intrs s v) as HN by (intros v; unfold intrs; cbn; pose proof (agent_sum aintr s i p p' v Hi) as H; unfold aintr in *; rewrite HE in *; lia).
  destruct HI as [I1 I2 I3 I4 I5 I6 I7 I8 I9]. split; try done.
  - intros w. rewrite HR. apply I3.
  - intros w. rewrite HM. apply I7.
  - intros t. rewrite HN. apply I8.
  - intros j q Hq. cbn in Hq. destruct (decide (j = i)) as [->|Hj].
    + rewrite list_lookup_insert_eq in Hq by (by eapply lookup_lt_Some). by injection Hq as <-.
    + rewrite list_lookup_insert_ne in Hq by done. by eapply I9.
Qed.

Lemma touch_ok s w : gone (W s w) = false -> touch w s = s.
Proof. intros H. destruct (not_gone s w H) as (x & Hx & E). unfold touch. rewrite Hx. rewrite E in H. by rewrite H. Qed.

(** The waiter of an eraser has not returned. *)
Lemma erasing_own s i p e w : inv s -> ags s !! i = Some p -> erasing p = Some (e, w) ->
  pcw (pc (T s (w_task (W s w)))) = Some w /\ gone (W s w) = false /\
  match e with ByTimer => is_running (W s w) = true | ByInterrupt t => w_task (W s w) = t end.
Proof.
  intros HI Hi HE. destruct e as [|t].
  - pose proof (sum_lookup (atimer w) (ags s) i p Hi) as H. unfold atimer in H at 1. rewrite HE, Nat.eqb_refl in H. cbn in H. destruct (v_timer _ HI w) as [E1 E2]. unfold timers in E1.
    destruct (is_running (W s w)) eqn:Er; cbn in E1; [|lia]. assert (timed (W s w) = true) as Ht by (unfold timed, is_running in *; by destruct (sleep_id (W s w))).
    assert (pcw (pc (T s (w_task (W s w)))) = Some w) as Hp by (by destruct (E2 Ht) as [_ [-> | ->]]). split_and!; [done| |done]. by destruct (v_pc _ HI _ _ Hp) as (_ & ? & _).
  - pose proof (v_agents _ HI i p Hi) as H. assert (pcw (pc (T s t)) = Some w) as Hp by (destruct p; cbn in *; try done; injection HE as -> ->; done).
    destruct (v_pc _ HI _ _ Hp) as (E1 & E2 & _). rewrite E1. done.
Qed.

(** The waiter that an agent has the right to wake. *)
Lemma right_own s i p w : inv s -> ags s !! i = Some p -> (0 < aright w p)%nat ->
  waits (pc (T s (w_task (W s w)))) w = true /\ sig (W s w) = false /\ container (W s w) = None /\ rights s w = 1%nat /\ aright w p = 1%nat /\ gone (W s w) = false /\
  (is_pthread (W s w) = false -> pc (T s (w_task (W s w))) = TSleep w).
Proof.
  intros HI Hi Hp. pose proof (sum_lookup (aright w) (ags s) i p Hi) as H. destruct (expect_pos s w HI) as (E1 & E2 & E3 & E4); [unfold rights; lia|].
  pose proof (waits_pcw _ _ E1) as Hw. destruct (v_pc _ HI _ _ Hw) as (_ & Hg & Hk). split_and!; try done; [unfold rights in E4; lia|].
  intros Ek. destruct (pc (T s (w_task (W s w)))) as [| |v|v|v|v b|v []| |]; cbn in *; try congruence.
Qed.

Lemma agent_ok_same s s' p : agent_ok s p -> (forall v, is_pthread (W s' v) = is_pthread (W s v)) -> (forall u, pcw (pc (T s' u)) = pcw (pc (T s u))) -> agent_ok s' p.
Proof.
  intros H Hk Hp. destruct p as [|l|e v|e v b|e v|e v|e v]; cbn in *; try done; [|destruct e; by rewrite ?Hp..].
  clear -H Hk. induction l as [|[v|v|v|v] l IH]; cbn in *; try done; rewrite ?Hk; tauto.
Qed.
Lemma atimer_erasing p p' v : erasing p' = erasing p -> atimer v p' = atimer v p.
Proof. unfold atimer. by intros ->. Qed.
Lemma aintr_erasing p p' v : erasing p' = erasing p -> aintr v p' = aintr v p.
Proof. unfold aintr. by intros ->. Qed.
Lemma task_lookup s t w : pcw (pc (T s t)) = Some w -> ts s !! t = Some (T s t).
Proof. unfold T. by destruct (ts s !! t). Qed.

(** A suspended bthread is made runnable. *)
Lemma ready_inv s i p p' w : inv s -> ags s !! i = Some p -> is_pthread (W s w) = false -> aright w p = Datatypes.S (aright w p') ->
  (forall v, v <> w -> aright v p' = aright v p) -> erasing p' = erasing p -> agent_ok s p' -> inv (set_agent i p' (ready_to_run w s)).
Proof.
  intros HI Hi Ek Er Ho He Hok. destruct (right_own s i p w HI Hi ltac:(lia)) as (E1 & E2 & E3 & E4 & E5 & E6 & E7). specialize (E7 Ek). set (t := w_task (W s w)) in *.
  destruct (not_gone s w E6) as (x & Hx & EW). assert (pcw (pc (T s t)) = Some w) as Hp by (by rewrite E7). pose proof (task_lookup s t w Hp) as Ht.
  assert (ready_to_run w s = set_pc t (TReady w) s) as ->.
  { unfold ready_to_run. rewrite touch_ok, Hx by done. assert (w_task x = t) as -> by (unfold t; by rewrite EW). rewrite Ht, E7. by rewrite Nat.eqb_refl. }
  set (X' := mkTask (TReady w) (interrupted (T s t)) (current_waiter (T s t))).
  assert (forall u, T (set_pc t (TReady w) s) u = if decide (u = t) then X' else T s u) as HT by (intros u; by rewrite (T_set _ _ _ _ _ Ht)).
  assert (forall v, W (set_pc t (TReady w) s) v = W s v) as HW by (intros v; apply W_of; by autorewrite with bx).
  destruct (v_intr _ HI t) as [HN1 HN2]. destruct (v_timer _ HI w) as [HM1 HM2].
  eapply (inv_agent s _ i p p' t w (W s w) (W s w) X'); try done.
  - by autorewrite with bx.
  - autorewrite with bx. apply HI.
  - intros v. rewrite HW. by destruct (decide (v = w)) as [->|].
  - intros b v _. apply cnt_of. by autorewrite with bx.
  - intros b. rewrite (cnt_of s) by (by autorewrite with bx). apply HI.
  - intros v Hv. split; [by apply Ho|by apply atimer_erasing].
  - intros u _. by apply aintr_erasing.
  - rewrite E3. cbn. lia.
  - rewrite (atimer_erasing p p') by done. fold (timers s w) in *. lia.
  - intros Hti. split; [done|by right].
  - rewrite (aintr_erasing p p') by done. rewrite E7 in HN1. cbn [current_waiter X' pc before_end] in *. lia.
  - intros v Hv. specialize (HN2 v Hv). rewrite E7 in HN2. cbn in HN2. congruence.
  - eapply agent_ok_same; [exact Hok|..]; [intros v; by rewrite (W_of (set_pc t (TReady w) s)), HW by done|].
    intros u. rewrite (T_of (set_pc t (TReady w) s)), HT by done. destruct (decide (u = t)) as [->|]; [by rewrite E7|done].
Qed.

(** A pthread is signalled. *)
Lemma signal_inv s i p p' w : inv s -> ags s !! i = Some p -> is_pthread (W s w) = true -> aright w p = Datatypes.S (aright w p') ->
  (forall v, v <> w -> aright v p' = aright v p) -> erasing p' = erasing p -> agent_ok s p' -> inv (set_agent i p' (wakeup_pthread w s)).
Proof.
  intros HI Hi Ek Er Ho He Hok. destruct (right_own s i p w HI Hi ltac:(lia)) as (E1 & E2 & E3 & E4 & E5 & E6 & _). set (t := w_task (W s w)) in *.
  destruct (not_gone s w E6) as (x & Hx & EW). pose proof (waits_pcw _ _ E1) as Hp. destruct (v_pc _ HI _ _ Hp) as (F1 & _ & F3).
  unfold wakeup_pthread. rewrite touch_ok by done.
  assert (forall v, W (upd_w w set_sig s) v = if decide (v = w) then set_sig (W s w) else W s v) as HW by (intros v; rewrite (W_upd _ _ _ _ _ Hx); by rewrite EW).
  assert (forall u, T (upd_w w set_sig s) u = T s u) as HT by (intros u; apply T_of; by autorewrite with bx).
  destruct (v_intr _ HI t) as [HN1 HN2]. destruct (v_timer _ HI w) as [HM1 HM2].
  eapply (inv_agent s _ i p p' t w (W s w) (set_sig (W s w)) (T s t)); try done.
  - by autorewrite with bx.
  - autorewrite with bx. apply HI.
  - intros u. rewrite HT. by destruct (decide (u = t)) as [->|].
  - intros b v _. apply cnt_of. by autorewrite with bx.
  - intros b. rewrite (cnt_of s) by (by autorewrite with bx). apply HI.
  - intros v Hv. split; [by apply Ho|by apply atimer_erasing].
  - intros u _. by apply aintr_erasing.
  - destruct (pc (T s t)); done.
  - cbn [set_sig container sig]. rewrite E3, andb_false_r. cbn. lia.
  - cbn. congruence.
  - rewrite (atimer_erasing p p') by done. change (is_running (set_sig (W s w))) with (is_running (W s w)). lia.
  - rewrite (aintr_erasing p p') by done. lia.
  - intros v Hv. specialize (HN2 v Hv). congruence.
  - eapply agent_ok_same; [exact Hok|..]; [intros v; rewrite (W_of (upd_w w set_sig s)), HW by done; by destruct (decide (v = w)) as [->|]|].
    intros u. by rewrite (T_of (upd_w w set_sig s)), HT by done.
Qed.

(** The timer of a waiter is stopped by its waker. *)
Lemma unsleep_inv s i w l : inv s -> ags s !! i = Some (AWake (Unsleep w :: l)) -> inv (set_agent i (AWake l) (upd_w w (fun x => snd (unsleep x)) (touch w s))).
Proof.
  intros HI Hi. pose proof (v_agents _ HI i _ Hi) as [Hr Hl]. assert (0 < aright w (AWake (Unsleep w :: l)))%nat as Hpos.
  { cbn. apply list_elem_of_lookup in Hr as [k Hk]. pose proof (sum_lookup (wakes w) l k _ Hk) as H. cbn in H. rewrite Nat.eqb_refl in H. cbn in H. lia. }
  destruct (right_own s i _ w HI Hi Hpos) as (E1 & E2 & E3 & E4 & E5 & E6 & _). set (t := w_task (W s w)) in *.
  destruct (not_gone s w E6) as (x & Hx & EW). pose proof (waits_pcw _ _ E1) as Hp. destruct (v_pc _ HI _ _ Hp) as (F1 & _ & F3). rewrite touch_ok by done.
  set (x' := snd (unsleep (W s w))). assert (w_task x' = t /\ is_pthread x' = is_pthread (W s w) /\ container x' = container (W s w) /\ sig x' = sig (W s w) /\ gone x' = gone (W s w) /\
    is_running x' = is_running (W s w) /\ (timed x' = true -> timed (W s w) = true) /\ (forall q, pc_ok (W s w) q -> pc_ok x' q)) as (G1 & G2 & G3 & G4 & G5 & G6 & G7 & G8).
  { unfold x', unsleep, is_running, timed. destruct (sleep_id (W s w)) eqn:Es; cbn; rewrite ?Es; split_and!; try done; intros [] H; cbn in *; try done; destruct H as (? & ? & ?); try done; congruence. }
  assert (forall v, W (upd_w w (fun x => snd (unsleep x)) s) v = if decide (v = w) then x' else W s v) as HW by (intros v; rewrite (W_upd _ _ _ _ _ Hx); unfold x'; by rewrite EW).
  assert (forall u, T (upd_w w (fun x => snd (unsleep x)) s) u = T s u) as HT by (intros u; apply T_of; by autorewrite with bx).
  destruct (v_intr _ HI t) as [HN1 HN2]. destruct (v_timer _ HI w) as [HM1 HM2]. pose proof (v_right _ HI w) as HR. unfold expect in HR. fold t in HR.
  eapply (inv_agent s _ i _ (AWake l) t w (W s w) x' (T s t)); try done.
  - by autorewrite with bx.
  - autorewrite with bx. apply HI.
  - intros u. rewrite HT. by destruct (decide (u = t)) as [->|].
  - intros b v _. apply cnt_of. by autorewrite with bx.
  - intros b. rewrite (cnt_of s) by (by autorewrite with bx). rewrite G3. apply HI.
  - by rewrite G5.
  - by apply G8.
  - rewrite G3, G4. cbn. lia.
  - rewrite G2, G4. apply HI.
  - rewrite G6. cbn. lia.
  - intros Hti. rewrite G2. by apply HM2, G7.
  - cbn. lia.
  - intros v Hv. specialize (HN2 v Hv). congruence.
  - eapply agent_ok_same; [exact Hl|..]; [intros v; rewrite (W_of (upd_w w (fun x => snd (unsleep x)) s)), HW by done; by destruct (decide (v = w)) as [->|]|].
    intros u. by rewrite (T_of (upd_w w (fun x => snd (unsleep x)) s)), HT by done.
Qed.

(** An eraser takes the waiter out of its queue. *)
Lemma eraser_lock_inv s i e w b x B : inv s -> ags s !! i = Some (ALock e w b) -> ws s !! w = Some x -> bs s !! b = Some B -> container x = Some b ->
  inv (set_agent i (AReady e w) (upd_w w (fun x => set_container None (if is_pthread x then x else set_state (erased_state e) x)) (upd_b b (remove_w w) s))).
Proof.
  intros HI Hi Hw Hb Hc. pose proof (W_lookup _ _ _ Hw) as EW. rewrite <- EW in Hc. destruct (erasing_own s i _ e w HI Hi eq_refl) as (Hp & Hg & He).
  destruct (queued_facts s w b HI Hc) as (HR & Hwt & Hs). set (t := w_task (W s w)) in *. destruct (v_pc _ HI _ _ Hp) as (_ & _ & F3).
  set (f := fun x => _). set (s0 := upd_w w f _).
  assert (w_task (f x) = w_task x /\ is_pthread (f x) = is_pthread x /\ container (f x) = None /\ sig (f x) = sig x /\ gone (f x) = gone x /\ sleep_id (f x) = sleep_id x) as (G1 & G2 & G3 & G4 & G5 & G6)
    by (unfold f; destruct (is_pthread x) eqn:E; cbn; by rewrite ?E).
  assert (forall v, W s0 v = if decide (v = w) then f x else W s v) as HW.
  { intros v. unfold s0. rewrite (W_upd _ _ _ x) by (by autorewrite with bx). destruct (decide (v = w)); [done|]. apply W_of. by autorewrite with bx. }
  assert (forall u, T s0 u = T s u) as HT by (intros u; apply T_of; unfold s0; by autorewrite with bx).
  destruct (erase_cnt s s0 b B w HI Hb ltac:(unfold s0; by autorewrite with bx) Hc) as [HC1 HC2].
  destruct (v_intr _ HI t) as [HN1 HN2]. destruct (v_timer _ HI w) as [HM1 HM2].
  eapply (inv_agent s _ i _ (AReady e w) t w (W s w) (f x) (T s t)); try done.
  - unfold s0. by autorewrite with bx.
  - unfold s0. autorewrite with bx. apply HI.
  - intros u. rewrite HT. by destruct (decide (u = t)) as [->|].
  - intros v Hv. split; [cbn; destruct (Nat.eqb_spec w v); [congruence|done]|done].
  - rewrite G1. unfold t. by rewrite EW.
  - by rewrite G5, <- EW.
  - by rewrite G2, EW.
  - rewrite EW in F3. destruct (pc (T s t)) eqn:Ep; cbn in *; rewrite ?G2, ?G3, ?G4, ?G6; try done.
  - rewrite EW in Hs. rewrite G3, G4, Hs, Hwt, HR. cbn. by rewrite Nat.eqb_refl.
  - intros _. rewrite G4. by rewrite <- EW.
  - change (atimer w (AReady e w)) with (atimer w (ALock e w b)). rewrite HM1, EW. unfold is_running. rewrite G6. lia.
  - unfold timed. rewrite G6, G2. fold t in HM2. rewrite EW in HM2. apply HM2.
  - change (aintr t (AReady e w)) with (aintr t (ALock e w b)). lia.
  - intros v Hv. specialize (HN2 v Hv). congruence.
  - cbn. destruct e as [|u]; [done|]. rewrite (T_of s0) by done. rewrite HT. cbn in He. by rewrite <- He.
Qed.

(** The callback of the timer has finished. *)
Lemma finish_inv s i w : inv s -> ags s !! i = Some (AEnd ByTimer w) -> inv (set_agent i AIdle (upd_w w (set_sleep Finished) s)).
Proof.
  intros HI Hi. destruct (erasing_own s i _ ByTimer w HI Hi eq_refl) as (Hp & Hg & He). destruct (not_gone s w Hg) as (x & Hx & EW).
  set (t := w_task (W s w)) in *. destruct (v_pc _ HI _ _ Hp) as (_ & _ & F3). set (s0 := upd_w _ _ _).
  assert (forall v, W s0 v = if decide (v = w) then set_sleep Finished (W s w) else W s v) as HW by (intros v; unfold s0; rewrite (W_upd _ _ _ _ _ Hx); by rewrite EW).
  assert (forall u, T s0 u = T s u) as HT by (intros u; apply T_of; unfold s0; by autorewrite with bx).
  destruct (v_intr _ HI t) as [HN1 HN2]. destruct (v_timer _ HI w) as [HM1 HM2]. pose proof (v_right _ HI w) as HR. unfold expect in HR. fold t in HR.
  assert (pc (T s t) = TSleep w \/ pc (T s t) = TReady w) as Hpc by (apply HM2; unfold timed, is_running in *; by destruct (sleep_id (W s w))).
  eapply (inv_agent s _ i _ AIdle t w (W s w) (set_sleep Finished (W s w)) (T s t)); try done.
  - unfold s0. by autorewrite with bx.
  - unfold s0. autorewrite with bx. apply HI.
  - intros u. rewrite HT. by destruct (decide (u = t)) as [->|].
  - intros b v _. apply cnt_of. unfold s0. by autorewrite with bx.
  - intros b. rewrite (cnt_of s) by (unfold s0; by autorewrite with bx). apply HI.
  - intros v Hv. split; [done|]. cbn. destruct (Nat.eqb_spec w v); [congruence|done].
  - destruct Hpc as [E|E]; rewrite E in *; done.
  - cbn [set_sleep container sig aright]. lia.
  - apply HI.
  - rewrite He in HM1. cbn in *. rewrite Nat.eqb_refl. cbn. lia.
  - cbn. lia.
  - intros v Hv. specialize (HN2 v Hv). congruence.
Qed.

(** The interrupting thread gives the waiter back. *)
Lemma giveback_inv s i t w X : inv s -> ags s !! i = Some (AEnd (ByInterrupt t) w) -> ts s !! t = Some X ->
  inv (set_agent i AIdle (set_ts (<[t := mkTask (pc X) (interrupted X) (Some w)]> (ts s)) s)).
Proof.
  intros HI Hi Ht. pose proof (T_lookup _ _ _ Ht) as ET. destruct (erasing_own s i _ _ w HI Hi eq_refl) as (Hp & Hg & He). cbn in He. rewrite He in Hp.
  destruct (v_pc _ HI _ _ Hp) as (_ & _ & F3). set (X' := mkTask _ _ (Some w)). set (s0 := set_ts _ _).
  assert (forall u, T s0 u = if decide (u = t) then X' else T s u) as HT by (intros u; by apply (T_set_ts _ _ X)).
  destruct (v_intr _ HI t) as [HN1 HN2]. destruct (v_timer _ HI w) as [HM1 HM2]. pose proof (v_right _ HI w) as HR. unfold expect in HR. rewrite He in HR.
  pose proof (sum_lookup (aintr t) (ags s) i _ Hi) as Hs. fold (intrs s t) in Hs. cbn in Hs. rewrite Nat.eqb_refl in Hs. cbn [b2n] in Hs. rewrite ET in *.
  eapply (inv_agent s s0 i _ AIdle t w (W s w) (W s w) X'); try done.
  - apply HI.
  - by rewrite ET.
  - intros v. by destruct (decide (v = w)) as [->|].
  - intros b. apply HI.
  - intros u Hu. cbn. destruct (Nat.eqb_spec t u); [congruence|done].
  - cbn [X' pc aright]. lia.
  - apply HI.
  - cbn [atimer erasing]. lia.
  - cbn [X' pc]. rewrite He, ET in HM2. apply HM2.
  - cbn [X' pc current_waiter is_some aintr erasing]. rewrite Nat.eqb_refl. cbn [b2n]. destruct (before_end (pc X)); cbn in HN1 |- *; lia.
  - cbn. congruence.
Qed.

Lemma go_inv s i p s' : inv s -> ags s !! i = Some p -> agent_go s i p = Some s' -> inv s'.
Proof.
  intros HI Hi. pose proof (v_agents _ HI i _ Hi) as Hok.
  destruct p as [|[|[w|w|w|w] l]|e w|e w b|e w|e w|[|t] w]; cbn [agent_go erase_from_butex do_act]; unfold set_butex_waiter; try done.
  - intros [= <-]. by eapply inv_move.
  - intros [= <-]. by apply unsleep_inv.
  - intros [= <-]. destruct Hok as [Hk Hl]. eapply ready_inv; eauto; cbn; rewrite ?Nat.eqb_refl; try done. intros v Hv. by destruct (Nat.eqb_spec w v).
  - intros [= <-]. destruct Hok as [Hk Hl]. eapply signal_inv; eauto; cbn; rewrite ?Nat.eqb_refl; try done. intros v Hv. by destruct (Nat.eqb_spec w v).
  - intros [= <-]. destruct Hok as [_ Hl]. by eapply inv_move.
  - destruct (erasing_own s i _ e w HI Hi eq_refl) as (_ & Hg & _). destruct (not_gone s w Hg) as (x & Hx & _). rewrite Hx. cbn. rewrite touch_ok by done. intros [= <-].
    by destruct (container x); eapply inv_move.
  - destruct (erasing_own s i _ e w HI Hi eq_refl) as (_ & Hg & _). destruct (not_gone s w Hg) as (x & Hx & _). rewrite Hx. cbn. rewrite touch_ok by done.
    destruct (bs s !! b) as [B|] eqn:Hb; [|done]. cbn. destruct (stuck B); [done|]. destruct (bool_decide_reflect (container x = Some b)); intros [= <-]; [by eapply eraser_lock_inv|by eapply inv_move].
  - destruct (erasing_own s i _ e w HI Hi eq_refl) as (_ & Hg & _). destruct (not_gone s w Hg) as (x & Hx & EW). unfold wakeup. rewrite Hx. intros [= <-].
    destruct (is_pthread x) eqn:Ek; [eapply signal_inv|eapply ready_inv]; eauto; cbn; rewrite ?EW, ?Nat.eqb_refl; try done; intros v Hv; by destruct (Nat.eqb_spec w v).
  - intros [= <-]. by eapply inv_move.
  - intros [= <-]. by apply finish_inv.
  - destruct (ts s !! t) as [X|] eqn:Ht; [|done]. cbn. intros [= <-]. by apply giveback_inv.
Qed.

(** ** The steps of wakers *)

Lemma set_container_id x : set_container (container x) x = x.
Proof. by destruct x. Qed.
Lemma W_upd_all s l c v : (forall u, u ∈ l -> gone (W s u) = false) ->
  W (upd_all l (set_container c) s) v = if decide (v ∈ l) then set_container c (W s v) else W s v.
Proof.
  induction l as [|u l IH]; intros Hg; [done|]. cbn [upd_all foldr]. fold (upd_all l (set_container c) s).
  specialize (IH ltac:(intros; apply Hg; set_solver)). assert (exists y, ws (upd_all l (set_container c) s) !! u = Some y) as [y Hy].
  { apply lookup_lt_is_Some. assert (length (ws (upd_all l (set_container c) s)) = length (ws s)) as ->.
    { clear. induction l as [|a l IH]; [done|]. cbn. unfold upd_w at 1. destruct (ws (foldr _ _ _) !! a) eqn:E; [|done]. cbn. by rewrite length_insert. }
    destruct (not_gone s u (Hg u ltac:(set_solver))) as (x & Hx & _). by eapply lookup_lt_Some. }
  rewrite (W_upd _ _ _ _ _ Hy). destruct (decide (v = u)) as [->|Hv].
  - rewrite decide_True by set_solver. apply W_lookup in Hy. rewrite <- Hy. clear Hy. revert IH. generalize (W (upd_all l (set_container c) s)). intros W' IH.
    rewrite IH. by destruct (decide (u ∈ l)).
  - rewrite IH. destruct (decide (v ∈ l)); [rewrite decide_True by set_solver|rewrite decide_False by set_solver]; done.
Qed.

(** A waker takes waiters out, and may move others. *)
Lemma inv_out s s' i acts (c : nat -> option nat) : inv s -> ags s !! i = Some AIdle -> fault s' = fault s -> ts s' = ts s -> ags s' = <[i := AWake acts]> (ags s) ->
  (forall v, W s' v = set_container (c v) (W s v)) -> (forall b v, cnt s' b v = b2n (bool_decide (c v = Some b))) ->
  (forall v, sum_list_with (wakes v) acts + b2n (is_some (c v)) = b2n (is_some (container (W s v))))%nat ->
  acts_ok (fun w => is_pthread (W s w)) acts -> inv s'.
Proof.
  intros HI Hi HF HT HA HW HC HS Hok.
  assert (forall v, rights s' v = rights s v + sum_list_with (wakes v) acts)%nat as HR.
  { intros v. unfold rights. rewrite HA. pose proof (agent_sum aright s i AIdle (AWake acts) v Hi) as H. cbn in H. unfold rights in H. lia. }
  assert (forall v, timers s' v = timers s v) as HM by (intros v; unfold timers; rewrite HA; pose proof (agent_sum atimer s i AIdle (AWake acts) v Hi) as H; cbn in H; lia).
  assert (forall v, intrs s' v = intrs s v) as HN by (intros v; unfold intrs; rewrite HA; pose proof (agent_sum aintr s i AIdle (AWake acts) v Hi) as H; cbn in H; lia).
  destruct HI as [I1 I2 I3 I4 I5 I6 I7 I8 I9].
  assert (forall v, is_pthread (W s' v) = is_pthread (W s v)) as Hk by (intros v; by rewrite HW).
  split.
  - by rewrite HF.
  - intros b v. rewrite HC, HW. done.
  - intros v. unfold expect. rewrite HR, (T_of s), HW by done. cbn [set_container container w_task sig]. specialize (HS v). specialize (I3 v). unfold expect in I3. lia.
  - intros t w. rewrite (T_of s), HW by done. intros Hp. destruct (I4 t w Hp) as (E1 & E2 & E3). split_and!; try done.
    destruct (pc (T s t)); cbn in *; try done. destruct E3 as (E3 & E4 & E5). split_and!; try done. specialize (HS w). rewrite E3 in HS. cbn in HS. destruct (c w); cbn in HS; [lia|done].
  - intros w. rewrite (T_of s), HW by done. apply I5.
  - intros w. rewrite HW. apply I6.
  - intros w. rewrite HM, (T_of s), HW by done. apply I7.
  - intros t. rewrite HN, (T_of s) by done. apply I8.
  - intros j p. rewrite HA. intros Hp. destruct (decide (j = i)) as [->|Hj].
    + rewrite list_lookup_insert_eq in Hp by (by eapply lookup_lt_Some). injection Hp as <-. eapply agent_ok_same; [exact Hok|done|]. intros u. by rewrite (T_of s).
    + rewrite list_lookup_insert_ne in Hp by done. eapply agent_ok_same; [by eapply I9|done|]. intros u. by rewrite (T_of s).
Qed.

(** The waiters of a queue. *)
Lemma queued_cnt s b B v : inv s -> bs s !! b = Some B -> count_occ Nat.eq_dec (waiters B) v = b2n (bool_decide (container (W s v) = Some b)).
Proof. intros HI Hb. rewrite <- (v_cnt _ HI). unfold cnt. by rewrite (queue_lookup _ _ _ Hb). Qed.
Lemma queued_own s b B v : inv s -> bs s !! b = Some B -> v ∈ waiters B ->
  container (W s v) = Some b /\ gone (W s v) = false /\ pcw (pc (T s (w_task (W s v)))) = Some v.
Proof.
  intros HI Hb Hv. apply list_elem_of_In, (count_occ_In Nat.eq_dec) in Hv. rewrite (queued_cnt s b) in Hv by done.
  destruct (bool_decide_reflect (container (W s v) = Some b)) as [Hc|]; cbn in Hv; [|lia]. destruct (queued_facts s v b HI Hc) as (_ & H & _). apply waits_pcw in H.
  destruct (v_pc _ HI _ _ H) as (_ & Hg & _). done.
Qed.
Lemma elem_of_count (l : list nat) v : v ∈ l <-> (0 < count_occ Nat.eq_dec l v)%nat.
Proof. rewrite list_elem_of_In. apply count_occ_In. Qed.
Lemma count_filter (p : nat -> bool) l v : (count_occ Nat.eq_dec (List.filter p l) v + count_occ Nat.eq_dec (List.filter (fun w => negb (p w)) l) v = count_occ Nat.eq_dec l v)%nat.
Proof. induction l as [|u l IH]; cbn; [done|]. destruct (p u); cbn; destruct (Nat.eq_dec u v); lia. Qed.
Lemma count_rev (l : list nat) v : count_occ Nat.eq_dec (rev l) v = count_occ Nat.eq_dec l v.
Proof. induction l as [|u l IH]; cbn; [done|]. rewrite count_occ_app, IH. cbn. destruct (Nat.eq_dec u v); lia. Qed.

(** What a waker is to do: wake what it has taken, each once, in the right way. *)
Lemma wakes_signal l v : sum_list_with (wakes v) (signals l) = count_occ Nat.eq_dec l v.
Proof. unfold signals. induction l as [|u l IH]; cbn; [done|]. rewrite IH. destruct (Nat.eqb_spec u v), (Nat.eq_dec u v); cbn; lia. Qed.
Lemma wakes_ready l v : sum_list_with (wakes v) (concat (map (fun w => [Unsleep w; Ready w]) l)) = count_occ Nat.eq_dec l v.
Proof. induction l as [|u l IH]; cbn; [done|]. rewrite IH. destruct (Nat.eqb_spec u v), (Nat.eq_dec u v); cbn; lia. Qed.
Lemma acts_ok_app k l1 l2 : acts_ok k l1 -> acts_ok k l2 -> acts_ok k (l1 ++ l2).
Proof. induction l1 as [|[w|w|w|w] l1 IH]; cbn; [done|..]; intros [H1 H2] H3; (split; [|by apply IH]); [set_solver|done..]. Qed.
Lemma acts_signal k l : (forall w, w ∈ l -> k w = true) -> acts_ok k (signals l).
Proof. unfold signals. induction l as [|u l IH]; cbn; [done|]. intros H. split_and!; [apply H; set_solver|done|apply IH; set_solver]. Qed.
Lemma acts_ready k l : (forall w, w ∈ l -> k w = false) -> acts_ok k (concat (map (fun w => [Unsleep w; Ready w]) l)).
Proof. induction l as [|u l IH]; cbn; [done|]. intros H. split_and!; [set_solver|apply H; set_solver|apply IH; set_solver]. Qed.
Lemma elem_of_Filter (p : nat -> bool) l v : v ∈ List.filter p l <-> v ∈ l /\ p v = true.
Proof. rewrite !list_elem_of_In. apply List.filter_In. Qed.

Definition kind (s : S) (w : nat) : bool := default false (is_pthread <$> ws s !! w).
Lemma kind_W s w : gone (W s w) = false -> kind s w = is_pthread (W s w).
Proof. intros H. destruct (not_gone s w H) as (x & Hx & ->). unfold kind. by rewrite Hx. Qed.

Lemma wake_acts_count s l v : sum_list_with (wakes v) (wake_acts s l) = count_occ Nat.eq_dec l v.
Proof.
  unfold wake_acts. rewrite sum_list_with_app, wakes_signal, <- (count_filter (kind s) l v). f_equal. fold (kind s).
  change (List.filter (fun w => negb (default false (is_pthread <$> ws s !! w))) l) with (List.filter (fun w => negb (kind s w)) l).
  destruct (List.filter _ l) as [|n rest]; [done|]. cbn. rewrite sum_list_with_app, wakes_ready, count_rev. cbn. destruct (Nat.eqb_spec n v), (Nat.eq_dec n v); cbn; lia.
Qed.
Lemma wake_except_acts_count s l v : sum_list_with (wakes v) (wake_except_acts s l) = count_occ Nat.eq_dec l v.
Proof. unfold wake_except_acts. by rewrite sum_list_with_app, wakes_signal, wakes_ready, count_rev, <- (count_filter (kind s) l v). Qed.
Lemma wake_acts_ok s l : (forall v, v ∈ l -> gone (W s v) = false) -> acts_ok (fun w => is_pthread (W s w)) (wake_acts s l).
Proof.
  intros Hg. unfold wake_acts. apply acts_ok_app; [apply acts_signal; intros w [Hw Hk]%elem_of_Filter; rewrite <- kind_W; auto|].
  assert (forall w, w ∈ List.filter (fun w => negb (kind s w)) l -> is_pthread (W s w) = false) as Hb.
  { intros w [Hw Hk]%elem_of_Filter. rewrite <- kind_W by auto. by destruct (kind s w). }
  change (List.filter (fun w => negb (default false (is_pthread <$> ws s !! w))) l) with (List.filter (fun w => negb (kind s w)) l).
  destruct (List.filter _ l) as [|n rest]; [done|]. cbn. split; [set_solver|]. apply acts_ok_app; [|cbn; split; [apply Hb; set_solver|done]].
  apply acts_ready. intros w Hw. apply Hb. apply list_elem_of_In, in_rev, list_elem_of_In in Hw. set_solver.
Qed.
Lemma wake_except_acts_ok s l : (forall v, v ∈ l -> gone (W s v) = false) -> acts_ok (fun w => is_pthread (W s w)) (wake_except_acts s l).
Proof.
  intros Hg. unfold wake_except_acts. apply acts_ok_app; [apply acts_signal; intros w [Hw Hk]%elem_of_Filter; rewrite <- kind_W; auto|].
  apply acts_ready. intros w Hw. apply list_elem_of_In, in_rev, list_elem_of_In, elem_of_Filter in Hw as [Hw Hk]. rewrite <- kind_W by auto. unfold kind. by destruct (default _ _).
Qed.

(** A queue is split into what a waker takes and what it leaves. *)
Definition splits (l taken left_ : list nat) : Prop :=
  forall v, (count_occ Nat.eq_dec taken v + count_occ Nat.eq_dec left_ v = count_occ Nat.eq_dec l v)%nat.
Lemma take_inv s i b B taken left_ acts : inv s -> ags s !! i = Some AIdle -> bs s !! b = Some B -> splits (waiters B) taken left_ ->
  (forall v, sum_list_with (wakes v) acts = count_occ Nat.eq_dec taken v) -> acts_ok (fun w => is_pthread (W s w)) acts ->
  inv (take_out i b taken left_ acts s).
Proof.
  intros HI Hi Hb Hs Ha Hok. assert (forall v, v ∈ taken -> v ∈ waiters B) as Hin by (intros v; rewrite !elem_of_count; specialize (Hs v); lia).
  assert (forall v, W (take_out i b taken left_ acts s) v = if decide (v ∈ taken) then set_container None (W s v) else W s v) as HW.
  { intros v. unfold take_out. rewrite (W_of (upd_all taken (set_container None) (upd_b b (fun _ => left_) s))) by done. rewrite W_upd_all.
    - rewrite !(W_of s (upd_b _ _ _)) by (by autorewrite with bx). done.
    - intros u Hu. rewrite (W_of s) by (by autorewrite with bx). by apply (queued_own s b B u HI Hb), Hin. }
  apply (inv_out s _ i acts (fun v => if decide (v ∈ taken) then None else container (W s v))); try done.
  - unfold take_out. cbn. by autorewrite with bx.
  - unfold take_out. cbn. by autorewrite with bx.
  - unfold take_out. cbn. by autorewrite with bx.
  - intros v. rewrite HW. destruct (decide (v ∈ taken)); [done|]. by rewrite set_container_id.
  - intros c v. rewrite (cnt_of (upd_b b (fun _ => left_) s)) by (unfold take_out; cbn; by autorewrite with bx). rewrite (cnt_upd _ _ _ _ _ _ Hb).
    specialize (Hs v). pose proof (queued_cnt s b B v HI Hb) as Hq. destruct (decide (v ∈ taken)) as [Hv|Hv]; rewrite ?elem_of_count in Hv; destruct (decide (c = b)) as [->|Hc].
    + rewrite (bool_decide_eq_false_2 (None = Some b)) by done. destruct (bool_decide (container (W s v) = Some b)); cbn in *; lia.
    + apply elem_of_count, Hin in Hv. destruct (queued_own s b B v HI Hb Hv) as [E _]. rewrite (v_cnt _ HI), E, !bool_decide_eq_false_2; congruence.
    + lia.
    + apply HI.
  - intros v. rewrite Ha. specialize (Hs v). pose proof (queued_cnt s b B v HI Hb) as Hq. destruct (decide (v ∈ taken)) as [Hv|Hv].
    + destruct (queued_own s b B v HI Hb (Hin v Hv)) as [E _]. rewrite E in *. rewrite (bool_decide_eq_true_2 (Some b = Some b)) in Hq by done. rewrite elem_of_count in Hv. cbn in *. lia.
    + rewrite elem_of_count in Hv. lia.
Qed.

Lemma splits_take l k : splits l (take k l) (drop k l).
Proof. intros v. rewrite <- count_occ_app. by rewrite take_drop. Qed.
(** At most one waiter of a queue belongs to a task. *)
Lemma excluded_one s b B ex : inv s -> bs s !! b = Some B ->
  splits (waiters B) (List.filter (fun w => negb (is_excluded s ex w)) (waiters B)) (option_list (last (List.filter (is_excluded s ex) (waiters B)))).
Proof.
  intros HI Hb v. pose proof (count_filter (is_excluded s ex) (waiters B) v) as Hc.
  assert (List.filter (is_excluded s ex) (waiters B) = option_list (last (List.filter (is_excluded s ex) (waiters B)))) as E; [|rewrite <- E; lia].
  assert (forall u u', u ∈ List.filter (is_excluded s ex) (waiters B) -> u' ∈ List.filter (is_excluded s ex) (waiters B) -> u = u') as Heq.
  { assert (forall u, u ∈ List.filter (is_excluded s ex) (waiters B) -> exists t, ex = Some t /\ pcw (pc (T s t)) = Some u) as H.
    { intros u [Hu He]%elem_of_Filter. destruct (queued_own s b B u HI Hb Hu) as (_ & Hg & Hp). destruct (not_gone s u Hg) as (x & Hx & EW). unfold is_excluded in He. rewrite Hx in He.
      destruct ex as [t|]; [|done]. apply andb_true_iff in He as [_ He%Nat.eqb_eq]. exists t. by rewrite EW, He in Hp. }
    intros u u' Hu Hu'. destruct (H u Hu) as (t & Ht & Hp), (H u' Hu') as (t' & Ht' & Hp'). congruence. }
  pose proof (fun u => queued_cnt s b B u HI Hb) as Hq. pose proof (fun u => count_filter (is_excluded s ex) (waiters B) u) as Hf.
  revert Heq Hf. generalize (List.filter (is_excluded s ex) (waiters B)). intros [|u [|u' l]] Heq Hf; [done..|]. assert (u = u') as <- by (apply Heq; set_solver).
  specialize (Hf u). rewrite Hq in Hf. cbn in Hf. destruct (Nat.eq_dec u u); [|done]. destruct (bool_decide _); cbn in Hf; lia.
Qed.

Lemma requeue_inv s i b m B M front rest : inv s -> ags s !! i = Some AIdle -> bs s !! b = Some B -> bs s !! m = Some M -> b <> m -> waiters B = front :: rest ->
  inv (upd_all rest (set_container (Some m)) (upd_b m (fun l => l ++ rest) (take_out i b [front] [] (wake_acts s [front]) s))).
Proof.
  intros HI Hi Hb Hm Hne Hq. set (s1 := take_out _ _ _ _ _ _). pose proof (fun v => queued_own s b B v HI Hb) as Hown. rewrite Hq in Hown.
  pose proof (fun v => queued_cnt s b B v HI Hb) as Hc. rewrite Hq in Hc.
  assert (forall v, W s1 v = if decide (v = front) then set_container None (W s v) else W s v) as HW1.
  { intros v. unfold s1, take_out. rewrite (W_of (upd_all [front] (set_container None) (upd_b b (fun _ => []) s))) by done. rewrite W_upd_all.
    - rewrite !(W_of s (upd_b _ _ _)) by (by autorewrite with bx). destruct (decide (v = front)); [rewrite decide_True by set_solver|rewrite decide_False by set_solver]; done.
    - intros u Hu. rewrite (W_of s) by (by autorewrite with bx). apply Hown. set_solver. }
  assert (bs s1 = bs (upd_b b (fun _ => []) s)) as HB1 by (unfold s1, take_out; cbn [set_agent bs set_ags]; by autorewrite with bx).
  assert (bs s1 !! m = Some M) as Hm1 by (rewrite HB1; unfold upd_b; rewrite Hb; cbn; by rewrite list_lookup_insert_ne).
  assert (front ∉ rest) as Hfr by (intros H; apply elem_of_count in H; specialize (Hc front); cbn in Hc; destruct (Nat.eq_dec front front); [|done]; destruct (bool_decide _); cbn in Hc; lia).
  apply (inv_out s _ i (wake_acts s [front]) (fun v => if decide (v = front) then None else if decide (v ∈ rest) then Some m else container (W s v))); try done.
  - unfold s1, take_out. autorewrite with bx. cbn. by autorewrite with bx.
  - unfold s1, take_out. autorewrite with bx. cbn. by autorewrite with bx.
  - unfold s1, take_out. autorewrite with bx. cbn. by autorewrite with bx.
  - intros v. rewrite W_upd_all.
    + rewrite !(W_of s1 (upd_b _ _ _)) by (by autorewrite with bx). rewrite !HW1. destruct (decide (v = front)) as [->|]; [by rewrite decide_False|]. destruct (decide (v ∈ rest)); [done|]. by rewrite set_container_id.
    + intros u Hu. rewrite (W_of s1), HW1 by (by autorewrite with bx). destruct (decide (u = front)); cbn; apply Hown; set_solver.
  - intros c v. rewrite (cnt_of (upd_b m (fun l => l ++ rest) s1)) by (by autorewrite with bx). rewrite (cnt_upd _ _ _ _ _ _ Hm1), count_occ_app, <- (cnt_bs _ _ _ _ Hm).
    rewrite (cnt_of _ s1 c v HB1), (cnt_upd _ _ _ _ _ _ Hb). cbn [count_occ]. specialize (Hc v). rewrite !(v_cnt _ HI). cbn in Hc.
    assert (v ∈ rest -> container (W s v) = Some b) as Hr by (intros H; apply Hown; set_solver). assert (container (W s front) = Some b) as Hf by (apply Hown; set_solver).
    destruct (decide (v = front)) as [->|Hv].
    + rewrite Hf in *. assert (count_occ Nat.eq_dec rest front = 0%nat) as -> by (destruct (count_occ Nat.eq_dec rest front) eqn:E; [done|]; exfalso; apply Hfr, elem_of_count; lia).
      rewrite (bool_decide_eq_false_2 (Some b = Some m)) by congruence. rewrite (bool_decide_eq_false_2 (None = Some c)) by done.
      destruct (decide (c = m)); [done|]. destruct (decide (c = b)); [done|]. rewrite bool_decide_eq_false_2 by congruence. done.
    + destruct (Nat.eq_dec front v); [congruence|]. rewrite Hc. destruct (decide (v ∈ rest)) as [Hin|Hin].
      * rewrite (Hr Hin). rewrite (bool_decide_eq_true_2 (Some b = Some b)) by done. rewrite (bool_decide_eq_false_2 (Some b = Some m)) by congruence.
        destruct (decide (c = m)) as [->|]; [by rewrite (bool_decide_eq_true_2 (Some m = Some m))|]. rewrite (bool_decide_eq_false_2 (Some m = Some c)) by congruence.
        destruct (decide (c = b)); [done|]. by rewrite bool_decide_eq_false_2 by congruence.
      * assert (bool_decide (container (W s v) = Some b) = false) as E by (destruct (bool_decide _) eqn:E; [|done]; exfalso; apply Hin, elem_of_count; cbn in Hc; lia).
        rewrite E. destruct (decide (c = m)) as [->|]; [cbn; lia|]. destruct (decide (c = b)) as [->|]; [by rewrite E|done].
  - intros v. rewrite wake_acts_count. cbn. destruct (decide (v = front)) as [->|Hv]; [destruct (Nat.eq_dec front front); [|done]; destruct (Hown front ltac:(set_solver)) as [-> _]; done|].
    destruct (Nat.eq_dec front v); [congruence|]. destruct (decide (v ∈ rest)); [|done]. destruct (Hown v ltac:(set_solver)) as [-> _]. done.
  - apply wake_acts_ok. intros v Hv. apply Hown. set_solver.
Qed.

(** The timer thread takes a task. *)
Lemma fire_inv s i w x : inv s -> ags s !! i = Some AIdle -> ws s !! w = Some x -> sleep_id x = Scheduled ->
  inv (set_agent i (ALoad ByTimer w) (upd_w w (set_sleep Running) s)).
Proof.
  intros HI Hi Hx Hs. pose proof (W_lookup _ _ _ Hx) as EW. destruct (v_timer _ HI w) as [HM1 HM2]. rewrite EW in HM1, HM2. unfold timed, is_running in HM1, HM2. rewrite Hs in HM1, HM2.
  destruct (HM2 eq_refl) as [Hk Hpc]. set (t := w_task x) in *. assert (pcw (pc (T s t)) = Some w) as Hp by (by destruct Hpc as [-> | ->]).
  destruct (v_pc _ HI _ _ Hp) as (_ & Hg & _). set (s0 := upd_w _ _ _).
  assert (forall v, W s0 v = if decide (v = w) then set_sleep Running (W s w) else W s v) as HW by (intros v; unfold s0; rewrite (W_upd _ _ _ _ _ Hx); by rewrite EW).
  assert (forall u, T s0 u = T s u) as HT by (intros u; apply T_of; unfold s0; by autorewrite with bx).
  destruct (v_intr _ HI t) as [HN1 HN2]. pose proof (v_right _ HI w) as HR. unfold expect in HR. rewrite EW in HR. fold t in HR.
  eapply (inv_agent s _ i _ (ALoad ByTimer w) t w (W s w) (set_sleep Running (W s w)) (T s t)); try done.
  - unfold s0. by autorewrite with bx.
  - unfold s0. autorewrite with bx. apply HI.
  - intros u. rewrite HT. by destruct (decide (u = t)) as [->|].
  - intros b v _. apply cnt_of. unfold s0. by autorewrite with bx.
  - intros b. rewrite (cnt_of s) by (unfold s0; by autorewrite with bx). apply HI.
  - intros v Hv. split; [done|]. cbn. destruct (Nat.eqb_spec w v); [congruence|done].
  - cbn. by rewrite EW.
  - destruct Hpc as [E|E]; rewrite E; cbn; rewrite ?EW; done.
  - rewrite EW. cbn [set_sleep container sig aright]. lia.
  - cbn. apply HI.
  - cbn. rewrite Nat.eqb_refl, HM1. done.
  - cbn. rewrite EW. done.
  - cbn. lia.
  - intros v Hv. specialize (HN2 v Hv). congruence.
Qed.

(** A thread interrupts a task and takes its waiter. *)
Lemma interrupt_inv s i t X w : inv s -> ags s !! i = Some AIdle -> ts s !! t = Some X -> current_waiter X = Some w ->
  inv (set_agent i (ALoad (ByInterrupt t) w) (set_ts (<[t := mkTask (pc X) true None]> (ts s)) s)).
Proof.
  intros HI Hi Ht Hcw. pose proof (T_lookup _ _ _ Ht) as ET. destruct (v_intr _ HI t) as [HN1 HN2]. rewrite ET, Hcw in *. specialize (HN2 w eq_refl).
  destruct (v_pc _ HI t w ltac:(by rewrite ET)) as (F1 & F2 & F3). rewrite ET in F3. set (X' := mkTask _ true None). set (s0 := set_ts _ _).
  assert (forall u, T s0 u = if decide (u = t) then X' else T s u) as HT by (intros u; by apply (T_set_ts _ _ X)).
  destruct (v_timer _ HI w) as [HM1 HM2]. pose proof (v_right _ HI w) as HR. unfold expect in HR. rewrite F1, ET in *.
  eapply (inv_agent s s0 i _ (ALoad (ByInterrupt t) w) t w (W s w) (W s w) X'); try done.
  - apply HI.
  - by rewrite ET.
  - intros v. by destruct (decide (v = w)) as [->|].
  - intros b. apply HI.
  - intros u Hu. cbn. destruct (Nat.eqb_spec t u); [congruence|done].
  - cbn [X' pc aright]. lia.
  - apply HI.
  - cbn [atimer erasing]. lia.
  - cbn [X' pc current_waiter is_some aintr erasing] in *. rewrite Nat.eqb_refl. cbn [b2n] in *. lia.
  - cbn. rewrite (T_of s0) by done. by rewrite HT, decide_True.
Qed.

Lemma wake_inv s i c s' : inv s -> ags s !! i = Some AIdle -> wake_step s i c = Some s' -> inv s'.
Proof.
  intros HI Hi. destruct c as [b|b n|b ex|b m|w|t|]; cbn [wake_step]; try done;
    unfold butex_wake, butex_wake_n, butex_wake_except, butex_requeue, fire_timer, interrupt_and_consume_waiters.
  - destruct (bs s !! b) as [B|] eqn:Hb; [|done]. cbn [mbind option_bind]. destruct (stuck B); [done|]. intros [= <-]. destruct (waiters B) as [|front rest] eqn:Hq; [done|].
    apply (take_inv s i b B); try done; [rewrite Hq; apply (splits_take (front :: rest) 1)|apply wake_acts_count|].
    apply wake_acts_ok. intros v Hv. apply (queued_own s b B v HI Hb). rewrite Hq. set_solver.
  - destruct (bs s !! b) as [B|] eqn:Hb; [|done]. cbn [mbind option_bind]. destruct (stuck B); [done|]. intros [= <-]. apply (take_inv s i b B); try done; [apply splits_take|apply wake_acts_count|].
    apply wake_acts_ok. intros v Hv. apply (queued_own s b B v HI Hb). by eapply subseteq_take.
  - destruct (bs s !! b) as [B|] eqn:Hb; [|done]. cbn [mbind option_bind]. destruct (stuck B); [done|]. intros [= <-]. apply (take_inv s i b B); try done; [by eapply excluded_one|apply wake_except_acts_count|].
    apply wake_except_acts_ok. intros v [Hv _]%elem_of_Filter. by apply (queued_own s b B v HI Hb).
  - destruct (bs s !! b) as [B|] eqn:Hb; [|done]. cbn. destruct (bs s !! m) as [M|] eqn:Hm; [|done]. cbn. destruct (stuck B || stuck M || (b =? m)%nat) eqn:E; [done|].
    apply orb_false_iff in E as [_ E%Nat.eqb_neq]. intros [= <-]. destruct (waiters B) as [|front rest] eqn:Hq; [done|]. by eapply requeue_inv.
  - destruct (ws s !! w) as [x|] eqn:Hx; [|done]. cbn. destruct (sleep_id x) eqn:Hs; try done. intros [= <-]. by eapply fire_inv.
  - destruct (ts s !! t) as [X|] eqn:Ht; [|done]. cbn. intros [= <-]. destruct (current_waiter X) as [w|] eqn:Hc; [by apply interrupt_inv|].
    apply (inv_ext s); try done; [apply HI|]. intros u. rewrite (T_set_ts _ _ _ _ _ Ht). destruct (decide (u = t)) as [->|]; [|by split; [|left]].
    rewrite (T_lookup _ _ _ Ht), Hc. split; [done|by left].
Qed.

Lemma butex_step_inv s s' : inv s -> step s s' -> inv s'.
Proof.
  intros HI Hs. destruct Hs as [s t c s' H|s i c s' H|s b B v Hb]; [by eapply task_inv| |].
  - unfold agent_step in H. destruct (ags s !! i) as [p|] eqn:Hi; [|done]. cbn in H. destruct p; try (destruct c; try done; by eapply go_inv). by eapply wake_inv.
  - apply (inv_ext s); try done; [apply HI|..].
    + intros c w. unfold cnt, queue. cbn. destruct (decide (c = b)) as [->|]; [rewrite list_lookup_insert_eq, Hb by (by eapply lookup_lt_Some); done|by rewrite list_lookup_insert_ne].
    + intros u. split; [done|by left].
Qed.

Lemma butex_init_inv nb nt na : inv (init nb nt na).
Proof.
  assert (forall w, W (init nb nt na) w = no_waiter) as HW by done.
  assert (forall t, T (init nb nt na) t = no_task) as HT by (intros t; unfold T, init; cbn; destruct (replicate nt _ !! t) eqn:E; [apply lookup_replicate in E as [-> _]|]; done).
  assert (forall b, queue (init nb nt na) b = []) as HQ by (intros b; unfold queue, init; cbn; destruct (replicate nb _ !! b) eqn:E; [apply lookup_replicate in E as [-> _]|]; done).
  assert (forall (f : APC -> nat), f AIdle = 0%nat -> sum_list_with f (ags (init nb nt na)) = 0%nat) as HS by (intros f Hf; cbn; clear -Hf; induction na; cbn; lia).
  split; try done.
  - intros b w. unfold cnt. by rewrite HQ, HW.
  - intros w. unfold rights, expect. rewrite HS, HW, HT by done. done.
  - intros t w. by rewrite HT.
  - intros w. unfold timers. by rewrite HS, HW by done.
  - intros t. unfold intrs. rewrite HS, HT by done. done.
  - intros i p Hp. cbn in Hp. apply lookup_replicate in Hp as [-> _]. done.
Qed.

Lemma butex_inv nb nt na s : reachable nb nt na s -> inv s.
Proof. apply steps_invariant; [intros s1 s2; apply butex_step_inv|apply butex_init_inv]. Qed.

(** ** What butexes promise *)

Lemma run_reachable nb nt na l s s' : reachable nb nt na s -> run l s = Some s' -> reachable nb nt na s'.
Proof.
  revert s. induction l as [|c l IH]; cbn [run]; intros s Hs; [by intros [= <-]|]. destruct (do_call s c) as [s1|] eqn:E; [|done]. cbn. apply IH.
  eapply steps_trans; [exact Hs|]. destruct c as [t c|i c|b v]; cbn in E; [by eapply step_task|by eapply step_agent|]. destruct (bs s !! b) as [B|] eqn:Hb; [|done]. injection E as <-. by constructor.
Qed.

Definition idle (s : S) : Prop := Forall (eq AIdle) (ags s).
Lemma idle_rights s w : idle s -> rights s w = 0%nat.
Proof. unfold idle, rights. induction 1 as [|p l <-]; cbn; [done|lia]. Qed.
(** C18: When no waker, timer or interrupting thread is at work, a task that sleeps
    without a signal has its waiter once in one queue and in no other; and every
    waiter in a queue is that of a task that waits. *)
Theorem butex_no_lost nb nt na s : reachable nb nt na s -> idle s ->
  (forall t w, pc (T s t) = TSleep w -> sig (W s w) = false -> exists b, forall c, cnt s c w = if decide (c = b) then 1%nat else 0%nat) /\
  (forall b w, w ∈ queue s b -> waits (pc (T s (w_task (W s w)))) w = true /\ gone (W s w) = false).
Proof.
  intros HI%butex_inv Hid. split.
  - intros t w Hp Hs. destruct (v_pc _ HI t w ltac:(by rewrite Hp)) as (Et & _ & _). pose proof (v_right _ HI w) as HR. unfold expect in HR. rewrite (idle_rights _ _ Hid), Et, Hp, Hs in HR.
    cbn in HR. rewrite Nat.eqb_refl in HR. destruct (container (W s w)) as [b|] eqn:Ec; [|done]. exists b. intros c. rewrite (v_cnt _ HI), Ec.
    destruct (decide (c = b)) as [->|]; [by rewrite bool_decide_eq_true_2|by rewrite bool_decide_eq_false_2 by congruence].
  - intros b w Hw. apply elem_of_count in Hw. fold (cnt s b w) in Hw. rewrite (v_cnt _ HI) in Hw. destruct (bool_decide_reflect (container (W s w) = Some b)) as [Hc|]; cbn in Hw; [|lia].
    destruct (queued_facts s w b HI Hc) as (_ & H & _). destruct (v_pc _ HI _ _ (waits_pcw _ _ H)) as (_ & Hg & _). done.
Qed.
(** Two waits, one woken through [butex_requeue]: the other is in the second queue. *)
Definition requeued : list call :=
  [CT 0 (Wait 0 0 false false false false); CT 0 (Go true); CT 1 (Wait 0 0 false false false false); CT 1 (Go true); CA 0 (Requeue 0 1); CA 0 AGo; CA 0 AGo; CA 0 AGo].
Lemma butex_no_lost_witness : match run requeued (init 2 2 1) with
  | Some s => queue s 1 = [1%nat] /\ exists b, forall c, cnt s c 1 = if decide (c = b) then 1%nat else 0%nat | None => False end.
Proof.
  destruct (run requeued (init 2 2 1)) as [s|] eqn:E; [|by vm_compute in E]. assert (reachable 2 2 1 s) as Hr by (by apply (run_reachable _ _ _ requeued (init 2 2 1) s (steps_refl _ _))).
  vm_compute in E. injection E as <-. split; [done|]. destruct (butex_no_lost 2 2 1 _ Hr ltac:(repeat constructor)) as [H _]. by apply (H 1%nat).
Defined.

(** *** [butex_wake_n] wakes what it takes *)

Definition woken (s : S) (w : nat) : Prop := pc (T s (w_task (W s w))) = TReady w \/ sig (W s w) = true.

Lemma woken_ext s s' : (forall v, w_task (W s' v) = w_task (W s v) /\ (sig (W s v) = true -> sig (W s' v) = true)) ->
  (forall u v, pc (T s u) = TReady v -> pc (T s' u) = TReady v) -> forall w, woken s w -> woken s' w.
Proof. intros HW HT w. destruct (HW w) as [E1 E2]. unfold woken. rewrite E1. intros [H|H]; auto. Qed.

(** One action of a waker. *)
Lemma act_go s i a l : inv s -> ags s !! i = Some (AWake (a :: l)) ->
  exists s', agent_go s i (AWake (a :: l)) = Some s' /\ ags s' !! i = Some (AWake l) /\ bs s' = bs s /\
    (forall w, woken s w -> woken s' w) /\ forall w, (0 < wakes w a)%nat -> woken s' w.
Proof.
  intros HI Hi. assert (forall x s0, ags s0 = ags s -> ags (set_agent i x s0) !! i = Some x) as Hset by (intros x s0 E; cbn; rewrite E; apply list_lookup_insert_eq; by eapply lookup_lt_Some).
  assert (forall w, (0 < wakes w a)%nat -> gone (W s w) = false /\ (is_pthread (W s w) = false -> pc (T s (w_task (W s w))) = TSleep w)) as Hown
    by (intros w Hw; eapply right_own; [done..|]; cbn; lia).
  pose proof (v_agents _ HI _ _ Hi) as Hok. destruct a as [w|w|w|w]; cbn [agent_go]; unfold do_act.
  - assert (gone (W s w) = false) as Hg.
    { destruct Hok as [Hr _]. eapply (right_own s i _ w HI Hi). cbn. apply list_elem_of_lookup in Hr as [k Hk]. pose proof (sum_lookup (wakes w) l k _ Hk) as H. cbn in H. rewrite Nat.eqb_refl in H. cbn in H. lia. }
    destruct (not_gone s w Hg) as (x & Hx & EW). rewrite touch_ok by done. eexists. split_and!; [done|apply Hset; by autorewrite with bx|cbn; by autorewrite with bx| |cbn; lia].
    apply woken_ext; [|intros u v; by rewrite (T_of s (set_agent _ _ _)) by (cbn; by autorewrite with bx)]. intros v. rewrite (W_of (upd_w w (fun x => snd (unsleep x)) s) (set_agent _ _ _)), (W_upd _ _ _ _ _ Hx) by done.
    destruct (decide (v = w)) as [->|]; [|done]. rewrite EW. unfold unsleep. by destruct (sleep_id x).
  - destruct Hok as [Hk _]. destruct (Hown w ltac:(cbn; rewrite Nat.eqb_refl; cbn; lia)) as [Hg Hp]. specialize (Hp Hk). destruct (not_gone s w Hg) as (x & Hx & EW). set (t := w_task (W s w)) in *.
    pose proof (task_lookup s t w ltac:(by rewrite Hp)) as Ht. assert (ready_to_run w s = set_pc t (TReady w) s) as ->.
    { unfold ready_to_run. rewrite touch_ok, Hx by done. assert (w_task x = t) as -> by (unfold t; by rewrite EW). rewrite Ht, Hp. by rewrite Nat.eqb_refl. }
    eexists. split_and!; [done|apply Hset; by autorewrite with bx|cbn; by autorewrite with bx|..].
    + apply woken_ext; [intros v; by rewrite (W_of s (set_agent _ _ _)) by (cbn; by autorewrite with bx)|]. intros u v Hu. rewrite (T_of (set_pc t (TReady w) s) (set_agent _ _ _)), (T_set _ _ _ _ _ Ht) by done.
      destruct (decide (u = t)) as [->|]; [congruence|done].
    + intros v Hv. assert (w = v) as <- by (cbn in Hv; destruct (Nat.eqb_spec w v); [done|cbn in Hv; lia]). left. rewrite (W_of s (set_agent _ _ _)), (T_of (set_pc t (TReady w) s) (set_agent _ _ _)), (T_set _ _ _ _ _ Ht) by (cbn; by autorewrite with bx).
      fold t. by rewrite decide_True.
  - destruct (Hown w ltac:(cbn; rewrite Nat.eqb_refl; cbn; lia)) as [Hg _]. destruct (not_gone s w Hg) as (x & Hx & EW). unfold wakeup_pthread. rewrite touch_ok by done.
    eexists. split_and!; [done|apply Hset; by autorewrite with bx|cbn; by autorewrite with bx|..].
    + apply woken_ext; [|intros u v; by rewrite (T_of s (set_agent _ _ _)) by (cbn; by autorewrite with bx)]. intros v. rewrite (W_of (upd_w w set_sig s) (set_agent _ _ _)), (W_upd _ _ _ _ _ Hx) by done. destruct (decide (v = w)) as [->|]; [by rewrite EW|done].
    + intros v Hv. assert (w = v) as <- by (cbn in Hv; destruct (Nat.eqb_spec w v); [done|cbn in Hv; lia]). right. by rewrite (W_of (upd_w w set_sig s) (set_agent _ _ _)), (W_upd _ _ _ _ _ Hx), decide_True by done.
  - eexists. split_and!; [done|by apply Hset|done| |intros v Hv; cbn in Hv; lia]. apply woken_ext; [intros v; by rewrite (W_of s (set_agent _ _ _))|intros u v; by rewrite (T_of s (set_agent _ _ _))].
Qed.

Lemma acts_go s i l : inv s -> ags s !! i = Some (AWake l) ->
  exists s', run (replicate (length l) (CA i AGo)) s = Some s' /\ ags s' !! i = Some (AWake []) /\ bs s' = bs s /\
    (forall w, woken s w -> woken s' w) /\ forall w, (0 < sum_list_with (wakes w) l)%nat -> woken s' w.
Proof.
  revert s. induction l as [|a l IH]; intros s HI Hi; [exists s; split_and!; try done; cbn; lia|].
  destruct (act_go s i a l HI Hi) as (s1 & E1 & E2 & E3 & E4 & E5). pose proof (go_inv s i _ s1 HI Hi E1) as HI1. destruct (IH s1 HI1 E2) as (s2 & F1 & F2 & F3 & F4 & F5).
  exists s2. cbn [length replicate run do_call]. unfold agent_step at 1. rewrite Hi. cbn [mbind option_bind]. rewrite E1. cbn [mbind option_bind]. split_and!; try done; [congruence|auto|].
  intros w Hw. cbn in Hw. destruct (decide (0 < wakes w a)%nat) as [Ha|Ha]; [by apply F4, E5|apply F5; lia].
Qed.

(** [butex_wake_n] takes the first [n] waiters of the queue (all of them for 0),
    leaves the others, and when it returns every one that it took is woken: a
    bthread is runnable and a pthread is signalled. *)
Theorem butex_wake_n_wakes nb nt na s i b B n :
  reachable nb nt na s -> ags s !! i = Some AIdle -> bs s !! b = Some B -> stuck B = false ->
  let k := if (n =? 0)%nat then length (waiters B) else n in
  exists m s', run (CA i (WakeN b n) :: replicate m (CA i AGo)) s = Some s' /\ ags s' !! i = Some AIdle /\
    queue s' b = drop k (waiters B) /\ forall w, w ∈ take k (waiters B) -> woken s' w.
Proof.
  intros HI%butex_inv Hi Hb Hst k. set (taken := take k (waiters B)). set (s1 := take_out i b taken (drop k (waiters B)) (wake_acts s taken) s).
  assert (agent_step s i (WakeN b n) = Some s1) as E by (unfold agent_step; rewrite Hi; cbn [mbind option_bind wake_step]; unfold butex_wake_n; rewrite Hb; cbn [mbind option_bind]; by rewrite Hst).
  assert (inv s1) as HI1 by (eapply butex_step_inv; [exact HI|by eapply step_agent]).
  assert (ags s1 !! i = Some (AWake (wake_acts s taken))) as Hi1 by (unfold s1, take_out; cbn; autorewrite with bx; apply list_lookup_insert_eq; by eapply lookup_lt_Some).
  destruct (acts_go s1 i _ HI1 Hi1) as (s2 & F1 & F2 & F3 & F4 & F5).
  exists (length (wake_acts s taken) + 1)%nat, (set_agent i AIdle s2). rewrite replicate_add. cbn [run do_call]. rewrite E. cbn [mbind option_bind]. split_and!.
  - assert (forall l1 l2 s, run (l1 ++ l2) s = run l1 s ≫= run l2) as Happ by (clear; induction l1; intros l2 s; [done|]; cbn; destruct (do_call s a); [apply IHl1|done]).
    rewrite Happ, F1. cbn. unfold agent_step. by rewrite F2.
  - cbn. apply list_lookup_insert_eq. by eapply lookup_lt_Some.
  - unfold queue. cbn [bs set_agent set_ags]. rewrite F3. unfold s1, take_out. cbn [bs set_agent set_ags]. autorewrite with bx. fold (queue (upd_b b (fun _ => drop k (waiters B)) s) b).
    by rewrite (queue_upd _ _ _ _ _ Hb), decide_True.
  - intros w Hw. assert (woken s2 w) as [H|H]; [|by left|by right]. apply F5. rewrite wake_acts_count. by apply elem_of_count.
Qed.
(** Three tasks wait, a pthread between two bthreads; two are woken. *)
Definition three_wait : list call :=
  [CT 0 (Wait 0 0 false false false false); CT 0 (Go true); CT 1 (Wait 0 0 false false false true); CT 1 (Go true); CT 2 (Wait 0 0 false false false false); CT 2 (Go true)].
Lemma butex_wake_n_wakes_witness : match run three_wait (init 1 3 1) with
  | Some s => exists m s', run (CA 0 (WakeN 0 2) :: replicate m (CA 0 AGo)) s = Some s' /\ queue s' 0 = [2%nat] /\ woken s' 0 /\ woken s' 1
  | None => False end.
Proof.
  destruct (run three_wait (init 1 3 1)) as [s|] eqn:E; [|by vm_compute in E]. assert (reachable 1 3 1 s) as Hr by (by apply (run_reachable _ _ _ three_wait (init 1 3 1) s (steps_refl _ _))).
  vm_compute in E. injection E as <-. destruct (butex_wake_n_wakes 1 3 1 _ 0 0 _ 2 Hr eq_refl eq_refl eq_refl) as (m & s' & H1 & _ & H2 & H3). exists m, s'. cbn in H3.
  split_and!; [done|done|apply H3; set_solver|apply H3; set_solver].
Defined.

(** A pthread whose futex timed out reports ETIMEDOUT even when a waker has
    already taken it out and signalled it: that wake-up is used up. *)
Lemma pthread_timeout_uses_wake :
  (s ← run [CT 0 (Wait 0 0 true false false true); CT 0 (Go true); CT 0 FutexTimeout; CA 0 (Wake 0); CA 0 AGo; CT 0 (Go true); CT 0 (Go true); CT 0 (Go true); CT 0 (Go true)] (init 1 1 1);
   Some (pc (T s 0), sig (W s 0), queue s 0)) = Some (TIdle ETIMEDOUT, true, []).
Proof. by vm_compute. Qed.
(** The waker of a pthread has stored sig, the pthread has seen that and returned, and
    the futex_wake_private is still to come. *)
Lemma futex_wake_after_return :
  (s ← run [CT 0 (Wait 0 0 false false false true); CT 0 (Go true); CA 0 (Wake 0); CA 0 AGo; CT 0 (FutexReturns false); CT 0 (Go true); CT 0 (Go true)] (init 1 1 1);
   Some (ags s, gone (W s 0), fault s)) = Some ([AWake [FutexWake 0]], true, false).
Proof. by vm_compute. Qed.
(** A timed wait of a bthread when the timer thread has stopped never releases
    the lock of the butex: later wakers of it are blocked. *)
Lemma stopped_timer_blocks :
  match run [CT 0 (Wait 0 0 true false false false); CT 0 (Go false)] (init 1 1 1) with
  | Some s => pc (T s 0) = TSleep 0 /\ (forall n, agent_step s 0 (WakeN 0 n) = None) /\ agent_step s 0 (Wake 0) = None
  | None => False
  end.
Proof. by vm_compute. Qed.

End Bx.
