(* ===== verification/TimerThread.v ===== *)
(** * The timer thread (src/src-bthread/timer_thread.cpp)

    Tasks are put into buckets by any thread; the timer thread pulls them into a
    heap, sleeps until the earliest one is due and runs it.  A task can be
    unscheduled; a 32-bit version in its slot tells whether it is pending, running
    or gone.  The model has any number of buckets and of calling threads; a step
    is one critical section or one access to shared state.  [jobs] records every
    task ever scheduled with what has become of it; the code has no such list.
    A callback is the time between two steps of the timer thread, in which other
    steps may happen (its own calls count as those of another thread).
    [stop_and_join] called from a callback is left out. *)
From S2P Require Import Prelude.

Module TT.

Definition INT64_MAX : Z := 2 ^ 63 - 1.
Definition EINVAL : Z := 22.
Definition INVALID_TASK_ID : Z := 0.

(** [TimerThread::Task]; [fn] and [arg] are the number of the job. *)
Record Task := mkTask { run_time : Z; fn_arg : nat; task_id : Z; version : Z }.
Definition new_Task : Task := mkTask 0 0 0 2.
Record Bucket := mkBucket { b_nearest : Z; task_head : list nat }.
Definition new_Bucket : Bucket := mkBucket INT64_MAX [].

Definition make_task_id (slot : nat) (version : Z) : Z := Z.lor (Z.shiftl version 32) (Z.of_nat slot).
Definition slot_of_task_id (id : Z) : nat := Z.to_nat (Z.land id 0xFFFFFFFF).
Definition version_of_task_id (id : Z) : Z := u32 (Z.shiftr id 32).

Inductive JobState := Pending | Active (now : Z) | Ran (now : Z) | Cancelled.
Record Job := mkJob { j_slot : nat; j_version : Z; j_time : Z; j_state : JobState }.

(** Where the timer thread is in [run]. *)
Inductive TPC :=
| TTop                          (* the test of the outer loop *)
| TReset
| TPull (i : nat)               (* before the bucket i *)
| TTake (i : nat) (l : list nat)  (* the tasks of bucket i *)
| TRun                          (* the test of the inner loop *)
| TCheck (k : nat) (now : Z)
| TExec (k : nat) (now : Z)     (* run_and_delete *)
| TFn (k : nat) (now : Z)       (* in fn(arg) *)
| TReturn (k : nat)
| TWait
| TFutex (next expected : Z)
| TAsleep (next : Z)
| TDone.
(** Where another thread is in [schedule] or [stop_and_join]. *)
Inductive SPC :=
| SIdle
| SBucket (k b : nat)
| SGlobal (b : nat) (rt : Z)
| SWake
| StopLock
| StopWake
| StopJoin.

Record S := mkS { slots : list Task; free : list nat; buckets : list Bucket; nearest : Z; nsignals : Z; stop : bool; started : bool;
  heap : list nat; tpc : TPC; threads : list SPC; jobs : list Job; fault : bool }.

Definition set_slots l s := mkS l (free s) (buckets s) (nearest s) (nsignals s) (stop s) (started s) (heap s) (tpc s) (threads s) (jobs s) (fault s).
Definition set_free l s := mkS (slots s) l (buckets s) (nearest s) (nsignals s) (stop s) (started s) (heap s) (tpc s) (threads s) (jobs s) (fault s).
Definition set_buckets l s := mkS (slots s) (free s) l (nearest s) (nsignals s) (stop s) (started s) (heap s) (tpc s) (threads s) (jobs s) (fault s).
Definition set_nearest x s := mkS (slots s) (free s) (buckets s) x (nsignals s) (stop s) (started s) (heap s) (tpc s) (threads s) (jobs s) (fault s).
Definition signal s := mkS (slots s) (free s) (buckets s) (nearest s) (nsignals s + 1) (stop s) (started s) (heap s) (tpc s) (threads s) (jobs s) (fault s).
Definition set_stop s := mkS (slots s) (free s) (buckets s) (nearest s) (nsignals s) true (started s) (heap s) (tpc s) (threads s) (jobs s) (fault s).
Definition set_heap l s := mkS (slots s) (free s) (buckets s) (nearest s) (nsignals s) (stop s) (started s) l (tpc s) (threads s) (jobs s) (fault s).
Definition set_tpc p s := mkS (slots s) (free s) (buckets s) (nearest s) (nsignals s) (stop s) (started s) (heap s) p (threads s) (jobs s) (fault s).
Definition set_threads l s := mkS (slots s) (free s) (buckets s) (nearest s) (nsignals s) (stop s) (started s) (heap s) (tpc s) l (jobs s) (fault s).
Definition set_jobs l s := mkS (slots s) (free s) (buckets s) (nearest s) (nsignals s) (stop s) (started s) (heap s) (tpc s) (threads s) l (fault s).
Definition set_fault s := mkS (slots s) (free s) (buckets s) (nearest s) (nsignals s) (stop s) (started s) (heap s) (tpc s) (threads s) (jobs s) true.
Definition set_thread (i : nat) (p : SPC) (s : S) : S := set_threads (<[i := p]> (threads s)) s.

Definition T (s : S) (k : nat) : Task := default new_Task (slots s !! k).
Definition set_version (k : nat) (v : Z) (s : S) : S :=
  set_slots (<[k := mkTask (run_time (T s k)) (fn_arg (T s k)) (task_id (T s k)) v]> (slots s)) s.
(** What has become of a job. *)
Definition set_state (j : nat) (st : JobState) (s : S) : S :=
  match jobs s !! j with Some J => set_jobs (<[j := mkJob (j_slot J) (j_version J) (j_time J) st]> (jobs s)) s | None => s end.

(** The resource pool: a slot that is not in use, or a new one. *)
Definition get_resource (pick : option nat) (s : S) : option (nat * S) :=
  match pick with
  | Some k => if existsb (Nat.eqb k) (free s) then Some (k, set_free (remove_k k (free s)) s) else None
  | None => Some (length (slots s), set_slots (slots s ++ [new_Task]) s)
  end.
Definition return_resource (k : nat) (s : S) : S := set_free (k :: free s) s.

(** [start]; the allocation and [pthread_create] succeed. *)
Definition start (num_buckets : nat) (s : S) : Z * S :=
  if started s then (0, s)
  else if (num_buckets =? 0)%nat then (EINVAL, s)
  else if (1024 <? num_buckets)%nat then (EINVAL, s)
  else (0, mkS (slots s) (free s) (replicate num_buckets new_Bucket) (nearest s) (nsignals s) (stop s) true (heap s) TTop (threads s) (jobs s) (fault s)).

(** [Bucket::schedule] up to its critical section: the task is filled in. *)
Definition fill (k : nat) (rt : Z) (s : S) : S :=
  let v := if version (T s k) =? 0 then 2 else version (T s k) in
  set_jobs (jobs s ++ [mkJob k v rt Pending]) (set_slots (<[k := mkTask rt (length (jobs s)) (make_task_id k v) v]> (slots s)) s).
(** The critical section of [Bucket::schedule]: whether the task is the earliest. *)
Definition bucket_insert (k : nat) (B : Bucket) (s : S) : Bucket * bool :=
  let rt := run_time (T s k) in
  if rt <? b_nearest B then (mkBucket rt (k :: task_head B), true) else (mkBucket (b_nearest B) (k :: task_head B), false).
(** [schedule] in bucket [b] (the hash of the calling thread), up to the critical
    section; the time is after the epoch. *)
Definition schedule (s : S) (i b : nat) (rt : Z) (pick : option nat) : option S :=
  if stop s || negb (started s) then Some s
  else if (b <? length (buckets s))%nat && (0 <? rt) && (rt <=? INT64_MAX) then
    r ← get_resource pick s; Some (set_thread i (SBucket (fst r) b) (fill (fst r) rt (snd r)))
  else None.

Definition unschedule (s : S) (id : Z) : Z * S :=
  let k := slot_of_task_id id in
  match slots s !! k with
  | None => (-1, s)
  | Some task =>
      let v := version_of_task_id id in
      if version task =? v then (0, set_state (fn_arg task) Cancelled (set_version k (u32 (v + 2)) s))
      else (if version task =? u32 (v + 1) then 1 else -1, s)
  end.

(** [Task::try_delete]: whether the task was deleted. *)
Definition try_delete (k : nat) (s : S) : bool * S :=
  let v := version_of_task_id (task_id (T s k)) in
  if version (T s k) =? v then (false, s)
  else (true, return_resource k (if version (T s k) =? u32 (v + 2) then s else set_fault s)).
(** [Task::run_and_delete], up to the call of [fn], after it, and the return of the slot. *)
Definition run_and_delete (k : nat) (now : Z) (s : S) : S :=
  let v := version_of_task_id (task_id (T s k)) in
  if version (T s k) =? v then set_tpc (TFn k now) (set_state (fn_arg (T s k)) (Active now) (set_version k (u32 (v + 1)) s))
  else if version (T s k) =? u32 (v + 2) then set_tpc TRun (return_resource k s)
  else set_tpc TRun (set_fault s).
Definition fn_done (k : nat) (now : Z) (s : S) : S :=
  let v := version_of_task_id (task_id (T s k)) in
  set_tpc (TReturn k) (set_state (fn_arg (T s k)) (Ran now) (set_version k (u32 (v + 2)) s)).

(** [Bucket::consume_tasks]. *)
Definition consume_tasks (B : Bucket) : list nat * Bucket :=
  match task_head B with [] => ([], B) | l => (l, mkBucket INT64_MAX []) end.
(** The heap: its first element is any of the earliest. *)
Definition is_min (s : S) (k : nat) : bool := forallb (fun k' => run_time (T s k) <=? run_time (T s k')) (heap s).
Definition min_time (s : S) : Z := foldr (fun k m => Z.min (run_time (T s k)) m) INT64_MAX (heap s).

(** A step of [TimerThread::run]. *)
Definition timer_step (s : S) (now : Z) (pick : nat) : option S :=
  match tpc s with
  | TTop => Some (set_tpc (if stop s then TDone else TReset) s)
  | TReset => Some (if stop s then set_tpc TDone s else set_tpc (TPull 0) (set_nearest INT64_MAX s))
  | TPull i =>
      Some match buckets s !! i with
           | None => set_tpc TRun s
           | Some B => set_tpc (TTake i (fst (consume_tasks B))) (set_buckets (<[i := snd (consume_tasks B)]> (buckets s)) s)
           end
  | TTake i [] => Some (set_tpc (TPull (Datatypes.S i)) s)
  | TTake i (k :: l) =>
      let r := try_delete k s in
      Some (set_tpc (TTake i l) (if fst r then snd r else set_heap (k :: heap s) s))
  | TRun =>
      match heap s with
      | [] => Some (set_tpc TWait s)
      | _ :: _ =>
          k ← heap s !! pick;
          if is_min s k then Some (set_tpc (if now <? run_time (T s k) then TWait else TCheck k now) s) else None
      end
  | TCheck k now =>
      Some (if nearest s <? run_time (T s k) then set_tpc TTop s else set_tpc (TExec k now) (set_heap (remove_k k (heap s)) s))
  | TExec k now => Some (run_and_delete k now s)
  | TFn k now => Some (fn_done k now s)
  | TReturn k => Some (set_tpc TRun (return_resource k s))
  | TWait =>
      let next := min_time s in
      Some (if nearest s <? next then set_tpc TTop s else set_tpc (TFutex next (nsignals s)) (set_nearest next s))
  | TFutex next expected => Some (set_tpc (if nsignals s =? expected then TAsleep next else TTop) s)
  | TAsleep _ => Some (set_tpc TTop s)
  | TDone => None
  end.

Definition futex_wake (s : S) : S := match tpc s with TAsleep _ => set_tpc TTop s | _ => s end.
(** A step of a thread in [schedule] or [stop_and_join]. *)
Definition thread_step (s : S) (i : nat) : option S :=
  p ← threads s !! i;
  match p with
  | SIdle => None
  | SBucket k b =>
      B ← buckets s !! b;
      let r := bucket_insert k B s in
      Some (set_thread i (if snd r then SGlobal b (run_time (T s k)) else SIdle) (set_buckets (<[b := fst r]> (buckets s)) s))
  | SGlobal b rt => Some (if rt <? nearest s then set_thread i SWake (signal (set_nearest rt s)) else set_thread i SIdle s)
  | SWake => Some (set_thread i SIdle (futex_wake s))
  | StopLock => Some (set_thread i StopWake (signal (set_nearest 0 s)))
  | StopWake => Some (set_thread i StopJoin (futex_wake s))
  | StopJoin => match tpc s with TDone => Some (set_thread i SIdle s) | _ => None end
  end.
Definition stop_and_join (s : S) (i : nat) : S := set_thread i (if started s then StopLock else SIdle) (set_stop s).

Inductive call :=
| Start (num_buckets : nat)
| Schedule (i b : nat) (rt : Z) (pick : option nat)
| Go (i : nat)
| Unschedule (j : nat)          (* with the identifier that [schedule] returned *)
| Stop (i : nat)
| Timer (now : Z) (pick : nat).
Definition job_id (J : Job) : Z := make_task_id (j_slot J) (j_version J).
Definition is_idle (s : S) (i : nat) : bool := match threads s !! i with Some SIdle => true | _ => false end.
Definition do_call (s : S) (c : call) : option S :=
  match c with
  | Start n => Some (snd (start n s))
  | Schedule i b rt pick => if is_idle s i then schedule s i b rt pick else None
  | Go i => thread_step s i
  | Unschedule j => J ← jobs s !! j; Some (snd (unschedule s (job_id J)))
  | Stop i => if is_idle s i then Some (stop_and_join s i) else None
  | Timer now pick => timer_step s now pick
  end.

(** A slot is used less than 2^31 times, and there are less than 2^32 slots. *)
Definition within (s : S) : Prop := Forall (fun t => version t < 2 ^ 32 - 4) (slots s) /\ Z.of_nat (length (slots s)) < 2 ^ 32.
Definition step (s s' : S) : Prop := (exists c, do_call s c = Some s') /\ within s'.
Definition init (n : nat) : S := mkS [] [] [] INT64_MAX 0 false false [] TDone (replicate n SIdle) [] false.
Definition reachable (n : nat) : S -> Prop := steps step (init n).
Definition withinb (s : S) : bool := forallb (fun t => version t <? 2 ^ 32 - 4) (slots s) && (Z.of_nat (length (slots s)) <? 2 ^ 32).
Fixpoint run (l : list call) (s : S) : option S :=
  match l with [] => Some s | c :: l' => s' ← do_call s c; if withinb s' then run l' s' else None end.

(** ** Slots and jobs *)

Definition scount (k : nat) (p : SPC) : nat := match p with SBucket k' _ => b2n (k' =? k)%nat | _ => 0 end.
Definition bcount (k : nat) (B : Bucket) : nat := cocc (task_head B) k.
Definition tcount (k : nat) (p : TPC) : nat := match p with TTake _ l => cocc l k | TExec k' _ => b2n (k' =? k)%nat | _ => 0 end.
Definition rcount (k : nat) (p : TPC) : nat := match p with TFn k' _ | TReturn k' => b2n (k' =? k)%nat | _ => 0 end.
(** How often a slot waits to be run or deleted, and how often it is anywhere. *)
Definition wcount (s : S) (k : nat) : nat :=
  sum_list_with (scount k) (threads s) + sum_list_with (bcount k) (buckets s) + tcount k (tpc s) + cocc (heap s) k.
Definition places (s : S) (k : nat) : nat := cocc (free s) k + wcount s k + rcount k (tpc s).

Definition slot_job (s : S) (k : nat) (J : Job) : Prop :=
  jobs s !! fn_arg (T s k) = Some J /\ j_slot J = k /\ task_id (T s k) = job_id J /\ run_time (T s k) = j_time J.
Definition waiting_ok (s : S) (k : nat) : Prop :=
  exists J, slot_job s k J /\ (version (T s k) = j_version J /\ j_state J = Pending \/ version (T s k) = j_version J + 2 /\ j_state J = Cancelled).
Definition running_ok (s : S) (k : nat) (now : Z) : Prop :=
  exists J, slot_job s k J /\ version (T s k) = j_version J + 1 /\ j_state J = Active now.
Definition job_ok (s : S) (j : nat) (J : Job) : Prop :=
  (j_slot J < length (slots s))%nat /\ 2 <= j_version J /\ 0 < j_time J <= INT64_MAX /\
  match j_state J with
  | Pending => version (T s (j_slot J)) = j_version J /\ fn_arg (T s (j_slot J)) = j /\ (0 < wcount s (j_slot J))%nat
  | Active now => version (T s (j_slot J)) = j_version J + 1 /\ fn_arg (T s (j_slot J)) = j /\ tpc s = TFn (j_slot J) now /\ j_time J <= now
  | Ran now => j_version J + 2 <= version (T s (j_slot J)) /\ j_time J <= now
  | Cancelled => j_version J + 2 <= version (T s (j_slot J))
  end.
Record own (s : S) : Prop := {
  o_fault : fault s = false;
  o_started : started s = false -> buckets s = [] /\ tpc s = TDone;
  o_count : forall k, places s k = b2n (k <? length (slots s))%nat;
  o_ver : forall k, 2 <= version (T s k);
  o_slot : forall k, (0 < wcount s k)%nat -> waiting_ok s k;
  o_fn : forall k now, tpc s = TFn k now -> running_ok s k now;
  o_job : forall j J, jobs s !! j = Some J -> job_ok s j J }.

Lemma T_slots s s' k : slots s' = slots s -> T s' k = T s k.
Proof. unfold T. by intros ->. Qed.
Lemma timer_task_lookup s k : (k < length (slots s))%nat -> slots s !! k = Some (T s k).
Proof. intros H. unfold T. by destruct (lookup_lt_is_Some_2 (slots s) k H) as [x ->]. Qed.
Lemma T_insert s s' k x v : (k < length (slots s))%nat -> slots s' = <[k := x]> (slots s) -> T s' v = if decide (v = k) then x else T s v.
Proof.
  intros Hk E. unfold T. rewrite E. destruct (decide (v = k)) as [->|]; [by rewrite list_lookup_insert_eq|by rewrite list_lookup_insert_ne].
Qed.

(** Slots move from place to place. *)
Lemma own_move s s' : own s -> slots s' = slots s -> jobs s' = jobs s -> fault s' = false -> (started s' = false -> buckets s' = [] /\ tpc s' = TDone) ->
  (forall k, places s' k = places s k) -> (forall k, (0 < wcount s' k)%nat -> (0 < wcount s k)%nat) ->
  (forall k now, tpc s' = TFn k now <-> tpc s = TFn k now) ->
  (forall j J, jobs s !! j = Some J -> j_state J = Pending -> (0 < wcount s (j_slot J))%nat -> (0 < wcount s' (j_slot J))%nat) -> own s'.
Proof.
  intros HI ES EJ EF Est HP HW HT HJ. assert (forall k, T s' k = T s k) as ET by (intros k; by apply T_slots). split; try done.
  - intros k. rewrite HP, ES. apply HI.
  - intros k. rewrite ET. apply HI.
  - intros k Hk. destruct (o_slot _ HI k (HW k Hk)) as (J & (E1 & E2 & E3 & E4) & H). exists J. unfold slot_job. rewrite EJ, !ET. done.
  - intros k now Hk. apply HT in Hk. destruct (o_fn _ HI k now Hk) as (J & (E1 & E2 & E3 & E4) & H). exists J. unfold slot_job. rewrite EJ, !ET. done.
  - intros j J Hj. rewrite EJ in Hj. destruct (o_job _ HI j J Hj) as (E1 & E2 & E3 & E4). unfold job_ok. rewrite ES, !ET. split_and!; try done; [apply E3..|].
    destruct (j_state J) eqn:Est'; try done.
    + destruct E4 as (E4 & E5 & E6). split_and!; try done. by eapply HJ.
    + destruct E4 as (E4 & E5 & E6 & E7). split_and!; try done. by apply HT.
Qed.

(** The version of a slot and its job change together. *)
Lemma own_update s s' k J v st : own s -> (k < length (slots s))%nat -> slot_job s k J -> version (T s k) <= v ->
  slots s' = <[k := mkTask (run_time (T s k)) (fn_arg (T s k)) (task_id (T s k)) v]> (slots s) ->
  jobs s' = <[fn_arg (T s k) := mkJob (j_slot J) (j_version J) (j_time J) st]> (jobs s) -> fault s' = false -> (started s' = false -> buckets s' = [] /\ tpc s' = TDone) ->
  (forall v, places s' v = places s v) -> (forall v, v <> k -> wcount s' v = wcount s v) -> (forall v now, v <> k -> tpc s' = TFn v now <-> tpc s = TFn v now) ->
  ((0 < wcount s' k)%nat -> v = j_version J + 2 /\ st = Cancelled) ->
  (forall now, tpc s' = TFn k now -> v = j_version J + 1 /\ st = Active now) ->
  job_ok s' (fn_arg (T s k)) (mkJob (j_slot J) (j_version J) (j_time J) st) -> own s'.
Proof.
  intros HI Hk (J1 & J2 & J3 & J4) Hv ES EJ EF Est HP HW HT HK HF HO.
  assert (forall u, T s' u = if decide (u = k) then mkTask (run_time (T s k)) (fn_arg (T s k)) (task_id (T s k)) v else T s u) as ET by (intros u; by apply T_insert).
  assert (length (slots s') = length (slots s)) as EL by (by rewrite ES, length_insert).
  assert (jobs s' !! fn_arg (T s k) = Some (mkJob (j_slot J) (j_version J) (j_time J) st)) as EJk by (rewrite EJ; apply list_lookup_insert_eq; by eapply lookup_lt_Some).
  assert (slot_job s' k (mkJob (j_slot J) (j_version J) (j_time J) st)) as HS by (unfold slot_job; rewrite ET, decide_True by done; cbn; done).
  assert (forall u j' J', u <> k -> j_slot J' = u -> jobs s !! j' = Some J' -> jobs s' !! j' = Some J') as Hother.
  { intros u j' J' Hu EJ' Hj. rewrite EJ. destruct (decide (j' = fn_arg (T s k))) as [->|]; [congruence|by rewrite list_lookup_insert_ne]. }
  assert (forall u J', u <> k -> slot_job s u J' -> slot_job s' u J') as Hjob.
  { intros u J' Hu (E1 & E2 & E3 & E4). unfold slot_job. rewrite !ET. rewrite decide_False by done. split_and!; try done. by eapply Hother. }
  split; try done.
  - intros u. rewrite HP, EL. apply HI.
  - intros u. rewrite ET. destruct (decide (u = k)) as [->|]; [|apply HI]. cbn. pose proof (o_ver _ HI k). lia.
  - intros u Hu. destruct (decide (u = k)) as [->|Hne].
    + destruct (HK Hu) as [Hv1 Hst]. exists (mkJob (j_slot J) (j_version J) (j_time J) st). split; [done|right]. rewrite ET, decide_True by done. done.
    + rewrite HW in Hu by done. destruct (o_slot _ HI u Hu) as (J' & E & H). exists J'. rewrite ET, decide_False by done. split; [by apply Hjob|done].
  - intros u now Hu. destruct (decide (u = k)) as [->|Hne].
    + destruct (HF now Hu) as [Hv1 Hst]. exists (mkJob (j_slot J) (j_version J) (j_time J) st). split; [done|]. rewrite ET, decide_True by done. done.
    + apply HT in Hu; [|done]. destruct (o_fn _ HI u now Hu) as (J' & E & H). exists J'. rewrite ET, decide_False by done. split; [by apply Hjob|done].
  - intros j' J' Hj. destruct (decide (j' = fn_arg (T s k))) as [->|Hne]; [congruence|]. rewrite EJ, list_lookup_insert_ne in Hj by done.
    destruct (o_job _ HI j' J' Hj) as (E1 & E2 & E3 & E4). unfold job_ok. rewrite EL, ET. split_and!; try done; [apply E3..|].
    destruct (decide (j_slot J' = k)) as [Ek|Ek]; [rewrite Ek in E4|].
    + destruct (j_state J'); cbn [version fn_arg]; [destruct E4 as (_ & E4 & _); congruence|destruct E4 as (_ & E4 & _); congruence|split; [lia|apply E4]|lia].
    + destruct (j_state J'); try done; [by rewrite HW|by rewrite HT].
Qed.

(** A slot that is not in use is filled in and given to a thread. *)
Lemma own_fill s s' k rt i b : own s -> threads s !! i = Some SIdle -> (k <= length (slots s))%nat -> cocc (free s) k = b2n (k <? length (slots s))%nat -> 0 < rt <= INT64_MAX ->
  (forall u, T s' u = if decide (u = k) then mkTask rt (length (jobs s)) (make_task_id k (version (T s k))) (version (T s k)) else T s u) ->
  length (slots s') = Nat.max (length (slots s)) (Datatypes.S k) -> jobs s' = jobs s ++ [mkJob k (version (T s k)) rt Pending] -> threads s' = <[i := SBucket k b]> (threads s) ->
  (forall u, cocc (free s') u = if decide (u = k) then 0%nat else cocc (free s) u) -> buckets s' = buckets s -> tpc s' = tpc s -> heap s' = heap s -> fault s' = fault s -> started s' = started s -> own s'.
Proof.
  intros HI Hi Hk Hfree Hrt ET EL EJ ETh EFr EB EP EH EF ES. pose proof (o_count _ HI k) as Hc. unfold places in Hc. assert (wcount s k = 0%nat /\ rcount k (tpc s) = 0%nat) as [Hw Hr] by lia.
  assert (forall u, wcount s' u = wcount s u + b2n (k =? u)%nat)%nat as HW.
  { intros u. unfold wcount. rewrite ETh, EB, EP, EH. pose proof (sum_insert (scount u) (threads s) i SIdle (SBucket k b) Hi) as H. cbn [scount] in H. lia. }
  assert (forall j J, jobs s !! j = Some J -> j_slot J = k -> j_version J + 2 <= version (T s k) /\ match j_state J with Ran now => j_time J <= now | Cancelled => True | _ => False end) as Hold.
  { intros j J Hj Ek. destruct (o_job _ HI j J Hj) as (_ & _ & _ & H). rewrite Ek in H. destruct (j_state J); [lia| |done|done]. destruct H as (_ & _ & H & _). rewrite H in Hr. cbn in Hr. by rewrite Nat.eqb_refl in Hr. }
  assert (forall j J, jobs s !! j = Some J -> jobs s' !! j = Some J) as Hkeep by (intros j J Hj; rewrite EJ; by apply lookup_app_l_Some).
  assert (forall u J, u <> k -> slot_job s u J -> slot_job s' u J) as Hjob.
  { intros u J Hu (E1 & E2 & E3 & E4). unfold slot_job. rewrite !ET. rewrite decide_False by done. auto. }
  assert (jobs s' !! length (jobs s) = Some (mkJob k (version (T s k)) rt Pending)) as Hnew by (rewrite EJ; by apply list_lookup_middle).
  split.
  - rewrite EF. apply HI.
  - rewrite ES, EB, EP. apply HI.
  - intros u. unfold places. rewrite EFr, HW, EP, EL. pose proof (o_count _ HI u) as Hu. unfold places in Hu. destruct (decide (u = k)) as [->|Hne].
    + rewrite Hw, Hr, Nat.eqb_refl. destruct (Nat.ltb_spec k (Nat.max (length (slots s)) (Datatypes.S k))); [done|lia].
    + destruct (Nat.eqb_spec k u); [congruence|]. destruct (Nat.ltb_spec u (length (slots s))), (Nat.ltb_spec u (Nat.max (length (slots s)) (Datatypes.S k))); cbn in *; lia.
  - intros u. rewrite ET. destruct (decide (u = k)) as [->|]; cbn; apply HI.
  - intros u Hu. destruct (decide (u = k)) as [->|Hne].
    + exists (mkJob k (version (T s k)) rt Pending). unfold slot_job. rewrite ET, decide_True by done. cbn. split_and!; try done. by left.
    + rewrite HW in Hu. destruct (Nat.eqb_spec k u); [congruence|]. cbn in Hu. destruct (o_slot _ HI u ltac:(lia)) as (J & E & H). exists J. rewrite ET, decide_False by done. split; [by apply Hjob|done].
  - intros u now Hu. rewrite EP in Hu. destruct (decide (u = k)) as [->|Hne]; [rewrite Hu in Hr; cbn in Hr; by rewrite Nat.eqb_refl in Hr|].
    destruct (o_fn _ HI u now Hu) as (J & E & H). exists J. rewrite ET, decide_False by done. split; [by apply Hjob|done].
  - intros j J Hj. rewrite EJ in Hj. apply lookup_app_Some in Hj as [Hj|[Hlen Hj]].
    + destruct (o_job _ HI j J Hj) as (E1 & E2 & E3 & E4). unfold job_ok. rewrite EL, ET. split_and!; try done; [lia|apply E3..|]. destruct (decide (j_slot J = k)) as [Ek|Ek].
      * destruct (Hold j J Hj Ek) as [Ev Es]. cbn [version]. destruct (j_state J); done.
      * destruct (j_state J); try done; [destruct E4 as (E4 & E5 & E6); split_and!; try done; rewrite HW; lia|by rewrite EP].
    + destruct (j - length (jobs s))%nat as [|m] eqn:Em; [|by destruct m]. cbn in Hj. injection Hj as <-. unfold job_ok. cbn [j_slot j_version j_time j_state]. rewrite EL, ET, decide_True by done. cbn [version fn_arg].
      split_and!; try done; [lia|apply HI|apply Hrt..|lia|rewrite HW, Nat.eqb_refl; cbn; lia].
Qed.


Lemma schedule_own s i b rt pick s' : own s -> threads s !! i = Some SIdle -> schedule s i b rt pick = Some s' -> own s'.
Proof.
  intros HI Hi. unfold schedule. destruct (stop s || negb (started s)); [by intros [= <-]|]. destruct ((b <? length (buckets s))%nat && (0 <? rt) && (rt <=? INT64_MAX)) eqn:Eg; [|done].
  apply andb_true_iff in Eg as [[_ Eg1%Z.ltb_lt]%andb_true_iff Eg2%Z.leb_le]. assert (forall k, (version (T s k) =? 0) = false) as Hv by (intros k; apply Z.eqb_neq; pose proof (o_ver _ HI k); lia).
  destruct pick as [k|]; cbn [get_resource].
  - destruct (existsb (Nat.eqb k) (free s)) eqn:Ek; [|done]. cbn. intros [= <-]. assert (0 < cocc (free s) k)%nat as Hk.
    { apply existsb_exists in Ek as (u & Hu & E%Nat.eqb_eq). subst u. by apply elem_cocc, list_elem_of_In. }
    pose proof (o_count _ HI k) as Hc. unfold places in Hc. assert (k < length (slots s))%nat as Hlt by (destruct (Nat.ltb_spec k (length (slots s))); [done|cbn in Hc; lia]).
    destruct (Nat.ltb_spec k (length (slots s))) as [_|]; [|lia]. cbn in Hc.
    assert (T (set_free (remove_k k (free s)) s) k = T s k) as EK by done.
    eapply (own_fill s _ k rt i b); try done; [lia|destruct (Nat.ltb_spec k (length (slots s))); cbn; lia|..].
    + intros u. apply (T_insert s _ k (mkTask rt (length (jobs s)) (make_task_id k (version (T s k))) (version (T s k))) u Hlt). unfold fill. rewrite EK, Hv. done.
    + cbn. rewrite length_insert. lia.
    + unfold fill. rewrite EK, Hv. done.
    + intros u. cbn. apply cocc_remove.
  - cbn. intros [= <-]. assert (T s (length (slots s)) = new_Task) as En by (unfold T; by rewrite lookup_ge_None_2).
    assert (T (set_slots (slots s ++ [new_Task]) s) (length (slots s)) = new_Task) as En' by (unfold T; cbn; by rewrite list_lookup_middle).
    pose proof (o_count _ HI (length (slots s))) as Hc. unfold places in Hc. rewrite Nat.ltb_irrefl in Hc. cbn [b2n] in Hc.
    eapply (own_fill s _ (length (slots s)) rt i b); try done; [rewrite Nat.ltb_irrefl; cbn [b2n]; lia|..].
    + intros u. rewrite (T_insert (set_slots (slots s ++ [new_Task]) s) _ (length (slots s)) (mkTask rt (length (jobs s)) (make_task_id (length (slots s)) (version (T s (length (slots s))))) (version (T s (length (slots s))))));
        [|cbn; rewrite length_app; cbn; lia|unfold fill; rewrite En', En; done]. destruct (decide (u = length (slots s))); [done|]. unfold T. cbn.
      destruct (decide (u < length (slots s))%nat); [by rewrite lookup_app_l|]. rewrite !lookup_ge_None_2; [done|rewrite ?length_app; cbn; lia..].
    + cbn. rewrite length_insert, length_app. cbn. lia.
    + unfold fill. rewrite En', En. done.
    + intros u. change (cocc (free _) u) with (cocc (free s) u). destruct (decide (u = length (slots s))) as [->|]; [lia|done].
Qed.

(** ** Identifiers *)

Lemma task_id_parts k v : Z.of_nat k < 2 ^ 32 -> is_u32 v -> slot_of_task_id (make_task_id k v) = k /\ version_of_task_id (make_task_id k v) = v.
Proof.
  intros Hk Hv. unfold make_task_id, slot_of_task_id, version_of_task_id. rewrite lor_word by (unfold is_u32 in *; lia). rewrite land_low, word_low by (unfold is_u32; lia).
  split; [lia|]. rewrite Z.shiftr_div_pow2, Z.div_add_l by lia. rewrite Z.div_small, Z.add_0_r by lia. by apply u32_small.
Qed.
Lemma within_version s k : within s -> 0 <= version (T s k) -> version (T s k) < 2 ^ 32 - 4.
Proof.
  intros [Hw _] _. destruct (decide (k < length (slots s))%nat) as [Hk|Hk]; [|unfold T; rewrite lookup_ge_None_2 by lia; cbn; lia].
  rewrite Forall_lookup in Hw. by apply (Hw k), timer_task_lookup.
Qed.
Lemma job_parts s j J : own s -> within s -> jobs s !! j = Some J ->
  slot_of_task_id (job_id J) = j_slot J /\ version_of_task_id (job_id J) = j_version J /\ j_version J < 2 ^ 32 - 4 /\
  u32 (j_version J + 1) = j_version J + 1 /\ u32 (j_version J + 2) = j_version J + 2.
Proof.
  intros HI Hw Hj. destruct (o_job _ HI j J Hj) as (E1 & E2 & E3 & E4). pose proof (o_ver _ HI (j_slot J)) as H2. pose proof (within_version s (j_slot J) Hw ltac:(lia)) as H3.
  assert (j_version J < 2 ^ 32 - 4) as H4 by (destruct (j_state J); lia). destruct (task_id_parts (j_slot J) (j_version J)) as [E5 E6]; [destruct Hw; lia|unfold is_u32; lia|].
  split_and!; try done; apply u32_small; unfold is_u32; lia.
Qed.
Lemma slot_parts s k J : own s -> within s -> slot_job s k J ->
  version_of_task_id (task_id (T s k)) = j_version J /\ u32 (j_version J + 1) = j_version J + 1 /\ u32 (j_version J + 2) = j_version J + 2.
Proof. intros HI Hw (E1 & E2 & E3 & E4). rewrite E3. destruct (job_parts s _ J HI Hw E1) as (_ & ? & _ & ? & ?). done. Qed.

(** What [unschedule] does, by what has become of the job. *)
Lemma unschedule_spec s j J : own s -> within s -> jobs s !! j = Some J ->
  unschedule s (job_id J) =
  match j_state J with
  | Pending => (0, set_state j Cancelled (set_version (j_slot J) (j_version J + 2) s))
  | Active _ => (1, s)
  | _ => (-1, s)
  end.
Proof.
  intros HI Hw Hj. destruct (job_parts s j J HI Hw Hj) as (E1 & E2 & _ & E4 & E5). destruct (o_job _ HI j J Hj) as (F1 & F2 & F3 & F4).
  unfold unschedule. rewrite E1, E2, E4, E5, (timer_task_lookup s _ F1). destruct (j_state J).
  - destruct F4 as (G1 & G2 & _). by rewrite G1, Z.eqb_refl, G2.
  - destruct F4 as (G1 & G2 & _). rewrite G1, Z.eqb_refl. destruct (Z.eqb_spec (j_version J + 1) (j_version J)); [lia|done].
  - destruct F4 as (G1 & _). destruct (Z.eqb_spec (version (T s (j_slot J))) (j_version J)); [lia|]. destruct (Z.eqb_spec (version (T s (j_slot J))) (j_version J + 1)); [lia|done].
  - destruct (Z.eqb_spec (version (T s (j_slot J))) (j_version J)); [lia|]. destruct (Z.eqb_spec (version (T s (j_slot J))) (j_version J + 1)); [lia|done].
Qed.

Lemma wcount_of s s' k : threads s' = threads s -> buckets s' = buckets s -> tpc s' = tpc s -> heap s' = heap s -> wcount s' k = wcount s k.
Proof. unfold wcount. by intros -> -> -> ->. Qed.
Lemma places_of s s' k : free s' = free s -> threads s' = threads s -> buckets s' = buckets s -> tpc s' = tpc s -> heap s' = heap s -> places s' k = places s k.
Proof. unfold places. intros -> H1 H2 H3 H4. rewrite H3. f_equal. f_equal. by apply wcount_of. Qed.
Lemma slot_in s k : own s -> (0 < places s k)%nat -> (k < length (slots s))%nat.
Proof. intros HI. rewrite (o_count _ HI). destruct (Nat.ltb_spec k (length (slots s))); [done|cbn; lia]. Qed.

Lemma state_fields j st s : slots (set_state j st s) = slots s /\ free (set_state j st s) = free s /\ buckets (set_state j st s) = buckets s /\ threads (set_state j st s) = threads s /\
  tpc (set_state j st s) = tpc s /\ heap (set_state j st s) = heap s /\ fault (set_state j st s) = fault s /\ started (set_state j st s) = started s /\
  nearest (set_state j st s) = nearest s /\ nsignals (set_state j st s) = nsignals s /\ stop (set_state j st s) = stop s.
Proof. unfold set_state. by destruct (jobs s !! j). Qed.

Lemma unschedule_own s j J : own s -> within s -> jobs s !! j = Some J -> own (snd (unschedule s (job_id J))).
Proof.
  intros HI Hw Hj. rewrite (unschedule_spec s j J) by done. destruct (j_state J) eqn:Est; try done. cbn [snd].
  destruct (o_job _ HI j J Hj) as (F1 & F2 & F3 & F4). rewrite Est in F4. destruct F4 as (F4 & F5 & F6). set (k := j_slot J) in *. destruct (o_slot _ HI k F6) as (J' & HJ' & _).
  assert (J' = J) as -> by (destruct HJ' as [E _]; rewrite F5 in E; congruence). set (s1 := set_version k (j_version J + 2) s).
  destruct (state_fields j Cancelled s1) as (E1 & E2 & E3 & E4 & E5 & E6 & E7 & E8 & _).
  assert (forall u, wcount (set_state j Cancelled s1) u = wcount s u) as HW by (intros u; by apply wcount_of).
  eapply (own_update s _ k J (j_version J + 2) Cancelled); try done; try lia.
  - rewrite F5. unfold set_state. change (jobs s1) with (jobs s). by rewrite Hj.
  - rewrite E7. apply HI.
  - rewrite E8, E3, E5. apply HI.
  - intros u. by apply places_of.
  - by rewrite E5.
  - rewrite E5. intros now Hn. change (tpc s1) with (tpc s) in Hn. destruct (o_fn _ HI k now Hn) as (J' & (E & _) & _ & Hst). rewrite F5, Hj in E. congruence.
  - unfold job_ok. cbn [j_slot j_version j_time j_state]. rewrite E1. change (slots s1) with (<[k := mkTask (run_time (T s k)) (fn_arg (T s k)) (task_id (T s k)) (j_version J + 2)]> (slots s)).
    rewrite length_insert. split_and!; try done; try apply F3. rewrite (T_insert s (set_state j Cancelled s1) k (mkTask (run_time (T s k)) (fn_arg (T s k)) (task_id (T s k)) (j_version J + 2)) _ F1) by done. fold k. rewrite decide_True by done. cbn. lia.
Qed.

(** ** The steps of the timer thread and of the others keep slots and jobs in order *)

Definition no_fn (p : TPC) : Prop := forall k now, p <> TFn k now.
(** Steps between places. *)
Lemma own_shift s s' : own s -> slots s' = slots s -> jobs s' = jobs s -> fault s' = fault s -> (started s' = false -> buckets s' = [] /\ tpc s' = TDone) ->
  no_fn (tpc s) -> no_fn (tpc s') -> (forall k, rcount k (tpc s') = rcount k (tpc s)) -> (forall k, cocc (free s') k = cocc (free s) k) -> (forall k, wcount s' k = wcount s k) -> own s'.
Proof.
  intros HI ES EJ EF Est N1 N2 HR HF HW. apply (own_move s); try done.
  - rewrite EF. apply HI.
  - intros k. unfold places. by rewrite HR, HF, HW.
  - intros k. by rewrite HW.
  - intros k now. split; intros H; [by apply N2 in H|by apply N1 in H].
  - intros j J _ _. by rewrite HW.
Qed.
Definition plain (p : TPC) : bool := match p with TTake _ (_ :: _) | TExec _ _ | TFn _ _ | TReturn _ => false | _ => true end.
Lemma plain_count p : plain p = true -> no_fn p /\ (forall k, rcount k p = 0%nat) /\ forall k, tcount k p = 0%nat.
Proof. destruct p as [| | |i []| | | | | | | | |]; try done. Qed.
Lemma tpc_own s p x : own s -> plain (tpc s) = true -> plain p = true -> (started s = false -> p = TDone) -> own (set_tpc p (set_nearest x s)).
Proof.
  intros HI [N1 [R1 C1]]%plain_count [N2 [R2 C2]]%plain_count Hst. apply (own_shift s); try done; [intros H; cbn in *; split; [by apply HI|auto]|..].
  - intros k. cbn. by rewrite R1, R2.
  - intros k. unfold wcount. cbn [set_tpc set_nearest threads buckets heap tpc]. by rewrite C1, C2.
Qed.

(** A cancelled task gives its slot back. *)
Lemma delete_own s s' k J : own s -> slots s' = slots s -> jobs s' = jobs s -> fault s' = fault s -> (started s' = false -> buckets s' = [] /\ tpc s' = TDone) ->
  no_fn (tpc s) -> no_fn (tpc s') -> (forall v, rcount v (tpc s') = rcount v (tpc s)) -> (forall v, cocc (free s') v = cocc (free s) v + b2n (k =? v))%nat ->
  (forall v, wcount s' v + b2n (k =? v) = wcount s v)%nat -> slot_job s k J -> j_state J <> Pending -> own s'.
Proof.
  intros HI ES EJ EF Est N1 N2 HR HF HW (E1 & E2 & _) Hst. apply (own_move s); try done.
  - rewrite EF. apply HI.
  - intros v. unfold places. rewrite HR, HF. specialize (HW v). lia.
  - intros v. specialize (HW v). lia.
  - intros v now. split; intros H; [by apply N2 in H|by apply N1 in H].
  - intros j J' Hj Hp. specialize (HW (j_slot J')). destruct (Nat.eqb_spec k (j_slot J')) as [->|]; cbn in HW; [|lia]. destruct (o_job _ HI j J' Hj) as (_ & _ & _ & H). rewrite Hp in H. destruct H as (_ & H & _).
    rewrite H, Hj in E1. congruence.
Qed.

Lemma take_own s i k l : own s -> within s -> tpc s = TTake i (k :: l) -> own (set_tpc (TTake i l) (if fst (try_delete k s) then snd (try_delete k s) else set_heap (k :: heap s) s)).
Proof.
  intros HI Hw Ep. assert (0 < wcount s k)%nat as Hk by (unfold wcount; rewrite Ep; cbn; destruct (Nat.eq_dec k k); [lia|done]).
  destruct (o_slot _ HI k Hk) as (J & HJ & HV). destruct (slot_parts s k J HI Hw HJ) as (P1 & P2 & P3). unfold try_delete. rewrite P1.
  assert (started s = false -> False) as Hst by (intros H; destruct (o_started _ HI H); congruence).
  destruct HV as [[HV HS]|[HV HS]]; rewrite HV.
  - rewrite Z.eqb_refl. cbn [fst]. apply (own_shift s); try done; rewrite ?Ep; try done.
    intros v. unfold wcount. cbn [set_tpc set_heap threads buckets heap tpc]. rewrite Ep. cbn. unfold cocc. cbn. destruct (Nat.eq_dec k v); lia.
  - destruct (Z.eqb_spec (j_version J + 2) (j_version J)); [lia|]. cbn [fst snd]. rewrite P3, Z.eqb_refl.
    eapply (delete_own s _ k J); try done; rewrite ?Ep; try done.
    + intros v. cbn. unfold cocc. cbn. destruct (Nat.eq_dec k v), (Nat.eqb_spec k v); cbn; lia.
    + intros v. unfold wcount. cbn [set_tpc return_resource set_free threads buckets heap tpc]. rewrite Ep. cbn. unfold cocc. cbn. destruct (Nat.eq_dec k v), (Nat.eqb_spec k v); cbn; lia.
    + by rewrite HS.
Qed.

Lemma exec_own s k now : own s -> within s -> tpc s = TExec k now -> run_time (T s k) <= now -> own (run_and_delete k now s).
Proof.
  intros HI Hw Ep Hnow. assert (0 < wcount s k)%nat as Hk by (unfold wcount; rewrite Ep; cbn; rewrite Nat.eqb_refl; cbn; lia).
  pose proof (slot_in s k HI ltac:(unfold places; lia)) as Hlt. pose proof (o_count _ HI k) as Hone. destruct (o_slot _ HI k Hk) as (J & HJ & HV). destruct (slot_parts s k J HI Hw HJ) as (P1 & P2 & P3).
  assert (started s = false -> False) as Hst by (intros H; destruct (o_started _ HI H); congruence). unfold run_and_delete. rewrite P1, P2, P3.
  destruct HV as [[HV HS]|[HV HS]]; rewrite HV.
  - rewrite Z.eqb_refl. pose proof HJ as (E1 & E2 & E3 & E4). set (s1 := set_version k (j_version J + 1) s). destruct (state_fields (fn_arg (T s k)) (Active now) s1) as (G1 & G2 & G3 & G4 & G5 & G6 & G7 & G8 & _).
    assert (forall v, wcount (set_tpc (TFn k now) (set_state (fn_arg (T s k)) (Active now) s1)) v + b2n (k =? v) = wcount s v)%nat as HW.
    { intros v. unfold wcount. cbn [set_tpc threads buckets heap tpc]. rewrite G3, G4, G6, Ep. change (threads s1) with (threads s). change (buckets s1) with (buckets s). change (heap s1) with (heap s). cbn [tcount]. lia. }
    eapply (own_update s _ k J (j_version J + 1) (Active now)); try done; try lia.
    + cbn [set_tpc jobs]. unfold set_state. change (jobs s1) with (jobs s). by rewrite E1.
    + cbn [set_tpc fault]. rewrite G7. apply HI.
    + cbn [set_tpc started]. rewrite G8. intros H. by destruct Hst.
    + intros v. unfold places. specialize (HW v). cbn [set_tpc tpc free rcount]. rewrite G2, Ep. change (free s1) with (free s). cbn [rcount]. lia.
    + intros v Hv. specialize (HW v). destruct (Nat.eqb_spec k v); [congruence|]. cbn [b2n] in HW. lia.
    + intros v n Hv. rewrite Ep. cbn. split; congruence.
    + intros H. specialize (HW k). rewrite Nat.eqb_refl in HW. cbn [b2n] in HW. unfold places in Hone. destruct (k <? length (slots s))%nat; cbn in Hone; lia.
    + intros n H. cbn in H. injection H as ->. done.
    + destruct (o_job _ HI _ J E1) as (F1 & F2 & F3 & _). unfold job_ok. cbn [j_slot j_version j_time j_state]. cbn [set_tpc slots]. rewrite G1.
      change (slots s1) with (<[k := mkTask (run_time (T s k)) (fn_arg (T s k)) (task_id (T s k)) (j_version J + 1)]> (slots s)). rewrite length_insert. split_and!; try done; try apply F3;
        rewrite ?E2; rewrite ?(T_insert s _ k (mkTask (run_time (T s k)) (fn_arg (T s k)) (task_id (T s k)) (j_version J + 1)) _ Hlt) by done; rewrite ?decide_True by done; try done. lia.
  - destruct (Z.eqb_spec (j_version J + 2) (j_version J)); [lia|]. rewrite Z.eqb_refl. eapply (delete_own s _ k J); try done; rewrite ?Ep; try done.
    + intros v. cbn. unfold cocc. cbn. destruct (Nat.eq_dec k v), (Nat.eqb_spec k v); cbn; lia.
    + intros v. unfold wcount. cbn [set_tpc return_resource set_free threads buckets heap tpc]. rewrite Ep. cbn [tcount]. lia.
    + by rewrite HS.
Qed.

Lemma fn_done_own s k now : own s -> within s -> tpc s = TFn k now -> own (fn_done k now s).
Proof.
  intros HI Hw Ep. destruct (o_fn _ HI k now Ep) as (J & HJ & HV & HS). destruct (slot_parts s k J HI Hw HJ) as (P1 & P2 & P3). pose proof HJ as (E1 & E2 & E3 & E4).
  destruct (o_job _ HI _ J E1) as (F1 & F2 & F3 & F4). rewrite HS in F4. destruct F4 as (_ & _ & _ & F4). rewrite E2 in F1.
  assert (started s = false -> False) as Hst by (intros H; destruct (o_started _ HI H); congruence). unfold fn_done. rewrite P1, P3.
  set (s1 := set_version k (j_version J + 2) s). destruct (state_fields (fn_arg (T s k)) (Ran now) s1) as (G1 & G2 & G3 & G4 & G5 & G6 & G7 & G8 & _).
  assert (forall v, wcount (set_tpc (TReturn k) (set_state (fn_arg (T s k)) (Ran now) s1)) v = wcount s v)%nat as HW.
  { intros v. unfold wcount. cbn [set_tpc threads buckets heap tpc]. rewrite G3, G4, G6, Ep. done. }
  eapply (own_update s _ k J (j_version J + 2) (Ran now)); try done; try lia.
  - cbn [set_tpc jobs]. unfold set_state. change (jobs s1) with (jobs s). by rewrite E1.
  - cbn [set_tpc fault]. rewrite G7. apply HI.
  - cbn [set_tpc started]. rewrite G8. intros H. by destruct Hst.
  - intros v. unfold places. rewrite HW. cbn [set_tpc tpc free rcount]. rewrite G2, Ep. done.
  - intros v n Hv. rewrite Ep. cbn. split; congruence.
  - rewrite HW. intros H. pose proof (o_count _ HI k) as Hc. unfold places in Hc. rewrite Ep in Hc. cbn [rcount] in Hc. rewrite Nat.eqb_refl in Hc. cbn [b2n] in Hc. destruct (k <? length (slots s))%nat; cbn in Hc; lia.
  - unfold job_ok. cbn [j_slot j_version j_time j_state]. cbn [set_tpc slots]. rewrite G1.
    change (slots s1) with (<[k := mkTask (run_time (T s k)) (fn_arg (T s k)) (task_id (T s k)) (j_version J + 2)]> (slots s)). rewrite length_insert. split_and!; try done; try apply F3; [by rewrite E2|].
    rewrite E2. rewrite (T_insert s _ k (mkTask (run_time (T s k)) (fn_arg (T s k)) (task_id (T s k)) (j_version J + 2)) _ F1) by done. rewrite decide_True by done. cbn. lia.
Qed.

Lemma return_own s k : own s -> tpc s = TReturn k -> own (set_tpc TRun (return_resource k s)).
Proof.
  intros HI Ep. apply (own_move s); try done.
  - apply HI.
  - intros H. by destruct (o_started _ HI H); congruence.
  - intros v. unfold places, wcount. cbn [set_tpc return_resource set_free threads buckets heap tpc free]. rewrite Ep. cbn. unfold cocc. cbn. destruct (Nat.eq_dec k v), (Nat.eqb_spec k v); cbn; lia.
  - intros v. unfold wcount. cbn [set_tpc return_resource set_free threads buckets heap tpc free]. by rewrite Ep.
  - intros v now. rewrite Ep. done.
  - intros j J _ _. unfold wcount. cbn [set_tpc return_resource set_free threads buckets heap tpc free]. by rewrite Ep.
Qed.
Lemma pull_own s i B : own s -> tpc s = TPull i -> buckets s !! i = Some B ->
  own (set_tpc (TTake i (fst (consume_tasks B))) (set_buckets (<[i := snd (consume_tasks B)]> (buckets s)) s)).
Proof.
  intros HI Ep HB. apply (own_shift s); try done; rewrite ?Ep; try done; [intros H; by destruct (o_started _ HI H); congruence|].
  intros v. unfold wcount. cbn [set_tpc set_buckets threads buckets heap tpc]. rewrite Ep. pose proof (sum_insert (bcount v) (buckets s) i B (snd (consume_tasks B)) HB) as H.
  assert (bcount v (snd (consume_tasks B)) + cocc (fst (consume_tasks B)) v = bcount v B)%nat as Hb by (unfold consume_tasks, bcount; destruct (task_head B) eqn:E; cbn [fst snd task_head]; rewrite ?E; cbn; lia).
  cbn [tcount]. lia.
Qed.
Lemma check_own s k now : own s -> tpc s = TCheck k now -> k ∈ heap s -> own (set_tpc (TExec k now) (set_heap (remove_k k (heap s)) s)).
Proof.
  intros HI Ep Hk. pose proof (o_count _ HI k) as Hc. unfold places, wcount in Hc. apply elem_cocc in Hk.
  apply (own_shift s); try done; rewrite ?Ep; try done; [intros H; by destruct (o_started _ HI H); congruence|].
  intros v. unfold wcount. cbn [set_tpc set_heap threads buckets heap tpc]. rewrite cocc_remove, Ep. cbn [tcount]. destruct (decide (v = k)) as [->|]; [|destruct (Nat.eqb_spec k v); [congruence|]; cbn [b2n]; lia].
  rewrite Nat.eqb_refl. destruct (k <? length (slots s))%nat; cbn [b2n] in *; lia.
Qed.

Lemma timer_own s now pick s' : own s -> within s -> (forall k n, tpc s = TCheck k n -> k ∈ heap s) -> (forall k n, tpc s = TExec k n -> run_time (T s k) <= n) ->
  timer_step s now pick = Some s' -> own s'.
Proof.
  intros HI Hw H1 H2. unfold timer_step. destruct (started s) eqn:Es; [|destruct (o_started _ HI Es) as [_ ->]; done].
  assert (forall p x, plain (tpc s) = true -> plain p = true -> own (set_tpc p (set_nearest x s))) as Hx by (intros; apply tpc_own; try done; congruence).
  assert (forall p, plain (tpc s) = true -> plain p = true -> own (set_tpc p s)) as Hp by (intros p Hp1 Hp2; apply (Hx p (nearest s) Hp1 Hp2)).
  destruct (tpc s) as [| |i|i [|k l]| |k n|k n|k n|k| |nx e|nx|] eqn:Ep; try done.
  - intros [= <-]. destruct (stop s); by apply Hp.
  - intros [= <-]. destruct (stop s); [by apply Hp|by apply Hx].
  - intros [= <-]. destruct (buckets s !! i) as [B|] eqn:HB; [by apply pull_own|by apply Hp].
  - intros [= <-]. by apply Hp.
  - intros [= <-]. by apply take_own.
  - destruct (heap s) as [|h hs] eqn:Eh; [intros [= <-]; by apply Hp|]. destruct ((h :: hs) !! pick) as [k|]; [|done]. cbn [mbind option_bind]. destruct (is_min s k); [|done]. intros [= <-].
    destruct (now <? run_time (T s k)); by apply Hp.
  - intros [= <-]. destruct (nearest s <? run_time (T s k)); [by apply Hp|]. apply check_own; try done. by eapply H1.
  - intros [= <-]. apply exec_own; try done. by apply H2.
  - intros [= <-]. by apply fn_done_own.
  - intros [= <-]. by apply return_own.
  - intros [= <-]. destruct (nearest s <? min_time s); [by apply Hp|by apply Hx].
  - intros [= <-]. destruct (nsignals s =? e); by apply Hp.
  - intros [= <-]. by apply Hp.
Qed.

(** A thread goes on; the timer thread may be woken. *)
Lemma thread_own s s' i p q : own s -> threads s !! i = Some p -> slots s' = slots s -> jobs s' = jobs s -> fault s' = fault s -> started s' = started s -> free s' = free s -> heap s' = heap s ->
  (tpc s' = tpc s \/ exists n, tpc s = TAsleep n /\ tpc s' = TTop) -> threads s' = <[i := q]> (threads s) -> (started s' = false -> buckets s' = []) ->
  (forall k, scount k q + sum_list_with (bcount k) (buckets s') = scount k p + sum_list_with (bcount k) (buckets s))%nat -> own s'.
Proof.
  intros HI Hi ES EJ EF Est EFr EH Ep ETh HB HC.
  assert (forall k, wcount s' k = wcount s k) as HW.
  { intros k. unfold wcount. rewrite ETh, EH. pose proof (sum_insert (scount k) (threads s) i p q Hi) as H. specialize (HC k). assert (tcount k (tpc s') = tcount k (tpc s)) as -> by (destruct Ep as [->|(n & -> & ->)]; done). lia. }
  apply (own_move s); try done.
  - rewrite EF. apply HI.
  - intros H. split; [by apply HB|]. rewrite Est in H. destruct (o_started _ HI H) as [_ E]. destruct Ep as [->|(n & E' & _)]; [done|congruence].
  - intros k. unfold places. rewrite HW, EFr. f_equal. by destruct Ep as [->|(n & -> & ->)].
  - intros k. by rewrite HW.
  - intros k now. by destruct Ep as [->|(n & -> & ->)].
  - intros j J _ _. by rewrite HW.
Qed.
Lemma futex_wake_tpc s : tpc (futex_wake s) = tpc s \/ exists n, tpc s = TAsleep n /\ tpc (futex_wake s) = TTop.
Proof. unfold futex_wake. destruct (tpc s) as [| | | | | | | | | | |n|] eqn:E; rewrite ?E; eauto. Qed.
Lemma futex_wake_fields s : slots (futex_wake s) = slots s /\ jobs (futex_wake s) = jobs s /\ fault (futex_wake s) = fault s /\ started (futex_wake s) = started s /\ free (futex_wake s) = free s /\
  heap (futex_wake s) = heap s /\ threads (futex_wake s) = threads s /\ buckets (futex_wake s) = buckets s /\ nearest (futex_wake s) = nearest s /\ nsignals (futex_wake s) = nsignals s /\ stop (futex_wake s) = stop s.
Proof. unfold futex_wake. by destruct (tpc s). Qed.
Lemma go_own s i s' : own s -> thread_step s i = Some s' -> own s'.
Proof.
  intros HI. unfold thread_step. destruct (threads s !! i) as [p|] eqn:Hi; [|done]. cbn [mbind option_bind].
  assert (started s = false -> buckets s = []) as HB by (intros H; by apply (o_started _ HI)). destruct (futex_wake_fields s) as (G1 & G2 & G3 & G4 & G5 & G6 & G7 & G8 & _).
  destruct p as [|k b|b rt| | | |]; try done.
  - destruct (buckets s !! b) as [B|] eqn:Hb; [|done]. cbn [mbind option_bind]. intros [= <-]. eapply (thread_own s _ i _ _ HI Hi); try done; [by left|by intros ->%HB|].
    intros v. cbn [set_thread set_threads set_buckets buckets]. pose proof (sum_insert (bcount v) (buckets s) b B (fst (bucket_insert k B s)) Hb) as H.
    assert (bcount v (fst (bucket_insert k B s)) = bcount v B + b2n (k =? v))%nat as Hv by (unfold bucket_insert, bcount; destruct (_ <? _); cbn [fst task_head]; unfold cocc; cbn; destruct (Nat.eq_dec k v), (Nat.eqb_spec k v); cbn; lia).
    destruct (snd (bucket_insert k B s)); cbn [scount]; lia.
  - intros [= <-]. destruct (rt <? nearest s); eapply (thread_own s _ i _ _ HI Hi); try done; by left.
  - intros [= <-]. eapply (thread_own s _ i _ _ HI Hi); try done; cbn [set_thread set_threads tpc threads buckets started]; rewrite ?G4, ?G7, ?G8; try done. apply futex_wake_tpc.
  - intros [= <-]. eapply (thread_own s _ i _ _ HI Hi); try done; by left.
  - intros [= <-]. eapply (thread_own s _ i _ _ HI Hi); try done; cbn [set_thread set_threads tpc threads buckets started]; rewrite ?G4, ?G7, ?G8; try done. apply futex_wake_tpc.
  - destruct (tpc s) eqn:Ep; try done. intros [= <-]. eapply (thread_own s _ i _ _ HI Hi); try done. by left.
Qed.
Lemma start_own s n : own s -> own (snd (start n s)).
Proof.
  intros HI. unfold start. destruct (started s) eqn:Est; [done|]. destruct (n =? 0)%nat; [done|]. destruct (1024 <? n)%nat; [done|]. cbn [snd].
  destruct (o_started _ HI Est) as [EB Ep]. apply (own_shift s); try done; rewrite ?Ep; try done. intros k. unfold wcount. cbn [threads buckets tpc heap]. rewrite EB, Ep. cbn.
  assert (sum_list_with (bcount k) (replicate n new_Bucket) = 0)%nat as -> by (clear; induction n; cbn; lia). lia.
Qed.
Lemma stop_own s i : own s -> threads s !! i = Some SIdle -> own (stop_and_join s i).
Proof.
  intros HI Hi. unfold stop_and_join. eapply (thread_own s _ i SIdle _ HI Hi); try done; [by left|intros H; by apply (o_started _ HI)|]. by destruct (started s).
Qed.

(** ** Run times *)

Definition rt (s : S) (k : nat) : Z := run_time (T s k).
Definition covered (p : TPC) (b : nat) : Prop := match p with TPull i => (b < i)%nat | TTake i _ => (b <= i)%nat | _ => True end.
Definition waking (s : S) : Prop := SWake ∈ threads s \/ StopWake ∈ threads s.
(** The earliest task of a bucket has lowered [_nearest_run_time], or a thread is about to. *)
Definition announced (s : S) (b : nat) (x : Z) : Prop := nearest s <= x \/ exists r, SGlobal b r ∈ threads s /\ r <= x.
Definition tpc_ok (s : S) : Prop :=
  match tpc s with
  | TCheck k now => k ∈ heap s /\ rt s k <= now /\ forall k', k' ∈ heap s -> rt s k <= rt s k'
  | TExec k now => rt s k <= now
  | TFutex next e => e <= nsignals s /\ (nsignals s = e -> nearest s = next) /\ forall k, k ∈ heap s -> next <= rt s k
  | TAsleep next => (nearest s = next \/ waking s) /\ forall k, k ∈ heap s -> next <= rt s k
  | _ => True
  end.
Definition bucket_ok (s : S) (B : Bucket) : Prop :=
  (task_head B = [] -> b_nearest B = INT64_MAX) /\ 0 <= b_nearest B /\ forall k, k ∈ task_head B -> b_nearest B <= rt s k.
Record times (s : S) : Prop := {
  t_max : nearest s <= INT64_MAX;
  t_bucket : forall b B, buckets s !! b = Some B -> bucket_ok s B;
  t_near : forall b B, buckets s !! b = Some B -> covered (tpc s) b -> task_head B <> [] -> announced s b (b_nearest B);
  t_tpc : tpc_ok s }.

(** Slots in the heap and in buckets wait. *)
Lemma heap_waits s k : k ∈ heap s -> (0 < wcount s k)%nat.
Proof. intros H%elem_cocc. unfold wcount. lia. Qed.
Lemma bucket_waits s b B k : buckets s !! b = Some B -> k ∈ task_head B -> (0 < wcount s k)%nat.
Proof. intros HB Hk%elem_cocc. pose proof (sum_lookup (bcount k) (buckets s) b B HB) as H. unfold wcount, bcount in *. lia. Qed.
Lemma waiting_time s k : own s -> (0 < wcount s k)%nat -> 0 < rt s k <= INT64_MAX.
Proof. intros HI Hk. destruct (o_slot _ HI k Hk) as (J & (E1 & _ & _ & E4) & _). unfold rt. rewrite E4. by destruct (o_job _ HI _ J E1) as (_ & _ & ? & _). Qed.
Lemma elem_insert_other {A} (l : list A) i p q x : l !! i = Some p -> x <> p -> x ∈ l -> x ∈ <[i := q]> l.
Proof.
  intros Hi Hx [j Hj]%list_elem_of_lookup. apply list_elem_of_lookup. exists j. destruct (decide (i = j)) as [->|]; [congruence|by rewrite list_lookup_insert_ne].
Qed.
Lemma elem_insert_new {A} (l : list A) i p q : l !! i = Some p -> q ∈ <[i := q]> l.
Proof. intros Hi. apply list_elem_of_lookup. exists i. apply list_lookup_insert_eq. by eapply lookup_lt_Some. Qed.

(** Steps that leave the buckets, the heap and the timer thread alone. *)
Lemma times_frame s s' : times s -> buckets s' = buckets s -> heap s' = heap s -> tpc s' = tpc s -> nearest s' = nearest s -> nsignals s' = nsignals s ->
  (forall k, (0 < wcount s k)%nat -> rt s' k = rt s k) -> (forall b r, SGlobal b r ∈ threads s -> SGlobal b r ∈ threads s') -> (waking s -> waking s') -> times s'.
Proof.
  intros HI EB EH EP EN ES HR HG HK.
  assert (forall k, k ∈ heap s -> rt s' k = rt s k) as Hh by (intros k Hk; by apply HR, heap_waits).
  assert (forall b B k, buckets s !! b = Some B -> k ∈ task_head B -> rt s' k = rt s k) as Hb by (intros b B k HB Hk; by eapply HR, bucket_waits). split; [rewrite EN; apply HI|..].
  - intros b B HB. rewrite EB in HB. destruct (t_bucket _ HI b B HB) as (E1 & E2 & E3). split_and!; try done. intros k Hk. rewrite (Hb b B) by done. by apply E3.
  - intros b B HB. rewrite EB in HB. rewrite EP. intros Hc Hne. destruct (t_near _ HI b B HB Hc Hne) as [H|(r & H1 & H2)]; [left; by rewrite EN|right; eauto].
  - pose proof (t_tpc _ HI) as H. unfold tpc_ok in *. rewrite EP, EH, EN, ES. destruct (tpc s) as [| | | | |k n|k n| | | |nx e|nx|] eqn:Ep; try done.
    + destruct H as (H1 & H2 & H3). rewrite Hh by done. split_and!; try done. intros k' Hk'. rewrite Hh by done. by apply H3.
    + rewrite HR; [done|]. unfold wcount. rewrite Ep. cbn. rewrite Nat.eqb_refl. cbn. lia.
    + destruct H as (H1 & H2 & H3). split_and!; try done. intros k Hk. rewrite Hh by done. by apply H3.
    + destruct H as (H1 & H3). split; [tauto|]. intros k Hk. rewrite Hh by done. by apply H3.
Qed.
Lemma set_thread_keeps s i q : threads s !! i = Some SIdle ->
  (forall b r, SGlobal b r ∈ threads s -> SGlobal b r ∈ <[i := q]> (threads s)) /\ (waking s -> SWake ∈ <[i := q]> (threads s) \/ StopWake ∈ <[i := q]> (threads s)).
Proof. intros Hi. split; [intros b r; by apply elem_insert_other with SIdle|]. intros [H|H]; [left|right]; by eapply elem_insert_other. Qed.

Lemma schedule_times s i b r pick s' : own s -> times s -> threads s !! i = Some SIdle -> schedule s i b r pick = Some s' -> times s'.
Proof.
  intros HO HI Hi. unfold schedule. destruct (stop s || negb (started s)); [by intros [= <-]|]. destruct (_ && _ && _); [|done].
  assert (forall k (s1 : S), threads s1 = threads s -> buckets s1 = buckets s -> heap s1 = heap s -> tpc s1 = tpc s -> nearest s1 = nearest s -> nsignals s1 = nsignals s ->
    (forall u, (0 < wcount s u)%nat -> u <> k /\ T s1 u = T s u) -> times (set_thread i (SBucket k b) (fill k r s1))) as Hgen.
  { intros k s1 F1 F2 F3 F4 F5 F6 F7. apply (times_frame s); try done; try (cbn; rewrite ?F1; by apply set_thread_keeps).
    - intros u Hu. destruct (F7 u Hu) as [Hne E]. unfold rt. rewrite <- E. unfold fill, T. cbn. by rewrite list_lookup_insert_ne.
    - unfold waking. cbn. rewrite F1. by apply set_thread_keeps. }
  destruct pick as [k|]; cbn [get_resource].
  - destruct (existsb (Nat.eqb k) (free s)) eqn:Ek; [|done]. intros [= <-]. apply Hgen; try done. intros u Hu. split; [|done]. intros ->.
    apply existsb_exists in Ek as (v & Hv & E%Nat.eqb_eq). subst v. apply list_elem_of_In, elem_cocc in Hv. pose proof (o_count _ HO k) as Hc. unfold places in Hc. destruct (k <? length (slots s))%nat; cbn [b2n] in Hc; lia.
  - intros [= <-]. apply Hgen; try done. intros u Hu. pose proof (slot_in s u HO ltac:(unfold places; lia)) as Hlt. split; [cbn; lia|]. unfold T. cbn. by rewrite lookup_app_l.
Qed.
Lemma unschedule_times s id : times s -> times (snd (unschedule s id)).
Proof.
  intros HI. unfold unschedule. destruct (slots s !! slot_of_task_id id) as [t|] eqn:Ht; [|done]. destruct (version t =? _); [|done]. cbn [snd]. set (s1 := set_version _ _ s).
  destruct (state_fields (fn_arg t) Cancelled s1) as (G1 & G2 & G3 & G4 & G5 & G6 & G7 & G8 & G9 & G10 & _). apply (times_frame s); try done.
  - intros k _. unfold rt. rewrite (T_slots s1) by done. rewrite (T_insert s s1 _ _ k ltac:(by eapply lookup_lt_Some) eq_refl). destruct (decide (k = slot_of_task_id id)) as [->|]; done.
  - intros b r. by rewrite G4.
  - unfold waking. by rewrite G4.
Qed.
Lemma stop_times s i : times s -> threads s !! i = Some SIdle -> times (stop_and_join s i).
Proof. intros HI Hi. apply (times_frame s); try done; [exact (proj1 (set_thread_keeps s i _ Hi))|exact (proj2 (set_thread_keeps s i _ Hi))]. Qed.

Lemma bucket_times s i k b B : own s -> times s -> threads s !! i = Some (SBucket k b) -> buckets s !! b = Some B ->
  times (set_thread i (if snd (bucket_insert k B s) then SGlobal b (rt s k) else SIdle) (set_buckets (<[b := fst (bucket_insert k B s)]> (buckets s)) s)).
Proof.
  intros HO HI Hi HB. set (q := if snd (bucket_insert k B s) then SGlobal b (rt s k) else SIdle). set (s' := set_thread _ _ _).
  assert (0 < rt s k <= INT64_MAX) as Hk.
  { apply (waiting_time s k HO). unfold wcount. pose proof (sum_lookup (scount k) (threads s) i _ Hi) as H. cbn [scount] in H. rewrite Nat.eqb_refl in H. cbn [b2n] in H. lia. }
  destruct (t_bucket _ HI b B HB) as (E1 & E2 & E3).
  assert (forall c x, announced s c x -> announced s' c x) as Hann.
  { intros c x [H|(r & H1 & H2)]; [by left|]. right. exists r. split; [|done]. by eapply elem_insert_other. }
  assert (forall c C, buckets s' !! c = Some C -> c = b /\ C = fst (bucket_insert k B s) \/ c <> b /\ buckets s !! c = Some C) as HC.
  { intros c C H. cbn in H. destruct (decide (c = b)) as [->|]; [left; rewrite list_lookup_insert_eq in H by (by eapply lookup_lt_Some); naive_solver|right; by rewrite list_lookup_insert_ne in H]. }
  split.
  - apply HI.
  - intros c C H. destruct (HC c C H) as [[-> ->]|[_ Hc]]; [|by apply (t_bucket _ HI c)]. unfold bucket_insert. fold (rt s k).
    destruct (Z.ltb_spec (rt s k) (b_nearest B)); cbn [fst]; (split_and!; cbn [task_head b_nearest]; [done|lia|]); intros u [Hu|Hu]%elem_of_cons;
      change (rt s' u) with (rt s u); [subst u; lia|specialize (E3 u Hu); lia|subst u; lia|specialize (E3 u Hu); lia].
  - intros c C H Hcov Hne. destruct (HC c C H) as [[-> ->]|[_ Hc]]; [|by apply Hann, (t_near _ HI c)]. unfold bucket_insert in q |- *. fold (rt s k) in q |- *.
    destruct (Z.ltb_spec (rt s k) (b_nearest B)); cbn [fst snd b_nearest] in q |- *.
    + right. exists (rt s k). split; [|lia]. by eapply elem_insert_new.
    + apply Hann. destruct (decide (task_head B = [])) as [E|E]; [left; rewrite (E1 E); apply HI|by apply (t_near _ HI b B)].
  - pose proof (t_tpc _ HI) as H. unfold tpc_ok in *. change (tpc s') with (tpc s). change (heap s') with (heap s). destruct (tpc s); try done.
    destruct H as [[H|H] H']; (split; [|done]); [by left|right]. destruct H as [H|H]; [left|right]; by eapply elem_insert_other.
Qed.

(** [_nearest_run_time] is lowered and the timer thread is to be woken. *)
Lemma lower_times s i p q x : times s -> threads s !! i = Some p -> q = SWake \/ q = StopWake -> x <= INT64_MAX -> p <> SWake -> p <> StopWake ->
  (forall b B, buckets s !! b = Some B -> announced s b (b_nearest B) -> x <= b_nearest B \/ exists r, SGlobal b r ∈ threads s /\ SGlobal b r <> p /\ r <= b_nearest B) ->
  times (set_thread i q (signal (set_nearest x s))).
Proof.
  intros HI Hi Hq Hx Hp1 Hp2 HA. set (s' := set_thread _ _ _). assert (waking s') as Hw by (destruct Hq as [-> | ->]; [left|right]; by eapply elem_insert_new). split.
  - done.
  - intros b B HB. apply (t_bucket _ HI b B HB).
  - intros b B HB Hc Hne. destruct (HA b B HB (t_near _ HI b B HB Hc Hne)) as [H|(r & H1 & H2 & H3)]; [by left|]. right. exists r. split; [|done]. by eapply elem_insert_other.
  - pose proof (t_tpc _ HI) as H. unfold tpc_ok in *. change (tpc s') with (tpc s). change (heap s') with (heap s). destruct (tpc s); try done; change (nsignals s') with (nsignals s + 1).
    + destruct H as (H1 & H2 & H3). split_and!; [lia|lia|done].
    + destruct H as [_ H]. split; [by right|done].
Qed.
Lemma wake_times s i p q : times s -> threads s !! i = Some p -> p = SWake \/ p = StopWake -> times (set_thread i q (futex_wake s)).
Proof.
  intros HI Hi Hp. destruct (futex_wake_fields s) as (G1 & G2 & G3 & G4 & G5 & G6 & G7 & G8 & G9 & G10 & G11). set (s' := set_thread _ _ _).
  assert (forall k, rt s' k = rt s k) as HR by (intros k; unfold rt; f_equal; by apply T_slots).
  assert (forall b, covered (tpc s') b -> covered (tpc s) b) as HC by (intros b; unfold s', futex_wake; destruct (tpc s) eqn:E; cbn; rewrite ?E; done).
  assert (threads s' = <[i := q]> (threads s)) as ETh by (cbn; by rewrite G7). split.
  - cbn. rewrite G9. apply HI.
  - intros b B HB. cbn in HB. rewrite G8 in HB. destruct (t_bucket _ HI b B HB) as (E1 & E2 & E3). split_and!; try done. intros k Hk. rewrite HR. by apply E3.
  - intros b B HB Hc Hne. cbn in HB. rewrite G8 in HB. destruct (t_near _ HI b B HB (HC b Hc) Hne) as [H|(r & H1 & H2)]; [left; cbn; by rewrite G9|]. right. exists r. split; [|done]. rewrite ETh.
    eapply elem_insert_other; [done| |done]. by destruct Hp as [-> | ->].
  - pose proof (t_tpc _ HI) as H. unfold tpc_ok in *. unfold s', futex_wake. destruct (tpc s) eqn:E; cbn; rewrite ?E; done.
Qed.
Lemma go_times s i s' : own s -> times s -> thread_step s i = Some s' -> times s'.
Proof.
  intros HO HI. unfold thread_step. destruct (threads s !! i) as [p|] eqn:Hi; [|done]. cbn [mbind option_bind]. destruct p as [|k b|b r| | | |]; try done.
  - destruct (buckets s !! b) as [B|] eqn:Hb; [|done]. cbn [mbind option_bind]. intros [= <-]. by apply bucket_times.
  - intros [= <-]. destruct (Z.ltb_spec r (nearest s)) as [Hr|Hr].
    + pose proof (t_max _ HI). eapply lower_times; try done; [by left|lia|]. intros c C HC [H1|(r' & H1 & H2)]; [left; lia|]. destruct (decide (c = b /\ r' = r)) as [[-> ->]|Hne]; [by left|].
      right. exists r'. split_and!; try done. intros [= -> ->]. by apply Hne.
    + assert (forall c x, announced s c x -> announced (set_thread i SIdle s) c x) as Hann.
      { intros c x [H|(r' & H1 & H2)]; [by left|]. destruct (decide (c = b /\ r' = r)) as [[-> ->]|Hne]; [left; cbn; lia|]. right. exists r'. split; [|done]. eapply elem_insert_other; [done| |done]. intros [= -> ->]. by apply Hne. }
      destruct HI as [I0 I1 I2 I3]. split; try done; [by intros c C HC Hcov Hne; apply Hann, I2|]. unfold tpc_ok in *. change (tpc (set_thread i SIdle s)) with (tpc s). destruct (tpc s); try done.
      destruct I3 as [[H|H] H']; (split; [|done]); [by left|right]. destruct H as [H|H]; [left|right]; by eapply elem_insert_other.
  - intros [= <-]. eapply wake_times; [done..|]. by left.
  - intros [= <-]. eapply lower_times; try done; [by right|]. intros c C HC _. left. by apply (t_bucket _ HI c).
  - intros [= <-]. eapply wake_times; [done..|]. by right.
  - destruct (tpc s) eqn:Ep; try done. intros [= <-]. apply (times_frame s); try done.
    + intros b r. cbn. by apply elem_insert_other with StopJoin.
    + intros [H|H]; [left|right]; by eapply elem_insert_other.
Qed.

(** A step of the timer thread. *)
Lemma times_timer s s' : times s -> threads s' = threads s -> nearest s' <= INT64_MAX -> (nearest s' <= nearest s \/ forall b, ~ covered (tpc s') b) -> (forall k, rt s' k = rt s k) ->
  (forall b B, buckets s' !! b = Some B -> bucket_ok s B /\ (covered (tpc s') b -> task_head B <> [] -> buckets s !! b = Some B /\ covered (tpc s) b)) -> tpc_ok s' -> times s'.
Proof.
  intros HI ETh Hmax Hn HR HB Hok. split; try done.
  - intros b B H. destruct (HB b B H) as [(E1 & E2 & E3) _]. split_and!; try done. intros k Hk. rewrite HR. by apply E3.
  - intros b B H Hc Hne. destruct (HB b B H) as [_ H2]. destruct (H2 Hc Hne) as [H3 H4]. destruct Hn as [Hn|Hn]; [|by apply Hn in Hc].
    destruct (t_near _ HI b B H3 H4 Hne) as [H5|(r & H5 & H6)]; [left; lia|right; exists r; by rewrite ETh].
Qed.
Lemma tpc_times s p : times s -> (forall b, (b < length (buckets s))%nat -> covered p b -> covered (tpc s) b) -> tpc_ok (set_tpc p s) -> times (set_tpc p s).
Proof.
  intros HI HC Hok. apply (times_timer s); try done; [apply HI|by left|]. intros b B HB. split; [by apply (t_bucket _ HI b)|]. intros Hc _. split; [done|]. apply HC; [by eapply lookup_lt_Some|done].
Qed.
Lemma min_time_le s k : k ∈ heap s -> min_time s <= rt s k.
Proof. unfold min_time, rt. generalize (heap s). induction l as [|u l IH]; cbn; intros H; apply elem_of_cons in H || by apply not_elem_of_nil in H. destruct H as [->|H]; [lia|]. specialize (IH H). lia. Qed.
Lemma min_time_max s : min_time s <= INT64_MAX.
Proof. unfold min_time. induction (heap s) as [|u l IH]; cbn; lia. Qed.
Lemma is_min_le s k k' : is_min s k = true -> k' ∈ heap s -> rt s k <= rt s k'.
Proof. unfold is_min. rewrite forallb_forall. intros H Hk. apply Z.leb_le, H. by apply list_elem_of_In. Qed.

Lemma version_rt s k v u : rt (set_version k v s) u = rt s u.
Proof.
  unfold rt. destruct (decide (k < length (slots s))%nat) as [Hk|Hk].
  - rewrite (T_insert s (set_version k v s) k (mkTask (run_time (T s k)) (fn_arg (T s k)) (task_id (T s k)) v) u Hk) by done. by destruct (decide (u = k)) as [->|].
  - f_equal. apply T_slots. cbn. apply list_insert_ge. lia.
Qed.
(** Tasks are run and deleted: only versions, jobs and free slots change. *)
Lemma exec_times s s' : times s -> (forall k, rt s' k = rt s k) -> threads s' = threads s -> buckets s' = buckets s -> nearest s' = nearest s ->
  (forall b, covered (tpc s') b -> covered (tpc s) b) -> tpc_ok s' -> times s'.
Proof.
  intros HI HR ETh EB EN HC Hok. apply (times_timer s); try done; [rewrite EN; apply HI|left; lia|]. intros b B HB. rewrite EB in HB. split; [by apply (t_bucket _ HI b)|]. intros Hc _. auto.
Qed.

Lemma timer_times s now pick s' : times s -> timer_step s now pick = Some s' -> times s'.
Proof.
  intros HI. unfold timer_step. pose proof (t_tpc _ HI) as Hok. unfold tpc_ok in Hok. pose proof (t_max _ HI) as Hmax.
  assert (forall p, (forall b, covered (tpc s) b) -> tpc_ok (set_tpc p s) -> times (set_tpc p s)) as Hp by (intros p Hc Ho; apply tpc_times; auto).
  destruct (tpc s) as [| |i|i [|k l]| |k n|k n|k n|k| |nx e|nx|] eqn:Ep; try done.
  - intros [= <-]. destruct (stop s); by apply Hp.
  - intros [= <-]. destruct (stop s); [by apply Hp|]. apply (times_timer s); try done; [right; cbn; lia|]. intros b B HB. split; [by apply (t_bucket _ HI b)|cbn; lia].
  - intros [= <-]. destruct (buckets s !! i) as [B|] eqn:HB.
    + apply (times_timer s); try done; [by left|]. intros b C HC. cbn [set_tpc set_buckets buckets] in HC. destruct (decide (b = i)) as [->|Hb].
      * rewrite list_lookup_insert_eq in HC by (by eapply lookup_lt_Some). injection HC as <-. unfold consume_tasks. destruct (t_bucket _ HI i B HB) as (E1 & E2 & E3).
        destruct (task_head B) eqn:Et; cbn [snd]; [split; [split_and!; [auto|done|by rewrite Et]|congruence]|]. split; [split_and!; try done; set_solver|done].
      * rewrite list_lookup_insert_ne in HC by done. split; [by apply (t_bucket _ HI b)|]. cbn. rewrite Ep. intros Hc _. split; [done|]. cbn. lia.
    + apply tpc_times; try done. rewrite Ep. intros b Hb _. apply lookup_ge_None in HB. cbn. lia.
  - intros [= <-]. apply tpc_times; try done. rewrite Ep. cbn. lia.
  - intros [= <-]. apply exec_times with s; try done; unfold try_delete; destruct (version (T s k) =? _); cbn [fst snd]; try done; try (destruct (_ =? _); done); rewrite ?Ep; try done.
  - destruct (heap s) as [|h hs] eqn:Eh; [intros [= <-]; by apply Hp|]. rewrite <- Eh. destruct (heap s !! pick) as [k|] eqn:Ek; [|done]. cbn [mbind option_bind]. destruct (is_min s k) eqn:Em; [|done]. intros [= <-].
    destruct (Z.ltb_spec now (run_time (T s k))); apply Hp; try done. split_and!; [by eapply list_elem_of_lookup_2|done|]. intros k' Hk'. by apply is_min_le.
  - intros [= <-]. destruct (nearest s <? run_time (T s k)); [by apply Hp|]. apply exec_times with s; try done; rewrite ?Ep; try done. unfold tpc_ok. cbn. by destruct Hok as (_ & ? & _).
  - intros [= <-]. unfold run_and_delete. destruct (_ =? _); [|destruct (_ =? _)]; apply exec_times with s; try done; rewrite ?Ep; try done.
    + intros u. unfold rt. rewrite (T_slots (set_version k (u32 (version_of_task_id (task_id (T s k)) + 1)) s)); [apply version_rt|]. by apply state_fields.
    + cbn. destruct (state_fields (fn_arg (T s k)) (Active n) (set_version k (u32 (version_of_task_id (task_id (T s k)) + 1)) s)) as (_ & _ & _ & -> & _). done.
    + cbn. destruct (state_fields (fn_arg (T s k)) (Active n) (set_version k (u32 (version_of_task_id (task_id (T s k)) + 1)) s)) as (_ & _ & -> & _). done.
    + cbn. destruct (state_fields (fn_arg (T s k)) (Active n) (set_version k (u32 (version_of_task_id (task_id (T s k)) + 1)) s)) as (_ & _ & _ & _ & _ & _ & _ & _ & -> & _). done.
  - intros [= <-]. unfold fn_done. destruct (state_fields (fn_arg (T s k)) (Ran n) (set_version k (u32 (version_of_task_id (task_id (T s k)) + 2)) s)) as (E1 & _ & E3 & E4 & _ & _ & _ & _ & E9 & _).
    apply exec_times with s; try done; rewrite ?Ep; try done. intros u. unfold rt. rewrite (T_slots (set_version k (u32 (version_of_task_id (task_id (T s k)) + 2)) s)); [apply version_rt|done].
  - intros [= <-]. apply exec_times with s; try done; by rewrite ?Ep.
  - intros [= <-]. destruct (Z.ltb_spec (nearest s) (min_time s)); [by apply Hp|]. apply (times_timer s); try done; [pose proof (min_time_max s); cbn; lia|by left|..].
    + intros b B HB. split; [by apply (t_bucket _ HI b)|]. rewrite Ep. done.
    + split_and!; [cbn; lia|done|]. intros k Hk. exact (min_time_le s k Hk).
  - intros [= <-]. destruct Hok as (H1 & H2 & H3). destruct (Z.eqb_spec (nsignals s) e); apply Hp; try done. split; [left; auto|done].
  - intros [= <-]. by apply Hp.
Qed.

(** ** Stopping *)

Definition stopping (s : S) : Prop := StopLock ∈ threads s \/ StopWake ∈ threads s \/ StopJoin ∈ threads s.
Definition stopped (s : S) : Prop := StopWake ∈ threads s \/ StopJoin ∈ threads s.
Record stops (s : S) : Prop := {
  s_stop : stopping s -> stop s = true /\ started s = true;
  s_near : stopped s -> nearest s = 0 /\ forall next e, tpc s = TFutex next e -> e < nsignals s;
  s_pos : forall b r, SGlobal b r ∈ threads s -> 0 < r;
  s_join : StopJoin ∈ threads s -> forall next, tpc s <> TAsleep next }.

Lemma elem_insert_inv {A} (l : list A) i q x : x ∈ <[i := q]> l -> x = q \/ x ∈ l.
Proof. intros [j Hj]%list_elem_of_lookup. apply list_lookup_insert_Some in Hj as [(_ & ? & _)|[_ Hj]]; [by left|right]. by eapply list_elem_of_lookup_2. Qed.
(** Threads that do not take part in stopping. *)
Lemma stops_frame s s' i q : stops s -> threads s' = threads s \/ threads s' = <[i := q]> (threads s) -> q <> StopLock -> q <> StopWake -> q <> StopJoin -> (forall b r, q = SGlobal b r -> 0 < r) ->
  (stop s = true -> stop s' = true) -> (started s = true -> started s' = true) ->
  (stopped s -> stop s = true -> started s = true -> nearest s = 0 -> nearest s' = 0) -> nsignals s <= nsignals s' -> (tpc s' = tpc s \/ tpc s' = TTop) -> stops s'.
Proof.
  intros [I1 I2 I4 I3] HT Q1 Q2 Q3 Q4 Hst Hsd Hn Hs Hp. assert (forall x, x = StopLock \/ x = StopWake \/ x = StopJoin -> x ∈ threads s' -> x ∈ threads s) as Hback.
  { intros x Hx H. destruct HT as [HT|HT]; rewrite HT in H; [done|]. apply elem_insert_inv in H as [->|H]; [|done]. naive_solver. }
  assert (stopped s' -> stopped s) as Hb by (intros [H|H]; [left|right]; apply Hback; auto). split.
  - intros H. assert (stopping s) as [H1 H2]%I1; [|auto]. destruct H as [H|[H|H]]; [left|right; left|right; right]; apply Hback; auto.
  - intros H%Hb. destruct (I2 H) as [E1 E2]. assert (stopping s) as [H1 H2]%I1 by (unfold stopping; destruct H; auto). split; [auto|]. intros next e Hf. destruct Hp as [Hp|Hp]; rewrite Hp in Hf; [|done]. specialize (E2 next e Hf). lia.
  - intros b r H. destruct HT as [HT|HT]; rewrite HT in H; [by eapply I4|]. apply elem_insert_inv in H as [H|H]; [by eapply Q4|by eapply I4].
  - intros H next. assert (StopJoin ∈ threads s) as Hj by (apply Hback; auto). destruct Hp as [->| ->]; [by apply I3|done].
Qed.
Lemma go_stops s i s' : own s -> times s -> stops s -> thread_step s i = Some s' -> stops s'.
Proof.
  intros HO HT HI. unfold thread_step. destruct (threads s !! i) as [p|] eqn:Hi; [|done]. cbn [mbind option_bind]. pose proof (list_elem_of_lookup_2 _ _ _ Hi) as Hin.
  destruct (futex_wake_fields s) as (G1 & G2 & G3 & G4 & G5 & G6 & G7 & G8 & G9 & G10 & G11). destruct p as [|k b|b r| | | |]; try done.
  - destruct (buckets s !! b) as [B|] eqn:Hb; [|done]. cbn [mbind option_bind]. intros [= <-]. eapply (stops_frame s _ i); [done|by right|..]; try done; try (by destruct (snd _)); [|by left].
    intros c r E. destruct (snd _); [|done]. injection E as _ <-. apply (waiting_time s k HO). unfold wcount. pose proof (sum_lookup (scount k) (threads s) i _ Hi) as H. cbn [scount] in H. rewrite Nat.eqb_refl in H. cbn [b2n] in H. lia.
  - intros [= <-]. destruct (Z.ltb_spec r (nearest s)).
    + eapply (stops_frame s _ i); [done|by right|..]; try done; [|cbn; lia|by left]. cbn. intros _ _ _ Hz. pose proof (s_pos _ HI b r Hin). lia.
    + eapply (stops_frame s _ i); [done|by right|..]; try done; by left.
  - intros [= <-]. eapply (stops_frame s _ i SIdle); try done; cbn; rewrite ?G7, ?G9, ?G10, ?G11, ?G4; try done; [by right|]. destruct (futex_wake_tpc s) as [->|(n & _ & ->)]; auto.
  - intros [= <-]. split; cbn.
    + intros _. apply HI. by left.
    + intros _. split; [done|]. intros next e Hf. pose proof (t_tpc _ HT) as H. unfold tpc_ok in H. rewrite Hf in H. lia.
    + intros c r H. apply elem_insert_inv in H as [H|H]; [done|]. by eapply HI.
    + intros H. apply elem_insert_inv in H as [H|H]; [done|]. by apply HI.
  - intros [= <-]. split.
    + intros _. destruct (s_stop _ HI) as [E1 E2]; [right; by left|]. cbn. by rewrite G11, G4.
    + intros _. destruct (s_near _ HI) as [E1 E2]; [by left|]. cbn. rewrite G9, G10. split; [done|]. intros next e Hf. apply (E2 next). destruct (futex_wake_tpc s) as [E|(n & _ & E)]; rewrite E in Hf; done.
    + intros c r H. cbn in H. rewrite G7 in H. apply elem_insert_inv in H as [H|H]; [done|]. by eapply HI.
    + intros _ next. cbn. unfold futex_wake. destruct (tpc s) eqn:E; cbn; rewrite ?E; done.
  - destruct (tpc s) eqn:Ep; try done. intros [= <-]. eapply (stops_frame s _ i SIdle); try done; [by right|by left].
Qed.

Lemma timer_stops s now pick s' : own s -> times s -> stops s -> timer_step s now pick = Some s' -> stops s'.
Proof.
  intros HO HT HI H. assert (threads s' = threads s /\ stop s' = stop s /\ started s' = started s /\ nsignals s' = nsignals s /\ (stopped s -> nearest s' = 0) /\ (stopped s -> forall next e, tpc s' <> TFutex next e) /\ (stopped s -> forall next, tpc s' <> TAsleep next)) as (E1 & E2 & E3 & E4 & E5 & E6 & E7).
  { assert (0 < min_time s) as Hmin.
    { unfold min_time. assert (forall k, k ∈ heap s -> 0 < run_time (T s k)) as Hk by (intros k Hk; by apply (waiting_time s k HO), heap_waits). revert Hk. generalize (heap s).
      induction l as [|u l IH]; cbn; [unfold INT64_MAX; lia|]. intros Hk. specialize (IH ltac:(set_solver)). specialize (Hk u ltac:(set_solver)). lia. }
    assert (stopped s -> stop s = true) as Hst by (intros Hd; apply (s_stop _ HI); unfold stopping; destruct Hd; auto).
    revert H. unfold timer_step. destruct (tpc s) as [| |i|i [|k l]| |k n|k n|k n|k| |nx e|nx|] eqn:Ep; try done.
    - intros [= <-]. split_and!; try done; [by intros [? _]%(s_near _ HI)|..]; intros Hd; rewrite (Hst Hd); done.
    - intros [= <-]. destruct (stop s) eqn:Es; [split_and!; try done; by intros [? _]%(s_near _ HI)|]. split_and!; try done; intros Hd%Hst; congruence.
    - intros [= <-]. destruct (buckets s !! i); (split_and!; try done; by intros [? _]%(s_near _ HI)).
    - intros [= <-]. split_and!; try done; by intros [? _]%(s_near _ HI).
    - intros [= <-]. unfold try_delete. destruct (_ =? _); cbn [fst snd]; [|destruct (_ =? _)]; (split_and!; try done; by intros [? _]%(s_near _ HI)).
    - destruct (heap s) as [|h hs]; [intros [= <-]; split_and!; try done; by intros [? _]%(s_near _ HI)|]. destruct (_ !! pick) as [k|]; [|done]. cbn [mbind option_bind]. destruct (is_min s k); [|done]. intros [= <-].
      destruct (now <? _); (split_and!; try done; by intros [? _]%(s_near _ HI)).
    - intros [= <-]. destruct (_ <? _); (split_and!; try done; by intros [? _]%(s_near _ HI)).
    - intros [= <-]. unfold run_and_delete. destruct (state_fields (fn_arg (T s k)) (Active n) (set_version k (u32 (version_of_task_id (task_id (T s k)) + 1)) s)) as (_ & _ & _ & G4 & _ & _ & _ & G8 & G9 & G10 & G11).
      destruct (_ =? _); [|destruct (_ =? _); (split_and!; try done; by intros [? _]%(s_near _ HI))]. cbn. rewrite G4, G8, G9, G10, G11. split_and!; try done; by intros [? _]%(s_near _ HI).
    - intros [= <-]. unfold fn_done. destruct (state_fields (fn_arg (T s k)) (Ran n) (set_version k (u32 (version_of_task_id (task_id (T s k)) + 2)) s)) as (_ & _ & _ & G4 & _ & _ & _ & G8 & G9 & G10 & G11).
      cbn. rewrite G4, G8, G9, G10, G11. split_and!; try done; by intros [? _]%(s_near _ HI).
    - intros [= <-]. split_and!; try done; by intros [? _]%(s_near _ HI).
    - intros [= <-]. destruct (Z.ltb_spec (nearest s) (min_time s)); [split_and!; try done; by intros [? _]%(s_near _ HI)|]. split_and!; try done; intros Hd%(s_near _ HI); lia.
    - intros [= <-]. destruct (Z.eqb_spec (nsignals s) e) as [E|]; (split_and!; try done; [by intros [? _]%(s_near _ HI)|..]); intros [_ Hd]%(s_near _ HI); specialize (Hd nx e Ep); lia.
    - intros [= <-]. split_and!; try done; by intros [? _]%(s_near _ HI). }
  split.
  - unfold stopping. rewrite E1, E2, E3. apply HI.
  - unfold stopped. rewrite E1, E4. intros Hd. split; [by apply E5|]. intros next e Hf. by apply E6 in Hf.
  - rewrite E1. apply HI.
  - rewrite E1. intros Hj. apply E7. by right.
Qed.

Lemma start_times s n : own s -> times s -> times (snd (start n s)).
Proof.
  intros HO HI. unfold start. destruct (started s) eqn:Est; [done|]. destruct (n =? 0)%nat; [done|]. destruct (1024 <? n)%nat; [done|]. cbn [snd]. split; try done.
  - apply HI.
  - intros b B HB. cbn in HB. apply lookup_replicate in HB as [-> _]. split_and!; try done. set_solver.
  - intros b B HB. cbn in HB. apply lookup_replicate in HB as [-> _]. done.
Qed.
Lemma start_stops s n : stops s -> stops (snd (start n s)).
Proof.
  intros HI. unfold start. destruct (started s) eqn:Est; [done|]. destruct (n =? 0)%nat; [done|]. destruct (1024 <? n)%nat; [done|]. cbn [snd]. eapply (stops_frame s _ 0 SIdle); try done; [by left|by right].
Qed.
Lemma schedule_stops s i b r pick s' : stops s -> threads s !! i = Some SIdle -> schedule s i b r pick = Some s' -> stops s'.
Proof.
  intros HI Hi. unfold schedule. destruct (stop s || negb (started s)); [by intros [= <-]|]. destruct (_ && _ && _); [|done]. destruct (get_resource pick s) as [[k s1]|] eqn:E; [|done].
  cbn [mbind option_bind fst snd]. intros [= <-]. assert (threads s1 = threads s /\ stop s1 = stop s /\ started s1 = started s /\ nearest s1 = nearest s /\ nsignals s1 = nsignals s /\ tpc s1 = tpc s) as (E1 & E2 & E3 & E4 & E5 & E6).
  { unfold get_resource in E. destruct pick as [u|]; [destruct (existsb _ _); [|done]|]; by injection E as _ <-. }
  eapply (stops_frame s _ i (SBucket k b)); try done; cbn; rewrite ?E1, ?E2, ?E3, ?E4, ?E5, ?E6; try done; auto.
Qed.
Lemma unschedule_stops s id : stops s -> stops (snd (unschedule s id)).
Proof.
  intros HI. unfold unschedule. destruct (slots s !! _) as [t|]; [|done]. destruct (_ =? _); [|done]. cbn [snd].
  destruct (state_fields (fn_arg t) Cancelled (set_version (slot_of_task_id id) (u32 (version_of_task_id id + 2)) s)) as (_ & _ & _ & G4 & G5 & _ & _ & G8 & G9 & G10 & G11).
  eapply (stops_frame s _ 0 SIdle); try done; rewrite ?G4, ?G5, ?G8, ?G9, ?G10, ?G11; try done; by left.
Qed.
Lemma stop_stops s i : stops s -> threads s !! i = Some SIdle -> stops (stop_and_join s i).
Proof.
  intros HI Hi. destruct HI as [I1 I2 I4 I3]. unfold stop_and_join. split; cbn.
  - intros H. split; [done|]. destruct (started s) eqn:E; [done|]. assert (stopping s) as H'%I1; [|by destruct H']. unfold stopping in *. cbn in H.
    destruct H as [H|[H|H]]; apply elem_insert_inv in H as [H|H]; try done; auto.
  - intros H. apply I2. unfold stopped in *. cbn in H. destruct H as [H|H]; apply elem_insert_inv in H as [H|H]; try (by destruct (started s)); auto.
  - intros b r H. apply elem_insert_inv in H as [H|H]; [by destruct (started s)|]. by eapply I4.
  - intros H. apply elem_insert_inv in H as [H|H]; [by destruct (started s)|]. by apply I3.
Qed.

Record inv (s : S) : Prop := { v_own : own s; v_times : times s; v_stops : stops s; v_within : within s }.
Lemma is_idle_lookup s i : is_idle s i = true -> threads s !! i = Some SIdle.
Proof. unfold is_idle. by destruct (threads s !! i) as [[]|]. Qed.
Lemma call_inv s c s' : inv s -> do_call s c = Some s' -> within s' -> inv s'.
Proof.
  intros [HO HT HS HW] H HW'. assert (own s' /\ times s' /\ stops s') as (H1 & H2 & H3); [|done]. destruct c as [n|i b r pick|i|j|i|now pick]; cbn in H.
  - injection H as <-. split_and!; [by apply start_own|by apply start_times|by apply start_stops].
  - destruct (is_idle s i) eqn:Ei; [|done]. apply is_idle_lookup in Ei. split_and!; [by eapply schedule_own|by eapply schedule_times|by eapply schedule_stops].
  - split_and!; [by eapply go_own|by eapply go_times|by eapply go_stops].
  - destruct (jobs s !! j) as [J|] eqn:Hj; [|done]. injection H as <-. split_and!; [by eapply unschedule_own|by apply unschedule_times|by apply unschedule_stops].
  - destruct (is_idle s i) eqn:Ei; [|done]. apply is_idle_lookup in Ei. injection H as <-. split_and!; [by apply stop_own|by apply stop_times|by apply stop_stops].
  - pose proof (t_tpc _ HT) as Hok. unfold tpc_ok in Hok. split_and!; [|by eapply timer_times|by eapply timer_stops].
    eapply timer_own; try done; intros k n E; rewrite E in Hok; [by destruct Hok|done].
Qed.
Lemma timer_init_inv n : inv (init n).
Proof.
  assert (forall x, x ∈ threads (init n) -> x = SIdle) as Hidle by (intros x [j Hj]%list_elem_of_lookup; cbn in Hj; by apply lookup_replicate in Hj as [-> _]). split.
  - split; try done.
    + intros k. unfold places, wcount. cbn. assert (sum_list_with (scount k) (replicate n SIdle) = 0%nat) as -> by (clear; induction n; cbn; lia). done.
    + intros k Hk. unfold wcount in Hk. cbn in Hk. assert (sum_list_with (scount k) (replicate n SIdle) = 0%nat) as E by (clear; induction n; cbn; lia). rewrite E in Hk. cbn in Hk. lia.
  - done.
  - split; try done.
    + intros [H|[H|H]]; apply Hidle in H; done.
    + intros [H|H]; apply Hidle in H; done.
    + intros b r H. by apply Hidle in H.
  - split; [constructor|cbn; lia].
Qed.
Lemma timer_inv n s : reachable n s -> inv s.
Proof. apply steps_invariant; [|apply timer_init_inv]. intros a b Ha [[c Hc] Hw]. by eapply call_inv. Qed.

(** ** What the timer thread promises *)

Lemma withinb_spec s : withinb s = true -> within s.
Proof.
  unfold withinb. intros [E1 E2%Z.ltb_lt]%andb_true_iff. split; [|done]. apply Forall_forall. intros t Ht. rewrite forallb_forall in E1. apply Z.ltb_lt, E1. by apply list_elem_of_In.
Qed.
Lemma timer_run_steps l s s' : run l s = Some s' -> steps step s s'.
Proof.
  revert s. induction l as [|c l IH]; cbn [run]; intros s; [intros [= <-]; constructor|]. destruct (do_call s c) as [s1|] eqn:E; [|done]. cbn [mbind option_bind]. destruct (withinb s1) eqn:Ew; [|done]. intros H%IH.
  eapply steps_app; [|exact H]. eapply steps_trans; [apply steps_refl|]. split; [by exists c|]. by apply withinb_spec.
Qed.

(** C25: [unschedule] with an identifier that [schedule] returned tells exactly what
    has become of the task: 0 and it is cancelled when it has not begun to run,
    1 when it is running, -1 when it has run or was cancelled before; no other
    task is touched. *)
Theorem timer_unschedule_exact n s j J : reachable n s -> jobs s !! j = Some J ->
  let r := unschedule s (job_id J) in
  fst r = match j_state J with Pending => 0 | Active _ => 1 | _ => -1 end /\
  jobs (snd r) = match j_state J with Pending => <[j := mkJob (j_slot J) (j_version J) (j_time J) Cancelled]> (jobs s) | _ => jobs s end.
Proof.
  intros [HO _ _ HW]%timer_inv Hj. cbn. rewrite (unschedule_spec s j J) by done. destruct (j_state J); try done. split; [done|]. unfold set_state. cbn [set_version set_slots jobs snd]. by rewrite Hj.
Qed.
(** One task is running, another waits in the heap. *)
Definition two_tasks : list call :=
  [Start 1; Schedule 0 0 5 None; Go 0; Go 0; Go 0; Schedule 0 0 9 None; Go 0; Timer 5 0; Timer 5 0; Timer 5 0; Timer 5 0; Timer 5 0; Timer 5 0; Timer 5 0; Timer 5 0; Timer 5 0; Timer 5 0].
Lemma timer_unschedule_exact_witness : match run two_tasks (init 1) with
  | Some s => fst (unschedule s (make_task_id 0 2)) = 1 /\ fst (unschedule s (make_task_id 1 2)) = 0 | None => False end.
Proof.
  destruct (run two_tasks (init 1)) as [s|] eqn:E; [|by vm_compute in E]. assert (reachable 1 s) as Hr by (by eapply timer_run_steps).
  vm_compute in E. injection E as <-. split; [exact (proj1 (timer_unschedule_exact 1 _ 0 _ Hr eq_refl))|exact (proj1 (timer_unschedule_exact 1 _ 1 _ Hr eq_refl))].
Defined.

(** *** Every task runs at most once, and not after it was cancelled *)

Definition becomes (a b : JobState) : Prop :=
  match a, b with
  | Pending, _ => True
  | Active n, Active m | Active n, Ran m | Ran n, Ran m => n = m
  | Cancelled, Cancelled => True
  | _, _ => False
  end.
#[global] Instance becomes_trans : Transitive becomes.
Proof. intros [] [] []; cbn; intros; try done; congruence. Qed.
#[global] Instance becomes_refl : Reflexive becomes.
Proof. by intros []. Qed.
Definition same_job (J J' : Job) : Prop := j_slot J' = j_slot J /\ j_version J' = j_version J /\ j_time J' = j_time J /\ becomes (j_state J) (j_state J').
Definition jobs_go (s s' : S) : Prop := forall j J, jobs s !! j = Some J -> exists J', jobs s' !! j = Some J' /\ same_job J J'.
Lemma same_job_refl J : same_job J J.
Proof. by unfold same_job. Qed.
Lemma jobs_same s s' : jobs s' = jobs s -> jobs_go s s'.
Proof. intros E j J Hj. rewrite E. eauto using same_job_refl. Qed.
Lemma jobs_set s s' j J st : jobs s !! j = Some J -> becomes (j_state J) st -> jobs s' = <[j := mkJob (j_slot J) (j_version J) (j_time J) st]> (jobs s) -> jobs_go s s'.
Proof.
  intros Hj Hb E k K Hk. rewrite E. destruct (decide (k = j)) as [->|Hne]; [|rewrite list_lookup_insert_ne by done; eauto using same_job_refl].
  rewrite list_lookup_insert_eq by (by eapply lookup_lt_Some). assert (K = J) as -> by congruence. eexists. split; [done|]. done.
Qed.
Lemma timer_jobs s now pick s' : inv s -> timer_step s now pick = Some s' -> jobs_go s s'.
Proof.
  intros [HO HT _ HW] H. destruct (tpc s) as [| |i|i l| |k n|k n|k n|k| |nx e|nx|] eqn:Ep; revert H; unfold timer_step; rewrite Ep; try done; try (intros [= <-]; by apply jobs_same).
  - intros [= <-]. apply jobs_same. by destruct (stop s).
  - intros [= <-]. apply jobs_same. by destruct (buckets s !! i).
  - destruct l as [|k l]; intros [= <-]; apply jobs_same; [done|]. unfold try_delete. destruct (_ =? _); [done|]. cbn [fst snd]. by destruct (_ =? _).
  - destruct (heap s); [intros [= <-]; by apply jobs_same|]. destruct (_ !! pick) as [k|]; [|done]. cbn [mbind option_bind]. destruct (is_min s k); [|done]. intros [= <-]. by apply jobs_same.
  - intros [= <-]. apply jobs_same. by destruct (_ <? _).
  - intros [= <-]. assert (0 < wcount s k)%nat as Hk by (unfold wcount; rewrite Ep; cbn; rewrite Nat.eqb_refl; cbn; lia).
    destruct (o_slot _ HO k Hk) as (J & HJ & HV). destruct (slot_parts s k J HO HW HJ) as (P1 & _). unfold run_and_delete. rewrite P1. destruct (Z.eqb_spec (version (T s k)) (j_version J)); [|destruct (_ =? _); by apply jobs_same].
    destruct HJ as (E1 & _). eapply (jobs_set s _ (fn_arg (T s k)) J (Active n)); [done| |]; [by destruct HV as [[_ ->]|[? _]]; [|lia]|]. unfold set_state. cbn [set_version set_slots jobs]. by rewrite E1.
  - intros [= <-]. destruct (o_fn _ HO k n Ep) as (J & (E1 & _) & _ & HS). eapply (jobs_set s _ (fn_arg (T s k)) J (Ran n)); [done|by rewrite HS|]. unfold fn_done, set_state. cbn [set_version set_slots jobs]. by rewrite E1.
  - intros [= <-]. apply jobs_same. by destruct (_ <? _).
Qed.
Lemma call_jobs s c s' : inv s -> do_call s c = Some s' -> jobs_go s s'.
Proof.
  intros HI H. destruct c as [n|i b r pick|i|j|i|now pick]; cbn in H.
  - injection H as <-. apply jobs_same. unfold start. destruct (started s); [done|]. destruct (n =? 0)%nat; [done|]. by destruct (1024 <? n)%nat.
  - destruct (is_idle s i); [|done]. unfold schedule in H. destruct (_ || _); [injection H as <-; by apply jobs_same|]. destruct (_ && _ && _); [|done]. destruct (get_resource pick s) as [[k s1]|] eqn:E; [|done].
    cbn [mbind option_bind fst snd] in H. injection H as <-. assert (jobs s1 = jobs s) as E1 by (unfold get_resource in E; destruct pick as [u|]; [destruct (existsb _ _); [|done]|]; by injection E as _ <-).
    intros j J Hj. exists J. split; [|apply same_job_refl]. cbn. rewrite E1. by apply lookup_app_l_Some.
  - apply jobs_same. unfold thread_step in H. destruct (threads s !! i) as [p|]; [|done]. cbn [mbind option_bind] in H. destruct (futex_wake_fields s) as (_ & G & _).
    destruct p as [|k b|b r| | | |]; try done; [destruct (buckets s !! b); [|done]; by injection H as <-|injection H as <-; by destruct (_ <? _)|by injection H as <-|by injection H as <-|by injection H as <-|].
    destruct (tpc s); try done. by injection H as <-.
  - destruct (jobs s !! j) as [J|] eqn:Hj; [|done]. injection H as <-. rewrite (unschedule_spec s j J) by (try done; apply HI). destruct (j_state J) eqn:Es; try by apply jobs_same.
    eapply (jobs_set s _ j J Cancelled); [done|by rewrite Es|]. unfold set_state. cbn [set_version set_slots jobs snd]. by rewrite Hj.
  - destruct (is_idle s i); [|done]. injection H as <-. by apply jobs_same.
  - by eapply timer_jobs.
Qed.

(** A task that was cancelled never runs, one that ran never runs again, and none
    runs before its time: its state only goes from pending to running to done, or
    from pending to cancelled. *)
Theorem timer_runs_once n s s' j J : reachable n s -> steps step s s' -> jobs s !! j = Some J ->
  exists J', jobs s' !! j = Some J' /\ same_job J J' /\ match j_state J' with Active now | Ran now => j_time J <= now | _ => True end.
Proof.
  intros Hr Hs Hj. assert (inv s' /\ jobs_go s s') as [HI HG].
  { clear Hj. pose proof (timer_inv n s Hr) as H0. clear Hr. induction Hs as [s|s s1 s2 Hs IH [[c Hc] Hw]]; [split; [done|by apply jobs_same]|]. destruct (IH H0) as [H1 H2]. split; [by eapply call_inv|].
    intros k K Hk. destruct (H2 k K Hk) as (K1 & Hk1 & E1 & E2 & E3 & E4). destruct (call_jobs s1 c s2 H1 Hc k K1 Hk1) as (K2 & Hk2 & F1 & F2 & F3 & F4). exists K2. split; [done|]. unfold same_job. split_and!; try congruence. by etrans. }
  destruct (HG j J Hj) as (J' & HJ' & HS). exists J'. split_and!; try done. destruct (o_job _ (v_own _ HI) j J' HJ') as (_ & _ & _ & H). destruct HS as (_ & _ & E & _). rewrite E in H.
  destruct (j_state J'); try done; apply H.
Qed.
Lemma timer_runs_once_witness : match run two_tasks (init 1) with
  | Some s => match run [Timer 5 0; Timer 5 0; Unschedule 1; Timer 5 0; Timer 5 0; Timer 9 0] s with
              | Some s' => exists J', jobs s' !! 1%nat = Some J' /\ j_state J' = Cancelled /\ becomes Pending (j_state J')
              | None => False
              end
  | None => False end.
Proof.
  destruct (run two_tasks (init 1)) as [s|] eqn:E; [|by vm_compute in E]. assert (reachable 1 s) as Hr by (by eapply timer_run_steps). vm_compute in E. injection E as <-.
  destruct (run [Timer 5 0; Timer 5 0; Unschedule 1; Timer 5 0; Timer 5 0; Timer 9 0] _) as [s'|] eqn:E; [|by vm_compute in E]. pose proof (timer_run_steps _ _ _ E) as Hs. vm_compute in E. injection E as <-.
  destruct (timer_runs_once 1 _ _ 1 _ Hr Hs eq_refl) as (J' & H1 & (_ & _ & _ & H2) & _). exists J'. split_and!; [done| |done]. vm_compute in H1. by injection H1 as <-.
Defined.

(** *** The timer thread does not oversleep *)

Definition quiet (s : S) : Prop := Forall (eq SIdle) (threads s).
Lemma quiet_elem s p : quiet s -> p ∈ threads s -> p = SIdle.
Proof. unfold quiet. rewrite Forall_forall. intros H Hp. symmetry. by apply H. Qed.
(** Where a pending task is, when no call is in progress. *)
Lemma pending_place s j J : inv s -> quiet s -> jobs s !! j = Some J -> j_state J = Pending -> rt s (j_slot J) = j_time J /\
  (j_slot J ∈ heap s \/ (0 < tcount (j_slot J) (tpc s))%nat \/ exists b B, buckets s !! b = Some B /\ j_slot J ∈ task_head B /\ (covered (tpc s) b -> nearest s <= j_time J)).
Proof.
  intros [HO HT _ _] Hq Hj Hp. destruct (o_job _ HO j J Hj) as (_ & _ & _ & H). rewrite Hp in H. destruct H as (_ & E1 & Hw). set (k := j_slot J) in *.
  assert (rt s k = j_time J) as Ert by (destruct (o_slot _ HO k Hw) as (J' & (F1 & _ & _ & F4) & _); rewrite E1, Hj in F1; unfold rt; congruence). split; [done|].
  assert (sum_list_with (scount k) (threads s) = 0%nat) as H0.
  { destruct (sum_list_with (scount k) (threads s)) eqn:E; [done|]. destruct (sum_pos (scount k) (threads s)) as (i & p & Hi & Hpos); [lia|]. apply list_elem_of_lookup_2 in Hi. rewrite (quiet_elem _ _ Hq Hi) in Hpos. cbn in Hpos. lia. }
  unfold wcount in Hw. destruct (decide (0 < cocc (heap s) k)%nat) as [Hh|Hh]; [left; by apply elem_cocc|]. right. destruct (decide (0 < tcount k (tpc s))%nat) as [Ht|Ht]; [by left|]. right.
  destruct (sum_pos (bcount k) (buckets s)) as (b & B & HB & Hb); [lia|]. assert (k ∈ task_head B) as Hin by (by apply elem_cocc). exists b, B. split_and!; try done. intros Hc.
  destruct (t_bucket _ HT b B HB) as (_ & _ & H3). specialize (H3 k Hin). destruct (t_near _ HT b B HB Hc ltac:(intros E; rewrite E in Hin; set_solver)) as [H|(r & H & _)]; [lia|]. by apply (quiet_elem _ _ Hq) in H.
Qed.
(** C26: While the timer thread is asleep and no call is in progress, it sleeps no
    longer than until the earliest pending task is due. *)
Theorem timer_never_oversleeps n s next j J : reachable n s -> tpc s = TAsleep next -> quiet s -> jobs s !! j = Some J -> j_state J = Pending -> next <= j_time J.
Proof.
  intros HI%timer_inv Ep Hq Hj Hp. destruct (pending_place s j J HI Hq Hj Hp) as [Ert H]. rewrite Ep in H. pose proof (t_tpc _ (v_times _ HI)) as Hok. unfold tpc_ok in Hok. rewrite Ep in Hok. destruct Hok as [Hn Hh].
  destruct H as [H|[H|(b & B & _ & _ & H)]]; [specialize (Hh _ H); lia|cbn in H; lia|]. specialize (H I). destruct Hn as [<-|Hw]; [done|]. destruct Hw as [Hw|Hw]; by apply (quiet_elem _ _ Hq) in Hw.
Qed.
(** A later task is in the heap, an earlier one comes while the timer thread is
    about to sleep; it wakes up and sleeps again until the earlier one. *)
Definition earlier_comes : list call :=
  [Start 1; Schedule 0 0 90 None; Go 0; Go 0; Go 0] ++ repeat (Timer 5 0) 8 ++ [Schedule 0 0 30 None; Go 0; Go 0; Timer 5 0; Go 0] ++ repeat (Timer 5 0) 9.
Lemma timer_never_oversleeps_witness : match run earlier_comes (init 1) with
  | Some s => tpc s = TAsleep 30 /\ map j_state (jobs s) = [Pending; Pending] /\ 30 <= 90
  | None => False end.
Proof.
  destruct (run earlier_comes (init 1)) as [s|] eqn:E; [|by vm_compute in E]. assert (reachable 1 s) as Hr by (by eapply timer_run_steps). vm_compute in E. injection E as <-. split_and!; [done..|].
  apply (timer_never_oversleeps 1 _ 30 0 _ Hr eq_refl ltac:(repeat constructor) eq_refl eq_refl).
Defined.

(** The task that is taken out to be run is due, and none of the pending tasks
    whose [schedule] has returned is earlier. *)
Theorem timer_earliest_first n s k t now pick s' j J : reachable n s -> tpc s = TCheck k t -> timer_step s now pick = Some s' -> tpc s' = TExec k t -> quiet s ->
  jobs s !! j = Some J -> j_state J = Pending -> run_time (T s k) <= t /\ run_time (T s k) <= j_time J.
Proof.
  intros HI%timer_inv Ep Hs Ep' Hq Hj Hp. destruct (pending_place s j J HI Hq Hj Hp) as [Ert H]. rewrite Ep in H. pose proof (t_tpc _ (v_times _ HI)) as Hok. unfold tpc_ok in Hok. rewrite Ep in Hok. destruct Hok as (Hk & Ht & Hmin).
  split; [done|]. unfold timer_step in Hs. rewrite Ep in Hs. injection Hs as <-. destruct (Z.ltb_spec (nearest s) (run_time (T s k))); [done|].
  destruct H as [H|[H|(b & B & _ & _ & H)]]; [specialize (Hmin _ H); unfold rt in *; lia|cbn in H; lia|]. specialize (H I). lia.
Qed.
Lemma timer_earliest_first_witness : match run (take 15 two_tasks) (init 1) with
  | Some s => exists k s', timer_step s 5 0 = Some s' /\ tpc s' = TExec k 5 /\ run_time (T s k) <= 9
  | None => False end.
Proof.
  destruct (run (take 15 two_tasks) (init 1)) as [s|] eqn:E; [|by vm_compute in E]. assert (reachable 1 s) as Hr by (by eapply timer_run_steps). vm_compute in E. injection E as <-.
  eexists _, _. split; [reflexivity|]. split; [reflexivity|]. eapply (timer_earliest_first 1 _ _ 5 5 0 _ 1 _ Hr eq_refl eq_refl eq_refl ltac:(repeat constructor) eq_refl eq_refl).
Defined.

(** *** The timer thread ends when it is stopped *)

Definition in_buckets (s : S) : nat := sum_list_with (fun B => length (task_head B)) (buckets s) + sum_list_with (fun p => match p with SBucket _ _ => 1%nat | _ => 0%nat end) (threads s).
(** A bound on the steps that the timer thread has left. *)
Definition steps_left (s : S) : nat :=
  match tpc s with
  | TDone => 0
  | TTop | TReset => 1
  | TWait | TCheck _ _ | TFutex _ _ | TAsleep _ => 2
  | TRun => 3
  | TReturn _ => 4
  | TFn _ _ => 5
  | TExec _ _ => 6
  | TPull i => 4 + 2 * (length (buckets s) - i) + in_buckets s
  | TTake i l => 5 + 2 * (length (buckets s) - Datatypes.S i) + length l + in_buckets s
  end.
(** Executions with the number of steps of the timer thread in them. *)
Inductive exec : nat -> S -> S -> Prop :=
| exec_refl s : exec 0 s s
| exec_timer m s s1 s2 now pick : exec m s s1 -> timer_step s1 now pick = Some s2 -> within s2 -> exec (Datatypes.S m) s s2
| exec_other m s s1 s2 c : exec m s s1 -> (forall now pick, c <> Timer now pick) -> do_call s1 c = Some s2 -> within s2 -> exec m s s2.
(** [stop_and_join] waits for the timer thread, or the timer thread has ended. *)
Definition ending (s : S) : Prop := started s = true /\ (StopJoin ∈ threads s \/ tpc s = TDone).

Lemma min_heap s : heap s <> [] -> exists i k, heap s !! i = Some k /\ is_min s k = true.
Proof.
  unfold is_min. generalize (heap s). induction l as [|u l IH]; [done|]. intros _. destruct (decide (l = [])) as [->|Hl]; [exists 0%nat, u; cbn; by rewrite Z.leb_refl|].
  destruct (IH Hl) as (i & k & Hi & Hk). destruct (Z.leb_spec (run_time (T s k)) (run_time (T s u))) as [H|H].
  - exists (Datatypes.S i), k. split; [done|]. cbn. rewrite Hk. by apply Z.leb_le in H as ->.
  - exists 0%nat, u. split; [done|]. cbn. rewrite Z.leb_refl. cbn. rewrite forallb_forall in Hk |- *. intros x Hx. specialize (Hk x Hx). apply Z.leb_le in Hk. apply Z.leb_le. lia.
Qed.
Lemma timer_enabled s now : tpc s <> TDone -> exists pick s', timer_step s now pick = Some s'.
Proof.
  intros H. unfold timer_step. destruct (tpc s) as [| |i|i [|k l]| |k n|k n|k n|k| |nx e|nx|]; try (exists 0%nat; eexists; reflexivity); try done.
  destruct (heap s) as [|u l] eqn:Eh; [exists 0%nat; eexists; reflexivity|]. destruct (min_heap s) as (i & k & Hi & Hk); [by rewrite Eh|]. exists i. rewrite <- Eh, Hi. cbn [mbind option_bind]. rewrite Hk. eexists; reflexivity.
Qed.

Lemma left_timer s now pick s' : inv s -> ending s -> timer_step s now pick = Some s' -> ending s' /\ (steps_left s' < steps_left s)%nat.
Proof.
  intros HI [Hsd He] H. destruct He as [Hj|Hd]; [|unfold timer_step in H; by rewrite Hd in H]. pose proof (timer_own s now pick s') as Ho.
  destruct HI as [HO HT HS HW]. destruct (s_near _ HS) as [Hn Hf]; [by right|]. destruct (s_stop _ HS) as [Hst _]; [right; by right|]. pose proof (s_join _ HS Hj) as Hna.
  assert (threads s' = threads s /\ started s' = started s /\ (steps_left s' < steps_left s)%nat) as (E1 & E2 & E3); [|split; [split; [by rewrite E2|left; by rewrite E1]|done]].
  revert H. unfold timer_step, steps_left. destruct (tpc s) as [| |i|i [|k l]| |k n|k n|k n|k| |nx e|nx|] eqn:Ep; try done.
  - intros [= <-]. rewrite Hst. cbn. split_and!; try done; lia.
  - intros [= <-]. rewrite Hst. cbn. split_and!; try done; lia.
  - intros [= <-]. destruct (buckets s !! i) as [B|] eqn:HB; [|cbn; split_and!; try done; lia]. pose proof (lookup_lt_Some _ _ _ HB) as Hi. split_and!; try done. cbn [set_tpc tpc set_buckets buckets]. rewrite length_insert.
    unfold in_buckets. cbn [set_tpc set_buckets buckets threads]. pose proof (sum_insert (fun B => length (task_head B)) (buckets s) i B (snd (consume_tasks B)) HB) as H.
    assert (length (task_head (snd (consume_tasks B))) + length (fst (consume_tasks B)) = length (task_head B))%nat as H1 by (unfold consume_tasks; destruct (task_head B) eqn:E; cbn [fst snd]; rewrite ?E; cbn; lia). lia.
  - intros [= <-]. split_and!; try done. change (in_buckets (set_tpc (TPull (Datatypes.S i)) s)) with (in_buckets s). cbn. lia.
  - intros [= <-]. unfold try_delete. assert (forall h f fr, in_buckets (mkS (slots s) fr (buckets s) (nearest s) (nsignals s) (stop s) (started s) h (TTake i l) (threads s) (jobs s) f) = in_buckets s) as Hib by done.
    destruct (_ =? _); cbn [fst snd]; [|destruct (_ =? _)]; (split_and!; try done; cbn [set_tpc tpc]; unfold in_buckets; cbn; lia).
  - destruct (heap s); [intros [= <-]; cbn; split_and!; try done; lia|]. destruct (_ !! pick) as [k|]; [|done]. cbn [mbind option_bind]. destruct (is_min s k); [|done]. intros [= <-]. split_and!; try done. cbn. destruct (_ <? _); lia.
  - intros [= <-]. rewrite Hn. pose proof (t_tpc _ HT) as Hok. unfold tpc_ok in Hok. rewrite Ep in Hok. destruct Hok as (Hk & _ & _). pose proof (waiting_time s k HO (heap_waits s k Hk)) as Hr. unfold rt in Hr.
    destruct (Z.ltb_spec 0 (run_time (T s k))); [|lia]. cbn. split_and!; try done; lia.
  - intros [= <-]. unfold run_and_delete. destruct (state_fields (fn_arg (T s k)) (Active n) (set_version k (u32 (version_of_task_id (task_id (T s k)) + 1)) s)) as (_ & _ & _ & G4 & _ & _ & _ & G8 & _).
    destruct (_ =? _); [cbn; rewrite G4, G8|destruct (_ =? _); cbn]; split_and!; try done; lia.
  - intros [= <-]. unfold fn_done. destruct (state_fields (fn_arg (T s k)) (Ran n) (set_version k (u32 (version_of_task_id (task_id (T s k)) + 2)) s)) as (_ & _ & _ & G4 & _ & _ & _ & G8 & _). cbn. rewrite G4, G8. split_and!; try done; lia.
  - intros [= <-]. cbn. split_and!; try done; lia.
  - intros [= <-]. rewrite Hn. assert (0 < min_time s) as Hmin.
    { unfold min_time. assert (forall k, k ∈ heap s -> 0 < run_time (T s k)) as Hk by (intros k Hk; by apply (waiting_time s k HO), heap_waits). revert Hk. generalize (heap s).
      induction l as [|u l IH]; cbn; [unfold INT64_MAX; lia|]. intros Hk. specialize (IH ltac:(set_solver)). specialize (Hk u ltac:(set_solver)). lia. }
    destruct (Z.ltb_spec 0 (min_time s)); [|lia]. cbn. split_and!; try done; lia.
  - intros [= <-]. specialize (Hf nx e eq_refl). destruct (Z.eqb_spec (nsignals s) e); [lia|]. cbn. split_and!; try done; lia.
  - by destruct (Hna nx).
Qed.

Lemma left_same s s' : tpc s' = tpc s \/ (exists n, tpc s = TAsleep n /\ tpc s' = TTop) -> length (buckets s') = length (buckets s) -> in_buckets s' = in_buckets s -> (steps_left s' <= steps_left s)%nat.
Proof. unfold steps_left. intros [->|(n & -> & ->)] E1 E2; [rewrite E1, E2|]; lia. Qed.
Lemma ending_keep s s' i p q : ending s -> started s' = started s -> threads s !! i = Some p -> p <> StopJoin \/ tpc s = TDone -> threads s' = <[i := q]> (threads s) ->
  (tpc s = TDone -> tpc s' = TDone) -> ending s'.
Proof.
  intros [Hsd He] E1 Hi Hp E2 E3. split; [by rewrite E1|]. destruct He as [Hj|Hd]; [|right; auto]. destruct Hp as [Hp|Hp]; [|right; auto]. left. rewrite E2. eapply elem_insert_other; [done| |done]. congruence.
Qed.
Lemma left_other s c s' : inv s -> ending s -> (forall now pick, c <> Timer now pick) -> do_call s c = Some s' -> ending s' /\ (steps_left s' <= steps_left s)%nat.
Proof.
  intros [HO HT HS HW] He Hc H. destruct c as [n|i b r pick|i|j|i|now pick]; [..|by destruct (Hc now pick)]; cbn in H.
  - injection H as <-. unfold start. pose proof (proj1 He) as ->. split; [done|cbn; lia].
  - destruct (is_idle s i) eqn:Ei; [|done]. apply is_idle_lookup in Ei. unfold schedule in H. destruct (stop s || negb (started s)) eqn:Es; [injection H as <-; split; [done|lia]|]. apply orb_false_iff in Es as [Es _].
    assert (tpc s = TDone) as Hd by (destruct He as [_ [Hj|Hd]]; [destruct (s_stop _ HS) as [E _]; [right; by right|congruence]|done]). destruct (_ && _ && _); [|done]. destruct (get_resource pick s) as [[k s1]|] eqn:E; [|done].
    cbn [mbind option_bind fst snd] in H. injection H as <-. assert (threads s1 = threads s /\ started s1 = started s /\ tpc s1 = tpc s) as (E1 & E2 & E3).
    { unfold get_resource in E. destruct pick as [u|]; [destruct (existsb _ _); [|done]|]; by injection E as _ <-. }
    split; [|unfold steps_left; cbn; rewrite E3, Hd; lia]. split; [cbn; rewrite E2; apply He|right; cbn; congruence].
  - unfold thread_step in H. destruct (threads s !! i) as [p|] eqn:Hi; [|done]. cbn [mbind option_bind] in H. destruct (futex_wake_fields s) as (_ & _ & _ & G4 & _ & _ & G7 & G8 & _). pose proof (futex_wake_tpc s) as Gt.
    assert (tpc s = TDone -> tpc (futex_wake s) = TDone) as Gd by (intros E; destruct Gt as [->|(n & E' & _)]; congruence).
    assert (forall p' q, p = p' -> match p' with SBucket _ _ => False | _ => match q with SBucket _ _ => False | _ => True end end -> forall f,
      sum_list_with f (buckets s) + sum_list_with (fun p => match p with SBucket _ _ => 1%nat | _ => 0%nat end) (<[i := q]> (threads s)) =
      sum_list_with f (buckets s) + sum_list_with (fun p => match p with SBucket _ _ => 1%nat | _ => 0%nat end) (threads s))%nat as Hsum.
    { intros p' q -> Hq f. pose proof (sum_insert (fun p => match p with SBucket _ _ => 1%nat | _ => 0%nat end) (threads s) i p' q Hi) as Hs. destruct p', q; cbn in *; try done; lia. }
    destruct p as [|k b|b r| | | |]; try done.
    + destruct (buckets s !! b) as [B|] eqn:Hb; [|done]. cbn [mbind option_bind] in H. injection H as <-. split; [eapply ending_keep; try done; by left|]. apply left_same; [by left|cbn; by rewrite length_insert|]. unfold in_buckets. cbn [set_thread set_threads set_buckets buckets threads].
      pose proof (sum_insert (fun B => length (task_head B)) (buckets s) b B (fst (bucket_insert k B s)) Hb) as H1.
      pose proof (sum_insert (fun p => match p with SBucket _ _ => 1%nat | _ => 0%nat end) (threads s) i (SBucket k b) (if snd (bucket_insert k B s) then SGlobal b (run_time (T s k)) else SIdle) Hi) as H2.
      assert (length (task_head (fst (bucket_insert k B s))) = Datatypes.S (length (task_head B))) as H3 by (unfold bucket_insert; by destruct (_ <? _)).
      destruct (snd (bucket_insert k B s)); cbn in H2; lia.
    + injection H as <-. destruct (_ <? _); (split; [eapply ending_keep; try done; by left|]); (apply left_same; [by left|done|]); unfold in_buckets; cbn [set_thread set_threads signal set_nearest buckets threads]; by eapply Hsum.
    + injection H as <-. split; [eapply (ending_keep s _ i); try done; cbn; rewrite ?G4, ?G7; try done; by left|]. apply left_same; [done|cbn; by rewrite G8|]. unfold in_buckets. cbn [set_thread set_threads buckets threads]. rewrite G7, G8. by eapply Hsum.
    + injection H as <-. split; [eapply ending_keep; try done; by left|]. apply left_same; [by left|done|]. unfold in_buckets. cbn [set_thread set_threads signal set_nearest buckets threads]. by eapply Hsum.
    + injection H as <-. split; [eapply (ending_keep s _ i); try done; cbn; rewrite ?G4, ?G7; try done; by left|]. apply left_same; [done|cbn; by rewrite G8|]. unfold in_buckets. cbn [set_thread set_threads buckets threads]. rewrite G7, G8. by eapply Hsum.
    + destruct (tpc s) eqn:Ep; try done. injection H as <-. split; [eapply ending_keep; try done; by right|]. unfold steps_left. cbn. rewrite Ep. lia.
  - destruct (jobs s !! j) as [J|] eqn:Hj; [|done]. injection H as <-. rewrite (unschedule_spec s j J) by done. destruct (j_state J); cbn [snd]; try (split; [done|lia]). set (s1 := set_version _ _ s).
    destruct (state_fields j Cancelled s1) as (_ & _ & G3 & G4 & G5 & _ & _ & G8 & _). split; [destruct He as [E1 E2]; split; [by rewrite G8|rewrite G4, G5; done]|]. apply left_same; [left; by rewrite G5|by rewrite G3|]. unfold in_buckets. by rewrite G3, G4.
  - destruct (is_idle s i) eqn:Ei; [|done]. apply is_idle_lookup in Ei. injection H as <-. split; [eapply ending_keep; try done; by left|]. apply left_same; [by left|done|]. unfold in_buckets, stop_and_join. cbn [set_thread set_threads set_stop buckets threads].
    pose proof (sum_insert (fun p => match p with SBucket _ _ => 1%nat | _ => 0%nat end) (threads s) i SIdle (if started s then StopLock else SIdle) Ei) as Hs. destruct (started s); cbn in Hs; lia.
Qed.

(** C27: Once [stop_and_join] waits for the timer thread, the timer thread takes at most
    [steps_left] more steps, whatever the others do, and it can always take the
    next one until it has ended. *)
Theorem timer_stop_terminates n s m s' : reachable n s -> StopJoin ∈ threads s -> exec m s s' ->
  (m + steps_left s' <= steps_left s)%nat /\ (tpc s' = TDone \/ forall now, exists pick s2, timer_step s' now pick = Some s2).
Proof.
  intros HI%timer_inv Hj He. assert (ending s) as Hend by (split; [|by left]; apply (s_stop _ (v_stops _ HI)); right; by right).
  assert (inv s' /\ ending s' /\ (m + steps_left s' <= steps_left s)%nat) as (H1 & H2 & H3).
  { clear Hj. induction He as [s|m s s1 s2 now pick He IH Hs Hw|m s s1 s2 c He IH Hc Hs Hw]; [done|..]; destruct (IH HI Hend) as (I1 & I2 & I3).
    - destruct (left_timer s1 now pick s2 I1 I2 Hs) as [E1 E2]. split_and!; [by apply (call_inv s1 (Timer now pick))|done|lia].
    - destruct (left_other s1 c s2 I1 I2 Hc Hs) as [E1 E2]. split_and!; [by apply (call_inv s1 c)|done|lia]. }
  split; [done|]. destruct (tpc s') eqn:Ep; [right; intros z; apply timer_enabled; congruence..|by left].
Qed.
(** The timer thread is stopped while it is about to pull a task: it ends after seven steps. *)
Definition stop_early : list call := [Start 1; Schedule 0 0 90 None; Go 0; Go 0; Go 0; Timer 5 0; Timer 5 0; Stop 0; Go 0; Go 0].
Lemma exec_timers m now a s t s' : exec a s t -> run (repeat (Timer now 0) m) t = Some s' -> exec (m + a) s s'.
Proof.
  revert a t. induction m as [|m IH]; intros a t Ht; cbn [run repeat]; [by intros [= <-]|].
  destruct (do_call t (Timer now 0)) as [t1|] eqn:E; [|done]. cbn [mbind option_bind]. destruct (withinb t1) eqn:Ew; [|done]. intros H. replace (Datatypes.S m + a)%nat with (m + Datatypes.S a)%nat by lia. apply (IH _ t1); [|done].
  eapply exec_timer; [done|exact E|by apply withinb_spec].
Qed.
Lemma timer_stop_terminates_witness : match run stop_early (init 1) with
  | Some s => match run (repeat (Timer 5 0) 7) s with Some s' => tpc s' = TDone /\ (7 + steps_left s' <= steps_left s)%nat | None => False end
  | None => False end.
Proof.
  destruct (run stop_early (init 1)) as [s|] eqn:E; [|by vm_compute in E]. assert (reachable 1 s) as Hr by (by eapply timer_run_steps). vm_compute in E. injection E as <-.
  destruct (run (repeat (Timer 5 0) 7) _) as [s'|] eqn:E; [|by vm_compute in E]. pose proof (exec_timers 7 5 0 _ _ _ (exec_refl _) E) as He. split; [vm_compute in E; by injection E as <-|].
  apply (timer_stop_terminates 1 _ 7 s' Hr); [apply list_elem_of_In; cbn; tauto|done].
Defined.

End TT.
