(* ===== verification/FlatMap.v ===== *)
(** * Flat maps (src/src-bthread/butil/flat_map.h, flat_map_inl.h, single_threaded_pool.h)

    A hash table of buckets: the first element of a bucket is in the array, the
    others are nodes of a pool, linked through [next].  An iterator is the index
    of a bucket and the depth of a node in it, as is the reference that
    [operator[]] returns.  The hash function, the key and the value type are
    parameters, as is [Alloc], which tells whether the array of buckets can be
    allocated ([abort()] otherwise); pool blocks are always obtained. *)
From S2P Require Import Prelude.

(** ** The pool of nodes *)

Module STP.

Abbreviation addr := (nat * nat)%type.
(** [_blocks] newest first, each with its number and [nalloc]; [fresh] numbers
    the next block. *)
Record Pool := mkPool { free_nodes : list addr; blocks : list (nat * nat); fresh : nat }.
Definition new_Pool : Pool := mkPool [] [] 0.

Definition get (NITEM : nat) (p : Pool) : addr * Pool :=
  match free_nodes p with
  | a :: l => (a, mkPool l (blocks p) (fresh p))
  | [] =>
      match blocks p with
      | (b, nalloc) :: l =>
          if (NITEM <=? nalloc)%nat then ((fresh p, 0%nat), mkPool [] ((fresh p, 1%nat) :: blocks p) (S (fresh p)))
          else ((b, nalloc), mkPool [] ((b, S nalloc) :: l) (fresh p))
      | [] => ((fresh p, 0%nat), mkPool [] [(fresh p, 1%nat)] (S (fresh p)))
      end
  end.
Definition back (a : addr) (p : Pool) : Pool := mkPool (a :: free_nodes p) (blocks p) (fresh p).
Definition reset (p : Pool) : Pool := mkPool [] [] (fresh p).
Definition count_allocated (p : Pool) : nat := sum_list_with snd (blocks p).
Definition count_free (p : Pool) : nat := length (free_nodes p).
Definition count_active (p : Pool) : nat := count_allocated p - count_free p.

(** The nodes that have been handed out of a block so far. *)
Definition allocated (p : Pool) : list addr := concat (map (fun b => map (pair (fst b)) (seq 0 (snd b))) (blocks p)).
(** [used] are the nodes in use. *)
Record pool_ok (p : Pool) (used : list addr) : Prop := {
  p_nodes : used ++ free_nodes p ≡ₚ allocated p;
  p_fresh : forall b, b ∈ blocks p -> (fst b < fresh p)%nat;
  p_blocks : NoDup (map fst (blocks p)) }.

Lemma length_allocated p : length (allocated p) = count_allocated p.
Proof.
  unfold allocated, count_allocated. induction (blocks p) as [|b l IH]; [done|]. cbn [map concat sum_list_with]. rewrite length_app, length_map, length_seq. by rewrite IH.
Qed.
Lemma active_used p used : pool_ok p used -> count_active p = length used.
Proof. intros H. unfold count_active, count_free. rewrite <- length_allocated, <- (Permutation_length (p_nodes _ _ H)), length_app. lia. Qed.
Lemma allocated_NoDup p used : pool_ok p used -> NoDup (allocated p).
Proof.
  intros H. pose proof (p_blocks _ _ H) as Hb. clear H. unfold allocated. induction (blocks p) as [|b l IH]; cbn; [constructor|]. cbn in Hb. apply NoDup_cons in Hb as [Hn Hb].
  apply NoDup_app. split_and!; [|intros x Hx Hx'|by apply IH].
  - apply NoDup_fmap; [by intros ?? [= ->]|apply NoDup_seq].
  - apply list_elem_of_fmap in Hx as (i & -> & _). apply Hn. apply list_elem_of_In, in_concat in Hx' as (y & Hy & Hin). apply in_map_iff in Hy as (c & <- & Hc). apply in_map_iff in Hin as (j & [= E _] & _).
    apply list_elem_of_In, in_map_iff. by exists c.
Qed.
Lemma used_NoDup p used : pool_ok p used -> NoDup used.
Proof. intros H. pose proof (allocated_NoDup p used H) as Hn. rewrite <- (p_nodes _ _ H) in Hn. by apply NoDup_app in Hn as (? & _). Qed.

(** A node that is handed out was not in use. *)
Lemma get_ok NITEM p used : (0 < NITEM)%nat -> pool_ok p used -> pool_ok (snd (get NITEM p)) (fst (get NITEM p) :: used).
Proof.
  intros HN [H1 H2 H3]. unfold get. destruct (free_nodes p) as [|a l] eqn:Ef; [|split; try done; cbn; rewrite <- H1; by rewrite Permutation_middle].
  rewrite app_nil_r in H1. unfold allocated in H1. destruct (blocks p) as [|[b na] l] eqn:Eb; [|destruct (Nat.leb_spec NITEM na)]; (split; [unfold allocated|..]); cbn in *.
  - rewrite app_nil_r. by rewrite H1.
  - intros c ->%list_elem_of_singleton. cbn. lia.
  - repeat constructor; set_solver.
  - rewrite app_nil_r. by rewrite H1.
  - intros c [->|Hc]%elem_of_cons; cbn; [lia|]. specialize (H2 c Hc). lia.
  - constructor; [|done]. intros [E|Hin]%elem_of_cons; [specialize (H2 (b, na) ltac:(left)); cbn in H2; lia|].
    apply list_elem_of_In, in_map_iff in Hin as (c & E & Hc). apply list_elem_of_In in Hc. specialize (H2 c ltac:(by right)). lia.
  - rewrite app_nil_r. transitivity (map (pair b) (seq 0 (S na)) ++ concat (map (fun b => map (pair (fst b)) (seq 0 (snd b))) l)); [|done].
    rewrite H1, seq_S, map_app, <- (assoc (++)). cbn. by rewrite <- Permutation_middle.
  - intros c [->|Hc]%elem_of_cons; cbn; [apply (H2 (b, na)); set_solver|apply H2; set_solver].
  - done.
Qed.
Lemma back_ok p a used : pool_ok p (a :: used) -> pool_ok (back a p) used.
Proof. intros [H1 H2 H3]. split; try done. cbn. rewrite <- H1. cbn. by rewrite <- Permutation_middle. Qed.
Lemma pool_perm p used used' : used ≡ₚ used' -> pool_ok p used -> pool_ok p used'.
Proof. intros E [H1 H2 H3]. split; try done. by rewrite <- E. Qed.
Lemma reset_ok p : pool_ok (reset p) [].
Proof. split; [done| |constructor]. set_solver. Qed.
Lemma new_ok : pool_ok new_Pool [].
Proof. split; [done| |constructor]. set_solver. Qed.

End STP.

(** ** Rounding *)

Module FM.

(** [find_power2], with the wrap-around of [uint64_t]. *)
Definition smear (s : Z) (b : Z) : Z := Z.lor b (Z.shiftr b s).
Definition find_power2 (b : Z) : Z :=
  let b := u64 (b - 1) in
  u64 (smear 32 (smear 16 (smear 8 (smear 4 (smear 2 (smear 1 b))))) + 1).
Definition flatmap_round (nbucket : Z) : Z := if nbucket <=? 8 then 8 else find_power2 nbucket.
Definition flatmap_mod (hash_code nbucket : Z) : Z := Z.land hash_code (nbucket - 1).
Definition is_too_crowded (size nbucket load_factor : Z) : bool := u64 (nbucket * load_factor) <=? u64 (size * 100).
Definition DEFAULT_NBUCKET : Z := 16.

(** The loop of [new_buckets_and_thumbnail]. *)
Fixpoint round_loop (fuel : nat) (size new_nbucket bump load_factor : Z) : option Z :=
  match fuel with
  | O => None
  | S f =>
      let n := flatmap_round (u64 (new_nbucket + bump)) in
      if is_too_crowded size n load_factor then round_loop f size n 1 load_factor else Some n
  end.
Definition ROUND_FUEL : nat := 64.

(** ** The map *)

Section Model.
Context {K V : Type} `{Countable K}.
Variable hashfn : K -> Z.
Variable default_value : V.
Variable NITEM : nat.
Variable Alloc : Z -> bool.

(** [Bucket]: invalid, or the element and the nodes behind [next]. *)
Inductive Bucket := Invalid | Valid (kv : K * V) (next : list (STP.addr * (K * V))).
(** [_buckets] is the array on the heap if there is one, else [_default_buckets]. *)
Record FlatMap := mkFM { _size : Z; _nbucket : Z; _default_buckets : list Bucket; _heap : option (list Bucket);
  _load_factor : Z; _is_default_load_factor : bool; _pool : STP.Pool }.
Definition _buckets (m : FlatMap) : list Bucket := match _heap m with Some l => l | None => _default_buckets m end.
Definition is_default_buckets (m : FlatMap) : bool := match _heap m with Some _ => false | None => true end.
Definition init_buckets (nbucket : Z) : list Bucket := replicate (Z.to_nat nbucket) Invalid.
Definition new_FlatMap : FlatMap := mkFM 0 DEFAULT_NBUCKET (init_buckets DEFAULT_NBUCKET) None 80 true STP.new_Pool.

Definition set_buckets (l : list Bucket) (m : FlatMap) : FlatMap :=
  match _heap m with
  | Some _ => mkFM (_size m) (_nbucket m) (_default_buckets m) (Some l) (_load_factor m) (_is_default_load_factor m) (_pool m)
  | None => mkFM (_size m) (_nbucket m) l None (_load_factor m) (_is_default_load_factor m) (_pool m)
  end.
Definition set_size (n : Z) (m : FlatMap) : FlatMap :=
  mkFM n (_nbucket m) (_default_buckets m) (_heap m) (_load_factor m) (_is_default_load_factor m) (_pool m).
Definition set_pool (p : STP.Pool) (m : FlatMap) : FlatMap :=
  mkFM (_size m) (_nbucket m) (_default_buckets m) (_heap m) (_load_factor m) (_is_default_load_factor m) p.
Definition set_heap (l : list Bucket) (nbucket : Z) (m : FlatMap) : FlatMap :=
  mkFM (_size m) nbucket (_default_buckets m) (Some l) (_load_factor m) (_is_default_load_factor m) (_pool m).
Definition init_load_factor (lf : Z) (m : FlatMap) : FlatMap :=
  if _is_default_load_factor m then mkFM (_size m) (_nbucket m) (_default_buckets m) (_heap m) lf false (_pool m) else m.
Definition empty (m : FlatMap) : bool := _size m =? 0.

Definition index (k : K) (nbucket : Z) : nat := Z.to_nat (flatmap_mod (u64 (hashfn k)) nbucket).
Definition bucket_elems (b : Bucket) : list (K * V) := match b with Invalid => [] | Valid kv l => kv :: map snd l end.
Definition bucket_nodes (b : Bucket) : list STP.addr := match b with Invalid => [] | Valid _ l => map fst l end.
(** The elements in the order of the iterators. *)
Definition elements (m : FlatMap) : list (K * V) := concat (map bucket_elems (_buckets m)).

(** *** Iterators: the index of a bucket and the depth in it *)
Definition iterator : Type := nat * nat.
Fixpoint skip_invalid (l : list Bucket) (e : nat) : nat :=
  match l with Invalid :: l' => skip_invalid l' (S e) | _ => e end.
(** [find_and_set_valid_node]; the extra bucket at the end is valid. *)
Definition find_and_set_valid_node (m : FlatMap) (e : nat) : iterator := (skip_invalid (drop e (_buckets m)) e, 0%nat).
Definition begin_ (m : FlatMap) : iterator := find_and_set_valid_node m 0.
Definition end_ (m : FlatMap) : iterator := find_and_set_valid_node m (length (_buckets m)).
Definition deref_it (m : FlatMap) (it : iterator) : option (K * V) := b ← _buckets m !! fst it; bucket_elems b !! snd it.
Definition next_it (m : FlatMap) (it : iterator) : iterator :=
  match b ← _buckets m !! fst it; bucket_elems b !! S (snd it) with
  | None => find_and_set_valid_node m (S (fst it))
  | Some _ => (fst it, S (snd it))
  end.
(** The loop [for (it = begin(); it != end(); ++it)]. *)
Fixpoint iterate (fuel : nat) (m : FlatMap) (it : iterator) : option (list (K * V)) :=
  if bool_decide (it = end_ m) then Some []
  else match fuel with
       | O => None
       | S f => kv ← deref_it m it; l ← iterate f m (next_it m it); Some (kv :: l)
       end.

(** *** Searching *)
Fixpoint find_key (k : K) (l : list (K * V)) : option nat :=
  match l with [] => None | kv :: l' => if bool_decide (fst kv = k) then Some 0%nat else S <$> find_key k l' end.
Definition seek (m : FlatMap) (k : K) : option V :=
  b ← _buckets m !! index k (_nbucket m); i ← find_key k (bucket_elems b); snd <$> bucket_elems b !! i.
Definition seek_all (m : FlatMap) (k : K) : list V :=
  match _buckets m !! index k (_nbucket m) with
  | Some b => map snd (List.filter (fun kv => bool_decide (fst kv = k)) (bucket_elems b))
  | None => []
  end.

(** *** Removing *)
Definition back_nodes (l : list STP.addr) (p : STP.Pool) : STP.Pool := foldl (fun p a => STP.back a p) p l.
Definition clear (m : FlatMap) : FlatMap :=
  if _size m =? 0 then m
  else set_size 0 (set_pool (back_nodes (concat (map bucket_nodes (_buckets m))) (_pool m)) (set_buckets (map (fun _ => Invalid) (_buckets m)) m)).
Definition clear_and_reset_pool (m : FlatMap) : FlatMap := set_pool (STP.reset (_pool (clear m))) (clear m).
(** The removal of a node behind the first one. *)
Fixpoint unlink (k : K) (l : list (STP.addr * (K * V))) : option (STP.addr * V * list (STP.addr * (K * V))) :=
  match l with
  | [] => None
  | n :: l' => if bool_decide (fst (snd n) = k) then Some (fst n, snd (snd n), l')
               else r ← unlink k l'; Some (fst r, n :: snd r)
  end.
Definition erase (k : K) : M FlatMap (Z * option V) := fun m =>
  let i := index k (_nbucket m) in
  match _buckets m !! i with
  | None => Undef
  | Some Invalid => Ok (0, None) m
  | Some (Valid kv l) =>
      if bool_decide (fst kv = k) then
        let m1 := match l with
                  | [] => set_buckets (<[i := Invalid]> (_buckets m)) m
                  | (a, kv') :: l' => set_pool (STP.back a (_pool m)) (set_buckets (<[i := Valid kv' l']> (_buckets m)) m)
                  end in
        Ok (1, Some (snd kv)) (set_size (_size m - 1) m1)
      else match unlink k l with
           | Some (a, v, l') => Ok (1, Some v) (set_size (_size m - 1) (set_pool (STP.back a (_pool m)) (set_buckets (<[i := Valid kv l']> (_buckets m)) m)))
           | None => Ok (0, None) m
           end
  end.

(** *** Growing *)
Definition new_buckets_and_thumbnail (size new_nbucket : Z) : M FlatMap (option Z) := fun m =>
  match round_loop ROUND_FUEL size new_nbucket 0 (_load_factor m) with
  | None => NoFuel
  | Some n => if _nbucket m =? n then Ok None m else if Alloc n then Ok (Some n) m else Abort
  end.
(** An element is put into the new array: first, or right behind the first. *)
Definition rehash_one (n : Z) (r : list Bucket * STP.Pool) (kv : K * V) : list Bucket * STP.Pool :=
  let i := index (fst kv) n in
  match fst r !! i with
  | Some (Valid f l) => (<[i := Valid f ((fst (STP.get NITEM (snd r)), kv) :: l)]> (fst r), snd (STP.get NITEM (snd r)))
  | _ => (<[i := Valid kv []]> (fst r), snd r)
  end.
Definition resize (nbucket : Z) : M FlatMap bool := fun m =>
  bind (new_buckets_and_thumbnail (_size m) nbucket) (fun info m =>
  match info with
  | None => Ok false m
  | Some n =>
      let r := foldl (rehash_one n) (init_buckets n, _pool m) (elements m) in
      Ok true (set_size (_size m) (set_heap (fst r) n (clear (set_pool (snd r) m))))
  end) m.
Definition init (nbucket load_factor : Z) : M FlatMap Z := fun m =>
  if (nbucket <=? _nbucket m) || (load_factor <? 10) || (100 <? load_factor) || negb (_is_default_load_factor m) || negb (empty m) || negb (is_default_buckets m)
  then Ok 0 m
  else bind (resize nbucket) (fun ok m => Ok (if ok then 0 else -1) m) (init_load_factor load_factor m).

(** *** Inserting *)
(** A new node at the end of the chain. *)
Definition append (i : nat) (kv : K * V) (l : list (STP.addr * (K * V))) (k : K) : M FlatMap iterator := fun m =>
  let g := STP.get NITEM (_pool m) in
  Ok (i, S (length l)) (set_size (_size m + 1) (set_pool (snd g) (set_buckets (<[i := Valid kv (l ++ [(fst g, (k, default_value))])]> (_buckets m)) m))).
(** [operator[]]; it calls itself after a resize. *)
Fixpoint subscript (fuel : nat) (k : K) : M FlatMap iterator := fun m =>
  let i := index k (_nbucket m) in
  match _buckets m !! i with
  | None => Undef
  | Some Invalid => Ok (i, 0%nat) (set_size (_size m + 1) (set_buckets (<[i := Valid (k, default_value) []]> (_buckets m)) m))
  | Some (Valid kv l) =>
      match find_key k (kv :: map snd l) with
      | Some d => Ok (i, d) m
      | None =>
          if is_too_crowded (_size m) (_nbucket m) (_load_factor m) then
            bind (resize (_nbucket m + 1)) (fun ok m =>
              if ok then match fuel with O => NoFuel | S f => subscript f k m end else append i kv l k m) m
          else append i kv l k m
      end
  end.
(** An assignment through the reference. *)
Definition set_value (v : V) (d : nat) (b : Bucket) : Bucket :=
  match b, d with
  | Invalid, _ => Invalid
  | Valid kv l, O => Valid (fst kv, v) l
  | Valid kv l, S d' => Valid kv (alter (fun n => (fst n, (fst (snd n), v))) d' l)
  end.
Definition write (it : iterator) (v : V) (m : FlatMap) : FlatMap := set_buckets (alter (set_value v (snd it)) (fst it) (_buckets m)) m.
Definition insert (k : K) (v : V) : M FlatMap iterator := bind (subscript 1 k) (fun it => bind (modify (write it v)) (fun _ => ret it)).

(** *** Whole maps *)
Definition swap_buckets (a b : FlatMap) : list Bucket * option (list Bucket) :=
  match _heap a, _heap b with
  | Some _, Some l => (_default_buckets a, Some l)
  | _, o => (_default_buckets b, o)
  end.
Definition swap (a b : FlatMap) : FlatMap * FlatMap :=
  (mkFM (_size b) (_nbucket b) (fst (swap_buckets a b)) (snd (swap_buckets a b)) (_load_factor b) (_is_default_load_factor b) (_pool b),
   mkFM (_size a) (_nbucket a) (fst (swap_buckets b a)) (snd (swap_buckets b a)) (_load_factor a) (_is_default_load_factor a) (_pool a)).

(** A valid bucket of the other map is copied over the own one. *)
Definition copy_bucket (r : list Bucket * STP.Pool) (ob : Bucket * Bucket) : list Bucket * STP.Pool :=
  match snd ob with
  | Invalid => (fst r ++ [fst ob], snd r)
  | Valid kv l =>
      let c := foldl (fun c n => (fst c ++ [(fst (STP.get NITEM (snd c)), snd n)], snd (STP.get NITEM (snd c)))) ([], snd r) l in
      (fst r ++ [Valid kv (fst c)], snd c)
  end.
Fixpoint insert_all (l : list (K * V)) : M FlatMap unit :=
  match l with [] => ret tt | kv :: l' => bind (insert (fst kv) (snd kv)) (fun _ => insert_all l') end.
(** [operator=] from another map. *)
Definition assign (rhs : FlatMap) : M FlatMap unit := fun m =>
  let m := clear m in
  if empty rhs then Ok tt m
  else
    let m := init_load_factor (_load_factor rhs) m in
    bind (if is_too_crowded (_size rhs) (_nbucket m) (_load_factor m)
          then bind (new_buckets_and_thumbnail (_size rhs) (_nbucket rhs)) (fun info =>
                 match info with Some n => modify (set_heap (init_buckets n) n) | None => ret tt end)
          else ret tt) (fun _ m =>
      if _nbucket m =? _nbucket rhs then
        let c := foldl copy_bucket ([], _pool m) (zip (_buckets m) (_buckets rhs)) in
        Ok tt (set_size (_size rhs) (set_pool (snd c) (set_buckets (fst c) m)))
      else insert_all (elements rhs) m) m.

(** *** Saved positions *)
Record PositionHint := mkHint { h_nbucket : Z; h_offset : nat; at_entry : bool; h_key : option K (* key_type() at the end *) }.
Definition save_iterator (m : FlatMap) (it : iterator) : PositionHint :=
  if bool_decide (it = end_ m) then mkHint (_nbucket m) (fst it) false None
  else mkHint (_nbucket m) (fst it) (snd it =? 0)%nat (fst <$> deref_it m it).
Definition restore_iterator (m : FlatMap) (hint : PositionHint) : iterator :=
  if negb (h_nbucket hint =? _nbucket m) then begin_ m
  else if _nbucket m <=? Z.of_nat (h_offset hint) then end_ m
  else if at_entry hint then find_and_set_valid_node m (h_offset hint)
  else match _buckets m !! h_offset hint, h_key hint with
       | Some (Valid kv l), Some k =>
           match find_key k (kv :: map snd l) with
           | Some d => (h_offset hint, d)
           | None => find_and_set_valid_node m (h_offset hint)
           end
       | _, _ => find_and_set_valid_node m (S (h_offset hint))
       end.
(** The longest chain. *)
Definition longest_length (m : FlatMap) : nat := foldr (fun b n => Nat.max (length (bucket_elems b)) n) 0%nat (_buckets m).

End Model.
#[global] Arguments Bucket : clear implicits.
#[global] Arguments FlatMap : clear implicits.

(** ** Rounding to a power of two *)

Lemma smear_bits w x y : 0 <= w -> (forall n, 0 <= n -> Z.testbit y n = true <-> exists j, 0 <= j < w /\ Z.testbit x (n + j) = true) ->
  forall n, 0 <= n -> Z.testbit (smear w y) n = true <-> exists j, 0 <= j < 2 * w /\ Z.testbit x (n + j) = true.
Proof.
  intros Hw Hy n Hn. unfold smear. rewrite Z.lor_spec, Z.shiftr_spec by lia. rewrite orb_true_iff, (Hy n), (Hy (n + w)) by lia. split.
  - intros [(j & Hj & Hb)|(j & Hj & Hb)]; [exists j; split; [lia|done]|]. exists (w + j). split; [lia|]. by rewrite Z.add_assoc.
  - intros (j & Hj & Hb). destruct (Z.ltb_spec j w) as [|Hge]; [left; exists j; split; [lia|done]|]. right. exists (j - w). split; [lia|]. by replace (n + w + (j - w)) with (n + j) by lia.
Qed.
(** The loop-free computation is the least power of two that is large enough. *)
Lemma find_power2_up b : 0 < b <= 2 ^ 63 -> find_power2 b = 2 ^ Z.log2_up b.
Proof.
  intros Hb. unfold find_power2. rewrite (u64_small (b - 1)) by (unfold is_u64; lia). set (x := b - 1). set (y := smear 32 _).
  assert (forall n, 0 <= n -> Z.testbit y n = true <-> exists j, 0 <= j < 64 /\ Z.testbit x (n + j) = true) as Hy.
  { unfold y. apply (smear_bits 32 x); [lia|]. apply (smear_bits 16 x); [lia|]. apply (smear_bits 8 x); [lia|]. apply (smear_bits 4 x); [lia|]. apply (smear_bits 2 x); [lia|]. apply (smear_bits 1 x); [lia|].
    intros n Hn. split; [intros H; exists 0; split; [lia|by rewrite Z.add_0_r]|].
    intros (j & Hj & H). by replace (n + j) with n in H by lia. }
  destruct (Z.eq_dec x 0) as [Hx|Hx].
  - assert (b = 1) as -> by (unfold x in Hx; lia). assert (y = 0) as ->; [|done]. apply Z.bits_inj'. intros n Hn. rewrite Z.bits_0. destruct (Z.testbit y n) eqn:E; [|done].
    apply Hy in E as (j & _ & E); [|done]. by rewrite Hx, Z.bits_0 in E.
  - assert (0 < x < 2 ^ 63) as Hx' by (unfold x in *; lia). assert (Z.log2 x < 63) as HL by (apply Z.log2_lt_pow2; lia). pose proof (Z.log2_nonneg x) as HL0.
    assert (y = Z.ones (Z.log2 x + 1)) as ->.
    { apply Z.bits_inj'. intros n Hn. apply eq_true_iff_eq. rewrite Hy by done. rewrite Z.testbit_ones_nonneg by lia. rewrite Z.ltb_lt. split.
      - intros (j & Hj & E). destruct (Z.ltb_spec n (Z.log2 x + 1)); [done|]. rewrite Z.bits_above_log2 in E by lia. done.
      - intros Hlt. exists (Z.log2 x - n). split; [lia|]. replace (n + (Z.log2 x - n)) with (Z.log2 x) by lia. apply Z.bit_log2. lia. }
    rewrite Z.ones_equiv. replace (Z.pred (2 ^ (Z.log2 x + 1)) + 1) with (2 ^ (Z.log2 x + 1)) by lia.
    unfold Z.log2_up. destruct (Z.compare_spec 1 b); [unfold x in *; lia| |unfold x in *; lia]. change (Z.pred b) with (b - 1). fold x. replace (Z.succ (Z.log2 x)) with (Z.log2 x + 1) by lia.
    apply u64_small. split; [apply Z.pow_nonneg; lia|]. apply Z.pow_lt_mono_r; lia.
Qed.
(** A number of buckets: a power of two that is neither too small nor too large. *)
Definition pow2 (n : Z) : Prop := exists e, 3 <= e <= 57 /\ n = 2 ^ e.
Lemma pow2_range n : pow2 n -> 8 <= n <= 2 ^ 57.
Proof. intros (e & He & ->). split; [change 8 with (2 ^ 3)|]; apply Z.pow_le_mono_r; lia. Qed.
Lemma round_pow2 n : 0 <= n <= 2 ^ 57 -> pow2 (flatmap_round n) /\ n <= flatmap_round n.
Proof.
  intros Hn. unfold flatmap_round. destruct (Z.leb_spec n 8); [split; [by exists 3|done]|]. rewrite find_power2_up by lia.
  destruct (Z.log2_up_spec n ltac:(lia)) as [H1 H2]. split; [|done]. exists (Z.log2_up n). split; [|done]. split; [|apply Z.log2_up_le_pow2; lia].
  apply Z.lt_pred_le. apply Z.log2_up_lt_pow2; lia.
Qed.
Lemma round_next n : pow2 n -> n < 2 ^ 57 -> flatmap_round (n + 1) = 2 * n.
Proof.
  intros Hp Hlt. pose proof (pow2_range n Hp). destruct Hp as (e & He & ->). unfold flatmap_round. destruct (Z.leb_spec (2 ^ e + 1) 8); [lia|]. rewrite find_power2_up by lia.
  change (2 ^ e + 1) with (Z.succ (2 ^ e)). rewrite Z.log2_up_succ_pow2 by lia. by rewrite Z.pow_succ_r by lia.
Qed.
Lemma mod_index h n : pow2 n -> 0 <= h -> 0 <= flatmap_mod h n < n.
Proof.
  intros (e & He & ->) Hh. unfold flatmap_mod. replace (2 ^ e - 1) with (Z.ones e) by (rewrite Z.ones_equiv; lia). rewrite Z.land_ones by lia. apply Z.mod_pos_bound. lia.
Qed.
Definition is_lf (lf : Z) : Prop := 10 <= lf <= 100.
Definition small (size : Z) : Prop := 0 <= size < 2 ^ 50.
Lemma crowded_spec size n lf : small size -> pow2 n -> is_lf lf -> is_too_crowded size n lf = (n * lf <=? size * 100).
Proof. unfold small, is_lf. intros Hs Hn%pow2_range Hl. unfold is_too_crowded. rewrite !u64_small; [done|unfold is_u64; nia..]. Qed.

(** The loop ends, with a power of two that is large enough. *)
Lemma round_loop_pow2 d fuel size n lf : small size -> is_lf lf -> pow2 n -> n * 2 ^ Z.of_nat d = 2 ^ 57 -> (d <= fuel)%nat -> is_too_crowded size n lf = true ->
  exists n', round_loop fuel size n 1 lf = Some n' /\ pow2 n' /\ is_too_crowded size n' lf = false /\ n < n'.
Proof.
  intros Hs Hl. revert fuel n. induction d as [|d IH]; intros fuel n Hn Hd Hf Hc.
  - exfalso. rewrite crowded_spec in Hc by done. apply Z.leb_le in Hc. unfold small, is_lf in *. lia.
  - destruct fuel as [|fuel]; [lia|]. cbn [round_loop]. rewrite Nat2Z.inj_succ, Z.pow_succ_r in Hd by lia. pose proof (pow2_range n Hn). assert (n < 2 ^ 57) as Hlt by nia.
    rewrite u64_small by (unfold is_u64; lia). rewrite round_next by done. assert (pow2 (2 * n)) as Hn2 by (destruct Hn as (e & He & ->); exists (Z.succ e); rewrite Z.pow_succ_r by lia; split; [|done]; split; [lia|];
      apply Z.le_succ_l, Z.pow_lt_mono_r_iff with 2; lia).
    destruct (is_too_crowded size (2 * n) lf) eqn:Ec; [|exists (2 * n); split_and!; try done; lia]. destruct (IH fuel (2 * n) Hn2 ltac:(lia) ltac:(lia) Ec) as (n' & E1 & E2 & E3 & E4). exists n'. split_and!; try done. lia.
Qed.
Lemma round_loop_ok size n lf : small size -> is_lf lf -> 0 <= n <= 2 ^ 57 -> exists n', round_loop ROUND_FUEL size n 0 lf = Some n' /\ pow2 n' /\ is_too_crowded size n' lf = false /\ n <= n'.
Proof.
  intros Hs Hl Hn. unfold ROUND_FUEL. change 64%nat with (S 63). cbn [round_loop]. rewrite Z.add_0_r, u64_small by (unfold is_u64; lia). destruct (round_pow2 n Hn) as [Hp Hle].
  destruct (is_too_crowded size (flatmap_round n) lf) eqn:Ec; [|by exists (flatmap_round n)]. pose proof Hp as (e & He & E).
  destruct (round_loop_pow2 (Z.to_nat (57 - e)) 63 size (flatmap_round n) lf Hs Hl Hp) as (n' & E1 & E2 & E3 & E4); [|lia|done|exists n'; split_and!; try done; lia].
  rewrite E, Z2Nat.id by lia. rewrite <- Z.pow_add_r by lia. f_equal. lia.
Qed.


(** ** Chains as association lists *)

Section Proofs.
Context {K V : Type} `{Countable K}.
Variable hashfn : K -> Z.
Variable default_value : V.
Variable NITEM : nat.
Variable Alloc : Z -> bool.
Hypothesis NITEM_pos : (0 < NITEM)%nat.
Implicit Types (k : K) (v : V) (kv : K * V) (b : Bucket K V) (bs : list (Bucket K V)) (m : FlatMap K V).
Local Abbreviation idx := (index hashfn).

Definition keys (l : list (K * V)) : list K := map fst l.
Definition llookup (k : K) (l : list (K * V)) : option V := i ← find_key k l; snd <$> l !! i.
Lemma llookup_cons k kv l : llookup k (kv :: l) = if bool_decide (fst kv = k) then Some (snd kv) else llookup k l.
Proof. unfold llookup. cbn. destruct (bool_decide (fst kv = k)); [done|]. by destruct (find_key k l). Qed.
Lemma llookup_Some k v l : NoDup (keys l) -> llookup k l = Some v <-> (k, v) ∈ l.
Proof.
  induction l as [|[k0 v0] l IH]; intros Hn; [split; [done|by intros ?%not_elem_of_nil]|]. cbn in Hn. apply NoDup_cons in Hn as [Hk Hn]. rewrite llookup_cons, elem_of_cons. cbn.
  destruct (bool_decide_reflect (k0 = k)) as [->|Hne]; [|rewrite IH by done; naive_solver]. split; [naive_solver|]. intros [E|Hin]; [naive_solver|]. exfalso. apply Hk. apply list_elem_of_fmap. by exists (k, v).
Qed.
Lemma llookup_perm k l l' : NoDup (keys l) -> l ≡ₚ l' -> llookup k l = llookup k l'.
Proof.
  intros Hn E. assert (NoDup (keys l')) as Hn' by (unfold keys; by rewrite <- E). apply option_eq. intros v. by rewrite !llookup_Some, E.
Qed.
Lemma find_key_spec k l : match find_key k l with Some i => exists v, l !! i = Some (k, v) | None => k ∉ keys l end.
Proof.
  induction l as [|[k0 v0] l IH]; cbn; [by apply not_elem_of_nil|]. destruct (bool_decide_reflect (k0 = k)) as [->|Hne]; [by exists v0|].
  destruct (find_key k l) as [i|]; [done|]. cbn. apply not_elem_of_cons. by split.
Qed.
Lemma llookup_None k l : llookup k l = None <-> find_key k l = None.
Proof. unfold llookup. pose proof (find_key_spec k l) as Hs. destruct (find_key k l) as [i|]; [|done]. destruct Hs as [v E]. cbn. by rewrite E. Qed.

(** ** Arrays of buckets *)

Definition belems (bs : list (Bucket K V)) : list (K * V) := concat (map bucket_elems bs).
Definition bnodes (bs : list (Bucket K V)) : list STP.addr := concat (map bucket_nodes bs).
Record bs_ok (n : Z) (bs : list (Bucket K V)) : Prop := {
  b_len : length bs = Z.to_nat n;
  b_idx : forall i b, bs !! i = Some b -> forall kv, kv ∈ bucket_elems b -> idx (fst kv) n = i;
  b_keys : forall i b, bs !! i = Some b -> NoDup (keys (bucket_elems b)) }.
Lemma idx_lt k n : pow2 n -> (idx k n < Z.to_nat n)%nat.
Proof. intros Hn. unfold index. pose proof (mod_index (u64 (hashfn k)) n Hn ltac:(apply u64_range)). lia. Qed.
Lemma bs_ok_insert n bs i b : bs_ok n bs -> (forall kv, kv ∈ bucket_elems b -> idx (fst kv) n = i) -> NoDup (keys (bucket_elems b)) -> bs_ok n (<[i := b]> bs).
Proof.
  intros [H1 H2 H3] Hi Hn. split; [by rewrite length_insert|..]; intros j c Hj; apply list_lookup_insert_Some in Hj as [(<- & -> & _)|[_ Hj]]; eauto.
Qed.
Lemma belems_elem bs kv : kv ∈ belems bs <-> exists i b, bs !! i = Some b /\ kv ∈ bucket_elems b.
Proof.
  unfold belems. rewrite list_elem_of_In, in_concat. split.
  - intros (l & Hl & Hin). apply in_map_iff in Hl as (b & <- & Hb). apply list_elem_of_In, list_elem_of_lookup in Hb as [i Hb]. exists i, b. split; [done|]. by apply list_elem_of_In.
  - intros (i & b & Hb & Hin). exists (bucket_elems b). split; [|by apply list_elem_of_In]. apply in_map_iff. exists b. split; [done|]. apply list_elem_of_In. by eapply list_elem_of_lookup_2.
Qed.
(** The keys of different buckets differ. *)
Lemma belems_NoDup n bs : bs_ok n bs -> NoDup (keys (belems bs)).
Proof.
  intros [_ H2 H3]. assert (exists o, forall i b, bs !! i = Some b -> forall kv, kv ∈ bucket_elems b -> idx (fst kv) n = (o + i)%nat) as [o Ho] by (by exists 0%nat). clear H2. revert o Ho.
  induction bs as [|b bs IH]; intros o Ho; [constructor|]. unfold keys, belems. cbn [map concat]. rewrite map_app. apply NoDup_app. split_and!.
  - by apply (H3 0%nat b).
  - intros k Hk Hk'. apply list_elem_of_fmap in Hk as (kv & -> & Hkv). apply list_elem_of_fmap in Hk' as (kv' & E & Hkv'). apply belems_elem in Hkv' as (i & c & Hc & Hkv').
    pose proof (Ho 0%nat b eq_refl kv Hkv) as E1. pose proof (Ho (S i) c Hc kv' Hkv') as E2. rewrite E in E1. lia.
  - apply (IH (fun i c Hc => H3 (S i) c Hc) (S o)). intros i c Hc kv Hkv. rewrite (Ho (S i) c Hc kv Hkv). lia.
Qed.
Lemma init_buckets_ok n : bs_ok n (init_buckets n) /\ belems (init_buckets n) = [] /\ bnodes (init_buckets n) = [].
Proof.
  unfold init_buckets. split_and!; [|induction (Z.to_nat n); [done|]; done|induction (Z.to_nat n); [done|]; done].
  split; [apply length_replicate|..]; intros i b [-> _]%lookup_replicate; [by intros ? ?%not_elem_of_nil|constructor].
Qed.

(** ** The invariant *)

Record wf (m : FlatMap K V) : Prop := {
  w_n : pow2 (_nbucket m);
  w_bs : bs_ok (_nbucket m) (_buckets m);
  w_def : length (_default_buckets m) = 16%nat /\ match _heap m with None => _nbucket m = 16 | Some _ => Forall (eq Invalid) (_default_buckets m) end;
  w_size : _size m = Z.of_nat (length (elements m));
  w_lf : is_lf (_load_factor m);
  w_pool : STP.pool_ok (_pool m) (bnodes (_buckets m)) }.

Lemma seek_llookup m k : wf m -> seek hashfn m k = llookup k (elements m).
Proof.
  intros Hw. pose proof (belems_NoDup _ _ (w_bs _ Hw)) as Hn. destruct (w_bs _ Hw) as [H1 H2 H3]. pose proof (idx_lt k _ (w_n _ Hw)) as Hlt. unfold seek.
  destruct (lookup_lt_is_Some_2 (_buckets m) (idx k (_nbucket m)) ltac:(by rewrite H1)) as [b Hb]. rewrite Hb. cbn [mbind option_bind].
  change (llookup k (bucket_elems b) = llookup k (elements m)). apply option_eq. intros v. rewrite (llookup_Some k v (elements m)) by done. rewrite llookup_Some by (by eapply H3).
  unfold elements. fold (belems (_buckets m)). rewrite belems_elem. split; [by exists (idx k (_nbucket m)), b|]. intros (i & c & Hc & Hin). pose proof (H2 i c Hc (k, v) Hin) as E. cbn in E. subst i. congruence.
Qed.
Lemma wf_nodup m : wf m -> NoDup (keys (elements m)).
Proof. intros Hw. by eapply belems_NoDup, w_bs. Qed.

(** Buckets, pool and size replaced. *)
Definition put (n : Z) (p : STP.Pool) (bs : list (Bucket K V)) (m : FlatMap K V) : FlatMap K V := set_size n (set_pool p (set_buckets bs m)).
Lemma put_buckets n p bs m : _buckets (put n p bs m) = bs.
Proof. unfold put, set_buckets, _buckets. by destruct (_heap m). Qed.
Lemma put_fields n p bs m : _nbucket (put n p bs m) = _nbucket m /\ _load_factor (put n p bs m) = _load_factor m /\ _is_default_load_factor (put n p bs m) = _is_default_load_factor m /\
  _pool (put n p bs m) = p /\ _size (put n p bs m) = n /\ is_default_buckets (put n p bs m) = is_default_buckets m.
Proof. unfold put, set_buckets, is_default_buckets. by destruct (_heap m). Qed.
Lemma put_wf n p bs m : wf m -> bs_ok (_nbucket m) bs -> n = Z.of_nat (length (belems bs)) -> STP.pool_ok p (bnodes bs) -> wf (put n p bs m).
Proof.
  intros [H1 H2 H3 H4 H5 H6] Hb Hn Hp. destruct (put_fields n p bs m) as (E1 & E2 & _ & E4 & E5 & _). split; rewrite ?put_buckets, ?E1, ?E2, ?E4, ?E5; try done.
  - pose proof (b_len _ _ Hb) as Hl. unfold put, set_buckets. destruct (_heap m) eqn:Eh; cbn; rewrite ?Eh; [done|]. destruct H3 as [H3 H3']. split; [|done]. by rewrite Hl, H3'.
  - unfold elements. by rewrite put_buckets.
Qed.
Lemma put_elements n p bs m : elements (put n p bs m) = belems bs.
Proof. unfold elements. by rewrite put_buckets. Qed.

(** One bucket replaced. *)
Lemma bucket_put m i b b' p n : wf m -> _buckets m !! i = Some b -> (forall kv, kv ∈ bucket_elems b' -> idx (fst kv) (_nbucket m) = i) -> NoDup (keys (bucket_elems b')) ->
  (forall U, STP.pool_ok (_pool m) (bucket_nodes b ++ U) -> STP.pool_ok p (bucket_nodes b' ++ U)) ->
  n = _size m + Z.of_nat (length (bucket_elems b')) - Z.of_nat (length (bucket_elems b)) ->
  wf (put n p (<[i := b']> (_buckets m)) m) /\
  exists R, elements m ≡ₚ bucket_elems b ++ R /\ elements (put n p (<[i := b']> (_buckets m)) m) ≡ₚ bucket_elems b' ++ R.
Proof.
  intros Hw Hb Hi Hk Hp Hn. destruct (concat_insert bucket_elems (_buckets m) i b b' Hb) as (R & E1 & E2). destruct (concat_insert bucket_nodes (_buckets m) i b b' Hb) as (U & F1 & F2). split.
  - apply put_wf; try done; [by apply bs_ok_insert; [apply Hw|..]|..].
    + rewrite Hn, (w_size _ Hw). unfold elements, belems. rewrite (Permutation_length E1), (Permutation_length E2), !length_app. lia.
    + eapply STP.pool_perm; [symmetry; exact F2|]. apply Hp. eapply STP.pool_perm; [exact F1|]. apply Hw.
  - exists R. split; [done|]. by rewrite put_elements.
Qed.
Lemma bucket_at m k : wf m -> exists b, _buckets m !! idx k (_nbucket m) = Some b /\ seek hashfn m k = llookup k (bucket_elems b) /\
  (forall kv, kv ∈ bucket_elems b -> idx (fst kv) (_nbucket m) = idx k (_nbucket m)) /\ NoDup (keys (bucket_elems b)).
Proof.
  intros Hw. destruct (w_bs _ Hw) as [H1 H2 H3]. destruct (lookup_lt_is_Some_2 (_buckets m) (idx k (_nbucket m))) as [b Hb]; [rewrite H1; apply idx_lt, Hw|]. exists b. unfold seek. rewrite Hb. split_and!; try done; eauto.
Qed.

(** *** Removing *)
Lemma back_nodes_ok l p used : STP.pool_ok p (l ++ used) -> STP.pool_ok (back_nodes l p) used.
Proof. revert p. induction l as [|a l IH]; intros p Hp; [done|]. apply IH. by apply STP.back_ok. Qed.
Lemma clear_put m : _size m <> 0 -> clear m = put 0 (back_nodes (bnodes (_buckets m)) (_pool m)) (map (fun _ => Invalid) (_buckets m)) m.
Proof. intros H0. unfold clear. by apply Z.eqb_neq in H0 as ->. Qed.
Lemma invalid_ok n bs : length bs = Z.to_nat n -> let bs' := map (fun _ => Invalid) bs in bs_ok n bs' /\ belems bs' = [] /\ bnodes bs' = [].
Proof.
  intros Hl. cbn. assert (map (fun _ => @Invalid K V) bs = init_buckets n) as ->; [|apply init_buckets_ok]. unfold init_buckets. rewrite <- Hl. clear Hl. induction bs as [|b bs IH]; [done|]. cbn. by rewrite IH.
Qed.
Lemma clear_ok m : wf m -> wf (clear m) /\ elements (clear m) = [] /\ _nbucket (clear m) = _nbucket m /\ _load_factor (clear m) = _load_factor m /\
  _is_default_load_factor (clear m) = _is_default_load_factor m /\ _size (clear m) = 0.
Proof.
  intros Hw. destruct (Z.eq_dec (_size m) 0) as [E|E].
  - unfold clear. rewrite E. cbn. split_and!; try done. pose proof (w_size _ Hw) as Hs. rewrite E in Hs. by destruct (elements m).
  - rewrite clear_put by done. destruct (put_fields 0 (back_nodes (bnodes (_buckets m)) (_pool m)) (map (fun _ => Invalid) (_buckets m)) m) as (-> & -> & -> & _ & -> & _). rewrite put_elements.
    destruct (invalid_ok (_nbucket m) (_buckets m) (b_len _ _ (w_bs _ Hw))) as (B1 & B2 & B3). split_and!; try done. apply put_wf; try done; [by rewrite B2|]. rewrite B3. apply back_nodes_ok. rewrite app_nil_r. apply Hw.
Qed.
Lemma unlink_spec k l : match unlink k l with
  | Some (a, v, l') => l ≡ₚ (a, (k, v)) :: l'
  | None => k ∉ keys (map snd l) end.
Proof.
  induction l as [|[a [k0 v0]] l IH]; [apply not_elem_of_nil|]. cbn. destruct (bool_decide_reflect (k0 = k)) as [->|Hne]; [done|].
  destruct (unlink k l) as [[[a' v'] l']|]; cbn; [by rewrite IH, Permutation_swap|]. apply not_elem_of_cons. by split.
Qed.
Lemma erase_ok m k : wf m -> exists m', erase hashfn k m = Ok (match seek hashfn m k with Some v => (1, Some v) | None => (0, None) end) m' /\ wf m' /\
  match seek hashfn m k with Some v => elements m ≡ₚ (k, v) :: elements m' | None => m' = m end.
Proof.
  intros Hw. destruct (bucket_at m k Hw) as (b & Hb & Es & Hi & Hk). unfold erase. rewrite Hb, Es. destruct b as [|[k0 v0] l]; [by exists m|]. cbn [bucket_elems] in *. rewrite llookup_cons. cbn [fst snd].
  destruct (bool_decide_reflect (k0 = k)) as [->|Hne].
  - set (b' := match l with [] => Invalid | (a, kv') :: l' => Valid kv' l' end). set (p := match l with [] => _pool m | (a, _) :: _ => STP.back a (_pool m) end).
    assert (bucket_elems b' = map snd l) as Eb by (unfold b'; by destruct l as [|[a kv'] l']).
    destruct (bucket_put m _ _ b' p (_size m - 1) Hw Hb) as [Hw' (R & E1 & E2)].
    + intros kv Hkv. apply Hi. right. by rewrite <- Eb.
    + rewrite Eb. cbn in Hk. by apply NoDup_cons in Hk as [_ ?].
    + unfold b', p. intros U. destruct l as [|[a kv'] l']; cbn; [done|]. apply STP.back_ok.
    + rewrite Eb. cbn. lia.
    + exists (put (_size m - 1) p (<[idx k (_nbucket m) := b']> (_buckets m)) m). split_and!; [unfold put, b', p; destruct l as [|[a kv'] l']; [|done]|done|rewrite E1, E2, Eb; done].
      f_equal. unfold set_size, set_pool, set_buckets. by destruct (_heap m).
  - pose proof (unlink_spec k l) as Hu. destruct (unlink k l) as [[[a v] l']|].
    + destruct (bucket_put m _ _ (Valid (k0, v0) l') (STP.back a (_pool m)) (_size m - 1) Hw Hb) as [Hw' (R & E1 & E2)].
      * intros kv Hkv. apply Hi. cbn in Hkv |- *. apply elem_of_cons in Hkv as [->|Hkv]; [left|right]. rewrite Hu. by right.
      * cbn in Hk |- *. unfold keys in Hk. rewrite Hu in Hk. cbn in Hk. apply NoDup_cons in Hk as [Hk1 Hk2]. apply NoDup_cons in Hk2 as [_ Hk2]. apply NoDup_cons. split; [|done]. intros Hin. apply Hk1. by right.
      * cbn. intros U HU. apply STP.back_ok. eapply STP.pool_perm; [|exact HU]. by rewrite Hu.
      * cbn. rewrite !length_map, (Permutation_length Hu). cbn. lia.
      * assert (llookup k (map snd l) = Some v) as ->.
        { apply llookup_Some; [cbn in Hk; by apply NoDup_cons in Hk as [_ ?]|]. rewrite Hu. by left. }
        exists (put (_size m - 1) (STP.back a (_pool m)) (<[idx k (_nbucket m) := Valid (k0, v0) l']> (_buckets m)) m). split_and!; [done|done|]. rewrite E1, E2. cbn. rewrite Hu. cbn. apply Permutation_swap.
    + assert (llookup k (map snd l) = None) as ->; [|by exists m]. destruct (llookup k (map snd l)) as [v|] eqn:E; [|done]. exfalso. apply Hu.
      apply llookup_Some in E; [|cbn in Hk; by apply NoDup_cons in Hk as [_ ?]]. apply list_elem_of_fmap. by exists (k, v).
Qed.

(** *** Growing *)
Lemma rehash_ok n es bs p used : pow2 n -> bs_ok n bs -> STP.pool_ok p (used ++ bnodes bs) -> NoDup (keys (es ++ belems bs)) ->
  let r := foldl (rehash_one hashfn NITEM n) (bs, p) es in
  bs_ok n (fst r) /\ belems (fst r) ≡ₚ es ++ belems bs /\ STP.pool_ok (snd r) (used ++ bnodes (fst r)).
Proof.
  intros Hn. revert bs p. induction es as [|[k v] es IH]; intros bs p Hb Hp Hk; [done|]. cbn [foldl app]. cbn in Hk. apply NoDup_cons in Hk as [Hk1 Hk2].
  destruct (lookup_lt_is_Some_2 bs (idx k n)) as [b Eb]; [rewrite (b_len _ _ Hb); by apply idx_lt|].
  set (g := STP.get NITEM p). set (b' := match b with Valid f l => Valid f ((fst g, (k, v)) :: l) | Invalid => Valid (k, v) [] end). set (p' := match b with Valid _ _ => snd g | Invalid => p end).
  assert (rehash_one hashfn NITEM n (bs, p) (k, v) = (<[idx k n := b']> bs, p')) as -> by (unfold rehash_one; cbn [fst snd]; rewrite Eb; by destruct b).
  destruct (concat_insert bucket_elems bs (idx k n) b b' Eb) as (R & E1 & E2). destruct (concat_insert bucket_nodes bs (idx k n) b b' Eb) as (U & F1 & F2).
  assert (bucket_elems b' ≡ₚ (k, v) :: bucket_elems b) as Eb' by (unfold b'; destruct b; cbn; [done|apply Permutation_swap]).
  assert (belems (<[idx k n := b']> bs) ≡ₚ (k, v) :: belems bs) as EB by (unfold belems; by rewrite E1, E2, Eb').
  assert (k ∉ keys (bucket_elems b)) as Hkb.
  { intros Hin. apply Hk1. unfold keys. rewrite map_app. apply elem_of_app. right. apply list_elem_of_fmap in Hin as (kv & -> & Hin). apply list_elem_of_fmap. exists kv. split; [done|]. apply belems_elem. eauto. }
  destruct (IH (<[idx k n := b']> bs) p') as (I1 & I2 & I3).
  - apply bs_ok_insert; [done|..].
    + intros kv. rewrite Eb', elem_of_cons. intros [->|Hkv]; [done|]. by eapply (b_idx _ _ Hb).
    + unfold keys. rewrite Eb'. cbn. apply NoDup_cons. split; [done|]. by eapply (b_keys _ _ Hb).
  - unfold p', b' in *. destruct b as [|f l]; cbn in *.
    + eapply STP.pool_perm; [|exact Hp]. unfold bnodes. by rewrite F1, F2.
    + eapply STP.pool_perm; [|apply (STP.get_ok NITEM p _ NITEM_pos Hp)]. unfold bnodes. rewrite F1, F2. cbn. apply Permutation_middle.
  - unfold keys. rewrite EB. rewrite <- Permutation_middle. cbn. by apply NoDup_cons.
  - split_and!; try done. rewrite I2, EB. by rewrite Permutation_middle.
Qed.

Definition aborts : Prop := exists n, Alloc n = false.
Lemma new_buckets_ok m size n : is_lf (_load_factor m) -> small size -> 0 <= n <= 2 ^ 57 ->
  match new_buckets_and_thumbnail Alloc size n m with
  | Ok None m' => m' = m
  | Ok (Some n') m' => m' = m /\ pow2 n' /\ is_too_crowded size n' (_load_factor m) = false
  | Abort => aborts
  | _ => False
  end.
Proof.
  intros Hl Hs Hn. unfold new_buckets_and_thumbnail. destruct (round_loop_ok size n (_load_factor m) Hs Hl Hn) as (n' & -> & Hp & Hc & _). destruct (_nbucket m =? n'); [done|]. destruct (Alloc n') eqn:E; [done|by exists n'].
Qed.
Lemma all_invalid bs : belems bs = [] -> Forall (eq Invalid) bs /\ bnodes bs = [].
Proof.
  induction bs as [|[|kv l] bs IH]; cbn; [by split; [constructor|]| |done]. intros E. destruct (IH E) as [I1 I2]. split; [by constructor|]. done.
Qed.
(** The old array after its elements have been copied. *)
Lemma clear_old m p new : wf m -> STP.pool_ok p (bnodes (_buckets m) ++ new) -> let c := clear (set_pool p m) in
  STP.pool_ok (_pool c) new /\ length (_default_buckets c) = 16%nat /\ Forall (eq Invalid) (_default_buckets c) /\ _load_factor c = _load_factor m /\ _is_default_load_factor c = _is_default_load_factor m.
Proof.
  intros Hw Hp. cbn. destruct (w_def _ Hw) as [Hd Hh]. unfold clear. cbn [set_pool _size]. destruct (Z.eqb_spec (_size m) 0) as [E|E].
  - assert (belems (_buckets m) = []) as Hb by (pose proof (w_size _ Hw) as Hs; rewrite E in Hs; unfold elements in Hs; fold (belems (_buckets m)) in Hs; by destruct (belems (_buckets m))).
    destruct (all_invalid _ Hb) as [H1 H2]. rewrite H2 in Hp. split_and!; try done. unfold _buckets in H1. cbn. by destruct (_heap m).
  - change (_buckets (set_pool p m)) with (_buckets m). change (_pool (set_pool p m)) with p. unfold set_buckets. cbn [set_pool _heap].
    destruct (_heap m) as [l|] eqn:Eh; cbn; [by split_and!; [apply back_nodes_ok|..]|]. assert (_buckets m = _default_buckets m) as Eb by (unfold _buckets; by rewrite Eh).
    rewrite Eb in *. split_and!; [by apply back_nodes_ok|by rewrite length_map| |done..]. clear. induction (_default_buckets m); constructor; done.
Qed.
Lemma resize_ok m n : wf m -> small (_size m) -> 0 <= n <= 2 ^ 57 ->
  match resize hashfn NITEM Alloc n m with
  | Ok true m' => wf m' /\ elements m' ≡ₚ elements m /\ is_too_crowded (_size m') (_nbucket m') (_load_factor m') = false /\ _size m' = _size m
  | Ok false m' => m' = m
  | Abort => aborts
  | _ => False
  end.
Proof.
  intros Hw Hs Hn. unfold resize, bind. pose proof (new_buckets_ok m (_size m) n (w_lf _ Hw) Hs Hn) as H1. destruct (new_buckets_and_thumbnail _ _ _ _) as [[n'|] m'| | |]; try done. destruct H1 as (-> & Hp & Hc).
  destruct (init_buckets_ok n') as (B1 & B2 & B3). destruct (rehash_ok n' (elements m) (init_buckets n') (_pool m) (bnodes (_buckets m)) Hp B1) as (I1 & I2 & I3).
  { rewrite B3, app_nil_r. apply Hw. }
  { rewrite B2, app_nil_r. by apply wf_nodup. }
  set (r := foldl _ _ _) in *. rewrite B2, app_nil_r in I2. destruct (clear_old m (snd r) _ Hw I3) as (C1 & C2 & C3 & C4 & C5). unfold set_heap, set_size. cbn in C1, C2, C3, C4, C5 |- *. split_and!; try done.
  - split; cbn; try done; [|by rewrite C4; apply Hw]. rewrite (w_size _ Hw). f_equal. symmetry. exact (Permutation_length I2).
  - by rewrite C4.
Qed.

(** *** Inserting *)
(** [k] is in the map with value [v], at the place [it]. *)
Definition refers (m : FlatMap K V) (it : iterator) (k : K) (v : V) : Prop := deref_it m it = Some (k, v).
Definition subscripted (m : FlatMap K V) (k : K) (it : iterator) (m' : FlatMap K V) : Prop :=
  wf m' /\ match seek hashfn m k with
           | Some v => elements m' ≡ₚ elements m /\ refers m' it k v /\ _size m' = _size m
           | None => elements m' ≡ₚ (k, default_value) :: elements m /\ refers m' it k default_value /\ _size m' = _size m + 1
           end.
Lemma deref_put n p bs m i d b : (i < length bs)%nat -> deref_it (put n p (<[i := b]> bs) m) (i, d) = bucket_elems b !! d.
Proof. intros Hi. unfold deref_it. rewrite put_buckets. cbn [fst snd]. by rewrite list_lookup_insert_eq. Qed.
Lemma append_ok m k kv l : wf m -> _buckets m !! idx k (_nbucket m) = Some (Valid kv l) -> find_key k (kv :: map snd l) = None ->
  exists it m', append default_value NITEM (idx k (_nbucket m)) kv l k m = Ok it m' /\ subscripted m k it m'.
Proof.
  intros Hw Hb Hf. destruct (bucket_at m k Hw) as (b & Hb' & Es & Hi & Hk). assert (b = Valid kv l) as -> by congruence. cbn [bucket_elems] in *. set (g := STP.get NITEM (_pool m)).
  pose proof (find_key_spec k (kv :: map snd l)) as Hn. rewrite Hf in Hn. set (b' := Valid kv (l ++ [(fst g, (k, default_value))])).
  assert (bucket_elems b' = (kv :: map snd l) ++ [(k, default_value)]) as Eb by (unfold b'; cbn; by rewrite map_app).
  destruct (bucket_put m _ _ b' (snd g) (_size m + 1) Hw Hb) as [Hw' (R & E1 & E2)].
  - intros kv'. rewrite Eb, elem_of_app. intros [Hkv| ->%list_elem_of_singleton]; [by apply Hi|done].
  - rewrite Eb. unfold keys. rewrite map_app. apply NoDup_app. split_and!; [done| |apply NoDup_singleton]. intros x Hx ->%list_elem_of_singleton. by apply Hn.
  - cbn. intros U HU. eapply STP.pool_perm; [|apply (STP.get_ok NITEM _ _ NITEM_pos HU)]. rewrite map_app, <- (assoc (++)). cbn. apply Permutation_middle.
  - rewrite Eb, length_app. cbn. lia.
  - exists (idx k (_nbucket m), S (length l)), (put (_size m + 1) (snd g) (<[idx k (_nbucket m) := b']> (_buckets m)) m). split; [done|]. split; [exact Hw'|]. rewrite Es. apply llookup_None in Hf. rewrite Hf. split_and!.
    + rewrite E2, Eb, E1. rewrite <- (assoc (++)). symmetry. apply (Permutation_middle (kv :: map snd l) R).
    + unfold refers. rewrite (deref_put (_size m + 1) (snd g) (_buckets m) m _ _ b') by (by eapply lookup_lt_Some). rewrite Eb. rewrite lookup_app_r by (cbn; rewrite length_map; lia). cbn [length]. rewrite length_map. by rewrite Nat.sub_diag.
    + by destruct (put_fields (_size m + 1) (snd g) (<[idx k (_nbucket m) := b']> (_buckets m)) m) as (_ & _ & _ & _ & -> & _).
Qed.
(** The first part of [operator[]], before any resize. *)
Lemma subscript_found m fuel k : wf m -> 
  (exists it m', subscript hashfn default_value NITEM Alloc fuel k m = Ok it m' /\ subscripted m k it m') \/
  (exists kv l, _buckets m !! idx k (_nbucket m) = Some (Valid kv l) /\ find_key k (kv :: map snd l) = None).
Proof.
  intros Hw. destruct (bucket_at m k Hw) as (b & Hb & Es & Hi & Hk). destruct b as [|kv l].
  - left. set (b' := Valid (k, default_value) []). destruct (bucket_put m _ _ b' (_pool m) (_size m + 1) Hw Hb) as [Hw' (R & E1 & E2)].
    + by intros kv ->%list_elem_of_singleton.
    + apply NoDup_singleton.
    + done.
    + cbn. lia.
    + exists (idx k (_nbucket m), 0%nat), (put (_size m + 1) (_pool m) (<[idx k (_nbucket m) := b']> (_buckets m)) m). split.
      * destruct fuel; cbn; rewrite Hb; f_equal; unfold put, set_size, set_pool, set_buckets; by destruct (_heap m).
      * split; [done|]. rewrite Es. cbn. split_and!; [by rewrite E2, E1| |by unfold put; cbn]. unfold refers. by rewrite deref_put by (by eapply lookup_lt_Some).
  - pose proof (find_key_spec k (kv :: map snd l)) as Hs. destruct (find_key k (kv :: map snd l)) as [d|] eqn:Ef; [|right; eauto]. left. destruct Hs as [v Hv]. exists (idx k (_nbucket m), d), m. split.
    + destruct fuel; cbn [subscript]; rewrite Hb; cbn zeta iota; by rewrite Ef.
    + split; [done|]. rewrite Es. cbn [bucket_elems]. unfold llookup. rewrite Ef. cbn [mbind option_bind]. rewrite Hv. cbn. split_and!; try done. unfold refers, deref_it. cbn [fst snd]. rewrite Hb. done.
Qed.
Lemma subscript_ok m k f : wf m -> small (_size m) ->
  match subscript hashfn default_value NITEM Alloc (S f) k m with Ok it m' => subscripted m k it m' | Abort => aborts | _ => False end.
Proof.
  intros Hw Hs. destruct (subscript_found m (S f) k Hw) as [(it & m' & -> & Hm')|(kv & l & Hb & Hf)]; [done|]. destruct (append_ok m k kv l Hw Hb Hf) as (it & m' & Ea & Hm').
  cbn [subscript]. rewrite Hb, Hf. destruct (is_too_crowded (_size m) (_nbucket m) (_load_factor m)) eqn:Ec; [|by rewrite Ea]. unfold bind.
  assert (0 <= _nbucket m + 1 <= 2 ^ 57) as Hn.
  { pose proof (pow2_range _ (w_n _ Hw)). rewrite crowded_spec in Ec by (try done; apply Hw). apply Z.leb_le in Ec. pose proof (w_lf _ Hw) as Hl. unfold is_lf, small in *. nia. }
  pose proof (resize_ok m (_nbucket m + 1) Hw Hs Hn) as Hr. destruct (resize _ _ _ _ m) as [[] m1| | |]; try done; [|subst m1; by rewrite Ea]. destruct Hr as (Hw1 & E1 & Hc1 & Es1).
  assert (seek hashfn m1 k = seek hashfn m k) as Esk by (rewrite !seek_llookup by done; apply llookup_perm; [by apply wf_nodup|done]).
  assert (forall it' m'', subscripted m1 k it' m'' -> subscripted m k it' m'') as Hsub.
  { intros it' m'' [H1 H2]. split; [done|]. rewrite Esk in H2. destruct (seek hashfn m k); rewrite <- E1, <- Es1; done. }
  destruct (subscript_found m1 f k Hw1) as [(it' & m'' & -> & Hm'')|(kv' & l' & Hb' & Hf')]; [by apply Hsub|]. destruct (append_ok m1 k kv' l' Hw1 Hb' Hf') as (it' & m'' & Ea' & Hm'').
  destruct f; cbn [subscript]; rewrite Hb', Hf', Hc1, Ea'; by apply Hsub.
Qed.

Lemma set_value_elems v d b k x : bucket_elems b !! d = Some (k, x) ->
  bucket_elems (set_value v d b) = <[d := (k, v)]> (bucket_elems b) /\ bucket_nodes (set_value v d b) = bucket_nodes b.
Proof.
  destruct b as [|kv l]; [done|]. destruct d as [|d]; cbn; [by intros [= ->]|]. intros Hd. change (list_insert (S d) (k, v) (kv :: map snd l)) with (kv :: <[d := (k, v)]> (map snd l)).
  revert d Hd. induction l as [|n l IH]; intros [|d] Hd; cbn in *; try done; [injection Hd as E; cbn; by rewrite E|]. destruct (IH d Hd) as [E1 E2]. injection E1 as E1. split; [|by f_equal]. f_equal. cbn. by f_equal.
Qed.
Lemma write_ok m it k x v : wf m -> refers m it k x -> wf (write it v m) /\ refers (write it v m) it k v /\ _size (write it v m) = _size m /\
  exists R, elements m ≡ₚ (k, x) :: R /\ elements (write it v m) ≡ₚ (k, v) :: R.
Proof.
  intros Hw Hr. destruct it as [i d]. unfold refers, deref_it in Hr. cbn [fst snd] in Hr. destruct (_buckets m !! i) as [b|] eqn:Hb; [|done]. cbn [mbind option_bind] in Hr.
  destruct (set_value_elems v d b k x Hr) as [E1 E2]. assert (write (i, d) v m = put (_size m) (_pool m) (<[i := set_value v d b]> (_buckets m)) m) as ->.
  { unfold write, put. cbn [fst snd]. assert (alter (set_value v d) i (_buckets m) = <[i := set_value v d b]> (_buckets m)) as -> by (apply list_eq; intros j; destruct (decide (j = i)) as [->|];
      [rewrite list_lookup_alter_eq, list_lookup_insert_eq, Hb by (by eapply lookup_lt_Some); done|by rewrite list_lookup_alter_ne, list_lookup_insert_ne]). unfold set_size, set_pool, set_buckets. by destruct (_heap m). }
  assert (keys (bucket_elems (set_value v d b)) = keys (bucket_elems b)) as Ek.
  { rewrite E1. unfold keys. rewrite <- (list_insert_id (map fst (bucket_elems b)) d k); [by rewrite list_fmap_insert|]. by rewrite list_lookup_fmap, Hr. }
  destruct (bucket_put m i b (set_value v d b) (_pool m) (_size m) Hw Hb) as [Hw' (R & F1 & F2)].
  - intros kv Hkv. assert (fst kv ∈ keys (bucket_elems b)) as Hin by (rewrite <- Ek; apply list_elem_of_fmap; eauto). apply list_elem_of_fmap in Hin as (kv' & -> & Hin). by eapply (b_idx _ _ (w_bs _ Hw)).
  - rewrite Ek. by eapply (b_keys _ _ (w_bs _ Hw)).
  - by rewrite E2.
  - rewrite E1, length_insert. lia.
  - pose proof (lookup_lt_Some _ _ _ Hr) as Hlt. split_and!; [done| |by apply put_fields|].
    + unfold refers. rewrite deref_put by (by eapply lookup_lt_Some). rewrite E1. by apply list_lookup_insert_eq.
    + exists (take d (bucket_elems b) ++ drop (S d) (bucket_elems b) ++ R). rewrite F1, F2, E1. split.
      * rewrite <- (take_drop_middle _ _ _ Hr) at 1. rewrite <- !(assoc (++)). cbn. by rewrite <- Permutation_middle.
      * rewrite insert_take_drop by done. rewrite <- !(assoc (++)). cbn. by rewrite <- Permutation_middle.
Qed.

(** ** The map that is implemented *)
Definition to_map (m : FlatMap K V) : gmap K V := list_to_map (elements m).
Lemma to_map_seek m k : wf m -> to_map m !! k = seek hashfn m k.
Proof.
  intros Hw. pose proof (wf_nodup m Hw) as Hn. rewrite seek_llookup by done. apply option_eq. intros v. rewrite llookup_Some by done. unfold to_map. symmetry. by apply elem_of_list_to_map.
Qed.
Lemma to_map_perm m l : NoDup (keys l) -> elements m ≡ₚ l -> to_map m = list_to_map l.
Proof. intros Hn E. unfold to_map. apply list_to_map_proper; [|done]. change ((elements m).*1) with (keys (elements m)). unfold keys in *. by rewrite E. Qed.
Lemma to_map_same m m' : wf m -> elements m' ≡ₚ elements m -> to_map m' = to_map m.
Proof. intros Hw E. apply to_map_perm; [by apply wf_nodup|done]. Qed.
Lemma to_map_size m : wf m -> _size m = Z.of_nat (size (to_map m)).
Proof. intros Hw. rewrite (w_size _ Hw). f_equal. symmetry. apply map_size_list_to_map. by apply wf_nodup. Qed.

Lemma insert_ok m k v : wf m -> small (_size m) ->
  match insert hashfn default_value NITEM Alloc k v m with
  | Ok it m' => wf m' /\ to_map m' = <[k := v]> (to_map m) /\ refers m' it k v /\ _size m' <= _size m + 1
  | Abort => aborts
  | _ => False
  end.
Proof.
  intros Hw Hs. unfold insert, bind. pose proof (subscript_ok m k 0 Hw Hs) as Hk. destruct (subscript _ _ _ _ _ k m) as [it m1| | |]; try done. cbn. destruct Hk as [Hw1 H1].
  assert (exists x, refers m1 it k x /\ _size m1 <= _size m + 1 /\ <[k := v]> (to_map m1) = <[k := v]> (to_map m)) as (x & Hr & Hsz & Em).
  { destruct (seek hashfn m k) as [x|] eqn:E; destruct H1 as (H1 & H2 & H3); eexists; (split_and!; [exact H2|lia|]); [by rewrite (to_map_same m m1)|].
    rewrite (to_map_perm m1 ((k, default_value) :: elements m)); [|unfold keys; rewrite <- H1; by apply wf_nodup|done]. cbn. by rewrite insert_insert_eq. }
  destruct (write_ok m1 it k x v Hw1 Hr) as (Hw2 & Hr2 & Hs2 & R & E1 & E2). split_and!; try done; [|lia].
  pose proof (wf_nodup _ Hw2) as Hn2. unfold keys in Hn2. rewrite E2 in Hn2. pose proof (wf_nodup _ Hw1) as Hn1. unfold keys in Hn1. rewrite E1 in Hn1.
  rewrite (to_map_perm _ _ Hn2 E2), <- Em, (to_map_perm _ _ Hn1 E1). cbn. by rewrite insert_insert_eq.
Qed.

(** *** Whole maps *)
Lemma new_wf : wf new_FlatMap.
Proof.
  destruct (init_buckets_ok 16) as (B1 & B2 & B3). split; try done.
  - by exists 4.
  - unfold _buckets. cbn [_heap new_FlatMap _default_buckets _pool]. unfold DEFAULT_NBUCKET. rewrite B3. apply STP.new_ok.
Qed.
Lemma load_factor_wf m lf : wf m -> is_lf lf -> wf (init_load_factor lf m) /\ elements (init_load_factor lf m) = elements m /\ _nbucket (init_load_factor lf m) = _nbucket m /\ _size (init_load_factor lf m) = _size m.
Proof. intros Hw Hl. unfold init_load_factor. destruct (_is_default_load_factor m); [|done]. destruct Hw as [H1 H2 H3 H4 H5 H6]. split_and!; done. Qed.
Lemma init_map_ok m nb lf : wf m -> small (_size m) -> 0 <= nb <= 2 ^ 57 ->
  match init hashfn NITEM Alloc nb lf m with Ok r m' => wf m' /\ to_map m' = to_map m /\ _size m' = _size m | Abort => aborts | _ => False end.
Proof.
  intros Hw Hs Hn. unfold init. destruct (nb <=? _nbucket m); [done|]. destruct (Z.ltb_spec lf 10); [done|]. destruct (Z.ltb_spec 100 lf); [done|]. destruct (negb (_is_default_load_factor m)); [done|].
  destruct (negb (empty m)); [done|]. destruct (negb (is_default_buckets m)); [done|]. cbn [orb]. destruct (load_factor_wf m lf Hw ltac:(unfold is_lf; lia)) as (Hw1 & E1 & _ & E3).
  unfold bind. pose proof (resize_ok (init_load_factor lf m) nb Hw1 ltac:(by rewrite E3) Hn) as Hr. destruct (resize _ _ _ _ _) as [[] m'| | |]; try done.
  - destruct Hr as (Hw2 & E & _ & Es). split_and!; [done| |by rewrite Es, E3]. rewrite (to_map_same _ _ Hw1 E). unfold to_map. by rewrite E1.
  - subst m'. split_and!; [done| |done]. unfold to_map. by rewrite E1.
Qed.
Lemma empty_default m : wf m -> elements m = [] -> Forall (eq Invalid) (_buckets m) /\ Forall (eq Invalid) (_default_buckets m) /\ length (_default_buckets m) = 16%nat.
Proof.
  intros Hw He. destruct (all_invalid _ He) as [H1 _]. destruct (w_def _ Hw) as [H2 H3]. split_and!; try done. unfold _buckets in H1. by destruct (_heap m).
Qed.
Lemma heap_wf m n : wf m -> elements m = [] -> pow2 n -> wf (set_heap (init_buckets n) n m) /\ elements (set_heap (init_buckets n) n m) = [].
Proof.
  intros Hw He Hn. destruct (init_buckets_ok n) as (B1 & B2 & B3). destruct (empty_default m Hw He) as (H1 & H2 & H3). split; [|done]. split; cbn; try done.
  - rewrite (w_size _ Hw), He. unfold elements. cbn. fold (belems (init_buckets n)). by rewrite B2.
  - apply Hw.
  - fold (bnodes (init_buckets n : list (Bucket K V))). rewrite B3. pose proof (w_pool _ Hw) as Hp. by rewrite (proj2 (all_invalid _ He)) in Hp.
Qed.
Lemma copy_chain l c p used : STP.pool_ok p (map fst c ++ used) ->
  let r := foldl (fun c n => (fst c ++ [(fst (STP.get NITEM (snd c)), snd n)], snd (STP.get NITEM (snd c)))) (c, p) (l : list (STP.addr * (K * V))) in
  map snd (fst r) = map snd c ++ map snd l /\ STP.pool_ok (snd r) (map fst (fst r) ++ used).
Proof.
  revert c p. induction l as [|n l IH]; intros c p Hp; [by rewrite app_nil_r|]. cbn [foldl fst snd]. destruct (IH (c ++ [(fst (STP.get NITEM p), snd n)]) (snd (STP.get NITEM p))) as [I1 I2].
  - rewrite map_app. cbn. eapply STP.pool_perm; [|apply (STP.get_ok NITEM p _ NITEM_pos Hp)]. rewrite <- (assoc (++)). cbn. apply Permutation_middle.
  - split; [|done]. rewrite I1, map_app, <- (assoc (++)). done.
Qed.
Lemma copy_buckets own rhs acc p : length own = length rhs -> Forall (eq Invalid) own -> STP.pool_ok p (bnodes acc) ->
  let r := foldl (copy_bucket NITEM) (acc, p) (zip own rhs) in
  map bucket_elems (fst r) = map bucket_elems acc ++ map bucket_elems rhs /\ STP.pool_ok (snd r) (bnodes (fst r)).
Proof.
  revert own acc p. induction rhs as [|b rhs IH]; intros [|o own] acc p Hl Hi Hp; try done; [by rewrite app_nil_r|]. inversion Hi as [|? ? <- Hi']; subst. cbn [zip_with foldl].
  assert (map bucket_elems (fst (copy_bucket NITEM (acc, p) (Invalid, b))) = map bucket_elems acc ++ [bucket_elems b] /\
    STP.pool_ok (snd (copy_bucket NITEM (acc, p) (Invalid, b))) (bnodes (fst (copy_bucket NITEM (acc, p) (Invalid, b))))) as [E1 E2].
  { unfold copy_bucket. destruct b as [|kv l]; cbn [fst snd].
    - split; [by rewrite map_app|]. unfold bnodes. rewrite map_app, concat_app. cbn. by rewrite app_nil_r.
    - destruct (copy_chain l [] p (bnodes acc) Hp) as [C1 C2]. set (c := foldl _ _ l) in *. split; [rewrite map_app; cbn; by rewrite C1|]. unfold bnodes in *. rewrite map_app, concat_app. cbn. rewrite app_nil_r.
      eapply STP.pool_perm; [|exact C2]. apply Permutation_app_comm. }
  destruct (copy_bucket NITEM (acc, p) (Invalid, b)) as [acc' p']. cbn [fst snd] in E1, E2. destruct (IH own acc' p' ltac:(by injection Hl) Hi' E2) as [I1 I2]. split; [|done]. rewrite I1, E1, <- (assoc (++)). done.
Qed.
Lemma insert_all_ok l m : wf m -> NoDup (keys l) -> 0 <= _size m -> _size m + Z.of_nat (length l) < 2 ^ 50 ->
  match insert_all hashfn default_value NITEM Alloc l m with Ok _ m' => wf m' /\ to_map m' = list_to_map l ∪ to_map m | Abort => aborts | _ => False end.
Proof.
  revert m. induction l as [|[k v] l IH]; intros m Hw Hn H0 Hs; [cbn; by rewrite (left_id_L ∅ (∪))|]. cbn in Hn. apply NoDup_cons in Hn as [Hk Hn]. cbn [insert_all fst snd]. unfold bind.
  cbn [length] in Hs. pose proof (insert_ok m k v Hw ltac:(unfold small; lia)) as Hi. destruct (insert _ _ _ _ _ _ m) as [it m1| | |]; try done. destruct Hi as (Hw1 & E1 & _ & Hs1).
  pose proof (IH m1 Hw1 Hn ltac:(rewrite (w_size _ Hw1); lia) ltac:(lia)) as Hr. destruct (insert_all _ _ _ _ l m1) as [? m'| | |]; try done. destruct Hr as [Hw' E']. split; [done|]. rewrite E', E1. cbn.
  rewrite <- insert_union_r, insert_union_l; [done|]. apply not_elem_of_list_to_map_1. done.
Qed.
Lemma assign_ok rhs m : wf m -> wf rhs -> small (_size rhs) ->
  match assign hashfn default_value NITEM Alloc rhs m with Ok _ m' => wf m' /\ to_map m' = to_map rhs | Abort => aborts | _ => False end.
Proof.
  intros Hw Hr Hs. destruct (clear_ok m Hw) as (Hw1 & He1 & _ & _ & _ & Hz1). unfold assign. set (m1 := clear m) in *. clearbody m1. unfold empty. destruct (Z.eqb_spec (_size rhs) 0) as [E0|E0].
  - split; [done|]. unfold to_map. rewrite He1. pose proof (w_size _ Hr) as Hz. rewrite E0 in Hz. by destruct (elements rhs).
  - destruct (load_factor_wf m1 (_load_factor rhs) Hw1 (w_lf _ Hr)) as (Hw2 & E2 & _ & Ez2). set (m2 := init_load_factor _ m1) in *. clearbody m2. rewrite He1 in E2. rewrite Hz1 in Ez2. unfold bind at 1.
    assert (match (if is_too_crowded (_size rhs) (_nbucket m2) (_load_factor m2) then bind (new_buckets_and_thumbnail Alloc (_size rhs) (_nbucket rhs)) (fun info => match info with Some n => modify (set_heap (init_buckets n) n) | None => ret tt end) else ret tt) m2
      with Ok _ m3 => wf m3 /\ elements m3 = [] | Abort => aborts | _ => False end) as H3.
    { destruct (is_too_crowded _ _ _); [|done]. unfold bind. pose proof (pow2_range _ (w_n _ Hr)) as Hp. pose proof (new_buckets_ok m2 (_size rhs) (_nbucket rhs) (w_lf _ Hw2) Hs ltac:(lia)) as Hb.
      destruct (new_buckets_and_thumbnail _ _ _ m2) as [[n|] m3| | |]; try done; [destruct Hb as (-> & Hn & _); by apply heap_wf|by subst]. }
    destruct (_ m2) as [? m3| | |]; try done. destruct H3 as [Hw3 He3]. clear m2 Hw2 E2 Ez2. destruct (Z.eqb_spec (_nbucket m3) (_nbucket rhs)) as [En|En].
    + destruct (empty_default m3 Hw3 He3) as (F1 & _). pose proof (w_pool _ Hw3) as Hp. rewrite (proj2 (all_invalid _ He3)) in Hp.
      destruct (copy_buckets (_buckets m3) (_buckets rhs) [] (_pool m3)) as [C1 C2]; [rewrite (b_len _ _ (w_bs _ Hw3)), (b_len _ _ (w_bs _ Hr)); by rewrite En|done|done|].
      set (c := foldl _ _ (zip _ _)) in *. cbn [map app] in C1. assert (forall i b, fst c !! i = Some b -> exists b', _buckets rhs !! i = Some b' /\ bucket_elems b = bucket_elems b') as Hc.
      { intros i b Hi. assert (map bucket_elems (fst c) !! i = Some (bucket_elems b)) as Hi' by (by rewrite list_lookup_fmap, Hi). rewrite C1, list_lookup_fmap in Hi'. destruct (_buckets rhs !! i) as [b'|]; [|done]. exists b'. split; [done|]. by injection Hi'. }
      assert (elements rhs = belems (fst c)) as Eb by (unfold elements, belems; by rewrite C1).
      change (set_size (_size rhs) (set_pool (snd c) (set_buckets (fst c) m3))) with (put (_size rhs) (snd c) (fst c) m3). split; [|unfold to_map; by rewrite put_elements, Eb].
      apply put_wf; try done; [|by rewrite (w_size _ Hr), Eb]. rewrite En. split.
      * rewrite <- (length_map bucket_elems (fst c)), C1, length_map. apply Hr.
      * intros i b Hi kv Hkv. destruct (Hc i b Hi) as (b' & Hb' & E). rewrite E in Hkv. by eapply (b_idx _ _ (w_bs _ Hr)).
      * intros i b Hi. destruct (Hc i b Hi) as (b' & Hb' & E). rewrite E. by eapply (b_keys _ _ (w_bs _ Hr)).
    + pose proof (insert_all_ok (elements rhs) m3 Hw3 (wf_nodup _ Hr)) as Hi. rewrite (w_size _ Hw3), He3 in Hi. specialize (Hi ltac:(cbn; lia) ltac:(unfold small in Hs; rewrite (w_size _ Hr) in Hs; cbn; lia)).
      destruct (insert_all _ _ _ _ _ m3) as [? m'| | |]; try done. destruct Hi as [H1 H2]. split; [done|]. rewrite H2. unfold to_map at 1. rewrite He3. cbn. apply (right_id_L ∅ (∪)).
Qed.
Lemma swap_ok (a b : FlatMap K V) : wf a -> wf b -> let r := swap a b in wf (fst r) /\ wf (snd r) /\ elements (fst r) = elements b /\ elements (snd r) = elements a.
Proof.
  assert (forall x y, wf x -> wf y -> wf (fst (swap x y)) /\ elements (fst (swap x y)) = elements y) as Hgen.
  { intros x y Hx Hy. assert (_buckets (fst (swap x y)) = _buckets y) as E by (unfold swap, swap_buckets, _buckets; cbn; by destruct (_heap x), (_heap y)).
    split; [|unfold elements; by rewrite E]. destruct Hy as [H1 H2 H3 H4 H5 H6]. split; rewrite ?E; try done; [|unfold elements; by rewrite E].
    destruct Hx as [_ _ H3' _ _ _]. unfold swap, swap_buckets. cbn. by destruct (_heap x), (_heap y). }
  intros Ha Hb. destruct (Hgen a b Ha Hb), (Hgen b a Hb Ha). done.
Qed.

(** *** Programs over two maps *)
Inductive op :=
| Insert (w : bool) (k : K) (v : V)
| Subscript (w : bool) (k : K)
| Erase (w : bool) (k : K)
| Seek (w : bool) (k : K)
| Size (w : bool)
| Iterate (w : bool)
| Clear (w : bool) (reset : bool)
| Resize (w : bool) (nbucket : Z)
| Init (w : bool) (nbucket load_factor : Z)
| Assign (w : bool)              (* from the other map *)
| Swap.
Inductive answer := AUnit | AVal (v : option V) | AElem (kv : option (K * V)) | ASize (n : Z) | AAll (l : gmap K V) (n : nat) | AErased (n : Z) (v : option V).
Definition pick {A} (w : bool) (p : A * A) : A := if w then fst p else snd p.
Definition place {A} (w : bool) (x : A) (p : A * A) : A * A := if w then (x, snd p) else (fst p, x).
(** An operation of one of the two maps. *)
Definition on {A} (w : bool) (f : M (FlatMap K V) A) : M (FlatMap K V * FlatMap K V) A := fun s =>
  match f (pick w s) with Ok a m => Ok a (place w m s) | Abort => Abort | Undef => Undef | NoFuel => NoFuel end.
Definition exec (o : op) : M (FlatMap K V * FlatMap K V) answer := fun s =>
  match o with
  | Insert w k v => on w (bind (insert hashfn default_value NITEM Alloc k v) (fun it m => Ok (AElem (deref_it m it)) m)) s
  | Subscript w k => on w (bind (subscript hashfn default_value NITEM Alloc 1 k) (fun it m => Ok (AElem (deref_it m it)) m)) s
  | Erase w k => on w (bind (erase hashfn k) (fun r => ret (AErased (fst r) (snd r)))) s
  | Seek w k => Ok (AVal (seek hashfn (pick w s) k)) s
  | Size w => Ok (ASize (_size (pick w s))) s
  | Iterate w =>
      match iterate (Z.to_nat (_size (pick w s))) (pick w s) (begin_ (pick w s)) with
      | Some l => Ok (AAll (list_to_map l) (length l)) s
      | None => NoFuel
      end
  | Clear w reset => on w (bind (modify (if reset then clear_and_reset_pool else clear)) (fun _ => ret AUnit)) s
  | Resize w n => on w (bind (resize hashfn NITEM Alloc n) (fun _ => ret AUnit)) s
  | Init w n lf => on w (bind (init hashfn NITEM Alloc n lf) (fun _ => ret AUnit)) s
  | Assign w => on w (bind (assign hashfn default_value NITEM Alloc (pick (negb w) s)) (fun _ => ret AUnit)) s
  | Swap => Ok AUnit (swap (fst s) (snd s))
  end.
Fixpoint exec_all (l : list op) : M (FlatMap K V * FlatMap K V) (list answer) :=
  match l with [] => ret [] | o :: l' => bind (exec o) (fun a => bind (exec_all l') (fun r => ret (a :: r))) end.

(** The same operations on finite maps. *)
Definition spec_op (o : op) (s : gmap K V * gmap K V) : answer * (gmap K V * gmap K V) :=
  match o with
  | Insert w k v => (AElem (Some (k, v)), place w (<[k := v]> (pick w s)) s)
  | Subscript w k => let v := default default_value (pick w s !! k) in (AElem (Some (k, v)), place w (<[k := v]> (pick w s)) s)
  | Erase w k => (match pick w s !! k with Some v => AErased 1 (Some v) | None => AErased 0 None end, place w (delete k (pick w s)) s)
  | Seek w k => (AVal (pick w s !! k), s)
  | Size w => (ASize (Z.of_nat (size (pick w s))), s)
  | Iterate w => (AAll (pick w s) (size (pick w s)), s)
  | Clear w _ => (AUnit, place w ∅ s)
  | Resize _ _ | Init _ _ _ => (AUnit, s)
  | Assign w => (AUnit, place w (pick (negb w) s) s)
  | Swap => (AUnit, (snd s, fst s))
  end.
Fixpoint spec_all (l : list op) (s : gmap K V * gmap K V) : list answer * (gmap K V * gmap K V) :=
  match l with [] => ([], s) | o :: l' => let r := spec_op o s in let q := spec_all l' (snd r) in (fst r :: fst q, snd q) end.
(** The number of buckets asked for is in the range of the rounding. *)
Definition op_ok (o : op) : Prop := match o with Resize _ n | Init _ n _ => 0 <= n <= 2 ^ 57 | _ => True end.

(** The two maps hold the contents of two finite maps, of at most [c] elements. *)
Definition two_ok (c : Z) (s : FlatMap K V * FlatMap K V) (g : gmap K V * gmap K V) : Prop :=
  forall w, wf (pick w s) /\ to_map (pick w s) = pick w g /\ _size (pick w s) <= c.
Definition one_ok (c : Z) (m : FlatMap K V) (g : gmap K V) : Prop := wf m /\ to_map m = g /\ _size m <= c.
Lemma two_place c s g w m gm : two_ok c s g -> one_ok c m gm -> two_ok c (place w m s) (place w gm g).
Proof. intros H1 H2 w'. specialize (H1 w'). by destruct w, w'. Qed.
Lemma two_same c s g w m : two_ok c s g -> one_ok c m (pick w g) -> two_ok c (place w m s) g.
Proof. intros H1 H2 w'. specialize (H1 w'). by destruct w, w'. Qed.
Lemma two_more c c' s g : two_ok c s g -> c <= c' -> two_ok c' s g.
Proof. intros H1 Hc w. destruct (H1 w) as (? & ? & ?). split_and!; [done..|lia]. Qed.

(** *** Iterators *)
(** What is left from an iterator on. *)
Definition rest (m : FlatMap K V) (it : iterator) : list (K * V) :=
  match _buckets m !! fst it with Some b => drop (snd it) (bucket_elems b) ++ belems (drop (S (fst it)) (_buckets m)) | None => [] end.
(** An iterator is at the end or at an element. *)
Definition at_elem (m : FlatMap K V) (it : iterator) : Prop := it = (length (_buckets m), 0%nat) \/ is_Some (deref_it m it).
Lemma end_is m : end_ m = (length (_buckets m), 0%nat).
Proof. unfold end_, find_and_set_valid_node. by rewrite drop_all. Qed.
Lemma skip_spec bs e : (e <= skip_invalid bs e)%nat /\ belems bs = belems (drop (skip_invalid bs e - e) bs) /\
  match bs !! (skip_invalid bs e - e)%nat with Some b => b <> Invalid | None => (skip_invalid bs e = e + length bs)%nat end.
Proof.
  revert e. induction bs as [|[|kv l] bs IH]; intros e; cbn [skip_invalid]; [rewrite Nat.sub_diag; cbn; split_and!; [lia|done|lia]| |rewrite Nat.sub_diag; by split_and!; [lia|..]].
  destruct (IH (S e)) as (I1 & I2 & I3). split; [lia|]. replace (skip_invalid bs (S e) - e)%nat with (S (skip_invalid bs (S e) - S e)) by lia. cbn [drop lookup list_lookup]. split; [done|].
  change (list_lookup (skip_invalid bs (S e) - S e)%nat bs) with (bs !! (skip_invalid bs (S e) - S e)%nat). destruct (bs !! _); [done|]. cbn [length]. lia.
Qed.
Lemma find_valid_spec m e : (e <= length (_buckets m))%nat -> at_elem m (find_and_set_valid_node m e) /\ rest m (find_and_set_valid_node m e) = belems (drop e (_buckets m)).
Proof.
  intros He. unfold find_and_set_valid_node. destruct (skip_spec (drop e (_buckets m)) e) as (S1 & S2 & S3). set (i := skip_invalid _ _) in *. unfold rest, at_elem, deref_it. cbn [fst snd].
  rewrite lookup_drop in S3. rewrite drop_drop in S2. replace (e + (i - e))%nat with i in S2, S3 by lia. rewrite S2. destruct (_buckets m !! i) as [b|] eqn:Eb.
  - rewrite (drop_S _ _ _ Eb). cbn. split; [|done]. right. by destruct b.
  - rewrite length_drop in S3. assert (i = length (_buckets m)) as -> by lia. rewrite drop_all. by split; [left|].
Qed.
Lemma deref_rest m it kv : deref_it m it = Some kv -> rest m it = kv :: rest m (next_it m it) /\ at_elem m (next_it m it).
Proof.
  destruct it as [i d]. unfold deref_it, rest, next_it. cbn [fst snd]. destruct (_buckets m !! i) as [b|] eqn:Eb; [|done]. cbn [mbind option_bind]. intros Hd. rewrite (drop_S _ _ _ Hd).
  destruct (bucket_elems b !! S d) as [kv'|] eqn:Ed; cbn [fst snd].
  - rewrite Eb. split; [done|]. right. unfold deref_it. cbn. rewrite Eb. cbn. by rewrite Ed.
  - destruct (find_valid_spec m (S i)) as [F1 F2]; [apply lookup_lt_Some in Eb; lia|]. unfold rest in F2. rewrite F2. split; [|done]. rewrite drop_ge; [done|]. by apply lookup_ge_None_1.
Qed.
Lemma iterate_rest fuel m it : at_elem m it -> (length (rest m it) <= fuel)%nat -> iterate fuel m it = Some (rest m it).
Proof.
  revert it. induction fuel as [|f IH]; intros it Ha Hf; cbn [iterate]; rewrite end_is.
  - destruct Ha as [->|[kv Hd]]; [rewrite bool_decide_true by done; unfold rest; cbn; by rewrite lookup_ge_None_2|]. destruct (deref_rest m it kv Hd) as [E _]. rewrite E in Hf. cbn in Hf. lia.
  - destruct Ha as [->|[kv Hd]]; [rewrite bool_decide_true by done; unfold rest; cbn; by rewrite lookup_ge_None_2|]. destruct (deref_rest m it kv Hd) as [E Ha']. rewrite bool_decide_false.
    + rewrite Hd. cbn [mbind option_bind]. rewrite E in Hf |- *. cbn in Hf. rewrite IH by (try done; lia). done.
    + intros ->. unfold deref_it in Hd. cbn in Hd. by rewrite lookup_ge_None_2 in Hd.
Qed.
Lemma iterate_elements m fuel : (length (elements m) <= fuel)%nat -> iterate fuel m (begin_ m) = Some (elements m).
Proof.
  intros Hf. unfold begin_. destruct (find_valid_spec m 0 ltac:(lia)) as [F1 F2]. rewrite iterate_rest by (try done; by rewrite F2). by rewrite F2.
Qed.

(** *** The refinement *)
Lemma erase_map m m' k v : wf m -> wf m' -> elements m ≡ₚ (k, v) :: elements m' -> to_map m' = delete k (to_map m) /\ _size m = _size m' + 1.
Proof.
  intros Hw Hw' E. pose proof (wf_nodup _ Hw) as Hn. unfold keys in Hn. rewrite E in Hn. split; [|rewrite (w_size _ Hw), (w_size _ Hw'), (Permutation_length E); cbn; lia].
  rewrite (to_map_perm m _ Hn E). cbn in Hn |- *. apply NoDup_cons in Hn as [Hk _]. rewrite delete_insert_eq. symmetry. apply delete_id. by apply not_elem_of_list_to_map_1.
Qed.
Lemma subscript_map m k it m' : subscripted m k it m' -> wf m -> to_map m' = <[k := default default_value (to_map m !! k)]> (to_map m) /\ deref_it m' it = Some (k, default default_value (to_map m !! k)) /\ _size m' <= _size m + 1.
Proof.
  intros [Hw' Hs] Hw. rewrite (to_map_seek _ _ Hw). destruct (seek hashfn m k) as [v|] eqn:E; destruct Hs as (E1 & E2 & E3); cbn [default]; split_and!; try done; try lia.
  - rewrite (to_map_same _ _ Hw E1). symmetry. apply insert_id. by rewrite to_map_seek.
  - rewrite (to_map_perm m' ((k, default_value) :: elements m)); [done| |done]. unfold keys. rewrite <- E1. by apply wf_nodup.
Qed.
Lemma empty_map m : wf m -> elements m = [] -> to_map m = ∅ /\ _size m = 0.
Proof. intros Hw E. unfold to_map. rewrite (w_size _ Hw), E. done. Qed.
(** What an operation of one map must do. *)
Definition op_spec {A} (c : Z) (f : M (FlatMap K V) A) (m : FlatMap K V) (a : A) (g : gmap K V) : Prop :=
  match f m with Ok a' m' => a' = a /\ one_ok c m' g | Abort => aborts | _ => False end.
Lemma on_ok {A} c w (f : M (FlatMap K V) A) s g a gm : two_ok c s g -> op_spec c f (pick w s) a gm ->
  match on w f s with Ok a' s' => a' = a /\ two_ok c s' (place w gm g) | Abort => aborts | _ => False end.
Proof. intros H2 Hf. unfold on, op_spec in *. destruct (f (pick w s)); try done. destruct Hf as [-> Hf]. split; [done|]. by apply two_place. Qed.
Lemma on_same {A} c w (f : M (FlatMap K V) A) s g a : two_ok c s g -> op_spec c f (pick w s) a (pick w g) ->
  match on w f s with Ok a' s' => a' = a /\ two_ok c s' g | Abort => aborts | _ => False end.
Proof. intros H2 Hf. unfold on, op_spec in *. destruct (f (pick w s)); try done. destruct Hf as [-> Hf]. split; [done|]. by apply two_same. Qed.
Lemma small_size c m g : one_ok c m g -> c + 1 < 2 ^ 50 -> small (_size m).
Proof. intros (H1 & _ & H2) Hc. pose proof (w_size _ H1). unfold small. lia. Qed.
Lemma assign_size c rhs g m' : one_ok c rhs g -> wf m' -> to_map m' = to_map rhs -> _size m' <= c.
Proof. intros (H1 & _ & H3) H4 E. rewrite (to_map_size _ H4), E, <- to_map_size; done. Qed.
Lemma iterate_answer m g c : one_ok c m g -> iterate (Z.to_nat (_size m)) m (begin_ m) = Some (elements m) /\ list_to_map (elements m) = g /\ length (elements m) = size g.
Proof.
  intros (Hw & <- & _). split_and!; [|done|].
  - apply iterate_elements. rewrite (w_size _ Hw). lia.
  - pose proof (to_map_size m Hw) as E. rewrite (w_size _ Hw) in E. lia.
Qed.

Lemma exec_ok c o s g : two_ok c s g -> c + 1 < 2 ^ 50 -> op_ok o ->
  match exec o s with Ok a s' => a = fst (spec_op o g) /\ two_ok (c + 1) s' (snd (spec_op o g)) | Abort => aborts | _ => False end.
Proof.
  intros H2 Hc Ho. pose proof (two_more c (c + 1) s g H2 ltac:(lia)) as H2'.
  assert (forall w, small (_size (pick w s))) as Hsm by (intros w; eapply small_size; [apply H2|done]). assert (forall w, one_ok c (pick w s) (pick w g)) as H1 by done.
  destruct o as [w k v|w k|w k|w k|w|w|w r|w n|w n lf|w|]; cbn [exec spec_op fst snd op_ok] in *.
  - apply on_ok; [done|]. unfold op_spec, bind. destruct (H1 w) as (Hw & Em & Hs). pose proof (insert_ok (pick w s) k v Hw (Hsm w)) as Hi. destruct (insert _ _ _ _ _ _ _) as [it m'| | |]; try done.
    destruct Hi as (I1 & I2 & I3 & I4). rewrite I3. split; [done|]. split_and!; [done|by rewrite I2, Em|lia].
  - apply on_ok; [done|]. unfold op_spec, bind. destruct (H1 w) as (Hw & Em & Hs). pose proof (subscript_ok (pick w s) k 0 Hw (Hsm w)) as Hi. destruct (subscript _ _ _ _ _ _ _) as [it m'| | |]; try done.
    destruct (subscript_map _ _ _ _ Hi Hw) as (I1 & I2 & I3). rewrite I2, <- Em. split; [done|]. split_and!; [apply Hi|done|lia].
  - destruct (H1 w) as (Hw & Em & Hs). destruct (erase_ok (pick w s) k Hw) as (m' & E & Hw' & E'). rewrite <- (to_map_seek _ _ Hw), Em in E, E'.
    apply on_ok; [done|]. unfold op_spec, bind. rewrite E. destruct (pick w g !! k) as [v|] eqn:Ek; (split; [done|]).
    + destruct (erase_map _ _ _ _ Hw Hw' E') as [I1 I2]. split_and!; [done|by rewrite I1, Em|lia].
    + subst m'. split_and!; [done|by rewrite delete_id|lia].
  - destruct (H1 w) as (Hw & Em & Hs). split; [|done]. by rewrite <- Em, to_map_seek.
  - destruct (H1 w) as (Hw & Em & Hs). split; [|done]. by rewrite <- Em, to_map_size.
  - destruct (iterate_answer _ _ _ (H1 w)) as (-> & -> & ->). done.
  - apply on_ok; [done|]. unfold op_spec, bind. destruct (H1 w) as (Hw & Em & Hs). destruct (clear_ok _ Hw) as (C1 & C2 & _ & _ & _ & C3). pose proof (Hsm w) as Hz. unfold small in Hz. cbn. split; [done|].
    destruct r; [|destruct (empty_map _ C1 C2) as [E1 E2]; split_and!; [done..|lia]]. unfold clear_and_reset_pool. assert (wf (set_pool (STP.reset (_pool (clear (pick w s)))) (clear (pick w s)))) as Hp.
    { destruct C1 as [W1 W2 W3 W4 W5 W6]. split; try done. change (_buckets (set_pool _ _)) with (_buckets (clear (pick w s))). rewrite (proj2 (all_invalid _ C2)). apply STP.reset_ok. }
    destruct (empty_map _ Hp C2) as [E1 E2]. split_and!; [done..|lia].
  - apply on_same; [done|]. unfold op_spec, bind. destruct (H1 w) as (Hw & Em & Hs). pose proof (resize_ok _ n Hw (Hsm w) Ho) as Hr. destruct (resize _ _ _ _ _) as [[] m'| | |]; try done; cbn; (split; [done|]).
    + destruct Hr as (R1 & R2 & _ & R3). split_and!; [done|by rewrite (to_map_same _ _ Hw R2)|lia].
    + subst m'. split_and!; [done..|lia].
  - apply on_same; [done|]. unfold op_spec, bind. destruct (H1 w) as (Hw & Em & Hs). pose proof (init_map_ok _ n lf Hw (Hsm w) Ho) as Hr. destruct (init _ _ _ _ _ _) as [r m'| | |]; try done; cbn.
    destruct Hr as (R1 & R2 & R3). split; [done|]. split_and!; [done|by rewrite R2|lia].
  - apply on_ok; [done|]. unfold op_spec, bind. destruct (H1 w) as (Hw & Em & Hs). destruct (H1 (negb w)) as (Hw' & Em' & Hs'). pose proof (assign_ok (pick (negb w) s) (pick w s) Hw Hw' (Hsm _)) as Hr.
    destruct (assign _ _ _ _ _ _) as [[] m'| | |]; try done; cbn. destruct Hr as [R1 R2]. split; [done|]. split_and!; [done|by rewrite R2, Em'|]. pose proof (assign_size c _ _ m' (H1 (negb w)) R1 R2). lia.
  - split; [done|]. destruct (H1 true) as (Hw & Em & Hs), (H1 false) as (Hw' & Em' & Hs'). destruct (swap_ok (fst s) (snd s) Hw Hw') as (S1 & S2 & S3 & S4).
    intros [|]; cbn [pick fst snd] in *; (split_and!; [done|unfold to_map in *; by rewrite ?S3, ?S4|]).
    + rewrite (w_size _ S1), S3, <- (w_size _ Hw'). lia.
    + rewrite (w_size _ S2), S4, <- (w_size _ Hw). lia.
Qed.
Lemma exec_all_ok l c s g : two_ok c s g -> c + Z.of_nat (length l) < 2 ^ 50 -> Forall op_ok l ->
  match exec_all l s with Ok r s' => r = fst (spec_all l g) /\ exists c', two_ok c' s' (snd (spec_all l g)) | Abort => aborts | _ => False end.
Proof.
  revert c s g. induction l as [|o l IH]; intros c s g H2 Hc Hl; cbn [exec_all spec_all]; [split; [done|by exists c]|]. inversion_clear Hl as [|? ? Ho Hl']. cbn [length] in Hc. unfold bind.
  pose proof (exec_ok c o s g H2 ltac:(lia) Ho) as He. destruct (exec o s) as [a s1| | |]; try done. destruct He as [-> He]. pose proof (IH (c + 1) s1 _ He ltac:(lia) Hl') as Hr.
  destruct (exec_all l s1) as [r s'| | |]; try done. destruct Hr as [-> [c' Hr]]. split; [done|by exists c'].
Qed.

(** *** Positions across removals *)
Definition keeps (m m' : FlatMap K V) : Prop := _nbucket m' = _nbucket m /\
  forall i b', _buckets m' !! i = Some b' -> exists b, _buckets m !! i = Some b /\ sublist (bucket_elems b') (bucket_elems b).
Lemma keeps_refl m : keeps m m.
Proof. split; [done|]. intros i b Hb. by exists b. Qed.
Lemma keeps_trans m1 m2 m3 : keeps m1 m2 -> keeps m2 m3 -> keeps m1 m3.
Proof.
  intros [E1 H1] [E2 H2]. split; [congruence|]. intros i b3 Hb3. destruct (H2 i b3 Hb3) as (b2 & Hb2 & S2). destruct (H1 i b2 Hb2) as (b1 & Hb1 & S1). exists b1. split; [done|]. by etrans.
Qed.
Lemma keeps_put n p m i b b' : _buckets m !! i = Some b -> sublist (bucket_elems b') (bucket_elems b) -> keeps m (put n p (<[i := b']> (_buckets m)) m).
Proof.
  intros Hb Hs. destruct (put_fields n p (<[i := b']> (_buckets m)) m) as (E & _). split; [done|]. rewrite put_buckets. intros j c Hc. apply list_lookup_insert_Some in Hc as [(<- & <- & _)|[_ Hc]]; [by exists b|by exists c].
Qed.
Lemma unlink_sublist k l a v l' : unlink k l = Some (a, v, l') -> sublist (map snd l') (map snd l).
Proof.
  revert l'. induction l as [|n l IH]; intros l'; [done|]. cbn. destruct (bool_decide (fst (snd n) = k)); [intros [= _ _ ->]; by constructor|]. destruct (unlink k l) as [[[a1 v1] l1]|]; [|done]. cbn. intros [= -> -> <-]. cbn. constructor. by apply IH.
Qed.
Lemma erase_keeps m k r m' : erase hashfn k m = Ok r m' -> keeps m m'.
Proof.
  unfold erase. destruct (_buckets m !! index hashfn k (_nbucket m)) as [[|kv l]|] eqn:Eb; [by intros [= _ <-]; apply keeps_refl| |done]. destruct (bool_decide (fst kv = k)).
  - destruct l as [|[a kv'] l']; intros [= _ <-].
    + replace (set_size _ _) with (put (_size m - 1) (_pool m) (<[index hashfn k (_nbucket m) := Invalid]> (_buckets m)) m) by (unfold put, set_size, set_pool, set_buckets; by destruct (_heap m)).
      eapply keeps_put; [done|]. apply sublist_nil_l.
    + replace (set_size _ _) with (put (_size m - 1) (STP.back a (_pool m)) (<[index hashfn k (_nbucket m) := Valid kv' l']> (_buckets m)) m) by (unfold put, set_size, set_pool, set_buckets; by destruct (_heap m)).
      eapply keeps_put; [done|]. cbn. by constructor.
  - destruct (unlink k l) as [[[a v] l']|] eqn:El; intros [= _ <-]; [|apply keeps_refl].
    replace (set_size _ _) with (put (_size m - 1) (STP.back a (_pool m)) (<[index hashfn k (_nbucket m) := Valid kv l']> (_buckets m)) m) by (unfold put, set_size, set_pool, set_buckets; by destruct (_heap m)).
    eapply keeps_put; [done|]. cbn. constructor. by eapply unlink_sublist.
Qed.
Fixpoint erase_all (ks : list K) : M (FlatMap K V) unit :=
  match ks with [] => ret tt | k :: ks' => bind (erase hashfn k) (fun _ => erase_all ks') end.
Lemma erase_all_keeps ks m : wf m -> exists m', erase_all ks m = Ok tt m' /\ wf m' /\ keeps m m'.
Proof.
  revert m. induction ks as [|k ks IH]; intros m Hw; cbn [erase_all]; [exists m; split_and!; [done|done|apply keeps_refl]|]. unfold bind. destruct (erase_ok m k Hw) as (m1 & E & Hw1 & _). rewrite E.
  destruct (IH m1 Hw1) as (m' & E' & Hw' & Hk). exists m'. split_and!; [done|done|]. eapply keeps_trans; [by eapply erase_keeps|done].
Qed.

(** In a sublist the elements from a key on are those from the key on. *)
Lemma find_key_app k A B : k ∉ keys A -> find_key k (A ++ B) = (fun i => length A + i)%nat <$> find_key k B.
Proof.
  induction A as [|kv A IH]; cbn; [by destruct (find_key k B)|]. intros [Hne Hk]%not_elem_of_cons. destruct (bool_decide_reflect (fst kv = k)); [congruence|]. rewrite (IH Hk). by destruct (find_key k B).
Qed.
Lemma sublist_from l l' d kv k v : NoDup (keys l) -> sublist l' l -> l !! d = Some (k, v) -> kv ∈ drop d l -> kv ∈ l' -> match find_key k l' with Some d' => kv ∈ drop d' l' | None => True end.
Proof.
  intros Hn Hs Hd Hin Hin'. rewrite <- (take_drop d l) in Hs, Hn. rewrite (drop_S _ _ _ Hd) in Hs, Hn, Hin. set (A := take d l) in *. set (C := drop (S d) l) in *. clearbody A C. clear Hd.
  unfold keys in Hn. rewrite map_app in Hn. cbn in Hn. apply NoDup_app in Hn as (_ & HA & HC). apply NoDup_cons in HC as [HkC _]. fold (keys A) in HA.
  apply sublist_app_r in Hs as (A' & B & -> & HA' & HB). assert (forall x, x ∈ keys A' -> x ∈ keys A) as Hsub by (intros x Hx; by eapply elem_of_sublist; [|apply (fmap_sublist fst)]).
  assert (k ∉ keys A') as HkA by (intros Hx%Hsub; apply (HA _ Hx); left). rewrite find_key_app by done. destruct (find_key k B) as [j|] eqn:Ej; [|done]. cbn.
  assert (kv ∈ B) as HkB. { apply elem_of_app in Hin' as [Hx|]; [|done]. exfalso. apply (HA (fst kv)); [apply Hsub; apply list_elem_of_fmap; eauto|]. apply (list_elem_of_fmap_2 fst _ _) in Hin. done. }
  assert (j = 0%nat) as ->; [|rewrite Nat.add_0_r, drop_app_length; done]. apply sublist_cons_r in HB as [HB|(B' & -> & HB)]; [|cbn in Ej; rewrite bool_decide_true in Ej by done; by injection Ej].
  exfalso. pose proof (find_key_spec k B) as Hf. rewrite Ej in Hf. destruct Hf as [x Hx]. apply list_elem_of_lookup_2 in Hx. apply HkC. eapply elem_of_sublist; [|by apply (fmap_sublist fst)]. apply list_elem_of_fmap. by exists (k, x).
Qed.
Lemma elem_bucket m kv : wf m -> kv ∈ elements m -> exists b, _buckets m !! idx (fst kv) (_nbucket m) = Some b /\ kv ∈ bucket_elems b.
Proof. intros Hw Hin. apply belems_elem in Hin as (i & b & Hb & Hkv). rewrite (b_idx _ _ (w_bs _ Hw) i b Hb kv Hkv). by exists b. Qed.
Lemma elem_drop m kv n : wf m -> kv ∈ belems (drop n (_buckets m)) <-> kv ∈ elements m /\ (n <= idx (fst kv) (_nbucket m))%nat.
Proof.
  intros Hw. rewrite belems_elem. split.
  - intros (i & b & Hb & Hkv). rewrite lookup_drop in Hb. rewrite (b_idx _ _ (w_bs _ Hw) _ b Hb kv Hkv). split; [|lia]. apply belems_elem. by exists (n + i)%nat, b.
  - intros [(b & Hb & Hkv)%elem_bucket Hle]; [|done]. exists (idx (fst kv) (_nbucket m) - n)%nat, b. rewrite lookup_drop. by replace (n + (idx (fst kv) (_nbucket m) - n))%nat with (idx (fst kv) (_nbucket m)) by lia.
Qed.
Lemma rest_at m i d kv : wf m -> kv ∈ rest m (i, d) -> (i <= idx (fst kv) (_nbucket m))%nat /\
  (idx (fst kv) (_nbucket m) = i -> exists b, _buckets m !! i = Some b /\ kv ∈ drop d (bucket_elems b)).
Proof.
  intros Hw. unfold rest. cbn [fst snd]. destruct (_buckets m !! i) as [b|] eqn:Eb; [|by intros ?%not_elem_of_nil]. rewrite elem_of_app, elem_drop by done. intros [Hd|[_ Hle]]; [|split; lia].
  assert (kv ∈ bucket_elems b) as Hin by (rewrite <- (take_drop d (bucket_elems b)), elem_of_app; by right). rewrite (b_idx _ _ (w_bs _ Hw) i b Eb kv Hin). split; [lia|]. intros _. by exists b.
Qed.
Lemma buckets_Z m : wf m -> Z.of_nat (length (_buckets m)) = _nbucket m.
Proof. intros Hw. rewrite (b_len _ _ (w_bs _ Hw)). pose proof (pow2_range _ (w_n _ Hw)). lia. Qed.
Lemma save_elem m i d k v : wf m -> deref_it m (i, d) = Some (k, v) -> save_iterator m (i, d) = mkHint (_nbucket m) i (d =? 0)%nat (Some k) /\ (i < length (_buckets m))%nat.
Proof.
  intros Hw Hd. unfold save_iterator. assert (i < length (_buckets m))%nat as Hi by (unfold deref_it in Hd; cbn in Hd; destruct (_buckets m !! i) eqn:E; [by eapply lookup_lt_Some|done]).
  rewrite bool_decide_false; [by rewrite Hd|]. rewrite end_is. intros [= -> ->]. lia.
Qed.
(** After removals every element that was still to come is still to come. *)
Lemma resume_ok m m' it kv : wf m -> wf m' -> keeps m m' -> at_elem m it -> kv ∈ rest m it -> kv ∈ elements m' -> kv ∈ rest m' (restore_iterator m' (save_iterator m it)).
Proof.
  intros Hw Hw' [En Hk] Ha Hr Hin. destruct it as [i d]. destruct Ha as [[= -> ->]|[[k v] Hd]]; [unfold rest in Hr; cbn in Hr; rewrite lookup_ge_None_2 in Hr by done; by apply not_elem_of_nil in Hr|].
  destruct (rest_at m i d kv Hw Hr) as [Hle Hsame]. destruct (save_elem m i d k v Hw Hd) as [-> Hi]. unfold restore_iterator. cbn [h_nbucket h_offset at_entry h_key]. rewrite En, Z.eqb_refl. cbn [negb].
  pose proof (buckets_Z m Hw) as Hz. pose proof (buckets_Z m' Hw') as Hz'. destruct (Z.leb_spec (_nbucket m) (Z.of_nat i)); [lia|].
  assert (kv ∈ belems (drop i (_buckets m'))) as Hfrom by (apply elem_drop; [done|]; rewrite En; done).
  assert (forall n, (n <= length (_buckets m'))%nat -> kv ∈ belems (drop n (_buckets m')) -> kv ∈ rest m' (find_and_set_valid_node m' n)) as Hfind by (intros n Hn Hx; destruct (find_valid_spec m' n Hn) as [_ ->]; done).
  destruct (Nat.eqb_spec d 0) as [->|Hd0]; [apply Hfind; [lia|done]|]. destruct (lookup_lt_is_Some_2 (_buckets m') i ltac:(lia)) as [b' Hb']. rewrite Hb'. destruct (elem_bucket m' kv Hw' Hin) as (c & Hc & Hkc). rewrite En in Hc.
  destruct b' as [|kv0 l0].
  - apply Hfind; [lia|]. apply elem_drop; [done|]. split; [done|]. rewrite En. destruct (decide (idx (fst kv) (_nbucket m) = i)) as [E|]; [|lia]. rewrite E, Hb' in Hc. injection Hc as <-. by apply not_elem_of_nil in Hkc.
  - change (kv0 :: map snd l0) with (bucket_elems (Valid kv0 l0)). destruct (find_key k (bucket_elems (Valid kv0 l0))) as [d'|] eqn:Ef; [|apply Hfind; [lia|done]].
    unfold rest. cbn [fst snd]. rewrite Hb'. apply elem_of_app. destruct (decide (idx (fst kv) (_nbucket m) = i)) as [E|Hne].
    + left. destruct (Hsame E) as (b & Hb & Hkv). destruct (Hk i _ Hb') as (b2 & Hb2 & Hs). assert (b2 = b) as -> by congruence. rewrite E, Hb' in Hc. injection Hc as <-. unfold deref_it in Hd. cbn in Hd. rewrite Hb in Hd. cbn in Hd.
      pose proof (sublist_from _ _ d kv k v (b_keys _ _ (w_bs _ Hw) i b Hb) Hs Hd Hkv Hkc) as Hf. by rewrite Ef in Hf.
    + right. apply elem_drop; [done|]. split; [done|]. rewrite En. lia.
Qed.
Lemma restore_same m it : wf m -> at_elem m it -> restore_iterator m (save_iterator m it) = it.
Proof.
  intros Hw [->|[[k v] Hd]].
  - unfold save_iterator. rewrite end_is, bool_decide_true by done. unfold restore_iterator. cbn [h_nbucket h_offset fst]. rewrite Z.eqb_refl. cbn [negb]. rewrite buckets_Z, Z.leb_refl by done. apply end_is.
  - destruct it as [i d]. destruct (save_elem m i d k v Hw Hd) as [-> Hi]. unfold restore_iterator. cbn [h_nbucket h_offset at_entry h_key]. rewrite Z.eqb_refl. cbn [negb]. pose proof (buckets_Z m Hw). destruct (Z.leb_spec (_nbucket m) (Z.of_nat i)); [lia|].
    unfold deref_it in Hd. cbn in Hd. destruct (_buckets m !! i) as [b|] eqn:Eb; [|done]. cbn in Hd. destruct b as [|kv l]; [done|]. change (kv :: map snd l) with (bucket_elems (Valid kv l)). destruct (Nat.eqb_spec d 0) as [->|Hd0].
    + unfold find_and_set_valid_node. by rewrite (drop_S _ _ _ Eb).
    + pose proof (b_keys _ _ (w_bs _ Hw) i _ Eb) as Hn. pose proof (find_key_spec k (bucket_elems (Valid kv l))) as Hf. destruct (find_key k (bucket_elems (Valid kv l))) as [d'|].
      * destruct Hf as [v' Hf]. f_equal. apply (NoDup_lookup (keys (bucket_elems (Valid kv l))) d' d k Hn); unfold keys; by rewrite list_lookup_fmap, ?Hf, ?Hd.
      * exfalso. apply Hf. apply list_elem_of_fmap. exists (k, v). split; [done|]. by eapply list_elem_of_lookup_2.
Qed.

Lemma new_ok_two : two_ok 0 (new_FlatMap, new_FlatMap) (∅, ∅).
Proof. intros [|]; cbn; (split_and!; [apply new_wf|done|done]). Qed.
Lemma run_ok l r s : Z.of_nat (length l) < 2 ^ 50 -> Forall op_ok l -> exec_all l (new_FlatMap, new_FlatMap) = Ok r s -> forall w, wf (pick w s).
Proof.
  intros Hl Ho E w. pose proof (exec_all_ok l 0 _ _ new_ok_two ltac:(lia) Ho) as Hr. rewrite E in Hr. destruct Hr as (_ & c & Hr). apply Hr.
Qed.

(** C39: Every sequence of operations on two flat maps (insertion, subscript,
    removal, search, iteration, clearing, resizing, assignment and swapping)
    answers what finite maps answer, for every hash function; it ends, it can only
    abort when the array of buckets cannot be allocated, and afterwards the
    sizes are exact and the pool has handed out exactly the nodes of the chains. *)
Theorem flat_map_refines l : Z.of_nat (length l) < 2 ^ 50 -> Forall op_ok l ->
  match exec_all l (new_FlatMap, new_FlatMap) with
  | Ok r s =>
      r = fst (spec_all l (∅, ∅)) /\
      forall w, to_map (pick w s) = pick w (snd (spec_all l (∅, ∅))) /\ _size (pick w s) = Z.of_nat (size (to_map (pick w s))) /\
        STP.count_active (_pool (pick w s)) = length (bnodes (_buckets (pick w s)))
  | Abort => exists n, Alloc n = false
  | _ => False
  end.
Proof.
  intros Hl Ho. pose proof (exec_all_ok l 0 _ _ new_ok_two ltac:(lia) Ho) as Hr. destruct (exec_all l _) as [r s| | |]; try done. destruct Hr as (-> & c & Hr). split; [done|]. intros w. destruct (Hr w) as (Hw & Em & _).
  split_and!; [done|by apply to_map_size|]. by apply STP.active_used, Hw.
Qed.
(** A saved position is restored exactly, and after any removals the
    iteration resumes without leaving out an element that was still to come. *)
Theorem flat_map_resumes l r s w it ks : Z.of_nat (length l) < 2 ^ 50 -> Forall op_ok l -> exec_all l (new_FlatMap, new_FlatMap) = Ok r s -> at_elem (pick w s) it ->
  let m := pick w s in
  restore_iterator m (save_iterator m it) = it /\
  exists m', erase_all ks m = Ok tt m' /\
    forall kv, kv ∈ rest m it -> kv ∈ elements m' -> kv ∈ rest m' (restore_iterator m' (save_iterator m it)).
Proof.
  intros Hl Ho E Ha m. pose proof (run_ok l r s Hl Ho E w) as Hw. split; [by apply restore_same|]. destruct (erase_all_keeps ks m Hw) as (m' & E' & Hw' & Hk). exists m'. split; [done|]. intros kv H1 H2. by apply resume_ok.
Qed.
End Proofs.

(** ** Examples *)

(** A hash function with many collisions, and blocks of two nodes. *)
Definition hash3 (k : Z) : Z := k mod 3.
Definition fill_map (w : bool) (n : nat) : list (op (K := Z) (V := Z)) := map (fun i => Insert w (Z.of_nat i) (Z.of_nat (i * i))) (seq 0 n).
Definition sample_program : list (op (K := Z) (V := Z)) :=
  fill_map true 20 ++ [Erase true 3; Erase true 0; Erase true 77; Seek true 6; Seek true 3; Size true; Iterate true; Subscript true 3; Assign false; Erase false 6; Swap; Seek true 6; Seek false 6; Clear false true; Init false 100 50; Insert false 5 6; Iterate false].
Lemma flat_map_refines_witness : match exec_all hash3 0 2 (fun _ => true) sample_program (new_FlatMap, new_FlatMap) with
  | Ok r s => r = fst (spec_all 0 sample_program (∅, ∅)) /\ _size (pick true s) = 18
  | _ => False
  end.
Proof.
  pose proof (flat_map_refines hash3 0 2 (fun _ => true) ltac:(lia) sample_program ltac:(vm_compute; done) ltac:(repeat constructor; done)) as Hr.
  destruct (exec_all hash3 0 2 (fun _ => true) sample_program _) as [r s| | |]; try done; [|by destruct Hr]. destruct Hr as [-> Hr]. split; [done|]. destruct (Hr true) as (E & -> & _). rewrite E. vm_compute. done.
Defined.
Lemma flat_map_resumes_witness : match exec_all hash3 0 2 (fun _ => true) (fill_map true 7) (new_FlatMap, new_FlatMap) with
  | Ok r s => let m := pick true s in let h := save_iterator m (1, 1)%nat in
      rest m (1, 1)%nat = [(4, 16); (2, 4); (5, 25)] /\ restore_iterator m h = (1, 1)%nat /\
      match erase_all hash3 [4; 1] m with Ok _ m' => rest m' (restore_iterator m' h) = [(2, 4); (5, 25)] /\ (5, 25) ∈ rest m' (restore_iterator m' h) | _ => False end
  | _ => False
  end.
Proof.
  pose proof (fun r s => flat_map_resumes hash3 0 2 (fun _ => true) ltac:(lia) (fill_map true 7) r s true (1, 1)%nat [4; 1] ltac:(vm_compute; done) ltac:(repeat constructor; done)) as Hr.
  destruct (exec_all hash3 0 2 (fun _ => true) (fill_map true 7) _) as [r s| | |] eqn:E; vm_compute in E; try done. specialize (Hr r s eq_refl). injection E as <- <-.
  destruct Hr as [H1 (m' & H2 & H3)]; [right; by eexists|]. split_and!; [vm_compute; done|done|]. rewrite H2. specialize (H3 (5, 25)). vm_compute in H2. injection H2 as <-. split; [vm_compute; done|]. apply H3; vm_compute; repeat constructor.
Defined.
End FM.
