(* ===== verification/ResourcePool.v ===== *)
(** * The resource pool and the object pool (src/src-bthread/butil/resource_pool_inl.h, object_pool_inl.h)

    Items are constructed in blocks, blocks are found through groups of blocks by
    their index.  A thread keeps a block of its own and a list of free items;
    full lists go to the global list of chunks.  Memory is never given back.  The
    two pools are the same code: the resource pool names an item by its
    identifier, the object pool by its address.  The class [PoolItem] is that
    difference, its laws are [PoolItemLaws].  The model has any number of threads;
    a step is one critical section or one access to a shared variable.  [used] are
    the items that the callers have, [lost] those that were dropped for want of
    memory when a thread ended.  The outcomes of allocations and of the validator
    are arguments of the steps. *)
From S2P Require Import Prelude.

Module RP.

Definition RP_MAX_BLOCK_NGROUP : Z := 65536.
Definition RP_GROUP_NBLOCK_NBIT : Z := 16.
Definition RP_GROUP_NBLOCK : Z := 65536.
(** A block and the item in it. *)
Abbreviation addr := (nat * nat)%type.
Record BlockGroup := mkGroup { nblock : Z; blocks : gmap Z nat }.
Definition new_BlockGroup : BlockGroup := mkGroup 0 ∅.
(** The block of an index. *)
Definition find_block (gs : list BlockGroup) (block_index : Z) : option nat :=
  g ← gs !! Z.to_nat (Z.shiftr block_index RP_GROUP_NBLOCK_NBIT); blocks g !! Z.land block_index (RP_GROUP_NBLOCK - 1).

(** How an item is named: by the index of its block, the block and its place in it. *)
Class PoolItem (I : Type) := { item : Z -> nat -> nat -> I; locate : list BlockGroup -> I -> option addr }.

Section Model.
Context {I : Type} {ED : EqDecision I} {PI : PoolItem I}.
Variables BLOCK_NITEM MAX_FREE : nat.

Record LocalPool := mkLP { _cur_block : option nat; _cur_block_index : Z; _cur_free : list I }.
Definition new_LocalPool : LocalPool := mkLP None 0 [].
(** Where a thread is in [get] and [add_block]; [b] is the new block. *)
Inductive PC :=
| Idle
| GCheck                        (* the test of [_free_chunks] without the lock *)
| GPop                          (* [pop_free_chunk] with the lock *)
| GItem
| GLoad (b : nat)
| GFetch (ngroup b : nat)
| GStore (ngroup : nat) (block_index : Z) (b : nat)
| GSub (ngroup b : nat)
| GGroup (old_ngroup b : nat).
Record Thread := mkThread { local : option LocalPool; pc : PC }.
Definition new_Thread : Thread := mkThread None Idle.
Record S := mkS { groups : list BlockGroup; nitems : list nat; free_chunks : list (list I); threads : list Thread; used : list (I * addr); lost : list I; fault : bool }.

Definition set_groups l s := mkS l (nitems s) (free_chunks s) (threads s) (used s) (lost s) (fault s).
Definition set_nitems l s := mkS (groups s) l (free_chunks s) (threads s) (used s) (lost s) (fault s).
Definition set_chunks l s := mkS (groups s) (nitems s) l (threads s) (used s) (lost s) (fault s).
Definition set_threads l s := mkS (groups s) (nitems s) (free_chunks s) l (used s) (lost s) (fault s).
Definition set_used l s := mkS (groups s) (nitems s) (free_chunks s) (threads s) l (lost s) (fault s).
Definition set_lost l s := mkS (groups s) (nitems s) (free_chunks s) (threads s) (used s) l (fault s).
Definition set_fault s := mkS (groups s) (nitems s) (free_chunks s) (threads s) (used s) (lost s) true.
Definition set_thread (i : nat) (t : Thread) (s : S) : S := set_threads (<[i := t]> (threads s)) s.

Definition free_chunk_nitem : nat := if (MAX_FREE <? BLOCK_NITEM)%nat then MAX_FREE else BLOCK_NITEM.
Definition get_or_new_local_pool (ok : bool) (t : Thread) : option LocalPool :=
  match local t with Some lp => Some lp | None => if ok then Some new_LocalPool else None end.
(** An item that was free goes to the caller. *)
Definition hand_out (it : I) (s : S) : S :=
  match locate (groups s) it with Some a => set_used ((it, a) :: used s) s | None => set_fault s end.

(** [get]: the part that uses the thread's own list. *)
Definition get (s : S) (i : nat) (ok : bool) : option S :=
  t ← threads s !! i;
  match pc t, get_or_new_local_pool ok t with
  | Idle, None => Some s
  | Idle, Some lp =>
      Some match _cur_free lp with
           | it :: l => hand_out it (set_thread i (mkThread (Some (mkLP (_cur_block lp) (_cur_block_index lp) l)) Idle) s)
           | [] => set_thread i (mkThread (Some lp) GCheck) s
           end
  | _, _ => None
  end.
(** [pop_free_chunk] with the lock, and the item that is taken of the chunk. *)
Definition pop_free_chunk (s : S) (i : nat) (lp : LocalPool) : S :=
  match free_chunks s with
  | [] => set_thread i (mkThread (Some lp) GItem) s
  | [] :: _ => set_fault s
  | (it :: c) :: l => hand_out it (set_chunks l (set_thread i (mkThread (Some (mkLP (_cur_block lp) (_cur_block_index lp) c)) Idle) s))
  end.
(** A new item of the own block if there is room in it, else a new block. *)
Definition new_item (s : S) (i : nat) (lp : LocalPool) (ok : bool) : S :=
  match _cur_block lp with
  | Some b =>
      let n := default 0%nat (nitems s !! b) in
      if (n <? BLOCK_NITEM)%nat then
        let s1 := set_thread i (mkThread (Some lp) Idle) s in
        if ok then set_used ((item (_cur_block_index lp) b n, (b, n)) :: used s) (set_nitems (<[b := Datatypes.S n]> (nitems s)) s1) else s1
      else if ok then set_thread i (mkThread (Some lp) (GLoad (length (nitems s)))) (set_nitems (nitems s ++ [0%nat]) s)
      else set_thread i (mkThread (Some (mkLP None (_cur_block_index lp) (_cur_free lp))) Idle) s
  | None =>
      if ok then set_thread i (mkThread (Some lp) (GLoad (length (nitems s)))) (set_nitems (nitems s ++ [0%nat]) s)
      else set_thread i (mkThread (Some (mkLP None (_cur_block_index lp) (_cur_free lp))) Idle) s
  end.
(** The steps of [add_block]. *)
Definition fetch_add (s : S) (i : nat) (lp : LocalPool) (n b : nat) : S :=
  match groups s !! (n - 1)%nat with
  | None => set_fault s
  | Some G =>
      let s1 := set_groups (<[(n - 1)%nat := mkGroup (nblock G + 1) (blocks G)]> (groups s)) s in
      set_thread i (mkThread (Some lp) (if nblock G <? RP_GROUP_NBLOCK then GStore n (nblock G) b else GSub n b)) s1
  end.
Definition store_block (s : S) (i : nat) (lp : LocalPool) (n : nat) (block_index : Z) (b : nat) : S :=
  match groups s !! (n - 1)%nat with
  | None => set_fault s
  | Some G =>
      let index := (Z.of_nat n - 1) * RP_GROUP_NBLOCK + block_index in
      set_thread i (mkThread (Some (mkLP (Some b) index (_cur_free lp))) GItem) (set_groups (<[(n - 1)%nat := mkGroup (nblock G) (<[block_index := b]> (blocks G))]> (groups s)) s)
  end.
Definition fetch_sub (s : S) (i : nat) (lp : LocalPool) (n b : nat) : S :=
  match groups s !! (n - 1)%nat with
  | None => set_fault s
  | Some G => set_thread i (mkThread (Some lp) (GGroup n b)) (set_groups (<[(n - 1)%nat := mkGroup (nblock G - 1) (blocks G)]> (groups s)) s)
  end.
Definition add_block_group (s : S) (i : nat) (lp : LocalPool) (old_ngroup b : nat) (ok : bool) : S :=
  if negb (length (groups s) =? old_ngroup)%nat then set_thread i (mkThread (Some lp) (GLoad b)) s
  else if (Z.of_nat (length (groups s)) <? RP_MAX_BLOCK_NGROUP) && ok then set_thread i (mkThread (Some lp) (GLoad b)) (set_groups (groups s ++ [new_BlockGroup]) s)
  else set_thread i (mkThread (Some (mkLP None (_cur_block_index lp) (_cur_free lp))) Idle) s.
Definition go (s : S) (i : nat) (ok : bool) : option S :=
  t ← threads s !! i;
  lp ← local t;
  match pc t with
  | Idle => None
  | GCheck => Some (set_thread i (mkThread (Some lp) (match free_chunks s with [] => GItem | _ => GPop end)) s)
  | GPop => Some (pop_free_chunk s i lp)
  | GItem => Some (new_item s i lp ok)
  | GLoad b => Some (set_thread i (mkThread (Some lp) (match groups s with [] => GGroup 0 b | _ => GFetch (length (groups s)) b end)) s)
  | GFetch n b => Some (fetch_add s i lp n b)
  | GStore n bi b => Some (store_block s i lp n bi b)
  | GSub n b => Some (fetch_sub s i lp n b)
  | GGroup n b => Some (add_block_group s i lp n b ok)
  end.

(** [return_resource]: its result is 0 if the item was taken back. *)
Definition return_item (s : S) (i : nat) (it : I) (ok ok2 : bool) : option (Z * S) :=
  t ← threads s !! i;
  match pc t, get_or_new_local_pool ok t with
  | Idle, None => Some (-1, s)
  | Idle, Some lp =>
      let back := set_used (List.filter (fun x => negb (bool_decide (fst x = it))) (used s)) s in
      Some (if (length (_cur_free lp) <? free_chunk_nitem)%nat then
              (0, set_thread i (mkThread (Some (mkLP (_cur_block lp) (_cur_block_index lp) (it :: _cur_free lp))) Idle) back)
            else if ok2 then
              (0, set_chunks (_cur_free lp :: free_chunks s) (set_thread i (mkThread (Some (mkLP (_cur_block lp) (_cur_block_index lp) [it])) Idle) back))
            else (-1, set_thread i (mkThread (Some lp) Idle) s))
  | _, _ => None
  end.
(** The end of a thread: [~LocalPool]. *)
Definition delete_local_pool (s : S) (i : nat) (ok : bool) : option S :=
  t ← threads s !! i;
  match pc t, local t with
  | Idle, Some lp =>
      let s1 := set_thread i new_Thread s in
      Some match _cur_free lp with
           | [] => s1
           | _ => if ok then set_chunks (_cur_free lp :: free_chunks s) s1 else set_lost (_cur_free lp ++ lost s) s1
           end
  | Idle, None => Some s
  | _, _ => None
  end.

Inductive call := Get (i : nat) (ok : bool) | Go (i : nat) (ok : bool) | Return (i : nat) (it : I) (ok ok2 : bool) | Exit (i : nat) (ok : bool).
(** Callers give back only what they have. *)
Definition do_call (s : S) (c : call) : option S :=
  match c with
  | Get i ok => get s i ok
  | Go i ok => go s i ok
  | Return i it ok ok2 => if bool_decide (it ∈ map fst (used s)) then snd <$> return_item s i it ok ok2 else None
  | Exit i ok => delete_local_pool s i ok
  end.
Definition step (s s' : S) : Prop := exists c, do_call s c = Some s'.
Definition init (n : nat) : S := mkS [] [] [] (replicate n new_Thread) [] [] false.
Definition reachable (n : nat) : S -> Prop := steps step (init n).
Fixpoint run (l : list call) (s : S) : option S := match l with [] => Some s | c :: l' => s' ← do_call s c; run l' s' end.

End Model.

(** ** The two pools *)

(** [unsafe_address_resource] *)
Definition unsafe_address_resource (BLOCK_NITEM : nat) (gs : list BlockGroup) (id : Z) : option addr :=
  let block_index := id / Z.of_nat BLOCK_NITEM in
  b ← find_block gs block_index; Some (b, Z.to_nat (id - block_index * Z.of_nat BLOCK_NITEM)).
(** [address_resource], for any identifier. *)
Definition address_resource {I} (BLOCK_NITEM : nat) (s : @S I) (id : Z) : option addr :=
  let block_index := id / Z.of_nat BLOCK_NITEM in
  let group_index := Z.shiftr block_index RP_GROUP_NBLOCK_NBIT in
  if group_index <? RP_MAX_BLOCK_NGROUP then
    b ← find_block (groups s) block_index;
    n ← nitems s !! b;
    let offset := id - block_index * Z.of_nat BLOCK_NITEM in
    if offset <? Z.of_nat n then Some (b, Z.to_nat offset) else None
  else None.
Definition resource_item (BLOCK_NITEM : nat) : PoolItem Z :=
  {| item block_index _ k := block_index * Z.of_nat BLOCK_NITEM + Z.of_nat k; locate := unsafe_address_resource BLOCK_NITEM |}.
Definition object_item : PoolItem addr := {| item _ b k := (b, k); locate _ p := Some p |}.

(** ** Indices *)

Definition reg (gs : list BlockGroup) (g : nat) (i : Z) (b : nat) : Prop := exists G, gs !! g = Some G /\ blocks G !! i = Some b.
Definition index_of (g : nat) (i : Z) : Z := Z.of_nat g * RP_GROUP_NBLOCK + i.
Definition in_group (i : Z) : Prop := 0 <= i < RP_GROUP_NBLOCK.
Lemma index_parts g i : in_group i -> Z.to_nat (Z.shiftr (index_of g i) RP_GROUP_NBLOCK_NBIT) = g /\ Z.land (index_of g i) (RP_GROUP_NBLOCK - 1) = i.
Proof.
  unfold in_group, index_of, RP_GROUP_NBLOCK, RP_GROUP_NBLOCK_NBIT. intros Hi. change (65536 - 1) with (Z.ones 16). rewrite Z.land_ones, Z.shiftr_div_pow2 by lia. change (2 ^ 16) with 65536.
  rewrite Z.div_add_l, Z.div_small by lia. rewrite (Z.add_comm (_ * _)), Z.mod_add, Z.mod_small by lia. split; lia.
Qed.
Lemma index_inj g i g' i' : in_group i -> in_group i' -> index_of g i = index_of g' i' -> g = g' /\ i = i'.
Proof. unfold in_group, index_of, RP_GROUP_NBLOCK. lia. Qed.
Lemma find_index gs g i : in_group i -> find_block gs (index_of g i) = (G ← gs !! g; blocks G !! i).
Proof. intros Hi. unfold find_block. by destruct (index_parts g i Hi) as [-> ->]. Qed.
Lemma find_reg gs g i b : in_group i -> find_block gs (index_of g i) = Some b <-> reg gs g i b.
Proof. intros Hi. rewrite find_index by done. unfold reg. destruct (gs !! g) as [G|]; cbn; naive_solver. Qed.
Lemma reg_insert gs g G G' g' i b : gs !! g = Some G -> reg (<[g := G']> gs) g' i b <-> (g' = g /\ blocks G' !! i = Some b) \/ (g' <> g /\ reg gs g' i b).
Proof.
  intros Hg. unfold reg. destruct (decide (g' = g)) as [->|Hne].
  - rewrite list_lookup_insert_eq by (by eapply lookup_lt_Some). naive_solver.
  - rewrite list_lookup_insert_ne by done. naive_solver.
Qed.
Lemma reg_same gs g G n g' i b : gs !! g = Some G -> reg (<[g := mkGroup n (blocks G)]> gs) g' i b <-> reg gs g' i b.
Proof. intros Hg. rewrite (reg_insert gs g G) by done. cbn. unfold reg. destruct (decide (g' = g)) as [->|]; naive_solver. Qed.
Lemma reg_new gs g i b : reg (gs ++ [new_BlockGroup]) g i b <-> reg gs g i b.
Proof.
  unfold reg. split; intros (G & Hg & Hb).
  - apply lookup_app_Some in Hg as [Hg|[_ Hg]]; [by exists G|]. destruct (g - length gs)%nat as [|[|?]]; [|done..]. injection Hg as <-. done.
  - exists G. split; [by apply lookup_app_l_Some|done].
Qed.

(** What the pools need of the names of items. *)
Class PoolItemLaws (BLOCK_NITEM : nat) (I : Type) (PI : PoolItem I) : Prop := {
  locate_item : forall gs g i b k, in_group i -> reg gs g i b -> (k < BLOCK_NITEM)%nat -> locate gs (item (index_of g i) b k) = Some (b, k);
  item_inj : forall x b k x' b' k', (k < BLOCK_NITEM)%nat -> (k' < BLOCK_NITEM)%nat -> item x b k = item x' b' k' -> (x = x' \/ b = b') /\ k = k' }.
Lemma resource_laws B : PoolItemLaws B Z (resource_item B).
Proof.
  split.
  - intros gs g i b k Hi Hr Hk. cbn. unfold unsafe_address_resource. rewrite Z.div_add_l, Z.div_small, Z.add_0_r by lia. apply (find_reg gs g i b Hi) in Hr. rewrite Hr. cbn. do 2 f_equal. lia.
  - intros x b k x' b' k' Hk Hk'. cbn. intros E. assert (x = x') by nia. subst. split; [by left|lia].
Qed.
Lemma object_laws B : PoolItemLaws B addr object_item.
Proof. split; [done|]. intros x b k x' b' k' _ _ [= -> ->]. split; [by right|done]. Qed.

(** ** Values that no two threads share *)

Definition distinct {A X} (f : A -> option X) (l : list A) : Prop := forall i j a b x, l !! i = Some a -> l !! j = Some b -> f a = Some x -> f b = Some x -> i = j.
Lemma distinct_insert {A X} (f : A -> option X) (l : list A) i a' : distinct f l ->
  (forall x, f a' = Some x -> forall j b, j <> i -> l !! j = Some b -> f b <> Some x) -> distinct f (<[i := a']> l).
Proof.
  intros Hd Hf j k a b x Hj Hk Ea Eb. apply list_lookup_insert_Some in Hj as [(<- & <- & Hl)|[Hji Hj]]; apply list_lookup_insert_Some in Hk as [(<- & <- & Hl')|[Hki Hk]]; try done.
  - exfalso. by eapply (Hf x Ea k b).
  - exfalso. by eapply (Hf x Eb j a).
  - by eapply Hd.
Qed.
Lemma distinct_same {A X} (f : A -> option X) (l : list A) i a a' : distinct f l -> l !! i = Some a -> (f a' = f a \/ f a' = None) -> distinct f (<[i := a']> l).
Proof.
  intros Hd Hi [E|E]; (apply distinct_insert; [done|]); intros x Hx j b Hj Hb; [|congruence]. intros Hbx. apply Hj. rewrite E in Hx. by eapply (Hd j i b a x).
Qed.

(** ** The blocks *)

Section Proofs.
Context {I : Type} {ED : EqDecision I} {PI : PoolItem I}.
Variables BLOCK_NITEM MAX_FREE : nat.
Context {Laws : PoolItemLaws BLOCK_NITEM I PI}.
Hypothesis BLOCK_NITEM_pos : (0 < BLOCK_NITEM)%nat.
Hypothesis MAX_FREE_pos : (0 < MAX_FREE)%nat.
Local Abbreviation St := (@S I).
Implicit Types (s : St) (t : @Thread I) (lp : @LocalPool I).

Definition cur (t : @Thread I) : option nat := lp ← local t; _cur_block lp.
Definition newb (t : @Thread I) : option nat :=
  match pc t with GLoad b | GFetch _ b | GStore _ _ b | GSub _ b | GGroup _ b => Some b | _ => None end.
Definition claim (t : @Thread I) : option (nat * Z) := match pc t with GStore n i _ => Some (n, i) | _ => None end.
Definition sub_at (g : nat) (t : @Thread I) : nat := match pc t with GSub n _ => if (n =? Datatypes.S g)%nat then 1 else 0 | _ => 0 end.
Definition subs (s : St) (g : nat) : Z := Z.of_nat (sum_list_with (sub_at g) (threads s)).

(** A block that is not registered yet. *)
Definition unregistered (s : St) (b : nat) : Prop := nitems s !! b = Some 0%nat /\ forall g i, ~ reg (groups s) g i b.
Definition claim_ok (s : St) (n : nat) (i : Z) : Prop := (1 <= n)%nat /\ in_group i /\ exists G, groups s !! (n - 1)%nat = Some G /\ i < nblock G /\ blocks G !! i = None.
Definition pc_ok (s : St) (p : PC) : Prop :=
  match p with
  | Idle | GCheck | GPop | GItem => True
  | GLoad b => unregistered s b
  | GFetch n b | GSub n b => unregistered s b /\ (1 <= n <= length (groups s))%nat
  | GStore n i b => unregistered s b /\ claim_ok s n i
  | GGroup n b => unregistered s b /\ (n <= length (groups s))%nat
  end.
Definition lp_ok (s : St) (lp : @LocalPool I) : Prop :=
  (length (_cur_free lp) <= BLOCK_NITEM)%nat /\ forall b, _cur_block lp = Some b -> exists g i, in_group i /\ reg (groups s) g i b /\ _cur_block_index lp = index_of g i.
Definition thr_ok (s : St) (t : @Thread I) : Prop :=
  match local t with
  | None => pc t = Idle
  | Some lp => lp_ok s lp /\ (pc t <> Idle -> _cur_free lp = []) /\ pc_ok s (pc t)
  end.
Record str (s : St) : Prop := {
  s_len : Z.of_nat (length (groups s)) <= RP_MAX_BLOCK_NGROUP;
  s_nb : forall g G, groups s !! g = Some G -> 0 <= nblock G;
  s_key : forall g G i b, groups s !! g = Some G -> blocks G !! i = Some b -> in_group i /\ i < nblock G /\ (b < length (nitems s))%nat;
  s_inj : forall g i b g' i', reg (groups s) g i b -> reg (groups s) g' i' b -> g = g' /\ i = i';
  s_n : forall b n, nitems s !! b = Some n -> (n <= BLOCK_NITEM)%nat;
  s_thr : forall j t, threads s !! j = Some t -> thr_ok s t;
  s_cur : distinct cur (threads s);
  s_new : distinct newb (threads s);
  s_claim : distinct claim (threads s);
  s_sub : forall g G, groups s !! g = Some G -> 0 < subs s g -> RP_GROUP_NBLOCK + subs s g <= nblock G }.

Lemma thr_keep s s' t : thr_ok s t -> (forall g i b, reg (groups s) g i b -> reg (groups s') g i b) -> (forall b, newb t = Some b -> unregistered s b -> unregistered s' b) ->
  (length (groups s) <= length (groups s'))%nat -> (forall n i, claim t = Some (n, i) -> claim_ok s n i -> claim_ok s' n i) -> thr_ok s' t.
Proof.
  intros Ht Hr Hn Hl Hc. unfold thr_ok in *. destruct (local t) as [lp|]; [|done]. destruct Ht as ((H1 & H2) & H3 & H4). split; [split; [done|]|split; [done|]].
  - intros b Hb. destruct (H2 b Hb) as (g & i & ? & ? & ?). exists g, i. auto.
  - unfold newb, claim in *. unfold pc_ok in *. destruct (pc t); try done; try (split; [|lia]); try (by apply Hn); try (by apply Hn, H4). destruct H4 as [H4 H5]. split; [by apply Hn|by apply Hc].
Qed.
(** The groups and blocks stay; a thread moves. *)
Lemma str_move s s' i t t' : str s -> threads s !! i = Some t -> groups s' = groups s -> nitems s' = nitems s -> threads s' = <[i := t']> (threads s) -> thr_ok s t' ->
  (cur t' = cur t \/ cur t' = None) -> (newb t' = newb t \/ newb t' = None) -> (claim t' = claim t \/ claim t' = None) -> (forall g, sub_at g t' = sub_at g t) -> str s'.
Proof.
  intros [H1 H2 H3 H4 H5 H6 H7 H8 H9 H10] Hi EG EN ET Ht' Hc Hn Hcl Hs.
  assert (forall g, subs s' g = subs s g) as Hsub by (intros g; unfold subs; rewrite ET; pose proof (sum_insert (sub_at g) (threads s) i t t' Hi); rewrite Hs in *; lia).
  assert (forall u, thr_ok s u -> thr_ok s' u) as Hk.
  { intros u Hu. eapply thr_keep; [done|by rewrite EG|unfold unregistered; by rewrite EG, EN|by rewrite EG|unfold claim_ok; by rewrite EG]. }
  split; rewrite ?EG, ?EN, ?ET; try done; try (by eapply distinct_same).
  - intros j u Hu. apply list_lookup_insert_Some in Hu as [(<- & <- & _)|[_ Hu]]; apply Hk; [done|by eapply H6].
  - intros g G. rewrite Hsub. apply H10.
Qed.
(** A new block is made. *)
Lemma str_block s s' i t t' : str s -> threads s !! i = Some t -> groups s' = groups s -> nitems s' = nitems s ++ [0%nat] -> threads s' = <[i := t']> (threads s) ->
  local t' = local t -> local t <> None -> pc t = GItem -> pc t' = GLoad (length (nitems s)) -> str s'.
Proof.
  intros [H1 H2 H3 H4 H5 H6 H7 H8 H9 H10] Hi EG EN ET EL Hlo Ep Ep'.
  assert (forall g, subs s' g = subs s g) as Hsub by (intros g; unfold subs; rewrite ET; pose proof (sum_insert (sub_at g) (threads s) i t t' Hi) as E; unfold sub_at at 2 4 in E; rewrite Ep, Ep' in E; lia).
  assert (forall b, unregistered s b -> unregistered s' b) as Hun by (intros b [E1 E2]; unfold unregistered; rewrite EG, EN; split; [by apply lookup_app_l_Some|done]).
  assert (forall j u b, threads s !! j = Some u -> newb u = Some b -> (b < length (nitems s))%nat) as Hlt.
  { intros j u b Hj Hb. pose proof (H6 j u Hj) as Hu. unfold thr_ok in Hu. destruct (local u); [|unfold newb in Hb; by rewrite Hu in Hb]. destruct Hu as (_ & _ & Hu). assert (unregistered s b) as [Hx _]; [|by eapply lookup_lt_Some].
    unfold newb, pc_ok in *. destruct (pc u); try done; injection Hb as <-; naive_solver. }
  split; rewrite ?EG, ?ET; try done.
  - intros g G k b Hg Hb. destruct (H3 g G k b Hg Hb) as (? & ? & ?). rewrite EN, length_app. cbn. split_and!; [done|done|lia].
  - intros b n. rewrite EN. intros [Hb|[_ Hb]]%lookup_app_Some; [by eapply H5|]. destruct (b - length (nitems s))%nat as [|[|?]]; try done. injection Hb as <-. lia.
  - intros j u Hu. apply list_lookup_insert_Some in Hu as [(<- & <- & _)|[_ Hu]].
    + pose proof (H6 i t Hi) as Ht. unfold thr_ok in *. rewrite EL, Ep'. destruct (local t) as [lp|]; [|done]. destruct Ht as ((G1 & G2) & G3 & _). rewrite Ep in G3. split; [split; [done|]|split; [intros _; by apply G3|]].
      * rewrite EG. done.
      * split; [rewrite EN; by apply list_lookup_middle|]. rewrite EG. intros g k (G & Hg & Hb). destruct (H3 g G k _ Hg Hb) as (_ & _ & ?). lia.
    + eapply (thr_keep s); [by eapply H6|by rewrite EG|intros b _; apply Hun|by rewrite EG|unfold claim_ok; by rewrite EG].
  - eapply distinct_same; try done. left. unfold cur. by rewrite EL.
  - apply distinct_insert; [done|]. unfold newb at 1. rewrite Ep'. intros x [= <-] j u Hj Hu E. pose proof (Hlt j u _ Hu E). lia.
  - eapply distinct_same; try done. right. unfold claim. by rewrite Ep'.
  - intros g G. rewrite Hsub. apply H10.
Qed.
(** The count of a group changes. *)
Lemma str_count s s' i t t' g G c : str s -> threads s !! i = Some t -> groups s !! g = Some G -> groups s' = <[g := mkGroup c (blocks G)]> (groups s) -> nitems s' = nitems s -> threads s' = <[i := t']> (threads s) ->
  0 <= c -> (forall k, in_group k -> k < nblock G -> k < c) -> local t' = local t -> local t <> None -> pc t <> Idle -> pc_ok s' (pc t') -> newb t' = newb t ->
  (forall x, claim t' = Some x -> forall j u, j <> i -> threads s !! j = Some u -> claim u <> Some x) ->
  (forall g', g' <> g -> sub_at g' t' = sub_at g' t) -> (0 < subs s' g -> RP_GROUP_NBLOCK + subs s' g <= c) -> str s'.
Proof.
  intros [H1 H2 H3 H4 H5 H6 H7 H8 H9 H10] Hi HG EG EN ET Hc Hk EL Hlo Hp Hpc Enw Hcl Hs Hsg.
  assert (forall a k b, reg (groups s') a k b <-> reg (groups s) a k b) as Hreg by (intros; rewrite EG; by apply reg_same).
  assert (length (groups s') = length (groups s)) as Elen by (rewrite EG; apply length_insert).
  assert (forall a A, groups s' !! a = Some A -> exists A0, groups s !! a = Some A0 /\ blocks A = blocks A0 /\ (a = g /\ nblock A = c \/ a <> g /\ A = A0)) as Hg.
  { intros a A. rewrite EG. intros [(<- & <- & _)|[? Ha]]%list_lookup_insert_Some; [exists G; auto|exists A; auto]. }
  assert (forall b, unregistered s b -> unregistered s' b) as Hun by (intros b [E1 E2]; split; [by rewrite EN|]; intros a k Hr; by eapply E2, Hreg).
  assert (forall n k, claim_ok s n k -> claim_ok s' n k) as Hco.
  { intros n k (C1 & C2 & A & C3 & C4 & C5). split_and!; [done|apply C2..|]. rewrite EG. destruct (decide (n - 1 = g)%nat) as [E|E].
    - rewrite E in *. rewrite C3 in HG. injection HG as <-. eexists. rewrite list_lookup_insert_eq by (by eapply lookup_lt_Some). split; [done|]. cbn. auto.
    - exists A. by rewrite list_lookup_insert_ne. }
  split; rewrite ?Elen, ?EN, ?ET; try done.
  - intros a A Ha. destruct (Hg a A Ha) as (A0 & Ha0 & _ & [[-> ->]|[_ ->]]); [done|by eapply H2].
  - intros a A k b Ha Hb. destruct (Hg a A Ha) as (A0 & Ha0 & EB & Hcase). rewrite EB in Hb. destruct (H3 a A0 k b Ha0 Hb) as (K1 & K2 & K3). split_and!; [apply K1..| |done].
    destruct Hcase as [[-> ->]|[_ ->]]; [|done]. rewrite HG in Ha0. injection Ha0 as <-. by apply Hk.
  - intros a k b a' k' R1 R2. by eapply H4; apply Hreg.
  - intros j u Hu. apply list_lookup_insert_Some in Hu as [(<- & <- & _)|[_ Hu]].
    + pose proof (H6 i t Hi) as Ht. unfold thr_ok in *. rewrite EL. destruct (local t) as [lp|]; [|done]. destruct Ht as ((G1 & G2) & G3 & _). split; [split; [done|]|split; [intros _; by apply G3|done]].
      intros b Hb. destruct (G2 b Hb) as (a & k & ? & ? & ?). exists a, k. by rewrite Hreg.
    + eapply (thr_keep s); [by eapply H6|intros; by apply Hreg|intros b _; apply Hun|lia|intros n k _; apply Hco].
  - eapply distinct_same; try done. left. unfold cur. by rewrite EL.
  - eapply distinct_same; try done. by left.
  - by apply distinct_insert.
  - intros a A Ha. destruct (Hg a A Ha) as (A0 & Ha0 & _ & [[-> ->]|[Hne ->]]); [done|]. replace (subs s' a) with (subs s a); [by apply H10|].
    unfold subs. rewrite ET. pose proof (sum_insert (sub_at a) (threads s) i t t' Hi) as E. rewrite (Hs a Hne) in E. lia.
Qed.
(** A block is entered into its group. *)
Lemma str_store s s' i t t' n k b G lp : str s -> threads s !! i = Some t -> pc t = GStore n k b -> local t = Some lp -> groups s !! (n - 1)%nat = Some G ->
  groups s' = <[(n - 1)%nat := mkGroup (nblock G) (<[k := b]> (blocks G))]> (groups s) -> nitems s' = nitems s -> threads s' = <[i := t']> (threads s) ->
  t' = mkThread (Some (mkLP (Some b) (index_of (n - 1) k) (_cur_free lp))) GItem -> str s'.
Proof.
  intros [H1 H2 H3 H4 H5 H6 H7 H8 H9 H10] Hi Ep EL HG EG EN ET ->.
  pose proof (H6 i t Hi) as Ht. unfold thr_ok in Ht. rewrite EL, Ep in Ht. destruct Ht as ((T1 & T2) & T3 & (T4 & T5) & T6). destruct T6 as (C1 & C2 & A & C3 & C4 & C5). rewrite HG in C3. injection C3 as <-.
  assert (forall a j c, reg (groups s') a j c <-> reg (groups s) a j c \/ (a = (n - 1)%nat /\ j = k /\ c = b)) as Hreg.
  { intros a j c. rewrite EG, (reg_insert (groups s) (n - 1) G) by done. cbn. rewrite lookup_insert_Some. unfold reg. destruct (decide (a = (n - 1)%nat)) as [->|]; [|naive_solver]. rewrite HG. split; [naive_solver|].
    intros [(A & [= <-] & Ha)|(_ & -> & ->)]; [|naive_solver]. left. split; [done|]. right. split; [|done]. intros <-. congruence. }
  assert (length (groups s') = length (groups s)) as Elen by (rewrite EG; apply length_insert).
  assert (forall a A, groups s' !! a = Some A -> exists A0, groups s !! a = Some A0 /\ nblock A = nblock A0) as Hg.
  { intros a A. rewrite EG. intros [(<- & <- & _)|[? Ha]]%list_lookup_insert_Some; [exists G; auto|exists A; auto]. }
  split; rewrite ?Elen, ?EN, ?ET; try done.
  - intros a A Ha. destruct (Hg a A Ha) as (A0 & Ha0 & ->). by eapply H2.
  - intros a A j c Ha Hb. destruct (Hg a A Ha) as (A0 & Ha0 & ->). assert (reg (groups s') a j c) as Hr by (by exists A). apply Hreg in Hr as [(A1 & Ha1 & Hb1)|(-> & -> & ->)].
    + rewrite Ha0 in Ha1. injection Ha1 as <-. by eapply H3.
    + rewrite HG in Ha0. injection Ha0 as <-. split_and!; [apply C2..|done|by eapply lookup_lt_Some].
  - intros a j c a' j' R1 R2. apply Hreg in R1 as [R1|(-> & -> & ->)]; apply Hreg in R2 as [R2|(E1 & E2 & E3)]; subst; try done; [by eapply H4|exfalso; by eapply T5..].
  - intros j u Hu. apply list_lookup_insert_Some in Hu as [(<- & <- & _)|[Hne Hu]].
    + split; [split; [done|]|split; [by intros _; apply T3|done]]. cbn. intros c [= <-]. exists (n - 1)%nat, k. split_and!; [apply C2..| |done]. apply Hreg. by right.
    + eapply (thr_keep s); [by eapply H6|intros; apply Hreg; by left| |lia|].
      * intros c Hc [E1 E2]. split; [by rewrite EN|]. intros a m Hr. apply Hreg in Hr as [Hr|(_ & _ & ->)]; [by eapply E2|]. apply Hne. apply (H8 i j t u b); try done. unfold newb. by rewrite Ep.
      * intros m q Hm (D1 & D2 & A & D3 & D4 & D5). split_and!; [done|apply D2..|]. rewrite EG. destruct (decide (m - 1 = n - 1)%nat) as [E|E].
        -- rewrite E in *. rewrite HG in D3. injection D3 as <-. eexists. rewrite list_lookup_insert_eq by (by eapply lookup_lt_Some). split; [done|]. cbn. split; [done|]. rewrite lookup_insert_None. split; [done|]. intros <-.
           apply Hne. assert (m = n) as -> by lia. apply (H9 i j t u (n, k)); try done. unfold claim. by rewrite Ep.
        -- exists A. by rewrite list_lookup_insert_ne.
  - apply distinct_insert; [done|]. cbn. intros x [= <-] j u Hj Hu E. pose proof (H6 j u Hu) as Hok. unfold thr_ok, cur in *. destruct (local u) as [lp'|]; [|done]. cbn in E. destruct Hok as ((_ & Hok) & _). destruct (Hok b E) as (a & m & _ & Hr & _). by eapply T5.
  - eapply distinct_same; [done|done|by right].
  - eapply distinct_same; [done|done|by right].
  - intros a A Ha. destruct (Hg a A Ha) as (A0 & Ha0 & ->). replace (subs s' a) with (subs s a); [by apply H10|].
    unfold subs. rewrite ET. pose proof (sum_insert (sub_at a) (threads s) i t (mkThread (Some (mkLP (Some b) (index_of (n - 1) k) (_cur_free lp))) GItem) Hi) as E. unfold sub_at at 2 4 in E. rewrite Ep in E. cbn in E. lia.
Qed.
(** A group is added. *)
Lemma str_group s s' i t t' b : str s -> threads s !! i = Some t -> groups s' = groups s ++ [new_BlockGroup] -> nitems s' = nitems s -> threads s' = <[i := t']> (threads s) ->
  Z.of_nat (length (groups s)) < RP_MAX_BLOCK_NGROUP -> local t' = local t -> local t <> None -> pc t = GGroup (length (groups s)) b -> pc t' = GLoad b -> str s'.
Proof.
  intros [H1 H2 H3 H4 H5 H6 H7 H8 H9 H10] Hi EG EN ET Hlen EL Hlo Ep Ep'.
  assert (forall a k c, reg (groups s') a k c <-> reg (groups s) a k c) as Hreg by (intros; rewrite EG; apply reg_new).
  assert (length (groups s') = Datatypes.S (length (groups s))) as Elen by (rewrite EG, length_app; cbn; lia).
  assert (forall g, subs s' g = subs s g) as Hsub by (intros g; unfold subs; rewrite ET; pose proof (sum_insert (sub_at g) (threads s) i t t' Hi) as E; unfold sub_at at 2 4 in E; rewrite Ep, Ep' in E; lia).
  assert (forall a A, groups s' !! a = Some A -> groups s !! a = Some A \/ (a = length (groups s) /\ A = new_BlockGroup)) as Hg.
  { intros a A. rewrite EG. intros [Ha|[Hle Ha]]%lookup_app_Some; [by left|]. right. destruct (a - length (groups s))%nat as [|[|?]] eqn:E; try done. injection Ha as <-. split; [lia|done]. }
  assert (forall c, unregistered s c -> unregistered s' c) as Hun by (intros c [E1 E2]; split; [by rewrite EN|]; intros a k Hr; by eapply E2, Hreg).
  split; rewrite ?Elen, ?EN, ?ET; try done.
  - lia.
  - intros a A [Ha|[_ ->]]%Hg; [by eapply H2|done].
  - intros a A k c [Ha|[_ ->]]%Hg Hb; [by eapply H3|done].
  - intros a k c a' k' R1 R2. by eapply H4; apply Hreg.
  - intros j u Hu. apply list_lookup_insert_Some in Hu as [(<- & <- & _)|[_ Hu]].
    + pose proof (H6 i t Hi) as Ht. unfold thr_ok in *. rewrite EL, Ep'. destruct (local t) as [lp|]; [|done]. rewrite Ep in Ht. destruct Ht as ((G1 & G2) & G3 & G4 & _). split; [split; [done|]|split; [intros _; by apply G3|by apply Hun]].
      intros c Hb. destruct (G2 c Hb) as (a & k & ? & ? & ?). exists a, k. by rewrite Hreg.
    + eapply (thr_keep s); [by eapply H6|intros; by apply Hreg|intros c _; apply Hun|lia|]. intros n k _ (C1 & C2 & A & C3 & C4). split_and!; [done|apply C2..|]. exists A. rewrite EG. split; [by apply lookup_app_l_Some|done].
  - eapply distinct_same; try done. left. unfold cur. by rewrite EL.
  - eapply distinct_same; try done. left. unfold newb. by rewrite Ep, Ep'.
  - eapply distinct_same; try done. right. unfold claim. by rewrite Ep'.
  - intros a A Ha Hpos. rewrite Hsub in *. apply Hg in Ha as [Ha|[-> ->]]; [by apply H10|]. exfalso. unfold subs in Hpos.
    destruct (sum_list_with (sub_at (length (groups s))) (threads s)) eqn:E; [done|]. assert (exists j u, threads s !! j = Some u /\ (0 < sub_at (length (groups s)) u)%nat) as (j & u & Hu & Hsu) by (apply sum_pos; lia).
    pose proof (H6 j u Hu) as Hok. unfold thr_ok, sub_at in *. destruct (pc u) eqn:Eu; try done; try lia. destruct (local u); [|done]. destruct Hok as (_ & _ & _ & Hok). destruct (Nat.eqb_spec ngroup (Datatypes.S (length (groups s)))); lia.
Qed.

(** ** The items *)

Definition tfree (t : @Thread I) : list I := match local t with Some lp => _cur_free lp | None => [] end.
(** All items: of the callers, of the threads, of the chunks, and those that are lost. *)
Definition items (s : St) : list I := map fst (used s) ++ concat (map tfree (threads s)) ++ concat (free_chunks s) ++ lost s.
Definition place (s : St) (it : I) (a : addr) : Prop :=
  exists g i n, in_group i /\ reg (groups s) g i (fst a) /\ nitems s !! fst a = Some n /\ (snd a < n)%nat /\ it = item (index_of g i) (fst a) (snd a).
Definition made (s : St) (it : I) : Prop := exists a, place s it a.
Record own (s : St) : Prop := {
  o_fault : fault s = false;
  o_nodup : NoDup (items s);
  o_made : forall it, it ∈ items s <-> made s it;
  o_used : forall it a, (it, a) ∈ used s -> place s it a;
  o_chunks : Forall (fun c => c <> [] /\ (length c <= BLOCK_NITEM)%nat) (free_chunks s) }.

Lemma reg_fun gs g i b b' : reg gs g i b -> reg gs g i b' -> b = b'.
Proof. intros (G & H1 & H2) (G' & H3 & H4). congruence. Qed.
(** An item has one place, and a place has one item. *)
Lemma place_inj s it a a' : str s -> place s it a -> place s it a' -> a = a'.
Proof.
  intros HS (g & i & n & P1 & P2 & P3 & P4 & P5) (g' & i' & n' & Q1 & Q2 & Q3 & Q4 & Q5). destruct a as [b k], a' as [b' k']. cbn in *. rewrite P5 in Q5.
  pose proof (s_n _ HS _ _ P3). pose proof (s_n _ HS _ _ Q3). apply (item_inj (BLOCK_NITEM := BLOCK_NITEM)) in Q5 as [[E| ->] ->]; [|done|lia|lia]. destruct (index_inj g i g' i' P1 Q1 E) as [<- <-]. by rewrite (reg_fun _ _ _ _ _ P2 Q2).
Qed.
Lemma place_fun s it it' a : str s -> place s it a -> place s it' a -> it = it'.
Proof.
  intros HS (g & i & n & P1 & P2 & P3 & P4 & P5) (g' & i' & n' & Q1 & Q2 & Q3 & Q4 & Q5). destruct (s_inj _ HS _ _ _ _ _ P2 Q2) as [<- <-]. congruence.
Qed.
Lemma place_locate s it a : str s -> place s it a -> locate (groups s) it = Some a.
Proof. intros HS (g & i & n & P1 & P2 & P3 & P4 & ->). pose proof (s_n _ HS _ _ P3). rewrite locate_item; [by destruct a|done|done|lia]. Qed.
Lemma place_mono s s' it a : (forall g i b, reg (groups s) g i b -> reg (groups s') g i b) -> (forall b n, nitems s !! b = Some n -> exists n', nitems s' !! b = Some n' /\ (n <= n')%nat) -> place s it a -> place s' it a.
Proof. intros Hr Hn (g & i & n & P1 & P2 & P3 & P4 & P5). destruct (Hn _ _ P3) as (n' & P6 & P7). exists g, i, n'. split_and!; try done; [apply P1..|by apply Hr|lia]. Qed.

(** Items move between the callers and the lists. *)
Lemma own_same s s' : own s -> (forall it a, place s' it a <-> place s it a) -> items s' ≡ₚ items s -> fault s' = false -> (forall it a, (it, a) ∈ used s' -> place s it a) ->
  Forall (fun c => c <> [] /\ (length c <= BLOCK_NITEM)%nat) (free_chunks s') -> own s'.
Proof.
  intros [H1 H2 H3 H4 H5] Hp Hi Hf Hu Hc. split; try done.
  - by rewrite Hi.
  - intros it. rewrite Hi, H3. unfold made. by setoid_rewrite Hp.
  - intros it a Ha. apply Hp. by apply Hu.
Qed.
Lemma items_thread s i t t' : threads s !! i = Some t -> exists R, concat (map tfree (threads s)) ≡ₚ tfree t ++ R /\ concat (map tfree (<[i := t']> (threads s))) ≡ₚ tfree t' ++ R.
Proof. apply concat_insert. Qed.
Lemma place_same s s' : groups s' = groups s -> nitems s' = nitems s -> forall it a, place s' it a <-> place s it a.
Proof. intros EG EN it a. unfold place. by rewrite EG, EN. Qed.
(** A free item goes to the caller. *)
Lemma hand_out_own s s' it : str s -> own s -> groups s' = groups s -> nitems s' = nitems s -> used s' = used s -> fault s' = false -> it ∈ items s -> items s ≡ₚ it :: items s' ->
  Forall (fun c => c <> [] /\ (length c <= BLOCK_NITEM)%nat) (free_chunks s') -> own (hand_out it s') /\ exists a, used (hand_out it s') = (it, a) :: used s /\ place s it a.
Proof.
  intros HS HO EG EN EU EF Hin Hi Hc. apply (o_made _ HO) in Hin as [a Ha]. pose proof (place_locate s it a HS Ha) as EL. unfold hand_out. rewrite EG, EL. split; [|exists a; cbn; by rewrite EU].
  apply (own_same s); try done.
  - intros x y. unfold place. cbn. by rewrite EG, EN.
  - cbn. rewrite EU. intros x y [[= -> ->]|Hx]%elem_of_cons; [done|]. by eapply o_used.
Qed.

(** ** The steps *)

Definition inv (s : St) : Prop := str s /\ own s.
(** The items of a step: what the callers get and give back. *)
Definition took (s s' : St) (it : I) (a : addr) : Prop := used s' = ((it, a) :: used s) /\ it ∉ map fst (used s) /\ place s' it a.
Definition gave (s s' : St) (it : I) : Prop := it ∈ map fst (used s) /\ used s' = List.filter (fun x => negb (bool_decide (fst x = it))) (used s).

Lemma hand_out_fields it s : groups (hand_out it s) = groups s /\ nitems (hand_out it s) = nitems s /\ threads (hand_out it s) = threads s.
Proof. unfold hand_out. by destruct (locate (groups s) it). Qed.
Lemma nodup_head s it U : items s ≡ₚ it :: U -> own s -> map fst (used s) ⊆ U -> it ∉ map fst (used s).
Proof. intros E HO Hs Hin. pose proof (o_nodup _ HO) as Hn. rewrite E in Hn. apply NoDup_cons in Hn as [Hn _]. by apply Hn, Hs. Qed.
(** A free item of a thread or of a chunk is handed out. *)
Lemma hand_out_inv s s1 it i t lp' : inv s -> threads s !! i = Some t -> groups s1 = groups s -> nitems s1 = nitems s -> used s1 = used s -> lost s1 = lost s -> fault s1 = false ->
  threads s1 = <[i := mkThread (Some lp') Idle]> (threads s) -> thr_ok s (mkThread (Some lp') Idle) -> (_cur_block lp' = cur t \/ _cur_block lp' = None) -> pc t = Idle \/ pc t = GPop ->
  items s ≡ₚ it :: items s1 -> Forall (fun c => c <> [] /\ (length c <= BLOCK_NITEM)%nat) (free_chunks s1) -> inv (hand_out it s1) /\ exists a, took s (hand_out it s1) it a.
Proof.
  intros [HS HO] Hi EG EN EU EL EF ET Hok Hcur Hpc Hit Hch. destruct (hand_out_fields it s1) as (F1 & F2 & F3).
  destruct (hand_out_own s s1 it HS HO EG EN EU EF ltac:(rewrite Hit; left) Hit Hch) as [HO' (a & Ea & Hp)]. split; [split; [|done]|].
  - apply (str_move s _ i t (mkThread (Some lp') Idle)); try done; try congruence; cbn; try (by right); try tauto. intros g. unfold sub_at. cbn. by destruct Hpc as [-> | ->].
  - exists a. split_and!; [done| |apply (place_same s); [congruence|congruence|done]]. eapply (nodup_head s it); [exact Hit|done|]. unfold items. rewrite EU. intros x Hx. apply elem_of_app. by left.
Qed.
(** The lists and the callers' items stay. *)
Lemma move_inv s s1 i t t' : inv s -> threads s !! i = Some t -> s1 = set_thread i t' s -> thr_ok s t' -> tfree t' = tfree t -> (cur t' = cur t \/ cur t' = None) -> (newb t' = newb t \/ newb t' = None) -> (claim t' = claim t \/ claim t' = None) ->
  (forall g, sub_at g t' = sub_at g t) -> inv s1.
Proof.
  intros [HS HO] Hi -> Hok Ef Hc Hn Hcl Hs. split; [by apply (str_move s _ i t t')|]. apply (own_same s); try done; try apply HO. unfold items. cbn [set_thread set_threads used free_chunks lost threads].
  destruct (items_thread s i t t' Hi) as (R & -> & ->). by rewrite Ef.
Qed.
Lemma get_inv s i ok s' : inv s -> get s i ok = Some s' -> inv s' /\ (used s' = used s \/ exists it a, took s s' it a).
Proof.
  intros HI. unfold get. destruct (threads s !! i) as [t|] eqn:Hi; [|done]. cbn [mbind option_bind]. pose proof HI as [HS HO]. pose proof (s_thr _ HS i t Hi) as Ht. unfold thr_ok in Ht. unfold get_or_new_local_pool. destruct (pc t) eqn:Ep; try done.
  assert (forall lp, lp_ok s lp -> thr_ok s (mkThread (Some lp) Idle)) as Hidle by (intros lp Hlp; split; [done|split; [done|done]]).
  destruct (local t) as [lp|] eqn:El.
  - destruct Ht as (Hlp & _ & _). intros [= <-]. destruct (_cur_free lp) as [|it l] eqn:Ef.
    + split; [|by left]. eapply (move_inv s _ i t); try done; cbn; unfold cur, newb, claim, sub_at, tfree; cbn; rewrite ?El, ?Ep; try done; try (by left); try (by right).
    + eapply (hand_out_inv s _ it i t) in HI as [HI (a & Ha)]; [split; [exact HI|right; by exists it, a]|..]; try done; cbn; try (by left).
      * apply HO.
      * apply Hidle. destruct Hlp as [L1 L2]. split; [|done]. rewrite Ef in L1. cbn in *. lia.
      * left. unfold cur. by rewrite El.
      * unfold items. cbn. destruct (items_thread s i t (mkThread (Some (mkLP (_cur_block lp) (_cur_block_index lp) l)) Idle) Hi) as (R & -> & ->). unfold tfree at 1 2. cbn. rewrite El, Ef. cbn. by rewrite <- Permutation_middle.
      * apply HO.
  - destruct ok; intros [= <-]; [|split; [done|by left]]. split; [|by left]. eapply (move_inv s _ i t); try done; cbn; unfold cur, newb, claim, sub_at, tfree; cbn; rewrite ?El, ?Ep; try done; try (by left); try (by right).
    split; [split; [cbn; lia|done]|by split].
Qed.
Lemma own_keep s s' i t t' : own s -> threads s !! i = Some t -> threads s' = <[i := t']> (threads s) -> tfree t' = tfree t -> used s' = used s -> free_chunks s' = free_chunks s -> lost s' = lost s -> fault s' = fault s ->
  (forall it a, place s' it a <-> place s it a) -> own s'.
Proof.
  intros HO Hi ET Ef EU EC EL EF Hp. apply (own_same s); try done; rewrite ?EF, ?EU, ?EC; try apply HO. unfold items. rewrite ET, EU, EC, EL. destruct (items_thread s i t t' Hi) as (R & -> & ->). by rewrite Ef.
Qed.
Lemma place_reg s s' : (forall g i b, reg (groups s') g i b <-> reg (groups s) g i b) -> nitems s' = nitems s -> forall it a, place s' it a <-> place s it a.
Proof. intros Hr EN it a. unfold place. rewrite EN. by setoid_rewrite Hr. Qed.
Lemma place_append s s' : str s -> groups s' = groups s -> nitems s' = nitems s ++ [0%nat] -> forall it a, place s' it a <-> place s it a.
Proof.
  intros HS EG EN it a. unfold place. rewrite EG, EN. split; intros (g & i & n & P1 & P2 & P3 & P4 & P5); exists g, i, n; split_and!; try done; try apply P1.
  - apply lookup_app_Some in P3 as [P3|[_ P3]]; [done|]. destruct (fst a - length (nitems s))%nat as [|[|?]]; [injection P3 as <-; lia|done..].
  - by apply lookup_app_l_Some.
Qed.
(** A new item of the own block. *)
Lemma item_inv s s' i t lp b n g k : inv s -> threads s !! i = Some t -> local t = Some lp -> pc t = GItem -> _cur_block lp = Some b -> in_group k -> reg (groups s) g k b -> _cur_block_index lp = index_of g k -> nitems s !! b = Some n -> (n < BLOCK_NITEM)%nat ->
  s' = set_used ((item (_cur_block_index lp) b n, (b, n)) :: used s) (set_nitems (<[b := Datatypes.S n]> (nitems s)) (set_thread i (mkThread (Some lp) Idle) s)) ->
  inv s' /\ took s s' (item (_cur_block_index lp) b n) (b, n).
Proof.
  intros [HS HO] Hi El Ep Eb Hk Hr Ex En Hn ->. rewrite Ex. set (s' := set_used _ _). pose proof (s_thr _ HS i t Hi) as Ht. unfold thr_ok in Ht. rewrite El in Ht. destruct Ht as (Hlp & _ & _).
  assert (forall c m, nitems s' !! c = Some m <-> (c = b /\ m = Datatypes.S n) \/ (c <> b /\ nitems s !! c = Some m)) as Hni.
  { intros c m. cbn. rewrite list_lookup_insert_Some. apply lookup_lt_Some in En. naive_solver. }
  assert (forall it a, place s' it a <-> place s it a \/ (it = item (index_of g k) b n /\ a = (b, n))) as Hp.
  { intros it [c q]. unfold place. cbn [fst snd]. change (groups s') with (groups s). split.
    - intros (g' & i' & m & P1 & P2 & P3 & P4 & P5). apply Hni in P3 as [[-> ->]|[Hne P3]]; [|left; by exists g', i', m]. destruct (s_inj _ HS _ _ _ _ _ P2 Hr) as [-> ->]. destruct (decide (q = n)) as [->|]; [by right|]. left. exists g, k, n. split_and!; try done; [apply P1..|lia].
    - intros [(g' & i' & m & P1 & P2 & P3 & P4 & P5)|[-> [= -> ->]]]; [|exists g, k, (Datatypes.S n); split_and!; try done; [apply Hk..|apply Hni; by left|lia]]. destruct (decide (c = b)) as [->|Hne].
      + exists g', i', (Datatypes.S n). split_and!; try done; [apply P1..|apply Hni; by left|]. rewrite En in P3. injection P3 as <-. lia.
      + exists g', i', m. split_and!; try done; [apply P1..|apply Hni; by right]. }
  assert (item (index_of g k) b n ∉ items s) as Hnew.
  { intros Hin. apply (o_made _ HO) in Hin as [[c q] (g' & i' & m & P1 & P2 & P3 & P4 & P5)]. cbn [fst snd] in *. pose proof (s_n _ HS _ _ P3).
    apply (item_inj (BLOCK_NITEM := BLOCK_NITEM)) in P5 as [[E|E] E2]; [..|lia|lia]; [destruct (index_inj g k g' i' Hk P1 E) as [<- <-]; rewrite (reg_fun _ _ _ _ _ Hr P2) in *|subst c]; rewrite En in P3; injection P3 as <-; lia. }
  assert (items s' ≡ₚ item (index_of g k) b n :: items s) as Hit.
  { unfold items. cbn. destruct (items_thread s i t (mkThread (Some lp) Idle) Hi) as (R & -> & ->). unfold tfree at 1 2. cbn. by rewrite El. }
  split; [split|].
  - destruct HS as [H1 H2 H3 H4 H5 H6 H7 H8 H9 H10]. split; try done; cbn [s' set_used set_nitems set_thread set_threads groups nitems threads]; rewrite ?length_insert; try done.
    + intros c m Hc. apply Hni in Hc as [[-> ->]|[_ Hc]]; [lia|by eapply H5].
    + intros j u Hu. apply list_lookup_insert_Some in Hu as [(<- & <- & _)|[_ Hu]]; [split; [done|split; done]|]. eapply (thr_keep s); [by eapply H6|done| |done|done].
      intros c _ [C1 C2]. split; [|done]. apply Hni. right. split; [|done]. intros ->. by eapply C2.
    + eapply distinct_same; [done|exact Hi|left]. unfold cur. cbn. by rewrite El.
    + eapply distinct_same; [done|exact Hi|by right].
    + eapply distinct_same; [done|exact Hi|by right].
    + intros a A Ha. replace (subs s' a) with (subs s a); [by apply H10|]. unfold subs. cbn. pose proof (sum_insert (sub_at a) (threads s) i t (mkThread (Some lp) Idle) Hi) as E. unfold sub_at at 2 4 in E. rewrite Ep in E. cbn in E. lia.
  - split; try done; try apply HO.
    + rewrite Hit. apply NoDup_cons. split; [done|apply HO].
    + intros it. rewrite Hit, elem_of_cons, (o_made _ HO). unfold made. setoid_rewrite Hp. naive_solver.
    + cbn. intros it a [[= -> ->]|Ha]%elem_of_cons; apply Hp; [by right|left; by apply HO].
  - split_and!; [done|intros Hx; apply Hnew; unfold items; apply elem_of_app; by left|]. apply Hp. by right.
Qed.
Definition same_used (s s' : St) : Prop := inv s' /\ used s' = used s.
Lemma move_same s i t t' : inv s -> threads s !! i = Some t -> thr_ok s t' -> tfree t' = tfree t -> (cur t' = cur t \/ cur t' = None) -> (newb t' = newb t \/ newb t' = None) -> (claim t' = claim t \/ claim t' = None) ->
  (forall g, sub_at g t' = sub_at g t) -> same_used s (set_thread i t' s).
Proof. intros. split; [by eapply move_inv|done]. Qed.
Lemma new_item_inv s i t lp ok : inv s -> threads s !! i = Some t -> local t = Some lp -> pc t = GItem -> let s' := new_item BLOCK_NITEM s i lp ok in
  inv s' /\ (used s' = used s \/ exists it a, took s s' it a).
Proof.
  intros HI Hi El Ep. cbn. pose proof HI as [HS HO]. pose proof (s_thr _ HS i t Hi) as Ht. unfold thr_ok in Ht. rewrite El in Ht. destruct Ht as (Hlp & Hfr & _). rewrite Ep in Hfr. specialize (Hfr ltac:(done)).
  assert (forall p, p = Idle -> same_used s (set_thread i (mkThread (Some (mkLP None (_cur_block_index lp) (_cur_free lp))) p) s)) as Hfail.
  { intros p ->. eapply (move_same s i t); try done; unfold cur, newb, claim, sub_at, tfree; cbn; rewrite ?El, ?Ep; try done; try (by left); try (by right). split; [split; [apply Hlp|done]|by split]. }
  assert (same_used s (set_thread i (mkThread (Some lp) (GLoad (length (nitems s)))) (set_nitems (nitems s ++ [0%nat]) s))) as Hblock.
  { split; [|done]. split; [eapply (str_block s _ i t (mkThread (Some lp) (GLoad (length (nitems s))))); try done; congruence|].
    eapply (own_keep s _ i t); try done; [unfold tfree; cbn; by rewrite El|]. by apply place_append. }
  assert (forall s1, same_used s s1 -> inv s1 /\ (used s1 = used s \/ exists it a, took s s1 it a)) as Hsame by (intros s1 [? ?]; split; [done|by left]).
  unfold new_item. destruct (_cur_block lp) as [b|] eqn:Eb; [|apply Hsame; destruct ok; [exact Hblock|by apply Hfail]].
  destruct Hlp as [L1 L2]. destruct (L2 b Eb) as (g & k & Hk & Hr & Ex). assert (exists n, nitems s !! b = Some n) as [n En] by (destruct Hr as (G & R1 & R2); apply lookup_lt_is_Some_2; apply (s_key _ HS g G k b R1 R2)).
  rewrite En. change (default 0%nat (Some n)) with n. cbv zeta. destruct (Nat.ltb_spec n BLOCK_NITEM) as [Hn|Hn]; [|apply Hsame; destruct ok; [exact Hblock|by apply Hfail]]. destruct ok.
  - destruct (item_inv s _ i t lp b n g k HI Hi El Ep Eb Hk Hr Ex En Hn eq_refl) as [? ?]. split; [done|right; eauto].
  - apply Hsame. eapply (move_same s i t); try done; unfold cur, newb, claim, sub_at, tfree; cbn; rewrite ?El, ?Ep; try done; try (by left); try (by right).
Qed.
Lemma pop_inv s i t lp : inv s -> threads s !! i = Some t -> local t = Some lp -> pc t = GPop -> let s' := pop_free_chunk s i lp in
  inv s' /\ (used s' = used s \/ exists it a, took s s' it a).
Proof.
  intros HI Hi El Ep. cbn. pose proof HI as [HS HO]. pose proof (s_thr _ HS i t Hi) as Ht. unfold thr_ok in Ht. rewrite El in Ht. destruct Ht as (Hlp & Hfr & _). rewrite Ep in Hfr. specialize (Hfr ltac:(done)).
  unfold pop_free_chunk. pose proof (o_chunks _ HO) as Hch. destruct (free_chunks s) as [|c l] eqn:Ec.
  - split; [|by left]. eapply (move_inv s _ i t); try done; unfold cur, newb, claim, sub_at, tfree; cbn; rewrite ?El, ?Ep; try done; try (by left); try (by right).
  - inversion_clear Hch as [|? ? [Hne Hlen] Hch']. destruct c as [|it c]; [done|]. eapply (hand_out_inv s _ it i t) in HI as [HI (a & Ha)]; [split; [exact HI|right; by exists it, a]|..]; try done; cbn.
    + apply HO.
    + split; [split; [cbn in *; lia|apply Hlp]|by split].
    + left. unfold cur. by rewrite El.
    + by right.
    + unfold items. cbn. rewrite Ec. destruct (items_thread s i t (mkThread (Some (mkLP (_cur_block lp) (_cur_block_index lp) c)) Idle) Hi) as (R & -> & ->). unfold tfree at 1 2. cbn. rewrite El, Hfr. cbn.
      rewrite !(assoc (++)), <- !(assoc (++)). rewrite (Permutation_middle (map fst (used s))). f_equiv. rewrite <- Permutation_middle. cbn. f_equiv. rewrite !(assoc (++)). f_equiv. f_equiv. apply Permutation_app_comm.
Qed.
Lemma subs_step s i t t' g : threads s !! i = Some t -> Z.of_nat (sum_list_with (sub_at g) (<[i := t']> (threads s))) = subs s g + Z.of_nat (sub_at g t') - Z.of_nat (sub_at g t).
Proof. intros Hi. unfold subs. pose proof (sum_insert (sub_at g) (threads s) i t t' Hi). lia. Qed.
Lemma thread_lp s i t lp : inv s -> threads s !! i = Some t -> local t = Some lp -> lp_ok s lp /\ (pc t <> Idle -> _cur_free lp = []) /\ pc_ok s (pc t).
Proof. intros [HS _] Hi El. pose proof (s_thr _ HS i t Hi) as Ht. unfold thr_ok in Ht. by rewrite El in Ht. Qed.
Lemma fetch_add_inv s i t lp n b : inv s -> threads s !! i = Some t -> local t = Some lp -> pc t = GFetch n b -> same_used s (fetch_add s i lp n b).
Proof.
  intros HI Hi El Ep. destruct (thread_lp s i t lp HI Hi El) as (Hlp & _ & Hpc). rewrite Ep in Hpc. destruct Hpc as [Hun Hn]. destruct HI as [HS HO]. unfold fetch_add.
  destruct (lookup_lt_is_Some_2 (groups s) (n - 1)%nat ltac:(lia)) as [G HG]. rewrite HG. set (t' := mkThread (Some lp) _). set (s' := set_thread i t' _). pose proof (s_nb _ HS _ _ HG) as Hnb.
  assert (forall a j c, reg (groups s') a j c <-> reg (groups s) a j c) as Hreg by (intros; by apply reg_same). split; [split|done].
  - apply (str_count s s' i t t' (n - 1) G (nblock G + 1)); try done; try congruence; try lia.
    + assert (unregistered s' b) as Hun' by (destruct Hun as [U1 U2]; split; [done|]; intros a j Hr; by eapply U2, Hreg). cbn [t' pc]. destruct (Z.ltb_spec (nblock G) RP_GROUP_NBLOCK) as [Hlt|Hge].
      * split; [done|]. split; [lia|]. split; [unfold in_group; lia|]. exists (mkGroup (nblock G + 1) (blocks G)). split; [cbn; apply list_lookup_insert_eq; by eapply lookup_lt_Some|]. cbn. split; [lia|].
        destruct (blocks G !! nblock G) as [c|] eqn:E; [|done]. destruct (s_key _ HS _ _ _ _ HG E) as (_ & ? & _). lia.
      * split; [done|]. cbn. rewrite length_insert. lia.
    + unfold newb. cbn [t' pc]. rewrite Ep. by destruct (nblock G <? RP_GROUP_NBLOCK).
    + intros x Hx j u Hj Hu E. unfold claim at 1 in Hx. cbn [t' pc] in Hx. destruct (nblock G <? RP_GROUP_NBLOCK); [|done]. injection Hx as <-. pose proof (s_thr _ HS j u Hu) as Hok. unfold thr_ok, claim in *. destruct (pc u) eqn:Epu; try done.
      injection E as -> ->. destruct (local u); [|done]. destruct Hok as (_ & _ & _ & _ & _ & G' & E1 & E2 & _). rewrite HG in E1. injection E1 as <-. lia.
    + intros g' Hg'. unfold sub_at. cbn [t' pc]. rewrite Ep. destruct (nblock G <? RP_GROUP_NBLOCK); [done|]. destruct (Nat.eqb_spec n (Datatypes.S g')); [lia|done].
    + unfold subs. cbn [s' set_thread set_threads set_groups threads]. rewrite (subs_step s i t t' (n - 1) Hi). unfold sub_at. cbn [t' pc]. rewrite Ep. pose proof (s_sub _ HS _ _ HG) as Hs. destruct (Z.ltb_spec (nblock G) RP_GROUP_NBLOCK).
      * cbn. intros. lia.
      * intros _. destruct (Nat.eqb_spec n (Datatypes.S (n - 1))); [|lia]. destruct (Z.ltb_spec 0 (subs s (n - 1))); [lia|]. unfold subs in *. cbn. lia.
  - eapply (own_keep s _ i t); try done; [unfold tfree; cbn; by rewrite El|]. by apply place_reg.
Qed.
Lemma fetch_sub_inv s i t lp n b : inv s -> threads s !! i = Some t -> local t = Some lp -> pc t = GSub n b -> same_used s (fetch_sub s i lp n b).
Proof.
  intros HI Hi El Ep. destruct (thread_lp s i t lp HI Hi El) as (Hlp & _ & Hpc). rewrite Ep in Hpc. destruct Hpc as [Hun Hn]. destruct HI as [HS HO]. unfold fetch_sub.
  destruct (lookup_lt_is_Some_2 (groups s) (n - 1)%nat ltac:(lia)) as [G HG]. rewrite HG. set (t' := mkThread (Some lp) _). set (s' := set_thread i t' _).
  assert (sub_at (n - 1) t = 1%nat) as E1 by (unfold sub_at; rewrite Ep; destruct (Nat.eqb_spec n (Datatypes.S (n - 1))); [done|lia]). pose proof (sum_lookup (sub_at (n - 1)) _ _ _ Hi) as Hge. rewrite E1 in Hge.
  pose proof (s_sub _ HS _ _ HG ltac:(unfold subs; lia)) as Hs. assert (forall a j c, reg (groups s') a j c <-> reg (groups s) a j c) as Hreg by (intros; by apply reg_same). split; [split|done].
  - apply (str_count s s' i t t' (n - 1) G (nblock G - 1)); try done; try congruence.
    + unfold subs, RP_GROUP_NBLOCK in *. lia.
    + unfold in_group. intros. unfold subs in *. lia.
    + split; [|cbn; rewrite length_insert; lia]. destruct Hun as [U1 U2]. split; [done|]. intros a j Hr. by eapply U2, Hreg.
    + unfold newb. by rewrite Ep.
    + intros g' Hg'. unfold sub_at. rewrite Ep. cbn. destruct (Nat.eqb_spec n (Datatypes.S g')); [lia|done].
    + unfold subs. cbn [s' set_thread set_threads set_groups threads]. rewrite (subs_step s i t t' (n - 1) Hi), E1. unfold sub_at. cbn [t' pc]. intros. lia.
  - eapply (own_keep s _ i t); try done; [unfold tfree; cbn; by rewrite El|]. by apply place_reg.
Qed.
Lemma store_inv s i t lp n k b : inv s -> threads s !! i = Some t -> local t = Some lp -> pc t = GStore n k b -> same_used s (store_block s i lp n k b).
Proof.
  intros HI Hi El Ep. destruct (thread_lp s i t lp HI Hi El) as (Hlp & _ & Hpc). rewrite Ep in Hpc. destruct Hpc as [[U1 U2] (C1 & C2 & G & HG & C4 & C5)]. destruct HI as [HS HO]. unfold store_block. rewrite HG. set (s' := set_thread i _ _).
  assert ((Z.of_nat n - 1) * RP_GROUP_NBLOCK + k = index_of (n - 1) k) as Ex by (unfold index_of, RP_GROUP_NBLOCK; lia). split; [split|done].
  - eapply (str_store s s' i t); try done. cbn. by rewrite Ex.
  - eapply (own_keep s _ i t); try done; [unfold tfree; cbn; by rewrite El|]. intros it a. unfold place. change (nitems s') with (nitems s). split; intros (g & j & m & P1 & P2 & P3 & P4 & P5); exists g, j, m; split_and!; try done; try apply P1.
    + apply (reg_insert (groups s) (n - 1) G) in P2 as [[-> P2]|[_ P2]]; [|done|done]. cbn in P2. apply lookup_insert_Some in P2 as [[_ P2]|[_ P2]]; [|by exists G]. rewrite <- P2, U1 in P3. injection P3 as <-. lia.
    + apply (reg_insert (groups s) (n - 1) G); [done|]. destruct (decide (g = (n - 1)%nat)) as [->|]; [left|by right]. split; [done|]. destruct P2 as (G' & Q1 & Q2). rewrite HG in Q1. injection Q1 as <-. cbn. rewrite lookup_insert_ne; [done|]. intros <-. congruence.
Qed.
Lemma group_inv s i t lp n b ok : inv s -> threads s !! i = Some t -> local t = Some lp -> pc t = GGroup n b -> same_used s (add_block_group s i lp n b ok).
Proof.
  intros HI Hi El Ep. destruct (thread_lp s i t lp HI Hi El) as (Hlp & Hfr & Hpc). rewrite Ep in Hpc. destruct Hpc as [Hun Hn]. rewrite Ep in Hfr. specialize (Hfr ltac:(done)). unfold add_block_group. destruct (Nat.eqb_spec (length (groups s)) n) as [E|E]; cbn [negb].
  - destruct (Z.ltb_spec (Z.of_nat (length (groups s))) RP_MAX_BLOCK_NGROUP) as [Hlt|]; [destruct ok|]; cbn [andb].
    + destruct HI as [HS HO]. split; [split|done].
      * eapply (str_group s _ i t (mkThread (Some lp) (GLoad b)) b); try done; congruence.
      * eapply (own_keep s _ i t); try done; [unfold tfree; cbn; by rewrite El|]. apply place_reg; [intros; apply reg_new|done].
    + eapply (move_same s i t); try done; unfold cur, newb, claim, sub_at, tfree; cbn; rewrite ?El, ?Ep; try done; try (by left); try (by right). split; [split; [apply Hlp|done]|by split].
    + eapply (move_same s i t); try done; unfold cur, newb, claim, sub_at, tfree; cbn; rewrite ?El, ?Ep; try done; try (by left); try (by right). split; [split; [apply Hlp|done]|by split].
  - eapply (move_same s i t); try done; unfold cur, newb, claim, sub_at, tfree; cbn; rewrite ?El, ?Ep; try done; try (by left); try (by right).
Qed.
Lemma pool_go_inv s i ok s' : inv s -> go BLOCK_NITEM s i ok = Some s' -> inv s' /\ (used s' = used s \/ exists it a, took s s' it a).
Proof.
  intros HI. unfold go. destruct (threads s !! i) as [t|] eqn:Hi; [|done]. cbn [mbind option_bind]. destruct (local t) as [lp|] eqn:El; [|done]. cbn [mbind option_bind]. destruct (thread_lp s i t lp HI Hi El) as (Hlp & Hfr & Hpc).
  assert (forall s1, same_used s s1 -> inv s1 /\ (used s1 = used s \/ exists it a, took s s1 it a)) as Hsame by (intros s1 [? ?]; split; [done|by left]).
  assert (forall p, pc t <> Idle -> pc_ok s p -> (newb (mkThread (Some lp) p) = newb t \/ newb (mkThread (Some lp) p) = None) -> claim (mkThread (Some lp) p) = None -> (forall g, sub_at g (mkThread (Some lp) p) = sub_at g t) -> same_used s (set_thread i (mkThread (Some lp) p) s)) as Hmove.
  { intros p Hp Hok Hnb Hcl Hsb. eapply (move_same s i t); try done; unfold cur, tfree; cbn; rewrite ?El; try done; [|by left|by right]. split; [done|]. split; [intros _; by apply Hfr|done]. }
  destruct (pc t) eqn:Ep; intros [= <-].
  - apply Hsame, Hmove; [done|by destruct (free_chunks s)|unfold newb; rewrite Ep; cbn; by destruct (free_chunks s); left|unfold claim; cbn; by destruct (free_chunks s)|intros g; unfold sub_at; rewrite Ep; cbn; by destruct (free_chunks s)].
  - by eapply pop_inv.
  - by eapply new_item_inv.
  - apply Hsame, Hmove; [done|destruct (groups s) eqn:Eg; (split; [done|]); rewrite ?Eg; cbn; lia|left; unfold newb; rewrite Ep; cbn; by destruct (groups s)|unfold claim; cbn; by destruct (groups s)|intros g; unfold sub_at; rewrite Ep; cbn; by destruct (groups s)].
  - apply Hsame. by eapply fetch_add_inv.
  - apply Hsame. by eapply store_inv.
  - apply Hsame. by eapply fetch_sub_inv.
  - apply Hsame. by eapply group_inv.
Qed.
(** The removal of the item of a caller. *)
Lemma filter_out (l : list (I * addr)) it : it ∈ map fst l -> NoDup (map fst l) -> map fst l ≡ₚ it :: map fst (List.filter (fun x => negb (bool_decide (fst x = it))) l).
Proof.
  induction l as [|[x a] l IH]; cbn; [by intros ?%not_elem_of_nil|]. intros Hin [Hx Hn]%NoDup_cons. destruct (bool_decide_reflect (x = it)) as [->|Hne]; cbn.
  - constructor. assert (List.filter (fun x => negb (bool_decide (fst x = it))) l = l) as ->; [|done]. clear -Hx. induction l as [|[y c] l IH]; cbn in *; [done|]. apply not_elem_of_cons in Hx as [Hy Hx]. rewrite bool_decide_false by done. cbn. by rewrite IH.
  - apply elem_of_cons in Hin as [->|Hin]; [done|]. rewrite (IH Hin Hn) at 1. by rewrite Permutation_swap.
Qed.
Lemma pool_return_inv s i it ok ok2 r s' : inv s -> it ∈ map fst (used s) -> return_item BLOCK_NITEM MAX_FREE s i it ok ok2 = Some (r, s') -> inv s' /\ (r = 0 /\ gave s s' it \/ r = -1 /\ used s' = used s).
Proof.
  intros HI Hit. unfold return_item. destruct (threads s !! i) as [t|] eqn:Hi; [|done]. cbn [mbind option_bind]. pose proof HI as [HS HO]. pose proof (s_thr _ HS i t Hi) as Ht. unfold thr_ok in Ht. destruct (pc t) eqn:Ep; try done.
  destruct (get_or_new_local_pool ok t) as [lp|] eqn:Elp; [|intros [= <- <-]; split; [done|by right]].
  assert (lp_ok s lp /\ _cur_free lp = tfree t /\ (_cur_block lp = cur t \/ _cur_block lp = None)) as (Hlp & Ef & Ec).
  { unfold get_or_new_local_pool, tfree, cur in *. destruct (local t) as [lp0|]; [injection Elp as <-; split_and!; [apply Ht|done|by left]|]. destruct ok; [|done]. injection Elp as <-. split_and!; [split; [cbn; lia|done]|done|by right]. }
  assert (NoDup (map fst (used s))) as Hnd by (pose proof (o_nodup _ HO) as Hn; unfold items in Hn; by apply NoDup_app in Hn as (? & _)).
  set (U := List.filter _ _). assert (map fst (used s) ≡ₚ it :: map fst U) as HU by (by apply filter_out).
  assert (forall x a, (x, a) ∈ U -> place s x a) as HUp by (intros x a Hx; apply (o_used _ HO); unfold U in Hx; apply list_elem_of_In, filter_In in Hx as [Hx _]; by apply list_elem_of_In).
  assert (free_chunk_nitem BLOCK_NITEM MAX_FREE <= BLOCK_NITEM /\ 0 < free_chunk_nitem BLOCK_NITEM MAX_FREE)%nat as [F1 F2] by (unfold free_chunk_nitem; destruct (Nat.ltb_spec MAX_FREE BLOCK_NITEM); lia).
  intros [= E]. destruct (Nat.ltb_spec (length (_cur_free lp)) (free_chunk_nitem BLOCK_NITEM MAX_FREE)) as [Hl|Hl]; [|destruct ok2]; injection E as <- <-.
  - split; [split|left; by split].
    + eapply (str_move s _ i t); try done; [|by right|by right|intros g; unfold sub_at; by rewrite Ep]. split; [|by split]. destruct Hlp as [L1 L2]. split; [cbn; lia|done].
    + apply (own_same s); try done; try apply HO. unfold items. cbn. destruct (items_thread s i t (mkThread (Some (mkLP (_cur_block lp) (_cur_block_index lp) (it :: _cur_free lp))) Idle) Hi) as (R & -> & ->). rewrite HU. unfold tfree at 1. cbn. rewrite Ef. by rewrite <- Permutation_middle.
  - split; [split|left; by split].
    + eapply (str_move s _ i t); try done; [|by right|by right|intros g; unfold sub_at; by rewrite Ep]. split; [|by split]. destruct Hlp as [L1 L2]. split; [cbn; lia|done].
    + apply (own_same s); try done; try apply HO.
      * unfold items. cbn. destruct (items_thread s i t (mkThread (Some (mkLP (_cur_block lp) (_cur_block_index lp) [it])) Idle) Hi) as (R & -> & ->). rewrite HU. unfold tfree at 1. cbn. rewrite Ef. rewrite <- Permutation_middle. constructor. f_equiv.
        rewrite <- !(assoc (++)). rewrite (Permutation_app_swap_app R). done.
      * cbn. constructor; [|apply HO]. split; [destruct (_cur_free lp); [cbn in Hl; lia|done]|apply Hlp].
  - split; [|by right]. eapply (move_inv s _ i t); try done; [by right|by right|intros g; unfold sub_at; by rewrite Ep].
Qed.
Lemma exit_inv s i ok s' : inv s -> delete_local_pool s i ok = Some s' -> same_used s s'.
Proof.
  intros HI. unfold delete_local_pool. destruct (threads s !! i) as [t|] eqn:Hi; [|done]. cbn [mbind option_bind]. pose proof HI as [HS HO]. destruct (pc t) eqn:Ep; try done. destruct (local t) as [lp|] eqn:El; [|by intros [= <-]].
  destruct (thread_lp s i t lp HI Hi El) as (Hlp & _ & _). intros [= <-]. assert (forall s1, groups s1 = groups s -> nitems s1 = nitems s -> threads s1 = <[i := new_Thread]> (threads s) -> str s1) as Hstr.
  { intros s1 E1 E2 E3. eapply (str_move s _ i t); try done; try (by right). intros g. unfold sub_at. by rewrite Ep. }
  destruct (items_thread s i t new_Thread Hi) as (R & E1 & E2). assert (tfree t = _cur_free lp) as Ef by (unfold tfree; by rewrite El). rewrite Ef in E1. cbn [new_Thread tfree local app] in E2.
  destruct (_cur_free lp) as [|x c] eqn:Ec; [|destruct ok]; (split; [split; [by apply Hstr|]|done]); apply (own_same s); try done; try apply HO.
  - unfold items. cbn. by rewrite E1, E2.
  - unfold items. cbn. rewrite E1, E2. f_equiv. cbn. rewrite <- Permutation_middle. constructor. rewrite <- !(assoc (++)). apply Permutation_app_swap_app.
  - cbn. constructor; [|apply HO]. split; [done|]. rewrite <- Ec. apply Hlp.
  - unfold items. cbn. rewrite E1, E2. f_equiv. rewrite <- (Permutation_middle (concat (free_chunks s))), <- (Permutation_middle R). cbn. constructor. rewrite (Permutation_app_swap_app (concat (free_chunks s))). rewrite <- !(assoc (++)). by rewrite (Permutation_app_swap_app R).
Qed.

(** ** What the pools promise *)

(** The abstract allocator: an item that is handed out is not in use, nor is its memory. *)
Inductive alloc_step : list (I * addr) -> list (I * addr) -> Prop :=
| alloc_none u : alloc_step u u
| alloc_get it a u : it ∉ map fst u -> a ∉ map snd u -> alloc_step u ((it, a) :: u)
| alloc_return it u : it ∈ map fst u -> alloc_step u (List.filter (fun x => negb (bool_decide (fst x = it))) u).

Lemma no_free n : concat (map tfree (replicate n new_Thread)) = (@nil I).
Proof. by induction n. Qed.
Lemma pool_init_inv n : inv (init n).
Proof.
  assert (forall j t, (init (I := I) n).(threads) !! j = Some t -> t = new_Thread) as Ht by (intros j t; cbn; by intros [-> _]%lookup_replicate).
  pose proof (no_free n) as E0.
  split; split; try done; cbn; try (intros; by rewrite ?lookup_nil in *).
  - by intros g i b g' i' (G & E & _).
  - intros j t H%Ht. by subst.
  - intros i j a b x H%Ht. by subst.
  - intros i j a b x H%Ht. by subst.
  - intros i j a b x H%Ht. by subst.
  - rewrite E0. constructor.
  - intros it. rewrite E0. split; [by intros ?%not_elem_of_nil|]. by intros (a & g & i & m & _ & (G & E & _) & _).
  - by intros it a ?%not_elem_of_nil.
Qed.
Lemma took_alloc s s' it a : inv s -> inv s' -> took s s' it a -> alloc_step (used s) (used s').
Proof.
  intros [HS HO] [HS' HO'] (E1 & E2 & E3). rewrite E1. constructor; [done|]. intros Hin. apply list_elem_of_fmap in Hin as ([it' a'] & E & Hin). cbn in E. subst a'.
  assert (place s' it' a) as Hp by (apply (o_used _ HO'); rewrite E1; by right). rewrite (place_fun s' it it' a HS' E3 Hp) in E2. apply E2. apply list_elem_of_fmap. by exists (it', a).
Qed.
Lemma pool_call_inv s c s' : inv s -> do_call BLOCK_NITEM MAX_FREE s c = Some s' -> inv s' /\ alloc_step (used s) (used s').
Proof.
  intros HI Hc. destruct c as [i ok|i ok|i it ok ok2|i ok]; cbn [do_call] in Hc.
  - destruct (get_inv s i ok s' HI Hc) as [HI' [E|(it & a & Ht)]]; (split; [done|]); [rewrite E; constructor|by eapply took_alloc].
  - destruct (pool_go_inv s i ok s' HI Hc) as [HI' [E|(it & a & Ht)]]; (split; [done|]); [rewrite E; constructor|by eapply took_alloc].
  - destruct (bool_decide_reflect (it ∈ map fst (used s))) as [Hit|]; [|done]. destruct (return_item _ _ s i it ok ok2) as [[r s1]|] eqn:E; [|done]. injection Hc as <-.
    destruct (pool_return_inv s i it ok ok2 r s1 HI Hit E) as [HI' [[_ [_ ->]]|[_ ->]]]; (split; [done|]); by constructor.
  - destruct (exit_inv s i ok s' HI Hc) as [HI' E]. split; [done|]. rewrite E. constructor.
Qed.
Lemma pool_reachable_inv n s : reachable BLOCK_NITEM MAX_FREE n s -> inv s.
Proof. apply steps_invariant; [|apply pool_init_inv]. intros a b Ha [c Hc]. by eapply pool_call_inv. Qed.

(** Blocks stay where they are and items are never taken away. *)
Definition grows (s s' : St) : Prop := (forall g i b, reg (groups s) g i b -> reg (groups s') g i b) /\ (forall b n, nitems s !! b = Some n -> exists n', nitems s' !! b = Some n' /\ (n <= n')%nat).
Lemma grows_same s s' : groups s' = groups s -> nitems s' = nitems s -> grows s s'.
Proof. intros E1 E2. unfold grows. rewrite E1, E2. split; [done|]. intros b n Hn. by exists n. Qed.
Lemma go_grows s i ok s' : inv s -> go BLOCK_NITEM s i ok = Some s' -> grows s s'.
Proof.
  intros HI. unfold go. destruct (threads s !! i) as [t|] eqn:Hi; [|done]. cbn [mbind option_bind]. destruct (local t) as [lp|] eqn:El; [|done]. cbn [mbind option_bind]. destruct (thread_lp s i t lp HI Hi El) as (Hlp & Hfr & Hpc).
  assert (forall l, grows s (set_thread i l (set_nitems (nitems s ++ [0%nat]) s))) as Happ by (intros l; split; [done|]; intros b n Hn; exists n; split; [by apply lookup_app_l_Some|done]).
  destruct (pc t) eqn:Ep; intros [= <-]; try (by apply grows_same).
  - unfold pop_free_chunk. destruct (free_chunks s) as [|[|it c] l]; [by apply grows_same..|]. destruct (hand_out_fields it (set_chunks l (set_thread i (mkThread (Some (mkLP (_cur_block lp) (_cur_block_index lp) c)) Idle) s))) as (E1 & E2 & _). by apply grows_same.
  - unfold new_item. destruct (_cur_block lp) as [b|]; [destruct (_ <? _)%nat|]; destruct ok; try done; try (by apply grows_same). split; [done|]. intros c n Hc. cbn. destruct (decide (c = b)) as [->|Hne].
    + exists (Datatypes.S n). rewrite Hc. split; [apply list_lookup_insert_eq; by eapply lookup_lt_Some|lia].
    + exists n. by rewrite list_lookup_insert_ne.
  - unfold fetch_add. destruct (groups s !! (ngroup - 1)%nat) as [G|] eqn:EG; [|by apply grows_same]. split; [|intros c n Hn; by exists n]. intros g j c Hr. cbn. by apply reg_same.
  - destruct Hpc as [_ (C1 & C2 & G & HG & C4 & C5)]. unfold store_block. rewrite HG. split; [|intros c n Hn; by exists n]. intros g j c Hr. apply (reg_insert (groups s) (ngroup - 1) G); [done|]. destruct (decide (g = (ngroup - 1)%nat)) as [->|]; [left|by right].
    split; [done|]. destruct Hr as (G' & Q1 & Q2). rewrite HG in Q1. injection Q1 as <-. cbn. rewrite lookup_insert_ne; [done|]. intros <-. congruence.
  - unfold fetch_sub. destruct (groups s !! (ngroup - 1)%nat) as [G|] eqn:EG; [|by apply grows_same]. split; [|intros c n Hn; by exists n]. intros g j c Hr. cbn. by apply reg_same.
  - unfold add_block_group. destruct (negb _); [by apply grows_same|]. destruct (_ && ok); [|by apply grows_same]. split; [|intros c n Hn; by exists n]. intros g j c Hr. cbn. by apply reg_new.
Qed.
Lemma call_grows s c s' : inv s -> do_call BLOCK_NITEM MAX_FREE s c = Some s' -> grows s s'.
Proof.
  intros HI Hc. destruct c as [i ok|i ok|i it ok ok2|i ok]; cbn [do_call] in Hc.
  - unfold get in Hc. destruct (threads s !! i) as [t|]; [|done]. cbn [mbind option_bind] in Hc. destruct (pc t); try done. destruct (get_or_new_local_pool ok t) as [lp|]; injection Hc as <-; [|by apply grows_same].
    destruct (_cur_free lp) as [|it l]; [by apply grows_same|]. destruct (hand_out_fields it (set_thread i (mkThread (Some (mkLP (_cur_block lp) (_cur_block_index lp) l)) Idle) s)) as (E1 & E2 & _). by apply grows_same.
  - by eapply go_grows.
  - destruct (bool_decide (it ∈ map fst (used s))); [|done]. unfold return_item in Hc. destruct (threads s !! i) as [t|]; [|done]. cbn [mbind option_bind] in Hc. destruct (pc t); try done.
    destruct (get_or_new_local_pool ok t) as [lp|]; [|injection Hc as <-; by apply grows_same]. injection Hc as <-. destruct (length (_cur_free lp) <? free_chunk_nitem BLOCK_NITEM MAX_FREE)%nat; [|destruct ok2]; by apply grows_same.
  - unfold delete_local_pool in Hc. destruct (threads s !! i) as [t|]; [|done]. cbn [mbind option_bind] in Hc. destruct (pc t); try done. destruct (local t) as [lp|]; injection Hc as <-; [|by apply grows_same].
    destruct (_cur_free lp); [|destruct ok]; by apply grows_same.
Qed.
Lemma steps_grow s s' it a : inv s -> steps (step BLOCK_NITEM MAX_FREE) s s' -> place s it a -> place s' it a.
Proof.
  intros HI Hs. assert (inv s' /\ (place s it a -> place s' it a)) as [_ H]; [|done]. induction Hs as [|s1 s2 s3 Hs IH [c Hc]]; [done|]. destruct (IH HI) as [I1 I2]. split; [by eapply pool_call_inv|].
  intros Hp. destruct (call_grows s2 c s3 I1 Hc) as [G1 G2]. eapply place_mono; [exact G1|exact G2|by apply I2].
Qed.

(** ** Progress of a thread that runs alone *)

Local Abbreviation goes s i := (go BLOCK_NITEM s i true).
Definition finishes (s : St) (i k : nat) : Prop :=
  exists j s', (j <= k)%nat /\ run BLOCK_NITEM MAX_FREE (repeat (Go i true) j) s = Some s' /\ exists x, used s' = x :: used s.
Lemma fin_step s i s1 k : goes s i = Some s1 -> used s1 = used s -> finishes s1 i k -> finishes s i (Datatypes.S k).
Proof. intros H1 E (j & s' & Hj & Hr & x & Hx). exists (Datatypes.S j), s'. split_and!; [lia|cbn; rewrite H1; done|]. exists x. congruence. Qed.
Lemma fin_now s i s1 k x : goes s i = Some s1 -> used s1 = x :: used s -> finishes s i (Datatypes.S k).
Proof. intros H1 E. exists 1%nat, s1. split_and!; [lia|cbn; by rewrite H1|by exists x]. Qed.
Lemma fin_more s i k k' : finishes s i k -> (k <= k')%nat -> finishes s i k'.
Proof. intros (j & s' & Hj & H) Hk. exists j, s'. split; [lia|done]. Qed.
Definition at_pc (s : St) (i : nat) (lp : @LocalPool I) (p : PC) : Prop := threads s !! i = Some (mkThread (Some lp) p).
Lemma at_set s i lp p lp' p' : at_pc s i lp p -> at_pc (set_thread i (mkThread (Some lp') p') s) i lp' p'.
Proof. intros H. unfold at_pc. cbn. apply list_lookup_insert_eq. by eapply lookup_lt_Some. Qed.
Lemma item_fin s i lp b n : at_pc s i lp GItem -> _cur_block lp = Some b -> nitems s !! b = Some n -> (n < BLOCK_NITEM)%nat -> finishes s i 1.
Proof.
  intros Hi Eb En Hn. eapply fin_now; [unfold go; rewrite Hi; cbn; reflexivity|]. unfold new_item. rewrite Eb, En. change (default 0%nat (Some n)) with n. destruct (Nat.ltb_spec n BLOCK_NITEM); [done|lia].
Qed.
Lemma store_fin s i lp n k b : inv s -> at_pc s i lp (GStore n k b) -> finishes s i 2.
Proof.
  intros HI Hi. destruct (thread_lp s i _ lp HI Hi eq_refl) as (_ & _ & [U1 _] & _ & _ & G & HG & _). eapply fin_step; [unfold go; rewrite Hi; cbn; reflexivity|..]; unfold store_block; rewrite HG; [done|].
  eapply (item_fin _ i _ b 0); [apply list_lookup_insert_eq; by eapply lookup_lt_Some|done|done|done].
Qed.
Lemma fetch_fin s i lp n b G : inv s -> at_pc s i lp (GFetch n b) -> groups s !! (n - 1)%nat = Some G -> nblock G < RP_GROUP_NBLOCK -> finishes s i 3.
Proof.
  intros HI Hi HG Hn. destruct (fetch_add_inv s i _ lp n b HI Hi eq_refl eq_refl) as [HI' EU]. eapply fin_step; [unfold go; rewrite Hi; cbn; reflexivity|done|]. eapply (store_fin _ i lp n (nblock G) b); [done|].
  unfold fetch_add. rewrite HG. destruct (Z.ltb_spec (nblock G) RP_GROUP_NBLOCK); [|lia]. apply list_lookup_insert_eq. by eapply lookup_lt_Some.
Qed.
Lemma load_room_fin s i lp b gs G : inv s -> at_pc s i lp (GLoad b) -> groups s = gs ++ [G] -> nblock G < RP_GROUP_NBLOCK -> finishes s i 4.
Proof.
  intros HI Hi EG Hn. assert (goes s i = Some (set_thread i (mkThread (Some lp) (GFetch (length (groups s)) b)) s)) as Hg by (unfold go; rewrite Hi; cbn; rewrite EG; by destruct gs).
  destruct (pool_go_inv s i true _ HI Hg) as [HI' _]. eapply fin_step; [exact Hg|done|]. eapply (fetch_fin _ i lp (length (groups s)) b G); [done|by eapply at_set| |done]. cbn. rewrite EG, length_app. cbn. replace (length gs + 1 - 1)%nat with (length gs) by lia. by apply list_lookup_middle.
Qed.
Lemma group_fin s i lp b : inv s -> at_pc s i lp (GGroup (length (groups s)) b) -> Z.of_nat (length (groups s)) < RP_MAX_BLOCK_NGROUP -> finishes s i 5.
Proof.
  intros HI Hi Hl. destruct (group_inv s i _ lp (length (groups s)) b true HI Hi eq_refl eq_refl) as [HI' EU]. eapply fin_step; [unfold go; rewrite Hi; cbn; reflexivity|done|].
  revert HI'. unfold add_block_group. rewrite Nat.eqb_refl. cbn [negb]. destruct (Z.ltb_spec (Z.of_nat (length (groups s))) RP_MAX_BLOCK_NGROUP); [|lia]. cbn [andb]. intros HI'.
  eapply (load_room_fin _ i lp b (groups s) new_BlockGroup); [done|apply list_lookup_insert_eq; by eapply lookup_lt_Some|done|done].
Qed.
Lemma load_fin s i lp b : inv s -> at_pc s i lp (GLoad b) -> Z.of_nat (length (groups s)) < RP_MAX_BLOCK_NGROUP -> finishes s i 8.
Proof.
  intros HI Hi Hl. destruct (groups s) as [|G0 gs0] eqn:EG.
  - assert (goes s i = Some (set_thread i (mkThread (Some lp) (GGroup 0 b)) s)) as Hg by (unfold go; rewrite Hi; cbn; by rewrite EG). destruct (pool_go_inv s i true _ HI Hg) as [HI' _].
    eapply fin_more; [eapply fin_step; [exact Hg|done|]|]; [eapply (group_fin _ i lp b); [done|cbn; rewrite EG; by eapply at_set|cbn; by rewrite EG]|lia].
  - destruct (exists_last (l := groups s)) as (gs & G & EL); [by rewrite EG|]. rewrite <- EG in Hl. clear G0 gs0 EG. destruct (Z.ltb_spec (nblock G) RP_GROUP_NBLOCK) as [Hlt|Hge]; [eapply fin_more; [by eapply load_room_fin|lia]|].
    assert (goes s i = Some (set_thread i (mkThread (Some lp) (GFetch (length (groups s)) b)) s)) as Hg by (unfold go; rewrite Hi; cbn; rewrite EL; by destruct gs). destruct (pool_go_inv s i true _ HI Hg) as [HI1 _].
    eapply fin_step; [exact Hg|done|]. set (s1 := set_thread i _ s) in *. assert (at_pc s1 i lp (GFetch (length (groups s)) b)) as H1 by (by eapply at_set). assert (groups s1 !! (length (groups s) - 1)%nat = Some G) as HG1 by (cbn; rewrite EL, length_app; cbn; replace (length gs + 1 - 1)%nat with (length gs) by lia; by apply list_lookup_middle).
    destruct (fetch_add_inv s1 i _ lp _ b HI1 H1 eq_refl eq_refl) as [HI2 EU2]. eapply fin_step; [unfold go; rewrite H1; cbn; reflexivity|done|].
    revert HI2. unfold fetch_add. rewrite HG1. destruct (Z.ltb_spec (nblock G) RP_GROUP_NBLOCK); [lia|]. set (s2 := set_thread i _ _). intros HI2. assert (at_pc s2 i lp (GSub (length (groups s)) b)) as H2 by (apply list_lookup_insert_eq; by eapply lookup_lt_Some).
    destruct (fetch_sub_inv s2 i _ lp _ b HI2 H2 eq_refl eq_refl) as [HI3 EU3]. eapply fin_step; [unfold go; rewrite H2; cbn; reflexivity|done|]. revert HI3. unfold fetch_sub.
    assert (groups s2 !! (length (groups s) - 1)%nat = Some (mkGroup (nblock G + 1) (blocks G))) as HG2 by (cbn; apply list_lookup_insert_eq; by eapply lookup_lt_Some). rewrite HG2. set (s3 := set_thread i _ _). intros HI3.
    assert (length (groups s3) = length (groups s)) as EL3 by (cbn; by rewrite !length_insert). eapply (group_fin s3 i lp b); [done|rewrite EL3; apply list_lookup_insert_eq; by eapply lookup_lt_Some|by rewrite EL3].
Qed.
Lemma new_item_fin s i lp : inv s -> at_pc s i lp GItem -> Z.of_nat (length (groups s)) < RP_MAX_BLOCK_NGROUP -> finishes s i 9.
Proof.
  intros HI Hi Hl. assert (goes s i = Some (new_item BLOCK_NITEM s i lp true)) as Hg by (unfold go; by rewrite Hi). destruct (pool_go_inv s i true _ HI Hg) as [HI' _].
  assert (new_item BLOCK_NITEM s i lp true = set_thread i (mkThread (Some lp) (GLoad (length (nitems s)))) (set_nitems (nitems s ++ [0%nat]) s) -> finishes s i 9) as Hblock.
  { intros E. rewrite E in Hg, HI'. eapply fin_step; [exact Hg|done|]. eapply (load_fin _ i lp); [done|apply list_lookup_insert_eq; by eapply lookup_lt_Some|done]. }
  unfold new_item in Hblock. destruct (_cur_block lp) as [b|] eqn:Eb; [|by apply Hblock]. destruct (thread_lp s i _ lp HI Hi eq_refl) as ((_ & L2) & _). destruct (L2 b Eb) as (g & k & Hk & (G & R1 & R2) & _).
  destruct (lookup_lt_is_Some_2 (nitems s) b) as [n En]; [by eapply (s_key _ (proj1 HI))|]. rewrite En in Hblock. change (default 0%nat (Some n)) with n in Hblock. cbv zeta in Hblock. destruct (Nat.ltb_spec n BLOCK_NITEM); [|by apply Hblock].
  eapply fin_more; [by eapply item_fin|lia].
Qed.
Lemma hand_out_used it s : fault (hand_out it s) = false -> exists x, used (hand_out it s) = x :: used s.
Proof. unfold hand_out. destruct (locate (groups s) it) as [a|]; [|done]. intros _. by exists (it, a). Qed.
Lemma check_fin s i lp : inv s -> at_pc s i lp GCheck -> Z.of_nat (length (groups s)) < RP_MAX_BLOCK_NGROUP -> finishes s i 10.
Proof.
  intros HI Hi Hl. destruct (free_chunks s) as [|c l] eqn:Ec.
  - assert (goes s i = Some (set_thread i (mkThread (Some lp) GItem) s)) as Hg by (unfold go; rewrite Hi; cbn; by rewrite Ec). destruct (pool_go_inv s i true _ HI Hg) as [HI' _]. eapply fin_step; [exact Hg|done|]. eapply new_item_fin; [done|by eapply at_set|done].
  - assert (goes s i = Some (set_thread i (mkThread (Some lp) GPop) s)) as Hg by (unfold go; rewrite Hi; cbn; by rewrite Ec). destruct (pool_go_inv s i true _ HI Hg) as [HI' _]. eapply fin_step; [exact Hg|done|]. set (s1 := set_thread i _ s) in *.
    assert (at_pc s1 i lp GPop) as H1 by (by eapply at_set). assert (goes s1 i = Some (pop_free_chunk s1 i lp)) as Hg1 by (unfold go; by rewrite H1). destruct (pool_go_inv s1 i true _ HI' Hg1) as [[_ HO2] _].
    pose proof (o_chunks _ (proj2 HI')) as Hch. change (free_chunks s1) with (free_chunks s) in Hch. rewrite Ec in Hch. inversion_clear Hch as [|? ? [Hne _] _]. pose proof (o_fault _ HO2) as Hf. unfold pop_free_chunk in Hg1, Hf. change (free_chunks s1) with (free_chunks s) in Hg1, Hf. rewrite Ec in Hg1, Hf.
    destruct c as [|it c]; [done|]. destruct (hand_out_used _ _ Hf) as [x Hx]. eapply (fin_now s1 i _ _ x); [exact Hg1|exact Hx].
Qed.

(** A thread that asks for an item and runs alone has it after at most ten
    more steps, wherever the other threads were stopped, if allocations succeed
    and the groups are not used up. *)
Theorem pool_get_progress n s i t : reachable BLOCK_NITEM MAX_FREE n s -> threads s !! i = Some t -> pc t = Idle -> Z.of_nat (length (groups s)) < RP_MAX_BLOCK_NGROUP ->
  exists j s', (j <= 10)%nat /\ run BLOCK_NITEM MAX_FREE (Get i true :: repeat (Go i true) j) s = Some s' /\ exists x, used s' = x :: used s.
Proof.
  intros HI%pool_reachable_inv Hi Ep Hl. destruct (get s i true) as [s1|] eqn:E.
  - destruct (get_inv s i true s1 HI E) as [HI1 Hu]. cbn [run do_call]. rewrite E. cbn [mbind option_bind]. unfold get in E. rewrite Hi in E. cbn [mbind option_bind] in E. rewrite Ep in E. destruct (get_or_new_local_pool true t) as [lp|] eqn:Elp.
    + injection E as <-. destruct (_cur_free lp) as [|it l].
      * destruct (check_fin _ i lp HI1) as (j & s' & Hj & Hr & Hx); [apply list_lookup_insert_eq; by eapply lookup_lt_Some|done|]. by exists j, s'.
      * exists 0%nat. eexists. split_and!; [lia|reflexivity|]. destruct (hand_out_used _ _ (o_fault _ (proj2 HI1))) as [x Hx]. exists x. exact Hx.
    + unfold get_or_new_local_pool in Elp. by destruct (local t).
  - unfold get in E. rewrite Hi in E. cbn [mbind option_bind] in E. rewrite Ep in E. unfold get_or_new_local_pool in E. by destruct (local t).
Qed.
End Proofs.

(** C10: The pools are an allocator, when a chunk of free items may hold at least one
    ([zero_free_chunk] shows what happens otherwise): an item that is handed out is not in use by
    anyone and neither is its memory, items go back only when they are returned,
    every item is with a caller, in one free list or was dropped at the end of a
    thread, once, and an item stays at its address for ever. *)
Theorem pool_refines {I} {ED : EqDecision I} {PI : PoolItem I} BLOCK_NITEM MAX_FREE {Laws : PoolItemLaws BLOCK_NITEM I PI} n (s s' : @S I) c :
  (0 < BLOCK_NITEM)%nat -> (0 < MAX_FREE)%nat -> reachable BLOCK_NITEM MAX_FREE n s -> do_call BLOCK_NITEM MAX_FREE s c = Some s' ->
  fault s' = false /\ alloc_step (used s) (used s') /\ NoDup (items s') /\ (forall it, it ∈ items s' <-> made s' it) /\ (forall it a, place s it a -> place s' it a).
Proof.
  intros HB HM Hr Hc. pose proof (pool_reachable_inv BLOCK_NITEM MAX_FREE HB HM n s Hr) as HI. destruct (pool_call_inv BLOCK_NITEM MAX_FREE HB HM s c s' HI Hc) as [[HS' HO'] Ha].
  split_and!; [apply HO'|done|apply HO'|apply HO'|]. intros it a. destruct (call_grows BLOCK_NITEM MAX_FREE HB HM s c s' HI Hc) as [G1 G2]. intros Hp. by eapply (place_mono BLOCK_NITEM MAX_FREE HB HM).
Qed.

(** ** The resource pool *)

#[export] Existing Instance resource_laws.
#[export] Existing Instance object_laws.
Lemma address_place B MF n s id a : (0 < B)%nat -> (0 < MF)%nat -> reachable (ED := Z.eq_dec) (PI := resource_item B) B MF n s -> 0 <= id -> address_resource B s id = Some a <-> place (PI := resource_item B) s id a.
Proof.
  intros HB HM [HS _]%pool_reachable_inv Hid; [|apply _|done|done]. unfold address_resource, place. set (bi := id / Z.of_nat B). assert (0 <= bi) as Hbi by (apply Z.div_pos; lia). pose proof (Z.div_mod id (Z.of_nat B) ltac:(lia)) as Hdm. pose proof (Z.mod_pos_bound id (Z.of_nat B) ltac:(lia)) as Hmod. fold bi in Hdm. split.
  - destruct (Z.shiftr bi RP_GROUP_NBLOCK_NBIT <? RP_MAX_BLOCK_NGROUP); [|done]. assert (bi = index_of (Z.to_nat (Z.shiftr bi RP_GROUP_NBLOCK_NBIT)) (Z.land bi (RP_GROUP_NBLOCK - 1)) /\ in_group (Z.land bi (RP_GROUP_NBLOCK - 1))) as [Ebi Hin].
    { unfold index_of, in_group, RP_GROUP_NBLOCK, RP_GROUP_NBLOCK_NBIT. change (65536 - 1) with (Z.ones 16). rewrite Z.land_ones, Z.shiftr_div_pow2 by lia. change (2 ^ 16) with 65536. pose proof (Z.div_mod bi 65536 ltac:(lia)). pose proof (Z.mod_pos_bound bi 65536 ltac:(lia)). pose proof (Z.div_pos bi 65536 ltac:(lia) ltac:(lia)). lia. }
    destruct (find_block (groups s) bi) as [b|] eqn:Ef; [|done]. cbn [mbind option_bind]. destruct (nitems s !! b) as [m|] eqn:En; [|done]. cbn [mbind option_bind]. destruct (Z.ltb_spec (id - bi * Z.of_nat B) (Z.of_nat m)); [|done]. intros [= <-].
    rewrite Ebi in Ef. apply find_reg in Ef; [|done]. eexists _, _, m. split_and!; [apply Hin..|exact Ef|done|cbn; lia|]. cbn [item resource_item fst snd]. rewrite <- Ebi. lia.
  - intros (g & i & m & Hin & Hr & Hn & Hk & E). destruct a as [b k]. cbn [fst snd item resource_item] in *. pose proof (s_n _ _ HS _ _ Hn). assert (bi = index_of g i) as -> by (unfold bi; rewrite E, Z.div_add_l, Z.div_small by lia; lia).
    assert (Z.shiftr (index_of g i) RP_GROUP_NBLOCK_NBIT < RP_MAX_BLOCK_NGROUP) as Hlt.
    { destruct (index_parts g i Hin) as [Eg _]. destruct Hr as (G & Hg & _). apply lookup_lt_Some in Hg. pose proof (s_len _ _ HS). assert (0 <= Z.shiftr (index_of g i) RP_GROUP_NBLOCK_NBIT) by (apply Z.shiftr_nonneg; unfold index_of, in_group, RP_GROUP_NBLOCK in *; lia). lia. }
    apply Z.ltb_lt in Hlt. rewrite Hlt. apply find_reg in Hr as ->; [|done]. cbn [mbind option_bind]. rewrite Hn. cbn [mbind option_bind]. destruct (Z.ltb_spec (id - index_of g i * Z.of_nat B) (Z.of_nat m)); [|lia]. do 2 f_equal. lia.
Qed.
(** [address_resource] gives the address of every identifier in use, never changes
    its answer afterwards, even when the item is returned and handed out again, and gives
    different addresses for different identifiers. *)
Theorem resource_addresses B MF n s s' : (0 < B)%nat -> (0 < MF)%nat -> reachable (ED := Z.eq_dec) (PI := resource_item B) B MF n s -> steps (step (ED := Z.eq_dec) (PI := resource_item B) B MF) s s' ->
  (forall id a, (id, a) ∈ used s -> address_resource B s id = Some a) /\
  (forall id a, 0 <= id -> address_resource B s id = Some a -> address_resource B s' id = Some a) /\
  (forall id id' a, 0 <= id -> 0 <= id' -> address_resource B s id = Some a -> address_resource B s id' = Some a -> id = id').
Proof.
  intros HB HM Hr Hs. pose proof (pool_reachable_inv B MF (Laws := resource_laws B) HB HM n s Hr) as [HS HO]. assert (reachable (ED := Z.eq_dec) (PI := resource_item B) B MF n s') as Hr' by (eapply steps_app; [exact Hr|exact Hs]). split_and!.
  - intros id a Hin. pose proof (o_used _ _ HO id a Hin) as Hp. apply (address_place B MF n s); try done. destruct Hp as (g & i & m & Hi & _ & _ & _ & ->). cbn [item resource_item]. unfold index_of, in_group, RP_GROUP_NBLOCK in *. nia.
  - intros id a Hid Ha. apply (address_place B MF n s) in Ha; [|done..]. apply (address_place B MF n s'); try done. eapply (steps_grow B MF (Laws := resource_laws B)); try done.
  - intros id id' a Hid Hid' H1 H2. apply (address_place B MF n s) in H1; [|done..]. apply (address_place B MF n s) in H2; [|done..]. by eapply place_fun.
Qed.

(** ** The object pool: the items are named by their addresses *)

Definition get_object : @S addr -> nat -> bool -> option (@S addr) := get (PI := object_item).
Definition object_pop_free_chunk : @S addr -> nat -> @LocalPool addr -> @S addr := pop_free_chunk (PI := object_item).
Definition object_new_item (BLOCK_NITEM : nat) : @S addr -> nat -> @LocalPool addr -> bool -> @S addr := new_item (PI := object_item) BLOCK_NITEM.
Definition object_add_block_group : @S addr -> nat -> @LocalPool addr -> nat -> nat -> bool -> @S addr := add_block_group.
Definition object_delete_local_pool : @S addr -> nat -> bool -> option (@S addr) := delete_local_pool.
Definition object_pool_step (BLOCK_NITEM : nat) : @S addr -> nat -> bool -> option (@S addr) := go (PI := object_item) BLOCK_NITEM.
Definition return_object (BLOCK_NITEM MAX_FREE : nat) : @S addr -> nat -> addr -> bool -> bool -> option (Z * @S addr) := return_item BLOCK_NITEM MAX_FREE.
(** No two callers have the same object. *)
Lemma object_pool_unique B MF n s : (0 < B)%nat -> (0 < MF)%nat -> reachable (PI := object_item) B MF n s -> NoDup (map fst (used s)) /\ forall p a, (p, a) ∈ used s -> p = a.
Proof.
  intros HB HM Hr. pose proof (pool_reachable_inv B MF (Laws := object_laws B) HB HM n s Hr) as [HS HO]. split.
  - pose proof (o_nodup _ _ HO) as Hn. unfold items in Hn. by apply NoDup_app in Hn as (? & _).
  - intros p a Hin. destruct (o_used _ _ HO p a Hin) as (g & i & m & _ & _ & _ & _ & ->). by destruct a.
Qed.

(** ** Examples *)

Lemma pool_run_steps {I} {ED : EqDecision I} {PI : PoolItem I} B MF l (s s' : @S I) : run B MF l s = Some s' -> steps (step B MF) s s'.
Proof.
  revert s. induction l as [|c l IH]; cbn [run]; intros s; [intros [= <-]; constructor|]. destruct (do_call B MF s c) as [s1|] eqn:E; [|done]. cbn [mbind option_bind]. intros H%IH. eapply steps_app; [|exact H]. eapply steps_trans; [apply steps_refl|]. by exists c.
Qed.
(** Two threads race for the first group; items go back and out again, with blocks of two items. *)
Definition pool_race : list (@call Z) :=
  [Get 0 true; Get 1 true] ++ repeat (Go 0 true) 3 ++ repeat (Go 1 true) 3 ++ repeat (Go 0 true) 5 ++ repeat (Go 1 true) 5 ++
  [Get 0 true; Go 0 true; Go 0 true; Return 1 0 true true; Return 1 1 true true; Return 1 2 true true].
Definition race_state : @S Z := default (init 2) (run (ED := Z.eq_dec) (PI := resource_item 2) 2 2 pool_race (init 2)).
Lemma race_reachable : reachable (ED := Z.eq_dec) (PI := resource_item 2) 2 2 2 race_state.
Proof. apply (pool_run_steps (ED := Z.eq_dec) (PI := resource_item 2) 2 2 pool_race). vm_compute. reflexivity. Qed.
Lemma pool_refines_witness : exists s', do_call (ED := Z.eq_dec) (PI := resource_item 2) 2 2 race_state (Get 1 true) = Some s' /\ map fst (used s') = [2] /\ alloc_step (ED := Z.eq_dec) (used race_state) (used s').
Proof.
  eexists. split; [vm_compute; reflexivity|]. split; [vm_compute; reflexivity|]. eapply (pool_refines (ED := Z.eq_dec) (PI := resource_item 2) (Laws := resource_laws 2) 2 2 2 race_state _ (Get 1 true)); [lia|lia|apply race_reachable|vm_compute; reflexivity].
Defined.
(** With chunks of no items, which tc_stack_small = 0 or tc_stack_normal = 0 asks for,
    the first item that is returned puts an empty chunk into the global list, and who
    takes that chunk reads an item in front of it. *)
Definition zero_calls : list (@call addr) := [Get 0 true] ++ repeat (Go 0 true) 8 ++ [Return 0 (0, 0)%nat true true; Get 0 true; Get 0 true; Go 0 true; Go 0 true].
Lemma zero_free_chunk : fault <$> run (PI := object_item) 2 0 zero_calls (init 1) = Some true.
Proof. vm_compute. reflexivity. Qed.
Lemma pool_get_progress_witness : exists j s', (j <= 10)%nat /\ run (ED := Z.eq_dec) (PI := resource_item 2) 2 2 (Get 0 true :: repeat (Go 0 true) j) race_state = Some s' /\ exists x, used s' = x :: used race_state.
Proof.
  eapply (pool_get_progress (ED := Z.eq_dec) (PI := resource_item 2) (Laws := resource_laws 2) 2 2 ltac:(lia) ltac:(lia) 2 race_state 0); [apply race_reachable|vm_compute; reflexivity|reflexivity|vm_compute; reflexivity].
Defined.
Lemma resource_addresses_witness : address_resource 2 race_state 2 = Some (1, 0)%nat /\
  match run (ED := Z.eq_dec) (PI := resource_item 2) 2 2 [Get 1 true] race_state with Some s' => address_resource 2 s' 2 = Some (1, 0)%nat | None => False end.
Proof.
  assert (address_resource 2 race_state 2 = Some (1, 0)%nat) as Ha by (vm_compute; reflexivity). split; [exact Ha|]. destruct (run (ED := Z.eq_dec) (PI := resource_item 2) 2 2 [Get 1 true] race_state) as [s'|] eqn:E; [|by vm_compute in E].
  destruct (resource_addresses 2 2 2 race_state s' ltac:(lia) ltac:(lia) race_reachable ltac:(by eapply pool_run_steps)) as (_ & H & _). apply H; [lia|exact Ha].
Defined.

End RP.
