(* ===== verification/Mutex.v ===== *)
(** * Mutexes and condition variables (src/src-bthread/mutex.cpp, condition_variable.cpp)

    One mutex, the condition variable that is bound to it, and any number of
    threads; a step is one access to the word of the mutex or to the sequence
    number of the condition variable, or one butex call.  A butex is its word and
    the queue of its waiters, as [Butex] proves of the real one: a waiter sleeps
    only if the word has the expected value, a waker takes the first waiters, and
    a waiter that times out or is interrupted leaves the queue.  A woken thread first
    returns from its wait ([LWoken], [CWoken]); a pthread whose time was up while a waker
    took it out may then report ETIMEDOUT although it was woken ([Late],
    Butex.pthread_timeout_uses_wake).  Whether a waiter
    goes to the front of the queue ([queue_lifo]) depends on the last [errno] and
    is an argument of the step. *)
From S2P Require Import Prelude.

Module Mx.

Definition MUTEX_LOCKED : Z := 1.
Definition MUTEX_CONTENDED : Z := 257.
Definition ETIMEDOUT : Z := 110.
(** The bytes of [MutexInternal]. *)
Definition locked (w : Z) : Z := Z.land w 255.
Definition set_locked (w : Z) : Z := Z.lor (w - locked w) 1.

(** Who calls [mutex_lock_contended_impl]: a lock, with or without a time, or a
    wait on the condition variable that returns [rc1]. *)
Inductive mode := Plain (timed : bool) | Cond (rc1 : Z).
Inductive PC :=
| Idle | Hold
| LXchg (m : mode)              (* the test of the loop of mutex_lock_contended_impl *)
| LWait (m : mode)
| LSleep (m : mode)
| LWoken (m : mode)              (* woken, before the wait returns *)
| UWake (k : option (Z * bool)) (* in the unlock, which a wait on the condition variable may have called *)
| CUnlock (expected_seq : Z) (timed : bool)
| CWait (expected_seq : Z) (timed : bool)
| CSleep (timed : bool)
| CWoken (timed : bool)
| SWake (held : bool)
| BRequeue (held : bool)
| BWake (held : bool) (w : nat).
(** The word of the mutex and its waiters, [seq] of the condition variable and its
    waiters, and whether the mutex is bound to it. *)
Record S := mkS { word : Z; mq : list nat; seq : Z; cq : list nat; bound : bool; threads : list PC }.
Definition set_word w s := mkS w (mq s) (seq s) (cq s) (bound s) (threads s).
Definition set_mq l s := mkS (word s) l (seq s) (cq s) (bound s) (threads s).
Definition set_seq n s := mkS (word s) (mq s) n (cq s) (bound s) (threads s).
Definition set_cq l s := mkS (word s) (mq s) (seq s) l (bound s) (threads s).
Definition bind_mutex s := mkS (word s) (mq s) (seq s) (cq s) true (threads s).
Definition set_pc (i : nat) (p : PC) (s : S) : S := mkS (word s) (mq s) (seq s) (cq s) (bound s) (<[i := p]> (threads s)).

(** A sleeping thread is woken. *)
Definition resume (w : nat) (s : S) : S :=
  match threads s !! w with
  | Some (LSleep m) => set_pc w (LWoken m) s
  | Some (CSleep timed) => set_pc w (CWoken timed) s
  | _ => s
  end.
(** [butex_wake] of the mutex and of the condition variable. *)
Definition wake_mutex (s : S) : S := match mq s with [] => s | w :: l => resume w (set_mq l s) end.
Definition wake_cond (s : S) : S := match cq s with [] => s | w :: l => resume w (set_cq l s) end.
Definition back (held : bool) : PC := if held then Hold else Idle.

Definition mutex_trylock_impl (s : S) : bool * S := (locked (word s) =? 0, set_word (set_locked (word s)) s).
Definition bthread_mutex_trylock (s : S) (i : nat) : S := let r := mutex_trylock_impl s in set_pc i (if fst r then Hold else Idle) (snd r).
Definition bthread_mutex_lock (s : S) (i : nat) (timed : bool) : S := let r := mutex_trylock_impl s in set_pc i (if fst r then Hold else LXchg (Plain timed)) (snd r).
(** The steps of [mutex_lock_contended_impl]. *)
Definition lock_exchange (s : S) (i : nat) (m : mode) : S :=
  set_pc i (if locked (word s) =? 0 then Hold else LWait m) (set_word MUTEX_CONTENDED s).
Definition lock_wait (s : S) (i : nat) (m : mode) (queue_lifo : bool) : S :=
  if word s =? MUTEX_CONTENDED then set_mq (if queue_lifo then i :: mq s else mq s ++ [i]) (set_pc i (LSleep m) s)
  else set_pc i (LXchg m) s.
Definition bthread_mutex_unlock (s : S) (i : nat) (k : option (Z * bool)) : S :=
  let after := match k with None => Idle | Some (e, timed) => CWait e timed end in
  set_pc i (if word s =? MUTEX_LOCKED then after else UWake k) (set_word 0 s).
Definition unlock_wake (s : S) (i : nat) (k : option (Z * bool)) : S :=
  set_pc i (match k with None => Idle | Some (e, timed) => CWait e timed end) (wake_mutex s).

(** [bthread_cond_wait] and [bthread_cond_timedwait] up to the unlock; there is one mutex. *)
Definition bthread_cond_wait (s : S) (i : nat) (timed : bool) : S := set_pc i (CUnlock (seq s) timed) (bind_mutex s).
Definition cond_butex_wait (s : S) (i : nat) (expected_seq : Z) (timed : bool) : S :=
  if seq s =? expected_seq then set_cq (cq s ++ [i]) (set_pc i (CSleep timed) s) else set_pc i (LXchg (Cond 0)) s.
Definition bthread_cond_signal (s : S) (i : nat) (held : bool) : S := set_pc i (SWake held) (set_seq (u32 (seq s + 1)) s).
Definition bthread_cond_broadcast (s : S) (i : nat) (held : bool) : S :=
  if bound s then set_pc i (BRequeue held) (set_seq (u32 (seq s + 1)) s) else s.
(** [butex_requeue]: the first waiter is taken, the others wait for the mutex. *)
Definition butex_requeue (s : S) (i : nat) (held : bool) : S :=
  match cq s with
  | [] => set_pc i (back held) s
  | w :: l => set_pc i (BWake held w) (set_mq (mq s ++ l) (set_cq [] s))
  end.

(** A waiter whose time is up, or that is interrupted, leaves the queue. *)
Definition leave (s : S) (i : nat) (p : PC) : option S :=
  if existsb (Nat.eqb i) (mq s ++ cq s) then Some (set_pc i p (set_mq (remove_k i (mq s)) (set_cq (remove_k i (cq s)) s))) else None.

Inductive call :=
| Lock (i : nat) (timed : bool) | TryLock (i : nat) | Unlock (i : nat)
| Wait (i : nat) (timed : bool) | Signal (i : nat) | Broadcast (i : nat)
| Go (i : nat) (queue_lifo : bool) | Timeout (i : nat) | Interrupt (i : nat) | Late (i : nat).
Definition go (s : S) (i : nat) (queue_lifo : bool) (p : PC) : option S :=
  match p with
  | LXchg m => Some (lock_exchange s i m)
  | LWait m => Some (lock_wait s i m queue_lifo)
  | LWoken m => Some (set_pc i (LXchg m) s)
  | CWoken _ => Some (set_pc i (LXchg (Cond 0)) s)
  | UWake k => Some (unlock_wake s i k)
  | CUnlock e timed => Some (bthread_mutex_unlock s i (Some (e, timed)))
  | CWait e timed => Some (cond_butex_wait s i e timed)
  | SWake held => Some (set_pc i (back held) (wake_cond s))
  | BRequeue held => Some (butex_requeue s i held)
  | BWake held w => Some (set_pc i (back held) (resume w s))
  | Idle | Hold | LSleep _ | CSleep _ => None
  end.
Definition do_call (s : S) (c : call) : option S :=
  match c with
  | Lock i timed => match threads s !! i with Some Idle => Some (bthread_mutex_lock s i timed) | _ => None end
  | TryLock i => match threads s !! i with Some Idle => Some (bthread_mutex_trylock s i) | _ => None end
  | Unlock i => match threads s !! i with Some Hold => Some (bthread_mutex_unlock s i None) | _ => None end
  | Wait i timed => match threads s !! i with Some Hold => Some (bthread_cond_wait s i timed) | _ => None end
  | Signal i => match threads s !! i with Some Hold => Some (bthread_cond_signal s i true) | Some Idle => Some (bthread_cond_signal s i false) | _ => None end
  | Broadcast i => match threads s !! i with Some Hold => Some (bthread_cond_broadcast s i true) | Some Idle => Some (bthread_cond_broadcast s i false) | _ => None end
  | Go i lifo => p ← threads s !! i; go s i lifo p
  | Timeout i => match threads s !! i with Some (LSleep (Plain true)) => leave s i Idle | Some (CSleep true) => leave s i (LXchg (Cond ETIMEDOUT)) | _ => None end
  | Interrupt i => match threads s !! i with Some (LSleep m) => leave s i (LXchg m) | Some (CSleep _) => leave s i (LXchg (Cond 0)) | _ => None end
  | Late i => match threads s !! i with Some (LWoken (Plain true)) => Some (set_pc i Idle s) | Some (CWoken true) => Some (set_pc i (LXchg (Cond ETIMEDOUT)) s) | _ => None end
  end.
Definition step (s s' : S) : Prop := exists c, do_call s c = Some s'.
Definition init (n : nat) : S := mkS 0 [] 0 [] false (replicate n Idle).
Definition reachable (n : nat) : S -> Prop := steps step (init n).
Fixpoint run (l : list call) (s : S) : option S := match l with [] => Some s | c :: l' => s' ← do_call s c; run l' s' end.

(** ** The invariant *)

Definition holds (p : PC) : nat := match p with Hold | CUnlock _ _ | SWake true | BRequeue true | BWake true _ => 1 | _ => 0 end.
(** Threads that wake another one or try to get the mutex themselves. *)
Definition waking (p : PC) : nat := match p with UWake _ | LXchg _ | LWoken _ | CWoken _ | BWake _ _ => 1 | _ => 0 end.
Definition asleep (p : PC) : nat := match p with LSleep _ | CSleep _ => 1 | _ => 0 end.
Definition in_hand (v : nat) (p : PC) : nat := match p with BWake _ w => b2n (w =? v)%nat | _ => 0 end.
Definition asleep_at (s : S) (v : nat) : nat := match threads s !! v with Some p => asleep p | None => 0 end.
(** A lock that has been woken does not report ETIMEDOUT. *)
Definition prompt (s : S) (c : call) : Prop := match c with Late i => forall m, threads s !! i <> Some (LWoken m) | _ => True end.
Definition prompt_step (s s' : S) : Prop := exists c, prompt s c /\ do_call s c = Some s'.
Section Inv.
(** Whether the steps are prompt. *)
Variable P : Prop.
Record inv (s : S) : Prop := {
  i_word : word s = 0 \/ word s = MUTEX_LOCKED \/ word s = MUTEX_CONTENDED;
  i_hold : sum_list_with holds (threads s) = if word s =? 0 then 0%nat else 1%nat;
  i_place : forall v, (cocc (mq s) v + cocc (cq s) v + sum_list_with (in_hand v) (threads s) = asleep_at s v)%nat;
  i_cq : forall v, v ∈ cq s -> exists timed, threads s !! v = Some (CSleep timed);
  i_lost : P -> mq s <> [] -> word s = MUTEX_CONTENDED \/ (0 < sum_list_with waking (threads s))%nat }.

Lemma inv_upd s s' i p p' : inv s -> threads s !! i = Some p -> threads s' = <[i := p']> (threads s) -> word s' = 0 \/ word s' = MUTEX_LOCKED \/ word s' = MUTEX_CONTENDED ->
  (holds p' + (if (word s =? 0)%Z then 0 else 1) = holds p + (if (word s' =? 0)%Z then 0 else 1))%nat ->
  (forall v, cocc (mq s') v + cocc (cq s') v + in_hand v p' + (if (v =? i)%nat then asleep p else 0) = cocc (mq s) v + cocc (cq s) v + in_hand v p + (if (v =? i)%nat then asleep p' else 0))%nat ->
  (forall v, v ∈ cq s' -> (v ∈ cq s /\ v <> i) \/ (v = i /\ exists timed, p' = CSleep timed)) ->
  (P -> mq s' <> [] -> word s' = MUTEX_CONTENDED \/ (waking p < sum_list_with waking (threads s) + waking p')%nat) -> inv s'.
Proof.
  intros [H1 H2 H3 H4 H5] Hi ET Hw Hh Hp Hc Hl. pose proof (lookup_lt_Some _ _ _ Hi) as Hlt. split; rewrite ?ET; try done.
  - pose proof (sum_insert holds (threads s) i p p' Hi). destruct (word s =? 0), (word s' =? 0); lia.
  - intros v. pose proof (sum_insert (in_hand v) (threads s) i p p' Hi) as E. specialize (Hp v). specialize (H3 v). unfold asleep_at in *. rewrite ET. destruct (Nat.eqb_spec v i) as [->|Hne].
    + rewrite list_lookup_insert_eq by done. rewrite Hi in H3. lia.
    + rewrite list_lookup_insert_ne by done. lia.
  - intros v Hv. destruct (Hc v Hv) as [[Hv' Hne]|[-> [timed ->]]].
    + destruct (H4 v Hv') as [timed E]. exists timed. by rewrite list_lookup_insert_ne.
    + exists timed. by apply list_lookup_insert_eq.
  - intros HP Hm. destruct (Hl HP Hm) as [|Hx]; [by left|]. right. pose proof (sum_insert waking (threads s) i p p' Hi). lia.
Qed.
(** Only a thread moves, and it neither sleeps nor wakes. *)
Lemma mx_inv_move s s' i p p' : inv s -> threads s !! i = Some p -> threads s' = <[i := p']> (threads s) -> word s' = word s -> mq s' = mq s -> cq s' = cq s -> holds p' = holds p ->
  asleep p = 0%nat -> asleep p' = 0%nat -> (forall v, in_hand v p' = in_hand v p) -> (waking p <= waking p')%nat \/ (waking p < sum_list_with waking (threads s))%nat \/ mq s = [] \/ ~ P -> inv s'.
Proof.
  intros HI Hi ET EW EM EC Hh Ha Ha' Hin Hk. eapply (inv_upd s s' i p p'); rewrite ?EW, ?EM, ?EC; try done; [apply HI|lia|intros v; rewrite Ha, Ha', Hin; destruct (v =? i)%nat; lia| |].
  - intros v Hv. left. split; [done|]. intros ->. destruct (i_cq _ HI i Hv) as [timed E]. rewrite Hi in E. injection E as ->. done.
  - intros HP Hm. destruct (i_lost _ HI HP Hm) as [|Hx]; [by left|]. right. destruct Hk as [|[|[|]]]; [lia|lia|done|done].
Qed.
Lemma asleep_pc s v : (0 < asleep_at s v)%nat -> exists p, threads s !! v = Some p /\ asleep p = 1%nat.
Proof. unfold asleep_at. destruct (threads s !! v) as [p|]; [|lia]. intros H. exists p. split; [done|]. destruct p; cbn in *; lia. Qed.
(** A sleeping thread is woken: it was in a queue or in the hands of a waker. *)
Lemma resume_inv s s' w p : inv s -> threads s !! w = Some p -> asleep p = 1%nat -> threads s' = threads s -> word s' = word s ->
  (forall v, cocc (mq s') v + cocc (cq s') v + b2n (w =? v) = cocc (mq s) v + cocc (cq s) v)%nat -> (forall v, v ∈ cq s' -> v ∈ cq s /\ v <> w) -> inv (resume w s') /\ sum_list_with waking (threads (resume w s')) = Datatypes.S (sum_list_with waking (threads s)) /\
  (forall j, j <> w -> threads (resume w s') !! j = threads s !! j).
Proof.
  intros HI Hw Ha ET EW Hq Hc. unfold resume. rewrite ET, Hw. assert (exists q, waking q = 1%nat /\ holds q = 0%nat /\ asleep q = 0%nat /\ (forall v, in_hand v q = 0%nat) /\ threads (resume w s') = <[w := q]> (threads s) /\ resume w s' = set_pc w q s') as (q & Q1 & Q2 & Q3 & Q4 & E1 & E2) by (unfold resume; rewrite ET, Hw; destruct p; try done; (eexists; split_and!; [| | | | |reflexivity]); try done; cbn; by rewrite ET).
  unfold resume in E1, E2. rewrite ET, Hw in E1, E2. rewrite E2 in *. clear E2. split_and!.
  - eapply (inv_upd s _ w p q); try done; [cbn; rewrite EW; apply HI|cbn [word set_pc]; rewrite EW, Q2; assert (holds p = 0%nat) as -> by (by destruct p); done| | |].
    + intros v. cbn [mq cq set_pc in_hand asleep]. specialize (Hq v). rewrite (Nat.eqb_sym v w), Ha, Q3, Q4. assert (in_hand v p = 0%nat) as -> by (by destruct p). destruct (w =? v)%nat; cbn [b2n] in *; lia.
    + cbn. intros v Hv. left. by apply Hc.
    + intros _ _. right. cbn. assert (waking p = 0%nat) as -> by (by destruct p). lia.
  - cbn. rewrite ET. pose proof (sum_insert waking (threads s) w p q Hw) as E. assert (waking p = 0%nat) as E0 by (by destruct p). rewrite E0, Q1 in E. lia.
  - intros j Hj. cbn. rewrite ET. by rewrite list_lookup_insert_ne.
Qed.
Lemma wake_mutex_inv s : inv s -> inv (wake_mutex s) /\ (mq s <> [] -> sum_list_with waking (threads (wake_mutex s)) = Datatypes.S (sum_list_with waking (threads s))) /\ (mq s = [] -> wake_mutex s = s) /\
  (forall j p, threads s !! j = Some p -> asleep p = 0%nat -> threads (wake_mutex s) !! j = Some p).
Proof.
  intros HI. unfold wake_mutex. destruct (mq s) as [|w l] eqn:Em; [done|]. pose proof (i_place _ HI w) as Hp. rewrite Em, cocc_cons, Nat.eqb_refl in Hp. cbn [b2n] in Hp. destruct (asleep_pc s w ltac:(lia)) as (p & Hw & Ha).
  destruct (resume_inv s (set_mq l s) w p HI Hw Ha eq_refl eq_refl) as (R1 & R2 & R3).
  - intros v. cbn [mq cq set_mq set_cq]. rewrite Em, cocc_cons. lia.
  - cbn. intros v Hv. split; [done|]. intros ->. unfold asleep_at in Hp. rewrite Hw, Ha in Hp. apply elem_cocc in Hv. lia.
  - split_and!; [done|done|done|]. intros j q Hj Hq. rewrite R3; [done|]. intros ->. congruence.
Qed.
Lemma wake_cond_inv s : inv s -> inv (wake_cond s) /\ (sum_list_with waking (threads s) <= sum_list_with waking (threads (wake_cond s)))%nat /\ (forall j p, threads s !! j = Some p -> asleep p = 0%nat -> threads (wake_cond s) !! j = Some p).
Proof.
  intros HI. unfold wake_cond. destruct (cq s) as [|w l] eqn:Em; [done|]. pose proof (i_place _ HI w) as Hp. rewrite Em, cocc_cons, Nat.eqb_refl in Hp. cbn [b2n] in Hp. destruct (asleep_pc s w ltac:(lia)) as (p & Hw & Ha).
  destruct (resume_inv s (set_cq l s) w p HI Hw Ha eq_refl eq_refl) as (R1 & R2 & R3).
  - intros v. cbn [mq cq set_mq set_cq]. rewrite Em, cocc_cons. lia.
  - cbn. intros v Hv. rewrite Em. split; [by right|]. intros ->. unfold asleep_at in Hp. rewrite Hw, Ha in Hp. apply elem_cocc in Hv. lia.
  - split_and!; [done|lia|]. intros j q Hj Hq. rewrite R3; [done|]. intros ->. congruence.
Qed.
Lemma leave_inv s i p p' s' : inv s -> threads s !! i = Some p -> asleep p = 1%nat -> p' = Idle \/ (exists m, p' = LXchg m) -> leave s i p' = Some s' -> inv s'.
Proof.
  intros HI Hi Ha Hp'. unfold leave. destruct (existsb (Nat.eqb i) (mq s ++ cq s)) eqn:Ex; [|done]. intros [= <-]. apply existsb_exists in Ex as (x & Hx & <-%Nat.eqb_eq). apply list_elem_of_In, elem_cocc in Hx. rewrite cocc_app in Hx.
  pose proof (i_place _ HI i) as Hpl. unfold asleep_at in Hpl. rewrite Hi, Ha in Hpl. assert (asleep p' = 0%nat /\ holds p' = 0%nat /\ holds p = 0%nat /\ (forall v, in_hand v p' = 0%nat /\ in_hand v p = 0%nat)) as (A1 & A2 & A3 & A4) by (destruct Hp' as [->|[m ->]]; by destruct p).
  eapply (inv_upd s _ i p p'); try done; [apply HI|cbn [word set_pc set_mq set_cq]; by rewrite A2, A3| | |].
  - intros v. cbn [mq cq set_pc set_mq set_cq]. rewrite !cocc_remove. destruct (A4 v) as [-> ->]. rewrite A1, Ha. destruct (Nat.eqb_spec v i) as [->|]; [rewrite !decide_True by done; lia|rewrite !decide_False by done; lia].
  - cbn. intros v Hv. left. unfold remove_k in Hv. apply list_elem_of_In, filter_In in Hv as [Hv Hne]. split; [by apply list_elem_of_In|]. intros ->. by rewrite Nat.eqb_refl in Hne.
  - cbn. intros HP Hm. assert (mq s <> []) as Hm' by (intros E; by rewrite E in Hm). destruct (i_lost _ HI HP Hm') as [|]; [by left|right]. assert (waking p = 0%nat) as -> by (by destruct p). lia.
Qed.

Lemma locked_cases s : inv s -> locked (word s) = (if word s =? 0 then 0 else 1) /\ set_locked (word s) = (if word s =? 0 then MUTEX_LOCKED else word s).
Proof. intros [[->|[->| ->]] _ _ _ _]; done. Qed.
Lemma mx_trylock_inv s i q : inv s -> threads s !! i = Some Idle -> q = Idle \/ (exists m, q = LXchg m) -> inv (set_pc i (if fst (mutex_trylock_impl s) then Hold else q) (snd (mutex_trylock_impl s))).
Proof.
  intros HI Hi Hq. unfold mutex_trylock_impl. cbn [fst snd]. destruct (locked_cases s HI) as [-> ->]. destruct (word s =? 0) eqn:Ew; cbn [Z.eqb].
  - eapply (inv_upd s _ i Idle Hold); try done; [by right; left|cbn [word set_pc set_word holds]; by rewrite Ew| |].
    + cbn. intros v Hv. left. split; [done|]. intros ->. destruct (i_cq _ HI i Hv) as [? E]. congruence.
    + cbn. intros HP Hm. destruct (i_lost _ HI HP Hm) as [E|]; [by rewrite E in Ew|]. right. lia.
  - assert (holds q = 0%nat /\ asleep q = 0%nat /\ forall v, in_hand v q = 0%nat) as (Q1 & Q2 & Q3) by (destruct Hq as [->|[m ->]]; done).
    eapply (mx_inv_move s _ i Idle q); try done. left. cbn. lia.
Qed.
Lemma exchange_inv s i m : inv s -> threads s !! i = Some (LXchg m) -> inv (lock_exchange s i m).
Proof.
  intros HI Hi. unfold lock_exchange. destruct (locked_cases s HI) as [-> _]. destruct (word s =? 0) eqn:Ew; cbn [Z.eqb];
    (eapply (inv_upd s _ i (LXchg m)); [done|done|reflexivity|by right; right|cbn [word set_pc set_word holds]; by rewrite Ew|intros v; done| |by left]);
    cbn; intros v Hv; left; (split; [done|]); intros ->; destruct (i_cq _ HI i Hv) as [? E]; congruence.
Qed.
Lemma lock_wait_inv s i m lifo : inv s -> threads s !! i = Some (LWait m) -> inv (lock_wait s i m lifo).
Proof.
  intros HI Hi. unfold lock_wait. destruct (Z.eqb_spec (word s) MUTEX_CONTENDED) as [Ew|Ew].
  - eapply (inv_upd s _ i (LWait m) (LSleep m)); try done; [by right; right| | |].
    + intros v. cbn [mq cq set_pc set_mq in_hand asleep]. assert (cocc (if lifo then i :: mq s else mq s ++ [i]) v = (cocc (mq s) v + b2n (i =? v))%nat) as -> by (destruct lifo; [rewrite cocc_cons; lia|rewrite cocc_app, cocc_cons; cbn; lia]).
      rewrite (Nat.eqb_sym v i). destruct (i =? v)%nat; cbn [b2n]; lia.
    + cbn. intros v Hv. left. split; [done|]. intros ->. destruct (i_cq _ HI i Hv) as [? E]. congruence.
    + by left.
  - eapply (mx_inv_move s _ i (LWait m) (LXchg m)); try done. left. cbn. lia.
Qed.
Lemma mx_unlock_inv s i p k : inv s -> threads s !! i = Some p -> p = Hold \/ (exists e t, p = CUnlock e t) -> inv (bthread_mutex_unlock s i k).
Proof.
  intros HI Hi Hp. assert (holds p = 1%nat /\ asleep p = 0%nat /\ waking p = 0%nat /\ (forall v, in_hand v p = 0%nat)) as (P1 & P2 & P3 & P4) by (destruct Hp as [->|(e & t & ->)]; done).
  assert ((word s =? 0) = false) as Ew. { pose proof (sum_lookup holds _ _ _ Hi) as Hs. rewrite (i_hold _ HI), P1 in Hs. destruct (word s =? 0); [lia|done]. }
  unfold bthread_mutex_unlock. set (p' := if word s =? MUTEX_LOCKED then _ else _).
  assert (holds p' = 0%nat /\ asleep p' = 0%nat /\ (forall v, in_hand v p' = 0%nat)) as (Q1 & Q2 & Q3) by (unfold p'; destruct (word s =? MUTEX_LOCKED); destruct k as [[e t]|]; done).
  eapply (inv_upd s _ i p p'); try done; [by left|cbn [word set_pc set_word]; rewrite Ew, Q1, P1; done|intros v; cbn [mq cq set_pc set_word]; rewrite P2, P4, Q2, Q3; by destruct (v =? i)%nat| |].
  - cbn. intros v Hv. left. split; [done|]. intros ->. destruct (i_cq _ HI i Hv) as [? E]. rewrite Hi in E. injection E as ->. destruct Hp as [|(e & t & ?)]; done.
  - cbn. intros HP Hm. right. rewrite P3. unfold p'. destruct (Z.eqb_spec (word s) MUTEX_LOCKED) as [E|E]; [|cbn; lia]. destruct (i_lost _ HI HP Hm) as [E'|]; [by rewrite E in E'|lia].
Qed.
Lemma unlock_wake_inv s i k : inv s -> threads s !! i = Some (UWake k) -> inv (unlock_wake s i k).
Proof.
  intros HI Hi. unfold unlock_wake. destruct (wake_mutex_inv s HI) as (W1 & W2 & W3 & W4). specialize (W4 i _ Hi eq_refl). set (p' := match k with None => Idle | Some (e, timed) => CWait e timed end).
  assert (holds p' = 0%nat /\ asleep p' = 0%nat /\ (forall v, in_hand v p' = 0%nat)) as (Q1 & Q2 & Q3) by (unfold p'; by destruct k as [[e t]|]).
  eapply (mx_inv_move (wake_mutex s) _ i (UWake k) p'); try done. right. destruct (mq s) as [|w l] eqn:Em; [right; left; by rewrite W3|]. left. rewrite W2 by done. pose proof (sum_lookup waking _ _ _ Hi). lia.
Qed.
Lemma cond_wait_inv s i e t : inv s -> threads s !! i = Some (CWait e t) -> inv (cond_butex_wait s i e t).
Proof.
  intros HI Hi. unfold cond_butex_wait. destruct (seq s =? e).
  - eapply (inv_upd s _ i (CWait e t) (CSleep t)); try done; [apply HI| | |].
    + intros v. cbn [mq cq set_pc set_cq in_hand asleep]. rewrite cocc_app, cocc_cons. rewrite (Nat.eqb_sym v i). destruct (i =? v)%nat; cbn; lia.
    + cbn. intros v [Hv| ->%list_elem_of_singleton]%elem_of_app; [left|right; by eauto]. split; [done|]. intros ->. destruct (i_cq _ HI i Hv) as [? E]. congruence.
    + cbn. intros HP Hm. destruct (i_lost _ HI HP Hm); [by left|right; lia].
  - eapply (mx_inv_move s _ i (CWait e t) (LXchg (Cond 0))); try done. left. cbn. lia.
Qed.
Lemma signal_wake_inv s i h : inv s -> threads s !! i = Some (SWake h) -> inv (set_pc i (back h) (wake_cond s)).
Proof.
  intros HI Hi. destruct (wake_cond_inv s HI) as (W1 & W2 & W3). specialize (W3 i _ Hi eq_refl). eapply (mx_inv_move (wake_cond s) _ i (SWake h) (back h)); try done; try (by destruct h). by left; destruct h.
Qed.
Lemma mx_requeue_inv s i h : inv s -> threads s !! i = Some (BRequeue h) -> inv (butex_requeue s i h).
Proof.
  intros HI Hi. unfold butex_requeue. destruct (cq s) as [|w l] eqn:Ec.
  - eapply (mx_inv_move s _ i (BRequeue h) (back h)); try done; try (by destruct h). by left; destruct h.
  - eapply (inv_upd s _ i (BRequeue h) (BWake h w)); try done; [apply HI| | |].
    + intros v. cbn [mq cq set_pc set_mq set_cq in_hand asleep]. rewrite Ec, cocc_app, cocc_cons. destruct (v =? i)%nat; cbn; lia.
    + cbn. by intros v ?%not_elem_of_nil.
    + intros _ _. right. cbn. lia.
Qed.
Lemma broadcast_wake_inv s i h w : inv s -> threads s !! i = Some (BWake h w) -> inv (set_pc i (back h) (resume w s)).
Proof.
  intros HI Hi. pose proof (sum_lookup (in_hand w) _ _ _ Hi) as Hs. cbn [in_hand] in Hs. rewrite Nat.eqb_refl in Hs. cbn [b2n] in Hs. pose proof (i_place _ HI w) as Hp.
  destruct (asleep_pc s w ltac:(lia)) as (p & Hw & Ha). unfold asleep_at in Hp. rewrite Hw, Ha in Hp. assert (w <> i) as Hne by (intros ->; rewrite Hi in Hw; by injection Hw as <-).
  unfold resume. rewrite Hw.
  assert (exists q, (match p with LSleep m => set_pc w (LWoken m) s | CSleep timed => set_pc w (CWoken timed) s | _ => s end) = set_pc w q s /\ waking q = 1%nat /\ holds q = 0%nat /\ asleep q = 0%nat /\ forall v, in_hand v q = 0%nat) as (q & -> & Q1 & Q2 & Q3 & Q4) by (destruct p; try done; by eexists).
  destruct HI as [H1 H2 H3 H4 H5]. assert (threads (set_pc i (back h) (set_pc w q s)) = <[i := back h]> (<[w := q]> (threads s))) as ET by done.
  assert (<[w := q]> (threads s) !! i = Some (BWake h w)) as Hi' by (by rewrite list_lookup_insert_ne).
  assert (holds p = 0%nat /\ waking p = 0%nat /\ (forall v, in_hand v p = 0%nat)) as (P1 & P2 & P3) by (by destruct p).
  assert (forall f, (sum_list_with f (<[i := back h]> (<[w := q]> (threads s))) + f (BWake h w) + f p = sum_list_with f (threads s) + f (back h) + f q)%nat) as Hsum.
  { intros f. pose proof (sum_insert f _ i _ (back h) Hi'). pose proof (sum_insert f _ w _ q Hw). lia. }
  split; rewrite ?ET; cbn [word mq cq set_pc]; try done.
  - pose proof (Hsum holds) as E. rewrite P1, Q2 in E. rewrite <- H2. destruct h; cbn [holds back] in E; cbn [back]; lia.
  - intros v. pose proof (Hsum (in_hand v)) as E. rewrite P3, Q4 in E. specialize (H3 v). unfold asleep_at in *. rewrite ET. assert (in_hand v (back h) = 0%nat) as Eb by (by destruct h). rewrite Eb in E. cbn [in_hand] in E.
    destruct (decide (v = i)) as [->|Hvi]; [rewrite list_lookup_insert_eq by (rewrite length_insert; by eapply lookup_lt_Some); rewrite Hi in H3; destruct (Nat.eqb_spec w i); [done|]; cbn in *; assert (asleep (back h) = 0%nat) as -> by (by destruct h); lia|].
    rewrite list_lookup_insert_ne by done. destruct (decide (v = w)) as [->|Hvw].
    + rewrite list_lookup_insert_eq by (by eapply lookup_lt_Some). rewrite Hw, Ha in H3. rewrite Nat.eqb_refl in E. cbn [b2n] in E. rewrite Q3. lia.
    + rewrite list_lookup_insert_ne by done. destruct (Nat.eqb_spec w v); [done|]. cbn [b2n] in E. lia.
  - intros v Hv. destruct (H4 v Hv) as [timed E]. exists timed. assert (v <> w) by (intros ->; apply elem_cocc in Hv; lia). rewrite list_lookup_insert_ne; [by rewrite list_lookup_insert_ne|]. intros ->. congruence.
  - intros _ _. right. pose proof (Hsum waking) as E. rewrite P2, Q1 in E. pose proof (sum_lookup waking _ _ _ Hi) as Hw'. cbn [waking] in *. lia.
Qed.

Lemma mutex_call_inv s c s' : inv s -> (P -> prompt s c) -> do_call s c = Some s' -> inv s'.
Proof.
  intros HI Hc. destruct c as [i t|i|i|i t|i|i|i lifo|i|i|i]; cbn [do_call]; destruct (threads s !! i) as [p|] eqn:Hi; try done; cbn [mbind option_bind].
  - destruct p; try done. intros [= <-]. apply mx_trylock_inv; eauto.
  - destruct p; try done. intros [= <-]. apply mx_trylock_inv; eauto.
  - destruct p; try done. intros [= <-]. eapply mx_unlock_inv; eauto.
  - destruct p; try done. intros [= <-]. eapply (mx_inv_move s _ i Hold (CUnlock (seq s) t)); try done. by left.
  - destruct p; try done; intros [= <-]; (eapply (mx_inv_move s _ i); [done|done|reflexivity|done..|]; by left).
  - destruct p; try done; intros [= <-]; unfold bthread_cond_broadcast; (destruct (bound s); [|done]); (eapply (mx_inv_move s _ i); [done|done|reflexivity|done..|]; by left).
  - destruct p; cbn [go]; try done; intros [= <-].
    + by apply exchange_inv.
    + by apply lock_wait_inv.
    + eapply (mx_inv_move s _ i (LWoken m)); try done. left. cbn. lia.
    + by apply unlock_wake_inv.
    + eapply mx_unlock_inv; eauto.
    + by apply cond_wait_inv.
    + eapply (mx_inv_move s _ i (CWoken timed)); try done. left. cbn. lia.
    + by apply signal_wake_inv.
    + by apply mx_requeue_inv.
    + by apply broadcast_wake_inv.
  - destruct p as [| | | |[[]|]| | | | |[]| | | |]; try done; eapply leave_inv; eauto.
  - destruct p; try done; eapply leave_inv; eauto.
  - destruct p as [| | | | |[[]|]| | | | |[]| | |]; try done; intros [= <-]; (eapply (mx_inv_move s _ i); [done|done|reflexivity|done..|]); [|left; cbn; lia]. right. right. right. intros HP. by apply (Hc HP (Plain true)).
Qed.
Lemma sum_zero {A} (f : A -> nat) n x : f x = 0%nat -> sum_list_with f (replicate n x) = 0%nat.
Proof. intros H. induction n; cbn; lia. Qed.
Lemma mutex_init_inv n : inv (init n).
Proof.
  split; cbn [init word mq cq threads]; try done; [by left|by rewrite sum_zero| |by intros v ?%not_elem_of_nil].
  intros v. rewrite sum_zero by done. unfold asleep_at. cbn. destruct (replicate n Idle !! v) as [p|] eqn:E; [|done]. by apply lookup_replicate in E as [-> _].
Qed.
End Inv.
(** Reached by prompt steps. *)
Definition prompt_reachable (n : nat) : S -> Prop := steps prompt_step (init n).
Lemma mutex_inv n s : reachable n s -> inv False s.
Proof. apply steps_invariant; [intros a b Ha [c Hc]; by eapply mutex_call_inv|apply mutex_init_inv]. Qed.
Lemma mutex_prompt_inv n s : prompt_reachable n s -> inv True s.
Proof. apply steps_invariant; [intros a b Ha (c & Hc & E); by eapply mutex_call_inv|apply mutex_init_inv]. Qed.
Lemma sum_one_lookup {A} (f : A -> nat) (l : list A) i j x y : l !! i = Some x -> l !! j = Some y -> f x = 1%nat -> f y = 1%nat -> (sum_list_with f l <= 1)%nat -> i = j.
Proof. intros Hi Hj Ex Ey Hs. destruct (decide (i = j)) as [|Hne]; [done|]. pose proof (sum_two f l i j x y Hi Hj Hne). lia. Qed.

(** C19: The mutex is held by at most one thread, also across the wait on the
    condition variable, and its word tells whether it is held. *)
Theorem mutex_exclusion n s i j p q : reachable n s -> threads s !! i = Some p -> threads s !! j = Some q -> holds p = 1%nat -> holds q = 1%nat -> i = j /\ word s <> 0.
Proof.
  intros HI%mutex_inv Hi Hj Hp Hq. pose proof (i_hold _ _ HI) as Hs. pose proof (sum_lookup holds _ _ _ Hi) as Hl. destruct (Z.eqb_spec (word s) 0); [lia|]. split; [|done]. eapply sum_one_lookup; try done. lia.
Qed.
(** All threads are idle, hold the mutex or sleep. *)
Definition quiet (s : S) : Prop := forall i p, threads s !! i = Some p -> p = Idle \/ p = Hold \/ (exists m, p = LSleep m) \/ (exists t, p = CSleep t).
Definition woken (p : PC) : Prop := match p with LWoken _ | CWoken _ => True | _ => False end.
Lemma wake_mutex_head s w l q : mq s = w :: l -> threads s !! w = Some q -> asleep q = 1%nat -> mq (wake_mutex s) = l /\ exists p, woken p /\ threads (wake_mutex s) = <[w := p]> (threads s).
Proof. intros Em Hw Ha. unfold wake_mutex. rewrite Em. unfold resume. cbn [set_mq threads]. rewrite Hw. destruct q; try done; split; try done; cbn; eexists; (split; [|reflexivity]); done. Qed.
(** C20: As long as no lock reports ETIMEDOUT after it has been woken
    ([late_lock_loses_wakeup] shows what happens then), no wake-up is lost: while threads sleep on
    the mutex (also those that a broadcast has put there) and nobody is at work, a
    thread holds it, and its unlock wakes the first of them. *)
Theorem mutex_no_lost_wakeup n s w l : prompt_reachable n s -> quiet s -> mq s = w :: l ->
  exists i s', threads s !! i = Some Hold /\ run [Unlock i; Go i false] s = Some s' /\ mq s' = l /\ exists p, threads s' !! w = Some p /\ woken p.
Proof.
  intros HI%mutex_prompt_inv Hq Em. assert (sum_list_with waking (threads s) = 0%nat) as Hw0.
  { destruct (sum_list_with waking (threads s)) eqn:E; [done|]. destruct (sum_pos waking (threads s)) as (j & p & Hj & Hp); [lia|]. destruct (Hq j p Hj) as [->|[->|[[m ->]|[t ->]]]]; cbn in Hp; lia. }
  destruct (i_lost _ _ HI I) as [Ew|]; [by rewrite Em| |lia]. destruct (sum_pos holds (threads s)) as (i & p & Hi & Hp); [rewrite (i_hold _ _ HI), Ew; cbn; lia|].
  assert (p = Hold) as -> by (destruct (Hq i p Hi) as [->|[->|[[m ->]|[t ->]]]]; cbn in Hp; try lia; done). pose proof (i_place _ _ HI w) as Hpl. rewrite Em, cocc_cons, Nat.eqb_refl in Hpl. cbn [b2n] in Hpl. destruct (asleep_pc s w ltac:(lia)) as (q & Hwq & Ha).
  assert (w <> i) as Hne by (intros ->; rewrite Hi in Hwq; by injection Hwq as <-). set (s1 := set_pc i (UWake None) (set_word 0 s)).
  destruct (wake_mutex_head s1 w l q) as [W1 (p & Wp & W2)]; [done|cbn; by rewrite list_lookup_insert_ne|done|]. exists i, (unlock_wake s1 i None). split_and!; [done| | |].
  - cbn [run do_call]. rewrite Hi. cbn [mbind option_bind]. unfold bthread_mutex_unlock. rewrite Ew. cbn [MUTEX_CONTENDED MUTEX_LOCKED Z.eqb Pos.eqb set_pc set_word threads]. rewrite list_lookup_insert_eq by (by eapply lookup_lt_Some). cbn [mbind option_bind go]. reflexivity.
  - done.
  - exists p. split; [|done]. cbn [unlock_wake set_pc threads]. rewrite list_lookup_insert_ne, W2 by done. apply list_lookup_insert_eq. cbn. rewrite length_insert. by eapply lookup_lt_Some.
Qed.
(** A broadcast takes all waiters: the first is woken, the others wait for the mutex in their order. *)
Lemma cond_broadcast_all n s i p w l : reachable n s -> threads s !! i = Some p -> p = Idle \/ p = Hold -> bound s = true -> cq s = w :: l ->
  exists s', run [Broadcast i; Go i false; Go i false] s = Some s' /\ cq s' = [] /\ mq s' = mq s ++ l /\ exists t, threads s' !! w = Some (CWoken t).
Proof.
  intros HI%mutex_inv Hi Hp Hb Ec. destruct (i_cq _ _ HI w) as [t Hw]; [rewrite Ec; left|]. assert (w <> i) as Hne by (intros ->; destruct Hp; congruence). assert (i < length (threads s))%nat as Hlen by (by eapply lookup_lt_Some). assert (w < length (threads s))%nat as Hlw by (by eapply lookup_lt_Some).
  set (h := match p with Hold => true | _ => false end). set (s1 := set_pc i (BRequeue h) (set_seq (u32 (seq s + 1)) s)). set (s2 := set_pc i (BWake h w) (set_mq (mq s ++ l) (set_cq [] s1))).
  exists (set_pc i (back h) (set_pc w (CWoken t) s2)). split_and!; [|done|done|exists t; cbn; rewrite list_lookup_insert_ne by done; apply list_lookup_insert_eq; by rewrite !length_insert].
  assert (do_call s (Broadcast i) = Some s1) as E1 by (unfold do_call, bthread_cond_broadcast, s1, h; rewrite Hi, Hb; by destruct Hp as [-> | ->]).
  assert (threads s1 !! i = Some (BRequeue h)) as F1 by (cbn; by apply list_lookup_insert_eq). assert (do_call s1 (Go i false) = Some s2) as E2 by (cbn [do_call]; rewrite F1; cbn [mbind option_bind go]; unfold butex_requeue; change (cq s1) with (cq s); by rewrite Ec).
  assert (threads s2 !! i = Some (BWake h w)) as F2 by (cbn; apply list_lookup_insert_eq; by rewrite length_insert). assert (threads s2 !! w = Some (CSleep t)) as F3 by (cbn; by rewrite !list_lookup_insert_ne).
  assert (do_call s2 (Go i false) = Some (set_pc i (back h) (set_pc w (CWoken t) s2))) as E3 by (cbn [do_call]; rewrite F2; cbn [mbind option_bind go]; unfold resume; by rewrite F3).
  cbn [run]. rewrite E1. cbn [mbind option_bind]. rewrite E2. cbn [mbind option_bind]. by rewrite E3.
Qed.
Definition promptb (s : S) (c : call) : bool := match c with Late i => match threads s !! i with Some (LWoken _) => false | _ => true end | _ => true end.
Fixpoint run_prompt (l : list call) (s : S) : option S := match l with [] => Some s | c :: l' => if promptb s c then s' ← do_call s c; run_prompt l' s' else None end.
Lemma run_prompt_steps l s s' : run_prompt l s = Some s' -> steps prompt_step s s' /\ steps step s s'.
Proof.
  revert s. induction l as [|c l IH]; cbn [run_prompt]; intros s; [intros [= <-]; split; constructor|]. destruct (promptb s c) eqn:Ep; [|done]. destruct (do_call s c) as [s1|] eqn:E; [|done]. cbn [mbind option_bind]. intros [H1 H2]%IH.
  split; (eapply steps_app; [|done]); (eapply steps_trans; [apply steps_refl|]); exists c; [|done]. split; [|done]. unfold promptb, prompt in *. destruct c; try done. destruct (threads s !! i) as [[]|]; naive_solver.
Qed.
(** One thread holds the mutex, two wait on the condition variable, one for the mutex; then a broadcast. *)
Definition contended_run : list call :=
  [Lock 1 false; Wait 1 false; Go 1 false; Go 1 false; Lock 2 false; Wait 2 true; Go 2 false; Go 2 false; Lock 0 false; Lock 3 true; Go 3 false; Go 3 false; Broadcast 0; Go 0 false; Go 0 false; Go 1 false; Go 1 false; Go 1 false].
Definition contended_state : S := default (init 4) (run contended_run (init 4)).
Lemma contended_prompt : prompt_reachable 4 contended_state /\ reachable 4 contended_state.
Proof. apply (run_prompt_steps contended_run). vm_compute. reflexivity. Qed.
Lemma mutex_exclusion_witness : threads contended_state !! 0%nat = Some Hold /\ word contended_state <> 0.
Proof. split; [vm_compute; reflexivity|]. apply (mutex_exclusion 4 contended_state 0 0 Hold Hold (proj2 contended_prompt)); vm_compute; reflexivity. Defined.
Lemma mutex_no_lost_wakeup_witness : mq contended_state = [3; 2; 1]%nat /\
  exists i s', threads contended_state !! i = Some Hold /\ run [Unlock i; Go i false] contended_state = Some s' /\ mq s' = [2; 1]%nat /\ exists p, threads s' !! 3%nat = Some p /\ woken p.
Proof.
  split; [vm_compute; reflexivity|]. apply (mutex_no_lost_wakeup 4 contended_state 3 [2; 1]%nat (proj1 contended_prompt)); [|vm_compute; reflexivity].
  intros i p Hi. vm_compute in Hi. destruct i as [|[|[|[|?]]]]; injection Hi as <- || done; eauto 6.
Defined.
(** A pthread in a timed lock is woken by the unlock while its time is up, and reports
    ETIMEDOUT: the mutex is free and nobody is at work, but another thread
    goes on sleeping on it. *)
Definition late_run : list call :=
  [Lock 0 false; Lock 1 true; Go 1 false; Go 1 false; Lock 2 false; Go 2 false; Go 2 false; Unlock 0; Go 0 false; Late 1].
Lemma late_lock_loses_wakeup : match run late_run (init 3) with Some s => word s = 0 /\ mq s = [2%nat] /\ threads s = [Idle; Idle; LSleep (Plain false)] | None => False end.
Proof. vm_compute. done. Qed.
End Mx.
