(* ===== verification/Sync.v ===== *)
(** * Semaphores, read-write locks and one-time initialization (src/src-bthread/semaphore.cpp, rwlock.cpp, bthread_once.cpp)

    Any number of threads; a step is one access to a shared word or one butex
    call.  As in [Mutex], a butex is its word and the queue of its waiters.  The
    read-write lock uses its mutex and its two semaphores through what [Mutex] and
    the first part of this file prove of them: an owner and two counters. *)
From S2P Require Import Prelude Mutex.

(** ** Semaphores *)

Module Sem.

Definition EAGAIN : Z := 11.
Inductive PC :=
| Idle
| TLoad                         (* bthread_sem_trywait *)
| TCas (num : Z)
| WLoad (timed : bool)          (* bthread_sem_wait_impl *)
| WCas (timed : bool) (num : Z)
| WWait (timed : bool)
| WSleep (timed : bool)
| PWake (n : Z).                (* butex_wake_n in bthread_sem_post *)
(** [acquired] and [posted] count what the callers got and gave. *)
Record S := mkS { value : Z; q : list nat; threads : list PC; acquired : Z; posted : Z }.
Definition set_pc (i : nat) (p : PC) (s : S) : S := mkS (value s) (q s) (<[i := p]> (threads s)) (acquired s) (posted s).
Definition set_q (l : list nat) (s : S) : S := mkS (value s) l (threads s) (acquired s) (posted s).
Definition take_one (s : S) : S := mkS (value s - 1) (q s) (threads s) (acquired s + 1) (posted s).
Definition resume (s : S) (w : nat) : S := match threads s !! w with Some (WSleep t) => set_pc w (WLoad t) s | _ => s end.
(** [butex_wake_n]: the first [n] waiters, all of them for 0. *)
Definition butex_wake_n (n : Z) (s : S) : S :=
  let k := if n =? 0 then length (q s) else Z.to_nat n in foldl resume (set_q (drop k (q s)) s) (take k (q s)).

(** The compare-and-exchange is weak: it may fail without a reason ([ok]). *)
Definition cas (s : S) (num : Z) (ok : bool) : bool := (value s =? num) && ok.
Definition trywait_load (s : S) (i : nat) : S := set_pc i (if value s =? 0 then Idle else TCas (value s)) s.
Definition trywait_cas (s : S) (i : nat) (num : Z) (ok : bool) : S := if cas s num ok then set_pc i Idle (take_one s) else set_pc i TLoad s.
Definition wait_load (s : S) (i : nat) (t : bool) : S := set_pc i (if 0 <? value s then WCas t (value s) else WWait t) s.
Definition wait_cas (s : S) (i : nat) (t : bool) (num : Z) (ok : bool) : S := if cas s num ok then set_pc i Idle (take_one s) else set_pc i (WWait t) s.
Definition wait_butex (s : S) (i : nat) (t lifo : bool) : S :=
  if value s =? 0 then set_pc i (WSleep t) (set_q (if lifo then i :: q s else q s ++ [i]) s) else set_pc i (WLoad t) s.
Definition bthread_sem_post (s : S) (i : nat) (num : Z) : S :=
  if 0 <? num then set_pc i (PWake (value s)) (mkS (u32 (value s + num)) (q s) (threads s) (acquired s) (posted s + num)) else s.
Definition leave (s : S) (i : nat) (p : PC) : option S :=
  if existsb (Nat.eqb i) (q s) then Some (set_pc i p (set_q (remove_k i (q s)) s)) else None.

Inductive call := Wait (i : nat) (timed : bool) | TryWait (i : nat) | Post (i : nat) (num : Z) | Go (i : nat) (b : bool) | Timeout (i : nat) | Interrupt (i : nat).
Definition do_call (s : S) (c : call) : option S :=
  match c with
  | Wait i t => match threads s !! i with Some Idle => Some (set_pc i (WLoad t) s) | _ => None end
  | TryWait i => match threads s !! i with Some Idle => Some (set_pc i TLoad s) | _ => None end
  | Post i num => match threads s !! i with Some Idle => Some (bthread_sem_post s i num) | _ => None end
  | Go i b =>
      match threads s !! i with
      | Some TLoad => Some (trywait_load s i)
      | Some (TCas num) => Some (trywait_cas s i num b)
      | Some (WLoad t) => Some (wait_load s i t)
      | Some (WCas t num) => Some (wait_cas s i t num b)
      | Some (WWait t) => Some (wait_butex s i t b)
      | Some (PWake n) => Some (set_pc i Idle (butex_wake_n n s))
      | _ => None
      end
  | Timeout i => match threads s !! i with Some (WSleep true) => leave s i Idle | _ => None end
  | Interrupt i => match threads s !! i with Some (WSleep t) => leave s i (WLoad t) | _ => None end
  end.
(** The count stays below 2^32. *)
Definition within (s : S) : Prop := value s < 2 ^ 32.
Definition no_overflow (s : S) (c : call) : Prop := match c with Post _ num => num <= 2 ^ 32 - 1 - value s | _ => True end.
Definition step (s s' : S) : Prop := exists c, do_call s c = Some s' /\ no_overflow s c.
Definition init (n : nat) (v : Z) : S := mkS v [] (replicate n Idle) 0 0.
Definition reachable (n : nat) (v : Z) : S -> Prop := steps step (init n v).
Fixpoint run (l : list call) (s : S) : option S := match l with [] => Some s | c :: l' => s' ← do_call s c; run l' s' end.

Definition asleep (p : PC) : nat := match p with WSleep _ => 1 | _ => 0 end.
Definition asleep_at (s : S) (v : nat) : nat := match threads s !! v with Some p => asleep p | None => 0 end.
(** The thread that makes the count positive wakes everyone. *)
Definition waking (p : PC) : nat := match p with PWake n => if n =? 0 then 1 else 0 | _ => 0 end.
Definition cas_ok (p : PC) : Prop := match p with TCas num | WCas _ num => 0 < num | PWake n => 0 <= n | _ => True end.
Record inv (v : Z) (s : S) : Prop := {
  i_value : 0 <= value s < 2 ^ 32;
  i_count : value s + acquired s = v + posted s;
  i_cas : forall i p, threads s !! i = Some p -> cas_ok p;
  i_place : forall i, cocc (q s) i = asleep_at s i;
  i_lost : q s <> [] -> value s = 0 \/ (0 < sum_list_with waking (threads s))%nat }.

Lemma sem_upd v s s' i p p' : inv v s -> threads s !! i = Some p -> threads s' = <[i := p']> (threads s) -> 0 <= value s' < 2 ^ 32 -> value s' + acquired s' = v + posted s' -> cas_ok p' ->
  (forall j, cocc (q s') j + (if (j =? i)%nat then asleep p else 0) = cocc (q s) j + (if (j =? i)%nat then asleep p' else 0))%nat ->
  (q s' <> [] -> value s' = 0 \/ (waking p < sum_list_with waking (threads s) + waking p')%nat) -> inv v s'.
Proof.
  intros [H1 H2 H3 H4 H5] Hi ET Hv Hc Hk Hp Hl. pose proof (lookup_lt_Some _ _ _ Hi) as Hlt. split; rewrite ?ET; try done.
  - intros j r [(<- & <- & _)|[_ Hj]]%list_lookup_insert_Some; [done|by eapply H3].
  - intros j. specialize (Hp j). specialize (H4 j). unfold asleep_at in *. rewrite ET. destruct (Nat.eqb_spec j i) as [->|Hne].
    + rewrite list_lookup_insert_eq by done. rewrite Hi in H4. lia.
    + rewrite list_lookup_insert_ne by done. lia.
  - intros Hm. destruct (Hl Hm) as [|Hx]; [by left|]. right. pose proof (sum_insert waking (threads s) i p p' Hi). lia.
Qed.
(** The count and the queue stay. *)
Lemma sem_move v s i p p' : inv v s -> threads s !! i = Some p -> cas_ok p' -> asleep p = 0%nat -> asleep p' = 0%nat -> (waking p <= waking p')%nat -> inv v (set_pc i p' s).
Proof.
  intros HI Hi Hk Ha Ha' Hw. eapply (sem_upd v s _ i p p'); try done; try apply HI; [intros j; rewrite Ha, Ha'; done|]. cbn. intros Hm. destruct (i_lost _ _ HI Hm); [by left|right; lia].
Qed.
Lemma sem_take v s i p : inv v s -> threads s !! i = Some p -> 0 < value s -> asleep p = 0%nat -> waking p = 0%nat -> inv v (set_pc i Idle (take_one s)).
Proof.
  intros HI Hi Hv Ha Hw. pose proof (i_value _ _ HI). pose proof (i_count _ _ HI). eapply (sem_upd v s _ i p Idle); try done; cbn; try lia; [intros j; rewrite Ha; done|]. intros Hm. destruct (i_lost _ _ HI Hm); [lia|right; lia].
Qed.
(** Waiters are woken one by one. *)
Lemma wake_fold v l : forall s, 0 <= value s < 2 ^ 32 -> value s + acquired s = v + posted s -> (forall i p, threads s !! i = Some p -> cas_ok p) -> (forall i, cocc (q s) i + cocc l i = asleep_at s i)%nat ->
  let s' := foldl resume s l in value s' = value s /\ acquired s' = acquired s /\ posted s' = posted s /\ q s' = q s /\ (forall i p, threads s' !! i = Some p -> cas_ok p) /\ (forall i, cocc (q s') i = asleep_at s' i) /\
  sum_list_with waking (threads s') = sum_list_with waking (threads s) /\ (forall i p, threads s !! i = Some p -> asleep p = 0%nat -> threads s' !! i = Some p).
Proof.
  induction l as [|w l IH]; intros s Hv Hc Hk Hp; cbn [foldl].
  - split_and!; try done. intros i. rewrite <- Hp. cbn. lia.
  - pose proof (Hp w) as Hw. rewrite cocc_cons, Nat.eqb_refl in Hw. cbn [b2n] in Hw. unfold asleep_at in Hw. destruct (threads s !! w) as [p|] eqn:Ew; [|lia]. destruct p; cbn in Hw; try lia. set (s1 := resume s w).
    assert (s1 = set_pc w (WLoad timed) s) as E1 by (unfold s1, resume; by rewrite Ew). pose proof (lookup_lt_Some _ _ _ Ew) as Hlt.
    destruct (IH s1) as (I1 & I2 & I3 & I4 & I5 & I6 & I7 & I8); rewrite ?E1; cbn [set_pc value acquired posted q threads]; try done.
    + intros i r [(<- & <- & _)|[_ Hj]]%list_lookup_insert_Some; [done|by eapply Hk].
    + intros i. specialize (Hp i). rewrite cocc_cons in Hp. unfold asleep_at in *. cbn [set_pc threads]. destruct (decide (i = w)) as [->|Hne].
      * rewrite list_lookup_insert_eq by done. rewrite Ew, Nat.eqb_refl in Hp. cbn [b2n asleep] in *. lia.
      * rewrite list_lookup_insert_ne by done. destruct (Nat.eqb_spec w i); [done|]. cbn [b2n] in Hp. lia.
    + rewrite E1 in *. split_and!; try done.
      * rewrite I7. cbn. pose proof (sum_insert waking (threads s) w (WSleep timed) (WLoad timed) Ew) as E. cbn [waking] in E. lia.
      * intros i r Hi Hr. apply I8; [|done]. cbn. rewrite list_lookup_insert_ne; [done|]. intros ->. rewrite Ew in Hi. by injection Hi as <-.
Qed.
Lemma wake_n_sem v s n i : inv v s -> threads s !! i = Some (PWake n) -> inv v (set_pc i Idle (butex_wake_n n s)).
Proof.
  intros HI Hi. unfold butex_wake_n. set (k := if n =? 0 then length (q s) else Z.to_nat n). destruct (wake_fold v (take k (q s)) (set_q (drop k (q s)) s)) as (I1 & I2 & I3 & I4 & I5 & I6 & I7 & I8); try apply HI.
  { intros j. cbn [set_q q]. change (asleep_at (set_q (drop k (q s)) s) j) with (asleep_at s j). rewrite <- (i_place _ _ HI j). rewrite <- (take_drop k (q s)) at 3. rewrite cocc_app. lia. }
  set (s1 := foldl resume _ _) in *. specialize (I8 i _ Hi eq_refl). cbn [set_q value acquired posted q threads] in *.
  pose proof (i_value _ _ HI). pose proof (i_count _ _ HI). pose proof (lookup_lt_Some _ _ _ I8) as Hlt. split; cbn [set_pc value acquired posted q threads]; try lia.
  - intros j r [(<- & <- & _)|[_ Hj]]%list_lookup_insert_Some; [done|by eapply I5].
  - intros j. rewrite I6. unfold asleep_at. cbn [set_pc threads]. destruct (decide (j = i)) as [->|]; [by rewrite I8, list_lookup_insert_eq|by rewrite list_lookup_insert_ne].
  - rewrite I4, I1. intros Hm. pose proof (sum_insert waking (threads s1) i (PWake n) Idle I8) as E. cbn [waking] in E. destruct (n =? 0) eqn:En; [unfold k in Hm; by rewrite drop_all in Hm|].
    destruct (i_lost _ _ HI) as [|]; [intros Eq; rewrite Eq in Hm; by rewrite drop_nil in Hm|by left|right; lia].
Qed.
Lemma sem_leave v s i t p' s' : inv v s -> threads s !! i = Some (WSleep t) -> asleep p' = 0%nat -> cas_ok p' -> leave s i p' = Some s' -> inv v s'.
Proof.
  intros HI Hi Hp' Hk'. unfold leave. destruct (existsb (Nat.eqb i) (q s)); [|done]. intros [= <-]. eapply (sem_upd v s _ i (WSleep t) p'); try done; try apply HI.
  - intros j. cbn [set_pc set_q q]. rewrite cocc_remove, Hp'. pose proof (i_place _ _ HI j) as Hpl. unfold asleep_at in Hpl. destruct (Nat.eqb_spec j i) as [->|]; [rewrite decide_True by done; rewrite Hi in Hpl; cbn [asleep] in *; lia|rewrite decide_False by done; lia].
  - cbn. intros Hm. destruct (i_lost _ _ HI) as [|]; [intros Eq; by rewrite Eq in Hm|by left|right; lia].
Qed.
Lemma sem_call_inv v s c s' : inv v s -> no_overflow s c -> do_call s c = Some s' -> inv v s'.
Proof.
  intros HI Hov. pose proof (i_value _ _ HI) as Hv. pose proof (i_count _ _ HI) as Hc. destruct c as [i t|i|i num|i b|i|i]; cbn [do_call]; destruct (threads s !! i) as [p|] eqn:Hi; try done; pose proof (i_cas _ _ HI i p Hi) as Hk.
  - destruct p; try done. intros [= <-]. by eapply sem_move.
  - destruct p; try done. intros [= <-]. by eapply sem_move.
  - destruct p; try done. intros [= <-]. unfold bthread_sem_post. destruct (Z.ltb_spec 0 num); [|done]. cbn [no_overflow] in Hov. assert (u32 (value s + num) = value s + num) as Eu by (apply u32_small; unfold is_u32; lia).
    eapply (sem_upd v s _ i Idle (PWake (value s))); cbn [set_pc value acquired posted q threads cas_ok]; rewrite ?Eu; try done; try lia. intros Hm. right. cbn [waking]. destruct (Z.eqb_spec (value s) 0); [lia|]. destruct (i_lost _ _ HI Hm); lia.
  - destruct p; try done; intros [= <-].
    + unfold trywait_load. eapply sem_move; try done; destruct (Z.eqb_spec (value s) 0); cbn; try done; lia.
    + unfold trywait_cas, cas. destruct (Z.eqb_spec (value s) num); [destruct b|]; cbn [andb]; [eapply sem_take; try done; cbn in Hk; lia|by eapply sem_move..].
    + unfold wait_load. eapply sem_move; try done; destruct (Z.ltb_spec 0 (value s)); cbn; try done; lia.
    + unfold wait_cas, cas. destruct (Z.eqb_spec (value s) num); [destruct b|]; cbn [andb]; [eapply sem_take; try done; cbn in Hk; lia|by eapply sem_move..].
    + unfold wait_butex. destruct (Z.eqb_spec (value s) 0) as [E|E]; [|by eapply sem_move]. eapply (sem_upd v s _ i (WWait timed) (WSleep timed)); try done; [|by left].
      intros j. cbn [set_pc set_q q asleep]. assert (cocc (if b then i :: q s else q s ++ [i]) j = (cocc (q s) j + b2n (i =? j))%nat) as -> by (destruct b; [rewrite cocc_cons; lia|rewrite cocc_app, cocc_cons; cbn; lia]).
      rewrite (Nat.eqb_sym j i). destruct (i =? j)%nat; cbn [b2n]; lia.
    + by apply wake_n_sem.
  - destruct p as [| | | | | |[]|]; try done. by apply (sem_leave v s i true Idle).
  - destruct p; try done. by apply (sem_leave v s i timed (WLoad timed)).
Qed.
Lemma sem_inv n v s : 0 <= v < 2 ^ 32 -> reachable n v s -> inv v s.
Proof.
  intros Hv. apply steps_invariant; [intros a b Ha (c & Hc & Ho); by eapply sem_call_inv|]. split; cbn [init value acquired posted q threads]; try done; try lia.
  - by intros i p [-> _]%lookup_replicate.
  - intros i. unfold asleep_at. cbn. destruct (replicate n Idle !! i) as [p|] eqn:E; [|done]. by apply lookup_replicate in E as [-> _].
Qed.
(** All threads are idle or asleep. *)
Definition quiet (s : S) : Prop := forall i p, threads s !! i = Some p -> p = Idle \/ exists t, p = WSleep t.
(** C21: A semaphore never gives more than was put in, and no wake-up is lost: the
    count is the initial one plus the posts minus the successful waits, and when
    nobody is at work a thread sleeps only if the count is 0. *)
Theorem sem_exact n v s : 0 <= v < 2 ^ 32 -> reachable n v s ->
  value s = v + posted s - acquired s /\ 0 <= value s /\ (quiet s -> forall i t, threads s !! i = Some (WSleep t) -> value s = 0).
Proof.
  intros Hv HI%sem_inv; [|done]. pose proof (i_value _ _ HI). pose proof (i_count _ _ HI). split_and!; [lia|lia|]. intros Hq i t Hi. pose proof (i_place _ _ HI i) as Hp. unfold asleep_at in Hp. rewrite Hi in Hp.
  destruct (i_lost _ _ HI) as [|Hw]; [intros E; by rewrite E in Hp|done|]. destruct (sum_pos waking (threads s) Hw) as (j & p & Hj & Hp'). destruct (Hq j p Hj) as [->|[t' ->]]; cbn in Hp'; lia.
Qed.
(** Two threads wait, one post of two lets both pass, a third one sleeps. *)
Definition sem_calls : list call :=
  [Wait 0 false; Go 0 true; Go 0 false; Wait 1 true; Go 1 true; Go 1 false; Post 2 2; Go 2 true; Go 0 true; Go 1 true; Go 1 true; Go 0 true; Go 0 false; Go 0 true; Go 0 true; Wait 2 false; Go 2 true; Go 2 false].
Definition sem_state : S := default (init 3 0) (run sem_calls (init 3 0)).
Fixpoint run_ok (l : list call) (s : S) : bool :=
  match l with [] => true | c :: l' => (match c with Post _ num => num <=? 2 ^ 32 - 1 - value s | _ => true end) && match do_call s c with Some s' => run_ok l' s' | None => false end end.
Lemma run_ok_steps l s s' : run_ok l s = true -> run l s = Some s' -> steps step s s'.
Proof.
  revert s. induction l as [|c l IH]; cbn [run run_ok]; intros s; [intros _ [= <-]; constructor|]. intros [H1 H2]%andb_true_iff. destruct (do_call s c) as [s1|] eqn:E; [|done]. cbn [mbind option_bind]. intros H%IH; [|done]. eapply steps_app; [|exact H].
  eapply steps_trans; [apply steps_refl|]. exists c. split; [done|]. destruct c; try done. cbn. lia.
Qed.
Lemma sem_exact_witness : acquired sem_state = 2 /\ posted sem_state = 2 /\ threads sem_state !! 2%nat = Some (WSleep false) /\ value sem_state = 0.
Proof.
  split; [vm_compute; reflexivity|]. split; [vm_compute; reflexivity|]. split; [vm_compute; reflexivity|].
  destruct (sem_exact 3 0 sem_state ltac:(lia)) as (_ & _ & H); [apply (run_ok_steps sem_calls); vm_compute; reflexivity|]. apply (H ltac:(intros i p Hi; vm_compute in Hi; destruct i as [|[|[|?]]]; injection Hi as <- || done; eauto) 2%nat false). vm_compute. reflexivity.
Defined.
End Sem.

(** ** One-time initialization *)

Module Once.

Definition UNINITIALIZED : Z := 0.
Definition INPROGRESS : Z := 1.
Definition INITIALIZED : Z := 2.
Inductive PC :=
| Idle | OFirst | OCas
| ORun                          (* before init_routine *)
| OStore | OWake
| OLoop | OWait (val : Z) | OSleep
| Done.
(** [ran] counts the calls of [init_routine]. *)
Record S := mkS { butex : Z; q : list nat; ran : Z; threads : list PC }.
Definition set_pc (i : nat) (p : PC) (s : S) : S := mkS (butex s) (q s) (ran s) (<[i := p]> (threads s)).
Definition resume (p : PC) : PC := match p with OSleep => OLoop | _ => p end.
Definition butex_wake_all (s : S) : S := mkS (butex s) [] (ran s) (imap (fun j p => if existsb (Nat.eqb j) (q s) then resume p else p) (threads s)).
(** The steps of [bthread_once_impl]. *)
Definition once_step (s : S) (i : nat) (p : PC) : option S :=
  match p with
  | OFirst => Some (set_pc i (if butex s =? INITIALIZED then Done else OCas) s)
  | OCas => Some (if butex s =? UNINITIALIZED then set_pc i ORun (mkS INPROGRESS (q s) (ran s) (threads s)) else set_pc i OLoop s)
  | ORun => Some (set_pc i OStore (mkS (butex s) (q s) (ran s + 1) (threads s)))
  | OStore => Some (set_pc i OWake (mkS INITIALIZED (q s) (ran s) (threads s)))
  | OWake => Some (set_pc i Done (butex_wake_all s))
  | OLoop => Some (set_pc i (if butex s =? INITIALIZED then Done else OWait (butex s)) s)
  | OWait val => Some (if butex s =? val then set_pc i OSleep (mkS (butex s) (q s ++ [i]) (ran s) (threads s)) else set_pc i OLoop s)
  | Idle | OSleep | Done => None
  end.
Inductive call := Start (i : nat) | Go (i : nat) | Interrupt (i : nat).
Definition do_call (s : S) (c : call) : option S :=
  match c with
  | Start i => match threads s !! i with Some Idle | Some Done => Some (set_pc i OFirst s) | _ => None end
  | Go i => p ← threads s !! i; once_step s i p
  | Interrupt i => match threads s !! i with Some OSleep => Some (set_pc i OLoop (mkS (butex s) (remove_k i (q s)) (ran s) (threads s))) | _ => None end
  end.
Definition step (s s' : S) : Prop := exists c, do_call s c = Some s'.
Definition init (n : nat) : S := mkS UNINITIALIZED [] 0 (replicate n Idle).
Definition reachable (n : nat) : S -> Prop := steps step (init n).
Fixpoint run (l : list call) (s : S) : option S := match l with [] => Some s | c :: l' => s' ← do_call s c; run l' s' end.

Definition before (p : PC) : nat := match p with ORun => 1 | _ => 0 end.
Definition after (p : PC) : nat := match p with OStore => 1 | _ => 0 end.
Definition waking (p : PC) : nat := match p with OWake => 1 | _ => 0 end.
Definition pc_ok (s : S) (p : PC) : Prop :=
  match p with Done | OWake => butex s = INITIALIZED | OLoop | OSleep => butex s <> UNINITIALIZED | OWait val => butex s <> UNINITIALIZED /\ val = INPROGRESS | _ => True end.
Definition cnt (f : PC -> nat) (s : S) : Z := Z.of_nat (sum_list_with f (threads s)).
Record inv (s : S) : Prop := {
  i_word : (butex s = UNINITIALIZED /\ ran s = 0 /\ cnt before s = 0 /\ cnt after s = 0) \/
           (butex s = INPROGRESS /\ cnt before s + cnt after s = 1 /\ ran s = cnt after s) \/
           (butex s = INITIALIZED /\ ran s = 1 /\ cnt before s = 0 /\ cnt after s = 0);
  i_pc : forall i p, threads s !! i = Some p -> pc_ok s p;
  i_q : forall i, i ∈ q s <-> threads s !! i = Some OSleep;
  i_lost : q s <> [] -> butex s = INPROGRESS \/ 0 < cnt waking s }.

Lemma cnt_insert f s i p p' : threads s !! i = Some p -> Z.of_nat (sum_list_with f (<[i := p']> (threads s))) = cnt f s - Z.of_nat (f p) + Z.of_nat (f p').
Proof. intros Hi. unfold cnt. pose proof (sum_insert f (threads s) i p p' Hi). lia. Qed.
Lemma once_upd s s' i p p' : inv s -> threads s !! i = Some p -> threads s' = <[i := p']> (threads s) -> (butex s <> UNINITIALIZED -> butex s' <> UNINITIALIZED) -> (butex s = INITIALIZED -> butex s' = INITIALIZED) ->
  ((butex s' = UNINITIALIZED /\ ran s' = 0 /\ cnt before s' = 0 /\ cnt after s' = 0) \/ (butex s' = INPROGRESS /\ cnt before s' + cnt after s' = 1 /\ ran s' = cnt after s') \/ (butex s' = INITIALIZED /\ ran s' = 1 /\ cnt before s' = 0 /\ cnt after s' = 0)) ->
  pc_ok s' p' -> (forall j, j ∈ q s' <-> (j ∈ q s /\ j <> i) \/ (j = i /\ p' = OSleep)) -> (q s' <> [] -> butex s' = INPROGRESS \/ 0 < cnt waking s') -> inv s'.
Proof.
  intros [H1 H2 H3 H4] Hi ET Hm1 Hm2 Hw Hp Hq Hl. split; try done.
  - intros j r. rewrite ET. intros [(<- & <- & _)|[_ Hj]]%list_lookup_insert_Some; [done|]. specialize (H2 j r Hj). destruct r; cbn in *; try done; auto. destruct H2. auto.
  - intros j. rewrite Hq, ET, H3. destruct (decide (j = i)) as [->|Hne]; [rewrite list_lookup_insert_eq by (by eapply lookup_lt_Some); naive_solver|rewrite list_lookup_insert_ne by done; naive_solver].
Qed.
(** The word and the queue stay. *)
Lemma once_move s i p p' : inv s -> threads s !! i = Some p -> pc_ok s p' -> p <> OSleep -> p' <> OSleep -> before p' = before p -> after p' = after p -> (waking p <= waking p')%nat -> inv (set_pc i p' s).
Proof.
  intros HI Hi Hp Hs Hs' Hb Ha Hw. pose proof (i_word _ HI) as H1. assert (cnt before (set_pc i p' s) = cnt before s /\ cnt after (set_pc i p' s) = cnt after s /\ cnt waking s <= cnt waking (set_pc i p' s)) as (E1 & E2 & E3).
  { unfold cnt at 1 3 6. cbn [set_pc threads]. rewrite !(cnt_insert _ s i p p' Hi). rewrite Hb, Ha. lia. }
  eapply (once_upd s _ i p p'); try done; rewrite ?E1, ?E2; try done.
  - intros j. cbn [set_pc q]. rewrite (i_q _ HI). split; [intros Hj; left; split; [done|]; intros ->; congruence|intros [[? _]|[_ ?]]; done].
  - cbn. intros Hm. destruct (i_lost _ HI Hm); [by left|right; lia].
Qed.
Lemma wake_all_lookup s i : inv s -> threads (butex_wake_all s) !! i = match threads s !! i with Some OSleep => Some OLoop | x => x end.
Proof.
  intros HI. cbn. rewrite list_lookup_imap. destruct (threads s !! i) as [p|] eqn:Hi; [|done]. cbn. destruct (existsb (Nat.eqb i) (q s)) eqn:Ex.
  - apply existsb_exists in Ex as (x & Hx & <-%Nat.eqb_eq). apply list_elem_of_In, (i_q _ HI) in Hx. rewrite Hi in Hx. injection Hx as ->. done.
  - destruct p; try done. exfalso. assert (i ∈ q s) as Hx by (by apply (i_q _ HI)). apply not_true_iff_false in Ex. apply Ex. apply existsb_exists. exists i. split; [by apply list_elem_of_In|apply Nat.eqb_refl].
Qed.
Lemma wake_all_cnt f s : f OSleep = f OLoop -> cnt f (butex_wake_all s) = cnt f s.
Proof.
  intros Hf. unfold cnt. f_equal. cbn [butex_wake_all threads]. generalize (q s) as l. intros l. assert (forall o, sum_list_with f (imap (fun j p => if existsb (Nat.eqb (o + j)) l then resume p else p) (threads s)) = sum_list_with f (threads s)) as H; [|apply (H 0%nat)].
  induction (threads s) as [|p ps IH]; intros o; [done|]. cbn [imap sum_list_with]. f_equal; [rewrite Nat.add_0_r; destruct (existsb _ l); [|done]; by destruct p|]. rewrite <- (IH (Datatypes.S o)). f_equal. apply imap_ext. intros j x _. cbn. by rewrite Nat.add_succ_r.
Qed.
Lemma wake_all_inv s i : inv s -> threads s !! i = Some OWake -> inv (set_pc i Done (butex_wake_all s)).
Proof.
  intros HI Hi. pose proof (i_pc _ HI i _ Hi) as Hw. cbn in Hw. set (s1 := butex_wake_all s). assert (threads s1 !! i = Some OWake) as Hi1 by (unfold s1; by rewrite wake_all_lookup, Hi).
  assert (cnt before (set_pc i Done s1) = cnt before s /\ cnt after (set_pc i Done s1) = cnt after s) as [E1 E2].
  { unfold cnt at 1 3. cbn [set_pc threads]. rewrite !(cnt_insert _ s1 i OWake Done Hi1). cbn [before after]. unfold s1. rewrite !wake_all_cnt by done. lia. }
  split; [rewrite E1, E2; apply HI| | |done].
  - intros j p. cbn [set_pc threads]. intros [(<- & <- & _)|[_ Hj]]%list_lookup_insert_Some; [done|]. unfold s1 in Hj. rewrite wake_all_lookup in Hj by done. destruct (threads s !! j) as [r|] eqn:Ej; [|done]. pose proof (i_pc _ HI j r Ej) as Hr. change (butex (set_pc i Done s1)) with (butex s).
    destruct r; injection Hj as <-; done.
  - intros j. cbn. split; [by intros ?%not_elem_of_nil|]. intros [(-> & ? & _)|[_ Hj]]%list_lookup_insert_Some; [done|]. change (threads s1 !! j = Some OSleep) in Hj. unfold s1 in Hj. rewrite wake_all_lookup in Hj by done. destruct (threads s !! j) as [[]|]; done.
Qed.
Lemma once_call_inv s c s' : inv s -> do_call s c = Some s' -> inv s'.
Proof.
  intros HI. pose proof (i_word _ HI) as H1. destruct c as [i|i|i]; cbn [do_call]; destruct (threads s !! i) as [p|] eqn:Hi; try done; cbn [mbind option_bind]; pose proof (i_pc _ HI i p Hi) as Hp.
  - destruct p; try done; intros [= <-]; by eapply once_move.
  - assert (forall p' s1, butex s1 = butex s -> threads s1 = threads s -> forall f, cnt f (set_pc i p' s1) = cnt f s - Z.of_nat (f p) + Z.of_nat (f p')) as Hc by (intros p' s1 _ E f; unfold cnt at 1; cbn [set_pc threads]; rewrite E; by apply cnt_insert).
    assert (p <> OSleep -> forall l j, l = q s -> j ∈ l <-> (j ∈ q s /\ j <> i)) as Hqs by (intros Hn l j ->; split; [|tauto]; intros Hj; split; [done|]; intros ->; apply (i_q _ HI) in Hj; congruence).
    pose proof (sum_lookup before _ _ _ Hi) as Lb. pose proof (sum_lookup after _ _ _ Hi) as La. unfold cnt in H1.
    destruct p; cbn [once_step]; try done; intros [= <-].
    + eapply once_move; try done; destruct (butex s =? INITIALIZED) eqn:E; cbn; try done; by apply Z.eqb_eq.
    + destruct (Z.eqb_spec (butex s) UNINITIALIZED) as [E|E]; [|by eapply once_move]. rewrite E in H1. unfold UNINITIALIZED, INPROGRESS, INITIALIZED in *.
      eapply (once_upd s _ i OCas ORun); try done; cbn [set_pc butex ran q].
      * rewrite E. done.
      * unfold cnt. cbn [set_pc threads]. rewrite !(cnt_insert _ s i OCas ORun Hi). unfold cnt, UNINITIALIZED, INPROGRESS, INITIALIZED. cbn. lia.
      * intros j. rewrite (Hqs ltac:(done) (q s) j eq_refl). naive_solver.
      * by left.
    + cbn in Lb. unfold UNINITIALIZED, INPROGRESS, INITIALIZED in *. eapply (once_upd s _ i ORun OStore); try done; cbn [set_pc butex ran q].
      * unfold cnt. cbn [set_pc threads]. rewrite !(cnt_insert _ s i ORun OStore Hi). unfold cnt, UNINITIALIZED, INPROGRESS, INITIALIZED. cbn. lia.
      * intros j. rewrite (Hqs ltac:(done) (q s) j eq_refl). naive_solver.
      * intros Hm. destruct (i_lost _ HI Hm) as [|Hx]; [by left|right]. unfold cnt. cbn [set_pc threads]. rewrite (cnt_insert _ s i ORun OStore Hi). cbn. lia.
    + cbn in La. unfold UNINITIALIZED, INPROGRESS, INITIALIZED in *. eapply (once_upd s _ i OStore OWake); try done; cbn [set_pc butex ran q].
      * unfold cnt. cbn [set_pc threads]. rewrite !(cnt_insert _ s i OStore OWake Hi). unfold cnt, UNINITIALIZED, INPROGRESS, INITIALIZED. cbn. lia.
      * intros j. rewrite (Hqs ltac:(done) (q s) j eq_refl). naive_solver.
      * intros Hm. right. unfold cnt. cbn [set_pc threads]. rewrite (cnt_insert _ s i OStore OWake Hi). cbn. unfold cnt. lia.
    + by apply wake_all_inv.
    + cbn in Hp. eapply once_move; try done; destruct (Z.eqb_spec (butex s) INITIALIZED) as [E|E]; cbn; try done. split; [done|]. unfold UNINITIALIZED, INPROGRESS, INITIALIZED in *. lia.
    + cbn in Hp. destruct Hp as [Hp ->]. destruct (Z.eqb_spec (butex s) INPROGRESS) as [E|E]; [|by eapply once_move]. eapply (once_upd s _ i (OWait INPROGRESS) OSleep); try done; cbn [set_pc butex ran q].
      * unfold cnt. cbn [set_pc threads]. rewrite !(cnt_insert _ s i (OWait INPROGRESS) OSleep Hi). unfold cnt. cbn. lia.
      * intros j. rewrite elem_of_app, (Hqs ltac:(done) (q s) j eq_refl), list_elem_of_singleton. naive_solver.
      * by left.
  - destruct p; try done. intros [= <-]. cbn in Hp. unfold cnt in H1. eapply (once_upd s _ i OSleep OLoop); try done; cbn [set_pc butex ran q].
    + unfold cnt. cbn [set_pc threads]. rewrite !(cnt_insert _ s i OSleep OLoop Hi). unfold cnt. cbn. lia.
    + intros j. unfold remove_k. rewrite list_elem_of_In, filter_In, <- list_elem_of_In. split; [intros [H2 H3]; left; split; [done|]; intros ->; by rewrite Nat.eqb_refl in H3|]. intros [[H2 H3]|[_ ?]]; [|done]. split; [done|]. by destruct (Nat.eqb_spec j i).
    + intros Hm. destruct (i_lost _ HI) as [|Hx]; [intros E; by rewrite E in Hm|by left|right]. unfold cnt. cbn [set_pc threads]. rewrite (cnt_insert _ s i OSleep OLoop Hi). cbn. lia.
Qed.
Lemma once_inv n s : reachable n s -> inv s.
Proof.
  apply steps_invariant; [intros a b Ha [c Hc]; by eapply once_call_inv|]. split; cbn [init butex q ran threads]; try done.
  - left. unfold cnt. cbn [init threads]. by rewrite !Mx.sum_zero.
  - by intros i p [-> _]%lookup_replicate.
  - intros i. split; [by intros ?%not_elem_of_nil|]. by intros [? _]%lookup_replicate.
Qed.
(** C22: The initialization runs at most once, it has run and has ended when
    anyone returns, and a thread sleeps only while another one runs it or is
    about to wake the sleepers. *)
Theorem once_exact n s : reachable n s ->
  0 <= ran s <= 1 /\ (forall i, threads s !! i = Some Done -> ran s = 1 /\ butex s = INITIALIZED) /\
  (forall i, threads s !! i = Some OSleep -> exists j p, threads s !! j = Some p /\ (p = ORun \/ p = OStore \/ p = OWake)).
Proof.
  intros HI%once_inv. pose proof (i_word _ HI) as H1. unfold cnt, UNINITIALIZED, INPROGRESS, INITIALIZED in H1. split_and!; [lia|lia| |].
  - intros i Hi. pose proof (i_pc _ HI i _ Hi) as Hp. cbn in Hp. unfold INITIALIZED in *. lia.
  - intros i Hi. apply (i_q _ HI) in Hi. destruct (i_lost _ HI) as [Hb|Hw]; [by intros E; rewrite E in Hi; apply not_elem_of_nil in Hi| |].
    + unfold INPROGRESS in Hb. destruct (decide (0 < sum_list_with before (threads s))%nat) as [Hx|Hx]; [destruct (sum_pos _ _ Hx) as (j & p & Hj & Hp)|destruct (sum_pos after (threads s) ltac:(lia)) as (j & p & Hj & Hp)]; exists j, p; (split; [done|]); destruct p; cbn in Hp; try lia; tauto.
    + unfold cnt in Hw. destruct (sum_pos waking (threads s) ltac:(lia)) as (j & p & Hj & Hp). exists j, p. split; [done|]. destruct p; cbn in Hp; try lia; tauto.
Qed.
Lemma once_run_steps l s s' : run l s = Some s' -> steps step s s'.
Proof.
  revert s. induction l as [|c l IH]; cbn [run]; intros s; [intros [= <-]; constructor|]. destruct (do_call s c) as [s1|] eqn:E; [|done]. cbn [mbind option_bind]. intros H%IH. eapply steps_app; [|exact H]. eapply steps_trans; [apply steps_refl|]. by exists c.
Qed.
Lemma once_exact_witness : match run [Start 0; Start 1; Go 0; Go 1; Go 0; Go 1; Go 1; Go 1] (init 2) with
  | Some s => threads s = [ORun; OSleep] /\ (exists j p, threads s !! j = Some p /\ (p = ORun \/ p = OStore \/ p = OWake))
  | None => False end.
Proof.
  destruct (run [Start 0; Start 1; Go 0; Go 1; Go 0; Go 1; Go 1; Go 1] (init 2)) as [s|] eqn:E; [|by vm_compute in E]. destruct (once_exact 2 s (once_run_steps _ _ _ E)) as (_ & _ & H). specialize (H 1%nat).
  vm_compute in E. injection E as <-. split; [done|]. by apply H.
Defined.
End Once.

(** ** Read-write locks *)

Module RW.

Definition RWLockMaxReaders : Z := 2 ^ 30.
Inductive PC :=
| Idle
| RSem (timed : bool)           (* waits for reader_sema *)
| Reading
| RDec                          (* before reader_wait is decremented *)
| RPost
| TRLoad | TRCas (reader_count : Z)
| WMutex (timed : bool)         (* waits for write_queue_mutex *)
| WAnnounce (timed : bool)
| WAdd (timed : bool) (reader_count : Z)
| WSem (timed : bool)           (* waits for writer_sema *)
| WGiveUp                       (* its time is up, before the mutex is unlocked *)
| WFlag                         (* before wlock_flag is set *)
| Writing
| UAdd                          (* wlock_flag is cleared *)
| UPost (reader_count : Z)
| UMutex
| TWMutex | TWCas | TWUnlock.
(** [locked] is the mutex of the writers; [fault] a failed CHECK. *)
Record S := mkS { reader_count : Z; reader_wait : Z; wlock_flag : bool; reader_sema : Z; writer_sema : Z; locked : bool; threads : list PC; fault : bool }.
Definition set_count z s := mkS z (reader_wait s) (wlock_flag s) (reader_sema s) (writer_sema s) (locked s) (threads s) (fault s).
Definition set_wait z s := mkS (reader_count s) z (wlock_flag s) (reader_sema s) (writer_sema s) (locked s) (threads s) (fault s).
Definition set_flag b s := mkS (reader_count s) (reader_wait s) b (reader_sema s) (writer_sema s) (locked s) (threads s) (fault s).
Definition set_rsema z s := mkS (reader_count s) (reader_wait s) (wlock_flag s) z (writer_sema s) (locked s) (threads s) (fault s).
Definition set_wsema z s := mkS (reader_count s) (reader_wait s) (wlock_flag s) (reader_sema s) z (locked s) (threads s) (fault s).
Definition set_mutex b s := mkS (reader_count s) (reader_wait s) (wlock_flag s) (reader_sema s) (writer_sema s) b (threads s) (fault s).
Definition set_fault s := mkS (reader_count s) (reader_wait s) (wlock_flag s) (reader_sema s) (writer_sema s) (locked s) (threads s) true.
Definition set_pc (i : nat) (p : PC) (s : S) : S :=
  mkS (reader_count s) (reader_wait s) (wlock_flag s) (reader_sema s) (writer_sema s) (locked s) (<[i := p]> (threads s)) (fault s).

Definition rwlock_rdlock_impl (s : S) (i : nat) (timed : bool) : S :=
  let reader_count := i32 (reader_count s + 1) in
  let s := set_count reader_count s in
  if 0 <=? reader_count then (if reader_count <? RWLockMaxReaders then set_pc i Reading s else set_fault s) else set_pc i (RSem timed) s.
Definition tryrdlock_load (s : S) (i : nat) : S := set_pc i (if reader_count s <? 0 then Idle else TRCas (reader_count s)) s.
Definition tryrdlock_cas (s : S) (i : nat) (c : Z) (ok : bool) : S :=
  if (reader_count s =? c) && ok then set_pc i Reading (set_count (i32 (c + 1)) s) else set_pc i TRLoad s.
Definition rwlock_unrdlock (s : S) (i : nat) : S :=
  let reader_count := i32 (reader_count s - 1) in
  let s := set_count reader_count s in
  if 0 <=? reader_count then set_pc i Idle s
  else if (reader_count + 1 =? 0) || (reader_count + 1 =? - RWLockMaxReaders) then set_fault s
  else set_pc i RDec s.
Definition unrdlock_wait (s : S) (i : nat) : S := let reader_wait := i32 (reader_wait s - 1) in set_pc i (if reader_wait =? 0 then RPost else Idle) (set_wait reader_wait s).
Definition wrlock_announce (s : S) (i : nat) (timed : bool) : S :=
  set_pc i (if reader_count s =? 0 then WFlag else WAdd timed (reader_count s)) (set_count (i32 (reader_count s - RWLockMaxReaders)) s).
Definition wrlock_add (s : S) (i : nat) (timed : bool) (r : Z) : S := let reader_wait := i32 (reader_wait s + r) in set_pc i (if reader_wait =? 0 then WFlag else WSem timed) (set_wait reader_wait s).
Definition rwlock_trywrlock (s : S) (i : nat) : S := if locked s then set_pc i Idle s else set_pc i TWCas (set_mutex true s).
Definition trywrlock_cas (s : S) (i : nat) : S := if reader_count s =? 0 then set_pc i WFlag (set_count (- RWLockMaxReaders) s) else set_pc i TWUnlock s.
Definition rwlock_unwrlock (s : S) (i : nat) : S :=
  let reader_count := i32 (reader_count s + RWLockMaxReaders) in
  let s := set_count reader_count s in
  if RWLockMaxReaders <=? reader_count then set_fault s else set_pc i (UPost reader_count) s.
Definition unwrlock_slow (s : S) (i : nat) (r : Z) : S := set_pc i UMutex (set_rsema (reader_sema s + r) s).
(** [rwlock_unlock] looks at the flag to find out which lock the caller has. *)
Definition rwlock_unlock (s : S) (i : nat) : S := if wlock_flag s then set_pc i UAdd (set_flag false s) else rwlock_unrdlock s i.

Inductive call := RdLock (i : nat) (timed : bool) | TryRdLock (i : nat) | WrLock (i : nat) (timed : bool) | TryWrLock (i : nat) | Unlock (i : nat) | Go (i : nat) (ok : bool) | Timeout (i : nat).
Definition go (s : S) (i : nat) (ok : bool) (p : PC) : option S :=
  match p with
  | RSem _ => if 0 <? reader_sema s then Some (set_pc i Reading (set_rsema (reader_sema s - 1) s)) else None
  | RDec => Some (unrdlock_wait s i)
  | RPost => Some (set_pc i Idle (set_wsema (writer_sema s + 1) s))
  | TRLoad => Some (tryrdlock_load s i)
  | TRCas c => Some (tryrdlock_cas s i c ok)
  | WMutex t => if locked s then None else Some (set_pc i (WAnnounce t) (set_mutex true s))
  | WAnnounce t => Some (wrlock_announce s i t)
  | WAdd t r => Some (wrlock_add s i t r)
  | WSem _ => if 0 <? writer_sema s then Some (set_pc i WFlag (set_wsema (writer_sema s - 1) s)) else None
  | WGiveUp => Some (set_pc i Idle (set_mutex false s))
  | WFlag => Some (set_pc i Writing (set_flag true s))
  | UAdd => Some (rwlock_unwrlock s i)
  | UPost r => Some (unwrlock_slow s i r)
  | UMutex => Some (set_pc i Idle (set_mutex false s))
  | TWMutex => Some (rwlock_trywrlock s i)
  | TWCas => Some (trywrlock_cas s i)
  | TWUnlock => Some (set_pc i Idle (set_mutex false s))
  | Idle | Reading | Writing => None
  end.
Definition do_call (s : S) (c : call) : option S :=
  match c with
  | RdLock i t => match threads s !! i with Some Idle => Some (rwlock_rdlock_impl s i t) | _ => None end
  | TryRdLock i => match threads s !! i with Some Idle => Some (set_pc i TRLoad s) | _ => None end
  | WrLock i t => match threads s !! i with Some Idle => Some (set_pc i (WMutex t) s) | _ => None end
  | TryWrLock i => match threads s !! i with Some Idle => Some (set_pc i TWMutex s) | _ => None end
  | Unlock i => match threads s !! i with Some Reading | Some Writing => Some (rwlock_unlock s i) | _ => None end
  | Go i ok => p ← threads s !! i; go s i ok p
  | Timeout i =>
      match threads s !! i with
      | Some (RSem true) | Some (WMutex true) => Some (set_pc i Idle s)
      | Some (WSem true) => Some (set_pc i WGiveUp s)
      | _ => None
      end
  end.
(** Steps in which no time is up; see [rw_timed_reader_blocks] and [rw_timed_writer_blocks] for the others. *)
Definition untimed (c : call) : bool := match c with Timeout _ => false | _ => true end.
Definition step (s s' : S) : Prop := exists c, do_call s c = Some s' /\ untimed c = true.
Definition init (n : nat) : S := mkS 0 0 false 0 0 false (replicate n Idle) false.
Definition reachable (n : nat) : S -> Prop := steps step (init n).
Fixpoint run (l : list call) (s : S) : option S := match l with [] => Some s | c :: l' => s' ← do_call s c; run l' s' end.

(** *** Counting *)

Definition zsum (f : PC -> Z) (l : list PC) : Z := foldr (fun p a => f p + a) 0 l.
Lemma zsum_insert f l i p p' : l !! i = Some p -> zsum f (<[i := p']> l) = zsum f l - f p + f p'.
Proof.
  revert i. induction l as [|x l IH]; intros [|i] Hi; try done; [injection Hi as ->; cbn; lia|]. change (<[Datatypes.S i := p']> (x :: l)) with (x :: <[i := p']> l). cbn [zsum foldr]. fold (zsum f (<[i := p']> l)). rewrite (IH i Hi). unfold zsum. lia.
Qed.
Lemma zsum_nonneg f l : (forall p, 0 <= f p) -> 0 <= zsum f l.
Proof. intros Hf. induction l as [|p l IH]; cbn; [lia|]. specialize (Hf p). unfold zsum in IH. lia. Qed.
Lemma zsum_lookup f l i p : (forall q, 0 <= f q) -> l !! i = Some p -> f p <= zsum f l.
Proof.
  intros Hf. revert i. induction l as [|x l IH]; intros [|i] Hi; try done; cbn; [injection Hi as ->; pose proof (zsum_nonneg f l Hf); unfold zsum in *; lia|]. specialize (IH i Hi). specialize (Hf x). unfold zsum in *. lia.
Qed.
Lemma zsum_pos f l : 0 < zsum f l -> exists i p, l !! i = Some p /\ 0 < f p.
Proof.
  induction l as [|x l IH]; cbn; [lia|]. intros H. destruct (decide (0 < f x)) as [Hx|Hx]; [by exists 0%nat, x|]. destruct IH as (i & y & Hi & Hy); [unfold zsum; lia|]. by exists (Datatypes.S i), y.
Qed.
Lemma zsum_le f l : (forall p, f p <= 1) -> zsum f l <= Z.of_nat (length l).
Proof. intros Hf. induction l as [|p l IH]; cbn; [lia|]. specialize (Hf p). unfold zsum in IH. lia. Qed.

Definition fA (p : PC) : Z := match p with Reading => 1 | _ => 0 end.
Definition fB (p : PC) : Z := match p with RSem _ => 1 | _ => 0 end.
Definition fAB (p : PC) : Z := match p with Reading | RSem _ => 1 | _ => 0 end.
Definition fD (p : PC) : Z := match p with RDec => 1 | _ => 0 end.
Definition fQ (p : PC) : Z := match p with RPost => 1 | _ => 0 end.
Definition fW1 (p : PC) : Z := match p with WAdd _ _ => 1 | _ => 0 end.
Definition fR1 (p : PC) : Z := match p with WAdd _ r => r | _ => 0 end.
Definition fW2 (p : PC) : Z := match p with WSem _ => 1 | _ => 0 end.
Definition fW3 (p : PC) : Z := match p with WFlag | Writing | UAdd => 1 | _ => 0 end.
Definition fX (p : PC) : Z := match p with Writing => 1 | _ => 0 end.
Definition fP (p : PC) : Z := match p with UPost r => r | _ => 0 end.
(** Threads that have the mutex. *)
Definition fM (p : PC) : Z := match p with WAnnounce _ | WAdd _ _ | WSem _ | WFlag | Writing | UAdd | UPost _ | UMutex | TWCas | TWUnlock | WGiveUp => 1 | _ => 0 end.
Definition b2z (b : bool) : Z := if b then 1 else 0.
Definition no_give_up (p : PC) : Prop := match p with WGiveUp => False | UPost r => 0 <= r | TRCas c => 0 <= c | WAdd _ r => 0 <= r < RWLockMaxReaders | _ => True end.
(** The invariant, as arithmetic on the counts. *)
Record inv (n : nat) (s : S) : Prop := {
  i_len : length (threads s) = n;
  i_pc : forall i p, threads s !! i = Some p -> no_give_up p;
  i_fault : fault s = false;
  i_mutex : zsum fM (threads s) = b2z (locked s);
  i_flag : zsum fX (threads s) = b2z (wlock_flag s);
  i_sema : 0 <= reader_sema s /\ 0 <= writer_sema s /\ reader_sema s <= zsum fB (threads s);
  i_count : reader_count s = zsum fA (threads s) + zsum fB (threads s) - RWLockMaxReaders * (zsum fW1 (threads s) + zsum fW2 (threads s) + zsum fW3 (threads s));
  i_free : zsum fW1 (threads s) + zsum fW2 (threads s) + zsum fW3 (threads s) = 0 ->
    zsum fB (threads s) = reader_sema s + zsum fP (threads s) /\ reader_wait s = 0 /\ zsum fD (threads s) = 0 /\ zsum fQ (threads s) = 0 /\ writer_sema s = 0;
  i_add : zsum fW1 (threads s) = 1 -> zsum fA (threads s) + reader_sema s + zsum fD (threads s) = zsum fR1 (threads s) + reader_wait s /\ reader_wait s <= 0 /\ zsum fQ (threads s) = 0 /\ writer_sema s = 0;
  i_sem : zsum fW2 (threads s) = 1 -> zsum fA (threads s) + reader_sema s + zsum fD (threads s) = reader_wait s /\
    ((reader_wait s = 0 /\ zsum fQ (threads s) + writer_sema s = 1) \/ (0 < reader_wait s /\ zsum fQ (threads s) + writer_sema s = 0));
  i_excl : zsum fW3 (threads s) = 1 -> zsum fA (threads s) = 0 /\ reader_sema s = 0 /\ zsum fD (threads s) = 0 /\ reader_wait s = 0 /\ zsum fQ (threads s) = 0 /\ writer_sema s = 0 }.

Lemma zsum_mono f g l : (forall p, f p <= g p) -> zsum f l <= zsum g l.
Proof. intros H. induction l as [|p l IH]; cbn; [lia|]. specialize (H p). unfold zsum in IH. lia. Qed.
Lemma zsum_add f g h l : (forall p, f p + g p = h p) -> zsum f l + zsum g l = zsum h l.
Proof. intros H. induction l as [|p l IH]; cbn; [lia|]. specialize (H p). unfold zsum in IH. lia. Qed.
(** What holds of the counts of any list. *)
Lemma counts s n : inv n s -> Z.of_nat n + 1 < RWLockMaxReaders -> 
  0 <= zsum fA (threads s) /\ 0 <= zsum fB (threads s) /\ 0 <= zsum fD (threads s) /\ 0 <= zsum fQ (threads s) /\ 0 <= zsum fW1 (threads s) /\ 0 <= zsum fW2 (threads s) /\ 0 <= zsum fW3 (threads s) /\
  zsum fW1 (threads s) + zsum fW2 (threads s) + zsum fW3 (threads s) <= zsum fM (threads s) /\ zsum fX (threads s) <= zsum fW3 (threads s) /\ zsum fA (threads s) + zsum fB (threads s) + 1 < RWLockMaxReaders /\ 0 <= b2z (locked s) <= 1 /\ zsum fD (threads s) + 1 < RWLockMaxReaders.
Proof.
  intros HI Hn. pose proof (i_len _ _ HI) as Hl. assert (forall f, (forall p, 0 <= f p) -> 0 <= zsum f (threads s)) as Hnn by (intros f; apply zsum_nonneg).
  split_and!; try (apply Hnn; by intros []). 
  - rewrite <- Z.add_assoc. rewrite (zsum_add fW2 fW3 (fun p => fW2 p + fW3 p)) by done. rewrite (zsum_add fW1 (fun p => fW2 p + fW3 p) (fun p => fW1 p + (fW2 p + fW3 p))) by done. apply zsum_mono. by intros [].
  - apply zsum_mono. by intros [].
  - rewrite (zsum_add fA fB fAB) by (by intros []). pose proof (zsum_le fAB (threads s) ltac:(by intros [])). lia.
  - by destruct (locked s).
  - by destruct (locked s).
  - pose proof (zsum_le fD (threads s) ltac:(by intros [])). lia.
Qed.
(** Only the thread that has the mutex counts where only such threads count. *)
Lemma zsum_only g l i p : (forall q, fM q = 0 -> g q = 0) -> zsum fM l <= 1 -> l !! i = Some p -> fM p = 1 -> zsum g l = g p.
Proof.
  intros Hg. revert i. assert (forall q, 0 <= fM q <= 1) as HM by (by intros []). assert (forall k, zsum fM k <= 0 -> zsum g k = 0) as H0.
  { intros k. induction k as [|x k IH]; cbn; [done|]. intros Hk. pose proof (zsum_nonneg fM k ltac:(by intros [])). pose proof (HM x). unfold zsum in *. rewrite (Hg x) by lia. rewrite IH by lia. done. }
  induction l as [|x l IH]; intros [|i] Hl Hi Hp; try done; cbn in *.
  - injection Hi as ->. fold (zsum g l). rewrite H0; [lia|]. unfold zsum. lia.
  - pose proof (HM x). pose proof (zsum_lookup fM l i p ltac:(by intros []) Hi). fold (zsum g l). rewrite (IH i); try done; [|unfold zsum in *; lia]. rewrite (Hg x); [lia|]. unfold zsum in *. lia.
Qed.
Lemma pc_insert (l : list PC) i p' : (forall j q, l !! j = Some q -> no_give_up q) -> no_give_up p' -> forall j q, <[i := p']> l !! j = Some q -> no_give_up q.
Proof. intros H Hp j q [(<- & <- & _)|[_ Hj]]%list_lookup_insert_Some; [done|by eapply H]. Qed.
Local Ltac simpl_counts := cbn [fA fB fD fQ fW1 fR1 fW2 fW3 fX fP fM b2z] in *.
(** The counts after a step of thread [i] from [p] to [p']. *)
Local Ltac rw_step HI Hi p' :=
  split; cbn [set_pc set_count set_wait set_flag set_rsema set_wsema set_mutex reader_count reader_wait wlock_flag reader_sema writer_sema locked threads fault];
  [by rewrite length_insert; apply HI|apply pc_insert; [apply HI|try done; try (cbn [no_give_up]; change RWLockMaxReaders with 1073741824; lia)]|apply HI|..];
  rewrite ?(zsum_insert _ _ _ _ p' Hi); simpl_counts; try change RWLockMaxReaders with 1073741824.
(** What the counts are when the thread [i] has the mutex. *)
Local Ltac rw_owner Hown Hi := destruct (Hown _ _ Hi eq_refl) as (O1 & O2 & O3 & O4 & O5 & O6 & O7); rewrite O7 in *; simpl_counts.
Lemma rw_call_inv n s c s' : inv n s -> Z.of_nat n + 1 < RWLockMaxReaders -> untimed c = true -> do_call s c = Some s' -> inv n s'.
Proof.
  intros HI Hn Hu. destruct (counts s n HI Hn) as (C1 & C2 & C3 & C4 & C5 & C6 & C7 & C8 & C9 & C10 & C11 & C12). pose proof HI as [E1 E2 E3 E4 E5 E6 E7 E8 E9 E10 E11]. change RWLockMaxReaders with 1073741824 in *.
  assert (forall i p, threads s !! i = Some p -> fM p = 1 -> zsum fP (threads s) = fP p /\ zsum fR1 (threads s) = fR1 p /\ zsum fW1 (threads s) = fW1 p /\ zsum fW2 (threads s) = fW2 p /\ zsum fW3 (threads s) = fW3 p /\ zsum fX (threads s) = fX p /\ locked s = true) as Hown.
  { intros i p Hi Hp. pose proof (zsum_lookup fM _ _ _ ltac:(by intros []) Hi) as HL. assert (zsum fM (threads s) <= 1) as HM by lia. split_and!; try (apply (zsum_only _ _ i p); try done; by intros []). destruct (locked s); [done|]. cbn in *. lia. }
  assert (forall i p, threads s !! i = Some p -> fA p <= zsum fA (threads s) /\ fB p <= zsum fB (threads s) /\ fD p <= zsum fD (threads s) /\ fQ p <= zsum fQ (threads s)) as Hin by (intros i p Hi; split_and!; eapply zsum_lookup; try done; by intros []).
  assert (zsum fW1 (threads s) = 1 -> 0 <= zsum fR1 (threads s) < 1073741824) as HR1.
  { intros H1. destruct (zsum_pos fW1 (threads s)) as (j & q & Hj & Hq); [lia|]. destruct q; try done. destruct (Hown j _ Hj eq_refl) as (_ & -> & _). exact (E2 j _ Hj). }
  destruct c as [i t|i|i t|i|i|i ok|i]; cbn [do_call]; destruct (threads s !! i) as [p|] eqn:Hi; try done; cbn [mbind option_bind]; destruct (Hin i p Hi) as (I1 & I2 & I3 & I4); pose proof (E2 i p Hi) as Hpc.
  - destruct p; try done. intros [= <-]. unfold rwlock_rdlock_impl. rewrite i32_small by lia. destruct (Z.leb_spec 0 (reader_count s + 1)).
    + destruct (Z.ltb_spec (reader_count s + 1) RWLockMaxReaders) as [|Hx]; [rw_step HI Hi Reading; lia|]. change RWLockMaxReaders with 1073741824 in Hx. lia.
    + rw_step HI Hi (RSem t); lia.
  - destruct p; try done. intros [= <-]. rw_step HI Hi TRLoad; lia.
  - destruct p; try done. intros [= <-]. rw_step HI Hi (WMutex t); lia.
  - destruct p; try done. intros [= <-]. rw_step HI Hi TWMutex; lia.
  - destruct p; try done; intros [= <-]; unfold rwlock_unlock.
    + destruct (wlock_flag s) eqn:Ef; [simpl_counts; lia|]. unfold rwlock_unrdlock. rewrite i32_small by (simpl_counts; lia). destruct (Z.leb_spec 0 (reader_count s - 1)); [rw_step HI Hi Idle; rewrite ?Ef; simpl_counts; lia|].
      destruct (Z.eqb_spec (reader_count s - 1 + 1) 0); [simpl_counts; lia|]. destruct (Z.eqb_spec (reader_count s - 1 + 1) (- RWLockMaxReaders)) as [Hx|]; [change RWLockMaxReaders with 1073741824 in Hx; simpl_counts; lia|]. cbn [orb]. rw_step HI Hi RDec; rewrite ?Ef; simpl_counts; lia.
    + destruct (Hown i _ Hi eq_refl) as (O1 & O2 & O3 & O4 & O5 & O6 & O7). simpl_counts. destruct (wlock_flag s) eqn:Ef; [|cbn in *; lia]. rw_step HI Hi UAdd; rewrite ?O7 in *; simpl_counts; lia.
  - destruct p; cbn [go]; try done.
    + destruct (Z.ltb_spec 0 (reader_sema s)); [|done]. intros [= <-]. rw_step HI Hi Reading; lia.
    + intros [= <-]. unfold unrdlock_wait. rewrite i32_small by (simpl_counts; lia). destruct (Z.eqb_spec (reader_wait s - 1) 0); [rw_step HI Hi RPost; lia|rw_step HI Hi Idle; lia].
    + intros [= <-]. rw_step HI Hi Idle; lia.
    + intros [= <-]. unfold tryrdlock_load. destruct (Z.ltb_spec (reader_count s) 0); [rw_step HI Hi Idle; lia|rw_step HI Hi (TRCas (reader_count s)); lia].
    + intros [= <-]. unfold tryrdlock_cas. destruct (Z.eqb_spec (reader_count s) reader_count0) as [<-|]; [destruct ok|]; cbn [andb]; [cbn in Hpc; rewrite i32_small by lia; rw_step HI Hi Reading; lia|rw_step HI Hi TRLoad; lia..].
    + destruct (locked s) eqn:Elk; [done|]. intros [= <-]. simpl_counts. rw_step HI Hi (WAnnounce timed); lia.
    + intros [= <-]. rw_owner Hown Hi. unfold wrlock_announce. change RWLockMaxReaders with 1073741824. rewrite i32_small by lia. destruct (Z.eqb_spec (reader_count s) 0); [rw_step HI Hi WFlag; rewrite ?O7; simpl_counts; lia|rw_step HI Hi (WAdd timed (reader_count s)); rewrite ?O7; simpl_counts; change RWLockMaxReaders with 1073741824; lia].
    + intros [= <-]. rw_owner Hown Hi. unfold wrlock_add. rewrite i32_small by lia. destruct (Z.eqb_spec (reader_wait s + reader_count0) 0); [rw_step HI Hi WFlag; rewrite ?O7; simpl_counts; lia|rw_step HI Hi (WSem timed); rewrite ?O7; simpl_counts; lia].
    + destruct (Z.ltb_spec 0 (writer_sema s)); [|done]. intros [= <-]. rw_owner Hown Hi. rw_step HI Hi WFlag; rewrite ?O7; simpl_counts; lia.
    + intros [= <-]. rw_owner Hown Hi. rw_step HI Hi Writing; rewrite ?O7; simpl_counts; lia.
    + intros [= <-]. rw_owner Hown Hi. unfold rwlock_unwrlock. change RWLockMaxReaders with 1073741824. rewrite i32_small by lia. destruct (Z.leb_spec 1073741824 (reader_count s + 1073741824)) as [Hx|Hx]; [lia|].
      rw_step HI Hi (UPost (reader_count s + 1073741824)); rewrite ?O7; simpl_counts; try (cbn; lia).
    + intros [= <-]. rw_owner Hown Hi. cbn in Hpc. unfold unwrlock_slow. rw_step HI Hi UMutex; rewrite ?O7; simpl_counts; lia.
    + intros [= <-]. rw_owner Hown Hi. rw_step HI Hi Idle; rewrite ?O7; simpl_counts; lia.
    + intros [= <-]. unfold rwlock_trywrlock. destruct (locked s) eqn:Elk; simpl_counts; [rw_step HI Hi Idle; rewrite ?Elk; simpl_counts; lia|rw_step HI Hi TWCas; lia].
    + intros [= <-]. rw_owner Hown Hi. unfold trywrlock_cas. destruct (Z.eqb_spec (reader_count s) 0); [rw_step HI Hi WFlag; rewrite ?O7; simpl_counts; change RWLockMaxReaders with 1073741824; lia|rw_step HI Hi TWUnlock; rewrite ?O7; simpl_counts; lia].
    + intros [= <-]. rw_owner Hown Hi. rw_step HI Hi Idle; rewrite ?O7; simpl_counts; lia.
Qed.
Lemma rw_inv n s : reachable n s -> Z.of_nat n + 1 < RWLockMaxReaders -> inv n s.
Proof.
  intros H Hn. eapply (steps_invariant step (inv n) (init n)); [| |exact H].
  - intros a b HI (c & Hc & Hu). by eapply rw_call_inv.
  - assert (forall f, f Idle = 0 -> zsum f (replicate n Idle) = 0) as H0 by (intros f Hf; clear -Hf; induction n as [|n IH]; cbn; [done|]; unfold zsum in IH; lia).
    split; cbn [init threads reader_count reader_wait wlock_flag reader_sema writer_sema locked fault]; rewrite ?H0 by done; try done; try (cbn; lia); [by rewrite length_replicate|].
    by intros i p [-> _]%lookup_replicate.
Qed.
Lemma zsum_zero f l : (forall i p, l !! i = Some p -> f p = 0) -> zsum f l = 0.
Proof.
  induction l as [|p l IH]; intros H; cbn; [done|]. rewrite (H 0%nat p eq_refl). unfold zsum in IH. rewrite IH; [done|]. intros i q Hi. exact (H (Datatypes.S i) q Hi).
Qed.
(** Two threads that count add up to two. *)
Lemma zsum_two f l i j p q : (forall r, 0 <= f r) -> l !! i = Some p -> l !! j = Some q -> i <> j -> f p + f q <= zsum f l.
Proof.
  intros Hf. revert i j. induction l as [|x l IH]; intros [|i] [|j] Hi Hj Hij; try done; cbn; fold (zsum f l).
  - injection Hi as ->. pose proof (zsum_lookup f l j q Hf Hj). lia.
  - injection Hj as ->. pose proof (zsum_lookup f l i p Hf Hi). lia.
  - specialize (IH i j Hi Hj ltac:(congruence)). specialize (Hf x). lia.
Qed.

(** *** Exclusion *)

(** C23: As long as no timed call expires and there are fewer than 2^30 - 1 threads, a thread that has the write lock has it alone: no other thread has the write lock and none the read lock; [wlock_flag] says which of the two locks is taken, so that [bthread_rwlock_unlock] releases the one its caller has, and no CHECK fails. *)
Theorem rw_exclusion n s : Z.of_nat n + 1 < RWLockMaxReaders -> reachable n s ->
  fault s = false /\
  (forall i, threads s !! i = Some Writing -> wlock_flag s = true /\ (forall j, threads s !! j <> Some Reading) /\ (forall j, threads s !! j = Some Writing -> j = i)) /\
  (forall i, threads s !! i = Some Reading -> wlock_flag s = false).
Proof.
  intros Hn HR. pose proof (rw_inv n s HR Hn) as HI. destruct (counts s n HI Hn) as (C1 & C2 & C3 & C4 & C5 & C6 & C7 & C8 & C9 & C10 & C11 & C12). pose proof HI as [_ _ E3 E4 E5 _ _ _ _ _ E11].
  assert (forall i, threads s !! i = Some Writing -> wlock_flag s = true /\ zsum fA (threads s) = 0) as HW.
  { intros i Hi. pose proof (zsum_lookup fX _ _ _ ltac:(by intros []) Hi) as HX. pose proof (zsum_lookup fW3 _ _ _ ltac:(by intros []) Hi) as H3. simpl_counts. split; [destruct (wlock_flag s); [done|cbn in *; lia]|]. apply E11. lia. }
  assert (forall j, threads s !! j = Some Reading -> 1 <= zsum fA (threads s)) as HA by (intros j Hj; apply (zsum_lookup fA _ _ _ ltac:(by intros []) Hj)).
  split_and!; [done| |].
  - intros i Hi. destruct (HW i Hi) as [Hf H0]. split_and!; [done|intros j Hj; specialize (HA j Hj); lia|]. intros j Hj. destruct (decide (i = j)) as [|Hij]; [done|].
    pose proof (zsum_two fX _ i j _ _ ltac:(by intros []) Hi Hj Hij) as H2. rewrite E5, Hf in H2. by cbn in H2.
  - intros i Hi. specialize (HA i Hi). destruct (wlock_flag s) eqn:Ef; [|done]. destruct (zsum_pos fX (threads s)) as (j & p & Hj & Hp); [rewrite E5; done|]. destruct p; try done. destruct (HW j Hj). lia.
Qed.

(** *** No deadlock *)

(** A thread that can go on whatever the others do. *)
Definition can_go (p : PC) : bool := match p with Idle | Reading | Writing | RSem _ | WMutex _ | WSem _ => false | _ => true end.
Lemma can_go_spec s i p : threads s !! i = Some p -> can_go p = true -> exists s', do_call s (Go i true) = Some s'.
Proof. intros Hi Hp. cbn [do_call]. rewrite Hi. cbn [mbind option_bind]. destruct p; try done; by eexists. Qed.
(** C24: As long as no timed call expires ([rw_timed_reader_blocks] and [rw_timed_writer_blocks] show what happens then), the lock does not come to rest while it is free and wanted: when no thread has the lock for reading or writing and some thread is within a call, some thread can take a step. *)
Theorem rw_no_deadlock n s i p : Z.of_nat n + 1 < RWLockMaxReaders -> reachable n s -> (forall j, threads s !! j <> Some Reading /\ threads s !! j <> Some Writing) ->
  threads s !! i = Some p -> p <> Idle -> exists j s', do_call s (Go j true) = Some s'.
Proof.
  intros Hn HR Hfree Hi Hp. pose proof (rw_inv n s HR Hn) as HI. destruct (counts s n HI Hn) as (C1 & C2 & C3 & C4 & C5 & C6 & C7 & C8 & C9 & C10 & C11 & C12). pose proof HI as [_ _ _ E4 _ E6 _ E8 _ E10 _].
  destruct (decide (Exists (fun q => can_go q = true) (threads s))) as [(q & (j & Hj)%list_elem_of_lookup & Hq)%Exists_exists|Hno].
  { exists j. by eapply can_go_spec. }
  assert (forall j q, threads s !! j = Some q -> can_go q = false /\ q <> Reading /\ q <> Writing) as Hall.
  { intros j q Hj. destruct (Hfree j). split_and!; [|congruence..]. apply not_true_iff_false. intros Hc. apply Hno, Exists_exists. exists q. split; [by eapply list_elem_of_lookup_2|done]. }
  assert (forall f, (forall q, can_go q = false -> q <> Reading -> q <> Writing -> f q = 0) -> zsum f (threads s) = 0) as H0 by (intros f Hf; apply zsum_zero; intros j q Hj; destruct (Hall j q Hj) as (? & ? & ?); by apply Hf).
  pose proof (H0 fA ltac:(by intros [])) as ZA. pose proof (H0 fD ltac:(by intros [])) as ZD. pose proof (H0 fQ ltac:(by intros [])) as ZQ. pose proof (H0 fW1 ltac:(by intros [])) as Z1. pose proof (H0 fW3 ltac:(by intros [])) as Z3. pose proof (H0 fP ltac:(by intros [])) as ZP.
  assert (0 < reader_sema s -> exists j s', do_call s (Go j true) = Some s') as HRS.
  { intros Hs. destruct (zsum_pos fB (threads s)) as (j & q & Hj & Hq); [lia|]. destruct q; try done. exists j. cbn [do_call]. rewrite Hj. cbn [mbind option_bind go]. apply Z.ltb_lt in Hs. rewrite Hs. by eexists. }
  destruct (decide (zsum fW2 (threads s) = 0)) as [Z2|Z2].
  - destruct E8 as (HB & _ & _ & _ & _); [lia|]. destruct (Hall i p Hi) as (Hc & HnR & HnW). destruct p; try done.
    + apply HRS. pose proof (zsum_lookup fB _ _ _ ltac:(by intros []) Hi) as Hl. cbn [fB] in Hl. lia.
    + exists i. cbn [do_call]. rewrite Hi. cbn [mbind option_bind go]. destruct (locked s) eqn:El; [|by eexists]. destruct (zsum_pos fM (threads s)) as (j & q & Hj & Hq); [rewrite E4; done|]. destruct (Hall j q Hj) as (Hcq & ? & ?). destruct q; try done.
      pose proof (zsum_lookup fW2 _ _ _ ltac:(by intros []) Hj) as Hl. cbn [fW2] in Hl. lia.
    + pose proof (zsum_lookup fW2 _ _ _ ltac:(by intros []) Hi) as Hl. cbn [fW2] in Hl. lia.
  - destruct E10 as (HS & [(HW & HP)|(HW & _)]); [lia| |apply HRS; lia].
    destruct (zsum_pos fW2 (threads s)) as (j & q & Hj & Hq); [lia|]. destruct q; try done. exists j. cbn [do_call]. rewrite Hj. cbn [mbind option_bind go]. destruct (Z.ltb_spec 0 (writer_sema s)); [by eexists|lia].
Qed.
Lemma rw_run_steps l s s' : run l s = Some s' -> forallb untimed l = true -> steps step s s'.
Proof.
  revert s. induction l as [|c l IH]; cbn [run forallb]; intros s; [intros [= <-] _; constructor|]. destruct (do_call s c) as [s1|] eqn:E; [|done]. cbn [mbind option_bind]. intros H [Hc Hl]%andb_prop. apply (IH _ H) in Hl. eapply steps_app; [|exact Hl].  eapply steps_trans; [apply steps_refl|]. by exists c.
Qed.
Lemma rw_exclusion_witness : match run [RdLock 0 false; WrLock 1 false; Go 1 true; Go 1 true; Go 1 true; RdLock 2 false; Unlock 0; Go 0 true; Go 0 true; Go 1 true; Go 1 true] (init 3) with
  | Some s => threads s = [Idle; Writing; RSem false] /\ wlock_flag s = true /\ (forall j, threads s !! j = Some Writing -> j = 1%nat)
  | None => False end.
Proof.
  destruct (run [RdLock 0 false; WrLock 1 false; Go 1 true; Go 1 true; Go 1 true; RdLock 2 false; Unlock 0; Go 0 true; Go 0 true; Go 1 true; Go 1 true] (init 3)) as [s|] eqn:E; [|by vm_compute in E].
  destruct (rw_exclusion 3 s ltac:(done) (rw_run_steps _ _ _ E eq_refl)) as (_ & H & _). vm_compute in E. injection E as <-. destruct (H 1%nat eq_refl) as (Hf & _ & Hu). split_and!; [done|exact Hf|exact Hu].
Defined.
Lemma rw_no_deadlock_witness : match run [RdLock 0 false; WrLock 1 false; Go 1 true; Go 1 true; Go 1 true; RdLock 2 false; Unlock 0; Go 0 true; Go 0 true] (init 3) with
  | Some s => threads s = [Idle; WSem false; RSem false] /\ exists j s', do_call s (Go j true) = Some s'
  | None => False end.
Proof.
  destruct (run [RdLock 0 false; WrLock 1 false; Go 1 true; Go 1 true; Go 1 true; RdLock 2 false; Unlock 0; Go 0 true; Go 0 true] (init 3)) as [s|] eqn:E; [|by vm_compute in E].
  pose proof (fun H => rw_no_deadlock 3 s 1%nat (WSem false) eq_refl (rw_run_steps _ _ _ E eq_refl) H) as HN. vm_compute in E. injection E as <-. split; [done|]. apply HN; [|done..]. by intros [|[|[|j]]].
Defined.

(** *** When a time is up *)

(** A reader whose time is up stays counted: after everybody has left, a writer waits for a reader that is not there, and no thread can take a step. *)
Lemma rw_timed_reader_blocks : exists s,
  run [WrLock 0 false; Go 0 true; Go 0 true; Go 0 true; RdLock 1 true; Timeout 1; Unlock 0; Go 0 true; Go 0 true; Go 0 true; WrLock 0 false; Go 0 true; Go 0 true; Go 0 true] (init 2) = Some s /\
  threads s = [WSem false; Idle] /\ (forall j ok, do_call s (Go j ok) = None).
Proof. eexists. split; [vm_compute; reflexivity|]. split; [done|]. by intros [|[|j]] ok. Qed.
(** A writer whose time is up leaves its announcement behind: the readers that come afterwards wait for a writer that is not there. *)
Lemma rw_timed_writer_blocks : exists s,
  run [RdLock 0 false; WrLock 1 true; Go 1 true; Go 1 true; Go 1 true; Timeout 1; Go 1 true; Unlock 0; Go 0 true; Go 0 true; RdLock 0 false] (init 2) = Some s /\
  threads s = [RSem false; Idle] /\ (forall j ok, do_call s (Go j ok) = None).
Proof. eexists. split; [vm_compute; reflexivity|]. split; [done|]. by intros [|[|j]] ok. Qed.

(** Each writer whose time is up leaves -2^30 behind: after three of them the int has wrapped around to a positive value, and the CHECK of the next reader fails. *)
Lemma rw_timed_writers_wrap : (s ← run ([RdLock 0 false] ++ concat (replicate 3 [WrLock 1 true; Go 1 true; Go 1 true; Go 1 true; Timeout 1; Go 1 true])) (init 3); Some (reader_count s)) = Some (2 ^ 30 + 1) /\
  (s ← run ([RdLock 0 false] ++ concat (replicate 3 [WrLock 1 true; Go 1 true; Go 1 true; Go 1 true; Timeout 1; Go 1 true]) ++ [RdLock 2 false]) (init 3); Some (fault s)) = Some true.
Proof. split; vm_compute; reflexivity. Qed.

End RW.
