(* ===== verification/ThreadKey.v ===== *)
(** * Thread-local storage (src/src-bthread/butil/thread_key.h, thread_key.cpp, thread_local.cpp)

    Keys without a limit on their number, each with a slot in a vector of every
    thread that uses it, and the functions that a thread calls when it exits.
    Any number of threads; what a function does under [g_thread_key_mutex] is one
    step, the rest of it belongs to its thread alone.  A [ThreadKey] cannot be
    copied, so an object (a variable of the model) is the only one that names its
    key.  Memory is always obtained. *)
From S2P Require Import Prelude.

Module TK.

(** ** Keys *)

Definition EINVAL : Z := 22.
Definition EAGAIN : Z := 11.
Definition InvalidID : Z := 2 ^ 64 - 1.
Definition InitSeq : Z := 0.
Record ThreadKey := mkKey { _id : Z; _seq : Z }.
Definition Reset : ThreadKey := mkKey InvalidID InitSeq.
(** A destructor is named by a number, data are pointers and 0 is NULL. *)
Record ThreadKeyInfo := mkInfo { seq : Z; dtor : option nat }.
Definition new_info : ThreadKeyInfo := mkInfo 0 None.
Record ThreadKeyTLS := mkTLS { tls_seq : Z; data : Z }.
Definition new_tls : ThreadKeyTLS := mkTLS 0 0.
#[global] Instance ThreadKey_eq_dec : EqDecision ThreadKey.
Proof. solve_decision. Defined.
#[global] Instance ThreadKey_countable : Countable ThreadKey.
Proof. refine (inj_countable' (fun k => (_id k, _seq k)) (fun p => mkKey p.1 p.2) _). by intros []. Defined.

Definition KEY_UNUSED (p : Z) : bool := Z.land p 1 =? 0.
Definition KEY_USABLE (p : Z) : bool := p <? u64 (p + 2).
Definition Valid (k : ThreadKey) : bool := negb (_id k =? InvalidID) && negb (KEY_UNUSED (_seq k)).

(** The deque of free identifiers ends with its back; [tls] is
    [thread_key_tls_data] of every thread, [vars] the ThreadKey objects. *)
Record S := mkS { g_id : Z; g_free_ids : list Z; g_thread_keys : list ThreadKeyInfo; tls : list (option (list ThreadKeyTLS)); vars : list ThreadKey }.
Definition set_var (v : nat) (k : ThreadKey) (s : S) : S := mkS (g_id s) (g_free_ids s) (g_thread_keys s) (tls s) (<[v := k]> (vars s)).
Definition set_tls (t : nat) (d : option (list ThreadKeyTLS)) (s : S) : S := mkS (g_id s) (g_free_ids s) (g_thread_keys s) (<[t := d]> (tls s)) (vars s).
(** std::vector: resize. *)
Definition resize {A} (x : A) (n : Z) (l : list A) : list A := take (Z.to_nat n) l ++ replicate (Z.to_nat n - length l) x.

Definition take_id (s : S) : option (Z * S) :=
  match last (g_free_ids s) with
  | Some id => Some (id, mkS (g_id s) (removelast (g_free_ids s)) (g_thread_keys s) (tls s) (vars s))
  | None =>
      if InvalidID <=? g_id s then None
      else Some (g_id s, mkS (g_id s + 1) (g_free_ids s) (resize new_info (g_id s + 1) (g_thread_keys s)) (tls s) (vars s))
  end.
Definition set_info (id : Z) (x : ThreadKeyInfo) (s : S) : S := mkS (g_id s) (g_free_ids s) (<[Z.to_nat id := x]> (g_thread_keys s)) (tls s) (vars s).
(** The object [v] is overwritten. *)
Definition thread_key_create (s : S) (v : nat) (d : option nat) : Z * S :=
  match take_id s with
  | None => (EAGAIN, s)
  | Some (id, s) =>
      let q := u64 (from_option seq 0 (at_ (g_thread_keys s) id) + 1) in
      (0, set_var v (mkKey id q) (set_info id (mkInfo q d) s))
  end.
Definition thread_key_delete (s : S) (v : nat) (k : ThreadKey) : Z * S :=
  if negb (Valid k) then (EINVAL, s)
  else match at_ (g_thread_keys s) (_id k) with
       | None => (EINVAL, set_var v Reset s)
       | Some i =>
           if negb (_seq k =? seq i) || KEY_UNUSED (seq i) then (EINVAL, set_var v Reset s)
           else
             let q := u64 (seq i + 1) in
             let s := set_info (_id k) (mkInfo q (dtor i)) s in
             let s := if KEY_USABLE q then mkS (g_id s) (g_free_ids s ++ [_id k]) (g_thread_keys s) (tls s) (vars s) else s in
             (0, set_var v Reset s)
       end.
Definition thread_setspecific (s : S) (t : nat) (k : ThreadKey) (x : Z) : Z * S :=
  if negb (Valid k) then (EINVAL, s)
  else
    let l := default [] (mjoin (tls s !! t)) in
    let l := if _id k <? Z.of_nat (length l) then l else resize new_tls (_id k + 1) l in
    (0, set_tls t (Some (<[Z.to_nat (_id k) := mkTLS (_seq k) x]> l)) s).
Definition thread_getspecific (s : S) (t : nat) (k : ThreadKey) : Z :=
  if negb (Valid k) then 0
  else match mjoin (tls s !! t) with
       | None => 0
       | Some l => match at_ l (_id k) with
                   | None => 0
                   | Some e => if tls_seq e =? _seq k then data e else 0
                   end
       end.
(** The calls of destructors, in order; [None] is an access out of range. *)
Fixpoint exit_calls (keys : list ThreadKeyInfo) (l : list ThreadKeyTLS) {struct l} : option (list (nat * Z)) :=
  match l, keys with
  | [], _ => Some []
  | _ :: _, [] => None
  | e :: l, i :: keys =>
      r ← exit_calls keys l;
      Some (match dtor i with Some d => if KEY_UNUSED (seq i) then r else (d, data e) :: r | None => r end)
  end.
Definition DestroyTlsData (s : S) (t : nat) : option (list (nat * Z) * S) :=
  match mjoin (tls s !! t) with
  | None => Some ([], s)
  | Some l => c ← exit_calls (g_thread_keys s) l; Some (c, set_tls t None s)
  end.

Inductive call := Create (v : nat) (d : option nat) | Delete (v : nat) | Set_ (t v : nat) (x : Z) | Get (t v : nat) | Move (v w : nat) | Exit (t : nat).
Inductive answer := Rc (z : Z) | Key (k : ThreadKey) | Data (x : Z) | Calls (l : list (nat * Z)) | Unit.
(** Calls that name a thread or an object that does not exist do nothing. *)
Definition do_call (s : S) (c : call) : option (answer * S) :=
  match c with
  | Create v d => k ← vars s !! v; let r := thread_key_create s v d in Some (if r.1 =? 0 then Key (default Reset (vars r.2 !! v)) else Rc r.1, r.2)
  | Delete v => k ← vars s !! v; let r := thread_key_delete s v k in Some (Rc r.1, r.2)
  | Set_ t v x => k ← vars s !! v; _ ← tls s !! t; let r := thread_setspecific s t k x in Some (Rc r.1, r.2)
  | Get t v => k ← vars s !! v; _ ← tls s !! t; Some (Data (thread_getspecific s t k), s)
  | Move v w => k ← vars s !! v; _ ← vars s !! w; Some (Unit, if (v =? w)%nat then s else set_var v Reset (set_var w k s))
  | Exit t => _ ← tls s !! t; r ← DestroyTlsData s t; Some (Calls r.1, r.2)
  end.
Definition init (nthreads nvars : nat) : S := mkS 0 [] [] (replicate nthreads None) (replicate nvars Reset).
Fixpoint run (l : list call) (s : S) : option (list answer * S) :=
  match l with [] => Some ([], s) | c :: l => '(a, s) ← do_call s c; '(as_, s) ← run l s; Some (a :: as_, s) end.

(** ** What keys promise *)

(** A key is created, held by one object and then deleted; [vals] is what every
    thread has stored under it. *)
Record Spec := mkSpec { issued : list ThreadKey; live : gmap ThreadKey (option nat); held : list (option ThreadKey); vals : gmap (nat * ThreadKey) Z }.
Definition spec_exit (a : Spec) (t : nat) : Spec := mkSpec (issued a) (live a) (held a) (filter (fun p => p.1.1 <> t) (vals a)).
(** The destructor of every key in use is called with what the thread has stored under it. *)
Definition exit_ok (a : Spec) (t : nat) (l : list (nat * Z)) : Prop :=
  forall k d x, live a !! k = Some (Some d) -> vals a !! (t, k) = Some x -> (d, x) ∈ l.
Definition spec_step (a : Spec) (c : call) (r : answer) (a' : Spec) : Prop :=
  match c, r with
  | Create v d, Key k => (k ∉ issued a) /\ a' = (mkSpec (k :: issued a) (<[k := d]> (live a)) (<[v := Some k]> (held a)) (vals a))
  | Delete v, Rc z =>
      match held a !! v with
      | Some (Some k) => z = 0 /\ a' = mkSpec (issued a) (delete k (live a)) (<[v := None]> (held a)) (vals a)
      | Some None => z = EINVAL /\ a' = a
      | None => False
      end
  | Set_ t v x, Rc z =>
      match held a !! v with
      | Some (Some k) => z = 0 /\ a' = mkSpec (issued a) (live a) (held a) (<[(t, k) := x]> (vals a))
      | Some None => z = EINVAL /\ a' = a
      | None => False
      end
  | Get t v, Data x =>
      match held a !! v with
      | Some (Some k) => x = default 0 (vals a !! (t, k)) /\ a' = a
      | Some None => x = 0 /\ a' = a
      | None => False
      end
  | Move v w, Unit => exists h, held a !! v = Some h /\ a' = (if (v =? w)%nat then a else mkSpec (issued a) (live a) (<[v := None]> (<[w := h]> (held a))) (vals a))
  | Exit t, Calls l => exit_ok a t l /\ a' = spec_exit a t
  | _, _ => False
  end.
Inductive spec_run : Spec -> list call -> list answer -> Prop :=
| spec_nil a : spec_run a [] []
| spec_cons a c r a' l rs : spec_step a c r a' -> spec_run a' l rs -> spec_run a (c :: l) (r :: rs).
Definition spec_init (nvars : nat) : Spec := mkSpec [] ∅ (replicate nvars None) ∅.

(** ** The invariant *)

Lemma key_unused_even p : KEY_UNUSED p = Z.even p.
Proof. unfold KEY_UNUSED. change 1 with (Z.ones 1). rewrite Z.land_ones by lia. change (2 ^ 1) with 2. rewrite Zmod_even. by destruct (Z.even p). Qed.
Lemma even_succ p : Z.even (p + 1) = negb (Z.even p).
Proof. rewrite Z.even_add. by destruct (Z.even p). Qed.
(** What thread [t] has stored under [k]. *)
Definition tls_find (s : S) (t : nat) (k : ThreadKey) : option Z :=
  l ← mjoin (tls s !! t); e ← at_ l (_id k); if tls_seq e =? _seq k then Some (data e) else None.
Lemma getspecific_find s t k : Valid k = true -> thread_getspecific s t k = default 0 (tls_find s t k).
Proof.
  intros Hv. unfold thread_getspecific, tls_find. rewrite Hv. cbn [negb]. destruct (mjoin (tls s !! t)) as [l|]; [|done]. cbn [mbind option_bind]. destruct (at_ l (_id k)) as [e|]; [|done]. cbn [mbind option_bind]. by destruct (_ =? _).
Qed.
(** After at most [N] calls. *)
Record inv (N : Z) (s : S) (a : Spec) : Prop := {
  i_gid : g_id s = Z.of_nat (length (g_thread_keys s)) /\ g_id s <= N;
  i_seq : forall id i, g_thread_keys s !! id = Some i -> 0 <= seq i <= N;
  i_free : NoDup (g_free_ids s) /\ forall id, id ∈ g_free_ids s -> 0 <= id /\ exists i, at_ (g_thread_keys s) id = Some i /\ Z.even (seq i) = true;
  i_issued : forall k, k ∈ issued a -> 0 <= _id k /\ Z.even (_seq k) = false /\ exists i, at_ (g_thread_keys s) (_id k) = Some i /\ _seq k <= seq i;
  i_live : forall k d, live a !! k = Some d -> k ∈ issued a /\ at_ (g_thread_keys s) (_id k) = Some (mkInfo (_seq k) d);
  i_len : length (held a) = length (vars s);
  i_held : forall v h, held a !! v = Some h -> vars s !! v = Some (default Reset h) /\ (forall k, h = Some k -> is_Some (live a !! k));
  i_uniq : forall v w k, held a !! v = Some (Some k) -> held a !! w = Some (Some k) -> v = w;
  i_tls : forall t k, is_Some (live a !! k) -> tls_find s t k = vals a !! (t, k);
  i_tls_le : forall t l, mjoin (tls s !! t) = Some l -> forall id e, l !! id = Some e -> exists i, g_thread_keys s !! id = Some i /\ tls_seq e <= seq i;
  i_vals : forall t k, is_Some (vals a !! (t, k)) -> k ∈ issued a }.
Lemma inv_more N M s a : inv N s a -> N <= M -> inv M s a.
Proof. intros [] HM. split; try done; [lia|]. intros id i Hi. specialize (i_seq0 id i Hi). lia. Qed.
Lemma live_same N s a k k' : inv N s a -> is_Some (live a !! k) -> is_Some (live a !! k') -> _id k = _id k' -> k = k'.
Proof. intros HI [d Hd] [d' Hd'] E. destruct (i_live _ _ _ HI k d Hd) as [_ H1]. destruct (i_live _ _ _ HI k' d' Hd') as [_ H2]. rewrite E, H2 in H1. injection H1 as H1 _. destruct k, k'; cbn in *. congruence. Qed.
(** A key in use is valid and has its slot. *)
Lemma live_valid N s a k : inv N s a -> N < InvalidID -> is_Some (live a !! k) ->
  Valid k = true /\ 0 <= _id k < g_id s /\ Z.even (_seq k) = false /\ exists d, live a !! k = Some d /\ at_ (g_thread_keys s) (_id k) = Some (mkInfo (_seq k) d).
Proof.
  intros HI HN [d Hd]. destruct (i_live _ _ _ HI k d Hd) as [Hin Hat]. destruct (i_issued _ _ _ HI k Hin) as (H0 & He & _). destruct (i_gid _ _ _ HI) as [Eg Hg].
  assert (_id k < g_id s) as Hlt by (apply lookup_lt_Some in Hat; lia). unfold Valid. rewrite key_unused_even, He. destruct (Z.eqb_spec (_id k) InvalidID); [lia|]. split_and!; eauto.
Qed.
Lemma at_resize {A} (x : A) n l i : 0 <= n -> (length l <= Z.to_nat n)%nat -> at_ (resize x n l) i = if decide (Z.to_nat i < length l)%nat then at_ l i else if decide (Z.to_nat i < Z.to_nat n)%nat then Some x else None.
Proof.
  intros Hn Hl. unfold at_, resize. rewrite take_ge by done. case_decide as H1; [by rewrite lookup_app_l|]. rewrite lookup_app_r by lia. case_decide as H2; [rewrite lookup_replicate; split; [done|lia]|apply lookup_ge_None; rewrite length_replicate; lia].
Qed.
Lemma to_nat_ne a b : 0 <= a -> 0 <= b -> a <> b -> Z.to_nat a <> Z.to_nat b.
Proof. lia. Qed.
Lemma take_id_inv N s a : inv N s a -> N < InvalidID ->
  exists id s1 i, take_id s = Some (id, s1) /\ inv (N + 1) s1 a /\ vars s1 = vars s /\ 0 <= id /\ at_ (g_thread_keys s1) id = Some i /\ Z.even (seq i) = true /\ seq i <= N /\ id ∉ g_free_ids s1.
Proof.
  intros HI HN. pose proof HI as [[Eg Hg] Hs [Hnd Hf] Hi Hl Hle Hh Hu Ht Htl Hv]. unfold take_id. destruct (last (g_free_ids s)) as [id|] eqn:EL.
  - apply last_Some in EL as [l El]. rewrite El in *. rewrite removelast_last. apply NoDup_app in Hnd as (Hnl & Hd & _). destruct (Hf id) as (H0 & i & Hat & He); [set_solver|].
    assert (seq i <= N) as Hn by (destruct (Hs (Z.to_nat id) i Hat); lia).
    eexists id, _, i. split; [done|]. split_and!; try done; [|intros Hin; apply (Hd id Hin); set_solver]. apply (inv_more N); [|lia]. split; try done. split; [done|]. intros j Hj. apply Hf. set_solver.
  - apply last_None in EL. destruct (Z.leb_spec InvalidID (g_id s)); [lia|]. eexists (g_id s), _, new_info. split; [done|]. cbn [g_thread_keys vars g_free_ids]. rewrite EL.
    assert (forall i, at_ (resize new_info (g_id s + 1) (g_thread_keys s)) i = if decide (Z.to_nat i < length (g_thread_keys s))%nat then at_ (g_thread_keys s) i else if decide (Z.to_nat i < Z.to_nat (g_id s + 1))%nat then Some new_info else None) as HR by (intros i; apply at_resize; lia).
    assert (forall i x, at_ (g_thread_keys s) i = Some x -> at_ (resize new_info (g_id s + 1) (g_thread_keys s)) i = Some x) as HK by (intros i x Hx; rewrite HR, decide_True; [done|by eapply lookup_lt_Some]).
    split_and!; try done; [|lia|by rewrite HR, decide_False, decide_True by lia|cbn; lia|set_solver].
    split; cbn [g_id g_thread_keys g_free_ids tls vars]; try done.
    + unfold resize. rewrite length_app, length_take, length_replicate. lia.
    + intros id i Hid. specialize (HR (Z.of_nat id)). unfold at_ in HR. rewrite Nat2Z.id in HR. rewrite HR in Hid. repeat case_decide; try done; [specialize (Hs id i Hid); lia|]. injection Hid as <-. cbn. lia.
    + split; [constructor|set_solver].
    + intros k Hk. destruct (Hi k Hk) as (H0 & He & i & Hat & Hle'). split_and!; eauto.
    + intros k d Hk. destruct (Hl k d Hk). eauto.
    + intros t l Hl' id e He. destruct (Htl t l Hl' id e He) as (i & Hid & Hx). exists i. split; [|done]. specialize (HK (Z.of_nat id) i). unfold at_ in HK. rewrite Nat2Z.id in HK. by apply HK.
Qed.

(** ** Every operation *)

Lemma set_info_inv N s a id i i' : inv N s a -> 0 <= id -> at_ (g_thread_keys s) id = Some i -> seq i' = seq i + 1 -> seq i < N -> id ∉ g_free_ids s -> (forall k, is_Some (live a !! k) -> _id k <> id) ->
  inv N (set_info id i' s) a.
Proof.
  intros HI H0 Hat Eq Hn Hfree Hlive. pose proof HI as [[Eg Hg] Hs [Hnd Hf] Hi Hl Hle Hh Hu Ht Htl Hv].
  pose proof (fun j Hj => at_insert (g_thread_keys s) id j i' i H0 Hj Hat) as HR. pose proof (Hs _ _ Hat) as Hsi.
  assert (forall n j, g_thread_keys s !! n = Some j -> exists j', <[Z.to_nat id := i']> (g_thread_keys s) !! n = Some j' /\ seq j <= seq j') as HM.
  { intros n j Hj. specialize (HR (Z.of_nat n) ltac:(lia)). unfold at_ in HR. rewrite Nat2Z.id in HR. rewrite HR. destruct (Z.eqb_spec id (Z.of_nat n)) as [->|]; [|by exists j]. exists i'. split; [done|]. unfold at_ in Hat. rewrite Nat2Z.id in Hat. rewrite Hat in Hj. injection Hj as <-. lia. }
  split; cbn [set_info g_id g_thread_keys g_free_ids tls vars]; try done.
  - by rewrite length_insert.
  - intros n j [(<- & <- & _)|[_ Hj]]%list_lookup_insert_Some; [lia|by eapply Hs].
  - split; [done|]. intros j Hj. destruct (Hf j Hj) as (Hj0 & x & Hx & He). split; [done|]. rewrite HR by done. destruct (Z.eqb_spec id j) as [->|]; [done|eauto].
  - intros k Hk. destruct (Hi k Hk) as (Hk0 & He & j & Hj & Hkj). split_and!; [done..|]. destruct (HM _ _ Hj) as (j' & Hj' & Hjj). exists j'. split; [done|lia].
  - intros k d Hk. destruct (Hl k d Hk) as [Hin Hk']. split; [done|]. destruct (Hi k Hin) as [Hk0 _]. rewrite HR by done. destruct (Z.eqb_spec id (_id k)) as [E|]; [|done]. by destruct (Hlive k ltac:(by eexists)).
  - intros t l Hl' n e He. destruct (Htl t l Hl' n e He) as (j & Hj & Hej). destruct (HM _ _ Hj) as (j' & Hj' & Hjj). exists j'. split; [done|lia].
Qed.
(** A fresh key for a slot that is not in use. *)
Lemma add_key_inv N s a v k d : inv N s a -> (v < length (vars s))%nat -> 0 <= _id k -> Z.even (_seq k) = false -> at_ (g_thread_keys s) (_id k) = Some (mkInfo (_seq k) d) -> k ∉ issued a -> (forall k', is_Some (live a !! k') -> _id k' <> _id k) ->
  (forall t, tls_find s t k = None) -> inv N (set_var v k s) (mkSpec (k :: issued a) (<[k := d]> (live a)) (<[v := Some k]> (held a)) (vals a)).
Proof.
  intros HI Hlt H0 He Hat Hfr Hlive Hno. pose proof HI as [[Eg Hg] Hs [Hnd Hf] Hi Hl Hle Hh Hu Ht Htl Hv].
  assert (live a !! k = None) as Hlk by (destruct (live a !! k) as [x|] eqn:E; [by destruct (Hfr (proj1 (Hl _ _ E)))|done]).
  split; cbn [set_var g_id g_thread_keys g_free_ids tls vars issued live held vals]; try done.
  - intros k' [->|Hk']%elem_of_cons; [|by apply Hi]. split_and!; [done..|]. eexists. split; [exact Hat|]. cbn. lia.
  - intros k' d' [[<- <-]|[Hne Hk']]%lookup_insert_Some; [split; [set_solver|done]|]. destruct (Hl _ _ Hk'). split; [set_solver|done].
  - by rewrite !length_insert.
  - intros w h [(<- & <- & _)|[Hne Hw]]%list_lookup_insert_Some.
    + rewrite list_lookup_insert_eq by done. split; [done|]. intros k' [= <-]. rewrite lookup_insert_eq. by eexists.
    + rewrite list_lookup_insert_ne by done. destruct (Hh w h Hw) as [Ew Hlw]. split; [done|]. intros k' Ek. destruct (decide (k = k')) as [<-|Hk]; [rewrite lookup_insert_eq; by eexists|]. rewrite lookup_insert_ne by done. by apply Hlw.
  - intros w w' k' [(<- & E & _)|[Hne Hw]]%list_lookup_insert_Some [(<- & E' & _)|[Hne' Hw']]%list_lookup_insert_Some; [done|..].
    + injection E as <-. destruct (proj2 (Hh _ _ Hw') k eq_refl) as [x Hx]. congruence.
    + injection E' as <-. destruct (proj2 (Hh _ _ Hw) k eq_refl) as [x Hx]. congruence.
    + by eapply Hu.
  - intros t k' Hk'. change (tls_find (set_var v k s) t k') with (tls_find s t k'). destruct (decide (k = k')) as [<-|Hne].
    + rewrite Hno. destruct (vals a !! (t, k)) as [x|] eqn:E; [|done]. destruct Hfr. apply (Hv t). by eexists.
    + rewrite lookup_insert_ne in Hk' by done. by apply Ht.
  - intros t k' Hk'. apply elem_of_cons. right. by eapply Hv.
Qed.
Lemma key_create_inv N s a v d : inv N s a -> N + 1 < InvalidID -> (v < length (vars s))%nat ->
  exists k s', thread_key_create s v d = (0, s') /\ vars s' !! v = Some k /\ spec_step a (Create v d) (Key k) (mkSpec (k :: issued a) (<[k := d]> (live a)) (<[v := Some k]> (held a)) (vals a)) /\ inv (N + 1) s' (mkSpec (k :: issued a) (<[k := d]> (live a)) (<[v := Some k]> (held a)) (vals a)).
Proof.
  intros HI HN Hlt. destruct (take_id_inv N s a HI ltac:(lia)) as (id & s1 & i & Et & HI1 & Ev & H0 & Hat & He & Hn & Hfree). unfold thread_key_create. rewrite Et, Hat. cbn [from_option].
  destruct (i_seq _ _ _ HI1 _ _ Hat) as [Hs0 _]. rewrite u64_small by (unfold is_u64, InvalidID in *; lia). set (k := mkKey id (seq i + 1)).
  assert (k ∉ issued a) as Hfr by (intros Hin; destruct (i_issued _ _ _ HI1 k Hin) as (_ & _ & j & Hj & Hle); unfold k in Hj, Hle; cbn [_id _seq] in *; rewrite Hat in Hj; injection Hj as <-; lia).
  assert (forall k', is_Some (live a !! k') -> _id k' <> id) as Hlive.
  { intros k' Hk' Eid. destruct (live_valid _ _ _ k' HI1 HN Hk') as (_ & _ & Hodd & d' & _ & Hat'). rewrite Eid, Hat in Hat'. injection Hat' as ->. cbn in He. congruence. }
  assert (forall t, tls_find (set_info id (mkInfo (seq i + 1) d) s1) t k = None) as Hno.
  { intros t. change (tls_find (set_info id (mkInfo (seq i + 1) d) s1) t k) with (tls_find s1 t k). unfold tls_find. destruct (mjoin (tls s1 !! t)) as [l|] eqn:El; [|done]. cbn [mbind option_bind k _id]. unfold at_. destruct (l !! Z.to_nat id) as [e|] eqn:Ee; [|done]. cbn [mbind option_bind k _seq].
    destruct (i_tls_le _ _ _ HI1 t l El _ e Ee) as (j & Hj & Hle). unfold at_ in Hat. rewrite Hat in Hj. injection Hj as <-. destruct (Z.eqb_spec (tls_seq e) (seq i + 1)); [lia|done]. }
  exists k. eexists. split; [done|]. cbn [vars set_var set_info]. rewrite Ev. split_and!; [by apply list_lookup_insert_eq|split; done|].
  apply add_key_inv; try done; cbn [k _id _seq set_info vars g_thread_keys].
  - eapply set_info_inv; try done. cbn. lia.
  - by rewrite Ev.
  - rewrite even_succ, He. done.
  - rewrite (at_insert _ _ _ _ i) by done. by rewrite Z.eqb_refl.
Qed.
(** The object [v] lets go of its key, which is no longer in use. *)
Lemma unhold_inv N s a v k : inv N s a -> held a !! v = Some (Some k) -> inv N (set_var v Reset s) (mkSpec (issued a) (delete k (live a)) (<[v := None]> (held a)) (vals a)).
Proof.
  intros HI Hv. pose proof HI as [[Eg Hg] Hs [Hnd Hf] Hi Hl Hle Hh Hu Ht Htl Hvs]. pose proof (lookup_lt_Some _ _ _ Hv) as Hlt.
  assert (forall k', is_Some (delete k (live a) !! k') -> is_Some (live a !! k')) as HD by (intros k' [x Hx]; apply lookup_delete_Some in Hx as [_ Hx]; by eexists).
  split; cbn [set_var g_id g_thread_keys g_free_ids tls vars issued live held vals]; try done.
  - intros k' d [_ Hk']%lookup_delete_Some. by apply Hl.
  - by rewrite !length_insert.
  - intros w h [(<- & <- & _)|[Hne Hw]]%list_lookup_insert_Some; [rewrite list_lookup_insert_eq by lia; done|]. rewrite list_lookup_insert_ne by done. destruct (Hh w h Hw) as [Ew Hlw]. split; [done|].
    intros k' ->. destruct (decide (k = k')) as [<-|]; [by destruct (Hne (Hu v w k Hv Hw))|]. rewrite lookup_delete_ne by done. by apply Hlw.
  - intros w w' k' [(_ & E & _)|[_ Hw]]%list_lookup_insert_Some [(_ & E' & _)|[_ Hw']]%list_lookup_insert_Some; try done. by eapply Hu.
  - intros t k' Hk'. apply (Ht t k'). by apply HD.
Qed.
Lemma key_delete_inv N s a v h : inv N s a -> N + 1 < InvalidID -> held a !! v = Some h ->
  exists r s' a', thread_key_delete s v (default Reset h) = (r, s') /\ spec_step a (Delete v) (Rc r) a' /\ inv (N + 1) s' a'.
Proof.
  intros HI HN Hv. unfold thread_key_delete. destruct h as [k|]; cbn [from_option id].
  2: { exists EINVAL, s, a. split_and!; [done| |apply (inv_more N); [done|lia]]. cbn. by rewrite Hv. }
  pose proof (proj2 (i_held _ _ _ HI v _ Hv) k eq_refl) as Hk. destruct (live_valid N s a k HI ltac:(lia) Hk) as (Hval & H0 & He & d & Hd & Hat). rewrite Hval, Hat. cbn [negb seq dtor]. rewrite Z.eqb_refl, key_unused_even, He. cbn [negb orb].
  pose proof (i_seq _ _ _ HI _ _ Hat) as Hs. cbn [seq] in Hs. rewrite !u64_small by (unfold is_u64, InvalidID in *; lia).
  eexists 0, _, _. split; [done|]. split; [cbn; rewrite Hv; done|]. apply (inv_more _ (N + 1)) in HI as HI1; [|lia]. pose proof (unhold_inv _ _ _ v k HI1 Hv) as HI2.
  assert (_id k ∉ g_free_ids s) as Hfree by (intros Hin; destruct (i_free _ _ _ HI) as [_ Hf]; destruct (Hf _ Hin) as (_ & j & Hj & Hej); rewrite Hat in Hj; injection Hj as <-; cbn in Hej; congruence).
  apply (set_info_inv _ _ _ (_id k) (mkInfo (_seq k) d) (mkInfo (_seq k + 1) d)) in HI2; cbn [set_var g_thread_keys g_free_ids live]; [|lia|exact Hat|done|cbn; lia|done|].
  2: { intros k' [x Hx] Eid. apply lookup_delete_Some in Hx as [Hne Hx]. destruct Hne. apply (live_same N s a); [done|done|by eexists|done]. }
  destruct (KEY_USABLE _); [|exact HI2]. destruct HI2 as [H1 H2 H3 H4 H5 H6 H7 H8 H9 H10 H11]. split; try done. cbn [g_free_ids set_var set_info g_thread_keys] in *. destruct H3 as [Hnd Hf]. split.
  - apply NoDup_app. split_and!; [done|set_solver|apply NoDup_singleton].
  - intros j [Hj|Hj]%elem_of_app; [by apply Hf|]. apply list_elem_of_singleton in Hj as ->. split; [lia|]. eexists. split; [rewrite (at_insert _ _ _ _ (mkInfo (_seq k) d)), Z.eqb_refl by (done || lia); done|]. cbn. by rewrite even_succ, He.
Qed.
Lemma key_move_inv N s a v w h : inv N s a -> held a !! v = Some h -> (w < length (vars s))%nat -> v <> w ->
  inv N (set_var v Reset (set_var w (default Reset h) s)) (mkSpec (issued a) (live a) (<[v := None]> (<[w := h]> (held a))) (vals a)).
Proof.
  intros HI Hv Hw Hne. pose proof HI as [[Eg Hg] Hs [Hnd Hf] Hi Hl Hle Hh Hu Ht Htl Hvs]. pose proof (lookup_lt_Some _ _ _ Hv) as Hlt. destruct (Hh v h Hv) as [_ Hlv].
  split; cbn [set_var g_id g_thread_keys g_free_ids tls vars issued live held vals]; try done.
  - by rewrite !length_insert.
  - intros u g. destruct (decide (v = u)) as [<-|Hvu].
    + rewrite !list_lookup_insert_eq by (rewrite ?length_insert; lia). by intros [= <-].
    + rewrite !(list_lookup_insert_ne _ v u) by done. destruct (decide (w = u)) as [<-|Hwu]; [rewrite !list_lookup_insert_eq by lia; by intros [= <-]|rewrite !list_lookup_insert_ne by done; apply Hh].
  - assert (forall u k, <[v := None]> (<[w := h]> (held a)) !! u = Some (Some k) -> exists u', held a !! u' = Some (Some k) /\ u = if decide (u' = v) then w else u') as HX.
    { intros u k [(_ & E & _)|[Hvu [(<- & -> & _)|[Hwu Hu']]%list_lookup_insert_Some]]%list_lookup_insert_Some; [done|exists v; by rewrite decide_True|exists u; by rewrite decide_False]. }
    intros u u' k (x & Hx & ->)%HX (y & Hy & ->)%HX. by rewrite (Hu x y k Hx Hy).
Qed.
Lemma tls_find_set s t t' k k' x : 0 <= _id k -> 0 <= _id k' -> (t < length (tls s))%nat -> (_id k = _id k' -> k = k') ->  Z.even (_seq k') = false ->
  tls_find (thread_setspecific s t k x).2 t' k' = if Valid k then (if decide ((t, k) = (t', k')) then Some x else tls_find s t' k') else tls_find s t' k'.
Proof.
  intros H0 H0' Hlt Hsame Hodd. unfold thread_setspecific. destruct (Valid k); cbn [negb snd]; [|done]. unfold tls_find. cbn [set_tls tls]. destruct (decide (t = t')) as [<-|Hne]; [|rewrite list_lookup_insert_ne by done; rewrite decide_False; [done|congruence]].
  rewrite list_lookup_insert_eq by done. cbn [mjoin option_join mbind option_bind]. set (l := default [] (mjoin (tls s !! t))). set (l1 := if _id k <? Z.of_nat (length l) then l else resize new_tls (_id k + 1) l).
  assert (forall i, 0 <= i -> at_ l1 i = at_ l i \/ at_ l1 i = Some new_tls /\ at_ l i = None) as HR.
  { intros i Hi. unfold l1. destruct (Z.ltb_spec (_id k) (Z.of_nat (length l))); [by left|]. rewrite at_resize by lia. case_decide as Hd; [by left|]. assert (at_ l i = None) as -> by (apply lookup_ge_None; lia). case_decide; auto. }
  assert (exists y, at_ l1 (_id k) = Some y) as [y Hy].
  { unfold l1. destruct (Z.ltb_spec (_id k) (Z.of_nat (length l))); [apply lookup_lt_is_Some_2; lia|]. rewrite at_resize by lia. rewrite decide_False, decide_True by lia. eauto. }
  rewrite (at_insert _ _ _ _ y) by done. destruct (Z.eqb_spec (_id k) (_id k')) as [E|E].
  - rewrite <- (Hsame E). cbn. rewrite Z.eqb_refl, decide_True; done.
  - rewrite decide_False by congruence. destruct (HR (_id k') H0') as [->|[-> HN]].
    + unfold l. by destruct (mjoin (tls s !! t)).
    + cbn [mbind option_bind tls_seq new_tls]. destruct (Z.eqb_spec 0 (_seq k')) as [E0|]; [by rewrite <- E0 in Hodd|]. unfold l in HN. destruct (mjoin (tls s !! t)); [|done]. cbn in *. by rewrite HN.
Qed.
Lemma key_set_inv N s a t v x h : inv N s a -> N < InvalidID -> held a !! v = Some h -> (t < length (tls s))%nat ->
  exists r s' a', thread_setspecific s t (default Reset h) x = (r, s') /\ spec_step a (Set_ t v x) (Rc r) a' /\ inv N s' a'.
Proof.
  intros HI HN Hv Hlt. destruct h as [k|]; cbn [from_option id].
  2: { exists EINVAL, s, a. split_and!; [done| |done]. cbn. by rewrite Hv. }
  pose proof (proj2 (i_held _ _ _ HI v _ Hv) k eq_refl) as Hk. destruct (live_valid N s a k HI HN Hk) as (Hval & H0 & He & d & Hd & Hat).
  pose proof (fun t' k' Hp Hs => tls_find_set s t t' k k' x ltac:(lia) Hp Hlt Hs) as HF.
  unfold thread_setspecific in *. rewrite Hval in *. cbn [negb snd] in *. set (l := default [] (mjoin (tls s !! t))) in *. set (l1 := if _id k <? Z.of_nat (length l) then l else resize new_tls (_id k + 1) l) in *.
  eexists 0, _, _. split; [done|]. split; [cbn; rewrite Hv; done|]. pose proof HI as [[Eg Hg] Hs [Hnd Hf] Hi Hl Hle Hh Hu Ht Htl Hvs].
  split; cbn [set_tls g_id g_thread_keys g_free_ids tls vars issued live held vals]; try done.
  - intros t' k' Hk'. destruct (live_valid N s a k' HI HN Hk') as (_ & H0' & He' & _). cbn [set_tls] in HF. unfold set_tls in HF. rewrite HF; [|lia|intros E; by apply (live_same N s a)|done]. case_decide as Hd'.
    + rewrite Hd'. by rewrite lookup_insert_eq.
    + rewrite lookup_insert_ne by done. by apply Ht.
  - assert (forall id e, l !! id = Some e -> exists i, g_thread_keys s !! id = Some i /\ tls_seq e <= seq i) as Hle1 by (unfold l; destruct (mjoin (tls s !! t)) as [l0|] eqn:E; [by eapply Htl|done]).
    intros t' l' Hl'. destruct (decide (t = t')) as [<-|Hne]; [|rewrite list_lookup_insert_ne in Hl' by done; by eapply Htl]. rewrite list_lookup_insert_eq in Hl' by done. cbn in Hl'. injection Hl' as <-.
    intros id e [(<- & <- & _)|[Hne Hid]]%list_lookup_insert_Some; [eexists; split; [exact Hat|cbn; lia]|]. unfold l1 in Hid. destruct (Z.ltb_spec (_id k) (Z.of_nat (length l))); [by eapply Hle1|].
    pose proof (at_resize new_tls (_id k + 1) l (Z.of_nat id) ltac:(lia) ltac:(lia)) as HR. unfold at_ in HR. rewrite Nat2Z.id in HR. rewrite HR in Hid. repeat case_decide; try done; [by eapply Hle1|]. injection Hid as <-.
    destruct (lookup_lt_is_Some_2 (g_thread_keys s) id ltac:(lia)) as [i Hid]. exists i. split; [done|]. cbn. destruct (Hs id i Hid). lia.
  - intros t' k' [y Hy]. apply lookup_insert_Some in Hy as [[[= <- <-] _]|[_ Hy]]; [by eapply Hl|eapply Hvs; by eexists].
Qed.
Lemma exit_calls_spec keys l : (forall id e, l !! id = Some e -> is_Some (keys !! id)) ->
  exists c, exit_calls keys l = Some c /\ forall id e i d, l !! id = Some e -> keys !! id = Some i -> dtor i = Some d -> KEY_UNUSED (seq i) = false -> (d, data e) ∈ c.
Proof.
  revert keys. induction l as [|e l IH]; intros keys H; [exists []; split; [by destruct keys|]; by intros []|]. destruct keys as [|i keys]; [by destruct (H 0%nat e eq_refl)|]. cbn [exit_calls].
  destruct (IH keys) as (c & -> & Hc); [intros id e' Hid; exact (H (Datatypes.S id) e' Hid)|]. cbn [mbind option_bind]. eexists. split; [done|].
  intros [|id] e' i' d Hl Hk Hd Hu; cbn in Hl, Hk.
  - injection Hl as <-. injection Hk as <-. rewrite Hd, Hu. set_solver.
  - specialize (Hc id e' i' d Hl Hk Hd Hu). destruct (dtor i); [destruct (KEY_UNUSED (seq i))|]; set_solver.
Qed.
Lemma keys_exit_inv N s a t : inv N s a -> N < InvalidID -> (t < length (tls s))%nat -> exists c s', DestroyTlsData s t = Some (c, s') /\ spec_step a (Exit t) (Calls c) (spec_exit a t) /\ inv N s' (spec_exit a t) /\ vars s' = vars s /\ length (tls s') = length (tls s).
Proof.
  intros HI HN Hlt. pose proof HI as [[Eg Hg] Hs [Hnd Hf] Hi Hl Hle Hh Hu Ht Htl Hvs].
  assert (forall t' k', vals (spec_exit a t) !! (t', k') = if decide (t = t') then None else vals a !! (t', k')) as HV.
  { intros t' k'. cbn. case_decide as E; [subst; apply map_lookup_filter_None_2; right; intros x _ Hn; by apply Hn|]. destruct (vals a !! (t', k')) as [x|] eqn:Ex; [apply map_lookup_filter_Some_2; [done|intros E2; by apply E]|apply map_lookup_filter_None_2; by left]. }
  assert (forall s', g_id s' = g_id s -> g_free_ids s' = g_free_ids s -> g_thread_keys s' = g_thread_keys s -> vars s' = vars s -> (forall t', mjoin (tls s' !! t') = if decide (t = t') then None else mjoin (tls s !! t')) -> inv N s' (spec_exit a t)) as HX.
  { intros s' E1 E2 E3 E4 E5. split; rewrite ?E1, ?E2, ?E3, ?E4; try done.
    - intros t' k' Hk'. rewrite HV. unfold tls_find. rewrite E5. case_decide; [done|]. by apply Ht.
    - intros t' l. rewrite E5. case_decide; [done|]. apply Htl.
    - intros t' k'. rewrite HV. case_decide; [by intros []|]. apply Hvs. }
  unfold DestroyTlsData. destruct (mjoin (tls s !! t)) as [l|] eqn:El.
  - destruct (exit_calls_spec (g_thread_keys s) l) as (c & Ec & Hc); [intros id e He; destruct (Htl t l El id e He) as (i & -> & _); by eexists|]. rewrite Ec. cbn [mbind option_bind]. eexists c, _. split; [done|]. split_and!; try done.
    + split; [|done]. intros k d x Hk Hx. assert (is_Some (live a !! k)) as Hk' by (by eexists). destruct (live_valid N s a k HI HN Hk') as (_ & _ & He & d' & Hd & Hat). rewrite Hk in Hd. injection Hd as <-.
      rewrite <- (Ht t k Hk') in Hx. unfold tls_find in Hx. rewrite El in Hx. cbn [mbind option_bind] in Hx. unfold at_ in Hx. destruct (l !! Z.to_nat (_id k)) as [e|] eqn:Ee; [|done]. cbn [mbind option_bind] in Hx. destruct (_ =? _); [|done]. injection Hx as <-.
      eapply Hc; [exact Ee|exact Hat|done|]. by rewrite key_unused_even.
    + apply HX; try done. intros t'. cbn [set_tls tls]. case_decide as E; [subst; by rewrite list_lookup_insert_eq|by rewrite list_lookup_insert_ne].
    + cbn. by rewrite length_insert.
  - exists [], s. split; [done|]. split_and!; try done.
    + split; [|done]. intros k d x Hk Hx. rewrite <- (Ht t k ltac:(by eexists)) in Hx. unfold tls_find in Hx. by rewrite El in Hx.
    + apply HX; try done. intros t'. case_decide as E; [by subst|done].
Qed.
(** The calls name threads and objects that exist. *)
Definition in_range (nt nv : nat) (c : call) : Prop :=
  match c with Create v _ | Delete v => (v < nv)%nat | Set_ t v _ | Get t v => (t < nt)%nat /\ (v < nv)%nat | Move v w => (v < nv)%nat /\ (w < nv)%nat | Exit t => (t < nt)%nat end.
Lemma create_shape s v d : length (tls (thread_key_create s v d).2) = length (tls s) /\ length (vars (thread_key_create s v d).2) = length (vars s).
Proof. unfold thread_key_create, take_id. destruct (last (g_free_ids s)); [|destruct (_ <=? _)]; cbn; rewrite ?length_insert; done. Qed.
Lemma delete_shape s v k : length (tls (thread_key_delete s v k).2) = length (tls s) /\ length (vars (thread_key_delete s v k).2) = length (vars s).
Proof. unfold thread_key_delete. destruct (negb _); [done|]. destruct (at_ _ _); [|cbn; rewrite ?length_insert; done]. destruct (_ || _); [|destruct (KEY_USABLE _)]; cbn; rewrite ?length_insert; done. Qed.
Lemma set_shape s t k x : length (tls (thread_setspecific s t k x).2) = length (tls s) /\ length (vars (thread_setspecific s t k x).2) = length (vars s).
Proof. unfold thread_setspecific. destruct (negb _); cbn; rewrite ?length_insert; done. Qed.
Lemma call_refines N s a nt nv c : inv N s a -> N + 1 < InvalidID -> length (tls s) = nt -> length (vars s) = nv -> in_range nt nv c ->
  exists r s' a', do_call s c = Some (r, s') /\ spec_step a c r a' /\ inv (N + 1) s' a' /\ length (tls s') = nt /\ length (vars s') = nv.
Proof.
  intros HI HN Lt Lv HR. apply (inv_more _ (N + 1)) in HI as HI1; [|lia].
  assert (forall v, (v < nv)%nat -> exists h, held a !! v = Some h /\ vars s !! v = Some (default Reset h)) as HV.
  { intros v Hv. destruct (lookup_lt_is_Some_2 (held a) v) as [h Hh]; [rewrite (i_len _ _ _ HI); lia|]. exists h. split; [done|]. apply (i_held _ _ _ HI v h Hh). }
  assert (forall t, (t < nt)%nat -> exists x, tls s !! t = Some x) as HT by (intros t Ht; apply lookup_lt_is_Some_2; lia).
  destruct c as [v d|v|t v x|t v|v w|t]; cbn [in_range] in HR; cbn [do_call].
  - destruct (HV v HR) as (h & _ & ->). destruct (key_create_inv N s a v d HI HN ltac:(lia)) as (k & s' & E & Ek & Hs & HI'). pose proof (create_shape s v d) as HSh. cbn [mbind option_bind] in *. rewrite E in *. cbn [fst snd] in *. cbn [Z.eqb]. rewrite Ek. cbn [from_option id]. eexists _, _, _. split; [done|]. split_and!; try done; lia.
  - destruct (HV v HR) as (h & Hh & ->). destruct (key_delete_inv N s a v h HI HN Hh) as (r & s' & a' & E & Hs & HI'). pose proof (delete_shape s v (default Reset h)) as HSh. cbn [mbind option_bind] in *. rewrite E in *. cbn [fst snd] in *. eexists _, _, _. split; [done|]. split_and!; try done; lia.
  - destruct HR as [Ht Hv]. destruct (HV v Hv) as (h & Hh & ->), (HT t Ht) as (y & ->). destruct (key_set_inv (N + 1) s a t v x h HI1 HN Hh ltac:(lia)) as (r & s' & a' & E & Hs & HI'). pose proof (set_shape s t (default Reset h) x) as HSh. cbn [mbind option_bind] in *. rewrite E in *. cbn [fst snd] in *. eexists _, _, _. split; [done|]. split_and!; try done; lia.
  - destruct HR as [Ht Hv]. destruct (HV v Hv) as (h & Hh & ->), (HT t Ht) as (y & ->). cbn [mbind option_bind]. eexists _, _, a. split; [done|]. split_and!; try done. cbn. rewrite Hh. destruct h as [k|]; cbn [from_option id]; [|done]. split; [|done].
    pose proof (proj2 (i_held _ _ _ HI v _ Hh) k eq_refl) as Hk. destruct (live_valid N s a k HI ltac:(lia) Hk) as (Hval & _). rewrite getspecific_find by done. by rewrite (i_tls _ _ _ HI t k Hk).
  - destruct HR as [Hv Hw]. destruct (HV v Hv) as (h & Hh & ->), (HV w Hw) as (g & _ & ->). cbn [mbind option_bind]. eexists _, _, _. split; [done|]. split; [cbn; exists h; split; [done|reflexivity]|]. destruct (Nat.eqb_spec v w) as [->|Hne]; [done|]. split; [apply key_move_inv; try done; lia|]. cbn. by rewrite !length_insert.
  - destruct (HT t HR) as (y & Hy). rewrite Hy. cbn [mbind option_bind]. destruct (keys_exit_inv (N + 1) s a t HI1 HN ltac:(lia)) as (c & s' & -> & Hs & HI' & Ev & El). cbn [mbind option_bind fst snd]. eexists _, _, _. split; [done|]. split_and!; try done; congruence.
Qed.
Lemma keys_init_inv nt nv : inv 0 (init nt nv) (spec_init nv).
Proof.
  split; cbn [init spec_init g_id g_thread_keys g_free_ids tls vars issued live held vals]; try done; try set_solver.
  - split; [constructor|set_solver].
  - by rewrite !length_replicate.
  - intros v h [-> Hv]%lookup_replicate. split; [by apply lookup_replicate|done].
  - intros v w k [[=] _]%lookup_replicate.
  - intros t k [x Hx]. by apply lookup_empty_Some in Hx.
  - intros t l Hl. destruct (replicate nt None !! t) as [x|] eqn:E; [|done]. apply lookup_replicate in E as [-> _]. done.
  - intros t k [x Hx]. by apply lookup_empty_Some in Hx.
Qed.
(** C14: For any number of threads and objects and fewer than 2^64 - 2 calls, keys
    behave as an ideal store: a new key has never been given out before and no
    thread finds anything under it, a thread gets what it has last stored under
    its key and only that, calls on an object without a key fail and change
    nothing, and when a thread exits the destructor of every key in use is called
    with what the thread has stored under it. *)
Theorem thread_key_refines nt nv l : Forall (in_range nt nv) l -> Z.of_nat (length l) + 1 < InvalidID ->
  exists rs s', run l (init nt nv) = Some (rs, s') /\ spec_run (spec_init nv) l rs.
Proof.
  assert (forall N s a, inv N s a -> length (tls s) = nt -> length (vars s) = nv -> Forall (in_range nt nv) l -> N + Z.of_nat (length l) + 1 < InvalidID -> exists rs s', run l s = Some (rs, s') /\ spec_run a l rs) as H.
  { induction l as [|c l IH]; intros N s a HI Lt Lv HF HN; cbn [run length] in *; [exists [], s; split; [done|constructor]|]. apply Forall_cons in HF as [Hc HF].
    destruct (call_refines N s a nt nv c HI ltac:(lia) Lt Lv Hc) as (r & s1 & a1 & -> & Hs & HI1 & Lt1 & Lv1). cbn [mbind option_bind]. destruct (IH (N + 1) s1 a1 HI1 Lt1 Lv1 HF ltac:(lia)) as (rs & s' & -> & Hr). cbn [mbind option_bind]. eexists _, _. split; [done|]. by econstructor. }
  intros HF HN. apply (H 0 _ _ (keys_init_inv nt nv)); try done; cbn; by rewrite length_replicate.
Qed.
Definition key_calls : list call := [Create 0 (Some 7%nat); Set_ 0 0 100; Set_ 1 0 200; Get 0 0; Move 0 1; Get 0 0; Get 1 1; Delete 1; Create 0 (Some 8%nat); Get 0 0; Set_ 1 0 300; Exit 1].
Lemma thread_key_refines_witness : exists rs s', run key_calls (init 2 2) = Some (rs, s') /\ spec_run (spec_init 2) key_calls rs.
Proof. apply (thread_key_refines 2 2 key_calls); [repeat constructor|done]. Defined.

(** A thread that has stored something under a key that was deleted, and nothing
    under the key that has got its slot, exits: the destructor of the new key is
    called with the data of the old one. *)
Lemma thread_exit_stale_data : exists s, run [Create 0 (Some 7%nat); Set_ 0 0 100; Delete 0; Create 1 (Some 8%nat); Get 0 1; Exit 0] (init 1 2) =
  Some ([Key (mkKey 0 1); Rc 0; Rc 0; Key (mkKey 0 3); Data 0; Calls [(8%nat, 100)]], s).
Proof. eexists. vm_compute. reflexivity. Qed.

End TK.

(** ** Thread-local objects *)

Module TL.

(** A [ThreadLocal] whose key is object 0; [del] is [_delete_on_thread_exit],
    [deleted] the objects that have been deleted, in order.  Objects are numbered
    from 1 as they are made. *)
Definition DefaultDtor : nat := 1.
Record S := mkS { keys : TK.S; ptrs : list Z; del : bool; deleted : list Z; next : Z }.
Definition my_key (s : S) : TK.ThreadKey := default TK.Reset (TK.vars (keys s) !! 0%nat).
Definition set_keys (k : TK.S) (s : S) : S := mkS k (ptrs s) (del s) (deleted s) (next s).
Definition delete_obj (x : Z) (s : S) : S := mkS (keys s) (ptrs s) (del s) (deleted s ++ [x]) (next s).
Definition new_obj (s : S) : Z * S := (next s, mkS (keys s) (ptrs s) (del s) (deleted s) (next s + 1)).
Definition push_ptr (x : Z) (s : S) : S := mkS (keys s) (ptrs s ++ [x]) (del s) (deleted s) (next s).
Definition ThreadLocal (nt nv : nat) (b : bool) : S :=
  mkS (TK.thread_key_create (TK.init nt nv) 0 (if b then Some DefaultDtor else None)).2 [] b [] 1.
Definition get (s : S) (t : nat) : Z * S :=
  let ptr := TK.thread_getspecific (keys s) t (my_key s) in
  if negb (ptr =? 0) then (ptr, s)
  else
    let (ptr, s) := new_obj s in
    let r := TK.thread_setspecific (keys s) t (my_key s) ptr in
    let s := set_keys r.2 s in
    if negb (r.1 =? 0) then (0, delete_obj ptr s) else (ptr, push_ptr ptr s).
Definition reset (s : S) (t : nat) (ptr : Z) : S :=
  let (old_ptr, s) := get s t in
  if ptr =? old_ptr then s
  else
    let r := TK.thread_setspecific (keys s) t (my_key s) ptr in
    let s := set_keys r.2 s in
    if negb (r.1 =? 0) then s
    else
      let s := if ptr =? 0 then s else push_ptr ptr s in
      if old_ptr =? 0 then s else delete_obj old_ptr (mkS (keys s) (filter (fun p => p <> old_ptr) (ptrs s)) (del s) (deleted s) (next s)).
(** What [for_each] passes to its callback. *)
Definition for_each (s : S) : list Z := ptrs s.
(** The exit of a thread: [DefaultDtor] deletes what is not NULL. *)
Definition thread_exit (s : S) (t : nat) : option S :=
  r ← TK.DestroyTlsData (keys s) t;
  Some (foldl (fun s (c : nat * Z) => if (c.1 =? DefaultDtor)%nat && negb (c.2 =? 0) then delete_obj c.2 s else s) (set_keys r.2 s) r.1).
Definition destroy (s : S) : S :=
  let s := set_keys (TK.thread_key_delete (keys s) 0 (my_key s)).2 s in
  if del s then s else foldl (fun s p => delete_obj p s) s (ptrs s).

(** Calls of this object, of any thread, and calls on other keys, which have other destructors. *)
Inductive call := Get (t : nat) | Reset (t : nat) | ResetNew (t : nat) | Exit (t : nat) | Other (c : TK.call).
Definition other (c : TK.call) : bool :=
  match c with TK.Create v d => negb (v =? 0)%nat && negb (bool_decide (d = Some DefaultDtor)) | TK.Delete v | TK.Set_ _ v _ | TK.Get _ v => negb (v =? 0)%nat | TK.Move v w => negb (v =? 0)%nat && negb (w =? 0)%nat | TK.Exit _ => false end.
Definition do_call (s : S) (c : call) : option S :=
  match c with
  | Get t => Some (get s t).2
  | Reset t => Some (reset s t 0)
  | ResetNew t => let r := new_obj s in Some (reset r.2 t r.1)
  | Exit t => thread_exit s t
  | Other c => r ← TK.do_call (keys s) c; Some (set_keys r.2 s)
  end.
Definition in_range (nt nv : nat) (c : call) : Prop :=
  match c with Get t | Reset t | ResetNew t | Exit t => (t < nt)%nat | Other c => TK.in_range nt nv c /\ other c = true end.
Fixpoint run (l : list call) (s : S) : option S := match l with [] => Some s | c :: l' => s' ← do_call s c; run l' s' end.

(** [L] are objects made by the caller of [reset] and not yet handed over. *)
Record inv (nt nv : nat) (L : list Z) (N : Z) (s : S) (a : TK.Spec) (k : TK.ThreadKey) : Prop := {
  i_keys : TK.inv N (keys s) a;
  i_nt : length (TK.tls (keys s)) = nt;
  i_nv : length (TK.vars (keys s)) = nv;
  i_held : TK.held a !! 0%nat = Some (Some k);
  i_dtor : TK.live a !! k = Some None;
  i_mine : forall t x, TK.vals a !! (t, k) = Some x -> x <> 0 -> x ∈ ptrs s;
  i_diff : forall t t' x, TK.vals a !! (t, k) = Some x -> TK.vals a !! (t', k) = Some x -> x <> 0 -> t = t';
  i_objs : ptrs s ++ deleted s ++ L ≡ₚ seqZ 1 (next s - 1);
  i_next : 1 <= next s;
  i_dtors : forall id i, TK.g_thread_keys (keys s) !! id = Some i -> TK.dtor i <> Some DefaultDtor;
  i_del : del s = false }.

Lemma set_infos s t k x : TK.g_thread_keys (TK.thread_setspecific s t k x).2 = TK.g_thread_keys s.
Proof. unfold TK.thread_setspecific. by destruct (negb _). Qed.
Lemma seqZ_snoc n : 1 <= n -> seqZ 1 (n + 1 - 1) = seqZ 1 (n - 1) ++ [n].
Proof. intros H. replace (n + 1 - 1) with ((n - 1) + 1) by lia. rewrite seqZ_app by lia. replace (1 + (n - 1)) with n by lia. done. Qed.
Lemma inv_my_key nt nv L N s a k : inv nt nv L N s a k -> my_key s = k.
Proof. intros HI. destruct (TK.i_held _ _ _ (i_keys _ _ _ _ _ _ _ HI) 0%nat _ (i_held _ _ _ _ _ _ _ HI)) as [H _]. unfold my_key. by rewrite H. Qed.
Lemma inv_found nt nv L N s a k t : inv nt nv L N s a k -> N < TK.InvalidID -> TK.thread_getspecific (keys s) t k = default 0 (TK.vals a !! (t, k)).
Proof.
  intros HI HN. assert (is_Some (TK.live a !! k)) as Hk by (eexists; apply HI). destruct (TK.live_valid N (keys s) a k (i_keys _ _ _ _ _ _ _ HI) HN Hk) as (Hv & _). rewrite TK.getspecific_find by done. by rewrite (TK.i_tls _ _ _ (i_keys _ _ _ _ _ _ _ HI) t k Hk).
Qed.
(** An object that nobody has, stored for thread [t]. *)
Lemma tl_store_inv nt nv L N s a k t x s1 : inv nt nv L N s a k -> N < TK.InvalidID -> (t < nt)%nat -> s1 = set_keys (TK.thread_setspecific (keys s) t k x).2 s ->
  (TK.thread_setspecific (keys s) t k x).1 = 0 /\ TK.inv N (keys s1) (TK.mkSpec (TK.issued a) (TK.live a) (TK.held a) (<[(t, k) := x]> (TK.vals a))) /\ length (TK.tls (keys s1)) = nt /\ length (TK.vars (keys s1)) = nv.
Proof.
  intros HI HN Ht ->. pose proof (i_held _ _ _ _ _ _ _ HI) as Hh. pose proof (i_nt _ _ _ _ _ _ _ HI). pose proof (i_nv _ _ _ _ _ _ _ HI). destruct (TK.key_set_inv N (keys s) a t 0 x (Some k) (i_keys _ _ _ _ _ _ _ HI) HN Hh ltac:(lia)) as (r & s' & a' & E & Hs & HI'). cbn [from_option id] in E.
  pose proof (TK.set_shape (keys s) t k x) as HSh. rewrite E in *. cbn [fst snd set_keys keys] in *. cbn in Hs. rewrite Hh in Hs. destruct Hs as [-> ->]. split_and!; try done; lia.
Qed.
Lemma tl_get_inv nt nv L N s a k t : inv nt nv L N s a k -> N < TK.InvalidID -> (t < nt)%nat ->
  exists a', inv nt nv L N (get s t).2 a' k /\ TK.vals a' !! (t, k) = Some (get s t).1 /\ 0 < (get s t).1 < next (get s t).2 /\ (forall t', t' <> t -> TK.vals a' !! (t', k) = TK.vals a !! (t', k)).
Proof.
  intros HI HN Ht. unfold get. rewrite (inv_my_key _ _ _ _ _ _ _ HI), (inv_found _ _ _ _ _ _ _ t HI HN). pose proof (i_next _ _ _ _ _ _ _ HI) as Hn.
  assert (forall x, x ∈ ptrs s -> 0 < x < next s) as Hp by (intros x Hx; assert (x ∈ ptrs s ++ deleted s ++ L) as Hx' by set_solver; rewrite (i_objs _ _ _ _ _ _ _ HI), elem_of_seqZ in Hx'; lia).
  destruct (Z.eqb_spec (default 0 (TK.vals a !! (t, k))) 0) as [E|E]; cbn [negb fst snd].
  2: { exists a. split; [done|]. destruct (TK.vals a !! (t, k)) as [x|] eqn:Ex; [|done]. cbn in *. split_and!; try done; apply Hp; by eapply i_mine. }
  cbn [new_obj]. set (s0 := mkS (keys s) (ptrs s) (del s) (deleted s) (next s + 1)). change (my_key s0) with (my_key s). rewrite (inv_my_key _ _ _ _ _ _ _ HI).
  destruct (tl_store_inv nt nv L N s a k t (next s) _ HI HN Ht eq_refl) as (Er & HI1 & Ht1 & Hv1). cbn [s0 keys set_keys] in *. rewrite Er. cbn [Z.eqb negb fst snd].
  exists (TK.mkSpec (TK.issued a) (TK.live a) (TK.held a) (<[(t, k) := next s]> (TK.vals a))). split; [|split_and!; [apply lookup_insert_eq|cbn; lia|cbn; lia|intros t' Ht'; cbn; rewrite lookup_insert_ne; [done|congruence]]]. destruct HI as [K1 K2 K3 K4 K5 K6 K7 K8 K9 K10 K11]. unfold s0. split; cbn [push_ptr set_keys keys ptrs deleted next del TK.held TK.live TK.vals]; try done.
  - intros t' x [[_ <-]|[_ Hx]]%lookup_insert_Some Hx0; [set_solver|]. specialize (K6 t' x Hx Hx0). set_solver.
  - intros t1 t2 x [[[= <-] <-]|[Hne Hx]]%lookup_insert_Some [[[= <-] Ex]|[Hne' Hx']]%lookup_insert_Some Hx0; [done|..].
    + pose proof (Hp _ (K6 _ _ Hx' Hx0)). lia.
    + pose proof (Hp _ (K6 _ _ Hx Hx0)). lia.
    + by eapply K7.
  - rewrite seqZ_snoc by done. rewrite <- K8. solve_Permutation.
  - lia.
  - rewrite set_infos. by apply K10.
Qed.
Lemma tl_reset_inv nt nv L L' N s a k t ptr : inv nt nv L N s a k -> N < TK.InvalidID -> (t < nt)%nat -> (ptr = 0 /\ L' = L) \/ (ptr <> 0 /\ L = ptr :: L') -> exists a', inv nt nv L' N (reset s t ptr) a' k.
Proof.
  intros HI HN Ht HL. unfold reset. destruct (tl_get_inv nt nv L N s a k t HI HN Ht) as (a1 & HI1 & Hg & Hr & _). destruct (get s t) as [old s1]. cbn [fst snd] in *.
  pose proof (i_mine _ _ _ _ _ _ _ HI1 t old Hg ltac:(lia)) as Hin. assert (NoDup (ptrs s1 ++ deleted s1 ++ L)) as Hnd by (rewrite (i_objs _ _ _ _ _ _ _ HI1); apply NoDup_seqZ).
  apply NoDup_app in Hnd as (Hnd & Hd & Hnd2). destruct (Z.eqb_spec ptr old) as [->|Hne].
  { destruct HL as [[-> _]|[_ ->]]; [lia|]. destruct (Hd old Hin). set_solver. }
  rewrite (inv_my_key _ _ _ _ _ _ _ HI1). destruct (tl_store_inv nt nv L N s1 a1 k t ptr _ HI1 HN Ht eq_refl) as (Er & HI2 & Ht2 & Hv2). rewrite Er. cbn [Z.eqb negb]. destruct (Z.eqb_spec old 0); [lia|].
  exists (TK.mkSpec (TK.issued a1) (TK.live a1) (TK.held a1) (<[(t, k) := ptr]> (TK.vals a1))). destruct HI1 as [K1 K2 K3 K4 K5 K6 K7 K8 K9 K10 K11].
  set (s2 := if ptr =? 0 then set_keys (TK.thread_setspecific (keys s1) t k ptr).2 s1 else push_ptr ptr (set_keys (TK.thread_setspecific (keys s1) t k ptr).2 s1)).
  assert (ptrs s2 = ptrs s1 ++ (if ptr =? 0 then [] else [ptr])) as Ep by (unfold s2; destruct (ptr =? 0); cbn; [by rewrite app_nil_r|done]).
  assert (keys s2 = (TK.thread_setspecific (keys s1) t k ptr).2 /\ deleted s2 = deleted s1 /\ next s2 = next s1 /\ del s2 = del s1) as (Ek & Ed & En & Edl) by (unfold s2; by destruct (ptr =? 0)).
  split; cbn [delete_obj set_keys keys ptrs deleted next del TK.held TK.live TK.vals]; rewrite ?Ek, ?Ep, ?Ed, ?En, ?Edl, ?set_infos; try done.
  - intros t' x [[_ <-]|[Ht' Hx]]%lookup_insert_Some Hx0.
    + apply list_elem_of_filter. split; [done|]. destruct (Z.eqb_spec ptr 0); set_solver.
    + apply list_elem_of_filter. split; [intros ->; apply Ht'; f_equal; by eapply K7|]. apply elem_of_app. left. by eapply K6.
  - assert (forall t2, TK.vals a1 !! (t2, k) = Some ptr -> ptr <> 0 -> False) as HX.
    { intros t2 Hx Hx0. destruct HL as [[? _]|[_ ->]]; [done|]. apply (Hd ptr); [by eapply K6|set_solver]. }
    intros t1 t2 x [[[= <-] <-]|[_ Hx]]%lookup_insert_Some [[[= <-] Ex]|[_ Hx']]%lookup_insert_Some Hx0; [done|by destruct (HX t2)|subst x; by destruct (HX t1)|by eapply K7].
  - rewrite <- K8. apply elem_of_Permutation in Hin as [l Hl]. rewrite Hl, filter_app, filter_cons, decide_False by auto. rewrite Hl in Hnd. apply NoDup_cons in Hnd as [Hni _].
    assert (filter (fun p => p <> old) l = l) as -> by (clear -Hni; induction l as [|z l IH]; [done|]; apply not_elem_of_cons in Hni as [H1 H2]; rewrite filter_cons, decide_True by congruence; by rewrite IH).
    destruct HL as [[-> ->]|[Hp ->]]; [cbn; solve_Permutation|]. destruct (Z.eqb_spec ptr 0); [done|]. rewrite filter_cons, decide_True by done. cbn. solve_Permutation.
Qed.
Lemma exit_calls_dtor ks l c d x : TK.exit_calls ks l = Some c -> (d, x) ∈ c -> exists id i, ks !! id = Some i /\ TK.dtor i = Some d.
Proof.
  revert ks c. induction l as [|e l IH]; intros ks c; [destruct ks; cbn; intros [= <-]; by intros ?%not_elem_of_nil|]. destruct ks as [|i ks]; [done|]. cbn [TK.exit_calls]. destruct (TK.exit_calls ks l) as [r|] eqn:E; [|done]. cbn [mbind option_bind]. intros [= <-] Hin.
  assert ((d, x) ∈ r \/ TK.dtor i = Some d) as [Hr|Hd].
  { destruct (TK.dtor i) as [d'|]; [|by left]. destruct (TK.KEY_UNUSED _); [by left|]. apply elem_of_cons in Hin as [[= -> _]|]; auto. }
  - destruct (IH ks r E Hr) as (id & j & Hj & Hd). by exists (Datatypes.S id), j.
  - by exists 0%nat, i.
Qed.
Lemma tl_exit_inv nt nv N s a k t : inv nt nv [] N s a k -> N < TK.InvalidID -> (t < nt)%nat -> exists s' a', thread_exit s t = Some s' /\ inv nt nv [] N s' a' k.
Proof.
  intros HI HN Ht. destruct HI as [K1 K2 K3 K4 K5 K6 K7 K8 K9 K10 K11]. destruct (TK.keys_exit_inv N (keys s) a t K1 HN ltac:(lia)) as (c & s' & E & Hs & HI' & Ev & El). unfold thread_exit. rewrite E. cbn [mbind option_bind fst snd].
  assert (TK.g_thread_keys s' = TK.g_thread_keys (keys s) /\ forall d x, (d, x) ∈ c -> d <> DefaultDtor) as [Eg Hc].
  { unfold TK.DestroyTlsData in E. destruct (mjoin _) as [l|]; [|injection E as <- <-; split; [done|by intros d x ?%not_elem_of_nil]]. destruct (TK.exit_calls _ l) as [c'|] eqn:Ec; [|done]. cbn [mbind option_bind] in E. injection E as <- <-. split; [done|].
    intros d x Hin ->. destruct (exit_calls_dtor _ _ _ _ _ Ec Hin) as (id & i & Hi & Hd). by destruct (K10 id i Hi). }
  assert (forall u, foldl (fun s (c : nat * Z) => if (c.1 =? DefaultDtor)%nat && negb (c.2 =? 0) then delete_obj c.2 s else s) u c = u) as ->.
  { clear -Hc. induction c as [|[d x] c IH]; intros u; [done|]. cbn [foldl fst snd]. destruct (Nat.eqb_spec d DefaultDtor) as [->|]; [destruct (Hc DefaultDtor x); [set_solver|done]|]. cbn [andb]. apply IH. intros d' x' Hin. apply (Hc d' x'). set_solver. }
  exists (set_keys s' s), (TK.spec_exit a t). split; [done|]. assert (forall t' x, TK.vals (TK.spec_exit a t) !! (t', k) = Some x -> TK.vals a !! (t', k) = Some x) as HV by (intros t' x Hx; cbn in Hx; by apply map_lookup_filter_Some in Hx as [Hx _]).
  split; cbn [set_keys keys ptrs deleted next del]; try done; [congruence|congruence|by intros; eapply K6; eauto|intros t1 t2 x H1 H2; by eapply K7; eauto|by rewrite Eg].
Qed.
Lemma create_dtors s v d s' r : TK.thread_key_create s v d = (r, s') -> d <> Some DefaultDtor -> (forall id i, TK.g_thread_keys s !! id = Some i -> TK.dtor i <> Some DefaultDtor) -> forall id i, TK.g_thread_keys s' !! id = Some i -> TK.dtor i <> Some DefaultDtor.
Proof.
  unfold TK.thread_key_create. intros E Hd H. destruct (TK.take_id s) as [[j s1]|] eqn:Et; [|injection E as <- <-; done]. injection E as <- <-. cbn.
  assert (forall id i, TK.g_thread_keys s1 !! id = Some i -> TK.dtor i <> Some DefaultDtor) as H1.
  { unfold TK.take_id in Et. destruct (last _); [by injection Et as <- <-|]. destruct (_ <=? _); [done|]. injection Et as <- <-. cbn. intros id i. unfold TK.resize. intros [Hi|[_ Hi]]%lookup_app_Some; [apply lookup_take_Some in Hi as [Hi _]; by eapply H|]. by apply lookup_replicate in Hi as [-> _]. }
  intros id i [(_ & <- & _)|[_ Hi]]%list_lookup_insert_Some; [done|by eapply H1].
Qed.
Lemma delete_dtors s v k : (forall id i, TK.g_thread_keys s !! id = Some i -> TK.dtor i <> Some DefaultDtor) -> forall id i, TK.g_thread_keys (TK.thread_key_delete s v k).2 !! id = Some i -> TK.dtor i <> Some DefaultDtor.
Proof.
  intros H. unfold TK.thread_key_delete. destruct (negb _); [done|]. destruct (at_ _ _) as [j|] eqn:Ej; [|done]. destruct (_ || _); [done|].
  intros id i Hi. assert (<[Z.to_nat (TK._id k) := TK.mkInfo (u64 (TK.seq j + 1)) (TK.dtor j)]> (TK.g_thread_keys s) !! id = Some i) as [(_ & <- & _)|[_ Hx]]%list_lookup_insert_Some by (revert Hi; by destruct (TK.KEY_USABLE _)); [exact (H _ _ Ej)|by eapply H].
Qed.
(** A call on another key leaves this key and its objects alone. *)
Lemma tl_other_inv nt nv N s a k c : inv nt nv [] N s a k -> N + 1 < TK.InvalidID -> TK.in_range nt nv c -> other c = true -> exists r s' a', TK.do_call (keys s) c = Some (r, s') /\ inv nt nv [] (N + 1) (set_keys s' s) a' k.
Proof.
  intros HI HN HR Ho. destruct HI as [K1 K2 K3 K4 K5 K6 K7 K8 K9 K10 K11]. destruct (TK.call_refines N (keys s) a nt nv c K1 HN K2 K3 HR) as (r & s' & a' & E & Hs & HI' & L1 & L2). exists r, s', a'. split; [done|].
  assert (k ∈ TK.issued a) as Hki by (by destruct (TK.i_live _ _ _ K1 k _ K5)).
  assert (TK.held a' !! 0%nat = Some (Some k) /\ TK.live a' !! k = Some None /\ forall t, TK.vals a' !! (t, k) = TK.vals a !! (t, k)) as (M1 & M2 & M3).
  { destruct c as [v d|v|t v x|t v|v w|t]; cbn [other] in Ho; rewrite ?andb_true_iff, ?negb_true_iff, ?Nat.eqb_neq in Ho; destruct r; cbn in Hs; try done.
    - destruct Ho as [Hv _]. destruct Hs as [Hf ->]. cbn. split_and!; [by rewrite list_lookup_insert_ne|rewrite lookup_insert_ne; [done|by intros ->]|done].
    - destruct (TK.held a !! v) as [[k'|]|] eqn:Eh; [|by destruct Hs as [_ ->]|done]. destruct Hs as [_ ->]. cbn. split_and!; [by rewrite list_lookup_insert_ne| |done]. rewrite lookup_delete_ne; [done|]. intros ->. destruct Ho. by apply (TK.i_uniq _ _ _ K1 v 0%nat k).
    - destruct (TK.held a !! v) as [[k'|]|] eqn:Eh; [|by destruct Hs as [_ ->]|done]. destruct Hs as [_ ->]. cbn. split_and!; [done..|]. intros t'. rewrite lookup_insert_ne; [done|]. intros [= _ ->]. destruct Ho. by apply (TK.i_uniq _ _ _ K1 v 0%nat k).
    - destruct (TK.held a !! v) as [[k'|]|] eqn:Eh; [by destruct Hs as [_ ->]|by destruct Hs as [_ ->]|done].
    - destruct Ho as [Hv Hw]. destruct Hs as (h & Hh & ->). destruct (v =? w)%nat; [done|]. cbn. split_and!; [|done..]. by rewrite !list_lookup_insert_ne by done. }
  assert (forall id i, TK.g_thread_keys s' !! id = Some i -> TK.dtor i <> Some DefaultDtor) as HD.
  { destruct c as [v d|v|t v x|t v|v w|t]; cbn [TK.do_call other] in E, Ho; [..|done].
    - destruct (TK.vars (keys s) !! v); [|done]. cbn [mbind option_bind] in E. injection E as _ <-. rewrite andb_true_iff, !negb_true_iff, bool_decide_eq_false in Ho. eapply (create_dtors (keys s) v d); [apply surjective_pairing|apply Ho|done].
    - destruct (TK.vars (keys s) !! v) as [k'|]; [|done]. cbn [mbind option_bind] in E. injection E as _ <-. by apply delete_dtors.
    - destruct (TK.vars (keys s) !! v), (TK.tls (keys s) !! t); try done. cbn [mbind option_bind] in E. injection E as _ <-. by rewrite set_infos.
    - destruct (TK.vars (keys s) !! v), (TK.tls (keys s) !! t); try done. cbn [mbind option_bind] in E. by injection E as _ <-.
    - destruct (TK.vars (keys s) !! v), (TK.vars (keys s) !! w); try done. cbn [mbind option_bind] in E. injection E as _ <-. by destruct (v =? w)%nat. }
  split; cbn [set_keys keys ptrs deleted next del]; try done; [intros t x; rewrite M3; apply K6|intros t t' x; rewrite !M3; apply K7].
Qed.
Lemma tl_call_inv nt nv N s a k c : inv nt nv [] N s a k -> N + 1 < TK.InvalidID -> in_range nt nv c -> exists s' a', do_call s c = Some s' /\ inv nt nv [] (N + 1) s' a' k.
Proof.
  intros HI HN HR. assert (inv nt nv [] (N + 1) s a k) as HI1 by (destruct HI; split; try done; eapply TK.inv_more; [done|lia]).
  destruct c as [t|t|t|t|c]; cbn [do_call in_range] in *.
  - destruct (tl_get_inv _ _ _ _ _ _ _ t HI1 HN HR) as (a' & H & _). eauto.
  - destruct (tl_reset_inv _ _ _ [] _ _ _ _ t 0 HI1 HN HR ltac:(by left)) as (a' & H). eauto.
  - assert (inv nt nv [next s] (N + 1) (new_obj s).2 a k) as HI2.
    { destruct HI1 as [K1 K2 K3 K4 K5 K6 K7 K8 K9 K10 K11]. split; cbn [new_obj snd keys ptrs deleted next del]; try done; [|lia]. rewrite seqZ_snoc by done. rewrite <- K8, app_nil_r. by rewrite app_assoc. }
    destruct (tl_reset_inv nt nv [next s] [] (N + 1) _ a k t (next s) HI2 HN HR) as (a' & H); [right; pose proof (i_next _ _ _ _ _ _ _ HI); split; [lia|done]|]. eexists _, a'. split; [done|exact H].
  - destruct (tl_exit_inv _ _ _ _ _ _ t HI1 HN HR) as (s' & a' & E & H). eauto.
  - destruct HR as [HR Ho]. destruct (tl_other_inv _ _ _ _ _ _ c HI HN HR Ho) as (r & s' & a' & E & H). rewrite E. cbn [mbind option_bind snd]. eauto.
Qed.
Lemma tl_init_inv nt nv : (0 < nv)%nat -> exists a k, inv nt nv [] 1 (ThreadLocal nt nv false) a k.
Proof.
  intros Hv. destruct (TK.key_create_inv 0 (TK.init nt nv) (TK.spec_init nv) 0 None (TK.keys_init_inv nt nv) eq_refl) as (k & s' & E & Ek & _ & HI); [cbn; by rewrite length_replicate|]. eexists _, k. pose proof (TK.create_shape (TK.init nt nv) 0 None) as [L1 L2].
  unfold ThreadLocal. rewrite E in *. cbn [snd] in *. cbn in L1, L2. rewrite !length_replicate in *. split; cbn [keys ptrs deleted next del TK.held TK.live TK.vals]; try done.
  - destruct nv; [lia|done].
  - apply lookup_insert_eq.
  - eapply create_dtors; [exact E|done|]. intros id i Hi. by destruct id.
Qed.
(** C0: A [ThreadLocal] that keeps its objects until it is destroyed owns each of
    them: after any calls of any threads, on it and on other keys, a thread gets
    one object, always the same, no two threads get the same, no object is deleted
    twice or while a thread can get it, and its destructor deletes all that are left. *)
Theorem thread_local_owns nt nv l : (0 < nv)%nat -> Forall (in_range nt nv) l -> Z.of_nat (length l) + 2 < TK.InvalidID ->
  exists s, run l (ThreadLocal nt nv false) = Some s /\ NoDup (ptrs s ++ deleted s) /\ deleted (destroy s) ≡ₚ seqZ 1 (next s - 1) /\
  (forall t, (t < nt)%nat -> let r := get s t in r.1 ∈ ptrs r.2 /\ (get r.2 t).1 = r.1 /\ forall t', (t' < nt)%nat -> t' <> t -> (get r.2 t').1 <> r.1).
Proof.
  intros Hv HF HN. destruct (tl_init_inv nt nv Hv) as (a0 & k & HI0). assert (exists s a, run l (ThreadLocal nt nv false) = Some s /\ inv nt nv [] (1 + Z.of_nat (length l)) s a k) as (s & a & E & HI).
  { revert HI0. generalize (ThreadLocal nt nv false) as s, a0 as a. assert (1 + Z.of_nat (length l) < TK.InvalidID) as HN' by lia. revert HN'. clear HN. generalize 1 as N. induction l as [|c l IH]; intros N HN s a HI; cbn [run length] in *; [exists s, a; by replace (N + Z.of_nat 0) with N by lia|].
    apply Forall_cons in HF as [Hc HF]. destruct (tl_call_inv nt nv N s a k c HI ltac:(lia) Hc) as (s1 & a1 & -> & HI1). cbn [mbind option_bind]. destruct (IH HF (N + 1) ltac:(lia) s1 a1 HI1) as (s' & a' & E & HI'). exists s', a'. split; [done|]. by replace (N + Z.of_nat (Datatypes.S (length l))) with (N + 1 + Z.of_nat (length l)) by lia. }
  pose proof (i_objs _ _ _ _ _ _ _ HI) as HP. rewrite app_nil_r in HP. exists s. split; [done|]. split_and!; [rewrite HP; apply NoDup_seqZ| |].
  - unfold destroy. cbn [set_keys del ptrs]. rewrite (i_del _ _ _ _ _ _ _ HI), <- HP. assert (forall q u, deleted (foldl (fun s p => delete_obj p s) u q) = deleted u ++ q) as -> by (induction q as [|p q IH]; intros u; cbn [foldl]; [by rewrite app_nil_r|rewrite IH; cbn; by rewrite <- app_assoc]).
    cbn. solve_Permutation.
  - intros t Ht. cbn zeta. destruct (tl_get_inv _ _ _ _ _ _ _ t HI ltac:(lia) Ht) as (a1 & HI1 & Hg & Hr & _). split_and!; [eapply i_mine; [exact HI1|exact Hg|lia]| |].
    + destruct (tl_get_inv _ _ _ _ _ _ _ t HI1 ltac:(lia) Ht) as (a2 & HI2 & Hg2 & _). unfold get at 1. rewrite (inv_my_key _ _ _ _ _ _ _ HI1), (inv_found _ _ _ _ _ _ _ t HI1 ltac:(lia)), Hg. cbn [from_option id]. by destruct (Z.eqb_spec (get s t).1 0); [lia|].
    + intros t' Ht' Hne Eq. destruct (tl_get_inv _ _ _ _ _ _ _ t' HI1 ltac:(lia) Ht') as (a2 & HI2 & Hg2 & _ & Hk). apply Hne. eapply (i_diff _ _ _ _ _ _ _ HI2); [exact Hg2|rewrite Eq, Hk by done; exact Hg|lia].
Qed.
Definition tl_calls : list call := [Get 0; Other (TK.Create 1 None); Get 1; ResetNew 0; Exit 1; Reset 0; Get 1; Other (TK.Delete 1)].
Lemma thread_local_owns_witness : exists s, run tl_calls (ThreadLocal 2 2 false) = Some s /\ deleted (destroy s) ≡ₚ seqZ 1 (next s - 1) /\ next s = 5.
Proof.
  destruct (thread_local_owns 2 2 tl_calls ltac:(lia) ltac:(repeat constructor) eq_refl) as (s & E & _ & Hd & _). exists s. split; [done|]. split; [done|]. vm_compute in E. by injection E as <-.
Defined.

(** With [_delete_on_thread_exit] the list of objects keeps those of threads that
    have exited, and [for_each] passes them to its callback; *)
Lemma for_each_deleted : exists s, run [Get 0; Get 1; Exit 0] (ThreadLocal 2 1 true) = Some s /\ for_each s = [1; 2] /\ deleted s = [1].
Proof. eexists. split; [vm_compute; reflexivity|done]. Qed.
(** and the destructor leaves the objects of running threads to nobody. *)
Lemma destroy_leaks : exists s, run [Get 0] (ThreadLocal 1 1 true) = Some s /\ next s = 2 /\ exists s', thread_exit (destroy s) 0 = Some s' /\ deleted s' = [].
Proof. eexists. split; [vm_compute; reflexivity|]. split; [done|]. eexists. split; [vm_compute; reflexivity|done]. Qed.

End TL.

(** ** Functions called at the exit of a thread (thread_local.cpp) *)

Module TE.

(** A function and its argument. *)
Abbreviation Pair := (nat * Z)%type.
Inductive op := Add (p : Pair) | Remove (p : Pair).
Definition add (fns : list Pair) (p : Pair) : list Pair := fns ++ [p].
Fixpoint skip_equal (p : Pair) (l : list Pair) : list Pair :=
  match l with [] => [] | q :: l' => if bool_decide (q = p) then skip_equal p l' else l end.
(** The first match and the equal ones that follow it directly. *)
Fixpoint remove (p : Pair) (l : list Pair) : list Pair :=
  match l with [] => [] | q :: l' => if bool_decide (q = p) then skip_equal p l' else q :: remove p l' end.
Definition apply (fns : list Pair) (o : op) : list Pair := match o with Add p => add fns p | Remove p => remove p fns end.

(** [effect] says what a function registers and cancels. *)
Section Helper.
Context (effect : Pair -> list op).
(** The destructor of ThreadExitHelper; the calls in order. *)
Fixpoint run_helper (fuel : nat) (fns : list Pair) : option (list Pair) :=
  match last fns with
  | None => Some []
  | Some back =>
      match fuel with
      | 0%nat => None
      | Datatypes.S fuel => calls ← run_helper fuel (foldl apply (removelast fns) (effect back)); Some (back :: calls)
      end
  end.

Context (cost : Pair -> nat).
Definition added (p : Pair) : nat := sum_list_with (fun o => match o with Add q => cost q | Remove _ => 0%nat end) (effect p).
Lemma skip_equal_le p l : (sum_list_with cost (skip_equal p l) <= sum_list_with cost l)%nat.
Proof. induction l as [|q l IH]; cbn; [done|]. case_bool_decide; cbn; lia. Qed.
Lemma remove_le p l : (sum_list_with cost (remove p l) <= sum_list_with cost l)%nat.
Proof. induction l as [|q l IH]; cbn; [done|]. case_bool_decide; cbn; [pose proof (skip_equal_le p l); lia|lia]. Qed.
Lemma apply_le os : forall fns, (sum_list_with cost (foldl apply fns os) <= sum_list_with cost fns + sum_list_with (fun o => match o with Add q => cost q | Remove _ => 0%nat end) os)%nat.
Proof.
  induction os as [|o os IH]; intros fns; cbn [foldl sum_list_with]; [lia|]. specialize (IH (apply fns o)). destruct o as [p|p]; cbn [apply] in *; [unfold add in *; rewrite sum_list_with_app in IH; cbn in IH; lia|pose proof (remove_le p fns); lia].
Qed.
Lemma removelast_split (fns : list Pair) p : last fns = Some p -> fns = removelast fns ++ [p].
Proof. intros [l ->]%last_Some. by rewrite removelast_last. Qed.
(** C0: The functions registered for the exit of a thread are all called and the
    loop ends, also when functions register and cancel others, as long as what a
    function registers costs less than itself; functions that do neither are
    called in the reverse order of their registration. *)
Theorem thread_atexit_terminates fns : (forall p, (added p < cost p)%nat) ->
  (exists calls, run_helper (sum_list_with cost fns) fns = Some calls) /\
  ((forall p, p ∈ fns -> effect p = []) -> run_helper (sum_list_with cost fns) fns = Some (reverse fns)).
Proof.
  intros Hc. assert (forall fuel fns, (sum_list_with cost fns <= fuel)%nat -> exists calls, run_helper fuel fns = Some calls /\ ((forall p, p ∈ fns -> effect p = []) -> calls = reverse fns)) as H.
  { induction fuel as [|fuel IH]; intros l Hl; cbn [run_helper]; (destruct (last l) as [p|] eqn:E; [|apply last_None in E as ->; by exists []]); pose proof (removelast_split l p E) as El; rewrite El, sum_list_with_app in Hl; cbn in Hl; specialize (Hc p); [lia|].
    destruct (IH (foldl apply (removelast l) (effect p))) as (calls & -> & Hr). { pose proof (apply_le (effect p) (removelast l)). unfold added in Hc. lia. }
    cbn [mbind option_bind]. eexists. split; [done|]. intros He. rewrite El, reverse_snoc. f_equal. assert (effect p = []) as Ep by (apply He; rewrite El; set_solver). rewrite Ep in Hr. apply Hr. intros q Hq. apply He. rewrite El. set_solver. }
  destruct (H (sum_list_with cost fns) fns (le_n _)) as (calls & E & Hr). split; [by exists calls|]. intros He. rewrite E. by rewrite (Hr He).
Qed.
End Helper.
Definition sample_effect (p : nat * Z) : list op := match p.1 with 5%nat => [Add (1%nat, p.2); Remove (2%nat, 0)] | _ => [] end.
Lemma thread_atexit_terminates_witness : run_helper sample_effect 4 [(2%nat, 0); (5%nat, 7)] = Some [(5%nat, 7); (1%nat, 7)] /\
  exists calls, run_helper sample_effect (sum_list_with (fun p => if (p.1 =? 5)%nat then 2%nat else 1%nat) [(2%nat, 0); (5%nat, 7)]) [(2%nat, 0); (5%nat, 7)] = Some calls.
Proof.
  split; [reflexivity|]. apply (thread_atexit_terminates sample_effect (fun p => if (p.1 =? 5)%nat then 2%nat else 1%nat) [(2%nat, 0); (5%nat, 7)]).
  intros [f x]. unfold added, sample_effect. cbn [fst snd]. by destruct f as [|[|[|[|[|[|f]]]]]]; cbn; lia.
Defined.
(** Cancelling removes the first match and its neighbours only: a function that is
    registered again after another one is still called. *)
Lemma cancel_leaves_matches : remove (1%nat, 0) [(1%nat, 0); (2%nat, 0); (1%nat, 0)] = [(2%nat, 0); (1%nat, 0)].
Proof. reflexivity. Qed.

End TE.
