(* ===== verification/BthreadKey.v ===== *)
(** * Thread-specific data of bthreads (src/src-bthread/key.cpp)

    Keys, the two-level tables of values and the destruction of a table; the pool
    of tables is in [KeyPool].  Memory is obtained or not ([alloc]) where the code
    looks at the outcome. *)
From S2P Require Import Prelude.

(** ** Keys and tables *)

Module KT.

(** The outcome of a CHECK that fails: the process ends. *)
Definition ABORT : Z := -1.
Definition EAGAIN : Z := 11.
Definition ENOMEM : Z := 12.
Definition KEY_2NDLEVEL_SIZE : Z := 32.
Definition KEY_1STLEVEL_SIZE : Z := 31.
Definition KEYS_MAX : Z := KEY_2NDLEVEL_SIZE * KEY_1STLEVEL_SIZE.
Definition PTHREAD_DESTRUCTOR_ITERATIONS : nat := 4.
(** A destructor is named by a number, data are pointers and 0 is NULL. *)
Record KeyInfo := mkInfo { iversion : Z; dtor : option nat; dtor_args : Z }.
Record bthread_key_t := mkKey { index : Z; version : Z }.
Record Data := mkData { dversion : Z; ptr : Z }.
Abbreviation SubKeyTable := (list Data).
Definition new_SubKeyTable : SubKeyTable := replicate (Z.to_nat KEY_2NDLEVEL_SIZE) (mkData 0 0).
Abbreviation KeyTable := (list (option SubKeyTable)).
Definition new_KeyTable : KeyTable := replicate (Z.to_nat KEY_1STLEVEL_SIZE) None.

Definition sub_get_data (st : SubKeyTable) (i v : Z) : Z := match at_ st i with Some d => if dversion d =? v then ptr d else 0 | None => 0 end.
Definition sub_set_data (st : SubKeyTable) (i v x : Z) : SubKeyTable := <[Z.to_nat i := mkData v x]> st.
Definition get_data (kt : KeyTable) (k : bthread_key_t) : Z :=
  let subidx := index k / KEY_2NDLEVEL_SIZE in
  if subidx <? KEY_1STLEVEL_SIZE then
    match at_ kt subidx with
    | Some (Some st) => sub_get_data st (index k - subidx * KEY_2NDLEVEL_SIZE) (version k)
    | _ => 0
    end
  else 0.
Definition set_data (infos : list KeyInfo) (kt : KeyTable) (k : bthread_key_t) (x : Z) (alloc : bool) : Z * KeyTable :=
  let subidx := index k / KEY_2NDLEVEL_SIZE in
  if (subidx <? KEY_1STLEVEL_SIZE) && match at_ infos (index k) with Some i => version k =? iversion i | None => false end then
    match at_ kt subidx with
    | Some None =>
        if alloc then (0, <[Z.to_nat subidx := Some (sub_set_data new_SubKeyTable (index k - subidx * KEY_2NDLEVEL_SIZE) (version k) x)]> kt) else (ENOMEM, kt)
    | Some (Some st) => (0, <[Z.to_nat subidx := Some (sub_set_data st (index k - subidx * KEY_2NDLEVEL_SIZE) (version k) x)]> kt)
    | None => (ABORT, kt)
    end
  else (ABORT, kt).

(** [handles] are the keys that [bthread_key_create] has returned, in order,
    [tables] all tables that were ever made, [own] the table that a bthread or pthread
    has in its local storage, and [pool] the tables that may be borrowed ([KeyPool] says
    which one is). *)
Record S := mkS { s_key_info : list KeyInfo; nfreekey : Z; nkey : Z; s_free_keys : list Z; handles : list bthread_key_t; tables : list KeyTable; own : gmap nat nat; pool : gset nat }.
Definition take_index (s : S) : option (Z * S) :=
  if 0 <? nfreekey s then
    i ← at_ (s_free_keys s) (nfreekey s - 1); Some (i, mkS (s_key_info s) (nfreekey s - 1) (nkey s) (s_free_keys s) (handles s) (tables s) (own s) (pool s))
  else if nkey s <? KEYS_MAX then Some (nkey s, mkS (s_key_info s) (nfreekey s) (nkey s + 1) (s_free_keys s) (handles s) (tables s) (own s) (pool s))
  else None.
Definition set_info (i : Z) (x : KeyInfo) (s : S) : S := mkS (<[Z.to_nat i := x]> (s_key_info s)) (nfreekey s) (nkey s) (s_free_keys s) (handles s) (tables s) (own s) (pool s).
(** What follows the critical section is about the slot that the caller has got. *)
Definition bthread_key_create2 (s : S) (d : option nat) (args : Z) : Z * S :=
  match take_index s with
  | None => (EAGAIN, s)
  | Some (i, s) =>
      let v := from_option iversion 0 (at_ (s_key_info s) i) in
      let v := if v =? 0 then v + 1 else v in
      let s := set_info i (mkInfo v d args) s in
      (0, mkS (s_key_info s) (nfreekey s) (nkey s) (s_free_keys s) (handles s ++ [mkKey i v]) (tables s) (own s) (pool s))
  end.
Definition bthread_key_delete (s : S) (k : bthread_key_t) : Z * S :=
  match at_ (s_key_info s) (index k) with
  | Some i =>
      if (index k <? KEYS_MAX) && (version k =? iversion i) then
        let v := u32 (iversion i + 1) in
        let v := if v =? 0 then v + 1 else v in
        let s := set_info (index k) (mkInfo v None 0) s in
        (0, mkS (s_key_info s) (nfreekey s + 1) (nkey s) (<[Z.to_nat (nfreekey s) := index k]> (s_free_keys s)) (handles s) (tables s) (own s) (pool s))
      else (ABORT, s)
  | None => (ABORT, s)
  end.
(** [KeyTable::set_data] and [get_data] of the table [T]. *)
Definition store (s : S) (T : nat) (k : bthread_key_t) (x : Z) (alloc : bool) : Z * S :=
  match tables s !! T with
  | Some kt => let r := set_data (s_key_info s) kt k x alloc in (r.1, mkS (s_key_info s) (nfreekey s) (nkey s) (s_free_keys s) (handles s) (<[T := r.2]> (tables s)) (own s) (pool s))
  | None => (ABORT, s)
  end.
Definition load (s : S) (T : nat) (k : bthread_key_t) : Z := match tables s !! T with Some kt => get_data kt k | None => 0 end.
Definition make_table (s : S) (t : nat) : S := mkS (s_key_info s) (nfreekey s) (nkey s) (s_free_keys s) (handles s) (tables s ++ [new_KeyTable]) (<[t := length (tables s)]> (own s)) (pool s).
(** [alloc_kt]: whether there is memory for a table, [alloc]: for its second level. *)
Definition bthread_setspecific (s : S) (t : nat) (k : bthread_key_t) (x : Z) (alloc_kt alloc : bool) : Z * S :=
  match own s !! t with
  | Some T => store s T k x alloc
  | None => if alloc_kt then store (make_table s t) (length (tables s)) k x alloc else (ENOMEM, s)
  end.
Definition take_table (s : S) (t T : nat) : S := mkS (s_key_info s) (nfreekey s) (nkey s) (s_free_keys s) (handles s) (tables s) (<[t := T]> (own s)) (pool s ∖ {[T]}).
(** [b]: the table that [borrow_keytable] finds; [None] also for a pthread that is no
    worker. *)
Definition bthread_getspecific (s : S) (t : nat) (k : bthread_key_t) (b : option nat) : Z * S :=
  match own s !! t with
  | Some T => (load s T k, s)
  | None => match b with Some T => if bool_decide (T ∈ pool s) then (load s T k, take_table s t T) else (0, s) | None => (0, s) end
  end.
(** The end of a bthread or pthread: [return_keytable] puts the table into the pool
    ([keep]) or deletes it. *)
Definition end_thread (s : S) (t : nat) (keep : bool) : S :=
  match own s !! t with
  | Some T => mkS (s_key_info s) (nfreekey s) (nkey s) (s_free_keys s) (handles s) (tables s) (delete t (own s)) (if keep then {[T]} ∪ pool s else pool s)
  | None => s
  end.

(** Calls of thread [t] with the [n]-th key that was created. *)
Inductive call := Create (d : option nat) (args : Z) | Delete (n : nat) | Set_ (t n : nat) (x : Z) (alloc_kt alloc : bool) | Get (t n : nat) (b : option nat) | End_ (t : nat) (keep : bool).
(** A call with a key that does not exist yet does nothing. *)
Definition NOKEY : Z := -2.
Definition with_key (s : S) (n : nat) (f : bthread_key_t -> Z * S) : Z * S := match handles s !! n with Some k => f k | None => (NOKEY, s) end.
Definition do_call (s : S) (c : call) : Z * S :=
  match c with
  | Create d args => bthread_key_create2 s d args
  | Delete n => with_key s n (bthread_key_delete s)
  | Set_ t n x alloc_kt alloc => with_key s n (fun k => bthread_setspecific s t k x alloc_kt alloc)
  | Get t n b => with_key s n (fun k => bthread_getspecific s t k b)
  | End_ t keep => (0, end_thread s t keep)
  end.
Definition init : S := mkS (replicate (Z.to_nat KEYS_MAX) (mkInfo 0 None 0)) 0 0 (replicate (Z.to_nat KEYS_MAX) 0) [] [] ∅ ∅.
(** Nothing follows an abort. *)
Fixpoint run (l : list call) (s : S) : list Z * S :=
  match l with
  | [] => ([], s)
  | c :: l => let r := do_call s c in if r.1 =? ABORT then ([ABORT], r.2) else let r' := run l r.2 in (r.1 :: r'.1, r'.2)
  end.

(** *** What keys promise *)

(** Keys are numbered in the order of their creation, tables too; a table has for
    each key what was last stored there.  A thread has at most one table, from its
    first store on, or from a first reading that borrows one. *)
Record Spec := mkSpec { count : nat; live : gset nat; vals : gmap (nat * nat) Z; ntable : nat; has : gmap nat nat; unused : gset nat }.
(** The thread [t] has the table [T]; which tables there are and may be borrowed. *)
Definition gives (a : Spec) (t T : nat) (U : gset nat) (m : nat) : Spec := mkSpec (count a) (live a) (vals a) m (<[t := T]> (has a)) U.
Definition stored (a : Spec) (T n : nat) (x : Z) (alloc : bool) (r : Z) (a' : Spec) : Prop :=
  if decide (n ∈ live a) then (r = 0 /\ a' = mkSpec (count a) (live a) (<[(T, n) := x]> (vals a)) (ntable a) (has a) (unused a)) \/ (r = ENOMEM /\ alloc = false /\ a' = a)
  else r = ABORT /\ a' = a.
(** A key that was deleted gives what was stored or NULL. *)
Definition loaded (a : Spec) (T n : nat) (r : Z) : Prop := r = default 0 (vals a !! (T, n)) \/ ((n ∉ live a) /\ r = 0).
Definition spec_call (a : Spec) (c : call) (r : Z) (a' : Spec) : Prop :=
  match c with
  | Create _ _ => if decide (Z.of_nat (size (live a)) < KEYS_MAX) then (r = 0 /\ a' = mkSpec (Datatypes.S (count a)) ({[count a]} ∪ live a) (vals a) (ntable a) (has a) (unused a)) else (r = EAGAIN /\ a' = a)
  | Delete n => if decide (n ∈ live a) then r = 0 /\ a' = mkSpec (count a) (live a ∖ {[n]}) (vals a) (ntable a) (has a) (unused a) else r = ABORT /\ a' = a
  | Set_ t n x alloc_kt alloc =>
      match has a !! t with
      | Some T => stored a T n x alloc r a'
      | None => if alloc_kt then stored (gives a t (ntable a) (unused a) (Datatypes.S (ntable a))) (ntable a) n x alloc r a' else r = ENOMEM /\ a' = a
      end
  | Get t n b =>
      match has a !! t, b with
      | Some T, _ => loaded a T n r /\ a' = a
      | None, Some T => if decide (T ∈ unused a) then loaded a T n r /\ a' = gives a t T (unused a ∖ {[T]}) (ntable a) else r = 0 /\ a' = a
      | None, None => r = 0 /\ a' = a
      end
  | End_ t keep => r = 0 /\ a' = match has a !! t with Some T => mkSpec (count a) (live a) (vals a) (ntable a) (delete t (has a)) (if keep then {[T]} ∪ unused a else unused a) | None => a end
  end.
Definition key_exists (a : Spec) (c : call) : Prop := match c with Create _ _ | End_ _ _ => True | Delete n | Set_ _ n _ _ _ | Get _ n _ => (n < count a)%nat end.
Definition spec_step (a : Spec) (c : call) (r : Z) (a' : Spec) : Prop := (key_exists a c /\ spec_call a c r a') \/ (~ key_exists a c /\ r = NOKEY /\ a' = a).
(** The results of the calls, and where they lead. *)
Inductive spec_run : Spec -> list call -> list Z -> Spec -> Prop :=
| spec_nil a : spec_run a [] [] a
| spec_abort a c l a' : spec_step a c ABORT a' -> spec_run a (c :: l) [ABORT] a'
| spec_cons a c r a' l rs a'' : spec_step a c r a' -> r <> ABORT -> spec_run a' l rs a'' -> spec_run a (c :: l) (r :: rs) a''.

(** *** Tables *)

Definition wf (kt : KeyTable) : Prop := length kt = Z.to_nat KEY_1STLEVEL_SIZE /\ forall i st, kt !! i = Some (Some st) -> length st = Z.to_nat KEY_2NDLEVEL_SIZE.
(** The cell of index [i], if its second level has been made. *)
Definition cell (kt : KeyTable) (i : Z) : option Data := st ← mjoin (at_ kt (i / KEY_2NDLEVEL_SIZE)); at_ st (i - i / KEY_2NDLEVEL_SIZE * KEY_2NDLEVEL_SIZE).
Lemma div_range i : 0 <= i < KEYS_MAX -> 0 <= i / KEY_2NDLEVEL_SIZE < KEY_1STLEVEL_SIZE /\ 0 <= i - i / KEY_2NDLEVEL_SIZE * KEY_2NDLEVEL_SIZE < KEY_2NDLEVEL_SIZE.
Proof. unfold KEYS_MAX, KEY_2NDLEVEL_SIZE, KEY_1STLEVEL_SIZE. intros H. pose proof (Z.div_mod i 32 ltac:(lia)). pose proof (Z.mod_pos_bound i 32 eq_refl). lia. Qed.
Lemma at_replicate {A} (x : A) n i : 0 <= i < n -> at_ (replicate (Z.to_nat n) x) i = Some x.
Proof. intros H. unfold at_. apply lookup_replicate. split; [done|lia]. Qed.
Lemma get_data_cell kt k : 0 <= index k < KEYS_MAX -> get_data kt k = match cell kt (index k) with Some d => if dversion d =? version k then ptr d else 0 | None => 0 end.
Proof.
  intros H. destruct (div_range _ H) as [H1 H2]. unfold get_data, cell. destruct (Z.ltb_spec (index k / KEY_2NDLEVEL_SIZE) KEY_1STLEVEL_SIZE); [|lia]. destruct (at_ kt _) as [[st|]|]; done.
Qed.
Lemma at_lt {A} (l : list A) i : 0 <= i < Z.of_nat (length l) -> exists x, at_ l i = Some x.
Proof. intros H. apply lookup_lt_is_Some_2. lia. Qed.
Lemma cell_insert kt sub o st j : at_ kt sub = Some o -> 0 <= sub -> 0 <= j < KEYS_MAX -> cell (<[Z.to_nat sub := Some st]> kt) j = if sub =? j / KEY_2NDLEVEL_SIZE then at_ st (j - sub * KEY_2NDLEVEL_SIZE) else cell kt j.
Proof. intros Ho Hs Hj. destruct (div_range _ Hj) as [J1 J2]. unfold cell. rewrite (at_insert _ _ _ _ o) by (done || lia). by destruct (Z.eqb_spec sub (j / KEY_2NDLEVEL_SIZE)) as [<-|]. Qed.
(** The effect of a store, for a key whose version is the one of its slot. *)
Lemma set_data_spec infos kt k x alloc : wf kt -> 0 <= index k < KEYS_MAX -> (exists i, at_ infos (index k) = Some i /\ version k = iversion i) ->
  (set_data infos kt k x alloc = (ENOMEM, kt) /\ alloc = false) \/
  exists kt', set_data infos kt k x alloc = (0, kt') /\ wf kt' /\ cell kt' (index k) = Some (mkData (version k) x) /\
    forall j, 0 <= j < KEYS_MAX -> j <> index k -> cell kt' j = cell kt j \/ (cell kt j = None /\ cell kt' j = Some (mkData 0 0)).
Proof.
  intros [Hl Hw] Hi (i & Hat & Hv). destruct (div_range _ Hi) as [H1 H2]. unfold set_data. set (sub := index k / KEY_2NDLEVEL_SIZE) in *. set (off := index k - sub * KEY_2NDLEVEL_SIZE) in *.
  rewrite Hat, Hv, Z.eqb_refl. destruct (Z.ltb_spec sub KEY_1STLEVEL_SIZE); [|lia]. cbn [andb]. destruct (at_lt kt sub) as [o Ho]; [rewrite Hl; lia|]. rewrite Ho.
  assert (forall st, length st = Z.to_nat KEY_2NDLEVEL_SIZE -> (forall j, 0 <= j < KEYS_MAX -> j / KEY_2NDLEVEL_SIZE = sub -> at_ st (j - sub * KEY_2NDLEVEL_SIZE) = cell kt j \/ (cell kt j = None /\ at_ st (j - sub * KEY_2NDLEVEL_SIZE) = Some (mkData 0 0))) ->
    let kt' := <[Z.to_nat sub := Some (sub_set_data st off (iversion i) x)]> kt in wf kt' /\ cell kt' (index k) = Some (mkData (iversion i) x) /\
    forall j, 0 <= j < KEYS_MAX -> j <> index k -> cell kt' j = cell kt j \/ (cell kt j = None /\ cell kt' j = Some (mkData 0 0))) as HX.
  { intros st Hst Hc kt'. destruct (at_lt st off) as [d0 Hd0]; [rewrite Hst; lia|].
    assert (forall j, 0 <= j < KEYS_MAX -> cell kt' j = if sub =? j / KEY_2NDLEVEL_SIZE then at_ (sub_set_data st off (iversion i) x) (j - sub * KEY_2NDLEVEL_SIZE) else cell kt j) as HC by (intros j Hj; apply (cell_insert _ _ o); done || lia).
    split_and!.
    - split; [unfold kt'; by rewrite length_insert|]. intros n st'. unfold kt'. intros [(_ & [= <-] & _)|[_ Hn]]%list_lookup_insert_Some; [unfold sub_set_data; by rewrite length_insert|by eapply Hw].
    - rewrite HC, Z.eqb_refl by done. fold sub off. unfold sub_set_data. rewrite (at_insert _ _ _ _ d0), Z.eqb_refl by (done || lia). done.
    - intros j Hj Hne. rewrite HC by done. destruct (Z.eqb_spec sub (j / KEY_2NDLEVEL_SIZE)) as [E|]; [|by left]. destruct (div_range _ Hj) as [J1 J2]. rewrite <- E in J2. unfold sub_set_data. rewrite (at_insert _ _ _ _ d0) by (done || lia). destruct (Z.eqb_spec off (j - sub * KEY_2NDLEVEL_SIZE)); [unfold off in *; lia|]. by apply Hc. }
  destruct o as [st|].
  - right. eexists. split; [done|]. apply HX; [by eapply Hw|]. intros j Hj Ej. left. unfold cell. rewrite Ej, Ho. done.
  - destruct alloc; [|by left]. right. eexists. split; [done|]. apply HX; [unfold new_SubKeyTable; by rewrite length_replicate|]. intros j Hj Ej. right. destruct (div_range _ Hj) as [_ J2]. rewrite Ej in J2. split; [unfold cell; by rewrite Ej, Ho|]. by apply at_replicate.
Qed.
Lemma set_data_stale infos kt k x alloc : (exists i, at_ infos (index k) = Some i /\ version k <> iversion i) -> set_data infos kt k x alloc = (ABORT, kt).
Proof. intros (i & Hat & Hv). unfold set_data. rewrite Hat. destruct (Z.eqb_spec (version k) (iversion i)); [done|]. by rewrite andb_false_r. Qed.
Lemma new_table : wf new_KeyTable /\ forall i, 0 <= i < KEYS_MAX -> cell new_KeyTable i = None.
Proof.
  split; [split; [unfold new_KeyTable; by rewrite length_replicate|]|].
  - intros i st [[=] _]%lookup_replicate.
  - intros i Hi. destruct (div_range _ Hi) as [H _]. unfold cell, new_KeyTable. by rewrite at_replicate.
Qed.

(** *** The invariant *)

(** After at most [N] calls. *)
Record inv (N : Z) (s : S) (a : Spec) : Prop := {
  i_shape : length (s_key_info s) = Z.to_nat KEYS_MAX /\ length (s_free_keys s) = Z.to_nat KEYS_MAX /\ forall t kt, tables s !! t = Some kt -> wf kt;
  i_count : count a = length (handles s);
  i_nk : 0 <= nfreekey s /\ nkey s <= KEYS_MAX /\ Z.of_nat (size (live a)) + nfreekey s = nkey s;
  i_free : forall j, 0 <= j < nfreekey s -> exists id, at_ (s_free_keys s) j = Some id /\ 0 <= id < nkey s /\ forall n k, n ∈ live a -> handles s !! n = Some k -> index k <> id;
  i_uniq : forall j j', 0 <= j < nfreekey s -> 0 <= j' < nfreekey s -> at_ (s_free_keys s) j = at_ (s_free_keys s) j' -> j = j';
  i_live : forall n, n ∈ live a -> (n < length (handles s))%nat;
  i_handle : forall n k, handles s !! n = Some k -> 0 <= index k < nkey s /\ 1 <= version k /\ exists i, at_ (s_key_info s) (index k) = Some i /\ version k <= iversion i /\ (n ∈ live a <-> version k = iversion i);
  i_inj : forall n m k, handles s !! n = Some k -> handles s !! m = Some k -> n = m;
  i_ver : forall id i, s_key_info s !! id = Some i -> 0 <= iversion i <= N;
  i_cell : forall t kt j d, tables s !! t = Some kt -> 0 <= j < KEYS_MAX -> cell kt j = Some d -> d = mkData 0 0 \/ exists n, handles s !! n = Some (mkKey j (dversion d));
  i_get : forall t kt n k, tables s !! t = Some kt -> handles s !! n = Some k -> get_data kt k = default 0 (vals a !! (t, n)) \/ ((n ∉ live a) /\ get_data kt k = 0);
  i_vals : forall t n, is_Some (vals a !! (t, n)) -> (n < count a)%nat /\ (t < length (tables s))%nat;
  i_has : has a = own s /\ unused a = pool s /\ ntable a = length (tables s);
  i_own : forall t T, own s !! t = Some T -> (T < length (tables s))%nat /\ T ∉ pool s /\ forall t', own s !! t' = Some T -> t' = t;
  i_pool : forall T, T ∈ pool s -> (T < length (tables s))%nat }.
Lemma kt_inv_more N M s a : inv N s a -> N <= M -> inv M s a.
Proof. intros [] HM. split; try done. intros id i Hi. specialize (i_ver0 id i Hi). lia. Qed.
(** A key in use is the only one in use of its slot. *)
Lemma live_slot N s a n m k k' : inv N s a -> n ∈ live a -> m ∈ live a -> handles s !! n = Some k -> handles s !! m = Some k' -> index k = index k' -> n = m.
Proof.
  intros HI Hn Hm Hk Hk' E. destruct (i_handle _ _ _ HI n k Hk) as (_ & _ & i & Hi & _ & Hv). destruct (i_handle _ _ _ HI m k' Hk') as (_ & _ & i' & Hi' & _ & Hv'). rewrite E, Hi' in Hi. injection Hi as ->. apply Hv in Hn. apply Hv' in Hm.
  assert (k = k') as <- by (destruct k, k'; cbn in *; congruence). by apply (i_inj _ _ _ HI n m k).
Qed.
Lemma handle_range N s a n k : inv N s a -> handles s !! n = Some k -> 0 <= index k < KEYS_MAX.
Proof. intros HI Hk. destruct (i_handle _ _ _ HI n k Hk) as [H _]. destruct (i_nk _ _ _ HI). lia. Qed.
(** A slot for a new key: one that was freed, or one that was never used. *)
Lemma take_index_spec N s a : inv N s a -> Z.of_nat (size (live a)) < KEYS_MAX ->
  exists id nf nk, take_index s = Some (id, mkS (s_key_info s) nf nk (s_free_keys s) (handles s) (tables s) (own s) (pool s)) /\ 0 <= nf <= nfreekey s /\ nkey s <= nk <= KEYS_MAX /\ 0 <= id < nk /\ Z.of_nat (size (live a)) + 1 + nf = nk /\
    (forall n k, n ∈ live a -> handles s !! n = Some k -> index k <> id) /\ (forall j, 0 <= j < nf -> at_ (s_free_keys s) j <> Some id).
Proof.
  intros HI Hs. destruct (i_nk _ _ _ HI) as (H0 & Hn & Hsz). unfold take_index. destruct (Z.ltb_spec 0 (nfreekey s)).
  - destruct (i_free _ _ _ HI (nfreekey s - 1) ltac:(lia)) as (id & Hid & Hr & Hl). rewrite Hid. cbn [mbind option_bind]. exists id, (nfreekey s - 1), (nkey s). split; [done|]. split_and!; try lia; [done|].
    intros j Hj E. rewrite <- Hid in E. apply (i_uniq _ _ _ HI) in E; lia.
  - destruct (Z.ltb_spec (nkey s) KEYS_MAX); [|lia]. exists (nkey s), (nfreekey s), (nkey s + 1). split; [done|]. split_and!; try lia.
    intros n k _ Hk. destruct (i_handle _ _ _ HI n k Hk). lia.
Qed.
Lemma kt_create_inv N s a d args : inv N s a -> N + 1 < 2 ^ 32 -> exists r s' a', bthread_key_create2 s d args = (r, s') /\ spec_call a (Create d args) r a' /\ inv (N + 1) s' a'.
Proof.
  intros HI HN. cbn [spec_call]. destruct (decide (Z.of_nat (size (live a)) < KEYS_MAX)) as [Hs|Hs].
  2: { exists EAGAIN, s, a. destruct (i_nk _ _ _ HI) as (H0 & Hn & Hsz). split_and!; try done; [|apply (kt_inv_more N); [done|lia]]. unfold bthread_key_create2, take_index. destruct (Z.ltb_spec 0 (nfreekey s)); [lia|]. destruct (Z.ltb_spec (nkey s) KEYS_MAX); [lia|done]. }
  destruct (take_index_spec N s a HI Hs) as (id & nf & nk & Et & Hnf & Hnk & Hid & Hsz & Hlive & Hfree). unfold bthread_key_create2. rewrite Et. cbn [s_key_info nfreekey nkey s_free_keys handles tables set_info].
  pose proof HI as [(L1 & L2 & L3) K2 K3 K4 K5 K6 K7 K8 K9 K10 K11 K12 K13 K14 K15]. destruct (at_lt (s_key_info s) id) as [i Hi]; [rewrite L1; lia|]. rewrite Hi. cbn [from_option]. pose proof (K9 _ _ Hi) as Hv. set (v := if iversion i =? 0 then iversion i + 1 else iversion i).
  assert (1 <= v <= N + 1 /\ iversion i <= v) as [Hv1 Hv2] by (unfold v; destruct (Z.eqb_spec (iversion i) 0); lia).
  pose proof (fun j x Hj => at_insert (s_key_info s) id j x i ltac:(lia) Hj Hi) as HR.
  assert (forall n k, handles s !! n = Some k -> k <> mkKey id v) as Hfresh.
  { intros n k Hk ->. destruct (K7 n _ Hk) as (_ & Hk1 & j & Hj & Hle & Hl). cbn [index version] in *. rewrite Hi in Hj. injection Hj as <-. apply (Hlive n (mkKey id v)); [|done|done]. apply Hl. unfold v in *. destruct (Z.eqb_spec (iversion i) 0); lia. }
  set (n0 := length (handles s)). assert (count a = n0) as En by done. assert (n0 ∉ live a) as Hn0 by (intros Hin%K6; unfold n0 in Hin; lia).
  eexists 0, _, _. split; [done|]. split; [done|].
  split; cbn [s_key_info nfreekey nkey s_free_keys handles tables own pool count live vals has unused ntable]; rewrite ?En; try done.
  - split_and!; try done. by rewrite length_insert.
  - rewrite length_app. cbn. unfold n0. lia.
  - rewrite size_union, size_singleton by set_solver. lia.
  - intros j Hj. destruct (K4 j ltac:(lia)) as (x & Hx & Hr & Hl). exists x. split_and!; [done|lia|lia|]. intros n k [->%elem_of_singleton|Hn]%elem_of_union [Hk|[Hge Hk]]%lookup_app_Some.
    + apply lookup_lt_Some in Hk. unfold n0 in Hk. lia.
    + replace (n0 - length (handles s))%nat with 0%nat in Hk by (unfold n0; lia). injection Hk as <-. cbn. intros ->. by apply (Hfree j Hj).
    + by eapply Hl.
    + apply K6 in Hn. lia.
  - intros j j' Hj Hj'. apply K5; lia.
  - intros n [->%elem_of_singleton|Hn]%elem_of_union; rewrite length_app; cbn; [unfold n0; lia|apply K6 in Hn; lia].
  - intros n k [Hk|[Hge Hk]]%lookup_app_Some.
    + destruct (K7 n k Hk) as (R1 & R2 & j & Hj & Hle & Hl). split_and!; try lia. rewrite HR by lia. assert (n <> n0) as Hne by (apply lookup_lt_Some in Hk; unfold n0; lia). destruct (Z.eqb_spec id (index k)) as [E|].
      * rewrite <- E, Hi in Hj. injection Hj as <-. eexists. split; [done|]. cbn [iversion]. split; [lia|]. split.
        -- intros [?%elem_of_singleton|Hn]%elem_of_union; [done|]. by destruct (Hlive n k Hn Hk).
        -- intros Ev. destruct (Hfresh n k Hk). destruct k; cbn in *; congruence.
      * exists j. split; [done|]. split; [done|]. rewrite <- Hl. set_solver.
    + destruct (n - length (handles s))%nat eqn:E; [|by destruct n1]. injection Hk as <-. cbn [index version]. split_and!; try lia. rewrite HR, Z.eqb_refl by lia. eexists. split; [done|]. cbn. split; [lia|]. split; [done|]. intros _. assert (n = n0) as -> by (unfold n0; lia). set_solver.
  - intros n m k [Hk|[Hge Hk]]%lookup_app_Some [Hm|[Hge' Hm]]%lookup_app_Some; [by eapply K8| | |].
    + destruct (m - length (handles s))%nat as [|x]; [|by destruct x]. injection Hm as <-. by destruct (Hfresh n _ Hk).
    + destruct (n - length (handles s))%nat as [|x]; [|by destruct x]. injection Hk as <-. by destruct (Hfresh m _ Hm).
    + destruct (n - length (handles s))%nat as [|x] eqn:E1; [|by destruct x]. destruct (m - length (handles s))%nat as [|x] eqn:E2; [lia|by destruct x].
  - intros x j [(_ & <- & _)|[_ Hj]]%list_lookup_insert_Some; [cbn; lia|]. specialize (K9 x j Hj). lia.
  - intros t kt j x Ht Hj Hx. destruct (K10 t kt j x Ht Hj Hx) as [|[n Hn]]; [by left|]. right. exists n. by apply lookup_app_l_Some.
  - intros t kt n k Ht [Hk|[Hge Hk]]%lookup_app_Some.
    + destruct (K11 t kt n k Ht Hk) as [|[Hn Hg]]; [by left|]. right. split; [|done]. apply lookup_lt_Some in Hk. rewrite not_elem_of_union, not_elem_of_singleton. split; [unfold n0; lia|done].
    + destruct (n - length (handles s))%nat eqn:E; [|by destruct n1]. injection Hk as <-. left. assert (n = n0) as -> by (unfold n0; lia). assert (vals a !! (t, n0) = None) as -> by (destruct (vals a !! (t, n0)) eqn:Ev; [|done]; specialize (K12 t n0 ltac:(by eexists)); lia).
      rewrite get_data_cell by (cbn; lia). cbn [index version from_option]. destruct (cell kt id) as [x|] eqn:Ec; [|done]. destruct (Z.eqb_spec (dversion x) v) as [Ex|]; [|done]. destruct (K10 t kt id x Ht ltac:(lia) Ec) as [->|[n' Hn']]; [done|]. rewrite Ex in Hn'. by destruct (Hfresh n' _ Hn').
  - intros t n Hn. specialize (K12 t n Hn). lia.
Qed.
Lemma kt_delete_inv N s a n k : inv N s a -> N + 1 < 2 ^ 32 -> handles s !! n = Some k -> exists r s' a', bthread_key_delete s k = (r, s') /\ spec_call a (Delete n) r a' /\ inv (N + 1) s' a'.
Proof.
  intros HI HN Hk. cbn [spec_call]. pose proof HI as [(L1 & L2 & L3) K2 (K31 & K32 & K33) K4 K5 K6 K7 K8 K9 K10 K11 K12 K13 K14 K15]. destruct (K7 n k Hk) as (Hid & Hk1 & i & Hi & Hle & Hl). unfold bthread_key_delete. rewrite Hi. destruct (Z.ltb_spec (index k) KEYS_MAX); [|lia]. cbn [andb].
  destruct (decide (n ∈ live a)) as [Hn|Hn].
  2: { exists ABORT, s, a. destruct (Z.eqb_spec (version k) (iversion i)) as [E|]; [by destruct Hn; apply Hl|]. split_and!; try done. apply (kt_inv_more N); [done|lia]. }
  apply Hl in Hn as Ev. rewrite Ev, Z.eqb_refl. pose proof (K9 _ _ Hi) as Hv. rewrite u32_small by (unfold is_u32; lia). destruct (Z.eqb_spec (iversion i + 1) 0); [lia|]. cbn [set_info s_key_info nfreekey nkey s_free_keys handles tables].
  pose proof (fun j x Hj => at_insert (s_key_info s) (index k) j x i ltac:(lia) Hj Hi) as HR.
  assert (size (live a) = Datatypes.S (size (live a ∖ {[n]}))) as Esz by (rewrite size_difference by set_solver; rewrite size_singleton; assert (size (live a) <> 0%nat) by (intros E%size_empty_inv; set_solver); lia).
  destruct (at_lt (s_free_keys s) (nfreekey s)) as [y Hy]; [rewrite L2; lia|]. pose proof (fun j Hj => at_insert (s_free_keys s) (nfreekey s) j (index k) y ltac:(lia) Hj Hy) as HF.
  assert (forall j, 0 <= j < nfreekey s -> at_ (s_free_keys s) j <> Some (index k)) as Hno by (intros j Hj E; destruct (K4 j Hj) as (x & Hx & _ & Hx'); rewrite E in Hx; injection Hx as <-; by destruct (Hx' n k Hn Hk)).
  eexists 0, _, _. split; [done|]. split; [done|]. split; cbn [s_key_info nfreekey nkey s_free_keys handles tables own pool count live vals has unused ntable]; try done.
  - by rewrite !length_insert.
  - lia.
  - intros j Hj. rewrite HF by lia. destruct (Z.eqb_spec (nfreekey s) j) as [E|].
    + exists (index k). split_and!; [done|lia|lia|]. intros m k' [Hm Hne]%elem_of_difference Hk' E'. apply Hne, elem_of_singleton. by apply (live_slot N s a m n k' k).
    + destruct (K4 j ltac:(lia)) as (x & Hx & Hr & Hx'). exists x. split_and!; [done|lia|lia|]. intros m k' [Hm _]%elem_of_difference. by apply Hx'.
  - intros j j' Hj Hj'. rewrite !HF by lia. destruct (Z.eqb_spec (nfreekey s) j), (Z.eqb_spec (nfreekey s) j'); intros E; [lia| | |apply K5; [lia|lia|done]].
    + by destruct (Hno j' ltac:(lia)).
    + by destruct (Hno j ltac:(lia)).
  - intros m [Hm _]%elem_of_difference. by apply K6.
  - intros m k' Hk'. destruct (K7 m k' Hk') as (R1 & R2 & j & Hj & Hlj & Hlv). split_and!; try lia. rewrite HR by lia. destruct (Z.eqb_spec (index k) (index k')) as [E|E].
    + rewrite <- E, Hi in Hj. injection Hj as <-. eexists. split; [done|]. cbn [iversion]. split; [lia|]. split; [|lia]. intros [Hm Hne]%elem_of_difference. destruct Hne. apply elem_of_singleton. by apply (live_slot N s a m n k' k).
    + exists j. split; [done|]. split; [done|]. rewrite <- Hlv. assert (m <> n) by (intros ->; rewrite Hk in Hk'; injection Hk' as ->; done). set_solver.
  - intros x j [(_ & <- & _)|[_ Hj]]%list_lookup_insert_Some; [cbn; lia|]. specialize (K9 x j Hj). lia.
  - intros t kt m k' Ht Hk'. destruct (K11 t kt m k' Ht Hk') as [|[Hm Hg]]; [by left|]. right. split; [|done]. set_solver.
Qed.
Lemma keystore_inv N s a t n k x alloc : inv N s a -> handles s !! n = Some k -> (t < length (tables s))%nat ->
  exists r s' a', store s t k x alloc = (r, s') /\ stored a t n x alloc r a' /\ inv N s' a'.
Proof.
  intros HI Hk Ht. unfold stored. pose proof HI as [(L1 & L2 & L3) K2 (K31 & K32 & K33) K4 K5 K6 K7 K8 K9 K10 K11 K12 K13 K14 K15]. destruct (K7 n k Hk) as (Hid & Hk1 & i & Hi & Hle & Hl). unfold store. destruct (lookup_lt_is_Some_2 _ _ Ht) as [kt Hkt]. rewrite Hkt.
  assert (forall s', s' = mkS (s_key_info s) (nfreekey s) (nkey s) (s_free_keys s) (handles s) (<[t := kt]> (tables s)) (own s) (pool s) -> inv N s' a) as Hsame.
  { intros s' ->. rewrite (list_insert_id _ _ _ Hkt). by destruct s. }
  destruct (decide (n ∈ live a)) as [Hn|Hn].
  2: { rewrite set_data_stale by (exists i; split; [done|]; intros E; by destruct Hn; apply Hl). cbn [fst snd]. eexists ABORT, _, a. split; [done|]. split; [done|]. by apply Hsame. }
  destruct (set_data_spec (s_key_info s) kt k x alloc (L3 t kt Hkt) (handle_range N s a n k HI Hk)) as [[-> Ha]|(kt' & -> & Hw & Hc & Ho)]; [exists i; split; [done|by apply Hl]|..]; cbn [fst snd].
  { eexists ENOMEM, _, a. split; [done|]. split; [by right|]. by apply Hsame. }
  eexists 0, _, _. split; [done|]. split; [by left|]. split; cbn [s_key_info nfreekey nkey s_free_keys handles tables own pool count live vals has unused ntable]; try done.
  - split_and!; try done. intros t' kt'' [(_ & <- & _)|[_ H]]%list_lookup_insert_Some; [done|by eapply L3].
  - intros t' kt'' j d [(<- & <- & _)|[_ H]]%list_lookup_insert_Some Hj Hd; [|by eapply K10]. destruct (decide (j = index k)) as [->|Hne].
    + rewrite Hc in Hd. injection Hd as <-. right. exists n. cbn. by destruct k.
    + destruct (Ho j Hj Hne) as [E|[_ E]]; rewrite E in Hd; [by eapply K10|left; congruence].
  - intros t' kt'' m k' Ht' Hk'. apply list_lookup_insert_Some in Ht' as [(<- & <- & _)|[Hne H]].
    2: { rewrite lookup_insert_ne by congruence. by eapply K11. }
    destruct (K7 m k' Hk') as (Rm & Rm1 & _). rewrite get_data_cell by (by eapply handle_range). destruct (decide (m = n)) as [->|Hmn].
    + rewrite Hk in Hk'. injection Hk' as <-. left. by rewrite Hc, lookup_insert_eq, Z.eqb_refl.
    + rewrite lookup_insert_ne by congruence. destruct (decide (index k' = index k)) as [E|E].
      * right. split; [intros Hm; destruct Hmn; by apply (live_slot N s a m n k' k)|]. rewrite E, Hc. cbn [dversion]. destruct (Z.eqb_spec (version k) (version k')) as [Ev|]; [|done]. destruct Hmn. apply (K8 m n k); [|done]. by destruct k, k'; cbn in *; subst.
      * destruct (K11 t kt m k' Hkt Hk') as [HG|[Hm HG]]; rewrite get_data_cell in HG by (by eapply handle_range); (destruct (Ho (index k') ltac:(by eapply handle_range) E) as [->|[E1 ->]]; [auto|]); rewrite E1 in HG; cbn [dversion ptr]; destruct (Z.eqb_spec 0 (version k')); auto; lia.
  - intros t' m Hm. rewrite length_insert. destruct (decide ((t, n) = (t', m))) as [[= <- <-]|Hne]; [apply lookup_lt_Some in Hk; lia|]. rewrite lookup_insert_ne in Hm by done. by eapply K12.
  - by rewrite length_insert.
  - intros t' T. rewrite length_insert. by apply K14.
  - intros T. rewrite length_insert. by apply K15.
Qed.
(** A new table, which is empty. *)
Lemma make_table_inv N s a t : inv N s a -> own s !! t = None -> inv N (make_table s t) (gives a t (ntable a) (unused a) (Datatypes.S (ntable a))).
Proof.
  intros HI Ho. pose proof HI as [(L1 & L2 & L3) K2 K3 K4 K5 K6 K7 K8 K9 K10 K11 K12 (K13 & K13' & K13'') K14 K15].
  assert (forall T kt, (tables s ++ [new_KeyTable]) !! T = Some kt -> tables s !! T = Some kt \/ (T = length (tables s) /\ kt = new_KeyTable)) as Hlk.
  { intros T kt [HT|[Hge HT]]%lookup_app_Some; [by left|right]. destruct (T - length (tables s))%nat as [|x] eqn:E; [|by destruct x]. injection HT as <-. split; [lia|done]. }
  split; cbn [make_table gives s_key_info nfreekey nkey s_free_keys handles tables own pool count live vals has unused ntable]; try done.
  - split_and!; try done. intros T kt [HT|[_ ->]]%Hlk; [by eapply L3|apply new_table].
  - intros T kt j d [HT|[_ ->]]%Hlk Hj Hd; [by eapply K10|]. by rewrite (proj2 new_table) in Hd.
  - intros T kt n k [HT|[-> ->]]%Hlk Hk; [by eapply K11|]. left. rewrite get_data_cell by (by eapply handle_range). rewrite (proj2 new_table) by (by eapply handle_range). destruct (vals a !! _) eqn:E; [|done]. destruct (K12 (length (tables s)) n ltac:(by eexists)). lia.
  - intros T n Hn. rewrite length_app. cbn. destruct (K12 T n Hn). lia.
  - rewrite length_app, K13, K13''. cbn. split_and!; [done|done|lia].
  - intros t' T. rewrite length_app. cbn. intros [[<- <-]|[Hne HT]]%lookup_insert_Some.
    + split_and!; [lia|intros ?%K15; lia|]. intros t' [[<- _]|[_ HT]]%lookup_insert_Some; [done|]. destruct (K14 _ _ HT). lia.
    + destruct (K14 _ _ HT) as (H1 & H2 & H3). split_and!; [lia|done|]. intros t'' [[_ <-]|[_ HT']]%lookup_insert_Some; [lia|by apply H3].
  - intros T HT%K15. rewrite length_app. cbn. lia.
Qed.
(** Who has which table. *)
Lemma take_table_inv N s a t T : inv N s a -> own s !! t = None -> T ∈ pool s -> inv N (take_table s t T) (gives a t T (unused a ∖ {[T]}) (ntable a)).
Proof.
  intros HI Ho HT. pose proof HI as [K1 K2 K3 K4 K5 K6 K7 K8 K9 K10 K11 K12 (K13 & K13' & K13'') K14 K15].
  split; cbn [take_table gives s_key_info nfreekey nkey s_free_keys handles tables own pool count live vals has unused ntable]; try done.
  - by rewrite K13, K13'.
  - intros t' T' [[<- <-]|[Hne HT']]%lookup_insert_Some.
    + split_and!; [by apply K15|set_solver|]. intros t' [[<- _]|[_ HT']]%lookup_insert_Some; [done|]. by destruct (K14 _ _ HT') as (_ & ? & _).
    + destruct (K14 _ _ HT') as (H1 & H2 & H3). split_and!; [done|set_solver|]. intros t'' [[_ <-]|[_ H]]%lookup_insert_Some; [done|by apply H3].
  - intros T' [H _]%elem_of_difference. by apply K15.
Qed.
Lemma end_thread_inv N s a t keep : inv N s a -> exists a', spec_call a (End_ t keep) 0 a' /\ inv N (end_thread s t keep) a'.
Proof.
  intros HI. pose proof HI as [K1 K2 K3 K4 K5 K6 K7 K8 K9 K10 K11 K12 (K13 & K13' & K13'') K14 K15]. eexists. split; [split; reflexivity|]. unfold end_thread. rewrite ?K13. destruct (own s !! t) as [T|] eqn:Ho; [|done]. destruct (K14 _ _ Ho) as (H1 & H2 & H3).
  split; cbn [s_key_info nfreekey nkey s_free_keys handles tables own pool count live vals has unused ntable]; try done.
  - split_and!; [done|destruct keep; by rewrite ?K13'|done].
  - intros t' T' [Hne HT']%lookup_delete_Some. destruct (K14 _ _ HT') as (A1 & A2 & A3). split_and!; [done| |].
    + assert (T' <> T) by (intros ->; by apply Hne; rewrite (H3 t' HT')). destruct keep; set_solver.
    + intros t'' [_ H]%lookup_delete_Some. by apply A3.
  - intros T'. destruct keep; [|apply K15]. intros [->%elem_of_singleton|H]%elem_of_union; [done|by apply K15].
Qed.
Lemma load_spec N s a T n k : inv N s a -> handles s !! n = Some k -> (T < length (tables s))%nat -> loaded a T n (load s T k).
Proof. intros HI Hk HT. unfold load, loaded. destruct (lookup_lt_is_Some_2 _ _ HT) as [kt Hkt]. rewrite Hkt. by eapply i_get. Qed.
Lemma setspecific_inv N s a t n k x ak alloc : inv N s a -> handles s !! n = Some k -> exists r s' a', bthread_setspecific s t k x ak alloc = (r, s') /\ spec_call a (Set_ t n x ak alloc) r a' /\ inv N s' a'.
Proof.
  intros HI Hk. cbn [spec_call]. unfold bthread_setspecific. destruct (i_has _ _ _ HI) as (-> & _ & Hn). destruct (own s !! t) as [T|] eqn:Ho; [apply keystore_inv; [done|done|by eapply i_own]|].
  destruct ak; [|by eexists ENOMEM, s, a]. pose proof (make_table_inv N s a t HI Ho) as HI'. rewrite Hn in *. apply keystore_inv; [done|done|]. cbn [make_table tables]. rewrite length_app. cbn. lia.
Qed.
Lemma getspecific_inv N s a t n k b : inv N s a -> handles s !! n = Some k -> exists r s' a', bthread_getspecific s t k b = (r, s') /\ spec_call a (Get t n b) r a' /\ inv N s' a'.
Proof.
  intros HI Hk. cbn [spec_call]. unfold bthread_getspecific. destruct (i_has _ _ _ HI) as (-> & Hu & Hn). destruct (own s !! t) as [T|] eqn:Ho.
  { eexists _, _, _. split; [done|]. split; [split; [|done]|exact HI]. apply (load_spec N s a); [done|done|by eapply i_own]. }
  destruct b as [T|]; [|by eexists 0, s, a]. rewrite Hu. destruct (bool_decide_reflect (T ∈ pool s)) as [HT|HT]; [|eexists 0, s, a; by rewrite decide_False by done].
  eexists _, _, _. rewrite decide_True by done. split; [done|]. split; [split; [|done]|rewrite <- Hu; by apply take_table_inv]. apply (load_spec N s a); [done|done|by eapply i_pool].
Qed.
Lemma kt_call_refines N s a c : inv N s a -> N + 1 < 2 ^ 32 -> exists a', spec_step a c (do_call s c).1 a' /\ inv (N + 1) (do_call s c).2 a'.
Proof.
  intros HI HN. apply (kt_inv_more _ (N + 1)) in HI as HI1; [|lia].
  assert (forall n f, (forall k, handles s !! n = Some k -> exists r s' a', f k = (r, s') /\ spec_call a c r a' /\ inv (N + 1) s' a') -> (key_exists a c <-> (n < count a)%nat) -> exists a', spec_step a c (with_key s n f).1 a' /\ inv (N + 1) (with_key s n f).2 a') as Hk.
  { intros n f Hf He. rewrite (i_count _ _ _ HI) in He. unfold with_key. destruct (handles s !! n) as [k|] eqn:Hk.
    - destruct (Hf k eq_refl) as (r & s' & a' & -> & Hs & HI'). exists a'. split; [left; split; [apply He; by eapply lookup_lt_Some|done]|done].
    - exists a. split; [right; split_and!; [|done|done]|done]. rewrite He. apply lookup_ge_None in Hk. lia. }
  destruct c as [d args|n|t n x ak alloc|t n b|t keep]; cbn [do_call]; [| | | |by destruct (end_thread_inv (N + 1) s a t keep HI1) as (a' & H1 & H2); exists a'; split; [left|]]; [|apply Hk; [|done]; intros k Hn..].
  - destruct (kt_create_inv N s a d args HI HN) as (r & s' & a' & -> & Hs & H1). exists a'. split; [by left|done].
  - by eapply kt_delete_inv.
  - by apply setspecific_inv.
  - by apply getspecific_inv.
Qed.
Lemma kt_init_inv : inv 0 init (mkSpec 0 ∅ ∅ 0 ∅ ∅).
Proof.
  split; cbn [init s_key_info nfreekey nkey s_free_keys handles tables own pool count live vals has unused ntable]; try done; try set_solver.
  - intros j Hj. lia.
  - intros j j' Hj. lia.
  - intros id i [-> _]%lookup_replicate. done.
  - intros t n [x Hx]. by apply lookup_empty_Some in Hx.
Qed.
(** C11: For any sequence of fewer than 2^32 - 1 calls of any bthreads and pthreads, keys
    behave as an ideal store.  A thread gets a table of its own, empty or borrowed,
    with its first store, or with a first reading that can borrow one; then it gets what was last
    stored in its table under a key in use, never what was stored under an older key
    of the same slot.  Creation fails only when 992 keys are in use, storing only for
    want of memory.  Deleting or storing under a key that has been deleted ends the
    process; reading one gives NULL or what was stored (the header documents EINVAL
    and NULL).  No two threads ever have the same table. *)
Theorem bthread_keys_refine l : Z.of_nat (length l) + 1 < 2 ^ 32 ->
  exists a, spec_run (mkSpec 0 ∅ ∅ 0 ∅ ∅) l (run l init).1 a /\ has a = own (run l init).2 /\ forall t t' T, has a !! t = Some T -> has a !! t' = Some T -> t' = t.
Proof.
  assert (forall l N s a, inv N s a -> N + Z.of_nat (length l) + 1 < 2 ^ 32 -> exists a' M, spec_run a l (run l s).1 a' /\ inv M (run l s).2 a') as H.
  { clear l. induction l as [|c l IH]; intros N s a HI HN; cbn [run length] in *; [exists a, N; split; [constructor|done]|]. destruct (kt_call_refines N s a c HI ltac:(lia)) as (a1 & Hs & HI1).
    destruct (Z.eqb_spec (do_call s c).1 ABORT) as [E|E]; cbn [fst snd]; [rewrite E in Hs; exists a1, (N + 1); split; [by apply spec_abort|done]|]. destruct (IH (N + 1) (do_call s c).2 a1 HI1 ltac:(lia)) as (a2 & M & H1 & H2). exists a2, M. split; [by eapply spec_cons|done]. }
  intros HN. destruct (H l 0 _ _ kt_init_inv ltac:(lia)) as (a & M & H1 & H2). exists a. split; [done|]. destruct (i_has _ _ _ H2) as (E & _). split; [done|]. rewrite E. intros t t' T Ht Ht'. by eapply i_own.
Qed.
(** Two bthreads; the second ends, and a third one borrows its table. *)
Definition key_calls : list call :=
  [Create (Some 1%nat) 0; Get 0 0 None; Set_ 0 0 50 false true; Set_ 0 0 50 true true; Set_ 1 0 60 true true; Get 0 0 None; Delete 0; Create None 0; Get 0 1 None; Set_ 0 1 70 true false; Get 0 1 None; Set_ 1 1 80 true true; End_ 1 true; Get 2 1 (Some 1%nat); Get 1 1 None; Get 0 1 None; Set_ 0 0 90 true true; Get 0 1 None].
Lemma bthread_keys_refine_witness : (run key_calls init).1 = [0; 0; ENOMEM; 0; 0; 50; 0; 0; 0; 0; 70; 0; 0; 80; 0; 70; ABORT] /\ exists a, spec_run (mkSpec 0 ∅ ∅ 0 ∅ ∅) key_calls (run key_calls init).1 a.
Proof. split; [vm_compute; reflexivity|]. destruct (bthread_keys_refine key_calls) as (a & H & _); [done|]. by exists a. Defined.
(** The header says that a deleted key gives NULL; it gives what was stored. *)
Lemma getspecific_after_delete : (run [Create None 0; Set_ 0 0 50 true true; Delete 0; Get 0 0 None] init).1 = [0; 0; 0; 50].
Proof. vm_compute. reflexivity. Qed.
(** The header says that storing under a deleted key returns EINVAL; a CHECK fails. *)
Lemma setspecific_after_delete : (run [Create None 0; Delete 0; Set_ 0 0 50 true true] init).1 = [0; 0; ABORT].
Proof. vm_compute. reflexivity. Qed.
(** Deleting INVALID_BTHREAD_KEY before any key has been created succeeds, and
    afterwards two creations return the same key. *)
Lemma delete_invalid_key : exists s1 s2 s3, bthread_key_delete init (mkKey 0 0) = (0, s1) /\ bthread_key_create2 s1 None 0 = (0, s2) /\ bthread_key_create2 s2 None 0 = (0, s3) /\ handles s3 = [mkKey 0 1; mkKey 0 1].
Proof. eexists _, _, _. split; [vm_compute; reflexivity|]. split; [vm_compute; reflexivity|]. split; [vm_compute; reflexivity|done]. Qed.

(** *** The destruction of a table *)

Section Destroy.
Context (infos : list KeyInfo).
(** What a destructor stores, with [bthread_setspecific], in the table. *)
Context (effect : nat -> Z -> Z -> list (bthread_key_t * Z)).
Abbreviation Log := (list (nat * Z * Z)).
Definition store_all (kt : KeyTable) (l : list (bthread_key_t * Z)) : KeyTable := foldl (fun kt kx => (set_data infos kt kx.1 kx.2 true).2) kt l.
(** One turn of the loop of SubKeyTable::clear. *)
Definition clear_slot (sub : Z) (s : KeyTable * Log) (j : Z) : KeyTable * Log :=
  match at_ s.1 sub with
  | Some (Some st) =>
      match at_ st j with
      | Some d =>
          if ptr d =? 0 then s
          else
            let kt := <[Z.to_nat sub := Some (<[Z.to_nat j := mkData (dversion d) 0]> st)]> s.1 in
            match at_ infos (sub * KEY_2NDLEVEL_SIZE + j) with
            | Some (mkInfo v (Some f) args) => if dversion d =? v then (store_all kt (effect f args (ptr d)), s.2 ++ [(f, args, ptr d)]) else (kt, s.2)
            | _ => (kt, s.2)
            end
      | None => s
      end
  | _ => s
  end.
Definition clear (s : KeyTable * Log) (sub : Z) : KeyTable * Log := foldl (clear_slot sub) s (seqZ 0 KEY_2NDLEVEL_SIZE).
Definition cleared (st : SubKeyTable) : bool := forallb (fun d => ptr d =? 0) st.
Definition clear_round (s : KeyTable * Log) : KeyTable * Log :=
  foldl (fun s sub => match at_ s.1 sub with Some (Some _) => clear s sub | _ => s end) s (seqZ 0 KEY_1STLEVEL_SIZE).
Definition all_cleared (kt : KeyTable) : bool := forallb (fun o => match o with Some st => cleared st | None => true end) kt.
(** KeyTable::~KeyTable: whether the second levels are deleted, and the calls. *)
Fixpoint destroy_rounds (ntry : nat) (s : KeyTable * Log) : bool * (KeyTable * Log) :=
  match ntry with
  | 0%nat => (false, s)
  | Datatypes.S ntry => let s := clear_round s in if all_cleared s.1 then (true, s) else destroy_rounds ntry s
  end.
Definition destroy_KeyTable (kt : KeyTable) : bool * (KeyTable * Log) := destroy_rounds PTHREAD_DESTRUCTOR_ITERATIONS (kt, []).

(** The call that the value of index [i] is due. *)
Definition due (kt : KeyTable) (i : Z) : Log :=
  match cell kt i with
  | Some d => if ptr d =? 0 then [] else match at_ infos i with Some (mkInfo v (Some f) args) => if dversion d =? v then [(f, args, ptr d)] else [] | _ => [] end
  | None => []
  end.
Definition null (d : Data) : Data := mkData (dversion d) 0.
Lemma clear_absent sub s : (forall st, at_ s.1 sub <> Some (Some st)) -> clear s sub = s.
Proof. intros H. unfold clear. induction (seqZ 0 KEY_2NDLEVEL_SIZE) as [|j l IH]; cbn [foldl]; [done|]. assert (clear_slot sub s j = s) as -> by (unfold clear_slot; destruct (at_ s.1 sub) as [[st|]|] eqn:E; [by destruct (H st)|done|done]). done. Qed.
Lemma clear_round_all s : clear_round s = foldl clear s (seqZ 0 KEY_1STLEVEL_SIZE).
Proof.
  unfold clear_round. revert s. induction (seqZ 0 KEY_1STLEVEL_SIZE) as [|sub l IH]; intros s; cbn [foldl]; [done|]. destruct (at_ s.1 sub) as [[st|]|] eqn:E; [apply IH| |]; (rewrite clear_absent; [apply IH|by intros st'; rewrite E]).
Qed.
Lemma all_cleared_spec kt : all_cleared kt = true -> forall i d, cell kt i = Some d -> ptr d = 0.
Proof.
  intros H i d. unfold cell. destruct (mjoin (at_ kt (i / KEY_2NDLEVEL_SIZE))) as [st|] eqn:E; [|done]. cbn [mbind option_bind]. intros Hd. unfold all_cleared in H. rewrite forallb_forall in H.
  assert (cleared st = true) as Hst. { unfold at_ in E. destruct (kt !! _) as [[x|]|] eqn:Ek; try done. injection E as ->. specialize (H (Some st)). apply H. apply list_elem_of_In. by eapply list_elem_of_lookup_2. }
  unfold cleared in Hst. rewrite forallb_forall in Hst. apply Z.eqb_eq. apply Hst, list_elem_of_In. by eapply list_elem_of_lookup_2.
Qed.
(** One slot, when destructors store nothing. *)
Lemma clear_slot_spec kt log sub j : (forall f args x, effect f args x = []) -> wf kt -> 0 <= sub < KEY_1STLEVEL_SIZE -> 0 <= j < KEY_2NDLEVEL_SIZE ->
  exists kt', clear_slot sub (kt, log) j = (kt', log ++ due kt (sub * KEY_2NDLEVEL_SIZE + j)) /\ wf kt' /\
    forall i, 0 <= i < KEYS_MAX -> cell kt' i = if i =? sub * KEY_2NDLEVEL_SIZE + j then null <$> cell kt i else cell kt i.
Proof.
  intros He Hw Hs Hj. remember (sub * KEY_2NDLEVEL_SIZE + j) as i0 eqn:Ei0. assert (i0 / KEY_2NDLEVEL_SIZE = sub) as Ediv by (rewrite Ei0, Z.add_comm, Z.div_add by done; rewrite Z.div_small by done; lia).
  assert (cell kt i0 = st ← mjoin (at_ kt sub); at_ st j) as Ec by (unfold cell; rewrite Ediv; by replace (i0 - sub * KEY_2NDLEVEL_SIZE) with j by lia).
  assert (forall x, null <$> cell kt i0 = x -> cell kt i0 = x -> exists kt', (kt, log) = (kt', log ++ []) /\ wf kt' /\ forall i, 0 <= i < KEYS_MAX -> cell kt' i = if i =? i0 then null <$> cell kt i else cell kt i) as Hsame.
  { intros x H1 H2. exists kt. rewrite app_nil_r. split_and!; try done. intros i _. destruct (Z.eqb_spec i i0) as [->|]; congruence. }
  unfold clear_slot, due. cbn [fst snd]. rewrite Ec. destruct (at_ kt sub) as [[st|]|] eqn:Ek; cbn [mjoin option_join mbind option_bind] in *; [|by apply (Hsame None); rewrite Ec..].
  destruct (at_ st j) as [d|] eqn:Ed; [|by apply (Hsame None); rewrite Ec]. destruct (Z.eqb_spec (ptr d) 0) as [Ep|Ep].
  { apply (Hsame (Some d)); rewrite Ec; [|done]. cbn. unfold null. destruct d. cbn in *. by subst. }
  set (kt' := <[Z.to_nat sub := Some (<[Z.to_nat j := mkData (dversion d) 0]> st)]> kt).
  assert (wf kt' /\ forall i, 0 <= i < KEYS_MAX -> cell kt' i = if i =? i0 then null <$> cell kt i else cell kt i) as HX.
  { destruct Hw as [Hl Hw]. split; [split; [unfold kt'; by rewrite length_insert|]|].
    - intros n st'. unfold kt'. intros [(_ & [= <-] & _)|[_ Hn]]%list_lookup_insert_Some; [rewrite length_insert; by eapply Hw|by eapply Hw].
    - intros i Hi. unfold kt'. rewrite (cell_insert _ _ (Some st)) by (done || lia). destruct (div_range _ Hi) as [J1 J2]. destruct (Z.eqb_spec sub (i / KEY_2NDLEVEL_SIZE)) as [E|E].
      + rewrite <- E in J2. rewrite (at_insert _ _ _ _ d) by (done || lia). destruct (Z.eqb_spec i i0) as [->|Hne].
        * replace (i0 - sub * KEY_2NDLEVEL_SIZE) with j by lia. rewrite Z.eqb_refl, Ec. done.
        * destruct (Z.eqb_spec j (i - sub * KEY_2NDLEVEL_SIZE)); [lia|]. unfold cell. rewrite <- E, Ek. done.
      + destruct (Z.eqb_spec i i0) as [->|]; [by rewrite Ediv in E|done]. }
  rewrite <- Ei0. destruct (at_ infos i0) as [[v [f|] args]|]; [|exists kt'; by rewrite app_nil_r..]. destruct (dversion d =? v); [|exists kt'; by rewrite app_nil_r]. rewrite He. by exists kt'.
Qed.
Lemma kt_clear_spec sub l : (forall f args x, effect f args x = []) -> 0 <= sub < KEY_1STLEVEL_SIZE -> NoDup l -> (forall j, j ∈ l -> 0 <= j < KEY_2NDLEVEL_SIZE) -> forall kt log, wf kt ->
  exists kt', foldl (clear_slot sub) (kt, log) l = (kt', log ++ flat_map (fun j => due kt (sub * KEY_2NDLEVEL_SIZE + j)) l) /\ wf kt' /\
    forall i, 0 <= i < KEYS_MAX -> cell kt' i = if decide (i - sub * KEY_2NDLEVEL_SIZE ∈ l) then null <$> cell kt i else cell kt i.
Proof.
  intros He Hs. induction l as [|j l IH]; intros Hnd Hr kt log Hw; cbn [foldl flat_map]; [exists kt; by rewrite app_nil_r|]. apply NoDup_cons in Hnd as [Hni Hnd].
  destruct (clear_slot_spec kt log sub j He Hw Hs (Hr j ltac:(set_solver))) as (kt1 & -> & Hw1 & Hc1). destruct (IH Hnd (fun x H => Hr x ltac:(set_solver)) kt1 (log ++ due kt (sub * KEY_2NDLEVEL_SIZE + j)) Hw1) as (kt2 & -> & Hw2 & Hc2). exists kt2. split_and!; [|done|].
  - rewrite <- app_assoc. do 3 f_equal. assert (forall x, x ∈ l -> due kt1 (sub * KEY_2NDLEVEL_SIZE + x) = due kt (sub * KEY_2NDLEVEL_SIZE + x)) as HE.
    { intros x Hx. pose proof (Hr x ltac:(set_solver)) as Hxr. unfold due. rewrite Hc1 by (unfold KEYS_MAX, KEY_1STLEVEL_SIZE, KEY_2NDLEVEL_SIZE in *; lia). destruct (Z.eqb_spec (sub * KEY_2NDLEVEL_SIZE + x) (sub * KEY_2NDLEVEL_SIZE + j)) as [E|]; [|done]. assert (x = j) as -> by lia. done. }
    clear -HE. induction l as [|x l IH]; [done|]. cbn [flat_map]. rewrite HE by set_solver. f_equal. apply IH. intros y Hy. apply HE. set_solver.
  - intros i Hi. rewrite Hc2, Hc1 by done. destruct (Z.eqb_spec i (sub * KEY_2NDLEVEL_SIZE + j)) as [->|Hne].
    + replace (sub * KEY_2NDLEVEL_SIZE + j - sub * KEY_2NDLEVEL_SIZE) with j by lia. rewrite decide_False by done. by rewrite decide_True by set_solver.
    + destruct (decide (i - sub * KEY_2NDLEVEL_SIZE ∈ l)); [rewrite decide_True by set_solver; done|]. rewrite decide_False; [done|]. intros [|]%elem_of_cons; [lia|done].
Qed.
Lemma flat_map_app {A B} (f : A -> list B) l1 l2 : flat_map f (l1 ++ l2) = flat_map f l1 ++ flat_map f l2.
Proof. induction l1 as [|x l1 IH]; cbn; [done|]. by rewrite IH, app_assoc. Qed.
(** The first [n] second levels. *)
Lemma round_spec n kt log : (forall f args x, effect f args x = []) -> wf kt -> 0 <= n <= KEY_1STLEVEL_SIZE ->
  exists kt', foldl clear (kt, log) (seqZ 0 n) = (kt', log ++ flat_map (due kt) (seqZ 0 (n * KEY_2NDLEVEL_SIZE))) /\ wf kt' /\
    forall i, 0 <= i < KEYS_MAX -> cell kt' i = if i <? n * KEY_2NDLEVEL_SIZE then null <$> cell kt i else cell kt i.
Proof.
  intros He Hw [Hn Hle]. revert Hle. pattern n. apply natlike_ind; [| |done]; clear n Hn.
  - intros _. exists kt. split; [cbn; by rewrite app_nil_r|]. split; [done|]. intros i Hi. rewrite Z.mul_0_l. destruct (Z.ltb_spec i 0); [lia|done].
  - intros n Hn IH Hle. destruct IH as (kt1 & E1 & Hw1 & Hc1); [lia|]. replace (Z.succ n) with (n + 1) by lia. rewrite seqZ_app by lia. replace (0 + n) with n by lia. change (seqZ n 1) with [n]. rewrite foldl_app, E1. cbn [foldl]. unfold clear.
    destruct (kt_clear_spec n (seqZ 0 KEY_2NDLEVEL_SIZE) He ltac:(lia) (NoDup_seqZ _ _)) with (kt := kt1) (log := log ++ flat_map (due kt) (seqZ 0 (n * KEY_2NDLEVEL_SIZE))) as (kt2 & -> & Hw2 & Hc2); [intros j Hj; apply elem_of_seqZ in Hj; lia|done|]. exists kt2. split_and!; [|done|].
    + rewrite Z.mul_add_distr_r, Z.mul_1_l, seqZ_app by (unfold KEY_2NDLEVEL_SIZE; lia). rewrite flat_map_app, <- app_assoc. do 3 f_equal. rewrite Z.add_0_l. rewrite <- (Z.add_0_r (n * KEY_2NDLEVEL_SIZE)) at 1. rewrite <- fmap_add_seqZ.
      assert (forall x, x ∈ seqZ 0 KEY_2NDLEVEL_SIZE -> due kt1 (n * KEY_2NDLEVEL_SIZE + x) = due kt (n * KEY_2NDLEVEL_SIZE + x)) as HE.
      { intros x Hx%elem_of_seqZ. unfold due. rewrite Hc1 by (unfold KEYS_MAX, KEY_1STLEVEL_SIZE, KEY_2NDLEVEL_SIZE in *; lia). destruct (Z.ltb_spec (n * KEY_2NDLEVEL_SIZE + x) (n * KEY_2NDLEVEL_SIZE)); [lia|done]. }
      clear -HE. induction (seqZ 0 KEY_2NDLEVEL_SIZE) as [|x l IH]; [done|]. cbn [flat_map fmap list_fmap]. rewrite HE by set_solver. f_equal. apply IH. intros y Hy. apply HE. set_solver.
    + intros i Hi. rewrite Hc2, Hc1 by done. replace ((n + 1) * KEY_2NDLEVEL_SIZE) with (n * KEY_2NDLEVEL_SIZE + KEY_2NDLEVEL_SIZE) by lia. destruct (decide (i - n * KEY_2NDLEVEL_SIZE ∈ seqZ 0 KEY_2NDLEVEL_SIZE)) as [Hin|Hin]; rewrite elem_of_seqZ in Hin;
        destruct (Z.ltb_spec i (n * KEY_2NDLEVEL_SIZE)), (Z.ltb_spec i (n * KEY_2NDLEVEL_SIZE + KEY_2NDLEVEL_SIZE)); try done; try lia; unfold KEY_2NDLEVEL_SIZE in *; lia.
Qed.
Lemma all_cleared_true kt : wf kt -> (forall i d, 0 <= i < KEYS_MAX -> cell kt i = Some d -> ptr d = 0) -> all_cleared kt = true.
Proof.
  intros [Hl Hw] H. unfold all_cleared. apply forallb_forall. intros [st|] Hin; [|done]. apply list_elem_of_In, list_elem_of_lookup in Hin as [n Hn]. pose proof (Hw n st Hn) as Hst. apply lookup_lt_Some in Hn as Hlt.
  unfold cleared. apply forallb_forall. intros d Hd. apply list_elem_of_In, list_elem_of_lookup in Hd as [m Hm]. apply lookup_lt_Some in Hm as Hlt'. apply Z.eqb_eq. unfold KEY_1STLEVEL_SIZE, KEY_2NDLEVEL_SIZE in Hl, Hst.
  apply (H (Z.of_nat n * 32 + Z.of_nat m)); [unfold KEYS_MAX, KEY_1STLEVEL_SIZE, KEY_2NDLEVEL_SIZE; lia|]. unfold cell. unfold KEY_2NDLEVEL_SIZE. assert ((Z.of_nat n * 32 + Z.of_nat m) / 32 = Z.of_nat n) as -> by (rewrite Z.add_comm, Z.div_add by done; rewrite Z.div_small by lia; lia).
  replace (Z.of_nat n * 32 + Z.of_nat m - Z.of_nat n * 32) with (Z.of_nat m) by lia. unfold at_. rewrite !Nat2Z.id, Hn. done.
Qed.
Lemma clear_slot_length sub s j : Z.of_nat (length (clear_slot sub s j).2) <= Z.of_nat (length s.2) + 1.
Proof. unfold clear_slot. destruct (at_ s.1 sub) as [[st|]|]; [|lia..]. destruct (at_ st j) as [d|]; [|lia]. destruct (_ =? _); [lia|]. destruct (at_ infos _) as [[v [f|] args]|]; cbn [snd]; [destruct (_ =? _); cbn [snd]; rewrite ?length_app; cbn; lia|lia..]. Qed.
Lemma foldl_length {A} (f : KeyTable * Log -> A -> KeyTable * Log) (b : Z) l : (forall s x, Z.of_nat (length (f s x).2) <= Z.of_nat (length s.2) + b) -> forall s, Z.of_nat (length (foldl f s l).2) <= Z.of_nat (length s.2) + b * Z.of_nat (length l).
Proof. intros H. induction l as [|x l IH]; intros s; cbn [foldl length]; [lia|]. specialize (IH (f s x)). specialize (H s x). lia. Qed.
Lemma clear_round_length s : Z.of_nat (length (clear_round s).2) <= Z.of_nat (length s.2) + KEYS_MAX.
Proof.
  rewrite clear_round_all. etrans; [apply (foldl_length clear KEY_2NDLEVEL_SIZE)|rewrite length_seqZ; unfold KEYS_MAX, KEY_1STLEVEL_SIZE; lia]. intros s' sub. etrans; [apply (foldl_length (clear_slot sub) 1), clear_slot_length|]. rewrite length_seqZ. unfold KEY_2NDLEVEL_SIZE. lia.
Qed.
Lemma destroy_rounds_spec n s : let r := destroy_rounds n s in Z.of_nat (length r.2.2) <= Z.of_nat (length s.2) + Z.of_nat n * KEYS_MAX /\ (r.1 = true -> all_cleared r.2.1 = true).
Proof.
  revert s. induction n as [|n IH]; intros s; cbn [destroy_rounds]; [split; [cbn [fst snd]; lia|done]|]. pose proof (clear_round_length s). destruct (all_cleared (clear_round s).1) eqn:E; [split; [cbn [fst snd]; assert (0 <= KEYS_MAX) by done; nia|done]|]. destruct (IH (clear_round s)) as [H1 H2]. split; [lia|done].
Qed.
(** C13: The destruction of a table ends after at most four rounds, whatever the
    destructors store meanwhile, and frees the table only when every value in it
    is gone; when they store nothing it succeeds, and calls in the order of the
    indices exactly the destructors of the values stored under keys in use. *)
Theorem keytable_destroy kt : wf kt -> let r := destroy_KeyTable kt in
  Z.of_nat (length r.2.2) <= Z.of_nat PTHREAD_DESTRUCTOR_ITERATIONS * KEYS_MAX /\
  (r.1 = true -> forall i d, cell r.2.1 i = Some d -> ptr d = 0) /\
  ((forall f args x, effect f args x = []) -> r.1 = true /\ r.2.2 = flat_map (due kt) (seqZ 0 KEYS_MAX)).
Proof.
  intros Hw. cbn zeta. destruct (destroy_rounds_spec PTHREAD_DESTRUCTOR_ITERATIONS (kt, [])) as [H1 H2]. unfold destroy_KeyTable. split_and!; [cbn [snd length] in H1; lia|intros Hr; by apply all_cleared_spec, H2|].
  intros He. destruct (round_spec KEY_1STLEVEL_SIZE kt [] He Hw) as (kt' & E & Hw' & Hc); [done|]. rewrite <- clear_round_all in E.
  assert (all_cleared kt' = true) as Ha. { apply all_cleared_true; [done|]. intros i d Hi. rewrite Hc by done. destruct (Z.ltb_spec i (KEY_1STLEVEL_SIZE * KEY_2NDLEVEL_SIZE)) as [|Hx]; [|unfold KEYS_MAX in Hi; lia]. destruct (cell kt i) as [x|]; [|done]. by intros [= <-]. }
  unfold PTHREAD_DESTRUCTOR_ITERATIONS. cbn [destroy_rounds]. rewrite E. cbn [fst snd]. rewrite Ha. done.
Qed.
End Destroy.
Definition sample_infos : list KeyInfo := [mkInfo 3 (Some 1%nat) 7; mkInfo 1 None 0; mkInfo 5 (Some 2%nat) 8].
Definition sample_table : KeyTable := Some ([mkData 3 50; mkData 1 60; mkData 4 70] ++ replicate 29 (mkData 0 0)) :: replicate 30 None.
Lemma keytable_destroy_witness : wf sample_table /\ (destroy_KeyTable sample_infos (fun _ _ _ => []) sample_table).1 = true /\ (destroy_KeyTable sample_infos (fun _ _ _ => []) sample_table).2.2 = [(1%nat, 7, 50)].
Proof.
  assert (wf sample_table) as Hw. { split; [done|]. intros [|i] st; [by intros [= <-]|]. unfold sample_table. cbn [lookup list_lookup]. intros Hi. by apply lookup_replicate in Hi as [[=] _]. }
  split; [done|]. destruct (keytable_destroy sample_infos (fun _ _ _ => []) sample_table Hw) as (_ & _ & H). destruct (H ltac:(done)) as [-> ->]. split; [done|]. vm_compute. reflexivity.
Defined.
(** A destructor that always stores again is called four times, and the table is left. *)
Lemma keytable_destroy_gives_up : let r := destroy_KeyTable sample_infos (fun f _ x => if (f =? 1)%nat then [(mkKey 0 3, x + 1)] else []) sample_table in r.1 = false /\ r.2.2 = [(1%nat, 7, 50); (1%nat, 7, 51); (1%nat, 7, 52); (1%nat, 7, 53)].
Proof. vm_compute. done. Qed.

End KT.
