(* ===== verification/KeyPool.v ===== *)
(** * The pool of tables of thread-specific data (src/src-bthread/key.cpp)

    Lists of tables, linked through their [next] fields, one for every thread and
    one for all, and the pool that lends the tables to bthreads.  Any number of
    threads, each running one bthread at a time; a step is a section under the lock
    of the pool or an access outside it.  What is in a table is in [BthreadKey]. *)
From S2P Require Import Prelude.

Module KP.

(** [next] of every table that has not been deleted. *)
Abbreviation heap := (gmap nat (option nat)).
Record KeyTableList := mkL { _head : option nat; _tail : option nat; _length : Z }.
Definition new_list : KeyTableList := mkL None None 0.
(** [None] is an access to a table that has been deleted. *)
Definition append (h : heap) (L : KeyTableList) (kt : nat) : option (heap * KeyTableList) :=
  _ ← h !! kt;
  match _head L with
  | None => Some (<[kt := None]> h, mkL (Some kt) (Some kt) (u32 (_length L + 1)))
  | Some _ =>
      t ← _tail L; _ ← h !! t;
      Some (<[kt := None]> (<[t := Some kt]> h), mkL (_head L) (Some kt) (u32 (_length L + 1)))
  end.
Definition remove_front (h : heap) (L : KeyTableList) : option (option nat * KeyTableList) :=
  match _head L with
  | None => Some (None, L)
  | Some temp =>
      n ← h !! temp;
      Some (Some temp, mkL n (match n with None => None | Some _ => _tail L end) (u32 (_length L - 1)))
  end.
(** The loop of [move_first_n_to_target]: the table before [current], [current], the count. *)
Fixpoint walk (h : heap) (size : nat) (prev current : option nat) (count : Z) : option (option nat * option nat * Z) :=
  match size, current with
  | Datatypes.S size, Some c => n ← h !! c; walk h size current n (count + 1)
  | _, _ => Some (prev, current, count)
  end.
Definition move_first_n_to_target (h : heap) (L : KeyTableList) (target : option nat) (size : Z) : option (heap * KeyTableList * option nat * Z) :=
  if (_length L <? size) || match _head L with None => true | Some _ => false end then Some (h, L, target, 0)
  else
    '(prev, current, count) ← walk h (Z.to_nat size) None (_head L) 0;
    match prev with
    | None => Some (h, L, target, count)
    | Some p =>
        _ ← h !! p;
        Some (<[p := target]> h, mkL current (match current with None => None | Some _ => _tail L end) (u32 (_length L - count)), _head L, count)
    end.

(** *** Lists *)

Fixpoint chain (h : heap) (p : option nat) (l : list nat) : Prop :=
  match l with [] => p = None | x :: l' => p = Some x /\ exists n, h !! x = Some n /\ chain h n l' end.
Definition rep (h : heap) (L : KeyTableList) (l : list nat) : Prop := chain h (_head L) l /\ _tail L = last l /\ _length L = Z.of_nat (length l).
Lemma kp_chain_frame h h' p l : (forall x, x ∈ l -> h' !! x = h !! x) -> chain h p l -> chain h' p l.
Proof.
  revert p. induction l as [|x l IH]; intros p H; cbn [chain]; [done|]. intros (-> & n & Hn & Hc). split; [done|]. exists n. rewrite H by set_solver. split; [done|]. apply IH; [|done]. intros y Hy. apply H. set_solver.
Qed.
Lemma chain_alive h p l x : chain h p l -> x ∈ l -> is_Some (h !! x).
Proof. revert p. induction l as [|y l IH]; intros p; cbn [chain]; [set_solver|]. intros (_ & n & Hn & Hc) [->|Hx]%elem_of_cons; [by eexists|by eapply IH]. Qed.
(** Another continuation after the last table. *)
Lemma chain_relink h p l x q l2 : NoDup (l ++ [x]) -> (forall y, y ∈ l2 -> y ∉ l ++ [x]) -> chain h p (l ++ [x]) -> chain h q l2 -> chain (<[x := q]> h) p (l ++ x :: l2).
Proof.
  revert p. induction l as [|y l IH]; intros p Hnd Hd; cbn [app chain] in *.
  - intros (-> & n & Hn & _) Hq. split; [done|]. exists q. rewrite lookup_insert_eq. split; [done|]. apply (kp_chain_frame h); [|done]. intros z Hz. rewrite lookup_insert_ne; [done|]. specialize (Hd z Hz). set_solver.
  - intros (-> & n & Hn & Hc) Hq. apply NoDup_cons in Hnd as [Hy Hnd]. split; [done|]. exists n. rewrite lookup_insert_ne by set_solver. split; [done|]. apply IH; try done. intros z Hz. specialize (Hd z Hz). set_solver.
Qed.
Lemma kp_append_spec h L l kt : rep h L l -> kt ∉ l -> NoDup l -> is_Some (h !! kt) -> Z.of_nat (length l) + 1 < 2 ^ 32 ->
  exists h' L', append h L kt = Some (h', L') /\ rep h' L' (l ++ [kt]) /\ (forall x, x ∉ l ++ [kt] -> h' !! x = h !! x) /\ (forall x, is_Some (h !! x) -> is_Some (h' !! x)).
Proof.
  intros (Hc & Ht & Hl) Hk Hnd [n0 Hn0] Hb. unfold append. rewrite Hn0. cbn [mbind option_bind]. assert (u32 (_length L + 1) = Z.of_nat (length (l ++ [kt]))) as El by (rewrite length_app, Hl, u32_small by (unfold is_u32; lia); cbn; lia).
  destruct (last l) as [t|] eqn:Et; [|apply last_None in Et as ->].
  2: { cbn in Hc. rewrite Hc. eexists _, _. split; [done|]. split_and!.
    + split_and!; [|done|exact El]. cbn. split; [done|]. exists None. by rewrite lookup_insert_eq.
    + intros x Hx. rewrite lookup_insert_ne by set_solver. done.
    + intros x Hx. destruct (decide (x = kt)) as [->|]; [rewrite lookup_insert_eq; by eexists|by rewrite lookup_insert_ne]. }
  apply last_Some in Et as [l1 E1]. assert (exists x, _head L = Some x) as [x Hh] by (destruct l; [by destruct l1|destruct Hc as [-> _]; eauto]). rewrite Hh, Ht. cbn [mbind option_bind].
    destruct (chain_alive h _ _ t Hc) as [nt Hnt]; [rewrite E1; set_solver|]. rewrite Hnt. cbn [mbind option_bind]. eexists _, _. split; [done|]. split_and!.
    + split_and!; [|by rewrite last_snoc|by rewrite El]. cbn [_head]. rewrite E1, <- app_assoc. cbn [app]. rewrite insert_insert_ne by (rewrite E1 in Hk; set_solver). apply chain_relink; [by rewrite <- E1|intros y ->%list_elem_of_singleton; by rewrite <- E1| |].
      * rewrite <- E1, <- Hh. apply (kp_chain_frame h); [|done]. intros y Hy. rewrite lookup_insert_ne; [done|]. by intros ->.
      * cbn. split; [done|]. exists None. by rewrite lookup_insert_eq.
    + intros y Hy. rewrite !lookup_insert_ne; [done|rewrite E1 in Hy; set_solver|set_solver].
    + intros y Hy. destruct (decide (y = kt)) as [->|]; [rewrite lookup_insert_eq; by eexists|rewrite lookup_insert_ne by done]. destruct (decide (y = t)) as [->|]; [rewrite lookup_insert_eq; by eexists|by rewrite lookup_insert_ne].
Qed.
Lemma remove_front_spec h L l : rep h L l -> Z.of_nat (length l) < 2 ^ 32 -> exists L', remove_front h L = Some (head l, L') /\ rep h L' (tail l).
Proof.
  intros (Hc & Ht & Hl) Hb. unfold remove_front. destruct l as [|x l]; cbn [chain] in Hc; [rewrite Hc; by exists L|]. destruct Hc as (-> & n & Hn & Hc). rewrite Hn. cbn [mbind option_bind]. eexists. split; [done|]. cbn [tail].
  cbn [length] in Hl, Hb. split_and!; cbn [_head _tail _length]; [done| |rewrite Hl, u32_small by (unfold is_u32; lia); lia]. destruct l as [|y l]; cbn [chain] in Hc; [by rewrite Hc|]. destruct Hc as [-> _]. rewrite Ht. done.
Qed.
Lemma walk_spec h n : forall prev p l count, chain h p l -> (n <= length l)%nat -> exists current, walk h n prev p count = Some (match last (take n l) with None => prev | x => x end, current, count + Z.of_nat n) /\ chain h current (drop n l).
Proof.
  induction n as [|n IH]; intros prev p l count Hc Hn; cbn [walk].
  - exists p. rewrite take_0, drop_0. split; [cbn; do 2 f_equal; lia|done].
  - destruct l as [|x l]; cbn [length] in Hn; [lia|]. cbn [chain] in Hc. destruct Hc as (-> & m & Hm & Hc). rewrite Hm. cbn [mbind option_bind]. destruct (IH (Some x) m l (count + 1) Hc ltac:(lia)) as (cur & -> & Hd). exists cur. split; [|done]. cbn [take firstn].
    f_equal. f_equal; [|lia]. f_equal. destruct (take n l) as [|y k] eqn:Ek; [done|]. rewrite !last_cons. by destruct (last k).
Qed.
Lemma move_first_n_spec h L l target tl size : rep h L l -> chain h target tl -> NoDup (l ++ tl) -> Z.of_nat (length l) < 2 ^ 32 -> 0 <= size ->
  exists h' L' target' n, move_first_n_to_target h L target size = Some (h', L', target', Z.of_nat n) /\ n = (if decide (size <= Z.of_nat (length l)) then Z.to_nat size else 0%nat) /\
    rep h' L' (drop n l) /\ chain h' target' (take n l ++ tl) /\ (forall x, x ∉ l -> h' !! x = h !! x) /\ (forall x, is_Some (h !! x) -> is_Some (h' !! x)).
Proof.
  intros HR Ht Hnd Hb Hs. pose proof HR as (Hc & Hl & Hn). unfold move_first_n_to_target. rewrite Hn. destruct (Z.ltb_spec (Z.of_nat (length l)) size) as [Hlt|Hge]; cbn [orb].
  { exists h, L, target, 0%nat. rewrite decide_False by lia. rewrite take_0, drop_0. split_and!; try done. }
  rewrite decide_True by lia. destruct (decide (size = 0)) as [->|Hz].
  { exists h, L, target, 0%nat. rewrite take_0, drop_0. split_and!; try done. destruct (_head L); [|done]. done. }
  assert (exists x, _head L = Some x) as [x Hh] by (destruct l; [cbn in *; lia|destruct Hc as [-> _]; eauto]). rewrite Hh. set (n := Z.to_nat size).
  rewrite <- Hh. destruct (walk_spec h n None _ l 0 Hc) as (cur & -> & Hd); [lia|]. cbn [mbind option_bind]. assert (exists k p, take n l = k ++ [p]) as (k & p & Ek).
  { destruct (last (take n l)) as [p|] eqn:E; [apply last_Some in E as [k E]; eauto|]. apply last_None, (f_equal length) in E. rewrite length_take in E. cbn in E. lia. }
  rewrite Ek, last_snoc. assert (l = k ++ p :: drop n l) as El by (rewrite <- (take_drop n l) at 1; rewrite Ek, <- app_assoc; done).
  assert (chain h (_head L) (take n l ++ drop n l)) as Hc' by (by rewrite take_drop). destruct (chain_alive h _ _ p Hc) as [q Hq]; [rewrite El; set_solver|]. rewrite Hq. cbn [mbind option_bind].
  rewrite El in Hnd. rewrite <- app_assoc in Hnd. cbn [app] in Hnd. apply NoDup_app in Hnd as (Hk & Hkd & Hnd). apply NoDup_cons in Hnd as [Hp Hnd]. apply NoDup_app in Hnd as (Hdn & Hdd & _).
  exists (<[p := target]> h), (mkL cur (match cur with None => None | Some _ => _tail L end) (u32 (_length L - (0 + Z.of_nat n)))), (_head L), n. split; [by rewrite Hn|]. split; [done|]. split_and!.
  - split_and!; cbn [_head _tail _length].
    + apply (kp_chain_frame h); [|done]. intros y Hy. rewrite lookup_insert_ne; [done|]. intros <-. set_solver.
    + destruct (drop n l) as [|y d] eqn:Ed; [by destruct cur|]. cbn [chain] in Hd. destruct Hd as [-> _]. rewrite Hl, El. by rewrite last_app, last_cons, last_cons; destruct (last d).
    + rewrite length_drop, Hn, u32_small by (unfold is_u32; lia). lia.
  - rewrite Ek, <- app_assoc. cbn [app]. rewrite Ek in Hc'. assert (chain h (_head L) (k ++ p :: drop n l)) as Hc2 by (by rewrite <- El). clear -Hc2 Ht Hk Hkd Hp. revert Hc2. generalize (_head L) as h0. induction k as [|y k IH]; intros h0; cbn [app chain].
    + intros (-> & _). split; [done|]. exists target. rewrite lookup_insert_eq. split; [done|]. apply (kp_chain_frame h); [|done]. intros z Hz. rewrite lookup_insert_ne; [done|]. intros <-. set_solver.
    + intros (-> & m & Hm & Hc2). split; [done|]. exists m. apply NoDup_cons in Hk as [Hy Hk]. rewrite lookup_insert_ne by (intros <-; apply (Hkd p); set_solver). split; [done|]. apply IH; try done. intros z Hz. apply Hkd. set_solver.
  - intros y Hy. rewrite lookup_insert_ne; [done|]. intros <-. apply Hy. rewrite El. set_solver.
  - intros y Hy. destruct (decide (y = p)) as [->|]; [rewrite lookup_insert_eq; by eexists|by rewrite lookup_insert_ne].
Qed.

(** *** The pool *)

(** The sizes of the configuration: how many tables a thread takes from the common
    list, and how long its own may get. *)
Class Config := { borrow_from_globle_size : nat; key_table_list_size : Z }.
Section Pool.
Context {config : Config}.
Inductive PC :=
| Idle                          (* the bthread has no table *)
| Use (kt : nat)
| BRd                           (* in borrow_keytable, before its first section *)
| BFree (list : bool)           (* before the test of free_keytables; [list] is not NULL *)
| BWr (list : bool)
| RRd (kt : nat)                (* in return_keytable *)
| RWr
| DFree (kt : option nat)       (* in bthread_keytable_pool_destroy, what is left to delete *)
| VStat (nfree : Z) | VNew (n : Z) | VPush (n : Z) (kt : nat).   (* in bthread_keytable_pool_reserve *)
(** [list_ok]: [pool->list] has not been deleted; [fresh] counts the tables that
    have been made, [dead] are those that have been deleted. *)
Record S := mkS { nexts : heap; lists : list KeyTableList; list_ok : bool; free_keytables : option nat; size_ : Z; destroyed : bool; pcs : list PC; dead : list nat; fresh : nat }.
Definition set_pc (i : nat) (p : PC) (s : S) : S := mkS (nexts s) (lists s) (list_ok s) (free_keytables s) (size_ s) (destroyed s) (<[i := p]> (pcs s)) (dead s) (fresh s).
Definition set_list (h : heap) (i : nat) (L : KeyTableList) (s : S) : S := mkS h (<[i := L]> (lists s)) (list_ok s) (free_keytables s) (size_ s) (destroyed s) (pcs s) (dead s) (fresh s).
Definition set_free (h : heap) (f : option nat) (z : Z) (s : S) : S := mkS h (lists s) (list_ok s) f z (destroyed s) (pcs s) (dead s) (fresh s).
Definition new_table (s : S) : nat * S := (fresh s, mkS (<[fresh s := None]> (nexts s)) (lists s) (list_ok s) (free_keytables s) (size_ s) (destroyed s) (pcs s) (dead s) (Datatypes.S (fresh s))).
Definition delete_table (kt : nat) (s : S) : option S :=
  _ ← nexts s !! kt; Some (mkS (delete kt (nexts s)) (lists s) (list_ok s) (free_keytables s) (size_ s) (destroyed s) (pcs s) (dead s ++ [kt]) (fresh s)).

(** [borrow_keytable]. *)
Definition borrow_list (s : S) (i : nat) : option S :=
  if list_ok s then
    L ← lists s !! i; '(p, L) ← remove_front (nexts s) L;
    let s := set_list (nexts s) i L s in
    Some (set_pc i (match p with Some kt => Use kt | None => BFree true end) s)
  else Some (set_pc i (BFree false) s).
Fixpoint borrow_some (n : nat) (s : S) (i : nat) : option S :=
  match n with
  | 0%nat => Some s
  | Datatypes.S n =>
      match free_keytables s with
      | None => Some s
      | Some p =>
          f ← nexts s !! p; L ← lists s !! i;
          '(h, L) ← append (nexts s) L p;
          borrow_some n (set_list h i L (set_free h f (u64 (size_ s - 1)) s)) i
      end
  end.
Definition borrow_global (s : S) (i : nat) (list : bool) : option S :=
  if list then
    if list_ok s then
      s ← borrow_some borrow_from_globle_size s i;
      L ← lists s !! i; '(result, L) ← remove_front (nexts s) L;
      Some (set_pc i (match result with Some kt => Use kt | None => Idle end) (set_list (nexts s) i L s))
    else None
  else
    match free_keytables s with
    | Some p => f ← nexts s !! p; Some (set_pc i (Use p) (set_free (nexts s) f (size_ s) s))
    | None => Some (set_pc i Idle s)
    end.
(** [return_keytable]. *)
Definition return_list (s : S) (i : nat) (kt : nat) : option S :=
  if destroyed s then s ← delete_table kt s; Some (set_pc i Idle s)
  else if list_ok s then
    L ← lists s !! i; '(h, L) ← append (nexts s) L kt;
    Some (set_pc i (if key_table_list_size <? _length L then RWr else Idle) (set_list h i L s))
  else None.
Definition return_global (s : S) (i : nat) : option S :=
  if destroyed s then Some (set_pc i Idle s)
  else if list_ok s then
    L ← lists s !! i; '(h, L, f, out) ← move_first_n_to_target (nexts s) L (free_keytables s) (key_table_list_size / 2);
    Some (set_pc i Idle (set_list h i L (set_free h f (u64 (size_ s + out)) s)))
  else None.
(** KeyTableList::~KeyTableList of all threads. *)
Fixpoint delete_chain (fuel : nat) (p : option nat) (s : S) : option S :=
  match p with
  | None => Some s
  | Some kt =>
      match fuel with
      | 0%nat => None
      | Datatypes.S fuel => n ← nexts s !! kt; s ← delete_table kt s; delete_chain fuel n s
      end
  end.
Fixpoint delete_lists (n : nat) (s : S) : option S :=
  match n with
  | 0%nat => Some s
  | Datatypes.S n => s ← delete_lists n s; L ← lists s !! n; s ← delete_chain (fresh s) (_head L) s; Some (set_list (nexts s) n new_list s)
  end.
Definition bthread_keytable_pool_destroy (s : S) (i : nat) : option S :=
  s ← (if list_ok s then delete_lists (length (lists s)) s else Some s);
  Some (set_pc i (DFree (free_keytables s)) (mkS (nexts s) (lists s) false None 0 true (pcs s) (dead s) (fresh s))).
Definition destroy_free (s : S) (i : nat) (p : option nat) : option S :=
  match p with
  | None => Some (set_pc i Idle s)
  | Some kt => n ← nexts s !! kt; s ← delete_table kt s; Some (set_pc i (DFree n) s)
  end.
(** [bthread_keytable_pool_reserve]; [data] is not NULL. *)
Definition reserve_new (s : S) (i : nat) (n : Z) : S :=
  if 0 <? n then let r := new_table s in set_pc i (VPush n r.1) r.2 else set_pc i Idle s.
Definition reserve_push (s : S) (i : nat) (n : Z) (kt : nat) (data : bool) : option S :=
  if destroyed s then s ← delete_table kt s; Some (set_pc i Idle s)
  else _ ← nexts s !! kt; Some (set_pc i (if data then VNew (n - 1) else Idle) (set_free (<[kt := free_keytables s]> (nexts s)) (Some kt) (u64 (size_ s + 1)) s)).

Inductive call := GetSpecific (i : nat) | SetSpecific (i : nat) | TaskEnd (i : nat) | Destroy (i : nat) | Reserve (i : nat) (nfree : Z) | Go (i : nat) (data : bool).
Definition go (s : S) (i : nat) (data : bool) (p : PC) : option S :=
  match p with
  | BRd => borrow_list s i
  | BFree l => Some (set_pc i (match free_keytables s with None => Idle | Some _ => BWr l end) s)
  | BWr l => borrow_global s i l
  | RRd kt => return_list s i kt
  | RWr => return_global s i
  | DFree p => destroy_free s i p
  | VStat nfree => Some (set_pc i (VNew (nfree - size_ s)) s)
  | VNew n => Some (reserve_new s i n)
  | VPush n kt => reserve_push s i n kt data
  | Idle | Use _ => Some s
  end.
(** [None] is an access to memory that has been deleted; a call that does not fit
    what its thread does, does nothing. *)
Definition do_call (s : S) (c : call) : option S :=
  match c with
  | GetSpecific i => match pcs s !! i with Some Idle => Some (if list_ok s || match free_keytables s with None => false | Some _ => true end then set_pc i BRd s else s) | _ => Some s end
  | SetSpecific i => match pcs s !! i with Some Idle => let r := new_table s in Some (set_pc i (Use r.1) r.2) | _ => Some s end
  | TaskEnd i => match pcs s !! i with Some (Use kt) => Some (set_pc i (RRd kt) s) | _ => Some s end
  | Destroy i => match pcs s !! i with Some Idle => bthread_keytable_pool_destroy s i | _ => Some s end
  | Reserve i nfree => match pcs s !! i with Some Idle => Some (set_pc i (VStat nfree) s) | _ => Some s end
  | Go i data => match pcs s !! i with Some p => go s i data p | None => Some s end
  end.
Definition init (n : nat) : S := mkS ∅ (replicate n new_list) true None 0 false (replicate n Idle) [] 0.
Fixpoint run (l : list call) (s : S) : option S := match l with [] => Some s | c :: l => s ← do_call s c; run l s end.

(** *** The invariant *)

(** The tables that a thread has in its hands. *)
Definition hand (h : heap) (p : PC) (l : list nat) : Prop :=
  match p with Use kt | RRd kt | VPush _ kt => l = [kt] | DFree q => chain h q l | _ => l = [] end.
(** A thread that will use [pool->list]. *)
Definition uses_list (p : PC) : bool := match p with BFree true | BWr true => true | _ => false end.
Definition no_list (p : PC) : bool := match p with BFree false | BWr false => true | _ => false end.
Definition own (g : list nat * list nat) : list nat := g.1 ++ g.2.
(** [G]: the list of every thread and what it has in its hands; [fl]: the common list. *)
Record inv (s : S) (G : list (list nat * list nat)) (fl : list nat) : Prop := {
  i_len : length (lists s) = length G /\ length (pcs s) = length G;
  i_rep : forall i L g, lists s !! i = Some L -> G !! i = Some g -> rep (nexts s) L g.1;
  i_hand : forall i p g, pcs s !! i = Some p -> G !! i = Some g -> hand (nexts s) p g.2;
  i_free : chain (nexts s) (free_keytables s) fl;
  i_perm : concat (map own G) ++ fl ++ dead s ≡ₚ seq 0 (fresh s);
  i_alive : forall x, x ∈ concat (map own G) ++ fl -> is_Some (nexts s !! x);
  i_size : size_ s = Z.of_nat (length fl);
  i_fresh : Z.of_nat (fresh s) < 2 ^ 32;
  i_ok : list_ok s = negb (destroyed s);
  i_gone : destroyed s = true -> fl = [] /\ (forall i g, G !! i = Some g -> g.1 = []) /\ (forall i p, pcs s !! i = Some p -> uses_list p = false);
  i_null : forall i p, pcs s !! i = Some p -> no_list p = true -> destroyed s = true }.

Lemma hand_frame h h' p l : (forall x, x ∈ l -> h' !! x = h !! x) -> hand h p l -> hand h' p l.
Proof. intros H. destruct p; cbn; try done. by apply kp_chain_frame. Qed.
Lemma in_own G i g x : G !! i = Some g -> x ∈ own g -> x ∈ concat (map own G).
Proof. intros Hi Hx. destruct (concat_insert own G i g g Hi) as (R & E & _). rewrite E. set_solver. Qed.
(** One thread changes its list, its hands and the common list. *)
Lemma kp_upd s s' G fl i p L l hd p' L' l' hd' fl' : inv s G fl -> pcs s !! i = Some p -> lists s !! i = Some L -> G !! i = Some (l, hd) ->
  pcs s' = <[i := p']> (pcs s) -> lists s' = <[i := L']> (lists s) -> destroyed s' = destroyed s -> list_ok s' = list_ok s -> (fresh s <= fresh s')%nat -> Z.of_nat (fresh s') < 2 ^ 32 ->
  (forall x, x ∉ (l ++ hd) ++ fl -> (x < fresh s)%nat -> nexts s' !! x = nexts s !! x) ->
  rep (nexts s') L' l' -> hand (nexts s') p' hd' -> chain (nexts s') (free_keytables s') fl' ->
  (l' ++ hd') ++ fl' ++ dead s' ≡ₚ ((l ++ hd) ++ fl ++ dead s) ++ seq (fresh s) (fresh s' - fresh s) ->
  (forall x, x ∈ (l' ++ hd') ++ fl' -> is_Some (nexts s' !! x)) -> size_ s' = Z.of_nat (length fl') ->
  (destroyed s = true -> fl' = [] /\ l' = [] /\ uses_list p' = false) -> (no_list p' = true -> destroyed s = true) -> inv s' (<[i := (l', hd')]> G) fl'.
Proof.
  intros HI Hp HL HG Ep EL Ed Eo Hf Hf' Hn Hr Hh Hc HP Ha Hs Hgone Hnull. pose proof HI as [[J1 J2] J3 J4 J5 J6 J7 J8 J9 J10 J11 J12].
  destruct (concat_insert own G i (l, hd) (l', hd') HG) as (R & E1 & E2). change (own (l, hd)) with (l ++ hd) in E1. change (own (l', hd')) with (l' ++ hd') in E2.
  assert (NoDup ((l ++ hd) ++ R ++ fl ++ dead s)) as Hnd by (rewrite app_assoc, <- E1, J6; apply NoDup_seq).
  assert (forall x, x ∈ R -> nexts s' !! x = nexts s !! x) as HR.
  { intros x Hx. apply Hn.
    - intros [Hx'|Hx']%elem_of_app; apply NoDup_app in Hnd as (_ & Hd & Hnd); [by destruct (Hd x Hx'); set_solver|]. apply NoDup_app in Hnd as (_ & Hd2 & _). apply (Hd2 x Hx). set_solver.
    - assert (x ∈ seq 0 (fresh s)) as Hin by (rewrite <- J6, E1; set_solver). apply elem_of_seq in Hin. lia. }
  assert (forall j g x, j <> i -> G !! j = Some g -> x ∈ own g -> x ∈ R) as HjR.
  { intros j g x Hj Hg Hx. assert (x ∈ concat (map own (<[i := ([], [])]> G))) as Hin by (eapply in_own; [by rewrite list_lookup_insert_ne|done]). destruct (concat_insert own G i (l, hd) ([], []) HG) as (R' & E1' & E2'). rewrite E2' in Hin. cbn in Hin. assert (R ≡ₚ R') as -> by (eapply (Permutation_app_inv_l (l ++ hd)); etrans; [symmetry; exact E1|exact E1']). done. }
  pose proof (lookup_lt_Some _ _ _ HG) as Hlt. split; rewrite ?Ep, ?EL, ?Ed, ?Eo; try done.
  - by rewrite !length_insert.
  - intros j L1 g. destruct (decide (j = i)) as [->|Hj]; [rewrite !list_lookup_insert_eq by lia; by intros [= <-] [= <-]|]. rewrite !list_lookup_insert_ne by done. intros HL1 Hg. destruct (J3 j L1 g HL1 Hg) as (C1 & C2). split; [|done]. apply (kp_chain_frame (nexts s)); [|done]. intros x Hx. apply HR. apply (HjR j g); [done..|]. unfold own. set_solver.
  - intros j p1 g. destruct (decide (j = i)) as [->|Hj]; [rewrite !list_lookup_insert_eq by lia; by intros [= <-] [= <-]|]. rewrite !list_lookup_insert_ne by done. intros Hp1 Hg. apply (hand_frame (nexts s)); [|by eapply J4]. intros x Hx. apply HR. apply (HjR j g); [done..|]. unfold own. set_solver.
  - rewrite E2. replace (fresh s') with (fresh s + (fresh s' - fresh s))%nat by lia. rewrite seq_app, <- J6, E1. cbn [Nat.add]. rewrite <- !app_assoc in *. rewrite (Permutation_app_swap_app hd' R), (Permutation_app_swap_app l' R), HP. rewrite (Permutation_app_swap_app R), (Permutation_app_swap_app R hd). solve_Permutation.
  - intros x. rewrite E2. intros Hx. assert (x ∈ R \/ x ∈ (l' ++ hd') ++ fl') as [HxR|Hx'] by set_solver; [|by apply Ha]. rewrite HR by done. apply J7. rewrite E1. set_solver.
  - intros Hd. destruct (J11 Hd) as (_ & D2 & D3), (Hgone Hd) as (-> & -> & Hu). split_and!; [done| |].
    + intros j g [(<- & <- & _)|[_ Hg]]%list_lookup_insert_Some; [done|by eapply D2].
    + intros j q [(<- & <- & _)|[_ Hq]]%list_lookup_insert_Some; [done|by eapply D3].
  - intros j q [(<- & <- & _)|[_ Hq]]%list_lookup_insert_Some Hx; [by apply Hnull|by eapply J12].
Qed.

(** *** Every operation *)

Lemma kp_at s G fl i p : inv s G fl -> pcs s !! i = Some p -> exists L l hd, lists s !! i = Some L /\ G !! i = Some (l, hd) /\ rep (nexts s) L l /\ hand (nexts s) p hd /\ NoDup ((l ++ hd) ++ fl) /\
  (forall x, x ∈ (l ++ hd) ++ fl -> is_Some (nexts s !! x) /\ (x < fresh s)%nat) /\ (length ((l ++ hd) ++ fl) <= fresh s)%nat.
Proof.
  intros HI Hp. pose proof HI as [[J1 J2] J3 J4 J5 J6 J7 J8 J9 J10 J11 J12]. pose proof (lookup_lt_Some _ _ _ Hp) as Hlt. destruct (lookup_lt_is_Some_2 G i ltac:(lia)) as [[l hd] HG]. destruct (lookup_lt_is_Some_2 (lists s) i ltac:(lia)) as [L HL]. exists L, l, hd.
  destruct (concat_insert own G i (l, hd) (l, hd) HG) as (R & E & _). change (own (l, hd)) with (l ++ hd) in E. pose proof J6 as HP. rewrite E in HP.
  assert ((l ++ hd) ++ fl ++ R ++ dead s ≡ₚ seq 0 (fresh s)) as HP2 by (rewrite <- HP; solve_Permutation). rewrite app_assoc in HP2. split_and!; [done|done|by apply (J3 i L _ HL HG)|by apply (J4 i p _ Hp HG)| | |].
  - assert (NoDup (((l ++ hd) ++ fl) ++ R ++ dead s)) as Hnd by (rewrite HP2; apply NoDup_seq). by apply NoDup_app in Hnd as [Hnd _].
  - intros x Hx. split; [apply J7; rewrite E; set_solver|]. assert (x ∈ seq 0 (fresh s)) as Hin by (rewrite <- HP2; set_solver). apply elem_of_seq in Hin. lia.
  - apply Permutation_length in HP2. rewrite length_app, length_seq in HP2. lia.
Qed.
Lemma seq_none n : seq n (n - n) = [].
Proof. by rewrite Nat.sub_diag. Qed.
(** Only the program counter changes. *)
Lemma pc_inv s G fl i p p' : inv s G fl -> pcs s !! i = Some p -> (forall hd, hand (nexts s) p hd -> hand (nexts s) p' hd) -> (destroyed s = true -> uses_list p' = false) -> (no_list p' = true -> destroyed s = true) -> exists G', inv (set_pc i p' s) G' fl.
Proof.
  intros HI Hp Hh Hu Hn. destruct (kp_at s G fl i p HI Hp) as (L & l & hd & HL & HG & HR & HH & Hnd & Hal & Hlen). exists (<[i := (l, hd)]> G). eapply (kp_upd s _ G fl i p L l hd p' L l hd fl); try done; cbn [set_pc nexts lists destroyed list_ok free_keytables size_ pcs dead fresh]; try apply HI; auto.
  - by rewrite list_insert_id.
  - rewrite seq_none. by rewrite app_nil_r.
  - intros x Hx. by apply Hal.
  - intros Hd. destruct (i_gone _ _ _ HI Hd) as (-> & H2 & _). split_and!; [done|exact (H2 i _ HG)|by apply Hu].
Qed.
Lemma fl_nil s G : inv s G [] -> free_keytables s = None.
Proof. intros HI. exact (i_free _ _ _ HI). Qed.
(** A table is deleted. *)
Lemma kp_delete_inv s G fl i p l hd L kt p' hd' l' fl' L' f' z' : inv s G fl -> pcs s !! i = Some p -> lists s !! i = Some L -> G !! i = Some (l, hd) -> (l ++ hd) ++ fl ≡ₚ kt :: (l' ++ hd') ++ fl' -> (forall x, x ∈ l' -> x ∈ l) -> 
  (forall h, (forall x, x <> kt -> h !! x = nexts s !! x) -> rep h L' l' /\ hand h p' hd' /\ chain h f' fl') -> z' = Z.of_nat (length fl') -> (destroyed s = true -> fl' = [] /\ l' = [] /\ uses_list p' = false) -> (no_list p' = true -> destroyed s = true) ->
  inv (mkS (delete kt (nexts s)) (<[i := L']> (lists s)) (list_ok s) f' z' (destroyed s) (<[i := p']> (pcs s)) (dead s ++ [kt]) (fresh s)) (<[i := (l', hd')]> G) fl' /\ is_Some (nexts s !! kt).
Proof.
  intros HI Hp HL HG HP Hsub HX Hz Hg Hn. destruct (kp_at s G fl i p HI Hp) as (L0 & l0 & hd0 & HL0 & HG0 & HR & HH & Hnd & Hal & Hlen). rewrite HG in HG0. injection HG0 as <- <-.
  destruct (HX (delete kt (nexts s)) ltac:(intros x Hx; by rewrite lookup_delete_ne)) as (X1 & X2 & X3). rewrite HP in Hnd. apply NoDup_cons in Hnd as [Hkt Hnd]. split; [|apply Hal; rewrite HP; set_solver].
  eapply (kp_upd s _ G fl i p L l hd); try done; cbn [nexts lists destroyed list_ok free_keytables size_ pcs dead fresh]; try apply HI.
  - intros x Hx _. rewrite lookup_delete_ne; [done|]. intros <-. apply Hx. rewrite HP. set_solver.
  - rewrite seq_none, app_nil_r. rewrite !app_assoc, HP. cbn. rewrite <- app_assoc. solve_Permutation.
  - intros x Hx. rewrite lookup_delete_ne by (intros <-; done). apply Hal. rewrite HP. set_solver.
Qed.
Lemma rep_frame h h' L l : (forall x, x ∈ l -> h' !! x = h !! x) -> rep h L l -> rep h' L l.
Proof. intros H (H1 & H2). split; [by apply (kp_chain_frame h)|done]. Qed.
Lemma return_list_inv s G fl i kt : inv s G fl -> pcs s !! i = Some (RRd kt) -> exists s' G', return_list s i kt = Some s' /\ inv s' G' fl.
Proof.
  intros HI Hp. destruct (kp_at s G fl i _ HI Hp) as (L & l & hd & HL & HG & HR & HH & Hnd & Hal & Hlen). cbn [hand] in HH. subst hd. unfold return_list. destruct (destroyed s) eqn:Ed.
  - destruct (i_gone _ _ _ HI Ed) as (-> & Hl & _). pose proof (Hl i _ HG) as El. cbn in El. subst l. destruct (kp_delete_inv s G [] i (RRd kt) [] [kt] L kt Idle [] [] [] L (free_keytables s) (size_ s) HI Hp HL HG) as [HI' [n Hn]]; try done; [|by rewrite (i_size _ _ _ HI)|].
    { intros h Hh. split_and!; [by apply (rep_frame (nexts s)); [set_solver|]|done|apply HI]. }
    unfold delete_table. rewrite Hn. cbn [mbind option_bind]. eexists _, _. split; [done|]. rewrite list_insert_id in HI' by done. exact HI'.
  - pose proof (i_ok _ _ _ HI) as Eo. rewrite Ed in Eo. rewrite Eo, HL. cbn [negb mbind option_bind]. rewrite <- app_assoc in Hnd. apply NoDup_app in Hnd as (Hnl & Hd1 & Hnd). apply NoDup_app in Hnd as (_ & Hd2 & Hnf).
    destruct (kp_append_spec (nexts s) L l kt HR) as (h' & L' & -> & HR' & Hh' & Ha'); [intros Hx; apply (Hd1 kt Hx); set_solver|done|apply Hal; set_solver|pose proof (i_fresh _ _ _ HI); rewrite !length_app in Hlen; cbn in Hlen; lia|]. cbn [mbind option_bind].
    eexists _, (<[i := (l ++ [kt], [])]> G). split; [done|]. eapply (kp_upd s _ G fl i (RRd kt) L l [kt]); try done; cbn [set_pc set_list nexts lists destroyed list_ok free_keytables size_ pcs dead fresh]; try apply HI.
    + intros x Hx _. apply Hh'. set_solver.
    + by destruct (_ <? _).
    + apply (kp_chain_frame (nexts s)); [|apply HI]. intros x Hx. apply Hh'. intros [Hxl|Hxk]%elem_of_app; [apply (Hd1 x Hxl); set_solver|apply (Hd2 x Hxk Hx)].
    + by rewrite seq_none, !app_nil_r.
    + intros x Hx. apply Ha', Hal. set_solver.
    + by rewrite Ed.
    + by destruct (_ <? _).
Qed.
Lemma new_table_inv s G fl i p p' : inv s G fl -> pcs s !! i = Some p -> (forall h hd, hand h p hd -> hd = []) -> Z.of_nat (fresh s) + 1 < 2 ^ 32 -> (forall h, hand h p' [fresh s]) -> uses_list p' = false -> no_list p' = false -> exists G', inv (set_pc i p' (new_table s).2) G' fl.
Proof.
  intros HI Hp Hh Hf Hh' Hu Hn. destruct (kp_at s G fl i p HI Hp) as (L & l & hd & HL & HG & HR & HH & Hnd & Hal & Hlen). rewrite (Hh _ _ HH) in *. exists (<[i := (l, [fresh s])]> G).
  assert (forall x, (x < fresh s)%nat -> <[fresh s := None]> (nexts s) !! x = nexts s !! x) as HX by (intros x Hx; rewrite lookup_insert_ne; [done|lia]).
  eapply (kp_upd s _ G fl i p L l []); try done; cbn [set_pc new_table snd nexts lists destroyed list_ok free_keytables size_ pcs dead fresh]; try apply HI; try lia.
  - by rewrite list_insert_id.
  - intros x _. apply HX.
  - apply (rep_frame (nexts s)); [|done]. intros x Hx. apply HX, Hal. set_solver.
  - apply (kp_chain_frame (nexts s)); [|apply HI]. intros x Hx. apply HX, Hal. set_solver.
  - replace (Datatypes.S (fresh s) - fresh s)%nat with 1%nat by lia. cbn [seq]. solve_Permutation.
  - intros x Hx. destruct (decide (x = fresh s)) as [->|]; [rewrite lookup_insert_eq; by eexists|]. rewrite lookup_insert_ne by done. apply Hal. set_solver.
  - intros Hd. destruct (i_gone _ _ _ HI Hd) as (-> & H2 & _). split_and!; [done|exact (H2 i _ HG)|done].
  - congruence.
Qed.
Lemma borrow_list_inv s G fl i : inv s G fl -> pcs s !! i = Some BRd -> exists s' G', borrow_list s i = Some s' /\ inv s' G' fl.
Proof.
  intros HI Hp. destruct (kp_at s G fl i _ HI Hp) as (L & l & hd & HL & HG & HR & HH & Hnd & Hal & Hlen). cbn [hand] in HH. subst hd. unfold borrow_list. pose proof (i_ok _ _ _ HI) as Eo. destruct (list_ok s).
  - rewrite HL. cbn [mbind option_bind]. destruct (remove_front_spec (nexts s) L l HR) as (L' & -> & HR'); [pose proof (i_fresh _ _ _ HI); rewrite !length_app in Hlen; lia|]. cbn [mbind option_bind].
    assert (destroyed s = false) as Ed by (by destruct (destroyed s)).
    eexists _, (<[i := (tail l, match head l with Some kt => [kt] | None => [] end)]> G). split; [done|]. eapply (kp_upd s _ G fl i BRd L l []); try done; cbn [set_pc set_list nexts lists destroyed list_ok free_keytables size_ pcs dead fresh]; try apply HI; try done.
    + by destruct l.
    + rewrite seq_none. destruct l; cbn [head tail app]; rewrite ?app_nil_r; solve_Permutation.
    + intros x Hx. apply Hal. destruct l; cbn [head tail] in Hx; set_solver.
    + by rewrite Ed.
    + by destruct l.
  - destruct (pc_inv s G fl i BRd (BFree false) HI Hp) as [G' HI']; [done|done|intros _; by destruct (destroyed s)|]. eauto.
Qed.
Lemma borrow_some_inv n : forall s G fl i, inv s G fl -> destroyed s = false -> pcs s !! i = Some (BWr true) -> exists s' G' fl', borrow_some n s i = Some s' /\ inv s' G' fl' /\ pcs s' = pcs s /\ destroyed s' = destroyed s.
Proof.
  induction n as [|n IH]; intros s G fl i HI Hd Hp; cbn [borrow_some]; [eauto 8|]. destruct (kp_at s G fl i _ HI Hp) as (L & l & hd & HL & HG & HR & HH & Hnd & Hal & Hlen). cbn [hand] in HH. subst hd. rewrite app_nil_r in *.
  pose proof (i_free _ _ _ HI) as Hc. destruct fl as [|p fl]; [cbn in Hc; rewrite Hc; eauto 8|]. cbn [chain] in Hc. destruct Hc as (-> & f & Hf & Hc). rewrite Hf, HL. cbn [mbind option_bind]. apply NoDup_app in Hnd as (Hnl & Hd1 & Hnd). apply NoDup_cons in Hnd as [Hpf Hnf].
  pose proof (i_fresh _ _ _ HI) as Hfr. rewrite length_app in Hlen. cbn [length] in Hlen. destruct (kp_append_spec (nexts s) L l p HR) as (h' & L' & -> & HR' & Hh' & Ha'); [intros Hx; apply (Hd1 p Hx); set_solver|done|by eexists|lia|]. cbn [mbind option_bind].
  assert (size_ s = 1 + Z.of_nat (length fl)) as Esz by (rewrite (i_size _ _ _ HI); cbn [length]; lia).
  edestruct (IH (set_list h' i L' (set_free h' f (u64 (size_ s - 1)) s)) (<[i := (l ++ [p], [])]> G) fl i) as (s' & G' & fl' & E & HI' & Ep & Ed); [|done|done|exists s', G', fl'; split_and!; done].
  eapply (kp_upd s _ G (p :: fl) i (BWr true) L l [] (BWr true)); try done; cbn [set_list set_free nexts lists destroyed list_ok free_keytables size_ pcs dead fresh]; try apply HI; try done.
  - by rewrite list_insert_id.
  - intros x Hx _. apply Hh'. set_solver.
  - apply (kp_chain_frame (nexts s)); [|done]. intros x Hx. apply Hh'. intros [Hxl|Hxp]%elem_of_app; [apply (Hd1 x Hxl); set_solver|apply list_elem_of_singleton in Hxp as ->; done].
  - rewrite seq_none. solve_Permutation.
  - intros x Hx. apply Ha', Hal. set_solver.
  - rewrite Esz, u64_small by (unfold is_u64; lia). lia.
  - by rewrite Hd.
Qed.
Lemma borrow_global_inv s G fl i b : inv s G fl -> pcs s !! i = Some (BWr b) -> exists s' G' fl', borrow_global s i b = Some s' /\ inv s' G' fl'.
Proof.
  intros HI Hp. unfold borrow_global. destruct b.
  - assert (destroyed s = false) as Hd by (destruct (destroyed s) eqn:E; [|done]; destruct (i_gone _ _ _ HI E) as (_ & _ & H3); by specialize (H3 i _ Hp)). rewrite (i_ok _ _ _ HI), Hd. cbn [negb].
    destruct (borrow_some_inv borrow_from_globle_size s G fl i HI Hd Hp) as (s1 & G1 & fl1 & -> & HI1 & Ep & Ed). cbn [mbind option_bind]. rewrite <- Ep in Hp. destruct (kp_at s1 G1 fl1 i _ HI1 Hp) as (L & l & hd & HL & HG & HR & HH & Hnd & Hal & Hlen). cbn [hand] in HH. subst hd.
    rewrite HL. cbn [mbind option_bind]. destruct (remove_front_spec (nexts s1) L l HR) as (L' & -> & HR'); [pose proof (i_fresh _ _ _ HI1); rewrite !length_app in Hlen; lia|]. cbn [mbind option_bind].
    eexists _, (<[i := (tail l, match head l with Some kt => [kt] | None => [] end)]> G1), fl1. split; [done|]. eapply (kp_upd s1 _ G1 fl1 i (BWr true) L l []); try done; cbn [set_pc set_list nexts lists destroyed list_ok free_keytables size_ pcs dead fresh]; try apply HI1; try done.
    + by destruct l.
    + rewrite seq_none. destruct l; cbn [head tail app]; rewrite ?app_nil_r; solve_Permutation.
    + intros x Hx. apply Hal. destruct l; cbn [head tail] in Hx; set_solver.
    + by rewrite Ed, Hd.
    + by destruct l.
  - pose proof (i_null _ _ _ HI i _ Hp eq_refl) as Hd. destruct (i_gone _ _ _ HI Hd) as (-> & _). rewrite (fl_nil _ _ HI). destruct (pc_inv s G [] i (BWr false) Idle HI Hp) as [G' HI']; try done. eauto.
Qed.
Lemma return_global_inv s G fl i : 0 <= key_table_list_size -> inv s G fl -> pcs s !! i = Some RWr -> exists s' G' fl', return_global s i = Some s' /\ inv s' G' fl'.
Proof.
  intros Hcfg HI Hp. unfold return_global. destruct (destroyed s) eqn:Hd; [destruct (pc_inv s G fl i RWr Idle HI Hp) as [G' HI']; try done; eauto|]. rewrite (i_ok _ _ _ HI), Hd. cbn [negb]. destruct (kp_at s G fl i _ HI Hp) as (L & l & hd & HL & HG & HR & HH & Hnd & Hal & Hlen). cbn [hand] in HH. subst hd. rewrite app_nil_r in *.
  rewrite HL. cbn [mbind option_bind]. pose proof (i_fresh _ _ _ HI) as Hfr. rewrite length_app in Hlen. destruct (move_first_n_spec (nexts s) L l (free_keytables s) fl (key_table_list_size / 2) HR (i_free _ _ _ HI) Hnd) as (h' & L' & f' & n & -> & En & HR' & Hc' & Hh' & Ha'); [lia|apply Z.div_pos; lia|]. cbn [mbind option_bind].
  assert (n <= length l)%nat as Hn by (subst n; case_decide; lia). eexists _, (<[i := (drop n l, [])]> G), (take n l ++ fl). split; [done|]. eapply (kp_upd s _ G fl i RWr L l []); try done; cbn [set_pc set_list set_free nexts lists destroyed list_ok free_keytables size_ pcs dead fresh]; try apply HI; try done.
  - intros x Hx _. apply Hh'. set_solver.
  - rewrite seq_none, !app_nil_r. rewrite <- (take_drop n l) at 3. solve_Permutation.
  - intros x Hx. apply Ha', Hal. rewrite <- (take_drop n l). set_solver.
  - rewrite (i_size _ _ _ HI), u64_small by (unfold is_u64; lia). rewrite length_app, length_take. lia.
  - by rewrite Hd.
Qed.
Lemma delete_chain_spec l : forall fuel p s, chain (nexts s) p l -> NoDup l -> (length l <= fuel)%nat ->
  exists h', delete_chain fuel p s = Some (mkS h' (lists s) (list_ok s) (free_keytables s) (size_ s) (destroyed s) (pcs s) (dead s ++ l) (fresh s)) /\ forall x, x ∉ l -> h' !! x = nexts s !! x.
Proof.
  induction l as [|x l IH]; intros fuel p s Hc Hnd Hf; cbn [chain length] in *; [subst p; exists (nexts s); rewrite app_nil_r; split; [by destruct fuel, s|done]|]. destruct Hc as (-> & n & Hn & Hc). destruct fuel as [|fuel]; [lia|]. apply NoDup_cons in Hnd as [Hx Hnd].
  cbn [delete_chain]. unfold delete_table. rewrite Hn. cbn [mbind option_bind]. edestruct (IH fuel n) as (h' & -> & Hh'); [|done|lia|].
  - cbn [nexts]. apply (kp_chain_frame (nexts s)); [|exact Hc]. intros y Hy. rewrite lookup_delete_ne; [done|]. by intros <-.
  - cbn [nexts lists list_ok free_keytables size_ destroyed pcs dead fresh] in *. exists h'. rewrite <- app_assoc. split; [done|]. intros y [Hy1 Hy2]%not_elem_of_cons. rewrite Hh' by done. by rewrite lookup_delete_ne.
Qed.
Lemma delete_lists_inv n : forall s G fl, inv s G fl -> destroyed s = false -> (n <= length (lists s))%nat -> exists s' G', delete_lists n s = Some s' /\ inv s' G' fl /\ pcs s' = pcs s /\ destroyed s' = false /\ free_keytables s' = free_keytables s /\ length (lists s') = length (lists s) /\ (forall j g, (j < n)%nat -> G' !! j = Some g -> g.1 = []).
Proof.
  induction n as [|n IH]; intros s G fl HI Hd Hn; cbn [delete_lists]; [exists s, G; split_and!; done || lia|]. destruct (IH s G fl HI Hd ltac:(lia)) as (s1 & G1 & -> & HI1 & Ep & Ed & Ef & El & Hg). cbn [mbind option_bind].
  destruct (i_len _ _ _ HI1) as [Len1 Len2]. destruct (lookup_lt_is_Some_2 (pcs s1) n ltac:(lia)) as [p Hp]. destruct (kp_at s1 G1 fl n p HI1 Hp) as (L & l & hd & HL & HG & HR & HH & Hnd & Hal & Hlen). rewrite HL. cbn [mbind option_bind]. rewrite <- app_assoc in Hnd. apply NoDup_app in Hnd as (Hnl & Hd1 & Hnd). apply NoDup_app in Hnd as (_ & Hd2 & _).
  destruct (delete_chain_spec l (fresh s1) (_head L) s1 (proj1 HR) Hnl) as (h' & -> & Hh'); [rewrite !length_app in Hlen; lia|]. cbn [mbind option_bind]. eexists _, (<[n := ([], hd)]> G1). split; [done|]. split; [|split_and!; try done].
  - eapply (kp_upd s1 _ G1 fl n p L l hd p new_list [] hd fl); try done; cbn [set_list nexts lists destroyed list_ok free_keytables size_ pcs dead fresh]; try apply HI1; try done.
    + by rewrite list_insert_id.
    + intros x Hx _. apply Hh'. set_solver.
    + apply (hand_frame (nexts s1)); [|done]. intros x Hx. apply Hh'. intros Hxl. apply (Hd1 x Hxl). set_solver.
    + apply (kp_chain_frame (nexts s1)); [|apply HI1]. intros x Hx. apply Hh'. intros Hxl. apply (Hd1 x Hxl). set_solver.
    + rewrite seq_none. solve_Permutation.
    + intros x Hx. rewrite Hh'; [apply Hal; set_solver|]. intros Hxl. apply (Hd1 x Hxl). set_solver.
    + by rewrite Ed.
    + intros Hno. exact (i_null _ _ _ HI1 n p Hp Hno).
  - cbn. by rewrite length_insert.
  - intros j g Hj. destruct (decide (j = n)) as [->|]; [rewrite list_lookup_insert_eq by (by eapply lookup_lt_Some); by intros [= <-]|]. rewrite list_lookup_insert_ne by done. intros Hjg. apply (Hg j g); [lia|done].
Qed.
Lemma kp_destroy_inv s G fl i : inv s G fl -> pcs s !! i = Some Idle -> (forall j p, pcs s !! j = Some p -> uses_list p = false) -> exists s' G', bthread_keytable_pool_destroy s i = Some s' /\ inv s' G' [].
Proof.
  intros HI Hp Hu. unfold bthread_keytable_pool_destroy. assert (exists s1 G1, (if list_ok s then delete_lists (length (lists s)) s else Some s) = Some s1 /\ inv s1 G1 fl /\ pcs s1 = pcs s /\ free_keytables s1 = free_keytables s /\ forall j g, G1 !! j = Some g -> g.1 = []) as (s1 & G1 & -> & HI1 & Ep & Ef & Hg).
  { rewrite (i_ok _ _ _ HI). destruct (destroyed s) eqn:Ed; cbn [negb]; [exists s, G; split_and!; try done; apply (i_gone _ _ _ HI Ed)|]. destruct (delete_lists_inv (length (lists s)) s G fl HI Ed) as (s1 & G1 & E & HI1 & Ep & _ & Ef & El & Hg); [lia|]. exists s1, G1. split_and!; try done. intros j g Hj. apply (Hg j g); [|done]. apply lookup_lt_Some in Hj. destruct (i_len _ _ _ HI1). lia. }
  cbn [mbind option_bind]. rewrite <- Ep in Hp. destruct (kp_at s1 G1 fl i _ HI1 Hp) as (L & l & hd & HL & HG & HR & HH & Hnd & Hal & Hlen). cbn [hand] in HH. subst hd. pose proof (Hg i _ HG) as El. cbn in El. subst l.
  eexists _, (<[i := ([], fl)]> G1). split; [done|]. pose proof HI1 as [[J1 J2] J3 J4 J5 J6 J7 J8 J9 J10 J11 J12]. destruct (concat_insert own G1 i ([], []) ([], fl) HG) as (R & E1 & E2). cbn in E1, E2. pose proof (lookup_lt_Some _ _ _ HG) as Hlt.
  split; cbn [set_pc nexts lists destroyed list_ok free_keytables size_ pcs dead fresh]; try done.
  - by rewrite !length_insert.
  - intros j L1 g HL1 [(<- & <- & _)|[_ Hj]]%list_lookup_insert_Some; [by apply (J3 i L1 _ HL1 HG)|by eapply J3].
  - intros j p g. destruct (decide (j = i)) as [->|Hj]; [rewrite !list_lookup_insert_eq by lia; intros [= <-] [= <-]; exact J5|]. rewrite !list_lookup_insert_ne by done. apply J4.
  - rewrite E2. cbn. rewrite <- J6, E1. solve_Permutation.
  - intros x Hx. apply J7. rewrite E1. rewrite E2 in Hx. set_solver.
  - intros _. split_and!; [done| |].
    + intros j g [(<- & <- & _)|[_ Hj]]%list_lookup_insert_Some; [done|by eapply Hg].
    + intros j p [(<- & <- & _)|[_ Hj]]%list_lookup_insert_Some; [done|]. apply (Hu j). by rewrite <- Ep.
Qed.
Lemma destroy_free_inv s G fl i p : inv s G fl -> pcs s !! i = Some (DFree p) -> exists s' G', destroy_free s i p = Some s' /\ inv s' G' fl.
Proof.
  intros HI Hp. destruct (kp_at s G fl i _ HI Hp) as (L & l & hd & HL & HG & HR & HH & Hnd & Hal & Hlen). cbn [hand] in HH. unfold destroy_free. destruct hd as [|x hd]; cbn [chain] in HH.
  - subst p. destruct (pc_inv s G fl i (DFree None) Idle HI Hp) as [G' HI']; try done; [|eauto]. intros [|x hd]; cbn; [done|]. by intros [? _].
  - destruct HH as (-> & n & Hn & Hc). rewrite Hn. rewrite <- app_assoc in Hnd. pose proof Hnd as Hnd0. apply NoDup_app in Hnd as (Hnl & Hd1 & Hnd). cbn [app] in Hnd. apply NoDup_cons in Hnd as [Hx Hnd].
    destruct (kp_delete_inv s G fl i _ l (x :: hd) L x (DFree n) hd l fl L (free_keytables s) (size_ s) HI Hp HL HG) as [HI' _]; try done.
    + rewrite <- !app_assoc. cbn. solve_Permutation.
    + intros h Hh. split_and!.
      * apply (rep_frame (nexts s)); [|done]. intros y Hy. apply Hh. intros ->. apply (Hd1 x Hy). set_solver.
      * cbn. apply (kp_chain_frame (nexts s)); [|done]. intros y Hy. apply Hh. intros ->. set_solver.
      * apply (kp_chain_frame (nexts s)); [|apply HI]. intros y Hy. apply Hh. intros ->. set_solver.
    + apply HI.
    + intros Hd. destruct (i_gone _ _ _ HI Hd) as (-> & H2 & _). split_and!; [done|exact (H2 i _ HG)|done].
    + unfold delete_table. cbn [mbind option_bind]. rewrite Hn. cbn [mbind option_bind]. eexists _, _. split; [done|]. rewrite list_insert_id in HI' by done. exact HI'.
Qed.
Lemma reserve_push_inv s G fl i n kt b : inv s G fl -> pcs s !! i = Some (VPush n kt) -> exists s' G' fl', reserve_push s i n kt b = Some s' /\ inv s' G' fl'.
Proof.
  intros HI Hp. destruct (kp_at s G fl i _ HI Hp) as (L & l & hd & HL & HG & HR & HH & Hnd & Hal & Hlen). cbn [hand] in HH. subst hd. unfold reserve_push. destruct (destroyed s) eqn:Ed.
  - destruct (i_gone _ _ _ HI Ed) as (-> & Hl & _). pose proof (Hl i _ HG) as El. cbn in El. subst l. destruct (kp_delete_inv s G [] i (VPush n kt) [] [kt] L kt Idle [] [] [] L (free_keytables s) (size_ s) HI Hp HL HG) as [HI' [m Hm]]; try done; [|by rewrite (i_size _ _ _ HI)|].
    { intros h Hh. split_and!; [by apply (rep_frame (nexts s)); [set_solver|]|done|apply HI]. }
    unfold delete_table. rewrite Hm. cbn [mbind option_bind]. eexists _, _, _. split; [done|]. rewrite list_insert_id in HI' by done. exact HI'.
  - destruct (Hal kt ltac:(set_solver)) as [[m Hm] Hlt]. rewrite Hm. cbn [mbind option_bind]. rewrite <- app_assoc in Hnd. apply NoDup_app in Hnd as (Hnl & Hd1 & Hnd). cbn [app] in Hnd. apply NoDup_cons in Hnd as [Hkf Hnf]. pose proof (i_fresh _ _ _ HI) as Hfr. rewrite !length_app in Hlen. cbn in Hlen.
    eexists _, (<[i := (l, [])]> G), (kt :: fl). split; [done|]. eapply (kp_upd s _ G fl i (VPush n kt) L l [kt]); try done; cbn [set_pc set_free nexts lists destroyed list_ok free_keytables size_ pcs dead fresh]; try apply HI; try done.
    + by rewrite list_insert_id.
    + intros x Hx _. rewrite lookup_insert_ne; [done|]. intros <-. set_solver.
    + apply (rep_frame (nexts s)); [|done]. intros x Hx. rewrite lookup_insert_ne; [done|]. intros <-. apply (Hd1 kt Hx). set_solver.
    + by destruct b.
    + cbn. split; [done|]. eexists. rewrite lookup_insert_eq. split; [done|]. apply (kp_chain_frame (nexts s)); [|apply HI]. intros x Hx. rewrite lookup_insert_ne; [done|]. by intros <-.
    + rewrite seq_none. solve_Permutation.
    + intros x Hx. destruct (decide (x = kt)) as [->|]; [rewrite lookup_insert_eq; by eexists|]. rewrite lookup_insert_ne by done. apply Hal. set_solver.
    + rewrite (i_size _ _ _ HI), u64_small by (unfold is_u64; lia). cbn [length]. lia.
    + by rewrite Ed.
    + by destruct b.
Qed.

(** Fewer than 2^32 tables are made; the pool is destroyed while no thread is
    between the two sections of [borrow_keytable] (see [borrow_after_destroy]). *)
Definition ok (s : S) (c : call) : Prop :=
  Z.of_nat (fresh s) + 1 < 2 ^ 32 /\ match c with Destroy _ => forall j p, pcs s !! j = Some p -> uses_list p = false | _ => True end.
Definition step (s s' : S) : Prop := exists c, ok s c /\ do_call s c = Some s'.
Definition reachable (n : nat) : S -> Prop := steps step (init n).
Lemma kp_call_inv s G fl c : 0 <= key_table_list_size -> inv s G fl -> ok s c -> exists s' G' fl', do_call s c = Some s' /\ inv s' G' fl'.
Proof.
  intros Hcfg HI [Hf Hok]. assert (exists s' G' fl', Some s = Some s' /\ inv s' G' fl') as Hstay by eauto.
  assert (forall i p p', pcs s !! i = Some p -> (forall hd, hand (nexts s) p hd -> hand (nexts s) p' hd) -> (destroyed s = true -> uses_list p' = false) -> (no_list p' = true -> destroyed s = true) -> exists s' G' fl', Some (set_pc i p' s) = Some s' /\ inv s' G' fl') as Hpc.
  { intros i p p' Hp H1 H2 H3. destruct (pc_inv s G fl i p p' HI Hp H1 H2 H3) as [G' HI']. eauto. }
  destruct c as [i|i|i|i|i nfree|i data]; cbn [do_call]; destruct (pcs s !! i) as [p|] eqn:Hp; try done.
  - destruct p; try done. destruct (_ || _); [|done]. by eapply Hpc.
  - destruct p; try done. destruct (new_table_inv s G fl i Idle (Use (fresh s)) HI Hp) as [G' HI']; try done. eauto.
  - destruct p; try done. by eapply Hpc.
  - destruct p; try done. destruct (kp_destroy_inv s G fl i HI Hp Hok) as (s' & G' & -> & HI'). eauto.
  - destruct p; try done. by eapply Hpc.
  - destruct p; cbn [go]; try done.
    + destruct (borrow_list_inv s G fl i HI Hp) as (s' & G' & -> & HI'). eauto.
    + destruct list.
      * assert (destroyed s = false) as Hd by (destruct (destroyed s) eqn:E; [|done]; destruct (i_gone _ _ _ HI E) as (_ & _ & H3); by specialize (H3 i _ Hp)). eapply Hpc; [done|by destruct (free_keytables s)|by rewrite Hd|by destruct (free_keytables s)].
      * pose proof (i_null _ _ _ HI i _ Hp eq_refl) as Hd. eapply Hpc; [done|by destruct (free_keytables s)|by destruct (free_keytables s)|done].
    + destruct (borrow_global_inv s G fl i list HI Hp) as (s' & G' & fl' & -> & HI'). eauto.
    + destruct (return_list_inv s G fl i kt HI Hp) as (s' & G' & -> & HI'). eauto.
    + destruct (return_global_inv s G fl i Hcfg HI Hp) as (s' & G' & fl' & -> & HI'). eauto.
    + destruct (destroy_free_inv s G fl i kt HI Hp) as (s' & G' & -> & HI'). eauto.
    + by eapply Hpc.
    + unfold reserve_new. destruct (0 <? n); [|by eapply Hpc]. destruct (new_table_inv s G fl i (VNew n) (VPush n (fresh s)) HI Hp) as [G' HI']; try done. eauto.
    + destruct (reserve_push_inv s G fl i n kt data HI Hp) as (s' & G' & fl' & -> & HI'). eauto.
Qed.
Lemma kp_init_inv n : inv (init n) (replicate n ([], [])) [].
Proof.
  assert (concat (map own (replicate n ([], []))) = []) as E by (induction n as [|n IH]; [done|exact IH]).
  split; cbn [init nexts lists destroyed list_ok free_keytables size_ pcs dead fresh]; rewrite ?E; try done.
  - by rewrite !length_replicate.
  - intros i L g [-> _]%lookup_replicate [-> _]%lookup_replicate. done.
  - intros i p g [-> _]%lookup_replicate [-> _]%lookup_replicate. done.
  - set_solver.
  - intros i p [-> _]%lookup_replicate. done.
Qed.
(** C12: The pool neither loses tables nor lends one twice: no call ever reaches a
    table that has been deleted, no two bthreads have the same table, the size it
    reports is the length of its list, and when all calls have ended every table
    that was ever made is in exactly one list or deleted, and all are deleted once
    the pool has been destroyed. *)
Theorem keytable_pool_safe n s : 0 <= key_table_list_size -> reachable n s ->
  (forall c, ok s c -> do_call s c <> None) /\
  (forall i j kt, pcs s !! i = Some (Use kt) -> pcs s !! j = Some (Use kt) -> i = j) /\ (forall i kt, pcs s !! i = Some (Use kt) -> kt ∉ dead s) /\
  (exists fl, chain (nexts s) (free_keytables s) fl /\ size_ s = Z.of_nat (length fl)) /\
  ((forall i p, pcs s !! i = Some p -> p = Idle) -> exists ls fl, Forall2 (rep (nexts s)) (lists s) ls /\ chain (nexts s) (free_keytables s) fl /\ concat ls ++ fl ++ dead s ≡ₚ seq 0 (fresh s) /\ (destroyed s = true -> dead s ≡ₚ seq 0 (fresh s))).
Proof.
  intros Hcfg HR. assert (exists G fl, inv s G fl) as (G & fl & HI).
  { eapply (steps_invariant step (fun s => exists G fl, inv s G fl) (init n)); [|eexists _, _; apply kp_init_inv|exact HR]. intros a b (G & fl & HI) (c & Hc & E). destruct (kp_call_inv a G fl c Hcfg HI Hc) as (b' & G' & fl' & E' & HI'). rewrite E in E'. injection E' as <-. eauto. }
  pose proof (i_perm _ _ _ HI) as HP. assert (forall i kt, pcs s !! i = Some (Use kt) -> exists l, G !! i = Some (l, [kt])) as HU by (intros i kt Hp; destruct (kp_at s G fl i _ HI Hp) as (L & l & hd & _ & HG & _ & HH & _); cbn in HH; subst hd; eauto).
  split_and!.
  - intros c Hc. destruct (kp_call_inv s G fl c Hcfg HI Hc) as (s' & G' & fl' & -> & _). done.
  - intros i j kt Hi Hj. destruct (HU i kt Hi) as [li Gi], (HU j kt Hj) as [lj Gj]. destruct (decide (i = j)) as [|Hne]; [done|]. destruct (concat_insert own G i _ ([], []) Gi) as (R & E1 & E2). assert (kt ∈ concat (map own (<[i := ([], [])]> G))) as Hin by (eapply (in_own _ j); [rewrite list_lookup_insert_ne by done; exact Gj|cbn; set_solver]). rewrite E2 in Hin. cbn in Hin.
    assert (NoDup (concat (map own G) ++ fl ++ dead s)) as Hnd by (rewrite HP; apply NoDup_seq). apply NoDup_app in Hnd as [Hnd _]. rewrite E1 in Hnd. apply NoDup_app in Hnd as (_ & Hd & _). destruct (Hd kt); [cbn; set_solver|done].
  - intros i kt Hi Hx. destruct (HU i kt Hi) as [l Gi]. assert (NoDup (concat (map own G) ++ fl ++ dead s)) as Hnd by (rewrite HP; apply NoDup_seq). apply NoDup_app in Hnd as (_ & Hd & _). apply (Hd kt); [eapply (in_own _ i); [exact Gi|cbn; set_solver]|set_solver].
  - exists fl. split; apply HI.
  - intros Hidle. assert (forall i g, G !! i = Some g -> g.2 = []) as H2. { intros i g Hg. destruct (i_len _ _ _ HI) as [L1 L2]. destruct (lookup_lt_is_Some_2 (pcs s) i) as [p Hp]; [apply lookup_lt_Some in Hg; lia|]. pose proof (i_hand _ _ _ HI i p g Hp Hg) as HH. by rewrite (Hidle i p Hp) in HH. }
    assert (concat (map own G) = concat (map fst G)) as EG. { clear -H2. induction G as [|g G IH]; [done|]. cbn [map concat]. rewrite IH by (intros i g' Hg; exact (H2 (Datatypes.S i) g' Hg)). f_equal. unfold own. rewrite (H2 0%nat g eq_refl). apply app_nil_r. }
    exists (map fst G), fl. rewrite <- EG. split_and!; [|apply HI|done|].
    + apply Forall2_same_length_lookup_2; [rewrite length_map; apply HI|]. intros i L l HL Hl. rewrite list_lookup_fmap in Hl. destruct (G !! i) as [g|] eqn:Hg; [|done]. injection Hl as <-. by eapply i_rep.
    + intros Hd. destruct (i_gone _ _ _ HI Hd) as (-> & H1 & _). rewrite <- HP, EG. assert (concat (map fst G) = []) as ->; [|done]. clear -H1. induction G as [|g G IH]; [done|]. cbn [map concat]. rewrite IH by (intros i g' Hg; exact (H1 (Datatypes.S i) g' Hg)). rewrite (H1 0%nat g eq_refl). done.
Qed.
End Pool.

#[local] Instance sample_config : Config := {| borrow_from_globle_size := 2; key_table_list_size := 1 |}.
(** A run whose calls keep to [ok]. *)
Definition okb (s : S) (c : call) : bool := (Z.of_nat (fresh s) + 1 <? 2 ^ 32) && match c with Destroy _ => forallb (fun p => negb (uses_list p)) (pcs s) | _ => true end.
Fixpoint run_ok (l : list call) (s : S) : option S := match l with [] => Some s | c :: l => if okb s c then s ← do_call s c; run_ok l s else None end.
Lemma kp_run_ok_steps l s s' : run_ok l s = Some s' -> steps step s s'.
Proof.
  revert s. induction l as [|c l IH]; cbn [run_ok]; intros s; [intros [= <-]; constructor|]. destruct (okb s c) eqn:Eo; [|done]. destruct (do_call s c) as [s1|] eqn:E; [|done]. cbn [mbind option_bind]. intros H. eapply steps_app; [|by apply IH]. eapply steps_trans; [apply steps_refl|]. exists c. split; [|done].
  apply andb_prop in Eo as [E1%Z.ltb_lt E2]. split; [done|]. destruct c; try done. intros j p Hj. rewrite forallb_forall in E2. apply negb_true_iff, E2, list_elem_of_In. by eapply list_elem_of_lookup_2.
Qed.
(** Two bthreads make tables and give them back, one is borrowed again, two are
    reserved, one goes to the common list, and the pool is destroyed. *)
Definition pool_calls : list call :=
  [SetSpecific 0; SetSpecific 1; TaskEnd 0; Go 0 true; TaskEnd 1; Go 1 true; GetSpecific 0; Go 0 true; Reserve 1 2; Go 1 true; Go 1 true; Go 1 true; Go 1 true; Go 1 true; Go 1 true;
   TaskEnd 0; Go 0 true; SetSpecific 0; TaskEnd 0; GetSpecific 0; Go 0 true; TaskEnd 0; Go 0 true; Destroy 1; Go 1 true; Go 1 true; Go 1 true].
Lemma keytable_pool_safe_witness : exists s, run_ok pool_calls (init 2) = Some s /\ destroyed s = true /\ fresh s = 5%nat /\ dead s ≡ₚ seq 0 5.
Proof.
  destruct (run_ok pool_calls (init 2)) as [s|] eqn:E; [|by vm_compute in E]. pose proof (keytable_pool_safe (config := sample_config) 2 s Z.le_0_1 (kp_run_ok_steps pool_calls (init 2) s E)) as (_ & _ & _ & _ & H). vm_compute in E. injection E as <-. eexists. split_and!; [done..|].
  destruct H as (ls & fl & _ & _ & _ & H); [|by apply H]. by intros [|[|i]] p [= <-].
Defined.
(** A thread that is in [borrow_keytable] between its two sections while the pool is
    destroyed uses the lists that have been deleted. *)
Lemma borrow_after_destroy : exists s, run [Reserve 1 1; Go 1 true; Go 1 true; Go 1 true; Go 1 true; GetSpecific 0; Go 0 true; Go 0 true; Destroy 1] (init 2) = Some s /\ pcs s !! 0%nat = Some (BWr true) /\ do_call s (Go 0 true) = None.
Proof. eexists. split; [vm_compute; reflexivity|done]. Qed.

End KP.
