(* ===== verification/TaskGroup.v ===== *)
(** * Bthreads and the workers that run them (src/src-bthread/task_group.cpp)

    Start, suspension, sleep, interruption, end and reuse of bthreads, the change
    of a worker from one to the next, and the stacks they run on.  Any number of
    workers and of other threads; a step is one access to what threads share, or
    one critical section.  Run queues are lists (their steps are in [WorkStealing],
    [RemoteTaskQueue]), and so are the bthreads that wait in butexes ([Butex]) and
    the tasks of the timer thread ([TimerThread]); the push onto the priority queue is
    one step, though the code does not keep two workers from being in it.  How workers
    search the queues of others and fall asleep is in [Parking]: here a step names the
    queue it takes from.  Tags, signals, tracing, statistics and local storage
    ([BthreadKey]) are left out. *)
From S2P Require Import Prelude.

Module TG.

(** ** Identifiers *)

Definition make_tid (version : Z) (slot : nat) : Z := Z.lor (Z.shiftl version 32) (Z.of_nat slot).
Definition get_slot (tid : Z) : nat := Z.to_nat (Z.land tid 0xFFFFFFFF).
Definition get_version (tid : Z) : Z := Z.land (Z.shiftr tid 32) 0xFFFFFFFF.

(** ** Data *)

(** The stack of the worker itself, or one that has been allocated. *)
Inductive Stack := MainStack (g : nat) | Stk (n : nat).
#[export] Instance Stack_eq_dec : EqDecision Stack.
Proof. solve_decision. Defined.
Definition STACK_TYPE_MAIN : Z := 0.
Definition STACK_TYPE_PTHREAD : Z := 1.
Definition STACK_TYPE_SMALL : Z := 2.
Definition STACK_TYPE_NORMAL : Z := 3.
Definition STACK_TYPE_LARGE : Z := 4.
(** Where a bthread goes on when it is switched to: at the start of its function,
    behind a switch in [yield] and the like, in [usleep], or in [butex_wait]. *)
Inductive Context := Fn | Plain | Sleep | Wait.
#[export] Instance Context_eq_dec : EqDecision Context.
Proof. solve_decision. Defined.
(** [slept] is the timer of the last sleep, kept for the statements only. *)
Record TaskMeta := mkMeta { version : Z; tid : Z; stop : bool; interrupted : bool; sleep_failed : bool; current_waiter : bool; current_sleep : Z; stack : option Stack; stack_type : Z; priority : bool; context : Context; slept : Z }.
Definition new_TaskMeta : TaskMeta := mkMeta 1 0 false false false false 0 None 3 false Plain 0.

(** What [set_remained] leaves to be done behind the switch. *)
Inductive Remained := RNone | RReady (x : nat) | RPriority (x : nat) | RSleep (t : Z) | RBlock (x : nat) | RRelease (x : nat).
(** What a worker in user code, or another thread, is doing: nothing, making a
    bthread ready (and then setting back the waiter of [back]), or [interrupt]. *)
Inductive Act := Idle | Ready (x : nat) (back : option Z) | IConsume (t : Z) | IErase (t : Z) | ISetBack (t : Z) | IUnschedule (t : Z) (id : Z).
Inductive PC :=
| WaitTask                       (* the main task, in wait_task *)
| Run (a : Act)                  (* the function of the current bthread *)
| Ended                          (* it has returned *)
| Sched (r : Remained)           (* in sched or ending_sched, looking for the next *)
| Jumped (r : Remained)          (* switched *)
| AddSleep (t : Z) (id : Z) | AddSleep2 (t : Z) (id : Z)    (* in _add_sleep_event *)
| Resume                         (* behind sched_to *)
| Usleep2 | Usleep3 | Wait2.     (* behind a sleep, behind a wait *)
(** [cur] is the slot of [_cur_meta], [exec] the stack the worker is on.  The main
    task of group [g] is in slot [g]. *)
Record Group := mkGroup { cur : nat; rq : list Z; remote_rq : list Z; pc : PC; exec : Stack }.
Inductive Event := EStart (t : Z) | ECall (t : Z) | EEnd (t : Z) | ELost (t : Z) | EFired (id : Z) | ESlept (id : Z) (rc : Z).
#[export] Instance Event_eq_dec : EqDecision Event.
Proof. solve_decision. Defined.
(** [firing] is the bthread of the callback that the timer thread runs.  [free_stacks] are
    the stacks in the pools, with the stack type of the factory in whose pool they are. *)
Record S := mkS { metas : list TaskMeta; free : list nat; groups : list Group; threads : list Act; priority_queue : list Z; timers : list (Z * nat); firing : option nat; next_id : Z; waiting : list nat; free_stacks : list (Z * nat); stack_types : list Z; log : list Event }.
(** [stack_types]: the [stacktype] of each stack that has been allocated. *)
Definition nstacks (s : S) : nat := length (stack_types s).

(** The capacities of the run queues and of the priority queue. *)
Class Config := { runqueue_capacity : nat; remote_capacity : nat; priority_capacity : nat; enable_priority_queue : bool }.
(** The outcomes of a step: a state, the failure of the CHECK in [interrupt], or
    that of another CHECK. *)
Inductive outcome := Ok (s : S) | WaiterCheck | Fatal.

Definition set_meta (x : nat) (m : TaskMeta) (s : S) : S := mkS (<[x := m]> (metas s)) (free s) (groups s) (threads s) (priority_queue s) (timers s) (firing s) (next_id s) (waiting s) (free_stacks s) (stack_types s) (log s).
Definition set_group (g : nat) (G : Group) (s : S) : S := mkS (metas s) (free s) (<[g := G]> (groups s)) (threads s) (priority_queue s) (timers s) (firing s) (next_id s) (waiting s) (free_stacks s) (stack_types s) (log s).
Definition set_thread (p : nat) (a : Act) (s : S) : S := mkS (metas s) (free s) (groups s) (<[p := a]> (threads s)) (priority_queue s) (timers s) (firing s) (next_id s) (waiting s) (free_stacks s) (stack_types s) (log s).
Definition set_free (l : list nat) (s : S) : S := mkS (metas s) l (groups s) (threads s) (priority_queue s) (timers s) (firing s) (next_id s) (waiting s) (free_stacks s) (stack_types s) (log s).
Definition set_prio (l : list Z) (s : S) : S := mkS (metas s) (free s) (groups s) (threads s) l (timers s) (firing s) (next_id s) (waiting s) (free_stacks s) (stack_types s) (log s).
Definition set_timers (l : list (Z * nat)) (f : option nat) (n : Z) (s : S) : S := mkS (metas s) (free s) (groups s) (threads s) (priority_queue s) l f n (waiting s) (free_stacks s) (stack_types s) (log s).
Definition set_waiting (l : list nat) (s : S) : S := mkS (metas s) (free s) (groups s) (threads s) (priority_queue s) (timers s) (firing s) (next_id s) l (free_stacks s) (stack_types s) (log s).
Definition set_stacks (l : list (Z * nat)) (n : list Z) (s : S) : S := mkS (metas s) (free s) (groups s) (threads s) (priority_queue s) (timers s) (firing s) (next_id s) (waiting s) l n (log s).
Definition add_log (e : Event) (s : S) : S := mkS (metas s) (free s) (groups s) (threads s) (priority_queue s) (timers s) (firing s) (next_id s) (waiting s) (free_stacks s) (stack_types s) (log s ++ [e]).
Definition with_pc (p : PC) (G : Group) : Group := mkGroup (cur G) (rq G) (remote_rq G) p (exec G).
Definition with_stack (o : option Stack) (m : TaskMeta) : TaskMeta := mkMeta (version m) (tid m) (stop m) (interrupted m) (sleep_failed m) (current_waiter m) (current_sleep m) o (stack_type m) (priority m) (context m) (slept m).
Definition with_stack_type (t : Z) (m : TaskMeta) : TaskMeta := mkMeta (version m) (tid m) (stop m) (interrupted m) (sleep_failed m) (current_waiter m) (current_sleep m) (stack m) t (priority m) (context m) (slept m).
Definition with_context (c : Context) (m : TaskMeta) : TaskMeta := mkMeta (version m) (tid m) (stop m) (interrupted m) (sleep_failed m) (current_waiter m) (current_sleep m) (stack m) (stack_type m) (priority m) c (slept m).
Definition with_waiter (b : bool) (m : TaskMeta) : TaskMeta := mkMeta (version m) (tid m) (stop m) (interrupted m) (sleep_failed m) b (current_sleep m) (stack m) (stack_type m) (priority m) (context m) (slept m).
Definition with_interrupted (b : bool) (m : TaskMeta) : TaskMeta := mkMeta (version m) (tid m) (stop m) b (sleep_failed m) (current_waiter m) (current_sleep m) (stack m) (stack_type m) (priority m) (context m) (slept m).
Definition with_sleep_failed (b : bool) (m : TaskMeta) : TaskMeta := mkMeta (version m) (tid m) (stop m) (interrupted m) b (current_waiter m) (current_sleep m) (stack m) (stack_type m) (priority m) (context m) (slept m).
Definition with_current_sleep (id : Z) (m : TaskMeta) : TaskMeta := mkMeta (version m) (tid m) (stop m) (interrupted m) (sleep_failed m) (current_waiter m) id (stack m) (stack_type m) (priority m) (context m) (slept m).
Definition with_slept (id : Z) (m : TaskMeta) : TaskMeta := mkMeta (version m) (tid m) (stop m) (interrupted m) (sleep_failed m) (current_waiter m) (current_sleep m) (stack m) (stack_type m) (priority m) (context m) id.
Definition with_stop (m : TaskMeta) : TaskMeta := mkMeta (version m) (tid m) true (interrupted m) (sleep_failed m) (current_waiter m) (current_sleep m) (stack m) (stack_type m) (priority m) (context m) (slept m).
Definition with_version (v : Z) (m : TaskMeta) : TaskMeta := mkMeta v (tid m) (stop m) (interrupted m) (sleep_failed m) (current_waiter m) (current_sleep m) (stack m) (stack_type m) (priority m) (context m) (slept m).

(** ** What is asked of an identifier *)

Definition set_stopped (s : S) (t : Z) : S := match metas s !! get_slot t with Some m => if version m =? get_version t then set_meta (get_slot t) (with_stop m) s else s | None => s end.
Definition is_stopped (s : S) (t : Z) : bool := match metas s !! get_slot t with Some m => if version m =? get_version t then stop m else true | None => true end.

Section Scheduler.
Context {config : Config}.

(** ** Starting a bthread *)

Definition add_meta (s : S) : S := mkS (metas s ++ [new_TaskMeta]) (free s) (groups s) (threads s) (priority_queue s) (timers s) (firing s) (next_id s) (waiting s) (free_stacks s) (stack_types s) (log s).
(** [get_resource]: a slot that has been returned, or a new one. *)
Definition get_resource (s : S) (c : option nat) : option (nat * S) :=
  match c with
  | Some i => x ← free s !! i; Some (x, set_free (delete i (free s)) s)
  | None => Some (length (metas s), add_meta s)
  end.
Definition init_meta (x : nat) (ty : Z) (pr : bool) (m : TaskMeta) : TaskMeta :=
  mkMeta (version m) (make_tid (version m) x) false false false (current_waiter m) (current_sleep m) (stack m) ty pr Fn 0.
Inductive started := Started (x : nat) (s : S) | NotStarted | StartFatal.
Definition start (s : S) (c : option nat) (ty : Z) (pr : bool) : started :=
  match get_resource s c with
  | None => NotStarted
  | Some (x, s) =>
      match metas s !! x with
      | None => StartFatal
      | Some m =>
          if current_waiter m then StartFatal else
          match stack m with
          | Some _ => StartFatal
          | None => Started x (add_log (EStart (make_tid (version m) x)) (set_meta x (init_meta x ty pr m) s))
          end
      end
  end.

(** ** Switching *)

(** Behind [jump_stack] another worker's state may be the current one; the worker
    that makes this step goes on with the bthread it has switched to. *)
Definition switch (s : S) (g x : nat) (r : Remained) : outcome :=
  match groups s !! g, metas s !! x with
  | Some G, Some next =>
      match metas s !! cur G with
      | Some c =>
          if (x =? cur G)%nat then Fatal else
          match stack c, stack next with
          | None, _ => Ok (set_group g (mkGroup x (rq G) (remote_rq G) (Jumped r) (exec G)) s)
          | Some a, Some b =>
              if decide (a = b) then
                if decide (a = MainStack g) then Ok (set_group g (mkGroup x (rq G) (remote_rq G) (Jumped r) (exec G)) s) else Fatal
              else Ok (set_group g (mkGroup x (rq G) (remote_rq G) (Jumped r) b) s)
          | Some _, None => Fatal
          end
      | None => Fatal
      end
  | _, _ => Fatal
  end.
Inductive StackChoice := OldStack (i : nat) | NewStack | NoStack.
(** [StackFactory<...>::get_stack] of type [ty]: one that has been returned to the pool of
    this factory, or a new one, or none when there is no memory. *)
Definition factory_get (s : S) (ty : Z) (c : StackChoice) : option nat * S :=
  match c with
  | OldStack i =>
      match free_stacks s !! i with
      | Some (f, k) => if f =? ty then (Some k, set_stacks (delete i (free_stacks s)) (stack_types s) s) else (None, s)
      | None => (None, s)
      end
  | NewStack => (Some (nstacks s), set_stacks (free_stacks s) (stack_types s ++ [ty]) s)
  | NoStack => (None, s)
  end.
(** A main stack has no context to jump to; other types give no stack. *)
Definition get_stack (s : S) (ty : Z) (c : StackChoice) : option (option nat * S) :=
  if ty =? STACK_TYPE_MAIN then None
  else if ty =? STACK_TYPE_PTHREAD then Some (None, s)
  else if ty =? STACK_TYPE_SMALL then Some (factory_get s STACK_TYPE_SMALL c)
  else if ty =? STACK_TYPE_NORMAL then Some (factory_get s STACK_TYPE_NORMAL c)
  else if ty =? STACK_TYPE_LARGE then Some (factory_get s STACK_TYPE_LARGE c)
  else Some (None, s).
(** [return_stack]: to the factory of the stack's own type. *)
Definition factory_return (s : S) (ty : Z) (k : nat) : S := set_stacks (free_stacks s ++ [(ty, k)]) (stack_types s) s.
Definition return_stack (s : S) (k : nat) : S :=
  match stack_types s !! k with
  | Some ty =>
      if ty =? STACK_TYPE_SMALL then factory_return s STACK_TYPE_SMALL k
      else if ty =? STACK_TYPE_NORMAL then factory_return s STACK_TYPE_NORMAL k
      else if ty =? STACK_TYPE_LARGE then factory_return s STACK_TYPE_LARGE k
      else s
  | None => s
  end.
Definition give_stack (s : S) (g x : nat) (m : TaskMeta) (c : StackChoice) : option S :=
  '(o, s) ← get_stack s (stack_type m) c;
  Some (set_meta x (match o with Some k => with_stack (Some (Stk k)) m | None => with_stack (Some (MainStack g)) (with_stack_type STACK_TYPE_PTHREAD m) end) s).
Definition sched_to (s : S) (g x : nat) (r : Remained) (c : StackChoice) : outcome :=
  match metas s !! x with
  | Some m =>
      match stack m with
      | Some _ => switch s g x r
      | None => match give_stack s g x m c with Some s => switch s g x r | None => Fatal end
      end
  | None => Fatal
  end.
(** The bthread that ends leaves its stack to the next one of the same type. *)
Definition ending_sched_to (s : S) (g x : nat) (r : Remained) (c : StackChoice) : outcome :=
  match groups s !! g, metas s !! x with
  | Some G, Some m =>
      match metas s !! cur G, stack m with
      | Some e, None =>
          if stack_type m =? stack_type e then switch (set_meta (cur G) (with_stack None e) (set_meta x (with_stack (stack e) m) s)) g x r
          else match give_stack s g x m c with Some s => switch s g x r | None => Fatal end
      | Some _, Some _ => switch s g x r
      | None, _ => Fatal
      end
  | _, _ => Fatal
  end.

(** ** Looking for the next bthread *)

(** Where a bthread is found, if it is there. *)
Inductive Source := Steal (g : nat) | Remote (g : nat) | Priority | Nothing.
Definition pop_front (l : list Z) : option (Z * list Z) := match l with t :: l => Some (t, l) | [] => None end.
Definition steal_task (s : S) (c : Source) : option (Z * S) :=
  match c with
  | Steal g => G ← groups s !! g; '(t, l) ← pop_front (rq G); Some (t, set_group g (mkGroup (cur G) l (remote_rq G) (pc G) (exec G)) s)
  | Remote g => G ← groups s !! g; '(t, l) ← pop_front (remote_rq G); Some (t, set_group g (mkGroup (cur G) (rq G) l (pc G) (exec G)) s)
  | Priority => '(t, l) ← pop_front (priority_queue s); Some (t, set_prio l s)
  | Nothing => None
  end.
(** [_rq.pop], then [steal_task], then the main task. *)
Definition next_task (s : S) (g : nat) (c : Source) : option (nat * S) :=
  G ← groups s !! g;
  match last (rq G) with
  | Some t => Some (get_slot t, set_group g (mkGroup (cur G) (removelast (rq G)) (remote_rq G) (pc G) (exec G)) s)
  | None => match steal_task s c with Some (t, s) => Some (get_slot t, s) | None => Some (g, s) end
  end.
Definition sched (s : S) (g : nat) (r : Remained) (c : Source) (k : StackChoice) : outcome :=
  match next_task s g c with
  | Some (x, s) => match r with RRelease _ => ending_sched_to s g x r k | _ => sched_to s g x r k end
  | None => Fatal
  end.
Definition wait_task (s : S) (g : nat) (c : Source) (k : StackChoice) : outcome :=
  match steal_task s c with Some (t, s) => sched_to s g (get_slot t) RNone k | None => Ok s end.

(** ** Timers *)

Definition schedule (s : S) (x : nat) : Z * S := (next_id s, set_timers (timers s ++ [(next_id s, x)]) (firing s) (next_id s + 1) s).
(** Whether the task has been removed before it could run. *)
Definition unschedule (s : S) (id : Z) : bool * S :=
  match list_find (fun p => p.1 = id) (timers s) with
  | Some (i, _) => (true, set_timers (delete i (timers s)) (firing s) (next_id s) s)
  | None => (false, s)
  end.

(** ** Run queues *)

(** Both wait while the queue is full. *)
Definition push_rq (s : S) (g x : nat) : option S :=
  match groups s !! g, metas s !! x with
  | Some G, Some m => if (length (rq G) <? runqueue_capacity)%nat then Some (set_group g (mkGroup (cur G) (rq G ++ [tid m]) (remote_rq G) (pc G) (exec G)) s) else None
  | _, _ => None
  end.
Definition push_remote (s : S) (g x : nat) : option S :=
  match groups s !! g, metas s !! x with
  | Some G, Some m => if (length (remote_rq G) <? remote_capacity)%nat then Some (set_group g (mkGroup (cur G) (rq G) (remote_rq G ++ [tid m]) (pc G) (exec G)) s) else None
  | _, _ => None
  end.
(** The outcome of the push is not looked at. *)
Definition push_priority_queue (s : S) (x : nat) : S :=
  match metas s !! x with
  | Some m => if (length (priority_queue s) <? priority_capacity)%nat then set_prio (priority_queue s ++ [tid m]) s else add_log (ELost (tid m)) s
  | None => s
  end.
Definition set_pc (g : nat) (p : PC) (s : S) : S := match groups s !! g with Some G => set_group g (with_pc p G) s | None => s end.
Definition upd_meta (x : nat) (f : TaskMeta -> TaskMeta) (s : S) : S := match metas s !! x with Some m => set_meta x (f m) s | None => s end.

(** ** Remained functions *)

Definition _release_last_context (s : S) (x : nat) : S :=
  match metas s !! x with
  | Some m =>
      let s := if stack_type m =? STACK_TYPE_PTHREAD then s else match stack m with Some (Stk k) => return_stack s k | _ => s end in
      set_free (free s ++ [x]) (set_meta x (with_stack None m) s)
  | None => s
  end.
(** [ok]: the timer thread takes the task; the butex queues the waiter. *)
Definition run_remained (s : S) (g : nat) (r : Remained) (ok : bool) : S :=
  match r with
  | RNone => set_pc g Resume s
  | RReady x => match push_rq s g x with Some s => set_pc g Resume s | None => s end
  | RPriority x => set_pc g Resume (push_priority_queue s x)
  | RSleep t =>
      if ok then let r := schedule s (get_slot t) in set_pc g (AddSleep t r.1) (upd_meta (get_slot t) (with_slept r.1) r.2)
      else set_pc g (Jumped (RReady (get_slot t))) (upd_meta (get_slot t) (with_sleep_failed true) s)
  | RBlock x => if ok then set_pc g Resume (set_waiting (waiting s ++ [x]) s) else set_pc g (Jumped (RReady x)) s
  | RRelease x => set_pc g Resume (_release_last_context s x)
  end.
(** The rest of [_add_sleep_event]. *)
Definition add_sleep (s : S) (g : nat) (t id : Z) : S :=
  match metas s !! get_slot t with
  | Some m => if (version m =? get_version t) && negb (interrupted m) then set_pc g Resume (set_meta (get_slot t) (with_current_sleep id m) s) else set_pc g (AddSleep2 t id) s
  | None => s
  end.
Definition add_sleep2 (s : S) (g : nat) (t id : Z) : S :=
  let r := unschedule s id in if r.1 then set_pc g (Jumped (RReady (get_slot t))) r.2 else set_pc g Resume r.2.

(** ** Going on *)

Definition EINTR : Z := 4.
Definition ESTOP : Z := -20.
Definition resume (s : S) (g : nat) (x : nat) : S :=
  if (x =? g)%nat then set_pc g WaitTask s else
  match metas s !! x with
  | None => s
  | Some m =>
      match context m with
      | Fn => add_log (ECall (tid m)) (set_pc g (Run Idle) (set_meta x (with_context Plain m) s))
      | Plain => set_pc g (Run Idle) s
      | Sleep =>
          if sleep_failed m then add_log (ESlept (slept m) ESTOP) (set_pc g (Run Idle) (set_meta x (with_context Plain (with_sleep_failed false m)) s))
          else set_pc g Usleep2 (set_meta x (with_current_sleep 0 m) s)
      | Wait => if current_waiter m then set_pc g Wait2 (set_meta x (with_context Plain (with_waiter false m)) s) else s
      end
  end.
Definition usleep2 (s : S) (g x : nat) : S :=
  match metas s !! x with
  | Some m => if interrupted m then set_pc g Usleep3 s else add_log (ESlept (slept m) 0) (set_pc g (Run Idle) (set_meta x (with_context Plain m) s))
  | None => s
  end.
Definition usleep3 (s : S) (g x : nat) : S :=
  match metas s !! x with
  | Some m => add_log (ESlept (slept m) (if stop m then ESTOP else EINTR)) (set_pc g (Run Idle) (set_meta x (with_context Plain (with_interrupted false m)) s))
  | None => s
  end.
(** The end of task_runner: the version, then [ending_sched]. *)
Definition end_task (s : S) (g x : nat) : S :=
  match metas s !! x with
  | Some m =>
      let v := u32 (version m + 1) in let v := if v =? 0 then 1 else v in
      add_log (EEnd (tid m)) (set_pc g (Sched (RRelease x)) (set_meta x (with_version v m) s))
  | None => s
  end.

(** ** Interruption *)

(** The steps that do not push; the others are the worker's or the thread's. *)
Inductive acted := Acted (a : Act) (s : S) | ActWaiterCheck | ActFatal.
Definition act (s : S) (a : Act) : acted :=
  match a with
  | Idle | Ready _ _ => Acted a s
  | IConsume t =>
      match metas s !! get_slot t with
      | None => Acted Idle s
      | Some m =>
          if version m =? get_version t then
            let s := set_meta (get_slot t) (with_interrupted true (with_current_sleep 0 (with_waiter false m))) s in
            if current_waiter m then if current_sleep m =? 0 then Acted (IErase t) s else ActWaiterCheck
            else if current_sleep m =? 0 then Acted Idle s else Acted (IUnschedule t (current_sleep m)) s
          else Acted Idle s
      end
  | IErase t =>
      match list_find (fun x => x = get_slot t) (waiting s) with
      | Some (i, x) => Acted (Ready x (Some t)) (set_waiting (delete i (waiting s)) s)
      | None => Acted (ISetBack t) s
      end
  | ISetBack t =>
      match metas s !! get_slot t with
      | Some m => if version m =? get_version t then Acted Idle (set_meta (get_slot t) (with_waiter true m) s) else ActFatal
      | None => ActFatal
      end
  | IUnschedule t id => let r := unschedule s id in Acted (if r.1 then Ready (get_slot t) None else Idle) r.2
  end.
Definition after_ready (back : option Z) : Act := match back with Some t => ISetBack t | None => Idle end.
Definition worker_act (s : S) (g : nat) (a : Act) : outcome :=
  match a with
  | Ready x back => match push_rq s g x with Some s => Ok (set_pc g (Run (after_ready back)) s) | None => Ok s end
  | _ => match act s a with Acted a s => Ok (set_pc g (Run a) s) | ActWaiterCheck => WaiterCheck | ActFatal => Fatal end
  end.
Definition thread_act (s : S) (p : nat) (a : Act) (g : nat) : outcome :=
  match a with
  | Ready x back => match push_remote s g x with Some s => Ok (set_thread p (after_ready back) s) | None => Ok s end
  | _ => match act s a with Acted a s => Ok (set_thread p a s) | ActWaiterCheck => WaiterCheck | ActFatal => Fatal end
  end.

(** ** The calls of user code *)

Definition is_pthread_task (g : nat) (m : TaskMeta) : bool := bool_decide (stack m = Some (MainStack g)).
Definition start_foreground (s : S) (g : nat) (c : option nat) (ty : Z) (pr : bool) (k : StackChoice) : outcome :=
  match groups s !! g with
  | Some G =>
      match start s c ty pr with
      | Started x s =>
          match metas s !! cur G with
          | Some m =>
              if is_pthread_task g m then Ok (set_pc g (Run (Ready x None)) s)
              else sched_to s g x (if enable_priority_queue && priority m then RPriority (cur G) else RReady (cur G)) k
          | None => Fatal
          end
      | NotStarted => Ok s
      | StartFatal => Fatal
      end
  | None => Ok s
  end.
Definition start_background (s : S) (g : nat) (c : option nat) (ty : Z) (pr : bool) : outcome :=
  match start s c ty pr with Started x s => Ok (set_pc g (Run (Ready x None)) s) | NotStarted => Ok s | StartFatal => Fatal end.
Definition start_remote (s : S) (p : nat) (c : option nat) (ty : Z) (pr : bool) : outcome :=
  match start s c ty pr with Started x s => Ok (set_thread p (Ready x None) s) | NotStarted => Ok s | StartFatal => Fatal end.
(** [exchange] with a bthread that a waker has taken out of a butex. *)
Definition exchange (s : S) (g x : nat) (k : StackChoice) : outcome :=
  match groups s !! g with
  | Some G =>
      match metas s !! cur G with
      | Some m => if is_pthread_task g m then Ok (set_pc g (Run (Ready x None)) s) else sched_to s g x (RReady (cur G)) k
      | None => Fatal
      end
  | None => Ok s
  end.
Definition usleep (s : S) (g x : nat) (m : TaskMeta) : S := set_pc g (Sched (RSleep (tid m))) (set_meta x (with_context Sleep m) s).
Definition yield (s : S) (g x : nat) : S := set_pc g (Sched (RReady x)) s.
(** [butex_wait], up to the switch. *)
Definition butex_wait (s : S) (g x : nat) (m : TaskMeta) : S := set_pc g (Sched (RBlock x)) (set_meta x (with_context Wait (with_waiter true m)) s).

Inductive call :=
| StartBg (g : nat) (c : option nat) (ty : Z) (pr : bool) | StartFg (g : nat) (c : option nat) (ty : Z) (pr : bool) (k : StackChoice) | StartRemote (p : nat) (c : option nat) (ty : Z) (pr : bool)
| Exit (g : nat) | Usleep (g : nat) | Yield (g : nat) | Block (g : nat)
| Interrupt (g : nat) (t : Z) | InterruptRemote (p : nat) (t : Z) | Stop (t : Z)
| Wake (g i : nat) (nosignal : bool) (k : StackChoice) | WakeRemote (p i : nat)
| Go (g : nat) (c : Source) (k : StackChoice) (ok : bool) | GoThread (p g : nat)
| Fire (i : nat) | FireReady (g : nat).
Definition go (s : S) (g : nat) (G : Group) (c : Source) (k : StackChoice) (ok : bool) : outcome :=
  match pc G with
  | WaitTask => wait_task s g c k
  | Run a => worker_act s g a
  | Ended => Ok (end_task s g (cur G))
  | Sched r => sched s g r c k
  | Jumped r => Ok (run_remained s g r ok)
  | AddSleep t id => Ok (add_sleep s g t id)
  | AddSleep2 t id => Ok (add_sleep2 s g t id)
  | Resume => Ok (resume s g (cur G))
  | Usleep2 => Ok (usleep2 s g (cur G))
  | Usleep3 => Ok (usleep3 s g (cur G))
  | Wait2 => Ok (set_pc g (Run Idle) (upd_meta (cur G) (with_interrupted false) s))
  end.
(** What the bthread that group [g] runs does, when it is in user code. *)
Definition user (s : S) (g : nat) (f : nat -> TaskMeta -> outcome) : outcome :=
  match groups s !! g with
  | Some G => match pc G, metas s !! cur G with Run Idle, Some m => f (cur G) m | _, _ => Ok s end
  | None => Ok s
  end.
Definition thread (s : S) (p : nat) (f : outcome) : outcome := match threads s !! p with Some Idle => f | _ => Ok s end.
(** A call that does not fit what its thread does, does nothing.  A bthread on the
    worker's own stack blocks the worker where others suspend themselves. *)
Definition do_call (s : S) (c : call) : outcome :=
  match c with
  | StartBg g c ty pr => user s g (fun _ _ => start_background s g c ty pr)
  | StartFg g c ty pr k => user s g (fun _ _ => start_foreground s g c ty pr k)
  | StartRemote p c ty pr => thread s p (start_remote s p c ty pr)
  | Exit g => user s g (fun _ _ => Ok (set_pc g Ended s))
  | Usleep g => user s g (fun x m => Ok (if is_pthread_task g m then s else usleep s g x m))
  | Yield g => user s g (fun x m => Ok (if is_pthread_task g m then s else yield s g x))
  | Block g => user s g (fun x m => Ok (if is_pthread_task g m then s else butex_wait s g x m))
  | Interrupt g t => user s g (fun _ _ => Ok (set_pc g (Run (IConsume t)) s))
  | InterruptRemote p t => thread s p (Ok (set_thread p (IConsume t) s))
  | Stop t => Ok (set_stopped s t)
  | Wake g i nosignal k =>
      user s g (fun _ _ => match waiting s !! i with
                           | Some x => let s := set_waiting (delete i (waiting s)) s in if nosignal then Ok (set_pc g (Run (Ready x None)) s) else exchange s g x k
                           | None => Ok s
                           end)
  | WakeRemote p i => thread s p (match waiting s !! i with Some x => Ok (set_thread p (Ready x None) (set_waiting (delete i (waiting s)) s)) | None => Ok s end)
  | Go g c k ok => match groups s !! g with Some G => go s g G c k ok | None => Ok s end
  | GoThread p g => match threads s !! p with Some a => thread_act s p a g | None => Ok s end
  | Fire i =>
      match firing s, timers s !! i with
      | None, Some (id, x) => Ok (add_log (EFired id) (set_timers (delete i (timers s)) (Some x) (next_id s) s))
      | _, _ => Ok s
      end
  | FireReady g =>
      match firing s with
      | Some x => match push_remote s g x with Some s => Ok (set_timers (timers s) None (next_id s) s) | None => Ok s end
      | None => Ok s
      end
  end.

(** [n] workers, whose main tasks have the first slots, and [np] other threads. *)
Definition main_meta (g : nat) : TaskMeta := mkMeta 1 (make_tid 1 g) false false false false 0 (Some (MainStack g)) STACK_TYPE_MAIN false Plain 0.
Definition init (n np : nat) : S :=
  mkS (map main_meta (seq 0 n)) [] (map (fun g => mkGroup g [] [] WaitTask (MainStack g)) (seq 0 n)) (replicate np Idle) [] [] None 1 [] [] [] [].
Fixpoint run (l : list call) (s : S) : outcome := match l with [] => Ok s | c :: l => match do_call s c with Ok s => run l s | o => o end end.

End Scheduler.

(** ** Identifiers: round trip *)

Lemma make_tid_word v x : 0 <= v -> Z.of_nat x < 2 ^ 32 -> make_tid v x = v * 2 ^ 32 + Z.of_nat x.
Proof. intros Hv Hx. unfold make_tid. apply lor_word; unfold is_u32; lia. Qed.
Lemma get_slot_tid v x : 0 <= v -> Z.of_nat x < 2 ^ 32 -> get_slot (make_tid v x) = x.
Proof. intros Hv Hx. unfold get_slot. rewrite make_tid_word, land_low, word_low by (unfold is_u32; lia). lia. Qed.
Lemma get_version_tid v x : 0 <= v < 2 ^ 32 -> Z.of_nat x < 2 ^ 32 -> get_version (make_tid v x) = v.
Proof.
  intros Hv Hx. unfold get_version. rewrite make_tid_word, land_low, Z.shiftr_div_pow2 by lia. rewrite Z.div_add_l, Z.div_small, Z.add_0_r by lia. apply u32_small. unfold is_u32. lia.
Qed.
Lemma make_tid_inj v x v' x' : 0 <= v < 2 ^ 32 -> 0 <= v' < 2 ^ 32 -> Z.of_nat x < 2 ^ 32 -> Z.of_nat x' < 2 ^ 32 -> make_tid v x = make_tid v' x' -> v = v' /\ x = x'.
Proof.
  intros Hv Hv' Hx Hx' E. split; [rewrite <- (get_version_tid v x), E, get_version_tid by done; done|]. rewrite <- (get_slot_tid v x), E, get_slot_tid by lia. done.
Qed.

(** ** The invariant *)

(** Where a slot is. *)
Inductive L := LReady | LSleep | LTimer | LBlock | LWait | LRel | LRun | LFree | LLost | LMain.
#[export] Instance L_eq_dec : EqDecision L.
Proof. solve_decision. Defined.
Definition is_ (x y : nat) : nat := b2n (x =? y)%nat.
Definition slots (l : list Z) : list nat := map get_slot l.
Definition aplace (k : L) (x : nat) (a : Act) : nat := match k, a with LReady, Ready y _ => is_ y x | _, _ => 0 end.
Definition pplace (k : L) (x : nat) (p : PC) : nat :=
  match p with
  | Run a => aplace k x a
  | Jumped r =>
      match k, r with
      | LReady, (RReady y | RPriority y) => is_ y x
      | LSleep, RSleep t => is_ (get_slot t) x
      | LBlock, RBlock y => is_ y x
      | LRel, RRelease y => is_ y x
      | _, _ => 0
      end
  | _ => 0
  end.
Definition cplace (n : nat) (k : L) (x y : nat) : nat := match k with LRun => if (n <=? x)%nat then is_ y x else 0 | _ => 0 end.
Definition qplace (k : L) (x : nat) (l : list Z) : nat := match k with LReady => cocc (slots l) x | _ => 0 end.
Definition gplace (n : nat) (k : L) (x : nat) (G : Group) : nat := (cplace n k x (cur G) + qplace k x (rq G) + qplace k x (remote_rq G) + pplace k x (pc G))%nat.
Definition lost_slots (l : list Event) : list nat := omap (fun e => match e with ELost t => Some (get_slot t) | _ => None end) l.
Definition rest (s : S) (k : L) (x : nat) : nat :=
  match k with
  | LReady => (cocc (slots (priority_queue s)) x + match firing s with Some y => is_ y x | None => 0 end)%nat
  | LTimer => cocc (map snd (timers s)) x
  | LWait => cocc (waiting s) x
  | LFree => cocc (free s) x
  | LLost => cocc (lost_slots (log s)) x
  | _ => 0%nat
  end.
Definition place (n : nat) (s : S) (k : L) (x : nat) : nat := (sum_list_with (gplace n k x) (groups s) + sum_list_with (aplace k x) (threads s) + rest s k x)%nat.
(** What a step has taken out and not yet put back: slots, stacks, waiters. *)
Definition tk (h : list (L * nat)) (k : L) (x : nat) : nat := sum_list_with (fun t => if decide (t.1 = k) then is_ t.2 x else 0%nat) h.
Definition aback (x : nat) (a : Act) : nat := match a with IErase t | ISetBack t | Ready _ (Some t) => is_ (get_slot t) x | _ => 0 end.
Definition pback (x : nat) (p : PC) : nat := match p with Run a => aback x a | _ => 0 end.
Definition backs (s : S) (x : nat) : nat := (sum_list_with (fun G => pback x (pc G)) (groups s) + sum_list_with (aback x) (threads s))%nat.
Definition holds (k : nat) (m : TaskMeta) : nat := match stack m with Some (Stk j) => is_ j k | _ => 0 end.
Definition stacks (s : S) (k : nat) : nat := (sum_list_with (holds k) (metas s) + cocc (map snd (free_stacks s)) k)%nat.

Definition cause (s : S) (m : TaskMeta) : Prop := context m = Sleep -> interrupted m = true \/ sleep_failed m = true \/ EFired (slept m) ∈ log s.
Definition alive (x : nat) (m : TaskMeta) : Prop := tid m = make_tid (version m) x.
Definition own_stack (m : TaskMeta) : Prop := exists k, stack m = Some (Stk k) /\ stack_type m <> STACK_TYPE_PTHREAD.
Definition suspended (x : nat) (m : TaskMeta) : Prop := alive x m /\ (context m = Fn -> stack m = None /\ stack_type m <> STACK_TYPE_MAIN) /\ (context m <> Fn -> own_stack m).
Definition loc_ok (s : S) (x : nat) (m : TaskMeta) (k : L) : Prop :=
  match k with
  | LMain => alive x m /\ stack m = Some (MainStack x) /\ context m = Plain
  | LFree => stack m = None /\ context m = Plain /\ ~ alive x m
  | LRel => (context m = Plain /\ ~ alive x m) /\ (forall h, stack m = Some (MainStack h) -> stack_type m = STACK_TYPE_PTHREAD) /\ (forall j, stack m = Some (Stk j) -> stack_type m <> STACK_TYPE_PTHREAD)
  | LRun => True
  | LSleep | LTimer => suspended x m /\ context m = Sleep
  | LBlock | LWait => suspended x m /\ context m = Wait
  | LReady => suspended x m /\ cause s m
  | LLost => suspended x m
  end.
Definition sleep_ok (s : S) (x : nat) (m : TaskMeta) : Prop := (forall y, (current_sleep m, y) ∈ timers s -> y = x) /\ current_sleep m < next_id s.
Definition slot_ok (s : S) (x : nat) (m : TaskMeta) (k : L) : Prop := loc_ok s x m k /\ sleep_ok s x m /\ 0 < version m < 2 ^ 32.
Definition ref_ok (s : S) (t id : Z) : Prop := id < next_id s /\ forall y, (id, y) ∈ timers s -> y = get_slot t /\ forall m, metas s !! y = Some m -> version m = get_version t.
Definition ref_ok2 (s : S) (t id : Z) : Prop := ref_ok s t id /\ forall y m, (id, y) ∈ timers s -> metas s !! y = Some m -> interrupted m = true.
Definition back_ok (s : S) (t : Z) : Prop := exists m, metas s !! get_slot t = Some m /\ version m = get_version t.
Definition act_ok (s : S) (a : Act) : Prop := match a with IUnschedule t id => ref_ok2 s t id | IErase t | ISetBack t | Ready _ (Some t) => back_ok s t | _ => True end.
Definition refs_ok (s : S) (p : PC) : Prop :=
  match p with
  | Run a => act_ok s a
  | Jumped (RSleep t) => forall m, metas s !! get_slot t = Some m -> tid m = t
  | AddSleep t id => ref_ok s t id
  | AddSleep2 t id => ref_ok2 s t id
  | _ => True
  end.
Definition rem_ok (x : nat) (m : TaskMeta) (r : Remained) : Prop :=
  match r with
  | RNone => False
  | RReady y | RPriority y => y = x /\ suspended x m /\ context m = Plain
  | RSleep t => t = tid m /\ suspended x m /\ context m = Sleep
  | RBlock y => y = x /\ suspended x m /\ context m = Wait
  | RRelease y => y = x /\ context m = Plain /\ ~ alive x m
  end.
Definition resumes (s : S) (x : nat) (m : TaskMeta) : Prop := alive x m /\ cause s m /\ (context m = Sleep \/ context m = Wait -> own_stack m).
Definition pc_ok (s : S) (x : nat) (m : TaskMeta) (p : PC) : Prop :=
  match p with
  | WaitTask => False
  | Run _ | Ended | Wait2 => alive x m /\ context m = Plain
  | Sched r => rem_ok x m r
  | Jumped _ | AddSleep _ _ | AddSleep2 _ _ | Resume => resumes s x m
  | Usleep2 | Usleep3 => resumes s x m /\ context m = Sleep /\ (interrupted m = true \/ EFired (slept m) ∈ log s)
  end.
Definition main_pc (p : PC) : bool := match p with WaitTask | Jumped _ | AddSleep _ _ | AddSleep2 _ _ | Resume => true | _ => false end.
(** In the midst of a step of group [wk] what it is doing is left open, and so is
    the stack of a bthread that has ended and hands it to the next one. *)
Section Weak.
Context {wk : option nat}.
Definition group_ok (s : S) (g : nat) (x : nat) (m : TaskMeta) (p : PC) (e : Stack) : Prop :=
  if (x =? g)%nat then e = MainStack g /\ main_pc p = true
  else (stack m = Some e \/ (stack m = None /\ wk = Some g)) /\ match e with MainStack h => h = g /\ stack_type m = STACK_TYPE_PTHREAD | Stk _ => stack_type m <> STACK_TYPE_PTHREAD end /\ (pc_ok s x m p \/ wk = Some g).
Definition queued (s : S) (t : Z) : Prop := t ∈ priority_queue s \/ exists g G, groups s !! g = Some G /\ (t ∈ rq G \/ t ∈ remote_rq G).

Record inv (n : nat) (s : S) (loc : list L) (h : list (L * nat)) (hs hb : list nat) : Prop := {
  i_len : length (groups s) = n /\ length (metas s) = length loc /\ Z.of_nat (length loc) < 2 ^ 32 /\ forall x, loc !! x = Some LMain <-> (x < n)%nat;
  i_place : forall k x, k <> LMain -> (place n s k x + tk h k x)%nat = b2n (bool_decide (loc !! x = Some k));
  i_slot : forall x m k, metas s !! x = Some m -> loc !! x = Some k -> slot_ok s x m k;
  i_group : forall g G, groups s !! g = Some G -> refs_ok s (pc G) /\ exists m, metas s !! cur G = Some m /\ group_ok s g (cur G) m (pc G) (exec G) /\ ((cur G < n)%nat -> cur G = g);
  i_thread : forall p a, threads s !! p = Some a -> act_ok s a;
  i_back : forall x m, metas s !! x = Some m -> (backs s x + cocc hb x + b2n (current_waiter m))%nat = b2n (bool_decide (context m = Wait));
  i_timer : forall id y, (id, y) ∈ timers s -> 0 < id < next_id s /\ forall m, metas s !! y = Some m -> slept m = id;
  i_queue : forall t m, queued s t -> metas s !! get_slot t = Some m -> tid m = t;
  i_stack : forall k, (stacks s k + cocc hs k)%nat = b2n (k <? nstacks s)%nat;
  i_log : (forall id, ESlept id 0 ∈ log s -> EFired id ∈ log s) /\ 0 < next_id s;
  i_types : Forall (fun f => STACK_TYPE_SMALL <= f <= STACK_TYPE_LARGE) (stack_types s);
}.

(** *** Changing one part of the state *)

Lemma sum_replace {A} (f : A -> nat) l i x y : l !! i = Some x -> (sum_list_with f (<[i := y]> l) + f x)%nat = (sum_list_with f l + f y)%nat.
Proof. intros H. pose proof (sum_insert f l i x y H). lia. Qed.
Lemma place_loc n s loc h hs hb k x : inv n s loc h hs hb -> k <> LMain -> (0 < place n s k x + tk h k x)%nat -> loc !! x = Some k.
Proof. intros HI Hk Hp. pose proof (i_place _ _ _ _ _ _ HI k x Hk) as E. case_bool_decide; [done|]. cbn in E. lia. Qed.
Lemma timer_loc n s loc h hs hb id y : inv n s loc h hs hb -> (id, y) ∈ timers s -> loc !! y = Some LTimer.
Proof.
  intros HI Hy. apply (place_loc n s loc h hs hb); [done|done|]. unfold place. cbn [rest]. enough (0 < cocc (map snd (timers s)) y)%nat by lia. apply elem_cocc, list_elem_of_fmap. exists (id, y). done.
Qed.
Lemma loc_meta n s loc h hs hb x k : inv n s loc h hs hb -> loc !! x = Some k -> exists m, metas s !! x = Some m.
Proof. intros HI Hx. apply lookup_lt_Some in Hx. rewrite <- (proj1 (proj2 (i_len _ _ _ _ _ _ HI))) in Hx. apply lookup_lt_is_Some in Hx as [m Hm]. eauto. Qed.
Lemma meta_loc n s loc h hs hb x m : inv n s loc h hs hb -> metas s !! x = Some m -> exists k, loc !! x = Some k.
Proof. intros HI Hx. apply lookup_lt_Some in Hx. rewrite (proj1 (proj2 (i_len _ _ _ _ _ _ HI))) in Hx. apply lookup_lt_is_Some in Hx as [k Hk]. eauto. Qed.

Lemma is_refl x : is_ x x = 1%nat.
Proof. unfold is_. by rewrite Nat.eqb_refl. Qed.
Lemma slots_elem l t : t ∈ l -> (0 < cocc (slots l) (get_slot t))%nat.
Proof. intros H. apply elem_cocc, list_elem_of_fmap. eauto. Qed.
Lemma queued_loc n s loc h hs hb t : inv n s loc h hs hb -> queued s t -> loc !! get_slot t = Some LReady.
Proof.
  intros HI Hq. apply (place_loc n s loc h hs hb); [done|done|]. unfold place. cbn [rest]. destruct Hq as [Hq|(g & G & HG & Hq)]; [pose proof (slots_elem _ _ Hq); lia|]. pose proof (sum_lookup (gplace n LReady (get_slot t)) _ _ _ HG) as Hlk. unfold gplace in Hlk at 1. cbn [qplace] in Hlk. destruct Hq as [Hq|Hq]; pose proof (slots_elem _ _ Hq); lia.
Qed.
(** What does not change when one slot changes. *)
Definition mild (s : S) (x : nat) (k : L) (m m' : TaskMeta) : Prop :=
  (version m' = version m \/ (k <> LTimer /\ backs s x = 0%nat)) /\ (tid m' = tid m \/ (k <> LReady /\ k <> LSleep)) /\ (k = LTimer -> (interrupted m = true -> interrupted m' = true) /\ slept m' = slept m).
Section Meta.
Variables (n : nat) (s : S) (loc : list L) (h : list (L * nat)) (hs hb hs' hb' : list nat) (x : nat) (m m' : TaskMeta) (k : L).
Hypotheses (HI : inv n s loc h hs hb) (Hm : metas s !! x = Some m) (Hk : loc !! x = Some k) (Hmild : mild s x k m m').
Lemma meta_version y m1 id : (id, y) ∈ timers s -> metas (set_meta x m' s) !! y = Some m1 -> exists m0, metas s !! y = Some m0 /\ version m1 = version m0 /\ (interrupted m0 = true -> interrupted m1 = true).
Proof.
  destruct Hmild as (Hv & _ & Hi). intros Hid Hy. cbn [metas set_meta] in Hy. destruct (decide (y = x)) as [->|Hne]; [|rewrite list_lookup_insert_ne in Hy by done; eauto 8].
  rewrite list_lookup_insert_eq in Hy by (by eapply lookup_lt_Some). injection Hy as <-. exists m. pose proof (timer_loc _ _ _ _ _ _ _ _ HI Hid) as Ek. assert (k = LTimer) as Ek' by congruence. destruct Hv as [Hv|[Hv _]]; [|done]. split_and!; [done|done|]. by apply Hi.
Qed.
Lemma meta_refs p : version m' = version m \/ pback x p = 0%nat -> tid m' = tid m \/ pplace LSleep x p = 0%nat -> refs_ok s p -> refs_ok (set_meta x m' s) p.
Proof.
  intros Hvb Htb. assert (forall t id, ref_ok s t id -> ref_ok (set_meta x m' s) t id) as Hr. { intros t id [H1 H2]. split; [done|]. intros y Hy. destruct (H2 y Hy) as [-> H3]. split; [done|]. intros m1 Hm1. destruct (meta_version _ _ _ Hy Hm1) as (m0 & E & -> & _). by apply H3. }
  assert (forall t id, ref_ok2 s t id -> ref_ok2 (set_meta x m' s) t id) as Hr2. { intros t id [H1 H2]. split; [by apply Hr|]. intros y m1 Hy Hm1. destruct (meta_version _ _ _ Hy Hm1) as (m0 & E & _ & H3). apply H3. by apply (H2 y). }
  assert (forall t, version m' = version m \/ is_ (get_slot t) x = 0%nat -> back_ok s t -> back_ok (set_meta x m' s) t) as Hb.
  { intros t Hd (m0 & E & V). unfold back_ok. cbn [metas set_meta]. destruct (decide (get_slot t = x)) as [Ex|Hne]; [|rewrite list_lookup_insert_ne by done; eauto]. rewrite Ex, is_refl in Hd. destruct Hd as [Hd|]; [|done]. rewrite Ex, list_lookup_insert_eq by (by eapply lookup_lt_Some). exists m'. split; [done|]. congruence. }
  destruct p as [|a| |r|r|t id|t id| | | |]; cbn [refs_ok]; auto.
  - destruct a as [|y [t|]|t|t|t|t id]; cbn [act_ok pback aback] in *; auto.
  - destruct r as [|y|y|t|y|y]; auto. intros Hq m1 Hm1. cbn [metas set_meta pplace] in *. destruct (decide (get_slot t = x)) as [Ex|Hne]; [|rewrite list_lookup_insert_ne in Hm1 by done; by apply Hq]. rewrite Ex, is_refl in Htb. destruct Htb as [Htb|]; [|done]. rewrite Ex, list_lookup_insert_eq in Hm1 by (by eapply lookup_lt_Some). injection Hm1 as <-. rewrite Htb. apply Hq. by rewrite Ex.
Qed.
Lemma inv_meta : slot_ok s x m' k -> (forall g G, groups s !! g = Some G -> cur G = x -> group_ok s g x m' (pc G) (exec G)) ->
  (forall j, (holds j m' + cocc hs' j = holds j m + cocc hs j)%nat) ->
  (cocc hb' x + b2n (current_waiter m') + b2n (bool_decide (context m = Wait)) = cocc hb x + b2n (current_waiter m) + b2n (bool_decide (context m' = Wait)))%nat ->
  (forall y, y <> x -> cocc hb' y = cocc hb y) -> inv n (set_meta x m' s) loc h hs' hb'.
Proof.
  intros Hs Hg Hh Hb Hb'. pose proof Hmild as (Hv & Ht & Hi). pose proof (lookup_lt_Some _ _ _ Hm) as Hlt. split; cbn [metas groups threads timers next_id log set_meta].
  - rewrite length_insert. apply HI.
  - apply HI.
  - intros y m1 j Hy Hj. destruct (decide (y = x)) as [->|Hne]; [rewrite list_lookup_insert_eq in Hy by done; injection Hy as <-; assert (j = k) as -> by congruence; exact Hs|]. rewrite list_lookup_insert_ne in Hy by done. exact (i_slot _ _ _ _ _ _ HI y m1 j Hy Hj).
  - intros g G HG. destruct (i_group _ _ _ _ _ _ HI g G HG) as (Hr & m1 & Hm1 & Hok & Hc). split.
    { apply meta_refs; [| |done].
      - destruct Hv as [|[_ Hv]]; [by left|right]. unfold backs in Hv. pose proof (sum_lookup (fun G => pback x (pc G)) _ _ _ HG) as Hlk. cbn beta in Hlk. lia.
      - destruct Ht as [|[_ Hv1]]; [by left|right]. destruct (Nat.eq_dec (pplace LSleep x (pc G)) 0%nat) as [|Hnz]; [done|]. destruct Hv1. enough (loc !! x = Some LSleep) by congruence. apply (place_loc n s loc h hs hb); [done|done|]. unfold place. pose proof (sum_lookup (gplace n LSleep x) _ _ _ HG) as Hlk. unfold gplace in Hlk at 1. lia. }
    destruct (decide (cur G = x)) as [E|Hne].
    + exists m'. rewrite E, list_lookup_insert_eq by done. rewrite E in Hc. split_and!; [done|by apply Hg|done].
    + exists m1. rewrite list_lookup_insert_ne by done. done.
  - intros p a Hp. apply (meta_refs (Run a)); [|right; destruct a; done|exact (i_thread _ _ _ _ _ _ HI p a Hp)]. destruct Hv as [|[_ Hv]]; [by left|right]. unfold backs in Hv. pose proof (sum_lookup (aback x) _ _ _ Hp) as Hlk. cbn [pback]. lia.
  - intros y m1 Hy. change (backs (set_meta x m' s) y) with (backs s y). destruct (decide (y = x)) as [->|Hne]; [rewrite list_lookup_insert_eq in Hy by done; injection Hy as <-; pose proof (i_back _ _ _ _ _ _ HI x m Hm); lia|]. rewrite list_lookup_insert_ne in Hy by done. rewrite Hb' by done. by apply HI.
  - intros id y Hy. destruct (i_timer _ _ _ _ _ _ HI id y Hy) as [H1 H2]. split; [done|]. intros m1 Hm1. destruct (decide (y = x)) as [->|Hne]; [|rewrite list_lookup_insert_ne in Hm1 by done; by apply H2]. rewrite list_lookup_insert_eq in Hm1 by done. injection Hm1 as <-. pose proof (timer_loc _ _ _ _ _ _ _ _ HI Hy). destruct Hi as [_ ->]; [congruence|]. by apply H2.
  - intros t m1 Hq Hm1. change (queued s t) in Hq. destruct (decide (get_slot t = x)) as [E|Hne]; [|rewrite list_lookup_insert_ne in Hm1 by done; by apply (i_queue _ _ _ _ _ _ HI)]. rewrite E, list_lookup_insert_eq in Hm1 by done. injection Hm1 as <-. destruct Ht as [Ht|[Ht _]]; [rewrite Ht; apply (i_queue _ _ _ _ _ _ HI t m Hq); by rewrite E|]. destruct Ht. pose proof (queued_loc _ _ _ _ _ _ _ HI Hq) as Hl. congruence.
  - intros j. unfold stacks. change (nstacks (set_meta x m' s)) with (nstacks s). cbn [metas free_stacks set_meta]. pose proof (sum_replace (holds j) (metas s) x m m' Hm). pose proof (i_stack _ _ _ _ _ _ HI j) as Hj. unfold stacks in Hj. specialize (Hh j). lia.
  - apply HI.
  - apply HI.
Qed.
End Meta.

(** One group; what it holds goes to or comes from what the step has in hand. *)
Lemma inv_group n s loc h hs hb h' hb' g G G' : inv n s loc h hs hb -> groups s !! g = Some G ->
  (forall k x, (gplace n k x G' + tk h' k x = gplace n k x G + tk h k x)%nat) -> (forall x, (pback x (pc G') + cocc hb' x = pback x (pc G) + cocc hb x)%nat) ->
  refs_ok s (pc G') -> (exists m, metas s !! cur G' = Some m /\ group_ok s g (cur G') m (pc G') (exec G') /\ ((cur G' < n)%nat -> cur G' = g)) ->
  (forall t, t ∈ rq G' \/ t ∈ remote_rq G' -> queued s t \/ forall m, metas s !! get_slot t = Some m -> tid m = t) ->
  inv n (set_group g G' s) loc h' hs hb'.
Proof.
  intros HI HG Hp Hb Hr Hg Hq. pose proof (lookup_lt_Some _ _ _ HG) as Hlt. split; cbn [metas groups threads timers next_id log set_group].
  - rewrite length_insert. apply HI.
  - intros k x Hk. rewrite <- (i_place _ _ _ _ _ _ HI k x Hk). unfold place. cbn [groups threads set_group]. change (rest (set_group g G' s) k x) with (rest s k x). pose proof (sum_replace (gplace n k x) (groups s) g G G' HG). specialize (Hp k x). lia.
  - apply HI.
  - intros g1 G1 HG1. destruct (decide (g1 = g)) as [->|Hne]; [rewrite list_lookup_insert_eq in HG1 by done; injection HG1 as <-; done|]. rewrite list_lookup_insert_ne in HG1 by done. exact (i_group _ _ _ _ _ _ HI g1 G1 HG1).
  - apply HI.
  - intros x m Hx. rewrite <- (i_back _ _ _ _ _ _ HI x m Hx). unfold backs. cbn [groups threads set_group]. pose proof (sum_replace (fun G => pback x (pc G)) (groups s) g G G' HG) as E. cbn beta in E. specialize (Hb x). lia.
  - apply HI.
  - intros t m Ht Hm. assert (queued s t \/ forall m, metas s !! get_slot t = Some m -> tid m = t) as [H|H]; [|by apply (i_queue _ _ _ _ _ _ HI)|by apply H].
    destruct Ht as [Ht|(g1 & G1 & HG1 & Ht)]; [by left; left|]. cbn [groups set_group] in HG1. destruct (decide (g1 = g)) as [->|Hne]; [rewrite list_lookup_insert_eq in HG1 by done; injection HG1 as <-; by apply Hq|]. rewrite list_lookup_insert_ne in HG1 by done. left. right. eauto.
  - apply HI.
  - apply HI.
  - apply HI.
Qed.
Lemma tg_inv_pc n s loc h hs hb h' hb' g G m p : inv n s loc h hs hb -> groups s !! g = Some G -> metas s !! cur G = Some m ->
  (forall k x, (pplace k x p + tk h' k x = pplace k x (pc G) + tk h k x)%nat) -> (forall x, (pback x p + cocc hb' x = pback x (pc G) + cocc hb x)%nat) ->
  refs_ok s p -> group_ok s g (cur G) m p (exec G) -> inv n (set_pc g p s) loc h' hs hb'.
Proof.
  intros HI HG Hm Hp Hb Hr Hg. unfold set_pc. rewrite HG. eapply (inv_group n s loc h hs hb h' hb' g G); try done.
  - intros k x. unfold gplace. cbn [cur rq remote_rq pc with_pc]. specialize (Hp k x). lia.
  - cbn [cur pc exec with_pc]. exists m. split_and!; [done|done|]. destruct (i_group _ _ _ _ _ _ HI g G HG) as (_ & m1 & _ & _ & Hc). exact Hc.
  - cbn [rq remote_rq with_pc]. intros t Ht. left. right. eauto.
Qed.
Lemma inv_thread n s loc h hs hb h' hb' p a a' : inv n s loc h hs hb -> threads s !! p = Some a ->
  (forall k x, (aplace k x a' + tk h' k x = aplace k x a + tk h k x)%nat) -> (forall x, (aback x a' + cocc hb' x = aback x a + cocc hb x)%nat) -> act_ok s a' -> inv n (set_thread p a' s) loc h' hs hb'.
Proof.
  intros HI Ha Hp Hb Hr. pose proof (lookup_lt_Some _ _ _ Ha) as Hlt. split; cbn [metas groups threads timers next_id log set_thread]; try apply HI.
  - intros k x Hk. rewrite <- (i_place _ _ _ _ _ _ HI k x Hk). unfold place. cbn [groups threads set_thread]. change (rest (set_thread p a' s) k x) with (rest s k x). pose proof (sum_replace (aplace k x) (threads s) p a a' Ha). specialize (Hp k x). lia.
  - intros q b Hq. destruct (decide (q = p)) as [->|Hne]; [rewrite list_lookup_insert_eq in Hq by done; injection Hq as <-; done|]. rewrite list_lookup_insert_ne in Hq by done. exact (i_thread _ _ _ _ _ _ HI q b Hq).
  - intros x m Hx. rewrite <- (i_back _ _ _ _ _ _ HI x m Hx). unfold backs. cbn [groups threads set_thread]. pose proof (sum_replace (aback x) (threads s) p a a' Ha). specialize (Hb x). lia.
Qed.
(** Another place for a slot that the step has in hand. *)
Lemma inv_loc n s loc h hs hb h' x m k k' : inv n s loc h hs hb -> metas s !! x = Some m -> loc !! x = Some k -> k <> LMain -> k' <> LMain -> slot_ok s x m k' ->
  (forall j y, (tk h' j y + b2n (bool_decide (j = k /\ y = x)) = tk h j y + b2n (bool_decide (j = k' /\ y = x)))%nat) -> inv n s (<[x := k']> loc) h' hs hb.
Proof.
  intros HI Hm Hk Hne Hne' Hs Ht. pose proof (lookup_lt_Some _ _ _ Hk) as Hlt. split; try apply HI.
  - rewrite !length_insert. destruct (i_len _ _ _ _ _ _ HI) as (H1 & H2 & H3 & H4). split_and!; try done. intros y. rewrite <- H4. destruct (decide (y = x)) as [->|]; [rewrite list_lookup_insert_eq by done; rewrite Hk; split; by intros [= ?]|by rewrite list_lookup_insert_ne].
  - intros j y Hj. pose proof (i_place _ _ _ _ _ _ HI j y Hj) as E. specialize (Ht j y). destruct (decide (y = x)) as [->|Hyx].
    + rewrite list_lookup_insert_eq by done. rewrite Hk in E. assert (forall a, bool_decide (j = a /\ x = x) = bool_decide (Some a = Some j)) as Hd by (intros a; apply bool_decide_ext; naive_solver). rewrite !Hd in Ht. lia.
    + rewrite list_lookup_insert_ne by done. rewrite !bool_decide_eq_false_2 in Ht by naive_solver. cbn [b2n] in Ht. lia.
  - intros y m1 j Hy Hj. destruct (decide (y = x)) as [->|Hyx]; [rewrite list_lookup_insert_eq in Hj by done; injection Hj as <-; by assert (m1 = m) as -> by congruence|]. rewrite list_lookup_insert_ne in Hj by done. exact (i_slot _ _ _ _ _ _ HI y m1 j Hy Hj).
Qed.
(** The parts that are neither slots nor groups nor threads. *)
Record rest_ok (s s' : S) (h h' : list (L * nat)) (hs hs' : list nat) : Prop := {
  r_same : metas s' = metas s /\ groups s' = groups s /\ threads s' = threads s;
  r_place : forall k x, (rest s' k x + tk h' k x = rest s k x + tk h k x)%nat;
  r_log : forall e, e ∈ log s -> e ∈ log s';
  r_slept : forall id, ESlept id 0 ∈ log s' -> ESlept id 0 ∈ log s \/ EFired id ∈ log s;
  r_next : next_id s <= next_id s';
  r_timer : forall id y, (id, y) ∈ timers s' -> (id, y) ∈ timers s \/ (id = next_id s /\ id < next_id s' /\ forall m, metas s !! y = Some m -> slept m = id);
  r_prio : forall t, t ∈ priority_queue s' -> t ∈ priority_queue s \/ forall m, metas s !! get_slot t = Some m -> tid m = t;
  r_stack : forall k, (cocc (map snd (free_stacks s')) k + cocc hs' k + b2n (k <? nstacks s)%nat = cocc (map snd (free_stacks s)) k + cocc hs k + b2n (k <? nstacks s')%nat)%nat;
  r_types : Forall (fun f => STACK_TYPE_SMALL <= f <= STACK_TYPE_LARGE) (stack_types s) -> Forall (fun f => STACK_TYPE_SMALL <= f <= STACK_TYPE_LARGE) (stack_types s');
}.
Lemma inv_rest n s s' loc h h' hs hs' hb : inv n s loc h hs hb -> rest_ok s s' h h' hs hs' -> inv n s' loc h' hs' hb.
Proof.
  intros HI [(Em & Eg & Et) Hp Hl Hsl Hn Htm Hpr Hst Hty].
  assert (forall id y, id < next_id s -> (id, y) ∈ timers s' -> (id, y) ∈ timers s) as Hold by (intros id y Hid Hy; destruct (Htm id y Hy) as [|[-> ?]]; [done|lia]).
  assert (forall m, cause s m -> cause s' m) as Hc by (intros m H E; destruct (H E) as [|[|]]; auto).
  assert (forall t id, ref_ok s t id -> ref_ok s' t id) as Hr by (intros t id [H1 H2]; split; [lia|]; intros y Hy; rewrite Em; apply H2; by apply Hold).
  assert (forall t id, ref_ok2 s t id -> ref_ok2 s' t id) as Hr2 by (intros t id [H1 H2]; split; [by apply Hr|]; intros y m Hy; rewrite Em; apply H2; apply Hold; [apply H1|done]).
  assert (forall a, act_ok s a -> act_ok s' a) as Ha by (intros [|y [t|]|t|t|t|t id]; cbn [act_ok]; auto; unfold back_ok; by rewrite Em).
  split.
  - rewrite Em, Eg. apply HI.
  - intros k x Hk. rewrite <- (i_place _ _ _ _ _ _ HI k x Hk). unfold place. rewrite Eg, Et. specialize (Hp k x). lia.
  - rewrite Em. intros x m k Hx Hk. destruct (i_slot _ _ _ _ _ _ HI x m k Hx Hk) as (H1 & [H2 H3] & H4). split_and!; [|split; [intros y Hy; by apply H2, Hold|lia]|lia|lia]. destruct k; cbn [loc_ok] in *; try done. split; [apply H1|apply Hc, H1].
  - rewrite Em, Eg. intros g G HG. destruct (i_group _ _ _ _ _ _ HI g G HG) as (H1 & m & Hm & H2 & H3). split.
    + destruct (pc G) as [|a| |r|r|t id|t id| | | |]; cbn [refs_ok] in *; auto. by rewrite Em.
    + exists m. split_and!; [done| |done]. unfold group_ok in *. destruct (_ =? g)%nat; [done|]. destruct H2 as (H2 & H4 & H5). split_and!; [done|done|]. destruct H5 as [H5|H5]; [left|by right]. destruct (pc G); cbn [pc_ok] in *; unfold resumes in *; try done; intuition auto.
  - rewrite Et. intros p a Hp'. apply Ha. by eapply (i_thread _ _ _ _ _ _ HI).
  - rewrite Em. unfold backs. rewrite Eg, Et. apply HI.
  - rewrite Em. intros id y Hy. destruct (Htm id y Hy) as [H|(-> & H1 & H2)]; [destruct (i_timer _ _ _ _ _ _ HI id y H); split; [lia|done]|]. pose proof (proj2 (i_log _ _ _ _ _ _ HI)). split; [lia|done].
  - rewrite Em. intros t m Hq Hm. destruct Hq as [Hq|Hq]; [destruct (Hpr t Hq) as [H|H]; [by apply (i_queue _ _ _ _ _ _ HI t m); [left|]|by apply H]|]. rewrite Eg in Hq. apply (i_queue _ _ _ _ _ _ HI t m); [by right|done].
  - intros k. unfold stacks. rewrite Em. pose proof (i_stack _ _ _ _ _ _ HI k) as E. unfold stacks in E. specialize (Hst k). lia.
  - destruct (i_log _ _ _ _ _ _ HI) as [H1 H2]. split; [intros id Hid; destruct (Hsl id Hid); auto|lia].
  - apply Hty, HI.
Qed.

(** *** Switching *)

Lemma delete_snd {A} (l : list (A * nat)) i f k j : l !! i = Some (f, k) -> (cocc (map snd (delete i l)) j + is_ k j)%nat = cocc (map snd l) j.
Proof.
  intros H. assert (map snd l ≡ₚ k :: map snd (delete i l)) as P by (change (k :: map snd (delete i l)) with (map snd ((f, k) :: delete i l)); apply Permutation_map; by apply delete_Permutation).
  pose proof (proj1 (Permutation_count_occ Nat.eq_dec _ _) P j) as E. change (count_occ Nat.eq_dec) with cocc in E. rewrite E, cocc_cons. unfold is_. lia.
Qed.

Lemma cocc_is y l x : cocc (y :: l) x = (is_ y x + cocc l x)%nat.
Proof. apply cocc_cons. Qed.
Lemma slots_snoc l t x : cocc (slots (l ++ [t])) x = (cocc (slots l) x + is_ (get_slot t) x)%nat.
Proof. unfold slots. rewrite map_app, cocc_app. cbn [map]. rewrite cocc_is. cbn. lia. Qed.
Lemma tk_cons k x j y h : tk ((k, x) :: h) j y = ((if decide (k = j) then is_ x y else 0) + tk h j y)%nat.
Proof. done. Qed.
Lemma is_ne x y : x <> y -> is_ x y = 0%nat.
Proof. intros H. unfold is_. by rewrite (proj2 (Nat.eqb_neq x y)). Qed.
Ltac counts := repeat (progress cbn [gplace cplace qplace pplace aplace pback aback cur rq remote_rq pc exec with_pc tk sum_list_with fst snd] || rewrite !tk_cons); repeat case_decide; subst; try congruence; try lia.

Definition same_groups (s s' : S) : Prop := metas s' = metas s /\ log s' = log s /\ forall g G, groups s !! g = Some G -> exists G', groups s' !! g = Some G' /\ cur G' = cur G /\ pc G' = pc G /\ exec G' = exec G.
Lemma relabel n s loc h hs hb x m k k' : inv n s loc ((k, x) :: h) hs hb -> metas s !! x = Some m -> k <> LMain -> k' <> LMain -> slot_ok s x m k' -> inv n s (<[x := k']> loc) ((k', x) :: h) hs hb.
Proof.
  intros HI Hm Hk Hk' Hs. assert (loc !! x = Some k) as Hl. { apply (place_loc n s loc ((k, x) :: h) hs hb); [done|done|]. rewrite tk_cons, decide_True, is_refl by done. lia. }
  apply (inv_loc n s loc ((k, x) :: h) hs hb _ x m k k' HI Hm Hl Hk Hk' Hs). intros j y. rewrite !tk_cons. unfold is_. destruct (Nat.eqb_spec x y) as [->|Hne].
  - repeat case_decide; repeat case_bool_decide; cbn [b2n]; try lia; exfalso; naive_solver.
  - rewrite !bool_decide_eq_false_2 by naive_solver. repeat case_decide; cbn [b2n]; lia.
Qed.
Lemma token n s loc h hs hb k x : inv n s loc ((k, x) :: h) hs hb -> k <> LMain -> loc !! x = Some k /\ exists m, metas s !! x = Some m /\ slot_ok s x m k.
Proof.
  intros HI Hk. assert (loc !! x = Some k) as Hl. { apply (place_loc n s loc ((k, x) :: h) hs hb); [done|done|]. rewrite tk_cons, decide_True, is_refl by done. lia. }
  split; [done|]. destruct (loc_meta _ _ _ _ _ _ _ _ HI Hl) as [m Hm]. exists m. split; [done|]. exact (i_slot _ _ _ _ _ _ HI x m k Hm Hl).
Qed.
Lemma token_big n s loc h hs hb k x : inv n s loc ((k, x) :: h) hs hb -> k <> LMain -> (n <= x)%nat.
Proof. intros HI Hk. destruct (token _ _ _ _ _ _ _ _ HI Hk) as [Hl _]. pose proof (proj2 (proj2 (proj2 (i_len _ _ _ _ _ _ HI))) x) as Hx. destruct (decide (x < n)%nat) as [Hlt|]; [|lia]. apply Hx in Hlt. congruence. Qed.
Lemma group_lt n s loc h hs hb g G : inv n s loc h hs hb -> groups s !! g = Some G -> (g < n)%nat.
Proof. intros HI HG. apply lookup_lt_Some in HG. rewrite (proj1 (i_len _ _ _ _ _ _ HI)) in HG. done. Qed.
(** A running slot has one group. *)
Lemma running_not_token n s loc h hs hb g G x : inv n s loc ((LRun, x) :: h) hs hb -> groups s !! g = Some G -> cur G <> x.
Proof.
  intros HI HG E. pose proof (token_big _ _ _ _ _ _ _ _ HI ltac:(done)) as Hx. pose proof (i_place _ _ _ _ _ _ HI LRun x ltac:(done)) as P. rewrite tk_cons, decide_True, is_refl in P by done. unfold place in P.
  pose proof (sum_lookup (gplace n LRun x) _ _ _ HG) as Q. assert (1 <= gplace n LRun x G)%nat as Q1 by (unfold gplace, cplace; rewrite (proj2 (Nat.leb_le n x) Hx), E, is_refl; lia). destruct (bool_decide _); cbn [b2n] in P; lia.
Qed.
Lemma holds_eq m k : stack m = Some (Stk k) -> holds k m = 1%nat.
Proof. intros E. unfold holds. rewrite E. apply is_refl. Qed.
Lemma stack_unique n s loc h hs hb x y mx my k : inv n s loc h hs hb -> metas s !! x = Some mx -> metas s !! y = Some my -> stack mx = Some (Stk k) -> stack my = Some (Stk k) -> x = y.
Proof.
  intros HI Hx Hy Ex Ey. destruct (decide (x = y)) as [|Hne]; [done|]. pose proof (sum_two (holds k) _ _ _ _ _ Hx Hy Hne) as H. rewrite !holds_eq in H by done. pose proof (i_stack _ _ _ _ _ _ HI k) as P. unfold stacks in P. destruct (_ <? _)%nat; cbn in P; lia.
Qed.
Definition rem_loc (r : Remained) : L := match r with RNone => LMain | RReady _ | RPriority _ => LReady | RSleep _ => LSleep | RBlock _ => LBlock | RRelease _ => LRel end.
(** What the current bthread of the group gives up when it is left. *)
Definition leaves (s : S) (g : nat) (G : Group) (r : Remained) : Prop :=
  (forall k y, pplace k y (pc G) = 0%nat) /\ (forall y, pback y (pc G) = 0%nat) /\
  exists m, metas s !! cur G = Some m /\ ((cur G = g /\ r = RNone) \/ (cur G <> g /\ rem_ok (cur G) m r)).
Lemma switch_exact n s loc h hs hb g G r x m e m0 : inv n s loc (if (x =? g)%nat then h else (LRun, x) :: h) hs hb -> groups s !! g = Some G -> leaves s g G r -> cur G <> x ->
  metas s !! x = Some m -> stack m = Some e -> (if (x =? g)%nat then e = MainStack g else resumes s x m /\ match e with MainStack h => h = g /\ stack_type m = STACK_TYPE_PTHREAD | Stk _ => stack_type m <> STACK_TYPE_PTHREAD end) ->
  metas s !! cur G = Some m0 -> (stack m0 = None -> exec G = e) -> exists loc', switch s g x r = Ok (set_group g (mkGroup x (rq G) (remote_rq G) (Jumped r) e) s) /\ inv n (set_group g (mkGroup x (rq G) (remote_rq G) (Jumped r) e) s) loc' h hs hb.
Proof.
  intros HI HG (Hp & Hb & m0' & Hm0' & Hl) Hne Hm He Hx Hm0 Hs0. assert (m0' = m0) as -> by congruence. clear Hm0'. pose proof (group_lt _ _ _ _ _ _ _ _ HI HG) as Hg.
  destruct (i_group _ _ _ _ _ _ HI g G HG) as (_ & m0' & Hm0' & Hok & Hcn). assert (m0' = m0) as -> by congruence. clear Hm0'.
  assert (switch s g x r = Ok (set_group g (mkGroup x (rq G) (remote_rq G) (Jumped r) e) s)) as ->.
  { unfold switch. rewrite HG, Hm, Hm0, (proj2 (Nat.eqb_neq x (cur G))) by done. rewrite He. destruct (stack m0) as [a|] eqn:E0; [|by rewrite Hs0]. destruct (decide (a = e)) as [->|]; [|done].
    assert (exec G = e /\ e = MainStack g) as [-> ->]; [|by rewrite decide_True]. unfold group_ok in Hok. destruct (Nat.eqb_spec (cur G) g) as [Ec|Ec].
    - pose proof (i_slot _ _ _ _ _ _ HI (cur G) m0 LMain Hm0 ltac:(apply (i_len _ _ _ _ _ _ HI); lia)) as [(_ & Es & _) _]. rewrite E0 in Es. injection Es as ->. destruct Hok as [-> _]. by rewrite Ec.
    - destruct Hok as ([Es|[Es _]] & Ht & _); [|congruence]. assert (exec G = e) as Ee by congruence. split; [done|]. rewrite Ee in Ht. destruct e as [h'|k]; [by destruct Ht as [-> _]|]. destruct (Hne (stack_unique _ _ _ _ _ _ _ _ _ _ _ HI Hm0 Hm E0 He)). }
  set (G1 := mkGroup x (rq G) (remote_rq G) Resume e). assert (x = g \/ x <> g /\ (n <= x)%nat) as Hxn. { destruct (Nat.eqb_spec x g); [by left|right]. split; [done|]. eapply token_big; [exact HI|done]. }
  assert (inv n (set_group g G1 s) loc (if (cur G =? g)%nat then h else (LRun, cur G) :: h) hs hb) as HI1.
  { eapply inv_group; [exact HI|exact HG| | | | |].
    - intros k y. unfold gplace, G1. cbn [cur rq remote_rq pc]. rewrite Hp. cbn [pplace]. destruct (Nat.eqb_spec x g) as [Ex|Ex], (Nat.eqb_spec (cur G) g) as [Ec|Ec]; rewrite ?tk_cons; destruct k; cbn [cplace]; repeat case_decide; try congruence; try lia; destruct (Nat.leb_spec n y); rewrite ?(is_ne x y), ?(is_ne (cur G) y) by lia; lia.
    - intros y. unfold G1. cbn [pc pback]. rewrite Hb. done.
    - done.
    - exists m. cbn [cur pc exec G1]. split; [done|]. unfold group_ok. destruct (Nat.eqb_spec x g) as [Ex|Ex]; [split; [done|lia]|]. split; [|lia]. destruct Hx as [H1 H2]. split_and!; auto.
    - intros t Ht. left. right. exists g, G. done. }
  assert (groups (set_group g G1 s) !! g = Some G1) as HG1 by (cbn [groups set_group]; apply list_lookup_insert_eq; by eapply lookup_lt_Some).
  assert (exists loc', inv n (set_group g G1 s) loc' (if (cur G =? g)%nat then h else (rem_loc r, cur G) :: h) hs hb) as [loc' HI2].
  { destruct (Nat.eqb_spec (cur G) g) as [Ec|Ec]; [eauto|]. destruct Hl as [[]|[_ Hr]]; [done|]. destruct (token _ _ _ _ _ _ _ _ HI1 ltac:(done)) as (_ & m1 & Hm1 & Hs1). cbn [metas set_group] in Hm1. assert (m1 = m0) as -> by congruence.
    exists (<[cur G := rem_loc r]> loc). eapply relabel; [exact HI1|exact Hm1|done|by destruct r|]. split; [|exact (proj2 Hs1)].
    destruct r; cbn [rem_ok rem_loc loc_ok] in *; [done| | | | |].
    1, 2: destruct Hr as (-> & H1 & H2); split; [done|]; intros E; congruence.
    1: by destruct Hr as (_ & H1 & H2). 1: by destruct Hr as (_ & H1 & H2).
    destruct Hr as [-> H2]. split; [done|]. unfold group_ok in Hok. rewrite (proj2 (Nat.eqb_neq _ _) Ec) in Hok. destruct Hok as (Hst & Ht & _). split; intros j Ej; (destruct Hst as [Hst|[Hst _]]; [|congruence]); rewrite Hst in Ej; injection Ej as Ej; rewrite Ej in Ht; [by destruct Ht|done]. }
  exists loc'. split; [done|].
  replace (set_group g (mkGroup x (rq G) (remote_rq G) (Jumped r) e) s) with (set_pc g (Jumped r) (set_group g G1 s)) by (unfold set_pc; rewrite HG1; unfold set_group; cbn; by rewrite list_insert_insert_eq).
  destruct (i_group _ _ _ _ _ _ HI2 g G1 HG1) as (_ & m1 & Hm1 & Hok1 & _). eapply tg_inv_pc; [exact HI2|exact HG1|exact Hm1| | | |].
  - intros k y. cbn [pc G1 pplace]. destruct (Nat.eqb_spec (cur G) g) as [Ec|Ec].
    + destruct Hl as [[_ ->]|[]]; [|done]. by destruct k.
    + destruct Hl as [[]|[_ Hr]]; [done|]. rewrite tk_cons. destruct r as [|z|z|t|z|z]; cbn [rem_ok rem_loc] in *; [done| | | | |]; destruct k; repeat case_decide; try congruence; try lia; destruct Hr as [-> Hr]; try lia.
      destruct Hr as [[Ha _] _]. rewrite Ha, get_slot_tid; [lia| |].
      * destruct (i_slot _ _ _ _ _ _ HI2 (cur G) m0 LSleep Hm0 ltac:(eapply token; [exact HI2|done])) as (_ & _ & Hv). lia.
      * pose proof (proj1 (proj2 (proj2 (i_len _ _ _ _ _ _ HI)))). apply lookup_lt_Some in Hm0. rewrite (proj1 (proj2 (i_len _ _ _ _ _ _ HI))) in Hm0. lia.
  - done.
  - destruct r as [|z|z|t|z|z]; cbn [refs_ok]; try done. destruct Hl as [[_ ?]|[Ec Hr]]; [done|]. cbn [rem_ok] in Hr. destruct Hr as (-> & [Ha _] & _). cbn [metas set_group]. intros m2. rewrite Ha, get_slot_tid.
    + intros Hm2. rewrite Hm2 in Hm0. injection Hm0 as ->. done.
    + destruct (Nat.eqb_spec (cur G) g); [done|]. destruct (token _ _ _ _ _ _ _ _ HI2 ltac:(done)) as (_ & m3 & Hm3 & _ & _ & Hv). cbn [metas set_group] in Hm3. assert (m3 = m0) as -> by congruence. lia.
    + pose proof (proj1 (proj2 (proj2 (i_len _ _ _ _ _ _ HI)))). apply lookup_lt_Some in Hm0. rewrite (proj1 (proj2 (i_len _ _ _ _ _ _ HI))) in Hm0. lia.
  - cbn [cur pc exec G1] in *. unfold group_ok in *. destruct (x =? g)%nat; [split; [apply Hok1|done]|]. destruct Hok1 as (H1 & H2 & H3). split_and!; [done|done|exact H3].
Qed.
Lemma switch_inv n s loc h hs hb g G r x m e m0 : inv n s loc (if (x =? g)%nat then h else (LRun, x) :: h) hs hb -> groups s !! g = Some G -> leaves s g G r -> cur G <> x ->
  metas s !! x = Some m -> stack m = Some e -> (if (x =? g)%nat then e = MainStack g else resumes s x m /\ match e with MainStack h => h = g /\ stack_type m = STACK_TYPE_PTHREAD | Stk _ => stack_type m <> STACK_TYPE_PTHREAD end) ->
  metas s !! cur G = Some m0 -> (stack m0 = None -> exec G = e) -> exists s' loc', switch s g x r = Ok s' /\ inv n s' loc' h hs hb.
Proof. intros H1 H2 H3 H4 H5 H6 H7 H8 H9. destruct (switch_exact _ _ _ _ _ _ _ _ _ _ _ _ _ H1 H2 H3 H4 H5 H6 H7 H8 H9) as (loc' & -> & HI). eauto. Qed.

Lemma cocc_delete (l : list nat) i y x : l !! i = Some y -> (cocc (delete i l) x + is_ y x)%nat = cocc l x.
Proof. intros H. assert (l ≡ₚ y :: delete i l) as E by (by apply delete_Permutation). rewrite (proj1 (Permutation_count_occ Nat.eq_dec _ _) E x : cocc l x = cocc (y :: delete i l) x), cocc_is. lia. Qed.
Definition stack_of_type (g : nat) (e : Stack) (m : TaskMeta) : Prop := match e with MainStack h => h = g /\ stack_type m = STACK_TYPE_PTHREAD | Stk _ => stack_type m <> STACK_TYPE_PTHREAD end.
(** [m'] is [m] with a stack. *)
Definition stacked (g : nat) (m m' : TaskMeta) : Prop := exists e, stack m' = Some e /\ stack_of_type g e m' /\ version m' = version m /\ tid m' = tid m /\ context m' = context m /\ interrupted m' = interrupted m /\ sleep_failed m' = sleep_failed m /\ slept m' = slept m.
Lemma stacked_resumes s x g m m' : suspended x m -> cause s m -> stack m = None -> stacked g m m' -> resumes s x m'.
Proof.
  intros (Ha & Hf & Hn) Hc Hs (e & _ & _ & Hv & Ht & Hx & Hi & Hsf & Hsl). unfold resumes, alive, cause. rewrite Hv, Ht, Hx, Hi, Hsf, Hsl. split_and!; [done|done|]. intros [E|E]; destruct Hn as (k & Ek & _); congruence.
Qed.
Lemma give_meta_inv n s loc h hs hb g x m m' : inv n s loc ((LRun, x) :: h) hs hb -> metas s !! x = Some m -> stack m = None -> stacked g m m' -> current_waiter m' = current_waiter m -> current_sleep m' = current_sleep m ->
  forall hs', (forall j, (holds j m' + cocc hs' j = cocc hs j)%nat) -> inv n (set_meta x m' s) loc ((LRun, x) :: h) hs' hb.
Proof.
  intros HI Hm Hs (e & _ & _ & Hv & Ht & Hx & Hi & Hsf & Hsl) Hw Hcs hs' Hh. destruct (token _ _ _ _ _ _ _ _ HI ltac:(done)) as (Hk & m1 & Hm1 & Hok). assert (m1 = m) as -> by congruence.
  apply (inv_meta n s loc ((LRun, x) :: h) hs hb hs' hb x m m' LRun HI Hm Hk); [split_and!; [by left|by left|done]| | | | |done].
  - destruct Hok as (_ & [H1 H2] & H3). split_and!; [done|unfold sleep_ok; rewrite Hcs; done|rewrite Hv; lia|rewrite Hv; lia].
  - intros g' G HG E. destruct (running_not_token _ _ _ _ _ _ _ _ _ HI HG E).
  - intros j. rewrite Hh. unfold holds. by rewrite Hs.
  - rewrite Hw, Hx. lia.
Qed.
Lemma give_stack_inv n s loc h hs hb g x m c : inv n s loc ((LRun, x) :: h) hs hb -> metas s !! x = Some m -> stack m = None -> stack_type m <> STACK_TYPE_MAIN ->
  exists s' m', give_stack s g x m c = Some s' /\ inv n s' loc ((LRun, x) :: h) hs hb /\ metas s' = <[x := m']> (metas s) /\ stacked g m m' /\ groups s' = groups s /\ log s' = log s.
Proof.
  intros HI Hm Hs Hty. unfold give_stack, get_stack. destruct (Z.eqb_spec (stack_type m) STACK_TYPE_MAIN); [done|].
  assert (forall k s1, stack_type m <> STACK_TYPE_PTHREAD -> inv n s1 loc ((LRun, x) :: h) (k :: hs) hb -> metas s1 = metas s -> inv n (set_meta x (with_stack (Some (Stk k)) m) s1) loc ((LRun, x) :: h) hs hb) as H1.
  { intros k s1 Ht HI1 E. eapply (give_meta_inv _ _ _ _ _ _ g); [exact HI1|by rewrite E|done|exists (Stk k); done|done|done|]. intros j. unfold holds. cbn [stack with_stack]. rewrite cocc_is. lia. }
  assert (inv n (set_meta x (with_stack (Some (MainStack g)) (with_stack_type STACK_TYPE_PTHREAD m)) s) loc ((LRun, x) :: h) hs hb) as H2.
  { eapply (give_meta_inv _ _ _ _ _ _ g); [exact HI|done|done|exists (MainStack g); done|done|done|]. done. }
  assert (exists s' m', Some (set_meta x (with_stack (Some (MainStack g)) (with_stack_type STACK_TYPE_PTHREAD m)) s) = Some s' /\ inv n s' loc ((LRun, x) :: h) hs hb /\ metas s' = <[x := m']> (metas s) /\ stacked g m m' /\ groups s' = groups s /\ log s' = log s) as H3.
  { eexists _, _. split; [done|]. split; [exact H2|]. split; [done|]. split; [|done]. exists (MainStack g). done. }
  assert (forall ty, STACK_TYPE_SMALL <= ty <= STACK_TYPE_LARGE -> stack_type m <> STACK_TYPE_PTHREAD -> exists s' m',
    ('(o, s) ← Some (factory_get s ty c); Some (set_meta x (match o with Some k => with_stack (Some (Stk k)) m | None => with_stack (Some (MainStack g)) (with_stack_type STACK_TYPE_PTHREAD m) end) s)) = Some s' /\
    inv n s' loc ((LRun, x) :: h) hs hb /\ metas s' = <[x := m']> (metas s) /\ stacked g m m' /\ groups s' = groups s /\ log s' = log s) as HF.
  { intros ty Hr Ht. unfold factory_get. destruct c as [i| |]; [|cbn [mbind option_bind]|exact H3].
    - destruct (free_stacks s !! i) as [[f k]|] eqn:Ek; [|exact H3]. destruct (f =? ty); [|exact H3]. cbn [mbind option_bind]. eexists _, _. split; [done|]. split; [|split; [done|split; [exists (Stk k); done|done]]]. apply H1; [done| |done].
      eapply inv_rest; [exact HI|]. split; try done; try (intros; by left). intros j. change (nstacks (set_stacks _ _ s)) with (nstacks s). cbn [free_stacks set_stacks]. rewrite cocc_is. pose proof (delete_snd _ _ _ _ j Ek). lia.
    - eexists _, _. split; [done|]. split; [|split; [done|split; [exists (Stk (nstacks s)); done|done]]]. apply H1; [done| |done].
      eapply inv_rest; [exact HI|]. split; try done; try (intros; by left); [|intros H; cbn [stack_types set_stacks]; apply Forall_app; split; [exact H|by apply Forall_singleton]]. intros j. unfold nstacks. cbn [free_stacks stack_types set_stacks]. rewrite length_app, cocc_is. unfold is_. cbn [length]. destruct (Nat.eqb_spec (length (stack_types s)) j), (Nat.ltb_spec j (length (stack_types s))), (Nat.ltb_spec j (length (stack_types s) + 1)); cbn [b2n]; lia. }
  destruct (Z.eqb_spec (stack_type m) STACK_TYPE_PTHREAD); [exact H3|]. destruct (stack_type m =? STACK_TYPE_SMALL); [by apply HF|]. destruct (stack_type m =? STACK_TYPE_NORMAL); [by apply HF|]. destruct (stack_type m =? STACK_TYPE_LARGE); [by apply HF|exact H3].
Qed.
Lemma leaves_same s s' g G r : leaves s g G r -> metas s' !! cur G = metas s !! cur G -> leaves s' g G r.
Proof. intros (H1 & H2 & m & Hm & H3) E. split_and!; [done|done|]. exists m. by rewrite E. Qed.
(** The current bthread still has its stack, or hands it on. *)
Lemma left_stack n s loc h hs hb g G r m0 : inv n s loc h hs hb -> groups s !! g = Some G -> leaves s g G r -> metas s !! cur G = Some m0 -> wk <> Some g \/ stack m0 <> None -> stack m0 = Some (exec G).
Proof.
  intros HI HG (_ & _ & m & Hm & Hl) Hm0 Hn. destruct (i_group _ _ _ _ _ _ HI g G HG) as (_ & m1 & Hm1 & Hok & Hc). assert (m1 = m0) as -> by congruence. unfold group_ok in Hok. destruct (Nat.eqb_spec (cur G) g) as [E|E].
  - pose proof (group_lt _ _ _ _ _ _ _ _ HI HG). pose proof (i_slot _ _ _ _ _ _ HI (cur G) m0 LMain Hm0 ltac:(apply (i_len _ _ _ _ _ _ HI); lia)) as [(_ & Es & _) _]. destruct Hok as [-> _]. by rewrite E in Es.
  - destruct Hok as ([Es|[Es Ew]] & _); [done|]. by destruct Hn.
Qed.
Lemma resumes_same s s' x m : resumes s x m -> log s' = log s -> resumes s' x m.
Proof. unfold resumes, cause. intros H ->. exact H. Qed.
Lemma ready_resumes s x m : suspended x m -> cause s m -> stack m <> None -> own_stack m /\ resumes s x m.
Proof.
  intros (H1 & H2 & H3) H4 H5. assert (own_stack m) as H6 by (apply H3; intros E; by destruct (H2 E)). done.
Qed.
Lemma sched_to_inv n s loc h hs hb g G r x c : inv n s loc ((LReady, x) :: h) hs hb -> groups s !! g = Some G -> leaves s g G r -> (exists m0, metas s !! cur G = Some m0 /\ stack m0 <> None) -> exists s' loc', sched_to s g x r c = Ok s' /\ inv n s' loc' h hs hb.
Proof.
  intros HI HG Hl (m0 & Hm0 & Hs0). destruct (token _ _ _ _ _ _ _ _ HI ltac:(done)) as (Hk & m & Hm & Hok). pose proof Hok as ([Hsu Hca] & Hsl & Hv). pose proof (token_big _ _ _ _ _ _ _ _ HI ltac:(done)) as Hx. pose proof (group_lt _ _ _ _ _ _ _ _ HI HG) as Hg.
  assert (x <> g) as Hxg by lia. assert (inv n s (<[x := LRun]> loc) ((LRun, x) :: h) hs hb) as HI1 by (eapply relabel; [exact HI|exact Hm|done|done|done]). pose proof (running_not_token _ _ _ _ _ _ _ _ _ HI1 HG) as Hc.
  unfold sched_to. rewrite Hm. destruct (stack m) as [e|] eqn:Es.
  - destruct (ready_resumes s x m Hsu Hca ltac:(congruence)) as [(k & Ek & Hty) Hre]. eapply (switch_inv n s _ h hs hb g G r x m e m0); try done; rewrite (proj2 (Nat.eqb_neq x g)) by done; [done|]. split; [done|]. rewrite Ek in Es. by injection Es as <-.
  - destruct (give_stack_inv _ _ _ _ _ _ g x m c HI1 Hm Es) as (s1 & m1 & -> & HI2 & Em & Hst & Eg & El). { destruct Hsu as (_ & Hf & Hn). destruct (context m) eqn:Ex; [by apply Hf|..]; destruct Hn as (k & Ek & _); congruence. }
    assert (metas s1 !! cur G = Some m0) as Hm1 by (rewrite Em, list_lookup_insert_ne by done; done). pose proof (stacked_resumes _ _ _ _ _ Hsu Hca Es Hst) as Hre. pose proof Hst as (e & He & Ht & _).
    eapply (switch_inv n s1 _ h hs hb g G r x m1 e m0); try done; rewrite ?(proj2 (Nat.eqb_neq x g)) by done; try done.
    + by rewrite Eg.
    + eapply leaves_same; [exact Hl|]. by rewrite Hm1.
    + rewrite Em. apply list_lookup_insert_eq. by eapply lookup_lt_Some.
    + split; [by eapply resumes_same|done].
Qed.
Lemma main_stack n s loc h hs hb g : inv n s loc h hs hb -> (g < n)%nat -> exists m, metas s !! g = Some m /\ stack m = Some (MainStack g).
Proof.
  intros HI Hg. assert (loc !! g = Some LMain) as Hl by (by apply (i_len _ _ _ _ _ _ HI)). destruct (loc_meta _ _ _ _ _ _ _ _ HI Hl) as [m Hm]. exists m. split; [done|]. apply (i_slot _ _ _ _ _ _ HI g m LMain Hm Hl).
Qed.
Lemma sched_to_main_inv n s loc h hs hb g G r c : inv n s loc h hs hb -> groups s !! g = Some G -> leaves s g G r -> cur G <> g -> (exists m0, metas s !! cur G = Some m0 /\ stack m0 <> None) -> exists s' loc', sched_to s g g r c = Ok s' /\ inv n s' loc' h hs hb.
Proof.
  intros HI HG Hl Hc (m0 & Hm0 & Hs0). destruct (main_stack _ _ _ _ _ _ g HI (group_lt _ _ _ _ _ _ _ _ HI HG)) as (m & Hm & Es). unfold sched_to. rewrite Hm, Es.
  eapply (switch_inv n s loc h hs hb g G r g m (MainStack g) m0); try done; by rewrite Nat.eqb_refl.
Qed.

End Weak.

(** *** The end of a bthread *)

Abbreviation sinv := (inv (wk := None)).
Lemma weaken n s loc h hs hb g : sinv n s loc h hs hb -> inv (wk := Some g) n s loc h hs hb.
Proof.
  intros HI. split; try apply HI. intros g1 G HG. destruct (i_group _ _ _ _ _ _ HI g1 G HG) as (H1 & m & H2 & H3 & H4). split; [done|]. exists m. split_and!; [done| |done].
  unfold group_ok in *. destruct (_ =? g1)%nat; [done|]. destruct H3 as ([E|[_ [=]]] & H5 & [H6|[=]]). split_and!; [by left|done|by left].
Qed.
Lemma strengthen n s loc h hs hb g G m : inv (wk := Some g) n s loc h hs hb -> groups s !! g = Some G -> metas s !! cur G = Some m -> stack m <> None -> (cur G <> g -> pc_ok s (cur G) m (pc G)) -> sinv n s loc h hs hb.
Proof.
  intros HI HG Hm Hs Hp. split; try apply HI. intros g1 G1 HG1. destruct (i_group _ _ _ _ _ _ HI g1 G1 HG1) as (H1 & m1 & H2 & H3 & H4). split; [done|]. exists m1. split_and!; [done| |done].
  unfold group_ok in *. destruct (Nat.eqb_spec (cur G1) g1) as [|Hne]; [done|]. destruct H3 as (H3 & H5 & H6). split_and!; [|done|].
  - destruct H3 as [E|[E Ew]]; [by left|]. injection Ew as <-. congruence.
  - left. destruct H6 as [H6|Ew]; [done|]. injection Ew as <-. assert (G1 = G) as -> by congruence. assert (m1 = m) as -> by congruence. auto.
Qed.
Lemma give_stack_type n s loc h hs hb (x : nat) (m : TaskMeta) : suspended x m -> sinv n s loc h hs hb -> stack m = None -> stack_type m <> STACK_TYPE_MAIN.
Proof. intros (_ & Hf & Hn) _ Es. destruct (context m) eqn:Ex; [by apply Hf|..]; destruct Hn as (k & Ek & _); congruence. Qed.
(** The next bthread gets the stack of the one that has ended. *)
Lemma hand_over_inv n s loc g G x m m0 : sinv n s loc [(LReady, x)] [] [] -> groups s !! g = Some G -> leaves s g G (RRelease (cur G)) -> pc G = Sched (RRelease (cur G)) -> metas s !! cur G = Some m0 ->
  metas s !! x = Some m -> stack m = None -> stack_type m = stack_type m0 -> suspended x m -> cause s m -> x <> g -> cur G <> x ->
  exists s' loc', switch (set_meta (cur G) (with_stack None m0) (set_meta x (with_stack (stack m0) m) s)) g x (RRelease (cur G)) = Ok s' /\ sinv n s' loc' [] [] [].
Proof.
  intros HI HG Hl Hpc Hm0 Hm Es Ety Hsu Hca Hxg Hne. pose proof (left_stack _ _ _ _ _ _ _ _ _ _ HI HG Hl Hm0 ltac:(by left)) as E0. destruct (token _ _ _ _ _ _ _ _ HI ltac:(done)) as (Hk & m1 & Hm1 & Hok). assert (m1 = m) as -> by congruence.
  assert (inv (wk := Some g) n s (<[x := LRun]> loc) [(LRun, x)] [] []) as HI1. { apply weaken. eapply relabel; [exact HI|exact Hm|done|done|]. split; [done|apply Hok]. }
  destruct Hl as (Hl1 & Hl2 & m' & Hm' & [[_ ?]|[Hcg [_ Hpl]]]); [done|]. assert (m' = m0) as -> by congruence. pose proof (proj2 (i_group _ _ _ _ _ _ HI g G HG)) as (m2 & Hm2 & Hg2 & _). assert (m2 = m0) as -> by congruence. unfold group_ok in Hg2. rewrite (proj2 (Nat.eqb_neq _ _) Hcg) in Hg2. destruct Hg2 as (_ & Hty & _).
  destruct (meta_loc _ _ _ _ _ _ _ _ HI1 Hm0) as [k0 Hk0]. pose proof (i_slot _ _ _ _ _ _ HI1 (cur G) m0 k0 Hm0 Hk0) as Hs0.
  assert (k0 = LRun) as ->. { assert (loc !! cur G = Some LRun) as H. { eapply (place_loc n s loc); [exact HI|done|]. unfold place. pose proof (sum_lookup (gplace n LRun (cur G)) _ _ _ HG) as H1. enough (1 <= gplace n LRun (cur G) G)%nat by lia. unfold gplace, cplace. destruct (Nat.leb_spec n (cur G)); [rewrite is_refl; lia|]. destruct (i_group _ _ _ _ _ _ HI g G HG) as (_ & _ & _ & _ & Hc). lia. } rewrite list_lookup_insert_ne in Hk0 by done. congruence. }
  set (hs := match exec G with Stk k => [k] | MainStack _ => [] end).
  assert (inv (wk := Some g) n (set_meta (cur G) (with_stack None m0) s) (<[x := LRun]> loc) [(LRun, x)] hs []) as HI2.
  { eapply (inv_meta n s _ _ [] [] hs [] (cur G) m0 (with_stack None m0) LRun HI1 Hm0 Hk0); [split_and!; [by left|by left|done]|exact Hs0| | |cbn [context with_stack current_waiter]; lia|done].
    - intros g1 G1 HG1 Ec. assert (g1 = g) as ->.
      { destruct (decide (g1 = g)) as [|Hng]; [done|]. pose proof (i_place _ _ _ _ _ _ HI LRun (cur G) ltac:(done)) as P. unfold place in P. pose proof (sum_two (gplace n LRun (cur G)) _ _ _ _ _ HG1 HG Hng) as Q. unfold gplace in Q at 1 2. unfold cplace in Q. rewrite Ec, is_refl in Q. destruct (Nat.leb_spec n (cur G)); [destruct (bool_decide _); cbn [b2n] in P; lia|]. destruct (i_group _ _ _ _ _ _ HI g G HG) as (_ & _ & _ & _ & Hc). lia. }
      assert (G1 = G) as -> by congruence. unfold group_ok. rewrite (proj2 (Nat.eqb_neq _ _) Hcg), Hpc. split; [by right|]. split; [exact Hty|]. left. split; [done|exact Hpl].
    - intros j. unfold holds. cbn [stack with_stack]. rewrite E0. unfold hs. destruct (exec G); [done|]. rewrite cocc_is. cbn. lia. }
  assert (inv (wk := Some g) n (set_meta x (with_stack (stack m0) m) (set_meta (cur G) (with_stack None m0) s)) (<[x := LRun]> loc) [(LRun, x)] [] []) as HI3.
  { eapply (give_meta_inv _ _ _ _ _ _ g _ m); [exact HI2|cbn [metas set_meta]; by rewrite list_lookup_insert_ne|done| |done|done|].
    - exists (exec G). split; [by cbn [stack with_stack]|]. split; [|done]. cbn [stack_of_type stack_type with_stack]. destruct (exec G); cbn [stack_of_type stack_type with_stack]; rewrite Ety; exact Hty.
    - intros j. unfold holds, hs. cbn [stack with_stack]. rewrite E0. destruct (exec G); [done|]. rewrite cocc_is. cbn. lia. }
  assert (set_meta (cur G) (with_stack None m0) (set_meta x (with_stack (stack m0) m) s) = set_meta x (with_stack (stack m0) m) (set_meta (cur G) (with_stack None m0) s)) as -> by (unfold set_meta; cbn; f_equal; by rewrite list_insert_insert_ne).
  set (s3 := set_meta x (with_stack (stack m0) m) (set_meta (cur G) (with_stack None m0) s)) in *.
  assert (metas s3 !! x = Some (with_stack (stack m0) m)) as Hx3 by (cbn [metas s3 set_meta]; rewrite list_lookup_insert_eq; [done|rewrite length_insert; by eapply lookup_lt_Some]).
  assert (metas s3 !! cur G = Some (with_stack None m0)) as Hc3 by (cbn [metas s3 set_meta]; rewrite list_lookup_insert_ne, list_lookup_insert_eq by (done || by eapply lookup_lt_Some); done).
  assert (resumes s3 x (with_stack (stack m0) m)) as Hres.
  { eapply stacked_resumes; [exact Hsu|exact Hca|exact Es|]. exists (exec G). split; [by cbn [stack with_stack]|]. split; [|done]. destruct (exec G); cbn [stack_of_type stack_type with_stack]; rewrite Ety; exact Hty. }
  destruct (switch_exact (wk := Some g) n s3 (<[x := LRun]> loc) [] [] [] g G (RRelease (cur G)) x (with_stack (stack m0) m) (exec G) (with_stack None m0)) as (loc' & E & HI4); try done.
  - by rewrite (proj2 (Nat.eqb_neq x g)).
  - split_and!; [done|done|]. exists (with_stack None m0). split; [done|]. right. split; [done|]. split; [done|exact Hpl].
  - rewrite (proj2 (Nat.eqb_neq x g)) by done. split; [exact Hres|cbn [stack_type with_stack]; rewrite Ety; exact Hty].
  - exists (set_group g (mkGroup x (rq G) (remote_rq G) (Jumped (RRelease (cur G))) (exec G)) s3), loc'. split; [exact E|]. eapply (strengthen _ _ _ _ _ _ g _ (with_stack (stack m0) m)); [exact HI4| | |cbn; congruence|].
    + cbn [groups set_group s3 set_meta]. apply list_lookup_insert_eq. by eapply lookup_lt_Some.
    + exact Hx3.
    + intros _. exact Hres.
Qed.
Lemma ending_sched_to_inv n s loc g G x c : sinv n s loc [(LReady, x)] [] [] -> groups s !! g = Some G -> leaves s g G (RRelease (cur G)) -> pc G = Sched (RRelease (cur G)) -> exists s' loc', ending_sched_to s g x (RRelease (cur G)) c = Ok s' /\ sinv n s' loc' [] [] [].
Proof.
  intros HI HG Hl Hpc. pose proof Hl as (_ & _ & m0 & Hm0 & _). pose proof (left_stack _ _ _ _ _ _ _ _ _ _ HI HG Hl Hm0 ltac:(by left)) as E0.
  destruct (token _ _ _ _ _ _ _ _ HI ltac:(done)) as (Hk & m & Hm & Hok). destruct (sched_to_inv _ _ _ _ _ _ _ _ _ _ c HI HG Hl) as (s' & loc' & E & HI'); [exists m0; split; [done|congruence]|].
  unfold sched_to in E. unfold ending_sched_to. rewrite HG, Hm, Hm0. rewrite Hm in E. destruct (stack m) as [e|] eqn:Es; [eauto|]. destruct (Z.eqb_spec (stack_type m) (stack_type m0)) as [Et|Et]; [|eauto].
  pose proof (token_big _ _ _ _ _ _ _ _ HI ltac:(done)) as Hx. pose proof (group_lt _ _ _ _ _ _ _ _ HI HG) as Hg. assert (cur G <> x) as Hne. { intros Ex. assert (m0 = m) as -> by congruence. congruence. }
  eapply hand_over_inv; try done; [apply Hok|apply Hok|lia].
Qed.
Lemma ending_sched_main_inv n s loc g G c : sinv n s loc [] [] [] -> groups s !! g = Some G -> leaves s g G (RRelease (cur G)) -> exists s' loc', ending_sched_to s g g (RRelease (cur G)) c = Ok s' /\ sinv n s' loc' [] [] [].
Proof.
  intros HI HG Hl. pose proof Hl as (_ & _ & m0 & Hm0 & Hd). pose proof (left_stack _ _ _ _ _ _ _ _ _ _ HI HG Hl Hm0 ltac:(by left)) as E0. assert (cur G <> g) as Hc by (by destruct Hd as [[_ ?]|[]]).
  destruct (sched_to_main_inv _ _ _ _ _ _ _ _ _ c HI HG Hl Hc) as (s' & loc' & E & HI'); [exists m0; split; [done|congruence]|]. destruct (main_stack _ _ _ _ _ _ g HI (group_lt _ _ _ _ _ _ _ _ HI HG)) as (m & Hm & Es).
  unfold sched_to in E. unfold ending_sched_to. rewrite HG, Hm, Hm0, Es. rewrite Hm, Es in E. eauto.
Qed.

(** *** Queues *)

Section Queues.
Context {config : Config}.
Lemma bounds n s loc h hs hb x m : sinv n s loc h hs hb -> metas s !! x = Some m -> 0 < version m < 2 ^ 32 /\ Z.of_nat x < 2 ^ 32.
Proof.
  intros HI Hm. destruct (meta_loc _ _ _ _ _ _ _ _ HI Hm) as [k Hk]. split; [apply (i_slot _ _ _ _ _ _ HI x m k Hm Hk)|]. apply lookup_lt_Some in Hk. pose proof (proj1 (proj2 (proj2 (i_len _ _ _ _ _ _ HI)))). lia.
Qed.
Lemma alive_slot n s loc h hs hb x m : sinv n s loc h hs hb -> metas s !! x = Some m -> alive x m -> get_slot (tid m) = x /\ get_version (tid m) = version m.
Proof. intros HI Hm Ha. destruct (bounds _ _ _ _ _ _ _ _ HI Hm). rewrite Ha. split; [apply get_slot_tid|apply get_version_tid]; lia. Qed.
(** Only the run queues of a group change. *)
Lemma queue_inv n s loc h h' hs hb g G l r : sinv n s loc h hs hb -> groups s !! g = Some G ->
  (forall x, (cocc (slots l) x + cocc (slots r) x + tk h' LReady x = cocc (slots (rq G)) x + cocc (slots (remote_rq G)) x + tk h LReady x)%nat) -> (forall k x, k <> LReady -> tk h' k x = tk h k x) ->
  (forall t, t ∈ l \/ t ∈ r -> queued s t \/ forall m, metas s !! get_slot t = Some m -> tid m = t) -> sinv n (set_group g (mkGroup (cur G) l r (pc G) (exec G)) s) loc h' hs hb.
Proof.
  intros HI HG Hc Hk Hq. destruct (i_group _ _ _ _ _ _ HI g G HG) as (H1 & m & H2). eapply inv_group; [exact HI|exact HG| |done|done|eauto|done].
  intros k x. unfold gplace. cbn [cur rq remote_rq pc]. destruct (decide (k = LReady)) as [->|Hne]; [cbn [cplace qplace]; specialize (Hc x); lia|]. rewrite (Hk k x) by done. destruct k; cbn [qplace]; try congruence; lia.
Qed.
Lemma ready_tid n s loc h hs hb x : sinv n s loc ((LReady, x) :: h) hs hb -> exists m, metas s !! x = Some m /\ get_slot (tid m) = x /\ forall m', metas s !! get_slot (tid m) = Some m' -> tid m' = tid m.
Proof.
  intros HI. destruct (token _ _ _ _ _ _ _ _ HI ltac:(done)) as (_ & m & Hm & ([Ha _] & _) & _). exists m. split; [done|]. destruct (alive_slot _ _ _ _ _ _ _ _ HI Hm Ha) as [E _]. split; [done|]. rewrite E. intros m'. congruence.
Qed.
Lemma push_rq_inv n s loc h hs hb g x s' : sinv n s loc ((LReady, x) :: h) hs hb -> push_rq s g x = Some s' -> sinv n s' loc h hs hb.
Proof.
  intros HI. destruct (ready_tid _ _ _ _ _ _ _ HI) as (m & Hm & Es & Ht). unfold push_rq. destruct (groups s !! g) as [G|] eqn:HG; [|done]. rewrite Hm. destruct (_ <? _)%nat; [|done]. intros [= <-]. eapply queue_inv; [exact HI|exact HG| | |].
  - intros y. rewrite slots_snoc, tk_cons, Es. case_decide; [lia|done].
  - intros k y Hne. rewrite tk_cons, decide_False by done. lia.
  - intros t [[Hl| ->%list_elem_of_singleton]%elem_of_app|Hr]; [left; right; eauto|by right|left; right; eauto].
Qed.
Lemma push_remote_inv n s loc h hs hb g x s' : sinv n s loc ((LReady, x) :: h) hs hb -> push_remote s g x = Some s' -> sinv n s' loc h hs hb.
Proof.
  intros HI. destruct (ready_tid _ _ _ _ _ _ _ HI) as (m & Hm & Es & Ht). unfold push_remote. destruct (groups s !! g) as [G|] eqn:HG; [|done]. rewrite Hm. destruct (_ <? _)%nat; [|done]. intros [= <-]. eapply queue_inv; [exact HI|exact HG| | |].
  - intros y. rewrite slots_snoc, tk_cons, Es. case_decide; [lia|done].
  - intros k y Hne. rewrite tk_cons, decide_False by done. lia.
  - intros t [Hl|[Hr| ->%list_elem_of_singleton]%elem_of_app]; [left; right; eauto|left; right; eauto|by right].
Qed.
Lemma push_priority_inv n s loc h hs hb x : sinv n s loc ((LReady, x) :: h) hs hb -> exists loc', sinv n (push_priority_queue s x) loc' h hs hb.
Proof.
  intros HI. destruct (ready_tid _ _ _ _ _ _ _ HI) as (m & Hm & Es & Ht). unfold push_priority_queue. rewrite Hm. destruct (_ <? _)%nat.
  - exists loc. eapply inv_rest; [exact HI|]. split; try done; try (intros; by left).
    + intros k y. rewrite tk_cons. destruct k; cbn [rest priority_queue set_prio firing timers waiting free log]; rewrite ?slots_snoc, ?Es; repeat case_decide; try congruence; lia.
    + intros t [Hl| ->%list_elem_of_singleton]%elem_of_app; [by left|by right].
  - exists (<[x := LLost]> loc). destruct (token _ _ _ _ _ _ _ _ HI ltac:(done)) as (_ & m1 & Hm1 & [Hsu _] & Hsl & Hv). eapply inv_rest; [eapply relabel; [exact HI|exact Hm1|done|done|done]|]. split; try done; try (intros; by left).
    + intros k y. rewrite tk_cons. destruct k; cbn [rest priority_queue add_log firing timers waiting free log]; repeat case_decide; try congruence; try lia. unfold lost_slots. rewrite omap_app. cbn [omap list_omap]. rewrite cocc_app, cocc_is, Es. cbn. lia.
    + intros e He. apply elem_of_app. by left.
    + intros id [He|He%list_elem_of_singleton]%elem_of_app; [by left|done].
Qed.
Lemma pop_front_some l t l' : pop_front l = Some (t, l') -> l = t :: l'.
Proof. destruct l; [done|]. by intros [= -> ->]. Qed.
Lemma slots_cons t l x : cocc (slots (t :: l)) x = (is_ (get_slot t) x + cocc (slots l) x)%nat.
Proof. apply cocc_is. Qed.
Lemma same_groups_insert s g G l r : groups s !! g = Some G -> same_groups s (set_group g (mkGroup (cur G) l r (pc G) (exec G)) s).
Proof.
  intros HG. split_and!; [done|done|]. intros g1 G1 HG1. cbn [groups set_group]. destruct (decide (g1 = g)) as [->|Hne]; [rewrite list_lookup_insert_eq by (by eapply lookup_lt_Some); assert (G1 = G) as -> by congruence; eauto|]. rewrite list_lookup_insert_ne by done. eauto.
Qed.
Lemma steal_task_inv n s loc h hs hb c t s' : sinv n s loc h hs hb -> steal_task s c = Some (t, s') -> sinv n s' loc ((LReady, get_slot t) :: h) hs hb /\ same_groups s s'.
Proof.
  intros HI. destruct c as [g|g| |]; cbn [steal_task]; [| | |done].
  - destruct (groups s !! g) as [G|] eqn:HG; [|done]. cbn [mbind option_bind]. destruct (pop_front (rq G)) as [[t1 l]|] eqn:Ep; [|done]. cbn [mbind option_bind]. intros [= -> <-]. apply pop_front_some in Ep. split; [|by apply same_groups_insert]. eapply queue_inv; [exact HI|exact HG| | |].
    + intros y. rewrite Ep, slots_cons, tk_cons. case_decide; [lia|done].
    + intros k y Hne. rewrite tk_cons, decide_False by done. lia.
    + intros t2 Ht. left. right. exists g, G. split; [done|]. rewrite Ep. set_solver.
  - destruct (groups s !! g) as [G|] eqn:HG; [|done]. cbn [mbind option_bind]. destruct (pop_front (remote_rq G)) as [[t1 l]|] eqn:Ep; [|done]. cbn [mbind option_bind]. intros [= -> <-]. apply pop_front_some in Ep. split; [|by apply same_groups_insert]. eapply queue_inv; [exact HI|exact HG| | |].
    + intros y. rewrite Ep, slots_cons, tk_cons. case_decide; [lia|done].
    + intros k y Hne. rewrite tk_cons, decide_False by done. lia.
    + intros t2 Ht. left. right. exists g, G. split; [done|]. rewrite Ep. set_solver.
  - destruct (pop_front (priority_queue s)) as [[t1 l]|] eqn:Ep; [|done]. cbn [mbind option_bind]. intros [= -> <-]. apply pop_front_some in Ep. split; [|split_and!; [done|done|eauto]]. eapply inv_rest; [exact HI|]. split; try done; try (intros; by left).
    + intros k y. rewrite tk_cons. destruct k; cbn [rest priority_queue set_prio firing timers waiting free log]; rewrite ?Ep, ?slots_cons; repeat case_decide; try congruence; lia.
    + intros t2 Ht. left. rewrite Ep. cbn [priority_queue set_prio] in Ht. set_solver.
Qed.
Lemma next_task_inv n s loc h hs hb g c x s' : sinv n s loc h hs hb -> next_task s g c = Some (x, s') -> (x = g /\ s' = s) \/ (sinv n s' loc ((LReady, x) :: h) hs hb /\ same_groups s s').
Proof.
  intros HI. unfold next_task. destruct (groups s !! g) as [G|] eqn:HG; [|done]. cbn [mbind option_bind]. destruct (last (rq G)) as [t|] eqn:El.
  - intros [= <- <-]. right. apply last_Some in El as [l El]. split; [|by apply same_groups_insert]. eapply queue_inv; [exact HI|exact HG| | |].
    + intros y. rewrite El, removelast_last, slots_snoc, tk_cons. case_decide; [lia|done].
    + intros k y Hne. rewrite tk_cons, decide_False by done. lia.
    + intros t2 Ht. left. right. exists g, G. split; [done|]. rewrite El, removelast_last in Ht. rewrite El. set_solver.
  - destruct (steal_task s c) as [[t s1]|] eqn:Ec; intros [= <- <-]; [|by left]. right. by eapply steal_task_inv.
Qed.
(** *** sched and wait_task *)

Lemma leaves_groups s s' g G G' r : leaves s g G r -> same_groups s s' -> cur G' = cur G -> pc G' = pc G -> leaves s' g G' r.
Proof. intros (H1 & H2 & m & H3 & H4) (Em & _) Ec Ep. unfold leaves. rewrite Ep, Ec, Em. eauto. Qed.
Lemma sched_inv n s loc g G r c k : sinv n s loc [] [] [] -> groups s !! g = Some G -> pc G = Sched r -> exists s' loc', sched s g r c k = Ok s' /\ sinv n s' loc' [] [] [].
Proof.
  intros HI HG Hp. destruct (i_group _ _ _ _ _ _ HI g G HG) as (_ & m & Hm & Hok & Hc). unfold group_ok in Hok. destruct (Nat.eqb_spec (cur G) g) as [Ec|Ec]; [rewrite Hp in Hok; by destruct Hok|].
  assert (leaves s g G r) as Hl. { split_and!; [by rewrite Hp|by rewrite Hp|]. exists m. split; [done|]. right. rewrite Hp in Hok. split; [done|]. by destruct Hok as (_ & _ & [?|[=]]). }
  assert (forall y, r = RRelease y -> y = cur G) as Hy by (intros y ->; rewrite Hp in Hok; by destruct Hok as (_ & _ & [[? _]|[=]])). destruct Hok as ([Hst|[_ ?]] & _); [|done].
  unfold sched. destruct (next_task s g c) as [[x s1]|] eqn:En; [|unfold next_task in En; rewrite HG in En; cbn in En; by destruct (last (rq G)), (steal_task s c) as [[]|]].
  destruct (next_task_inv _ _ _ _ _ _ _ _ _ _ HI En) as [[-> ->]|[HI1 HS]].
  - destruct r as [|y|y|t|y|y]; try (by (eapply sched_to_main_inv; [exact HI|exact HG|exact Hl|done|exists m; split; [done|congruence]])). rewrite (Hy y) in * by done. eapply ending_sched_main_inv; [exact HI|exact HG|exact Hl].
  - destruct (proj2 (proj2 HS) g G HG) as (G1 & HG1 & Ec1 & Ep1 & Ex1). pose proof (leaves_groups _ _ _ _ G1 _ Hl HS Ec1 Ep1) as Hl1.
    destruct r as [|y|y|t|y|y]; try (by (eapply sched_to_inv; [exact HI1|exact HG1|exact Hl1|exists m; rewrite (proj1 HS), Ec1; split; [done|congruence]])). rewrite (Hy y), <- Ec1 in * by done. eapply ending_sched_to_inv; [exact HI1|exact HG1|exact Hl1|congruence].
Qed.
Lemma wait_task_inv n s loc g G c k : sinv n s loc [] [] [] -> groups s !! g = Some G -> pc G = WaitTask -> exists s' loc', wait_task s g c k = Ok s' /\ sinv n s' loc' [] [] [].
Proof.
  intros HI HG Hp. destruct (i_group _ _ _ _ _ _ HI g G HG) as (_ & m & Hm & Hok & Hc). unfold group_ok in Hok. destruct (Nat.eqb_spec (cur G) g) as [Ec|Ec]; [|rewrite Hp in Hok; by destruct Hok as (_ & _ & [[]|[=]])].
  unfold wait_task. destruct (steal_task s c) as [[t s1]|] eqn:Es; [|eauto]. destruct (steal_task_inv _ _ _ _ _ _ _ _ _ HI Es) as [HI1 HS]. destruct (proj2 (proj2 HS) g G HG) as (G1 & HG1 & Ec1 & Ep1 & Ex1).
  destruct (main_stack _ _ _ _ _ _ g HI (group_lt _ _ _ _ _ _ _ _ HI HG)) as (m1 & Hm1 & Hs1).
  eapply sched_to_inv; [exact HI1|exact HG1| |exists m1; rewrite (proj1 HS), Ec1, Ec; split; [done|congruence]]. split_and!; [by rewrite Ep1, Hp|by rewrite Ep1, Hp|]. exists m. rewrite (proj1 HS), Ec1. split; [done|]. left. by rewrite Ec.
Qed.
(** *** Remained functions *)

Lemma set_pc_twice g p q s : set_pc g p (set_pc g q s) = set_pc g p s.
Proof. unfold set_pc. destruct (groups s !! g) as [G|] eqn:HG; [|by rewrite HG]. cbn [groups set_group]. rewrite list_lookup_insert_eq by (by eapply lookup_lt_Some). unfold set_group. cbn. by rewrite list_insert_insert_eq. Qed.
Lemma set_pc_meta g p x m s : set_pc g p (set_meta x m s) = set_meta x m (set_pc g p s).
Proof. unfold set_pc. cbn [groups set_meta]. by destruct (groups s !! g). Qed.
Lemma set_pc_timers g p l f i s : set_pc g p (set_timers l f i s) = set_timers l f i (set_pc g p s).
Proof. unfold set_pc. cbn [groups set_timers]. by destruct (groups s !! g). Qed.
Lemma set_pc_waiting g p l s : set_pc g p (set_waiting l s) = set_waiting l (set_pc g p s).
Proof. unfold set_pc. cbn [groups set_waiting]. by destruct (groups s !! g). Qed.
Lemma set_pc_prio g p l s : set_pc g p (set_prio l s) = set_prio l (set_pc g p s).
Proof. unfold set_pc. cbn [groups set_prio]. by destruct (groups s !! g). Qed.
Lemma set_pc_log g p e s : set_pc g p (add_log e s) = add_log e (set_pc g p s).
Proof. unfold set_pc. cbn [groups add_log]. by destruct (groups s !! g). Qed.
Lemma set_pc_free g p l s : set_pc g p (set_free l s) = set_free l (set_pc g p s).
Proof. unfold set_pc. cbn [groups set_free]. by destruct (groups s !! g). Qed.
Lemma set_pc_stacks g p l k s : set_pc g p (set_stacks l k s) = set_stacks l k (set_pc g p s).
Proof. unfold set_pc. cbn [groups set_stacks]. by destruct (groups s !! g). Qed.
Lemma return_fields s j : metas (return_stack s j) = metas s /\ free (return_stack s j) = free s.
Proof. unfold return_stack. destruct (stack_types s !! j); [|done]. by repeat (destruct (_ =? _); [done|]). Qed.
Lemma set_pc_fields g p s : metas (set_pc g p s) = metas s /\ free (set_pc g p s) = free s /\ threads (set_pc g p s) = threads s /\ priority_queue (set_pc g p s) = priority_queue s /\ timers (set_pc g p s) = timers s /\ firing (set_pc g p s) = firing s /\ next_id (set_pc g p s) = next_id s /\ waiting (set_pc g p s) = waiting s /\ free_stacks (set_pc g p s) = free_stacks s /\ stack_types (set_pc g p s) = stack_types s /\ log (set_pc g p s) = log s.
Proof. unfold set_pc. by destruct (groups s !! g). Qed.
Lemma set_pc_group g p s G : groups s !! g = Some G -> groups (set_pc g p s) !! g = Some (with_pc p G).
Proof. intros HG. unfold set_pc. rewrite HG. cbn. apply list_lookup_insert_eq. by eapply lookup_lt_Some. Qed.
Lemma set_pc_return g p s j : set_pc g p (return_stack s j) = return_stack (set_pc g p s) j.
Proof.
  destruct (set_pc_fields g p s) as (_ & _ & _ & _ & _ & _ & _ & _ & E3 & E4 & _). unfold return_stack, factory_return. rewrite E3, E4. destruct (stack_types s !! j); [|done]. repeat (destruct (_ =? _); [apply set_pc_stacks|]). done.
Qed.
Lemma push_rq_pc g p s x s' : push_rq s g x = Some s' -> push_rq (set_pc g p s) g x = Some (set_pc g p s').
Proof.
  unfold push_rq, set_pc. destruct (groups s !! g) as [G|] eqn:HG; [|done]. cbn [groups metas set_group]. rewrite list_lookup_insert_eq by (by eapply lookup_lt_Some). cbn [cur rq remote_rq pc exec with_pc]. destruct (metas s !! x) as [m|]; [|done]. destruct (_ <? _)%nat; [|done]. intros [= <-].
  cbn [groups set_group]. rewrite list_lookup_insert_eq by (by eapply lookup_lt_Some). unfold set_group, with_pc. cbn. by rewrite !list_insert_insert_eq.
Qed.
Lemma push_priority_pc g p s x : set_pc g p (push_priority_queue s x) = push_priority_queue (set_pc g p s) x.
Proof. unfold push_priority_queue. destruct (set_pc_fields g p s) as (-> & _ & _ & -> & _). destruct (metas s !! x); [|done]. destruct (_ <? _)%nat; [apply set_pc_prio|apply set_pc_log]. Qed.

Definition jtok (r : Remained) : list (L * nat) := match r with RNone => [] | RReady x | RPriority x => [(LReady, x)] | RSleep t => [(LSleep, get_slot t)] | RBlock x => [(LBlock, x)] | RRelease x => [(LRel, x)] end.
Definition between (p : PC) : Prop := match p with Jumped _ | AddSleep _ _ | AddSleep2 _ _ | Resume => True | _ => False end.
Lemma between_ok s g x m p q e : between p -> between q -> group_ok (wk := None) s g x m p e -> group_ok (wk := None) s g x m q e.
Proof. intros Hp Hq. unfold group_ok. destruct p, q; try done. Qed.
(** Between the switch and the rest. *)
Lemma between_inv n s loc h h' hs g G q : sinv n s loc h hs [] -> groups s !! g = Some G -> between (pc G) -> between q -> (forall k x, (pplace k x q + tk h' k x = pplace k x (pc G) + tk h k x)%nat) -> refs_ok s q -> sinv n (set_pc g q s) loc h' hs [].
Proof.
  intros HI HG Hp Hq Ht Hr. destruct (i_group _ _ _ _ _ _ HI g G HG) as (_ & m & Hm & Hok & _). eapply tg_inv_pc; [exact HI|exact HG|exact Hm|exact Ht| |exact Hr|exact (between_ok _ _ _ _ _ _ _ Hp Hq Hok)].
  intros x. destruct q, (pc G); done.
Qed.
Lemma jumped_tokens k x r : pplace k x (Jumped r) = tk (jtok r) k x.
Proof. destruct r; cbn [pplace jtok]; unfold tk; cbn [sum_list_with fst snd]; destruct k; repeat case_decide; try congruence; try lia. Qed.
Lemma open_jumped n s loc g G r : sinv n s loc [] [] [] -> groups s !! g = Some G -> pc G = Jumped r -> sinv n (set_pc g Resume s) loc (jtok r) [] [].
Proof. intros HI HG Hp. eapply between_inv; [exact HI|exact HG|by rewrite Hp|done| |done]. intros k x. rewrite Hp, jumped_tokens. cbn. lia. Qed.
Lemma close_between n s loc g G q h' : sinv n s loc h' [] [] -> groups s !! g = Some G -> pc G = Resume -> between q -> (forall k x, (pplace k x q = tk h' k x)%nat) -> refs_ok s q -> sinv n (set_pc g q s) loc [] [] [].
Proof. intros HI HG Hp Hq Ht Hr. eapply between_inv; [exact HI|exact HG|by rewrite Hp|done| |exact Hr]. intros k x. rewrite Hp, Ht. cbn. lia. Qed.
Lemma not_running n s loc h hs hb g G x k : sinv n s loc h hs hb -> loc !! x = Some k -> k <> LRun -> (n <= x)%nat -> groups s !! g = Some G -> cur G <> x.
Proof.
  intros HI Hk Hne Hx HG E. pose proof (i_place _ _ _ _ _ _ HI LRun x ltac:(done)) as P. rewrite Hk, bool_decide_eq_false_2 in P by congruence. unfold place in P. pose proof (sum_lookup (gplace n LRun x) _ _ _ HG) as Q. assert (1 <= gplace n LRun x G)%nat by (unfold gplace, cplace; rewrite (proj2 (Nat.leb_le n x) Hx), E, is_refl; lia). cbn [b2n] in P. lia.
Qed.
(** A change of a slot that is in hand and not running. *)
Lemma held_meta n s loc h hs hb x k m m' : sinv n s loc ((k, x) :: h) hs hb -> k <> LMain -> k <> LRun -> metas s !! x = Some m -> mild s x k m m' -> slot_ok s x m' k ->
  current_waiter m' = current_waiter m -> context m' = context m -> forall hs', (forall j, (holds j m' + cocc hs' j = holds j m + cocc hs j)%nat) -> sinv n (set_meta x m' s) loc ((k, x) :: h) hs' hb.
Proof.
  intros HI Hk Hk' Hm Hmi Hs Hw Hx hs' Hh. destruct (token _ _ _ _ _ _ _ _ HI Hk) as (Hl & _). eapply (inv_meta _ _ _ _ _ _ hs' hb x m m' k HI Hm Hl Hmi Hs); [|done|rewrite Hw, Hx; lia|done].
  intros g G HG E. destruct (not_running _ _ _ _ _ _ _ _ _ _ HI Hl Hk' (token_big _ _ _ _ _ _ _ _ HI Hk) HG E).
Qed.
Lemma upd_meta_some s x m f : metas s !! x = Some m -> upd_meta x f s = set_meta x (f m) s.
Proof. unfold upd_meta. by intros ->. Qed.
Lemma tk_one k x j y : tk [(k, x)] j y = (if decide (k = j) then is_ x y else 0%nat).
Proof. rewrite tk_cons. cbn. lia. Qed.
Lemma tk_nil k x : tk [] k x = 0%nat.
Proof. done. Qed.
Lemma sleep_remained_inv n s loc g G t : sinv n s loc [(LSleep, get_slot t)] [] [] -> groups s !! g = Some G -> pc G = Resume -> (forall m, metas s !! get_slot t = Some m -> tid m = t) ->
  exists loc', sinv n (let r := schedule s (get_slot t) in set_pc g (AddSleep t r.1) (upd_meta (get_slot t) (with_slept r.1) r.2)) loc' [] [] [].
Proof.
  intros HI HG Hp Ht. cbn zeta. unfold schedule. cbn [fst snd]. set (x := get_slot t) in *. destruct (token _ _ _ _ _ _ _ _ HI ltac:(done)) as (Hl & m & Hm & ([Hsu Hc] & [H1 H2] & Hv)). specialize (Ht m Hm).
  rewrite (upd_meta_some _ _ m) by done. set (m' := with_slept (next_id s) m).
  assert (sinv n (set_meta x m' s) loc [(LSleep, x)] [] []) as HI1. { eapply held_meta; [exact HI|done|done|exact Hm|split_and!; [by left|by left|done]| |done|done|done]. split; [split; [exact Hsu|exact Hc]|]. split; [split; done|done]. }
  assert (metas (set_meta x m' s) !! x = Some m') as Hm' by (cbn; apply list_lookup_insert_eq; by eapply lookup_lt_Some).
  assert (sinv n (set_meta x m' s) (<[x := LTimer]> loc) [(LTimer, x)] [] []) as HI2. { eapply relabel; [exact HI1|exact Hm'|done|done|]. split; [split; [exact Hsu|exact Hc]|]. split; [split; done|done]. }
  set (s2 := set_timers (timers s ++ [(next_id s, x)]) (firing s) (next_id s + 1) (set_meta x m' s)).
  assert (sinv n s2 (<[x := LTimer]> loc) [] [] []) as HI3.
  { eapply inv_rest; [exact HI2|]. split; try done; try (intros; by left); cbn [next_id timers s2 set_timers set_meta]; [|lia|].
    - intros k y. rewrite tk_one, tk_nil. unfold s2. destruct k; cbn [rest set_timers set_meta timers waiting free log priority_queue firing]; repeat case_decide; try congruence; try lia. rewrite map_app, cocc_app. cbn [map snd]. rewrite cocc_is. cbn. lia.
    - intros id y [H|[= -> ->]%list_elem_of_singleton]%elem_of_app; [by left|right]. split_and!; [done|lia|]. intros m1. rewrite Hm'. by intros [= <-]. }
  exists (<[x := LTimer]> loc). change (set_meta x m' (set_timers _ _ _ s)) with s2. eapply close_between; [exact HI3|exact HG|exact Hp|done|by intros []|]. cbn [refs_ok]. split; [cbn; lia|]. cbn [timers s2 set_timers set_meta metas]. intros y [H|[= ->]%list_elem_of_singleton]%elem_of_app.
  - destruct (i_timer _ _ _ _ _ _ HI _ _ H) as [? _]. lia.
  - split; [done|]. intros m1. change (<[x := m']> (metas s) !! x) with (metas (set_meta x m' s) !! x). rewrite Hm'. intros [= <-]. destruct Hsu as [Ha _]. destruct (alive_slot _ _ _ _ _ _ _ _ HI Hm Ha) as [_ E]. rewrite Ht in E. by rewrite E.
Qed.
Lemma release_inv n s loc x : sinv n s loc [(LRel, x)] [] [] -> exists loc', sinv n (_release_last_context s x) loc' [] [] [].
Proof.
  intros HI. destruct (token _ _ _ _ _ _ _ _ HI ltac:(done)) as (Hl & m & Hm & ((Hc & Hs1 & Hs2) & [H1 H2] & Hv)). unfold _release_last_context. rewrite Hm.
  set (hs := match stack m with Some (Stk k) => [k] | _ => [] end).
  assert (sinv n (set_meta x (with_stack None m) s) loc [(LRel, x)] hs []) as HI1.
  { eapply held_meta; [exact HI|done|done|exact Hm|split_and!; [by left|by left|done]|split; [split; [exact Hc|by split]|split; [split; done|done]]|done|done|].
    intros j. unfold holds, hs. cbn [stack with_stack]. destruct (stack m) as [[|k]|]; [done| |done]. rewrite cocc_is. cbn. lia. }
  assert (metas (set_meta x (with_stack None m) s) !! x = Some (with_stack None m)) as Hm' by (cbn; apply list_lookup_insert_eq; by eapply lookup_lt_Some).
  assert (sinv n (set_meta x (with_stack None m) s) (<[x := LFree]> loc) [(LFree, x)] hs []) as HI2. { eapply relabel; [exact HI1|exact Hm'|done|done|]. split; [split; [done|exact Hc]|split; [split; done|done]]. }
  exists (<[x := LFree]> loc). eapply inv_rest; [exact HI2|].
  assert (stack_type m = STACK_TYPE_PTHREAD -> hs = []) as Hpt. { intros E. unfold hs. destruct (stack m) as [[|k]|] eqn:Es; [done| |done]. by destruct (Hs2 k eq_refl). }
  destruct (Z.eqb_spec (stack_type m) STACK_TYPE_PTHREAD) as [E|E].
  - rewrite (Hpt E). split; try done; try (intros; by left). intros k y. rewrite tk_one, tk_nil. destruct k; cbn [rest set_free set_meta timers waiting free log priority_queue firing]; repeat case_decide; try congruence; try lia. rewrite cocc_app, cocc_is. cbn. lia.
  - unfold hs. destruct (stack m) as [[|j]|] eqn:Es.
    + split; try done; try (intros; by left). intros k y. rewrite tk_one, tk_nil. destruct k; cbn [rest set_free set_meta timers waiting free log priority_queue firing]; repeat case_decide; try congruence; try lia. rewrite cocc_app, cocc_is. cbn. lia.
    + assert (j < nstacks s)%nat as Hj.
      { pose proof (i_stack _ _ _ _ _ _ HI j) as P. unfold stacks in P. pose proof (sum_lookup (holds j) _ _ _ Hm) as Q. rewrite (holds_eq _ _ Es) in Q. destruct (Nat.ltb_spec j (nstacks s)); [done|cbn [b2n] in P; lia]. }
      apply lookup_lt_is_Some in Hj as [f Hf]. assert (return_stack s j = set_stacks (free_stacks s ++ [(f, j)]) (stack_types s) s) as ->.
      { pose proof (i_types _ _ _ _ _ _ HI) as Ht. rewrite Forall_forall in Ht. specialize (Ht f (list_elem_of_lookup_2 _ _ _ Hf)). unfold return_stack, factory_return, STACK_TYPE_SMALL, STACK_TYPE_NORMAL, STACK_TYPE_LARGE in *. rewrite Hf. destruct (Z.eqb_spec f 2) as [->|]; [done|]. destruct (Z.eqb_spec f 3) as [->|]; [done|]. destruct (Z.eqb_spec f 4) as [->|]; [done|lia]. }
      split; try done; try (intros; by left).
      * intros k y. rewrite tk_one, tk_nil. destruct k; cbn [rest set_free set_meta set_stacks timers waiting free log priority_queue firing]; repeat case_decide; try congruence; try lia. rewrite cocc_app, cocc_is. cbn. lia.
      * intros k. change (nstacks (set_free _ _)) with (nstacks s). change (nstacks (set_meta _ _ s)) with (nstacks s). cbn [free_stacks set_free set_meta set_stacks]. rewrite map_app, cocc_app. unfold nstacks. cbn [map snd stack_types set_free set_meta set_stacks]. rewrite !cocc_is. change (cocc [] k) with 0%nat. lia.
    + split; try done; try (intros; by left). intros k y. rewrite tk_one, tk_nil. destruct k; cbn [rest set_free set_meta timers waiting free log priority_queue firing]; repeat case_decide; try congruence; try lia. rewrite cocc_app, cocc_is. cbn. lia.
Qed.
Lemma resume_group g s G : groups s !! g = Some G -> groups (set_pc g Resume s) !! g = Some (with_pc Resume G) /\ pc (with_pc Resume G) = Resume.
Proof. intros HG. split; [by apply set_pc_group|done]. Qed.
Lemma upd_meta_pc g p x f s : set_pc g p (upd_meta x f s) = upd_meta x f (set_pc g p s).
Proof. unfold upd_meta. rewrite (proj1 (set_pc_fields g p s)). destruct (metas s !! x); [apply set_pc_meta|done]. Qed.
Lemma cause_not_sleep s m : context m <> Sleep -> cause s m.
Proof. by intros H ?. Qed.
Lemma run_remained_inv n s loc g G r ok : sinv n s loc [] [] [] -> groups s !! g = Some G -> pc G = Jumped r -> exists loc', sinv n (run_remained s g r ok) loc' [] [] [].
Proof.
  intros HI HG Hp. pose proof (open_jumped _ _ _ _ _ _ HI HG Hp) as HI1. destruct (resume_group g s G HG) as [HG1 Hp1]. pose proof (set_pc_fields g Resume s) as (Em & _).
  destruct r as [|x|x|t|x|x]; cbn [run_remained jtok] in *.
  - eauto.
  - destruct (push_rq s g x) as [s'|] eqn:Eq; [|eauto]. exists loc. eapply push_rq_inv; [exact HI1|]. by apply push_rq_pc.
  - rewrite push_priority_pc. by eapply push_priority_inv.
  - assert (forall m, metas (set_pc g Resume s) !! get_slot t = Some m -> tid m = t) as Ht. { rewrite Em. destruct (i_group _ _ _ _ _ _ HI g G HG) as (Hr & _). rewrite Hp in Hr. exact Hr. }
    destruct ok.
    + destruct (sleep_remained_inv _ _ _ _ _ _ HI1 HG1 Hp1 Ht) as [loc' HI2]. exists loc'. cbn zeta in *. unfold schedule in *. cbn [fst snd] in *. destruct (set_pc_fields g Resume s) as (_ & _ & _ & _ & Et & Ef & En & _). rewrite En, Et, Ef, <- set_pc_timers, <- upd_meta_pc, set_pc_twice in HI2. exact HI2.
    + destruct (token _ _ _ _ _ _ _ _ HI1 ltac:(done)) as (Hl & m & Hm & ([Hsu Hc] & Hsl & Hv)).
      rewrite (upd_meta_some _ _ m) by (by rewrite <- Em). rewrite <- (set_pc_twice g _ Resume), set_pc_meta.
      assert (sinv n (set_meta (get_slot t) (with_sleep_failed true m) (set_pc g Resume s)) loc [(LSleep, get_slot t)] [] []) as HI2. { eapply held_meta; [exact HI1|done|done|exact Hm|split_and!; [by left|by left|done]| |done|done|done]. split; [split; [exact Hsu|exact Hc]|split; [exact Hsl|exact Hv]]. }
      eexists. eapply close_between; [eapply (relabel _ _ _ _ _ _ _ _ _ LReady); [exact HI2| |done|done|]|exact HG1|exact Hp1|done| |done].
      * cbn. apply list_lookup_insert_eq. by eapply lookup_lt_Some.
      * split; [split; [exact Hsu|]|split; [exact Hsl|exact Hv]]. intros _. right. by left.
      * intros k y. rewrite tk_one. cbn [pplace]. destruct k; repeat case_decide; try congruence.
  - destruct (token _ _ _ _ _ _ _ _ HI1 ltac:(done)) as (Hl & m & Hm & ([Hsu Hc] & Hsl & Hv)). destruct ok.
    + rewrite set_pc_waiting. exists (<[x := LWait]> loc). eapply inv_rest; [eapply relabel; [exact HI1|exact Hm|done|done|]|].
      * split; [split; [exact Hsu|exact Hc]|split; [exact Hsl|exact Hv]].
      * assert (waiting (set_pc g Resume s) = waiting s) as Ew by apply set_pc_fields. split; try done; try (intros; by left). intros k y. rewrite tk_one, tk_nil. destruct k; cbn [rest set_waiting timers waiting free log priority_queue firing]; rewrite ?Ew; repeat case_decide; try congruence; try lia. rewrite cocc_app, cocc_is. cbn. lia.
    + rewrite <- (set_pc_twice g _ Resume). eexists. eapply close_between; [eapply (relabel _ _ _ _ _ _ _ _ _ LReady); [exact HI1|exact Hm|done|done|]|exact HG1|exact Hp1|done| |done].
      * split; [split; [exact Hsu|]|split; [exact Hsl|exact Hv]]. apply cause_not_sleep. by rewrite Hc.
      * intros k y. rewrite tk_one. cbn [pplace]. destruct k; repeat case_decide; try congruence.
  - assert (set_pc g Resume (_release_last_context s x) = _release_last_context (set_pc g Resume s) x) as ->.
    { destruct (set_pc_fields g Resume s) as (E1 & E2 & _ & _ & _ & _ & _ & _ & E3 & E4 & _). unfold _release_last_context. rewrite E1. destruct (metas s !! x) as [m|]; [|done]. destruct (_ =? _); [rewrite set_pc_free, set_pc_meta; cbn; by rewrite E2|]. destruct (stack m) as [[|j]|]; rewrite set_pc_free, set_pc_meta, ?set_pc_return; cbn; try (by rewrite E2). f_equal. destruct (return_fields (set_pc g Resume s) j) as [_ ->], (return_fields s j) as [_ ->]. by rewrite E2. }
    by apply release_inv with (1 := HI1).
Qed.
(** *** Sleeping *)

Lemma unschedule_inv n s loc h hs hb id s' : sinv n s loc h hs hb -> unschedule s id = (true, s') -> exists y, (id, y) ∈ timers s /\ sinv n s' loc ((LTimer, y) :: h) hs hb.
Proof.
  intros HI. unfold unschedule. destruct (list_find _ _) as [[i [id' y]]|] eqn:E; [|done]. apply list_find_Some in E as (E & Eid & _). cbn in Eid. subst id'. intros [= <-]. exists y. split; [by eapply list_elem_of_lookup_2|]. eapply inv_rest; [exact HI|]. split; try done; try (intros; by left).
  - intros k z. rewrite tk_cons. destruct k; cbn [rest set_timers timers waiting free log priority_queue firing]; repeat case_decide; try congruence; try lia. assert (map snd (timers s) ≡ₚ y :: map snd (delete i (timers s))) as P by (change (y :: map snd (delete i (timers s))) with (map snd ((id, y) :: delete i (timers s))); apply Permutation_map; by apply delete_Permutation).
    pose proof (proj1 (Permutation_count_occ Nat.eq_dec _ _) P z) as Q. change (count_occ Nat.eq_dec) with cocc in Q. rewrite cocc_is in Q. lia.
  - cbn [timers set_timers]. intros id1 z Hz. left. apply list_elem_of_lookup_1 in Hz as [j Hj]. rewrite list_lookup_delete in Hj. destruct (decide _); by eapply list_elem_of_lookup_2.
Qed.
Lemma unschedule_none s id s' : unschedule s id = (false, s') -> s' = s.
Proof. unfold unschedule. destruct (list_find _ _) as [[i p]|]; by intros [= <-]. Qed.
Lemma between_open n s loc g G : sinv n s loc [] [] [] -> groups s !! g = Some G -> between (pc G) -> (forall r, pc G <> Jumped r) -> sinv n (set_pc g Resume s) loc [] [] [].
Proof. intros HI HG Hb Hn. eapply between_inv; [exact HI|exact HG|done|done| |done]. intros k x. destruct (pc G) as [| | | |r| | | | | |] eqn:E; try done. by destruct (Hn r). Qed.
Lemma ref_meta_eq s s' t id : timers s' = timers s -> next_id s' = next_id s -> metas s' = metas s -> ref_ok2 s t id -> ref_ok2 s' t id.
Proof. unfold ref_ok2, ref_ok. intros -> -> ->. done. Qed.
Lemma add_sleep_inv n s loc g G t id : sinv n s loc [] [] [] -> groups s !! g = Some G -> pc G = AddSleep t id -> exists loc', sinv n (add_sleep s g t id) loc' [] [] [].
Proof.
  intros HI HG Hp. pose proof (proj1 (i_group _ _ _ _ _ _ HI g G HG)) as Hr. rewrite Hp in Hr. destruct Hr as [Hr1 Hr2]. unfold add_sleep. destruct (metas s !! get_slot t) as [m|] eqn:Hm; [|eauto]. pose proof (between_open _ _ _ _ _ HI HG ltac:(by rewrite Hp) ltac:(by rewrite Hp)) as HI1. destruct (resume_group g s G HG) as [HG1 Hp1].
  destruct ((version m =? get_version t) && negb (interrupted m)) eqn:E.
  - exists loc. rewrite set_pc_meta. destruct (meta_loc _ _ _ _ _ _ _ _ HI Hm) as [k Hk]. destruct (i_slot _ _ _ _ _ _ HI _ m k Hm Hk) as (H1 & H2 & H3). assert (metas (set_pc g Resume s) !! get_slot t = Some m) as Hm1 by (by rewrite (proj1 (set_pc_fields g Resume s))).
    eapply (inv_meta _ _ _ _ _ _ [] [] (get_slot t) m (with_current_sleep id m) k); [exact HI1|exact Hm1|exact Hk|split_and!; [by left|by left|done]| | |done|cbn; lia|done].
    + destruct (i_slot _ _ _ _ _ _ HI1 _ m k Hm1 Hk) as (K1 & _ & _). split; [exact K1|]. split; [|exact H3]. unfold sleep_ok. destruct (set_pc_fields g Resume s) as (_ & _ & _ & _ & Et & _ & En & _). rewrite Et, En. split; [intros y Hy; by apply (Hr2 y)|exact Hr1].
    + intros g1 G1 HG2 Ec. destruct (i_group _ _ _ _ _ _ HI1 g1 G1 HG2) as (_ & m1 & Hm2 & Hok & _). rewrite Ec in *. assert (m1 = m) as -> by congruence. exact Hok.
  - exists loc. rewrite <- (set_pc_twice g _ Resume). eapply close_between; [exact HI1|exact HG1|done|done|by intros []|]. cbn [refs_ok]. destruct (set_pc_fields g Resume s) as (E1 & _ & _ & _ & Et & _ & En & _). eapply ref_meta_eq; [exact Et|exact En|exact E1|]. split; [done|]. intros y m1 Hy Hm1. destruct (Hr2 y Hy) as [-> Hv]. assert (m1 = m) as -> by congruence. rewrite (Hv m Hm1), Z.eqb_refl in E. by apply negb_false_iff in E.
Qed.
Lemma add_sleep2_inv n s loc g G t id : sinv n s loc [] [] [] -> groups s !! g = Some G -> pc G = AddSleep2 t id -> exists loc', sinv n (add_sleep2 s g t id) loc' [] [] [].
Proof.
  intros HI HG Hp. pose proof (proj1 (i_group _ _ _ _ _ _ HI g G HG)) as Hr. rewrite Hp in Hr. destruct Hr as [[Hr1 Hr2] Hr3]. pose proof (between_open _ _ _ _ _ HI HG ltac:(by rewrite Hp) ltac:(by rewrite Hp)) as HI1. destruct (resume_group g s G HG) as [HG1 Hp1].
  unfold add_sleep2. cbn zeta. destruct (unschedule s id) as [b s1] eqn:E. cbn [fst snd]. destruct b; [|apply unschedule_none in E as ->; eauto].
  assert (unschedule (set_pc g Resume s) id = (true, set_pc g Resume s1)) as E1. { revert E. unfold unschedule. destruct (set_pc_fields g Resume s) as (_ & _ & _ & _ & -> & -> & -> & _). destruct (list_find _ _) as [[i p]|]; [|done]. intros [= <-]. by rewrite set_pc_timers. }
  destruct (unschedule_inv _ _ _ _ _ _ _ _ HI1 E1) as (y & Hy & HI2). destruct (set_pc_fields g Resume s) as (Em & _ & _ & _ & Et & _). rewrite Et in Hy. destruct (Hr2 y Hy) as [-> _]. destruct (token _ _ _ _ _ _ _ _ HI2 ltac:(done)) as (Hl & m & Hm & ([Hsu Hc] & Hsl & Hv)).
  assert (metas (set_pc g Resume s1) = metas s /\ groups s1 = groups s) as [Em1 Eg]. { rewrite (proj1 (set_pc_fields g Resume s1)). revert E. unfold unschedule. destruct (list_find _ _) as [[i p]|]; [|done]. by intros [= <-]. }
  assert (interrupted m = true) as Hi by (apply (Hr3 (get_slot t)); [done|by rewrite <- Em1]).
  rewrite <- (set_pc_twice g _ Resume). eexists. eapply close_between; [eapply (relabel _ _ _ _ _ _ _ _ _ LReady); [exact HI2|exact Hm|done|done|]| |exact Hp1|done| |done].
  - split; [split; [exact Hsu|]|split; [exact Hsl|exact Hv]]. intros _. by left.
  - apply set_pc_group. by rewrite Eg.
  - intros k y. rewrite tk_one. cbn [pplace]. destruct k; repeat case_decide; try congruence.
Qed.
(** *** The current bthread *)

Lemma set_pc_log_eq g p s : log (set_pc g p s) = log s.
Proof. apply set_pc_fields. Qed.
Lemma cur_running n s loc h hs hb g G : sinv n s loc h hs hb -> groups s !! g = Some G -> cur G <> g -> loc !! cur G = Some LRun /\ (n <= cur G)%nat.
Proof.
  intros HI HG Hc. destruct (i_group _ _ _ _ _ _ HI g G HG) as (_ & m & _ & _ & Hn). assert (n <= cur G)%nat as Hx by lia. split; [|done]. apply (place_loc (wk := None) n s loc h hs hb); [done|done|]. unfold place.
  pose proof (sum_lookup (gplace n LRun (cur G)) _ _ _ HG) as Q. assert (1 <= gplace n LRun (cur G) G)%nat by (unfold gplace, cplace; rewrite (proj2 (Nat.leb_le n _) Hx), is_refl; lia). lia.
Qed.
Lemma cur_unique n s loc h hs hb g G g1 G1 : sinv n s loc h hs hb -> groups s !! g = Some G -> groups s !! g1 = Some G1 -> cur G <> g -> cur G1 = cur G -> g1 = g.
Proof.
  intros HI HG HG1 Hc Ec. destruct (cur_running _ _ _ _ _ _ _ _ HI HG Hc) as [Hl Hx]. destruct (decide (g1 = g)) as [|Hng]; [done|]. pose proof (i_place _ _ _ _ _ _ HI LRun (cur G) ltac:(done)) as P. unfold place in P. pose proof (sum_two (gplace n LRun (cur G)) _ _ _ _ _ HG1 HG Hng) as Q. unfold gplace in Q at 1 2. unfold cplace in Q. rewrite Ec, is_refl, (proj2 (Nat.leb_le n _) Hx) in Q. destruct (bool_decide _); cbn [b2n] in P; lia.
Qed.
Lemma step_cur n s loc h h' hb hb' g G m m' p : sinv n s loc h [] hb -> groups s !! g = Some G -> cur G <> g -> metas s !! cur G = Some m ->
  mild s (cur G) LRun m m' -> sleep_ok s (cur G) m' -> 0 < version m' < 2 ^ 32 -> stack m' = stack m /\ stack_type m' = stack_type m ->
  (b2n (current_waiter m') + b2n (bool_decide (context m = Wait)) = b2n (current_waiter m) + b2n (bool_decide (context m' = Wait)))%nat ->
  (forall k x, (pplace k x p + tk h' k x = pplace k x (pc G) + tk h k x)%nat) -> (forall x, (pback x p + cocc hb' x = pback x (pc G) + cocc hb x)%nat) ->
  refs_ok (set_meta (cur G) m' s) p -> pc_ok s (cur G) m' p -> sinv n (set_pc g p (set_meta (cur G) m' s)) loc h' [] hb'.
Proof.
  intros HI HG Hc Hm Hmi Hsl Hv [Es Ety] Hw Hp Hb Hr Hpc. destruct (cur_running _ _ _ _ _ _ _ _ HI HG Hc) as [Hl Hx]. destruct (i_group _ _ _ _ _ _ HI g G HG) as (_ & m1 & Hm1 & Hok & Hn). assert (m1 = m) as -> by congruence. unfold group_ok in Hok. rewrite (proj2 (Nat.eqb_neq _ _) Hc) in Hok. destruct Hok as ([Hst|[_ [=]]] & Hty & _).
  assert (inv (wk := Some g) n (set_meta (cur G) m' s) loc h [] hb) as HI1.
  { eapply (inv_meta n s loc h [] hb [] hb (cur G) m m' LRun (weaken _ _ _ _ _ _ g HI) Hm Hl Hmi); [split; [done|by split]| | |lia|done].
    - intros g1 G1 HG1 Ec. assert (g1 = g) as -> by (by eapply cur_unique). assert (G1 = G) as -> by congruence. unfold group_ok. rewrite (proj2 (Nat.eqb_neq _ _) Hc). split; [left; congruence|]. split; [|by right]. destruct (exec G); rewrite Ety; exact Hty.
    - intros j. unfold holds. by rewrite Es. }
  assert (metas (set_meta (cur G) m' s) !! cur G = Some m') as Hm' by (cbn; apply list_lookup_insert_eq; by eapply lookup_lt_Some).
  eapply (strengthen _ _ _ _ _ _ g (with_pc p G) m'); [| | |congruence|].
  - eapply tg_inv_pc; [exact HI1|exact HG|exact Hm'|exact Hp|exact Hb|exact Hr|]. unfold group_ok. rewrite (proj2 (Nat.eqb_neq _ _) Hc). split; [left; congruence|]. split; [|by right]. destruct (exec G); rewrite Ety; exact Hty.
  - by apply set_pc_group.
  - by rewrite (proj1 (set_pc_fields g p _)).
  - intros _. cbn [cur pc with_pc]. destruct p; try exact Hpc; unfold pc_ok, resumes, cause in *; rewrite ?set_pc_log_eq; exact Hpc.
Qed.
Lemma not_main n s loc h hs hb g G : sinv n s loc h hs hb -> groups s !! g = Some G -> main_pc (pc G) = false -> cur G <> g.
Proof. intros HI HG Hp Ec. destruct (i_group _ _ _ _ _ _ HI g G HG) as (_ & m & _ & Hok & _). unfold group_ok in Hok. rewrite (proj2 (Nat.eqb_eq _ _) Ec) in Hok. destruct Hok. congruence. Qed.
(** The facts about a group that runs a bthread. *)
Lemma cur_facts n s loc h hs hb g G : sinv n s loc h hs hb -> groups s !! g = Some G -> cur G <> g -> exists m, metas s !! cur G = Some m /\ stack m = Some (exec G) /\ match exec G with MainStack h => h = g /\ stack_type m = STACK_TYPE_PTHREAD | Stk _ => stack_type m <> STACK_TYPE_PTHREAD end /\ pc_ok s (cur G) m (pc G) /\ sleep_ok s (cur G) m /\ 0 < version m < 2 ^ 32.
Proof.
  intros HI HG Hc. destruct (i_group _ _ _ _ _ _ HI g G HG) as (_ & m & Hm & Hok & Hn). unfold group_ok in Hok. rewrite (proj2 (Nat.eqb_neq _ _) Hc) in Hok. destruct Hok as ([Hst|[_ [=]]] & Hty & [Hpc|[=]]). destruct (cur_running _ _ _ _ _ _ _ _ HI HG Hc) as [Hl Hx]. destruct (i_slot _ _ _ _ _ _ HI _ _ _ Hm Hl) as (_ & H1 & H2). exists m. done.
Qed.
Lemma log_inv n s loc e : sinv n s loc [] [] [] -> (forall t, e <> ELost t) -> (forall id, e = ESlept id 0 -> EFired id ∈ log s) -> sinv n (add_log e s) loc [] [] [].
Proof.
  intros HI Hl Hs. eapply inv_rest; [exact HI|]. split; try done; try (intros; by left).
  - intros k x. destruct k; cbn [rest timers waiting free log priority_queue firing add_log]; try done. unfold lost_slots. rewrite omap_app, cocc_app. cbn [omap list_omap]. destruct e; try done. by destruct (Hl t).
  - cbn [log add_log]. intros f Hf. apply elem_of_app. by left.
  - cbn [log add_log]. intros id [H|H%list_elem_of_singleton]%elem_of_app; [by left|right]. by apply Hs.
Qed.
Lemma zero_sleep n s loc h hs hb x m : sinv n s loc h hs hb -> sleep_ok s x (with_current_sleep 0 m).
Proof. intros HI. split; [|apply (i_log _ _ _ _ _ _ HI)]. intros y Hy. destruct (i_timer _ _ _ _ _ _ HI _ _ Hy). cbn in *. lia. Qed.
Lemma no_waiter n s loc h hs hb x m : sinv n s loc h hs hb -> metas s !! x = Some m -> context m <> Wait -> current_waiter m = false /\ backs s x = 0%nat.
Proof. intros HI Hm Hx. pose proof (i_back _ _ _ _ _ _ HI x m Hm) as E. rewrite bool_decide_eq_false_2 in E by done. cbn [b2n] in E. destruct (current_waiter m); cbn [b2n] in E; split; (done || lia). Qed.
Ltac cur_step HI HG := eapply (step_cur _ _ _ [] [] [] []); [exact HI|exact HG|..].
Lemma tg_resume_inv n s loc g G : sinv n s loc [] [] [] -> groups s !! g = Some G -> pc G = Resume -> sinv n (resume s g (cur G)) loc [] [] [].
Proof.
  intros HI HG Hp. unfold resume. destruct (Nat.eqb_spec (cur G) g) as [Ec|Hc].
  - destruct (i_group _ _ _ _ _ _ HI g G HG) as (_ & m & Hm & Hok & Hn). eapply tg_inv_pc; [exact HI|exact HG|exact Hm|intros k y; rewrite Hp; by destruct k|by rewrite Hp|done|]. unfold group_ok in *. rewrite (proj2 (Nat.eqb_eq _ _) Ec) in *. split; [apply Hok|done].
  - destruct (cur_facts _ _ _ _ _ _ _ _ HI HG Hc) as (m & Hm & Hst & Hty & Hpc & Hsl & Hv). rewrite Hm. rewrite Hp in Hpc. destruct Hpc as (Ha & Hca & Hown). destruct (context m) eqn:Hx.
    + apply log_inv; [|done|done]. destruct (no_waiter _ _ _ _ _ _ _ _ HI Hm ltac:(congruence)) as [Hw _]. cur_step HI HG; try done; [split_and!; [by left|by left|done]|cbn; by rewrite Hx|intros k y; rewrite Hp; by destruct k|by rewrite Hp].
    + destruct (i_group _ _ _ _ _ _ HI g G HG) as (_ & m1 & Hm1 & Hok & Hn). assert (m1 = m) as -> by congruence. eapply tg_inv_pc; [exact HI|exact HG|exact Hm|intros k y; rewrite Hp; by destruct k|by rewrite Hp|done|]. unfold group_ok in *. rewrite (proj2 (Nat.eqb_neq _ _) Hc) in *. destruct Hok as (H1 & H2 & _). split_and!; [done|done|by left].
    + destruct (sleep_failed m) eqn:Hf.
      * apply log_inv; [|done|done]. cur_step HI HG; try done; [split_and!; [by left|by left|done]|cbn; by rewrite Hx|intros k y; rewrite Hp; by destruct k|by rewrite Hp].
      * cur_step HI HG; try done; [split_and!; [by left|by left|done]|by eapply zero_sleep|intros k y; rewrite Hp; by destruct k|by rewrite Hp|]. cbn [pc_ok]. split_and!; [split_and!; [exact Ha|exact Hca|intros _; exact (Hown (or_introl eq_refl))]|exact Hx|]. destruct (Hca Hx) as [|[]]; [by left|congruence|by right].
    + destruct (current_waiter m) eqn:Hw; [|done]. cur_step HI HG; try done; [split_and!; [by left|by left|done]|cbn; by rewrite Hx, Hw|intros k y; rewrite Hp; by destruct k|by rewrite Hp].
Qed.
Lemma usleep2_inv n s loc g G : sinv n s loc [] [] [] -> groups s !! g = Some G -> pc G = Usleep2 -> sinv n (usleep2 s g (cur G)) loc [] [] [].
Proof.
  intros HI HG Hp. unfold usleep2. pose proof (not_main _ _ _ _ _ _ _ _ HI HG ltac:(by rewrite Hp)) as Hc.
  destruct (cur_facts _ _ _ _ _ _ _ _ HI HG Hc) as (m & Hm & Hst & Hty & Hpc & Hsl & Hv). rewrite Hm. rewrite Hp in Hpc. destruct Hpc as ((Ha & Hca & Hown) & Hx & Hcs). destruct (interrupted m) eqn:Hi.
  - destruct (i_group _ _ _ _ _ _ HI g G HG) as (_ & m1 & Hm1 & Hok & Hn). assert (m1 = m) as -> by congruence. eapply tg_inv_pc; [exact HI|exact HG|exact Hm|intros k y; rewrite Hp; by destruct k|by rewrite Hp|done|]. unfold group_ok in *. rewrite (proj2 (Nat.eqb_neq _ _) Hc) in *. destruct Hok as (H1 & H2 & _). split_and!; [done|done|left]. cbn [pc_ok]. split_and!; [done|done|by left].
  - apply log_inv; [|done|]. { cur_step HI HG; try done; [split_and!; [by left|by left|done]|cbn; by rewrite Hx|intros k y; rewrite Hp; by destruct k|by rewrite Hp]. } intros id [= <-]. rewrite set_pc_log_eq. cbn. by destruct Hcs.
Qed.
Lemma usleep3_inv n s loc g G : sinv n s loc [] [] [] -> groups s !! g = Some G -> pc G = Usleep3 -> sinv n (usleep3 s g (cur G)) loc [] [] [].
Proof.
  intros HI HG Hp. unfold usleep3. pose proof (not_main _ _ _ _ _ _ _ _ HI HG ltac:(by rewrite Hp)) as Hc.
  destruct (cur_facts _ _ _ _ _ _ _ _ HI HG Hc) as (m & Hm & Hst & Hty & Hpc & Hsl & Hv). rewrite Hm. rewrite Hp in Hpc. destruct Hpc as ((Ha & Hca & Hown) & Hx & Hcs). apply log_inv; [|done|by destruct (stop m)].
  cur_step HI HG; try done; [split_and!; [by left|by left|done]|cbn; by rewrite Hx|intros k y; rewrite Hp; by destruct k|by rewrite Hp].
Qed.
Lemma wait2_inv n s loc g G : sinv n s loc [] [] [] -> groups s !! g = Some G -> pc G = Wait2 -> sinv n (set_pc g (Run Idle) (upd_meta (cur G) (with_interrupted false) s)) loc [] [] [].
Proof.
  intros HI HG Hp. pose proof (not_main _ _ _ _ _ _ _ _ HI HG ltac:(by rewrite Hp)) as Hc. destruct (cur_facts _ _ _ _ _ _ _ _ HI HG Hc) as (m & Hm & Hst & Hty & Hpc & Hsl & Hv). rewrite (upd_meta_some _ _ m) by done. rewrite Hp in Hpc. destruct Hpc as (Ha & Hx).
  cur_step HI HG; try done; [split_and!; [by left|by left|done]|intros k y; rewrite Hp; by destruct k|by rewrite Hp].
Qed.
Lemma bump_range v : 0 < v < 2 ^ 32 -> 0 < (if u32 (v + 1) =? 0 then 1 else u32 (v + 1)) < 2 ^ 32.
Proof. intros Hv. pose proof (u32_range (v + 1)) as H. unfold is_u32 in H. destruct (Z.eqb_spec (u32 (v + 1)) 0); lia. Qed.
Lemma bump_ne v : 0 < v < 2 ^ 32 -> (if u32 (v + 1) =? 0 then 1 else u32 (v + 1)) <> v.
Proof. intros Hv. destruct (decide (v + 1 < 2 ^ 32)) as [H|H]; [rewrite u32_small by (unfold is_u32; lia); destruct (Z.eqb_spec (v + 1) 0); lia|]. assert (v = 2 ^ 32 - 1) as -> by lia. done. Qed.
Lemma end_task_inv n s loc g G : sinv n s loc [] [] [] -> groups s !! g = Some G -> pc G = Ended -> sinv n (end_task s g (cur G)) loc [] [] [].
Proof.
  intros HI HG Hp. pose proof (not_main _ _ _ _ _ _ _ _ HI HG ltac:(by rewrite Hp)) as Hc. destruct (cur_facts _ _ _ _ _ _ _ _ HI HG Hc) as (m & Hm & Hst & Hty & Hpc & Hsl & Hv). rewrite Hp in Hpc. destruct Hpc as (Ha & Hx). unfold end_task. rewrite Hm. cbn zeta. apply log_inv; [|done|done].
  destruct (no_waiter _ _ _ _ _ _ _ _ HI Hm ltac:(congruence)) as [Hw Hb]. cur_step HI HG; try done; [split_and!; [by right|by left|done]|by apply bump_range|intros k y; rewrite Hp; by destruct k|by rewrite Hp|]. split_and!; [done|done|]. unfold alive. cbn [tid version with_version]. rewrite Ha. intros E. destruct (bounds _ _ _ _ _ _ _ _ HI Hm) as [_ Hb32]. pose proof (bump_range _ Hv). apply make_tid_inj in E as [E _]; [|lia|lia|done|done]. symmetry in E. by apply bump_ne in E.
Qed.
(** *** Interruption *)

Definition atok (a : Act) : list (L * nat) := match a with Ready x _ => [(LReady, x)] | _ => [] end.
Definition abk (a : Act) : list nat := match a with IErase t | ISetBack t | Ready _ (Some t) => [get_slot t] | _ => [] end.
Lemma act_tokens k x a : aplace k x a = tk (atok a) k x.
Proof. destruct a; cbn [aplace atok]; rewrite ?tk_one; destruct k; repeat case_decide; (done || congruence). Qed.
Lemma act_backs x a : aback x a = cocc (abk a) x.
Proof. destruct a as [|y [t|]|t|t|t|t id]; cbn [aback abk]; try done; rewrite cocc_is; cbn; lia. Qed.
Lemma suspended_same x m m' : version m' = version m -> tid m' = tid m -> context m' = context m -> stack m' = stack m -> stack_type m' = stack_type m -> suspended x m -> suspended x m'.
Proof. unfold suspended, alive, own_stack. by intros -> -> -> -> ->. Qed.
Lemma interrupt_loc s x m m' k : version m' = version m -> tid m' = tid m -> context m' = context m -> stack m' = stack m -> stack_type m' = stack_type m -> interrupted m' = true -> loc_ok s x m k -> loc_ok s x m' k.
Proof.
  intros Hv Ht Hx Hs Hy Hi. assert (suspended x m -> suspended x m') as Hsu by (by apply suspended_same). assert (cause s m') as Hca by (intros _; by left).
  destruct k; cbn [loc_ok]; unfold alive; rewrite ?Hv, ?Ht, ?Hx, ?Hs, ?Hy; intuition auto.
Qed.
Lemma interrupt_pc s x m m' p : version m' = version m -> tid m' = tid m -> context m' = context m -> stack m' = stack m -> stack_type m' = stack_type m -> interrupted m' = true -> pc_ok s x m p -> pc_ok s x m' p.
Proof.
  intros Hv Ht Hx Hs Hy Hi. assert (suspended x m -> suspended x m') as Hsu by (by apply suspended_same). assert (cause s m') as Hca by (intros _; by left).
  destruct p as [|a| |r|r|t id|t id| | | |]; cbn [pc_ok]; unfold resumes, alive, own_stack; rewrite ?Hv, ?Ht, ?Hx, ?Hs, ?Hy; try (intuition auto; fail).
  destruct r; cbn [rem_ok]; unfold alive; rewrite ?Ht, ?Hx, ?Hv; intuition auto.
Qed.
Lemma interrupt_meta n s loc x m : sinv n s loc [] [] [] -> metas s !! x = Some m ->
  sinv n (set_meta x (with_interrupted true (with_current_sleep 0 (with_waiter false m))) s) loc [] [] (if current_waiter m then [x] else []).
Proof.
  intros HI Hm. destruct (meta_loc _ _ _ _ _ _ _ _ HI Hm) as [k Hk]. destruct (i_slot _ _ _ _ _ _ HI x m k Hm Hk) as (H1 & H2 & H3). set (m' := with_interrupted true (with_current_sleep 0 (with_waiter false m))).
  eapply (inv_meta _ _ _ _ _ _ [] _ x m m' k); [exact HI|exact Hm|exact Hk|split_and!; [by left|by left|done]| | |done| |].
  - split; [by eapply (interrupt_loc s x m)|]. split; [|exact H3]. exact (zero_sleep _ _ _ _ _ _ x m HI).
  - intros g G HG Ec. destruct (i_group _ _ _ _ _ _ HI g G HG) as (_ & m1 & Hm1 & Hok & _). rewrite Ec in *. assert (m1 = m) as -> by congruence. unfold group_ok in *. destruct (x =? g)%nat; [done|]. destruct Hok as (K1 & K2 & [K3|[=]]). split_and!; [exact K1|exact K2|left]. by eapply (interrupt_pc s x m).
  - cbn [context current_waiter m' with_interrupted with_current_sleep with_waiter b2n]. destruct (current_waiter m); cbn [b2n]; rewrite ?cocc_is, ?is_refl; cbn; lia.
  - intros y Hy. destruct (current_waiter m); [|done]. rewrite cocc_is, is_ne by done. done.
Qed.
Lemma act_inv n s loc a : sinv n s loc (atok a) [] (abk a) -> act_ok s a -> (forall x b, a <> Ready x b) ->
  match act s a with Acted a' s' => exists loc', sinv n s' loc' (atok a') [] (abk a') /\ act_ok s' a' | ActWaiterCheck => True | ActFatal => False end.
Proof.
  intros HI Ha Hr. destruct a as [|x b|t|t|t|t id]; cbn [act].
  - by exists loc.
  - by destruct (Hr x b).
  - destruct (metas s !! get_slot t) as [m|] eqn:Hm; [|by exists loc]. destruct (Z.eqb_spec (version m) (get_version t)) as [Ev|]; [|by exists loc]. pose proof (interrupt_meta _ _ _ _ _ HI Hm) as HI1. pose proof (lookup_lt_Some _ _ _ Hm) as Hlt.
    destruct (current_waiter m).
    + destruct (_ =? 0); [|done]. exists loc. split; [exact HI1|]. eexists. split; [cbn; by apply list_lookup_insert_eq|done].
    + destruct (Z.eqb_spec (current_sleep m) 0) as [E|E]; [by exists loc|]. exists loc. split; [exact HI1|]. cbn [act_ok]. destruct (meta_loc _ _ _ _ _ _ _ _ HI Hm) as [k Hk]. destruct (i_slot _ _ _ _ _ _ HI _ m k Hm Hk) as (_ & [H1 H2] & _). split; [split; [exact H2|]|].
      * intros y Hy. rewrite (H1 y Hy). split; [done|]. cbn [metas set_meta]. rewrite list_lookup_insert_eq by done. by intros m1 [= <-].
      * intros y m1 Hy. rewrite (H1 y Hy). cbn [metas set_meta]. rewrite list_lookup_insert_eq by done. by intros [= <-].
  - destruct (list_find _ _) as [[i x]|] eqn:E; [|by exists loc]. apply list_find_Some in E as (E & -> & _).
    assert (sinv n (set_waiting (delete i (waiting s)) s) loc [(LWait, get_slot t)] [] [get_slot t]) as HI1.
    { eapply inv_rest; [exact HI|]. split; try done; try (intros; by left). intros k y. rewrite tk_one. cbn [atok]. rewrite tk_nil. destruct k; cbn [rest set_waiting timers waiting free log priority_queue firing]; repeat case_decide; try congruence; try lia. pose proof (cocc_delete _ _ _ y E). lia. }
    destruct (token _ _ _ _ _ _ _ _ HI1 ltac:(done)) as (Hl & m & Hm & ([Hsu Hc] & Hsl & Hv)). exists (<[get_slot t := LReady]> loc). split; [|exact Ha]. cbn [atok abk]. eapply relabel; [exact HI1|exact Hm|done|done|]. split; [split; [exact Hsu|]|by split]. apply cause_not_sleep. by rewrite Hc.
  - destruct Ha as (m & Hm & Ev). rewrite Hm, Ev, Z.eqb_refl. exists loc. split; [|done]. destruct (meta_loc _ _ _ _ _ _ _ _ HI Hm) as [k Hk]. pose proof (i_back _ _ _ _ _ _ HI _ m Hm) as Eb. cbn [abk] in Eb. rewrite cocc_is, is_refl in Eb. destruct (current_waiter m) eqn:Ew; [exfalso; destruct (bool_decide _); cbn [b2n] in Eb; lia|].
    eapply (inv_meta _ _ _ _ _ _ [] [] (get_slot t) m (with_waiter true m) k); [exact HI|exact Hm|exact Hk|split_and!; [by left|by left|done]|exact (i_slot _ _ _ _ _ _ HI _ m k Hm Hk)| |done| |].
    + intros g G HG Ec. destruct (i_group _ _ _ _ _ _ HI g G HG) as (_ & m1 & Hm1 & Hok & _). rewrite Ec in *. assert (m1 = m) as -> by congruence. exact Hok.
    + cbn [context current_waiter with_waiter b2n abk]. rewrite cocc_is, is_refl, Ew. cbn. lia.
    + intros y Hy. cbn [abk]. rewrite cocc_is, is_ne by done. done.
  - destruct (unschedule s id) as [b s'] eqn:E. cbn zeta. cbn [fst snd]. destruct b; [|apply unschedule_none in E as ->; by exists loc]. destruct (unschedule_inv _ _ _ _ _ _ _ _ HI E) as (y & Hy & HI1). destruct Ha as [[_ H1] H2]. destruct (H1 y Hy) as [-> _].
    destruct (token _ _ _ _ _ _ _ _ HI1 ltac:(done)) as (Hl & m & Hm & ([Hsu Hc] & Hsl & Hv)). exists (<[get_slot t := LReady]> loc). split; [|done]. cbn [atok abk]. eapply relabel; [exact HI1|exact Hm|done|done|]. split; [split; [exact Hsu|]|by split]. intros _. left. apply (H2 (get_slot t)); [done|]. revert E Hm. unfold unschedule. destruct (list_find _ _) as [[i p]|]; [|done]. by intros [= <-].
Qed.
(** *** Workers and other threads *)

Lemma act_groups s a a' s' : act s a = Acted a' s' -> groups s' = groups s /\ threads s' = threads s.
Proof.
  destruct a as [|x b|t|t|t|t id]; cbn [act].
  1, 2: by intros [= <- <-].
  - destruct (metas s !! _) as [m|]; [|by intros [= <- <-]]. destruct (_ =? _); [|by intros [= <- <-]]. destruct (current_waiter m), (_ =? 0); try done; by intros [= <- <-].
  - destruct (list_find _ _) as [[i x]|]; by intros [= <- <-].
  - destruct (metas s !! _) as [m|]; [|done]. destruct (_ =? _); [|done]. by intros [= <- <-].
  - unfold unschedule. destruct (list_find _ _) as [[i x]|]; by intros [= <- <-].
Qed.
Lemma act_pc g p s a : act (set_pc g p s) a = match act s a with Acted a' s' => Acted a' (set_pc g p s') | o => o end.
Proof.
  destruct (set_pc_fields g p s) as (E1 & _ & _ & _ & E5 & E6 & E7 & E8 & _). destruct a as [|x b|t|t|t|t id]; cbn [act]; try done; rewrite ?E1, ?E8; unfold unschedule; rewrite ?E5, ?E6, ?E7.
  - destruct (metas s !! _) as [m|]; [|done]. destruct (_ =? _); [|done]. destruct (current_waiter m), (_ =? 0); rewrite ?set_pc_meta; done.
  - destruct (list_find _ _) as [[i x]|]; by rewrite ?set_pc_waiting.
  - destruct (metas s !! _) as [m|]; [|done]. destruct (_ =? _); by rewrite ?set_pc_meta.
  - destruct (list_find _ _) as [[i x]|]; cbn [fst snd]; rewrite ?set_pc_timers; done.
Qed.
Lemma act_thread p b s a : act (set_thread p b s) a = match act s a with Acted a' s' => Acted a' (set_thread p b s') | o => o end.
Proof.
  destruct a as [|x c|t|t|t|t id]; cbn [act]; unfold unschedule; cbn [metas waiting timers firing next_id set_thread]; try done.
  - destruct (metas s !! _) as [m|]; [|done]. destruct (_ =? _); [|done]. by destruct (current_waiter m), (_ =? 0).
  - by destruct (list_find _ _) as [[i x]|].
  - destruct (metas s !! _) as [m|]; [|done]. by destruct (_ =? _).
  - by destruct (list_find _ _) as [[i x]|].
Qed.
(** What a worker in user code holds, and what it goes on with. *)
Lemma run_inv n s loc h hb h' hb' g G a a' : sinv n s loc h [] hb -> groups s !! g = Some G -> pc G = Run a ->
  (forall k x, (aplace k x a' + tk h' k x = aplace k x a + tk h k x)%nat) -> (forall x, (aback x a' + cocc hb' x = aback x a + cocc hb x)%nat) -> act_ok s a' -> sinv n (set_pc g (Run a') s) loc h' [] hb'.
Proof.
  intros HI HG Hp Ht Hb Ha. destruct (i_group _ _ _ _ _ _ HI g G HG) as (_ & m & Hm & Hok & _). eapply tg_inv_pc; [exact HI|exact HG|exact Hm|rewrite Hp; exact Ht|rewrite Hp; exact Hb|exact Ha|]. unfold group_ok in *. rewrite Hp in Hok. by destruct (_ =? g)%nat.
Qed.
Lemma run_open n s loc g G a : sinv n s loc [] [] [] -> groups s !! g = Some G -> pc G = Run a -> sinv n (set_pc g (Run Idle) s) loc (atok a) [] (abk a).
Proof.
  intros HI HG Hp. eapply run_inv; [exact HI|exact HG|exact Hp| | |done].
  - intros k x. rewrite (act_tokens k x a), (act_tokens k x Idle). cbn [atok]. rewrite tk_nil. lia.
  - intros x. rewrite (act_backs x a), (act_backs x Idle). cbn [abk]. cbn. lia.
Qed.
Lemma run_close n s loc g G a : sinv n s loc (atok a) [] (abk a) -> groups s !! g = Some G -> pc G = Run Idle -> act_ok s a -> sinv n (set_pc g (Run a) s) loc [] [] [].
Proof.
  intros HI HG Hp Ha. eapply run_inv; [exact HI|exact HG|exact Hp| | |done].
  - intros k x. rewrite (act_tokens k x a), (act_tokens k x Idle). cbn [atok]. rewrite tk_nil. lia.
  - intros x. rewrite (act_backs x a), (act_backs x Idle). cbn [abk]. cbn. lia.
Qed.
Lemma thread_open n s loc p a : sinv n s loc [] [] [] -> threads s !! p = Some a -> sinv n (set_thread p Idle s) loc (atok a) [] (abk a).
Proof.
  intros HI HG. eapply inv_thread; [exact HI|exact HG| | |done].
  - intros k x. rewrite (act_tokens k x a), (act_tokens k x Idle). cbn [atok]. rewrite tk_nil. lia.
  - intros x. rewrite (act_backs x a), (act_backs x Idle). cbn [abk]. cbn. lia.
Qed.
Lemma thread_close n s loc p a : sinv n s loc (atok a) [] (abk a) -> threads s !! p = Some Idle -> act_ok s a -> sinv n (set_thread p a s) loc [] [] [].
Proof.
  intros HI HG Ha. eapply inv_thread; [exact HI|exact HG| | |done].
  - intros k x. rewrite (act_tokens k x a), (act_tokens k x Idle). cbn [atok]. rewrite tk_nil. lia.
  - intros x. rewrite (act_backs x a), (act_backs x Idle). cbn [abk]. cbn. lia.
Qed.
Lemma push_metas s g x s' : push_rq s g x = Some s' -> metas s' = metas s /\ exists G', groups s' !! g = Some G' /\ forall G, groups s !! g = Some G -> pc G' = pc G.
Proof. unfold push_rq. destruct (groups s !! g) as [G|] eqn:HG; [|done]. destruct (metas s !! x); [|done]. destruct (_ <? _)%nat; [|done]. intros [= <-]. split; [done|]. eexists. split; [cbn; apply list_lookup_insert_eq; by eapply lookup_lt_Some|]. by intros G1 [= <-]. Qed.
Lemma push_remote_same s g x s' : push_remote s g x = Some s' -> metas s' = metas s /\ threads s' = threads s /\ timers s' = timers s /\ firing s' = firing s /\ next_id s' = next_id s.
Proof. unfold push_remote. destruct (groups s !! g) as [G|]; [|done]. destruct (metas s !! x); [|done]. destruct (_ <? _)%nat; [|done]. by intros [= <-]. Qed.
Definition fine (n : nat) (o : outcome) : Prop := match o with Ok s => exists loc, sinv n s loc [] [] [] | WaiterCheck => True | Fatal => False end.
Lemma fine_ok n s loc : sinv n s loc [] [] [] -> fine n (Ok s).
Proof. intros HI. by exists loc. Qed.
Lemma fine_ex n o : (exists s loc, o = Ok s /\ sinv n s loc [] [] []) -> fine n o.
Proof. intros (s & loc & -> & HI). by exists loc. Qed.
Lemma set_thread_twice p a b s : set_thread p a (set_thread p b s) = set_thread p a s.
Proof. unfold set_thread. cbn. by rewrite list_insert_insert_eq. Qed.
Lemma worker_act_inv n s loc g G a : sinv n s loc [] [] [] -> groups s !! g = Some G -> pc G = Run a -> fine n (worker_act s g a).
Proof.
  intros HI HG Hp. pose proof (proj1 (i_group _ _ _ _ _ _ HI g G HG)) as Ha. rewrite Hp in Ha. cbn [refs_ok] in Ha. pose proof (run_open _ _ _ _ _ _ HI HG Hp) as HI1. pose proof (set_pc_group g (Run Idle) s G HG) as HG1.
  assert ((forall x b, a <> Ready x b) -> fine n (match act s a with Acted a s => Ok (set_pc g (Run a) s) | ActWaiterCheck => WaiterCheck | ActFatal => Fatal end)) as H.
  { intros Hr. assert (act_ok (set_pc g (Run Idle) s) a) as Ha1. { destruct (set_pc_fields g (Run Idle) s) as (E1 & _ & _ & _ & E5 & _ & E7 & _). destruct a as [|y [t|]|t|t|t|t id]; cbn [act_ok] in *; unfold back_ok, ref_ok2, ref_ok in *; by rewrite ?E1, ?E5, ?E7. }
    pose proof (act_inv _ _ _ _ HI1 Ha1 Hr) as H. rewrite act_pc in H. destruct (act s a) as [a' s'| |] eqn:E; [|done|done]. destruct H as (loc' & HI2 & Ha2). exists loc'. rewrite <- (set_pc_twice g _ (Run Idle)). eapply (run_close _ _ _ _ (with_pc (Run Idle) G)); [exact HI2| |done|exact Ha2]. apply set_pc_group. destruct (act_groups _ _ _ _ E) as [-> _]. done. }
  destruct a as [|x b|t|t|t|t id]; cbn [worker_act]; try (by apply H).
  destruct (push_rq s g x) as [s'|] eqn:E; [|by exists loc]. exists loc. rewrite <- (set_pc_twice g _ (Run Idle)). pose proof (push_rq_pc g (Run Idle) s x s' E) as E1. destruct (push_metas _ _ _ _ E1) as (Em & G' & HG' & Hpc'). cbn [atok abk] in HI1.
  eapply run_close; [|exact HG'|by rewrite (Hpc' _ HG1)|].
  - pose proof (push_rq_inv _ _ _ _ _ _ _ _ _ HI1 E1) as HI2. destruct b as [t|]; exact HI2.
  - destruct b as [t|]; [|done]. unfold back_ok. cbn [act_ok after_ready]. unfold back_ok. rewrite Em, (proj1 (set_pc_fields g (Run Idle) s)). exact Ha.
Qed.
Lemma thread_act_inv n s loc p a g : sinv n s loc [] [] [] -> threads s !! p = Some a -> fine n (thread_act s p a g).
Proof.
  intros HI Hp. pose proof (i_thread _ _ _ _ _ _ HI p a Hp) as Ha. pose proof (thread_open _ _ _ _ _ HI Hp) as HI1. assert (forall s1, threads s1 = threads s -> threads (set_thread p Idle s1) !! p = Some Idle) as Hp1 by (intros s1 E; cbn; rewrite E; apply list_lookup_insert_eq; by eapply lookup_lt_Some).
  assert ((forall x b, a <> Ready x b) -> fine n (match act s a with Acted a s => Ok (set_thread p a s) | ActWaiterCheck => WaiterCheck | ActFatal => Fatal end)) as H.
  { intros Hr. pose proof (act_inv _ _ _ _ HI1 Ha Hr) as H. rewrite act_thread in H. destruct (act s a) as [a' s'| |] eqn:E; [|done|done]. destruct H as (loc' & HI2 & Ha2). exists loc'. rewrite <- (set_thread_twice p _ Idle). eapply thread_close; [exact HI2| |exact Ha2]. apply Hp1. by destruct (act_groups _ _ _ _ E). }
  destruct a as [|x b|t|t|t|t id]; cbn [thread_act]; try (by apply H).
  destruct (push_remote s g x) as [s'|] eqn:E; [|by exists loc]. exists loc. rewrite <- (set_thread_twice p _ Idle). destruct (push_remote_same _ _ _ _ E) as (Em & Et & _).
  assert (push_remote (set_thread p Idle s) g x = Some (set_thread p Idle s')) as E1. { revert E. unfold push_remote. cbn [groups metas set_thread]. destruct (groups s !! g); [|done]. destruct (metas s !! x); [|done]. destruct (_ <? _)%nat; [|done]. by intros [= <-]. }
  eapply thread_close; [|by apply Hp1|].
  - pose proof (push_remote_inv _ _ _ _ _ _ _ _ _ HI1 E1) as HI2. destruct b as [t|]; exact HI2.
  - destruct b as [t|]; [|done]. cbn [act_ok after_ready]. unfold back_ok. cbn [metas set_thread]. rewrite Em. exact Ha.
Qed.
(** *** Starting *)

Lemma sum_none {A} (f : A -> nat) l : (forall i a, l !! i = Some a -> f a = 0%nat) -> sum_list_with f l = 0%nat.
Proof. induction l as [|a l IH]; intros H; [done|]. cbn [sum_list_with]. rewrite (H 0%nat a eq_refl), IH; [done|]. intros i b Hi. exact (H (Datatypes.S i) b Hi). Qed.
Lemma new_slot_inv n s loc : sinv n s loc [] [] [] -> Z.of_nat (length (metas s)) + 1 < 2 ^ 32 ->
  sinv n (add_meta s) (loc ++ [LFree]) [(LFree, length (metas s))] [] [].
Proof.
  intros HI HN. pose proof (i_len _ _ _ _ _ _ HI) as (L1 & L2 & L3 & L4).
  assert (forall k y, loc !! y <> Some k -> k <> LMain -> place n s k y = 0%nat) as H0 by (intros k y Hy Hk; pose proof (i_place _ _ _ _ _ _ HI k y Hk) as P; rewrite bool_decide_eq_false_2 in P by done; cbn [b2n] in P; lia).
  assert (loc !! length (metas s) = None) as Hnone by (apply lookup_ge_None; lia).
  assert (forall id y, (id, y) ∈ timers s -> (y < length (metas s))%nat) as Htl by (intros id y Hy; rewrite L2; eapply lookup_lt_Some; by eapply timer_loc).
  assert (forall y m, (metas s ++ [new_TaskMeta]) !! y = Some m -> metas s !! y = Some m \/ (y = length (metas s) /\ m = new_TaskMeta)) as Hlk by (intros y m [?|[Hy Hm]]%lookup_app_Some; [by left|right]; apply list_lookup_singleton_Some in Hm as [? <-]; split; [lia|done]).
  assert (forall t id, ref_ok s t id -> ref_ok (add_meta s) t id) as Hr1.
  { intros t id [H1 H2]. split; [done|]. intros y Hy. destruct (H2 y Hy) as [-> H3]. split; [done|]. cbn [metas]. intros m [Hm|[E _]]%Hlk; [by apply H3|]. pose proof (Htl _ _ Hy). lia. }
  assert (forall t id, ref_ok2 s t id -> ref_ok2 (add_meta s) t id) as Hr2.
  { intros t id [H1 H2]. split; [by apply Hr1|]. cbn [metas timers]. intros y m Hy [Hm|[E _]]%Hlk; [by apply (H2 y)|]. pose proof (Htl _ _ Hy). lia. }
  assert (forall a, act_ok s a -> act_ok (add_meta s) a) as Ha.
  { assert (forall t, back_ok s t -> back_ok (add_meta s) t) as Hb by (intros t (m & Hm & Hv); exists m; cbn [metas]; split; [by apply lookup_app_l_Some|done]). intros [|y [t|]|t|t|t|t id]; cbn [act_ok]; auto. }
  split; cbn [metas groups threads timers next_id log free_stacks add_meta].
  - rewrite !length_app. cbn [length]. split_and!; [done|lia|lia|]. intros x. rewrite <- L4. destruct (decide (x < length loc)%nat) as [Hx|Hx]; [by rewrite lookup_app_l|]. rewrite lookup_app_r by lia. rewrite (lookup_ge_None_2 loc x) by lia. split; [|done]. by intros [_ [=]]%list_lookup_singleton_Some.
  - intros k x Hk. change (place n _ k x) with (place n s k x). rewrite tk_one, L2. destruct (decide (x = length loc)) as [->|Hx].
    + rewrite lookup_app_r, Nat.sub_diag, H0 by (try done; lia || (rewrite <- L2, Hnone; done)). cbn [lookup list_lookup]. destruct (decide (LFree = k)) as [<-|Hne]; [by rewrite is_refl, bool_decide_eq_true_2|]. rewrite bool_decide_eq_false_2; [done|]. by intros [= ?].
    + rewrite is_ne by done. assert ((loc ++ [LFree]) !! x = loc !! x) as ->. { destruct (decide (x < length loc)%nat); [by rewrite lookup_app_l|]. rewrite !lookup_ge_None_2; [done|lia|rewrite length_app; cbn; lia]. } rewrite <- (i_place _ _ _ _ _ _ HI k x Hk), tk_nil. case_decide; lia.
  - intros x m k [Hm|[-> ->]]%Hlk Hk.
    + assert (loc !! x = Some k) as Hk1 by (rewrite lookup_app_l in Hk by (rewrite <- L2; by eapply lookup_lt_Some); done). exact (i_slot _ _ _ _ _ _ HI x m k Hm Hk1).
    + rewrite L2, lookup_app_r, Nat.sub_diag in Hk by lia. injection Hk as <-. split; [split_and!; [done|done|]; unfold alive; cbn [tid version new_TaskMeta]; rewrite make_tid_word by lia; lia|]. split; [|done]. apply (zero_sleep _ _ _ _ _ _ _ new_TaskMeta HI).
  - intros g G HG. destruct (i_group _ _ _ _ _ _ HI g G HG) as (H1 & m & Hm & H2). split; [|exists m; split; [by apply lookup_app_l_Some|exact H2]].
    destruct (pc G) as [|a| |r|r|t id|t id| | | |] eqn:Ep; cbn [refs_ok] in *; auto. destruct r as [|y|y|t|y|y]; auto. cbn [metas]. intros m1 [Hm1|[E _]]%Hlk; [by apply H1|]. exfalso.
    pose proof (H0 LSleep (get_slot t) ltac:(rewrite E, Hnone; done) ltac:(done)) as P. unfold place in P. pose proof (sum_lookup (gplace n LSleep (get_slot t)) _ _ _ HG) as Q. unfold gplace in Q at 1. rewrite Ep in Q. cbn [pplace] in Q. rewrite is_refl in Q. lia.
  - intros p a Hp. apply Ha. by eapply (i_thread _ _ _ _ _ _ HI).
  - change (backs _) with (backs s). intros x m [Hm|[-> ->]]%Hlk; [exact (i_back _ _ _ _ _ _ HI x m Hm)|]. rewrite bool_decide_eq_false_2 by done. cbn [current_waiter new_TaskMeta b2n]. enough (backs s (length (metas s)) = 0%nat) as -> by done.
    unfold backs. apply Nat.eq_add_0. assert (forall a t, act_ok s a -> aback (length (metas s)) a <> 0%nat -> a = IErase t \/ a = ISetBack t \/ (exists x, a = Ready x (Some t)) -> False) as Hbk.
    { intros a t Hok Hnz Hcs. assert (is_ (get_slot t) (length (metas s)) <> 0%nat /\ back_ok s t) as [Hi (m & Hm & _)] by (destruct Hcs as [->|[->|[x ->]]]; done). apply lookup_lt_Some in Hm. rewrite is_ne in Hi by lia. done. }
    assert (forall a, act_ok s a -> aback (length (metas s)) a = 0%nat) as Hz by (intros a Hok; destruct (Nat.eq_dec (aback (length (metas s)) a) 0%nat) as [|Hnz]; [done|]; exfalso; destruct a as [|y [t|]|t|t|t|t id]; try done; apply (Hbk _ t Hok Hnz); eauto).
    split; apply sum_none.
    + intros i G HG. pose proof (proj1 (i_group _ _ _ _ _ _ HI i G HG)) as Hok. destruct (pc G); try done. exact (Hz _ Hok).
    + intros i a Hi. exact (Hz a (i_thread _ _ _ _ _ _ HI i a Hi)).
  - intros id y Hy. destruct (i_timer _ _ _ _ _ _ HI id y Hy) as [H1 H2]. split; [done|]. intros m [Hm|[E _]]%Hlk; [by apply H2|]. pose proof (Htl _ _ Hy). lia.
  - intros t m Hq [Hm|[E _]]%Hlk; [by apply (i_queue _ _ _ _ _ _ HI t m)|]. exfalso. pose proof (queued_loc _ _ _ _ _ _ t HI Hq) as Hl. rewrite E, Hnone in Hl. done.
  - intros k. unfold stacks. change (nstacks (add_meta s)) with (nstacks s). cbn [metas free_stacks add_meta]. rewrite sum_list_with_app. cbn [sum_list_with holds stack new_TaskMeta]. pose proof (i_stack _ _ _ _ _ _ HI k) as E. unfold stacks in E. lia.
  - apply HI.
  - apply HI.
Qed.
Definition extends (s s' : S) : Prop := groups s' = groups s /\ threads s' = threads s /\ forall g G, groups s !! g = Some G -> metas s' !! cur G = metas s !! cur G.
Lemma init_meta_inv n s loc x m ty pr : sinv n s loc [(LFree, x)] [] [] -> metas s !! x = Some m -> ty <> STACK_TYPE_MAIN -> stack m = None -> current_waiter m = false ->
  exists loc', sinv n (add_log (EStart (make_tid (version m) x)) (set_meta x (init_meta x ty pr m) s)) loc' [(LReady, x)] [] [].
Proof.
  intros HI Hm Hty Hs Hw. destruct (token _ _ _ _ _ _ _ _ HI ltac:(done)) as (Hl & m1 & Hm1 & ((_ & Hx & _) & Hsl & Hv)). assert (m1 = m) as -> by congruence. pose proof (token_big _ _ _ _ _ _ _ _ HI ltac:(done)) as Hxn.
  assert (forall g G, groups s !! g = Some G -> cur G <> x) as Hcur by (intros g G HG; eapply not_running; [exact HI|exact Hl|done|done|exact HG]).
  assert (sinv n s (<[x := LRun]> loc) [(LRun, x)] [] []) as HI1 by (eapply relabel; [exact HI|exact Hm|done|done|by split]). set (m' := init_meta x ty pr m).
  assert (sinv n (set_meta x m' s) (<[x := LRun]> loc) [(LRun, x)] [] []) as HI2.
  { eapply (inv_meta _ _ _ _ _ _ [] [] x m m' LRun); [exact HI1|exact Hm|eapply (token _ _ _ _ _ _ _ _ HI1); done| | | | | |done].
    - split_and!; [by left|by right|done].
    - split; [done|]. split; [exact Hsl|exact Hv].
    - intros g G HG Ec. by destruct (Hcur g G HG).
    - intros j. unfold holds. cbn [m' init_meta stack]. by rewrite Hs.
    - cbn [m' init_meta current_waiter context]. rewrite Hw, Hx. done. }
  assert (metas (set_meta x m' s) !! x = Some m') as Hm' by (cbn; apply list_lookup_insert_eq; by eapply lookup_lt_Some).
  assert (sinv n (set_meta x m' s) (<[x := LReady]> (<[x := LRun]> loc)) [(LReady, x)] [] []) as HI3.
  { eapply relabel; [exact HI2|exact Hm'|done|done|]. split; [|split; [exact Hsl|exact Hv]]. split; [|done]. split; [done|]. split; [done|]. by intros []. }
  eexists. eapply inv_rest; [exact HI3|]. split; try done; try (intros; by left).
  - intros k y. destruct k; cbn [rest timers waiting free log priority_queue firing add_log]; try done. unfold lost_slots. rewrite omap_app, cocc_app. cbn. lia.
  - cbn [log add_log]. intros f Hf. apply elem_of_app. by left.
  - cbn [log add_log]. intros id [H|H%list_elem_of_singleton]%elem_of_app; [by left|done].
Qed.
Lemma free_token n s loc i x : sinv n s loc [] [] [] -> free s !! i = Some x -> sinv n (set_free (delete i (free s)) s) loc [(LFree, x)] [] [].
Proof.
  intros HI Ei. eapply inv_rest; [exact HI|]. split; try done; try (intros; by left). intros k y. rewrite tk_one, tk_nil. destruct k; cbn [rest set_free timers waiting free log priority_queue firing]; repeat case_decide; try congruence; try lia. pose proof (cocc_delete _ _ _ y Ei). lia.
Qed.
Lemma start_inv n s loc c ty pr : sinv n s loc [] [] [] -> Z.of_nat (length (metas s)) + 1 < 2 ^ 32 -> ty <> STACK_TYPE_MAIN ->
  match start s c ty pr with Started x s' => (exists loc', sinv n s' loc' [(LReady, x)] [] []) /\ extends s s' | NotStarted => True | StartFatal => False end.
Proof.
  intros HI HN Hty. unfold start, get_resource. destruct c as [i|].
  - destruct (free s !! i) as [x|] eqn:Ei; [|done]. cbn [mbind option_bind].
    pose proof (free_token _ _ _ _ _ HI Ei) as HI1.
    destruct (token _ _ _ _ _ _ _ _ HI1 ltac:(done)) as (Hl & m & Hm & ((Hs & Hx & _) & _)). rewrite Hm. destruct (no_waiter _ _ _ _ _ _ _ _ HI1 Hm ltac:(congruence)) as [Hw _]. rewrite Hw, Hs. split; [by eapply init_meta_inv|]. split_and!; [done|done|]. intros g G HG. cbn [metas add_log set_meta set_free]. apply list_lookup_insert_ne. apply not_eq_sym. eapply not_running; [exact HI|exact Hl|done|by eapply token_big|exact HG].
  - pose proof (new_slot_inv _ _ _ HI HN) as HI1. set (s1 := add_meta s) in *. assert (metas s1 !! length (metas s) = Some new_TaskMeta) as Hm by (cbn; rewrite lookup_app_r, Nat.sub_diag by lia; done). rewrite Hm. cbn [current_waiter stack new_TaskMeta]. split; [by eapply init_meta_inv|]. split_and!; [done|done|]. intros g G HG. destruct (i_group _ _ _ _ _ _ HI g G HG) as (_ & m & Hmc & _). cbn [metas add_log set_meta s1]. rewrite list_lookup_insert_ne by (apply lookup_lt_Some in Hmc; lia). rewrite Hmc. by apply lookup_app_l_Some.
Qed.
(** *** The calls *)

Lemma user_inv n s loc g f : sinv n s loc [] [] [] -> (forall G m, groups s !! g = Some G -> pc G = Run Idle -> cur G <> g -> metas s !! cur G = Some m -> alive (cur G) m -> context m = Plain -> (is_pthread_task g m = false -> own_stack m) -> stack m <> None -> fine n (f (cur G) m)) -> fine n (user s g f).
Proof.
  intros HI H. unfold user. destruct (groups s !! g) as [G|] eqn:HG; [|by eapply fine_ok]. destruct (pc G) as [|a| | | | | | | | |] eqn:Hp; try (by eapply fine_ok). destruct a; try (by eapply fine_ok). destruct (metas s !! cur G) as [m|] eqn:Hm; [|by eapply fine_ok].
  pose proof (not_main _ _ _ _ _ _ _ _ HI HG ltac:(by rewrite Hp)) as Hc. destruct (cur_facts _ _ _ _ _ _ _ _ HI HG Hc) as (m1 & Hm1 & Hst & Hty & Hpc & _). assert (m1 = m) as -> by congruence. rewrite Hp in Hpc. destruct Hpc as [Ha Hx]. apply (H G); try done; [|congruence].
  unfold is_pthread_task. intros Hn. apply bool_decide_eq_false in Hn. destruct (exec G) as [h|k] eqn:Ee; [destruct Hty; congruence|]. by exists k.
Qed.
Lemma plain_suspended x m : alive x m -> context m = Plain -> own_stack m -> suspended x m.
Proof. intros H1 H2 H3. split_and!; [done|congruence|done]. Qed.
Lemma user_leaves s g G m r : pc G = Run Idle -> cur G <> g -> metas s !! cur G = Some m -> rem_ok (cur G) m r -> leaves s g G r.
Proof. intros Hp Hc Hm Hr. split_and!; [intros k y; rewrite Hp; by destruct k|by rewrite Hp|]. exists m. split; [done|by right]. Qed.
Lemma user_sched n s loc g G x m r k : sinv n s loc [(LReady, x)] [] [] -> groups s !! g = Some G -> pc G = Run Idle -> cur G <> g -> metas s !! cur G = Some m -> rem_ok (cur G) m r -> stack m <> None -> fine n (sched_to s g x r k).
Proof. intros HI HG Hp Hc Hm Hr Hs. apply fine_ex. eapply sched_to_inv; [exact HI|exact HG|by eapply user_leaves|eauto]. Qed.
Definition valid_type (ty : Z) : Prop := ty <> STACK_TYPE_MAIN.
Lemma start_background_inv n s loc g G c ty pr : sinv n s loc [] [] [] -> groups s !! g = Some G -> pc G = Run Idle -> Z.of_nat (length (metas s)) + 1 < 2 ^ 32 -> valid_type ty -> fine n (start_background s g c ty pr).
Proof.
  intros HI HG Hp HN Hty. unfold start_background. pose proof (start_inv _ _ _ c ty pr HI HN Hty) as H. destruct (start s c ty pr) as [x s'| |]; [|by eapply fine_ok|done]. destruct H as ([loc' HI'] & Eg & _ & _). exists loc'. eapply (run_close _ _ _ _ G (Ready x None)); [exact HI'|by rewrite Eg|done|done].
Qed.
Lemma start_foreground_inv n s loc g G m c ty pr k : sinv n s loc [] [] [] -> groups s !! g = Some G -> pc G = Run Idle -> cur G <> g -> metas s !! cur G = Some m -> alive (cur G) m -> context m = Plain -> (is_pthread_task g m = false -> own_stack m) -> stack m <> None ->
  Z.of_nat (length (metas s)) + 1 < 2 ^ 32 -> valid_type ty -> fine n (start_foreground s g c ty pr k).
Proof.
  intros HI HG Hp Hc Hm Ha Hx Ho Hst HN Hty. unfold start_foreground. rewrite HG. pose proof (start_inv _ _ _ c ty pr HI HN Hty) as H. destruct (start s c ty pr) as [x s'| |]; [|by eapply fine_ok|done]. destruct H as ([loc' HI'] & Eg & _ & Em). pose proof (Em g G HG) as Em1. rewrite Hm in Em1. rewrite Em1. rewrite <- Eg in HG.
  destruct (is_pthread_task g m) eqn:Ei; [exists loc'; by eapply (run_close _ _ _ _ G (Ready x None))|]. eapply user_sched; try done. destruct (_ && _); (split; [done|]); (split; [|done]); by apply plain_suspended; auto.
Qed.
Lemma waiting_token n s loc i x : sinv n s loc [] [] [] -> waiting s !! i = Some x -> exists loc', sinv n (set_waiting (delete i (waiting s)) s) loc' [(LReady, x)] [] [].
Proof.
  intros HI Hi. assert (sinv n (set_waiting (delete i (waiting s)) s) loc [(LWait, x)] [] []) as HI1.
  { eapply inv_rest; [exact HI|]. split; try done; try (intros; by left). intros k y. rewrite tk_one, tk_nil. destruct k; cbn [rest set_waiting timers waiting free log priority_queue firing]; repeat case_decide; try congruence; try lia. pose proof (cocc_delete _ _ _ y Hi). lia. }
  destruct (token _ _ _ _ _ _ _ _ HI1 ltac:(done)) as (Hl & m & Hm & ([Hsu Hc] & Hsl & Hv)). exists (<[x := LReady]> loc). eapply relabel; [exact HI1|exact Hm|done|done|]. split; [split; [exact Hsu|]|by split]. apply cause_not_sleep. by rewrite Hc.
Qed.
Lemma set_stopped_inv n s loc t : sinv n s loc [] [] [] -> sinv n (set_stopped s t) loc [] [] [].
Proof.
  intros HI. unfold set_stopped. destruct (metas s !! get_slot t) as [m|] eqn:Hm; [|done]. destruct (_ =? _); [|done]. destruct (meta_loc _ _ _ _ _ _ _ _ HI Hm) as [k Hk].
  eapply (inv_meta _ _ _ _ _ _ [] [] (get_slot t) m (with_stop m) k); [exact HI|exact Hm|exact Hk|split_and!; [by left|by left|done]|exact (i_slot _ _ _ _ _ _ HI _ m k Hm Hk)| |done|cbn; lia|done].
  intros g G HG Ec. destruct (i_group _ _ _ _ _ _ HI g G HG) as (_ & m1 & Hm1 & Hok & _). rewrite Ec in *. assert (m1 = m) as -> by congruence. exact Hok.
Qed.
Lemma tg_fire_inv n s loc i id x : sinv n s loc [] [] [] -> firing s = None -> timers s !! i = Some (id, x) -> exists loc', sinv n (add_log (EFired id) (set_timers (delete i (timers s)) (Some x) (next_id s) s)) loc' [] [] [].
Proof.
  intros HI Hf Hi. pose proof (list_elem_of_lookup_2 _ _ _ Hi) as Hin. destruct (i_timer _ _ _ _ _ _ HI _ _ Hin) as [Hid Hsm].
  assert (forall y, (cocc (map snd (delete i (timers s))) y + is_ x y)%nat = cocc (map snd (timers s)) y) as Hct.
  { intros y. assert (map snd (timers s) ≡ₚ x :: map snd (delete i (timers s))) as P by (change (x :: map snd (delete i (timers s))) with (map snd ((id, x) :: delete i (timers s))); apply Permutation_map; by apply delete_Permutation). pose proof (proj1 (Permutation_count_occ Nat.eq_dec _ _) P y) as Q. change (count_occ Nat.eq_dec) with cocc in Q. rewrite cocc_is in Q. lia. }
  set (s1 := add_log (EFired id) (set_timers (delete i (timers s)) None (next_id s) s)).
  assert (sinv n s1 loc [(LTimer, x)] [] []) as HI1.
  { eapply inv_rest; [exact HI|]. unfold s1. split; try done; try (intros; by left).
    - intros k y. rewrite tk_one, tk_nil. specialize (Hct y). destruct k; cbn [rest timers waiting free log priority_queue firing add_log set_timers]; rewrite ?Hf; repeat case_decide; try congruence; try lia. unfold lost_slots. rewrite omap_app, cocc_app. cbn. lia.
    - cbn [log add_log]. intros f Hfe. apply elem_of_app. by left.
    - cbn [log add_log]. intros id1 [H|H%list_elem_of_singleton]%elem_of_app; [by left|done].
    - cbn [timers add_log set_timers]. intros id1 z Hz. left. apply list_elem_of_lookup_1 in Hz as [j Hj]. rewrite list_lookup_delete in Hj. destruct (decide _); by eapply list_elem_of_lookup_2. }
  destruct (token _ _ _ _ _ _ _ _ HI1 ltac:(done)) as (Hl & m & Hm & ([Hsu Hc] & Hsl & Hv)). exists (<[x := LReady]> loc). eapply inv_rest; [eapply relabel; [exact HI1|exact Hm|done|done|]|].
  - split; [split; [exact Hsu|]|by split]. intros _. right. right. rewrite (Hsm m Hm). cbn [log s1 add_log]. set_solver.
  - split; try done; try (intros; by left). intros k y. rewrite tk_one, tk_nil. destruct k; cbn [rest timers waiting free log priority_queue firing add_log set_timers s1]; repeat case_decide; try congruence; lia.
Qed.
Lemma push_remote_timers l f i s g x : push_remote (set_timers l f i s) g x = match push_remote s g x with Some s' => Some (set_timers l f i s') | None => None end.
Proof. unfold push_remote. change (groups (set_timers l f i s)) with (groups s). change (metas (set_timers l f i s)) with (metas s). destruct (groups s !! g); [|done]. destruct (metas s !! x); [|done]. by destruct (_ <? _)%nat. Qed.
Lemma fired_inv n s loc x g : sinv n s loc [] [] [] -> firing s = Some x -> fine n (match push_remote s g x with Some s => Ok (set_timers (timers s) None (next_id s) s) | None => Ok s end).
Proof.
  intros HI Hf. destruct (push_remote s g x) as [s'|] eqn:E; [|by eapply fine_ok]. exists loc.
  assert (sinv n (set_timers (timers s) None (next_id s) s) loc [(LReady, x)] [] []) as HI1. { eapply inv_rest; [exact HI|]. split; try done; try (intros; by left). intros k y. rewrite tk_one, tk_nil. destruct k; cbn [rest timers waiting free log priority_queue firing set_timers]; rewrite ?Hf; repeat case_decide; try congruence; lia. }
  eapply push_remote_inv; [exact HI1|]. rewrite push_remote_timers, E. destruct (push_remote_same _ _ _ _ E) as (_ & _ & -> & _ & ->). done.
Qed.
Lemma tg_go_inv n s loc g G c k ok : sinv n s loc [] [] [] -> groups s !! g = Some G -> fine n (go s g G c k ok).
Proof.
  intros HI HG. unfold go. destruct (pc G) as [|a| |r|r|t id|t id| | | |] eqn:Hp.
  - apply fine_ex. by eapply wait_task_inv.
  - by eapply worker_act_inv.
  - eapply fine_ok. by eapply end_task_inv.
  - apply fine_ex. by eapply sched_inv.
  - by apply (run_remained_inv _ _ _ _ _ _ _ HI HG Hp).
  - by apply (add_sleep_inv _ _ _ _ _ _ _ HI HG Hp).
  - by apply (add_sleep2_inv _ _ _ _ _ _ _ HI HG Hp).
  - eapply fine_ok. by eapply tg_resume_inv.
  - eapply fine_ok. by eapply usleep2_inv.
  - eapply fine_ok. by eapply usleep3_inv.
  - eapply fine_ok. by eapply wait2_inv.
Qed.
(** Stacks of type MAIN cannot be asked for; slots and events stay below 2^32. *)
Definition ok (s : S) (c : call) : Prop :=
  Z.of_nat (length (metas s)) + 1 < 2 ^ 32 /\ Z.of_nat (length (log s)) + 2 < 2 ^ 32 /\ match c with StartBg _ _ ty _ | StartFg _ _ ty _ _ | StartRemote _ _ ty _ => valid_type ty | _ => True end.
Lemma do_call_inv n s loc c : sinv n s loc [] [] [] -> ok s c -> fine n (do_call s c).
Proof.
  intros HI (HN & _ & Hok). assert (forall p f, (threads s !! p = Some Idle -> fine n f) -> fine n (thread s p f)) as Hth by (intros p f H; unfold thread; destruct (threads s !! p) as [[]|]; try (by eapply fine_ok); by apply H).
  destruct c as [g c ty pr|g c ty pr k|p c ty pr|g|g|g|g|g t|p t|t|g i ns k|p i|g c k b|p g|i|g]; cbn [do_call].
  - eapply user_inv; [exact HI|]. intros G m HG Hp Hc Hm Ha Hx Ho Hs. by eapply start_background_inv.
  - eapply user_inv; [exact HI|]. intros G m HG Hp Hc Hm Ha Hx Ho Hs. by eapply start_foreground_inv.
  - apply Hth. intros Hp. unfold start_remote. pose proof (start_inv _ _ _ c ty pr HI HN Hok) as H. destruct (start s c ty pr) as [x s'| |]; [|by eapply fine_ok|done]. destruct H as ([loc' HI'] & _ & Et & _). exists loc'. eapply (thread_close _ _ _ _ (Ready x None)); [exact HI'|by rewrite Et|done].
  - eapply user_inv; [exact HI|]. intros G m HG Hp Hc Hm Ha Hx Ho Hs. exists loc. eapply tg_inv_pc; [exact HI|exact HG|exact Hm|intros k y; rewrite Hp; by destruct k|by rewrite Hp|done|]. destruct (i_group _ _ _ _ _ _ HI g G HG) as (_ & m1 & Hm1 & Hgo & _). assert (m1 = m) as -> by congruence. unfold group_ok in *. rewrite (proj2 (Nat.eqb_neq _ _) Hc) in *. destruct Hgo as (H1 & H2 & _). split_and!; [done|done|left; done].
  - eapply user_inv; [exact HI|]. intros G m HG Hp Hc Hm Ha Hx Ho Hs. destruct (is_pthread_task g m); [by eapply fine_ok|]. specialize (Ho eq_refl). exists loc. destruct (cur_facts _ _ _ _ _ _ _ _ HI HG Hc) as (m1 & Hm1 & _ & _ & _ & Hsl & Hv). assert (m1 = m) as -> by congruence. cur_step HI HG; try done; [split_and!; [by left|by left|done]|cbn; by rewrite Hx|intros j y; rewrite Hp; by destruct j|by rewrite Hp].
  - eapply user_inv; [exact HI|]. intros G m HG Hp Hc Hm Ha Hx Ho Hs. destruct (is_pthread_task g m); [by eapply fine_ok|]. specialize (Ho eq_refl). exists loc. eapply tg_inv_pc; [exact HI|exact HG|exact Hm|intros k y; rewrite Hp; by destruct k|by rewrite Hp|done|]. destruct (i_group _ _ _ _ _ _ HI g G HG) as (_ & m1 & Hm1 & Hgo & _). assert (m1 = m) as -> by congruence. unfold group_ok in *. rewrite (proj2 (Nat.eqb_neq _ _) Hc) in *. destruct Hgo as (H1 & H2 & _). split_and!; [done|done|left]. split; [done|]. split; [by apply plain_suspended|done].
  - eapply user_inv; [exact HI|]. intros G m HG Hp Hc Hm Ha Hx Ho Hs. destruct (is_pthread_task g m); [by eapply fine_ok|]. specialize (Ho eq_refl). exists loc. destruct (cur_facts _ _ _ _ _ _ _ _ HI HG Hc) as (m1 & Hm1 & _ & _ & _ & Hsl & Hv). assert (m1 = m) as -> by congruence. destruct (no_waiter _ _ _ _ _ _ _ _ HI Hm ltac:(congruence)) as [Hw _]. cur_step HI HG; try done; [split_and!; [by left|by left|done]|cbn; by rewrite Hx, Hw|intros j y; rewrite Hp; by destruct j|by rewrite Hp].
  - eapply user_inv; [exact HI|]. intros G m HG Hp Hc Hm Ha Hx Ho Hs. exists loc. by eapply (run_close _ _ _ _ G (IConsume t)).
  - apply Hth. intros Hp. exists loc. by eapply (thread_close _ _ _ _ (IConsume t)).
  - exists loc. by apply set_stopped_inv.
  - eapply user_inv; [exact HI|]. intros G m HG Hp Hc Hm Ha Hx Ho Hs. destruct (waiting s !! i) as [x|] eqn:Hi; [|by eapply fine_ok]. destruct (waiting_token _ _ _ _ _ HI Hi) as [loc' HI']. cbn zeta. destruct ns; [exists loc'; by eapply (run_close _ _ _ _ G (Ready x None))|].
    unfold exchange. cbn [groups metas set_waiting]. rewrite HG, Hm. destruct (is_pthread_task g m); [exists loc'; by eapply (run_close _ _ _ _ G (Ready x None))|]. specialize (Ho eq_refl). eapply user_sched; try done. split; [done|]. split; [by apply plain_suspended|done].
  - apply Hth. intros Hp. destruct (waiting s !! i) as [x|] eqn:Hi; [|by eapply fine_ok]. destruct (waiting_token _ _ _ _ _ HI Hi) as [loc' HI']. exists loc'. by eapply (thread_close _ _ _ _ (Ready x None)).
  - destruct (groups s !! g) as [G|] eqn:HG; [by eapply tg_go_inv|by eapply fine_ok].
  - destruct (threads s !! p) as [a|] eqn:Hp; [by eapply thread_act_inv|by eapply fine_ok].
  - destruct (firing s) eqn:Hf; [by eapply fine_ok|]. destruct (timers s !! i) as [[id x]|] eqn:Hi; [|by eapply fine_ok]. destruct (tg_fire_inv _ _ _ _ _ _ HI Hf Hi) as [loc' HI']. by exists loc'.
  - destruct (firing s) as [x|] eqn:Hf; [by eapply fired_inv|by eapply fine_ok].
Qed.
(** *** The initial state *)

Lemma seq_lookup n g : (seq 0 n : list nat) !! g = if decide (g < n)%nat then Some g else None.
Proof. destruct (decide (g < n)%nat); [by rewrite lookup_seq_lt|by rewrite lookup_seq_ge by lia]. Qed.
Lemma init_groups n np g G : groups (init n np) !! g = Some G -> G = mkGroup g [] [] WaitTask (MainStack g) /\ (g < n)%nat.
Proof. cbn [groups init]. intros H. apply list_lookup_fmap_Some in H as (x & -> & H). rewrite seq_lookup in H. destruct (decide (g < n)%nat); [|done]. by injection H as <-. Qed.
Lemma init_metas n np g m : metas (init n np) !! g = Some m -> m = main_meta g /\ (g < n)%nat.
Proof. cbn [metas init]. intros H. apply list_lookup_fmap_Some in H as (x & -> & H). rewrite seq_lookup in H. destruct (decide (g < n)%nat); [|done]. by injection H as <-. Qed.
Lemma scheduler_init n np : Z.of_nat n < 2 ^ 32 -> sinv n (init n np) (replicate n LMain) [] [] [].
Proof.
  intros Hn. split.
  - cbn [groups metas init]. rewrite !length_map, !length_seq, length_replicate. split_and!; [done|done|done|]. intros x. split; [by intros [_ ?]%lookup_replicate|intros Hx; by apply lookup_replicate].
  - intros k x Hk. rewrite bool_decide_eq_false_2 by (intros [? _]%lookup_replicate; congruence). cbn [b2n]. unfold place. cbn [threads init]. rewrite (sum_none (gplace n k x)), (sum_none (aplace k x)); [by destruct k| |].
    + intros i a [-> _]%lookup_replicate. by destruct k.
    + intros g G [-> Hg]%init_groups. unfold gplace. cbn [cur rq remote_rq pc pplace]. destruct k; cbn [cplace qplace]; try done. destruct (Nat.leb_spec n x); [|done]. rewrite is_ne by lia. done.
  - intros x m k [-> Hx]%init_metas [-> _]%lookup_replicate. split; [done|]. split; [|done]. split; [|done]. cbn. intros y Hy. by apply elem_of_nil in Hy.
  - intros g G [-> Hg]%init_groups. split; [done|]. cbn [cur pc exec]. exists (main_meta g). split_and!; [|by unfold group_ok; rewrite Nat.eqb_refl|done]. cbn [metas init]. apply list_lookup_fmap_Some. exists g. split; [done|]. by rewrite seq_lookup, decide_True.
  - intros p a [-> _]%lookup_replicate. done.
  - intros x m [-> Hx]%init_metas. rewrite bool_decide_eq_false_2 by done. cbn [current_waiter main_meta b2n]. unfold backs. cbn [threads init]. rewrite (sum_none (aback x)) by (intros i a [-> _]%lookup_replicate; done). rewrite sum_none; [done|]. intros g G [-> Hg]%init_groups. done.
  - intros id y Hy. by apply elem_of_nil in Hy.
  - intros t m [Hq|(g & G & HG & Hq)] _; [by apply elem_of_nil in Hq|]. apply init_groups in HG as [-> _]. cbn in Hq. destruct Hq as [Hq|Hq]; by apply elem_of_nil in Hq.
  - intros k. unfold stacks. change (nstacks (init n np)) with 0%nat. cbn [free_stacks init]. rewrite sum_none; [done|]. intros g m [-> _]%init_metas. done.
  - split; [|done]. intros id H. by apply elem_of_nil in H.
  - constructor.
Qed.
Definition step (s s' : S) : Prop := exists c, ok s c /\ do_call s c = Ok s'.
Definition reachable (n np : nat) : S -> Prop := steps step (init n np).
Lemma tg_reachable_inv n np s : Z.of_nat n < 2 ^ 32 -> reachable n np s -> exists loc, sinv n s loc [] [] [].
Proof.
  intros Hn. apply (steps_invariant step (fun s => exists loc, sinv n s loc [] [] [])); [|exists (replicate n LMain); by apply scheduler_init].
  intros a b [loc HI] (c & Hc & E). pose proof (do_call_inv _ _ _ _ HI Hc) as H. rewrite E in H. exact H.
Qed.
(** *** Places *)

(** *** Stacks and their types, and what the priority queue drops *)

Definition shape (m : TaskMeta) : option Stack * Z := (stack m, stack_type m).
Definition gear (s : S) : list (option Stack * Z) * list (Z * nat) * list Z * list nat := (map shape (metas s), free_stacks s, stack_types s, lost_slots (log s)).
(** A bthread's stack is of the bthread's type, a stack in a pool of the type of the pool. *)
Definition stacks_typed (s : S) : Prop :=
  (forall x m k, metas s !! x = Some m -> stack m = Some (Stk k) -> stack_types s !! k = Some (stack_type m)) /\ (forall f k, (f, k) ∈ free_stacks s -> stack_types s !! k = Some f).
Definition minds (s s' : S) : Prop := (stacks_typed s -> stacks_typed s') /\ lost_slots (log s') = lost_slots (log s).
Definition minded (s : S) (o : outcome) : Prop := match o with Ok s' => minds s s' | _ => True end.
Lemma gear_minds s s' : gear s' = gear s -> minds s s'.
Proof.
  unfold gear. intros E. injection E as E1 E2 E3 E4. split; [|done]. intros [T1 T2]. split; rewrite ?E3; [|by rewrite E2].
  intros x m k Hm Hk. assert (map shape (metas s') !! x = Some (shape m)) as Hs by (rewrite list_lookup_fmap, Hm; done). rewrite E1, list_lookup_fmap in Hs. destruct (metas s !! x) as [m0|] eqn:Hm0; [|done]. injection Hs as Es Et. rewrite <- Et. apply (T1 x m0); [done|congruence].
Qed.
Lemma minds_trans s1 s2 s3 : minds s1 s2 -> minds s2 s3 -> minds s1 s3.
Proof. intros [H1 H2] [H3 H4]. split; [auto|congruence]. Qed.
Lemma minded_trans s s' o : minds s s' -> minded s' o -> minded s o.
Proof. intros H. destruct o; [|done|done]. by apply minds_trans. Qed.
Lemma minds_refl s : minds s s.
Proof. by split. Qed.
Lemma gear_meta s x m m' : metas s !! x = Some m -> shape m' = shape m -> gear (set_meta x m' s) = gear s.
Proof. intros Hm E. unfold gear. cbn [metas log free_stacks stack_types set_meta]. do 3 f_equal. change (map shape (<[x := m']> (metas s))) with (shape <$> <[x := m']> (metas s)). rewrite list_fmap_insert, E. apply list_insert_id. by rewrite list_lookup_fmap, Hm. Qed.
Lemma gear_log s e : match e with ELost _ => False | _ => True end -> gear (add_log e s) = gear s.
Proof. intros He. unfold gear, lost_slots. cbn [metas log add_log free_stacks stack_types]. rewrite omap_app. destruct e; try done; cbn; by rewrite app_nil_r. Qed.
Lemma gear_pc g p s : gear (set_pc g p s) = gear s.
Proof. unfold set_pc. by destruct (groups s !! g). Qed.
Lemma gear_upd s x f : (forall m, shape (f m) = shape m) -> gear (upd_meta x f s) = gear s.
Proof. intros Hf. unfold upd_meta. destruct (metas s !! x) as [m|] eqn:E; [|done]. by eapply gear_meta. Qed.
Lemma minded_switch s g x r : minded s (switch s g x r).
Proof. unfold switch. repeat case_match; try done; by apply gear_minds. Qed.
Lemma factory_get_minds s ty c : minds s (factory_get s ty c).2 /\ metas (factory_get s ty c).2 = metas s /\ (stacks_typed s -> forall k, (factory_get s ty c).1 = Some k -> stack_types (factory_get s ty c).2 !! k = Some ty).
Proof.
  unfold factory_get. destruct c as [i| |]; [| |by split_and!; [apply minds_refl|..]].
  - destruct (free_stacks s !! i) as [[f k]|] eqn:Ei; [|by split_and!; [apply minds_refl|..]]. destruct (Z.eqb_spec f ty) as [->|]; [|by split_and!; [apply minds_refl|..]]. cbn [fst snd]. split_and!; [split; [|done]|done|].
    + intros [T1 T2]. split; [done|]. intros f j Hj. apply T2. cbn [free_stacks set_stacks] in Hj. apply list_elem_of_lookup_1 in Hj as [p Hp]. rewrite list_lookup_delete in Hp. destruct (decide _); by eapply list_elem_of_lookup_2.
    + intros [T1 T2] j [= <-]. cbn [stack_types set_stacks]. apply T2. by eapply list_elem_of_lookup_2.
  - cbn [fst snd]. split_and!; [split; [|done]|done|].
    + intros [T1 T2]. split; cbn [metas free_stacks stack_types set_stacks]; [intros x m k Hm Hk; apply lookup_app_l_Some; by eapply T1|intros f k Hk; apply lookup_app_l_Some; by apply T2].
    + intros _ k [= <-]. cbn [stack_types set_stacks]. unfold nstacks. by rewrite lookup_app_r, Nat.sub_diag by lia.
Qed.
Lemma get_stack_minds s ty c o s' : get_stack s ty c = Some (o, s') -> minds s s' /\ metas s' = metas s /\ (stacks_typed s -> forall k, o = Some k -> stack_types s' !! k = Some ty).
Proof.
  unfold get_stack. destruct (ty =? STACK_TYPE_MAIN); [done|]. destruct (ty =? STACK_TYPE_PTHREAD); [intros [= <- <-]; by split_and!; [apply minds_refl|..]|].
  assert (forall t, ty = t -> Some (factory_get s t c) = Some (o, s') -> minds s s' /\ metas s' = metas s /\ (stacks_typed s -> forall k, o = Some k -> stack_types s' !! k = Some ty)) as H by (intros t -> [= E]; pose proof (factory_get_minds s t c) as H; by rewrite E in H).
  destruct (Z.eqb_spec ty STACK_TYPE_SMALL); [by apply H|]. destruct (Z.eqb_spec ty STACK_TYPE_NORMAL); [by apply H|]. destruct (Z.eqb_spec ty STACK_TYPE_LARGE); [by apply H|]. intros [= <- <-]. by split_and!; [apply minds_refl|..].
Qed.
(** One slot gets a stack, or loses it. *)
Lemma minds_meta s x m' : (stacks_typed s -> forall k, stack m' = Some (Stk k) -> stack_types s !! k = Some (stack_type m')) -> minds s (set_meta x m' s).
Proof.
  intros H. split; [|done]. intros [T1 T2]. split; [|done]. cbn [metas stack_types set_meta]. intros y m k Hy Hk. destruct (decide (y = x)) as [->|Hne]; [|rewrite list_lookup_insert_ne in Hy by done; by eapply T1].
  pose proof (lookup_lt_Some _ _ _ Hy) as Hl. rewrite length_insert in Hl. rewrite list_lookup_insert_eq in Hy by done. injection Hy as <-. by apply H.
Qed.
Lemma give_stack_minds s g x m c s' : give_stack s g x m c = Some s' -> minds s s'.
Proof.
  unfold give_stack. destruct (get_stack _ _ _) as [[o s1]|] eqn:E; [|done]. apply get_stack_minds in E as (E1 & E2 & E3). cbn [mbind option_bind]. intros [= <-]. destruct E1 as [E1a E1b]. split; [|exact E1b]. intros HT. refine (proj1 (minds_meta s1 x _ _) (E1a HT)). intros _ k. destruct o as [j|]; cbn [stack stack_type with_stack with_stack_type]; [intros [= <-]; by apply E3|done].
Qed.
Lemma minded_sched_to s g x r c : minded s (sched_to s g x r c).
Proof.
  unfold sched_to. destruct (metas s !! x) as [m|]; [|done]. destruct (stack m); [apply minded_switch|]. destruct (give_stack s g x m c) as [s1|] eqn:E; [|done]. eapply minded_trans; [by eapply give_stack_minds|apply minded_switch].
Qed.
Lemma minded_ending s g x r c : minded s (ending_sched_to s g x r c).
Proof.
  unfold ending_sched_to. destruct (groups s !! g) as [G|]; [|done]. destruct (metas s !! x) as [m|] eqn:Hm; [|done]. destruct (metas s !! cur G) as [e|] eqn:He; [|done]. destruct (stack m) as [k|] eqn:Ek; [apply minded_switch|]. destruct (Z.eqb_spec (stack_type m) (stack_type e)) as [Et|_].
  - eapply minded_trans; [|apply minded_switch]. eapply minds_trans; [apply (minds_meta s x)|apply minds_meta; by intros _ k]. intros [T1 _] k. cbn [stack stack_type with_stack]. rewrite Et. by apply (T1 (cur G)).
  - destruct (give_stack s g x m c) as [s1|] eqn:E; [|done]. eapply minded_trans; [by eapply give_stack_minds|apply minded_switch].
Qed.
Lemma steal_gear s c t s' : steal_task s c = Some (t, s') -> gear s' = gear s.
Proof. unfold steal_task. destruct c as [g|g| |]; [destruct (groups s !! g) as [G|]; [|done]; cbn [mbind option_bind]; destruct (rq G)|destruct (groups s !! g) as [G|]; [|done]; cbn [mbind option_bind]; destruct (remote_rq G)|destruct (priority_queue s)|done]; cbn; try done; by intros [= <- <-]. Qed.
Lemma minded_wait_task s g c k : minded s (wait_task s g c k).
Proof. unfold wait_task. destruct (steal_task s c) as [[t s1]|] eqn:E; [|apply minds_refl]. eapply minded_trans; [apply gear_minds; by eapply steal_gear|apply minded_sched_to]. Qed.
Lemma minded_sched s g r c k : minded s (sched s g r c k).
Proof.
  unfold sched. destruct (next_task s g c) as [[x s1]|] eqn:E; [|done]. apply (minded_trans _ s1); [|destruct r; solve [apply minded_sched_to|apply minded_ending]]. apply gear_minds. revert E. unfold next_task. destruct (groups s !! g) as [G|]; [|done]. cbn [mbind option_bind].
  destruct (last (rq G)); [by intros [= _ <-]|]. destruct (steal_task s c) as [[t s2]|] eqn:E; [intros [= _ <-]; by eapply steal_gear|by intros [= _ <-]].
Qed.
Lemma unschedule_gear s id : gear (unschedule s id).2 = gear s.
Proof. unfold unschedule. by destruct (list_find _ _) as [[i p]|]. Qed.
Lemma push_rq_gear s g x s' : push_rq s g x = Some s' -> gear s' = gear s.
Proof. unfold push_rq. destruct (groups s !! g) as [G|]; [|done]. destruct (metas s !! x); [|done]. destruct (_ <? _)%nat; [|done]. by intros [= <-]. Qed.
Lemma push_remote_gear s g x s' : push_remote s g x = Some s' -> gear s' = gear s.
Proof. unfold push_remote. destruct (groups s !! g) as [G|]; [|done]. destruct (metas s !! x); [|done]. destruct (_ <? _)%nat; [|done]. by intros [= <-]. Qed.
Lemma return_stack_minds s x m k : metas s !! x = Some m -> stack m = Some (Stk k) -> minds s (return_stack s k).
Proof.
  intros Hm Hk. unfold return_stack. destruct (stack_types s !! k) as [ty|] eqn:E; [|apply minds_refl].
  assert (forall t, ty = t -> minds s (factory_return s t k)) as H; [|destruct (Z.eqb_spec ty STACK_TYPE_SMALL); [by apply H|]; destruct (Z.eqb_spec ty STACK_TYPE_NORMAL); [by apply H|]; destruct (Z.eqb_spec ty STACK_TYPE_LARGE); [by apply H|apply minds_refl]].
  intros t <-. split; [|done]. intros [T1 T2]. split; [done|]. cbn [free_stacks stack_types factory_return set_stacks]. intros f j [Hj|Hj%list_elem_of_singleton]%elem_of_app; [by apply T2|]. by injection Hj as -> ->.
Qed.
Lemma release_minds s x : minds s (_release_last_context s x).
Proof.
  unfold _release_last_context. destruct (metas s !! x) as [m|] eqn:Hm; [|apply minds_refl]. cbn zeta. set (s1 := if _ =? _ then s else _). assert (minds s s1) as H1 by (unfold s1; destruct (_ =? _); [apply minds_refl|]; destruct (stack m) as [[h|k]|] eqn:Es; [apply minds_refl|by eapply return_stack_minds|apply minds_refl]).
  eapply minds_trans; [exact H1|]. eapply minds_trans; [apply (minds_meta s1 x (with_stack None m)); by intros _ k|by apply gear_minds].
Qed.
(** A bthread is dropped only by the push onto a full priority queue. *)
Definition drops (s s' : S) : Prop := (stacks_typed s -> stacks_typed s') /\ (priority_capacity <= length (priority_queue s))%nat /\ exists x, lost_slots (log s') = lost_slots (log s) ++ [x].
Definition tame (s : S) (o : outcome) : Prop := match o with Ok s' => minds s s' \/ drops s s' | _ => True end.
Lemma minded_tame s o : minded s o -> tame s o.
Proof. destruct o; [by left|done|done]. Qed.
Lemma tame_remained s g r b : tame s (Ok (run_remained s g r b)).
Proof.
  destruct r as [|x|x|t|x|x]; cbn [run_remained].
  - left. apply gear_minds, gear_pc.
  - left. destruct (push_rq s g x) as [s1|] eqn:E; [|apply minds_refl]. apply gear_minds. rewrite gear_pc. by eapply push_rq_gear.
  - unfold push_priority_queue. destruct (metas s !! x) as [m|]; [|left; apply gear_minds, gear_pc]. destruct (Nat.ltb_spec (length (priority_queue s)) priority_capacity) as [|Hf]; [left; apply gear_minds; by rewrite gear_pc|]. right.
    destruct (gear_minds (add_log (ELost (tid m)) s) (set_pc g Resume (add_log (ELost (tid m)) s)) (gear_pc _ _ _)) as [H1 H2]. split; [intros HT; apply H1; exact HT|]. split; [done|]. exists (get_slot (tid m)). rewrite H2. unfold lost_slots. cbn [log add_log]. by rewrite omap_app.
  - left. apply gear_minds. destruct b; cbn zeta; rewrite gear_pc, gear_upd by done; done.
  - left. apply gear_minds. destruct b; by rewrite gear_pc.
  - left. eapply minds_trans; [apply release_minds|apply gear_minds, gear_pc].
Qed.
Lemma act_gear s a a' s' : act s a = Acted a' s' -> gear s' = gear s.
Proof.
  destruct a as [|x b|t|t|t|t id]; cbn [act]; [by intros [= <- <-]..| | | |].
  - destruct (metas s !! _) as [m|] eqn:Hm; [|by intros [= <- <-]]. destruct (_ =? _); [|by intros [= <- <-]]. destruct (current_waiter m), (_ =? 0); try done; intros [= <- <-]; by eapply gear_meta.
  - destruct (list_find _ _) as [[i x]|]; by intros [= <- <-].
  - destruct (metas s !! _) as [m|] eqn:Hm; [|done]. destruct (_ =? _); [|done]. intros [= <- <-]. by eapply gear_meta.
  - intros [= _ <-]. apply unschedule_gear.
Qed.
Lemma minded_worker s g a : minded s (worker_act s g a).
Proof.
  destruct a as [|x b|t|t|t|t id]; cbn [worker_act]; try (destruct (act _ _) as [a' s'| |] eqn:E; [|done|done]; apply gear_minds; rewrite gear_pc; by eapply act_gear).
  destruct (push_rq s g x) as [s1|] eqn:E; [|apply minds_refl]. apply gear_minds. rewrite gear_pc. by eapply push_rq_gear.
Qed.
Lemma minded_thread s p a g : minded s (thread_act s p a g).
Proof.
  destruct a as [|x b|t|t|t|t id]; cbn [thread_act]; try (destruct (act _ _) as [a' s'| |] eqn:E; [|done|done]; apply gear_minds; change (gear (set_thread _ _ ?a)) with (gear a); by eapply act_gear).
  destruct (push_remote s g x) as [s1|] eqn:E; [|apply minds_refl]. apply gear_minds. change (gear (set_thread _ _ ?a)) with (gear a). by eapply push_remote_gear.
Qed.
Lemma start_minds s c ty pr x s' : start s c ty pr = Started x s' -> minds s s'.
Proof.
  unfold start. destruct (get_resource s c) as [[y s1]|] eqn:E; [|done]. assert (minds s s1) as H1.
  { unfold get_resource in E. destruct c as [i|]; [destruct (free s !! i); [|done]; cbn in E; injection E as _ <-; by apply gear_minds|]. injection E as _ <-. split; [|done]. intros [T1 T2]. split; [|done]. cbn [metas add_meta stack_types]. intros z m k [Hz|[_ Hz]]%lookup_app_Some Hk; [by eapply T1|]. apply list_lookup_singleton_Some in Hz as [_ <-]. done. }
  destruct (metas s1 !! y) as [m|]; [|done]. destruct (current_waiter m); [done|]. destruct (stack m) eqn:Es; [done|]. intros [= <- <-]. eapply minds_trans; [exact H1|]. eapply minds_trans; [apply (minds_meta s1 y (init_meta y ty pr m))|apply gear_minds; by apply gear_log]. intros _ k. cbn [stack init_meta]. by rewrite Es.
Qed.
Lemma minded_start_with s c ty pr (f : nat -> S -> outcome) : (forall x s', start s c ty pr = Started x s' -> minded s' (f x s')) -> minded s (match start s c ty pr with Started x s' => f x s' | NotStarted => Ok s | StartFatal => Fatal end).
Proof. intros H. destruct (start s c ty pr) as [x s'| |] eqn:E; [|apply minds_refl|done]. eapply minded_trans; [by eapply start_minds|by apply H]. Qed.
Lemma minded_start_fg s g c ty pr k : minded s (start_foreground s g c ty pr k).
Proof.
  unfold start_foreground. destruct (groups s !! g) as [G|]; [|apply minds_refl]. apply (minded_start_with s c ty pr). intros x s' _. destruct (metas s' !! cur G) as [m|]; [|done]. destruct (is_pthread_task g m); [apply gear_minds, gear_pc|apply minded_sched_to].
Qed.
Lemma gear_resume s g x : gear (resume s g x) = gear s.
Proof.
  unfold resume. destruct (_ =? _)%nat; [apply gear_pc|]. destruct (metas s !! x) as [m|] eqn:Hm; [|done]. destruct (context m); [rewrite gear_log, gear_pc by done; by eapply gear_meta|apply gear_pc| |].
  - destruct (sleep_failed m); [rewrite gear_log by done|]; rewrite gear_pc; by eapply gear_meta.
  - destruct (current_waiter m); [rewrite gear_pc; by eapply gear_meta|done].
Qed.
Lemma tame_go s g G c k ok' : tame s (go s g G c k ok').
Proof.
  unfold go. destruct (pc G) as [|a| |r|r|t id|t id| | | |].
  - apply minded_tame, minded_wait_task.
  - apply minded_tame, minded_worker.
  - left. apply gear_minds. unfold end_task. destruct (metas s !! cur G) as [m|] eqn:Hm; [|done]. cbn zeta. rewrite gear_log, gear_pc by done. by eapply gear_meta.
  - apply minded_tame, minded_sched.
  - apply tame_remained.
  - left. apply gear_minds. unfold add_sleep. destruct (metas s !! _) as [m|] eqn:Hm; [|done]. destruct (_ && _); rewrite gear_pc; [by eapply gear_meta|done].
  - left. apply gear_minds. unfold add_sleep2. cbn zeta. destruct (unschedule s id).1; rewrite gear_pc; apply unschedule_gear.
  - left. apply gear_minds, gear_resume.
  - left. apply gear_minds. unfold usleep2. destruct (metas s !! cur G) as [m|] eqn:Hm; [|done]. destruct (interrupted m); [apply gear_pc|]. rewrite gear_log, gear_pc by done. by eapply gear_meta.
  - left. apply gear_minds. unfold usleep3. destruct (metas s !! cur G) as [m|] eqn:Hm; [|done]. rewrite gear_log, gear_pc by done. by eapply gear_meta.
  - left. apply gear_minds. rewrite gear_pc. by apply gear_upd.
Qed.
Lemma tame_user s g f : (forall x m, metas s !! x = Some m -> tame s (f x m)) -> tame s (user s g f).
Proof.
  intros H. unfold user. destruct (groups s !! g) as [G|]; [|left; apply minds_refl]. destruct (pc G) as [|a| | | | | | | | |]; try (left; apply minds_refl). destruct a; try (left; apply minds_refl). destruct (metas s !! cur G) eqn:E; [by apply H|left; apply minds_refl].
Qed.
Lemma tame_thread s p o : tame s o -> tame s (thread s p o).
Proof. intros H. unfold thread. destruct (threads s !! p) as [[]|]; try (left; apply minds_refl). done. Qed.
Lemma tame_call s c : tame s (do_call s c).
Proof.
  assert (forall s', gear s' = gear s -> tame s (Ok s')) as Hg by (intros s' E; left; by apply gear_minds).
  destruct c as [g c ty pr|g c ty pr k|p c ty pr|g|g|g|g|g t|p t|t|g i ns k|p i|g c k b|p g|i|g]; cbn [do_call].
  - apply tame_user. intros x m _. apply minded_tame. unfold start_background. apply (minded_start_with s c ty pr). intros y s' _. apply gear_minds, gear_pc.
  - apply tame_user. intros x m _. apply minded_tame, minded_start_fg.
  - apply tame_thread, minded_tame. unfold start_remote. apply (minded_start_with s c ty pr). intros y s' _. by apply gear_minds.
  - apply tame_user. intros x m _. apply Hg, gear_pc.
  - apply tame_user. intros x m Hm. destruct (is_pthread_task g m); [by apply Hg|]. apply Hg. unfold usleep. rewrite gear_pc. by eapply gear_meta.
  - apply tame_user. intros x m Hm. destruct (is_pthread_task g m); [by apply Hg|]. apply Hg, gear_pc.
  - apply tame_user. intros x m Hm. destruct (is_pthread_task g m); [by apply Hg|]. apply Hg. unfold butex_wait. rewrite gear_pc. by eapply gear_meta.
  - apply tame_user. intros x m _. apply Hg, gear_pc.
  - by apply tame_thread, Hg.
  - apply Hg. unfold set_stopped. destruct (metas s !! get_slot t) as [m|] eqn:Hm; [|done]. destruct (_ =? _); [by eapply gear_meta|done].
  - apply tame_user. intros x m _. destruct (waiting s !! i) as [y|]; [|by apply Hg]. cbn zeta. destruct ns; [apply Hg; by rewrite gear_pc|]. apply minded_tame, (minded_trans s (set_waiting (delete i (waiting s)) s)); [by apply gear_minds|]. unfold exchange. destruct (groups _ !! g) as [G|]; [|apply minds_refl]. destruct (metas _ !! cur G); [|done]. destruct (is_pthread_task g _); [apply gear_minds, gear_pc|apply minded_sched_to].
  - apply tame_thread. destruct (waiting s !! i); by apply Hg.
  - destruct (groups s !! g); [apply tame_go|by apply Hg].
  - destruct (threads s !! p); [apply minded_tame, minded_thread|by apply Hg].
  - destruct (firing s); [by apply Hg|]. destruct (timers s !! i) as [[id x]|]; [|by apply Hg]. apply Hg. by rewrite gear_log.
  - destruct (firing s) as [x|]; [|by apply Hg]. destruct (push_remote s g x) as [s'|] eqn:E; [|by apply Hg]. apply Hg. change (gear (set_timers _ _ _ s')) with (gear s'). by eapply push_remote_gear.
Qed.
Lemma reachable_typed n np s : reachable n np s -> stacks_typed s.
Proof.
  apply (steps_invariant step stacks_typed).
  - intros a b HT (c & _ & E). pose proof (tame_call a c) as H. rewrite E in H. destruct H as [[H _]|[H _]]; auto.
  - split; [|intros f k H; by apply elem_of_nil in H]. intros x m k [-> _]%init_metas. done.
Qed.
(** *** The life of a bthread *)

(** How far the bthread of version [v] in a slot has come: not started, started,
    its function called, ended. *)
Definition stage1 (x : nat) (p : Z * Z * bool) (v : Z) : nat :=
  let '(w, t, f) := p in if v <? w then 3 else if (v =? w) && (t =? make_tid w x) then if f then 1 else 2 else 0.
Lemma stage1_new x p w t : 0 < w -> p = (w, t, true) \/ p = (w, t, false) -> t <> make_tid w x -> stage1 x p w = 0%nat.
Proof. intros Hw Hp Ht. destruct Hp as [-> | ->]; cbn [stage1]; rewrite Z.ltb_irrefl, Z.eqb_refl, (proj2 (Z.eqb_neq _ _) Ht); done. Qed.
(** A sleep that returns 0 has lasted until its own timer fired: no interruption
    cuts it short without an error. *)
Theorem usleep_full n np s id : Z.of_nat n < 2 ^ 32 -> reachable n np s -> ESlept id 0 ∈ log s -> EFired id ∈ log s.
Proof. intros Hn HR. destruct (tg_reachable_inv _ _ _ Hn HR) as [loc HI]. apply (i_log _ _ _ _ _ _ HI). Qed.
(** *** Stacks *)

Definition stk (m : TaskMeta) : option nat := match stack m with Some (Stk k) => Some k | _ => None end.
Lemma stk_holds l k : cocc (omap stk l) k = sum_list_with (holds k) l.
Proof.
  induction l as [|m l IH]; [done|]. cbn [sum_list_with]. rewrite <- IH. unfold holds. change (omap stk (m :: l)) with (match stk m with Some y => y :: omap stk l | None => omap stk l end). unfold stk at 1. destruct (stack m) as [[h|j]|]; try done. by rewrite cocc_is.
Qed.
Lemma stacks_perm n s loc : sinv n s loc [] [] [] -> omap stk (metas s) ++ map snd (free_stacks s) ≡ₚ seq 0 (nstacks s).
Proof.
  intros HI. apply (Permutation_count_occ Nat.eq_dec). intros k. change (cocc (omap stk (metas s) ++ map snd (free_stacks s)) k = cocc (seq 0 (nstacks s)) k). rewrite cocc_app, stk_holds. pose proof (i_stack _ _ _ _ _ _ HI k) as E. unfold stacks in E. change (cocc [] k) with 0%nat in E. rewrite Nat.add_0_r in E. rewrite E. destruct (Nat.ltb_spec k (nstacks s)) as [H|H].
  - symmetry. apply (proj1 (NoDup_count_occ' Nat.eq_dec _) (seq_NoDup _ _) k). apply in_seq. lia.
  - symmetry. apply (proj1 (count_occ_not_In Nat.eq_dec _ k)). rewrite in_seq. lia.
Qed.
(** C9: The data of the scheduler are well formed.  Versions are never 0.  Every stack
    that has been allocated belongs to exactly one bthread or is in the pool of its own
    type, and the stack of a bthread is of the type that the bthread asks for.  A worker
    is on the stack of the bthread it runs, its own if and only if that is of type PTHREAD;
    a bthread that is queued or sleeps has no stack as long as it has not run, and
    then an allocated one: what runs on the worker's own stack is never switched away
    from. *)
Theorem scheduler_typed n np s : Z.of_nat n < 2 ^ 32 -> reachable n np s ->
  (forall x m, metas s !! x = Some m -> 0 < version m < 2 ^ 32) /\ omap stk (metas s) ++ map snd (free_stacks s) ≡ₚ seq 0 (nstacks s) /\
  (forall f k, (f, k) ∈ free_stacks s -> stack_types s !! k = Some f) /\
  (forall x m k, metas s !! x = Some m -> stack m = Some (Stk k) -> stack_types s !! k = Some (stack_type m)) /\
  (forall g G, groups s !! g = Some G -> exists m, metas s !! cur G = Some m /\ stack m = Some (exec G) /\ (cur G <> g -> (exec G = MainStack g <-> stack_type m = STACK_TYPE_PTHREAD))) /\
  (forall x m, x ∈ map snd (timers s) \/ x ∈ waiting s \/ firing s = Some x \/ (exists t, queued s t /\ get_slot t = x) -> metas s !! x = Some m -> (context m = Fn /\ stack m = None) \/ (stack_type m <> STACK_TYPE_PTHREAD /\ exists k, stack m = Some (Stk k))).
Proof.
  intros Hn HR. destruct (tg_reachable_inv _ _ _ Hn HR) as [loc HI]. split_and!.
  - intros x m Hm. by apply (bounds _ _ _ _ _ _ _ _ HI Hm).
  - by eapply stacks_perm.
  - apply (reachable_typed _ _ _ HR).
  - apply (reachable_typed _ _ _ HR).
  - intros g G HG. destruct (decide (cur G = g)) as [E|Hc].
    + destruct (main_stack _ _ _ _ _ _ g HI (group_lt _ _ _ _ _ _ _ _ HI HG)) as (m & Hm & Es). destruct (i_group _ _ _ _ _ _ HI g G HG) as (_ & m1 & _ & Hok & _). unfold group_ok in Hok. rewrite (proj2 (Nat.eqb_eq _ _) E) in Hok. destruct Hok as [-> _]. exists m. by rewrite E.
    + destruct (cur_facts _ _ _ _ _ _ _ _ HI HG Hc) as (m & Hm & Es & Hty & _). exists m. split_and!; [done|done|]. intros _. destruct (exec G) as [h|k]; [destruct Hty as [-> ?]; tauto|]. split; [done|]. intros E. by destruct Hty.
  - intros x m Hx Hm. assert (suspended x m) as (Ha & H1 & H2).
    { assert (exists k, loc !! x = Some k /\ (k = LTimer \/ k = LWait \/ k = LReady)) as (k & Hk & Hc).
      { destruct Hx as [Hx|[Hx|[Hx|(t & Ht & <-)]]]; [exists LTimer|exists LWait|exists LReady|exists LReady; split; [by eapply queued_loc|auto]]; (split; [|auto]); eapply place_loc; try exact HI; try done; unfold place, rest; [apply elem_cocc in Hx; lia|apply elem_cocc in Hx; lia|rewrite Hx, is_refl; lia]. }
      destruct (i_slot _ _ _ _ _ _ HI x m k Hm Hk) as [Hl _]. destruct Hc as [ -> | [ -> | -> ]]; apply Hl. }
    destruct (decide (context m = Fn)) as [E|E]; [left; by destruct (H1 E)|right]. destruct (H2 E) as (k & Es & Hty). split; [done|by exists k].
Qed.
End Queues.


(** ** Runs *)

Definition okb {config : Config} (s : S) (c : call) : bool :=
  (Z.of_nat (length (metas s)) + 1 <? 2 ^ 32) && (Z.of_nat (length (log s)) + 2 <? 2 ^ 32) && match c with StartBg _ _ ty _ | StartFg _ _ ty _ _ | StartRemote _ _ ty _ => negb (ty =? STACK_TYPE_MAIN) | _ => true end.
Fixpoint run_ok {config : Config} (l : list call) (s : S) : option S := match l with [] => Some s | c :: l => if okb s c then match do_call s c with Ok s => run_ok l s | _ => None end else None end.
Lemma tg_run_ok_steps {config : Config} l s s' : run_ok l s = Some s' -> steps step s s'.
Proof.
  revert s. induction l as [|c l IH]; cbn [run_ok]; intros s; [intros [= <-]; constructor|]. destruct (okb s c) eqn:Eo; [|done]. destruct (do_call s c) as [s1| |] eqn:E; [|done|done]. intros H. eapply steps_app; [|by apply IH]. eapply steps_trans; [apply steps_refl|]. exists c. split; [|done].
  apply andb_prop in Eo as [[E1%Z.ltb_lt E2%Z.ltb_lt]%andb_prop E3]. split_and!; [done|done|]. destruct c; try done; by apply Z.eqb_neq, negb_true_iff.
Qed.
#[local] Instance sample_config : Config := { runqueue_capacity := 8; remote_capacity := 4; priority_capacity := 1; enable_priority_queue := true }.
Definition go_ (g : nat) : call := Go g Nothing NewStack true.
(** A bthread starts another one, sleeps until its timer fires, and ends behind it. *)
Definition sample_calls : list call :=
  [StartRemote 0 None 3 false; GoThread 0 0; Go 0 (Remote 0) NewStack true; go_ 0; go_ 0; StartFg 0 None 3 false NewStack; go_ 0; go_ 0; Usleep 0; go_ 0; go_ 0; go_ 0; go_ 0; Exit 0; go_ 0; go_ 0; go_ 0; go_ 0; Fire 0; FireReady 1; Go 1 (Remote 1) NewStack true; go_ 1; go_ 1; go_ 1].
Definition sample_end : S := default (init 0 0) (run_ok sample_calls (init 2 1)).
Lemma sample_reachable : reachable 2 1 sample_end.
Proof. apply (tg_run_ok_steps sample_calls). vm_compute. reflexivity. Qed.
Lemma scheduler_typed_witness : omap stk (metas sample_end) ++ map snd (free_stacks sample_end) ≡ₚ [0%nat; 1%nat] /\ nstacks sample_end = 2%nat.
Proof. destruct (scheduler_typed 2 1 sample_end eq_refl sample_reachable) as (_ & H & _). split; [exact H|vm_compute; reflexivity]. Defined.
Lemma usleep_full_witness : EFired 1 ∈ log sample_end.
Proof. apply (usleep_full 2 1 sample_end 1 eq_refl sample_reachable). refine (bool_decide_unpack _ _). vm_compute. exact I. Defined.
(** The worker that puts a bthread to sleep records the timer when it has been set:
    the timer can have fired and the bthread gone on by then.  If it waits in a butex
    meanwhile, [interrupt] finds both a waiter and a timer, and its CHECK fails. *)
Definition stale_calls : list call :=
  [StartRemote 0 None 3 false; GoThread 0 0; Go 0 (Remote 0) NewStack true; go_ 0; go_ 0; Usleep 0; go_ 0; go_ 0; Fire 0; FireReady 1; Go 1 (Remote 1) NewStack true; go_ 1; go_ 1; go_ 1].
Lemma stale_sleep_check : run (stale_calls ++ [go_ 0; Block 1; go_ 1; InterruptRemote 0 (make_tid 1 2); GoThread 0 0]) (init 2 1) = WaiterCheck.
Proof. vm_compute. reflexivity. Qed.
(** If it sleeps again, the old timer is recorded over the new one, and an
    interruption does not wake it. *)
Lemma stale_sleep_lost : match run (stale_calls ++ [Usleep 1; go_ 1; go_ 1; go_ 1; go_ 0; InterruptRemote 0 (make_tid 1 2); GoThread 0 0; GoThread 0 0]) (init 2 1) with
  | Ok s => threads s = [Idle] /\ interrupted <$> metas s !! 2%nat = Some true /\ timers s = [(2, 2%nat)] /\ rq <$> groups s = [[]; []] /\ remote_rq <$> groups s = [[]; []]
  | _ => False
  end.
Proof. vm_compute. done. Qed.
(** A bthread of high priority that starts another one in the foreground is dropped
    when the priority queue is full. *)
Lemma full_priority_queue_drops : match run [StartRemote 0 None 3 true; GoThread 0 0; Go 0 (Remote 0) NewStack true; go_ 0; go_ 0; StartFg 0 None 3 false NewStack; go_ 0; StartRemote 0 None 3 true; GoThread 0 1; Go 1 (Remote 1) NewStack true; go_ 1; go_ 1; StartFg 1 None 3 false NewStack; go_ 1] (init 2 1) with
  | Ok s => priority_queue s = [make_tid 1 2] /\ lost_slots (log s) = [4%nat]
  | _ => False
  end.
Proof. vm_compute. done. Qed.
End TG.
