(* ===== verification/Parking.v ===== *)
(** * How idle workers sleep and are woken (src/src-bthread/parking_lot.h)

    The workers of one tag, the search of a worker through the queues of all
    (task_control.cpp, task_group.h), the parking lots in which it sleeps when it has
    found nothing, and the signals of those who queue a task.  Any number of workers
    and of other threads; a step is one access to what they share, or one critical
    section.  Queues are the numbers of tasks in them: what the tasks do is in
    [TaskGroup], the steps of the queues in [WorkStealing] and [RemoteTaskQueue].
    Adding and removing workers is left out. *)
From S2P Require Import Prelude.

Module PK.

(** ** The order of a search (prime_offset.h, offset_inl.list) *)

Definition offsets : list Z := [
  36809; 36821; 36833; 36847; 36857; 36871; 36877; 36887; 36899; 36901; 36913; 36919; 36923; 36929; 36931; 36943;
  36947; 36973; 36979; 36997; 37003; 37013; 37019; 37021; 37039; 37049; 37057; 37061; 37087; 37097; 37117; 37123;
  37139; 37159; 37171; 37181; 37189; 37199; 37201; 37217; 37223; 37243; 37253; 37273; 37277; 37307; 37309; 37313;
  37321; 37337; 37339; 37357; 37361; 37363; 37369; 37379; 37397; 37409; 37423; 37441; 37447; 37463; 37483; 37489;
  37493; 37501; 37507; 37511; 37517; 37529; 37537; 37547; 37549; 37561; 37567; 37571; 37573; 37579; 37589; 37591;
  37607; 37619; 37633; 37643; 37649; 37657; 37663; 37691; 37693; 37699; 37717; 37747; 37781; 37783; 37799; 37811;
  37813; 37831; 37847; 37853; 37861; 37871; 37879; 37889; 37897; 37907; 37951; 37957; 37963; 37967; 37987; 37991;
  37993; 37997; 38011; 38039; 38047; 38053; 38069; 38083; 38113; 38119; 38149; 38153; 38167; 38177; 38183; 38189;
  38197; 38201; 38219; 38231; 38237; 38239; 38261; 38273; 38281; 38287; 38299; 38303; 38317; 38321; 38327; 38329;
  38333; 38351; 38371; 38377; 38393; 38431; 38447; 38449; 38453; 38459; 38461; 38501; 38543; 38557; 38561; 38567;
  38569; 38593; 38603; 38609; 38611; 38629; 38639; 38651; 38653; 38669; 38671; 38677; 38693; 38699; 38707; 38711;
  38713; 38723; 38729; 38737; 38747; 38749; 38767; 38783; 38791; 38803; 38821; 38833; 38839; 38851; 38861; 38867;
  38873; 38891; 38903; 38917; 38921; 38923; 38933; 38953; 38959; 38971; 38977; 38993; 39019; 39023; 39041; 39043;
  39047; 39079; 39089; 39097; 39103; 39107; 39113; 39119; 39133; 39139; 39157; 39161; 39163; 39181; 39191; 39199;
  39209; 39217; 39227; 39229; 39233; 39239; 39241; 39251; 39293; 39301; 39313; 39317; 39323; 39341; 39343; 39359;
  39367; 39371; 39373; 39383; 39397; 39409; 39419; 39439; 39443; 39451; 39461; 39499; 39503; 39509; 39511; 39521;
  39541; 39551; 39563; 39569; 39581; 39607; 39619; 39623; 39631; 39659; 39667; 39671; 39679; 39703; 39709; 39719;
  39727; 39733; 39749; 39761; 39769; 39779; 39791; 39799; 39821; 39827; 39829; 39839; 39841; 39847; 39857; 39863;
  39869; 39877; 39883; 39887; 39901; 39929; 39937; 39953; 39971; 39979; 39983; 39989; 40009; 40013; 40031; 40037;
  40039; 40063; 40087; 40093; 40099; 40111; 40123; 40127; 40129; 40151; 40153; 40163; 40169; 40177; 40189; 40193;
  40213; 40231; 40237; 40241; 40253; 40277; 40283; 40289; 40343; 40351; 40357; 40361; 40387; 40423; 40427; 40429;
  40433; 40459; 40471; 40483; 40487; 40493; 40499; 40507; 40519; 40529; 40531; 40543; 40559; 40577; 40583; 40591;
  40597; 40609; 40627; 40637; 40639; 40693; 40697; 40699; 40709; 40739; 40751; 40759; 40763; 40771; 40787; 40801;
  40813; 40819; 40823; 40829; 40841; 40847; 40849; 40853; 40867; 40879; 40883; 40897; 40903; 40927; 40933; 40939;
  40949; 40961; 40973; 40993; 41011; 41017; 41023; 41039; 41047; 41051; 41057; 41077; 41081; 41113; 41117; 41131;
  41141; 41143; 41149; 41161; 41177; 41179; 41183; 41189; 41201; 41203; 41213; 41221; 41227; 41231; 41233; 41243;
  41257; 41263; 41269; 41281; 41299; 41333; 41341; 41351; 41357; 41381; 41387; 41389; 41399; 41411; 41413; 41443;
  41453; 41467; 41479; 41491; 41507; 41513; 41519; 41521; 41539; 41543; 41549; 41579].
Definition prime_offset (seed : Z) : Z := nth (Z.to_nat (seed mod Z.of_nat (length offsets))) offsets 0.

(** ** Data *)

Record Lot := mkLot { _pending_signal : Z; _waiter_num : Z }.
Definition stopped (v : Z) : bool := negb (Z.land v 1 =? 0).
(** A call of [signal_task], at the lot [idx]; [left] lots are to be visited. *)
Inductive Stage := SAdd | SRead | SWake.
Record Sig := mkSig { num : nat; idx : nat; left : nat; stage : Stage }.
(** [ready_to_run] with and without BTHREAD_NOSIGNAL, and
    [ready_to_run_in_worker_ignoresignal]. *)
Inductive Push := Signal | NoSignal | Ignore.
(** A worker runs a bthread ([Busy]), maybe inside a call; looks for the next one
    (from [OwnRq] when its bthread is suspended, from [OwnRemote] in [wait_task]); or
    is in [ParkingLot::wait]. *)
Inductive PC :=
| Busy | PushRq (k : Push) | SigW (sg : Sig) (again : option Push)
| OwnRq | OwnRemote | GetState | Prio | GroupRq (i n : nat) (s : Z) | GroupRemote (i n : nat) (s : Z)
| Park | AddWaiter | Futex | Asleep | SubWaiter | Exited.
Record Group := mkGroup { rq : nat; _num_nosignal : nat; remote_rq : nat; _remote_num_nosignal : nat; _pl : nat; _steal_seed : Z; _steal_offset : Z; _last_pl_state : Z; pc : PC }.
(** Another thread: between calls, in [ready_to_run_remote], in [signal_task] (and
    then going on with the push that found the queue full), or in [stop_and_join]. *)
Inductive TPC := Idle | PushRemote (g : nat) (nosignal : bool) | SigT (sg : Sig) (again : option (nat * bool)) | StopOr (l : nat) | StopWake (l : nat).
Record S := mkS { prio : nat; ngroup : nat; lots : list Lot; groups : list Group; threads : list TPC }.

Class Config := { no_signal_when_no_waiter : bool; rq_capacity : nat; remote_capacity : nat; priority_capacity : nat }.

Definition set_prio (k : nat) (s : S) : S := mkS k (ngroup s) (lots s) (groups s) (threads s).
Definition set_lot (l : nat) (L : Lot) (s : S) : S := mkS (prio s) (ngroup s) (<[l := L]> (lots s)) (groups s) (threads s).
Definition set_group (g : nat) (G : Group) (s : S) : S := mkS (prio s) (ngroup s) (lots s) (<[g := G]> (groups s)) (threads s).
Definition set_thread (p : nat) (a : TPC) (s : S) : S := mkS (prio s) (ngroup s) (lots s) (groups s) (<[p := a]> (threads s)).
Definition with_pc (p : PC) (G : Group) : Group := mkGroup (rq G) (_num_nosignal G) (remote_rq G) (_remote_num_nosignal G) (_pl G) (_steal_seed G) (_steal_offset G) (_last_pl_state G) p.
Definition with_seed (z : Z) (G : Group) : Group := mkGroup (rq G) (_num_nosignal G) (remote_rq G) (_remote_num_nosignal G) (_pl G) z (_steal_offset G) (_last_pl_state G) (pc G).
Definition with_state (v : Z) (G : Group) : Group := mkGroup (rq G) (_num_nosignal G) (remote_rq G) (_remote_num_nosignal G) (_pl G) (_steal_seed G) (_steal_offset G) v (pc G).
Definition with_rq (k j : nat) (G : Group) : Group := mkGroup k j (remote_rq G) (_remote_num_nosignal G) (_pl G) (_steal_seed G) (_steal_offset G) (_last_pl_state G) (pc G).
Definition with_remote (k j : nat) (G : Group) : Group := mkGroup (rq G) (_num_nosignal G) k j (_pl G) (_steal_seed G) (_steal_offset G) (_last_pl_state G) (pc G).
Definition upd (g : nat) (f : Group -> Group) (s : S) : S := match groups s !! g with Some G => set_group g (f G) s | None => s end.
Definition set_pc (g : nat) (p : PC) (s : S) : S := upd g (with_pc p) s.

Section Parking.
Context {config : Config}.

(** ** Signals *)

(** Behind the futex. *)
Definition woken : PC := if no_signal_when_no_waiter then SubWaiter else OwnRemote.
Definition sleeps (l : nat) (G : Group) : bool := match pc G with Asleep => (_pl G =? l)%nat | _ => false end.
(** [futex_wake_private] of one worker, [w] if it sleeps there. *)
Definition futex_wake (s : S) (l w : nat) : nat * S :=
  match groups s !! w with
  | Some G => if sleeps l G then (1%nat, set_pc w woken s) else
      match list_find (fun G => sleeps l G = true) (groups s) with Some (g, _) => (1%nat, set_pc g woken s) | None => (0%nat, s) end
  | None => match list_find (fun G => sleeps l G = true) (groups s) with Some (g, _) => (1%nat, set_pc g woken s) | None => (0%nat, s) end
  end.
Definition wake_group (l : nat) (G : Group) : Group := if sleeps l G then with_pc woken G else G.
(** [signal_task] up to its loop; [start]: the hash of the thread. *)
Definition signal_task (s : S) (n start : nat) : option Sig :=
  if (n =? 0)%nat || (length (lots s) =? 0)%nat then None else Some (mkSig (Nat.min n 2) (start mod length (lots s)) (length (lots s)) SAdd).
(** The next turn of the loop, when [k] workers have been woken. *)
Definition next_lot (s : S) (sg : Sig) (k : nat) : option Sig :=
  if ((num sg - k =? 0) || (left sg - 1 =? 0))%nat then None
  else Some (mkSig (num sg - k) (if (Datatypes.S (idx sg) <? length (lots s))%nat then Datatypes.S (idx sg) else 0%nat) (left sg - 1) SAdd).
(** [ParkingLot::signal], step by step; [None]: [signal_task] is done. *)
Definition signal_step (s : S) (sg : Sig) (w : nat) : option Sig * S :=
  match lots s !! idx sg with
  | None => (next_lot s sg 0, s)
  | Some L =>
      match stage sg with
      | SAdd => (Some (mkSig (num sg) (idx sg) (left sg) (if no_signal_when_no_waiter then SRead else SWake)), set_lot (idx sg) (mkLot (i32 (_pending_signal L + 2)) (_waiter_num L)) s)
      | SRead => (if _waiter_num L =? 0 then next_lot s sg 0 else Some (mkSig (num sg) (idx sg) (left sg) SWake), s)
      | SWake => let r := futex_wake s (idx sg) w in (next_lot s sg r.1, r.2)
      end
  end.

(** ** Queueing *)

Definition sig_pc (o : option Sig) (again : option Push) : PC := match o with Some sg => SigW sg again | None => match again with Some k => PushRq k | None => Busy end end.
Definition push_rq (s : S) (g : nat) (G : Group) (k : Push) (start : nat) : S :=
  if (rq G <? rq_capacity)%nat then
    match k with
    | Signal => set_group g (with_pc (sig_pc (signal_task s (1 + _num_nosignal G) start) None) (with_rq (rq G + 1) 0 G)) s
    | NoSignal => set_group g (with_pc Busy (with_rq (rq G + 1) (_num_nosignal G + 1) G)) s
    | Ignore => set_group g (with_pc Busy (with_rq (rq G + 1) (_num_nosignal G) G)) s
    end
  else set_group g (with_pc (sig_pc (signal_task s (_num_nosignal G) start) (Some k)) (with_rq (rq G) 0 G)) s.
Definition flush_nosignal_tasks (s : S) (g : nat) (G : Group) (start : nat) : S := set_group g (with_pc (sig_pc (signal_task s (_num_nosignal G) start) None) (with_rq (rq G) 0 G)) s.
Definition push_priority_queue (s : S) : S := if (prio s <? priority_capacity)%nat then set_prio (prio s + 1) s else s.
Definition sig_tpc (o : option Sig) (again : option (nat * bool)) : TPC := match o with Some sg => SigT sg again | None => match again with Some (g, b) => PushRemote g b | None => Idle end end.
Definition ready_to_run_remote (s : S) (p g : nat) (nosignal : bool) (start : nat) : S :=
  match groups s !! g with
  | Some G =>
      if (remote_rq G <? remote_capacity)%nat then
        if nosignal then set_thread p Idle (set_group g (with_remote (remote_rq G + 1) (_remote_num_nosignal G + 1) G) s)
        else set_thread p (sig_tpc (signal_task s (1 + _remote_num_nosignal G) start) None) (set_group g (with_remote (remote_rq G + 1) 0 G) s)
      else set_thread p (sig_tpc (signal_task s (_remote_num_nosignal G) start) (Some (g, nosignal))) (set_group g (with_remote (remote_rq G) 0 G) s)
  | None => s
  end.
Definition flush_nosignal_tasks_remote (s : S) (p g : nat) (start : nat) : S :=
  match groups s !! g with
  | Some G => set_thread p (sig_tpc (signal_task s (_remote_num_nosignal G) start) None) (set_group g (with_remote (remote_rq G) 0 G) s)
  | None => s
  end.

(** ** Looking for a task *)

(** One access of [TaskGroup::steal_task] and [TaskControl::steal_task]. *)
Definition group_rq (s : S) (g i n : nat) (z : Z) : S :=
  if (i <? n)%nat then
    let h := Z.to_nat (z mod Z.of_nat n) in
    match groups s !! h with
    | Some H => if (rq H =? 0)%nat then set_pc g (GroupRemote i n z) s else upd g (fun G => with_pc Busy (with_seed z G)) (set_group h (with_rq (rq H - 1) (_num_nosignal H) H) s)
    | None => set_pc g (GroupRemote i n z) s
    end
  else upd g (fun G => with_pc Park (with_seed z G)) s.
Definition group_remote (s : S) (g i n : nat) (z : Z) (offset : Z) : S :=
  let h := Z.to_nat (z mod Z.of_nat n) in
  match groups s !! h with
  | Some H => if (remote_rq H =? 0)%nat then set_pc g (GroupRq (Datatypes.S i) n (u64 (z + offset))) s else upd g (fun G => with_pc Busy (with_seed z G)) (set_group h (with_remote (remote_rq H - 1) (_remote_num_nosignal H) H) s)
  | None => set_pc g (GroupRq (Datatypes.S i) n (u64 (z + offset))) s
  end.
Definition lot_of (s : S) (G : Group) : Lot := default (mkLot 0 0) (lots s !! _pl G).
(** [wait_task] and [ParkingLot::wait]. *)
Definition park (s : S) (g : nat) (G : Group) : S :=
  if stopped (_last_pl_state G) then set_pc g Exited s
  else if _pending_signal (lot_of s G) =? _last_pl_state G then set_pc g (if no_signal_when_no_waiter then AddWaiter else Futex) s else set_pc g OwnRemote s.
Definition add_waiter (d : Z) (s : S) (G : Group) : S := set_lot (_pl G) (mkLot (_pending_signal (lot_of s G)) (_waiter_num (lot_of s G) + d)) s.
Definition go (s : S) (g : nat) (G : Group) (w : nat) : S :=
  match pc G with
  | Busy | Asleep | Exited => s
  | PushRq k => push_rq s g G k w
  | SigW sg again => let r := signal_step s sg w in set_pc g (sig_pc r.1 again) r.2
  | OwnRq => if (rq G =? 0)%nat then set_pc g OwnRemote s else set_group g (with_pc Busy (with_rq (rq G - 1) (_num_nosignal G) G)) s
  | OwnRemote => if (remote_rq G =? 0)%nat then set_pc g GetState s else set_group g (with_pc Busy (with_remote (remote_rq G - 1) (_remote_num_nosignal G) G)) s
  | GetState => set_group g (with_pc Prio (with_state (_pending_signal (lot_of s G)) G)) s
  | Prio => if (prio s =? 0)%nat then set_pc g (if (ngroup s =? 0)%nat then Park else GroupRq 0 (ngroup s) (_steal_seed G)) s else set_pc g Busy (set_prio (prio s - 1) s)
  | GroupRq i n z => group_rq s g i n z
  | GroupRemote i n z => group_remote s g i n z (_steal_offset G)
  | Park => park s g G
  | AddWaiter => set_pc g Futex (add_waiter 1 s G)
  | Futex => set_pc g (if _pending_signal (lot_of s G) =? _last_pl_state G then Asleep else woken) s
  | SubWaiter => set_pc g OwnRemote (add_waiter (-1) s G)
  end.
Definition go_thread (s : S) (p : nat) (a : TPC) (w : nat) : S :=
  match a with
  | Idle => s
  | PushRemote g b => ready_to_run_remote s p g b w
  | SigT sg again => let r := signal_step s sg w in set_thread p (sig_tpc r.1 again) r.2
  | StopOr l =>
      match lots s !! l with
      | Some L => set_thread p (StopWake l) (set_lot l (mkLot (Z.lor (_pending_signal L) 1) (_waiter_num L)) s)
      | None => set_thread p Idle s
      end
  | StopWake l => set_thread p (StopOr (Datatypes.S l)) (mkS (prio s) (ngroup s) (lots s) (map (wake_group l) (groups s)) (threads s))
  end.

(** ** Calls *)

Inductive call :=
| ReadyToRun (g : nat) (k : Push) | Priority (g : nat) | Flush (g start : nat) | Suspend (g : nat)
| Remote (p g : nat) (nosignal : bool) | FlushRemote (p g start : nat) | Stop (p : nat)
| Go (g w : nat) | GoThread (p w : nat) | Spurious (g : nat).
Definition busy (s : S) (g : nat) (f : Group -> S) : S := match groups s !! g with Some G => match pc G with Busy => f G | _ => s end | None => s end.
Definition idle (s : S) (p : nat) (f : option S) : option S := match threads s !! p with Some Idle => f | _ => Some s end.
(** A call that does not fit what its thread does, does nothing; [None]: the CHECK of
    [choose_one_group] fails. *)
Definition do_call (s : S) (c : call) : option S :=
  match c with
  | ReadyToRun g k => Some (busy s g (fun _ => set_pc g (PushRq k) s))
  | Priority g => Some (busy s g (fun _ => push_priority_queue s))
  | Flush g start => Some (busy s g (fun G => flush_nosignal_tasks s g G start))
  | Suspend g => Some (busy s g (fun _ => set_pc g OwnRq s))
  | Remote p g b => idle s p (if (ngroup s =? 0)%nat then None else Some (if (g <? ngroup s)%nat then set_thread p (PushRemote g b) s else s))
  | FlushRemote p g start => idle s p (Some (flush_nosignal_tasks_remote s p g start))
  | Stop p => idle s p (Some (set_thread p (StopOr 0) (mkS (prio s) 0 (lots s) (groups s) (threads s))))
  | Go g w => Some (match groups s !! g with Some G => go s g G w | None => s end)
  | GoThread p w => Some (match threads s !! p with Some a => go_thread s p a w | None => s end)
  | Spurious g => Some (match groups s !! g with Some G => match pc G with Asleep => set_pc g woken s | _ => s end | None => s end)
  end.
(** One worker for each element of [ws]: the lot it is in, and its seed. *)
Definition init (nl np : nat) (ws : list (nat * Z)) : S :=
  mkS 0 (length ws) (replicate nl (mkLot 0 0)) (map (fun w => mkGroup 0 0 0 0 w.1 w.2 (prime_offset w.2) 0 Park) ws) (replicate np Idle).
Fixpoint run (l : list call) (s : S) : option S := match l with [] => Some s | c :: l => s ← do_call s c; run l s end.

(** ** The search visits every group *)

Lemma offsets_coprime : forallb (fun p => (0 <? p) && (p <? 2 ^ 32) && forallb (fun n => Z.gcd p (Z.of_nat n) =? 1) (seq 1 1024)) offsets = true.
Proof. vm_compute. reflexivity. Qed.
Lemma prime_offset_in seed : prime_offset seed ∈ offsets.
Proof.
  unfold prime_offset. apply list_elem_of_In, nth_In. assert (0 < Z.of_nat (length offsets)) as H by (vm_compute; done). pose proof (Z.mod_pos_bound seed _ H). lia.
Qed.
Lemma prime_offset_ok seed : 0 < prime_offset seed < 2 ^ 32 /\ forall n, (0 < n <= 1024)%nat -> Z.gcd (prime_offset seed) (Z.of_nat n) = 1.
Proof.
  pose proof offsets_coprime as H. rewrite forallb_forall in H. specialize (H _ (proj1 (list_elem_of_In _ _) (prime_offset_in seed))). apply andb_prop in H as [[H1%Z.ltb_lt H2%Z.ltb_lt]%andb_prop H3]. split; [done|]. intros n Hn. rewrite forallb_forall in H3. apply Z.eqb_eq, H3, in_seq. lia.
Qed.
Definition place (z off : Z) (n j : nat) : nat := Z.to_nat ((z + Z.of_nat j * off) mod Z.of_nat n).
Lemma place_lt z off n j : (0 < n)%nat -> (place z off n j < n)%nat.
Proof. intros Hn. unfold place. pose proof (Z.mod_pos_bound (z + Z.of_nat j * off) (Z.of_nat n) ltac:(lia)). lia. Qed.
Lemma round_inj z off n i j : (0 < n)%nat -> Z.gcd off (Z.of_nat n) = 1 -> (i < n)%nat -> (j < n)%nat -> place z off n i = place z off n j -> i = j.
Proof.
  intros Hn Hg Hi Hj E. unfold place in E. pose proof (Z.mod_pos_bound (z + Z.of_nat i * off) (Z.of_nat n) ltac:(lia)). pose proof (Z.mod_pos_bound (z + Z.of_nat j * off) (Z.of_nat n) ltac:(lia)).
  assert ((z + Z.of_nat i * off) mod Z.of_nat n = (z + Z.of_nat j * off) mod Z.of_nat n) as E' by lia. assert ((Z.of_nat n | off * (Z.of_nat i - Z.of_nat j))) as Hd.
  { apply Z.mod_divide; [lia|]. replace (off * (Z.of_nat i - Z.of_nat j)) with ((z + Z.of_nat i * off) - (z + Z.of_nat j * off)) by lia. rewrite Zminus_mod, E', Z.sub_diag. by apply Z.mod_0_l; lia. }
  apply Z.gauss in Hd; [|by rewrite Z.gcd_comm]. destruct Hd as [k Hk]. assert (k = 0) by nia. lia.
Qed.
(** Every group is visited by the first [n] turns. *)
Lemma place_perm z off n : (0 < n)%nat -> Z.gcd off (Z.of_nat n) = 1 -> map (place z off n) (seq 0 n) ≡ₚ seq 0 n.
Proof.
  intros Hn Hg. assert (NoDup (map (place z off n) (seq 0 n))) as Hnd.
  { apply NoDup_fmap_2_strong; [|apply NoDup_seq]. intros i j Hi%elem_of_seq Hj%elem_of_seq. by apply round_inj; lia. }
  assert (map (place z off n) (seq 0 n) ⊆+ seq 0 n) as Hsub by (apply NoDup_submseteq; [done|]; intros k (j & -> & _)%list_elem_of_fmap; apply elem_of_seq; pose proof (place_lt z off n j Hn); lia).
  apply submseteq_length_Permutation in Hsub; [done|by rewrite length_map].
Qed.
Lemma place_onto z off n h : (0 < n)%nat -> Z.gcd off (Z.of_nat n) = 1 -> (h < n)%nat -> exists j, (j < n)%nat /\ place z off n j = h.
Proof.
  intros Hn Hg Hh. assert (h ∈ map (place z off n) (seq 0 n)) as Hin by (rewrite place_perm by done; apply elem_of_seq; lia). apply list_elem_of_fmap in Hin as (j & -> & Hj%elem_of_seq). exists j. split; [lia|done].
Qed.
Lemma place_next z off n j : place (z + off) off n j = place z off n (Datatypes.S j).
Proof. unfold place. do 2 f_equal. lia. Qed.

(** ** The invariant *)

Inductive Q := QPrio | QRq (g : nat) | QRemote (g : nat).
#[export] Instance Q_eq_dec : EqDecision Q.
Proof. solve_decision. Defined.
Definition size (s : S) (q : Q) : nat := match q with QPrio => prio s | QRq g => default 0%nat (rq <$> groups s !! g) | QRemote g => default 0%nat (remote_rq <$> groups s !! g) end.
(** A worker that will go through all queues before it sleeps. *)
Definition fresh (p : PC) : bool := match p with Busy | PushRq _ | SigW _ _ | OwnRq | OwnRemote | GetState | Prio | SubWaiter => true | _ => false end.
Definition stale (s : S) (G : Group) : Prop := _pending_signal (lot_of s G) <> _last_pl_state G.
Definition ahead (G : Group) (q : Q) : Prop :=
  match pc G, q with
  | GroupRq i n z, (QRq h | QRemote h) => exists j, (i + j < n)%nat /\ place z (_steal_offset G) n j = h
  | GroupRemote i n z, QRq h => exists j, (0 < j)%nat /\ (i + j < n)%nat /\ place z (_steal_offset G) n j = h
  | GroupRemote i n z, QRemote h => exists j, (i + j < n)%nat /\ place z (_steal_offset G) n j = h
  | _, _ => False
  end.
(** A worker that will look into [q] before it sleeps. *)
Definition covers (s : S) (G : Group) (q : Q) : Prop := match pc G with Asleep | Exited => False | p => fresh p = true \/ stale s G \/ ahead G q end.
(** A signal on its way to the first lot with workers, or about to wake one. *)
Definition coming (s : S) (sg : Sig) : Prop :=
  (forall g G, groups s !! g = Some G -> exists j, (j < left sg)%nat /\ _pl G = ((idx sg + j) mod length (lots s))%nat) /\ (stage sg = SAdd \/ forall g G, groups s !! g = Some G -> _pl G = idx sg -> pc G = Asleep).
Definition unsignalled (s : S) (q : Q) : Prop := exists g G, q = QRemote g /\ groups s !! g = Some G /\ (0 < _remote_num_nosignal G)%nat.
Definition cov (s : S) (q : Q) : Prop := (exists g G, groups s !! g = Some G /\ covers s G q) \/ (exists p sg again, threads s !! p = Some (SigT sg again) /\ coming s sg) \/ unsignalled s q.
Definition J (s : S) : Prop := ngroup s <> 0%nat -> forall q, (0 < size s q)%nat -> cov s q.

Definition waits (l : nat) (G : Group) : nat := match pc G with Futex | Asleep | SubWaiter => b2n (_pl G =? l)%nat | _ => 0 end.
Definition group_ok (N nl : nat) (s : S) (G : Group) : Prop :=
  (_pl G < nl)%nat /\ (0 < _steal_offset G < 2 ^ 32 /\ Z.gcd (_steal_offset G) (Z.of_nat N) = 1) /\ 0 <= _steal_seed G /\ _last_pl_state G <= _pending_signal (lot_of s G) /\
  match pc G with
  | GroupRq i n z => n = N /\ (i <= n)%nat /\ 0 <= z /\ z + Z.of_nat (n - i) * _steal_offset G < 2 ^ 64
  | GroupRemote i n z => n = N /\ (i < n)%nat /\ 0 <= z /\ z + Z.of_nat (n - i) * _steal_offset G < 2 ^ 64
  | AddWaiter => stopped (_last_pl_state G) = false /\ no_signal_when_no_waiter = true
  | Futex | Asleep => stopped (_last_pl_state G) = false
  | SubWaiter => no_signal_when_no_waiter = true
  | _ => True
  end.
Definition sig_ok (nl : nat) (sg : Sig) : Prop := (0 < num sg)%nat /\ (idx sg < nl)%nat /\ (0 < left sg)%nat /\ (stage sg = SRead -> no_signal_when_no_waiter = true).
Definition thread_ok (nl : nat) (s : S) (a : TPC) : Prop := match a with SigT sg _ => sig_ok nl sg | StopOr _ | StopWake _ => ngroup s = 0%nat | _ => True end.
Record wf (N nl : nat) (s : S) : Prop := {
  w_len : length (groups s) = N /\ length (lots s) = nl /\ (ngroup s = N \/ ngroup s = 0%nat) /\ (0 < N <= 1024)%nat /\ (0 < nl)%nat;
  w_group : forall g G, groups s !! g = Some G -> group_ok N nl s G;
  w_lot : forall l L, lots s !! l = Some L -> 0 <= _pending_signal L < 2 ^ 31 /\ (no_signal_when_no_waiter = true -> _waiter_num L = Z.of_nat (sum_list_with (waits l) (groups s)));
  w_run : ngroup s <> 0%nat -> (forall g G, groups s !! g = Some G -> stopped (_last_pl_state G) = false /\ pc G <> Exited) /\ forall l L, lots s !! l = Some L -> stopped (_pending_signal L) = false;
  w_thread : forall p a, threads s !! p = Some a -> thread_ok nl s a;
  w_stop : forall l L g G, lots s !! l = Some L -> stopped (_pending_signal L) = true -> groups s !! g = Some G -> _pl G = l -> pc G = Asleep -> exists p, threads s !! p = Some (StopWake l);
}.
Definition ok (s : S) (c : call) : Prop :=
  (forall l L, lots s !! l = Some L -> _pending_signal L + 2 < 2 ^ 31) /\ (forall g G, groups s !! g = Some G -> _steal_seed G + Z.of_nat (length (groups s)) * _steal_offset G < 2 ^ 64).

Lemma group_ok_lots N nl s s' G : _pending_signal (lot_of s G) <= _pending_signal (lot_of s' G) -> group_ok N nl s G -> group_ok N nl s' G.
Proof. intros H (H1 & H2 & H3 & H4 & H5). split_and!; try done; try apply H2. lia. Qed.
Lemma lot_of_some N nl s g G : wf N nl s -> groups s !! g = Some G -> lots s !! _pl G = Some (lot_of s G).
Proof. intros HW HG. pose proof (proj1 (w_group _ _ _ HW g G HG)) as H. destruct (w_len _ _ _ HW) as (_ & <- & _). unfold lot_of. destruct (lots s !! _pl G) eqn:E; [done|]. apply lookup_ge_None in E. lia. Qed.
(** *** Keeping well-formedness *)

(** One group, the lots as they are. *)
Lemma wf_set_group N nl s g G G' : wf N nl s -> groups s !! g = Some G -> _pl G' = _pl G -> group_ok N nl s G' -> (no_signal_when_no_waiter = true -> forall l, waits l G' = waits l G) ->
  (ngroup s <> 0%nat -> stopped (_last_pl_state G') = false /\ pc G' <> Exited) -> (pc G' = Asleep -> pc G = Asleep \/ stopped (_pending_signal (lot_of s G)) = false) -> wf N nl (set_group g G' s).
Proof.
  intros HW HG Hpl Hok Hwt Hrun Hsl. pose proof (lookup_lt_Some _ _ _ HG) as Hlt. pose proof (lot_of_some _ _ _ _ _ HW HG) as HL. destruct HW as [W1 W2 W3 W4 W5 W6]. assert (forall h H, <[g := G']> (groups s) !! h = Some H -> (h = g /\ H = G') \/ (h <> g /\ groups s !! h = Some H)) as Hlk.
  { intros h H Hh. destruct (decide (h = g)) as [->|Hne]; [rewrite list_lookup_insert_eq in Hh by done; injection Hh as <-; by left|rewrite list_lookup_insert_ne in Hh by done; by right]. }
  split; cbn [groups lots ngroup threads set_group].
  - by rewrite length_insert.
  - intros h H [[-> ->]|[_ Hh]]%Hlk; [exact Hok|exact (W2 h H Hh)].
  - intros l L Hl. destruct (W3 l L Hl) as [H1 H2]. split; [done|]. intros Hf. rewrite (H2 Hf). pose proof (sum_insert (waits l) (groups s) g G G' HG). rewrite (Hwt Hf l) in *. lia.
  - intros Hn. destruct (W4 Hn) as [H1 H2]. split; [|done]. intros h H [[-> ->]|[_ Hh]]%Hlk; [by apply Hrun|by apply (H1 h)].
  - exact W5.
  - intros l L h H Hl Hst [[-> ->]|[_ Hh]]%Hlk Hp Ha; [|by eapply W6]. destruct (Hsl Ha) as [Hs|Hs]; [eapply W6; [exact Hl|done|exact HG|congruence|done]|]. assert (L = lot_of s G) as -> by congruence. congruence.
Qed.
(** What is in neither groups nor lots. *)
Lemma wf_rest N nl s s' : wf N nl s -> groups s' = groups s -> lots s' = lots s -> (ngroup s' = ngroup s \/ ngroup s' = 0%nat) -> (forall p a, threads s' !! p = Some a -> thread_ok nl s' a) -> (forall p l, threads s !! p = Some (StopWake l) -> exists p', threads s' !! p' = Some (StopWake l)) -> wf N nl s'.
Proof.
  intros [W1 W2 W3 W4 W5 W6] Eg El En Ht Hs. split; rewrite ?Eg, ?El.
  - destruct W1 as (H1 & H2 & H3 & H4). split_and!; try done; try apply H4. destruct En as [->| ->]; auto.
  - intros g G HG. eapply group_ok_lots; [|by eapply W2]. unfold lot_of. rewrite El. done.
  - exact W3.
  - intros Hn. apply W4. destruct En as [<-|]; done.
  - exact Ht.
  - intros l L g G H1 H2 H3 H4 H5. destruct (W6 l L g G H1 H2 H3 H4 H5) as [p Hp]. by apply (Hs p).
Qed.
Lemma wf_set_thread N nl s p a a' : wf N nl s -> threads s !! p = Some a -> (forall l, a <> StopWake l) -> thread_ok nl s a' -> wf N nl (set_thread p a' s).
Proof.
  intros HW Hp Ha Ha'. pose proof (lookup_lt_Some _ _ _ Hp) as Hlt. eapply wf_rest; [exact HW|done|done|by left| |].
  - intros q b Hq. cbn [threads set_thread] in Hq. destruct (decide (q = p)) as [->|Hne]; [rewrite list_lookup_insert_eq in Hq by done; injection Hq as <-; exact Ha'|]. rewrite list_lookup_insert_ne in Hq by done. exact (w_thread _ _ _ HW q b Hq).
  - intros q l Hq. exists q. cbn [threads set_thread]. rewrite list_lookup_insert_ne; [done|]. intros ->. apply (Ha l). congruence.
Qed.
(** The moves of a worker that stays awake. *)
Definition calm (p : PC) : Prop := match p with GroupRq _ _ _ | GroupRemote _ _ _ | AddWaiter | Futex | Asleep | Exited | SubWaiter => False | _ => True end.
Lemma wf_calm N nl s g G G' : wf N nl s -> groups s !! g = Some G -> _pl G' = _pl G -> _steal_offset G' = _steal_offset G -> _steal_seed G' = _steal_seed G -> _last_pl_state G' = _last_pl_state G -> calm (pc G) \/ (exists i n z, pc G = GroupRq i n z \/ pc G = GroupRemote i n z) -> calm (pc G') -> wf N nl (set_group g G' s).
Proof.
  intros HW HG H1 H2 H3 H4 Hc Hc'. destruct (w_group _ _ _ HW g G HG) as (A1 & A2 & A3 & A4 & A5). eapply wf_set_group; [exact HW|exact HG|exact H1| | | |].
  - unfold group_ok, lot_of. rewrite H1, H2, H3, H4. split_and!; try done; try apply A2. destruct (pc G'); done.
  - intros _ l. unfold waits. rewrite H1. destruct (pc G') eqn:E1; try done; destruct Hc as [Hc|(i & n & z & [E|E])]; rewrite ?E; try done; by destruct (pc G).
  - intros Hn. rewrite H4. split; [by apply (proj1 (w_run _ _ _ HW Hn) g G)|]. by destruct (pc G').
  - by destruct (pc G').
Qed.
Lemma wf_pc N nl s g G p : wf N nl s -> groups s !! g = Some G -> match p with GroupRq i n z => n = N /\ (i <= n)%nat /\ 0 <= z /\ z + Z.of_nat (n - i) * _steal_offset G < 2 ^ 64 | GroupRemote i n z => n = N /\ (i < n)%nat /\ 0 <= z /\ z + Z.of_nat (n - i) * _steal_offset G < 2 ^ 64 | AddWaiter => stopped (_last_pl_state G) = false /\ no_signal_when_no_waiter = true | Futex | Asleep => stopped (_last_pl_state G) = false | SubWaiter => no_signal_when_no_waiter = true | _ => True end ->
  (no_signal_when_no_waiter = true -> forall l, waits l (with_pc p G) = waits l G) -> (ngroup s <> 0%nat -> p <> Exited) -> (p = Asleep -> pc G = Asleep \/ stopped (_pending_signal (lot_of s G)) = false) -> wf N nl (set_pc g p s).
Proof.
  intros HW HG Hp Hw He Ha. unfold set_pc, upd. rewrite HG. destruct (w_group _ _ _ HW g G HG) as (A1 & A2 & A3 & A4 & _). eapply wf_set_group; [exact HW|exact HG|done| |exact Hw| |exact Ha].
  - split_and!; try done; apply A2.
  - intros Hn. split; [by apply (proj1 (w_run _ _ _ HW Hn) g G)|by apply He].
Qed.
Lemma sleeps_pc l G : sleeps l G = true -> pc G = Asleep /\ _pl G = l.
Proof. unfold sleeps. destruct (pc G); try done. by intros ->%Nat.eqb_eq. Qed.
Lemma wf_woken N nl s g G : wf N nl s -> groups s !! g = Some G -> pc G = Asleep \/ pc G = Futex -> wf N nl (set_pc g woken s).
Proof.
  intros HW HG Hp. eapply wf_pc; [exact HW|exact HG| | | |]; unfold woken; destruct no_signal_when_no_waiter eqn:Ef; try done. intros _ l. unfold waits. cbn [pc with_pc _pl]. by destruct Hp as [-> | ->].
Qed.
(** Some sleeping worker of the lot is woken if there is one. *)
Lemma futex_wake_cases s l w : (futex_wake s l w = (0%nat, s) /\ forall g G, groups s !! g = Some G -> sleeps l G = false) \/ exists g G, futex_wake s l w = (1%nat, set_pc g woken s) /\ groups s !! g = Some G /\ sleeps l G = true.
Proof.
  unfold futex_wake. assert ((match list_find (fun G => sleeps l G = true) (groups s) with Some (g, _) => (1%nat, set_pc g woken s) | None => (0%nat, s) end = (0%nat, s) /\ forall g G, groups s !! g = Some G -> sleeps l G = false) \/ exists g G, match list_find (fun G => sleeps l G = true) (groups s) with Some (g, _) => (1%nat, set_pc g woken s) | None => (0%nat, s) end = (1%nat, set_pc g woken s) /\ groups s !! g = Some G /\ sleeps l G = true) as H.
  { destruct (list_find _ _) as [[g G]|] eqn:E; [right; apply list_find_Some in E as (E1 & E2 & _); by exists g, G|left]. split; [done|]. intros g G HG. apply list_find_None in E. rewrite Forall_forall in E. destruct (sleeps l G) eqn:Es; [|done]. exfalso; apply (E G); [by eapply list_elem_of_lookup_2|exact Es]. }
  destruct (groups s !! w) as [G|] eqn:EG; [|exact H]. destruct (sleeps l G) eqn:Es; [|exact H]. right. by exists w, G.
Qed.
Lemma wf_wake N nl s l w : wf N nl s -> wf N nl (futex_wake s l w).2.
Proof.
  intros HW. destruct (futex_wake_cases s l w) as [[-> _]|(g & G & -> & HG & Hs)]; [done|]. cbn [snd]. eapply wf_woken; [exact HW|exact HG|]. left. by apply sleeps_pc in Hs as [Hs _].
Qed.
Lemma i32_add2 x : 0 <= x -> x + 2 < 2 ^ 31 -> i32 (x + 2) = x + 2.
Proof. intros H1 H2. apply i32_small. lia. Qed.
Lemma stopped_odd x : stopped x = Z.odd x.
Proof. unfold stopped. change (Z.land x 1) with (Z.land x (Z.ones 1)). rewrite Z.land_ones, Zodd_mod by lia. change (2 ^ 1) with 2. pose proof (Z.mod_pos_bound x 2 ltac:(lia)). destruct (Z.eqb_spec (x mod 2) 0), (Z.eqb_spec (x mod 2) 1); (lia || done). Qed.
Lemma stopped_add2 x : stopped (x + 2) = stopped x.
Proof. rewrite !stopped_odd. by rewrite Z.odd_add, xorb_false_r. Qed.
Lemma lot_of_set l L s G : (l < length (lots s))%nat -> lot_of (set_lot l L s) G = if decide (_pl G = l) then L else lot_of s G.
Proof. intros Hl. unfold lot_of. cbn [lots set_lot]. destruct (decide (_pl G = l)) as [->|Hne]; [by rewrite list_lookup_insert_eq|by rewrite list_lookup_insert_ne]. Qed.
Lemma wf_bump N nl s l L : wf N nl s -> lots s !! l = Some L -> _pending_signal L + 2 < 2 ^ 31 -> wf N nl (set_lot l (mkLot (i32 (_pending_signal L + 2)) (_waiter_num L)) s).
Proof.
  intros HW HL Hb. destruct (w_lot _ _ _ HW l L HL) as [[HL1 _] HL2]. rewrite i32_add2 by lia. pose proof (lookup_lt_Some _ _ _ HL) as Hlt.
  assert (forall k K, <[l := mkLot (_pending_signal L + 2) (_waiter_num L)]> (lots s) !! k = Some K -> (k = l /\ K = mkLot (_pending_signal L + 2) (_waiter_num L)) \/ (k <> l /\ lots s !! k = Some K)) as Hlk.
  { intros k K Hk. destruct (decide (k = l)) as [->|Hne]; [rewrite list_lookup_insert_eq in Hk by done; injection Hk as <-; by left|rewrite list_lookup_insert_ne in Hk by done; by right]. }
  destruct HW as [W1 W2 W3 W4 W5 W6]. split; cbn [groups lots ngroup threads set_lot].
  - by rewrite length_insert.
  - intros g G HG. eapply group_ok_lots; [|by apply (W2 g)]. rewrite lot_of_set by done. destruct (decide (_pl G = l)) as [E|]; [|done]. unfold lot_of. rewrite E, HL. cbn. lia.
  - intros k K [[-> ->]|[_ Hk]]%Hlk; [|by apply (W3 k)]. cbn [_pending_signal _waiter_num]. split; [lia|done].
  - intros Hn. destruct (W4 Hn) as [H1 H2]. split; [done|]. intros k K [[-> ->]|[_ Hk]]%Hlk; [cbn [_pending_signal]; rewrite stopped_add2|]; by eapply H2.
  - exact W5.
  - intros k K g G [[-> ->]|[_ Hk]]%Hlk Hs HG Hp Ha; [|by eapply W6]. cbn [_pending_signal] in Hs. rewrite stopped_add2 in Hs. by eapply W6.
Qed.
Lemma next_lot_ok s sg k nl : length (lots s) = nl -> sig_ok nl sg -> match next_lot s sg k with Some sg' => sig_ok nl sg' | None => True end.
Proof.
  intros Hl (H1 & H2 & H3 & _). unfold next_lot. destruct (Nat.eqb_spec (num sg - k) 0), (Nat.eqb_spec (left sg - 1) 0); cbn [orb]; try done. split_and!; cbn [num idx left stage]; [lia| |lia|done]. destruct (Nat.ltb_spec (Datatypes.S (idx sg)) (length (lots s))); lia.
Qed.
Lemma signal_step_wf N nl s sg w c : wf N nl s -> ok s c -> wf N nl (signal_step s sg w).2 /\ (sig_ok nl sg -> match (signal_step s sg w).1 with Some sg' => sig_ok nl sg' | None => True end).
Proof.
  intros HW [Hb _]. assert (length (lots s) = nl) as Hl by apply (w_len _ _ _ HW). unfold signal_step. destruct (lots s !! idx sg) as [L|] eqn:HL; [|split; [done|by apply next_lot_ok]]. destruct (stage sg).
  - cbn [fst snd]. split; [apply wf_bump; try done; by apply (Hb (idx sg))|]. intros (H1 & H2 & H3 & _). split_and!; try done. cbn [stage]. by destruct no_signal_when_no_waiter.
  - cbn [fst snd]. split; [done|]. intros H. destruct (_ =? 0); [by apply next_lot_ok|]. destruct H as (H1 & H2 & H3 & _). by split_and!.
  - cbn zeta. cbn [fst snd]. split; [by apply wf_wake|by apply next_lot_ok].
Qed.
Lemma signal_task_ok N nl s n start : wf N nl s -> match signal_task s n start with Some sg => sig_ok nl sg /\ left sg = nl /\ stage sg = SAdd | None => n = 0%nat end.
Proof.
  intros HW. destruct (w_len _ _ _ HW) as (_ & Hl & _ & _ & Hnl). unfold signal_task. rewrite Hl. destruct (Nat.eqb_spec n 0); [done|]. destruct (Nat.eqb_spec nl 0); [lia|]. cbn [orb]. split; [|done]. unfold sig_ok. cbn [num idx left]. cbn [stage]. pose proof (Nat.mod_upper_bound start nl ltac:(lia)). split_and!; try done; lia.
Qed.
Lemma signal_task_lots s s' n start : lots s' = lots s -> signal_task s' n start = signal_task s n start.
Proof. intros E. unfold signal_task. by rewrite E. Qed.
(** *** Every step *)

Lemma sig_pc_calm o again : calm (sig_pc o again).
Proof. destruct o; [done|]. by destruct again. Qed.
Lemma push_rq_wf N nl s g G k w : wf N nl s -> groups s !! g = Some G -> calm (pc G) -> wf N nl (push_rq s g G k w).
Proof. intros HW HG Hp. unfold push_rq. destruct (_ <? _)%nat; [destruct k|]; (eapply wf_calm; [exact HW|exact HG|done..|by left|try done; apply sig_pc_calm]). Qed.
(** A group whose queues have changed. *)
Lemma wf_queues N nl s g G G' : wf N nl s -> groups s !! g = Some G -> _pl G' = _pl G -> _steal_offset G' = _steal_offset G -> _steal_seed G' = _steal_seed G -> _last_pl_state G' = _last_pl_state G -> pc G' = pc G -> wf N nl (set_group g G' s).
Proof.
  intros HW HG H1 H2 H3 H4 H5. destruct (w_group _ _ _ HW g G HG) as (A1 & A2 & A3 & A4 & A5). eapply wf_set_group; [exact HW|exact HG|exact H1| | | |].
  - unfold group_ok, lot_of. rewrite H1, H2, H3, H4, H5. split_and!; try done; apply A2.
  - intros _ l. unfold waits. by rewrite H1, H5.
  - intros Hn. rewrite H4, H5. by apply (proj1 (w_run _ _ _ HW Hn) g G).
  - rewrite H5. by left.
Qed.
Lemma seed_bound N nl s g G i n z : wf N nl s -> groups s !! g = Some G -> pc G = GroupRq i n z \/ pc G = GroupRemote i n z -> n = N /\ (i <= n)%nat /\ 0 <= z /\ z + Z.of_nat (n - i) * _steal_offset G < 2 ^ 64.
Proof. intros HW HG Hp. destruct (w_group _ _ _ HW g G HG) as (_ & _ & _ & _ & A). destruct Hp as [Hp|Hp]; rewrite Hp in A; [done|]. destruct A as (H1 & H2 & H3). split_and!; try lia; apply H3. Qed.
(** A worker that has found a task, or nothing, sets its seed. *)
Lemma wf_found N nl s g G p i n z : wf N nl s -> groups s !! g = Some G -> pc G = GroupRq i n z \/ pc G = GroupRemote i n z -> p = Busy \/ p = Park -> wf N nl (set_group g (with_pc p (with_seed z G)) s).
Proof.
  intros HW HG Hp Hq. destruct (seed_bound _ _ _ _ _ _ _ _ HW HG Hp) as (_ & _ & Hz & _). destruct (w_group _ _ _ HW g G HG) as (A1 & A2 & A3 & A4 & A5). eapply wf_set_group; [exact HW|exact HG|done| | | |].
  - split_and!; try done; try apply A2. by destruct Hq as [-> | ->].
  - intros _ l. unfold waits. cbn [pc with_pc]. destruct Hp as [-> | ->], Hq as [-> | ->]; done.
  - intros Hn. split; [by apply (proj1 (w_run _ _ _ HW Hn) g G)|]. cbn [pc with_pc]. by destruct Hq as [-> | ->].
  - cbn [pc with_pc]. by destruct Hq as [-> | ->].
Qed.
(** The same behind the change of a queue. *)
Lemma wf_take N nl s g G h H H' i n z : wf N nl s -> groups s !! g = Some G -> pc G = GroupRq i n z \/ pc G = GroupRemote i n z -> groups s !! h = Some H -> _pl H' = _pl H -> _steal_offset H' = _steal_offset H -> _steal_seed H' = _steal_seed H -> _last_pl_state H' = _last_pl_state H -> pc H' = pc H ->
  wf N nl (upd g (fun G => with_pc Busy (with_seed z G)) (set_group h H' s)).
Proof.
  intros HW HG Hp HH E1 E2 E3 E4 E5. pose proof (wf_queues _ _ _ _ _ _ HW HH E1 E2 E3 E4 E5) as HW1. assert (exists G1, groups (set_group h H' s) !! g = Some G1 /\ pc G1 = pc G) as (G1 & HG1 & Ep).
  { cbn [groups set_group]. destruct (decide (g = h)) as [->|Hne]; [rewrite list_lookup_insert_eq by (by eapply lookup_lt_Some); exists H'; split; [done|congruence]|rewrite list_lookup_insert_ne by done; by exists G]. }
  unfold upd. rewrite HG1. eapply wf_found; [exact HW1|exact HG1|rewrite Ep; exact Hp|by left].
Qed.
Lemma u64_next z off k : 0 <= z -> 0 < off -> (0 < k)%nat -> z + Z.of_nat k * off < 2 ^ 64 -> u64 (z + off) = z + off.
Proof. intros Hz Ho Hk H. apply u64_small. unfold is_u64. nia. Qed.
Lemma group_rq_wf N nl s g G i n z : wf N nl s -> groups s !! g = Some G -> pc G = GroupRq i n z -> wf N nl (group_rq s g i n z).
Proof.
  intros HW HG Hp. destruct (seed_bound _ _ _ _ _ _ _ _ HW HG (or_introl Hp)) as (-> & Hi & Hz & Hb). unfold group_rq. destruct (Nat.ltb_spec i N) as [Hlt|Hge]; [|unfold upd; rewrite HG; eapply wf_found; [exact HW|exact HG|by left|by right]].
  cbn zeta. assert (wf N nl (set_pc g (GroupRemote i N z) s)) as H1. { eapply wf_pc; [exact HW|exact HG|done| |done|done]. intros _ l. unfold waits. by rewrite Hp. }
  destruct (groups s !! Z.to_nat (z mod Z.of_nat N)) as [H|] eqn:HH; [|exact H1]. destruct (rq H =? 0)%nat; [exact H1|]. eapply wf_take; [exact HW|exact HG|by left|exact HH|done..].
Qed.
Lemma group_remote_wf N nl s g G i n z : wf N nl s -> groups s !! g = Some G -> pc G = GroupRemote i n z -> wf N nl (group_remote s g i n z (_steal_offset G)).
Proof.
  intros HW HG Hp. pose proof (w_group _ _ _ HW g G HG) as (_ & (Ho & _) & _ & _ & A). rewrite Hp in A. destruct A as (-> & Hi & Hz & Hb). unfold group_remote. cbn zeta.
  assert (wf N nl (set_pc g (GroupRq (Datatypes.S i) N (u64 (z + _steal_offset G))) s)) as H1.
  { rewrite (u64_next _ _ (N - i)) by lia. eapply wf_pc; [exact HW|exact HG| | |done|done]; [|intros _ l; unfold waits; by rewrite Hp]. split_and!; [done|lia|lia|]. replace (Z.of_nat (N - i)) with (Z.of_nat (N - Datatypes.S i) + 1) in Hb by lia. lia. }
  destruct (groups s !! Z.to_nat (z mod Z.of_nat N)) as [H|] eqn:HH; [|exact H1]. destruct (remote_rq H =? 0)%nat; [exact H1|]. eapply wf_take; [exact HW|exact HG|by right|exact HH|done..].
Qed.
(** A worker that counts itself in or out of its lot. *)
Lemma wf_add_waiter N nl s g G d p : wf N nl s -> groups s !! g = Some G -> no_signal_when_no_waiter = true -> (d = 1 /\ pc G = AddWaiter /\ p = Futex) \/ (d = -1 /\ pc G = SubWaiter /\ p = OwnRemote) -> wf N nl (set_pc g p (add_waiter d s G)).
Proof.
  intros HW HG Hf Hd. pose proof (lookup_lt_Some _ _ _ HG) as Hlt. pose proof (lot_of_some _ _ _ _ _ HW HG) as HL. pose proof (lookup_lt_Some _ _ _ HL) as HlL. destruct (w_group _ _ _ HW g G HG) as (A1 & A2 & A3 & A4 & A5).
  unfold set_pc, upd, add_waiter. cbn [groups set_lot]. rewrite HG. set (L' := mkLot (_pending_signal (lot_of s G)) (_waiter_num (lot_of s G) + d)). set (G' := with_pc p G). destruct HW as [W1 W2 W3 W4 W5 W6].
  assert (forall h H, <[g := G']> (groups s) !! h = Some H -> (h = g /\ H = G') \/ (h <> g /\ groups s !! h = Some H)) as Hlk by (intros h H Hh; destruct (decide (h = g)) as [->|Hne]; [rewrite list_lookup_insert_eq in Hh by done; injection Hh as <-; by left|rewrite list_lookup_insert_ne in Hh by done; by right]).
  assert (forall k K, <[_pl G := L']> (lots s) !! k = Some K -> exists K0, lots s !! k = Some K0 /\ _pending_signal K = _pending_signal K0 /\ _waiter_num K = _waiter_num K0 + if (_pl G =? k)%nat then d else 0) as Hll.
  { intros k K Hk. destruct (Nat.eqb_spec (_pl G) k) as [<-|Hne]; [rewrite list_lookup_insert_eq in Hk by done; injection Hk as <-; by exists (lot_of s G)|rewrite list_lookup_insert_ne in Hk by done; exists K; split_and!; [done|done|lia]]. }
  assert (forall H, _pending_signal (lot_of (set_group g G' (set_lot (_pl G) L' s)) H) = _pending_signal (lot_of s H)) as Hpe.
  { intros H. change (lot_of (set_group g G' ?a) H) with (lot_of a H). rewrite lot_of_set by done. destruct (decide (_pl H = _pl G)) as [E|]; [|done]. unfold lot_of. by rewrite E, HL. }
  split; cbn [groups lots ngroup threads set_group set_lot].
  - by rewrite !length_insert.
  - intros h H [[-> ->]|[_ Hh]]%Hlk; [|eapply group_ok_lots; [|by apply (W2 h)]; by rewrite Hpe]. unfold group_ok. rewrite Hpe. split_and!; try done; try apply A2. destruct Hd as [(_ & Hp & ->)|(_ & _ & ->)]; [|done]. rewrite Hp in A5. by destruct A5.
  - intros k K (K0 & HK & -> & ->)%Hll. destruct (W3 k K0 HK) as [H1 H2]. split; [done|]. intros _. rewrite (H2 Hf). pose proof (sum_insert (waits k) (groups s) g G G' HG) as Es. pose proof (sum_lookup (waits k) _ _ _ HG) as Hle.
    assert (waits k G' = match p with Futex => b2n (_pl G =? k)%nat | _ => 0%nat end) as Ew by (by destruct Hd as [(_ & _ & ->)|(_ & _ & ->)]). assert (waits k G = match p with Futex => 0%nat | _ => b2n (_pl G =? k)%nat end) as Ew2 by (unfold waits; by destruct Hd as [(_ & -> & ->)|(_ & -> & ->)]).
    rewrite Ew, Ew2 in *. destruct Hd as [(-> & _ & ->)|(-> & _ & ->)], (_pl G =? k)%nat; cbn [b2n] in *; lia.
  - intros Hn. destruct (W4 Hn) as [H1 H2]. split; [intros h H [[-> ->]|[_ Hh]]%Hlk; [|by apply (H1 h)]; split; [by apply (H1 g G)|]; by destruct Hd as [(_ & _ & ->)|(_ & _ & ->)]|]. intros k K (K0 & HK & -> & _)%Hll. by apply (H2 k).
  - exact W5.
  - intros k K h H (K0 & HK & E & _)%Hll Hs [[-> ->]|[_ Hh]]%Hlk Hpl Ha; [by destruct Hd as [(_ & _ & ->)|(_ & _ & ->)]|]. rewrite E in Hs. by eapply W6.
Qed.
Lemma park_wf N nl s g G : wf N nl s -> groups s !! g = Some G -> pc G = Park -> wf N nl (park s g G).
Proof.
  intros HW HG Hp. assert (forall p, calm p -> wf N nl (set_pc g p s)) as Hc by (intros p Hcp; unfold set_pc, upd; rewrite HG; eapply wf_calm; try done; left; by rewrite Hp). unfold park. destruct (stopped _) eqn:Es.
  - eapply wf_pc; [exact HW|exact HG|done| | |done]; [intros _ l; unfold waits; by rewrite Hp|]. intros Hn. pose proof (proj1 (proj1 (w_run _ _ _ HW Hn) g G HG)). congruence.
  - destruct (_ =? _); [|by apply Hc]. destruct no_signal_when_no_waiter eqn:Ef; (eapply wf_pc; [exact HW|exact HG|done| |done|done]); [intros _ l; unfold waits; by rewrite Hp|by rewrite Ef].
Qed.
Lemma signal_step_pc s sg w g G : groups s !! g = Some G -> pc G <> Asleep -> groups (signal_step s sg w).2 !! g = Some G.
Proof.
  intros HG Hp. unfold signal_step. destruct (lots s !! idx sg) as [L|]; [|done]. destruct (stage sg); [done|done|]. cbn zeta. cbn [snd]. destruct (futex_wake_cases s (idx sg) w) as [[-> _]|(h & H & -> & HH & Hs)]; [done|]. cbn [snd]. apply sleeps_pc in Hs as [Hs _]. unfold set_pc, upd. rewrite HH. cbn [groups set_group]. rewrite list_lookup_insert_ne; [done|]. intros ->. congruence.
Qed.
Lemma go_wf N nl s g G w c : wf N nl s -> ok s c -> groups s !! g = Some G -> wf N nl (go s g G w).
Proof.
  intros HW Hok HG. assert (forall p, calm (pc G) -> calm p -> wf N nl (set_pc g p s)) as Hc by (intros p H1 H2; unfold set_pc, upd; rewrite HG; eapply wf_calm; try done; by left). unfold go. destruct (pc G) as [|k|sg again| | | | |i n z|i n z| | | | | |] eqn:Hp; try done.
  - apply push_rq_wf; try done. by rewrite Hp.
  - cbn zeta. destruct (signal_step_wf _ _ _ sg w c HW Hok) as [HW1 _]. pose proof (signal_step_pc s sg w g G HG ltac:(by rewrite Hp)) as HG1. unfold set_pc, upd. rewrite HG1. eapply wf_calm; [exact HW1|exact HG1|done..|left; by rewrite Hp|apply sig_pc_calm].
  - destruct (_ =? 0)%nat; [by apply Hc|]. eapply wf_calm; [exact HW|exact HG|done..|left; by rewrite Hp|done].
  - destruct (_ =? 0)%nat; [by apply Hc|]. eapply wf_calm; [exact HW|exact HG|done..|left; by rewrite Hp|done].
  - pose proof (lot_of_some _ _ _ _ _ HW HG) as HL. destruct (w_group _ _ _ HW g G HG) as (A1 & A2 & A3 & _). eapply wf_set_group; [exact HW|exact HG|done| | | |done].
    + split_and!; try done; apply A2.
    + intros _ l. unfold waits. cbn [pc with_pc with_state]. by rewrite Hp.
    + intros Hn. split; [|done]. cbn. by apply (proj2 (w_run _ _ _ HW Hn) (_pl G)).
  - destruct (prio s =? 0)%nat.
    + destruct (w_len _ _ _ HW) as (E1 & _ & En & _). destruct (w_group _ _ _ HW g G HG) as (_ & _ & A3 & _). destruct Hok as [_ Hs]. specialize (Hs g G HG). rewrite E1 in Hs. eapply wf_pc; [exact HW|exact HG| | | |]; destruct (Nat.eqb_spec (ngroup s) 0) as [E|E]; try done.
      * assert (ngroup s = N) as -> by (destruct En; done). rewrite Nat.sub_0_r. split_and!; try done. lia.
      * intros _ l. unfold waits. by rewrite Hp.
      * intros _ l. unfold waits. by rewrite Hp.
    + assert (wf N nl (set_prio (prio s - 1) s)) as HW1 by (eapply wf_rest; [exact HW|done|done|by left| |eauto]; exact (w_thread _ _ _ HW)). unfold set_pc, upd. cbn [groups set_prio]. rewrite HG. eapply wf_calm; [exact HW1|exact HG|done..|left; by rewrite Hp|done].
  - by eapply group_rq_wf.
  - by eapply group_remote_wf.
  - by eapply park_wf.
  - pose proof (w_group _ _ _ HW g G HG) as (_ & _ & _ & _ & A). rewrite Hp in A. eapply wf_add_waiter; try done; [by destruct A|by left].
  - pose proof (w_group _ _ _ HW g G HG) as (_ & _ & _ & _ & A). rewrite Hp in A. destruct (Z.eqb_spec (_pending_signal (lot_of s G)) (_last_pl_state G)) as [E|E]; [|eapply wf_woken; [exact HW|exact HG|by right]]. eapply wf_pc; [exact HW|exact HG|done| |done|]; [intros _ l; unfold waits; by rewrite Hp|]. intros _. right. by rewrite E.
  - pose proof (w_group _ _ _ HW g G HG) as (_ & _ & _ & _ & A). rewrite Hp in A. eapply wf_add_waiter; try done; by right.
Qed.
Lemma sig_tpc_ok nl s o again : (match o with Some sg => sig_ok nl sg | None => True end) -> thread_ok nl s (sig_tpc o again).
Proof. destruct o as [sg|]; [done|]. by destruct again as [[g b]|]. Qed.
Lemma remote_wf N nl s g G k j : wf N nl s -> groups s !! g = Some G -> wf N nl (set_group g (with_remote k j G) s).
Proof. intros HW HG. by eapply wf_queues. Qed.
Lemma go_thread_wf N nl s p a w c : wf N nl s -> ok s c -> threads s !! p = Some a -> wf N nl (go_thread s p a w).
Proof.
  intros HW Hok Hp. assert (forall s' a', wf N nl s' -> threads s' = threads s -> ngroup s' = ngroup s -> (forall l, a <> StopWake l) -> thread_ok nl s' a' -> wf N nl (set_thread p a' s')) as Ht by (intros s' a' H1 H2 H3 H4 H5; eapply wf_set_thread; [exact H1|by rewrite H2|exact H4|exact H5]).
  assert (forall s' n again, wf N nl s' -> thread_ok nl s' (sig_tpc (signal_task s n w) again)) as Hsig. { intros s' n again H. apply (sig_tpc_ok nl). pose proof (signal_task_ok _ _ s n w HW) as H1. destruct (signal_task s n w); [apply H1|done]. }
  destruct a as [|g b|sg again|l|l]; cbn [go_thread]; try done.
  - unfold ready_to_run_remote. destruct (groups s !! g) as [G|] eqn:HG; [|done]. destruct (_ <? _)%nat; [destruct b|]; (apply Ht; [by apply remote_wf|done|done|done|try done; apply Hsig; by apply remote_wf]).
  - cbn zeta. destruct (signal_step_wf _ _ _ sg w c HW Hok) as [HW1 Hsg]. pose proof (w_thread _ _ _ HW p _ Hp) as Hs. cbn [thread_ok] in Hs. assert (threads (signal_step s sg w).2 = threads s /\ ngroup (signal_step s sg w).2 = ngroup s) as [E1 E2].
    { unfold signal_step. destruct (lots s !! idx sg) as [L|]; [|done]. destruct (stage sg); [done|done|]. cbn zeta. cbn [snd]. destruct (futex_wake_cases s (idx sg) w) as [[-> _]|(h & H & -> & HH & _)]; [done|]. cbn [snd]. unfold set_pc, upd. by rewrite HH. }
    apply Ht; try done. apply (sig_tpc_ok nl). by apply Hsg.
  - pose proof (w_thread _ _ _ HW p _ Hp) as Hn. cbn [thread_ok] in Hn. destruct (lots s !! l) as [L|] eqn:HL; [|by apply Ht].
    destruct (w_lot _ _ _ HW l L HL) as [[HL1 HL2] HL3]. pose proof (lookup_lt_Some _ _ _ HL) as HlL. pose proof (lookup_lt_Some _ _ _ Hp) as Hlp. assert (0 <= Z.lor (_pending_signal L) 1 < 2 ^ 31 /\ _pending_signal L <= Z.lor (_pending_signal L) 1) as [Hr1 Hr2].
    { pose proof (Z.add_lor_land (_pending_signal L) 1) as H. change (Z.land (_pending_signal L) 1) with (Z.land (_pending_signal L) (Z.ones 1)) in H. rewrite Z.land_ones in H by lia. change (2 ^ 1) with 2 in H. pose proof (Z.div_mod (_pending_signal L) 2 ltac:(lia)). pose proof (Z.mod_pos_bound (_pending_signal L) 2 ltac:(lia)). lia. }
    set (L' := mkLot (Z.lor (_pending_signal L) 1) (_waiter_num L)).
    assert (forall k K, <[l := L']> (lots s) !! k = Some K -> (k = l /\ K = L') \/ (k <> l /\ lots s !! k = Some K)) as Hlk by (intros k K Hk; destruct (decide (k = l)) as [->|Hne]; [rewrite list_lookup_insert_eq in Hk by done; injection Hk as <-; by left|rewrite list_lookup_insert_ne in Hk by done; by right]).
    destruct HW as [W1 W2 W3 W4 W5 W6]. split; cbn [groups lots ngroup threads set_thread set_lot].
    + by rewrite length_insert.
    + intros g G HG. eapply group_ok_lots; [|by apply (W2 g)]. change (lot_of (set_thread p (StopWake l) ?a) G) with (lot_of a G). rewrite lot_of_set by done. destruct (decide (_pl G = l)) as [E|]; [|done]. unfold lot_of. rewrite E, HL. done.
    + intros k K [[-> ->]|[_ Hk]]%Hlk; [|by apply (W3 k)]. by split.
    + intros Hne. congruence.
    + intros q a Hq. destruct (decide (q = p)) as [->|Hne]; [rewrite list_lookup_insert_eq in Hq by done; injection Hq as <-; exact Hn|]. rewrite list_lookup_insert_ne in Hq by done. exact (W5 q a Hq).
    + intros k K g G [[-> ->]|[_ Hk]]%Hlk Hs HG Hpl Ha; [exists p; by apply list_lookup_insert_eq|]. destruct (W6 k K g G Hk Hs HG Hpl Ha) as [q Hq]. exists q. rewrite list_lookup_insert_ne; [done|]. intros ->. congruence.
  - pose proof (w_thread _ _ _ HW p _ Hp) as Hn. cbn [thread_ok] in Hn. pose proof (lookup_lt_Some _ _ _ Hp) as Hlp. assert (forall g G, map (wake_group l) (groups s) !! g = Some G -> exists G0, groups s !! g = Some G0 /\ G = wake_group l G0) as Hgk by (intros g G HG; apply list_lookup_fmap_Some in HG as (G0 & -> & HG); by exists G0).
    assert (forall k G, no_signal_when_no_waiter = true -> waits k (wake_group l G) = waits k G) as Hwt. { intros k G Hf. unfold wake_group. destruct (sleeps l G) eqn:Es; [|done]. apply sleeps_pc in Es as [Es _]. unfold waits, woken. rewrite Hf. cbn [pc with_pc _pl]. by rewrite Es. }
    destruct HW as [W1 W2 W3 W4 W5 W6]. split; cbn [groups lots ngroup threads set_thread].
    + rewrite length_map. exact W1.
    + intros g G (G0 & HG & ->)%Hgk. pose proof (W2 g G0 HG) as (A1 & A2 & A3 & A4 & A5). unfold wake_group. destruct (sleeps l G0) eqn:Es; [|exact (W2 g G0 HG)]. split_and!; try done; try apply A2. cbn [pc with_pc]. unfold woken. by destruct no_signal_when_no_waiter.
    + intros k K HK. destruct (W3 k K HK) as [H1 H2]. split; [done|]. intros Hf. rewrite (H2 Hf). f_equal. clear -Hwt Hf. induction (groups s) as [|G gs IH]; [done|]. cbn [map sum_list_with]. by rewrite IH, Hwt.
    + intros Hne. congruence.
    + intros q a Hq. destruct (decide (q = p)) as [->|Hne]; [rewrite list_lookup_insert_eq in Hq by done; injection Hq as <-; exact Hn|]. rewrite list_lookup_insert_ne in Hq by done. exact (W5 q a Hq).
    + intros k K g G HK Hs (G0 & HG & ->)%Hgk Hpl Ha. unfold wake_group in *. destruct (sleeps l G0) eqn:Es; [exfalso; revert Ha; cbn [pc with_pc]; unfold woken; by destruct no_signal_when_no_waiter|]. destruct (W6 k K g G0 HK Hs HG Hpl Ha) as [q Hq]. exists q. rewrite list_lookup_insert_ne; [done|]. intros ->. assert (k = l) as -> by congruence. unfold sleeps in Es. rewrite Ha, Hpl, Nat.eqb_refl in Es. done.
Qed.
Lemma do_call_wf N nl s c s' : wf N nl s -> ok s c -> do_call s c = Some s' -> wf N nl s'.
Proof.
  intros HW Hok. assert (forall g f, (forall G, groups s !! g = Some G -> pc G = Busy -> wf N nl (f G)) -> wf N nl (busy s g f)) as Hb by (intros g f H; unfold busy; destruct (groups s !! g) as [G|] eqn:HG; [|done]; destruct (pc G) eqn:Hp; try done; by apply H).
  assert (forall p f, (threads s !! p = Some Idle -> f = Some s' -> wf N nl s') -> idle s p f = Some s' -> wf N nl s') as Hi by (intros p f H; unfold idle; destruct (threads s !! p) as [[]|] eqn:Hp; try (by intros [= <-]); by apply H).
  assert (forall p s1 a', threads s !! p = Some Idle -> wf N nl s1 -> threads s1 = threads s -> thread_ok nl s1 a' -> wf N nl (set_thread p a' s1)) as Ht by (intros p s1 a' H1 H2 H3 H4; eapply wf_set_thread; [exact H2|by rewrite H3|done|exact H4]).
  destruct c as [g k|g|g start|g|p g b|p g start|p|g w|p w|g]; cbn [do_call].
  - intros [= <-]. apply Hb. intros G HG Hp. unfold set_pc, upd. rewrite HG. eapply wf_calm; try done. left. by rewrite Hp.
  - intros [= <-]. apply Hb. intros G HG Hp. unfold push_priority_queue. destruct (_ <? _)%nat; [|done]. eapply wf_rest; [exact HW|done|done|by left| |eauto]. exact (w_thread _ _ _ HW).
  - intros [= <-]. apply Hb. intros G HG Hp. unfold flush_nosignal_tasks. eapply wf_calm; [exact HW|exact HG|done..|left; by rewrite Hp|apply sig_pc_calm].
  - intros [= <-]. apply Hb. intros G HG Hp. unfold set_pc, upd. rewrite HG. eapply wf_calm; try done. left. by rewrite Hp.
  - apply Hi. intros Hp. destruct (_ =? 0)%nat; [done|]. intros [= <-]. destruct (_ <? _)%nat; [|done]. by apply Ht.
  - apply Hi. intros Hp [= <-]. unfold flush_nosignal_tasks_remote. destruct (groups s !! g) as [G|] eqn:HG; [|done]. apply Ht; [done|by apply remote_wf|done|]. apply (sig_tpc_ok nl). pose proof (signal_task_ok _ _ s (_remote_num_nosignal G) start HW) as H1. destruct (signal_task s _ start); [apply H1|done].
  - apply Hi. intros Hp [= <-]. apply Ht; [done| |done|done]. eapply wf_rest; [exact HW|done|done|by right| |eauto]. cbn [threads]. intros q a Hq. pose proof (w_thread _ _ _ HW q a Hq) as H. destruct a; done.
  - intros [= <-]. destruct (groups s !! g) as [G|] eqn:HG; [|done]. by eapply go_wf.
  - intros [= <-]. destruct (threads s !! p) as [a|] eqn:Hp; [|done]. by eapply go_thread_wf.
  - intros [= <-]. destruct (groups s !! g) as [G|] eqn:HG; [|done]. destruct (pc G) eqn:Hp; try done. eapply wf_woken; [exact HW|exact HG|by left].
Qed.
Definition workers_ok (nl : nat) (ws : list (nat * Z)) : Prop := (0 < nl)%nat /\ (0 < length ws <= 1024)%nat /\ Forall (fun w => (w.1 < nl)%nat /\ is_u64 w.2) ws.
Lemma pk_init_groups nl np ws g G : groups (init nl np ws) !! g = Some G -> exists w, ws !! g = Some w /\ G = mkGroup 0 0 0 0 w.1 w.2 (prime_offset w.2) 0 Park.
Proof. cbn [groups init]. intros (w & -> & H)%list_lookup_fmap_Some. by exists w. Qed.
Lemma init_wf nl np ws : workers_ok nl ws -> wf (length ws) nl (init nl np ws).
Proof.
  intros (H1 & H2 & H3). assert (forall l L, lots (init nl np ws) !! l = Some L -> L = mkLot 0 0) as Hl by (intros l L [-> _]%lookup_replicate; done). split.
  - cbn [groups lots ngroup init]. rewrite length_map, length_replicate. split_and!; auto; apply H2.
  - intros g G (w & Hw & ->)%pk_init_groups. rewrite Forall_lookup in H3. destruct (H3 g w Hw) as [H4 H5]. destruct (prime_offset_ok w.2) as [H6 H7]. split_and!; try done; [apply H6|apply H6|by apply H7|apply H5|]. unfold lot_of. cbn [_pl _last_pl_state]. destruct (lots _ !! w.1) as [L|] eqn:E; [by rewrite (Hl _ _ E)|done].
  - intros l L ->%Hl. split; [done|]. intros _. cbn [groups init _waiter_num]. symmetry. change 0 with (Z.of_nat 0). f_equal. clear. induction ws as [|w ws IH]; [done|]. cbn [map sum_list_with]. by rewrite IH.
  - intros _. split; [by intros g G (w & _ & ->)%pk_init_groups|by intros l L ->%Hl].
  - by intros p a [-> _]%lookup_replicate.
  - by intros l L g G _ _ (w & _ & ->)%pk_init_groups.
Qed.
(** *** Nothing is left behind *)

Lemma cov_fresh s q g G : groups s !! g = Some G -> fresh (pc G) = true -> cov s q.
Proof. intros HG Hf. left. exists g, G. split; [done|]. unfold covers. destruct (pc G); try done; by left. Qed.
Lemma J_fresh s g G : groups s !! g = Some G -> fresh (pc G) = true -> J s.
Proof. intros HG Hf _ q _. by eapply cov_fresh. Qed.
Lemma J_set_group s g G G' : groups s !! g = Some G -> fresh (pc G') = true -> J (set_group g G' s).
Proof. intros HG Hf. eapply (J_fresh _ g G'); [|done]. cbn [groups set_group]. apply list_lookup_insert_eq. by eapply lookup_lt_Some. Qed.
Lemma J_set_pc s g G p : groups s !! g = Some G -> fresh p = true -> J (set_pc g p s).
Proof. intros HG Hf. unfold set_pc, upd. rewrite HG. by eapply J_set_group. Qed.
Lemma fresh_woken : fresh woken = true.
Proof. unfold woken. by destruct no_signal_when_no_waiter. Qed.
(** A worker that goes on with its search, or to sleep; nothing else changes but the
    number of waiters of its lot. *)
Definition same_queues (G G' : Group) : Prop := rq G' = rq G /\ remote_rq G' = remote_rq G /\ _remote_num_nosignal G' = _remote_num_nosignal G /\ _pl G' = _pl G.
Lemma J_move s s' g G G' : J s -> groups s !! g = Some G -> same_queues G G' -> pc G <> Asleep -> groups s' = <[g := G']> (groups s) -> prio s' = prio s -> ngroup s' = ngroup s -> threads s' = threads s -> length (lots s') = length (lots s) -> (forall H, _pending_signal (lot_of s' H) = _pending_signal (lot_of s H)) ->
  (ngroup s <> 0%nat -> forall q, (0 < size s q)%nat -> covers s G q -> covers s' G' q) -> J s'.
Proof.
  intros HJ HG (Q1 & Q2 & Q3 & Q4) Hna Eg Ep En Et Ell El Hc Hn q. assert (size s' q = size s q) as Es. { destruct q as [|h|h]; cbn [size]; [done| |]; rewrite Eg; destruct (decide (h = g)) as [->|Hne]; [rewrite list_lookup_insert_eq, HG by (by eapply lookup_lt_Some); cbn; congruence|by rewrite list_lookup_insert_ne|rewrite list_lookup_insert_eq, HG by (by eapply lookup_lt_Some); cbn; congruence|by rewrite list_lookup_insert_ne]. }
  rewrite Es. intros Hq. rewrite En in Hn. assert (forall h H, groups s' !! h = Some H -> (h = g /\ H = G') \/ (h <> g /\ groups s !! h = Some H)) as Hlk by (rewrite Eg; intros h H Hh; destruct (decide (h = g)) as [->|Hne]; [rewrite list_lookup_insert_eq in Hh by (by eapply lookup_lt_Some); injection Hh as <-; by left|rewrite list_lookup_insert_ne in Hh by done; by right]).
  destruct (HJ Hn q Hq) as [(h & H & HH & Hcv)|[(t & sg & again & Ht & [K1 K2])|(h & H & -> & HH & Hu)]].
  - left. destruct (decide (h = g)) as [->|Hne]; [exists g, G'; rewrite Eg, list_lookup_insert_eq by (by eapply lookup_lt_Some); split; [done|]; apply Hc; [done|done|congruence]|]. exists h, H. rewrite Eg, list_lookup_insert_ne by done. split; [done|]. revert Hcv. unfold covers, stale. rewrite El. done.
  - right. left. exists t, sg, again. rewrite Et. split; [done|]. split; [intros h H Hh; rewrite Ell; apply Hlk in Hh as [[-> ->]|[_ Hh]]; [rewrite Q4; exact (K1 g G HG)|exact (K1 h H Hh)]|]. destruct K2 as [K2|K2]; [by left|right]. intros h H [[-> ->]|[_ Hh]]%Hlk Hpl; [destruct Hna; apply (K2 g G); [done|congruence]|by apply (K2 h)].
  - right. right. destruct (decide (h = g)) as [->|Hne]; [exists g, G'|exists h, H]; rewrite Eg; [rewrite list_lookup_insert_eq by (by eapply lookup_lt_Some)|by rewrite list_lookup_insert_ne]. split_and!; [done|done|]. assert (H = G) as -> by congruence. by rewrite Q3.
Qed.
Lemma fresh_sig_pc o again : fresh (sig_pc o again) = true.
Proof. destruct o; [done|]. by destruct again. Qed.
Lemma J_upd s g G f : groups s !! g = Some G -> fresh (pc (f G)) = true -> J (upd g f s).
Proof. intros HG Hf. unfold upd. rewrite HG. by eapply J_set_group. Qed.
(** A move to [p], lots as they are. *)
Lemma J_pc s g G p : J s -> groups s !! g = Some G -> pc G <> Asleep -> (ngroup s <> 0%nat -> forall q, (0 < size s q)%nat -> covers s G q -> covers s (with_pc p G) q) -> J (set_pc g p s).
Proof. intros HJ HG Hna Hc. unfold set_pc, upd. rewrite HG. by eapply (J_move s _ g G (with_pc p G)). Qed.
Lemma size_lt s h : (0 < size s (QRq h))%nat \/ (0 < size s (QRemote h))%nat -> (h < length (groups s))%nat.
Proof. cbn [size]. destruct (groups s !! h) eqn:E; [intros _; by eapply lookup_lt_Some|]. cbn. lia. Qed.
Lemma take_fresh s g G h H H' z : groups s !! g = Some G -> groups s !! h = Some H -> J (upd g (fun G => with_pc Busy (with_seed z G)) (set_group h H' s)).
Proof.
  intros HG HH. destruct (decide (g = h)) as [->|Hne].
  - eapply (J_upd _ h H'); [|done]. cbn [groups set_group]. apply list_lookup_insert_eq. by eapply lookup_lt_Some.
  - eapply (J_upd _ g G); [|done]. cbn [groups set_group]. by rewrite list_lookup_insert_ne.
Qed.
Lemma group_rq_J N nl s g G i n z : wf N nl s -> J s -> groups s !! g = Some G -> pc G = GroupRq i n z -> J (group_rq s g i n z).
Proof.
  intros HW HJ HG Hp. unfold group_rq. destruct (Nat.ltb_spec i n) as [Hlt|Hge].
  - cbn zeta. set (h := Z.to_nat (z mod Z.of_nat n)). assert (place z (_steal_offset G) n 0 = h) as Eh by (unfold place, h; f_equal; f_equal; lia).
    assert (size s (QRq h) = 0%nat -> J (set_pc g (GroupRemote i n z) s)) as H1.
    { intros Hz. eapply J_pc; [exact HJ|exact HG|by rewrite Hp|]. intros _ q Hq. unfold covers. rewrite Hp. cbn [pc with_pc fresh]. intros [?|[?|Ha]]; [done|right; by left|right; right]. unfold ahead in *. rewrite Hp in Ha. cbn [pc with_pc _steal_offset]. destruct q as [|k|k]; [done| |exact Ha]. destruct Ha as (j & Hj & Ej). exists j. split_and!; [|done|done]. destruct j; [|lia]. subst k. rewrite Eh in Hq. lia. }
    destruct (groups s !! h) as [H|] eqn:HH; [|apply H1; cbn [size]; by rewrite HH]. destruct (Nat.eqb_spec (rq H) 0); [apply H1; cbn [size]; by rewrite HH|]. by eapply take_fresh.
  - unfold upd. rewrite HG. eapply (J_move s _ g G (with_pc Park (with_seed z G))); [exact HJ|exact HG|done|by rewrite Hp|done..|]. intros _ q Hq. unfold covers. rewrite Hp. cbn [pc with_pc fresh]. intros [?|[?|Ha]]; [done|right; by left|]. unfold ahead in Ha. rewrite Hp in Ha. destruct q as [|k|k]; [done| |]; destruct Ha as (j & Hj & _); lia.
Qed.
Lemma group_remote_J N nl s g G i n z : wf N nl s -> J s -> groups s !! g = Some G -> pc G = GroupRemote i n z -> J (group_remote s g i n z (_steal_offset G)).
Proof.
  intros HW HJ HG Hp. pose proof (w_group _ _ _ HW g G HG) as (_ & (Ho & _) & _ & _ & A). rewrite Hp in A. destruct A as (-> & Hi & Hz & Hb). unfold group_remote. cbn zeta. set (h := Z.to_nat (z mod Z.of_nat N)). assert (place z (_steal_offset G) N 0 = h) as Eh by (unfold place, h; f_equal; f_equal; lia).
  rewrite (u64_next _ _ (N - i)) by lia. assert (size s (QRemote h) = 0%nat -> J (set_pc g (GroupRq (Datatypes.S i) N (z + _steal_offset G)) s)) as H1.
  { intros Hr. eapply J_pc; [exact HJ|exact HG|by rewrite Hp|]. intros _ q Hq. unfold covers. rewrite Hp. cbn [pc with_pc fresh]. intros [?|[?|Ha]]; [done|right; by left|right; right]. unfold ahead in *. rewrite Hp in Ha. cbn [pc with_pc _steal_offset].
    destruct q as [|k|k]; [done| |].
    - destruct Ha as (j & Hj & Hij & Ej). exists (j - 1)%nat. rewrite place_next. replace (Datatypes.S (j - 1)) with j by lia. split; [lia|done].
    - destruct Ha as (j & Hij & Ej). destruct j as [|j]; [subst k; rewrite Eh in Hq; lia|]. exists j. rewrite place_next. split; [lia|done]. }
  destruct (groups s !! h) as [H|] eqn:HH; [|apply H1; cbn [size]; by rewrite HH]. destruct (Nat.eqb_spec (remote_rq H) 0); [apply H1; cbn [size]; by rewrite HH|]. by eapply take_fresh.
Qed.
Lemma go_J N nl s g G w : wf N nl s -> J s -> groups s !! g = Some G -> J (go s g G w).
Proof.
  intros HW HJ HG. pose proof (w_group _ _ _ HW g G HG) as (A1 & (Ho & Hg) & A3 & A4 & A). destruct (w_len _ _ _ HW) as (L1 & _ & L3 & L4 & _). unfold go. destruct (pc G) as [|k|sg again| | | | |i n z|i n z| | | | | |] eqn:Hp; try done.
  - unfold push_rq. destruct (_ <? _)%nat; [destruct k|]; (eapply J_set_group; [exact HG|try done; apply fresh_sig_pc]).
  - cbn zeta. eapply J_set_pc; [by apply signal_step_pc; [exact HG|rewrite Hp]|apply fresh_sig_pc].
  - destruct (_ =? 0)%nat; [by eapply J_set_pc|by eapply J_set_group].
  - destruct (_ =? 0)%nat; [by eapply J_set_pc|by eapply J_set_group].
  - by eapply J_set_group.
  - destruct (Nat.eqb_spec (prio s) 0) as [E|E]; [|by eapply (J_set_pc (set_prio (prio s - 1) s))]. eapply J_pc; [exact HJ|exact HG|by rewrite Hp|]. intros Hn q Hq _. destruct (Nat.eqb_spec (ngroup s) 0); [done|]. assert (ngroup s = N) as -> by (destruct L3; done). unfold covers. cbn [pc with_pc]. right. right. unfold ahead. cbn [pc with_pc _steal_offset].
    destruct q as [|h|h]; [cbn [size] in Hq; lia| |].
    + destruct (place_onto (_steal_seed G) (_steal_offset G) N h) as (j & Hj & Ej); [lia|done|rewrite <- L1; apply size_lt; by left|]. exists j. split; [lia|done].
    + destruct (place_onto (_steal_seed G) (_steal_offset G) N h) as (j & Hj & Ej); [lia|done|rewrite <- L1; apply size_lt; by right|]. exists j. split; [lia|done].
  - by eapply group_rq_J.
  - by eapply group_remote_J.
  - unfold park. destruct (stopped _) eqn:Es.
    + eapply J_pc; [exact HJ|exact HG|by rewrite Hp|]. intros Hn. pose proof (proj1 (proj1 (w_run _ _ _ HW Hn) g G HG)). congruence.
    + destruct (Z.eqb_spec (_pending_signal (lot_of s G)) (_last_pl_state G)) as [E|E]; [|by eapply J_set_pc]. eapply J_pc; [exact HJ|exact HG|by rewrite Hp|]. intros _ q Hq. unfold covers at 1. rewrite Hp. intros [?|[?|Ha]]; [done|done|]. unfold ahead in Ha. by rewrite Hp in Ha.
  - pose proof (lot_of_some _ _ _ _ _ HW HG) as HL. pose proof (lookup_lt_Some _ _ _ HL) as HlL. unfold set_pc, upd, add_waiter. cbn [groups set_lot]. rewrite HG.
    assert (forall H L, _pending_signal L = _pending_signal (lot_of s G) -> _pending_signal (lot_of (set_lot (_pl G) L s) H) = _pending_signal (lot_of s H)) as Hpe. { intros H L EL. rewrite lot_of_set by done. destruct (decide (_pl H = _pl G)) as [E|]; [|done]. rewrite EL. unfold lot_of. by rewrite E, HL. }
    eapply (J_move s _ g G (with_pc Futex G)); [exact HJ|exact HG|done|by rewrite Hp|done..| | |].
    + cbn [lots set_group set_lot]. by rewrite length_insert.
    + intros H. change (lot_of (set_group g ?b ?a) H) with (lot_of a H). by apply Hpe.
    + intros _ q Hq. unfold covers, stale. rewrite Hp. cbn [pc with_pc fresh]. change (lot_of (set_group g ?b ?a) ?c) with (lot_of a G). rewrite Hpe by done. intros [?|[?|Ha]]; [done|right; by left|]. unfold ahead in Ha. by rewrite Hp in Ha.
  - destruct (Z.eqb_spec (_pending_signal (lot_of s G)) (_last_pl_state G)) as [E|E]; [|eapply J_set_pc; [exact HG|apply fresh_woken]]. eapply J_pc; [exact HJ|exact HG|by rewrite Hp|]. intros _ q Hq. unfold covers at 1. rewrite Hp. intros [?|[?|Ha]]; [done|done|]. unfold ahead in Ha. by rewrite Hp in Ha.
  - eapply (J_set_pc (add_waiter (-1) s G)); [exact HG|done].
Qed.
Lemma J_coming s p sg again : threads s !! p = Some (SigT sg again) -> coming s sg -> J s.
Proof. intros Hp Hc _ q _. right. left. eauto. Qed.
Lemma coming_start N nl s s' n start sg : wf N nl s -> signal_task s n start = Some sg -> lots s' = lots s -> (forall g G, groups s' !! g = Some G -> (_pl G < nl)%nat) -> coming s' sg.
Proof.
  intros HW Hs El Hpl. pose proof (signal_task_ok _ _ s n start HW) as H. rewrite Hs in H. destruct H as ((_ & Hi & _ & _) & Hl & Hst). assert (length (lots s') = nl) as El' by (rewrite El; apply (w_len _ _ _ HW)). split; [|by left]. intros g G HG. rewrite Hl, El'. specialize (Hpl g G HG). exists ((_pl G + nl - idx sg) mod nl)%nat. split; [apply Nat.mod_upper_bound; lia|].
  rewrite Nat.Div0.add_mod_idemp_r. replace (idx sg + (_pl G + nl - idx sg))%nat with (_pl G + 1 * nl)%nat by lia. rewrite Nat.Div0.mod_add. by rewrite Nat.mod_small.
Qed.
(** What a queue's cover depends on. *)
Record same_cov (q : Q) (s s' : S) : Prop := {
  sc_groups : forall h H, groups s !! h = Some H -> exists H', groups s' !! h = Some H' /\ pc H' = pc H /\ _pl H' = _pl H /\ _last_pl_state H' = _last_pl_state H /\ _steal_offset H' = _steal_offset H /\ (q = QRemote h -> (0 < _remote_num_nosignal H)%nat -> (0 < _remote_num_nosignal H')%nat);
  sc_len : length (groups s') = length (groups s) /\ length (lots s') = length (lots s);
  sc_lots : forall H, _last_pl_state H <= _pending_signal (lot_of s H) -> _pending_signal (lot_of s H) <= _pending_signal (lot_of s' H);
  sc_lot_of : forall H H', _pl H' = _pl H -> lot_of s' H' = lot_of s' H;
}.
Lemma lot_of_pl s H H' : _pl H' = _pl H -> lot_of s H' = lot_of s H.
Proof. unfold lot_of. by intros ->. Qed.
Lemma same_back q s s' h H' : same_cov q s s' -> groups s' !! h = Some H' -> exists H, groups s !! h = Some H /\ pc H' = pc H /\ _pl H' = _pl H.
Proof.
  intros [S1 [S2 _] _ _] HH. destruct (groups s !! h) as [H|] eqn:E; [|apply lookup_lt_Some in HH; apply lookup_ge_None in E; lia]. destruct (S1 h H E) as (H1 & E1 & E2 & E3 & _). exists H. assert (H1 = H') as -> by congruence. done.
Qed.
Lemma coming_same q s s' sg : same_cov q s s' -> coming s sg -> coming s' sg.
Proof.
  intros HS [K1 K2]. split.
  - intros h H' HH. destruct (same_back _ _ _ _ _ HS HH) as (H & E & _ & ->). rewrite (proj2 (sc_len _ _ _ HS)). by apply (K1 h).
  - destruct K2 as [K2|K2]; [by left|right]. intros h H' HH Hpl. destruct (same_back _ _ _ _ _ HS HH) as (H & E & -> & Ep). apply (K2 h); [done|congruence].
Qed.
Lemma cov_same N nl q s s' : wf N nl s -> same_cov q s s' -> (forall p sg again, threads s !! p = Some (SigT sg again) -> coming s sg -> cov s' q \/ exists again', threads s' !! p = Some (SigT sg again')) -> cov s q -> cov s' q.
Proof.
  intros HW HS Ht [(h & H & HH & Hc)|[(p & sg & again & Hp & Hc)|(h & H & -> & HH & Hu)]].
  - left. destruct (sc_groups _ _ _ HS h H HH) as (H' & HH' & E1 & E2 & E3 & E4 & _). exists h, H'. split; [done|]. destruct (w_group _ _ _ HW h H HH) as (_ & _ & _ & Hle & _). unfold covers in *. rewrite E1. assert (stale s H -> stale s' H') as Hst. { unfold stale. rewrite E3, (sc_lot_of _ _ _ HS H H' E2). pose proof (sc_lots _ _ _ HS H Hle). lia. }
    assert (ahead H q -> ahead H' q) as Ha by (unfold ahead; by rewrite E1, E4). destruct (pc H); try done; (destruct Hc as [?|[?|?]]; [by left|right; left; by apply Hst|right; right; by apply Ha]).
  - destruct (Ht p sg again Hp Hc) as [|[again' Hp']]; [done|]. right. left. exists p, sg, again'. split; [done|]. by eapply coming_same.
  - right. right. destruct (sc_groups _ _ _ HS h H HH) as (H' & HH' & _ & _ & _ & _ & Hn). exists h, H'. split_and!; [done|done|by apply Hn].
Qed.
Lemma same_cov_refl q s s' : groups s' = groups s -> lots s' = lots s -> same_cov q s s'.
Proof.
  intros Eg El. split; rewrite ?Eg, ?El; try done; [intros h H HH; exists H; by split_and!| |]; intros; unfold lot_of; rewrite ?El; [done|congruence].
Qed.
(** One group whose queue of remote tasks has changed. *)
Lemma same_cov_remote q s p a g G k j : groups s !! g = Some G -> (q = QRemote g -> (0 < _remote_num_nosignal G)%nat -> (0 < j)%nat) -> same_cov q s (set_thread p a (set_group g (with_remote k j G) s)).
Proof.
  intros HG Hq. split; cbn [groups lots set_thread set_group].
  - intros h H HH. destruct (decide (h = g)) as [->|Hne]; [|rewrite list_lookup_insert_ne by done; exists H; by split_and!]. rewrite list_lookup_insert_eq by (by eapply lookup_lt_Some). assert (H = G) as -> by congruence. exists (with_remote k j G). by split_and!.
  - by rewrite length_insert.
  - done.
  - intros H H' E. by apply lot_of_pl.
Qed.
Lemma size_remote s p a g G k j q : groups s !! g = Some G -> q <> QRemote g \/ k = remote_rq G -> size (set_thread p a (set_group g (with_remote k j G) s)) q = size s q.
Proof.
  intros HG Hq. destruct q as [|h|h]; cbn [size prio groups set_thread set_group]; [done| |]; (destruct (decide (h = g)) as [->|Hne]; [rewrite list_lookup_insert_eq, HG by (by eapply lookup_lt_Some); cbn|by rewrite list_lookup_insert_ne]); [done|]. by destruct Hq as [?| ->].
Qed.
Lemma remote_pl N nl s p a g G k j : wf N nl s -> groups s !! g = Some G -> forall h H, groups (set_thread p a (set_group g (with_remote k j G) s)) !! h = Some H -> (_pl H < nl)%nat.
Proof. intros HW HG h H HH. cbn [groups set_thread set_group] in HH. destruct (decide (h = g)) as [->|Hne]; [rewrite list_lookup_insert_eq in HH by (by eapply lookup_lt_Some); injection HH as <-; exact (proj1 (w_group _ _ _ HW g G HG))|rewrite list_lookup_insert_ne in HH by done; exact (proj1 (w_group _ _ _ HW h H HH))]. Qed.
(** Setting back the count of tasks that have not been signalled, with a signal. *)
Lemma J_flush N nl s p a g G w again : wf N nl s -> J s -> threads s !! p = Some a -> (forall sg ag, a <> SigT sg ag) -> groups s !! g = Some G -> J (set_thread p (sig_tpc (signal_task s (_remote_num_nosignal G) w) again) (set_group g (with_remote (remote_rq G) 0 G) s)).
Proof.
  intros HW HJ Hp Ha HG. pose proof (lookup_lt_Some _ _ _ Hp) as Hlp. destruct (signal_task s (_remote_num_nosignal G) w) as [sg|] eqn:Es.
  - eapply (J_coming _ p sg again); [cbn; by apply list_lookup_insert_eq|]. eapply coming_start; [exact HW|exact Es|done|]. by eapply remote_pl.
  - intros Hn q. rewrite size_remote by auto. intros Hq. eapply cov_same; [exact HW| | |by apply HJ].
    + apply same_cov_remote; [done|]. intros _. pose proof (signal_task_ok _ _ s (_remote_num_nosignal G) w HW) as H. rewrite Es in H. lia.
    + intros t sg ag Ht _. right. exists ag. cbn [threads set_thread]. rewrite list_lookup_insert_ne; [done|]. intros ->. apply (Ha sg ag). cbn [threads set_group] in *. congruence.
Qed.
Lemma ready_to_run_remote_J N nl s p g b w : wf N nl s -> J s -> threads s !! p = Some (PushRemote g b) -> J (ready_to_run_remote s p g b w).
Proof.
  intros HW HJ Hp. unfold ready_to_run_remote. destruct (groups s !! g) as [G|] eqn:HG; [|done]. pose proof (lookup_lt_Some _ _ _ Hp) as Hlp. destruct (_ <? _)%nat; [|by eapply J_flush]. destruct b.
  - intros Hn q Hq. destruct (decide (q = QRemote g)) as [->|Hne].
    + right. right. eexists g, _. split_and!; [done|cbn; apply list_lookup_insert_eq; by eapply lookup_lt_Some|]. cbn. lia.
    + rewrite size_remote in Hq by auto. eapply cov_same; [exact HW|by apply same_cov_remote| |by apply HJ]. intros t sg ag Ht _. right. exists ag. cbn [threads set_thread]. rewrite list_lookup_insert_ne; [done|]. intros ->. cbn [threads set_group] in *. congruence.
  - pose proof (signal_task_ok _ _ s (1 + _remote_num_nosignal G) w HW) as H. destruct (signal_task s (1 + _remote_num_nosignal G) w) as [sg|] eqn:Es; [|lia]. eapply (J_coming _ p sg None); [cbn; by apply list_lookup_insert_eq|]. eapply coming_start; [exact HW|exact Es|done|]. by eapply remote_pl.
Qed.
(** *** The steps of a signal *)

Lemma coming_next N nl s sg : wf N nl s -> sig_ok nl sg -> coming s sg -> (forall g G, groups s !! g = Some G -> _pl G <> idx sg) -> exists sg', next_lot s sg 0 = Some sg' /\ coming s sg'.
Proof.
  intros HW (O1 & O2 & O3 & _) [K1 _] Hno. destruct (w_len _ _ _ HW) as (L1 & L2 & _ & L4 & L5). rewrite L2 in K1. destruct (groups s !! 0%nat) as [G0|] eqn:HG0; [|apply lookup_ge_None in HG0; lia]. unfold next_lot. rewrite L2, Nat.sub_0_r. rewrite (proj2 (Nat.eqb_neq (num sg) 0)) by lia. cbn [orb].
  assert (forall g G, groups s !! g = Some G -> exists j, (j < left sg - 1)%nat /\ _pl G = ((idx sg + Datatypes.S j) mod nl)%nat) as K. { intros g G HG. destruct (K1 g G HG) as (j & Hj & E). destruct j as [|j]; [destruct (Hno g G HG); rewrite E, Nat.add_0_r; by apply Nat.mod_small|]. exists j. split; [lia|done]. }
  destruct (K 0%nat G0 HG0) as (j0 & Hj0 & _). rewrite (proj2 (Nat.eqb_neq (left sg - 1) 0)) by lia. eexists. split; [done|]. split; [|by left]. intros g G HG. cbn [left idx]. rewrite L2. destruct (K g G HG) as (j & Hj & E). exists j. split; [done|]. rewrite E.
  destruct (Nat.ltb_spec (Datatypes.S (idx sg)) nl) as [H|H]; [f_equal; lia|]. replace (idx sg + Datatypes.S j)%nat with (j + 1 * nl)%nat by lia. by rewrite Nat.Div0.mod_add.
Qed.
Lemma waiter_none N nl s l L : wf N nl s -> no_signal_when_no_waiter = true -> lots s !! l = Some L -> _waiter_num L = 0 -> forall g G, groups s !! g = Some G -> _pl G = l -> pc G <> Asleep.
Proof.
  intros HW Hf HL Hz g G HG Hpl Ha. destruct (w_lot _ _ _ HW l L HL) as [_ Hw]. specialize (Hw Hf). pose proof (sum_lookup (waits l) _ _ _ HG) as Hle. unfold waits in Hle at 1. rewrite Ha, Hpl, Nat.eqb_refl in Hle. cbn [b2n] in Hle. lia.
Qed.
(** The thread of the signal goes on with the next lot. *)
Lemma J_next N nl s p sg again : wf N nl s -> J s -> threads s !! p = Some (SigT sg again) -> stage sg <> SAdd -> (forall g G, groups s !! g = Some G -> _pl G = idx sg -> pc G <> Asleep) -> J (set_thread p (sig_tpc (next_lot s sg 0) again) s).
Proof.
  intros HW HJ Hp Hst Hno Hn q Hq. pose proof (lookup_lt_Some _ _ _ Hp) as Hlp. eapply cov_same; [exact HW|by apply same_cov_refl| |by apply HJ]. intros t sg1 ag Ht Hc. cbn [threads set_thread]. destruct (decide (t = p)) as [->|Hne]; [left|right; exists ag; by rewrite list_lookup_insert_ne].
  assert (sg1 = sg /\ ag = again) as [-> ->] by (split; congruence). pose proof (w_thread _ _ _ HW p _ Hp) as Hok. cbn [thread_ok] in Hok. destruct (coming_next _ _ _ _ HW Hok Hc) as (sg' & E & Hc').
  { intros g G HG Hpl. destruct Hc as [_ [?|Hall]]; [done|]. by apply (Hno g G HG Hpl), (Hall g G). }
  rewrite E. right. left. exists p, sg', again. split; [cbn; by apply list_lookup_insert_eq|]. exact Hc'.
Qed.
Lemma awake_ex l (gs : list Group) : (exists g G, gs !! g = Some G /\ _pl G = l /\ pc G <> Asleep) \/ forall g G, gs !! g = Some G -> _pl G = l -> pc G = Asleep.
Proof.
  destruct (list_find (fun G => (_pl G =? l)%nat && negb (sleeps l G) = true) gs) as [[g G]|] eqn:E.
  - left. apply list_find_Some in E as (E1 & E2 & _). apply andb_prop in E2 as [E2%Nat.eqb_eq E3]. exists g, G. split_and!; [done|done|]. intros Ha. unfold sleeps in E3. rewrite Ha, E2, Nat.eqb_refl in E3. done.
  - right. intros g G HG Hpl. apply list_find_None in E. rewrite Forall_forall in E. specialize (E G (list_elem_of_lookup_2 _ _ _ HG)). unfold sleeps in E. rewrite Hpl, Nat.eqb_refl in E. destruct (pc G); try done; by destruct E.
Qed.
Lemma same_cov_bump N nl q s l L : wf N nl s -> lots s !! l = Some L -> _pending_signal L + 2 < 2 ^ 31 -> same_cov q s (set_lot l (mkLot (i32 (_pending_signal L + 2)) (_waiter_num L)) s).
Proof.
  intros HW HL Hb. pose proof (lookup_lt_Some _ _ _ HL) as HlL. destruct (w_lot _ _ _ HW l L HL) as [[H0 _] _]. split; cbn [groups lots set_lot].
  - intros h H HH. exists H. by split_and!.
  - split; [done|]. by rewrite length_insert.
  - intros H _. rewrite lot_of_set by done. destruct (decide (_pl H = l)) as [E|]; [|done]. unfold lot_of. rewrite E, HL. cbn [_pending_signal default]. rewrite i32_add2 by lia. cbn. lia.
  - intros H H' E. by apply lot_of_pl.
Qed.
Lemma signal_J N nl s p sg again w c : wf N nl s -> J s -> ok s c -> threads s !! p = Some (SigT sg again) -> J (set_thread p (sig_tpc (signal_step s sg w).1 again) (signal_step s sg w).2).
Proof.
  intros HW HJ [Hb _] Hp. pose proof (lookup_lt_Some _ _ _ Hp) as Hlp. pose proof (w_thread _ _ _ HW p _ Hp) as Hok. cbn [thread_ok] in Hok. unfold signal_step. destruct (lots s !! idx sg) as [L|] eqn:HL; [|exfalso; apply lookup_ge_None in HL; destruct (w_len _ _ _ HW) as (_ & L2 & _); destruct Hok as (_ & Ho & _); lia]. pose proof (lookup_lt_Some _ _ _ HL) as HlL.
  destruct (stage sg) eqn:Est; cbn zeta; cbn [fst snd].
  - set (s1 := set_lot (idx sg) (mkLot (i32 (_pending_signal L + 2)) (_waiter_num L)) s). set (sg1 := mkSig (num sg) (idx sg) (left sg) (if no_signal_when_no_waiter then SRead else SWake)). intros Hn q Hq.
    pose proof (same_cov_bump N nl q s _ L HW HL (Hb _ _ HL)) as HS. fold s1 in HS. assert (same_cov q s (set_thread p (SigT sg1 again) s1)) as HS1 by (destruct HS; by split). eapply cov_same; [exact HW|exact HS1| |by apply HJ].
    intros t sg0 ag Ht Hc. cbn [threads set_thread s1 set_lot sig_tpc]. destruct (decide (t = p)) as [->|Hne]; [left|right; exists ag; by rewrite list_lookup_insert_ne]. assert (sg0 = sg /\ ag = again) as [-> ->] by (split; congruence). destruct (awake_ex (idx sg) (groups s)) as [(g & G & HG & Hpl & Hna)|Hall].
    + left. exists g, G. split; [done|]. assert (stale (set_thread p (SigT sg1 again) s1) G) as Hs. { unfold stale. change (lot_of (set_thread p ?a ?b) G) with (lot_of b G). unfold s1. rewrite lot_of_set by done. rewrite decide_True by done. cbn [_pending_signal]. destruct (w_group _ _ _ HW g G HG) as (_ & _ & _ & Hle & _). unfold lot_of in Hle. rewrite Hpl, HL in Hle. cbn [default] in Hle. destruct (w_lot _ _ _ HW _ L HL) as [[H0 _] _]. rewrite i32_add2 by (done || by apply (Hb _ _ HL)). cbn in *. lia. }
      pose proof (proj2 (proj1 (w_run _ _ _ HW Hn) g G HG)) as Hne. unfold covers. destruct (pc G); try done; auto.
    + right. left. exists p, sg1, again. split; [cbn; by apply list_lookup_insert_eq|]. destruct (coming_same _ _ _ _ HS1 Hc) as [K1 _]. split; [exact K1|]. right. intros g G HG Hpl. by apply (Hall g G).
  - destruct (Z.eqb_spec (_waiter_num L) 0) as [Hz|Hz].
    + eapply J_next; [exact HW|exact HJ|exact Hp|by rewrite Est|]. eapply waiter_none; [exact HW|by apply Hok|exact HL|done].
    + intros Hn q Hq. eapply cov_same; [exact HW|by apply same_cov_refl| |by apply HJ]. intros t sg0 ag Ht Hc. cbn [threads set_thread sig_tpc]. destruct (decide (t = p)) as [->|Hne]; [left|right; exists ag; by rewrite list_lookup_insert_ne]. assert (sg0 = sg /\ ag = again) as [-> ->] by (split; congruence).
      right. left. eexists p, _, again. split; [cbn; by apply list_lookup_insert_eq|]. destruct Hc as [K1 [K2|K2]]; [congruence|]. split; [exact K1|by right].
  - destruct (futex_wake_cases s (idx sg) w) as [[-> Hno]|(g & G & -> & HG & Hs)]; cbn [fst snd].
    + eapply J_next; [exact HW|exact HJ|exact Hp|by rewrite Est|]. intros g G HG Hpl Ha. specialize (Hno g G HG). unfold sleeps in Hno. rewrite Ha, Hpl, Nat.eqb_refl in Hno. done.
    + eapply (J_fresh _ g (with_pc woken G)); [|apply fresh_woken]. cbn [groups set_thread]. unfold set_pc, upd. rewrite HG. cbn. apply list_lookup_insert_eq. by eapply lookup_lt_Some.
Qed.
Lemma J_stopped s : ngroup s = 0%nat -> J s.
Proof. intros E Hn. done. Qed.
Lemma do_call_J N nl s c s' : wf N nl s -> J s -> ok s c -> do_call s c = Some s' -> J s'.
Proof.
  intros HW HJ Hok. assert (forall g f, (forall G, groups s !! g = Some G -> J (f G)) -> J (busy s g f)) as Hb by (intros g f H; unfold busy; destruct (groups s !! g) as [G|] eqn:HG; [|done]; destruct (pc G) eqn:Hp; try done; by apply H).
  assert (forall p f, (threads s !! p = Some Idle -> f = Some s' -> J s') -> idle s p f = Some s' -> J s') as Hi by (intros p f H; unfold idle; destruct (threads s !! p) as [[]|] eqn:Hp; try (by intros [= <-]); by apply H).
  destruct c as [g k|g|g start|g|p g b|p g start|p|g w|p w|g]; cbn [do_call].
  - intros [= <-]. apply Hb. intros G HG. by eapply J_set_pc.
  - intros [= <-]. unfold busy. destruct (groups s !! g) as [G|] eqn:HG; [|done]. destruct (pc G) eqn:Hp; try done. unfold push_priority_queue. destruct (_ <? _)%nat; [|done]. eapply (J_fresh _ g G); [done|by rewrite Hp].
  - intros [= <-]. apply Hb. intros G HG. eapply J_set_group; [exact HG|apply fresh_sig_pc].
  - intros [= <-]. apply Hb. intros G HG. by eapply J_set_pc.
  - apply Hi. intros Hp. destruct (_ =? 0)%nat; [done|]. intros [= <-]. destruct (_ <? _)%nat; [|done]. intros Hn q Hq. eapply cov_same; [exact HW|by apply same_cov_refl| |by apply HJ]. intros t sg ag Ht _. right. exists ag. cbn [threads set_thread]. rewrite list_lookup_insert_ne; [done|]. intros ->. congruence.
  - apply Hi. intros Hp [= <-]. unfold flush_nosignal_tasks_remote. destruct (groups s !! g) as [G|] eqn:HG; [|done]. by eapply J_flush.
  - apply Hi. intros Hp [= <-]. by apply J_stopped.
  - intros [= <-]. destruct (groups s !! g) as [G|] eqn:HG; [|done]. by eapply go_J.
  - intros [= <-]. destruct (threads s !! p) as [a|] eqn:Hp; [|done]. destruct a as [|g b|sg again|l|l]; cbn [go_thread]; [done|by eapply ready_to_run_remote_J|cbn zeta; by eapply signal_J| |].
    + pose proof (w_thread _ _ _ HW p _ Hp) as Hn. cbn [thread_ok] in Hn. destruct (lots s !! l); by apply J_stopped.
    + pose proof (w_thread _ _ _ HW p _ Hp) as Hn. cbn [thread_ok] in Hn. by apply J_stopped.
  - intros [= <-]. destruct (groups s !! g) as [G|] eqn:HG; [|done]. destruct (pc G) eqn:Hp; try done. eapply J_set_pc; [exact HG|apply fresh_woken].
Qed.
Lemma init_J nl np ws : J (init nl np ws).
Proof. intros _ q Hq. exfalso. destruct q as [|h|h]; cbn [size prio init] in Hq; [lia| |]; (destruct (groups (init nl np ws) !! h) as [G|] eqn:HG; [apply pk_init_groups in HG as (w & _ & ->)|]; cbn in Hq; lia). Qed.
Definition step (s s' : S) : Prop := exists c, ok s c /\ do_call s c = Some s'.
Definition reachable (nl np : nat) (ws : list (nat * Z)) : S -> Prop := steps step (init nl np ws).
Lemma pk_reachable_inv nl np ws s : workers_ok nl ws -> reachable nl np ws s -> wf (length ws) nl s /\ J s.
Proof.
  intros Hws. apply (steps_invariant step (fun s => wf (length ws) nl s /\ J s)); [|split; [by apply init_wf|apply init_J]].
  intros a b [HW HJ] (c & Hc & E). split; [by eapply do_call_wf|by eapply do_call_J].
Qed.
(** *** The theorems *)

(** A thread that is at work: not idle, or a worker that does not sleep. *)
Definition at_work (s : S) : bool := existsb (fun G => match pc G with Asleep | Exited => false | _ => true end) (groups s) || existsb (fun a => match a with Idle => false | _ => true end) (threads s).
(** When a lot has been stopped and the workers in it have been woken, none of
    them sleeps any more, and one that is about to sleep does not. *)
Theorem stop_wakes_all nl np ws s l L : workers_ok nl ws -> reachable nl np ws s -> lots s !! l = Some L -> stopped (_pending_signal L) = true -> (forall p, threads s !! p <> Some (StopWake l)) ->
  forall g G, groups s !! g = Some G -> _pl G = l -> pc G <> Asleep /\ (pc G = Futex -> forall w, match groups (go s g G w) !! g with Some G' => pc G' <> Asleep | None => False end).
Proof.
  intros Hws HR HL Hst Hno g G HG Hpl. destruct (pk_reachable_inv _ _ _ _ Hws HR) as [HW _]. split.
  - intros Ha. destruct (w_stop _ _ _ HW l L g G HL Hst HG Hpl Ha) as [p Hp]. by apply (Hno p).
  - intros Hp w. pose proof (w_group _ _ _ HW g G HG) as (_ & _ & _ & _ & A). rewrite Hp in A. unfold go. rewrite Hp. assert (lot_of s G = L) as -> by (unfold lot_of; by rewrite Hpl, HL). destruct (Z.eqb_spec (_pending_signal L) (_last_pl_state G)) as [E|E]; [congruence|].
    unfold set_pc, upd. rewrite HG. cbn [groups set_group]. rewrite list_lookup_insert_eq by (by eapply lookup_lt_Some). cbn [pc with_pc]. unfold woken. by destruct no_signal_when_no_waiter.
Qed.
(** *** A search that nobody disturbs *)

(** [k] steps of the worker [g]. *)
Definition alone (g k : nat) (s : S) : S := Nat.iter k (fun s => match groups s !! g with Some G => go s g G 0 | None => s end) s.
(** The tasks in the queues of the groups. *)
Definition queued (G : Group) : nat := rq G + remote_rq G.
Definition tasks (s : S) : nat := sum_list_with queued (groups s).
Lemma alone_step g k s G : groups s !! g = Some G -> alone g (Datatypes.S k) s = alone g k (go s g G 0).
Proof. intros HG. unfold alone. rewrite Nat.iter_succ_r. by rewrite HG. Qed.
Lemma set_pc_at g p s G : groups s !! g = Some G -> groups (set_pc g p s) !! g = Some (with_pc p G).
Proof. intros HG. unfold set_pc, upd. rewrite HG. apply list_lookup_insert_eq. by eapply lookup_lt_Some. Qed.
Lemma set_pc_pc g p p' s : set_pc g p' (set_pc g p s) = set_pc g p' s.
Proof.
  unfold set_pc at 2 3, upd. destruct (groups s !! g) as [G|] eqn:HG; [|by unfold set_pc, upd; rewrite HG]. unfold set_pc, upd. cbn [groups set_group]. rewrite list_lookup_insert_eq by (by eapply lookup_lt_Some).
  unfold set_group. cbn [prio ngroup lots groups threads]. by rewrite list_insert_insert_eq.
Qed.
Lemma set_pc_self g s G : groups s !! g = Some G -> set_pc g (pc G) s = s.
Proof. intros HG. unfold set_pc, upd, set_group. rewrite HG. destruct s as [a b c d e]. cbn in *. f_equal. apply list_insert_id. rewrite HG. by destruct G. Qed.
(** The queues of a group are those of [s]. *)
Lemma set_pc_queues g p s h H : groups (set_pc g p s) !! h = Some H -> exists H0, groups s !! h = Some H0 /\ rq H = rq H0 /\ remote_rq H = remote_rq H0.
Proof.
  unfold set_pc, upd. destruct (groups s !! g) as [G|] eqn:HG; [|by exists H]. cbn [groups set_group]. destruct (decide (h = g)) as [->|Hne]; [|rewrite list_lookup_insert_ne by done; by exists H].
  rewrite list_lookup_insert_eq by (by eapply lookup_lt_Some). intros [= <-]. by exists G.
Qed.
Lemma tasks_set g s G G' : groups s !! g = Some G -> (tasks (set_group g G' s) + queued G = tasks s + queued G')%nat.
Proof. intros HG. unfold tasks. cbn [groups set_group]. pose proof (sum_insert queued (groups s) g G G' HG). lia. Qed.
Lemma tasks_upd g f s : (forall G, queued (f G) = queued G) -> tasks (upd g f s) = tasks s.
Proof. intros Hf. unfold upd. destruct (groups s !! g) as [G|] eqn:HG; [|done]. pose proof (tasks_set g s G (f G) HG). rewrite Hf in *. lia. Qed.
Lemma tasks_zero s : tasks s = 0%nat <-> forall h H, groups s !! h = Some H -> queued H = 0%nat.
Proof.
  unfold tasks. induction (groups s) as [|G l IH]; cbn [sum_list_with]; [by split|]. split.
  - intros Hz [|h] K HK; [injection HK as <-; lia|]. apply (proj1 IH ltac:(lia) h K HK).
  - intros Hz. pose proof (Hz 0%nat G eq_refl). rewrite (proj2 IH); [lia|]. intros h K HK. by apply (Hz (Datatypes.S h)).
Qed.
(** The worker has taken one task; the queue it was in has one less. *)
Definition took (g : nat) (s s' : S) : Prop := pc <$> groups s' !! g = Some Busy /\ tasks s = Datatypes.S (tasks s') /\ prio s' = prio s.
Lemma pk_take g h s z H0 H : groups s !! g <> None -> groups s !! h = Some H0 -> queued H0 = Datatypes.S (queued H) -> took g s (upd g (fun G => with_pc Busy (with_seed z G)) (set_group h H s)).
Proof.
  intros Hg HH Hq. split_and!.
  - unfold upd. destruct (groups (set_group h H s) !! g) as [G'|] eqn:HG'; [cbn [groups set_group] in *; by rewrite list_lookup_insert_eq by (by eapply lookup_lt_Some)|].
    exfalso. cbn [groups set_group] in HG'. apply lookup_ge_None in HG'. rewrite length_insert in HG'. apply Hg. by apply lookup_ge_None.
  - rewrite tasks_upd by done. pose proof (tasks_set h s H0 H HH). lia.
  - unfold upd. by destruct (groups (set_group h H s) !! g).
Qed.
(** One turn of the loop. *)
Lemma search_turn N s g G i z : length (groups s) = N -> groups s !! g = Some G -> (i < N)%nat -> 
  let h := Z.to_nat (z mod Z.of_nat N) in let s1 := set_pc g (GroupRq i N z) s in
  (exists k, (k <= 2)%nat /\ took g s1 (alone g k s1)) \/
  ((forall H, groups s !! h = Some H -> queued H = 0%nat) /\ alone g 2 s1 = set_pc g (GroupRq (Datatypes.S i) N (u64 (z + _steal_offset G))) s).
Proof.
  intros HN HG Hi h s1. pose proof (set_pc_at g (GroupRq i N z) s G HG) as HG1. fold s1 in HG1. assert (groups s1 !! g <> None) as Hg by (by rewrite HG1). assert (exists H1, groups s1 !! h = Some H1) as [H1 HH1].
  { apply lookup_lt_is_Some. unfold s1, set_pc, upd. rewrite HG. cbn [groups set_group]. rewrite length_insert, HN. unfold h. pose proof (Z.mod_pos_bound z (Z.of_nat N) ltac:(lia)). lia. }
  destruct (set_pc_queues _ _ _ _ _ HH1) as (H0 & HH0 & Eq & Er). rewrite !(alone_step g _ s1 _ HG1). assert (forall k, alone g (Datatypes.S k) s1 = alone g k (group_rq s1 g i N z)) as E1 by (intros k; by rewrite (alone_step g k s1 _ HG1)). 
  assert (group_rq s1 g i N z = if (rq H1 =? 0)%nat then set_pc g (GroupRemote i N z) s else upd g (fun G => with_pc Busy (with_seed z G)) (set_group h (with_rq (rq H1 - 1) (_num_nosignal H1) H1) s1)) as E2.
  { unfold group_rq. rewrite (proj2 (Nat.ltb_lt i N) Hi). cbn zeta. fold h. rewrite HH1. unfold s1 at 1. by rewrite set_pc_pc. }
  destruct (Nat.eqb_spec (rq H1) 0) as [E0|E0].
  2:{ left. exists 1%nat. split; [lia|]. rewrite E1, E2. apply (pk_take g h s1 z H1); [done|done|]. unfold queued. cbn. lia. }
  pose proof (set_pc_at g (GroupRemote i N z) s G HG) as HG2. set (s2 := set_pc g (GroupRemote i N z) s) in *. assert (groups s2 !! g <> None) as Hg2 by (by rewrite HG2).
  assert (exists H2, groups s2 !! h = Some H2) as [H2 HH2] by (apply lookup_lt_is_Some; unfold s2, set_pc, upd; rewrite HG; cbn [groups set_group]; rewrite length_insert; by eapply lookup_lt_Some).
  destruct (set_pc_queues _ _ _ _ _ HH2) as (H0' & HH0' & Eq' & Er'). assert (H0' = H0) as -> by congruence.
  assert (group_remote s2 g i N z (_steal_offset G) = if (remote_rq H2 =? 0)%nat then set_pc g (GroupRq (Datatypes.S i) N (u64 (z + _steal_offset G))) s else upd g (fun G => with_pc Busy (with_seed z G)) (set_group h (with_remote (remote_rq H2 - 1) (_remote_num_nosignal H2) H2) s2)) as E3.
  { unfold group_remote. cbn zeta. fold h. rewrite HH2. unfold s2 at 1. by rewrite set_pc_pc. }
  change (go s1 g (with_pc (GroupRq i N z) G) 0) with (group_rq s1 g i N z). rewrite E2, (alone_step g 0 s2 _ HG2). change (go s2 g (with_pc (GroupRemote i N z) G) 0) with (group_remote s2 g i N z (_steal_offset G)). change (alone g 0 ?x) with x. rewrite E3.
  destruct (Nat.eqb_spec (remote_rq H2) 0) as [E4|E4].
  - right. split; [|done]. intros H HH. assert (H = H0) as -> by congruence. unfold queued. lia.
  - left. exists 2%nat. split; [lia|]. rewrite E1, E2, (alone_step g 0 s2 _ HG2). change (go s2 g (with_pc (GroupRemote i N z) G) 0) with (group_remote s2 g i N z (_steal_offset G)). change (alone g 0 ?x) with x. rewrite E3.
    destruct (pk_take g h s2 z H2 (with_remote (remote_rq H2 - 1) (_remote_num_nosignal H2) H2) Hg2 HH2) as (K1 & K2 & K3); [unfold queued; cbn; lia|].
    split; [done|]. unfold s1, s2, set_pc in *. rewrite !tasks_upd in * by done. split; [exact K2|]. rewrite K3. unfold upd. by rewrite HG.
Qed.
(** [m] turns: either a task is taken, or the groups looked at have none. *)
Lemma search_turns N s g G m i z : length (groups s) = N -> groups s !! g = Some G -> (i + m = N)%nat -> 0 < _steal_offset G -> 0 <= z -> z + Z.of_nat m * _steal_offset G < 2 ^ 64 ->
  let s1 := set_pc g (GroupRq i N z) s in
  (exists k, (k <= 2 * m)%nat /\ took g s1 (alone g k s1)) \/
  ((forall j H, (j < m)%nat -> groups s !! place z (_steal_offset G) N j = Some H -> queued H = 0%nat) /\ exists z', alone g (2 * m) s1 = set_pc g (GroupRq N N z') s).
Proof.
  intros HN HG. revert i z. induction m as [|m IH]; intros i z Hi Ho Hz Hb; cbv zeta.
  { right. split; [lia|]. exists z. by replace i with N by lia. }
  destruct (search_turn N s g G i z HN HG ltac:(lia)) as [(k & Hk & Ht)|[He E]]; [left; exists k; split; [lia|done]|]. rewrite u64_small in E by (unfold is_u64; nia).
  assert (forall k, alone g (2 + k) (set_pc g (GroupRq i N z) s) = alone g k (set_pc g (GroupRq (Datatypes.S i) N (z + _steal_offset G)) s)) as E' by (intros k; rewrite <- E; unfold alone; by rewrite Nat.add_comm, Nat.iter_add).
  destruct (IH (Datatypes.S i) (z + _steal_offset G) ltac:(lia) Ho ltac:(lia) ltac:(lia)) as [(k & Hk & Ht)|[Hq [z' Hz']]].
  - left. exists (2 + k)%nat. split; [lia|]. rewrite E'. destruct Ht as (T1 & T2 & T3). unfold set_pc in *. rewrite !tasks_upd in T2 by done. split; [done|]. rewrite tasks_upd by done. split; [done|]. rewrite T3. unfold upd. by rewrite HG.
  - right. split; [|exists z'; replace (2 * Datatypes.S m)%nat with (2 + 2 * m)%nat by lia; by rewrite E'].
    intros [|j] H Hj HH; [apply He; rewrite <- HH; unfold place; do 4 f_equal; lia|]. apply (Hq j); [lia|]. by rewrite place_next.
Qed.
(** C8: A worker that searches the groups finds a task if there is one.  In whatever
    state a worker begins its round over the groups, if nobody disturbs it, it takes
    exactly one task from the queues of the groups within two steps for each group,
    unless all of them are empty; then it has looked at every group when it goes to
    sleep.  The seed must not wrap around in the round (which [reachable] assumes;
    [steal_wrap_loses]). *)
Theorem steal_round_complete nl np ws s g G z : workers_ok nl ws -> reachable nl np ws s -> groups s !! g = Some G -> pc G = GroupRq 0 (length ws) z ->
  (tasks s <> 0%nat -> exists k, (k <= 2 * length ws)%nat /\ took g s (alone g k s)) /\
  (tasks s = 0%nat -> pc <$> groups (alone g (2 * length ws + 1) s) !! g = Some Park /\ tasks (alone g (2 * length ws + 1) s) = 0%nat).
Proof.
  intros Hws HR HG Hp. destruct (pk_reachable_inv _ _ _ _ Hws HR) as [HW _]. destruct (w_group _ _ _ HW g G HG) as (_ & (Ho & Hg) & _ & _ & A). rewrite Hp in A. destruct A as (_ & _ & Hz & Hb). destruct (w_len _ _ _ HW) as (HN & _ & _ & Hn & _).
  rewrite Nat.sub_0_r in Hb. pose proof (search_turns (length ws) s g G (length ws) 0 z HN HG eq_refl (proj1 Ho) Hz Hb) as T. cbv zeta in T. rewrite <- Hp, (set_pc_self g s G HG) in T. destruct T as [(k & Hk & Ht)|[He [z' E]]].
  - split; [intros _; by exists k|]. intros H0. destruct Ht as (_ & Ht & _). lia.
  - assert (tasks s = 0%nat) as H0.
    { apply tasks_zero. intros h H HH. destruct (place_onto z (_steal_offset G) (length ws) h) as (j & Hj & <-); [lia|done|rewrite <- HN; by eapply lookup_lt_Some|]. by apply (He j). }
    split; [done|]. intros _. rewrite Nat.add_comm. unfold alone in *. cbn [Nat.iter nat_rect Nat.add]. change (nat_rect _ s _ (2 * length ws)) with (Nat.iter (2 * length ws) (fun s => match groups s !! g with Some G => go s g G 0 | None => s end) s). rewrite E.
    rewrite (set_pc_at g _ s G HG). cbn [go with_pc pc]. unfold group_rq. rewrite Nat.ltb_irrefl. split.
    + unfold upd. rewrite (set_pc_at g _ s G HG). cbn [groups set_group]. rewrite list_lookup_insert_eq; [done|]. apply (lookup_lt_Some _ _ (with_pc (GroupRq (length ws) (length ws) z') G)). by apply set_pc_at.
    + unfold set_pc. by rewrite !tasks_upd by done.
Qed.

End Parking.

(** ** Runs *)

Definition okb (s : S) : bool := forallb (fun L => _pending_signal L + 2 <? 2 ^ 31) (lots s) && forallb (fun G => _steal_seed G + Z.of_nat (length (groups s)) * _steal_offset G <? 2 ^ 64) (groups s).
Fixpoint run_ok {config : Config} (l : list call) (s : S) : option S := match l with [] => Some s | c :: l => if okb s then s ← do_call s c; run_ok l s else None end.
Lemma pk_run_ok_steps {config : Config} l s s' : run_ok l s = Some s' -> steps step s s'.
Proof.
  revert s. induction l as [|c l IH]; cbn [run_ok]; intros s; [intros [= <-]; constructor|]. destruct (okb s) eqn:Eo; [|done]. destruct (do_call s c) as [s1|] eqn:E; [|done]. cbn [mbind option_bind]. intros H. eapply steps_app; [|by apply IH]. eapply steps_trans; [apply steps_refl|]. exists c. split; [|done].
  apply andb_prop in Eo as [E1 E2]. rewrite forallb_forall in E1, E2. split; [intros l' L HL; apply Z.ltb_lt, E1, list_elem_of_In; by eapply list_elem_of_lookup_2|intros g G HG; apply Z.ltb_lt, E2, list_elem_of_In; by eapply list_elem_of_lookup_2].
Qed.
#[local] Instance sample_config : Config := { no_signal_when_no_waiter := true; rq_capacity := 4; remote_capacity := 2; priority_capacity := 2 }.
Definition goes (g k : nat) : list call := replicate k (Go g 0).
(** Two workers fall asleep; a task is queued for the first one and wakes the second,
    which takes it, queues another one, runs that, and falls asleep again. *)
Definition sample_workers : list (nat * Z) := [(0%nat, 5); (1%nat, 7)].
Lemma sample_workers_ok : workers_ok 2 sample_workers.
Proof. split; [lia|]. split; [cbn; lia|]. repeat constructor; done. Qed.
(** A thread stops both lots. *)
Definition stop_calls : list call := goes 0 3 ++ goes 1 2 ++ [Stop 0; GoThread 0 0; GoThread 0 0; GoThread 0 0; GoThread 0 0; GoThread 0 0].
Definition stop_end : S := default (init 0 0 []) (run_ok stop_calls (init 2 1 sample_workers)).
Lemma stop_reachable : reachable 2 1 sample_workers stop_end.
Proof. apply (pk_run_ok_steps stop_calls). vm_compute. reflexivity. Qed.
Lemma stop_wakes_all_witness : pc <$> groups stop_end = [SubWaiter; Futex] /\ pc <$> groups stop_end !! 0%nat <> Some Asleep.
Proof.
  split; [vm_compute; reflexivity|]. destruct (groups stop_end !! 0%nat) as [G|] eqn:HG; [|done]. intros [= E]. refine (proj1 (stop_wakes_all 2 1 sample_workers stop_end 0 (mkLot 1 1) sample_workers_ok stop_reachable _ _ _ 0 G HG _) E); [vm_compute; reflexivity|vm_compute; reflexivity| |].
  - intros [|p]; vm_compute; done.
  - vm_compute in HG. by injection HG as <-.
Defined.
(** The first worker sleeps and a task has been queued for it; the second has been
    woken and begins its search. *)
Definition search_calls : list call := goes 0 3 ++ goes 1 3 ++ [Remote 0 0 false; GoThread 0 1; GoThread 0 1; GoThread 0 1; GoThread 0 1] ++ goes 1 4.
Definition search_begin : S := default (init 0 0 []) (run_ok search_calls (init 2 1 sample_workers)).
Lemma pk_search_reachable : reachable 2 1 sample_workers search_begin.
Proof. apply (pk_run_ok_steps search_calls). vm_compute. reflexivity. Qed.
Definition searcher : Group := mkGroup 0 0 0 0 1 7 (prime_offset 7) 2 (GroupRq 0 2 7).
Lemma steal_round_complete_witness : tasks search_begin = 1%nat /\ exists k, (k <= 4)%nat /\ took 1 search_begin (alone 1 k search_begin).
Proof. split; [vm_compute; reflexivity|]. refine (proj1 (steal_round_complete 2 1 sample_workers search_begin 1 searcher 7 sample_workers_ok pk_search_reachable _ _) _); [vm_compute; reflexivity|vm_compute; reflexivity|vm_compute; discriminate]. Defined.
(** In the round in which the seed wraps around, groups are left out.  Three workers
    are asleep; a task is queued for the third and wakes the first, which does not
    find it and falls asleep again. *)
Definition wrap_workers : list (nat * Z) := [(0%nat, 2 ^ 64 - 1); (0%nat, 5); (0%nat, 7)].
Definition wrap_calls : list call := goes 0 3 ++ goes 1 3 ++ goes 2 3 ++ [Remote 0 2 false; GoThread 0 0; GoThread 0 0; GoThread 0 0; GoThread 0 0] ++ goes 0 15.
Lemma steal_wrap_loses : match run wrap_calls (init 1 1 wrap_workers) with Some s => at_work s = false /\ remote_rq <$> groups s = [0%nat; 0%nat; 1%nat] | None => False end.
Proof. vm_compute. done. Qed.
(** Once the workers have been told to stop, the CHECK of [choose_one_group] fails for
    who starts a bthread from outside, and for the timer thread. *)
Lemma remote_after_stop : run [Stop 0; Remote 1 0 false] (init 1 2 sample_workers) = None.
Proof. vm_compute. reflexivity. Qed.
End PK.
